(* ===== verification/_CoqProject ===== *)
-Q . S2P
Prelude.v
Tables.v
HttpNames.v
HttpMessage.v
HttpFields.v
HttpHeaders.v
Unchunk.v
Url.v
ThomPike.v
Text.v
Numbers.v
Ip.v
TokenBucket.v
Dates.v
Types.v
Escape.v
Critbit.v
Memtrack.v
Mmap.v
Sorting.v
Heapsort.v
Qsort.v
IntSort.v
Conv.v
Format.v
Leb.v
Dll.v
Console.v
Mutex.v
Semaphore.v
Base64.v
Base32.v
Seccomp.v
PledgeTables.v
Pledge.v
PledgeFilter.v
PledgeConfine.v
Memory.v
Strings.v
Memcmp.v
Memmove.v
Memset.v
StrCopy.v
Substring.v
Tokens.v
Utf8.v
PledgeCall.v
Links.v
