(* ===== verification/Prelude.v ===== *)
(** * Verification library for the core of Cosmopolitan

    Cosmopolitan is a C library whose programs run on several operating systems without being
    compiled again, with an HTTP stack (net/http) on top. This library models in Rocq the parts
    that carry logic of their own and can be read without the hardware: the whole of net/http but
    for its generated data, the memory and string functions with their vectors and words, the
    sandbox of pledge, the string trees and sorts of libc/mem, numbers as text, the table of memory
    mappings with mmap and munmap, linked lists and the console on Windows, and the locks that
    threads use. Paths below are relative to src/.

    ** The parts of the program and the files that model them

    net/http reads a request in this order: a push parser fills a message with slices of the
    buffer, headers are looked up and read back, the body is freed of its chunked coding, the
    target is parsed as a URL and decoded, and paths, hosts, ranges and dates are judged.

    - [Prelude]: notation for C characters and strings, integers of a width ([u8] to [u64], [s8] to
      [s64]) with their wrap-around written out, errors, buffers with their NUL, machine words as
      lists of lanes, and the lemmas and tactics that the other files share.
    - [Tables]: the character tables of net/http and libc/str, and what they decide.
    - [HttpNames]: the numbers of methods and headers, gethttpmethod.inc and gethttpheader.inc with
      their perfect hashes, gethttpheadername.c, khttprepeatable.c.
    - [HttpMessage], [HttpFields], [HttpHeaders]: parsehttpmessage.c. The record [HttpMessage] is
      struct HttpMessage; [parse_case] is the switch of the loop, one [*_body] for each of its
      cases; [store_header] is the header table with its growing array. [Machine] is the grammar as a
      table of states and classes of characters, written apart from the code. headerhassubstring.c
      and foldheader.c read the header table.
    - [Unchunk]: unchunk.c, over struct HttpUnchunker, on the buffer that it rewrites in place.
    - [Url]: parseurl.c, encodeurl.c and the escape functions.
    - [ThomPike], [Text]: variable-length integers (UTF-8) of libc/str/thompike.h, and underlong.c,
      hascontrolcodes.c, visualizecontrolcodes.c, isacceptablepath.c, isreasonablepath.c, the
      Latin-1 functions and encodehttpheadervalue.c, with the 16-byte fast paths.
    - [Numbers], [Ip], [TokenBucket]: lengths, ranges, ports, hosts, addresses and networks;
      classification of addresses; rate limiting by tokens in shared memory.
    - [Dates], [Types], [Escape], [Base64], [Base32]: HTTP dates and ISO 8601, tables that are
      searched by bisection, HTML, JavaScript and indentation, and the two codecs.
    - [Critbit]: libc/mem/critbit0_*.c. Tagged pointers are a tree with strings at its leaves.
    - [Memtrack], [Mmap]: libc/intrin/memtrack.greg.c with findmemoryinterval.c, and on top of it
      libc/runtime/mmap.c and munmap.c under their lock. The array of entries is a list with its
      count and capacity; [__mmap_unlocked] and [__munmap_unlocked] return the calls they make to the
      kernel, whose answers are arguments.
    - [Sorting], [Heapsort], [Qsort], [IntSort]: what the sorts have in common; libc/mem/heapsort.c,
      qsort.c, radix_sort_int32.c and radix_sort_int64.c, libc/str/intsort.c and longsort.c, on arrays
      that are lists, with the comparison function and the allocator as arguments.
    - [Conv], [Format], [Leb]: strtol and strtoul, also for wide strings, atoi, atol and sizetol; the
      Format functions for integers; and uleb64 and its relatives, all of libc/fmt and libc/intrin.
    - [Dll]: libc/intrin/dll.c, as loads and stores in a heap of cells.
    - [Console]: libc/calls/read-nt.c. Keystrokes are in a pool of cells on the lists of [Dll]; a
      record of the console is an event, and the bytes that are echoed are output.
    - [Memory]: memory that maps addresses to bytes where pages are mapped, blocks that are loaded from
      it, and masks of blocks: [pmovmskb] with one bit for each byte, [zero_bytes] with the top bits
      of the bytes that are zero. [Strings]: libc/intrin/strlen.c, strnlen.c, strchr.c, strchrnul.c,
      strcmp.c and libc/str/strcasecmp.c, rawmemchr.c, with the variants for machines. [Memcmp]:
      memcmp.c, memchr.c, memcasecmp.c, slices, and net/https/certhashost.c, which compares names.
      [Memmove], [Memset]: memmove.c and memset.c of libc/intrin; [copy] takes the pieces that a
      step loads before it stores. [StrCopy]: stpcpy.c, strcpy.c, strcat.c, strlcpy.c, strlcat.c,
      memccpy.c and, over the interface [Regions] that memmove and bzero satisfy, strncpy.c,
      stpncpy.c and strncat.c. [Substring]: strstr.c, strcasestr.c, memmem.c, memrchr.c. [Tokens]:
      strspn.c, strcspn.c, strpbrk.c, strsep.c, strtok_r.c, chomp.c, which cut strings in memory.
      [Utf8]: isutf8.c, whose sequences are those of [ThomPike]. [Links]: the functions on lists
      that the parsers use for memmem, memrchr, strchr and memmove are those in memory.
    - [Seccomp]: the records of libc/calls/struct/filter.internal.h and seccomp.internal.h, and the
      programs of them: [run_bpf] is the meaning of the language for the instructions that occur, and
      [bpf_check] what the kernel asks of programs. [PledgeTables]: the numbers, groups and
      promises of libc/calls/pledge-linux.c for x86-64. [Pledge]: how a filter is assembled from
      them. [PledgeFilter]: what its pieces test, the policy that the comments of the source state, and
      that a filter decides as the policy does but for the calls of [contested], on which comments,
      documentation and code disagree. [PledgeConfine]: what follows for programs. [PledgeCall]: parsepromises.c, pledge.c and
      the log of violations.
    - [Mutex]: libc/intrin/pthread_mutex_*.c and pthread_spin_*.c. A function is the tree of its
      accesses to the mutex, and [step] interleaves threads access by access.
    - [Semaphore]: libc/thread/sem_*.c for unnamed semaphores. A thread is at a [point] of the code;
      [sem_step] makes one access.

    ** What is shown

    - Parser: it does what the table of [Machine] says, byte by byte, keeps the invariant of its
      record, never reads behind its buffer, can be resumed between tokens, lets no control codes
      through, and parses a rendered request back to its method, target, version and headers.
    - Chunked coding: decoding undoes encoding, in one or several calls, and in place equals out of
      place.
    - URLs, parameters, escapes, Base64, Base32, dates: round trips, and that the buffers suffice. Dates
      from March to December of years such as 2000, on which the code is a day off, are left out.
    - Names, media types, reasons, addresses: hashes and bisections equal a linear search, and the
      tests on addresses equal longest prefix matching.
    - Text: decoding and canonical encoding, and which paths, lengths and ranges are accepted, exactly.
    - Trees: the operations refine those on a finite set of strings (shorter than 2^32 bytes, the
      width of the place where two of them differ), ordered as by strcmp.
    - Memory: tracking, untracking, mmap and munmap are stated against the owner of each frame of the
      address space; the table stays sorted and disjoint; mappings are never placed over others unless
      MAP_FIXED asks for it. Where the kernel refuses memory for the table or a guard page the program
      may stop, and the theorems say exactly where.
    - Sorts: all of them return, permute, and sort if the comparison is an order.
    - Numbers: reading is exact on every string and base, with errors and the end pointer (but for
      some results in the cases of overflow and of no digits, which the docs see otherwise), and
      undoes printing.
    - Lists and console: doubly linked lists refine lists of elements, and the console a terminal that
      is two queues of byte strings, whatever events arrive.
    - Strings and memory: functions that read vectors and words past the ends of strings give what the
      functions on bytes give, and do not read a page that the strings are not in; memcmp, memmove and
      memset touch nothing but their regions, on every path. Copies of strings write exactly the bytes
      of the string, no byte behind a limit; searches find the first place; cutting a string gives
      its fields; isutf8 accepts all encodings of Unicode scalar values and nothing but shortest
      Thompson-Pike encodings.
    - Sandbox: for every set of promises, the filter is a program that the kernel accepts and decides
      every system call that is not contested as the policy does; calls of consequence need the promises
      for them; more promises allow more; strings of promises mean their words; executed programs get
      no more, and asking for more is refused.
    - Threads: token buckets stay within bounds with one acquirer; mutexes exclude, whatever the
      interleaving, and give the result that their type asks for, unless nsync takes over, which it
      does for normal private mutexes where it is linked; semaphores neither lose nor create units as
      long as no post finds SEM_VALUE_MAX, and no assertion on their own state fails.
    - Defects that the modelling showed are theorems as well: see the lemmas whose names end in
      [_defect] or [_overflow], and [auto_map_below], [finish_memory_unmaps_frames],
      [track_memory_size], [NeedsSquareBrackets_zero], [EncodeBase32_null], [tkill_signals_any],
      [sigsys_replaceable], [cpath_opens_any], [stdio_no_getdents], [wpath_no_readlink],
      [recvfd_no_sendmsg], [setsockopt_0x13_allowed], [tmpfile_alone_sets_bits], [chmod_bits_kill],
      [exec_without_promises]. The
      gravest is [CertHasHost_defect]: memcasecmp does not compare all of its regions, so that the
      certificate of one site passes for another.

    ** Fuel and bounds

    Loops that are structural in the source (over a string, a table or a counter that falls) are
    structural here. The others take fuel, and a theorem shows that what their callers pass is
    enough: the parser and the chunk decoder take one more than the bytes that are left, the
    decoder of Base64 and the text functions the length of their input or one more,
    bisections the length of the table, [tobits] the width of an int, and
    the loops over the memory table the number of its entries. The sorts take one more than the
    elements, 65 levels for the depth of introsort; digits take the width of the number, ten bytes for
    [uleb_loop]; walks of lists one more than the cells; the console its pool of keystrokes and one or
    two more. String functions take any fuel, and the theorems say how much is enough: one more than the
    length of the string, three times as much and more for [strcasecmp], a sixteenth of the region for
    [memcmp], about twice the haystack for [memmem], a thirty-second for [memmove] and [memset] (and 17 for the bytes up to an aligned
    address). Jumps of filters go forward only, so that [run_bpf] is structural.
    [Spin] in [Mutex] and the waiting loop in [Semaphore] need not end, and are steps of a relation.
    Lengths are below [2 ^ 60] or so where the code computes sizes without a test for overflow; the
    theorems say so.

    ** What is assumed

    Allocators, the kernel, the clock, the assembly of nsync, the process id, comparison functions, the
    events of the console, and what the machine can do (SSE, AVX, ERMS, the size of the cache) are
    arguments. The kernel is one of System V whose mmap of fixed memory gives the address asked for or
    MAP_FAILED ([honest], [kernel_ok]); munmap, mprotect and the futex calls may answer anything.
    Mutexes are used outside of children of vfork, where locking does nothing. Filters run on x86-64, the only machine whose system call numbers are in the tables. The
    size of the cache is zero, which means that it is not known, or at least 64 bytes. Memory
    is sequentially consistent, and a bit-field is accessed on its own, which for the mutex makes no
    difference since only its holder stores to the word they share. Signed left shifts drop the bits
    that do not fit, and arithmetic right shifts keep the sign, as the compilers of the project do.

    ** What is not modelled

    Files inside of the executable (zipos), the address sanitizer and the tracing in mmap; the
    Windows side of mmap is defined, and its theorems are about System V. Named semaphores, condition
    variables, barriers and thread creation rest on nsync, assembly and system calls. Of pledge, the
    part for OpenBSD, the handler of violations after its log, and other machines than x86-64; of the
    console, its lock and other files. The variants of string functions in assembly for ARM, and of
    rawmemchr by words. The rest of libc is system call wrappers, stdio, time zones,
    floating point, wide strings and the loader of portable executables; tool/ and examples/ are
    programs on top of it, such as redbean, that mostly do I/O; libc/nt is generated; third_party is
    not of this project. Good next parts are unveil of libc/calls, the versions of string
    functions for 16-bit and wide characters, and the file descriptor table. *)

(** This file holds the shared vocabulary of the development. *)

From stdpp Require Export base list numbers strings.
From Stdlib Require Export ZArith Lia.
From Stdlib Require Sorting.Sorted.

#[global] Open Scope Z_scope.

(* ------------------------------------------------------------------ *)
(** ** Notation *)

Declare Scope c_scope.
Delimit Scope c_scope with C.
#[global] Open Scope c_scope.

(** A C character constant: [# "/"] is the number 47. *)
Notation "# x" :=
  (ltac:(let v := eval vm_compute in (Z.of_N (match x%string with String.String a _ => Ascii.N_of_ascii a | _ => 0%N end)) in exact v))
  (at level 1, x at level 0, only parsing) : c_scope.

(** A C string constant, without its terminating NUL. *)
Notation "'bstr' x" :=
  (ltac:(let v := eval vm_compute in
           (map (fun a => Z.of_N (Ascii.N_of_ascii a)) (String.list_ascii_of_string x%string))
         in exact v))
  (at level 1, x at level 0, only parsing) : c_scope.

(** A region of memory, read as [unsigned char]s. *)
Abbreviation bytes := (list Z).

(* ------------------------------------------------------------------ *)
(** ** Machine integers *)

Definition is_byte (b : Z) : Prop := 0 <= b < 256.
Abbreviation Bytes := (Forall is_byte).

Definition u8 (z : Z) : Z := z mod 2 ^ 8.
Definition u16 (z : Z) : Z := z mod 2 ^ 16.
Definition u32 (z : Z) : Z := z mod 2 ^ 32.
Definition u64 (z : Z) : Z := z mod 2 ^ 64.
Definition s8 (z : Z) : Z := (z + 2 ^ 7) mod 2 ^ 8 - 2 ^ 7.
Definition s16 (z : Z) : Z := (z + 2 ^ 15) mod 2 ^ 16 - 2 ^ 15.
Definition s32 (z : Z) : Z := (z + 2 ^ 31) mod 2 ^ 32 - 2 ^ 31.
Definition s64 (z : Z) : Z := (z + 2 ^ 63) mod 2 ^ 64 - 2 ^ 63.

(** [(size_t)-1], by which a caller asks for [strlen]. *)
Definition SIZE_MAX : Z := 2 ^ 64 - 1.

#[global] Instance is_byte_dec b : Decision (is_byte b).
Proof. unfold is_byte; apply _. Defined.

(* ------------------------------------------------------------------ *)
(** ** Results with an errno *)

Inductive errno := ENOMEM | EILSEQ | EBADMSG.

Inductive result (A : Type) :=
| Ok (a : A)
| Err (e : errno).
Arguments Ok {A} _.
Arguments Err {A} _.

#[global] Instance errno_eq_dec : EqDecision errno.
Proof. solve_decision. Defined.

#[global] Instance result_bind : MBind result := fun A B f m =>
  match m with Ok a => f a | Err e => Err e end.
#[global] Instance result_ret : MRet result := fun A a => Ok a.

(* ------------------------------------------------------------------ *)
(** ** Tables and C strings *)

(** Indexing a constant table of [unsigned char] or [signed char]. *)
Definition tab (t : list Z) (c : Z) : Z := nth (Z.to_nat c) t 0.

(** [switch (h)] over constants: the first case that matches, [None] for [default]. *)
Fixpoint switch {A} (h : Z) (cases : list (Z * A)) : option A :=
  match cases with
  | [] => None
  | (c, v) :: cases => if h =? c then Some v else switch h cases
  end.

(** [strlen]: the bytes before the first NUL. *)
Fixpoint cstr (p : bytes) : bytes :=
  match p with
  | [] => []
  | c :: p' => if c =? 0 then [] else c :: cstr p'
  end.

(** The bytes a function sees for a pair [(p, n)] of arguments. Every entry point
    opens with [if (n == -1) n = p ? strlen(p) : 0]; [None] is the null pointer. *)
Definition strarg (p : option bytes) (n : Z) : bytes :=
  match p with
  | None => []
  | Some m => if n =? SIZE_MAX then cstr m else take (Z.to_nat n) m
  end.

Definition then_compare (c d : comparison) : comparison := match c with Eq => d | e => e end.

(** [strcmp] as an order. *)
Fixpoint lex (a b : bytes) : comparison :=
  match a, b with
  | [], [] => Eq
  | [], _ => Lt
  | _, [] => Gt
  | x :: a, y :: b => then_compare (x ?= y) (lex a b)
  end.

(** What the functions with the [stpcpy]-like interface hand back: the
    NUL-terminated buffer and the length they store through [size_t *z]. *)
Definition cbuf (out : bytes) : bytes * Z := (out ++ [0], Z.of_nat (length out)).

(** Little-endian numbers of [n] bytes. *)
Fixpoint pack (l : bytes) : Z :=
  match l with [] => 0 | v :: l => v + 256 * pack l end.
Fixpoint unpack (n : nat) (w : Z) : bytes :=
  match n with O => [] | S n => w mod 256 :: unpack n (w / 256) end.

(* ------------------------------------------------------------------ *)
(** ** Lemmas on machine integers *)

Lemma byte_range b : is_byte b -> 0 <= b < 256.
Proof. exact (fun H => H). Qed.

Lemma u8_id z : 0 <= z < 256 -> u8 z = z.
Proof. intros. unfold u8. apply Z.mod_small. lia. Qed.

Lemma u8_byte z : is_byte (u8 z).
Proof. unfold u8, is_byte. change 256 with (2 ^ 8). apply Z.mod_pos_bound. lia. Qed.

Lemma u32_id z : 0 <= z < 2 ^ 32 -> u32 z = z.
Proof. intros. unfold u32. apply Z.mod_small. lia. Qed.

Lemma u64_id z : 0 <= z < 2 ^ 64 -> u64 z = z.
Proof. intros. unfold u64. apply Z.mod_small. lia. Qed.

(** [floor((a+b)/2)] without overflow. *)
Lemma midpoint l r : Z.land l r + Z.shiftr (Z.lxor l r) 1 = (l + r) / 2.
Proof.
  assert (l + r = Z.lxor l r + Z.land l r * 2) as ->.
  { rewrite <- (Z.add_lor_land l r). assert (Z.lor l r = Z.lxor l r + Z.land l r) as ->; [|lia].
    rewrite Z.add_nocarry_lxor.
    - apply Z.bits_inj'. intros i _. rewrite !Z.lxor_spec, Z.lor_spec, Z.land_spec.
      by destruct (Z.testbit l i), (Z.testbit r i).
    - apply Z.bits_inj'. intros i _. rewrite !Z.land_spec, Z.lxor_spec, Z.bits_0.
      by destruct (Z.testbit l i), (Z.testbit r i). }
  rewrite Z.div_add, Z.shiftr_div_pow2 by lia. change (2 ^ 1) with 2. lia.
Qed.

Lemma s64_id z : - 2 ^ 63 <= z < 2 ^ 63 -> s64 z = z.
Proof. intros H. unfold s64. rewrite Z.mod_small by lia. lia. Qed.

Lemma s16_id z : - 2 ^ 15 <= z < 2 ^ 15 -> s16 z = z.
Proof. intros. unfold s16. rewrite Z.mod_small by lia. lia. Qed.

Lemma s32_id z : - 2 ^ 31 <= z < 2 ^ 31 -> s32 z = z.
Proof. intros. unfold s32. rewrite Z.mod_small by lia. lia. Qed.

(** [x << k | y] with disjoint bits is [x * 2^k + y]. *)
Lemma lor_shiftl_add x y k :
  0 <= k -> 0 <= y < 2 ^ k -> Z.lor (Z.shiftl x k) y = x * 2 ^ k + y.
Proof.
  intros Hk Hy. rewrite Z.shiftl_mul_pow2 by done.
  rewrite <- (Z.add_lor_land (x * 2 ^ k) y).
  assert (Z.land (x * 2 ^ k) y = 0) as ->; [|lia].
  apply Z.bits_inj'. intros n Hn. rewrite Z.land_spec, Z.bits_0.
  destruct (decide (n < k)).
  - rewrite Z.mul_pow2_bits_low by lia. done.
  - assert (Z.testbit y n = false) as ->; [|apply andb_false_r].
    rewrite <- (Z.mod_small y (2 ^ k)) by done. apply Z.mod_pow2_bits_high. lia.
Qed.

Lemma land_mask x k : 0 <= k -> Z.land x (2 ^ k - 1) = x mod 2 ^ k.
Proof. intros. rewrite <- Z.land_ones by done. f_equal. rewrite Z.ones_equiv. lia. Qed.

(** The masks the sources spell as constants. *)
Lemma land_63 x : Z.land x 63 = x mod 64.
Proof. apply (land_mask x 6). lia. Qed.
Lemma land_255 x : Z.land x 255 = x mod 256.
Proof. apply (land_mask x 8). lia. Qed.
Lemma land_15 x : Z.land x 15 = x mod 16.
Proof. apply (land_mask x 4). lia. Qed.

(** Extracting a bit field: [(x & (m << k)) >> k]. *)
Lemma shiftr_land_field x m k :
  0 <= k -> Z.shiftr (Z.land x (Z.shiftl m k)) k = Z.land (Z.shiftr x k) m.
Proof.
  intros. rewrite Z.shiftr_land. f_equal. rewrite Z.shiftr_shiftl_l by done.
  rewrite Z.sub_diag. apply Z.shiftl_0_r.
Qed.

(* ------------------------------------------------------------------ *)
(** ** Lemmas on buffers *)

Lemma strarg_len m n :
  0 <= n -> n <> SIZE_MAX -> strarg (Some m) n = take (Z.to_nat n) m.
Proof. intros H0 H1. unfold strarg. by rewrite (proj2 (Z.eqb_neq _ _) H1). Qed.

(** Passing on a returned buffer with the length that came with it. *)
Lemma strarg_cbuf out :
  Z.of_nat (length out) < SIZE_MAX -> strarg (Some (cbuf out).1) (cbuf out).2 = out.
Proof.
  intros H. unfold cbuf. cbn [fst snd]. rewrite strarg_len by lia.
  rewrite Nat2Z.id. apply take_app_length.
Qed.

Lemma cbuf_length out : length (cbuf out).1 = S (length out).
Proof. simpl. rewrite length_app. simpl. lia. Qed.

Lemma Bytes_tab m i : Bytes m -> is_byte (tab m i).
Proof.
  intros H. unfold tab. generalize (Z.to_nat i). clear i.
  induction H; intros [|i]; cbn [nth]; try done; unfold is_byte; lia.
Qed.

Lemma tab_take m n i : 0 <= i < Z.of_nat n -> tab (take n m) i = tab m i.
Proof.
  intros Hi. unfold tab. assert (Z.to_nat i < n)%nat as L by lia.
  clear Hi. revert n L. generalize (Z.to_nat i). clear i.
  induction m as [|x m IH]; intros i [|n] L; try lia; [done|].
  destruct i; cbn [take nth]; [done|]. apply IH. lia.
Qed.

Lemma pack_range l : Bytes l -> 0 <= pack l < 256 ^ Z.of_nat (length l).
Proof.
  induction 1 as [|v l Hv _ IH]; [cbn; lia|]. cbn [pack length]. unfold is_byte in Hv.
  rewrite Nat2Z.inj_succ, Z.pow_succ_r by lia. lia.
Qed.

Lemma unpack_pack l : Bytes l -> unpack (length l) (pack l) = l.
Proof.
  induction 1 as [|v l Hv _ IH]; [done|]. cbn [pack length unpack]. unfold is_byte in Hv.
  replace ((v + 256 * pack l) mod 256) with v by (rewrite Z.mul_comm, Z.mod_add, Z.mod_small by lia; done).
  replace ((v + 256 * pack l) / 256) with (pack l)
    by (rewrite Z.mul_comm, Z.div_add, Z.div_small by lia; done).
  by rewrite IH.
Qed.

Lemma testbit_lane a x i :
  is_byte a -> 0 <= i -> Z.testbit (a + 256 * x) i = if i <? 8 then Z.testbit a i else Z.testbit x (i - 8).
Proof.
  intros Ha Hi. rewrite Z.add_comm, Z.mul_comm. change 256 with (2 ^ 8).
  rewrite <- (lor_shiftl_add x a 8) by (unfold is_byte in Ha; lia). rewrite Z.lor_spec, Z.shiftl_spec by done.
  destruct (Z.ltb_spec i 8).
  - rewrite Z.testbit_neg_r by lia. done.
  - assert (Z.testbit a i = false) as ->; [|apply orb_false_r].
    rewrite <- (Z.mod_small a (2 ^ 8)) by (unfold is_byte in Ha; lia). apply Z.mod_pow2_bits_high. lia.
Qed.

Section Lanes.
Context (op : Z -> Z -> Z) (f : bool -> bool -> bool).
Context (op_spec : forall a b i, Z.testbit (op a b) i = f (Z.testbit a i) (Z.testbit b i)).
Context (op_byte : forall a b, is_byte a -> is_byte b -> is_byte (op a b)).
Context (op_0 : op 0 0 = 0).

(** A bitwise operation works lane by lane. *)
Lemma pack_op l : forall r, Bytes l -> Bytes r -> length l = length r ->
  op (pack l) (pack r) = pack (zip_with op l r).
Proof.
  induction l as [|a l IH]; intros [|b r] Bl Br L; try done.
  apply Forall_cons in Bl as [Ha Bl]. apply Forall_cons in Br as [Hb Br]. cbn in L.
  cbn [pack zip_with]. rewrite <- (IH r) by (done || lia).
  apply Z.bits_inj'. intros i Hi. rewrite op_spec, !testbit_lane by (done || by apply op_byte).
  destruct (i <? 8); by rewrite op_spec.
Qed.
End Lanes.

Lemma byte_lt_pow a : 0 <= a -> (forall i, 8 <= i -> Z.testbit a i = false) -> is_byte a.
Proof.
  intros H0 H. split; [done|]. destruct (decide (a = 0)) as [->|N]; [lia|].
  change 256 with (2 ^ 8). apply Z.log2_lt_pow2; [lia|].
  destruct (decide (8 <= Z.log2 a)) as [L|]; [|lia]. specialize (H _ L).
  rewrite Z.bit_log2 in H by lia. done.
Qed.

Lemma byte_high a i : is_byte a -> 8 <= i -> Z.testbit a i = false.
Proof.
  intros Ha Hi. rewrite <- (Z.mod_small a (2 ^ 8)) by (unfold is_byte in Ha; lia).
  apply Z.mod_pow2_bits_high. lia.
Qed.

Lemma lxor_byte a b : is_byte a -> is_byte b -> is_byte (Z.lxor a b).
Proof.
  intros Ha Hb. apply byte_lt_pow.
  - apply Z.lxor_nonneg. unfold is_byte in *. lia.
  - intros i Hi. by rewrite Z.lxor_spec, !byte_high.
Qed.
Lemma land_byte a b : is_byte a -> is_byte b -> is_byte (Z.land a b).
Proof.
  intros Ha Hb. apply byte_lt_pow.
  - apply Z.land_nonneg. unfold is_byte in *. lia.
  - intros i Hi. by rewrite Z.land_spec, !byte_high.
Qed.
Lemma lor_byte a b : is_byte a -> is_byte b -> is_byte (Z.lor a b).
Proof.
  intros Ha Hb. apply byte_lt_pow.
  - apply Z.lor_nonneg. unfold is_byte in *. lia.
  - intros i Hi. by rewrite Z.lor_spec, !byte_high.
Qed.

(** Ordered lists. *)
Lemma SSorted_app_iff {A} (R : A -> A -> Prop) l r :
  Sorted.StronglySorted R (l ++ r) <->
  Sorted.StronglySorted R l /\ Sorted.StronglySorted R r /\ (forall a b, a ∈ l -> b ∈ r -> R a b).
Proof.
  induction l as [|c l IH]; cbn [app].
  - split; [intros H; split; [constructor|]; split; [done|]|by intros (_ & ? & _)].
    intros a b Ha. by apply elem_of_nil in Ha.
  - split.
    + intros H. inversion H as [|? ? S F]; subst. apply IH in S as (Sl & Sr & X).
      apply Forall_app in F as [Fl Fr]. split; [by constructor|]. split; [done|].
      intros a b Ha Hb. apply elem_of_cons in Ha as [->|Ha]; [|by apply X].
      rewrite Forall_forall in Fr. by apply Fr.
    + intros (Sl & Sr & X). inversion Sl as [|? ? S F]; subst. constructor.
      * apply IH. split; [done|]. split; [done|]. intros a b Ha Hb. apply X; [by apply list_elem_of_further|done].
      * apply Forall_app. split; [done|]. apply Forall_forall. intros b Hb. apply X; [apply list_elem_of_here|done].
Qed.

(** Checking a fact of every number below [n] by computation. *)
Definition zbelow (n : nat) : list Z := map Z.of_nat (seq 0 n).

Lemma forall_below (n : nat) (P : Z -> bool) :
  forallb P (zbelow n) = true -> forall b, 0 <= b < Z.of_nat n -> P b = true.
Proof.
  intros H b Hb. rewrite forallb_forall in H. apply H.
  unfold zbelow. rewrite in_map_iff. exists (Z.to_nat b).
  split; [lia|]. apply in_seq. lia.
Qed.

Lemma forall_byte (P : Z -> bool) :
  forallb P (zbelow 256) = true -> forall b, is_byte b -> P b = true.
Proof. exact (forall_below 256 P). Qed.

(** Induction by three elements at a time. *)
Lemma list_ind3 {A} (P : list A -> Prop) :
  P [] -> (forall a, P [a]) -> (forall a b, P [a; b]) ->
  (forall a b c l, P l -> P (a :: b :: c :: l)) -> forall l, P l.
Proof.
  intros H0 H1 H2 H3. fix IH 1. intros [|a [|b [|c l]]].
  - exact H0.
  - apply H1.
  - apply H2.
  - apply H3, IH.
Qed.

(* ------------------------------------------------------------------ *)
(** ** Automation *)

Create HintDb cdb.
Create Rewrite HintDb crw.
#[export] Hint Resolve u8_byte : cdb.
#[export] Hint Rewrite land_63 land_255 land_15 : crw.

(** Case analysis on every boolean test of the goal, with its arithmetic meaning
    in the context. *)
Ltac ztest :=
  repeat match goal with
  | |- context [Z.eqb ?a ?b] => destruct (Z.eqb_spec a b)
  | |- context [Z.leb ?a ?b] => destruct (Z.leb_spec a b)
  | |- context [Z.ltb ?a ?b] => destruct (Z.ltb_spec a b)
  end.

(** Splits an equation between explicit lists of table entries into equations between
    the entries' indices. *)
Ltac cons_eq :=
  repeat match goal with
  | |- _ :: _ = _ :: _ => apply (f_equal2 cons)
  | |- [] = [] => reflexivity
  | |- tab ?t _ = tab ?t _ => apply (f_equal (tab t))
  end; try reflexivity.

(** Proves a closed decidable fact by running its decision procedure. *)
Ltac decide_now := apply (bool_decide_unpack _); vm_compute; exact I.
