(* ===== verification/HttpNames.v ===== *)
(** HTTP methods and header names: the numbers of net/http/http.h, the gperf perfect hashes
    behind GetHttpMethod and GetHttpHeader (net/http/gethttpmethod.inc and
    net/http/gethttpheader.inc), GetHttpHeaderName and the tables kHttpMethod and
    kHttpRepeatable. *)

From S2P Require Import Prelude Tables.

(* ------------------------------------------------------------------ *)
(** ** Numbers of http.h *)

Definition kHttpGet : Z := 1.
Definition kHttpHead : Z := 2.
Definition kHttpPost : Z := 3.
Definition kHttpPut : Z := 4.
Definition kHttpDelete : Z := 5.
Definition kHttpOptions : Z := 6.
Definition kHttpConnect : Z := 7.
Definition kHttpTrace : Z := 8.
Definition kHttpCopy : Z := 9.
Definition kHttpLock : Z := 10.
Definition kHttpMerge : Z := 11.
Definition kHttpMkcol : Z := 12.
Definition kHttpMove : Z := 13.
Definition kHttpNotify : Z := 14.
Definition kHttpPatch : Z := 15.
Definition kHttpReport : Z := 16.
Definition kHttpUnlock : Z := 17.
Definition kHttpHost : Z := 0.
Definition kHttpCacheControl : Z := 1.
Definition kHttpConnection : Z := 2.
Definition kHttpAccept : Z := 3.
Definition kHttpAcceptLanguage : Z := 4.
Definition kHttpAcceptEncoding : Z := 5.
Definition kHttpUserAgent : Z := 6.
Definition kHttpReferer : Z := 7.
Definition kHttpXForwardedFor : Z := 8.
Definition kHttpOrigin : Z := 9.
Definition kHttpUpgradeInsecureRequests : Z := 10.
Definition kHttpPragma : Z := 11.
Definition kHttpCookie : Z := 12.
Definition kHttpDnt : Z := 13.
Definition kHttpSecGpc : Z := 14.
Definition kHttpFrom : Z := 15.
Definition kHttpIfModifiedSince : Z := 16.
Definition kHttpXRequestedWith : Z := 17.
Definition kHttpXForwardedHost : Z := 18.
Definition kHttpXForwardedProto : Z := 19.
Definition kHttpXCsrfToken : Z := 20.
Definition kHttpSaveData : Z := 21.
Definition kHttpRange : Z := 22.
Definition kHttpContentLength : Z := 23.
Definition kHttpContentType : Z := 24.
Definition kHttpVary : Z := 25.
Definition kHttpDate : Z := 26.
Definition kHttpServer : Z := 27.
Definition kHttpExpires : Z := 28.
Definition kHttpContentEncoding : Z := 29.
Definition kHttpLastModified : Z := 30.
Definition kHttpEtag : Z := 31.
Definition kHttpAllow : Z := 32.
Definition kHttpContentRange : Z := 33.
Definition kHttpAcceptCharset : Z := 34.
Definition kHttpAccessControlAllowCredentials : Z := 35.
Definition kHttpAccessControlAllowHeaders : Z := 36.
Definition kHttpAccessControlAllowMethods : Z := 37.
Definition kHttpAccessControlAllowOrigin : Z := 38.
Definition kHttpAccessControlMaxAge : Z := 39.
Definition kHttpAccessControlMethod : Z := 40.
Definition kHttpAccessControlRequestHeaders : Z := 41.
Definition kHttpAccessControlRequestMethod : Z := 42.
Definition kHttpAccessControlRequestMethods : Z := 43.
Definition kHttpAge : Z := 44.
Definition kHttpAuthorization : Z := 45.
Definition kHttpContentBase : Z := 46.
Definition kHttpContentDescription : Z := 47.
Definition kHttpContentDisposition : Z := 48.
Definition kHttpContentLanguage : Z := 49.
Definition kHttpContentLocation : Z := 50.
Definition kHttpContentMd5 : Z := 51.
Definition kHttpExpect : Z := 52.
Definition kHttpIfMatch : Z := 53.
Definition kHttpIfNoneMatch : Z := 54.
Definition kHttpIfRange : Z := 55.
Definition kHttpIfUnmodifiedSince : Z := 56.
Definition kHttpKeepAlive : Z := 57.
Definition kHttpLink : Z := 58.
Definition kHttpLocation : Z := 59.
Definition kHttpMaxForwards : Z := 60.
Definition kHttpProxyAuthenticate : Z := 61.
Definition kHttpProxyAuthorization : Z := 62.
Definition kHttpProxyConnection : Z := 63.
Definition kHttpPublic : Z := 64.
Definition kHttpRetryAfter : Z := 65.
Definition kHttpTe : Z := 66.
Definition kHttpTrailer : Z := 67.
Definition kHttpTransferEncoding : Z := 68.
Definition kHttpUpgrade : Z := 69.
Definition kHttpWarning : Z := 70.
Definition kHttpWwwAuthenticate : Z := 71.
Definition kHttpVia : Z := 72.
Definition kHttpStrictTransportSecurity : Z := 73.
Definition kHttpXFrameOptions : Z := 74.
Definition kHttpXContentTypeOptions : Z := 75.
Definition kHttpAltSvc : Z := 76.
Definition kHttpReferrerPolicy : Z := 77.
Definition kHttpXXssProtection : Z := 78.
Definition kHttpAcceptRanges : Z := 79.
Definition kHttpSetCookie : Z := 80.
Definition kHttpSecChUa : Z := 81.
Definition kHttpSecChUaMobile : Z := 82.
Definition kHttpSecFetchSite : Z := 83.
Definition kHttpSecFetchMode : Z := 84.
Definition kHttpSecFetchUser : Z := 85.
Definition kHttpSecFetchDest : Z := 86.
Definition kHttpCfRay : Z := 87.
Definition kHttpCfVisitor : Z := 88.
Definition kHttpCfConnectingIp : Z := 89.
Definition kHttpCfIpcountry : Z := 90.
Definition kHttpSecChUaPlatform : Z := 91.
Definition kHttpCdnLoop : Z := 92.
Definition kHttpHeadersMax : Z := 93.

(* ------------------------------------------------------------------ *)
(** ** Names of headers *)

(** [switch (h) { case c: return v; ... default: return NULL; }] *)
Definition GetHttpHeaderName (h : Z) : option bytes :=
  switch h [
    (kHttpHost, bstr "Host");
    (kHttpCacheControl, bstr "Cache-Control");
    (kHttpConnection, bstr "Connection");
    (kHttpAccept, bstr "Accept");
    (kHttpAcceptLanguage, bstr "Accept-Language");
    (kHttpAcceptEncoding, bstr "Accept-Encoding");
    (kHttpUserAgent, bstr "User-Agent");
    (kHttpReferer, bstr "Referer");
    (kHttpXForwardedFor, bstr "X-Forwarded-For");
    (kHttpOrigin, bstr "Origin");
    (kHttpUpgradeInsecureRequests, bstr "Upgrade-Insecure-Requests");
    (kHttpPragma, bstr "Pragma");
    (kHttpCookie, bstr "Cookie");
    (kHttpDnt, bstr "DNT");
    (kHttpSecGpc, bstr "Sec-GPC");
    (kHttpFrom, bstr "From");
    (kHttpIfModifiedSince, bstr "If-Modified-Since");
    (kHttpXRequestedWith, bstr "X-Requested-With");
    (kHttpXForwardedHost, bstr "X-Forwarded-Host");
    (kHttpXForwardedProto, bstr "X-Forwarded-Proto");
    (kHttpXCsrfToken, bstr "X-CSRF-Token");
    (kHttpSaveData, bstr "Save-Data");
    (kHttpRange, bstr "Range");
    (kHttpContentLength, bstr "Content-Length");
    (kHttpContentType, bstr "Content-Type");
    (kHttpVary, bstr "Vary");
    (kHttpDate, bstr "Date");
    (kHttpServer, bstr "Server");
    (kHttpExpires, bstr "Expires");
    (kHttpContentEncoding, bstr "Content-Encoding");
    (kHttpLastModified, bstr "Last-Modified");
    (kHttpEtag, bstr "ETag");
    (kHttpAllow, bstr "Allow");
    (kHttpContentRange, bstr "Content-Range");
    (kHttpAcceptCharset, bstr "Accept-Charset");
    (kHttpAccessControlAllowCredentials, bstr "Access-Control-Allow-Credentials");
    (kHttpAccessControlAllowHeaders, bstr "Access-Control-Allow-Headers");
    (kHttpAccessControlAllowMethods, bstr "Access-Control-Allow-Methods");
    (kHttpAccessControlAllowOrigin, bstr "Access-Control-Allow-Origin");
    (kHttpAccessControlMaxAge, bstr "Access-Control-MaxAge");
    (kHttpAccessControlMethod, bstr "Access-Control-Method");
    (kHttpAccessControlRequestHeaders, bstr "Access-Control-RequestHeaders");
    (kHttpAccessControlRequestMethod, bstr "Access-Control-Request-Method");
    (kHttpAccessControlRequestMethods, bstr "Access-Control-Request-Methods");
    (kHttpAge, bstr "Age");
    (kHttpAuthorization, bstr "Authorization");
    (kHttpContentBase, bstr "Content-Base");
    (kHttpContentDescription, bstr "Content-Description");
    (kHttpContentDisposition, bstr "Content-Disposition");
    (kHttpContentLanguage, bstr "Content-Language");
    (kHttpContentLocation, bstr "Content-Location");
    (kHttpContentMd5, bstr "Content-MD5");
    (kHttpExpect, bstr "Expect");
    (kHttpIfMatch, bstr "If-Match");
    (kHttpIfNoneMatch, bstr "If-None-Match");
    (kHttpIfRange, bstr "If-Range");
    (kHttpIfUnmodifiedSince, bstr "If-Unmodified-Since");
    (kHttpKeepAlive, bstr "Keep-Alive");
    (kHttpLink, bstr "Link");
    (kHttpLocation, bstr "Location");
    (kHttpMaxForwards, bstr "Max-Forwards");
    (kHttpProxyAuthenticate, bstr "Proxy-Authenticate");
    (kHttpProxyAuthorization, bstr "Proxy-Authorization");
    (kHttpProxyConnection, bstr "Proxy-Connection");
    (kHttpPublic, bstr "Public");
    (kHttpRetryAfter, bstr "Retry-After");
    (kHttpTe, bstr "TE");
    (kHttpTrailer, bstr "Trailer");
    (kHttpTransferEncoding, bstr "Transfer-Encoding");
    (kHttpUpgrade, bstr "Upgrade");
    (kHttpWarning, bstr "Warning");
    (kHttpWwwAuthenticate, bstr "WWW-Authenticate");
    (kHttpVia, bstr "Via");
    (kHttpStrictTransportSecurity, bstr "Strict-Transport-Security");
    (kHttpXFrameOptions, bstr "X-Frame-Options");
    (kHttpXContentTypeOptions, bstr "X-Content-Type-Options");
    (kHttpAltSvc, bstr "Alt-Svc");
    (kHttpReferrerPolicy, bstr "Referrer-Policy");
    (kHttpXXssProtection, bstr "X-XSS-Protection");
    (kHttpAcceptRanges, bstr "Accept-Ranges");
    (kHttpSetCookie, bstr "Set-Cookie");
    (kHttpSecChUa, bstr "Sec-CH-UA");
    (kHttpSecChUaMobile, bstr "Sec-CH-UA-Mobile");
    (kHttpSecFetchSite, bstr "Sec-Fetch-Site");
    (kHttpSecFetchMode, bstr "Sec-Fetch-Mode");
    (kHttpSecFetchUser, bstr "Sec-Fetch-User");
    (kHttpSecFetchDest, bstr "Sec-Fetch-Dest");
    (kHttpCfRay, bstr "CF-RAY");
    (kHttpCfVisitor, bstr "CF-Visitor");
    (kHttpCfConnectingIp, bstr "CF-Connecting-IP");
    (kHttpCfIpcountry, bstr "CF-IPCountry");
    (kHttpCdnLoop, bstr "CDN-Loop");
    (kHttpSecChUaPlatform, bstr "Sec-CH-UA-Platform") ].

Definition kHttpMethod : list bytes := [
    bstr "WUT";
    bstr "GET";
    bstr "HEAD";
    bstr "POST";
    bstr "PUT";
    bstr "DELETE";
    bstr "OPTIONS";
    bstr "CONNECT";
    bstr "TRACE";
    bstr "COPY";
    bstr "LOCK";
    bstr "MERGE";
    bstr "MKCOL";
    bstr "MOVE";
    bstr "NOTIFY";
    bstr "PATCH";
    bstr "REPORT";
    bstr "UNLOCK" ].

(** The designated initializers that are [true]; every other entry is [false]. *)
Definition kHttpRepeatable (h : Z) : bool :=
  existsb (Z.eqb h) [
    kHttpAcceptCharset;
    kHttpAcceptEncoding;
    kHttpAcceptLanguage;
    kHttpAccept;
    kHttpAllow;
    kHttpCacheControl;
    kHttpContentEncoding;
    kHttpContentLanguage;
    kHttpExpect;
    kHttpIfMatch;
    kHttpIfNoneMatch;
    kHttpPragma;
    kHttpProxyAuthenticate;
    kHttpPublic;
    kHttpTe;
    kHttpTrailer;
    kHttpTransferEncoding;
    kHttpUpgrade;
    kHttpVary;
    kHttpVia;
    kHttpWarning;
    kHttpWwwAuthenticate;
    kHttpXForwardedFor;
    kHttpAccessControlAllowHeaders;
    kHttpAccessControlAllowMethods;
    kHttpAccessControlRequestHeaders;
    kHttpAccessControlRequestMethods ].

Definition method_asso_values : list Z := [
    26; 26; 26; 26; 26; 26; 26; 26; 26; 26; 26; 26; 26; 26; 26; 26;
    26; 26; 26; 26; 26; 26; 26; 26; 26; 26; 26; 26; 26; 26; 26; 26;
    26; 26; 26; 26; 26; 26; 26; 26; 26; 26; 26; 26; 26; 26; 26; 26;
    26; 26; 26; 26; 26; 26; 26; 26; 26; 26; 26; 26; 26; 26; 26; 26;
    26; 0; 26; 5; 15; 0; 26; 5; 0; 26; 26; 10; 15; 10; 0; 5;
    0; 26; 10; 26; 5; 0; 26; 26; 26; 26; 26; 26; 26; 26; 26; 26;
    26; 0; 26; 5; 15; 0; 26; 5; 0; 26; 26; 10; 15; 10; 0; 5;
    0; 26; 10; 26; 5; 0; 26; 26; 26; 26; 26; 26; 26; 26; 26; 26;
    26; 26; 26; 26; 26; 26; 26; 26; 26; 26; 26; 26; 26; 26; 26; 26;
    26; 26; 26; 26; 26; 26; 26; 26; 26; 26; 26; 26; 26; 26; 26; 26;
    26; 26; 26; 26; 26; 26; 26; 26; 26; 26; 26; 26; 26; 26; 26; 26;
    26; 26; 26; 26; 26; 26; 26; 26; 26; 26; 26; 26; 26; 26; 26; 26;
    26; 26; 26; 26; 26; 26; 26; 26; 26; 26; 26; 26; 26; 26; 26; 26;
    26; 26; 26; 26; 26; 26; 26; 26; 26; 26; 26; 26; 26; 26; 26; 26;
    26; 26; 26; 26; 26; 26; 26; 26; 26; 26; 26; 26; 26; 26; 26; 26;
    26; 26; 26; 26; 26; 26; 26; 26; 26; 26; 26; 26; 26; 26; 26; 26 ].

Definition method_wordlist : list (bytes * Z) := [
    (bstr "", 0);
    (bstr "", 0);
    (bstr "", 0);
    (bstr "PUT", kHttpPut);
    (bstr "HEAD", kHttpHead);
    (bstr "PATCH", kHttpPatch);
    (bstr "UNLOCK", kHttpUnlock);
    (bstr "", 0);
    (bstr "GET", kHttpGet);
    (bstr "POST", kHttpPost);
    (bstr "", 0);
    (bstr "NOTIFY", kHttpNotify);
    (bstr "OPTIONS", kHttpOptions);
    (bstr "", 0);
    (bstr "COPY", kHttpCopy);
    (bstr "MERGE", kHttpMerge);
    (bstr "REPORT", kHttpReport);
    (bstr "CONNECT", kHttpConnect);
    (bstr "", 0);
    (bstr "MOVE", kHttpMove);
    (bstr "TRACE", kHttpTrace);
    (bstr "DELETE", kHttpDelete);
    (bstr "", 0);
    (bstr "", 0);
    (bstr "LOCK", kHttpLock);
    (bstr "MKCOL", kHttpMkcol) ].

Definition header_asso_values : list Z := [
    182; 182; 182; 182; 182; 182; 182; 182; 182; 182; 182; 182; 182; 182; 182; 182;
    182; 182; 182; 182; 182; 182; 182; 182; 182; 182; 182; 182; 182; 182; 182; 182;
    182; 182; 182; 182; 182; 182; 182; 182; 182; 182; 182; 182; 182; 35; 182; 182;
    182; 182; 182; 182; 182; 5; 182; 182; 182; 182; 182; 182; 182; 182; 182; 182;
    182; 15; 182; 30; 60; 10; 5; 40; 0; 40; 182; 80; 40; 90; 0; 45;
    5; 0; 45; 0; 0; 0; 182; 0; 182; 45; 182; 182; 182; 182; 182; 182;
    182; 15; 182; 30; 60; 10; 5; 40; 0; 40; 182; 80; 40; 90; 0; 45;
    5; 0; 45; 0; 0; 0; 182; 0; 182; 45; 182; 182; 182; 182; 182; 182;
    182; 182; 182; 182; 182; 182; 182; 182; 182; 182; 182; 182; 182; 182; 182; 182;
    182; 182; 182; 182; 182; 182; 182; 182; 182; 182; 182; 182; 182; 182; 182; 182;
    182; 182; 182; 182; 182; 182; 182; 182; 182; 182; 182; 182; 182; 182; 182; 182;
    182; 182; 182; 182; 182; 182; 182; 182; 182; 182; 182; 182; 182; 182; 182; 182;
    182; 182; 182; 182; 182; 182; 182; 182; 182; 182; 182; 182; 182; 182; 182; 182;
    182; 182; 182; 182; 182; 182; 182; 182; 182; 182; 182; 182; 182; 182; 182; 182;
    182; 182; 182; 182; 182; 182; 182; 182; 182; 182; 182; 182; 182; 182; 182; 182;
    182; 182; 182; 182; 182; 182; 182; 182; 182; 182; 182; 182; 182; 182; 182; 182 ].

Definition header_wordlist : list (bytes * Z) := [
    (bstr "", 0);
    (bstr "", 0);
    (bstr "", 0);
    (bstr "DNT", kHttpDnt);
    (bstr "Host", kHttpHost);
    (bstr "Allow", kHttpAllow);
    (bstr "", 0);
    (bstr "", 0);
    (bstr "Location", kHttpLocation);
    (bstr "", 0);
    (bstr "", 0);
    (bstr "Accept", kHttpAccept);
    (bstr "TE", kHttpTe);
    (bstr "Age", kHttpAge);
    (bstr "Date", kHttpDate);
    (bstr "", 0);
    (bstr "", 0);
    (bstr "", 0);
    (bstr "Via", kHttpVia);
    (bstr "", 0);
    (bstr "Connection", kHttpConnection);
    (bstr "", 0);
    (bstr "", 0);
    (bstr "If-Match", kHttpIfMatch);
    (bstr "", 0);
    (bstr "Range", kHttpRange);
    (bstr "X-XSS-Protection", kHttpXXssProtection);
    (bstr "", 0);
    (bstr "Access-Control-Allow-Headers", kHttpAccessControlAllowHeaders);
    (bstr "Access-Control-RequestHeaders", kHttpAccessControlRequestHeaders);
    (bstr "Access-Control-Request-Methods", kHttpAccessControlRequestMethods);
    (bstr "Access-Control-MaxAge", kHttpAccessControlMaxAge);
    (bstr "Upgrade", kHttpUpgrade);
    (bstr "If-Range", kHttpIfRange);
    (bstr "Content-Length", kHttpContentLength);
    (bstr "X-Frame-Options", kHttpXFrameOptions);
    (bstr "Expect", kHttpExpect);
    (bstr "Alt-Svc", kHttpAltSvc);
    (bstr "", 0);
    (bstr "Content-Description", kHttpContentDescription);
    (bstr "", 0);
    (bstr "WWW-Authenticate", kHttpWwwAuthenticate);
    (bstr "", 0);
    (bstr "", 0);
    (bstr "ETag", kHttpEtag);
    (bstr "User-Agent", kHttpUserAgent);
    (bstr "Origin", kHttpOrigin);
    (bstr "Content-Base", kHttpContentBase);
    (bstr "Content-Range", kHttpContentRange);
    (bstr "Vary", kHttpVary);
    (bstr "Upgrade-Insecure-Requests", kHttpUpgradeInsecureRequests);
    (bstr "Content-Language", kHttpContentLanguage);
    (bstr "Expires", kHttpExpires);
    (bstr "CDN-Loop", kHttpCdnLoop);
    (bstr "Sec-CH-UA", kHttpSecChUa);
    (bstr "", 0);
    (bstr "Cookie", kHttpCookie);
    (bstr "X-Content-Type-Options", kHttpXContentTypeOptions);
    (bstr "Accept-Ranges", kHttpAcceptRanges);
    (bstr "Save-Data", kHttpSaveData);
    (bstr "Set-Cookie", kHttpSetCookie);
    (bstr "Server", kHttpServer);
    (bstr "Access-Control-Allow-Credentials", kHttpAccessControlAllowCredentials);
    (bstr "", 0);
    (bstr "Sec-Fetch-Site", kHttpSecFetchSite);
    (bstr "Keep-Alive", kHttpKeepAlive);
    (bstr "CF-RAY", kHttpCfRay);
    (bstr "Transfer-Encoding", kHttpTransferEncoding);
    (bstr "", 0);
    (bstr "Content-Disposition", kHttpContentDisposition);
    (bstr "Accept-Language", kHttpAcceptLanguage);
    (bstr "Proxy-Connection", kHttpProxyConnection);
    (bstr "Access-Control-Allow-Origin", kHttpAccessControlAllowOrigin);
    (bstr "If-None-Match", kHttpIfNoneMatch);
    (bstr "If-Unmodified-Since", kHttpIfUnmodifiedSince);
    (bstr "", 0);
    (bstr "Public", kHttpPublic);
    (bstr "Sec-GPC", kHttpSecGpc);
    (bstr "", 0);
    (bstr "Accept-Charset", kHttpAcceptCharset);
    (bstr "", 0);
    (bstr "Access-Control-Method", kHttpAccessControlMethod);
    (bstr "Content-Type", kHttpContentType);
    (bstr "Proxy-Authenticate", kHttpProxyAuthenticate);
    (bstr "Link", kHttpLink);
    (bstr "", 0);
    (bstr "X-Requested-With", kHttpXRequestedWith);
    (bstr "Warning", kHttpWarning);
    (bstr "", 0);
    (bstr "Access-Control-Request-Method", kHttpAccessControlRequestMethod);
    (bstr "", 0);
    (bstr "Content-MD5", kHttpContentMd5);
    (bstr "Trailer", kHttpTrailer);
    (bstr "", 0);
    (bstr "From", kHttpFrom);
    (bstr "", 0);
    (bstr "Content-Encoding", kHttpContentEncoding);
    (bstr "Referer", kHttpReferer);
    (bstr "Authorization", kHttpAuthorization);
    (bstr "Sec-Fetch-User", kHttpSecFetchUser);
    (bstr "", 0);
    (bstr "Content-Location", kHttpContentLocation);
    (bstr "", 0);
    (bstr "", 0);
    (bstr "", 0);
    (bstr "", 0);
    (bstr "CF-Connecting-IP", kHttpCfConnectingIp);
    (bstr "CF-IPCountry", kHttpCfIpcountry);
    (bstr "Cache-Control", kHttpCacheControl);
    (bstr "Proxy-Authorization", kHttpProxyAuthorization);
    (bstr "", 0);
    (bstr "Pragma", kHttpPragma);
    (bstr "", 0);
    (bstr "", 0);
    (bstr "Sec-Fetch-Dest", kHttpSecFetchDest);
    (bstr "", 0);
    (bstr "", 0);
    (bstr "", 0);
    (bstr "Access-Control-Allow-Methods", kHttpAccessControlAllowMethods);
    (bstr "", 0);
    (bstr "", 0);
    (bstr "", 0);
    (bstr "Max-Forwards", kHttpMaxForwards);
    (bstr "", 0);
    (bstr "", 0);
    (bstr "", 0);
    (bstr "", 0);
    (bstr "", 0);
    (bstr "", 0);
    (bstr "", 0);
    (bstr "", 0);
    (bstr "X-Forwarded-Host", kHttpXForwardedHost);
    (bstr "", 0);
    (bstr "", 0);
    (bstr "", 0);
    (bstr "Accept-Encoding", kHttpAcceptEncoding);
    (bstr "", 0);
    (bstr "", 0);
    (bstr "", 0);
    (bstr "", 0);
    (bstr "CF-Visitor", kHttpCfVisitor);
    (bstr "", 0);
    (bstr "If-Modified-Since", kHttpIfModifiedSince);
    (bstr "", 0);
    (bstr "", 0);
    (bstr "", 0);
    (bstr "", 0);
    (bstr "X-CSRF-Token", kHttpXCsrfToken);
    (bstr "", 0);
    (bstr "", 0);
    (bstr "", 0);
    (bstr "", 0);
    (bstr "", 0);
    (bstr "Last-Modified", kHttpLastModified);
    (bstr "Sec-Fetch-Mode", kHttpSecFetchMode);
    (bstr "Referrer-Policy", kHttpReferrerPolicy);
    (bstr "Retry-After", kHttpRetryAfter);
    (bstr "", 0);
    (bstr "", 0);
    (bstr "", 0);
    (bstr "Strict-Transport-Security", kHttpStrictTransportSecurity);
    (bstr "", 0);
    (bstr "", 0);
    (bstr "", 0);
    (bstr "", 0);
    (bstr "", 0);
    (bstr "", 0);
    (bstr "", 0);
    (bstr "", 0);
    (bstr "", 0);
    (bstr "", 0);
    (bstr "", 0);
    (bstr "", 0);
    (bstr "", 0);
    (bstr "", 0);
    (bstr "X-Forwarded-For", kHttpXForwardedFor);
    (bstr "", 0);
    (bstr "X-Forwarded-Proto", kHttpXForwardedProto);
    (bstr "Sec-CH-UA-Platform", kHttpSecChUaPlatform);
    (bstr "", 0);
    (bstr "", 0);
    (bstr "Sec-CH-UA-Mobile", kHttpSecChUaMobile) ].

(* ------------------------------------------------------------------ *)
(** ** The gperf lookup *)

(** [gperf_case_strncmp]; [gperf_downcase] is [kToLower]. A C string reads as NUL at its
    end, which is where the comparison stops at the latest. *)
Fixpoint gperf_case_strncmp (s1 s2 : bytes) (n : nat) : Z :=
  match n with
  | O => 0
  | S n =>
      let c1 := tab kToLower (hd 0 s1) in
      let c2 := tab kToLower (hd 0 s2) in
      if negb (c1 =? 0) && (c1 =? c2)
      then gperf_case_strncmp (tl s1) (tl s2) n
      else c1 - c2
  end.

(** The body that gperf emits for both tables. *)
Definition gperf_lookup (hash : bytes -> Z -> Z) (wordlist : list (bytes * Z))
    (min_len max_len max_hash : Z) (str : bytes) (len : Z) : option (bytes * Z) :=
  if (len <=? max_len) && (min_len <=? len) then
    let key := hash str len in
    if key <=? max_hash then
      match wordlist !! Z.to_nat key with
      | Some (s, code) =>
          if (Z.land (Z.lxor (hd 0 str) (hd 0 s)) (Z.lnot 32) =? 0)
             && (gperf_case_strncmp str s (Z.to_nat len) =? 0)
             && (tab s len =? 0)
          then Some (s, code) else None
      | None => None
      end
    else None
  else None.

Definition method_hash (str : bytes) (len : Z) : Z :=
  len + tab method_asso_values (tab str 1) + tab method_asso_values (tab str 0).

Definition LookupHttpMethod : bytes -> Z -> option (bytes * Z) :=
  gperf_lookup method_hash method_wordlist 3 7 25.

Definition GetHttpMethod (str : option bytes) (len : Z) : Z :=
  let s := strarg str len in
  match LookupHttpMethod s (Z.of_nat (length s)) with
  | Some (_, code) => code
  | None => 0
  end.

(** The [switch (hval)] with its fall-throughs: [default] first, then the cases
    downwards. *)
Definition header_hash (str : bytes) (len : Z) : Z :=
  let asso c := tab header_asso_values c in
  let hval := len in
  let hval := if (2 <=? len) && (len <=? 21) then hval else hval + asso (tab str 21) in
  let hval := if (2 <=? len) && (len <=? 10) then hval else hval + asso (tab str 10) in
  let hval := if (2 <=? len) && (len <=? 9) then hval else hval + asso (tab str 9) in
  let hval := if (2 <=? len) && (len <=? 4) then hval else hval + asso (tab str 4) in
  hval + asso (tab str (len - 1)).

Definition LookupHttpHeader : bytes -> Z -> option (bytes * Z) :=
  gperf_lookup header_hash header_wordlist 2 32 181.

(** Here [len] is always a length: this function does not know [-1]. *)
Definition GetHttpHeader (str : bytes) (len : Z) : Z :=
  match LookupHttpHeader str len with
  | Some (_, code) => code
  | None => -1
  end.

(* ------------------------------------------------------------------ *)
(** ** The contract: a case-insensitive lookup in a list of names *)

Definition lower (s : bytes) : bytes := map (tab kToLower) s.

Definition ieq (s1 s2 : bytes) : bool := bool_decide (lower s1 = lower s2).

Fixpoint find_name (names : list (Z * bytes)) (s : bytes) : option Z :=
  match names with
  | [] => None
  | (code, name) :: names => if ieq s name then Some code else find_name names s
  end.

Definition header_names : list (Z * bytes) :=
  omap (fun h => (pair h) <$> GetHttpHeaderName h) (zbelow 93).

Definition method_names : list (Z * bytes) :=
  omap (fun m => (pair m) <$> (kHttpMethod !! Z.to_nat m)) (map (Z.add 1) (zbelow 17)).

(** What a gperf table promises. *)
Class PerfectHash (hash : bytes -> Z -> Z) (wordlist : list (bytes * Z))
    (min_len max_len max_hash : Z) (names : list (Z * bytes)) := {
  ph_len : 0 < min_len;
  ph_max : max_hash < Z.of_nat (length wordlist);
  (** the slots that hold a word list a name *)
  ph_sound : forall s code, (s, code) ∈ wordlist -> s = [] \/ (code, s) ∈ names;
  (** each name sits in the slot its hash selects *)
  ph_complete : forall s code, (code, s) ∈ names ->
    Bytes s /\ (0 ∉ s) /\ min_len <= Z.of_nat (length s) <= max_len /\
    0 <= hash s (Z.of_nat (length s)) <= max_hash /\
    wordlist !! Z.to_nat (hash s (Z.of_nat (length s))) = Some (s, code);
  (** the hash ignores case and what lies behind the word *)
  ph_case : forall m s, Bytes m -> Bytes s -> (length s <= length m)%nat ->
    lower (take (length s) m) = lower s -> min_len <= Z.of_nat (length s) ->
    hash m (Z.of_nat (length s)) = hash s (Z.of_nat (length s))
}.

(* ------------------------------------------------------------------ *)
(** ** Lemmas *)

Lemma kToLower_nonzero c : is_byte c -> c <> 0 -> tab kToLower c <> 0.
Proof.
  intros Hc. rewrite kToLower_spec by done. unfold is_byte, isupper in *.
  destruct (_ && _) eqn:E; lia.
Qed.

Lemma Bytes_head m : Bytes m -> is_byte (hd 0 m).
Proof. intros H. destruct H; cbn [hd]; [unfold is_byte; lia|done]. Qed.

Lemma Bytes_tail (m : bytes) : Bytes m -> Bytes (tl m).
Proof. intros H. destruct H; [constructor|done]. Qed.

Lemma lower_take n s : lower (take n s) = take n (lower s).
Proof. unfold lower. symmetry. apply firstn_map. Qed.

Lemma lower_length s : length (lower s) = length s.
Proof. apply length_map. Qed.

Lemma tab_lower m i : 0 <= i < Z.of_nat (length m) -> tab (lower m) i = tab kToLower (tab m i).
Proof.
  intros Hi. unfold lower. unfold tab at 1 3.
  rewrite (nth_indep _ 0 (tab kToLower 0)) by (rewrite length_map; lia).
  rewrite map_nth. done.
Qed.

(** Words that agree up to case agree on every index up to case. *)
Lemma lower_eq_index m s i :
  (length s <= length m)%nat -> lower (take (length s) m) = lower s ->
  0 <= i < Z.of_nat (length s) -> tab kToLower (tab m i) = tab kToLower (tab s i).
Proof.
  intros L E Hi. rewrite <- (tab_take m (length s)) by done.
  rewrite <- !tab_lower; [by rewrite E|done|]. rewrite length_take. lia.
Qed.

Lemma gperf_case_strncmp_sound n : forall s1 s2,
  Bytes s1 -> Bytes s2 -> (n <= length s1)%nat -> 0 ∉ take n s1 ->
  gperf_case_strncmp s1 s2 n = 0 ->
  (n <= length s2)%nat /\ lower (take n s1) = lower (take n s2).
Proof.
  induction n as [|n IH]; intros s1 s2 H1 H2 L Hn E; [split; [lia|done]|].
  destruct s1 as [|x s1]; cbn [length] in L; [lia|].
  cbn [gperf_case_strncmp hd tl take] in *.
  apply Forall_cons in H1 as [Hx H1]. apply not_elem_of_cons in Hn as [Hx0 Hn].
  pose proof (kToLower_nonzero x Hx) as Nz. specialize (Nz (fun e => Hx0 (eq_sym e))).
  rewrite (proj2 (Z.eqb_neq _ 0) Nz) in E. cbn [negb andb] in E.
  destruct (Z.eqb_spec (tab kToLower x) (tab kToLower (hd 0 s2))) as [Ex|]; [|lia].
  destruct s2 as [|y s2]; [by cbn [hd] in Ex|].
  apply Forall_cons in H2 as [Hy H2]. cbn [hd tl length] in *.
  destruct (IH s1 s2) as [L2 El]; try done; [lia|]. split; [lia|].
  unfold lower in *. cbn [map]. by rewrite Ex, El.
Qed.

Lemma gperf_case_strncmp_complete s2 : forall s1,
  Bytes s2 -> 0 ∉ s2 -> (length s2 <= length s1)%nat ->
  lower (take (length s2) s1) = lower s2 -> gperf_case_strncmp s1 s2 (length s2) = 0.
Proof.
  induction s2 as [|y s2 IH]; intros s1 H2 Hn L E; [done|].
  destruct s1 as [|x s1]; cbn [length] in L; [lia|].
  apply Forall_cons in H2 as [Hy H2]. apply not_elem_of_cons in Hn as [Hy0 Hn].
  cbn [length take lower map] in E. injection E as Ex E.
  cbn [gperf_case_strncmp hd tl length]. rewrite Ex, Z.eqb_refl.
  pose proof (kToLower_nonzero y Hy (fun e => Hy0 (eq_sym e))) as Nz.
  rewrite (proj2 (Z.eqb_neq _ 0) Nz). cbn [negb andb]. apply IH; try done. lia.
Qed.

Lemma first_char_check x y :
  is_byte x -> is_byte y -> tab kToLower x = tab kToLower y ->
  Z.land (Z.lxor x y) (Z.lnot 32) = 0.
Proof.
  intros Hx Hy E. rewrite !kToLower_spec in E by done.
  assert (forall a, isupper a = true -> Z.land (Z.lxor a (a + 32)) (Z.lnot 32) = 0) as U.
  { intros a Ha.
    assert (is_byte a) as Hb by (unfold isupper, is_byte in *; lia).
    pose proof (forall_byte (fun a => negb (isupper a) ||
      (Z.land (Z.lxor a (a + 32)) (Z.lnot 32) =? 0)) eq_refl a Hb) as B.
    cbv beta in B. rewrite Ha in B. by apply Z.eqb_eq. }
  destruct (isupper x) eqn:Ux, (isupper y) eqn:Uy.
  - replace y with x by lia. by rewrite Z.lxor_nilpotent.
  - subst y. by apply U.
  - subst x. rewrite Z.lxor_comm. by apply U.
  - subst. by rewrite Z.lxor_nilpotent.
Qed.

Lemma find_name_Some names s code :
  find_name names s = Some code -> exists name, (code, name) ∈ names /\ lower s = lower name.
Proof.
  induction names as [|[c n] names IH]; cbn [find_name]; [done|].
  unfold ieq. case_bool_decide as E; intros H.
  - simplify_eq. exists n. split; [apply list_elem_of_here|done].
  - destruct (IH H) as (name & Hin & El). exists name. split; [by apply list_elem_of_further|done].
Qed.

Lemma find_name_None names s :
  find_name names s = None -> forall code name, (code, name) ∈ names -> lower s <> lower name.
Proof.
  induction names as [|[c n] names IH]; cbn [find_name]; intros H code name Hin.
  - by apply not_elem_of_nil in Hin.
  - unfold ieq in H. case_bool_decide as E; [done|].
    apply elem_of_cons in Hin as [Hin|Hin]; [by simplify_eq|by eapply IH].
Qed.

Section Gperf.
Context {hash : bytes -> Z -> Z} {wordlist : list (bytes * Z)}
        {min_len max_len max_hash : Z} {names : list (Z * bytes)}.
Context {PH : PerfectHash hash wordlist min_len max_len max_hash names}.

Abbreviation lookup_word := (gperf_lookup hash wordlist min_len max_len max_hash).

Lemma gperf_lookup_complete m len name code :
  Bytes m -> 0 <= len <= Z.of_nat (length m) ->
  (code, name) ∈ names -> lower (take (Z.to_nat len) m) = lower name ->
  lookup_word m len = Some (name, code).
Proof.
  intros Hm Hl Hin E. destruct (ph_complete _ _ Hin) as (Hb & Hz & Hlen & Hk & Hw).
  assert (len = Z.of_nat (length name)) as ->.
  { apply (f_equal length) in E. rewrite !lower_length, length_take in E. lia. }
  rewrite Nat2Z.id in E. unfold gperf_lookup. rewrite Nat2Z.id.
  pose proof ph_len as P0.
  rewrite (proj2 (Z.leb_le (Z.of_nat (length name)) max_len)) by lia.
  rewrite (proj2 (Z.leb_le min_len (Z.of_nat (length name)))) by lia. cbn [andb].
  rewrite (ph_case m name) by (done || lia).
  rewrite (proj2 (Z.leb_le _ max_hash)) by lia. rewrite Hw.
  rewrite gperf_case_strncmp_complete by (done || lia).
  assert (tab name (Z.of_nat (length name)) = 0) as ->.
  { unfold tab. rewrite Nat2Z.id. by apply nth_overflow. }
  destruct m as [|x m]; [cbn [length] in *; lia|].
  destruct name as [|y name]; [cbn [length] in *; lia|].
  cbn [length take lower map] in E. injection E as E _.
  apply Forall_cons in Hm as [Hx _]. apply Forall_cons in Hb as [Hy _].
  cbn [hd]. by rewrite first_char_check.
Qed.

Lemma gperf_lookup_sound m len name code :
  Bytes m -> 0 <= len <= Z.of_nat (length m) -> 0 ∉ take (Z.to_nat len) m ->
  lookup_word m len = Some (name, code) ->
  (code, name) ∈ names /\ lower (take (Z.to_nat len) m) = lower name.
Proof.
  intros Hm Hl Hz. unfold gperf_lookup. pose proof ph_len as P0.
  destruct (Z.leb_spec len max_len), (Z.leb_spec min_len len); cbn [andb]; try done.
  destruct (hash m len <=? max_hash); [|done].
  destruct (wordlist !! _) as [[s c]|] eqn:Hw; [|done].
  destruct (_ && _) eqn:E; [|done]. intros [= -> ->].
  rewrite !andb_true_iff in E. destruct E as [[_ E] Es].
  apply Z.eqb_eq in E. apply Z.eqb_eq in Es.
  apply list_elem_of_lookup_2 in Hw. destruct (ph_sound _ _ Hw) as [->|Hin].
  - apply gperf_case_strncmp_sound in E; [|done|constructor|lia|done].
    destruct E as [E _]. cbn [length] in E. lia.
  - destruct (ph_complete _ _ Hin) as (Hb & Hz' & _).
    apply gperf_case_strncmp_sound in E as [L E]; [|done|done|lia|done].
    split; [done|]. rewrite E, take_ge; [done|].
    destruct (decide (Z.to_nat len < length name)%nat) as [Lt|]; [|lia].
    exfalso. apply Hz'. rewrite <- Es. unfold tab.
    apply list_elem_of_In, nth_In. lia.
Qed.

(** The table computes the case-insensitive lookup in its list of names. *)
Lemma gperf_lookup_spec m len :
  Bytes m -> 0 <= len <= Z.of_nat (length m) -> 0 ∉ take (Z.to_nat len) m ->
  snd <$> lookup_word m len = find_name names (take (Z.to_nat len) m).
Proof.
  intros Hm Hl Hz. destruct (find_name _ _) as [code|] eqn:F.
  - apply find_name_Some in F as (name & Hin & E).
    by rewrite (gperf_lookup_complete m len name code).
  - destruct (lookup_word m len) as [[name code]|] eqn:L; [|done].
    apply gperf_lookup_sound in L as [Hin E]; [|done..].
    by destruct (find_name_None _ _ F code name).
Qed.
End Gperf.

(* ------------------------------------------------------------------ *)
(** ** Both tables keep the contract *)

(** A hash value over [asso_values] does not see the case of a letter. *)
Lemma asso_case T c d :
  forallb (fun c => tab T c =? tab T (tab kToLower c)) (zbelow 256) = true ->
  is_byte c -> is_byte d -> tab kToLower c = tab kToLower d -> tab T c = tab T d.
Proof.
  intros H Hc Hd E. pose proof (forall_byte _ H c Hc) as Ec.
  pose proof (forall_byte _ H d Hd) as Ed. cbv beta in *.
  apply Z.eqb_eq in Ec, Ed. by rewrite Ec, Ed, E.
Qed.

(** The two table facts of the class, decided by computation. *)
Definition names_ok (hash : bytes -> Z -> Z) (wordlist : list (bytes * Z))
    (min_len max_len max_hash : Z) (names : list (Z * bytes)) : bool :=
  forallb (fun '(s, code) =>
    match s with [] => true | _ => bool_decide ((code, s) ∈ names) end) wordlist
  && forallb (fun '(code, s) =>
    let len := Z.of_nat (length s) in
    forallb (fun c => (0 <? c) && (c <? 256)) s
    && (min_len <=? len) && (len <=? max_len)
    && (0 <=? hash s len) && (hash s len <=? max_hash)
    && bool_decide (wordlist !! Z.to_nat (hash s len) = Some (s, code))) names.

Lemma names_ok_sound hash wordlist min_len max_len max_hash names :
  names_ok hash wordlist min_len max_len max_hash names = true ->
  forall s code, (s, code) ∈ wordlist -> s = [] \/ (code, s) ∈ names.
Proof.
  unfold names_ok. rewrite andb_true_iff. intros [H _] s code Hin.
  rewrite forallb_forall in H. apply list_elem_of_In in Hin. specialize (H _ Hin).
  destruct s; [by left|right]. by apply bool_decide_eq_true in H.
Qed.

Lemma names_ok_complete hash wordlist min_len max_len max_hash names :
  names_ok hash wordlist min_len max_len max_hash names = true ->
  forall s code, (code, s) ∈ names ->
    Bytes s /\ (0 ∉ s) /\ min_len <= Z.of_nat (length s) <= max_len /\
    0 <= hash s (Z.of_nat (length s)) <= max_hash /\
    wordlist !! Z.to_nat (hash s (Z.of_nat (length s))) = Some (s, code).
Proof.
  unfold names_ok. rewrite andb_true_iff. intros [_ H] s code Hin.
  rewrite forallb_forall in H. apply list_elem_of_In in Hin. specialize (H _ Hin).
  cbv beta iota zeta in H. rewrite !andb_true_iff in H.
  destruct H as [[[[[Hb H1] H2] H3] H4] H5]. apply bool_decide_eq_true in H5.
  rewrite forallb_forall in Hb.
  repeat split; try lia; [|by intros Hz; apply list_elem_of_In, Hb in Hz|done].
  apply Forall_forall. intros x Hx. apply list_elem_of_In, Hb in Hx. unfold is_byte. lia.
Qed.

#[global] Instance method_table :
  PerfectHash method_hash method_wordlist 3 7 25 method_names.
Proof.
  assert (names_ok method_hash method_wordlist 3 7 25 method_names = true) as OK
    by (vm_compute; reflexivity).
  split; [lia|vm_compute; reflexivity|exact (names_ok_sound _ _ _ _ _ _ OK)
         |exact (names_ok_complete _ _ _ _ _ _ OK)|].
  intros m s Hm Hs L E Hl. unfold method_hash.
  rewrite (asso_case method_asso_values (tab m 1) (tab s 1));
    [|vm_compute; reflexivity|by apply Bytes_tab|by apply Bytes_tab|
      apply lower_eq_index; [done|done|lia]].
  rewrite (asso_case method_asso_values (tab m 0) (tab s 0));
    [|vm_compute; reflexivity|by apply Bytes_tab|by apply Bytes_tab|
      apply lower_eq_index; [done|done|lia]].
  done.
Qed.

#[global] Instance header_table :
  PerfectHash header_hash header_wordlist 2 32 181 header_names.
Proof.
  assert (names_ok header_hash header_wordlist 2 32 181 header_names = true) as OK
    by (vm_compute; reflexivity).
  split; [lia|vm_compute; reflexivity|exact (names_ok_sound _ _ _ _ _ _ OK)
         |exact (names_ok_complete _ _ _ _ _ _ OK)|].
  intros m s Hm Hs L E Hl. unfold header_hash.
  assert (forall i, 0 <= i < Z.of_nat (length s) ->
            tab header_asso_values (tab m i) = tab header_asso_values (tab s i)) as A.
  { intros i Hi. apply asso_case;
      [vm_compute; reflexivity|by apply Bytes_tab|by apply Bytes_tab|].
    by apply lower_eq_index. }
  rewrite (A (Z.of_nat (length s) - 1)) by lia.
  rewrite (proj2 (Z.leb_le 2 _)) by lia. cbn [andb].
  ztest; try lia; rewrite ?A by lia; reflexivity.
Qed.

(** The lookups read nothing behind the word. *)
Lemma gperf_case_strncmp_take n : forall s1 s2,
  gperf_case_strncmp (take n s1) s2 n = gperf_case_strncmp s1 s2 n.
Proof.
  induction n as [|n IH]; intros s1 s2; [done|].
  destruct s1 as [|x s1]; [done|]. cbn [take gperf_case_strncmp hd tl]. by rewrite IH.
Qed.

Lemma GetHttpHeader_take m len :
  GetHttpHeader (take (Z.to_nat len) m) len = GetHttpHeader m len.
Proof.
  unfold GetHttpHeader, LookupHttpHeader, gperf_lookup.
  destruct (Z.leb_spec len 32), (Z.leb_spec 2 len); cbn [andb]; try done.
  assert (header_hash (take (Z.to_nat len) m) len = header_hash m len) as ->.
  { unfold header_hash. rewrite (proj2 (Z.leb_le 2 len)) by lia. cbn [andb].
    rewrite (tab_take m _ (len - 1)) by lia.
    ztest; try lia; rewrite ?tab_take by lia; done. }
  destruct (_ <=? 181); [|done]. destruct (header_wordlist !! _) as [[s code]|]; [|done].
  rewrite gperf_case_strncmp_take.
  assert (hd 0 (take (Z.to_nat len) m) = hd 0 m) as ->; [|done].
  destruct m, (Z.to_nat len) eqn:E; try done. lia.
Qed.

Lemma GetHttpHeader_spec m len :
  Bytes m -> 0 <= len <= Z.of_nat (length m) -> 0 ∉ take (Z.to_nat len) m ->
  GetHttpHeader m len = default (-1) (find_name header_names (take (Z.to_nat len) m)).
Proof.
  intros Hm Hl Hz. unfold GetHttpHeader, LookupHttpHeader.
  rewrite <- (gperf_lookup_spec (PH := header_table)) by done.
  by destruct (gperf_lookup _ _ _ _ _ _ _) as [[]|].
Qed.

Lemma GetHttpMethod_spec m len :
  Bytes m -> 0 <= len <= Z.of_nat (length m) -> len <> SIZE_MAX ->
  0 ∉ take (Z.to_nat len) m ->
  GetHttpMethod (Some m) len = default 0 (find_name method_names (take (Z.to_nat len) m)).
Proof.
  intros Hm Hl Hs Hz. unfold GetHttpMethod, LookupHttpMethod. rewrite strarg_len by lia.
  set (w := take (Z.to_nat len) m) in *.
  pose proof (gperf_lookup_spec (PH := method_table) w (Z.of_nat (length w))) as S.
  rewrite Nat2Z.id, take_ge in S by done.
  rewrite <- S; [|by apply Forall_take|lia|done].
  by destruct (gperf_lookup _ _ _ _ _ _ _) as [[]|].
Qed.

Lemma find_header_range k h : find_name header_names k = Some h -> 0 <= h < 93.
Proof.
  intros H. apply find_name_Some in H as (name & Hin & _).
  assert (forallb (fun x => (0 <=? x.1) && (x.1 <? 93)) header_names = true) as F
    by (vm_compute; reflexivity).
  rewrite forallb_forall in F. apply list_elem_of_In, F in Hin. cbn [fst] in Hin. lia.
Qed.

(* ------------------------------------------------------------------ *)
(** ** Properties *)

(** C35: the perfect hashes refine the lookup they stand for: on a word without NUL bytes,
    in a buffer that may go on behind it, [GetHttpHeader] is the case-insensitive search
    through the names [GetHttpHeaderName] gives, with -1 for an unknown name, and
    [GetHttpMethod] the one through [kHttpMethod], with 0 for an unknown method. *)
Theorem GetHttpHeader_GetHttpMethod_refine m len :
  Bytes m -> 0 <= len <= Z.of_nat (length m) -> len <> SIZE_MAX ->
  0 ∉ take (Z.to_nat len) m ->
  let word := take (Z.to_nat len) m in
  GetHttpHeader m len = default (-1) (find_name header_names word) /\
  GetHttpMethod (Some m) len = default 0 (find_name method_names word).
Proof.
  intros Hm Hl Hs Hz. cbv zeta.
  split; [by apply GetHttpHeader_spec|by apply GetHttpMethod_spec].
Qed.

Lemma GetHttpHeader_GetHttpMethod_refine_witness :
  GetHttpHeader (bstr "cOnTeNt-LeNgTh: 3") 14 = kHttpContentLength.
Proof.
  destruct (GetHttpHeader_GetHttpMethod_refine (bstr "cOnTeNt-LeNgTh: 3") 14) as [H _].
  - decide_now.
  - cbn; lia.
  - done.
  - decide_now.
  - rewrite H. reflexivity.
Defined.
