(* ===== verification/HttpMessage.v ===== *)
(** The HTTP message parser: net/http/parsehttpmessage.c over struct HttpMessage of
    net/http/http.h. *)

From S2P Require Import Prelude Tables HttpNames.

(* ------------------------------------------------------------------ *)
(** ** Data *)

(** The [kHttpState*] numbers of the field [t]. *)
Inductive HttpState :=
| kHttpStateStart | kHttpStateMethod | kHttpStateUri | kHttpStateVersion
| kHttpStateStatus | kHttpStateMessage | kHttpStateName | kHttpStateColon
| kHttpStateValue | kHttpStateCr | kHttpStateLf1 | kHttpStateLf2.

Inductive HttpType := kHttpRequest | kHttpResponse.

#[global] Instance HttpState_eq_dec : EqDecision HttpState.
Proof. solve_decision. Defined.
#[global] Instance HttpType_eq_dec : EqDecision HttpType.
Proof. solve_decision. Defined.

(** [short a, b] *)
Record HttpSlice := Slice { sa : Z; sb : Z }.
Record HttpHeader := Header { hk : HttpSlice; hv : HttpSlice }.
(** [unsigned n, c] and the [n] headers behind [p] *)
Record HttpHeaders := Headers { xn : Z; xc : Z; xp : list HttpHeader }.

Record HttpMessage := Msg {
  r_i : Z; r_a : Z; r_status : Z;
  r_t : HttpState; r_type : HttpType;
  r_method : Z; r_version : Z;
  r_k : HttpSlice; r_uri : HttpSlice; r_scratch : HttpSlice; r_message : HttpSlice;
  r_headers : list HttpSlice;
  r_xmethod : HttpSlice;
  r_xheaders : HttpHeaders }.

#[global] Instance HttpSlice_eq_dec : EqDecision HttpSlice.
Proof. solve_decision. Defined.
#[global] Instance HttpHeader_eq_dec : EqDecision HttpHeader.
Proof. solve_decision. Defined.
#[global] Instance HttpHeaders_eq_dec : EqDecision HttpHeaders.
Proof. solve_decision. Defined.
#[global] Instance HttpMessage_eq_dec : EqDecision HttpMessage.
Proof. solve_decision. Defined.

(** Assignments to one field. *)
Definition set_i (x : Z) (r : HttpMessage) : HttpMessage :=
  let 'Msg _ a st t ty m v k u sc ms hs xm xh := r in Msg x a st t ty m v k u sc ms hs xm xh.
Definition set_a (x : Z) (r : HttpMessage) : HttpMessage :=
  let 'Msg i _ st t ty m v k u sc ms hs xm xh := r in Msg i x st t ty m v k u sc ms hs xm xh.
Definition set_status (x : Z) (r : HttpMessage) : HttpMessage :=
  let 'Msg i a _ t ty m v k u sc ms hs xm xh := r in Msg i a x t ty m v k u sc ms hs xm xh.
Definition set_t (x : HttpState) (r : HttpMessage) : HttpMessage :=
  let 'Msg i a st _ ty m v k u sc ms hs xm xh := r in Msg i a st x ty m v k u sc ms hs xm xh.
Definition set_method (x : Z) (r : HttpMessage) : HttpMessage :=
  let 'Msg i a st t ty _ v k u sc ms hs xm xh := r in Msg i a st t ty x v k u sc ms hs xm xh.
Definition set_version (x : Z) (r : HttpMessage) : HttpMessage :=
  let 'Msg i a st t ty m _ k u sc ms hs xm xh := r in Msg i a st t ty m x k u sc ms hs xm xh.
Definition set_k (x : HttpSlice) (r : HttpMessage) : HttpMessage :=
  let 'Msg i a st t ty m v _ u sc ms hs xm xh := r in Msg i a st t ty m v x u sc ms hs xm xh.
Definition set_uri (x : HttpSlice) (r : HttpMessage) : HttpMessage :=
  let 'Msg i a st t ty m v k _ sc ms hs xm xh := r in Msg i a st t ty m v k x sc ms hs xm xh.
Definition set_message (x : HttpSlice) (r : HttpMessage) : HttpMessage :=
  let 'Msg i a st t ty m v k u sc _ hs xm xh := r in Msg i a st t ty m v k u sc x hs xm xh.
Definition set_headers (x : list HttpSlice) (r : HttpMessage) : HttpMessage :=
  let 'Msg i a st t ty m v k u sc ms _ xm xh := r in Msg i a st t ty m v k u sc ms x xm xh.
Definition set_xmethod (x : HttpSlice) (r : HttpMessage) : HttpMessage :=
  let 'Msg i a st t ty m v k u sc ms hs _ xh := r in Msg i a st t ty m v k u sc ms hs x xh.
Definition set_xheaders (x : HttpHeaders) (r : HttpMessage) : HttpMessage :=
  let 'Msg i a st t ty m v k u sc ms hs xm _ := r in Msg i a st t ty m v k u sc ms hs xm x.

(** Storing two [int]s into a slice of [short]s. *)
Definition short_slice (a b : Z) : HttpSlice := Slice (s16 a) (s16 b).

(* ------------------------------------------------------------------ *)
(** ** Operations *)

(** [SHRT_MAX - 2] *)
Definition LIMIT : Z := 32767 - 2.

Definition slice0 : HttpSlice := Slice 0 0.

Definition InitHttpMessage (type : HttpType) : HttpMessage :=
  Msg 0 0 0 kHttpStateStart type 0 0 slice0 slice0 slice0 slice0
      (replicate (Z.to_nat kHttpHeadersMax) slice0) slice0 (Headers 0 0 []).

(** The array is freed only when there is one; [c] keeps its value. *)
Definition DestroyHttpMessage (r : HttpMessage) : HttpMessage :=
  if xc (r_xheaders r) =? 0 then r
  else set_xheaders (Headers 0 (xc (r_xheaders r)) []) r.

(** [READ64BE(p + a)] *)
Definition READ64BE (p : bytes) (a : Z) : Z :=
  foldl (fun w i => w * 256 + tab p (a + i)) 0 [0; 1; 2; 3; 4; 5; 6; 7].

(** The two ways out of a case of the [switch], and out of the body of one of its
    [for (;;)] loops. *)
Inductive exit := Break (r : HttpMessage) | Return (v : Z) (r : HttpMessage).
Inductive act := Stop (r : HttpMessage) | Fail (r : HttpMessage) | Next (r : HttpMessage).

(** [c == '\r' ? kHttpStateCr : kHttpStateLf1] *)
Definition eol_state (c : Z) : HttpState := if c =? 13 then kHttpStateCr else kHttpStateLf1.
Definition is_eol (c : Z) : bool := (c =? 13) || (c =? 10).
Definition is_token (c : Z) : bool := negb (tab kHttpToken c =? 0).
(** [c < 0x20 || (0x7F <= c && c < 0xA0)] *)
Definition is_control (c : Z) : bool := (c <? 0x20) || ((0x7F <=? c) && (c <? 0xA0)).

Section Parser.
(** [realloc n]: whether growing the array of extra headers to [n] bytes succeeds. *)
Context (realloc : Z -> bool).
(** The buffer that is parsed. *)
Context (p : bytes).

(** The loops [for (;;) { body; if (++r->i == n) break; c = p[r->i] & 0xff; }]. *)
Fixpoint scan (fuel : nat) (n : Z) (body : HttpMessage -> Z -> act) (r : HttpMessage) (c : Z)
  : option exit :=
  match fuel with
  | O => None
  | S fuel =>
      match body r c with
      | Stop r => Some (Break r)
      | Fail r => Some (Return (-1) r)
      | Next r =>
          let r := set_i (r_i r + 1) r in
          if r_i r =? n then Some (Break r)
          else scan fuel n body r (Z.land (tab p (r_i r)) 0xff)
      end
  end.

Definition method_body (r : HttpMessage) (c : Z) : act :=
  if c =? # " " then
    let r := set_method (u8 (GetHttpMethod (Some (drop (Z.to_nat (r_a r)) p)) (r_i r - r_a r))) r in
    let r := set_xmethod (short_slice (r_a r) (r_i r)) r in
    Stop (set_t kHttpStateUri (set_a (r_i r + 1) r))
  else if negb (is_token c) then Fail r
  else Next r.

Definition uri_body (r : HttpMessage) (c : Z) : act :=
  if (c =? # " ") || is_eol c then
    if r_i r =? r_a r then Fail r else
    let r := set_uri (short_slice (r_a r) (r_i r)) r in
    if c =? # " " then Stop (set_t kHttpStateVersion (set_a (r_i r + 1) r))
    else Stop (set_t (eol_state c) (set_version 9 r))
  else if is_control c then Fail r
  else Next r.

Definition status_body (r : HttpMessage) (c : Z) : act :=
  if (c =? # " ") || is_eol c then
    if r_status r <? 100 then Fail r else
    if c =? # " " then Stop (set_t kHttpStateMessage (set_a (r_i r + 1) r))
    else Stop (set_t (eol_state c) r)
  else if (# "0" <=? c) && (c <=? # "9") then
    let r := set_status (s32 (r_status r * 10)) r in
    let r := set_status (s32 (r_status r + (c - # "0"))) r in
    if r_status r >? 999 then Fail r else Next r
  else Fail r.

Definition message_body (r : HttpMessage) (c : Z) : act :=
  if is_eol c then
    Stop (set_t (eol_state c) (set_message (short_slice (r_a r) (r_i r)) r))
  else if is_control c then Fail r
  else Next r.

Definition name_body (r : HttpMessage) (c : Z) : act :=
  if c =? # ":" then
    Stop (set_t kHttpStateColon (set_k (Slice (sa (r_k r)) (s16 (r_i r))) r))
  else if negb (is_token c) then Fail r
  else Next r.

(** [while (i > r->a && (p[i - 1] == ' ' || p[i - 1] == '\t')) --i;] *)
Fixpoint rtrim (fuel : nat) (a i : Z) : Z :=
  match fuel with
  | O => i
  | S fuel =>
      if (i >? a) && ((tab p (i - 1) =? # " ") || (tab p (i - 1) =? 9))
      then rtrim fuel a (i - 1) else i
  end.

(** The growth of [xheaders] by doubling, and the store behind it; the header is lost
    when the array is full and cannot grow. [sizeof(struct HttpHeader)] is 8. *)
Definition push_xheader (h : HttpHeader) (xh : HttpHeaders) : HttpHeaders :=
  let xh :=
    if xn xh =? xc xh then
      let c2 := if xc xh =? 0 then 1 else u32 (xc xh * 2) in
      if realloc (c2 * 8) then Headers (xn xh) c2 (xp xh) else xh
    else xh in
  if xn xh <? xc xh
  then Headers (u32 (xn xh + 1)) (xc xh) (take (Z.to_nat (xn xh)) (xp xh) ++ [h])
  else xh.

(** Recording one header: the static slice of a known header that is absent or not
    repeatable, [xheaders] otherwise. *)
Definition store_header (r : HttpMessage) (i : Z) : HttpMessage :=
  let k := r_k r in
  let h := GetHttpHeader (drop (Z.to_nat (sa k)) p) (sb k - sa k) in
  if negb (h =? -1)
     && ((sa (nth (Z.to_nat h) (r_headers r) slice0) =? 0) || negb (kHttpRepeatable h))
  then set_headers (<[Z.to_nat h := short_slice (r_a r) i]> (r_headers r)) r
  else set_xheaders (push_xheader (Header k (short_slice (r_a r) i)) (r_xheaders r)) r.

Definition value_body (r : HttpMessage) (c : Z) : act :=
  if is_eol c then
    let i := rtrim (Z.to_nat (r_i r - r_a r)) (r_a r) (r_i r) in
    Stop (set_t (eol_state c) (store_header r i))
  else if ((c <? 0x20) && negb (c =? 9)) || ((0x7F <=? c) && (c <? 0xA0)) then Fail r
  else Next r.

(** The [switch (r->t)]. *)
Definition parse_case (fuel : nat) (n : Z) (r : HttpMessage) (c : Z) : option exit :=
  match r_t r with
  | kHttpStateStart =>
      if is_eol c then Some (Break r)
      else if negb (is_token c) then Some (Return (-1) r)
      else
        let r := set_t (match r_type r with
                        | kHttpRequest => kHttpStateMethod
                        | kHttpResponse => kHttpStateVersion
                        end) r in
        Some (Break (set_a (r_i r) r))
  | kHttpStateMethod => scan fuel n method_body r c
  | kHttpStateUri => scan fuel n uri_body r c
  | kHttpStateVersion =>
      if (c =? # " ") || is_eol c then
        if (r_i r - r_a r =? 8)
           && (Z.land (READ64BE p (r_a r)) 0xFFFFFFFFFF00FF00 =? 0x485454502F002E00)
           && isdigit (tab p (r_a r + 5)) && isdigit (tab p (r_a r + 7))
        then
          let r := set_version (u8 ((tab p (r_a r + 5) - # "0") * 10
                                    + (tab p (r_a r + 7) - # "0"))) r in
          Some (Break (set_t (match r_type r with
                              | kHttpRequest => eol_state c
                              | kHttpResponse => kHttpStateStatus
                              end) r))
        else Some (Return (-1) r)
      else Some (Break r)
  | kHttpStateStatus => scan fuel n status_body r c
  | kHttpStateMessage => scan fuel n message_body r c
  | kHttpStateCr =>
      if negb (c =? 10) then Some (Return (-1) r)
      else Some (Break (set_t kHttpStateLf1 r))
  | kHttpStateLf1 =>
      if c =? 13 then Some (Break (set_t kHttpStateLf2 r))
      else if c =? 10 then let r := set_i (r_i r + 1) r in Some (Return (r_i r) r)
      else if negb (is_token c) then Some (Return (-1) r)
      else Some (Break (set_t kHttpStateName (set_k (Slice (s16 (r_i r)) (sb (r_k r))) r)))
  | kHttpStateName => scan fuel n name_body r c
  | kHttpStateColon =>
      if (c =? # " ") || (c =? 9) then Some (Break r)
      else (* fallthrough *)
        scan fuel n value_body (set_t kHttpStateValue (set_a (r_i r) r)) c
  | kHttpStateValue => scan fuel n value_body r c
  | kHttpStateLf2 =>
      if c =? 10 then let r := set_i (r_i r + 1) r in Some (Return (r_i r) r)
      else Some (Return (-1) r)
  end.

(** [for (; r->i < n; ++r->i)] and the verdict behind it. *)
Fixpoint parse_loop (fuel : nat) (n : Z) (r : HttpMessage) : option (Z * HttpMessage) :=
  if r_i r <? n then
    match fuel with
    | O => None
    | S fuel =>
        match parse_case fuel n r (Z.land (tab p (r_i r)) 0xff) with
        | None => None
        | Some (Return v r) => Some (v, r)
        | Some (Break r) => parse_loop fuel n (set_i (r_i r + 1) r)
        end
    end
  else Some (if r_i r <? LIMIT then 0 else -1, r).

(** The result is [None] only if the fuel were too small; one unit per byte is
    enough. *)
Definition ParseHttpMessage (r : HttpMessage) (n : Z) : option (Z * HttpMessage) :=
  let n := Z.min n LIMIT in
  parse_loop (S (Z.to_nat (n - r_i r))) n r.
End Parser.

(** The bytes a slice denotes. *)
Definition slice (p : bytes) (s : HttpSlice) : bytes :=
  take (Z.to_nat (sb s - sa s)) (drop (Z.to_nat (sa s)) p).

(* ------------------------------------------------------------------ *)
(** ** The code, one byte at a time *)

(** What one byte does: go on in state [r], where [sc] says that an inner loop asked for
    more bytes, or return. *)
Inductive outcome := Go (r : HttpMessage) (sc : bool) | Ret (v : Z) (r : HttpMessage).

Definition of_act (a : act) : outcome :=
  match a with Stop r => Go r false | Next r => Go r true | Fail r => Ret (-1) r end.

Section Automaton.
Context (realloc : Z -> bool) (p : bytes).

Definition step (r : HttpMessage) (c : Z) : outcome :=
  match r_t r with
  | kHttpStateMethod => of_act (method_body p r c)
  | kHttpStateUri => of_act (uri_body r c)
  | kHttpStateStatus => of_act (status_body r c)
  | kHttpStateMessage => of_act (message_body r c)
  | kHttpStateName => of_act (name_body r c)
  | kHttpStateColon =>
      if (c =? # " ") || (c =? 9) then Go r false
      else of_act (value_body realloc p (set_t kHttpStateValue (set_a (r_i r) r)) c)
  | kHttpStateValue => of_act (value_body realloc p r c)
  | _ =>
      match parse_case realloc p O 0 r c with
      | Some (Break r) => Go r false
      | Some (Return v r) => Ret v r
      | None => Ret (-1) r
      end
  end.

Fixpoint run (l : bytes) (r : HttpMessage) (sc : bool) : outcome :=
  match l with
  | [] => Go r sc
  | c :: l =>
      match step r c with
      | Go r sc => run l (set_i (r_i r + 1) r) sc
      | Ret v r => Ret v r
      end
  end.

(** What the function answers at the end of the buffer. An inner loop that ran out of
    bytes leaves [r->i] one byte behind the end of the buffer. *)
Definition finish (o : outcome) : Z * HttpMessage :=
  match o with
  | Ret v r => (v, r)
  | Go r sc =>
      let r := if sc then set_i (r_i r + 1) r else r in
      (if r_i r <? LIMIT then 0 else -1, r)
  end.

(** The bytes from [i] to [n]. *)
Definition rest (n i : Z) : bytes :=
  map (fun x => Z.land x 0xff) (take (Z.to_nat (n - i)) (drop (Z.to_nat i) p)).

(* ------------------------------------------------------------------ *)
(** ** Lemmas *)

Lemma rest_nil n i : n <= i -> rest n i = [].
Proof. intros. unfold rest. replace (Z.to_nat (n - i)) with O by lia. done. Qed.

Lemma rest_cons n i :
  0 <= i < n -> n <= Z.of_nat (length p) ->
  rest n i = Z.land (tab p i) 0xff :: rest n (i + 1).
Proof.
  intros Hi Hn. unfold rest, tab.
  replace (Z.to_nat (n - i)) with (S (Z.to_nat (n - (i + 1)))) by lia.
  replace (Z.to_nat (i + 1)) with (S (Z.to_nat i)) by lia.
  rewrite (drop_S p (nth (Z.to_nat i) p 0)); [done|].
  destruct (nth_lookup_or_length p (Z.to_nat i) 0); [done|lia].
Qed.

(** The bodies of the inner loops leave [r->i] alone, and [r->t] when they go on. *)
Definition well_behaved (s : HttpState) (body : HttpMessage -> Z -> act) : Prop :=
  forall r c, match body r c with
  | Stop r' | Fail r' => r_i r' = r_i r
  | Next r' => r_i r' = r_i r /\ (r_t r = s -> r_t r' = s)
  end.

Lemma set_i_i x r : r_i (set_i x r) = x.
Proof. by destruct r. Qed.
Lemma set_i_t x r : r_t (set_i x r) = r_t r.
Proof. by destruct r. Qed.
Lemma set_i_set_i x y r : set_i x (set_i y r) = set_i x r.
Proof. by destruct r. Qed.

(** An inner loop runs the automaton up to the byte behind its last one. *)
Lemma scan_run s body n :
  (forall r c, r_t r = s -> step r c = of_act (body r c)) -> well_behaved s body ->
  n <= Z.of_nat (length p) ->
  forall fuel r c sc, r_t r = s -> 0 <= r_i r < n -> n - r_i r <= Z.of_nat fuel ->
  c = Z.land (tab p (r_i r)) 0xff ->
  match scan p fuel n body r c with
  | None => False
  | Some (Return v r') => run (rest n (r_i r)) r sc = Ret v r'
  | Some (Break r') =>
      r_i r <= r_i r' <= n /\
      (r_i r' < n /\
         run (rest n (r_i r)) r sc =
         run (rest n (r_i r' + 1)) (set_i (r_i r' + 1) r') false
       \/ r_i r' = n /\ run (rest n (r_i r)) r sc = Go r' true)
  end.
Proof.
  intros Hs Hb Hn. induction fuel as [|fuel IH]; intros r c sc Ht Hi Hf ->; [lia|].
  cbn [scan]. rewrite (rest_cons n (r_i r)) by lia. cbn [run]. rewrite Hs by done.
  specialize (Hb r (Z.land (tab p (r_i r)) 0xff)).
  destruct (body r _) as [r'|r'|r']; cbn [of_act].
  - rewrite Hb. split; [lia|]. left. split; [lia|done].
  - done.
  - destruct Hb as [Hi' Ht']. specialize (Ht' Ht). rewrite set_i_i, Hi'.
    destruct (Z.eqb_spec (r_i r + 1) n) as [E|E].
    + rewrite set_i_i. split; [lia|]. right. split; [done|]. by rewrite rest_nil by lia.
    + specialize (IH (set_i (r_i r + 1) r') (Z.land (tab p (r_i r + 1)) 0xff) true).
      rewrite set_i_i, set_i_t in IH. specialize (IH Ht' ltac:(lia) ltac:(lia) eq_refl).
      destruct (scan _ _ _ _ _ _) as [[r''|v r'']|]; [|done|done].
      destruct IH as [IHa IHb]. split; [lia|exact IHb].
Qed.

Lemma store_header_i r i : r_i (store_header realloc p r i) = r_i r.
Proof. unfold store_header. destruct (_ && _); by destruct r. Qed.
Lemma store_header_a r i : r_a (store_header realloc p r i) = r_a r.
Proof. unfold store_header. destruct (_ && _); by destruct r. Qed.

Ltac body_cases :=
  intros r c; destruct r; cbv beta iota zeta delta
    [method_body uri_body status_body message_body name_body value_body];
  repeat match goal with |- context [if ?b then _ else _] => destruct b end;
  try done.

Lemma method_body_ok : well_behaved kHttpStateMethod (method_body p).
Proof. body_cases. Qed.
Lemma uri_body_ok : well_behaved kHttpStateUri uri_body.
Proof. body_cases. Qed.
Lemma status_body_ok : well_behaved kHttpStateStatus status_body.
Proof. body_cases. Qed.
Lemma message_body_ok : well_behaved kHttpStateMessage message_body.
Proof. body_cases. Qed.
Lemma name_body_ok : well_behaved kHttpStateName name_body.
Proof. body_cases. Qed.
Lemma value_body_ok : well_behaved kHttpStateValue (value_body realloc p).
Proof.
  intros r c. unfold value_body. destruct (is_eol c).
  - pose proof (store_header_i r (rtrim p (Z.to_nat (r_i r - r_a r)) (r_a r) (r_i r))) as E.
    by destruct (store_header _ _ _ _).
  - destruct (_ || _); done.
Qed.

(** One round of the outer loop runs the automaton over the bytes it consumes. *)
Lemma parse_case_run fuel n r sc :
  n <= Z.of_nat (length p) -> 0 <= r_i r < n -> n - r_i r <= Z.of_nat fuel ->
  match parse_case realloc p fuel n r (Z.land (tab p (r_i r)) 0xff) with
  | None => False
  | Some (Return v r') => run (rest n (r_i r)) r sc = Ret v r'
  | Some (Break r') =>
      r_i r <= r_i r' <= n /\
      (r_i r' < n /\
         run (rest n (r_i r)) r sc =
         run (rest n (r_i r' + 1)) (set_i (r_i r' + 1) r') false
       \/ r_i r' = n /\ run (rest n (r_i r)) r sc = Go r' true)
  end.
Proof.
  intros Hn Hi Hf.
  assert (forall r', r_i r' = r_i r ->
            step r (Z.land (tab p (r_i r)) 0xff) = Go r' false ->
            r_i r <= r_i r' <= n /\
            (r_i r' < n /\ run (rest n (r_i r)) r sc =
               run (rest n (r_i r' + 1)) (set_i (r_i r' + 1) r') false
             \/ r_i r' = n /\ run (rest n (r_i r)) r sc = Go r' true)) as B.
  { intros r' E S. rewrite E. split; [lia|]. left. split; [lia|].
    rewrite (rest_cons n (r_i r)) by lia. cbn [run]. by rewrite S, E. }
  assert (forall v r', step r (Z.land (tab p (r_i r)) 0xff) = Ret v r' ->
            run (rest n (r_i r)) r sc = Ret v r') as R.
  { intros v r' S. rewrite (rest_cons n (r_i r)) by lia. cbn [run]. by rewrite S. }
  destruct (r_t r) eqn:Ht; unfold step in B, R; unfold parse_case in *; rewrite Ht in *.
  - destruct (is_eol _); [by apply B|]. destruct (negb _); [by apply R|].
    destruct r; by apply B.
  - apply (scan_run kHttpStateMethod); try done; [|apply method_body_ok].
    intros r0 c E. unfold step. by rewrite E.
  - apply (scan_run kHttpStateUri); try done; [|apply uri_body_ok].
    intros r0 c E. unfold step. by rewrite E.
  - destruct (_ || _); [|by apply B]. destruct (_ && _ && _ && _); [|by apply R].
    destruct r; by apply B.
  - apply (scan_run kHttpStateStatus); try done; [|apply status_body_ok].
    intros r0 c E. unfold step. by rewrite E.
  - apply (scan_run kHttpStateMessage); try done; [|apply message_body_ok].
    intros r0 c E. unfold step. by rewrite E.
  - apply (scan_run kHttpStateName); try done; [|apply name_body_ok].
    intros r0 c E. unfold step. by rewrite E.
  - destruct (_ || _) eqn:Ec; [by apply B|].
    set (r1 := set_t kHttpStateValue (set_a (r_i r) r)).
    assert (r_i r1 = r_i r) as Ei by (subst r1; by destruct r).
    assert (r_t r1 = kHttpStateValue) as Et by (subst r1; by destruct r).
    assert (run (rest n (r_i r)) r sc = run (rest n (r_i r)) r1 sc) as ->.
    { rewrite (rest_cons n (r_i r)) by lia. cbn [run]. unfold step.
      by rewrite Ht, Ec, Et. }
    rewrite <- Ei. apply (scan_run kHttpStateValue); try done; rewrite ?Ei; try done;
      [|apply value_body_ok].
    intros r0 c E. unfold step. by rewrite E.
  - apply (scan_run kHttpStateValue); try done; [|apply value_body_ok].
    intros r0 c E. unfold step. by rewrite E.
  - destruct (negb _); [by apply R|]. destruct r; by apply B.
  - destruct (_ =? 13); [destruct r; by apply B|]. destruct (_ =? 10); [by apply R|].
    destruct (negb _); [by apply R|]. destruct r; by apply B.
  - destruct (_ =? 10); by apply R.
Qed.

Lemma parse_loop_run n :
  n <= Z.of_nat (length p) -> forall fuel r sc,
  0 <= r_i r -> n - r_i r < Z.of_nat fuel -> (r_i r < n \/ sc = false) ->
  parse_loop realloc p fuel n r = Some (finish (run (rest n (r_i r)) r sc)).
Proof.
  intros Hn. induction fuel as [|fuel IH]; intros r sc Hi Hf Hsc; [|cbn [parse_loop]].
  - cbn [parse_loop]. rewrite (proj2 (Z.ltb_ge (r_i r) n)) by lia.
    destruct Hsc as [?| ->]; [lia|]. by rewrite rest_nil by lia.
  - destruct (Z.ltb_spec (r_i r) n).
    + pose proof (parse_case_run fuel n r sc Hn) as C.
      specialize (C ltac:(lia) ltac:(lia)).
      destruct (parse_case _ _ _ _ _ _) as [[r'|v r']|]; [| |done].
      * destruct C as [Hr [[Hlt ->]|[Heq ->]]].
        -- rewrite (IH _ false); rewrite ?set_i_i; [done|lia|lia|by right].
        -- rewrite (IH _ false); rewrite ?set_i_i; [|lia|lia|by right].
           by rewrite rest_nil by lia.
      * by rewrite C.
    + destruct Hsc as [?| ->]; [lia|]. by rewrite rest_nil by lia.
Qed.
End Automaton.

Lemma run_app realloc p l1 l2 r sc :
  run realloc p (l1 ++ l2) r sc =
  match run realloc p l1 r sc with
  | Go r' sc' => run realloc p l2 r' sc'
  | Ret v r' => Ret v r'
  end.
Proof.
  revert r sc. induction l1 as [|c l1 IH]; intros r sc; [done|].
  cbn [run app]. destruct (step _ _ _ _) as [r' sc'|v r']; [apply IH|done].
Qed.

(* ------------------------------------------------------------------ *)
(** ** Well-formed parser states *)

(** A slice that lies before position [i] and survives the conversion to [short]. *)
Definition slice_wf (i : Z) (s : HttpSlice) : Prop :=
  0 <= sa s <= sb s /\ sb s <= i /\ sb s <= LIMIT.

Record wf (r : HttpMessage) : Prop := {
  wf_i : 0 <= r_i r <= LIMIT + 1;
  wf_a : 0 <= r_a r <= r_i r;
  wf_status : 0 <= r_status r <= 999;
  wf_version : 0 <= r_version r <= 99;
  wf_k : match r_t r with
         | kHttpStateName => 0 <= sa (r_k r) <= r_i r
         | kHttpStateColon | kHttpStateValue => slice_wf (r_i r) (r_k r)
         | _ => True
         end;
  wf_uri : slice_wf (r_i r) (r_uri r);
  wf_message : slice_wf (r_i r) (r_message r);
  wf_xmethod : slice_wf (r_i r) (r_xmethod r);
  wf_headers : length (r_headers r) = Z.to_nat kHttpHeadersMax /\
               Forall (slice_wf (r_i r)) (r_headers r);
  wf_xheaders : xn (r_xheaders r) = Z.of_nat (length (xp (r_xheaders r))) /\
                xn (r_xheaders r) <= r_i r /\
                Forall (fun h => slice_wf (r_i r) (hk h) /\ slice_wf (r_i r) (hv h))
                       (xp (r_xheaders r))
}.

Lemma slice_wf_mono i j s : slice_wf i s -> i <= j -> slice_wf j s.
Proof. unfold slice_wf. lia. Qed.

Lemma short_slice_wf i a b :
  0 <= a <= b -> b <= i -> b <= LIMIT -> slice_wf i (short_slice a b).
Proof.
  unfold slice_wf, short_slice, LIMIT. intros. cbn [sa sb]. rewrite !s16_id by lia. lia.
Qed.

Lemma wf_init type : wf (InitHttpMessage type).
Proof.
  assert (slice_wf 0 slice0) as S by (unfold slice_wf, LIMIT; cbn; lia).
  split; cbn [InitHttpMessage r_i r_a r_status r_version r_t r_uri r_message r_xmethod
              r_headers r_xheaders xn xp]; unfold LIMIT in *; try lia; try done.
  split; [apply length_replicate|by apply Forall_replicate].
Qed.

(** Only the state letter, [k], [a], the status and the version may change; the rest is
    monotone in [r->i]. *)
Lemma wf_advance r r' :
  wf r -> r_i r <= r_i r' <= LIMIT + 1 -> 0 <= r_a r' <= r_i r' ->
  0 <= r_status r' <= 999 -> 0 <= r_version r' <= 99 ->
  match r_t r' with
  | kHttpStateName => 0 <= sa (r_k r') <= r_i r'
  | kHttpStateColon | kHttpStateValue => slice_wf (r_i r') (r_k r')
  | _ => True
  end ->
  (r_uri r' = r_uri r \/ slice_wf (r_i r') (r_uri r')) ->
  (r_message r' = r_message r \/ slice_wf (r_i r') (r_message r')) ->
  (r_xmethod r' = r_xmethod r \/ slice_wf (r_i r') (r_xmethod r')) ->
  r_headers r' = r_headers r -> r_xheaders r' = r_xheaders r -> wf r'.
Proof.
  intros [] Hi Ha Hs Hv Hk Hu Hm Hx Hh Hxh.
  assert (forall s, slice_wf (r_i r) s -> slice_wf (r_i r') s) as Mono
    by (intros s Hw; eapply slice_wf_mono; [exact Hw|lia]).
  split; try done; try lia.
  - destruct Hu as [->|]; auto.
  - destruct Hm as [->|]; auto.
  - destruct Hx as [->|]; auto.
  - rewrite Hh. destruct wf_headers0 as [L F]. split; [done|].
    eapply Forall_impl; [exact F|exact Mono].
  - rewrite Hxh. destruct wf_xheaders0 as (L & N & F). split; [done|]. split; [lia|].
    eapply Forall_impl; [exact F|]. cbn. intros h []. auto.
Qed.

Lemma rtrim_range p fuel a i :
  a <= i -> i - a <= Z.of_nat fuel -> a <= rtrim p fuel a i <= i.
Proof.
  revert i. induction fuel as [|fuel IH]; intros i H L; cbn [rtrim]; [lia|].
  destruct (Z.gtb_spec i a); cbn [andb]; [|lia].
  destruct (_ || _); [|lia]. specialize (IH (i - 1)). lia.
Qed.

Lemma push_xheader_ok realloc (P : HttpHeader -> Prop) h xh :
  xn xh = Z.of_nat (length (xp xh)) -> xn xh < 2 ^ 32 - 1 -> Forall P (xp xh) -> P h ->
  let xh' := push_xheader realloc h xh in
  xn xh' = Z.of_nat (length (xp xh')) /\ xn xh' <= xn xh + 1 /\ Forall P (xp xh').
Proof.
  intros L N F H. cbv zeta. unfold push_xheader.
  set (xh1 := if xn xh =? xc xh then _ else xh).
  assert (xn xh1 = xn xh /\ xp xh1 = xp xh) as [En Ep].
  { subst xh1. destruct (_ =? _); [|done]. by destruct (realloc _). }
  destruct (_ <? _); cbn [xn xp]; rewrite ?En, ?Ep; [|split; [done|split; [lia|done]]].
  rewrite u32_id by lia. rewrite L, Nat2Z.id, firstn_all, length_app. cbn [length].
  split; [lia|]. split; [lia|]. apply Forall_app. split; [done|]. by constructor.
Qed.

Lemma store_header_wf realloc p r i s :
  wf r -> slice_wf (r_i r) (r_k r) -> r_a r <= i <= r_i r -> r_i r <= LIMIT ->
  s = kHttpStateCr \/ s = kHttpStateLf1 ->
  wf (set_i (r_i r + 1) (set_t s (store_header realloc p r i))).
Proof.
  intros W K Hi HL Hs.
  pose proof (wf_a _ W) as Wa. pose proof (wf_headers _ W) as [Wl Wh].
  pose proof (wf_xheaders _ W) as (Xl & Xn & Xf).
  assert (slice_wf (r_i r + 1) (short_slice (r_a r) i)) as S
    by (apply short_slice_wf; lia).
  assert (wf (set_i (r_i r + 1) (set_t s r))) as W1.
  { pose proof (wf_i _ W). pose proof (wf_status _ W). pose proof (wf_version _ W).
    apply (wf_advance r); destruct r; cbn in *; unfold LIMIT in *; try done; try lia;
      try (by left). destruct Hs as [-> | ->]; done. }
  unfold store_header. destruct (_ && _).
  - destruct W1 as [W1 W2 W3 W4 W5 W6 W7 W8 W9 W10]. destruct r; cbn in *.
    split; cbn; try done. split; [by rewrite length_insert|].
    apply Forall_insert; [apply W9|done].
  - destruct (push_xheader_ok realloc
      (fun h => slice_wf (r_i r + 1) (hk h) /\ slice_wf (r_i r + 1) (hv h))
      (Header (r_k r) (short_slice (r_a r) i)) (r_xheaders r)) as (P1 & P2 & P3).
    + done.
    + unfold LIMIT in *. lia.
    + destruct W1 as [_ _ _ _ _ _ _ _ _ W10]. destruct r; cbn in *. apply W10.
    + split; [|done]. cbn. eapply slice_wf_mono; [exact K|lia].
    + destruct W1 as [W1 W2 W3 W4 W5 W6 W7 W8 W9 W10]. destruct r; cbn in *.
      split; cbn; try done. split; [done|]. split; [lia|done].
Qed.

(** A step that leaves the headers alone keeps the state well-formed. *)
Ltac wf_step W :=
  first [exact W
        |apply (wf_advance _ _ W); cbn; unfold LIMIT in *; try lia; try done;
         try (by left); try (right; apply short_slice_wf; unfold LIMIT; lia)].

Lemma value_body_wf realloc p r c :
  wf r -> r_t r = kHttpStateValue -> r_i r < LIMIT ->
  match of_act (value_body realloc p r c) with
  | Go r' _ => r_i r' = r_i r /\ wf (set_i (r_i r' + 1) r')
  | Ret v r' => v = -1 /\ r_i r' = r_i r
  end.
Proof.
  intros W Ht HL. pose proof W as [Wi Wa Ws Wv Wk Wu Wm Wx Wh Wxh]. rewrite Ht in Wk.
  unfold value_body. destruct (is_eol c); cbn [of_act].
  - pose proof (rtrim_range p (Z.to_nat (r_i r - r_a r)) (r_a r) (r_i r)) as Ri.
    set (j := rtrim _ _ _ _) in *.
    pose proof (store_header_i realloc p r j) as Ei.
    assert (r_i (set_t (eol_state c) (store_header realloc p r j)) = r_i r) as E
      by (by destruct (store_header realloc p r j)).
    split; [done|]. rewrite E.
    apply store_header_wf; try done; try lia. unfold eol_state. destruct (_ =? 13); auto.
  - destruct (_ || _); cbn [of_act]; [done|]. split; [done|].
    destruct r; cbn in *. subst. wf_step W. eapply slice_wf_mono; [exact Wk|lia].
Qed.

(** Each byte keeps the state well-formed; the only results are -1 and the position
    behind the byte. *)
Lemma step_wf realloc p r c :
  wf r -> r_i r < LIMIT ->
  match step realloc p r c with
  | Go r' _ => r_i r' = r_i r /\ wf (set_i (r_i r' + 1) r')
  | Ret v r' => v = -1 /\ r_i r' = r_i r \/ v = r_i r + 1 /\ r_i r' = v /\ wf r'
  end.
Proof.
  intros W HL. pose proof W as [Wi Wa Ws Wv Wk Wu Wm Wx Wh Wxh].
  unfold step, parse_case. destruct (r_t r) eqn:Ht.
  - destruct (is_eol c); [split; [done|]; destruct r; cbn in *; subst; wf_step W|].
    destruct (negb _); [by auto|].
    destruct r as [? ? ? ? []]; cbn in *; subst; (split; [done|]); wf_step W.
  - unfold method_body. destruct (_ =? 32); cbn [of_act].
    + destruct r; cbn in *; subst. split; [done|]. wf_step W.
    + destruct (negb _); cbn [of_act]; [by auto|]. split; [done|].
      destruct r; cbn in *; subst. wf_step W.
  - unfold uri_body, eol_state. destruct (_ || _).
    + destruct (_ =? _); cbn [of_act]; [by auto|].
      destruct (_ =? 32); cbn [of_act]; destruct r; cbn in *; subst; (split; [done|]);
        [|destruct (_ =? 13)]; wf_step W.
    + destruct (is_control c); cbn [of_act]; [by auto|].
      split; [done|]. destruct r; cbn in *; subst. wf_step W.
  - destruct (_ || _); [|split; [done|]; destruct r; cbn in *; subst; wf_step W].
    destruct (_ && _ && _ && _) eqn:E; [|by auto].
    rewrite !andb_true_iff in E. destruct E as [[_ D1] D2]. unfold isdigit in D1, D2.
    assert (0 <= u8 ((tab p (r_a r + 5) - 48) * 10 + (tab p (r_a r + 7) - 48)) <= 99)
      by (rewrite u8_id; lia).
    unfold eol_state.
    destruct r as [? ? ? ? []]; cbn in *; subst; (split; [done|]);
      [destruct (_ =? 13)|]; wf_step W.
  - unfold status_body, eol_state. destruct (_ || _).
    + destruct (_ <? _); cbn [of_act]; [by auto|].
      destruct (_ =? 32); cbn [of_act]; destruct r; cbn in *; subst; (split; [done|]);
        [|destruct (_ =? 13)]; wf_step W.
    + destruct (_ && _) eqn:D; cbn [of_act]; [|by auto].
      destruct r; cbn in *; subst. rewrite (s32_id (_ * 10)) by lia.
      rewrite !s32_id by lia.
      destruct (Z.gtb_spec (r_status0 * 10 + (c - 48)) 999); cbn.
      * by left.
      * split; [done|]. wf_step W.
  - unfold message_body, eol_state. destruct (is_eol c); cbn [of_act].
    + destruct r; cbn in *; subst. split; [done|]. destruct (_ =? 13); wf_step W.
    + destruct (is_control c); cbn [of_act]; [by auto|].
      split; [done|]. destruct r; cbn in *; subst. wf_step W.
  - unfold name_body. destruct (_ =? 58); cbn [of_act].
    + destruct r; cbn in *; subst. split; [done|]. wf_step W.
      unfold slice_wf. cbn. rewrite s16_id by lia. unfold LIMIT. lia.
    + destruct (negb _); cbn [of_act]; [by auto|]. split; [done|].
      destruct r; cbn in *; subst. wf_step W.
  - destruct (_ || _).
    + split; [done|]. destruct r; cbn in *; subst. wf_step W.
      eapply slice_wf_mono; [exact Wk|lia].
    + pose proof (value_body_wf realloc p (set_t kHttpStateValue (set_a (r_i r) r)) c) as V.
      assert (wf (set_t kHttpStateValue (set_a (r_i r) r))) as W'
        by (destruct r; cbn in *; subst; wf_step W).
      specialize (V W').
      destruct (of_act _); [|left]; destruct r; cbn in *; auto.
  - pose proof (value_body_wf realloc p r c W Ht HL) as V.
    destruct (of_act _); [done|]. by left.
  - destruct (negb _); [by auto|]. split; [by destruct r|].
    destruct r; cbn in *; subst. wf_step W.
  - destruct (_ =? 13); [split; [by destruct r|]; destruct r; cbn in *; subst; wf_step W|].
    destruct (_ =? 10).
    { right. destruct r; cbn in *; subst. split; [done|]. split; [done|]. wf_step W. }
    destruct (negb _); [by auto|]. split; [by destruct r|].
    destruct r; cbn in *; subst. wf_step W. rewrite s16_id by lia. lia.
  - destruct (_ =? 10); [right|by left]. destruct r; cbn in *; subst.
    split; [done|]. split; [done|]. wf_step W.
Qed.

Lemma run_wf realloc p l : forall r sc,
  wf r -> r_i r + Z.of_nat (length l) <= LIMIT ->
  match run realloc p l r sc with
  | Go r' _ => r_i r' = r_i r + Z.of_nat (length l) /\ wf r'
  | Ret v r' => r_i r <= r_i r' <= r_i r + Z.of_nat (length l) /\
                (v = -1 \/ r_i r < v /\ r_i r' = v /\ wf r')
  end.
Proof.
  induction l as [|c l IH]; intros r sc W L; cbn [run length] in *.
  - split; [lia|done].
  - pose proof (step_wf realloc p r c W) as S. specialize (S ltac:(lia)).
    destruct (step _ _ _ _) as [r' sc'|v r'].
    + destruct S as [E W']. specialize (IH (set_i (r_i r' + 1) r') sc' W').
      rewrite set_i_i, E in IH. specialize (IH ltac:(lia)).
      rewrite E. destruct (run _ _ _ _ _) as [r''|v r''];
        [destruct IH; split; [lia|done]|].
      destruct IH as (? & [?|(? & ? & ?)]); (split; [lia|]); [by left|right].
      split; [lia|done].
    + destruct S as [[-> ?]|(-> & ? & ?)]; (split; [lia|]); [by left|right].
      split; [lia|done].
Qed.

(* ------------------------------------------------------------------ *)
(** ** The parser reads nothing behind its position *)

Section Local.
Context (realloc : Z -> bool) (p p' : bytes).

Definition agree (i : Z) : Prop := take (Z.to_nat i) p = take (Z.to_nat i) p'.

Lemma agree_tab i j : agree i -> 0 <= j < i -> tab p j = tab p' j.
Proof.
  unfold agree. intros A Hj. rewrite <- (tab_take p (Z.to_nat i)) by lia.
  rewrite A. apply tab_take. lia.
Qed.

Lemma agree_slice i a n :
  agree i -> 0 <= a -> 0 <= n -> a + n <= i ->
  take (Z.to_nat n) (drop (Z.to_nat a) p) = take (Z.to_nat n) (drop (Z.to_nat a) p').
Proof.
  unfold agree. intros A Ha Hn L.
  assert (forall q : bytes, take (Z.to_nat n) (drop (Z.to_nat a) q) =
                    take (Z.to_nat n) (drop (Z.to_nat a) (take (Z.to_nat i) q))) as T.
  { intros q. rewrite skipn_firstn_comm, take_take. f_equal. lia. }
  rewrite (T p), (T p'), A. done.
Qed.

Lemma agree_mono i j : agree i -> 0 <= j <= i -> agree j.
Proof.
  unfold agree. intros A Hj.
  replace (Z.to_nat j) with (Nat.min (Z.to_nat j) (Z.to_nat i)) by lia.
  rewrite <- !take_take, A. done.
Qed.

Lemma rtrim_local fuel a i :
  agree i -> 0 <= a -> rtrim p fuel a i = rtrim p' fuel a i.
Proof.
  revert i. induction fuel as [|fuel IH]; intros i A Ha; cbn [rtrim]; [done|].
  destruct (Z.gtb_spec i a); cbn [andb]; [|done].
  rewrite (agree_tab i (i - 1)) by (done || lia).
  destruct (_ || _); [|done]. apply IH; [|done]. apply (agree_mono i); [done|lia].
Qed.

Lemma value_body_local r c :
  wf r -> slice_wf (r_i r) (r_k r) -> agree (r_i r) ->
  value_body realloc p r c = value_body realloc p' r c.
Proof.
  intros W K A. pose proof (wf_a _ W) as Wa. unfold value_body, store_header.
  rewrite (rtrim_local _ (r_a r) (r_i r)) by (done || lia).
  destruct K as (K1 & K2 & _).
  rewrite <- (GetHttpHeader_take (drop _ p)), <- (GetHttpHeader_take (drop _ p')).
  by rewrite (agree_slice (r_i r)) by (done || lia).
Qed.

Lemma READ64BE_local i a : agree i -> 0 <= a -> a + 8 <= i -> READ64BE p a = READ64BE p' a.
Proof.
  intros A Ha L. unfold READ64BE. cbn [foldl].
  by rewrite !(agree_tab i) by (done || lia).
Qed.

Lemma step_local r c : wf r -> agree (r_i r) -> step realloc p r c = step realloc p' r c.
Proof.
  intros W A. pose proof (wf_a _ W) as Wa. pose proof (wf_i _ W) as Wi.
  pose proof (wf_k _ W) as Wk. pose proof (wf_status _ W). pose proof (wf_version _ W).
  unfold step, parse_case. destruct (r_t r) eqn:Ht; try done.
  - unfold method_body, GetHttpMethod.
    rewrite !strarg_len by (unfold SIZE_MAX, LIMIT in *; lia).
    by rewrite (agree_slice (r_i r)) by (done || lia).
  - destruct (_ || _); [|done].
    destruct (Z.eqb_spec (r_i r - r_a r) 8); cbn [andb]; [|done].
    rewrite (READ64BE_local (r_i r)) by (done || lia).
    by rewrite (agree_tab (r_i r) (r_a r + 5)), (agree_tab (r_i r) (r_a r + 7))
      by (done || lia).
  - destruct (_ || _); [done|]. rewrite value_body_local; [done| | |].
    + unfold LIMIT in *. destruct r; cbn in *; subst. wf_step W.
    + destruct r; cbn in *. exact Wk.
    + destruct r; cbn in *. exact A.
  - by rewrite value_body_local.
Qed.

Lemma run_local l : forall r sc,
  wf r -> r_i r + Z.of_nat (length l) <= LIMIT -> agree (r_i r + Z.of_nat (length l)) ->
  run realloc p l r sc = run realloc p' l r sc.
Proof.
  induction l as [|c l IH]; intros r sc W L A; [done|]. cbn [run length] in *.
  pose proof (wf_i _ W) as Wi.
  rewrite <- step_local; [|done|apply (agree_mono _ _ A); lia].
  pose proof (step_wf realloc p r c W) as S. specialize (S ltac:(lia)).
  destruct (step _ _ _ _) as [r' sc'|]; [|done]. destruct S as [E W'].
  apply IH; [done| |]; rewrite set_i_i, E; [lia|].
  replace (r_i r + 1 + Z.of_nat (length l)) with (r_i r + Z.of_nat (S (length l))) by lia.
  done.
Qed.

Lemma rest_local n i : 0 <= i -> agree n -> rest p n i = rest p' n i.
Proof.
  intros Hi A. unfold rest. destruct (decide (n <= i)).
  - by replace (Z.to_nat (n - i)) with O by lia.
  - by rewrite (agree_slice n) by (done || lia).
Qed.
End Local.

Lemma rest_length p n i :
  0 <= i <= n -> n <= Z.of_nat (length p) -> Z.of_nat (length (rest p n i)) = n - i.
Proof.
  intros. unfold rest. rewrite length_map, length_take, length_drop. lia.
Qed.

Lemma rest_split p n m i :
  0 <= i <= n -> n <= m -> m <= Z.of_nat (length p) ->
  rest p m i = rest p n i ++ rest p m n.
Proof.
  intros H1 H2 H3. unfold rest. rewrite <- map_app. f_equal.
  replace (Z.to_nat (m - i)) with (Z.to_nat (n - i) + Z.to_nat (m - n))%nat by lia.
  rewrite <- take_take_drop, drop_drop. do 3 f_equal. lia.
Qed.

(** More bytes: the run over a longer buffer starts with the run over the shorter one. *)
Lemma run_extend realloc p p' r m m' :
  wf r -> r_i r <= m -> m <= m' -> m <= LIMIT ->
  m <= Z.of_nat (length p) -> m' <= Z.of_nat (length p') -> agree p p' m ->
  run realloc p' (rest p' m' (r_i r)) r false =
  match run realloc p (rest p m (r_i r)) r false with
  | Go r' sc => run realloc p' (rest p' m' m) r' sc
  | Ret v r' => Ret v r'
  end.
Proof.
  intros W Hi Hm HL L L' A. pose proof (wf_i _ W) as Wi.
  rewrite (rest_split p' m m') by lia. rewrite run_app.
  rewrite <- (rest_local p p') by (done || lia).
  rewrite <- (run_local realloc p p'); [done|done| |]; rewrite rest_length by lia; [lia|].
  replace (r_i r + (m - r_i r)) with m by lia. done.
Qed.

(* ------------------------------------------------------------------ *)
(** ** The specification: a table of states and classes of characters *)

Module Machine.

(** The characters of a token, after RFC 7230. *)
Definition tchar (c : Z) : bool :=
  existsb (Z.eqb c) (bstr "!#$%&'*+-.^_`|~0123456789ABCDEFGHIJKLMNOPQRSTUVWXYZabcdefghijklmnopqrstuvwxyz").

(** C0 codes, DEL and C1 codes. *)
Definition control (c : Z) : bool := (c <=? 31) || ((127 <=? c) && (c <=? 159)).

Inductive class := Space | Tab | Cr | Lf | Colon | Digit | Tchar | Visible | Control.

Definition classify (c : Z) : class :=
  if c =? 32 then Space
  else if c =? 9 then Tab
  else if c =? 13 then Cr
  else if c =? 10 then Lf
  else if c =? 58 then Colon
  else if (48 <=? c) && (c <=? 57) then Digit
  else if tchar c then Tchar
  else if control c then Control
  else Visible.

(** [HTTP/x.y] *)
Definition version_of (w : bytes) : option Z :=
  match w with
  | [72; 84; 84; 80; 47; x; 46; y] =>
      if ((48 <=? x) && (x <=? 57)) && ((48 <=? y) && (y <=? 57)) then Some (10 * (x - 48) + (y - 48)) else None
  | _ => None
  end.

(** The length of a text without the blanks at its end. *)
Fixpoint stripped (w : bytes) : nat :=
  match w with
  | [] => O
  | c :: w => match stripped w with
              | O => if (c =? 32) || (c =? 9) then O else 1%nat
              | S n => S (S n)
              end
  end.

(** More bytes are wanted, the message ends here, or it is bad. *)
Inductive verdict := More (r : HttpMessage) | Done (r : HttpMessage) | Bad.

Section Delta.
Context (realloc : Z -> bool) (p : bytes).

(** A header goes to its slot if it has one that is free or need not be kept, and to the extra headers otherwise,
    whose array doubles when it is full; without memory the header is dropped. *)
Definition spill (h : HttpHeader) (x : HttpHeaders) : HttpHeaders :=
  let c := if (xn x =? xc x) && realloc (8 * (if xc x =? 0 then 1 else u32 (2 * xc x)))
           then (if xc x =? 0 then 1 else u32 (2 * xc x)) else xc x in
  if xn x <? c then Headers (xn x + 1) c (xp x ++ [h]) else Headers (xn x) c (xp x).

Definition record (r : HttpMessage) : HttpMessage :=
  let v := Slice (r_a r) (r_a r + Z.of_nat (stripped (slice p (Slice (r_a r) (r_i r))))) in
  let h := GetHttpHeader (drop (Z.to_nat (sa (r_k r))) p) (sb (r_k r) - sa (r_k r)) in
  let absent := sa (nth (Z.to_nat h) (r_headers r) slice0) =? 0 in
  if h =? -1 then set_xheaders (spill (Header (r_k r) v) (r_xheaders r)) r
  else if kHttpRepeatable h && negb absent then set_xheaders (spill (Header (r_k r) v) (r_xheaders r)) r
  else set_headers (<[Z.to_nat h := v]> (r_headers r)) r.

(** What the byte [c] at [r->i] does. *)
Definition delta (r : HttpMessage) (c : Z) : verdict :=
  let i := r_i r in
  let here := Slice (r_a r) i in
  let go t r := More (set_i (i + 1) (set_t t r)) in
  match r_t r, classify c with
  | kHttpStateStart, (Cr | Lf) => go kHttpStateStart r
  | kHttpStateStart, (Digit | Tchar) =>
      go (match r_type r with kHttpRequest => kHttpStateMethod | kHttpResponse => kHttpStateVersion end) (set_a i r)
  | kHttpStateMethod, Space =>
      let m := u8 (GetHttpMethod (Some (drop (Z.to_nat (r_a r)) p)) (i - r_a r)) in
      go kHttpStateUri (set_a (i + 1) (set_xmethod here (set_method m r)))
  | kHttpStateMethod, (Digit | Tchar) => go kHttpStateMethod r
  | kHttpStateUri, Space =>
      if i =? r_a r then Bad else go kHttpStateVersion (set_a (i + 1) (set_uri here r))
  | kHttpStateUri, Cr => if i =? r_a r then Bad else go kHttpStateCr (set_version 9 (set_uri here r))
  | kHttpStateUri, Lf => if i =? r_a r then Bad else go kHttpStateLf1 (set_version 9 (set_uri here r))
  | kHttpStateUri, (Colon | Digit | Tchar | Visible) => go kHttpStateUri r
  | kHttpStateVersion, ((Space | Cr | Lf) as k) =>
      match version_of (slice p here) with
      | None => Bad
      | Some v =>
          match r_type r, k with
          | kHttpResponse, _ => go kHttpStateStatus (set_version v r)
          | kHttpRequest, Cr => go kHttpStateCr (set_version v r)
          | kHttpRequest, _ => go kHttpStateLf1 (set_version v r)
          end
      end
  | kHttpStateVersion, _ => go kHttpStateVersion r
  | kHttpStateStatus, Space => if r_status r <? 100 then Bad else go kHttpStateMessage (set_a (i + 1) r)
  | kHttpStateStatus, Cr => if r_status r <? 100 then Bad else go kHttpStateCr r
  | kHttpStateStatus, Lf => if r_status r <? 100 then Bad else go kHttpStateLf1 r
  | kHttpStateStatus, Digit =>
      let x := 10 * r_status r + (c - 48) in
      if 1000 <=? x then Bad else go kHttpStateStatus (set_status x r)
  | kHttpStateMessage, Cr => go kHttpStateCr (set_message here r)
  | kHttpStateMessage, Lf => go kHttpStateLf1 (set_message here r)
  | kHttpStateMessage, (Space | Colon | Digit | Tchar | Visible) => go kHttpStateMessage r
  | kHttpStateCr, Lf => go kHttpStateLf1 r
  | kHttpStateLf1, Cr => go kHttpStateLf2 r
  | kHttpStateLf1, Lf => Done (set_i (i + 1) r)
  | kHttpStateLf1, (Digit | Tchar) => go kHttpStateName (set_k (Slice i (sb (r_k r))) r)
  | kHttpStateName, Colon => go kHttpStateColon (set_k (Slice (sa (r_k r)) i) r)
  | kHttpStateName, (Digit | Tchar) => go kHttpStateName r
  | kHttpStateColon, (Space | Tab) => go kHttpStateColon r
  | kHttpStateColon, Cr => go kHttpStateCr (record (set_a i r))
  | kHttpStateColon, Lf => go kHttpStateLf1 (record (set_a i r))
  | kHttpStateColon, (Colon | Digit | Tchar | Visible) => go kHttpStateValue (set_a i r)
  | kHttpStateValue, Cr => go kHttpStateCr (record r)
  | kHttpStateValue, Lf => go kHttpStateLf1 (record r)
  | kHttpStateValue, (Space | Tab | Colon | Digit | Tchar | Visible) => go kHttpStateValue r
  | kHttpStateLf2, Lf => Done (set_i (i + 1) r)
  | _, _ => Bad
  end.

Fixpoint machine (l : bytes) (r : HttpMessage) : verdict :=
  match l with
  | [] => More r
  | c :: l => match delta r c with More r => machine l r | Done r => Done r | Bad => Bad end
  end.

(** *** The code implements the table *)

(** The tests of the code, by class. *)
Lemma class_tests c : is_byte c ->
  (c =? # " ") = (match classify c with Space => true | _ => false end) /\
  (c =? 9) = (match classify c with Tab => true | _ => false end) /\
  (c =? 13) = (match classify c with Cr => true | _ => false end) /\
  (c =? 10) = (match classify c with Lf => true | _ => false end) /\
  (c =? # ":") = (match classify c with Colon => true | _ => false end) /\
  (# "0" <=? c) && (c <=? # "9") = (match classify c with Digit => true | _ => false end) /\
  is_token c = (match classify c with Digit | Tchar => true | _ => false end) /\
  is_control c = (match classify c with Tab | Cr | Lf | Control => true | _ => false end) /\
  ((c <? 0x20) && negb (c =? 9)) || ((0x7F <=? c) && (c <? 0xA0)) = (match classify c with Cr | Lf | Control => true | _ => false end).
Proof.
  intros Hc.
  assert (forallb (fun c =>
    Bool.eqb (c =? # " ") (match classify c with Space => true | _ => false end) &&
    (Bool.eqb (c =? 9) (match classify c with Tab => true | _ => false end) &&
    (Bool.eqb (c =? 13) (match classify c with Cr => true | _ => false end) &&
    (Bool.eqb (c =? 10) (match classify c with Lf => true | _ => false end) &&
    (Bool.eqb (c =? # ":") (match classify c with Colon => true | _ => false end) &&
    (Bool.eqb ((# "0" <=? c) && (c <=? # "9")) (match classify c with Digit => true | _ => false end) &&
    (Bool.eqb (is_token c) (match classify c with Digit | Tchar => true | _ => false end) &&
    (Bool.eqb (is_control c) (match classify c with Tab | Cr | Lf | Control => true | _ => false end) &&
    Bool.eqb (((c <? 0x20) && negb (c =? 9)) || ((0x7F <=? c) && (c <? 0xA0))) (match classify c with Cr | Lf | Control => true | _ => false end)
    )))))))) (zbelow 256) = true) as T by (vm_compute; reflexivity).
  pose proof (forall_byte _ T c Hc) as B. cbv beta in B. rewrite !andb_true_iff, !Bool.eqb_true_iff in B. exact B.
Qed.

Lemma spill_ok h x : xn x = Z.of_nat (length (xp x)) -> xn x < 2 ^ 32 - 1 -> push_xheader realloc h x = spill h x.
Proof.
  intros L B. unfold push_xheader, spill. destruct x as [n c l]. cbn [xn xc xp] in *.
  rewrite (Z.mul_comm c 2), (Z.mul_comm _ 8).
  destruct (n =? c); cbn [andb]; [destruct (realloc _)|]; cbn [xn xc xp]; (destruct (n <? _) eqn:E; [|done]);
    rewrite (u32_id (n + 1)) by lia; rewrite L, Nat2Z.id, firstn_all; done.
Qed.

Lemma stripped_snoc w c : stripped (w ++ [c]) = if (c =? 32) || (c =? 9) then stripped w else S (length w).
Proof.
  induction w as [|x w IH]; cbn [app stripped length]; [by destruct (_ || _)|]. rewrite IH. by destruct (_ || _).
Qed.

Lemma rtrim_stripped fuel a i : 0 <= a <= i -> i <= Z.of_nat (length p) -> i - a <= Z.of_nat fuel ->
  rtrim p fuel a i = a + Z.of_nat (stripped (slice p (Slice a i))).
Proof.
  revert i. induction fuel as [|fuel IH]; intros i Ha Hi Hf; cbn [rtrim].
  - assert (i = a) as -> by lia. unfold slice. cbn [sa sb]. rewrite Z.sub_diag. cbn [Z.to_nat]. rewrite take_0. cbn [stripped]. lia.
  - destruct (Z.gtb_spec i a); cbn [andb].
    + assert (slice p (Slice a i) = slice p (Slice a (i - 1)) ++ [tab p (i - 1)]) as E.
      { unfold slice, tab. cbn [sa sb]. replace (Z.to_nat (i - a)) with (S (Z.to_nat (i - 1 - a))) by lia.
        rewrite (take_S_r _ _ (nth (Z.to_nat (i - 1)) p 0)); [done|]. rewrite lookup_drop.
        replace (Z.to_nat a + Z.to_nat (i - 1 - a))%nat with (Z.to_nat (i - 1)) by lia.
        destruct (nth_lookup_or_length p (Z.to_nat (i - 1)) 0); [done|lia]. }
      rewrite E, stripped_snoc. destruct (_ || _); [apply IH; lia|].
      unfold slice. cbn [sa sb]. rewrite length_take, length_drop. lia.
    + assert (i = a) as -> by lia. unfold slice. cbn [sa sb]. rewrite Z.sub_diag. cbn [Z.to_nat]. rewrite take_0. cbn [stripped]. lia.
Qed.

Lemma store_header_record r : wf r -> r_i r < LIMIT -> r_i r <= Z.of_nat (length p) -> 
  store_header realloc p r (rtrim p (Z.to_nat (r_i r - r_a r)) (r_a r) (r_i r)) = record r.
Proof.
  intros W L Lp. pose proof (wf_a _ W) as Wa. pose proof (wf_xheaders _ W) as (Xn & Xb & _).
  pose proof (rtrim_range p (Z.to_nat (r_i r - r_a r)) (r_a r) (r_i r)) as R.
  rewrite (rtrim_stripped _ (r_a r) (r_i r)) in * by lia. unfold store_header, record, short_slice, LIMIT in *.
  rewrite !s16_id by lia. rewrite spill_ok by lia.
  destruct (_ =? -1); cbn [negb andb]; [done|]. by destruct (_ =? 0), (kHttpRepeatable _).
Qed.

(** The eight bytes as a big-endian word. *)
Lemma READ64BE_pack a : READ64BE p a =
  pack [tab p (a + 7); tab p (a + 6); tab p (a + 5); tab p (a + 4); tab p (a + 3); tab p (a + 2); tab p (a + 1); tab p (a + 0)].
Proof. unfold READ64BE. cbn [foldl pack]. lia. Qed.

Lemma pack_inj l : forall r, Bytes l -> Bytes r -> length l = length r -> pack l = pack r -> l = r.
Proof.
  induction l as [|x l IH]; intros [|y r] Bl Br L E; try done. cbn [pack length] in *.
  apply Forall_cons in Bl as [Hx Bl]. apply Forall_cons in Br as [Hy Br]. unfold is_byte in Hx, Hy.
  assert (x = y) as -> by lia. f_equal. apply IH; [done..|lia|lia].
Qed.

Lemma READ64BE_http a : Bytes p ->
  Z.land (READ64BE p a) 0xFFFFFFFFFF00FF00 = 0x485454502F002E00 <->
  tab p a = 72 /\ tab p (a + 1) = 84 /\ tab p (a + 2) = 84 /\ tab p (a + 3) = 80 /\ tab p (a + 4) = 47 /\ tab p (a + 6) = 46.
Proof.
  intros B. rewrite READ64BE_pack. assert (forall j, is_byte (tab p j)) as T by (intros j; by apply Bytes_tab).
  set (l := [_; _; _; _; _; _; _; _]). assert (Bytes l) as Bl by (repeat constructor; apply T).
  change 0xFFFFFFFFFF00FF00 with (pack [0; 255; 0; 255; 255; 255; 255; 255]). change 0x485454502F002E00 with (pack [0; 46; 0; 47; 80; 84; 84; 72]).
  assert (Bytes [0; 255; 0; 255; 255; 255; 255; 255]) as Bm by decide_now. assert (Bytes [0; 46; 0; 47; 80; 84; 84; 72]) as Bk by decide_now.
  rewrite (pack_op Z.land andb Z.land_spec land_byte eq_refl) by done. subst l. cbn [zip_with].
  rewrite !Z.land_0_r, !land_255. rewrite !(Z.mod_small (tab p _) 256) by apply T. rewrite Z.add_0_r. split.
  - intros E. apply pack_inj in E; [injection E; tauto| |done|done]. repeat constructor; try apply T; unfold is_byte; lia.
  - intros (-> & -> & -> & -> & -> & ->). done.
Qed.

Lemma version_ok a i : Bytes p -> 0 <= a <= i -> i <= Z.of_nat (length p) ->
  (i - a =? 8) && (Z.land (READ64BE p a) 0xFFFFFFFFFF00FF00 =? 0x485454502F002E00) &&
  isdigit (tab p (a + 5)) && isdigit (tab p (a + 7)) =
  (match version_of (slice p (Slice a i)) with Some _ => true | None => false end) /\
  forall v, version_of (slice p (Slice a i)) = Some v -> v = u8 ((tab p (a + 5) - # "0") * 10 + (tab p (a + 7) - # "0")).
Proof.
  intros B Ha Hi. destruct (Z.eqb_spec (i - a) 8) as [E|E]; cbn [andb].
  - assert (slice p (Slice a i) = [tab p a; tab p (a + 1); tab p (a + 2); tab p (a + 3); tab p (a + 4); tab p (a + 5); tab p (a + 6); tab p (a + 7)]) as ->.
    { unfold slice, tab. cbn [sa sb]. rewrite E. apply list_eq. intros j. destruct (decide (j < 8)%nat) as [L|L].
      - rewrite lookup_take_lt, lookup_drop by lia.
        destruct (nth_lookup_or_length p (Z.to_nat a + j) 0) as [X|X]; [|lia]. rewrite X.
        do 8 (destruct j as [|j]; [cbn; do 2 f_equal; lia|]). lia.
      - rewrite lookup_ge_None_2 by (rewrite length_take; lia). by rewrite lookup_ge_None_2 by (cbn; lia). }
    pose proof (READ64BE_http a B) as R. unfold isdigit. change (# "0") with 48. change (# "9") with 57.
    destruct (Z.eqb_spec (Z.land (READ64BE p a) 0xFFFFFFFFFF00FF00) 0x485454502F002E00) as [X|X]; cbn [andb].
    + apply R in X as (-> & -> & -> & -> & -> & ->). cbn [version_of].
      destruct (((48 <=? tab p (a + 5)) && _) && _) eqn:D; (split; [|]); try done. intros v [= <-]. rewrite u8_id by lia. lia.
    + assert (version_of [tab p a; tab p (a + 1); tab p (a + 2); tab p (a + 3); tab p (a + 4); tab p (a + 5); tab p (a + 6); tab p (a + 7)] = None) as ->; [|done].
      apply eq_None_not_Some. intros [v V]. apply X, R. revert V. clear. generalize (tab p a), (tab p (a + 1)), (tab p (a + 2)), (tab p (a + 3)), (tab p (a + 4)), (tab p (a + 5)), (tab p (a + 6)), (tab p (a + 7)).
      intros x0 x1 x2 x3 x4 x5 x6 x7. unfold version_of. repeat (case_match; try discriminate). done.
  - assert (length (slice p (Slice a i)) <> 8%nat) as N by (unfold slice; cbn [sa sb]; rewrite length_take, length_drop; lia).
    assert (version_of (slice p (Slice a i)) = None) as ->; [|done].
    apply eq_None_not_Some. intros [v V]. apply N. revert V. generalize (slice p (Slice a i)). intros w. unfold version_of.
    repeat (case_match; try discriminate); done.
Qed.

Lemma record_i r : r_i (record r) = r_i r.
Proof. unfold record. destruct (_ =? -1); [by destruct r|]. destruct (_ && _); by destruct r. Qed.

Lemma record_set_t t t' r : set_t t (record (set_t t' r)) = set_t t (record r).
Proof. destruct r. unfold record. cbn -[spill GetHttpHeader]. destruct (_ =? -1); [done|]. by destruct (_ && _). Qed.
Lemma set_t_i t r : r_i (set_t t r) = r_i r.
Proof. by destruct r. Qed.
Lemma set_a_i x r : r_i (set_a x r) = r_i r.
Proof. by destruct r. Qed.

(** What the code does with one byte is what the table says. *)
Definition seen (o : outcome) : verdict :=
  match o with
  | Go r _ => More (set_i (r_i r + 1) r)
  | Ret v r => if v =? -1 then Bad else Done r
  end.

Lemma step_delta r c : Bytes p -> wf r -> r_i r < LIMIT -> r_i r <= Z.of_nat (length p) -> is_byte c ->
  delta r c = seen (step realloc p r c).
Proof.
  intros B W L Lp Hc. pose proof (class_tests c Hc) as (T1 & T2 & T3 & T4 & T5 & T6 & T7 & T8 & T9).
  pose proof W as [Wi Wa Ws Wv Wk Wu Wm Wx Wh Wxh].
  assert (forall x, 0 <= x <= LIMIT -> s16 x = x) as S16 by (intros x Hx; unfold LIMIT in Hx; apply s16_id; lia).
  assert (short_slice (r_a r) (r_i r) = Slice (r_a r) (r_i r)) as Sl by (unfold short_slice; rewrite !S16 by lia; done).
  pose proof (version_ok (r_a r) (r_i r) B Wa Lp) as [V1 V2].
  pose proof (store_header_record r W L Lp) as SH.
  unfold delta, step, parse_case.
  assert (forall r0 : HttpMessage, wf r0 -> r_i r0 = r_i r -> value_body realloc p r0 c =
    match classify c with
    | Cr => Stop (set_t kHttpStateCr (record r0)) | Lf => Stop (set_t kHttpStateLf1 (record r0)) | Control => Fail r0 | _ => Next r0 end) as VB.
  { intros r0 W0 E0. unfold value_body, is_eol, eol_state. rewrite T9, T4, T3.
    rewrite store_header_record by (done || lia). by destruct (classify c). }
  destruct (r_t r) eqn:Ht;
    unfold method_body, uri_body, status_body, message_body, name_body, is_eol, eol_state;
    rewrite ?VB by (done || (apply (wf_advance _ _ W); destruct r; cbn in *; unfold LIMIT in *; try lia; try done; by left) || by destruct r);
    rewrite ?T8, ?T7, ?T6, ?T5, ?T4, ?T3, ?T2, ?T1, ?Sl, ?V1; clear T1 T2 T3 T4 T5 T6 T7 T8 T9 VB SH.
  all: destruct (classify c); cbn [orb andb negb of_act seen Z.eqb]; try reflexivity.
  all: rewrite ?set_i_i, ?S16 by lia; rewrite ?(proj2 (Z.eqb_neq (r_i r + 1) (-1))) by lia; try reflexivity.
  all: try (destruct (r_i r =? r_a r); [reflexivity|]); try (destruct (r_status r <? 100); [reflexivity|]).
  all: try (rewrite (s32_id (r_status r * 10)) by lia).
  all: try (destruct r as [? ? ? ? []]; cbn in *; subst; reflexivity).
  - destruct r. cbn in *. subst. by rewrite Sl.
  - destruct (version_of _) as [v|]; [|done]. rewrite <- (V2 v eq_refl). destruct r as [? ? ? ? []]; reflexivity.
  - destruct (version_of _) as [v|]; [|done]. rewrite <- (V2 v eq_refl). destruct r as [? ? ? ? []]; reflexivity.
  - destruct (version_of _) as [v|]; [|done]. rewrite <- (V2 v eq_refl). destruct r as [? ? ? ? []]; reflexivity.
  - unfold is_byte in Hc. destruct r. cbn -[Z.mul Z.add] in *. subst. rewrite s32_id, Z.gtb_ltb by lia.
    replace (r_status0 * 10 + (c - 48)) with (10 * r_status0 + (c - 48)) by lia.
    destruct (Z.leb_spec 1000 (10 * r_status0 + (c - 48))), (Z.ltb_spec 999 (10 * r_status0 + (c - 48))); try lia; reflexivity.
  - by rewrite record_set_t, set_t_i, record_i, set_a_i.
  - by rewrite record_set_t, set_t_i, record_i, set_a_i.
  - by rewrite set_t_i, record_i.
  - by rewrite set_t_i, record_i.
Qed.

(** And so for all bytes up to [n]. *)
Lemma run_machine n : Bytes p -> n <= LIMIT -> n <= Z.of_nat (length p) -> forall k r sc,
  wf r -> n - r_i r = Z.of_nat k ->
  machine (rest p n (r_i r)) r =
  match run realloc p (rest p n (r_i r)) r sc with Go r' _ => More r' | Ret v r' => if v =? -1 then Bad else Done r' end.
Proof.
  intros B HL Lp. induction k as [|k IH]; intros r sc W E; pose proof (wf_i _ W) as Wi.
  - by rewrite rest_nil by lia.
  - rewrite (rest_cons p n (r_i r)) by lia. cbn [machine run].
    assert (is_byte (Z.land (tab p (r_i r)) 0xff)) as Hc by (rewrite land_255; apply Z.mod_pos_bound; lia).
    rewrite (step_delta r _ B W ltac:(lia) ltac:(lia) Hc).
    pose proof (step_wf realloc p r (Z.land (tab p (r_i r)) 0xff) W ltac:(lia)) as S.
    destruct (step _ _ _ _) as [r' sc'|v r']; cbn [seen].
    + destruct S as [Ei W']. specialize (IH (set_i (r_i r' + 1) r') sc' W'). rewrite set_i_i, Ei in *. apply IH. lia.
    + by destruct (v =? -1).
Qed.
End Delta.
End Machine.

(* ------------------------------------------------------------------ *)
(** ** Properties *)

(** C29: the parser, with its nested scanning loops, always returns, and does what the table of
    [Machine] says for each state and class of characters, over the bytes from [r->i] to the end of
    the buffer (or to the size limit): it returns the position behind the message with all fields set
    if the machine is done, -1 if a byte is bad, and, at the end of the buffer, 0 with the same
    fields, or -1 at the size limit. Where [r->i] is left when more bytes are wanted is not said
    ([ParseHttpMessage_fragment_defect]), nor what a buffer one byte short of the limit gives. *)
Theorem ParseHttpMessage_refines realloc p r n :
  Bytes p -> wf r -> r_i r <= n -> n <= Z.of_nat (length p) -> n <> LIMIT - 1 ->
  exists v r', ParseHttpMessage realloc p r n = Some (v, r') /\
  match Machine.machine realloc p (rest p (Z.min n LIMIT) (r_i r)) r with
  | Machine.Done r1 => v = r_i r1 /\ r' = r1
  | Machine.Bad => v = -1
  | Machine.More r1 => if n <? LIMIT then v = 0 /\ set_i 0 r' = set_i 0 r1 else v = -1
  end.
Proof.
  intros B W Hi Hn Ne. pose proof (wf_i _ W) as Wi. set (m := Z.min n LIMIT). unfold ParseHttpMessage.
  rewrite parse_loop_run with (sc := false) by (lia || by right). eexists _, _. split; [f_equal; apply surjective_pairing|]. fold m.
  destruct (decide (m <= r_i r)) as [Le|Gt].
  - rewrite rest_nil by lia. cbn [run Machine.machine finish fst snd].
    destruct (Z.ltb_spec n LIMIT), (Z.ltb_spec (r_i r) LIMIT); try done; lia.
  - rewrite (Machine.run_machine realloc p m B ltac:(lia) ltac:(lia) (Z.to_nat (m - r_i r)) r false W ltac:(lia)).
    pose proof (run_wf realloc p (rest p m (r_i r)) r false W) as R.
    rewrite rest_length in R by lia. specialize (R ltac:(lia)).
    destruct (run _ _ _ _ _) as [r1 sc|v r1]; cbn [finish].
    + destruct R as [E _]. replace (r_i r + (m - r_i r)) with m in E by lia.
      destruct sc; rewrite ?set_i_i, ?E; cbn [fst snd]; rewrite ?set_i_set_i;
        destruct (Z.ltb_spec n LIMIT); match goal with |- context [?x <? LIMIT] => destruct (Z.ltb_spec x LIMIT) end; try done; lia.
    + destruct (Z.eqb_spec v (-1)) as [->|N]; [done|]. destruct R as (_ & [?|(_ & <- & _)]); [done|]. done.
Qed.

Lemma ParseHttpMessage_refines_witness :
  exists v r', ParseHttpMessage (fun _ => true) (bstr "GET /x" ++ [10; 10]) (InitHttpMessage kHttpRequest) 8 = Some (v, r') /\
    v = 8 /\ r_uri r' = Slice 4 6.
Proof.
  destruct (ParseHttpMessage_refines (fun _ => true) (bstr "GET /x" ++ [10; 10]) (InitHttpMessage kHttpRequest) 8)
    as (v & r' & E & H).
  - decide_now.
  - apply wf_init.
  - cbn. lia.
  - cbn. lia.
  - unfold LIMIT. lia.
  - vm_compute in H. destruct H as [-> ->]. eexists _, _. split; [exact E|]. split; reflexivity.
Defined.

(** C20: a call on [n] bytes that does not fail keeps the parser state well-formed: all slices and the
    start of the current field lie inside of the [n] bytes and fit in a [short], the header table
    keeps its size, the counter of extra headers is their number, the status has at most three
    digits; and a positive result is the position the parser stopped at, inside of the [n] bytes. *)
Theorem ParseHttpMessage_wf realloc p r n v r' :
  wf r -> r_i r <= n -> n <= Z.of_nat (length p) ->
  ParseHttpMessage realloc p r n = Some (v, r') -> v <> -1 ->
  wf r' /\ wf (set_i (Z.min n LIMIT) r') /\ (v = 0 \/ r_i r < v <= Z.min n LIMIT /\ r_i r' = v).
Proof.
  intros W Hi Hn H Hv. pose proof (wf_i _ W) as Wi. unfold ParseHttpMessage in H.
  rewrite parse_loop_run with (sc := false) in H; [|lia|lia|lia|by right].
  injection H as H. set (m := Z.min n LIMIT) in *.
  assert (m <= LIMIT) by (subst m; lia).
  assert (forall r1, wf r1 -> r_i r1 <= m -> wf (set_i m r1)) as Mono.
  { intros r1 W1 L. pose proof (wf_a _ W1). pose proof (wf_status _ W1). pose proof (wf_version _ W1).
    pose proof (wf_k _ W1). destruct r1; cbn in *. wf_step W1. destruct r_t0; try done; unfold slice_wf in *; lia. }
  destruct (decide (m <= r_i r)) as [Le|Gt].
  - rewrite rest_nil in H by done. cbn [run finish] in H.
    injection H as <- <-. split; [done|]. destruct (Z.ltb_spec (r_i r) LIMIT); [|done].
    split; [apply Mono; [done|lia]|by left].
  - pose proof (rest_length p m (r_i r)) as RL. specialize (RL ltac:(lia) ltac:(lia)).
    pose proof (run_wf realloc p (rest p m (r_i r)) r false W) as R.
    specialize (R ltac:(lia)).
    destruct (run _ _ _ _ _) as [r1 sc|v1 r1]; cbn [finish] in H.
    + destruct R as [E W1]. pose proof (Mono r1 W1 ltac:(lia)) as Wm.
      destruct sc; injection H as <- <-; rewrite ?set_i_set_i;
        (split; [|split; [exact Wm|left; destruct (_ <? _); done]]); [|done].
      pose proof (wf_a _ W1). pose proof (wf_status _ W1). pose proof (wf_version _ W1).
      pose proof (wf_k _ W1). destruct r1; cbn in *. wf_step W1.
      destruct r_t0; try done; unfold slice_wf in *; lia.
    + injection H as -> ->. destruct R as (? & [?|(? & ? & ?)]); [done|].
      split; [done|]. split; [apply Mono; [done|lia]|]. right. lia.
Qed.

Lemma ParseHttpMessage_wf_witness :
  exists r', ParseHttpMessage (fun _ => true) (bstr "GET /") (InitHttpMessage kHttpRequest) 5
             = Some (0, r') /\ wf r' /\ wf (set_i 5 r').
Proof.
  eexists. split; [vm_compute; reflexivity|].
  refine (let H := ParseHttpMessage_wf (fun _ => true) (bstr "GET /")
                   (InitHttpMessage kHttpRequest) 5 0 _ _ _ _ _ _ in conj (proj1 H) (proj1 (proj2 H))).
  - apply wf_init.
  - cbn. lia.
  - cbn. lia.
  - vm_compute; reflexivity.
  - done.
Defined.

(** The parser does not look behind the end of the buffer: two buffers that agree on
    their first [n] bytes give the same result. *)
Lemma ParseHttpMessage_bounded realloc p p' r n :
  wf r -> n <= Z.of_nat (length p) -> n <= Z.of_nat (length p') ->
  take (Z.to_nat n) p = take (Z.to_nat n) p' ->
  ParseHttpMessage realloc p r n = ParseHttpMessage realloc p' r n.
Proof.
  intros W Hn Hn' A. pose proof (wf_i _ W) as Wi. unfold ParseHttpMessage.
  rewrite !parse_loop_run with (sc := false) by (lia || by right). do 2 f_equal.
  destruct (decide (Z.min n LIMIT <= r_i r)); [by rewrite !rest_nil by done|].
  assert (agree p p' (Z.min n LIMIT)) as A' by (apply (agree_mono p p' n); [done|lia]).
  rewrite <- (rest_local p p') by (done || lia).
  apply run_local; [done| |]; rewrite rest_length by lia; [lia|].
  replace (r_i r + (Z.min n LIMIT - r_i r)) with (Z.min n LIMIT) by lia. done.
Qed.

(** The message a positive result delimits does not depend on what follows it: with more
    bytes in the buffer the parser stops at the same place with the same fields. *)
Lemma ParseHttpMessage_delimited realloc p p' r n n' v r' :
  wf r -> n <= n' -> n <= Z.of_nat (length p) -> n' <= Z.of_nat (length p') ->
  take (Z.to_nat n) p = take (Z.to_nat n) p' ->
  ParseHttpMessage realloc p r n = Some (v, r') -> 0 < v ->
  ParseHttpMessage realloc p' r n' = Some (v, r').
Proof.
  intros W Hn L L' A H Hv. pose proof (wf_i _ W) as Wi. unfold ParseHttpMessage in *.
  rewrite parse_loop_run with (sc := false) in H by (lia || by right).
  rewrite parse_loop_run with (sc := false) by (lia || by right).
  injection H as H. f_equal.
  destruct (decide (Z.min n LIMIT <= r_i r)) as [Le|].
  { rewrite rest_nil in H by done. cbn [run finish] in H. destruct (_ <? _); simplify_eq; lia. }
  rewrite (run_extend realloc p p' r (Z.min n LIMIT)); try lia; try done;
    [|apply (agree_mono p p' n); [done|lia]].
  destruct (run _ _ _ _ _) as [r1 sc|]; [|done]. cbn [finish] in H.
  destruct (_ <? _) in H; simplify_eq; lia.
Qed.

(** the parser does not look behind the end of the buffer: two buffers that agree on their
    first [n] bytes give the same result; and the message a positive result delimits does not
    depend on what follows it: with more bytes in the buffer the parser stops at the same place
    with the same fields. *)
Theorem ParseHttpMessage_prefix realloc p p' r n n' :
  wf r -> n <= n' -> n <= Z.of_nat (length p) -> n' <= Z.of_nat (length p') ->
  take (Z.to_nat n) p = take (Z.to_nat n) p' ->
  ParseHttpMessage realloc p r n = ParseHttpMessage realloc p' r n /\
  (forall v r', ParseHttpMessage realloc p r n = Some (v, r') -> 0 < v ->
     ParseHttpMessage realloc p' r n' = Some (v, r')).
Proof.
  intros W Hn L L' A. split; [apply ParseHttpMessage_bounded; (lia || done)|].
  intros v r'. by apply ParseHttpMessage_delimited.
Qed.

Lemma ParseHttpMessage_prefix_witness :
  exists r', ParseHttpMessage (fun _ => true) (bstr "GET /" ++ [10; 10] ++ bstr "body")
    (InitHttpMessage kHttpRequest) 11 = Some (7, r').
Proof.
  eexists.
  destruct (ParseHttpMessage_prefix (fun _ => true) (bstr "GET /" ++ [10; 10])
    (bstr "GET /" ++ [10; 10] ++ bstr "body") (InitHttpMessage kHttpRequest) 7 11) as [_ P].
  - apply wf_init.
  - lia.
  - vm_compute; congruence.
  - vm_compute; congruence.
  - reflexivity.
  - apply P; [vm_compute; reflexivity|lia].
Defined.

(** resuming. When a call ran out of bytes and left [r->i] at the end of the buffer,
    calling again with more bytes gives exactly what one call over the whole buffer
    gives. *)
Theorem ParseHttpMessage_resume realloc p p' r n n' r1 :
  wf r -> n <= n' -> n <= Z.of_nat (length p) -> n' <= Z.of_nat (length p') ->
  take (Z.to_nat n) p = take (Z.to_nat n) p' ->
  ParseHttpMessage realloc p r n = Some (0, r1) -> r_i r1 = n ->
  ParseHttpMessage realloc p' r1 n' = ParseHttpMessage realloc p' r n'.
Proof.
  intros W Hn L L' A H E. pose proof (wf_i _ W) as Wi.
  assert (n < LIMIT /\ r_i r <= n /\
          run realloc p (rest p n (r_i r)) r false = Go r1 false) as (HL & Hi & HR).
  { unfold ParseHttpMessage in H.
    rewrite parse_loop_run with (sc := false) in H by (lia || by right).
    injection H as H. remember (Z.min n LIMIT) as m eqn:Em.
    destruct (decide (m <= r_i r)) as [Le|].
    - rewrite rest_nil in H by done. cbn [run finish] in H.
      destruct (Z.ltb_spec (r_i r) LIMIT); simplify_eq.
      split; [lia|]. split; [lia|]. by rewrite rest_nil by lia.
    - pose proof (run_wf realloc p (rest p m (r_i r)) r false W) as R.
      rewrite rest_length in R by lia. specialize (R ltac:(lia)).
      destruct (run _ _ _ _ _) as [r2 sc|v r2] eqn:Er; cbn [finish] in H;
        [|simplify_eq; lia].
      destruct R as [E2 _].
      destruct sc; rewrite ?set_i_i in H;
        match type of H with context [?x <? LIMIT] => destruct (Z.ltb_spec x LIMIT) end;
        simplify_eq; rewrite ?set_i_i in *; try lia.
      rewrite Z.min_l in Er by lia. repeat split; try lia. done. }
  unfold ParseHttpMessage.
  rewrite !parse_loop_run with (sc := false) by (lia || by right). do 2 f_equal.
  rewrite (run_extend realloc p p' r n); try lia; try done. by rewrite HR, E.
Qed.

Lemma ParseHttpMessage_resume_witness :
  exists r1, ParseHttpMessage (fun _ => true) (bstr "GET / HT") (InitHttpMessage kHttpRequest) 8
    = Some (0, r1) /\
  ParseHttpMessage (fun _ => true) (bstr "GET / HTTP/1.1" ++ [10; 10]) r1 16 =
  ParseHttpMessage (fun _ => true) (bstr "GET / HTTP/1.1" ++ [10; 10])
    (InitHttpMessage kHttpRequest) 16.
Proof.
  eexists. split; [vm_compute; reflexivity|].
  eapply (ParseHttpMessage_resume (fun _ => true) (bstr "GET / HT") _ _ 8).
  - apply wf_init.
  - lia.
  - vm_compute; congruence.
  - vm_compute; congruence.
  - reflexivity.
  - vm_compute; reflexivity.
  - reflexivity.
Defined.

(** The verdict and the state after parsing the first [n] bytes and then all of [m]. *)
Definition parse_in_two (m : bytes) (n : Z) : option (Z * Z * Z * HttpSlice) :=
  '(v1, r1) ← ParseHttpMessage (fun _ => true) m (InitHttpMessage kHttpRequest) n;
  '(v2, r2) ← ParseHttpMessage (fun _ => true) m r1 (Z.of_nat (length m));
  Some (v1, r_i r1, v2, r_xmethod r2).

Definition parse_in_one (m : bytes) : option Z :=
  fst <$> ParseHttpMessage (fun _ => true) m (InitHttpMessage kHttpRequest)
                           (Z.of_nat (length m)).

(** Resuming loses a byte when the buffer ended inside a token. The inner loops leave
    [r->i] at the end of the buffer and the outer loop increments it once more, so the next
    call skips the first new byte. A valid request split after its method is rejected, and
    a request whose method holds a control code, which one call rejects, is accepted when it
    is split in front of that byte. *)
Theorem ParseHttpMessage_fragment_defect :
  let good := bstr "GET / HTTP/1.1" ++ [13; 10; 13; 10] in
  let bad := bstr "GE" ++ [1] ++ bstr "T / HTTP/1.1" ++ [13; 10; 13; 10] in
  parse_in_one good = Some 18 /\
  parse_in_two good 3 = Some (0, 4, -1, slice0) /\
  parse_in_one bad = Some (-1) /\
  parse_in_two bad 2 = Some (0, 3, 19, Slice 0 4).
Proof. cbv zeta. repeat split; vm_compute; reflexivity. Qed.
