(* ===== verification/HttpFields.v ===== *)
(** What the fields of a parsed HTTP message may contain
    (net/http/parsehttpmessage.c): the parser's promise that no control codes reach its
    callers. *)

From S2P Require Import Prelude Tables HttpNames HttpMessage.

(* ------------------------------------------------------------------ *)
(** ** Field contents *)

Definition uri_char (c : Z) : bool := negb ((c =? # " ") || is_eol c || is_control c).
Definition text_char (c : Z) : bool := negb (is_control c).
Definition value_char (c : Z) : bool := (c =? 9) || negb (is_control c).

Section Clean.
Context (realloc : Z -> bool) (p : bytes).

(** Every byte from [a] up to [b] satisfies [P]. *)
Definition range_all (P : Z -> bool) (a b : Z) : Prop :=
  forall j, a <= j < b -> P (tab p j) = true.
Definition slice_all (P : Z -> bool) (s : HttpSlice) : Prop := range_all P (sa s) (sb s).

Record clean (r : HttpMessage) : Prop := {
  clean_uri : slice_all uri_char (r_uri r);
  clean_xmethod : slice_all is_token (r_xmethod r);
  clean_message : slice_all text_char (r_message r);
  clean_headers : Forall (slice_all value_char) (r_headers r);
  clean_xheaders : Forall (fun h => slice_all is_token (hk h) /\ slice_all value_char (hv h))
                          (xp (r_xheaders r));
  clean_now : match r_t r with
              | kHttpStateMethod => range_all is_token (r_a r) (r_i r)
              | kHttpStateUri => range_all uri_char (r_a r) (r_i r)
              | kHttpStateMessage => range_all text_char (r_a r) (r_i r)
              | kHttpStateName => range_all is_token (sa (r_k r)) (r_i r)
              | kHttpStateColon => slice_all is_token (r_k r)
              | kHttpStateValue => slice_all is_token (r_k r) /\
                                   range_all value_char (r_a r) (r_i r)
              | _ => True
              end
}.

Lemma range_all_empty P a : range_all P a a.
Proof. intros j Hj. lia. Qed.

Lemma range_all_snoc P a b :
  range_all P a b -> P (tab p b) = true -> range_all P a (b + 1).
Proof.
  intros H Hb j Hj. destruct (decide (j = b)) as [->|]; [done|]. apply H. lia.
Qed.

Lemma range_all_sub P a b b' : range_all P a b -> b' <= b -> range_all P a b'.
Proof. intros H L j Hj. apply H. lia. Qed.

Lemma short_slice_all P a b :
  0 <= a <= LIMIT -> 0 <= b <= LIMIT -> range_all P a b -> slice_all P (short_slice a b).
Proof.
  unfold slice_all, short_slice, LIMIT. intros. cbn [sa sb]. by rewrite !s16_id by lia.
Qed.

Lemma clean_init type : clean (InitHttpMessage type).
Proof.
  assert (forall P, slice_all P slice0) as S by (intros P; apply range_all_empty).
  split; cbn; auto. by apply Forall_replicate.
Qed.

Lemma push_xheader_clean (P : HttpHeader -> Prop) h xh :
  Forall P (xp xh) -> P h -> Forall P (xp (push_xheader realloc h xh)).
Proof.
  intros F H. unfold push_xheader.
  set (xh1 := if xn xh =? xc xh then _ else xh).
  assert (xp xh1 = xp xh) as E.
  { subst xh1. destruct (_ =? _); [|done]. by destruct (realloc _). }
  destruct (_ <? _); cbn [xp]; rewrite E; [|done].
  apply Forall_app. split; [by apply Forall_take|by constructor].
Qed.

Lemma value_body_clean r c :
  wf r -> clean r -> r_t r = kHttpStateValue -> r_i r < LIMIT ->
  c = tab p (r_i r) ->
  match of_act (value_body realloc p r c) with
  | Go r' _ => clean (set_i (r_i r' + 1) r')
  | Ret _ _ => True
  end.
Proof.
  intros W C Ht HL Hc. pose proof (wf_a _ W) as Wa.
  destruct C as [Cu Cx Cm Ch Cxh Cn]. rewrite Ht in Cn. destruct Cn as [Ck Cv].
  unfold value_body. destruct (is_eol c) eqn:Ec; cbn [of_act].
  - pose proof (rtrim_range p (Z.to_nat (r_i r - r_a r)) (r_a r) (r_i r)) as Ri.
    set (j := rtrim _ _ _ _) in *.
    assert (slice_all value_char (short_slice (r_a r) j)) as S.
    { apply short_slice_all; [lia|lia|]. eapply range_all_sub; [exact Cv|lia]. }
    unfold store_header. destruct (_ && _); destruct r; cbn in *.
    + split; cbn; try done; [by apply Forall_insert|]. unfold eol_state. by destruct (_ =? 13).
    + split; cbn; try done; [by apply push_xheader_clean|].
      unfold eol_state. by destruct (_ =? 13).
  - destruct (_ || _) eqn:E; cbn [of_act]; [done|].
    assert (value_char c = true) as Vc
      by (unfold value_char, is_control in *; lia).
    destruct r; cbn in *; subst. split; cbn; try done. split; [done|].
    by apply range_all_snoc.
Qed.

(** Closes the goals that a step on a field's byte leaves. *)
Ltac clean_step :=
  split; cbn in *; try done; unfold LIMIT in *;
  try (apply short_slice_all; unfold LIMIT; try lia; done);
  try apply range_all_empty;
  try (apply range_all_snoc; done).

Lemma step_clean r c :
  wf r -> clean r -> r_i r < LIMIT -> c = tab p (r_i r) ->
  match step realloc p r c with
  | Go r' _ => clean (set_i (r_i r' + 1) r')
  | Ret v r' => v = -1 \/ clean r'
  end.
Proof.
  intros W C HL Hc. pose proof C as [Cu Cx Cm Ch Cxh Cn].
  pose proof (wf_a _ W) as Wa. pose proof (wf_i _ W) as Wi. pose proof (wf_k _ W) as Wk.
  unfold step, parse_case. destruct (r_t r) eqn:Ht.
  - destruct (is_eol c); [destruct r; cbn in *; subst; by clean_step|].
    destruct (is_token c) eqn:Et; cbn [negb]; [|by left].
    destruct r as [? ? ? ? []]; cbn in *; subst; clean_step.
    apply range_all_snoc; [apply range_all_empty|done].
  - unfold method_body. destruct (Z.eqb_spec c 32); cbn [of_act].
    + clear Hc. destruct r; cbn in *; subst. clean_step.
    + destruct (is_token c) eqn:Et; cbn [negb of_act]; [|by left].
      destruct r; cbn in *; subst. clean_step.
  - unfold uri_body, eol_state. destruct (_ || _) eqn:E.
    + destruct (r_i r =? r_a r); cbn [of_act]; [by left|].
      destruct (_ =? 32); cbn [of_act]; destruct r; cbn in *; subst;
        [|destruct (_ =? 13)]; clean_step.
    + destruct (is_control c) eqn:Ec; cbn [of_act]; [by left|].
      assert (uri_char c = true) as U by (unfold uri_char; by rewrite E, Ec).
      destruct r; cbn in *; subst. clean_step.
  - destruct (_ || _); [|destruct r; cbn in *; subst; clean_step].
    destruct (_ && _ && _ && _); [|by left]. unfold eol_state.
    destruct r as [? ? ? ? []]; cbn in *; subst; [destruct (_ =? 13)|]; clean_step.
  - unfold status_body, eol_state. destruct (_ || _) eqn:E.
    + destruct (_ <? _); cbn [of_act]; [by left|].
      destruct (_ =? 32); cbn [of_act]; destruct r; cbn in *; subst;
        [|destruct (_ =? 13)]; clean_step.
    + destruct (_ && _); cbn [of_act]; [|by left].
      destruct r; cbn in *; subst. destruct (_ >? _); cbn; [by left|]. clean_step.
  - unfold message_body, eol_state. destruct (is_eol c); cbn [of_act].
    + destruct r; cbn in *; subst. destruct (_ =? 13); clean_step.
    + destruct (is_control c) eqn:Ec; cbn [of_act]; [by left|].
      assert (text_char c = true) as U by (unfold text_char; by rewrite Ec).
      destruct r; cbn in *; subst. clean_step.
  - unfold name_body. destruct (Z.eqb_spec c 58); cbn [of_act].
    + clear Hc. destruct r; cbn in *; subst. clean_step.
      unfold slice_all. cbn. by rewrite s16_id by lia.
    + destruct (is_token c) eqn:Et; cbn [negb of_act]; [|by left].
      destruct r; cbn in *; subst. clean_step.
  - destruct (_ || _).
    + destruct r; cbn in *; subst. clean_step.
    + pose proof (value_body_clean (set_t kHttpStateValue (set_a (r_i r) r)) c) as V.
      pose proof (wf_status _ W). pose proof (wf_version _ W).
      assert (wf (set_t kHttpStateValue (set_a (r_i r) r))) as W'
        by (destruct r; cbn in *; subst; wf_step W).
      assert (clean (set_t kHttpStateValue (set_a (r_i r) r))) as C'.
      { destruct r; cbn in *; subst. clean_step. split; [done|apply range_all_empty]. }
      specialize (V W' C').
      destruct (of_act _) eqn:E; [apply V; destruct r; done|].
      unfold value_body in E. destruct (is_eol c); [done|].
      destruct (_ || _) in E; cbn in E; [left|done]. congruence.
  - pose proof (value_body_clean r c W C Ht HL Hc) as V.
    destruct (of_act _) eqn:E; [done|].
    unfold value_body in E. destruct (is_eol c); [done|].
    destruct (_ || _) in E; cbn in E; [left|done]. congruence.
  - destruct (negb _); [by left|]. destruct r; cbn in *; subst. clean_step.
  - destruct (_ =? 13); [destruct r; cbn in *; subst; clean_step|].
    destruct (_ =? 10); [right; destruct r; cbn in *; subst; clean_step|].
    destruct (is_token c) eqn:Et; cbn [negb]; [|by left].
    destruct r; cbn in *; subst. clean_step.
    rewrite s16_id by lia. apply range_all_snoc; [apply range_all_empty|done].
  - destruct (_ =? 10); [right|by left]. destruct r; cbn in *; subst. clean_step.
Qed.

Lemma run_clean n : Bytes p -> n <= Z.of_nat (length p) -> n <= LIMIT ->
  forall k r sc, wf r -> clean r -> n - r_i r = Z.of_nat k ->
  match run realloc p (rest p n (r_i r)) r sc with
  | Go r' _ => True
  | Ret v r' => v = -1 \/ clean r'
  end.
Proof.
  intros Hb Hn HL. induction k as [|k IH]; intros r sc W C E.
  - by rewrite rest_nil by lia.
  - pose proof (wf_i _ W) as Wi. rewrite (rest_cons p n (r_i r)) by lia. cbn [run].
    assert (Z.land (tab p (r_i r)) 255 = tab p (r_i r)) as Ec.
    { rewrite land_255. apply Z.mod_small. exact (Bytes_tab p (r_i r) Hb). }
    rewrite Ec. pose proof (step_clean r _ W C ltac:(lia) eq_refl) as S.
    pose proof (step_wf realloc p r (tab p (r_i r)) W ltac:(lia)) as S'.
    destruct (step _ _ _ _) as [r' sc'|v r']; [|done].
    destruct S' as [Ei W']. specialize (IH (set_i (r_i r' + 1) r') sc' W' S).
    rewrite set_i_i, Ei in IH. rewrite Ei. apply IH. lia.
Qed.
End Clean.

Lemma slice_all_Forall p P i s :
  slice_wf i s -> i <= Z.of_nat (length p) -> slice_all p P s ->
  Forall (fun c => P c = true) (slice p s).
Proof.
  intros (H1 & H2 & _) L H. apply Forall_lookup. intros j x Hj.
  unfold slice in Hj. apply lookup_take_Some in Hj as [Hj Hlt].
  rewrite lookup_drop in Hj. specialize (H (sa s + Z.of_nat j)).
  unfold tab in H. replace (Z.to_nat (sa s + Z.of_nat j)) with (Z.to_nat (sa s) + j)%nat in H
    by lia.
  rewrite (nth_lookup_Some _ _ 0 x Hj) in H. apply H. lia.
Qed.

(* ------------------------------------------------------------------ *)
(** ** Properties *)

Lemma clean_fields realloc p type n v r :
  Bytes p -> n <= Z.of_nat (length p) ->
  ParseHttpMessage realloc p (InitHttpMessage type) n = Some (v, r) -> 0 < v ->
  let all P s := Forall (fun c => P c = true) (slice p s) in
  all is_token (r_xmethod r) /\ all uri_char (r_uri r) /\ all text_char (r_message r) /\
  Forall (all value_char) (r_headers r) /\
  Forall (fun h => all is_token (hk h) /\ all value_char (hv h)) (xp (r_xheaders r)).
Proof.
  intros Hb Hn H Hv. cbv zeta. pose proof (wf_init type) as W. pose proof (wf_i _ W) as Wi.
  set (r0 := InitHttpMessage type) in *. unfold ParseHttpMessage in H.
  rewrite parse_loop_run with (sc := false) in H by (lia || by right). injection H as H.
  set (m := Z.min n LIMIT) in *.
  destruct (decide (m <= r_i r0)) as [Le|].
  { rewrite rest_nil in H by done. cbn [run finish] in H. destruct (_ <? _); simplify_eq; lia. }
  pose proof (run_clean realloc p m Hb ltac:(lia) ltac:(lia) (Z.to_nat (m - r_i r0)) r0 false
                W (clean_init p type) ltac:(lia)) as C.
  pose proof (run_wf realloc p (rest p m (r_i r0)) r0 false W) as R.
  rewrite rest_length in R by lia. specialize (R ltac:(lia)).
  destruct (run _ _ _ _ _) as [r1 sc|v1 r1]; cbn [finish] in H.
  { destruct (_ <? _) in H; simplify_eq; lia. }
  injection H as -> ->. destruct C as [?|[Cu Cx Cm Ch Cxh _]]; [lia|].
  destruct R as (Ri & [?|(_ & _ & [_ _ _ _ _ Wu Wm Wx [_ Wh] (_ & _ & Wxh)])]); [lia|].
  assert (r_i r <= Z.of_nat (length p)) as Li by lia.
  repeat split.
  - by eapply slice_all_Forall.
  - by eapply slice_all_Forall.
  - by eapply slice_all_Forall.
  - rewrite Forall_forall in *. intros s Hs. eapply slice_all_Forall; eauto.
  - rewrite Forall_forall in *. intros h Hh. specialize (Wxh h Hh). specialize (Cxh h Hh).
    destruct Wxh, Cxh. split; eapply slice_all_Forall; eauto.
Qed.

(** The tests of the code against ranges of bytes. *)
Lemma chars_ranges c : is_byte c ->
  (is_token c = true -> Machine.tchar c = true) /\
  (text_char c = true -> 32 <= c <= 126 \/ 160 <= c <= 255) /\
  (uri_char c = true -> 33 <= c <= 126 \/ 160 <= c <= 255) /\
  (value_char c = true -> c = 9 \/ 32 <= c <= 126 \/ 160 <= c <= 255).
Proof.
  intros Hc. assert (forallb (fun c => implb (is_token c) (Machine.tchar c)) (zbelow 256) = true) as T by (vm_compute; reflexivity).
  pose proof (forall_byte _ T c Hc) as B. cbv beta in B. unfold is_byte in Hc. unfold uri_char, text_char, value_char, is_eol, is_control.
  change (# " ") with 32. split; [intros E; by rewrite E in B|]. lia.
Qed.

(** C36: a message accepted in one call has no C0 or C1 control codes in its fields, tab in
    header values apart: the method and the names of the extra headers are tokens as RFC 7230 has
    them, the URI has no blanks and no bytes 0 to 31 or 127 to 159, and the reason phrase and every
    header value have no such bytes either. *)
Theorem ParseHttpMessage_clean realloc p type n v r :
  Bytes p -> n <= Z.of_nat (length p) ->
  ParseHttpMessage realloc p (InitHttpMessage type) n = Some (v, r) -> 0 < v ->
  let all (P : Z -> Prop) s := Forall P (slice p s) in
  let token c := Machine.tchar c = true in
  let text c := 32 <= c <= 126 \/ 160 <= c <= 255 in
  all token (r_xmethod r) /\
  all (fun c => c <> 32 /\ text c) (r_uri r) /\
  all text (r_message r) /\
  Forall (all (fun c => c = 9 \/ text c)) (r_headers r) /\
  Forall (fun h => all token (hk h) /\ all (fun c => c = 9 \/ text c) (hv h)) (xp (r_xheaders r)).
Proof.
  intros Hb Hn H Hv all token text. destruct (clean_fields realloc p type n v r Hb Hn H Hv) as (C1 & C2 & C3 & C4 & C5).
  assert (forall (f : Z -> bool) (P : Z -> Prop) s, (forall c, is_byte c -> f c = true -> P c) ->
    Forall (fun c => f c = true) (slice p s) -> Forall P (slice p s)) as Imp.
  { intros f P s Hf F. assert (Bytes (slice p s)) as B by (by apply Forall_take, Forall_drop).
    rewrite Forall_forall in *. intros c Hc. apply Hf; [by apply B|by apply F]. }
  assert (forall c, is_byte c -> value_char c = true -> c = 9 \/ text c) as Vc by (intros c Hc; by apply chars_ranges).
  assert (forall c, is_byte c -> is_token c = true -> token c) as Tc by (intros c Hc; by apply chars_ranges).
  split; [by eapply Imp|]. split; [eapply Imp; [|exact C2]; intros c Hc E; pose proof (proj1 (proj2 (proj2 (chars_ranges c Hc))) E); subst text; cbn; lia|].
  split; [eapply Imp; [|exact C3]; intros c Hc; by apply chars_ranges|]. split.
  - eapply Forall_impl; [exact C4|]. intros s F. by eapply Imp.
  - eapply Forall_impl; [exact C5|]. intros h [F1 F2]. split; by eapply Imp.
Qed.

Lemma ParseHttpMessage_clean_witness :
  Forall (fun c => c <> 32 /\ (32 <= c <= 126 \/ 160 <= c <= 255)) (bstr "/x").
Proof.
  destruct (ParseHttpMessage (fun _ => true) (bstr "GET /x" ++ [10; 10])
             (InitHttpMessage kHttpRequest) 8) as [[v r]|] eqn:E; [|vm_compute in E; done].
  pose proof (ParseHttpMessage_clean (fun _ => true) (bstr "GET /x" ++ [10; 10])
                kHttpRequest 8 v r) as H.
  assert (v = 8 /\ r_uri r = Slice 4 6) as [Ev Eu] by (vm_compute in E; by simplify_eq).
  subst v. destruct H as (_ & H & _).
  - decide_now.
  - vm_compute; congruence.
  - exact E.
  - lia.
  - rewrite Eu in H. exact H.
Defined.
