(* ===== verification/HttpHeaders.v ===== *)
(** The header store of a parsed message: the abstract map it implements, what a rendered
    request parses to, and the two readers HeaderHas (net/http/headerhassubstring.c) and
    FoldHeader (net/http/foldheader.c). *)

From stdpp Require Import gmap.
From S2P Require Import Prelude Tables HttpNames HttpMessage HttpFields.

#[local] Opaque find_name header_names method_names.

(* ------------------------------------------------------------------ *)
(** ** Readers *)

(** [memmem]: whether [needle] occurs in [hay]. *)
Fixpoint memmem (hay needle : bytes) : bool :=
  bool_decide (needle `prefix_of` hay) ||
  match hay with [] => false | _ :: hay => memmem hay needle end.

Definition HeaderHas (m : HttpMessage) (b : bytes) (h : Z) (s : option bytes) (n : Z) : bool :=
  let needle := strarg s n in
  let sl := nth (Z.to_nat h) (r_headers m) slice0 in
  if negb (sa sl =? 0) then
    if memmem (slice b sl) needle then true
    else if kHttpRepeatable h then
      existsb (fun x =>
        (GetHttpHeader (drop (Z.to_nat (sa (hk x))) b) (sb (hk x) - sa (hk x)) =? h)
        && memmem (slice b (hv x)) needle)
        (take (Z.to_nat (xn (r_xheaders m))) (xp (r_xheaders m)))
    else false
  else false.

(** The loop of [FoldHeader]; [out] is the buffer built so far. *)
Fixpoint fold_loop (realloc : Z -> bool) (b : bytes) (h : Z) (xs : list HttpHeader) (out : bytes)
  : option bytes :=
  match xs with
  | [] => Some out
  | x :: xs =>
      if GetHttpHeader (drop (Z.to_nat (sa (hk x))) b) (sb (hk x) - sa (hk x)) =? h then
        let m := sb (hv x) - sa (hv x) in
        if realloc (Z.of_nat (length out) + 2 + m)
        then fold_loop realloc b h xs (out ++ bstr ", " ++ slice b (hv x))
        else None
      else fold_loop realloc b h xs out
  end.

(** [None] is the null pointer; otherwise the buffer, whose length is stored through
    [z]. *)
Definition FoldHeader (malloc realloc : Z -> bool) (msg : HttpMessage) (b : bytes) (h : Z)
  : option bytes :=
  let sl := nth (Z.to_nat h) (r_headers msg) slice0 in
  if malloc (sb sl - sa sl)
  then fold_loop realloc b h (take (Z.to_nat (xn (r_xheaders msg))) (xp (r_xheaders msg)))
                 (slice b sl)
  else None.

(* ------------------------------------------------------------------ *)
(** ** The contract: a map of known headers and a list of others *)

Record store := Store { known : gmap Z bytes; extra : list (bytes * bytes) }.

Definition add_header (st : store) (kv : bytes * bytes) : store :=
  let '(k, v) := kv in
  match find_name header_names k with
  | Some h =>
      match known st !! h with
      | Some _ => if kHttpRepeatable h then Store (known st) (extra st ++ [kv])
                  else Store (<[h := v]> (known st)) (extra st)
      | None => Store (<[h := v]> (known st)) (extra st)
      end
  | None => Store (known st) (extra st ++ [kv])
  end.

(** The values a header has, in the order of the message. *)
Definition values (st : store) (h : Z) : list bytes :=
  match known st !! h with
  | Some v => v :: omap (fun kv => if decide (find_name header_names kv.1 = Some h)
                                   then Some kv.2 else None) (extra st)
  | None => []
  end.

(** The fields of [r] denote [st] in the buffer [p]. *)
Record denotes (p : bytes) (r : HttpMessage) (st : store) : Prop := {
  den_len : length (r_headers r) = 93%nat;
  den_known : forall h, 0 <= h < 93 ->
    let s := nth (Z.to_nat h) (r_headers r) slice0 in
    match known st !! h with
    | None => s = slice0
    | Some v => 0 < sa s /\ slice p s = v
    end;
  den_extra : map (fun x => (slice p (hk x), slice p (hv x))) (xp (r_xheaders r)) = extra st;
  den_n : xn (r_xheaders r) = Z.of_nat (length (xp (r_xheaders r)));
  den_wf : Forall (fun x => slice_wf (Z.of_nat (length p)) (hk x) /\
                            Forall (fun c => is_token c = true) (slice p (hk x)))
                  (xp (r_xheaders r))
}.

(* ------------------------------------------------------------------ *)
(** ** Requests as text *)

Record request := Request {
  q_method : bytes; q_uri : bytes; q_major : Z; q_minor : Z;
  q_headers : list (bytes * bytes) }.

Definition CRLF : bytes := [13; 10].

Definition render_header (kv : bytes * bytes) : bytes := kv.1 ++ bstr ": " ++ kv.2 ++ CRLF.

Fixpoint render_headers (hs : list (bytes * bytes)) : bytes :=
  match hs with [] => [] | kv :: hs => render_header kv ++ render_headers hs end.

Definition render_version (q : request) : bytes :=
  bstr "HTTP/" ++ [48 + q_major q; 46; 48 + q_minor q].

Definition render (q : request) : bytes :=
  q_method q ++ [32] ++ q_uri q ++ [32] ++ render_version q ++ CRLF
  ++ render_headers (q_headers q) ++ CRLF.

Definition is_blank (c : Z) : bool := (c =? 32) || (c =? 9).

Definition header_ok (kv : bytes * bytes) : Prop :=
  kv.1 <> [] /\ Forall (fun c => is_byte c /\ is_token c = true) kv.1 /\
  Forall (fun c => is_byte c /\ value_char c = true) kv.2 /\
  is_blank (hd 0 kv.2) = false /\ is_blank (List.last kv.2 0) = false.

Definition request_ok (q : request) : Prop :=
  q_method q <> [] /\ Forall (fun c => is_byte c /\ is_token c = true) (q_method q) /\
  q_uri q <> [] /\ Forall (fun c => is_byte c /\ uri_char c = true) (q_uri q) /\
  0 <= q_major q <= 9 /\ 0 <= q_minor q <= 9 /\ Forall header_ok (q_headers q).

(** The store a request denotes. *)
Definition request_store (q : request) : store :=
  foldl add_header (Store ∅ []) (q_headers q).

(* ------------------------------------------------------------------ *)
(** ** Lemmas: words and slices *)

Lemma token_byte c : is_token c = true -> is_byte c /\ c <> 0.
Proof.
  unfold is_token, tab. intros H. rewrite negb_true_iff, Z.eqb_neq in H.
  assert (Z.to_nat c <> O) as N0 by (intros E; apply H; by rewrite E).
  destruct (decide (256 <= c)) as [L|]; [|unfold is_byte; lia].
  exfalso. apply H. apply nth_overflow. change (length kHttpToken) with 256%nat. lia.
Qed.

Lemma tokens_word w : Forall (fun c => is_token c = true) w -> Bytes w /\ (0 ∉ w).
Proof.
  intros F. split.
  - eapply Forall_impl; [exact F|]. intros c Hc. by apply token_byte.
  - intros Hin. rewrite Forall_forall in F. apply F in Hin. by apply token_byte in Hin as [_ ?].
Qed.

(** The perfect hash on a name inside a buffer. *)
Lemma GetHttpHeader_word m len w :
  take (Z.to_nat len) m = w -> len = Z.of_nat (length w) ->
  Forall (fun c => is_token c = true) w ->
  GetHttpHeader m len = default (-1) (find_name header_names w).
Proof.
  intros Ew El F. apply tokens_word in F as [Fb F0].
  rewrite <- GetHttpHeader_take, Ew.
  rewrite GetHttpHeader_spec; rewrite ?El, ?Nat2Z.id, ?firstn_all; try done. lia.
Qed.

Lemma GetHttpMethod_word m len w :
  take (Z.to_nat len) m = w -> len = Z.of_nat (length w) -> len <> SIZE_MAX ->
  Forall (fun c => is_token c = true) w ->
  GetHttpMethod (Some m) len = default 0 (find_name method_names w).
Proof.
  intros Ew El Es F. apply tokens_word in F as [Fb F0].
  assert (GetHttpMethod (Some m) len = GetHttpMethod (Some w) len) as ->.
  { unfold GetHttpMethod. rewrite !strarg_len by lia.
    by rewrite Ew, El, Nat2Z.id, firstn_all. }
  rewrite GetHttpMethod_spec; rewrite ?El, ?Nat2Z.id, ?firstn_all; try done; lia.
Qed.

Lemma slice_mid pre w suf a b :
  a = Z.of_nat (length pre) -> b = a + Z.of_nat (length w) ->
  slice (pre ++ w ++ suf) (Slice a b) = w.
Proof.
  intros -> ->. unfold slice. cbn [sa sb].
  replace (Z.to_nat (Z.of_nat (length pre) + Z.of_nat (length w) - Z.of_nat (length pre)))
    with (length w) by lia.
  rewrite Nat2Z.id, drop_app_length. apply take_app_length.
Qed.

Lemma tab_mid pre c suf i : i = Z.of_nat (length pre) -> tab (pre ++ c :: suf) i = c.
Proof.
  intros ->. unfold tab. rewrite Nat2Z.id, app_nth2 by lia. by rewrite Nat.sub_diag.
Qed.

Lemma short_slice_id a b :
  0 <= a <= LIMIT -> 0 <= b <= LIMIT -> short_slice a b = Slice a b.
Proof. unfold short_slice, LIMIT. intros. by rewrite !s16_id by lia. Qed.

(* ------------------------------------------------------------------ *)
(** ** Lemmas: running the automaton over text *)

Section Text.
Context (realloc : Z -> bool) (p : bytes).

Lemma run_cons c l r sc :
  run realloc p (c :: l) r sc =
  match step realloc p r c with
  | Go r sc => run realloc p l (set_i (r_i r + 1) r) sc
  | Ret v r => Ret v r
  end.
Proof. done. Qed.

(** Bytes that leave the state alone. *)
Lemma run_segment seg : forall c l r,
  (forall x j, x ∈ seg -> exists sc, step realloc p (set_i j r) x = Go (set_i j r) sc) ->
  run realloc p (seg ++ c :: l) r false =
  run realloc p (c :: l) (set_i (r_i r + Z.of_nat (length seg)) r) false.
Proof.
  induction seg as [|x seg IH]; intros c l r H.
  - cbn [app length]. rewrite Z.add_0_r. by destruct r.
  - cbn [app]. rewrite run_cons.
    destruct (H x (r_i r) (list_elem_of_here _ _)) as [sc S].
    assert (set_i (r_i r) r = r) as E by (by destruct r). rewrite E in S. rewrite S.
    transitivity (run realloc p (seg ++ c :: l) (set_i (r_i r + 1) r) false).
    { by destruct seg. }
    rewrite IH.
    + rewrite set_i_i, set_i_set_i. cbn [length]. do 2 f_equal. lia.
    + intros y j Hy. rewrite set_i_set_i. apply H. by apply list_elem_of_further.
Qed.

(** Method, URI, name and value bytes. *)
Lemma run_tokens seg c l r :
  (r_t r = kHttpStateMethod \/ r_t r = kHttpStateName) ->
  Forall (fun x => is_token x = true) seg ->
  run realloc p (seg ++ c :: l) r false =
  run realloc p (c :: l) (set_i (r_i r + Z.of_nat (length seg)) r) false.
Proof.
  intros Ht F. apply run_segment. intros x j Hx. rewrite Forall_forall in F.
  specialize (F x Hx). exists true. unfold step. rewrite set_i_t.
  assert ((x =? 32) = false /\ (x =? 58) = false) as [E1 E2].
  { split; apply Z.eqb_neq; intros ->; vm_compute in F; done. }
  unfold method_body, name_body.
  destruct Ht as [-> | ->]; rewrite ?E1, ?E2, F; done.
Qed.

Lemma run_uri seg c l r :
  r_t r = kHttpStateUri -> Forall (fun x => uri_char x = true) seg ->
  run realloc p (seg ++ c :: l) r false =
  run realloc p (c :: l) (set_i (r_i r + Z.of_nat (length seg)) r) false.
Proof.
  intros Ht F. apply run_segment. intros x j Hx. rewrite Forall_forall in F.
  specialize (F x Hx). exists true. unfold step, uri_body. rewrite set_i_t, Ht.
  unfold uri_char in F. rewrite negb_true_iff, orb_false_iff in F. destruct F as [E1 E2].
  by rewrite E1, E2.
Qed.

Lemma run_value seg c l r :
  r_t r = kHttpStateValue -> Forall (fun x => value_char x = true) seg ->
  run realloc p (seg ++ c :: l) r false =
  run realloc p (c :: l) (set_i (r_i r + Z.of_nat (length seg)) r) false.
Proof.
  intros Ht F. apply run_segment. intros x j Hx. rewrite Forall_forall in F.
  specialize (F x Hx). exists true. unfold step, value_body. rewrite set_i_t, Ht.
  unfold value_char, is_control, is_eol in *.
  rewrite (proj2 (orb_false_iff (x =? 13) (x =? 10))) by lia.
  match goal with |- context [if ?b then Fail _ else _] => destruct b eqn:E end; [lia|done].
Qed.

Lemma run_version seg c l r :
  r_t r = kHttpStateVersion -> Forall (fun x => 32 < x) seg ->
  run realloc p (seg ++ c :: l) r false =
  run realloc p (c :: l) (set_i (r_i r + Z.of_nat (length seg)) r) false.
Proof.
  intros Ht F. apply run_segment. intros x j Hx. rewrite Forall_forall in F.
  specialize (F x Hx). exists false. unfold step, parse_case. rewrite set_i_t, Ht.
  unfold is_eol. destruct (_ || _) eqn:E; [lia|done].
Qed.

(** A value that does not end in a blank is not trimmed. *)
Lemma rtrim_id fuel a i :
  (a < i -> is_blank (tab p (i - 1)) = false) -> rtrim p fuel a i = i.
Proof.
  intros H. destruct fuel; [done|]. cbn [rtrim]. destruct (Z.gtb_spec i a); [|done].
  unfold is_blank in H. rewrite H by lia. done.
Qed.

(** A header name, its colon and the space behind it. *)
Lemma run_name k l r :
  k <> [] -> Forall (fun x => is_token x = true) k -> r_t r = kHttpStateLf1 ->
  0 <= r_i r -> r_i r + Z.of_nat (length k) <= LIMIT ->
  let kb := r_i r + Z.of_nat (length k) in
  run realloc p (k ++ 58 :: 32 :: l) r false =
  run realloc p l (set_i (kb + 2) (set_t kHttpStateColon (set_k (Slice (r_i r) kb) r))) false.
Proof.
  intros K0 Kt Ht Hi L. cbv zeta. unfold LIMIT in L.
  destruct k as [|k0 k]; [done|]. apply Forall_cons in Kt as [T0 Kt]. cbn [length] in *.
  cbn [app]. rewrite run_cons.
  assert (step realloc p r k0 =
          Go (set_t kHttpStateName (set_k (Slice (r_i r) (sb (r_k r))) r)) false) as ->.
  { unfold step, parse_case. rewrite Ht, T0. cbn [negb].
    assert ((k0 =? 13) = false /\ (k0 =? 10) = false) as [-> ->].
    { split; apply Z.eqb_neq; intros ->; vm_compute in T0; done. }
    by rewrite s16_id by lia. }
  rewrite run_tokens; [|right; by destruct r|done]. rewrite run_cons.
  destruct r as [i]; cbn in *. rewrite s16_id by lia. 
  replace (i + Z.of_nat (S (length k))) with (i + 1 + Z.of_nat (length k)) by lia.
  by replace (i + 1 + Z.of_nat (length k) + 1 + 1) with (i + 1 + Z.of_nat (length k) + 2)
    by lia.
Qed.

(** A header value and the CR behind it. *)
Lemma run_field_value v l l' r pre :
  Forall (fun x => value_char x = true) v ->
  is_blank (hd 0 v) = false -> is_blank (List.last v 0) = false ->
  r_t r = kHttpStateColon -> p = pre ++ v ++ 13 :: l' -> r_i r = Z.of_nat (length pre) ->
  let vb := r_i r + Z.of_nat (length v) in
  run realloc p (v ++ 13 :: l) r false =
  run realloc p l
    (set_i (vb + 1) (set_t kHttpStateCr
       (store_header realloc p (set_i vb (set_t kHttpStateValue (set_a (r_i r) r))) vb))) false.
Proof.
  intros Vc Vh Vl Ht Ep Ei. cbv zeta.
  set (r1 := set_t kHttpStateValue (set_a (r_i r) r)).
  assert (r_i r1 = r_i r /\ r_t r1 = kHttpStateValue /\ r_a r1 = r_i r) as (Ei1 & Et1 & Ea1)
    by (subst r1; by destruct r).
  transitivity (run realloc p (v ++ 13 :: l) r1 false).
  { assert (forall x l0, is_blank x = false ->
      run realloc p (x :: l0) r false = run realloc p (x :: l0) r1 false) as Fall.
    { intros x l0 Hx. rewrite !run_cons. unfold is_blank in Hx. unfold step.
      by rewrite Ht, Et1, Hx. }
    destruct v; by apply Fall. }
  rewrite run_value, run_cons, Ei1 by done. set (vb := r_i r + Z.of_nat (length v)).
  assert (step realloc p (set_i vb r1) 13 =
          Go (set_t kHttpStateCr (store_header realloc p (set_i vb r1) vb)) false) as ->.
  { unfold step, value_body. rewrite set_i_t, Et1, set_i_i, rtrim_id; [done|].
    intros Lt. assert (r_a (set_i vb r1) = r_i r) as Ea by (by destruct r1).
    destruct (exists_last (l := v)) as (v' & x & ->).
    { intros ->. subst vb. cbn in *. lia. }
    rewrite last_last in Vl. rewrite <- Vl. f_equal.
    rewrite Ep, <- app_assoc, app_assoc. apply tab_mid. subst vb.
    rewrite !length_app. cbn [length]. lia. }
  match goal with |- context [store_header ?x ?y ?z ?w] =>
    pose proof (store_header_i x y z w) as Hi; destruct (store_header x y z w) end.
  rewrite set_i_i in Hi. cbn in *. by rewrite Hi.
Qed.

(** One header line, from the state at the start of a line to the next one. *)
Lemma run_header kv l l' r pre :
  header_ok kv -> r_t r = kHttpStateLf1 ->
  p = pre ++ render_header kv ++ l' -> r_i r = Z.of_nat (length pre) ->
  r_i r + Z.of_nat (length (render_header kv)) <= LIMIT ->
  let kb := r_i r + Z.of_nat (length kv.1) in
  let vb := kb + 2 + Z.of_nat (length kv.2) in
  run realloc p (render_header kv ++ l) r false =
  run realloc p l
    (set_i (vb + 2) (set_t kHttpStateLf1
       (store_header realloc p (set_i vb (set_t kHttpStateValue
          (set_a (kb + 2) (set_k (Slice (r_i r) kb) r)))) vb))) false.
Proof.
  destruct kv as [k v]. intros (K0 & Kt & Vc & Vh & Vl) Ht Ep Ei L. cbn [fst snd] in *.
  cbv zeta.
  assert (forall l, render_header (k, v) ++ l = k ++ 58 :: 32 :: v ++ 13 :: 10 :: l) as Er.
  { intros l0. unfold render_header, CRLF. cbn [fst snd]. by rewrite <- !app_assoc. }
  rewrite Er in *. unfold render_header in L. rewrite !length_app in L. cbn in L.
  rewrite run_name; [|done|by eapply Forall_impl; [exact Kt|]; intros ? []|done|lia|lia].
  set (kb := r_i r + Z.of_nat (length k)).
  rewrite (run_field_value v (10 :: l) (10 :: l') _ (pre ++ k ++ [58; 32]));
    [|by eapply Forall_impl; [exact Vc|]; intros ? []|done|done|by destruct r| |].
  - rewrite run_cons, set_i_i.
    assert (set_t kHttpStateValue (set_a (kb + 2)
              (set_i (kb + 2) (set_t kHttpStateColon (set_k (Slice (r_i r) kb) r)))) =
            set_i (kb + 2) (set_t kHttpStateValue (set_a (kb + 2) (set_k (Slice (r_i r) kb) r))))
      as -> by (by destruct r).
    rewrite set_i_set_i. destruct (store_header _ _ _ _); cbn. do 2 f_equal. lia.
  - rewrite Ep, <- !app_assoc. done.
  - rewrite set_i_i, !length_app. cbn [length]. subst kb. lia.
Qed.

(** The request line. *)
Definition request_line (q : request) : bytes :=
  q_method q ++ 32 :: q_uri q ++ 32 :: render_version q ++ CRLF.

(** The state behind it. *)
Definition after_line (q : request) : HttpMessage :=
  let m := Z.of_nat (length (q_method q)) in
  let u := Z.of_nat (length (q_uri q)) in
  Msg (m + u + 12) (m + u + 2) 0 kHttpStateLf1 kHttpRequest
      (default 0 (find_name method_names (q_method q)))
      (10 * q_major q + q_minor q) slice0 (Slice (m + 1) (m + 1 + u)) slice0 slice0
      (replicate (Z.to_nat kHttpHeadersMax) slice0) (Slice 0 m) (Headers 0 0 []).

Lemma find_method_range m h : find_name method_names m = Some h -> 0 <= h < 256.
Proof.
  intros H. apply find_name_Some in H as (name & Hin & _).
  assert (forallb (fun x => (0 <=? x.1) && (x.1 <? 256)) method_names = true) as F
    by (vm_compute; reflexivity).
  rewrite forallb_forall in F. apply list_elem_of_In, F in Hin. cbn [fst] in Hin. lia.
Qed.

Lemma run_method q l :
  request_ok q -> Z.of_nat (length (q_method q)) <= LIMIT -> q_method q `prefix_of` p ->
  let m := Z.of_nat (length (q_method q)) in
  run realloc p (q_method q ++ 32 :: l) (InitHttpMessage kHttpRequest) false =
  run realloc p l
    (set_i (m + 1) (set_a (m + 1) (set_t kHttpStateUri (set_xmethod (Slice 0 m)
      (set_method (default 0 (find_name method_names (q_method q)))
         (InitHttpMessage kHttpRequest)))))) false.
Proof.
  intros (M0 & Mt & _) L [suf Ep]. cbv zeta. unfold LIMIT in L.
  assert (Forall (fun x => is_token x = true) (q_method q)) as Mt'
    by (eapply Forall_impl; [exact Mt|]; intros ? []; done). clear Mt.
  destruct (q_method q) as [|x m] eqn:Em; [done|]. rewrite <- Em in Ep, Mt'.
  pose proof Mt' as Mt. rewrite Em in Mt. apply Forall_cons in Mt as [T0 Mt].
  cbn [app]. rewrite run_cons.
  assert (step realloc p (InitHttpMessage kHttpRequest) x =
          Go (set_t kHttpStateMethod (InitHttpMessage kHttpRequest)) false) as ->.
  { unfold step, parse_case. cbn [r_t InitHttpMessage]. rewrite T0.
    assert (is_eol x = false) as ->; [|done].
    apply not_true_iff_false. intros E. apply orb_true_iff in E as [E|E];
      apply Z.eqb_eq in E; subst x; vm_compute in T0; done. }
  rewrite run_tokens; [|by left|done]. rewrite run_cons. unfold step, method_body.
  cbn -[GetHttpMethod Z.of_nat length find_name method_names short_slice u8 Z.add].
  rewrite (GetHttpMethod_word _ _ (q_method q)); [| | | |done].
  - rewrite short_slice_id by (unfold LIMIT; cbn [length] in L; lia). rewrite Em, u8_id.
    + cbn [length]. do 2 f_equal; try (f_equal; lia); lia.
    + destruct (find_name _ _) eqn:F; [by apply find_method_range in F|cbn; lia].
  - rewrite Ep, Z.sub_0_r, drop_0. cbn [length] in *.
    replace (Z.to_nat (0 + 1 + Z.of_nat (length m))) with (length (q_method q))
      by (rewrite Em; cbn [length]; lia). apply take_app_length.
  - rewrite Em. cbn [length]. lia.
  - unfold SIZE_MAX. cbn [length] in L. lia.
Qed.

Lemma READ64BE_version pre a b suf :
  0 <= a <= 9 -> 0 <= b <= 9 ->
  let p := pre ++ (bstr "HTTP/" ++ [48 + a; 46; 48 + b]) ++ suf in
  let i := Z.of_nat (length pre) in
  Z.land (READ64BE p i) 0xFFFFFFFFFF00FF00 = 0x485454502F002E00 /\
  tab p (i + 5) = 48 + a /\ tab p (i + 7) = 48 + b.
Proof.
  intros Ha Hb. cbv zeta. set (w := bstr "HTTP/" ++ [48 + a; 46; 48 + b]).
  assert (forall j, 0 <= j < 8 ->
            tab (pre ++ w ++ suf) (Z.of_nat (length pre) + j) = tab w j) as T.
  { intros j Hj. unfold tab. rewrite app_nth2 by lia.
    replace (Z.to_nat (Z.of_nat (length pre) + j) - length pre)%nat with (Z.to_nat j) by lia.
    apply app_nth1. cbn [length w app]. lia. }
  unfold READ64BE. cbn [foldl]. rewrite !T by lia. split; [|split; done].
  assert (forallb (fun a => forallb (fun b =>
    Z.land (READ64BE (bstr "HTTP/" ++ [48 + a; 46; 48 + b]) 0) 0xFFFFFFFFFF00FF00
    =? 0x485454502F002E00) (zbelow 10)) (zbelow 10) = true) as F by (vm_compute; reflexivity).
  pose proof (forall_below 10 _ F a ltac:(lia)) as Fa. cbv beta in Fa.
  pose proof (forall_below 10 _ Fa b ltac:(lia)) as Fb. cbv beta in Fb.
  apply Z.eqb_eq in Fb. exact Fb.
Qed.

Lemma run_uri_field u l r :
  r_t r = kHttpStateUri -> r_a r = r_i r -> u <> [] ->
  Forall (fun x => uri_char x = true) u ->
  0 <= r_i r -> r_i r + Z.of_nat (length u) <= LIMIT ->
  let e := r_i r + Z.of_nat (length u) in
  run realloc p (u ++ 32 :: l) r false =
  run realloc p l
    (set_i (e + 1) (set_t kHttpStateVersion (set_a (e + 1)
       (set_uri (Slice (r_i r) e) r)))) false.
Proof.
  intros Ht Ha U0 Uc Hi L. cbv zeta. rewrite run_uri, run_cons by done.
  set (e := r_i r + Z.of_nat (length u)) in *.
  assert (e <> r_i r) as Ne by (subst e; destruct u; [done|cbn [length]; lia]).
  unfold step, uri_body. rewrite set_i_t, Ht.
  destruct r; cbn -[Z.add short_slice Z.eqb] in *. subst r_a.
  rewrite (proj2 (Z.eqb_neq _ _) Ne). cbn -[Z.add short_slice].
  rewrite short_slice_id by (unfold LIMIT in *; lia). done.
Qed.

Lemma run_version_field a b l l' r pre :
  r_t r = kHttpStateVersion -> r_type r = kHttpRequest -> r_a r = r_i r ->
  0 <= a <= 9 -> 0 <= b <= 9 ->
  p = pre ++ (bstr "HTTP/" ++ [48 + a; 46; 48 + b]) ++ 13 :: 10 :: l' ->
  r_i r = Z.of_nat (length pre) ->
  run realloc p ((bstr "HTTP/" ++ [48 + a; 46; 48 + b]) ++ 13 :: 10 :: l) r false =
  run realloc p l
    (set_i (r_i r + 10) (set_t kHttpStateLf1 (set_version (10 * a + b) r))) false.
Proof.
  intros Ht Hr Ha Hma Hmi Ep Ei.
  destruct (READ64BE_version pre a b (13 :: 10 :: l') Hma Hmi) as (V1 & V2 & V3).
  rewrite run_version; [|done|cbn [app]; repeat constructor; lia].
  rewrite run_cons. unfold step, parse_case. rewrite set_i_t, Ht.
  rewrite <- Ep, <- Ei in V1, V2, V3.
  destruct r; cbn -[Z.add READ64BE Z.land tab u8 Z.mul] in *. subst r_a r_type.
  rewrite V1, V2, V3. unfold isdigit.
  change (Z.of_nat 8) with 8. replace (r_i + 8 - r_i =? 8) with true by lia.
  replace ((48 <=? 48 + a) && (48 + a <=? 57)) with true by lia.
  replace ((48 <=? 48 + b) && (48 + b <=? 57)) with true by lia.
  cbn -[Z.add u8 Z.mul]. rewrite u8_id by lia.
  replace (r_i + 8 + 1 + 1) with (r_i + 10) by lia.
  by replace ((48 + a - 48) * 10 + (48 + b - 48)) with (10 * a + b) by lia.
Qed.

Lemma run_request_line q l l' :
  request_ok q -> Z.of_nat (length (request_line q)) <= LIMIT ->
  p = request_line q ++ l' ->
  run realloc p (request_line q ++ l) (InitHttpMessage kHttpRequest) false =
  run realloc p l (after_line q) false.
Proof.
  intros Q L Ep. pose proof Q as (M0 & Mt & U0 & Uc & Hma & Hmi & _).
  assert (forall l, request_line q ++ l =
          q_method q ++ 32 :: q_uri q ++ 32 :: render_version q ++ 13 :: 10 :: l) as E.
  { intros l0. unfold request_line, CRLF. by rewrite <- !app_assoc, !app_comm_cons, <- !app_assoc. }
  rewrite E in *. unfold request_line in L. rewrite !length_app in L. cbn [length] in L.
  rewrite !length_app in L. cbn [length] in L. rewrite length_app in L. cbn [length CRLF] in L.
  rewrite run_method; [|done|lia|by eexists]. unfold after_line.
  generalize (default 0 (find_name method_names (q_method q))) as mc. intros mc.
  set (m := Z.of_nat (length (q_method q))) in *.
  rewrite run_uri_field; [|done|done|done|by eapply Forall_impl; [exact Uc|]; intros ? []
                         |rewrite set_i_i; lia|rewrite set_i_i; lia].
  rewrite set_i_i. set (u := Z.of_nat (length (q_uri q))) in *.
  unfold render_version in *.
  rewrite (run_version_field _ _ _ l' _ (q_method q ++ 32 :: q_uri q ++ [32])); try done.
  - rewrite set_i_i. cbn -[Z.add Z.mul replicate].
    replace (m + 1 + u + 1 + 10) with (m + u + 12) by lia.
    by replace (m + 1 + u + 1) with (m + u + 2) by lia.
  - rewrite Ep, <- (app_assoc (q_method q)), <- (app_comm_cons (q_uri q ++ [32])), <- (app_assoc (q_uri q)). done.
  - rewrite set_i_i, length_app. cbn [length]. rewrite length_app. cbn [length]. lia.
Qed.
End Text.

(* ------------------------------------------------------------------ *)
(** ** Lemmas: the store *)

Lemma denotes_ext p r r' st :
  r_headers r' = r_headers r -> r_xheaders r' = r_xheaders r ->
  denotes p r st -> denotes p r' st.
Proof. intros Eh Ex []. split; rewrite ?Eh, ?Ex; done. Qed.

(** The array of extra headers has room for one more. *)
Definition roomy (xh : HttpHeaders) : Prop := xn xh <= xc xh <= 2 * xn xh.

Lemma push_xheader_room h xh :
  xn xh = Z.of_nat (length (xp xh)) -> roomy xh -> xn xh < 2 ^ 30 ->
  exists c, push_xheader (fun _ => true) h xh = Headers (xn xh + 1) c (xp xh ++ [h]) /\
            xn xh + 1 <= c <= 2 * (xn xh + 1).
Proof.
  intros Hn [R1 R2] L. unfold push_xheader.
  assert (forall c, Headers (u32 (xn xh + 1)) c (take (Z.to_nat (xn xh)) (xp xh) ++ [h]) =
                    Headers (xn xh + 1) c (xp xh ++ [h])) as E.
  { intros c. rewrite u32_id by lia. by rewrite Hn, Nat2Z.id, firstn_all. }
  destruct (Z.eqb_spec (xn xh) (xc xh)) as [Ec|]; cbn [xn xc xp].
  - exists (if xc xh =? 0 then 1 else u32 (xc xh * 2)).
    destruct (Z.eqb_spec (xc xh) 0); [|rewrite u32_id by lia];
      (rewrite (proj2 (Z.ltb_lt _ _)) by lia); (split; [apply E|lia]).
  - exists (xc xh). rewrite (proj2 (Z.ltb_lt _ _)) by lia. split; [apply E|lia].
Qed.

(** Writing a slice into the table. *)
Lemma denotes_known p r st h a b v :
  denotes p r st -> 0 <= h < 93 -> 0 < a -> slice p (Slice a b) = v ->
  denotes p (set_headers (<[Z.to_nat h := Slice a b]> (r_headers r)) r)
            (Store (<[h := v]> (known st)) (extra st)).
Proof.
  intros [Dl Dk De Dn Dw] Hh Ha Ev. split; try (by destruct r).
  - destruct r; cbn in *. by rewrite length_insert.
  - intros h' Hh'. cbv zeta. cbn [known]. specialize (Dk h' Hh'). cbv zeta in Dk.
    assert (r_headers (set_headers (<[Z.to_nat h:=Slice a b]> (r_headers r)) r) =
            <[Z.to_nat h:=Slice a b]> (r_headers r)) as -> by (by destruct r).
    destruct (decide (h = h')) as [->|Ne].
    + rewrite lookup_insert, decide_True by done.
      rewrite (nth_lookup_Some _ _ _ (Slice a b)); [done|].
      apply list_lookup_insert_eq. lia.
    + rewrite lookup_insert_ne by done.
      rewrite !nth_lookup, list_lookup_insert_ne by lia. by rewrite nth_lookup in Dk.
Qed.

(** Appending an extra header. *)
Lemma denotes_extra p r st x k v c :
  denotes p r st -> slice p (hk x) = k -> slice p (hv x) = v ->
  slice_wf (Z.of_nat (length p)) (hk x) -> Forall (fun c => is_token c = true) k ->
  denotes p (set_xheaders (Headers (xn (r_xheaders r) + 1) c (xp (r_xheaders r) ++ [x])) r)
            (Store (known st) (extra st ++ [(k, v)])).
Proof.
  intros [Dl Dk De Dn Dw] Ek Ev W T. destruct r; cbn in *. split; cbn; try done.
  - by rewrite map_app, De, <- Ek, <- Ev.
  - rewrite length_app. cbn [length]. lia.
  - apply Forall_app. split; [done|]. constructor; [|constructor]. by rewrite Ek.
Qed.

(** Storing a header adds it to the denoted store. *)
Lemma store_header_denotes p r st k v vb :
  denotes p r st -> roomy (r_xheaders r) -> xn (r_xheaders r) < 2 ^ 30 ->
  0 < r_a r <= vb -> vb <= LIMIT ->
  slice_wf (Z.of_nat (length p)) (r_k r) -> slice p (r_k r) = k ->
  Forall (fun c => is_token c = true) k -> slice p (Slice (r_a r) vb) = v ->
  let r' := store_header (fun _ => true) p r vb in
  denotes p r' (add_header st (k, v)) /\ roomy (r_xheaders r') /\
  xn (r_xheaders r') <= xn (r_xheaders r) + 1.
Proof.
  intros D R N Ha Hb Kw Ek Kt Ev. cbv zeta. unfold store_header.
  rewrite short_slice_id by lia.
  assert (sb (r_k r) - sa (r_k r) = Z.of_nat (length k)) as Lk.
  { destruct Kw as (K1 & K2 & _). rewrite <- Ek. unfold slice.
    rewrite length_take, length_drop. lia. }
  rewrite (GetHttpHeader_word _ _ k); [|by rewrite <- Ek|done|done].
  destruct (push_xheader_room (Header (r_k r) (Slice (r_a r) vb)) (r_xheaders r)
              (den_n _ _ _ D) R N) as (c & -> & Rc).
  assert (let r' := set_xheaders (Headers (xn (r_xheaders r) + 1) c
            (xp (r_xheaders r) ++ [Header (r_k r) (Slice (r_a r) vb)])) r in
          denotes p r' (Store (known st) (extra st ++ [(k, v)])) /\ roomy (r_xheaders r') /\
          xn (r_xheaders r') <= xn (r_xheaders r) + 1) as X.
  { cbv zeta. split; [by apply denotes_extra|]. destruct r; cbn in *. unfold roomy. cbn. lia. }
  unfold add_header. destruct (find_name header_names k) as [h|] eqn:Fk; cbn [from_option id].
  - pose proof (find_header_range _ _ Fk) as Hh.
    rewrite (proj2 (Z.eqb_neq h (-1))) by lia. cbn [negb andb].
    pose proof (den_known _ _ _ D h Hh) as Dh. cbv zeta in Dh.
    assert (let r' := set_headers (<[Z.to_nat h := Slice (r_a r) vb]> (r_headers r)) r in
            denotes p r' (Store (<[h := v]> (known st)) (extra st)) /\
            roomy (r_xheaders r') /\ xn (r_xheaders r') <= xn (r_xheaders r) + 1) as K.
    { cbv zeta. split; [apply denotes_known; done || lia|]. clear - R.
      destruct r; cbn. split; [exact R|lia]. }
    destruct (known st !! h) as [v0|].
    + rewrite (proj2 (Z.eqb_neq _ 0)) by lia. by destruct (kHttpRepeatable h).
    + by rewrite Dh.
  - exact X.
Qed.

Lemma render_header_length kv :
  length (render_header kv) = (length kv.1 + length kv.2 + 4)%nat.
Proof. unfold render_header. rewrite !length_app. cbn [length CRLF]. lia. Qed.

(** All the header lines. *)
Lemma run_headers p hs : forall pre l l' r st,
  Forall header_ok hs -> r_t r = kHttpStateLf1 ->
  p = pre ++ render_headers hs ++ l' -> r_i r = Z.of_nat (length pre) -> pre <> [] ->
  r_i r + Z.of_nat (length (render_headers hs)) <= LIMIT ->
  denotes p r st -> roomy (r_xheaders r) -> xn (r_xheaders r) <= r_i r ->
  exists r', run (fun _ => true) p (render_headers hs ++ l) r false =
             run (fun _ => true) p l r' false /\
    denotes p r' (foldl add_header st hs) /\ r_t r' = kHttpStateLf1 /\
    r_i r' = r_i r + Z.of_nat (length (render_headers hs)) /\
    (r_xmethod r', r_method r', r_uri r', r_version r') =
    (r_xmethod r, r_method r, r_uri r, r_version r).
Proof.
  induction hs as [|kv hs IH]; intros pre l l' r st F Ht Ep Ei Hpre L D R N.
  { exists r. cbn [render_headers app length foldl]. repeat split; try done; try apply D. lia. }
  apply Forall_cons in F as [Fk F]. pose proof Fk as (K0 & Kt & _).
  cbn [render_headers foldl] in *. rewrite <- app_assoc in Ep. rewrite <- app_assoc.
  rewrite length_app in *.
  pose proof (render_header_length kv) as Lk.
  assert (0 < r_i r) as Pos by (destruct pre; [done|cbn in Ei; lia]).
  rewrite (run_header _ _ _ _ (render_headers hs ++ l') _ pre) by (done || lia).
  set (kb := r_i r + Z.of_nat (length kv.1)). set (vb := kb + 2 + Z.of_nat (length kv.2)).
  set (r1 := set_i vb _).
  assert (p = pre ++ kv.1 ++ bstr ": " ++ kv.2 ++ (CRLF ++ render_headers hs ++ l'))
    as Ep' by (rewrite Ep; unfold render_header; by rewrite <- !app_assoc).
  destruct (store_header_denotes p r1 st kv.1 kv.2 vb) as (D' & R' & N').
  - by apply (denotes_ext p r); subst r1; destruct r.
  - by subst r1; destruct r.
  - unfold LIMIT in *. subst r1; destruct r; cbn in *. lia.
  - subst r1; destruct r; cbn in *. lia.
  - lia.
  - assert (Z.of_nat (length p) >= kb) as Lp
      by (rewrite Ep, !length_app; subst kb; lia).
    subst r1; destruct r; unfold slice_wf; cbn in *. lia.
  - rewrite Ep'. subst r1; destruct r; cbn in *. apply slice_mid; [done|lia].
  - eapply Forall_impl; [exact Kt|]. by intros ? [].
  - assert (r_a r1 = kb + 2) as -> by (subst r1; by destruct r).
    rewrite Ep', (app_assoc pre), (app_assoc (pre ++ _)).
    apply slice_mid; rewrite ?length_app; cbn [length]; subst kb vb; lia.
  - set (r2 := store_header _ p r1 vb) in *.
    pose proof (store_header_i (fun _ => true) p r1 vb) as Hi2.
    destruct (IH (pre ++ render_header kv) l l'
                (set_i (vb + 2) (set_t kHttpStateLf1 r2)) (add_header st kv))
      as (r' & Er & D2 & T2 & I2 & E2); try done.
    + by destruct r2.
    + by rewrite Ep, <- app_assoc.
    + rewrite set_i_i, length_app. subst vb kb. lia.
    + by destruct pre.
    + rewrite set_i_i. subst vb kb. lia.
    + destruct kv. apply (denotes_ext p r2); by destruct r2.
    + by destruct r2.
    + rewrite set_i_i. assert (xn (r_xheaders r1) = xn (r_xheaders r)) as E
        by (subst r1; by destruct r).
      assert (forall i t, xn (r_xheaders (set_i i (set_t t r2))) = xn (r_xheaders r2)) as E'
        by (by destruct r2).
      rewrite E'. subst vb kb. lia.
    + exists r'. rewrite Er. split; [done|]. split; [done|]. split; [done|].
      rewrite I2, set_i_i. split; [subst vb kb; lia|]. rewrite E2. subst r2 r1.
      unfold store_header. destruct (_ && _); by destruct r.
Qed.

Lemma denotes_init p : denotes p (InitHttpMessage kHttpRequest) (Store ∅ []).
Proof.
  split; try done. intros h Hh. cbv zeta. cbn [known r_headers InitHttpMessage].
  rewrite lookup_empty, nth_lookup, lookup_replicate_2; [done|].
  change (Z.to_nat kHttpHeadersMax) with 93%nat. lia.
Qed.

(** Bytes, so that [& 0xff] is the identity on a rendered request. *)
Lemma render_bytes q : request_ok q -> Bytes (render q).
Proof.
  intros (_ & Mt & _ & Uc & Hma & Hmi & Hh). unfold render, render_version, CRLF.
  assert (forall l : bytes, forallb (fun c => (0 <=? c) && (c <? 256)) l = true -> Bytes l) as B.
  { intros l Hl. apply Forall_forall. intros x Hx. rewrite forallb_forall in Hl.
    apply list_elem_of_In, Hl in Hx. unfold is_byte. lia. }
  assert (forall P (l : bytes), Forall (fun c => is_byte c /\ P c = true) l -> Bytes l) as C.
  { intros P l Hl. eapply Forall_impl; [exact Hl|]. by intros ? []. }
  rewrite !Forall_app. repeat split; try (by eapply C); try (by apply B).
  - repeat constructor; lia.
  - induction (q_headers q) as [|kv hs IH]; [constructor|].
    apply Forall_cons in Hh as [(_ & Kt & Vc & _) Hh]. cbn [render_headers].
    unfold render_header, CRLF. rewrite !Forall_app.
    repeat split; try (by eapply C); try (by apply B). by apply IH.
Qed.

Lemma rest_0 p n :
  Bytes (take (Z.to_nat n) p) -> rest p n 0 = take (Z.to_nat n) p.
Proof.
  intros B. unfold rest. rewrite drop_0, Z.sub_0_r.
  induction B as [|x l Hx _ IH]; [done|]. cbn [map]. rewrite IH. f_equal.
  rewrite land_255. by apply Z.mod_small.
Qed.

(** The automaton over a rendered request. *)
Lemma run_render q tail :
  request_ok q -> Z.of_nat (length (render q)) <= LIMIT ->
  let p := render q ++ tail in
  exists r, run (fun _ => true) p (render q) (InitHttpMessage kHttpRequest) false =
            Ret (Z.of_nat (length (render q))) r /\
    denotes p r (request_store q) /\
    (r_xmethod r, r_method r, r_uri r, r_version r) =
    (r_xmethod (after_line q), r_method (after_line q),
     r_uri (after_line q), r_version (after_line q)).
Proof.
  intros Q L. cbv zeta. set (p := render q ++ tail).
  assert (render q = request_line q ++ render_headers (q_headers q) ++ CRLF) as E.
  { unfold render, request_line.
    by rewrite <- !app_assoc, <- !app_comm_cons, <- !app_assoc. }
  rewrite E, !length_app in L. 
  assert (Z.of_nat (length (request_line q)) = r_i (after_line q)) as Li.
  { unfold request_line, after_line. cbn [r_i]. rewrite !length_app. cbn [length].
    rewrite length_app. cbn [length]. rewrite length_app. cbn. lia. }
  assert (p = request_line q ++ render_headers (q_headers q) ++ CRLF ++ tail) as Ep
    by (subst p; by rewrite E, <- !app_assoc).
  rewrite E. rewrite (run_request_line _ _ _ _ (render_headers (q_headers q) ++ CRLF ++ tail))
    by (exact Ep || exact Q || lia).
  destruct (run_headers p (q_headers q) (request_line q) CRLF (CRLF ++ tail) (after_line q)
              (Store ∅ [])) as (r' & -> & D & T & I & Em); try done.
  - apply Q.
  - unfold request_line. destruct Q as (M0 & _). by destruct (q_method q).
  - cbn [length CRLF] in L. lia.
  - by apply (denotes_ext p (InitHttpMessage kHttpRequest)), denotes_init.
  - unfold after_line. cbn [r_xheaders r_i xn]. lia.
  - exists (set_i (r_i r' + 1 + 1) (set_t kHttpStateLf2 r')).
    split; [|split; [by apply (denotes_ext p r'); destruct r'|by destruct r']].
    clear D Em Ep E. unfold CRLF. rewrite run_cons. unfold step at 1, parse_case. rewrite T.
    cbn [Z.eqb Pos.eqb]. rewrite run_cons. rewrite !length_app. cbn [length CRLF].
    destruct r'; cbn -[Z.add Z.of_nat Nat.add] in *. f_equal. lia.
Qed.

(* ------------------------------------------------------------------ *)
(** ** Lemmas: the readers *)

Lemma memmem_spec needle hay :
  memmem hay needle = true <-> exists a b, hay = a ++ needle ++ b.
Proof.
  induction hay as [|c hay IH]; cbn [memmem]; rewrite orb_true_iff, bool_decide_eq_true.
  - split.
    + intros [[b E]|?]; [|done]. by exists [], b.
    + intros (a & b & E). left. symmetry in E. apply app_eq_nil in E as [_ E].
      apply app_eq_nil in E as [-> _]. apply prefix_nil.
  - rewrite IH. split.
    + intros [[b E]|(a & b & E)]; [by exists [], b|]. exists (c :: a), b. by rewrite E.
    + intros ([|x a] & b & E); [left; by exists b|right]. cbn in E. simplify_eq. by exists a, b.
Qed.

(** The values a request gives to the header [h]; of a header that may not be repeated
    only the last one counts. *)
Definition all_values (q : request) (h : Z) : list bytes :=
  omap (fun kv => if decide (find_name header_names kv.1 = Some h) then Some kv.2 else None)
       (q_headers q).

Definition field_values (q : request) (h : Z) : list bytes :=
  if kHttpRepeatable h then all_values q h
  else match last (all_values q h) with Some v => [v] | None => [] end.

(** Names of known headers overflow only if they may be repeated, and only when the
    static slice is taken. *)
Definition store_ok (st : store) : Prop :=
  forall k v h, (k, v) ∈ extra st -> find_name header_names k = Some h ->
  is_Some (known st !! h) /\ kHttpRepeatable h = true.

Lemma values_nil st h :
  store_ok st -> (known st !! h = None \/ kHttpRepeatable h = false) ->
  omap (fun kv => if decide (find_name header_names kv.1 = Some h)
                  then Some kv.2 else None) (extra st) = [].
Proof.
  intros S H. unfold store_ok in S. induction (extra st) as [|[k v] xs IH]; [done|].
  cbn [omap list_omap fst]. destruct (decide _) as [F|].
  - destruct (S k v h (list_elem_of_here _ _) F) as [[? K] R].
    destruct H; congruence.
  - apply IH. intros k' v' h' Hin. apply (S k' v'). by apply list_elem_of_further.
Qed.

Lemma add_header_ok st kv : store_ok st -> store_ok (add_header st kv).
Proof.
  destruct kv as [k v]. intros S k' v' h' Hin F. cbn [add_header] in *.
  destruct (find_name header_names k) as [h|] eqn:Fk.
  - destruct (known st !! h) as [v0|] eqn:K; [destruct (kHttpRepeatable h) eqn:R|];
      cbn [extra known] in *.
    + apply elem_of_app in Hin as [Hin|Hin]; [by eapply S|].
      apply list_elem_of_singleton in Hin. simplify_eq. split; [by eexists|done].
    + destruct (S _ _ _ Hin F). split; [|done].
      rewrite lookup_insert. by destruct (decide (h = h')).
    + destruct (S _ _ _ Hin F). split; [|done].
      rewrite lookup_insert. by destruct (decide (h = h')).
  - cbn [extra known] in *. apply elem_of_app in Hin as [Hin|Hin]; [by eapply S|].
    apply list_elem_of_singleton in Hin. simplify_eq.
Qed.

(** One more header, seen by the readers. *)
Lemma values_add st k v h :
  store_ok st ->
  values (add_header st (k, v)) h =
  if decide (find_name header_names k = Some h)
  then if kHttpRepeatable h then values st h ++ [v] else [v]
  else values st h.
Proof.
  intros S. unfold values. destruct (find_name header_names k) as [h0|] eqn:Fk.
  - destruct (decide (h0 = h)) as [->|Ne].
    + rewrite decide_True by done. unfold add_header. rewrite Fk.
      destruct (known st !! h) as [v0|] eqn:K; [destruct (kHttpRepeatable h) eqn:R|];
        cbn [known extra].
      * rewrite K, omap_app. cbn [omap list_omap fst snd app]. by rewrite decide_True.
      * rewrite lookup_insert, decide_True by done. by rewrite values_nil by auto.
      * rewrite lookup_insert, decide_True by done. rewrite values_nil by auto.
        by destruct (kHttpRepeatable h).
    + rewrite decide_False by congruence. unfold add_header. rewrite Fk.
      assert (omap (fun kv : bytes * bytes => if decide (find_name header_names kv.1 = Some h)
                then Some kv.2 else None) [(k, v)] = []) as O.
      { cbn [omap list_omap fst]. rewrite decide_False by congruence. done. }
      destruct (known st !! h0) as [v0|]; [destruct (kHttpRepeatable h0)|]; cbn [known extra];
        rewrite ?lookup_insert_ne by done; [|done|done].
      rewrite omap_app, O, app_nil_r. done.
  - rewrite decide_False by done. unfold add_header. rewrite Fk. cbn [known extra].
    rewrite omap_app. cbn [omap list_omap fst]. rewrite Fk, decide_False by done.
    by rewrite app_nil_r.
Qed.

Lemma values_request q h :
  values (request_store q) h = field_values q h /\ store_ok (request_store q).
Proof.
  unfold request_store, field_values, all_values.
  induction (q_headers q) as [|[k v] hs IH] using rev_ind.
  - split; [|by intros k v h' Hin; apply not_elem_of_nil in Hin].
    unfold values. cbn [foldl known]. rewrite lookup_empty. by destruct (kHttpRepeatable h).
  - destruct IH as [IH S]. rewrite foldl_snoc. split; [|by apply add_header_ok].
    rewrite values_add, IH, omap_app by done. cbn [omap list_omap fst snd].
    destruct (decide _); [|by rewrite app_nil_r].
    destruct (kHttpRepeatable h); [done|]. by rewrite last_snoc.
Qed.

(** The name of an extra header, looked up. *)
Lemma extra_name p r st x h :
  denotes p r st -> x ∈ xp (r_xheaders r) -> 0 <= h ->
  (GetHttpHeader (drop (Z.to_nat (sa (hk x))) p) (sb (hk x) - sa (hk x)) =? h) =
  bool_decide (find_name header_names (slice p (hk x)) = Some h).
Proof.
  intros D Hx Hh. pose proof (den_wf _ _ _ D) as W. rewrite Forall_forall in W.
  destruct (W x Hx) as [(W1 & W2 & _) T].
  rewrite (GetHttpHeader_word _ _ (slice p (hk x))); [|done| |done].
  - destruct (find_name _ _) as [h'|]; cbn [from_option id]; case_bool_decide;
      [simplify_eq; apply Z.eqb_refl|apply Z.eqb_neq; congruence|done|lia].
  - unfold slice. rewrite length_take, length_drop. lia.
Qed.

Lemma HeaderHas_values p r st h s n :
  denotes p r st -> store_ok st -> 0 <= h < 93 ->
  HeaderHas r p h s n = existsb (fun v => memmem v (strarg s n)) (values st h).
Proof.
  intros D S Hh. unfold HeaderHas, values. pose proof (den_known _ _ _ D h Hh) as Dh.
  cbv zeta in *. rewrite (den_n _ _ _ D), Nat2Z.id, firstn_all.
  destruct (known st !! h) as [v|] eqn:K; [|by rewrite Dh].
  destruct Dh as [Pa ->]. rewrite (proj2 (Z.eqb_neq _ 0)) by lia. cbn [negb existsb].
  destruct (memmem v _); [done|]. cbn [orb].
  destruct (kHttpRepeatable h) eqn:R; [|by rewrite values_nil by auto].
  rewrite <- (den_extra _ _ _ D). 
  assert (forall xs, (forall x, x ∈ xs -> x ∈ xp (r_xheaders r)) ->
    existsb (fun x => (GetHttpHeader (drop (Z.to_nat (sa (hk x))) p) (sb (hk x) - sa (hk x)) =? h)
      && memmem (slice p (hv x)) (strarg s n)) xs =
    existsb (fun v => memmem v (strarg s n))
      (omap (fun kv => if decide (find_name header_names kv.1 = Some h) then Some kv.2 else None)
         (map (fun x => (slice p (hk x), slice p (hv x))) xs))) as E; [|by apply E].
  induction xs as [|x xs IH]; intros Hin; [done|].
  cbn [existsb map omap list_omap fst snd].
  rewrite (extra_name p r st) by (try apply Hin, list_elem_of_here; done || lia).
  rewrite IH by (intros y Hy; by apply Hin, list_elem_of_further).
  case_bool_decide; destruct (decide _); done.
Qed.

(** Values separated by a comma and a space. *)
Definition commas (vs : list bytes) : bytes :=
  match vs with
  | [] => []
  | v :: vs => foldl (fun out v => out ++ bstr ", " ++ v) v vs
  end.

Lemma FoldHeader_values p r st h :
  denotes p r st -> store_ok st -> 0 <= h < 93 ->
  FoldHeader (fun _ => true) (fun _ => true) r p h = Some (commas (values st h)).
Proof.
  intros D S Hh. unfold FoldHeader, values. pose proof (den_known _ _ _ D h Hh) as Dh.
  cbv zeta in *. rewrite (den_n _ _ _ D), Nat2Z.id, firstn_all.
  assert (forall xs out, (forall x, x ∈ xs -> x ∈ xp (r_xheaders r)) ->
    fold_loop (fun _ => true) p h xs out =
    Some (foldl (fun out v => out ++ bstr ", " ++ v) out
      (omap (fun kv => if decide (find_name header_names kv.1 = Some h) then Some kv.2 else None)
         (map (fun x => (slice p (hk x), slice p (hv x))) xs)))) as E.
  { induction xs as [|x xs IH]; intros out Hin; [done|].
    cbn [fold_loop map omap list_omap fst snd].
    rewrite (extra_name p r st) by (try apply Hin, list_elem_of_here; done || lia).
    rewrite !IH by (intros y Hy; by apply Hin, list_elem_of_further).
    case_bool_decide; destruct (decide _); done. }
  rewrite E, (den_extra _ _ _ D) by done.
  destruct (known st !! h) as [v|] eqn:K; [by destruct Dh as [_ ->]|].
  by rewrite values_nil, Dh by auto.
Qed.


(** The parser over a rendered request. *)
Lemma parse_render q tail n :
  request_ok q -> Z.of_nat (length (render q)) <= LIMIT ->
  Z.of_nat (length (render q)) <= n <= Z.of_nat (length (render q ++ tail)) ->
  let p := render q ++ tail in
  exists r, ParseHttpMessage (fun _ => true) p (InitHttpMessage kHttpRequest) n =
            Some (Z.of_nat (length (render q)), r) /\
    denotes p r (request_store q) /\
    (r_xmethod r, r_method r, r_uri r, r_version r) =
    (r_xmethod (after_line q), r_method (after_line q),
     r_uri (after_line q), r_version (after_line q)).
Proof.
  intros Q L Hn. cbv zeta. destruct (run_render q tail Q L) as (r & R & D & E).
  set (p := render q ++ tail) in *. exists r. split; [|by split].
  unfold ParseHttpMessage. rewrite (parse_loop_run _ p) with (sc := false);
    [|lia|done|cbn; lia|by right].
  cbn [r_i InitHttpMessage].
  rewrite (rest_split p (Z.of_nat (length (render q)))) by (try lia).
  rewrite run_app, rest_0; subst p; rewrite Nat2Z.id, take_app_length.
  - by rewrite R.
  - by apply render_bytes.
Qed.

(* ------------------------------------------------------------------ *)
(** ** Properties *)

(** C1: parsing undoes printing. For every request whose method and header names are tokens,
    whose URI and header values hold no control codes, and whose text fits the size limit,
    the parser fed with the text, whatever follows it in the buffer, consumes exactly the
    text; the recorded slices are the method, the URI and the headers of the request, the
    method code and the version are right, and the header table together with the overflow
    list denote the map obtained by adding the headers one by one. *)
Theorem ParseHttpMessage_render q tail n :
  request_ok q -> Z.of_nat (length (render q)) <= LIMIT ->
  Z.of_nat (length (render q)) <= n <= Z.of_nat (length (render q ++ tail)) ->
  let p := render q ++ tail in
  exists r, ParseHttpMessage (fun _ => true) p (InitHttpMessage kHttpRequest) n =
            Some (Z.of_nat (length (render q)), r) /\
    slice p (r_xmethod r) = q_method q /\
    r_method r = default 0 (find_name method_names (q_method q)) /\
    slice p (r_uri r) = q_uri q /\
    r_version r = 10 * q_major q + q_minor q /\
    denotes p r (request_store q).
Proof.
  intros Q L Hn. cbv zeta. destruct (parse_render q tail n Q L Hn) as (r & R & D & E).
  set (p := render q ++ tail) in *. exists r.
  unfold after_line in E. cbn [r_xmethod r_method r_uri r_version] in E.
  injection E as E1 E2 E3 E4. rewrite E1, E2, E3, E4. split; [done|]. split; [|split; [done|split; [|done]]].
  - subst p. unfold render. rewrite <- !app_assoc. apply (slice_mid []); [done|lia].
  - subst p. unfold render.
    rewrite <- !app_assoc, (app_assoc (q_method q)).
    apply slice_mid; rewrite ?length_app; cbn [length]; lia.
Qed.

(** A request with a repeated header. *)
Definition sample_request : request :=
  Request (bstr "GET") (bstr "/x") 1 1
    [(bstr "Host", bstr "a.example"); (bstr "Accept", bstr "b"); (bstr "accept", bstr "c")].

Lemma sample_request_ok : request_ok sample_request.
Proof.
  split; [done|]. split; [decide_now|]. split; [done|]. split; [decide_now|].
  split; [cbn; lia|]. split; [cbn; lia|]. repeat constructor; try done; decide_now.
Qed.

Lemma ParseHttpMessage_render_witness :
  exists r, ParseHttpMessage (fun _ => true) (render sample_request ++ bstr "body")
              (InitHttpMessage kHttpRequest) 60 = Some (58, r) /\
            denotes (render sample_request ++ bstr "body") r (request_store sample_request).
Proof.
  destruct (ParseHttpMessage_render sample_request (bstr "body") 60)
    as (r & H & _ & _ & _ & _ & D).
  - apply sample_request_ok.
  - vm_compute; congruence.
  - vm_compute; split; congruence.
  - exists r. split; [exact H|exact D].
Defined.

(** reading headers back. After a request was parsed, HeaderHas answers whether the text
    occurs in one of the values the request gives to the header, and FoldHeader returns
    these values joined by commas: all of them, in order, for a header that may be repeated,
    and the last one otherwise. *)
Theorem HeaderHas_FoldHeader_request q tail n h s m v r :
  request_ok q -> Z.of_nat (length (render q)) <= LIMIT ->
  Z.of_nat (length (render q)) <= n <= Z.of_nat (length (render q ++ tail)) ->
  let p := render q ++ tail in
  ParseHttpMessage (fun _ => true) p (InitHttpMessage kHttpRequest) n = Some (v, r) ->
  0 <= h < 93 ->
  (HeaderHas r p h s m = true <->
   exists x a b, x ∈ field_values q h /\ x = a ++ strarg s m ++ b) /\
  FoldHeader (fun _ => true) (fun _ => true) r p h = Some (commas (field_values q h)).
Proof.
  intros Q L Hn p H Hh. destruct (parse_render q tail n Q L Hn) as (r0 & H0 & D & _).
  fold p in H0, D. rewrite H in H0. injection H0 as _ <-.
  destruct (values_request q h) as [V S].
  rewrite (HeaderHas_values p r _ h s m D S Hh), (FoldHeader_values p r _ h D S Hh), V.
  split; [|done]. rewrite existsb_exists. split.
  - intros (x & Hx & M). apply memmem_spec in M as (a & b & E).
    exists x, a, b. split; [by apply list_elem_of_In|done].
  - intros (x & a & b & Hx & E). exists x. split; [by apply list_elem_of_In|].
    apply memmem_spec. by exists a, b.
Qed.

Lemma HeaderHas_FoldHeader_request_witness :
  exists v r, ParseHttpMessage (fun _ => true) (render sample_request ++ [])
                (InitHttpMessage kHttpRequest) 58 = Some (v, r) /\
  FoldHeader (fun _ => true) (fun _ => true) r (render sample_request ++ []) kHttpAccept =
  Some (bstr "b, c").
Proof.
  destruct (ParseHttpMessage _ _ _ _) as [[v r]|] eqn:E; [|vm_compute in E; done].
  exists v, r. split; [done|].
  refine (proj2 (HeaderHas_FoldHeader_request sample_request [] 58 kHttpAccept None 0 v r
                   sample_request_ok _ _ E _)).
  - vm_compute; congruence.
  - vm_compute; split; congruence.
  - vm_compute; split; congruence.
Defined.
