(* ===== verification/Unchunk.v ===== *)
(** Chunked transfer coding: net/http/unchunk.c over struct HttpUnchunker of
    net/http/http.h, which removes the coding from a message body in place. *)

From S2P Require Import Prelude Tables.

(* ------------------------------------------------------------------ *)
(** ** Data *)

Inductive ChunkState :=
| kHttpStateChunkStart | kHttpStateChunkSize | kHttpStateChunkExt | kHttpStateChunkLf1
| kHttpStateChunk | kHttpStateChunkCr2 | kHttpStateChunkLf2
| kHttpStateTrailerStart | kHttpStateTrailer | kHttpStateTrailerLf1 | kHttpStateTrailerLf2.

#[global] Instance ChunkState_eq_dec : EqDecision ChunkState.
Proof. solve_decision. Defined.

Record HttpUnchunker := Unchunker { u_t : ChunkState; u_i : Z; u_j : Z; u_m : Z }.

(** [memcpy] to position [j]. *)
Definition write (p : bytes) (j : Z) (b : bytes) : bytes :=
  take (Z.to_nat j) p ++ b ++ drop (Z.to_nat j + length b) p.

(** [memmove(p + dst, p + src, s)] *)
Definition memmove (p : bytes) (dst src s : Z) : bytes :=
  write p dst (take (Z.to_nat s) (drop (Z.to_nat src) p)).

(* ------------------------------------------------------------------ *)
(** ** The loop *)

(** How a round of the loop ends: with the next round, with an error, or finished. *)
Inductive round :=
| Again (u : HttpUnchunker) (p : bytes)
| Bad (u : HttpUnchunker) (p : bytes)
| Finished (u : HttpUnchunker) (p : bytes).

Definition set_chunk_t (t : ChunkState) (u : HttpUnchunker) : HttpUnchunker :=
  Unchunker t (u_i u) (u_j u) (u_m u).
Definition set_chunk_m (m : Z) (u : HttpUnchunker) : HttpUnchunker :=
  Unchunker (u_t u) (u_i u) (u_j u) m.

(** The cases of the [switch] that others fall through to. *)
Definition chunk_lf1 (u : HttpUnchunker) (p : bytes) (c : Z) : round :=
  if negb (c =? 10) then Bad u p
  else Again (set_chunk_t (if negb (u_m u =? 0) then kHttpStateChunk else kHttpStateTrailerStart) u) p.

Definition chunk_ext (u : HttpUnchunker) (p : bytes) (c : Z) : round :=
  if c =? 13 then Again (set_chunk_t kHttpStateChunkLf1 u) p
  else if negb (c =? 10) then Again u p
  else chunk_lf1 u p c.

Definition chunk_lf2 (u : HttpUnchunker) (p : bytes) (c : Z) : round :=
  if negb (c =? 10) then Bad u p else Again (set_chunk_t kHttpStateChunkStart u) p.

Definition trailer_lf1 (u : HttpUnchunker) (p : bytes) (c : Z) : round :=
  if negb (c =? 10) then Bad u p else Again (set_chunk_t kHttpStateTrailerStart u) p.

Definition trailer (u : HttpUnchunker) (p : bytes) (c : Z) : round :=
  if c =? 13 then Again (set_chunk_t kHttpStateTrailerLf1 u) p
  else if negb (c =? 10) then Again u p
  else trailer_lf1 u p c.

(** A byte of chunk data, and all that the buffer has of the rest of the chunk. *)
Definition chunk_data (u : HttpUnchunker) (p : bytes) (n : Z) (c : Z) : round :=
  let p := write p (u_j u) [c] in
  let j := u_j u + 1 in
  let m := u_m u - 1 in
  let s := Z.min (u64 m) (n - u_i u) in
  let p := memmove p j (u_i u) s in
  let m := m - s in
  Again (Unchunker (if m =? 0 then kHttpStateChunkCr2 else u_t u) (u_i u + s) (j + s) m) p.

(** The [switch (u->t)], behind [c = p[u->i++] & 255]. *)
Definition unchunk_case (u : HttpUnchunker) (p : bytes) (n : Z) (c : Z) : round :=
  match u_t u with
  | kHttpStateChunkStart =>
      let u := set_chunk_m (tab kHexToInt c) u in
      if u_m u =? -1 then Bad u p else Again (set_chunk_t kHttpStateChunkSize u) p
  | kHttpStateChunkSize =>
      let h := tab kHexToInt c in
      if negb (h =? -1) then
        let u := set_chunk_m (s64 (u_m u * 16)) u in
        let u := set_chunk_m (s64 (u_m u + h)) u in
        if u_m u >=? 0x0000010000000000 then Bad u p else Again u p
      else chunk_ext (set_chunk_t kHttpStateChunkExt u) p c
  | kHttpStateChunkExt => chunk_ext u p c
  | kHttpStateChunkLf1 => chunk_lf1 u p c
  | kHttpStateChunk => chunk_data u p n c
  | kHttpStateChunkCr2 =>
      if c =? 13 then Again (set_chunk_t kHttpStateChunkLf2 u) p else chunk_lf2 u p c
  | kHttpStateChunkLf2 => chunk_lf2 u p c
  | kHttpStateTrailerStart =>
      if c =? 13 then Again (set_chunk_t kHttpStateTrailerLf2 u) p
      else if c =? 10 then Finished u p
      else trailer (set_chunk_t kHttpStateTrailer u) p c
  | kHttpStateTrailer => trailer u p c
  | kHttpStateTrailerLf1 => trailer_lf1 u p c
  | kHttpStateTrailerLf2 => if negb (c =? 10) then Bad u p else Finished u p
  end.

(** What a call returns: the result, the state, the buffer, and what was stored
    through [l]. *)
Abbreviation unchunked := (Z * HttpUnchunker * bytes * option Z)%type.

Fixpoint unchunk_loop (fuel : nat) (u : HttpUnchunker) (p : bytes) (n : Z) (l : bool)
  : option unchunked :=
  if u_i u <? n then
    match fuel with
    | O => None
    | S fuel =>
        let c := Z.land (tab p (u_i u)) 255 in
        match unchunk_case (Unchunker (u_t u) (u_i u + 1) (u_j u) (u_m u)) p n c with
        | Again u p => unchunk_loop fuel u p n l
        | Bad u p => Some (-1, u, p, None)
        | Finished u p =>
            Some (u_i u, u, if u_j u <? n then write p (u_j u) [0] else p,
                  if l then Some (u_j u) else None)
        end
    end
  else Some (0, u, p, None).

(** [l] says whether the last argument is not null. [None] would mean that the fuel of
    one round per byte did not suffice. *)
Definition Unchunk (u : HttpUnchunker) (p : bytes) (n : Z) (l : bool) : option unchunked :=
  unchunk_loop (S (Z.to_nat (n - u_i u))) u p n l.

(* ------------------------------------------------------------------ *)
(** ** The contract: a transducer that reads one byte at a time *)

Inductive verdict :=
| Need (t : ChunkState) (m : Z) (out : bytes)
| Done (t : ChunkState) (m : Z) (out : bytes) (rest : bytes)
| Malformed.

Definition emit (b : bytes) (v : verdict) : verdict :=
  match v with
  | Need t m out => Need t m (b ++ out)
  | Done t m out rest => Done t m (b ++ out) rest
  | Malformed => Malformed
  end.

(** Where the bytes that are not data lead; [inl true] is the end of the body and
    [inl false] an error. *)
Definition control (t : ChunkState) (m : Z) (c : Z) : bool + (ChunkState * Z) :=
  let after_size := if m =? 0 then kHttpStateTrailerStart else kHttpStateChunk in
  let ext := if c =? 13 then kHttpStateChunkLf1
             else if c =? 10 then after_size else kHttpStateChunkExt in
  let line := if c =? 13 then kHttpStateTrailerLf1
              else if c =? 10 then kHttpStateTrailerStart else kHttpStateTrailer in
  match t with
  | kHttpStateChunkStart =>
      if tab kHexToInt c =? -1 then inl false else inr (kHttpStateChunkSize, tab kHexToInt c)
  | kHttpStateChunkSize =>
      if tab kHexToInt c =? -1 then inr (ext, m)
      else if 16 * m + tab kHexToInt c <? 2 ^ 40
      then inr (kHttpStateChunkSize, 16 * m + tab kHexToInt c) else inl false
  | kHttpStateChunkExt => inr (ext, m)
  | kHttpStateChunkLf1 => if c =? 10 then inr (after_size, m) else inl false
  | kHttpStateChunk => inl false
  | kHttpStateChunkCr2 =>
      if c =? 13 then inr (kHttpStateChunkLf2, m)
      else if c =? 10 then inr (kHttpStateChunkStart, m) else inl false
  | kHttpStateChunkLf2 => if c =? 10 then inr (kHttpStateChunkStart, m) else inl false
  | kHttpStateTrailerStart =>
      if c =? 13 then inr (kHttpStateTrailerLf2, m)
      else if c =? 10 then inl true else inr (line, m)
  | kHttpStateTrailer => inr (line, m)
  | kHttpStateTrailerLf1 => if c =? 10 then inr (kHttpStateTrailerStart, m) else inl false
  | kHttpStateTrailerLf2 => inl (c =? 10)
  end.

Fixpoint dechunk (t : ChunkState) (m : Z) (l : bytes) : verdict :=
  match l with
  | [] => Need t m []
  | c :: l =>
      match t with
      | kHttpStateChunk =>
          emit [c] (dechunk (if m =? 1 then kHttpStateChunkCr2 else kHttpStateChunk) (m - 1) l)
      | _ =>
          match control t m c with
          | inr (t, m) => dechunk t m l
          | inl true => Done t m [] l
          | inl false => Malformed
          end
      end
  end.

(* ------------------------------------------------------------------ *)
(** ** Lemmas: buffers *)

Lemma write_length p j b :
  0 <= j -> j + Z.of_nat (length b) <= Z.of_nat (length p) ->
  length (write p j b) = length p.
Proof. intros. unfold write. rewrite !length_app, length_take, length_drop. lia. Qed.

Lemma write_nil p j : write p j [] = p.
Proof. unfold write. cbn [length app]. rewrite Nat.add_0_r. apply take_drop. Qed.

(** Writing in two pieces. *)
Lemma write_write p j a b :
  0 <= j -> j + Z.of_nat (length a) <= Z.of_nat (length p) ->
  write (write p j a) (j + Z.of_nat (length a)) b = write p j (a ++ b).
Proof.
  intros Hj L. unfold write.
  assert (Z.to_nat (j + Z.of_nat (length a)) = length (take (Z.to_nat j) p ++ a)) as E.
  { rewrite length_app, length_take. lia. }
  rewrite E, (app_assoc (take _ p)), take_app_length, drop_app.
  rewrite (drop_ge (take _ p ++ a)) by lia. cbn [app].
  rewrite drop_drop, length_app, <- !app_assoc. do 4 f_equal. rewrite length_app. lia.
Qed.

(** Bytes behind the written ones are untouched. *)
Lemma write_drop p j b i :
  0 <= j -> j + Z.of_nat (length b) <= i -> i <= Z.of_nat (length p) ->
  drop (Z.to_nat i) (write p j b) = drop (Z.to_nat i) p.
Proof.
  intros Hj Hi L. unfold write.
  rewrite drop_app, drop_ge, length_take by (rewrite length_take; lia). cbn [app].
  rewrite drop_app, drop_ge by lia. cbn [app]. rewrite drop_drop. f_equal. lia.
Qed.

Lemma write_bytes p j b : Bytes p -> Bytes b -> Bytes (write p j b).
Proof.
  intros Hp Hb. unfold write. rewrite !Forall_app.
  split; [by apply Forall_take|]. split; [done|by apply Forall_drop].
Qed.

(** The bytes from [i] to [n]. *)
Definition range (p : bytes) (i n : Z) : bytes :=
  take (Z.to_nat (n - i)) (drop (Z.to_nat i) p).

Lemma range_write p j b i n :
  0 <= j -> j + Z.of_nat (length b) <= i -> i <= Z.of_nat (length p) ->
  range (write p j b) i n = range p i n.
Proof. intros. unfold range. by rewrite write_drop. Qed.

Lemma range_nil p i n : n <= i -> range p i n = [].
Proof. intros. unfold range. by replace (Z.to_nat (n - i)) with O by lia. Qed.

Lemma range_cons p i n :
  0 <= i < n -> n <= Z.of_nat (length p) -> range p i n = tab p i :: range p (i + 1) n.
Proof.
  intros Hi Hn. unfold range, tab.
  replace (Z.to_nat (n - i)) with (S (Z.to_nat (n - (i + 1)))) by lia.
  replace (Z.to_nat (i + 1)) with (S (Z.to_nat i)) by lia.
  rewrite (drop_S p (nth (Z.to_nat i) p 0)); [done|].
  destruct (nth_lookup_or_length p (Z.to_nat i) 0); [done|lia].
Qed.

Lemma range_split p i j n :
  0 <= i <= j -> j <= n -> range p i n = range p i j ++ range p j n.
Proof.
  intros Hi Hj. unfold range.
  replace (Z.to_nat (n - i)) with (Z.to_nat (j - i) + Z.to_nat (n - j))%nat by lia.
  rewrite <- take_take_drop, drop_drop. do 3 f_equal. lia.
Qed.

Lemma range_length p i n :
  0 <= i <= n -> n <= Z.of_nat (length p) -> Z.of_nat (length (range p i n)) = n - i.
Proof. intros. unfold range. rewrite length_take, length_drop. lia. Qed.

Lemma range_bytes p i n : Bytes p -> Bytes (range p i n).
Proof. intros. by apply Forall_take, Forall_drop. Qed.

(* ------------------------------------------------------------------ *)
(** ** Lemmas: the transducer *)

Lemma emit_emit a b v : emit a (emit b v) = emit (a ++ b) v.
Proof. destruct v; cbn; by rewrite ?app_assoc. Qed.

Lemma emit_nil v : emit [] v = v.
Proof. by destruct v. Qed.

(** What follows the data of a chunk of which [k] more bytes are due. *)
Definition after_data (k : Z) : ChunkState :=
  if k =? 0 then kHttpStateChunkCr2 else kHttpStateChunk.

Lemma dechunk_data b : forall m l,
  b <> [] -> Z.of_nat (length b) <= m ->
  dechunk kHttpStateChunk m (b ++ l) =
  emit b (dechunk (after_data (m - Z.of_nat (length b))) (m - Z.of_nat (length b)) l).
Proof.
  induction b as [|c b IH]; intros m l Hb L; [done|]. cbn [app dechunk length] in *.
  destruct b as [|c' b].
  - cbn [app length]. unfold after_data.
    change (Z.of_nat 1) with 1.
    destruct (Z.eqb_spec m 1), (Z.eqb_spec (m - 1) 0); (lia || done).
  - rewrite (proj2 (Z.eqb_neq m 1)) by (cbn [length] in L; lia).
    rewrite IH by (done || lia). rewrite emit_emit. cbn [app].
    by replace (m - 1 - Z.of_nat (length (c' :: b)))
      with (m - Z.of_nat (S (length (c' :: b)))) by lia.
Qed.

Lemma dechunk_app l1 : forall t m l2,
  dechunk t m (l1 ++ l2) =
  match dechunk t m l1 with
  | Need t' m' out => emit out (dechunk t' m' l2)
  | Done t' m' out rest => Done t' m' out (rest ++ l2)
  | Malformed => Malformed
  end.
Proof.
  induction l1 as [|c l1 IH]; intros t m l2; [cbn; by rewrite emit_nil|]. cbn [app dechunk].
  assert (forall b v, emit b match v with
    | Need t' m' out => emit out (dechunk t' m' l2)
    | Done t' m' out rest => Done t' m' out (rest ++ l2)
    | Malformed => Malformed end =
    match emit b v with
    | Need t' m' out => emit out (dechunk t' m' l2)
    | Done t' m' out rest => Done t' m' out (rest ++ l2)
    | Malformed => Malformed end) as E.
  { intros b []; cbn; [apply emit_emit|done|done]. }
  destruct t; try (destruct (control _ m c) as [[]|[]]; [done|done|apply IH]).
  rewrite IH. apply E.
Qed.

(* ------------------------------------------------------------------ *)
(** ** Lemmas: the loop runs the transducer *)

(** A state between calls: the write position never overtakes the read position, and the
    chunk size fits in 40 bits. *)
Record unchunk_ok (u : HttpUnchunker) : Prop := {
  uo_pos : 0 <= u_j u <= u_i u;
  uo_m : 0 <= u_m u < 2 ^ 40;
  uo_data : u_t u = kHttpStateChunk -> 0 < u_m u
}.

Lemma unchunk_ok_init : unchunk_ok (Unchunker kHttpStateChunkStart 0 0 0).
Proof. split; cbn; [lia|lia|done]. Qed.

Lemma hex_range c : is_byte c -> -1 <= tab kHexToInt c <= 15.
Proof. intros H. pose proof (kHexToInt_range c H). lia. Qed.

(** A byte that is not data. *)
Lemma unchunk_case_control t i j m p n c :
  t <> kHttpStateChunk -> is_byte c -> 0 <= m < 2 ^ 40 ->
  match control t m c with
  | inl true => unchunk_case (Unchunker t i j m) p n c = Finished (Unchunker t i j m) p
  | inl false => exists u, unchunk_case (Unchunker t i j m) p n c = Bad u p
  | inr (t', m') =>
      unchunk_case (Unchunker t i j m) p n c = Again (Unchunker t' i j m') p /\
      0 <= m' < 2 ^ 40 /\ (t' = kHttpStateChunk -> 0 < m')
  end.
Proof.
  intros Ht Hc Hm. pose proof (hex_range c Hc) as Hh.
  unfold unchunk_case, control, chunk_ext, chunk_lf1, chunk_lf2, trailer, trailer_lf1,
    set_chunk_t, set_chunk_m.
  assert (s64 (m * 16) = m * 16 /\ s64 (m * 16 + tab kHexToInt c) = m * 16 + tab kHexToInt c)
    as [E1 E2] by (unfold s64; rewrite !Z.mod_small by lia; lia).
  destruct t; cbn [u_t u_i u_j u_m]; try done; rewrite ?E1, ?E2, ?(Z.mul_comm m 16).
  all: destruct (Z.eqb_spec c 13), (Z.eqb_spec c 10); try (subst c; lia);
    destruct (Z.eqb_spec m 0), (Z.eqb_spec (tab kHexToInt c) (-1)); cbn [negb andb];
    try rewrite Z.geb_leb;
    try destruct (Z.leb_spec 1099511627776 (16 * m + tab kHexToInt c)),
                 (Z.ltb_spec (16 * m + tab kHexToInt c) (2 ^ 40)); try lia;
    try done; try (by eexists); try (split; [done|split; [lia|done || lia]]).
Qed.

(** The data of a chunk: what is there of it is moved in one go. *)
Lemma chunk_data_run i j m p n :
  0 <= j <= i -> 0 < m < 2 ^ 40 -> i < n -> n <= Z.of_nat (length p) ->
  let k := Z.min m (n - i) in
  chunk_data (Unchunker kHttpStateChunk (i + 1) j m) p n (tab p i) =
  Again (Unchunker (after_data (m - k)) (i + k) (j + k) (m - k))
        (write p j (range p i (i + k))) /\
  dechunk kHttpStateChunk m (range p i n) =
  emit (range p i (i + k)) (dechunk (after_data (m - k)) (m - k) (range p (i + k) n)) /\
  Z.of_nat (length (range p i (i + k))) = k.
Proof.
  intros Hj Hm Hi Hn. cbv zeta. set (k := Z.min m (n - i)).
  assert (Z.of_nat (length (range p i (i + k))) = k) as Lk by (rewrite range_length; lia).
  split; [|split; [|done]].
  - unfold chunk_data. cbn [u_t u_i u_j u_m]. rewrite u64_id by lia.
    replace (Z.min (m - 1) (n - (i + 1))) with (k - 1) by lia.
    replace (m - 1 - (k - 1)) with (m - k) by lia.
    replace (i + 1 + (k - 1)) with (i + k) by lia.
    replace (j + 1 + (k - 1)) with (j + k) by lia. f_equal. unfold memmove.
    rewrite write_drop by (cbn [length]; lia).
    assert (range p i (i + k) = tab p i :: range p (i + 1) (i + k)) as ->
      by (apply range_cons; lia).
    assert (take (Z.to_nat (k - 1)) (drop (Z.to_nat (i + 1)) p) = range p (i + 1) (i + k)) as ->
      by (unfold range; do 2 f_equal; lia).
    apply (write_write p j [tab p i]); cbn [length]; lia.
  - rewrite (range_split p i (i + k) n) by lia. rewrite dechunk_data; [by rewrite Lk| |lia].
    intros E. rewrite E in Lk. cbn in Lk. lia.
Qed.

(** What the transducer's verdict says of the loop. *)
Definition loop_result (u : HttpUnchunker) (p : bytes) (n : Z) (l : bool)
    (v : verdict) (res : option unchunked) : Prop :=
  let j := u_j u in
  match v with
  | Need t m out =>
      let u' := Unchunker t n (j + Z.of_nat (length out)) m in
      res = Some (0, u', write p j out, None) /\ unchunk_ok u'
  | Done t m out rest =>
      let i' := n - Z.of_nat (length rest) in
      let j' := j + Z.of_nat (length out) in
      res = Some (i', Unchunker t i' j' m, write p j (out ++ [0]), if l then Some j' else None)
      /\ j' < i' <= n
  | Malformed => exists u' p', res = Some (-1, u', p', None)
  end.

(** Data that was moved in front of what the rest of the loop does. *)
Lemma loop_result_emit u p n l v res t i m b :
  0 <= u_j u -> u_j u + Z.of_nat (length b) <= Z.of_nat (length p) ->
  loop_result (Unchunker t i (u_j u + Z.of_nat (length b)) m) (write p (u_j u) b) n l v res ->
  loop_result u p n l (emit b v) res.
Proof.
  intros Hj Hb. destruct v as [t' m' out|t' m' out rest|]; cbn [loop_result emit u_j]; [| |done].
  - rewrite length_app, Nat2Z.inj_add, Z.add_assoc. intros [-> ?]. split; [|done].
    by rewrite write_write.
  - rewrite length_app, Nat2Z.inj_add, Z.add_assoc. intros [-> ?]. split; [|done].
    by rewrite write_write, <- app_assoc.
Qed.

Lemma unchunk_loop_run n l fuel : forall u p,
  unchunk_ok u -> Bytes p -> u_i u <= n -> n <= Z.of_nat (length p) ->
  n - u_i u < Z.of_nat fuel ->
  loop_result u p n l (dechunk (u_t u) (u_m u) (range p (u_i u) n)) (unchunk_loop fuel u p n l).
Proof.
  induction fuel as [|fuel IH]; intros [t i j m] p [Hj Hm Hd] Hb Hi Hn Hf; [cbn in *; lia|].
  cbn [u_t u_i u_j u_m] in *. cbn [unchunk_loop u_t u_i u_j u_m].
  destruct (Z.ltb_spec i n) as [Lt|Ge].
  2: { rewrite range_nil by done. cbn [dechunk loop_result u_j length]. rewrite write_nil.
       replace i with n in * by lia. rewrite Z.add_0_r. by split. }
  pose proof (Bytes_tab p i Hb) as Hc.
  replace (Z.land (tab p i) 255) with (tab p i)
    by (rewrite land_255; symmetry; by apply Z.mod_small).
  destruct (decide (t = kHttpStateChunk)) as [->|Ht].
  - specialize (Hd eq_refl).
    destruct (chunk_data_run i j m p n) as (E & D & Lk); [lia..|]. cbv zeta in *.
    set (k := Z.min m (n - i)) in *. unfold unchunk_case. cbn [u_t]. rewrite E, D.
    set (b := range p i (i + k)) in *.
    eapply (loop_result_emit _ _ _ _ _ _ (after_data (m - k)) (i + k) (m - k));
      cbn [u_j]; [lia|lia|]. rewrite Lk.
    rewrite <- (range_write p j b (i + k) n) by lia.
    apply (IH (Unchunker _ _ _ _)); cbn [u_i]; try lia.
    + split; cbn [u_t u_j u_i u_m]; [lia|lia|]. unfold after_data.
      destruct (Z.eqb_spec (m - k) 0); [done|lia].
    + apply write_bytes; [done|by apply range_bytes].
    + rewrite write_length by lia. done.
  - rewrite (range_cons p i n) by lia.
    pose proof (unchunk_case_control t (i + 1) j m p n (tab p i) Ht Hc Hm) as C.
    assert (dechunk t m (tab p i :: range p (i + 1) n) =
            match control t m (tab p i) with
            | inr (t, m) => dechunk t m (range p (i + 1) n)
            | inl true => Done t m [] (range p (i + 1) n)
            | inl false => Malformed
            end) as -> by (by destruct t).
    destruct (control t m (tab p i)) as [[]|[t' m']].
    + rewrite C. cbn [loop_result u_i u_j length app].
      rewrite (proj2 (Z.ltb_lt j n)) by lia. rewrite range_length, Z.add_0_r by lia.
      replace (n - (n - (i + 1))) with (i + 1) by lia. split; [done|lia].
    + destruct C as [u' ->]. by eexists _, _.
    + destruct C as (-> & M' & D').
      apply (IH (Unchunker t' (i + 1) j m')); cbn [u_i]; try lia; try done.
      split; cbn [u_t u_j u_i u_m]; [lia|done|done].
Qed.

Lemma Unchunk_run u p n l :
  unchunk_ok u -> Bytes p -> u_i u <= n -> n <= Z.of_nat (length p) ->
  loop_result u p n l (dechunk (u_t u) (u_m u) (range p (u_i u) n)) (Unchunk u p n l).
Proof.
  intros Hu Hb Hi Hn. apply unchunk_loop_run; try done.
  pose proof (uo_pos _ Hu). lia.
Qed.

Lemma dechunk_out_bytes t m l :
  Bytes l -> match dechunk t m l with Need _ _ out | Done _ _ out _ => Bytes out
                                    | Malformed => True end.
Proof.
  intros B. revert t m. induction B as [|c l Hc _ IH]; intros t m; cbn [dechunk]; [constructor|].
  destruct t; try (destruct (control _ m c) as [[]|[]]; [constructor|done|apply IH]).
  match goal with |- context [dechunk ?t ?m l] => specialize (IH t m); destruct (dechunk t m l) end;
    cbn [emit app]; auto.
Qed.

(* ------------------------------------------------------------------ *)
(** ** Chunked bodies as text *)

(** A chunk: its size in hexadecimal, an extension, its data. *)
Record chunk := Chunk { ck_size : bytes; ck_ext : bytes; ck_data : bytes }.

Definition hex_value (ds : bytes) : Z := foldl (fun v d => 16 * v + tab kHexToInt d) 0 ds.

Definition line_char (c : Z) : Prop := is_byte c /\ c <> 13 /\ c <> 10.
Definition hex_digit (c : Z) : Prop := is_byte c /\ tab kHexToInt c <> -1.

(** The size line of a chunk; an extension does not start with a hexadecimal digit. *)
Definition size_ok (ds ext : bytes) : Prop :=
  ds <> [] /\ Forall hex_digit ds /\ hex_value ds < 2 ^ 40 /\ Forall line_char ext /\
  tab kHexToInt (hd 13 ext) = -1.

Definition chunk_ok (k : chunk) : Prop :=
  size_ok (ck_size k) (ck_ext k) /\ hex_value (ck_size k) = Z.of_nat (length (ck_data k)) /\
  ck_data k <> [] /\ Bytes (ck_data k).

Definition CRLF : bytes := [13; 10].

Definition encode_chunk (k : chunk) : bytes :=
  ck_size k ++ ck_ext k ++ CRLF ++ ck_data k ++ CRLF.

(** The chunks, the last chunk [(zeros, ext)], the trailer lines and the empty line. *)
Fixpoint encode_lines (ls : list bytes) : bytes :=
  match ls with [] => CRLF | l :: ls => l ++ CRLF ++ encode_lines ls end.

Fixpoint encode_body (ks : list chunk) (zeros ext : bytes) (trailers : list bytes) : bytes :=
  match ks with
  | [] => zeros ++ ext ++ CRLF ++ encode_lines trailers
  | k :: ks => encode_chunk k ++ encode_body ks zeros ext trailers
  end.

Fixpoint body_data (ks : list chunk) : bytes :=
  match ks with [] => [] | k :: ks => ck_data k ++ body_data ks end.

Definition body_ok (ks : list chunk) (zeros ext : bytes) (trailers : list bytes) : Prop :=
  Forall chunk_ok ks /\ size_ok zeros ext /\ hex_value zeros = 0 /\
  Forall (fun l => l <> [] /\ Forall line_char l) trailers.

Lemma hex_value_bound ds : Forall hex_digit ds -> forall v, 0 <= v ->
  v <= foldl (fun v d => 16 * v + tab kHexToInt d) v ds.
Proof.
  induction 1 as [|d ds [Hd1 Hd2] _ IH]; intros v Hv; cbn [foldl]; [lia|].
  pose proof (hex_range d Hd1). specialize (IH (16 * v + tab kHexToInt d)). lia.
Qed.

(** The size line. *)
Lemma dechunk_digits ds : forall v l,
  Forall hex_digit ds -> 0 <= v ->
  foldl (fun v d => 16 * v + tab kHexToInt d) v ds < 2 ^ 40 ->
  dechunk kHttpStateChunkSize v (ds ++ l) =
  dechunk kHttpStateChunkSize (foldl (fun v d => 16 * v + tab kHexToInt d) v ds) l.
Proof.
  induction ds as [|d ds IH]; intros v l F Hv L; [done|].
  apply Forall_cons in F as [[Hd1 Hd2] F]. cbn [app dechunk foldl] in *.
  pose proof (hex_range d Hd1).
  pose proof (hex_value_bound ds F (16 * v + tab kHexToInt d) ltac:(lia)).
  unfold control. rewrite (proj2 (Z.eqb_neq _ _) Hd2).
  rewrite (proj2 (Z.ltb_lt _ _)) by lia. apply IH; [done|lia|done].
Qed.

Lemma dechunk_ext ext : forall m l,
  Forall line_char ext ->
  dechunk kHttpStateChunkExt m (ext ++ l) = dechunk kHttpStateChunkExt m l.
Proof.
  induction ext as [|c ext IH]; intros m l F; [done|].
  apply Forall_cons in F as [(_ & H1 & H2) F]. cbn [app dechunk]. unfold control.
  rewrite (proj2 (Z.eqb_neq _ _) H1), (proj2 (Z.eqb_neq _ _) H2). by apply IH.
Qed.

Definition after_size (m : Z) : ChunkState :=
  if m =? 0 then kHttpStateTrailerStart else kHttpStateChunk.

Lemma dechunk_size ds ext m0 l :
  size_ok ds ext ->
  dechunk kHttpStateChunkStart m0 (ds ++ ext ++ CRLF ++ l) =
  dechunk (after_size (hex_value ds)) (hex_value ds) l.
Proof.
  intros (D0 & D & L & E & H). destruct ds as [|d ds]; [done|].
  unfold hex_value in *. apply Forall_cons in D as [[Hd1 Hd2] D]. cbn [app dechunk foldl] in *.
  pose proof (hex_range d Hd1). rewrite Z.mul_0_r, Z.add_0_l in *.
  unfold control at 1. rewrite (proj2 (Z.eqb_neq _ _) Hd2).
  rewrite dechunk_digits by (done || lia).
  generalize dependent (foldl (fun v d => 16 * v + tab kHexToInt d) (tab kHexToInt d) ds).
  intros v Lv. destruct ext as [|c ext]; cbn [app hd] in *.
  - reflexivity.
  - apply Forall_cons in E as [(_ & H1 & H2) E]. cbn [dechunk]. unfold control at 1.
    rewrite (proj2 (Z.eqb_eq _ _) H), (proj2 (Z.eqb_neq _ _) H1), (proj2 (Z.eqb_neq _ _) H2).
    rewrite dechunk_ext by done. reflexivity.
Qed.

Lemma dechunk_trailer l0 m l :
  l0 <> [] -> Forall line_char l0 ->
  dechunk kHttpStateTrailerStart m (l0 ++ CRLF ++ l) = dechunk kHttpStateTrailerStart m l.
Proof.
  intros N F.
  assert (forall l1, Forall line_char l1 ->
    dechunk kHttpStateTrailer m (l1 ++ CRLF ++ l) = dechunk kHttpStateTrailerStart m l) as T.
  { induction 1 as [|c l1 (_ & H1 & H2) _ IH]; [done|]. cbn [app dechunk]. unfold control.
    by rewrite (proj2 (Z.eqb_neq _ _) H1), (proj2 (Z.eqb_neq _ _) H2). }
  destruct F as [|c l1 (_ & H1 & H2) F]; [done|]. cbn [app dechunk]. unfold control.
  rewrite (proj2 (Z.eqb_neq _ _) H1), (proj2 (Z.eqb_neq _ _) H2). by apply T.
Qed.

Lemma dechunk_body ks zeros ext trailers rest : forall m0,
  body_ok ks zeros ext trailers ->
  dechunk kHttpStateChunkStart m0 (encode_body ks zeros ext trailers ++ rest) =
  Done kHttpStateTrailerLf2 0 (body_data ks) rest.
Proof.
  induction ks as [|k ks IH]; intros m0 (K & Z & V & T); cbn [encode_body body_data].
  - rewrite <- !app_assoc, dechunk_size, V by done. unfold after_size. cbn [Z.eqb].
    induction T as [|l0 ls [N0 F0] _ IHT]; [done|]. cbn [encode_lines].
    rewrite <- !app_assoc, dechunk_trailer by done. apply IHT.
  - apply Forall_cons in K as [(S & E & D & B) K]. unfold encode_chunk.
    rewrite <- !app_assoc, dechunk_size, E by done. unfold after_size.
    destruct (Z.eqb_spec (Z.of_nat (length (ck_data k))) 0) as [L|].
    { destruct (ck_data k); [done|cbn in L; lia]. }
    rewrite dechunk_data by (done || lia). rewrite Z.sub_diag.
    assert (forall x, dechunk (after_data 0) 0 (CRLF ++ x) = dechunk kHttpStateChunkStart 0 x)
      as -> by done.
    rewrite IH by (by repeat split; try apply Z). done.
Qed.

Lemma encode_body_bytes ks zeros ext trailers :
  body_ok ks zeros ext trailers -> Bytes (encode_body ks zeros ext trailers).
Proof.
  intros (K & (_ & Z1 & _ & Z2 & _) & _ & T).
  assert (forall l, Forall line_char l -> Bytes l) as LB
    by (intros l H; eapply Forall_impl; [exact H|]; by intros ? []).
  assert (forall l, Forall hex_digit l -> Bytes l) as HB
    by (intros l H; eapply Forall_impl; [exact H|]; by intros ? []).
  assert (Bytes CRLF) as CB by decide_now.
  induction K as [|k ks ((_ & K1 & _ & K2 & _) & _ & _ & K3) _ IH]; cbn [encode_body].
  - rewrite !Forall_app. repeat split; auto.
    induction T as [|l0 ls [_ F0] _ IHT]; [done|]. cbn [encode_lines].
    rewrite !Forall_app. auto.
  - unfold encode_chunk. rewrite !Forall_app. repeat split; auto.
Qed.

(* ------------------------------------------------------------------ *)
(** ** Properties *)

(** C32: the loop, which moves data in blocks inside the buffer it reads from, returns and
    does what the transducer that reads one byte at a time does on the unread bytes. The
    data goes to the write position without touching an unread byte, the write position
    never overtakes the read position, and a positive result is the number of bytes up to
    the end of the body, with the length of the data stored through [l] and a NUL behind
    it. *)
Theorem Unchunk_refines u p n l :
  unchunk_ok u -> Bytes p -> u_i u <= n -> n <= Z.of_nat (length p) ->
  loop_result u p n l (dechunk (u_t u) (u_m u) (range p (u_i u) n)) (Unchunk u p n l).
Proof.
  apply Unchunk_run.
Qed.

Lemma Unchunk_refines_witness :
  loop_result (Unchunker kHttpStateChunkStart 0 0 0) (bstr "3;x" ++ [10] ++ bstr "ab") 6 true
    (Need kHttpStateChunk 1 (bstr "ab"))
    (Unchunk (Unchunker kHttpStateChunkStart 0 0 0) (bstr "3;x" ++ [10] ++ bstr "ab") 6 true).
Proof.
  apply (Unchunk_refines (Unchunker kHttpStateChunkStart 0 0 0) (bstr "3;x" ++ [10] ++ bstr "ab")).
  - apply unchunk_ok_init.
  - decide_now.
  - cbn; lia.
  - cbn; lia.
Defined.

(** Two calls with the same result and, unless it is an error, the same state, buffer and
    stored length. *)
Definition same_call (a b : option unchunked) : Prop :=
  match a, b with
  | Some (v, _, _, _), Some (v', _, _, _) => v = v' /\ (v <> -1 -> a = b)
  | _, _ => False
  end.

(** The verdict of the transducer determines the call. *)
Lemma loop_result_same u p n l v a b :
  loop_result u p n l v a -> loop_result u p n l v b -> same_call a b.
Proof.
  destruct v; cbn [loop_result].
  - by intros [-> _] [-> _].
  - by intros [-> _] [-> _].
  - intros (? & ? & ->) (? & ? & ->). by split.
Qed.

(** fragments. If a call over the first [n] bytes asked for more data, the next call over
    [n'] bytes gives the same result as one call over all of them, and unless the body is
    malformed also the same state, the same buffer and the same length. *)
Theorem Unchunk_resume u p n n' l u1 p1 l1 :
  unchunk_ok u -> Bytes p -> u_i u <= n -> n <= n' -> n' <= Z.of_nat (length p) ->
  Unchunk u p n l = Some (0, u1, p1, l1) ->
  same_call (Unchunk u1 p1 n' l) (Unchunk u p n' l).
Proof.
  intros Hu Hb Hi Hn Hn' H. pose proof (uo_pos _ Hu) as Hp.
  pose proof (Unchunk_run u p n l Hu Hb Hi ltac:(lia)) as R1.
  pose proof (Unchunk_run u p n' l Hu Hb ltac:(lia) Hn') as R2.
  rewrite (range_split p (u_i u) n n'), dechunk_app in R2 by lia.
  pose proof (dechunk_out_bytes (u_t u) (u_m u) (range p (u_i u) n) (range_bytes _ _ _ Hb)) as B.
  destruct (dechunk (u_t u) (u_m u) (range p (u_i u) n)) as [t m out|t m out rest|];
    cbn [loop_result] in R1; [|destruct R1 as [E [? ?]]; rewrite H in E; simplify_eq; lia|].
  2: { destruct R1 as (? & ? & E). rewrite H in E. done. }
  destruct R1 as [E Hu1]. rewrite H in E. simplify_eq.
  pose proof (uo_pos _ Hu1) as Hp1. cbn [u_i u_j] in Hp1.
  eapply loop_result_same; [|exact R2].
  apply (loop_result_emit _ _ _ _ _ _ t n m); [lia|lia|].
  pose proof (Unchunk_run (Unchunker t n (u_j u + Z.of_nat (length out)) m)
                (write p (u_j u) out) n' l Hu1) as R3. cbn [u_t u_m u_i] in R3.
  rewrite range_write in R3 by lia. apply R3; [|lia|rewrite write_length; lia].
  by apply write_bytes.
Qed.

Lemma Unchunk_resume_witness :
  same_call
    (Unchunk (Unchunker kHttpStateChunk 5 2 1) (bstr "ab" ++ [10] ++ bstr "abc" ++ [10]) 7 true)
    (Unchunk (Unchunker kHttpStateChunkStart 0 0 0) (bstr "03" ++ [10] ++ bstr "abc" ++ [10]) 7
       true).
Proof.
  apply (Unchunk_resume (Unchunker kHttpStateChunkStart 0 0 0)
           (bstr "03" ++ [10] ++ bstr "abc" ++ [10]) 5 7 true _ _ None).
  - apply unchunk_ok_init.
  - decide_now.
  - cbn; lia.
  - lia.
  - cbn; lia.
  - reflexivity.
Defined.

(** C19: decoding undoes encoding. For every list of chunks with sizes in hexadecimal (below
    2^40), extensions and trailer lines, one call over the encoded body, whatever follows
    it, consumes exactly the body and leaves the concatenated data at the front of the
    buffer, its length behind [l], and a NUL behind the data. *)
Theorem Unchunk_encode ks zeros ext trailers rest :
  body_ok ks zeros ext trailers -> Bytes rest ->
  let e := encode_body ks zeros ext trailers in
  let d := body_data ks in
  exists u p, Unchunk (Unchunker kHttpStateChunkStart 0 0 0) (e ++ rest)
                      (Z.of_nat (length (e ++ rest))) true =
              Some (Z.of_nat (length e), u, p, Some (Z.of_nat (length d))) /\
  take (S (length d)) p = d ++ [0] /\ drop (length e) p = rest.
Proof.
  intros K B. cbv zeta. set (e := encode_body ks zeros ext trailers). set (d := body_data ks).
  pose proof (Unchunk_run (Unchunker kHttpStateChunkStart 0 0 0) (e ++ rest)
                (Z.of_nat (length (e ++ rest))) true unchunk_ok_init) as R.
  cbn [u_t u_m u_i] in R. unfold range in R at 1. rewrite drop_0, Z.sub_0_r, Nat2Z.id, firstn_all in R.
  subst e. rewrite dechunk_body in R by done. set (e := encode_body ks zeros ext trailers) in *.
  assert (Bytes (e ++ rest)) as Be by (apply Forall_app; split; [by apply encode_body_bytes|done]).
  specialize (R Be ltac:(lia) ltac:(lia)). cbn [loop_result u_j] in R.
  rewrite length_app in R. fold d in R.
  replace (Z.of_nat (length e + length rest) - Z.of_nat (length rest)) with
    (Z.of_nat (length e)) in R by lia.
  destruct R as [R L]. rewrite length_app. eexists _, _. split; [exact R|].
  assert (length d < length e)%nat as Ld by lia. split.
  - replace (S (length d)) with (length (d ++ [0])) by (rewrite length_app; cbn; lia).
    apply (take_app_length (d ++ [0])).
  - assert (length e = Z.to_nat (Z.of_nat (length e))) as E by lia. rewrite E.
    rewrite write_drop; rewrite ?length_app; cbn [length]; try lia.
    rewrite <- E. apply drop_app_length.
Qed.

Lemma Unchunk_encode_witness :
  exists u p, Unchunk (Unchunker kHttpStateChunkStart 0 0 0)
      (encode_body [Chunk (bstr "0B") (bstr ";x") (bstr "hello world")] (bstr "0") [] []
         ++ bstr "GET") 27 true = Some (24, u, p, Some 11) /\
  take 12 p = bstr "hello world" ++ [0] /\ drop 24 p = bstr "GET".
Proof.
  apply (Unchunk_encode [Chunk (bstr "0B") (bstr ";x") (bstr "hello world")] (bstr "0") [] []
           (bstr "GET")).
  - repeat split; try done; try (repeat constructor; done || (unfold is_byte; lia)).
  - decide_now.
Defined.
