(* ===== verification/Url.v ===== *)
(** URLs: parsing (net/http/parseurl.c), printing (net/http/encodeurl.c) and the escaping
    of their components (net/http/escapeurl.c, escapeurlview.c and the wrappers
    escape{user,pass,host,ip,path,segment,param,fragment}.c). *)

From S2P Require Import Prelude Tables.

(* ------------------------------------------------------------------ *)
(** ** Data *)

(** A [struct UrlView]: [None] is the null pointer (with length 0). The parsers only append
    to the buffer that backs the views, so a view keeps the bytes it had when it was set. *)
Abbreviation UrlView := (option bytes).

(** [v->n], and the bytes behind [v->p]. *)
Definition view (v : UrlView) : bytes := default [] v.

Record UrlParam := Param { key : UrlView; val : UrlView }.

(** [n] and the array behind [p]. *)
Record UrlParams := Params { params_n : Z; params_p : option (list UrlParam) }.

Record Url := MkUrl {
  scheme : UrlView; user : UrlView; pass : UrlView; host : UrlView; port : UrlView;
  path : UrlView; params : UrlParams; fragment : UrlView }.

#[global] Instance UrlParam_eq_dec : EqDecision UrlParam.
Proof. solve_decision. Defined.
#[global] Instance UrlParams_eq_dec : EqDecision UrlParams.
Proof. solve_decision. Defined.
#[global] Instance Url_eq_dec : EqDecision Url.
Proof. solve_decision. Defined.

Definition kUrlPlus : Z := 1.
Definition kUrlLatin1 : Z := 2.
Definition kUrlOpaque : Z := 4.

(** [u_p]: the bytes from the start of the buffer to [p]; [u_q]: the offset of [q]. The
    position [i] in the source is the tail of it that is still unread. *)
Record UrlParser := Parser { u_p : bytes; u_q : Z; u_c : Z; u_f : Z }.

(* ------------------------------------------------------------------ *)
(** ** Escaping *)

(** ["0123456789ABCDEF"] *)
Definition HEX : bytes := bstr "0123456789ABCDEF".

(** What [EscapeUrlView] appends at [p]. *)
Fixpoint EscapeUrlView (v : bytes) (T : list Z) : bytes :=
  match v with
  | [] => []
  | x :: v =>
      let c := Z.land x 0xFF in
      if tab T c =? 0 then c :: EscapeUrlView v T
      else 37 :: tab HEX (Z.shiftr (Z.land c 0xF0) 4) :: tab HEX (Z.shiftr (Z.land c 0x0F) 0)
              :: EscapeUrlView v T
  end.

(** The shrinking [realloc] at the end does not change the contents. *)
Definition EscapeUrl (malloc : Z -> bool) (p : option bytes) (n : Z) (T : list Z)
  : option (bytes * Z) :=
  let v := strarg p n in
  if malloc (u64 (Z.of_nat (length v) * 6 + 1)) then Some (cbuf (EscapeUrlView v T)) else None.

Definition EscapeUser malloc p n := EscapeUrl malloc p n kEscapeAuthority.
Definition EscapePass malloc p n := EscapeUrl malloc p n kEscapeAuthority.
Definition EscapeHost malloc p n := EscapeUrl malloc p n kEscapeAuthority.
Definition EscapeIp malloc p n := EscapeUrl malloc p n kEscapeIp.
Definition EscapePath malloc p n := EscapeUrl malloc p n kEscapePath.
Definition EscapeSegment malloc p n := EscapeUrl malloc p n kEscapeSegment.
Definition EscapeParam malloc p n := EscapeUrl malloc p n kEscapeParam.
Definition EscapeFragment malloc p n := EscapeUrl malloc p n kEscapeFragment.

(* ------------------------------------------------------------------ *)
(** ** Parsing *)

(** [*u->p++ = c] *)
Definition put (c : Z) (u : UrlParser) : UrlParser :=
  Parser (u_p u ++ [c]) (u_q u) (u_c u) (u_f u).
Definition set_c (c : Z) (u : UrlParser) : UrlParser := Parser (u_p u) (u_q u) c (u_f u).
Definition set_f (f : Z) (u : UrlParser) : UrlParser := Parser (u_p u) (u_q u) (u_c u) f.
(** [u->p - u->q] bytes at [u->q]; [u->q = u->p] *)
Definition view_qp (u : UrlParser) : UrlView := Some (drop (Z.to_nat (u_q u)) (u_p u)).
Definition advance (u : UrlParser) : UrlParser :=
  Parser (u_p u) (Z.of_nat (length (u_p u))) (u_c u) (u_f u).
Definition flag (f : Z) (u : UrlParser) : bool := negb (Z.land (u_f u) f =? 0).

Definition EmitLatin1 (u : UrlParser) (c : Z) : UrlParser :=
  put (Z.lor 0x80 (Z.land c 0x3F)) (put (u8 (Z.lor 0xC0 (Z.shiftr c 6))) u).

(** The test of [ParseEscape] on two bytes, and the byte it makes of them. *)
Definition unhex (x y : Z) : option Z :=
  let a := tab kHexToInt (Z.land x 255) in
  let b := tab kHexToInt (Z.land y 255) in
  if negb (a =? -1) && negb (b =? -1) then Some (Z.lor (Z.shiftl a 4) b) else None.

(** Returns the unread bytes. *)
Definition ParseEscape (l : bytes) (u : UrlParser) : bytes * UrlParser :=
  match l with
  | x :: y :: l2 => match unhex x y with Some c => (l2, put c u) | None => (l, put 37 u) end
  | _ => (l, put 37 u)
  end.

(** [if (u->c >= 0200 && (u->f & kUrlLatin1)) EmitLatin1(&u->p, u->c); else *u->p++ = u->c;] *)
Definition put_char (u : UrlParser) : UrlParser :=
  if (0x80 <=? u_c u) && flag kUrlLatin1 u then EmitLatin1 u (u_c u) else put (u_c u) u.

(** The loops of ParseAuthority, ParsePath, ParseQuery and ParseFragment: a byte that stops
    the loop, a percent escape, a byte the component treats in its own way, or a byte that is
    copied. [A] is what the loop keeps in its local variables. *)
Section Walk.
Context {A : Type} (stop : Z -> bool) (special : Z -> A -> UrlParser -> option (A * UrlParser)).

Fixpoint walk (l : bytes) (a : A) (u : UrlParser) : bytes * A * UrlParser :=
  match l with
  | [] => ([], a, u)
  | x :: l =>
      let c := Z.land x 255 in
      let u := set_c c u in
      if stop c then (l, a, u)
      else if c =? 37 then
        match l with
        | x :: y :: l2 =>
            match unhex x y with
            | Some c => walk l2 a (put c u)
            | None => walk l a (put 37 u)
            end
        | _ => walk l a (put 37 u)
        end
      else match special c a u with
           | Some (a, u) => walk l a u
           | None => walk l a (put_char u)
           end
  end.
End Walk.

Definition is_alpha (c : Z) : bool :=
  ((# "A" <=? c) && (c <=? # "Z")) || ((# "a" <=? c) && (c <=? # "z")).

Definition set_scheme (v : UrlView) (h : Url) : Url :=
  MkUrl v (user h) (pass h) (host h) (port h) (path h) (params h) (fragment h).
Definition set_user (v : UrlView) (h : Url) : Url :=
  MkUrl (scheme h) v (pass h) (host h) (port h) (path h) (params h) (fragment h).
Definition set_pass (v : UrlView) (h : Url) : Url :=
  MkUrl (scheme h) (user h) v (host h) (port h) (path h) (params h) (fragment h).
Definition set_host (v : UrlView) (h : Url) : Url :=
  MkUrl (scheme h) (user h) (pass h) v (port h) (path h) (params h) (fragment h).
Definition set_port (v : UrlView) (h : Url) : Url :=
  MkUrl (scheme h) (user h) (pass h) (host h) v (path h) (params h) (fragment h).
Definition set_path (v : UrlView) (h : Url) : Url :=
  MkUrl (scheme h) (user h) (pass h) (host h) (port h) v (params h) (fragment h).
Definition set_params (v : UrlParams) (h : Url) : Url :=
  MkUrl (scheme h) (user h) (pass h) (host h) (port h) (path h) v (fragment h).
Definition set_fragment (v : UrlView) (h : Url) : Url :=
  MkUrl (scheme h) (user h) (pass h) (host h) (port h) (path h) (params h) v.

(** The result is [true] when an authority follows. [i] is [u->i] before the byte is
    read. *)
Fixpoint ParseScheme (l : bytes) (i : Z) (u : UrlParser) (h : Url)
  : bool * bytes * UrlParser * Url :=
  match l with
  | [] => (false, [], u, h)
  | x :: l =>
      let c := Z.land x 255 in
      let u := set_c c u in
      let i := i + 1 in
      if c =? # "/" then
        match l with
        | y :: l2 => if (i =? 1) && (y =? # "/") then (true, l2, u, h)
                     else (false, l, put 47 u, h)
        | [] => (false, l, put 47 u, h)
        end
      else if (c =? # ":") && (i >? 1) then
        let h := set_scheme (view_qp u) h in
        let u := advance u in
        match l with
        | y :: l1 =>
            if y =? # "/" then
              match l1 with
              | z :: l2 => if z =? # "/" then (true, l2, u, h) else (false, l, u, h)
              | [] => (false, l, u, h)
              end
            else (false, l, set_f (Z.lor (u_f u) kUrlOpaque) u, h)
        | [] => (false, l, set_f (Z.lor (u_f u) kUrlOpaque) u, h)
        end
      else if (c =? # "#") || (c =? # "?") then
        (false, l, advance u, set_path (view_qp u) h)
      else if c =? 37 then
        let '(l, u) := ParseEscape l u in (false, l, u, h)
      else if (0x80 <=? c) && flag kUrlLatin1 u then (false, l, EmitLatin1 u c, h)
      else
        let u := put c u in
        if i =? 1 then
          if negb (is_alpha c) then (false, l, u, h) else ParseScheme l i u h
        else
          if negb (isdigit c || is_alpha c || (c =? # "+") || (c =? # "-") || (c =? # "."))
          then (false, l, u, h) else ParseScheme l i u h
  end.

(** The locals of ParseAuthority: [t], and the offset [c] of the byte behind the last
    colon. *)
Definition authority_stop (c : Z) : bool := (c =? # "/") || (c =? # "#") || (c =? # "?").

Definition authority_special (c : Z) (a : Z * option Z * Url) (u : UrlParser)
  : option (Z * option Z * Url * UrlParser) :=
  let '(t, k, h) := a in
  if c =? # "[" then Some (0, k, h, u)
  else if c =? # "]" then Some (1, k, h, u)
  else if (c =? # ":") && (t >? 0) then
    let u := put 58 u in Some (t + 1, Some (Z.of_nat (length (u_p u))), h, u)
  else if c =? # "@" then
    match k with
    | Some k =>
        let h := set_user (Some (take (Z.to_nat (k - 1 - u_q u)) (drop (Z.to_nat (u_q u)) (u_p u)))) h in
        let h := set_pass (Some (drop (Z.to_nat k) (u_p u))) h in
        Some (1, None, h, advance u)
    | None => Some (t, None, set_user (view_qp u) h, advance u)
    end
  else None.

Definition ParseAuthority (l : bytes) (u : UrlParser) (h : Url) : bytes * UrlParser * Url :=
  let '(l, (t, k, h), u) := walk authority_stop authority_special l (1, None, h) u in
  let h :=
    if t =? 2 then
      let k := default 0 k in
      set_port (Some (drop (Z.to_nat k) (u_p u)))
        (set_host (Some (take (Z.to_nat (k - 1 - u_q u)) (drop (Z.to_nat (u_q u)) (u_p u)))) h)
    else set_host (view_qp u) h in
  let u := advance u in
  (l, if u_c u =? # "/" then put (u_c u) u else u, h).

Definition no_special {A} (c : Z) (a : A) (u : UrlParser) : option (A * UrlParser) := None.

Definition ParsePath (l : bytes) (u : UrlParser) : bytes * UrlParser * UrlView :=
  let '(l, _, u) :=
    walk (fun c => (c =? # "#") || ((c =? # "?") && negb (flag kUrlOpaque u))) no_special l tt u in
  (l, advance u, view_qp u).

Section Query.
(** [realloc n]: whether growing the array of parameters to [n] bytes succeeds; [junk]:
    the contents of memory that was not written. *)
Context (realloc : Z -> bool) (junk : UrlParam).

(** [sizeof(struct UrlParam)] is 32. *)
Definition EmitKey (u : UrlParser) (h : UrlParams) : bool * UrlParser * UrlParams :=
  let n := u64 (params_n h + 1) in
  if realloc (u64 (n * 32)) then
    let old := take (Z.to_nat (n - 1))
                 (default [] (params_p h) ++ repeat junk (Z.to_nat (n - 1))) in
    (true, advance u, Params n (Some (old ++ [Param (view_qp u) (val junk)])))
  else (false, u, Params n (params_p h)).

(** Writing [h->p[h->n - 1].val]. *)
Definition set_val (v : UrlView) (h : UrlParams) : UrlParams :=
  match params_p h with
  | Some ps => Params (params_n h) (Some (alter (fun x => Param (key x) v)
                                            (Z.to_nat (params_n h - 1)) ps))
  | None => h
  end.

Definition EmitVal (u : UrlParser) (h : UrlParams) (t : bool) : UrlParser * UrlParams :=
  if negb t then
    if (Z.of_nat (length (u_p u)) >? u_q u) || negb (u_c u =? # "?") then
      let '(ok, u, h) := EmitKey u h in
      (u, if ok then set_val None h else h)
    else (u, h)
  else (advance u, set_val (view_qp u) h).

Definition query_special (c : Z) (a : bool * UrlParams) (u : UrlParser)
  : option (bool * UrlParams * UrlParser) :=
  let '(t, h) := a in
  if c =? # "+" then Some (t, h, put (if flag kUrlPlus u then # " " else # "+") u)
  else if c =? # "&" then let '(u, h) := EmitVal u h t in Some (false, h, u)
  else if c =? # "=" then
    if negb t then let '(t, u, h) := EmitKey u h in Some (t, h, u) else Some (t, h, put 61 u)
  else None.

(** [malloc(0)] is assumed to return a pointer. *)
Definition ParseQuery (l : bytes) (u : UrlParser) (h : UrlParams) : bytes * UrlParser * UrlParams :=
  let h := match params_p h with None => Params (params_n h) (Some []) | Some _ => h end in
  let '(l, (t, h), u) := walk (fun c => c =? # "#") query_special l (false, h) u in
  let '(u, h) := EmitVal u h t in
  (l, u, h).

Definition ParseFragment (l : bytes) (u : UrlParser) : UrlParser * UrlView :=
  let '(_, _, u) := walk (fun _ => false) no_special l tt u in
  (advance u, view_qp u).

Definition url0 : Url := MkUrl None None None None None None (Params 0 None) None.

(** The bytes that [unsigned n] lets a parser see. *)
Definition source (s : option bytes) (n : Z) : bytes :=
  let l := strarg s n in take (Z.to_nat (u32 (Z.of_nat (length l)))) l.

(** The buffer that backs the views, and the URL. *)
Definition ParseUrl (malloc : Z -> bool) (s : option bytes) (n : Z) (f : Z) : option bytes * Url :=
  let l := source s n in
  let size := if negb (Z.land f kUrlLatin1 =? 0) then u32 (Z.of_nat (length l) * 2)
              else Z.of_nat (length l) in
  if malloc size then
    let u := Parser [] 0 0 f in
    let '(auth, l, u, h) := ParseScheme l 0 u url0 in
    let '(l, u, h) := if auth : bool then ParseAuthority l u h else (l, u, h) in
    let '(l, u, h) :=
      if negb (u_c u =? # "#") && negb (u_c u =? # "?")
      then let '(l, u, v) := ParsePath l u in (l, u, set_path v h) else (l, u, h) in
    let '(l, u, h) :=
      if u_c u =? # "?"
      then let '(l, u, v) := ParseQuery l u (params h) in (l, u, set_params v h)
      else (l, u, h) in
    let '(u, h) :=
      if u_c u =? # "#"
      then let '(u, v) := ParseFragment l u in (u, set_fragment v h) else (u, h) in
    (Some (u_p u), h)
  else (None, url0).

Definition ParseParams (malloc : Z -> bool) (s : option bytes) (n : Z) (h : UrlParams)
  : option bytes * UrlParams :=
  let l := source s n in
  if malloc (Z.of_nat (length l)) then
    let '(_, u, h) := ParseQuery l (Parser [] 0 (# "?") kUrlPlus) h in (Some (u_p u), h)
  else (None, h).

Definition ParseHost (malloc : Z -> bool) (s : option bytes) (n : Z) (h : Url)
  : option bytes * Url :=
  let l := source s n in
  if malloc (u32 (Z.of_nat (length l) * 2)) then
    let '(_, u, h) := ParseAuthority l (Parser [] 0 0 kUrlLatin1) h in (Some (u_p u), h)
  else (None, h).
End Query.

(* ------------------------------------------------------------------ *)
(** ** Printing *)

Fixpoint dimension_params (ps : list UrlParam) : Z :=
  match ps with
  | [] => 0
  | x :: ps => Z.of_nat (length (view (key x))) * 3 + 1 + Z.of_nat (length (view (val x))) * 3
               + dimension_params ps
  end.

Definition DimensionUrl (h : Url) : Z :=
  let n v := Z.of_nat (length (view v)) in
  n (scheme h) + 1 + 2 + n (user h) * 3 + 1 + n (pass h) * 3 + 1 + 1 + n (host h) * 3 + 1 + 1
  + n (port h) * 3 + 1 + n (path h) * 3 + 1
  + params_n (params h) + dimension_params (default [] (params_p (params h)))
  + 1 + n (fragment h) * 3 + 1.

Definition is_some {A} (o : option A) : bool := match o with Some _ => true | None => false end.

Definition NeedsSquareBrackets (h : Url) : bool :=
  let s := view (host h) in
  if negb (mem 58 s) then false
  else if is_some (pass h) then true
  else if (4 <=? Z.of_nat (length s)) && (tab s 0 =? # "v") && (tab s 2 =? # ".")
          && negb (tab kHexToInt (Z.land (tab s 1) 0xFF) =? -1)
  then forallb (fun c => tab kEscapeIp (Z.land c 0xFF) =? 0) (drop 3 s)
  else forallb (fun x => let c := Z.land x 0xFF in
                         negb (tab kHexToInt c =? 0) || (c =? # ".") || (c =? # ":")) s.

Fixpoint encode_params (first : bool) (ps : list UrlParam) : bytes :=
  match ps with
  | [] => []
  | x :: ps =>
      (if first then [] else [38]) ++ EscapeUrlView (view (key x)) kEscapeParam
      ++ (if is_some (val x) then 61 :: EscapeUrlView (view (val x)) kEscapeParam else [])
      ++ encode_params false ps
  end.

(** The part between the slashes and the path. *)
Definition encode_authority (h : Url) : bytes :=
  (if is_some (user h) then
     EscapeUrlView (view (user h)) kEscapeAuthority
     ++ (if is_some (pass h) then 58 :: EscapeUrlView (view (pass h)) kEscapeAuthority else [])
     ++ [64]
   else [])
  ++ (if NeedsSquareBrackets h
      then 91 :: EscapeUrlView (view (host h)) kEscapeIp ++ [93]
      else EscapeUrlView (view (host h)) kEscapeAuthority)
  ++ (if is_some (port h) then 58 :: EscapeUrlView (view (port h)) kEscapeAuthority else []).

Definition encode_url (h : Url) : bytes :=
  (if negb (Z.of_nat (length (view (scheme h))) =? 0) then view (scheme h) ++ [58] else [])
  ++ (if is_some (host h) then
        [47; 47] ++ encode_authority h
        ++ (if negb (Z.of_nat (length (view (path h))) =? 0) && negb (tab (view (path h)) 0 =? 47)
            then [47] else [])
      else [])
  ++ EscapeUrlView (view (path h)) kEscapePath
  ++ match params_p (params h) with
     | Some ps => 63 :: encode_params true (take (Z.to_nat (params_n (params h))) ps)
     | None => []
     end
  ++ (if is_some (fragment h) then 35 :: EscapeUrlView (view (fragment h)) kEscapeFragment else []).

(** The NUL-terminated text and its length; the length is 0 when there is no memory. *)
Definition EncodeUrl (malloc : Z -> bool) (h : Url) : option bytes * Z :=
  if malloc (DimensionUrl h)
  then (Some (encode_url h ++ [0]), Z.of_nat (length (encode_url h)))
  else (None, 0).

Example url_1 :
  ParseUrl (fun _ => true) (Param None None) (fun _ => true)
    (Some (bstr "http://a:b@c:8/d%20e?f=g&h#i")) 28 0 =
  (Some (bstr "httpa:bc:8/d efghi"),
   MkUrl (Some (bstr "http")) (Some (bstr "a")) (Some (bstr "b")) (Some (bstr "c"))
     (Some (bstr "8")) (Some (bstr "/d e"))
     (Params 2 (Some [Param (Some (bstr "f")) (Some (bstr "g")); Param (Some (bstr "h")) None]))
     (Some (bstr "i"))).
Proof. reflexivity. Qed.

(* ------------------------------------------------------------------ *)
(** ** Lemmas: escaping *)

(** What the callers of the escape tables rely on: the percent sign and all bytes outside
    ASCII are escaped, and what is not escaped is [safe]. *)
Class EscapeTable (T : list Z) (safe : Z -> bool) := {
  et_percent : tab T 37 <> 0;
  et_safe c : is_byte c -> tab T c = 0 -> c < 0x80 /\ safe c = true
}.

Definition table_ok (T : list Z) (safe : Z -> bool) : bool :=
  negb (tab T 37 =? 0)
  && forallb (fun c => implb (tab T c =? 0) ((c <? 0x80) && safe c)) (zbelow 256).

Lemma table_ok_sound T safe : table_ok T safe = true -> EscapeTable T safe.
Proof.
  unfold table_ok. rewrite andb_true_iff. intros [H1 H2]. split; [lia|].
  intros c Hc E. pose proof (forall_byte _ H2 c Hc) as H. cbv beta in H.
  rewrite E in H. cbn in H. rewrite andb_true_iff in H. destruct H. split; [lia|done].
Qed.

(** The delimiters of the components. *)
Definition authority_safe (c : Z) : bool :=
  negb (authority_stop c || mem c (bstr "[]:@")).
Definition ip_safe (c : Z) : bool := negb (authority_stop c || mem c (bstr "[]@")).
Definition path_safe (c : Z) : bool := negb (mem c (bstr "#?")).
Definition segment_safe (c : Z) : bool := negb (mem c (bstr "/#?")).
Definition param_safe (c : Z) : bool := negb (mem c (bstr "#+&=?")).
Definition fragment_safe (c : Z) : bool := negb (c =? 35).

#[export] Instance authority_table : EscapeTable kEscapeAuthority authority_safe.
Proof. apply table_ok_sound. vm_compute. reflexivity. Qed.
#[export] Instance ip_table : EscapeTable kEscapeIp ip_safe.
Proof. apply table_ok_sound. vm_compute. reflexivity. Qed.
#[export] Instance path_table : EscapeTable kEscapePath path_safe.
Proof. apply table_ok_sound. vm_compute. reflexivity. Qed.
#[export] Instance segment_table : EscapeTable kEscapeSegment segment_safe.
Proof. apply table_ok_sound. vm_compute. reflexivity. Qed.
#[export] Instance param_table : EscapeTable kEscapeParam param_safe.
Proof. apply table_ok_sound. vm_compute. reflexivity. Qed.
#[export] Instance fragment_table : EscapeTable kEscapeFragment fragment_safe.
Proof. apply table_ok_sound. vm_compute. reflexivity. Qed.

Lemma unhex_hex c : is_byte c ->
  unhex (tab HEX (Z.shiftr (Z.land c 0xF0) 4)) (tab HEX (Z.shiftr (Z.land c 0x0F) 0)) = Some c.
Proof.
  intros Hc.
  assert (forallb (fun c => bool_decide
    (unhex (tab HEX (Z.shiftr (Z.land c 0xF0) 4)) (tab HEX (Z.shiftr (Z.land c 0x0F) 0)) = Some c))
    (zbelow 256) = true) as F by (vm_compute; reflexivity).
  apply (forall_byte _ F) in Hc. by apply bool_decide_eq_true in Hc.
Qed.

(** The last byte read of an escaped text. *)
Definition last_read (T : list Z) (v : bytes) (c0 : Z) : Z :=
  List.last (map (fun c => if tab T c =? 0 then c else 37) v) c0.

Lemma last_cons_default (x d d' : Z) l : List.last (x :: l) d = List.last (x :: l) d'.
Proof. revert x. induction l as [|y l IH]; intros x; [done|]. apply (IH y). Qed.

Lemma last_read_cons T x v c0 :
  last_read T (x :: v) c0 = last_read T v (if tab T x =? 0 then x else 37).
Proof.
  unfold last_read. cbn [map]. destruct (map _ v) as [|y l]; [done|]. 
  apply (last_cons_default y).
Qed.

Lemma last_read_safe T safe v c0 {E : EscapeTable T safe} :
  Bytes v -> v <> [] -> last_read T v c0 = 37 \/ safe (last_read T v c0) = true.
Proof.
  intros B. revert c0. induction B as [|x v Hx _ IH]; intros c0 N; [done|].
  rewrite last_read_cons. destruct v as [|y v]; [|by apply IH].
  unfold last_read. cbn [map List.last]. destruct (Z.eqb_spec (tab T x) 0); [|by left].
  right. by apply (et_safe x).
Qed.

Lemma byte_255 c : is_byte c -> Z.land c 255 = c.
Proof. intros. rewrite land_255. by apply Z.mod_small. Qed.

(** A loop of the parser over an escaped component copies the component. *)
Lemma walk_escape {A} stop (special : Z -> A -> UrlParser -> option (A * UrlParser))
    T safe {E : EscapeTable T safe} a v :
  stop 37 = false ->
  (forall c u, is_byte c -> safe c = true -> stop c = false /\ special c a u = None) ->
  Bytes v -> forall l p q c f,
  walk stop special (EscapeUrlView v T ++ l) a (Parser p q c f) =
  walk stop special l a (Parser (p ++ v) q (last_read T v c) f).
Proof.
  intros S37 Hs B. induction B as [|x v Hx _ IH]; intros l p q c f.
  - cbn [EscapeUrlView app]. rewrite app_nil_r. done.
  - cbn [EscapeUrlView]. rewrite byte_255 by done. rewrite last_read_cons.
    replace (p ++ x :: v) with ((p ++ [x]) ++ v) by (by rewrite <- app_assoc).
    destruct (Z.eqb_spec (tab T x) 0) as [E0|N0]; cbn [app walk].
    + destruct (et_safe x Hx E0) as [Lx Sx]. rewrite byte_255 by done.
      destruct (Hs x (set_c x (Parser p q c f)) Hx Sx) as [-> ->].
      assert (x <> 37) as Nx by (intros ->; by apply et_percent in E0).
      rewrite (proj2 (Z.eqb_neq _ _) Nx), <- IH. f_equal. unfold put_char, set_c. cbn [u_c].
      by rewrite (proj2 (Z.leb_gt 128 x)) by lia.
    + change (Z.land 37 255) with 37. rewrite S37. cbn [Z.eqb Pos.eqb].
      rewrite unhex_hex by done. rewrite <- IH. done.
Qed.

(* ------------------------------------------------------------------ *)
(** ** Lemmas: the parser on printed components *)

Definition scheme_char (c : Z) : bool :=
  isdigit c || is_alpha c || (c =? # "+") || (c =? # "-") || (c =? # ".").

Definition scheme_ok (s : bytes) : Prop :=
  s <> [] /\ is_alpha (hd 0 s) = true /\ Forall (fun c => scheme_char c = true) s.

Lemma scheme_char_spec c : scheme_char c = true ->
  is_byte c /\ c < 0x80 /\ c <> 47 /\ c <> 58 /\ c <> 35 /\ c <> 63 /\ c <> 37.
Proof. unfold scheme_char, is_alpha, isdigit, is_byte. lia. Qed.

(** One byte of a scheme. *)
Lemma ParseScheme_char x l i p q c f h :
  scheme_char x = true -> (if i =? 0 then is_alpha x = true else 0 < i) ->
  ParseScheme (x :: l) i (Parser p q c f) h = ParseScheme l (i + 1) (Parser (p ++ [x]) q x f) h.
Proof.
  intros Hx Hi. destruct (scheme_char_spec x Hx) as (B & L & N1 & N2 & N3 & N4 & N5).
  cbn [ParseScheme]. rewrite byte_255 by done.
  rewrite (proj2 (Z.eqb_neq _ _) N1), (proj2 (Z.eqb_neq _ _) N2), (proj2 (Z.eqb_neq _ _) N3),
    (proj2 (Z.eqb_neq _ _) N4), (proj2 (Z.eqb_neq _ _) N5). cbn [andb orb].
  rewrite (proj2 (Z.leb_gt 128 x)) by lia. cbn [andb].
  destruct (Z.eqb_spec i 0) as [->|].
  - cbn [Z.eqb Z.add Pos.eqb]. by rewrite Hi.
  - rewrite (proj2 (Z.eqb_neq (i + 1) 1)) by lia. unfold scheme_char in Hx. by rewrite Hx.
Qed.

Lemma ParseScheme_chars s : forall l i p q c f h,
  Forall (fun c => scheme_char c = true) s -> 0 < i ->
  exists c', ParseScheme (s ++ l) i (Parser p q c f) h =
             ParseScheme l (i + Z.of_nat (length s)) (Parser (p ++ s) q c' f) h.
Proof.
  induction s as [|x s IH]; intros l i p q c f h F Hi.
  - exists c. cbn [app length]. by rewrite app_nil_r, Z.add_0_r.
  - apply Forall_cons in F as [Hx F]. cbn [app length].
    rewrite ParseScheme_char by (done || (destruct (Z.eqb_spec i 0); [lia|done])).
    destruct (IH l (i + 1) (p ++ [x]) q x f h F) as [c' ->]; [lia|]. exists c'.
    rewrite <- app_assoc. cbn [app]. f_equal. lia.
Qed.

Lemma ParseScheme_colon s l f h :
  scheme_ok s ->
  exists c, ParseScheme (s ++ 58 :: l) 0 (Parser [] 0 0 f) h =
            ParseScheme (58 :: l) (Z.of_nat (length s)) (Parser s 0 c f) h.
Proof.
  intros (N & A & F). destruct s as [|x s]; [done|]. apply Forall_cons in F as [Hx F].
  cbn [app]. rewrite ParseScheme_char by done. cbn [app].
  destruct (ParseScheme_chars s (58 :: l) (0 + 1) [x] 0 x f h F) as [c' ->]; [lia|].
  exists c'. cbn [length app]. f_equal. lia.
Qed.

(** A scheme in front of an authority, and in front of a path. *)
Lemma ParseScheme_authority s l f h :
  scheme_ok s ->
  ParseScheme (s ++ [58] ++ [47; 47] ++ l) 0 (Parser [] 0 0 f) h =
  (true, l, Parser s (Z.of_nat (length s)) 58 f, set_scheme (Some s) h).
Proof.
  intros S. cbn [app]. destruct (ParseScheme_colon s (47 :: 47 :: l) f h S) as [c ->].
  destruct S as (N & _). cbn [ParseScheme]. change (Z.land 58 255) with 58.
  rewrite Z.gtb_ltb, (proj2 (Z.ltb_lt 1 _)) by (destruct s; [done|cbn [length]; lia]). done.
Qed.

Lemma ParseScheme_path s l f h :
  scheme_ok s -> hd 0 l <> 47 ->
  ParseScheme (s ++ [58] ++ 47 :: l) 0 (Parser [] 0 0 f) h =
  (false, 47 :: l, Parser s (Z.of_nat (length s)) 58 f, set_scheme (Some s) h).
Proof.
  intros S Hl. cbn [app]. destruct (ParseScheme_colon s (47 :: l) f h S) as [c ->].
  destruct S as (N & _). cbn [ParseScheme]. change (Z.land 58 255) with 58.
  rewrite Z.gtb_ltb, (proj2 (Z.ltb_lt 1 _)) by (destruct s; [done|cbn [length]; lia]).
  cbn [Z.eqb Pos.eqb andb]. destruct l as [|z l]; [done|]. cbn [hd] in Hl.
  by rewrite (proj2 (Z.eqb_neq z 47)).
Qed.

(** Three pieces of the authority, read in the state that the pieces in front of them
    leave. *)
Definition user_text (us ps : UrlView) : bytes :=
  if is_some us then
    EscapeUrlView (view us) kEscapeAuthority
    ++ (if is_some ps then 58 :: EscapeUrlView (view ps) kEscapeAuthority else []) ++ [64]
  else [].

Definition host_text (brackets : bool) (ho : bytes) : bytes :=
  if brackets then 91 :: EscapeUrlView ho kEscapeIp ++ [93]
  else EscapeUrlView ho kEscapeAuthority.

Abbreviation auth_walk := (walk authority_stop authority_special).

Lemma authority_plain t k h c (u : UrlParser) :
  authority_safe c = true -> authority_stop c = false /\ authority_special c (t, k, h) u = None.
Proof.
  unfold authority_safe. rewrite negb_true_iff, orb_false_iff. intros [-> M]. split; [done|].
  cbn in M. unfold authority_special. ztest; try lia; done.
Qed.

Lemma ip_plain k h c (u : UrlParser) :
  ip_safe c = true -> authority_stop c = false /\ authority_special c (0, k, h) u = None.
Proof.
  unfold ip_safe. rewrite negb_true_iff, orb_false_iff. intros [-> M]. split; [done|].
  cbn in M. unfold authority_special. ztest; try lia; done.
Qed.

(** A component without delimiters. *)
Lemma auth_plain v t k h l p q c f :
  Bytes v ->
  auth_walk (EscapeUrlView v kEscapeAuthority ++ l) (t, k, h) (Parser p q c f) =
  auth_walk l (t, k, h) (Parser (p ++ v) q (last_read kEscapeAuthority v c) f).
Proof.
  intros B. apply (walk_escape _ _ _ authority_safe); [done| |done].
  intros. by apply authority_plain.
Qed.

Lemma last_read_stop v c :
  Bytes v -> v <> [] -> authority_stop (last_read kEscapeAuthority v c) = false.
Proof.
  intros B N. destruct (last_read_safe kEscapeAuthority authority_safe v c B N) as [->|S]; [done|].
  unfold authority_safe in S. rewrite negb_true_iff, orb_false_iff in S. apply S.
Qed.

Lemma drop_length_app (p v : bytes) : drop (Z.to_nat (Z.of_nat (length p))) (p ++ v) = v.
Proof. rewrite Nat2Z.id. apply drop_app_length. Qed.

(** The delimiters. *)
Lemma auth_colon t k h l p q c f :
  0 < t ->
  auth_walk (58 :: l) (t, k, h) (Parser p q c f) =
  auth_walk l (t + 1, Some (Z.of_nat (length (p ++ [58]))), h) (Parser (p ++ [58]) q 58 f).
Proof.
  intros Ht. cbn [walk]. change (Z.land 58 255) with 58. unfold authority_special.
  rewrite Z.gtb_ltb, (proj2 (Z.ltb_lt 0 t)) by done. done.
Qed.

Lemma auth_at_pass t h l p us ps c f :
  auth_walk (64 :: l) (t, Some (Z.of_nat (length ((p ++ us) ++ [58]))), h)
    (Parser (((p ++ us) ++ [58]) ++ ps) (Z.of_nat (length p)) c f) =
  auth_walk l (1, None, set_pass (Some ps) (set_user (Some us) h))
    (Parser (((p ++ us) ++ [58]) ++ ps) (Z.of_nat (length (((p ++ us) ++ [58]) ++ ps))) 64 f).
Proof.
  cbn [walk]. change (Z.land 64 255) with 64.
  cbn [authority_stop Z.eqb Pos.eqb orb authority_special andb].
  unfold set_c, advance. cbn [u_p u_q u_c u_f]. rewrite drop_length_app.
  rewrite <- !app_assoc, drop_length_app.
  replace (Z.to_nat _) with (length us); [by rewrite take_app_length|].
  rewrite !length_app. cbn [length]. lia.
Qed.

Lemma auth_at t h l p us c f :
  auth_walk (64 :: l) (t, None, h) (Parser (p ++ us) (Z.of_nat (length p)) c f) =
  auth_walk l (t, None, set_user (Some us) h)
    (Parser (p ++ us) (Z.of_nat (length (p ++ us))) 64 f).
Proof.
  cbn [walk]. change (Z.land 64 255) with 64.
  cbn [authority_stop Z.eqb Pos.eqb orb authority_special andb].
  unfold view_qp, set_c, advance. cbn [u_p u_q u_c u_f]. by rewrite drop_length_app.
Qed.

Lemma auth_user us ps h l p c f :
  (us = None -> ps = None) -> Bytes (view us) -> Bytes (view ps) ->
  user h = None -> pass h = None ->
  exists p' c',
    auth_walk (user_text us ps ++ l) (1, None, h) (Parser p (Z.of_nat (length p)) c f) =
    auth_walk l (1, None, set_pass ps (set_user us h))
              (Parser p' (Z.of_nat (length p')) c' f) /\
    (us = None /\ c' = c \/ authority_stop c' = false).
Proof.
  intros Hn Bu Bp Eu Ep. destruct us as [us|]; cbn [user_text is_some view].
  2: { rewrite Hn by done. exists p, c. split; [|by left]. cbn [app]. destruct h; cbn in *.
       by subst. }
  destruct ps as [ps|]; cbn [is_some view from_option id] in *.
  - eexists _, 64. split; [|by right].
    rewrite <- !app_assoc, auth_plain by done. cbn [app].
    rewrite auth_colon, auth_plain by done. apply auth_at_pass.
  - eexists _, 64. split; [|by right]. cbn [app].
    rewrite <- app_assoc, auth_plain by done. cbn [app]. rewrite auth_at.
    destruct h; cbn in *; by subst.
Qed.

Lemma auth_host b ho t h l p q c f :
  Bytes ho -> t = 1 ->
  exists c',
    auth_walk (host_text b ho ++ l) (t, None, h) (Parser p q c f) =
    auth_walk l (t, None, h) (Parser (p ++ ho) q c' f) /\
    (host_text b ho = [] /\ c' = c \/ authority_stop c' = false).
Proof.
  intros B ->. destruct b; unfold host_text.
  - exists 93. split; [|by right]. cbn [app]. rewrite <- app_assoc.
    transitivity (auth_walk (EscapeUrlView ho kEscapeIp ++ 93 :: l) (0, None, h) (Parser p q 91 f));
      [done|].
    rewrite (walk_escape _ _ _ ip_safe); [done|done| |done].
    intros. by apply ip_plain.
  - eexists. rewrite auth_plain by done. split; [done|].
    destruct ho as [|x ho]; [by left|right]. by apply last_read_stop.
Qed.

Definition port_text (po : UrlView) : bytes :=
  if is_some po then 58 :: EscapeUrlView (view po) kEscapeAuthority else [].

Lemma auth_end l a u :
  match l with [] => True | x :: _ => authority_stop x = true end ->
  auth_walk l a u = (tl l, a, match l with [] => u | x :: _ => set_c x u end).
Proof.
  destruct l as [|x l]; [done|]. intros S. cbn [walk tl].
  rewrite byte_255 by (unfold authority_stop, is_byte in *; lia). by rewrite S.
Qed.

(** The port, and what ParseAuthority does behind its loop. *)
Lemma auth_finish po ho h l p c f :
  Bytes (view po) -> port h = None ->
  match l with [] => True | x :: _ => authority_stop x = true end ->
  exists p' t k c',
    auth_walk (port_text po ++ l) (1, None, h) (Parser (p ++ ho) (Z.of_nat (length p)) c f) =
    (tl l, (t, k, h), Parser p' (Z.of_nat (length p)) c' f) /\
    (if t =? 2 then
       set_port (Some (drop (Z.to_nat (default 0 k)) p'))
         (set_host (Some (take (Z.to_nat (default 0 k - 1 - Z.of_nat (length p)))
                               (drop (Z.to_nat (Z.of_nat (length p))) p'))) h)
     else set_host (Some (drop (Z.to_nat (Z.of_nat (length p))) p')) h) =
    set_port po (set_host (Some ho) h) /\
    match l with
    | [] => po = None /\ c' = c \/ authority_stop c' = false
    | x :: _ => c' = x
    end.
Proof.
  intros B E Hl. destruct po as [po|]; unfold port_text; cbn [is_some view from_option id] in *.
  - exists (((p ++ ho) ++ [58]) ++ po), 2, (Some (Z.of_nat (length ((p ++ ho) ++ [58])))),
      (match l with [] => last_read kEscapeAuthority po 58 | x :: _ => x end).
    cbn [app]. rewrite auth_colon, auth_plain, auth_end by done.
    split; [by destruct l|]. cbn [Z.eqb Z.add Pos.add Pos.eqb default from_option id].
    split; [|destruct l; [right; destruct po; [done|by apply last_read_stop]|done]].
    rewrite drop_length_app. f_equal. rewrite <- !app_assoc, drop_length_app.
    replace (Z.to_nat _) with (length ho); [by rewrite take_app_length|].
    rewrite !length_app. cbn [length]. lia.
  - exists (p ++ ho), 1, None, (match l with [] => c | x :: _ => x end).
    cbn [app]. rewrite auth_end by done. split; [by destruct l|].
    cbn [Z.eqb Pos.eqb]. rewrite drop_length_app. split; [destruct h; cbn in *; by subst|].
    destruct l; [by left|done].
Qed.

(** The whole authority. *)
Lemma ParseAuthority_ok us ps b ho po h l p c f :
  (us = None -> ps = None) -> Bytes (view us) -> Bytes (view ps) -> Bytes ho ->
  Bytes (view po) -> user h = None -> pass h = None -> port h = None ->
  match l with [] => True | x :: _ => authority_stop x = true end ->
  let text := user_text us ps ++ host_text b ho ++ port_text po in
  (l = [] -> authority_stop c = false \/ text <> []) ->
  exists p' c',
    ParseAuthority (text ++ l) (Parser p (Z.of_nat (length p)) c f) h =
    (tl l, Parser (p' ++ (if hd 0 l =? 47 then [47] else [])) (Z.of_nat (length p')) c' f,
     set_port po (set_host (Some ho) (set_pass ps (set_user us h)))) /\
    match l with [] => authority_stop c' = false | x :: _ => c' = x end.
Proof.
  intros Hn Bu Bp Bh Bo Eu Ep Eo Hl text Hc. unfold ParseAuthority. subst text.
  rewrite <- !app_assoc.
  destruct (auth_user us ps h (host_text b ho ++ port_text po ++ l) p c f
    Hn Bu Bp Eu Ep) as (p1 & c1 & -> & C1).
  set (h1 := set_pass ps (set_user us h)).
  destruct (auth_host b ho 1 h1 (port_text po ++ l) p1 (Z.of_nat (length p1)) c1 f Bh eq_refl)
    as (c2 & -> & C2).
  destruct (auth_finish po ho h1 l p1 c2 f Bo) as (p3 & t & k & c3 & -> & H3 & C3);
    [by destruct h|done|].
  unfold view_qp. cbn [u_p u_q]. rewrite H3. unfold advance, put. cbn [u_p u_c u_f u_q].
  exists p3, c3. split.
  - destruct l as [|x l]; cbn [hd tl].
    + assert (authority_stop c3 = false) as S3.
      { destruct C3 as [[-> ->]|?]; [|done]. destruct C2 as [[E2 ->]|?]; [|done].
        destruct C1 as [[-> ->]|?]; [|done]. destruct (Hc eq_refl) as [?|N]; [done|].
        exfalso. apply N. cbn [user_text is_some]. by rewrite E2. }
      unfold authority_stop in S3. destruct (Z.eqb_spec c3 47); [lia|].
      cbn [Z.eqb]. by rewrite app_nil_r.
    + subst c3. destruct (x =? 47) eqn:Ex; [|by rewrite app_nil_r].
      apply Z.eqb_eq in Ex. by subst.
  - destruct l as [|x l]; [|done].
    destruct C3 as [[-> ->]|?]; [|done]. destruct C2 as [[E2 ->]|?]; [|done].
    destruct C1 as [[-> ->]|?]; [|done]. destruct (Hc eq_refl) as [?|N]; [done|].
    exfalso. apply N. cbn [user_text is_some]. by rewrite E2.
Qed.

Lemma path_safe_spec c : path_safe c = true -> c <> 35 /\ c <> 63.
Proof. unfold path_safe. cbn. lia. Qed.

Lemma param_safe_spec c :
  param_safe c = true -> c <> 35 /\ c <> 43 /\ c <> 38 /\ c <> 61 /\ c <> 63.
Proof. unfold param_safe. cbn. lia. Qed.

Lemma ParsePath_ok v l p w c f :
  Bytes v -> Z.land f kUrlOpaque = 0 ->
  match l with [] => True | x :: _ => x = 35 \/ x = 63 end ->
  exists p' c',
    ParsePath (EscapeUrlView v kEscapePath ++ l) (Parser (p ++ w) (Z.of_nat (length p)) c f) =
    (tl l, Parser p' (Z.of_nat (length p')) c' f, Some (w ++ v)) /\
    match l with [] => v = [] /\ c' = c \/ c' <> 35 /\ c' <> 63 | x :: _ => c' = x end.
Proof.
  intros B F Hl. unfold ParsePath, flag. cbn [u_f]. rewrite F. cbn [Z.eqb negb].
  rewrite (walk_escape _ _ _ path_safe); [|done| |done].
  2: { intros x u _ S. apply path_safe_spec in S. split; [lia|done]. }
  exists ((p ++ w) ++ v),
    (match l with [] => last_read kEscapePath v c | x :: _ => x end).
  assert (drop (Z.to_nat (Z.of_nat (length p))) ((p ++ w) ++ v) = w ++ v) as E
    by (rewrite <- app_assoc; apply drop_length_app).
  destruct l as [|x l]; cbn [walk tl].
  - unfold view_qp, advance. cbn [u_p u_q u_c u_f]. rewrite E. split; [done|].
    destruct v as [|y v]; [by left|right].
    destruct (last_read_safe kEscapePath path_safe (y :: v) c B) as [->|S]; [done|lia|].
    apply path_safe_spec in S. lia.
  - assert (Z.land x 255 = x) as -> by (apply byte_255; unfold is_byte; lia).
    replace ((x =? 35) || (x =? 63) && true) with true by lia.
    unfold view_qp, advance, set_c. cbn [u_p u_q u_c u_f]. by rewrite E.
Qed.

Lemma ParseFragment_ok v p c f :
  Bytes v ->
  exists u, ParseFragment (EscapeUrlView v kEscapeFragment) (Parser p (Z.of_nat (length p)) c f) =
            (u, Some v).
Proof.
  intros B. unfold ParseFragment. rewrite <- (app_nil_r (EscapeUrlView v _)).
  rewrite (walk_escape _ _ _ fragment_safe) by done.
  cbn [walk]. eexists. unfold view_qp. cbn [u_p u_q]. by rewrite drop_length_app.
Qed.

Section QueryLemmas.
Context (junk : UrlParam).
Abbreviation query_walk := (walk (fun c => c =? 35) (query_special (fun _ => true) junk)).
Abbreviation EmitKey' := (EmitKey (fun _ => true) junk).
Abbreviation EmitVal' := (EmitVal (fun _ => true) junk).

(** An array of parameters that is filled up to its counter. *)
Definition full (ps : list UrlParam) : UrlParams := Params (Z.of_nat (length ps)) (Some ps).

Lemma EmitKey_full ps p w c f :
  Z.of_nat (length ps) < 2 ^ 32 ->
  EmitKey' (Parser (p ++ w) (Z.of_nat (length p)) c f) (full ps) =
  (true, Parser (p ++ w) (Z.of_nat (length (p ++ w))) c f, full (ps ++ [Param (Some w) (val junk)])).
Proof.
  intros L. unfold EmitKey, full, view_qp, advance.
  cbn [params_n params_p u_p u_q u_c u_f default from_option id].
  rewrite (u64_id (_ + 1)) by lia. rewrite drop_length_app.
  replace (Z.of_nat (length ps) + 1 - 1) with (Z.of_nat (length ps)) by lia.
  rewrite Nat2Z.id, take_app_length, (length_app ps). cbn [length].
  by replace (Z.of_nat (length ps + 1)) with (Z.of_nat (length ps) + 1) by lia.
Qed.

Lemma set_val_full ps k v v' :
  set_val v (full (ps ++ [Param k v'])) = full (ps ++ [Param k v]).
Proof.
  unfold set_val, full. cbn [params_n params_p]. rewrite !length_app. cbn [length].
  do 2 f_equal. replace (Z.to_nat _) with (length ps + 0)%nat by lia.
  rewrite alter_app_r. done.
Qed.

Lemma query_plain v t h l p q c f :
  Bytes v ->
  query_walk (EscapeUrlView v kEscapeParam ++ l) (t, h) (Parser p q c f) =
  query_walk l (t, h) (Parser (p ++ v) q (last_read kEscapeParam v c) f).
Proof.
  intros B. apply (walk_escape _ _ _ param_safe); [done| |done].
  intros x u _ S. apply param_safe_spec in S. split; [lia|].
  unfold query_special. ztest; try lia; done.
Qed.

Definition param_ok (x : UrlParam) : Prop :=
  exists k, key x = Some k /\ Bytes k /\ Bytes (view (val x)).

(** The state of the loop behind the text of a parameter: the key was emitted if there
    was an equals sign. *)
Lemma query_param x ps l p c f :
  param_ok x -> Z.of_nat (length ps) < 2 ^ 32 ->
  exists p' w' c' t' ps',
    query_walk (EscapeUrlView (view (key x)) kEscapeParam
                ++ (if is_some (val x) then 61 :: EscapeUrlView (view (val x)) kEscapeParam else [])
                ++ l) (false, full ps) (Parser p (Z.of_nat (length p)) c f) =
    query_walk l (t', full ps') (Parser (p' ++ w') (Z.of_nat (length p')) c' f) /\
    (forall d, d <> 63 \/ w' <> [] \/ t' = true ->
       exists p'', EmitVal' (Parser (p' ++ w') (Z.of_nat (length p')) d f) (full ps') t' =
                   (Parser p'' (Z.of_nat (length p'')) d f, full (ps ++ [x]))) /\
    (c' = c /\ t' = false /\ w' = [] /\ x = Param (Some []) None \/
     c' <> 35 /\ (t' = true \/ w' <> [])).
Proof.
  intros (k & Ek & Bk & Bv) L. destruct x as [k' v]. cbn [key val] in *. subst k'.
  cbn [view default from_option id]. rewrite query_plain by done.
  assert (forall v c, Bytes v -> v <> [] -> last_read kEscapeParam v c <> 35) as LR.
  { intros v0 c0 B N. destruct (last_read_safe kEscapeParam param_safe v0 c0 B N) as [->|S]; [lia|].
    apply param_safe_spec in S. lia. }
  destruct v as [v|]; cbn [is_some view default from_option id] in *.
  - exists (p ++ k), v, (last_read kEscapeParam v 61), true, (ps ++ [Param (Some k) (val junk)]).
    split; [|split; [|right]].
    + cbn [app walk]. change (Z.land 61 255) with 61.
      cbn [Z.eqb Pos.eqb query_special negb]. unfold set_c. cbn [u_p u_q u_c u_f].
      rewrite EmitKey_full by done. by rewrite query_plain.
    + intros d _. exists ((p ++ k) ++ v). unfold EmitVal, view_qp, advance. cbn [negb u_p u_q u_c u_f].
      by rewrite drop_length_app, set_val_full.
    + split; [|by left]. destruct v; [done|by apply LR].
  - exists p, k, (last_read kEscapeParam k c), false, ps.
    split; [done|split].
    + intros d Hd. exists (p ++ k). unfold EmitVal. cbn [negb u_p u_q u_c].
      replace ((_ >? _) || _) with true.
      * rewrite EmitKey_full by done. by rewrite set_val_full.
      * symmetry. apply orb_true_iff. destruct Hd as [?|[N|?]]; [right| |done].
        -- by apply negb_true_iff, Z.eqb_neq.
        -- left. rewrite Z.gtb_ltb, length_app. apply Z.ltb_lt.
           destruct k; [done|]. cbn [length]. lia.
    + destruct k; [by left|right]. split; [by apply LR|by right].
Qed.

(** The loop of ParseQuery and the last EmitVal. *)
Definition query_rest (l : bytes) (a : bool * UrlParams) (u : UrlParser)
  : bytes * UrlParser * UrlParams :=
  let '(l, (t, h), u) := query_walk l a u in
  let '(u, h) := EmitVal' u h t in (l, u, h).

Lemma query_rest_end l t h u :
  match l with [] => True | x :: _ => x = 35 end ->
  query_rest l (t, h) u =
  let '(u, h) := EmitVal' (match l with [] => u | x :: _ => set_c x u end) h t in
  (tl l, u, h).
Proof. destruct l as [|x l]; [done|]. intros ->. done. Qed.

Lemma query_params ps : forall acc l p c f,
  Forall param_ok ps -> ps <> [] -> Z.of_nat (length acc + length ps) < 2 ^ 32 ->
  match l with [] => True | x :: _ => x = 35 end -> c <> 35 ->
  (ps = [Param (Some []) None] -> l = [] -> c <> 63) ->
  exists p' c',
    query_rest (encode_params true ps ++ l) (false, full acc) (Parser p (Z.of_nat (length p)) c f) =
    (tl l, Parser p' (Z.of_nat (length p')) c' f, full (acc ++ ps)) /\
    match l with [] => c' <> 35 | x :: _ => c' = x end.
Proof.
  induction ps as [|x ps IH]; intros acc l p c f F N L Hl Hc Hq; [done|].
  apply Forall_cons in F as [Fx F]. cbn [length] in L.
  destruct (query_param x acc (encode_params false ps ++ l) p c f Fx ltac:(lia))
    as (p1 & w1 & c1 & t1 & ps1 & E1 & V1 & C1).
  assert (query_rest (encode_params true (x :: ps) ++ l) (false, full acc)
            (Parser p (Z.of_nat (length p)) c f) =
          query_rest (encode_params false ps ++ l) (t1, full ps1)
            (Parser (p1 ++ w1) (Z.of_nat (length p1)) c1 f)) as ->.
  { unfold query_rest. rewrite <- E1. cbn [encode_params app]. by rewrite <- !app_assoc. }
  destruct ps as [|y ps].
  - cbn [encode_params app]. rewrite query_rest_end by done. destruct l as [|z l].
    + destruct (V1 c1) as [p2 ->].
      { destruct C1 as [(-> & _ & _ & ->)|[_ [?|?]]]; auto. }
      exists p2, c1. split; [done|]. destruct C1 as [(-> & _)|[? _]]; done.
    + subst z. destruct (V1 35) as [p2 E2]; [by left|]. unfold set_c. cbn [u_p u_q u_f].
      rewrite E2. by exists p2, 35.
  - assert (query_rest (encode_params false (y :: ps) ++ l) (t1, full ps1)
              (Parser (p1 ++ w1) (Z.of_nat (length p1)) c1 f) =
            let '(u, h) := EmitVal' (Parser (p1 ++ w1) (Z.of_nat (length p1)) 38 f) (full ps1) t1 in
            query_rest (encode_params true (y :: ps) ++ l) (false, h) u) as ->.
    { unfold query_rest. cbn [encode_params app walk]. change (Z.land 38 255) with 38.
      cbn [Z.eqb Pos.eqb query_special]. unfold set_c. cbn [u_p u_q u_f].
      by destruct (EmitVal' _ _ _). }
    destruct (V1 38) as [p2 ->]; [left; lia|].
    destruct (IH (acc ++ [x]) l p2 38 f F) as (p' & c' & -> & C'); try done.
    + rewrite length_app. cbn [length] in *. lia.
    + exists p', c'. split; [|done]. by rewrite <- app_assoc.
Qed.
End QueryLemmas.

Lemma encode_params_length ps : (length ps <= length (encode_params true ps) + 1)%nat.
Proof.
  destruct ps as [|x ps]; [cbn; lia|]. cbn [encode_params app length].
  assert (forall ps, (length ps <= length (encode_params false ps))%nat) as H.
  { induction ps0 as [|y ps0 IH]; [done|]. cbn [encode_params app length].
    rewrite !length_app. lia. }
  rewrite !length_app. specialize (H ps). lia.
Qed.

(* ------------------------------------------------------------------ *)
(** ** URLs that survive printing and parsing *)

(** What follows the path. *)
Definition tail_text (h : Url) : bytes :=
  match params_p (params h) with
  | Some ps => 63 :: encode_params true ps
  | None => []
  end
  ++ (if is_some (fragment h) then 35 :: EscapeUrlView (view (fragment h)) kEscapeFragment else []).

(** No parameters behind a question mark cannot be told from one empty parameter when a
    fragment follows, and the other way around when none does. *)
Definition query_ok (h : Url) : Prop :=
  Bytes (view (fragment h)) /\
  match params_p (params h) with
  | None => params_n (params h) = 0
  | Some ps => params_n (params h) = Z.of_nat (length ps) /\ Forall param_ok ps /\
               (ps = [] -> fragment h = None) /\
               (ps = [Param (Some []) None] -> is_some (fragment h) = true)
  end.

Definition authority_text (h : Url) : bytes :=
  user_text (user h) (pass h) ++ host_text (NeedsSquareBrackets h) (view (host h))
  ++ port_text (port h).

Definition authority_ok (h : Url) : Prop :=
  (user h = None -> pass h = None) /\ Bytes (view (user h)) /\ Bytes (view (pass h)) /\
  Bytes (view (host h)) /\ Bytes (view (port h)).

(** The path is absolute, or empty; an empty path that is followed by parameters or a
    fragment is absent behind an authority. *)
Definition path_ok (h : Url) : Prop :=
  (exists p, path h = Some (47 :: p) /\ Bytes p /\ (host h = None -> hd 0 p <> 47)) \/
  (is_some (host h) = true /\ path h = Some [] /\ tail_text h = [] /\
   (scheme h = None -> authority_text h <> [])) \/
  (is_some (host h) = true /\ path h = None /\ tail_text h <> []) \/
  (host h = None /\ scheme h = None /\ path h = Some []).

Definition url_ok (h : Url) : Prop :=
  match scheme h with Some s => scheme_ok s | None => True end /\
  match host h with
  | Some _ => authority_ok h
  | None => user h = None /\ pass h = None /\ port h = None
  end /\ path_ok h /\ query_ok h.

Section RoundTrip.
Context (junk : UrlParam).

(** The last two stages of ParseUrl. *)
Definition parse_tail (l : bytes) (u : UrlParser) (h : Url) : UrlParser * Url :=
  let '(l, u, h) :=
    if u_c u =? # "?"
    then let '(l, u, v) := ParseQuery (fun _ => true) junk l u (params h) in (l, u, set_params v h)
    else (l, u, h) in
  if u_c u =? # "#"
  then let '(u, v) := ParseFragment l u in (u, set_fragment v h) else (u, h).

(** The stage in front of them. *)
Definition parse_path (l : bytes) (u : UrlParser) (h : Url) : bytes * UrlParser * Url :=
  if negb (u_c u =? # "#") && negb (u_c u =? # "?")
  then let '(l, u, v) := ParsePath l u in (l, u, set_path v h) else (l, u, h).

Definition parse_authority (auth : bool) (l : bytes) (u : UrlParser) (h : Url)
  : bytes * UrlParser * Url :=
  if auth then ParseAuthority l u h else (l, u, h).

Lemma parse_tail_ok h h0 p c :
  query_ok h -> Z.of_nat (length (tail_text h)) < 2 ^ 32 ->
  params h0 = Params 0 None -> fragment h0 = None ->
  match tail_text h with [] => c <> 35 /\ c <> 63 | x :: _ => c = x end ->
  exists u, parse_tail (tl (tail_text h)) (Parser p (Z.of_nat (length p)) c 0) h0 =
            (u, set_fragment (fragment h) (set_params (params h) h0)).
Proof.
  intros [Bf Q] L P0 F0 Hc. unfold parse_tail, tail_text in *. cbn [u_c].
  destruct h as [? ? ? ? ? ? [n [ps|]] fr]; cbn [params_p params_n params fragment] in *.
  - destruct Q as (-> & F & E0 & E1). cbn [app tl] in *. subst c. cbn [Z.eqb Pos.eqb].
    rewrite P0.
    set (ft := if is_some fr then _ else _) in *.
    assert (exists p' c', ParseQuery (fun _ => true) junk (encode_params true ps ++ ft)
        (Parser p (Z.of_nat (length p)) 63 0) (Params 0 None) =
      (tl ft, Parser p' (Z.of_nat (length p')) c' 0, full ps) /\
      match ft with [] => c' <> 35 | x :: _ => c' = x end) as (p' & c' & -> & C').
    { destruct (decide (ps = [])) as [->|Ne].
      - assert (ft = []) as -> by (subst ft; by rewrite E0).
        exists p, 63. split; [|lia]. unfold ParseQuery, EmitVal. cbn.
        by rewrite Z.gtb_ltb, Z.ltb_irrefl.
      - apply (query_params junk ps [] ft p 63 0); try done.
        + cbn [length] in *. rewrite length_app in L. pose proof (encode_params_length ps). lia.
        + subst ft. by destruct (is_some fr).
        + intros E. subst ft. by rewrite E1. }
    subst ft. cbn [u_c]. destruct fr as [fr|]; cbn [is_some] in *.
    + subst c'. cbn [Z.eqb Pos.eqb tl view default from_option id].
      destruct (ParseFragment_ok fr p' 35 0 Bf) as [u ->]. eexists.
      unfold set_fragment, set_params. by destruct h0.
    + rewrite (proj2 (Z.eqb_neq _ _) C'). eexists. destruct h0; cbn in *. by subst.
  - destruct fr as [fr|]; cbn [is_some app tl] in *.
    + subst c n. cbn [Z.eqb Pos.eqb view default from_option id]. cbn [u_c Z.eqb Pos.eqb].
      destruct (ParseFragment_ok fr p 35 0 Bf) as [u ->]. eexists. destruct h0; cbn in *. by subst.
    + subst n. destruct Hc as [H1 H2]. rewrite (proj2 (Z.eqb_neq _ _) H2). cbn [u_c].
      rewrite (proj2 (Z.eqb_neq _ _) H1). eexists. destruct h0; cbn in *. by subst.
Qed.

Definition scheme_text (h : Url) : bytes :=
  match scheme h with Some s => s ++ [58] | None => [] end.

Lemma encode_url_text h :
  url_ok h ->
  encode_url h =
  scheme_text h ++ (if is_some (host h) then [47; 47] ++ authority_text h else [])
  ++ EscapeUrlView (view (path h)) kEscapePath ++ tail_text h.
Proof.
  intros (S & A & P & Q). unfold encode_url, scheme_text, tail_text.
  assert ((if negb (Z.of_nat (length (view (scheme h))) =? 0) then view (scheme h) ++ [58] else [])
          = match scheme h with Some s => s ++ [58] | None => [] end) as ->.
  { destruct (scheme h) as [[|x s]|]; [by destruct S|done|done]. }
  assert (negb (Z.of_nat (length (view (path h))) =? 0) && negb (tab (view (path h)) 0 =? 47)
          = false) as ->.
  { destruct P as [(p & -> & _)|[(_ & -> & _)|[(_ & -> & _)|(_ & _ & ->)]]]; try done. }
  assert (encode_authority h = authority_text h) as -> by done.
  f_equal. f_equal; [by destruct (is_some (host h)); rewrite ?app_nil_r|]. f_equal. f_equal.
  destruct Q as [_ Q]. destruct (params_p (params h)); [|done]. destruct Q as (-> & _).
  by rewrite Nat2Z.id, firstn_all.
Qed.

Lemma escape_path_hd p l :
  Bytes p -> hd 0 p <> 47 -> hd 0 l <> 47 -> hd 0 (EscapeUrlView p kEscapePath ++ l) <> 47.
Proof.
  intros B Hp Hl. destruct B as [|x p Hx _]; [done|]. cbn [EscapeUrlView hd] in *.
  rewrite byte_255 by done. by destruct (tab kEscapePath x =? 0).
Qed.

Lemma tail_text_hd h : match tail_text h with [] => True | x :: _ => x = 35 \/ x = 63 end.
Proof.
  unfold tail_text. destruct (params_p _); cbn [app]; [by right|].
  destruct (is_some _); [by left|done].
Qed.

(** Behind the authority. *)
Lemma parse_path_host h h0 p c :
  path_ok h -> is_some (host h) = true ->
  let l := EscapeUrlView (view (path h)) kEscapePath ++ tail_text h in
  path h0 = None ->
  match l with [] => authority_stop c = false | x :: _ => c = x end ->
  exists p' c',
    parse_path (tl l) (Parser (p ++ (if hd 0 l =? 47 then [47] else [])) (Z.of_nat (length p)) c 0)
      h0 = (tl (tail_text h), Parser p' (Z.of_nat (length p')) c' 0, set_path (path h) h0) /\
    match tail_text h with [] => c' <> 35 /\ c' <> 63 | x :: _ => c' = x end.
Proof.
  intros P Ho l H0 Hc. subst l. unfold parse_path. cbn [u_c]. pose proof (tail_text_hd h) as Hd.
  destruct P as [(q & E & Bq & _)|[(_ & E & T & _)|[(_ & E & T)|(E & _)]]];
    [rewrite E in *..|by rewrite E in Ho]; cbn [view default from_option id EscapeUrlView app hd tl] in *.
  - change (Z.land 47 255) with 47 in *. cbn [tab] in *.
    assert ((tab kEscapePath 47 =? 0) = true) as E47 by reflexivity. rewrite E47 in *.
    cbn [app hd tl] in *. subst c. cbn [Z.eqb Pos.eqb negb andb].
    destruct (ParsePath_ok q (tail_text h) p [47] 47 0 Bq eq_refl Hd) as (p' & c' & -> & C').
    exists p', c'. split; [done|]. destruct (tail_text h); [|done].
    destruct C' as [[_ ->]|?]; [split; lia|done].
  - rewrite T in *. cbn [hd tl Z.eqb] in *. unfold authority_stop in Hc.
    replace (negb (c =? 35) && negb (c =? 63)) with true by lia.
    exists p, c. rewrite app_nil_r. split; [|lia]. unfold ParsePath. cbn [walk].
    unfold view_qp, advance. cbn [u_p u_q]. rewrite Nat2Z.id, drop_all. done.
  - destruct (tail_text h) as [|x l]; [done|]. cbn [hd tl] in *. subst c.
    exists p, x. split; [|done].
    replace (negb (x =? 35) && negb (x =? 63)) with false by lia.
    rewrite (proj2 (Z.eqb_neq x 47)) by lia. rewrite app_nil_r.
    destruct h0; cbn in *; by subst.
Qed.

(** The first three stages. *)
Definition parse_front (l : bytes) : bytes * UrlParser * Url :=
  let '(auth, l, u, h) := ParseScheme l 0 (Parser [] 0 0 0) url0 in
  let '(l, u, h) := parse_authority auth l u h in
  parse_path l u h.

Lemma parse_front_host h ho :
  url_ok h -> host h = Some ho ->
  exists p c, parse_front (encode_url h) =
    (tl (tail_text h), Parser p (Z.of_nat (length p)) c 0,
     MkUrl (scheme h) (user h) (pass h) (host h) (port h) (path h) (Params 0 None) None) /\
    match tail_text h with [] => c <> 35 /\ c <> 63 | x :: _ => c = x end.
Proof.
  intros U Ho. rewrite encode_url_text by done. destruct U as (S & A & P & Q).
  assert (is_some (host h) = true) as Hs by (by rewrite Ho). rewrite Hs.
  rewrite Ho in A. destruct A as (A1 & A2 & A3 & A4 & A5).
  set (l := EscapeUrlView (view (path h)) kEscapePath ++ tail_text h).
  unfold parse_front.
  assert (exists p c, ParseScheme (scheme_text h ++ ([47; 47] ++ authority_text h) ++ l) 0
                        (Parser [] 0 0 0) url0 =
            (true, authority_text h ++ l, Parser p (Z.of_nat (length p)) c 0,
             set_scheme (scheme h) url0) /\
            (l = [] -> authority_stop c = false \/ authority_text h <> [])) as (p & c & -> & Hc).
  { unfold scheme_text. destruct (scheme h) as [s|] eqn:Es.
    - exists s, 58. split; [|by left]. rewrite <- !app_assoc. by apply ParseScheme_authority.
    - exists [], 47. split; [done|]. intros El. right. subst l. apply app_eq_nil in El as [El1 El2].
      destruct P as [(q & E & _)|[(_ & _ & _ & N)|[(_ & _ & T)|(E & _)]]]; try done; [|by apply N|by rewrite E in Ho].
      rewrite E in El1. done. }
  unfold parse_authority, authority_text in *.
  rewrite Ho in *. cbn [view default from_option id] in *.
  destruct (ParseAuthority_ok (user h) (pass h) (NeedsSquareBrackets h) ho (port h)
    (set_scheme (scheme h) url0) l p c 0) as (p1 & c1 & -> & C1); try done.
  { subst l. pose proof (tail_text_hd h) as Hd.
    destruct P as [(q & -> & _)|[(_ & -> & -> & _)|[(_ & -> & _)|(E & _)]]];
      cbn [view default from_option id EscapeUrlView app]; [done|done| |by rewrite E in Ho].
    destruct (tail_text h); [done|]. by destruct Hd as [-> | ->]. }
  subst l. destruct (parse_path_host h (set_port (port h) (set_host (Some ho) (set_pass (pass h)
    (set_user (user h) (set_scheme (scheme h) url0))))) p1 c1 P) as (p2 & c2 & -> & C2); try done.
  { by rewrite Ho. }
  exists p2, c2. split; [done|done].
Qed.

Lemma parse_front_path h :
  url_ok h -> host h = None ->
  exists p c, parse_front (encode_url h) =
    (tl (tail_text h), Parser p (Z.of_nat (length p)) c 0,
     MkUrl (scheme h) None None None None (path h) (Params 0 None) None) /\
    match tail_text h with [] => c <> 35 /\ c <> 63 | x :: _ => c = x end.
Proof.
  intros U Ho. rewrite encode_url_text by done. destruct U as (S & A & P & Q).
  rewrite Ho. cbn [is_some app]. pose proof (tail_text_hd h) as Hd. unfold parse_front.
  assert (hd 0 (tail_text h) <> 47) as H47
    by (destruct (tail_text h); cbn [hd]; [done|lia]).
  destruct P as [(q & E & Bq & N)|[(E & _)|[(E & _)|(_ & E & E')]]];
    [|by rewrite Ho in E|by rewrite Ho in E|].
  - specialize (N Ho). pose proof (escape_path_hd q (tail_text h) Bq N H47) as Hh.
    assert (EscapeUrlView (view (path h)) kEscapePath ++ tail_text h =
            47 :: EscapeUrlView q kEscapePath ++ tail_text h) as -> by (by rewrite E).
    unfold scheme_text. destruct (scheme h) as [s|].
    + rewrite <- app_assoc, ParseScheme_path by done. unfold parse_authority, parse_path.
      cbn [u_c Z.eqb Pos.eqb negb andb].
      destruct (ParsePath_ok (47 :: q) (tail_text h) s [] 58 0) as (p' & c' & Ep & C'); try done.
      { by constructor. }
      rewrite app_nil_r in Ep. cbn [EscapeUrlView] in Ep. change (Z.land 47 255) with 47 in Ep.
      assert ((tab kEscapePath 47 =? 0) = true) as E47 by reflexivity. rewrite E47 in Ep.
      cbn [app] in Ep. rewrite Ep. exists p', c'. rewrite E. split; [done|].
      destruct (tail_text h); [|done]. destruct C' as [[? _]|?]; done.
    + cbn [app]. set (l := EscapeUrlView q kEscapePath ++ tail_text h) in *.
      assert (ParseScheme (47 :: l) 0 (Parser [] 0 0 0) url0 =
              (false, l, Parser [47] 0 47 0, url0)) as ->.
      { cbn [ParseScheme]. destruct l as [|y l0]; [done|]. cbn [hd] in Hh.
        rewrite (proj2 (Z.eqb_neq y 47)) by done. by rewrite andb_false_r. }
      unfold parse_authority, parse_path. cbn [u_c Z.eqb Pos.eqb negb andb].
      destruct (ParsePath_ok q (tail_text h) [] [47] 47 0 Bq eq_refl Hd) as (p' & c' & Ep & C').
      cbn [app length] in Ep. change (Z.of_nat 0) with 0 in Ep. fold l in Ep.
      rewrite Ep. exists p', c'. rewrite E. split; [done|].
      destruct (tail_text h); [|done]. destruct C' as [[_ ->]|?]; [split; lia|done].
  - unfold scheme_text. rewrite E, E'. cbn [view default from_option id EscapeUrlView app].
    destruct (tail_text h) as [|x l].
    + exists [], 0. split; [done|lia].
    + exists [], x. split; [|done]. destruct Hd as [-> | ->]; done.
Qed.

Lemma ParseUrl_encode h :
  url_ok h -> Z.of_nat (length (encode_url h)) < 2 ^ 32 ->
  (ParseUrl (fun _ => true) junk (fun _ => true) (Some (encode_url h ++ [0]))
     (Z.of_nat (length (encode_url h))) 0).2 = h.
Proof.
  intros U L. pose proof U as (S & A & P & Q).
  assert (source (Some (encode_url h ++ [0])) (Z.of_nat (length (encode_url h))) = encode_url h)
    as Es.
  { unfold source. rewrite strarg_len by (unfold SIZE_MAX; lia).
    rewrite Nat2Z.id, take_app_length, u32_id, Nat2Z.id by lia. apply firstn_all. }
  assert (Z.of_nat (length (tail_text h)) < 2 ^ 32) as Lt.
  { rewrite encode_url_text, !length_app in L by done. lia. }
  assert (exists p c, parse_front (encode_url h) =
    (tl (tail_text h), Parser p (Z.of_nat (length p)) c 0,
     MkUrl (scheme h) (user h) (pass h) (host h) (port h) (path h) (Params 0 None) None) /\
    match tail_text h with [] => c <> 35 /\ c <> 63 | x :: _ => c = x end)
    as (p & c & F & Hc).
  { destruct (host h) as [ho|] eqn:Ho; [rewrite <- Ho; by apply (parse_front_host h ho)|].
    destruct A as (-> & -> & ->). by apply parse_front_path. }
  destruct (parse_tail_ok h (MkUrl (scheme h) (user h) (pass h) (host h) (port h) (path h)
              (Params 0 None) None) p c Q Lt eq_refl eq_refl Hc) as [u T].
  unfold parse_front, parse_authority, parse_path, parse_tail in F, T. unfold ParseUrl.
  rewrite Es. cbn [negb Z.land Z.eqb].
  destruct (ParseScheme _ _ _ _) as [[[auth l1] u1] h1].
  destruct (if auth then _ else _) as [[l2 u2] h2]. rewrite F.
  destruct (if u_c _ =? 63 then _ else _) as [[l3 u3] h3].
  destruct (if u_c u3 =? 35 then _ else _) as [u4 h4]. cbn [snd].
  injection T as -> ->. by destruct h.
Qed.
End RoundTrip.

(* ------------------------------------------------------------------ *)
(** ** Lemmas: buffers *)

Lemma escape_length T v : (length v <= length (EscapeUrlView v T) <= 3 * length v)%nat.
Proof.
  induction v as [|x v IH]; [cbn; lia|]. cbn [EscapeUrlView]. destruct (_ =? 0); cbn [length]; lia.
Qed.

Lemma encode_params_fit ps first :
  Z.of_nat (length (encode_params first ps)) <= Z.of_nat (length ps) + dimension_params ps.
Proof.
  revert first. induction ps as [|x ps IH]; intros first; [cbn; lia|].
  cbn [encode_params dimension_params length]. rewrite !length_app.
  pose proof (escape_length kEscapeParam (view (key x))).
  pose proof (escape_length kEscapeParam (view (val x))). specialize (IH false).
  destruct first, (is_some (val x)); cbn [length]; lia.
Qed.

(** [k] bytes of output are paid for by each unread byte of input. *)
Definition rate (f : Z) : Z := if negb (Z.land f kUrlLatin1 =? 0) then 2 else 1.
Definition budget (l : bytes) (u : UrlParser) : Z :=
  Z.of_nat (length (u_p u)) + rate (u_f u) * Z.of_nat (length l).

Lemma rate_pos f : 1 <= rate f <= 2.
Proof. unfold rate. destruct (negb _); lia. Qed.

(** A step that emits at most [k] bytes and keeps the flags and the last byte read. *)
Definition pays (k : Z) (u u' : UrlParser) : Prop :=
  u_f u' = u_f u /\ u_c u' = u_c u /\
  Z.of_nat (length (u_p u')) <= Z.of_nat (length (u_p u)) + k.

Lemma put_pays c u : pays 1 u (put c u).
Proof. unfold pays, put. cbn [u_f u_c u_p]. rewrite length_app. cbn [length]. lia. Qed.

Lemma put_char_pays u : pays (rate (u_f u)) u (put_char u).
Proof.
  unfold pays, put_char, EmitLatin1, flag, rate. destruct u as [p q c f]; cbn [u_c u_f u_p].
  destruct (_ <=? _), (negb _); cbn [andb put u_p u_f u_c]; rewrite ?length_app; cbn [length]; lia.
Qed.

Lemma walk_budget {A} stop (special : Z -> A -> UrlParser -> option (A * UrlParser)) n :
  (forall c a u a' u', special c a u = Some (a', u') -> pays 1 u u') ->
  forall l a u, (length l <= n)%nat ->
  let '(l', _, u') := walk stop special l a u in
  u_f u' = u_f u /\ budget l' u' <= budget l u /\
  (stop (u_c u') = true -> u_c u' = u_c u /\ l = [] \/ budget l' u' + 1 <= budget l u).
Proof.
  intros Sp. induction n as [|n IH]; intros l a u L.
  { destruct l; [|cbn in L; lia]. cbn [walk]. split; [done|]. split; [lia|by left]. }
  destruct l as [|x l]; [cbn [walk]; split; [done|]; split; [lia|by left]|].
  cbn [walk length] in *. set (c := Z.land x 255). pose proof (rate_pos (u_f u)) as R.
  destruct (stop c) eqn:Es.
  { unfold budget, set_c. cbn [u_p u_f u_c length]. split; [done|]. split; [nia|]. right. nia. }
  assert (forall l2 a2 u2 k, (length l2 <= n)%nat -> pays k (set_c c u) u2 ->
    k + rate (u_f u) * Z.of_nat (length l2) <= rate (u_f u) * Z.of_nat (S (length l)) ->
    let '(l', _, u') := walk stop special l2 a2 u2 in
    u_f u' = u_f u /\ budget l' u' <= budget (x :: l) u /\
    (stop (u_c u') = true -> u_c u' = u_c u /\ x :: l = [] \/ budget l' u' + 1 <= budget (x :: l) u))
    as Step.
  { intros l2 a2 u2 k L2 (P1 & P2 & P3) K. specialize (IH l2 a2 u2 L2).
    destruct (walk stop special l2 a2 u2) as [[l' a'] u']. destruct IH as (F & B & S).
    unfold budget, set_c in *. cbn [u_f u_c u_p length] in *. rewrite P1 in *. rewrite F in *.
    split; [done|]. split; [nia|]. intros S'. destruct (S S') as [[Ec _]|?]; [|right; nia].
    rewrite Ec, P2 in S'. congruence. }
  destruct (c =? 37).
  - destruct l as [|y [|z l2]]; [apply (Step _ _ _ 1); [cbn [length] in *; lia|apply put_pays|cbn [length]; nia]..|].
    destruct (unhex y z); (apply (Step _ _ _ 1); [cbn [length] in *; lia|apply put_pays|cbn [length]; nia]).
  - destruct (special c a (set_c c u)) as [[a2 u2]|] eqn:E.
    + apply (Step _ _ _ 1); [lia|by eapply Sp|nia].
    + apply (Step _ _ _ (rate (u_f u))); [lia|apply (put_char_pays (set_c c u))|nia].
Qed.

Lemma authority_special_pays c a u a' u' :
  authority_special c a u = Some (a', u') -> pays 1 u u'.
Proof.
  destruct a as [[t k] h]. unfold authority_special.
  repeat match goal with |- context [if ?b then _ else _] => destruct b end;
    try destruct k; intros H; simplify_eq; try apply put_pays; repeat split; cbn; lia.
Qed.

Lemma EmitKey_pays realloc junk u h :
  let '(_, u', _) := EmitKey realloc junk u h in pays 0 u u'.
Proof. unfold EmitKey. destruct (realloc _); repeat split; cbn; lia. Qed.

Lemma EmitVal_pays realloc junk u h t :
  let '(u', _) := EmitVal realloc junk u h t in pays 0 u u'.
Proof.
  unfold EmitVal. destruct t; cbn [negb]; [repeat split; cbn; lia|].
  destruct (_ || _); [|repeat split; lia]. pose proof (EmitKey_pays realloc junk u h) as P.
  by destruct (EmitKey realloc junk u h) as [[ok u'] h'].
Qed.

Lemma query_special_pays realloc junk c a u a' u' :
  query_special realloc junk c a u = Some (a', u') -> pays 1 u u'.
Proof.
  destruct a as [t h]. unfold query_special.
  destruct (c =? 43); [intros H; simplify_eq; apply put_pays|].
  destruct (c =? 38).
  { pose proof (EmitVal_pays realloc junk u h t) as P.
    destruct (EmitVal realloc junk u h t) as [u1 h1]. intros H; simplify_eq.
    destruct P as (? & ? & ?). repeat split; [done|done|lia]. }
  destruct (c =? 61); [|done]. destruct t; cbn [negb].
  - intros H; simplify_eq. apply put_pays.
  - pose proof (EmitKey_pays realloc junk u h) as P.
    destruct (EmitKey realloc junk u h) as [[t1 u1] h1]. intros H; simplify_eq.
    destruct P as (? & ? & ?). repeat split; [done|done|lia].
Qed.

Lemma rate_opaque f : rate (Z.lor f kUrlOpaque) = rate f.
Proof.
  unfold rate, kUrlLatin1, kUrlOpaque. by rewrite Z.land_lor_distr_l, Z.lor_0_r.
Qed.

(** From [(l, u)] to [(l', u')] with [s] bytes of the budget to spare. *)
Definition within (s : Z) (l : bytes) (u : UrlParser) (l' : bytes) (u' : UrlParser) : Prop :=
  rate (u_f u') = rate (u_f u) /\ budget l' u' + s <= budget l u.

Lemma within_trans s t l u l1 u1 l2 u2 :
  within s l u l1 u1 -> within t l1 u1 l2 u2 -> within (s + t) l u l2 u2.
Proof. unfold within. intros [E1 B1] [E2 B2]. split; [congruence|lia]. Qed.

(** [k] bytes were emitted for a byte and what was skipped behind it. *)
Lemma within_step k s c x l u l2 u2 :
  pays k (set_c c u) u2 -> (length l2 <= length l)%nat ->
  k + s <= rate (u_f u) + Z.of_nat (length l - length l2) ->
  within s (x :: l) u l2 u2.
Proof.
  intros (P1 & _ & P3) L K. unfold within, budget, set_c in *. cbn [u_f u_p length] in *.
  rewrite P1. split; [done|]. pose proof (rate_pos (u_f u)). nia.
Qed.

Lemma within_opaque k s l u l2 u2 :
  within s l u l2 u2 -> k = Z.lor (u_f u2) kUrlOpaque -> within s l u l2 (set_f k u2).
Proof.
  intros [E B] ->. unfold within, budget, set_f in *. cbn [u_f u_p]. by rewrite rate_opaque.
Qed.

Lemma ParseScheme_budget l : forall i u h,
  let '(auth, l', u', _) := ParseScheme l i u h in
  within (if auth : bool then 1 else 0) l u l' u'.
Proof.
  induction l as [|x l IH]; intros i u h; [split; [done|cbn [ParseScheme]; lia]|].
  cbn [ParseScheme]. set (c := Z.land x 255). pose proof (rate_pos (u_f u)) as R.
  assert (pays 0 (set_c c u) (advance (set_c c u))) as PA by (repeat split; cbn; lia).
  assert (pays 0 (set_c c u) (set_c c u)) as P0 by (repeat split; lia).
  destruct (c =? 47).
  { destruct l as [|y l2]; [apply (within_step 1 _ c); [apply put_pays|done|cbn [length]; lia]|].
    destruct (_ && _).
    - apply (within_step 0 _ c); [done|cbn [length]; lia|cbn [length]; lia].
    - apply (within_step 1 _ c); [apply put_pays|done|lia]. }
  destruct (_ && _).
  { destruct l as [|y l1].
    - apply within_opaque; [|done]. apply (within_step 0 _ c); [done|done|lia].
    - destruct (y =? 47).
      + destruct l1 as [|z l2]; [by apply (within_step 0 _ c); [|lia|lia]|].
        destruct (z =? 47); apply (within_step 0 _ c); try done; cbn [length]; lia.
      + apply within_opaque; [|done]. apply (within_step 0 _ c); [done|done|lia]. }
  destruct (_ || _); [apply (within_step 0 _ c); [done|done|lia]|].
  destruct (c =? 37).
  { unfold ParseEscape. destruct l as [|y [|z l2]];
      [apply (within_step 1 _ c); [apply put_pays|done|lia]..|].
    destruct (unhex y z); apply (within_step 1 _ c); try apply put_pays; cbn [length]; lia. }
  destruct (_ && _) eqn:El.
  { apply andb_true_iff in El as [_ El]. apply (within_step 2 _ c); [|done|].
    - unfold pays, EmitLatin1, put. cbn [u_f u_c u_p]. rewrite !length_app. cbn [length]. lia.
    - unfold flag, set_c in El. cbn [u_f] in El. unfold rate. rewrite El. lia. }
  assert (within 0 (x :: l) u l (put c (set_c c u))) as W
    by (apply (within_step 1 _ c); [apply put_pays|done|lia]).
  specialize (IH (i + 1) (put c (set_c c u)) h).
  destruct (ParseScheme l (i + 1) _ h) as [[[auth l'] u'] h'].
  pose proof (within_trans _ _ _ _ _ _ _ _ W IH).
  by destruct (i + 1 =? 1), (negb _).
Qed.

Lemma ParseAuthority_budget l u h :
  let '(l', u', _) := ParseAuthority l u h in
  within (if u_c u =? 47 then -1 else 0) l u l' u'.
Proof.
  unfold ParseAuthority.
  pose proof (walk_budget authority_stop authority_special (length l) authority_special_pays l
                (1, None, h) u (le_n _)) as W.
  destruct (walk _ _ _ _ _) as [[l1 [[t k] h1]] u1]. destruct W as (F & B & S).
  unfold within, budget, advance, put in *. cbn [u_c u_f u_p] in *.
  destruct (Z.eqb_spec (u_c u1) 47) as [E|]; cbn [u_f u_p].
  - rewrite length_app, F in *. cbn [length]. split; [done|]. rewrite E in S.
    destruct (S eq_refl) as [[<- _]|?]; [cbn [Z.eqb Pos.eqb]; lia|].
    destruct (u_c u =? 47); lia.
  - rewrite F in *. split; [done|]. destruct (u_c u =? 47); lia.
Qed.

Lemma ParsePath_budget l u :
  let '(l', u', _) := ParsePath l u in within 0 l u l' u'.
Proof.
  unfold ParsePath.
  match goal with |- context [walk ?s ?sp l tt u] =>
    pose proof (walk_budget s sp (length l) ltac:(done) l tt u (le_n _)) as W;
    destruct (walk s sp l tt u) as [[l1 a1] u1] end.
  destruct W as (F & B & _). unfold within, budget, advance in *. cbn [u_f u_p].
  rewrite F in *. split; [done|lia].
Qed.

Lemma ParseFragment_budget l u :
  let '(u', _) := ParseFragment l u in within 0 l u [] u'.
Proof.
  unfold ParseFragment.
  match goal with |- context [walk ?s ?sp l tt u] =>
    pose proof (walk_budget s sp (length l) ltac:(done) l tt u (le_n _)) as W;
    destruct (walk s sp l tt u) as [[l1 a1] u1] end.
  destruct W as (F & B & _). unfold within, budget, advance in *. cbn [u_f u_p length].
  rewrite F in *. split; [done|]. pose proof (rate_pos (u_f u)). nia.
Qed.

Lemma ParseQuery_budget realloc junk l u h :
  let '(l', u', _) := ParseQuery realloc junk l u h in within 0 l u l' u'.
Proof.
  unfold ParseQuery. set (h1 := match params_p h with None => _ | _ => h end).
  pose proof (walk_budget (fun c => c =? 35) (query_special realloc junk) (length l)
                (query_special_pays realloc junk) l (false, h1) u (le_n _)) as W.
  destruct (walk _ _ _ _ _) as [[l1 [t h2]] u1]. destruct W as (F & B & _).
  pose proof (EmitVal_pays realloc junk u1 h2 t) as P.
  destruct (EmitVal _ _ _ _ _) as [u2 h3]. destruct P as (P1 & _ & P3).
  unfold within, budget in *. rewrite P1, F in *. split; [done|lia].
Qed.

Lemma ParseUrl_budget realloc junk malloc s n f m :
  (ParseUrl realloc junk malloc s n f).1 = Some m ->
  Z.of_nat (length m) <= rate f * Z.of_nat (length (source s n)).
Proof.
  unfold ParseUrl. set (l := source s n). destruct (malloc _); [|done].
  pose proof (ParseScheme_budget l 0 (Parser [] 0 0 f) url0) as W1.
  destruct (ParseScheme _ _ _ _) as [[[auth l1] u1] h1].
  assert (let '(l2, u2, h2) := if auth then ParseAuthority l1 u1 h1 else (l1, u1, h1) in
          within 0 l (Parser [] 0 0 f) l2 u2) as W2.
  { destruct auth; [|done]. pose proof (ParseAuthority_budget l1 u1 h1) as W.
    destruct (ParseAuthority l1 u1 h1) as [[l2 u2] h2].
    destruct W1 as [E1 B1], W as [E2 B2]. split; [congruence|].
    destruct (u_c u1 =? 47); lia. }
  destruct (if auth then ParseAuthority l1 u1 h1 else (l1, u1, h1)) as [[l2 u2] h2].
  assert (let '(l3, u3, h3) := if negb (u_c u2 =? 35) && negb (u_c u2 =? 63)
            then let '(l, u, v) := ParsePath l2 u2 in (l, u, set_path v h2) else (l2, u2, h2) in
          within 0 l (Parser [] 0 0 f) l3 u3) as W3.
  { destruct (_ && _); [|done]. pose proof (ParsePath_budget l2 u2) as W.
    destruct (ParsePath l2 u2) as [[l3 u3] v]. exact (within_trans _ _ _ _ _ _ _ _ W2 W). }
  destruct (if negb _ && _ then _ else _) as [[l3 u3] h3].
  assert (let '(l4, u4, h4) := if u_c u3 =? 63
            then let '(l, u, v) := ParseQuery realloc junk l3 u3 (params h3) in (l, u, set_params v h3)
            else (l3, u3, h3) in
          within 0 l (Parser [] 0 0 f) l4 u4) as W4.
  { destruct (_ =? 63); [|done]. pose proof (ParseQuery_budget realloc junk l3 u3 (params h3)) as W.
    destruct (ParseQuery _ _ _ _ _) as [[l4 u4] v]. exact (within_trans _ _ _ _ _ _ _ _ W3 W). }
  destruct (if u_c u3 =? 63 then _ else _) as [[l4 u4] h4].
  assert (forall l5 u5, within 0 l (Parser [] 0 0 f) l5 u5 ->
            Z.of_nat (length (u_p u5)) <= rate f * Z.of_nat (length l)) as Fin.
  { intros l5 u5 [E B]. unfold budget in B. cbn [u_f u_p length] in *.
    pose proof (rate_pos (u_f u5)). nia. }
  destruct (_ =? 35); [|cbn [fst]; intros H; simplify_eq; by eapply Fin].
  pose proof (ParseFragment_budget l4 u4) as W.
  destruct (ParseFragment l4 u4) as [u5 v]. cbn [fst]. intros H; simplify_eq.
  eapply Fin. exact (within_trans _ _ _ _ _ _ _ _ W4 W).
Qed.

(** The reference decoder of percent escapes. *)
Fixpoint percent_decode (l : bytes) : bytes :=
  match l with
  | [] => []
  | x :: l1 =>
      if x =? 37 then
        match l1 with
        | y :: z :: l2 => match unhex y z with
                          | Some c => c :: percent_decode l2
                          | None => x :: percent_decode l1
                          end
        | _ => x :: percent_decode l1
        end
      else x :: percent_decode l1
  end.

Lemma escape_decode T safe v {E : EscapeTable T safe} :
  Bytes v ->
  percent_decode (EscapeUrlView v T) = v /\
  Forall (fun c => c = 37 \/ mem c HEX = true \/ safe c = true) (EscapeUrlView v T).
Proof.
  intros B. induction B as [|x v Hx _ [IH1 IH2]]; [done|]. cbn [EscapeUrlView].
  rewrite byte_255 by done. destruct (Z.eqb_spec (tab T x) 0) as [E0|N0]; cbn [percent_decode].
  - assert (x <> 37) as Nx by (intros ->; by apply et_percent in E0).
    rewrite (proj2 (Z.eqb_neq _ _) Nx), IH1. split; [done|]. constructor; [|done].
    right; right. by apply (et_safe x).
  - cbn [Z.eqb Pos.eqb]. rewrite unhex_hex, IH1 by done. split; [done|].
    assert (forall i, 0 <= i < 16 -> mem (tab HEX i) HEX = true) as M.
    { apply (forall_below 16 (fun i => mem (tab HEX i) HEX)). reflexivity. }
    assert (0 <= Z.shiftr (Z.land x 0xF0) 4 < 16 /\ 0 <= Z.shiftr (Z.land x 0x0F) 0 < 16) as [M1 M2].
    { assert (forallb (fun x => (0 <=? Z.shiftr (Z.land x 0xF0) 4)
        && (Z.shiftr (Z.land x 0xF0) 4 <? 16) && (0 <=? Z.shiftr (Z.land x 0x0F) 0)
        && (Z.shiftr (Z.land x 0x0F) 0 <? 16)) (zbelow 256) = true) as F by (vm_compute; reflexivity).
      pose proof (forall_byte _ F x Hx) as H. cbv beta in H. lia. }
    repeat (constructor; [auto|]). done.
Qed.

(* ------------------------------------------------------------------ *)
(** ** Properties *)

(** C16: parsing undoes printing. For every well-formed URL (an optional scheme, user,
    password, host, port, an absolute or empty path, parameters, a fragment, all of arbitrary
    bytes), parsing the text EncodeUrl returns, with the length it reports, gives back exactly
    the URL, absent components told from empty ones. *)
Theorem ParseUrl_EncodeUrl junk h :
  url_ok h -> Z.of_nat (length (encode_url h)) < 2 ^ 32 ->
  let '(text, z) := EncodeUrl (fun _ => true) h in
  (ParseUrl (fun _ => true) junk (fun _ => true) text z 0).2 = h.
Proof. intros U L. cbn [EncodeUrl]. by apply ParseUrl_encode. Qed.

Definition sample_url : Url :=
  MkUrl (Some (bstr "http")) (Some (bstr "me@x")) (Some (bstr ":")) (Some (bstr "::1"))
    (Some (bstr "80")) (Some (bstr "/a b?"))
    (Params 2 (Some [Param (Some (bstr "k=")) (Some (bstr "v&")); Param (Some []) None]))
    (Some [200; 35]).

Lemma ParseUrl_EncodeUrl_witness :
  (ParseUrl (fun _ => true) (Param None None) (fun _ => true)
     (Some (bstr "http://me%40x:%3A@[::1]:80/a%20b%3F?k%3D=v%26&#%C8%23" ++ [0])) 53 0).2
  = sample_url.
Proof.
  pose proof (ParseUrl_EncodeUrl (Param None None) sample_url) as H.
  change (EncodeUrl (fun _ => true) sample_url) with
    (Some (bstr "http://me%40x:%3A@[::1]:80/a%20b%3F?k%3D=v%26&#%C8%23" ++ [0]), 53) in H.
  apply H.
  - split; [repeat split; try done; decide_now|]. split; [repeat split; try done; decide_now|].
    split; [left; exists (bstr "a b?"); repeat split; try done; decide_now|].
    split; [decide_now|]. cbn. repeat split; try done.
    repeat constructor; eexists; repeat split; try done; decide_now.
  - vm_compute; congruence.
Defined.

(** The parser stays inside the buffer it allocates, for every input, every flag and
    whatever happens to its allocations: the bytes it writes are at most as many as it asked
    malloc for (twice the input if Latin-1 is transcoded), as long as that size does not wrap
    around. *)
Lemma ParseUrl_inside realloc junk malloc s n f m :
  (ParseUrl realloc junk malloc s n f).1 = Some m ->
  2 * Z.of_nat (length (source s n)) < 2 ^ 32 ->
  exists size, malloc size = true /\ Z.of_nat (length m) <= size.
Proof.
  intros H L. pose proof (ParseUrl_budget realloc junk malloc s n f m H) as B.
  unfold ParseUrl in H. unfold rate in B.
  match type of H with context [malloc ?x] => destruct (malloc x) eqn:M; [exists x|done] end.
  split; [done|]. destruct (negb _); [rewrite u32_id by lia; lia|lia].
Qed.

(** EncodeUrl and EscapeUrl never write behind the buffers they allocate. *)
Lemma EncodeUrl_inside h T v :
  params_n (params h) = Z.of_nat (length (default [] (params_p (params h)))) ->
  Z.of_nat (length (encode_url h ++ [0])) <= DimensionUrl h /\
  Z.of_nat (length (EscapeUrlView v T ++ [0])) <= Z.of_nat (length v) * 6 + 1.
Proof.
  intros Hn. split; [|rewrite length_app; pose proof (escape_length T v); cbn [length]; lia].
  unfold encode_url, encode_authority, DimensionUrl. rewrite Hn.
  pose proof (fun T v => escape_length T (view v)) as EL.
  pose proof (EL kEscapeAuthority (user h)). pose proof (EL kEscapeAuthority (pass h)).
  pose proof (EL kEscapeAuthority (host h)). pose proof (EL kEscapeIp (host h)).
  pose proof (EL kEscapeAuthority (port h)). pose proof (EL kEscapePath (path h)).
  pose proof (EL kEscapeFragment (fragment h)). clear EL.
  rewrite !length_app. destruct (params_p (params h)) as [ps|]; cbn [default from_option id] in *.
  - pose proof (encode_params_fit ps true). rewrite Nat2Z.id, firstn_all.
    repeat match goal with |- context [if ?b then _ else _] => destruct b end;
      repeat (rewrite ?length_app; cbn [length]); lia.
  - cbn [dimension_params length].
    repeat match goal with |- context [if ?b then _ else _] => destruct b end;
      repeat (rewrite ?length_app; cbn [length]); lia.
Qed.

(** buffers. The parser stays inside the buffer it allocates, for every input, every flag
    and whatever happens to its allocations: the bytes it writes are at most as many as it asked
    malloc for (twice the input if Latin-1 is transcoded), as long as that size does not wrap
    around. EncodeUrl and EscapeUrl never write behind the buffers they allocate. *)
Theorem ParseUrl_EncodeUrl_fit realloc junk malloc s n f m h T v :
  (ParseUrl realloc junk malloc s n f).1 = Some m ->
  2 * Z.of_nat (length (source s n)) < 2 ^ 32 ->
  params_n (params h) = Z.of_nat (length (default [] (params_p (params h)))) ->
  (exists size, malloc size = true /\ Z.of_nat (length m) <= size) /\
  Z.of_nat (length (encode_url h ++ [0])) <= DimensionUrl h /\
  Z.of_nat (length (EscapeUrlView v T ++ [0])) <= Z.of_nat (length v) * 6 + 1.
Proof.
  intros H L Hn. split; [by apply (ParseUrl_inside realloc junk malloc s n f)|].
  by apply EncodeUrl_inside.
Qed.

Lemma ParseUrl_EncodeUrl_fit_witness :
  (exists size, (size =? 6) = true /\ 3 <= size) /\ 54 <= DimensionUrl sample_url.
Proof.
  destruct (ParseUrl_EncodeUrl_fit (fun _ => true) (Param None None) (fun x => x =? 6)
              (Some (bstr "//a/b?")) 6 0 (bstr "a/b") sample_url kEscapePath []) as (P & D & _).
  - vm_compute. reflexivity.
  - vm_compute. reflexivity.
  - reflexivity.
  - split; [exact P|exact D].
Defined.

(** what the escape functions produce holds no delimiter of the component it is for
    (only percent signs, hexadecimal digits and bytes that are safe there), and percent
    decoding gives the input back. *)
Theorem Escape_decode p n :
  Bytes (strarg p n) ->
  let ok safe (r : option (bytes * Z)) := exists out, r = Some (cbuf out) /\
    percent_decode out = strarg p n /\
    Forall (fun c => c = 37 \/ mem c HEX = true \/ safe c = true) out in
  let mem := fun _ => true in
  ok authority_safe (EscapeUser mem p n) /\ ok authority_safe (EscapePass mem p n) /\
  ok authority_safe (EscapeHost mem p n) /\ ok ip_safe (EscapeIp mem p n) /\
  ok path_safe (EscapePath mem p n) /\ ok segment_safe (EscapeSegment mem p n) /\
  ok param_safe (EscapeParam mem p n) /\ ok fragment_safe (EscapeFragment mem p n).
Proof.
  intros B. cbv zeta.
  assert (forall T safe {E : EscapeTable T safe}, exists out,
    EscapeUrl (fun _ => true) p n T = Some (cbuf out) /\ percent_decode out = strarg p n /\
    Forall (fun c => c = 37 \/ mem c HEX = true \/ safe c = true) out) as H.
  { intros T safe E. eexists. split; [reflexivity|]. by apply escape_decode. }
  repeat split; apply H; apply _.
Qed.

Lemma Escape_decode_witness :
  exists out, EscapePath (fun _ => true) (Some (bstr "/a?")) SIZE_MAX = Some (cbuf out) /\
              percent_decode out = bstr "/a?".
Proof.
  destruct (Escape_decode (Some (bstr "/a?")) SIZE_MAX) as (_ & _ & _ & _ & H & _).
  - decide_now.
  - destruct H as (out & H1 & H2 & _). exists out. split; [exact H1|exact H2].
Defined.

(** form parameters. Parsing the text of a list of parameters appends the list to the
    one it is given, also with plus signs read as spaces; the one text that means two things
    is the empty one. *)
Theorem ParseParams_encode junk ps acc :
  Forall param_ok ps -> ps <> [Param (Some []) None] ->
  Z.of_nat (length acc + length (encode_params true ps)) < 2 ^ 31 ->
  (ParseParams (fun _ => true) junk (fun _ => true) (Some (encode_params true ps))
     (Z.of_nat (length (encode_params true ps))) (full acc)).2 = full (acc ++ ps).
Proof.
  intros F N L. unfold ParseParams, source.
  rewrite strarg_len, Nat2Z.id, firstn_all, u32_id, Nat2Z.id, firstn_all
    by (unfold SIZE_MAX; lia).
  destruct (decide (ps = [])) as [->|Ne].
  { cbn. by rewrite app_nil_r. }
  pose proof (encode_params_length ps).
  destruct (query_params junk ps acc [] [] 63 1 F Ne) as (p' & c' & E & _); try done; [lia|].
  rewrite app_nil_r in E. unfold query_rest in E. cbn [length] in E.
  unfold ParseQuery, full in *. cbn [params_p].
  change (Z.of_nat 0) with 0 in E. unfold kUrlPlus.
  destruct (walk _ _ _ _ _) as [[l [t h]] u]. destruct (EmitVal _ _ _ _ _) as [u2 h2].
  by injection E as -> -> ->.
Qed.

Lemma ParseParams_encode_witness :
  (ParseParams (fun _ => true) (Param None None) (fun _ => true) (Some (bstr "a%20b=%2B&c")) 11
     (full [])).2 =
  full [Param (Some (bstr "a b")) (Some (bstr "+")); Param (Some (bstr "c")) None].
Proof.
  apply (ParseParams_encode (Param None None)
    [Param (Some (bstr "a b")) (Some (bstr "+")); Param (Some (bstr "c")) None] []).
  - repeat constructor; eexists; repeat split; try done; decide_now.
  - done.
  - vm_compute; reflexivity.
Defined.

(** Which IP literals EncodeUrl writes in brackets: the test reads the value of the hexadecimal
    digit where it means to ask whether there is one, so a host that holds the digit 0 is
    escaped as a name, and a colon next to letters that are no digits is taken for an
    address. *)
Theorem NeedsSquareBrackets_zero :
  let url s := MkUrl None None None (Some s) None None (Params 0 None) None in
  encode_url (url (bstr "::1")) = bstr "//[::1]" /\
  encode_url (url (bstr "fe80::1")) = bstr "//fe80%3A%3A1" /\
  encode_url (url (bstr "xyz:w")) = bstr "//[xyz:w]".
Proof. repeat split; vm_compute; reflexivity. Qed.
