(* ===== verification/ThomPike.v ===== *)
(** Thompson-Pike (UTF-8) variable-length integers: libc/str/thompike.h, libc/intrin/bsr.c,
    libc/intrin/tpenc.c, the decoding loop that the text functions of net/http share, and
    the 16-byte ASCII test of libc/intrin/pcmpgtb.c and pmovmskb.c that speeds them up. *)

From S2P Require Import Prelude.

(* ------------------------------------------------------------------ *)
(** ** Definitions *)

(** [int _bsr(int)] *)
Definition bsr (x : Z) : Z :=
  let '(x, r) := if negb (Z.land x 0xFFFF0000 =? 0) then (Z.shiftr x 16, 16) else (x, 0) in
  let '(x, r) := if negb (Z.land x 0xFF00 =? 0) then (Z.shiftr x 8, Z.lor r 8) else (x, r) in
  let '(x, r) := if negb (Z.land x 0xF0 =? 0) then (Z.shiftr x 4, Z.lor r 4) else (x, r) in
  let '(x, r) := if negb (Z.land x 0xC =? 0) then (Z.shiftr x 2, Z.lor r 2) else (x, r) in
  if negb (Z.land x 0x2 =? 0) then Z.lor r 1 else r.

Definition ThomPikeCont (x : Z) : bool := 0x80 =? Z.land 0xC0 x.
Definition ThomPikeMsb (x : Z) : Z :=
  if Z.land 255 x <? 252 then bsr (Z.land 255 (Z.lnot x)) else 1.
Definition ThomPikeByte (x : Z) : Z := Z.land x (Z.lor (Z.shiftl 1 (ThomPikeMsb x) - 1) 3).
Definition ThomPikeLen (x : Z) : Z := 7 - ThomPikeMsb x.
(** On [wint_t], which has 32 bits. *)
Definition ThomPikeMerge (x y : Z) : Z := u32 (Z.lor (Z.shiftl x 6) (Z.land 0x3F y)).

Definition kTpEnc : list Z :=
  [ 1 + 0xC0 * 256; 1 + 0xC0 * 256; 1 + 0xC0 * 256; 1 + 0xC0 * 256; 2 + 0xE0 * 256;
    2 + 0xE0 * 256; 2 + 0xE0 * 256; 2 + 0xE0 * 256; 2 + 0xE0 * 256; 3 + 0xF0 * 256;
    3 + 0xF0 * 256; 3 + 0xF0 * 256; 3 + 0xF0 * 256; 3 + 0xF0 * 256; 4 + 0xF8 * 256;
    4 + 0xF8 * 256; 4 + 0xF8 * 256; 4 + 0xF8 * 256; 4 + 0xF8 * 256; 5 + 0xFC * 256;
    5 + 0xFC * 256; 5 + 0xFC * 256; 5 + 0xFC * 256; 5 + 0xFC * 256; 5 + 0xFC * 256 ].

(** [do { w |= 0200 | (c & 077); w <<= 8; c >>= 6; } while (--n);] *)
Fixpoint tpenc_loop (n : nat) (w c : Z) : Z * Z :=
  match n with
  | O => (w, c)
  | S n => tpenc_loop n (u64 (Z.shiftl (Z.lor w (Z.lor 0x80 (Z.land c 0x3F))) 8)) (Z.shiftr c 6)
  end.

Definition tpenc (c : Z) : Z :=
  if (0 <=? c) && (c <=? 127) then c
  else
    let e := tab kTpEnc (bsr c - 7) in
    let n := Z.land e 0xff in
    let '(w, c) := tpenc_loop (Z.to_nat n) 0 c in
    Z.lor (Z.lor c w) (Z.shiftr e 8).

(** [do { *q++ = w; } while ((w >>= 8));] on a [uint64_t]. *)
Fixpoint emit_word (fuel : nat) (w : Z) : bytes :=
  match fuel with
  | O => []
  | S fuel => u8 w :: (if Z.shiftr w 8 =? 0 then [] else emit_word fuel (Z.shiftr w 8))
  end.
Definition put_word (w : Z) : bytes := emit_word 8 w.

(** The continuation bytes: [m] of them, merged into [a]; [None] when a byte is no
    continuation. *)
Fixpoint merge_conts (m : nat) (a : Z) (l : bytes) : option (Z * bytes) :=
  match m with
  | O => Some (a, l)
  | S m =>
      match l with
      | [] => None
      | b :: l => let b := Z.land b 0xff in
                  if negb (ThomPikeCont b) then None else merge_conts m (ThomPikeMerge a b) l
      end
  end.

(** The integer that starts with the byte [x] in front of [l], and the bytes behind it. A
    byte that does not start a complete sequence stands for itself. *)
Definition tp_next (x : Z) (l : bytes) : Z * bytes :=
  let x := Z.land x 0xff in
  if x >=? 0xC0 then
    let a := ThomPikeByte x in
    let m := ThomPikeLen x - 1 in
    if m <=? Z.of_nat (length l) then
      match merge_conts (Z.to_nat m) a l with Some r => r | None => (x, l) end
    else (x, l)
  else (x, l).

(** [pcmpgtb(a, b, c)] and [pmovmskb(p)] *)
Definition pcmpgtb (b c : list Z) : list Z :=
  zip_with (fun b c => if s8 b >? s8 c then 0xff else 0) b c.

Fixpoint pmovmskb_at (i : Z) (p : list Z) : Z :=
  match p with
  | [] => 0
  | x :: p => Z.lor (if negb (Z.land x 0x80 =? 0) then Z.shiftl 1 i else 0) (pmovmskb_at (i + 1) p)
  end.
Definition pmovmskb (p : list Z) : Z := pmovmskb_at 0 p.

(** [while (i + 16 < n)]: the blocks of 16 ASCII bytes in front of [l], and what follows. *)
Fixpoint skip_ascii (fuel : nat) (l : bytes) : bytes * bytes :=
  match fuel with
  | O => ([], l)
  | S fuel =>
      if 16 <? Z.of_nat (length l) then
        let v1 := take 16 l in
        let v2 := pcmpgtb v1 (replicate 16 0) in
        if negb (pmovmskb v2 =? 0xFFFF) then ([], l)
        else let '(a, l) := skip_ascii fuel (drop 16 l) in (v1 ++ a, l)
      else ([], l)
  end.

(* ------------------------------------------------------------------ *)
(** ** The contract: the integers a text denotes *)

Fixpoint tp_decode (fuel : nat) (l : bytes) : list Z :=
  match fuel, l with
  | S fuel, x :: l => let '(c, l) := tp_next x l in c :: tp_decode fuel l
  | _, _ => []
  end.
Definition codepoints (l : bytes) : list Z := tp_decode (length l) l.

Definition tp_bytes (c : Z) : bytes := put_word (tpenc c).

Example tp_1 : codepoints (bstr "a" ++ [0xC0; 0xAF; 0xE2; 0x82; 0xAC; 0xFF]) = [97; 47; 0x20AC; 255].
Proof. reflexivity. Qed.
Example tp_2 : tp_bytes 0x20AC = [0xE2; 0x82; 0xAC] /\ tp_bytes 0xFFFFFFFF = [255; 191; 191; 191; 191; 191].
Proof. split; reflexivity. Qed.

(* ------------------------------------------------------------------ *)
(** ** Lemmas: the binary logarithm *)

(** [x & (ones << k)] asks whether [x] has [k] bits. *)
Lemma land_high x k j :
  0 <= k -> 0 <= j -> 0 <= x < 2 ^ (k + j) ->
  (Z.land x (Z.shiftl (2 ^ j - 1) k) =? 0) = (x <? 2 ^ k).
Proof.
  intros Hk Hj Hx.
  assert (Z.shiftr (Z.land x (Z.shiftl (2 ^ j - 1) k)) k = Z.shiftr x k) as E.
  { rewrite shiftr_land_field, land_mask by done. apply Z.mod_small.
    rewrite Z.shiftr_div_pow2 by done. split; [apply Z.div_pos; lia|].
    apply Z.div_lt_upper_bound; [lia|]. rewrite <- Z.pow_add_r by lia. lia. }
  destruct (Z.ltb_spec x (2 ^ k)) as [L|L].
  - apply Z.eqb_eq. apply Z.bits_inj'. intros i Hi. rewrite Z.land_spec, Z.bits_0.
    destruct (decide (i < k)).
    + rewrite Z.shiftl_spec_low by done. apply andb_false_r.
    + rewrite <- (Z.mod_small x (2 ^ k)) by lia. rewrite Z.mod_pow2_bits_high by lia. done.
  - apply Z.eqb_neq. intros Z0. rewrite Z0, Z.shiftr_0_l in E. symmetry in E.
    rewrite Z.shiftr_div_pow2 in E by done.
    pose proof (Z.div_le_lower_bound x (2 ^ k) 1). lia.
Qed.

(** One round of the search. *)
Lemma bsr_round k x r :
  0 < k -> 0 < x < 2 ^ (k + k) -> Z.land r k = 0 ->
  let '(x', r') := if negb (Z.land x (Z.shiftl (2 ^ k - 1) k) =? 0)
                   then (Z.shiftr x k, Z.lor r k) else (x, r) in
  0 < x' < 2 ^ k /\ r' + Z.log2 x' = r + Z.log2 x /\ (r' = r \/ r' = r + k).
Proof.
  intros Hk Hx Hr. rewrite land_high by lia. destruct (Z.ltb_spec x (2 ^ k)); cbn [negb].
  - split; [lia|]. split; [done|by left].
  - assert (k <= Z.log2 x) as L by (apply Z.log2_le_pow2; lia).
    assert (Z.lor r k = r + k) as -> by (pose proof (Z.add_lor_land r k); lia).
    rewrite Z.log2_shiftr, Z.shiftr_div_pow2 by lia. split; [|split; [lia|by right]].
    split; [apply Z.div_str_pos; lia|]. apply Z.div_lt_upper_bound; [lia|].
    rewrite <- Z.pow_add_r by lia. lia.
Qed.

Lemma bsr_log2 x : 0 < x < 2 ^ 32 -> bsr x = Z.log2 x.
Proof.
  intros Hx. unfold bsr.
  pose proof (bsr_round 16 x 0 ltac:(lia) ltac:(lia) eq_refl) as R1.
  change (Z.shiftl (2 ^ 16 - 1) 16) with 0xFFFF0000 in R1.
  change (Z.lor 0 16) with 16 in R1.
  destruct (if negb (Z.land x 0xFFFF0000 =? 0) then (Z.shiftr x 16, 16) else (x, 0)) as [x1 r1].
  destruct R1 as (X1 & L1 & C1).
  pose proof (bsr_round 8 x1 r1 ltac:(lia) ltac:(lia)) as R2.
  change (Z.shiftl (2 ^ 8 - 1) 8) with 0xFF00 in R2.
  destruct (if negb (Z.land x1 0xFF00 =? 0) then _ else _) as [x2 r2].
  destruct R2 as (X2 & L2 & C2); [destruct C1 as [-> | ->]; done|].
  pose proof (bsr_round 4 x2 r2 ltac:(lia) ltac:(lia)) as R3.
  change (Z.shiftl (2 ^ 4 - 1) 4) with 0xF0 in R3.
  destruct (if negb (Z.land x2 0xF0 =? 0) then _ else _) as [x3 r3].
  destruct R3 as (X3 & L3 & C3); [destruct C1 as [-> | ->], C2 as [-> | ->]; done|].
  pose proof (bsr_round 2 x3 r3 ltac:(lia) ltac:(lia)) as R4.
  change (Z.shiftl (2 ^ 2 - 1) 2) with 0xC in R4.
  destruct (if negb (Z.land x3 0xC =? 0) then _ else _) as [x4 r4].
  destruct R4 as (X4 & L4 & C4);
    [destruct C1 as [-> | ->], C2 as [-> | ->], C3 as [-> | ->]; done|].
  assert (Z.lor r4 1 = r4 + 1) as ->
    by (destruct C1 as [-> | ->], C2 as [-> | ->], C3 as [-> | ->], C4 as [-> | ->]; done).
  assert (x4 = 1 \/ x4 = 2 \/ x4 = 3) as [-> |[-> | ->]] by lia.
  - change (r4 = Z.log2 x). change (Z.log2 1) with 0 in L4. lia.
  - change (r4 + 1 = Z.log2 x). change (Z.log2 2) with 1 in L4. lia.
  - change (r4 + 1 = Z.log2 x). change (Z.log2 3) with 1 in L4. lia.
Qed.

(* ------------------------------------------------------------------ *)
(** ** Lemmas: encoding and decoding one integer *)

(** A little-endian word. *)
Lemma emit_pack l : forall x fuel,
  is_byte x -> Forall (fun b => is_byte b /\ b <> 0) l -> (length l < fuel)%nat ->
  emit_word fuel (pack (x :: l)) = x :: l.
Proof.
  induction l as [|y l IH]; intros x fuel Hx F L; (destruct fuel as [|fuel]; [lia|]);
    cbn [emit_word].
  - cbn [pack]. rewrite Z.mul_0_r, Z.add_0_r, u8_id by done.
    rewrite Z.shiftr_div_pow2 by lia. by rewrite Z.div_small.
  - apply Forall_cons in F as [[Hy Ny] F].
    assert (pack (x :: y :: l) mod 256 = x) as M.
    { change (pack (x :: y :: l)) with (x + 256 * pack (y :: l)).
      rewrite (Z.mul_comm 256), Z.mod_add by lia. by apply Z.mod_small. }
    assert (Z.shiftr (pack (x :: y :: l)) 8 = pack (y :: l)) as S.
    { change (pack (x :: y :: l)) with (x + 256 * pack (y :: l)).
      rewrite Z.shiftr_div_pow2, (Z.mul_comm 256) by lia. change (2 ^ 8) with 256.
      rewrite Z.div_add by lia. rewrite Z.div_small by done. lia. }
    assert (pack (y :: l) <> 0) as N.
    { cbn [pack]. assert (Bytes l) as B by (eapply Forall_impl; [exact F|]; by intros ? []).
      pose proof (pack_range l B). unfold is_byte in Hy. lia. }
    unfold u8. change (2 ^ 8) with 256. rewrite M, S, (proj2 (Z.eqb_neq _ _) N).
    cbn [length] in L. by rewrite IH by (done || lia).
Qed.

(** The [n] continuation bytes of [c]. *)
Fixpoint conts (n : nat) (c : Z) : bytes :=
  match n with
  | O => []
  | S n => Z.lor 0x80 (Z.land (Z.shiftr c (6 * Z.of_nat n)) 0x3F) :: conts n c
  end.

Lemma conts_snoc n c : conts (S n) c = conts n (Z.shiftr c 6) ++ [Z.lor 0x80 (Z.land c 0x3F)].
Proof.
  induction n as [|n IH]; [done|]. change (conts (S (S n)) c) with
    (Z.lor 0x80 (Z.land (Z.shiftr c (6 * Z.of_nat (S n))) 0x3F) :: conts (S n) c).
  rewrite IH. cbn [conts app]. rewrite Z.shiftr_shiftr by lia.
  by replace (6 + 6 * Z.of_nat n) with (6 * Z.of_nat (S n)) by lia.
Qed.

Lemma cont_byte x :
  is_byte (Z.lor 0x80 (Z.land x 0x3F)) /\ Z.lor 0x80 (Z.land x 0x3F) = 128 + x mod 64.
Proof.
  rewrite land_63. assert (0 <= x mod 64 < 64) as H by (apply Z.mod_pos_bound; lia).
  pose proof (lor_shiftl_add 2 (x mod 64) 6 ltac:(lia) ltac:(lia)) as E.
  change (Z.shiftl 2 6) with 128 in E. rewrite E. unfold is_byte. lia.
Qed.

Lemma conts_bytes n c : Forall (fun b => is_byte b /\ b <> 0) (conts n c).
Proof.
  induction n as [|n IH]; [constructor|]. constructor; [|done].
  destruct (cont_byte (Z.shiftr c (6 * Z.of_nat n))) as [H1 H2]. split; [done|].
  rewrite H2. pose proof (Z.mod_pos_bound (Z.shiftr c (6 * Z.of_nat n)) 64). lia.
Qed.

Lemma conts_length n c : length (conts n c) = n.
Proof. induction n; cbn [conts length]; congruence. Qed.

(** The loop of [tpenc] packs the continuation bytes. *)
Lemma tpenc_loop_pack n : forall l c,
  Bytes l -> (length l + n <= 5)%nat ->
  tpenc_loop n (256 * pack l) c = (256 * pack (conts n c ++ l), Z.shiftr c (6 * Z.of_nat n)).
Proof.
  induction n as [|n IH]; intros l c B L.
  - cbn [tpenc_loop conts app]. by rewrite Z.shiftr_0_r.
  - cbn [tpenc_loop]. destruct (cont_byte c) as [Hb _].
    set (b := Z.lor 0x80 (Z.land c 0x3F)) in *.
    assert (Z.lor (256 * pack l) b = pack (b :: l)) as ->.
    { unfold is_byte in Hb. pose proof (lor_shiftl_add (pack l) b 8) as E.
      rewrite Z.shiftl_mul_pow2, (Z.mul_comm (pack l)) in E by lia. change (2 ^ 8) with 256 in E.
      rewrite E by lia. cbn [pack]. lia. }
    assert (Bytes (b :: l)) as B' by (by constructor).
    pose proof (pack_range _ B') as P. cbn [length] in P.
    assert (256 ^ Z.of_nat (S (length l)) <= 256 ^ 5) as Q by (apply Z.pow_le_mono_r; lia).
    rewrite Z.shiftl_mul_pow2, u64_id by lia. rewrite (Z.mul_comm _ (2 ^ 8)).
    change (2 ^ 8) with 256. rewrite IH by (cbn [length]; done || lia).
    rewrite conts_snoc, <- app_assoc. cbn [app]. rewrite Z.shiftr_shiftr by lia.
    by replace (6 + 6 * Z.of_nat n) with (6 * Z.of_nat (S n)) by lia.
Qed.

(** The continuation bytes merged back. *)
Lemma merge_conts_ok n c r :
  0 <= c < 2 ^ 32 ->
  merge_conts n (Z.shiftr c (6 * Z.of_nat n)) (conts n c ++ r) = Some (c, r).
Proof.
  intros Hc. induction n as [|n IH].
  - cbn. by rewrite Z.shiftr_0_r.
  - cbn [merge_conts conts app]. set (d := Z.shiftr c (6 * Z.of_nat n)) in *.
    destruct (cont_byte d) as [B E]. rewrite E.
    pose proof (Z.mod_pos_bound d 64 ltac:(lia)) as M.
    rewrite land_255. rewrite Z.mod_small by lia.
    assert (ThomPikeCont (128 + d mod 64) = true) as ->.
    { apply (forall_below 64 (fun m => ThomPikeCont (128 + m))); [reflexivity|lia]. }
    cbn [negb]. rewrite <- IH. f_equal. unfold ThomPikeMerge.
    assert (Z.land 0x3F (128 + d mod 64) = d mod 64) as ->.
    { rewrite Z.land_comm, land_63. replace (128 + d mod 64) with (d mod 64 + 2 * 64) by lia.
      rewrite Z.mod_add by lia. by apply Z.mod_small. }
    rewrite lor_shiftl_add by lia.
    assert (Z.shiftr c (6 * Z.of_nat (S n)) = d / 64) as ->.
    { subst d. rewrite !Z.shiftr_div_pow2, Z.div_div by lia. f_equal.
      replace (6 * Z.of_nat (S n)) with (6 * Z.of_nat n + 6) by lia. by rewrite Z.pow_add_r by lia. }
    assert (0 <= d < 2 ^ 32) as Hd.
    { subst d. rewrite Z.shiftr_div_pow2 by lia. split; [apply Z.div_pos; lia|].
      apply Z.div_lt_upper_bound; [lia|]. nia. }
    pose proof (Z.div_mod d 64 ltac:(lia)). rewrite u32_id by lia. lia.
Qed.

(** What the table gives for integers of [k + 8] bits: [n] continuation bytes, and a first
    byte that holds the other bits and says so. *)
Definition head_ok (k : Z) : bool :=
  let e := tab kTpEnc k in
  let n := Z.land e 0xff in
  let h := Z.shiftr e 8 in
  let lim := tab [32; 32; 16; 8; 4; 4] n in
  (1 <=? n) && (n <=? 5) && implb (k <? 4) (n =? 1) && (2 ^ (k + 8) <=? lim * 2 ^ (6 * n)) &&
  forallb (fun d => (ThomPikeByte (Z.lor d h) =? d) && (ThomPikeLen (Z.lor d h) =? n + 1)
                    && (0xC0 <=? Z.lor d h) && (Z.lor d h <? 256)) (zbelow (Z.to_nat lim)).

Lemma head_ok_all k : 0 <= k < 25 -> head_ok k = true.
Proof. apply (forall_below 25). vm_compute. reflexivity. Qed.

Lemma head_spec c :
  128 <= c < 2 ^ 32 ->
  let e := tab kTpEnc (bsr c - 7) in
  let n := Z.land e 0xff in
  let x := Z.lor (Z.shiftr c (6 * n)) (Z.shiftr e 8) in
  1 <= n <= 5 /\ ThomPikeByte x = Z.shiftr c (6 * n) /\ ThomPikeLen x = n + 1 /\
  0xC0 <= x < 256 /\ (c < 2 ^ 11 -> n = 1).
Proof.
  intros Hc. cbv zeta. rewrite bsr_log2 by lia.
  assert (7 <= Z.log2 c) as K1 by (apply Z.log2_le_pow2; lia).
  assert (Z.log2 c < 32) as K2 by (apply Z.log2_lt_pow2; lia).
  assert (c < 2 ^ (Z.log2 c + 1)) as Lc by (apply Z.log2_spec; lia).
  pose proof (head_ok_all (Z.log2 c - 7) ltac:(lia)) as Hk. unfold head_ok in Hk.
  set (e := tab kTpEnc (Z.log2 c - 7)) in *. set (n := Z.land e 0xff) in *.
  set (lim := tab _ n) in *.
  replace (Z.log2 c - 7 + 8) with (Z.log2 c + 1) in Hk by lia.
  rewrite !andb_true_iff in Hk. destruct Hk as [[[[N1 N2] N4] N3] Hf].
  apply Z.leb_le in N1, N2, N3. rewrite forallb_forall in Hf.
  assert (c < 2 ^ 11 -> n = 1) as N5.
  { intros Hs. assert (Z.log2 c < 11) by (apply Z.log2_lt_pow2; lia).
    rewrite (proj2 (Z.ltb_lt _ 4)) in N4 by lia. cbn [implb] in N4. lia. }
  set (d := Z.shiftr c (6 * n)) in *.
  assert (0 <= d < lim) as Hd.
  { subst d. rewrite Z.shiftr_div_pow2 by lia. split; [apply Z.div_pos; lia|].
    apply Z.div_lt_upper_bound; lia. }
  assert (In d (zbelow (Z.to_nat lim))) as Hin.
  { unfold zbelow. rewrite in_map_iff. exists (Z.to_nat d). split; [lia|]. apply in_seq. lia. }
  specialize (Hf d Hin). cbv beta in Hf. repeat split; lia || auto.
Qed.

(** The bytes of an integer: its first byte, and the continuation bytes. *)
Lemma tp_bytes_ascii c : 0 <= c < 128 -> tp_bytes c = [c].
Proof.
  intros Hc. unfold tp_bytes, tpenc. rewrite (proj2 (Z.leb_le 0 c)), (proj2 (Z.leb_le c 127)) by lia. cbn [andb].
  pose proof (emit_pack [] c 8 ltac:(unfold is_byte; lia)) as E. cbn [pack] in E.
  rewrite Z.mul_0_r, Z.add_0_r in E. apply E; [constructor|cbn; lia].
Qed.

Lemma tp_bytes_form c :
  128 <= c < 2 ^ 32 ->
  let e := tab kTpEnc (bsr c - 7) in
  let n := Z.land e 0xff in
  tp_bytes c = Z.lor (Z.shiftr c (6 * n)) (Z.shiftr e 8) :: conts (Z.to_nat n) c.
Proof.
  intros Hc. destruct (head_spec c) as (N & F1 & F2 & F3 & F4); [lia|]. unfold tp_bytes, tpenc.
  rewrite (proj2 (Z.leb_gt c 127)), andb_false_r by lia. cbv zeta in *.
  set (e := tab kTpEnc (bsr c - 7)) in *. set (n := Z.land e 0xff) in *. set (h := Z.shiftr e 8) in *.
  pose proof (tpenc_loop_pack (Z.to_nat n) [] c (Forall_nil_2 _) ltac:(cbn; lia)) as T.
  cbn [pack] in T. change (256 * 0) with 0 in T. rewrite T, app_nil_r. clear T.
  rewrite Z2Nat.id by lia. set (d := Z.shiftr c (6 * n)) in *.
  assert (is_byte (Z.lor d h)) as Bh by (unfold is_byte; lia). set (cs := conts (Z.to_nat n) c).
  assert (Z.lor (Z.lor d (256 * pack cs)) h = pack (Z.lor d h :: cs)) as ->.
  { rewrite <- Z.lor_assoc, (Z.lor_comm _ h), Z.lor_assoc, Z.lor_comm.
    pose proof (lor_shiftl_add (pack cs) (Z.lor d h) 8 ltac:(lia) Bh) as E.
    rewrite Z.shiftl_mul_pow2, (Z.mul_comm (pack cs)) in E by lia. change (2 ^ 8) with 256 in E.
    rewrite E. cbn [pack]. lia. }
  assert (length cs = Z.to_nat n) as Lcs by apply conts_length.
  apply emit_pack; [done|apply conts_bytes|lia].
Qed.

(** What the decoder makes of them. *)
Lemma tp_bytes_next c :
  0 <= c < 2 ^ 32 ->
  exists x l, tp_bytes c = x :: l /\ Bytes (x :: l) /\ (forall r, tp_next x (l ++ r) = (c, r)) /\
    (length l <= 5)%nat /\ (c < 2 ^ 11 -> (length l <= 1)%nat).
Proof.
  intros Hc. destruct (Z.leb_spec c 127).
  { exists c, []. split; [apply tp_bytes_ascii; lia|]. split; [|split; [|cbn; lia]].
    - constructor; [unfold is_byte; lia|constructor].
    - intros r. unfold tp_next. rewrite land_255, Z.mod_small, Z.geb_leb by lia.
      by rewrite (proj2 (Z.leb_gt 0xC0 c)) by lia. }
  pose proof (tp_bytes_form c ltac:(lia)) as E. destruct (head_spec c) as (N & F1 & F2 & F3 & F4); [lia|]. cbv zeta in *.
  set (e := tab kTpEnc (bsr c - 7)) in *. set (n := Z.land e 0xff) in *. set (h := Z.shiftr e 8) in *.
  set (d := Z.shiftr c (6 * n)) in *. set (cs := conts (Z.to_nat n) c) in *. exists (Z.lor d h), cs.
  assert (length cs = Z.to_nat n) as Lcs by apply conts_length. assert (is_byte (Z.lor d h)) as Bh by (unfold is_byte; lia).
  split; [done|split; [|split; [|split; [lia|intros Hs; specialize (F4 Hs); lia]]]].
  - constructor; [done|]. eapply Forall_impl; [apply conts_bytes|]. by intros ? [].
  - intros r. unfold tp_next. rewrite land_255, Z.mod_small by done.
    rewrite Z.geb_leb, (proj2 (Z.leb_le 0xC0 _)) by lia. rewrite F1, F2.
    replace (n + 1 - 1) with n by lia.
    rewrite (proj2 (Z.leb_le n _)) by (rewrite length_app; lia).
    pose proof (merge_conts_ok (Z.to_nat n) c r Hc) as M. rewrite Z2Nat.id in M by lia.
    subst d cs. by rewrite M.
Qed.

(* ------------------------------------------------------------------ *)
(** ** Lemmas: texts *)

(** The decoder makes progress, and yields 32-bit integers. *)
Lemma merge_conts_spec m : forall a l c r,
  merge_conts m a l = Some (c, r) -> 0 <= a < 2 ^ 32 ->
  0 <= c < 2 ^ 32 /\ length l = (m + length r)%nat /\ exists k, l = k ++ r.
Proof.
  induction m as [|m IH]; intros a l c r H Ha; cbn [merge_conts] in H.
  - simplify_eq. split; [done|]. split; [done|by exists []].
  - destruct l as [|b l]; [done|]. destruct (negb _); [done|].
    destruct (IH _ _ _ _ H) as (Hc & L & k & ->).
    + unfold ThomPikeMerge, u32. apply Z.mod_pos_bound. lia.
    + split; [done|]. split; [cbn [length]; lia|by exists (b :: k)].
Qed.

Lemma ThomPikeByte_range b : is_byte b -> 0 <= ThomPikeByte b < 256.
Proof.
  intros Hb.
  assert (forallb (fun b => (0 <=? ThomPikeByte b) && (ThomPikeByte b <? 256)) (zbelow 256) = true)
    as F by (vm_compute; reflexivity).
  pose proof (forall_byte _ F b Hb) as H. cbv beta in H. lia.
Qed.

Lemma land_255_byte x : is_byte (Z.land x 255).
Proof. rewrite land_255. apply Z.mod_pos_bound. lia. Qed.

Lemma tp_next_spec x l c r :
  tp_next x l = (c, r) ->
  0 <= c < 2 ^ 32 /\ (length r <= length l)%nat /\ exists k, l = k ++ r.
Proof.
  unfold tp_next. pose proof (land_255_byte x) as B. set (b := Z.land x 255) in *.
  assert ((b, l) = (c, r) -> 0 <= c < 2 ^ 32 /\ (length r <= length l)%nat /\
    exists k, l = k ++ r) as D.
  { intros H. simplify_eq. unfold is_byte in B. split; [lia|]. split; [lia|by exists []]. }
  destruct (_ >=? _); [|done]. destruct (_ <=? _); [|done].
  destruct (merge_conts _ _ _) as [[c' r']|] eqn:E; [|done]. intros H. simplify_eq.
  pose proof (ThomPikeByte_range b B).
  apply merge_conts_spec in E as (Hc & L & k & Ek); [|lia].
  split; [done|]. split; [lia|by exists k].
Qed.

Lemma tp_decode_fuel fuel : forall l, (length l <= fuel)%nat -> tp_decode fuel l = codepoints l.
Proof.
  assert (forall n f1 f2 l, (length l <= n)%nat -> (length l <= f1)%nat -> (length l <= f2)%nat ->
            tp_decode f1 l = tp_decode f2 l) as H.
  { induction n as [|n IH]; intros f1 f2 [|x l] L L1 L2; cbn [length] in *; try lia;
      try (by destruct f1, f2). destruct f1 as [|f1], f2 as [|f2]; try lia. cbn [tp_decode].
    destruct (tp_next x l) as [c r] eqn:E. apply tp_next_spec in E as (_ & Lr & _).
    f_equal. apply IH; lia. }
  intros l L. by apply (H (length l)).
Qed.

Lemma codepoints_cons x l :
  codepoints (x :: l) = let '(c, r) := tp_next x l in c :: codepoints r.
Proof.
  unfold codepoints at 1. cbn [length tp_decode].
  destruct (tp_next x l) as [c r] eqn:E. apply tp_next_spec in E as (_ & Lr & _).
  by rewrite tp_decode_fuel.
Qed.

Lemma codepoints_range l : Forall (fun c => 0 <= c < 2 ^ 32) (codepoints l).
Proof.
  remember (length l) as n eqn:L. assert (length l <= n)%nat as L' by lia. clear L.
  revert l L'. induction n as [|n IH]; intros [|x l] L; cbn [length] in *; try constructor; [lia..|].
  rewrite codepoints_cons. destruct (tp_next x l) as [c r] eqn:E.
  apply tp_next_spec in E as (Hc & Lr & _). constructor; [done|]. apply IH. lia.
Qed.

(** A text made of encoded integers. *)
Fixpoint encode_text (cs : list Z) : bytes :=
  match cs with [] => [] | c :: cs => tp_bytes c ++ encode_text cs end.

Lemma codepoints_tp_bytes c r :
  0 <= c < 2 ^ 32 -> codepoints (tp_bytes c ++ r) = c :: codepoints r.
Proof.
  intros Hc. destruct (tp_bytes_next c Hc) as (x & l & -> & _ & N & _). cbn [app].
  by rewrite codepoints_cons, N.
Qed.

Lemma codepoints_encode cs :
  Forall (fun c => 0 <= c < 2 ^ 32) cs -> codepoints (encode_text cs) = cs.
Proof.
  induction 1 as [|c cs Hc _ IH]; [done|]. cbn [encode_text].
  by rewrite codepoints_tp_bytes, IH.
Qed.

Lemma encode_text_app a b : encode_text (a ++ b) = encode_text a ++ encode_text b.
Proof. induction a as [|c a IH]; [done|]. cbn [encode_text app]. by rewrite IH, app_assoc. Qed.

(** ASCII stands for itself. *)
Definition is_ascii (b : Z) : Prop := 0 <= b < 128.

Lemma tp_next_ascii x l : is_ascii x -> tp_next x l = (x, l).
Proof.
  unfold is_ascii, tp_next. intros H. rewrite land_255, Z.mod_small, Z.geb_leb by lia.
  by rewrite (proj2 (Z.leb_gt 0xC0 x)) by lia.
Qed.

Lemma codepoints_ascii a r : Forall is_ascii a -> codepoints (a ++ r) = a ++ codepoints r.
Proof.
  induction 1 as [|x a Hx _ IH]; [done|]. cbn [app]. by rewrite codepoints_cons, tp_next_ascii, IH.
Qed.

Lemma encode_ascii a : Forall is_ascii a -> encode_text a = a.
Proof.
  induction 1 as [|x a Hx _ IH]; [done|]. cbn [encode_text]. by rewrite tp_bytes_ascii, IH.
Qed.

(* ------------------------------------------------------------------ *)
(** ** Lemmas: the vector test *)

Lemma pmovmskb_at_bit p : forall i k,
  0 <= i -> (k < length p)%nat ->
  Z.testbit (pmovmskb_at i p) (i + Z.of_nat k) = negb (Z.land (nth k p 0) 0x80 =? 0).
Proof.
  assert (forall p i j, 0 <= j < i -> Z.testbit (pmovmskb_at i p) j = false) as Low.
  { induction p0 as [|x p0 IH]; intros i j Hj; [apply Z.bits_0|]. cbn [pmovmskb_at].
    rewrite Z.lor_spec, IH by lia. rewrite orb_false_r. destruct (negb _); [|apply Z.bits_0].
    apply Z.shiftl_spec_low. lia. }
  induction p as [|x p IH]; intros i k Hi L; [cbn in L; lia|]. cbn [pmovmskb_at length] in *.
  rewrite Z.lor_spec. destruct k as [|k]; cbn [nth].
  - rewrite Z.add_0_r, Low, orb_false_r by lia. destruct (negb _); [|apply Z.bits_0].
    rewrite Z.shiftl_spec by lia. by rewrite Z.sub_diag.
  - replace (i + Z.of_nat (S k)) with (i + 1 + Z.of_nat k) by lia.
    rewrite IH by lia. destruct (negb (Z.land x 128 =? 0)); [|by rewrite Z.bits_0].
    rewrite Z.shiftl_spec by lia.
    replace (i + 1 + Z.of_nat k - i) with (Z.succ (Z.of_nat k)) by lia.
    change 1 with (2 * 0 + 1). rewrite Z.testbit_odd_succ by lia. by rewrite Z.bits_0.
Qed.

Lemma ascii_block v :
  Bytes v -> length v = 16%nat -> pmovmskb (pcmpgtb v (replicate 16 0)) = 0xFFFF ->
  Forall is_ascii v.
Proof.
  intros B L H. apply Forall_lookup. intros k x Hk.
  assert (k < 16)%nat as Lk by (apply lookup_lt_Some in Hk; lia).
  pose proof (pmovmskb_at_bit (pcmpgtb v (replicate 16 0)) 0 k ltac:(lia)) as P.
  unfold pmovmskb in H. rewrite H in P.
  assert (length (pcmpgtb v (replicate 16 0)) = 16%nat) as Lp.
  { unfold pcmpgtb. rewrite length_zip_with, L, length_replicate. done. }
  specialize (P ltac:(lia)).
  assert (Z.testbit 0xFFFF (0 + Z.of_nat k) = true) as T.
  { change 0xFFFF with (Z.ones 16). apply Z.ones_spec_low. lia. }
  rewrite T in P. unfold pcmpgtb in P.
  assert (nth k (zip_with (fun b c => if s8 b >? s8 c then 255 else 0) v (replicate 16 0)) 0 =
          if s8 x >? 0 then 255 else 0) as E.
  { apply nth_lookup_Some. apply lookup_zip_with_Some. exists x, 0. split; [done|].
    split; [done|]. by apply lookup_replicate_2. }
  rewrite E in P. rewrite Forall_forall in B. apply list_elem_of_lookup_2, B in Hk.
  unfold s8, is_byte, is_ascii in *. destruct (Z.gtb_spec ((x + 2 ^ 7) mod 2 ^ 8 - 2 ^ 7) 0); [|done].
  Z.div_mod_to_equations. lia.
Qed.

Lemma skip_ascii_spec fuel : forall l a r,
  Bytes l -> skip_ascii fuel l = (a, r) ->
  l = a ++ r /\ Forall is_ascii a /\ (l <> [] -> r <> []).
Proof.
  induction fuel as [|fuel IH]; intros l a r B H; cbn [skip_ascii] in H.
  - simplify_eq. split; [done|]. split; [constructor|done].
  - destruct (Z.ltb_spec 16 (Z.of_nat (length l))) as [L|L];
      [|simplify_eq; split; [done|split; [constructor|done]]].
    destruct (negb _) eqn:E; [simplify_eq; split; [done|split; [constructor|done]]|].
    destruct (skip_ascii fuel (drop 16 l)) as [a1 r1] eqn:E1. simplify_eq.
    destruct (IH _ _ _ (Forall_drop _ _ _ B) E1) as (D & F & N).
    split; [rewrite <- app_assoc, <- D; symmetry; apply take_drop|].
    split; [apply Forall_app; split; [|done]; apply ascii_block;
            [by apply Forall_take|rewrite length_take; lia|lia]|].
    intros _; apply N; intros D0; apply (f_equal length) in D0.
    rewrite length_drop in D0; cbn in D0; lia.
Qed.

(** Re-encoding at most doubles the length. *)
Lemma tp_bytes_length c :
  0 <= c < 2 ^ 32 -> (length (tp_bytes c) <= 6)%nat /\ (c < 2 ^ 11 -> (length (tp_bytes c) <= 2)%nat).
Proof.
  intros Hc. destruct (tp_bytes_next c Hc) as (x & l & -> & _ & _ & L1 & L2).
  cbn [length]. split; [lia|]. intros Hs. specialize (L2 Hs). lia.
Qed.

Lemma tp_next_length x l c r :
  tp_next x l = (c, r) -> (length (tp_bytes c) + 2 * length r <= 2 + 2 * length l)%nat.
Proof.
  intros H. pose proof (tp_next_spec x l c r H) as (Hc & _ & _).
  destruct (tp_bytes_length c Hc) as [L6 L2].
  unfold tp_next in H. pose proof (land_255_byte x) as B. set (b := Z.land x 255) in *.
  assert ((b, l) = (c, r) -> (length (tp_bytes c) + 2 * length r <= 2 + 2 * length l)%nat) as D.
  { intros E. simplify_eq. unfold is_byte in B. specialize (L2 ltac:(lia)). lia. }
  rewrite Z.geb_leb in H. destruct (Z.leb_spec 0xC0 b) as [Hb|]; [|auto].
  assert (forallb (fun b => implb (0xC0 <=? b) ((2 <=? ThomPikeLen b) &&
    implb (ThomPikeLen b =? 2) (ThomPikeByte b <? 32))) (zbelow 256) = true) as F
    by (vm_compute; reflexivity).
  pose proof (forall_byte _ F b B) as Fb. clear F. cbv beta in Fb.
  rewrite (proj2 (Z.leb_le 0xC0 b) Hb) in Fb. cbn [implb] in Fb.
  apply andb_true_iff in Fb as [F1 F2]. apply Z.leb_le in F1.
  destruct (_ <=? _); [|auto].
  destruct (merge_conts _ _ _) as [[c' r']|] eqn:E; [|auto]. simplify_eq.
  pose proof (ThomPikeByte_range b B) as Rb.
  pose proof (merge_conts_spec _ _ _ _ _ E ltac:(lia)) as (_ & Ll & _).
  destruct (Z.eqb_spec (ThomPikeLen b) 2) as [E2|]; cbn [implb] in F2; [|lia].
  rewrite E2 in E. change (Z.to_nat (2 - 1)) with 1%nat in E. cbn [merge_conts] in E.
  destruct l as [|y l]; [done|]. destruct (negb _); [done|]. simplify_eq.
  assert (ThomPikeMerge (ThomPikeByte b) (Z.land y 255) < 2 ^ 11) as Lm.
  { unfold ThomPikeMerge. rewrite (Z.land_comm 63), land_63.
    pose proof (Z.mod_pos_bound (Z.land y 255) 64 ltac:(lia)).
    rewrite lor_shiftl_add by lia. rewrite u32_id by lia. lia. }
  specialize (L2 Lm). cbn [length]. lia.
Qed.

(* ------------------------------------------------------------------ *)
(** ** Properties *)

(** Variable-length integers. Every 32-bit integer, written by tpenc and the loop that
    stores its bytes, is read back by the decoder, whatever follows it; a text of encoded
    integers decodes to these integers; and [_bsr] is the binary logarithm. *)
Theorem tpenc_decode c cs r x :
  0 <= c < 2 ^ 32 -> Forall (fun c => 0 <= c < 2 ^ 32) cs -> 0 < x < 2 ^ 32 ->
  codepoints (put_word (tpenc c) ++ r) = c :: codepoints r /\
  codepoints (encode_text cs) = cs /\ bsr x = Z.log2 x.
Proof.
  intros Hc Hcs Hx. split; [by apply codepoints_tp_bytes|].
  split; [by apply codepoints_encode|by apply bsr_log2].
Qed.

Lemma tpenc_decode_witness : codepoints (put_word (tpenc 0x1F600) ++ bstr "!") = [0x1F600; 33].
Proof. apply (tpenc_decode 0x1F600 [] (bstr "!") 1); [lia|constructor|lia]. Defined.
