(* ===== verification/Text.v ===== *)
(** The text functions of net/http that decode UTF-8 on the way: underlong.c,
    hascontrolcodes.c, visualizecontrolcodes.c, isacceptablepath.c, isreasonablepath.c,
    decodelatin1.c, encodelatin1.c and encodehttpheadervalue.c. *)

From S2P Require Import Prelude Tables HttpMessage HttpFields HttpHeaders ThomPike.

(* ------------------------------------------------------------------ *)
(** ** Underlong *)

(** The [for] loop; each round skips blocks of ASCII and re-encodes one integer. *)
Fixpoint underlong_loop (fuel : nat) (l : bytes) : bytes :=
  match fuel with
  | O => []
  | S fuel =>
      match l with
      | [] => []
      | _ =>
          let '(a, l) := skip_ascii (length l) l in
          match l with
          | [] => a
          | x :: l => let '(x, l) := tp_next x l in a ++ put_word (tpenc x) ++ underlong_loop fuel l
          end
      end
  end.

Definition Underlong (malloc : Z -> bool) (p : option bytes) (n : Z) : option (bytes * Z) :=
  let l := strarg p n in
  if malloc (u64 (Z.of_nat (length l) * 2 + 1))
  then Some (cbuf (underlong_loop (length l) l)) else None.

(* ------------------------------------------------------------------ *)
(** ** Control codes *)

Definition kControlWs : Z := 1.
Definition kControlC0 : Z := 2.
Definition kControlC1 : Z := 4.

(** The table [t] that HasControlCodes and EncodeLatin1 fill in. *)
Definition control_table (f : Z) : list Z :=
  let t := replicate 256 0 in
  let t := if negb (Z.land f kControlC0 =? 0)
           then <[0x7F%nat := 1]> (replicate 0x20 1 ++ drop 0x20 t) else t in
  let t := if negb (Z.land f kControlC1 =? 0)
           then take 0x80 t ++ replicate 0x20 1 ++ drop 0xA0 t else t in
  let ws := if negb (Z.land f kControlWs =? 0) then 1 else 0 in
  <[9%nat := ws]> (<[13%nat := ws]> (<[10%nat := ws]> (<[11%nat := ws]> t))).

(** [i] is the index of the first byte of [l]. *)
Fixpoint control_loop (fuel : nat) (t : list Z) (i : Z) (l : bytes) : Z :=
  match fuel with
  | O => -1
  | S fuel =>
      match l with
      | [] => -1
      | x :: l1 =>
          let '(x, r) := tp_next x l1 in
          if (x <? 256) && negb (tab t x =? 0) then i
          else control_loop fuel t (i + Z.of_nat (length l - length r)) r
      end
  end.

Definition HasControlCodes (p : option bytes) (n : Z) (f : Z) : Z :=
  let l := strarg p n in control_loop (length l) (control_table f) 0 l.

(** The characters that hide source code from its reader. *)
Definition trojan (x : Z) : Z :=
  if x =? 0x2028 then 0x21B5
  else if x =? 0x2029 then 0xB6
  else if x =? 0x202A then 0x27EB
  else if x =? 0x202B then 0x27EA
  else if x =? 0x202D then 0x276F
  else if x =? 0x202E then 0x276E
  else if x =? 0x2066 then 0x27E9
  else if x =? 0x2067 then 0x27E8
  else if x =? 0x2068 then 0x29FD
  else if x =? 0x202C then 0x21EE
  else if x =? 0x2069 then 0x21EF
  else x.

Definition hex : bytes := bstr "0123456789abcdef".

(** What one integer is shown as. *)
Definition visualize (x : Z) : bytes :=
  let x := trojan x in
  if (0x80 <=? x) && (x <? 0xA0) then
    [92; # "u"; # "0"; # "0"; tab hex (Z.shiftr (Z.land x 0xF0) 4); tab hex (Z.shiftr (Z.land x 0x0F) 0)]
  else
    let x :=
      if (0 <=? x) && (x <? 0x20) then
        if negb (x =? 9) && negb (x =? 13) && negb (x =? 10) then x + 0x2400 else x
      else if x =? 0x7F then 0x2421 else x in
    put_word (tpenc x).

Fixpoint visualize_loop (fuel : nat) (l : bytes) : bytes :=
  match fuel with
  | O => []
  | S fuel =>
      match l with
      | [] => []
      | x :: l => let '(x, l) := tp_next x l in visualize x ++ visualize_loop fuel l
      end
  end.

(** The buffer, and the size that is stored: 0 when there is no memory. *)
Definition VisualizeControlCodes (malloc : Z -> bool) (data : option bytes) (size : Z)
  : option bytes * Z :=
  let l := strarg data size in
  if malloc (u64 (Z.of_nat (length l) * 6 + 1))
  then let out := visualize_loop (length l) l in (Some (out ++ [0]), u32 (Z.of_nat (length out)))
  else (None, 0).

(* ------------------------------------------------------------------ *)
(** ** Paths *)

(** [if (x == '\\') x = '/';] *)
Definition slash (x : Z) : Z := if x =? 92 then 47 else x.

Section Acceptable.
(** The whole path, which the exception compares with [/.well-known/]. *)
Context (data : bytes).

(** The state of the loop: [y], the last character, and [t], whether there was one. *)
Fixpoint acceptable_loop (fuel : nat) (y : Z) (t : bool) (l : bytes) : bool :=
  match fuel with
  | O => true
  | S fuel =>
      match l with
      | [] => true
      | x :: l =>
          let '(x, l) := tp_next x l in
          let x := slash x in
          let used := Z.of_nat (length data - length l) in
          if (y =? 47) && (x =? 46)
             && ((used >? 2) || (Z.of_nat (length data) <? 13)
                 || negb (bool_decide (take 13 data = bstr "/.well-known/")))
          then false
          else if (y =? 47) && (x =? 47) && t then false
          else acceptable_loop fuel x true l
      end
  end.
End Acceptable.

Definition IsAcceptablePath (data : option bytes) (size : Z) : bool :=
  let l := strarg data size in acceptable_loop l (length l) 47 false l.

(** The last three characters; at the end [y] and [x] are the same one. *)
Fixpoint reasonable_loop (fuel : nat) (z y x : Z) (l : bytes) : bool :=
  match fuel, l with
  | S fuel, x :: l =>
      let '(x, l) := tp_next x l in
      let x := slash x in
      if (z =? 47) && (y =? 46) && (x =? 47) then false
      else if (z =? 47) && (y =? 46) && (x =? 46) then false
      else reasonable_loop fuel y x x l
  | _, _ =>
      if (y =? 47) && (x =? 46) then false
      else if (z =? 47) && (y =? 46) && (x =? 46) then false
      else true
  end.

Definition IsReasonablePath (data : option bytes) (size : Z) : bool :=
  let l := strarg data size in reasonable_loop (length l) 47 47 47 l.

(* ------------------------------------------------------------------ *)
(** ** Latin-1 *)

Fixpoint decode_latin1_loop (fuel : nat) (l : bytes) : bytes :=
  match fuel with
  | O => []
  | S fuel =>
      match l with
      | [] => []
      | _ =>
          let '(a, l) := skip_ascii (length l) l in
          match l with
          | [] => a
          | x :: l =>
              let c := Z.land x 0xff in
              a ++ (if c <? 0x80 then [c]
                    else [Z.lor 0xC0 (Z.shiftr c 6); Z.lor 0x80 (Z.land c 0x3F)])
                ++ decode_latin1_loop fuel l
          end
      end
  end.

Definition DecodeLatin1 (malloc : Z -> bool) (p : option bytes) (n : Z) : option (bytes * Z) :=
  let l := strarg p n in
  if malloc (u64 (Z.of_nat (length l) * 2 + 1))
  then Some (cbuf (decode_latin1_loop (length l) l)) else None.

(** One character of the input and the bytes behind it; [None] is [goto Invalid]. *)
Fixpoint encode_latin1_loop (t : list Z) (l : bytes) : option bytes :=
  match l with
  | [] => Some []
  | x :: l =>
      let c := Z.land x 0xff in
      if 0xC0 <=? c then
        match l with
        | y :: l2 =>
            if (c <=? 0xC3) && (Z.land y 0xC0 =? 0x80) then
              let c := Z.lor (Z.shiftl (Z.land c 0x1F) 6) (Z.land y 0x3F) in
              if negb (tab t c =? 0) then None else cons c <$> encode_latin1_loop t l2
            else None
        | [] => None
        end
      else if negb (tab t c =? 0) then None else cons c <$> encode_latin1_loop t l
  end.

Definition EncodeLatin1 (malloc : Z -> bool) (p : option bytes) (n : Z) (f : Z)
  : result (bytes * Z) :=
  let l := strarg p n in
  if malloc (u64 (Z.of_nat (length l) + 1)) then
    match encode_latin1_loop (control_table f) l with
    | Some out => Ok (cbuf out)
    | None => Err EILSEQ
    end
  else Err ENOMEM.

(** [while (q > r && (q[-1] == ' ' || q[-1] == '\t')) --q;] on the reversed buffer. *)
Fixpoint trim_rev (r : bytes) : bytes :=
  match r with
  | c :: r' => if (c =? 32) || (c =? 9) then trim_rev r' else r
  | [] => []
  end.

(** One character: two bytes of UTF-8, the start of a longer sequence, or a byte. *)
Definition header_next (x : Z) (l : bytes) : Z * bytes :=
  let x := Z.land x 0xff in
  if x >=? 0xC0 then
    match l with
    | y :: l2 =>
        if ThomPikeCont y then
          if ThomPikeLen x =? 2 then (ThomPikeMerge (ThomPikeByte x) y, l2) else (0, l)
        else (x, l)
    | [] => (x, l)
    end
  else (x, l).

Definition header_char (x : Z) : bool :=
  ((0x20 <=? x) && (x <=? 0x7E)) || ((0xA0 <=? x) && (x <=? 0xFF)) || (x =? 9).

(** [t]: whether the leading blanks are over; [out]: the buffer. *)
Fixpoint header_loop (fuel : nat) (t : bool) (l : bytes) (out : bytes) : option bytes :=
  match fuel with
  | O => Some out
  | S fuel =>
      match l with
      | [] => Some out
      | x :: l =>
          let '(x, l) := header_next x l in
          if negb t && ((x =? 32) || (x =? 9)) then header_loop fuel t l out
          else if header_char x then header_loop fuel true l (out ++ [x])
          else None
      end
  end.

Definition EncodeHttpHeaderValue (malloc : Z -> bool) (data : option bytes) (size : Z)
  : result (bytes * Z) :=
  let l := strarg data size in
  if malloc (u64 (Z.of_nat (length l) + 1)) then
    match header_loop (length l) false l [] with
    | Some out => Ok (cbuf (rev (trim_rev (rev out))))
    | None => Err EILSEQ
    end
  else Err ENOMEM.

Example text_1 : IsAcceptablePath (Some (bstr "/.well-known/x")) SIZE_MAX = true.
Proof. reflexivity. Qed.
Example text_2 : IsAcceptablePath (Some (bstr "/a/.b")) SIZE_MAX = false.
Proof. reflexivity. Qed.
Example text_3 : IsReasonablePath (Some (bstr "/a/..")) SIZE_MAX = false
  /\ IsReasonablePath (Some (bstr "/a/.")) SIZE_MAX = false
  /\ IsReasonablePath (Some (bstr "/a/.b")) SIZE_MAX = true.
Proof. repeat split; reflexivity. Qed.
Example text_4 : EncodeHttpHeaderValue (fun _ => true) (Some (bstr " a b ")) SIZE_MAX = Ok (bstr "a b" ++ [0], 3).
Proof. reflexivity. Qed.

(* ------------------------------------------------------------------ *)
(** ** Lemmas: Underlong *)

(** The loop re-encodes the integers of the text. *)
Lemma underlong_loop_spec fuel : forall l,
  Bytes l -> (length l <= fuel)%nat -> underlong_loop fuel l = encode_text (codepoints l).
Proof.
  induction fuel as [|fuel IH]; intros l B L; [destruct l; [done|cbn in L; lia]|].
  cbn [underlong_loop]. destruct l as [|x0 l0]; [done|]. set (l := x0 :: l0) in *.
  destruct (skip_ascii (length l) l) as [a r] eqn:E.
  destruct (skip_ascii_spec _ _ _ _ B E) as (D & A & N).
  destruct r as [|x r]; [by destruct N|]. destruct (tp_next x r) as [c r'] eqn:En.
  rewrite D, codepoints_ascii, codepoints_cons, En by done.
  rewrite encode_text_app, encode_ascii by done. cbn [encode_text]. do 2 f_equal.
  pose proof (tp_next_spec _ _ _ _ En) as (_ & Lr & k & Ek). apply (f_equal length) in D.
  rewrite length_app in D. cbn [length] in D. apply IH; [|lia].
  assert (Bytes (x :: r)) as Br by (eapply Forall_app; rewrite <- (proj1 (skip_ascii_spec _ _ _ _ B E)); exact B).
  apply Forall_cons in Br as [_ Br]. rewrite Ek in Br. by apply Forall_app in Br as [_ Br].
Qed.

Lemma encode_text_length fuel : forall l,
  (length l <= fuel)%nat -> (length (encode_text (codepoints l)) <= 2 * length l)%nat.
Proof.
  induction fuel as [|fuel IH]; intros [|x l] L; cbn [length] in *; [cbn; lia..| |].
  - cbn. lia.
  - rewrite codepoints_cons. destruct (tp_next x l) as [c r] eqn:E.
    pose proof (tp_next_length _ _ _ _ E). pose proof (tp_next_spec _ _ _ _ E) as (_ & Lr & _).
    cbn [encode_text]. rewrite length_app. specialize (IH r ltac:(lia)). lia.
Qed.

Lemma encode_text_bytes cs : Forall (fun c => 0 <= c < 2 ^ 32) cs -> Bytes (encode_text cs).
Proof.
  induction 1 as [|c cs Hc _ IH]; [constructor|]. cbn [encode_text]. apply Forall_app.
  split; [|done]. destruct (tp_bytes_next c Hc) as (x & l & -> & B & _). done.
Qed.

(* ------------------------------------------------------------------ *)
(** ** Lemmas: control codes *)

(** What the flags forbid. *)
Definition forbidden (f : Z) (c : Z) : bool :=
  if mem c [9; 10; 11; 13] then negb (Z.land f kControlWs =? 0)
  else if (c <? 0x20) || (c =? 0x7F) then negb (Z.land f kControlC0 =? 0)
  else if (0x80 <=? c) && (c <? 0xA0) then negb (Z.land f kControlC1 =? 0)
  else false.

Lemma control_table_spec f c : is_byte c -> negb (tab (control_table f) c =? 0) = forbidden f c.
Proof.
  intros Hc. unfold control_table, forbidden.
  destruct (negb (Z.land f kControlWs =? 0)), (negb (Z.land f kControlC0 =? 0)),
    (negb (Z.land f kControlC1 =? 0));
    apply Bool.eqb_prop; revert c Hc; apply forall_byte; vm_compute; reflexivity.
Qed.

Lemma forbidden_byte f c : 0 <= c -> forbidden f c = true -> c < 256.
Proof.
  unfold forbidden. intros H0 H. destruct (decide (256 <= c)); [|lia]. exfalso.
  assert (mem c [9; 10; 11; 13] = false) as E by (cbn; lia). rewrite E in H.
  rewrite (proj2 (orb_false_iff _ _)) in H by lia.
  by rewrite (proj2 (andb_false_iff _ _)) in H by (right; lia).
Qed.

Lemma control_loop_spec f fuel : forall i l,
  (length l <= fuel)%nat ->
  let r := control_loop fuel (control_table f) i l in
  (r = -1 /\ Forall (fun c => forbidden f c = false) (codepoints l)) \/
  (exists pre c rest, i <= r < i + Z.of_nat (length l) /\
     codepoints l = pre ++ c :: rest /\ codepoints (drop (Z.to_nat (r - i)) l) = c :: rest /\
     Forall (fun c => forbidden f c = false) pre /\ forbidden f c = true).
Proof.
  induction fuel as [|fuel IH]; intros i [|x l] L; cbn [length] in *; try lia; [by left..|].
  cbn [control_loop]. rewrite codepoints_cons. destruct (tp_next x l) as [c r] eqn:E.
  pose proof (tp_next_spec _ _ _ _ E) as (Hc & Lr & k & Ek).
  assert ((c <? 256) && negb (tab (control_table f) c =? 0) = forbidden f c) as ->.
  { destruct (Z.ltb_spec c 256).
    - cbn [andb]. apply control_table_spec. unfold is_byte. lia.
    - cbn [andb]. destruct (forbidden f c) eqn:F; [|done].
      apply forbidden_byte in F; lia. }
  destruct (forbidden f c) eqn:F.
  - right. exists [], c, (codepoints r). split; [cbn [length]; lia|]. split; [done|].
    rewrite Z.sub_diag. change (drop (Z.to_nat 0) (x :: l)) with (x :: l).
    rewrite codepoints_cons, E. by split.
  - cbv zeta. set (j := i + Z.of_nat (length (x :: l) - length r)).
    destruct (IH j r) as [[-> A]|(pre & d & rest & R & D & D' & A & Fd)]; [lia|left|right].
    + split; [done|]. by constructor.
    + exists (c :: pre), d, rest. subst j. cbn [length] in *.
      set (res := control_loop _ _ _ _) in *. split; [lia|]. split; [by rewrite D|].
      split; [|split; [by constructor|done]]. rewrite <- D'. f_equal.
      assert (x :: l = (x :: k) ++ r) as El by (by rewrite Ek). rewrite El.
      assert (length (x :: k) = S (length l) - length r)%nat as Lk
        by (rewrite Ek, length_app; cbn [length]; lia).
      rewrite drop_app, drop_ge by lia. cbn [app]. f_equal. lia.
Qed.

(** The integers that one integer is shown as. *)
Definition shown (x : Z) : list Z :=
  let x := trojan x in
  if (0x80 <=? x) && (x <? 0xA0) then
    [92; 117; 48; 48; tab hex (Z.shiftr (Z.land x 0xF0) 4); tab hex (Z.shiftr (Z.land x 0x0F) 0)]
  else if (x <? 0x20) && negb (mem x [9; 10; 13]) then [x + 0x2400]
  else if x =? 0x7F then [0x2421] else [x].

(** Neither a control code (tab and line ends apart) nor a character that reorders or hides
    text. *)
Definition visible (c : Z) : bool :=
  negb (((c <? 0x20) && negb (mem c [9; 10; 13])) || (c =? 0x7F) || ((0x80 <=? c) && (c <? 0xA0))
        || ((0x2028 <=? c) && (c <=? 0x202E)) || ((0x2066 <=? c) && (c <=? 0x2069))).

Lemma trojan_spec x :
  0 <= x < 2 ^ 32 ->
  0 <= trojan x < 2 ^ 32 /\
  ((0x2028 <=? trojan x) && (trojan x <=? 0x202E)) || ((0x2066 <=? trojan x) && (trojan x <=? 0x2069))
  = false.
Proof. intros Hx. unfold trojan. ztest; cbn; (split; [lia|]); done || lia. Qed.

Lemma hex_ascii x : 0x80 <= x < 0xA0 ->
  Forall (fun c => 0 <= c < 128 /\ visible c = true)
    [92; 117; 48; 48; tab hex (Z.shiftr (Z.land x 0xF0) 4); tab hex (Z.shiftr (Z.land x 0x0F) 0)].
Proof.
  intros Hx.
  assert (forallb (fun x => forallb (fun c => (0 <=? c) && (c <? 128) && visible c)
    [92; 117; 48; 48; tab hex (Z.shiftr (Z.land x 0xF0) 4); tab hex (Z.shiftr (Z.land x 0x0F) 0)])
    (zbelow 256) = true) as F by (vm_compute; reflexivity).
  pose proof (forall_below 256 _ F x ltac:(lia)) as H. cbv beta in H. clear F.
  rewrite forallb_forall in H. apply Forall_forall. intros c Hc.
  apply list_elem_of_In, H, andb_true_iff in Hc as [Hc V]. split; [lia|done].
Qed.

(** What is shown of an integer that is no C1 control code. *)
Lemma picture_spec y :
  0 <= y < 2 ^ 32 -> (0x80 <=? y) && (y <? 0xA0) = false ->
  ((0x2028 <=? y) && (y <=? 0x202E)) || ((0x2066 <=? y) && (y <=? 0x2069)) = false ->
  let a := if (0 <=? y) && (y <? 0x20) then
             if negb (y =? 9) && negb (y =? 13) && negb (y =? 10) then y + 0x2400 else y
           else if y =? 0x7F then 0x2421 else y in
  (if (y <? 0x20) && negb (mem y [9; 10; 13]) then [y + 0x2400]
   else if y =? 0x7F then [0x2421] else [y]) = [a] /\
  0 <= a < 2 ^ 32 /\ visible a = true.
Proof.
  intros Hy H1 H2. cbv zeta.
  destruct (decide (y = 9)) as [->|N9]; [done|]. destruct (decide (y = 10)) as [->|N10]; [done|].
  destruct (decide (y = 13)) as [->|N13]; [done|]. destruct (decide (y = 127)) as [->|N127]; [done|].
  assert (mem y [9; 10; 13] = false) as -> by (cbn [mem existsb]; lia).
  rewrite (proj2 (Z.eqb_neq _ _) N9), (proj2 (Z.eqb_neq _ _) N10), (proj2 (Z.eqb_neq _ _) N13),
    (proj2 (Z.eqb_neq _ _) N127), (proj2 (Z.leb_le 0 y)) by lia.
  cbn [negb andb]. unfold visible.
  destruct (Z.ltb_spec y 0x20); cbn [andb].
  - split; [done|]. split; [lia|]. assert ((y + 0x2400 <? 0x20) = false) as -> by lia.
    cbn [andb orb]. lia.
  - split; [done|]. split; [lia|]. rewrite (proj2 (Z.ltb_ge y 0x20)) by lia.
    rewrite (proj2 (Z.eqb_neq _ _) N127). cbn [andb orb]. rewrite H1. cbn [orb]. by rewrite H2.
Qed.

Lemma visualize_shown x :
  0 <= x < 2 ^ 32 ->
  visualize x = encode_text (shown x) /\
  Forall (fun c => 0 <= c < 2 ^ 32 /\ visible c = true) (shown x) /\
  (length (visualize x) <= 6)%nat.
Proof.
  intros Hx. destruct (trojan_spec x Hx) as [Ht Hs]. unfold visualize, shown. cbv zeta.
  set (y := trojan x) in *. clearbody y. clear x Hx.
  destruct (_ && (y <? 0xA0)) eqn:E.
  - pose proof (hex_ascii y ltac:(lia)) as H1. split; [|split; [|done]].
    + rewrite encode_ascii; [done|]. eapply Forall_impl; [exact H1|]. by intros ? [].
    + eapply Forall_impl; [exact H1|]. intros c [? ?]. split; [lia|done].
  - destruct (picture_spec y Ht E Hs) as (-> & R & V). cbv zeta in *.
    cbn [encode_text]. rewrite app_nil_r. split; [done|]. split; [by constructor; [|constructor]|].
    exact (proj1 (tp_bytes_length _ R)).
Qed.

Fixpoint flat_shown (cs : list Z) : list Z :=
  match cs with [] => [] | c :: cs => shown c ++ flat_shown cs end.

Lemma visualize_loop_spec fuel : forall l,
  (length l <= fuel)%nat ->
  visualize_loop fuel l = encode_text (flat_shown (codepoints l)) /\
  Forall (fun c => 0 <= c < 2 ^ 32 /\ visible c = true) (flat_shown (codepoints l)) /\
  (length (visualize_loop fuel l) <= 6 * length l)%nat.
Proof.
  induction fuel as [|fuel IH]; intros [|x l] L; cbn [length] in *; try lia;
    try (split; [done|]; split; [constructor|cbn; lia]).
  cbn [visualize_loop]. rewrite codepoints_cons. destruct (tp_next x l) as [c r] eqn:E.
  pose proof (tp_next_spec _ _ _ _ E) as (Hc & Lr & _).
  destruct (IH r ltac:(lia)) as (-> & F & L6). destruct (visualize_shown c Hc) as (-> & Fc & Lc).
  cbn [flat_shown]. rewrite encode_text_app. split; [done|].
  split; [by apply Forall_app|]. rewrite length_app. lia.
Qed.

(* ------------------------------------------------------------------ *)
(** ** Lemmas: paths *)

(** The characters of a path, with backslashes read as slashes. *)
Definition path_chars (l : bytes) : list Z := map slash (codepoints l).

Definition well_known (data : bytes) : bool :=
  (13 <=? Z.of_nat (length data)) && bool_decide (take 13 data = bstr "/.well-known/").

(** The loop of IsAcceptablePath on characters; [k] counts them. *)
Fixpoint acceptable (wk : bool) (k : nat) (y : Z) (cs : list Z) : bool :=
  match cs with
  | [] => true
  | x :: cs =>
      if (y =? 47) && (x =? 46) && negb (wk && (Nat.eqb k 1)) then false
      else if (y =? 47) && (x =? 47) && negb (Nat.eqb k 0) then false
      else acceptable wk (S k) x cs
  end.

Lemma well_known_spec data :
  well_known data = true -> exists l, data = 47 :: 46 :: l.
Proof.
  unfold well_known. rewrite andb_true_iff, bool_decide_eq_true. intros [_ H].
  destruct data as [|a [|b l]]; cbn in H; try done. simplify_eq. by exists l.
Qed.

(** The exception for [/.well-known/], which the code finds by the number of bytes read. *)
Lemma hidden_cond data d x l c r k :
  data = d ++ x :: l -> tp_next x l = (c, r) -> slash c = 46 -> (k <= length d)%nat ->
  (k = 0%nat -> d = []) -> (well_known data = true -> k = 1%nat -> length d = 1%nat) ->
  (Z.of_nat (length data - length r) >? 2) || (Z.of_nat (length data) <? 13)
    || negb (bool_decide (take 13 data = bstr "/.well-known/")) =
  negb (well_known data && Nat.eqb k 1).
Proof.
  intros Ed E Hc Lk K0 K1. pose proof (tp_next_spec _ _ _ _ E) as (_ & Lr & _).
  assert (length data - length r = length d + S (length l - length r))%nat as Eu
    by (rewrite Ed, length_app; cbn [length]; lia).
  rewrite Z.gtb_ltb, Eu. destruct (well_known data) eqn:W; cbn [andb].
  - specialize (K1 eq_refl). destruct (well_known_spec data W) as [l0 E0]. unfold well_known in W.
    apply andb_true_iff in W as [W1 W2]. rewrite W2. cbn [negb]. rewrite orb_false_r.
    rewrite (proj2 (Z.ltb_ge _ 13)) by lia. rewrite orb_false_r.
    destruct k as [|[|k]]; cbn [Nat.eqb negb].
    + rewrite (K0 eq_refl) in Ed. cbn [app] in Ed. rewrite Ed in E0. simplify_eq.
      rewrite tp_next_ascii in E by (unfold is_ascii; lia). by simplify_eq.
    + specialize (K1 eq_refl). destruct d as [|d0 [|]]; try done.
      cbn [app] in Ed. rewrite Ed in E0. simplify_eq.
      rewrite tp_next_ascii in E by (unfold is_ascii; lia). simplify_eq.
      apply Z.ltb_ge. cbn [length]. lia.
    + apply Z.ltb_lt. lia.
  - unfold well_known in W. apply andb_false_iff in W as [W|W].
    + rewrite (proj2 (Z.ltb_lt _ 13)) by lia. by rewrite orb_true_r.
    + rewrite W. cbn [negb]. apply orb_true_r.
Qed.

Lemma acceptable_loop_spec data fuel : forall d l y k,
  data = d ++ l -> (length l <= fuel)%nat -> (k <= length d)%nat ->
  (k = 0%nat -> d = []) -> (well_known data = true -> k = 1%nat -> length d = 1%nat) ->
  acceptable_loop data fuel y (negb (Nat.eqb k 0)) l =
  acceptable (well_known data) k y (path_chars l).
Proof.
  induction fuel as [|fuel IH]; intros d [|x l] y k Ed L Lk K0 K1; cbn [length] in *; try lia;
    try done.
  cbn [acceptable_loop]. unfold path_chars. rewrite codepoints_cons.
  destruct (tp_next x l) as [c r] eqn:E. pose proof (tp_next_spec _ _ _ _ E) as (_ & Lr & e & Ee).
  cbn [map acceptable].
  assert (acceptable_loop data fuel (slash c) true r =
          acceptable (well_known data) (S k) (slash c) (map slash (codepoints r))) as Go.
  { apply (IH (d ++ x :: e) r (slash c) (S k)); try lia.
    - rewrite Ed, Ee, <- app_assoc. done.
    - rewrite length_app. cbn [length]. lia.
    - intros W Hk. assert (k = 0)%nat as Hk0 by lia. rewrite (K0 Hk0) in *. cbn [app length] in *.
      destruct (well_known_spec data W) as [l0 E0]. rewrite Ed in E0. injection E0 as Ex _.
      rewrite tp_next_ascii in E by (unfold is_ascii; lia). injection E as E1 E2.
      apply (f_equal length) in Ee. rewrite length_app, <- E2 in Ee.
      destruct e; [done|cbn in Ee; lia]. }
  destruct (Z.eqb_spec (slash c) 46) as [E46|N46].
  - rewrite (hidden_cond data d x l c r k), E46 by done. cbn [Z.eqb Pos.eqb].
    rewrite !andb_true_r, !andb_false_r. cbn [andb]. rewrite E46 in Go. by rewrite Go.
  - rewrite !andb_false_r. cbn [andb]. by rewrite Go.
Qed.

(** What it means. *)
Lemma acceptable_spec wk cs : forall k y,
  acceptable wk k y cs = true <->
  forall i x, cs !! i = Some x -> (match i with O => y | S j => nth j cs 0 end) = 47 ->
    (x = 46 -> wk = true /\ (k + i)%nat = 1%nat) /\ (x = 47 -> (k + i)%nat = 0%nat).
Proof.
  induction cs as [|c cs IH]; intros k y; cbn [acceptable]; [split; [|done]; intros _ i x H; done|].
  split.
  - intros H i x Hi Hy. destruct i as [|i].
    + cbn in Hi. simplify_eq. rewrite Z.eqb_refl in H. cbn [andb] in H. rewrite Nat.add_0_r.
      split; intros ->; cbn [Z.eqb Pos.eqb andb] in H.
      * destruct wk, (Nat.eqb_spec k 1); cbn in H; done.
      * destruct (Nat.eqb_spec k 0); cbn in H; done.
    + destruct (_ && _); [done|]. destruct (_ && _); [done|].
      rewrite (IH (S k) c) in H. specialize (H i x Hi).
      replace (k + S i)%nat with (S k + i)%nat by lia. apply H. destruct i; done.
  - intros H. pose proof (H 0%nat c eq_refl) as H0. cbv beta iota in H0. rewrite Nat.add_0_r in H0.
    assert ((y =? 47) && (c =? 46) && negb (wk && (k =? 1)%nat) = false) as ->.
    { destruct (Z.eqb_spec y 47) as [->|]; [|done]. destruct (Z.eqb_spec c 46) as [->|]; [|done].
      destruct H0 as [H0 _]; [done|]. destruct (H0 eq_refl) as [-> ->]. done. }
    assert ((y =? 47) && (c =? 47) && negb (k =? 0)%nat = false) as ->.
    { destruct (Z.eqb_spec y 47) as [->|]; [|done]. destruct (Z.eqb_spec c 47) as [->|]; [|done].
      destruct H0 as [_ H0]; [done|]. by rewrite (H0 eq_refl). }
    apply IH. intros i x Hi Hy. replace (S k + i)%nat with (k + S i)%nat by lia.
    apply (H (S i) x Hi). by destruct i.
Qed.

(** The loop of IsReasonablePath: the last two characters [z] and [y] and what follows. *)
Definition dotted (w : list Z) : Prop :=
  (exists a b, w = a ++ [47; 46; 47] ++ b) \/ (exists a b, w = a ++ [47; 46; 46] ++ b) \/
  (exists a, w = a ++ [47; 46]).

Lemma dotted_cons z w :
  dotted (z :: w) <->
  (z = 47 /\ (w = [46] \/ exists b, w = 46 :: 47 :: b \/ w = 46 :: 46 :: b)) \/ dotted w.
Proof.
  split.
  - intros [(a & b & E)|[(a & b & E)|(a & E)]]; destruct a as [|a0 a]; cbn in E; simplify_eq;
      try (left; split; [done|]; solve [by left | right; eexists; by left | right; eexists; by right]);
      right; [by left; exists a, b|by right; left; exists a, b|by right; right; exists a].
  - intros [[-> [->|(b & [-> | ->])]]|[(a & b & ->)|[(a & b & ->)|(a & ->)]]].
    + right; right. by exists [].
    + left. by exists [], b.
    + right; left. by exists [], b.
    + left. by exists (z :: a), b.
    + right; left. by exists (z :: a), b.
    + right; right. by exists (z :: a).
Qed.

Lemma dotted_short z : ~ dotted [] /\ ~ dotted [z].
Proof.
  split; intros [(a & b & E)|[(a & b & E)|(a & E)]];
    apply (f_equal length) in E; rewrite ?length_app in E; cbn in E; lia.
Qed.

Lemma reasonable_loop_spec fuel : forall z y l,
  (length l <= fuel)%nat ->
  (reasonable_loop fuel z y y l = true <-> ~ dotted (z :: y :: path_chars l)).
Proof.
  assert (forall z y, (if (y =? 47) && (y =? 46) then false
    else if (z =? 47) && (y =? 46) && (y =? 46) then false else true) = true
    <-> ~ dotted [z; y]) as End.
  { intros z y. rewrite dotted_cons. destruct (dotted_short y) as [_ Ds].
    destruct (Z.eqb_spec y 47), (Z.eqb_spec y 46), (Z.eqb_spec z 47); cbn [andb]; try lia;
      split; try done; intros H; try (intros [[? [?|(b & [?|?])]]|?]; simplify_eq; done).
    exfalso. apply H. left. split; [done|left; congruence]. }
  induction fuel as [|fuel IH]; intros z y [|x l] L; cbn [length] in *; try lia; [apply End..|].
  cbn [reasonable_loop]. unfold path_chars. rewrite codepoints_cons.
  destruct (tp_next x l) as [c r] eqn:E. pose proof (tp_next_spec _ _ _ _ E) as (_ & Lr & _).
  cbn [map]. set (x' := slash c). specialize (IH y x' r ltac:(lia)).
  rewrite dotted_cons. unfold path_chars in IH.
  destruct (Z.eqb_spec z 47) as [->|Nz]; cbn [andb].
  2: { rewrite IH. split; [intros H [[? _]|?]; done|]. intros H D. apply H. by right. }
  destruct (Z.eqb_spec y 46) as [->|Ny]; cbn [andb].
  2: { rewrite IH. split; [intros H [[_ [?|(b & [?|?])]]|?]; simplify_eq; done|].
       intros H D. apply H. by right. }
  destruct (Z.eqb_spec x' 47) as [E47|N47].
  { split; [done|]. intros H. exfalso. apply H. left. split; [done|right]. eexists. left.
    by rewrite E47. }
  destruct (Z.eqb_spec x' 46) as [E46|N46].
  { split; [done|]. intros H. exfalso. apply H. left. split; [done|right]. eexists. right.
    by rewrite E46. }
  rewrite IH. split; [intros H [[_ [?|(b & [?|?])]]|?]; simplify_eq; done|].
  intros H D. apply H. by right.
Qed.

(* ------------------------------------------------------------------ *)
(** ** Lemmas: Latin-1 *)

Lemma tp_bytes_latin1 c : is_byte c ->
  tp_bytes c = if c <? 0x80 then [c] else [Z.lor 0xC0 (Z.shiftr c 6); Z.lor 0x80 (Z.land c 0x3F)].
Proof.
  intros Hc.
  assert (forallb (fun c => bool_decide (tp_bytes c = if c <? 0x80 then [c]
    else [Z.lor 0xC0 (Z.shiftr c 6); Z.lor 0x80 (Z.land c 0x3F)])) (zbelow 256) = true) as F
    by (vm_compute; reflexivity).
  apply (forall_byte _ F) in Hc. by apply bool_decide_eq_true in Hc.
Qed.

Lemma decode_latin1_loop_spec fuel : forall l,
  Bytes l -> (length l <= fuel)%nat -> decode_latin1_loop fuel l = encode_text l.
Proof.
  induction fuel as [|fuel IH]; intros l B L; [destruct l; [done|cbn in L; lia]|].
  cbn [decode_latin1_loop]. destruct l as [|x0 l0]; [done|]. set (l := x0 :: l0) in *.
  destruct (skip_ascii (length l) l) as [a r] eqn:E.
  destruct (skip_ascii_spec _ _ _ _ B E) as (D & A & N).
  destruct r as [|x r]; [by destruct N|]. rewrite D in B. rewrite D, encode_text_app, encode_ascii by done.
  apply Forall_app in B as [_ B]. apply Forall_cons in B as [Bx Br].
  rewrite land_255, Z.mod_small by done. cbn [encode_text]. rewrite <- tp_bytes_latin1 by done.
  rewrite IH; [done|done|]. apply (f_equal length) in D. rewrite length_app in D.
  cbn [length] in D. lia.
Qed.

Lemma latin1_length l : Bytes l -> (length (encode_text l) <= 2 * length l)%nat.
Proof.
  induction 1 as [|c l Hc _ IH]; [done|]. cbn [encode_text length].
  rewrite length_app, tp_bytes_latin1 by done. destruct (_ <? _); cbn [length]; lia.
Qed.

(** Encoding stops at the first character that is forbidden. *)
Lemma encode_latin1_loop_spec f l :
  Bytes l ->
  encode_latin1_loop (control_table f) (encode_text l) =
  if forallb (fun c => negb (forbidden f c)) l then Some l else None.
Proof.
  induction 1 as [|c l Hc _ IH]; [done|]. cbn [encode_text forallb].
  rewrite tp_bytes_latin1 by done. pose proof (control_table_spec f c Hc) as T.
  destruct (Z.ltb_spec c 0x80) as [L|L].
  - cbn [app encode_latin1_loop]. rewrite land_255, Z.mod_small by done.
    rewrite (proj2 (Z.leb_gt 0xC0 c)) by lia. rewrite T, IH.
    destruct (forbidden f c); [done|]. cbn [negb andb]. by destruct (forallb _ _).
  - assert (let a := Z.lor 0xC0 (Z.shiftr c 6) in let b := Z.lor 0x80 (Z.land c 0x3F) in
            is_byte a /\ 0xC0 <= a <= 0xC3 /\ Z.land b 0xC0 = 0x80 /\
            Z.lor (Z.shiftl (Z.land a 0x1F) 6) (Z.land b 0x3F) = c) as (A1 & A2 & A3 & A4).
    { assert (forallb (fun c => let a := Z.lor 0xC0 (Z.shiftr c 6) in
        let b := Z.lor 0x80 (Z.land c 0x3F) in implb (0x80 <=? c) ((0xC0 <=? a) && (a <=? 0xC3)
        && (Z.land b 0xC0 =? 0x80) && (Z.lor (Z.shiftl (Z.land a 0x1F) 6) (Z.land b 0x3F) =? c)))
        (zbelow 256) = true) as F by (vm_compute; reflexivity).
      pose proof (forall_byte _ F c Hc) as H. clear F. cbv beta zeta in *.
      rewrite (proj2 (Z.leb_le 0x80 c)) in H by done. cbn [implb] in H. unfold is_byte. lia. }
    cbv zeta in *. cbn [app encode_latin1_loop]. rewrite land_255, Z.mod_small by done.
    rewrite (proj2 (Z.leb_le 0xC0 _)), (proj2 (Z.leb_le _ 0xC3)), A3 by lia.
    cbn [andb Z.eqb Pos.eqb]. rewrite A4, T, IH.
    destruct (forbidden f c); [done|]. cbn [negb andb]. by destruct (forallb _ _).
Qed.

(* ------------------------------------------------------------------ *)
(** ** Lemmas: header values *)

Definition blank (c : Z) : bool := (c =? 32) || (c =? 9).

Lemma header_loop_spec fuel : forall t l out r,
  header_loop fuel t l out = Some r -> Forall (fun c => header_char c = true) out ->
  (out = [] -> t = false) -> blank (hd 0 out) = false ->
  Forall (fun c => header_char c = true) r /\ blank (hd 0 r) = false.
Proof.
  induction fuel as [|fuel IH]; intros t l out r H F T N; cbn [header_loop] in H; [by simplify_eq|].
  destruct l as [|x l]; [by simplify_eq|]. destruct (header_next x l) as [c l'].
  destruct (negb t && _) eqn:E; [by apply (IH _ _ _ _ H)|].
  destruct (header_char c) eqn:Hc; [|done]. apply (IH _ _ _ _ H).
  - apply Forall_app. split; [done|]. by constructor; [|constructor].
  - by destruct out.
  - destruct out as [|o out]; [|by apply N]. rewrite (T eq_refl) in E. exact E.
Qed.

Lemma trim_rev_spec r :
  exists s, r = s ++ trim_rev r /\ blank (hd 0 (trim_rev r)) = false.
Proof.
  induction r as [|c r (s & E & N)]; [by exists []|]. cbn [trim_rev].
  destruct (_ || _) eqn:B; [|by exists []]. exists (c :: s). split; [|done]. cbn. by rewrite <- E.
Qed.

(** What is left behind the trimming at both ends. *)
Lemma trim_spec out :
  let v := rev (trim_rev (rev out)) in
  blank (hd 0 out) = false ->
  blank (hd 0 v) = false /\ blank (List.last v 0) = false /\ exists s, out = v ++ s.
Proof.
  cbv zeta. intros H. destruct (trim_rev_spec (rev out)) as (s & E & N).
  apply (f_equal (@rev Z)) in E. rewrite rev_involutive, rev_app_distr in E.
  set (w := trim_rev (rev out)) in *. split; [|split; [|by exists (rev s)]].
  - rewrite E in H. by destruct (rev w).
  - destruct w as [|c w]; [done|]. cbn [rev hd] in *. by rewrite last_last.
Qed.

(* ------------------------------------------------------------------ *)
(** ** Properties *)

(** Underlong is the canonical form. The routine with its 16-byte fast path returns
    the text in which each integer of the input is encoded once more; the result denotes the
    same integers, is at most twice as long, so it fits the buffer, and does not change
    when it is put through the function again. *)
Theorem Underlong_canonical p n :
  Bytes (strarg p n) ->
  let cs := codepoints (strarg p n) in
  let out := encode_text cs in
  Underlong (fun _ => true) p n = Some (cbuf out) /\ codepoints out = cs /\
  Z.of_nat (length (cbuf out).1) <= Z.of_nat (length (strarg p n)) * 2 + 1 /\
  underlong_loop (length out) out = out.
Proof.
  intros B. cbv zeta. set (l := strarg p n) in *.
  assert (codepoints (encode_text (codepoints l)) = codepoints l) as E
    by (apply codepoints_encode, codepoints_range).
  pose proof (encode_text_length (length l) l ltac:(lia)) as L.
  split; [|split; [done|split]].
  - unfold Underlong. by rewrite underlong_loop_spec by done.
  - rewrite cbuf_length. lia.
  - rewrite underlong_loop_spec; [by rewrite E|apply encode_text_bytes, codepoints_range|done].
Qed.

Lemma Underlong_canonical_witness :
  Underlong (fun _ => true) (Some [0xC0; 0xAE; 0xFF]) 3 = Some (cbuf [46; 0xC3; 0xBF]).
Proof. apply (Underlong_canonical (Some [0xC0; 0xAE; 0xFF]) 3). decide_now. Defined.

(** HasControlCodes reports -1 exactly when no decoded character is forbidden by the
    flags, and otherwise the index of the byte at which the first forbidden character
    starts; overlong encodings do not get around it. *)
Lemma HasControlCodes_first p n f :
  let l := strarg p n in
  let r := HasControlCodes p n f in
  (r = -1 /\ Forall (fun c => forbidden f c = false) (codepoints l)) \/
  (exists pre c rest, 0 <= r < Z.of_nat (length l) /\
     codepoints l = pre ++ c :: rest /\ codepoints (drop (Z.to_nat r) l) = c :: rest /\
     Forall (fun c => forbidden f c = false) pre /\ forbidden f c = true).
Proof.
  cbv zeta. pose proof (control_loop_spec f (length (strarg p n)) 0 (strarg p n) (le_n _)) as H.
  unfold HasControlCodes. cbv zeta in H. rewrite Z.sub_0_r in H. exact H.
Qed.

(** What VisualizeControlCodes prints is harmless: the output decodes to characters none of
    which is a control code (tab and line ends apart) or one of the characters that reorder
    or hide text, it is the character-wise picture of the input, and it fits the buffer. *)
Lemma VisualizeControlCodes_visible p n :
  let cs := flat_shown (codepoints (strarg p n)) in
  (VisualizeControlCodes (fun _ => true) p n).1 = Some (encode_text cs ++ [0]) /\
  codepoints (encode_text cs) = cs /\ Forall (fun c => visible c = true) cs /\
  Z.of_nat (length (encode_text cs ++ [0])) <= Z.of_nat (length (strarg p n)) * 6 + 1.
Proof.
  cbv zeta. set (l := strarg p n).
  destruct (visualize_loop_spec (length l) l (le_n _)) as (E & F & L).
  split; [|split; [|split]].
  - unfold VisualizeControlCodes. fold l. by rewrite E.
  - apply codepoints_encode. eapply Forall_impl; [exact F|]. by intros ? [].
  - eapply Forall_impl; [exact F|]. by intros ? [].
  - rewrite E in L. rewrite length_app. cbn [length]. lia.
Qed.

(** control codes. HasControlCodes reports -1 exactly when no decoded character is
    forbidden by the flags, and otherwise the index of the byte at which the first forbidden
    character starts, overlong encodings included. VisualizeControlCodes prints a text that
    decodes to characters none of which is a control code (tab and line ends apart) or one of
    the characters that reorder or hide text; it is the character-wise picture of the input,
    and it fits the buffer. *)
Theorem HasControlCodes_VisualizeControlCodes p n f :
  let l := strarg p n in
  let r := HasControlCodes p n f in
  let cs := flat_shown (codepoints l) in
  ((r = -1 /\ Forall (fun c => forbidden f c = false) (codepoints l)) \/
   (exists pre c rest, 0 <= r < Z.of_nat (length l) /\
      codepoints l = pre ++ c :: rest /\ codepoints (drop (Z.to_nat r) l) = c :: rest /\
      Forall (fun c => forbidden f c = false) pre /\ forbidden f c = true)) /\
  (VisualizeControlCodes (fun _ => true) p n).1 = Some (encode_text cs ++ [0]) /\
  codepoints (encode_text cs) = cs /\ Forall (fun c => visible c = true) cs /\
  Z.of_nat (length (encode_text cs ++ [0])) <= Z.of_nat (length l) * 6 + 1.
Proof. split; [apply HasControlCodes_first|apply VisualizeControlCodes_visible]. Qed.

(** IsAcceptablePath answers true exactly if, among the decoded
    characters with backslashes read as slashes, no dot follows a slash or stands in front
    (so there are no hidden files and no "." or ".." segments), but for the second
    character of a path that starts with the bytes /.well-known/, and no slash follows a slash. *)
Lemma IsAcceptablePath_dots p n :
  let l := strarg p n in
  let s := path_chars l in
  IsAcceptablePath p n = true <->
  forall i x, s !! i = Some x -> (match i with O => 47 | S j => nth j s 0 end) = 47 ->
    (x = 46 -> well_known l = true /\ i = 1%nat) /\ (x = 47 -> i = 0%nat).
Proof.
  cbv zeta. unfold IsAcceptablePath.
  pose proof (acceptable_loop_spec (strarg p n) (length (strarg p n)) [] (strarg p n) 47 0
                eq_refl (le_n _) (le_n _) ltac:(done) ltac:(lia)) as H.
  cbn [Nat.eqb negb] in H. rewrite H. apply acceptable_spec.
Qed.

(** IsReasonablePath answers false exactly if, with a slash in front, the decoded
    characters hold a segment "." or a segment that starts with two dots. *)
Lemma IsReasonablePath_dots p n :
  IsReasonablePath p n = true <-> ~ dotted (47 :: path_chars (strarg p n)).
Proof.
  unfold IsReasonablePath.
  rewrite (reasonable_loop_spec (length (strarg p n)) 47 47 (strarg p n) (le_n _)).
  rewrite (dotted_cons 47 (47 :: _)). split; [intros H D; apply H; by right|].
  intros H [[_ [?|(b & [?|?])]]|?]; done.
Qed.

(** which paths are served. IsAcceptablePath answers true exactly if, among the decoded
    characters with backslashes read as slashes, no dot follows a slash or stands in front
    (so there are no hidden files and no "." or ".." segments), but for the second
    character of a path that starts with the bytes /.well-known/, and no slash follows a slash.
    IsReasonablePath answers false exactly if, with a slash in front, the decoded
    characters hold a segment "." or a segment that starts with two dots. *)
Theorem IsAcceptablePath_IsReasonablePath_exact p n :
  let l := strarg p n in
  let s := path_chars l in
  (IsAcceptablePath p n = true <->
   forall i x, s !! i = Some x -> (match i with O => 47 | S j => nth j s 0 end) = 47 ->
     (x = 46 -> well_known l = true /\ i = 1%nat) /\ (x = 47 -> i = 0%nat)) /\
  (IsReasonablePath p n = true <-> ~ dotted (47 :: s)).
Proof. split; [apply IsAcceptablePath_dots|apply IsReasonablePath_dots]. Qed.

(** IsReasonablePath is stricter than its description, which speaks of segments equal to
    "." or "..": it also rejects a file whose name starts with two dots. *)
Theorem IsReasonablePath_dotdot :
  IsReasonablePath (Some (bstr "/..foo")) SIZE_MAX = false /\
  IsReasonablePath (Some (bstr "/.foo")) SIZE_MAX = true.
Proof. split; reflexivity. Qed.

(** Latin-1. DecodeLatin1, with its fast path, writes each byte as the UTF-8 encoding of
    its number, within the buffer; EncodeLatin1 takes the result back to the input, and
    refuses it exactly if it has a character the flags forbid. *)
Theorem EncodeLatin1_DecodeLatin1 p n f :
  Bytes (strarg p n) -> Z.of_nat (length (strarg p n)) * 2 < SIZE_MAX ->
  let l := strarg p n in
  exists out z, DecodeLatin1 (fun _ => true) p n = Some (out, z) /\
    codepoints (strarg (Some out) z) = l /\ z <= Z.of_nat (length l) * 2 /\
    EncodeLatin1 (fun _ => true) (Some out) z f =
    if forallb (fun c => negb (forbidden f c)) l then Ok (cbuf l) else Err EILSEQ.
Proof.
  intros B L. cbv zeta. set (l := strarg p n) in *.
  assert (Forall (fun c => 0 <= c < 2 ^ 32) l) as R
    by (eapply Forall_impl; [exact B|]; unfold is_byte; lia).
  pose proof (latin1_length l B) as Ll.
  exists (cbuf (encode_text l)).1, (cbuf (encode_text l)).2.
  split; [unfold DecodeLatin1; fold l; by rewrite decode_latin1_loop_spec|].
  unfold EncodeLatin1. rewrite strarg_cbuf by lia.
  split; [by apply codepoints_encode|]. split; [cbn; lia|].
  rewrite encode_latin1_loop_spec by done. by destruct (forallb _ _).
Qed.

Lemma EncodeLatin1_DecodeLatin1_witness :
  exists out z, DecodeLatin1 (fun _ => true) (Some [72; 228]) 2 = Some (out, z) /\
    EncodeLatin1 (fun _ => true) (Some out) z kControlC0 = Ok (cbuf [72; 228]).
Proof.
  destruct (EncodeLatin1_DecodeLatin1 (Some [72; 228]) 2 kControlC0) as (out & z & H1 & _ & _ & H2).
  - decide_now.
  - vm_compute; reflexivity.
  - exists out, z. split; [exact H1|exact H2].
Defined.

(** Header values. What EncodeHttpHeaderValue returns is a header value in the sense of
    the message parser: it has no control codes but tabs, no line ends, and no blank at
    either end, so a header made of it and a token reads back as it was written; everything
    else is refused with EILSEQ or ENOMEM. *)
Theorem EncodeHttpHeaderValue_header malloc p n k r :
  k <> [] -> Forall (fun c => is_byte c /\ is_token c = true) k ->
  EncodeHttpHeaderValue malloc p n = r ->
  match r with
  | Ok (out, z) => exists v, (out, z) = cbuf v /\ header_ok (k, v)
  | Err e => e = EILSEQ \/ e = ENOMEM
  end.
Proof.
  intros K0 Kt <-. unfold EncodeHttpHeaderValue. destruct (malloc _); [|by right].
  destruct (header_loop _ _ _ _) as [out|] eqn:E; [|by left].
  apply header_loop_spec in E as [F N]; [|constructor|done|done].
  destruct (trim_spec out N) as (V1 & V2 & s & V3). set (v := rev (trim_rev (rev out))) in *.
  exists v. split; [done|]. rewrite V3 in F. apply Forall_app in F as [F _].
  split; [done|]. split; [done|]. split; [|split; [exact V1|exact V2]].
  eapply Forall_impl; [exact F|]. cbn. intros c Hc. unfold header_char in Hc.
  unfold value_char, is_control, is_byte. split; lia.
Qed.

Lemma EncodeHttpHeaderValue_header_witness :
  exists v, (bstr "a b" ++ [0], 3) = cbuf v /\ header_ok (bstr "X", v).
Proof.
  apply (EncodeHttpHeaderValue_header (fun _ => true) (Some (bstr " a b ")) 5 (bstr "X")
           (Ok (bstr "a b" ++ [0], 3))).
  - done.
  - decide_now.
  - reflexivity.
Defined.
