(* ===== verification/Numbers.v ===== *)
(** Numbers in headers and addresses: net/http/parsecontentlength.c, parsehttprange.c,
    isacceptableport.c, isacceptablehost.c, parseip.c, parsecidr.c, parseforwarded.c. *)

From S2P Require Import Prelude Tables.

(* ------------------------------------------------------------------ *)
(** ** Content-Length *)

(** [1024L * 1024L * 1024L * 1024L] *)
Definition MAXIMUM : Z := 1024 * 1024 * 1024 * 1024.

(** The loop; [i] counts the bytes that were read. *)
Fixpoint content_length_loop (i : Z) (r : Z) (l : bytes) : Z :=
  match l with
  | [] => r
  | c :: l =>
      if (c =? # ",") && (i >? 0) then r
      else if negb (isdigit c) then -1
      else
        let r := s64 (r * 10) in
        let r := s64 (r + (c - # "0")) in
        if r >=? MAXIMUM then -1 else content_length_loop (i + 1) r l
  end.

Definition ParseContentLength (s : option bytes) (n : Z) : Z :=
  let l := strarg s n in
  if Z.of_nat (length l) =? 0 then -1 else content_length_loop 0 0 l.

(* ------------------------------------------------------------------ *)
(** ** Range *)

(** [ckd_add], [ckd_sub] and [ckd_mul] on [long]: [None] is an overflow. *)
Definition ckd (z : Z) : option Z := if (- 2 ^ 63 <=? z) && (z <? 2 ^ 63) then Some z else None.

(** [while (n && '0' <= *p && *p <= '9')]: the number and the bytes behind it. *)
Fixpoint long_loop (r : Z) (l : bytes) : option (Z * bytes) :=
  match l with
  | c :: l1 =>
      if (# "0" <=? c) && (c <=? # "9") then
        r ← ckd (r * 10); r ← ckd (r + (c - # "0")); long_loop r l1
      else Some (r, l)
  | [] => Some (r, l)
  end.

(** [if (n && *p == c) ++p, --n] *)
Definition accept (c : Z) (l : bytes) : option bytes :=
  match l with x :: l => if x =? c then Some l else None | [] => None end.

(** The start, the length and the unread bytes; [None] is [return false]. *)
Definition range_fields (l : bytes) (resourcelength : Z) : option (Z * Z * bytes) :=
  match accept (# "-") l with
  | Some l =>
      '(length, l) ← long_loop 0 l;
      start ← ckd (resourcelength - length);
      Some (start, length, l)
  | None =>
      '(start, l) ← long_loop 0 l;
      match accept (# "-") l with
      | Some [] => Some (start, Z.max start resourcelength - start, [])
      | Some l =>
          '(length, l) ← long_loop 0 l;
          length ← ckd (length + 1);
          length ← ckd (length - start);
          Some (start, length, l)
      | None =>
          length ← ckd (resourcelength - start);
          Some (start, length, l)
      end
  end.

Definition parse_range (p : bytes) (resourcelength : Z) : option (Z * Z) :=
  if mem (# ",") p then None
  else if (Z.of_nat (length p) <? 7) || negb (bool_decide (take 6 p = bstr "bytes=")) then None
  else
    '(start, length, l) ← range_fields (drop 6 p) resourcelength;
    if negb (Z.of_nat (List.length l) =? 0) then None
    else if start <? 0 then None
    else if length <? 1 then None
    else if start >? resourcelength then None
    else
      ending ← ckd (start + length);
      Some (start, if ending >? resourcelength then resourcelength - start else length).

(** The result, [*out_start] and [*out_length]. *)
Definition ParseHttpRange (p : bytes) (n : Z) (resourcelength : Z) : bool * Z * Z :=
  match parse_range (take (Z.to_nat n) p) resourcelength with
  | Some (start, length) => (true, start, length)
  | None => (false, 0, 0)
  end.

(* ------------------------------------------------------------------ *)
(** ** Hosts and ports *)

Fixpoint port_loop (p : Z) (l : bytes) : bool :=
  match l with
  | [] => true
  | x :: l =>
      let c := Z.land x 255 in
      if (# "0" <=? c) && (c <=? # "9") then
        let p := s32 (p * 10) in
        let p := s32 (p + (c - # "0")) in
        if p >? 65535 then false else port_loop p l
      else false
  end.

Definition IsAcceptablePort (s : option bytes) (n : Z) : bool := port_loop 0 (strarg s n).

Definition DNS_NAME_MAX : Z := 253.

(** The [for (;;)] that is entered at the first byte that is neither a digit nor a dot;
    [dot] says whether there is no byte in front or a dot. *)
Fixpoint name_loop (dot : bool) (l : bytes) : bool :=
  match l with
  | [] => true
  | x :: l =>
      let c := Z.land x 255 in
      if (tab kHostChars c =? 0) && (negb (c =? # ".") || dot) then false
      else name_loop (x =? # ".") l
  end.

(** The outer loop: the octet [b], the number [j] of dots. *)
Fixpoint host_loop (b j : Z) (dot : bool) (l : bytes) : bool :=
  match l with
  | [] => if negb (j =? 3) then false else if dot then false else true
  | x :: l1 =>
      let c := Z.land x 255 in
      if isdigit c then
        host_loop (s32 (s32 (b * 10) + (c - # "0"))) j false l1
      else if c =? # "." then
        if dot then false else host_loop 0 (j + 1) (x =? # ".") l1
      else name_loop dot l
  end.

Definition IsAcceptableHost (s : option bytes) (n : Z) : bool :=
  let l := strarg s n in
  if Z.of_nat (length l) =? 0 then true
  else if Z.of_nat (length l) >? DNS_NAME_MAX then false
  else host_loop 0 0 true l.

(* ------------------------------------------------------------------ *)
(** ** Addresses *)

(** [ckd_add] and [ckd_mul] on [unsigned]. *)
Definition ckd_u32 (z : Z) : option Z := if (0 <=? z) && (z <? 2 ^ 32) then Some z else None.

Fixpoint ip_loop (b x : Z) (dotted : bool) (l : bytes) : Z :=
  match l with
  | [] => Z.lor (u32 (Z.shiftl x 8)) b
  | y :: l =>
      let c := Z.land y 255 in
      if isdigit c then
        match ckd_u32 (b * 10) with
        | None => -1
        | Some b =>
            match ckd_u32 (b + (c - # "0")) with
            | None => -1
            | Some b => if (b >? 255) && dotted then -1 else ip_loop b x dotted l
            end
        end
      else if c =? # "." then
        if b >? 255 then -1 else ip_loop 0 (Z.lor (u32 (Z.shiftl x 8)) b) true l
      else -1
  end.

Definition ParseIp (s : option bytes) (n : Z) : Z :=
  let l := strarg s n in
  if Z.of_nat (length l) =? 0 then -1 else ip_loop 0 0 false l.

Record Cidr := MkCidr { addr : Z; cidr : Z }.

(** [strchr(s, '/')]: the offset of the slash in the NUL-terminated string. *)
Fixpoint strchr (s : bytes) (c : Z) : option Z :=
  match s with
  | [] => None
  | x :: s => if x =? c then Some 0 else if x =? 0 then None else Z.succ <$> strchr s c
  end.

(** The digits behind the slash. *)
Fixpoint cidr_loop (r : Z) (l : bytes) : Z :=
  match l with
  | [] => r
  | c :: l =>
      if isdigit c then
        let r := s32 (r * 10) in
        let r := s32 (r + (c - # "0")) in
        if r >? 32 then -1 else cidr_loop r l
      else -1
  end.

(** The search for the slash does not stop at [n]. [cidr] is not written when the address
    in front of the slash is bad; [junk] is what it holds then. *)
Definition ParseCidr (junk : Z) (s : bytes) (n : Z) : Cidr :=
  let n := if n =? SIZE_MAX then Z.of_nat (length (cstr s)) else n in
  match strchr s (# "/") with
  | Some i =>
      let a := ParseIp (Some s) i in
      if negb (a =? -1) then
        let c := cidr_loop 0 (take (Z.to_nat (n - (i + 1))) (drop (Z.to_nat (i + 1)) s)) in
        MkCidr (if c <=? 0 then -1 else a) c
      else MkCidr a junk
  | None => MkCidr (ParseIp (Some s) n) 32
  end.

(** [memrchr(s, ',', n)]: the offset of the last comma. *)
Fixpoint memrchr (l : bytes) (c : Z) : option Z :=
  match l with
  | [] => None
  | x :: l => match memrchr l c with
              | Some i => Some (i + 1)
              | None => if x =? c then Some 0 else None
              end
  end.

Section Forwarded.
Context (s : bytes) (n : Z).

(** The [do] loop: [None] is [return -1]; otherwise the last byte, the position, [t] and
    [x]. *)
Fixpoint forwarded_ip (fuel : nat) (i t x : Z) : option (Z * Z * Z * Z) :=
  match fuel with
  | O => None
  | S fuel =>
      let c := Z.land (tab s i) 255 in
      let i := i + 1 in
      let next t x := if i <? n then forwarded_ip fuel i t x else Some (c, i, t, x) in
      if isdigit c then
        let t := s32 (s32 (t * 10) + (c - # "0")) in
        if t >? 255 then None else next t x
      else if c =? # "." then next 0 (Z.lor (u32 (Z.shiftl x 8)) t)
      else if c =? # ":" then Some (c, i, t, x)
      else None
  end.

Fixpoint forwarded_port (fuel : nat) (i t : Z) : option Z :=
  if i <? n then
    match fuel with
    | O => None
    | S fuel =>
        let c := Z.land (tab s i) 255 in
        if isdigit c then
          let t := s32 (s32 (t * 10) + (c - # "0")) in
          if t >? 65535 then None else forwarded_port fuel (i + 1) t
        else None
    end
  else Some t.

(** [None] is the result -1; otherwise [*ip] and [*port]. *)
Definition forwarded : option (Z * Z) :=
  if n =? 0 then None
  else
    let i := match memrchr (take (Z.to_nat n) s) (# ",") with
             | Some i => if Z.land (tab s (i + 1)) 255 =? 32 then i + 2 else i + 1
             | None => 0
             end in
    '(c, i, t, x) ← forwarded_ip (S (Z.to_nat n)) i 0 0;
    let x := Z.lor (u32 (Z.shiftl x 8)) t in
    t ← (if c =? # ":" then forwarded_port (S (Z.to_nat n)) i 0 else Some 0);
    Some (x, u16 t).
End Forwarded.

Definition ParseForwarded (s : bytes) (n : Z) : option (Z * Z) :=
  forwarded s (if n =? SIZE_MAX then Z.of_nat (length (cstr s)) else n).

Example numbers_1 : ParseHttpRange (bstr "bytes=1-10") 10 100 = (true, 1, 10).
Proof. reflexivity. Qed.
Example numbers_2 : ParseForwarded (bstr "203.0.110.2, 203.0.113.42:31337") 31 = Some (0xCB00712A, 31337).
Proof. reflexivity. Qed.
Example numbers_3 : ParseCidr 0 (bstr "10.10.10.1/24" ++ [0]) SIZE_MAX = MkCidr 0x0a0a0a01 24.
Proof. reflexivity. Qed.
Example numbers_4 : IsAcceptableHost (Some (bstr "1.2.3.4")) 7 = true /\
  IsAcceptableHost (Some (bstr "1.2.3")) 5 = false /\ IsAcceptableHost (Some (bstr "1.a")) 3 = true.
Proof. repeat split; reflexivity. Qed.

(* ------------------------------------------------------------------ *)
(** ** Lemmas: decimal numbers *)

Definition dec_from (v : Z) (ds : bytes) : Z := foldl (fun v d => 10 * v + (d - 48)) v ds.
Definition dec_value (ds : bytes) : Z := dec_from 0 ds.
Abbreviation Digits := (Forall (fun c => isdigit c = true)).

Lemma isdigit_spec c : isdigit c = true <-> 48 <= c <= 57.
Proof. unfold isdigit. lia. Qed.

Lemma isdigit_byte c : isdigit c = true -> Z.land c 255 = c.
Proof. intros H. apply isdigit_spec in H. rewrite land_255. apply Z.mod_small. lia. Qed.

Lemma dec_from_mono ds v : Digits ds -> 0 <= v -> v <= dec_from v ds.
Proof.
  intros F. revert v. induction F as [|d ds Hd _ IH]; intros v Hv; cbn; [lia|].
  apply isdigit_spec in Hd. specialize (IH (10 * v + (d - 48))). unfold dec_from in IH. lia.
Qed.

Lemma dec_from_app v a b : dec_from v (a ++ b) = dec_from (dec_from v a) b.
Proof. unfold dec_from. apply foldl_app. Qed.

(** A number behind which something other than a digit follows. *)
Lemma long_loop_digits ds : forall v l,
  Digits ds -> 0 <= v -> dec_from v ds < 2 ^ 63 -> isdigit (hd 0 l) = false ->
  long_loop v (ds ++ l) = Some (dec_from v ds, l).
Proof.
  induction ds as [|d ds IH]; intros v l F Hv L N.
  - cbn [app]. unfold dec_from. cbn [foldl]. destruct l as [|c l]; [done|]. cbn [long_loop hd] in *.
    unfold isdigit in N. by rewrite N.
  - apply Forall_cons in F as [Hd F]. pose proof (proj1 (isdigit_spec d) Hd) as Rd.
    cbn [app long_loop]. unfold isdigit in Hd. rewrite Hd.
    cbn [dec_from foldl] in *. fold (dec_from (10 * v + (d - 48)) ds) in *.
    pose proof (dec_from_mono ds (10 * v + (d - 48)) F ltac:(lia)) as M.
    assert (ckd (v * 10) = Some (10 * v)) as ->
      by (unfold ckd; replace ((_ <=? _) && _) with true by lia; f_equal; lia).
    cbn [mbind option_bind].
    assert (ckd (10 * v + (d - 48)) = Some (10 * v + (d - 48))) as ->
      by (unfold ckd; by replace ((_ <=? _) && _) with true by lia).
    cbn [mbind option_bind]. apply IH; [done|lia|done|done].
Qed.

Lemma long_loop_overflow ds : forall v l,
  Digits ds -> 0 <= v < 2 ^ 63 -> 2 ^ 63 <= dec_from v ds -> long_loop v (ds ++ l) = None.
Proof.
  induction ds as [|d ds IH]; intros v l F Hv L; [cbn in L; lia|].
  apply Forall_cons in F as [Hd F]. pose proof (proj1 (isdigit_spec d) Hd) as Rd.
  cbn [app long_loop]. unfold isdigit in Hd. rewrite Hd.
  cbn [dec_from foldl] in *. fold (dec_from (10 * v + (d - 48)) ds) in *. unfold ckd.
  destruct (Z.ltb_spec (v * 10) (2 ^ 63)); [|by rewrite andb_false_r].
  replace (- 2 ^ 63 <=? v * 10) with true by lia. cbn [andb mbind option_bind].
  destruct (Z.ltb_spec (v * 10 + (d - 48)) (2 ^ 63)); [|by rewrite andb_false_r].
  replace (- 2 ^ 63 <=? v * 10 + (d - 48)) with true by lia. cbn [andb mbind option_bind].
  apply IH; [done|lia|]. by replace (v * 10 + (d - 48)) with (10 * v + (d - 48)) by lia.
Qed.

(** The digits in front of a text. *)
Fixpoint span_digits (l : bytes) : bytes * bytes :=
  match l with
  | [] => ([], [])
  | c :: l1 => if isdigit c then let '(a, b) := span_digits l1 in (c :: a, b) else ([], l)
  end.

Lemma span_digits_spec l :
  let '(ds, rest) := span_digits l in
  l = ds ++ rest /\ Digits ds /\ isdigit (hd 0 rest) = false.
Proof.
  induction l as [|c l IH]; [done|]. cbn [span_digits]. destruct (isdigit c) eqn:E; [|done].
  destruct (span_digits l) as [a b]. destruct IH as (-> & F & N). split; [done|].
  split; [by constructor|done].
Qed.

(* ------------------------------------------------------------------ *)
(** ** Lemmas: Content-Length, ports and hosts *)

Lemma content_length_digits ds : forall i v l,
  Digits ds -> 0 <= v < MAXIMUM -> 0 <= i ->
  content_length_loop i v (ds ++ l) =
  if dec_from v ds <? MAXIMUM
  then content_length_loop (i + Z.of_nat (length ds)) (dec_from v ds) l else -1.
Proof.
  induction ds as [|d ds IH]; intros i v l F Hv Hi.
  - cbn [app dec_from foldl length]. rewrite Z.add_0_r. by rewrite (proj2 (Z.ltb_lt _ _)) by lia.
  - apply Forall_cons in F as [Hd F]. pose proof (proj1 (isdigit_spec d) Hd) as Rd.
    cbn [app content_length_loop]. rewrite Hd, (proj2 (Z.eqb_neq d 44)) by lia. cbn [andb negb].
    unfold MAXIMUM in *.
    assert (s64 (s64 (v * 10) + (d - 48)) = 10 * v + (d - 48)) as ->
      by (unfold s64; rewrite !Z.mod_small by (rewrite ?Z.mod_small by lia; lia); lia).
    cbn [dec_from foldl length] in *. fold (dec_from (10 * v + (d - 48)) ds) in *.
    pose proof (dec_from_mono ds (10 * v + (d - 48)) F ltac:(lia)) as M. rewrite Z.geb_leb.
    destruct (Z.leb_spec (1024 * 1024 * 1024 * 1024) (10 * v + (d - 48))).
    + by rewrite (proj2 (Z.ltb_ge _ _)) by lia.
    + rewrite IH by (done || lia).
      by replace (i + 1 + Z.of_nat (length ds)) with (i + Z.of_nat (S (length ds))) by lia.
Qed.

Lemma port_digits ds : forall v,
  Digits ds -> 0 <= v <= 65535 -> port_loop v ds = (dec_from v ds <=? 65535).
Proof.
  induction ds as [|d ds IH]; intros v F Hv.
  - cbn. symmetry. apply Z.leb_le. lia.
  - apply Forall_cons in F as [Hd F]. pose proof (proj1 (isdigit_spec d) Hd) as Rd.
    cbn [port_loop]. rewrite (isdigit_byte d Hd). unfold isdigit in Hd. rewrite Hd.
    rewrite !s32_id by (rewrite ?s32_id by lia; lia).
    cbn [dec_from foldl] in *. fold (dec_from (10 * v + (d - 48)) ds) in *.
    pose proof (dec_from_mono ds (10 * v + (d - 48)) F ltac:(lia)) as M.
    replace (v * 10 + (d - 48)) with (10 * v + (d - 48)) by lia. rewrite Z.gtb_ltb.
    destruct (Z.ltb_spec 65535 (10 * v + (d - 48))).
    + symmetry. apply Z.leb_gt. lia.
    + apply IH; [done|lia].
Qed.

Lemma port_other ds c l v :
  Digits ds -> is_byte c -> isdigit c = false -> port_loop v (ds ++ c :: l) = false.
Proof.
  intros F Hc N. revert v. induction F as [|d ds Hd _ IH]; intros v; cbn [app port_loop].
  - rewrite land_255, Z.mod_small by done. unfold isdigit in N. by rewrite N.
  - rewrite (isdigit_byte d Hd). unfold isdigit in Hd. rewrite Hd. destruct (_ >? _); [done|].
    apply IH.
Qed.

(** Every dot follows something else. *)
Fixpoint dots_ok (dot : bool) (l : bytes) : bool :=
  match l with
  | [] => true
  | c :: l => if c =? 46 then negb dot && dots_ok true l else dots_ok false l
  end.

Definition host_char (c : Z) : bool := negb (tab kHostChars c =? 0) || (c =? 46).
Definition numeric (l : bytes) : bool := forallb (fun c => isdigit c || (c =? 46)) l.
Definition count_dots (l : bytes) : Z := Z.of_nat (length (filter (fun c => c = 46) l)).

Lemma host_digit c : isdigit c = true -> tab kHostChars c <> 0.
Proof.
  intros H. apply isdigit_spec in H.
  assert (forallb (fun c => implb (isdigit c) (negb (tab kHostChars c =? 0))) (zbelow 256) = true)
    as F by (vm_compute; reflexivity).
  pose proof (forall_below 256 _ F c ltac:(lia)) as G. clear F. cbv beta in G.
  rewrite (proj2 (isdigit_spec c) H) in G. cbn [implb] in G. lia.
Qed.

Lemma name_loop_spec l : forall dot,
  Bytes l -> name_loop dot l = forallb host_char l && dots_ok dot l.
Proof.
  induction l as [|c l IH]; intros dot B; [done|]. apply Forall_cons in B as [Hc B].
  cbn [name_loop forallb dots_ok]. rewrite land_255, Z.mod_small by done. rewrite IH by done.
  unfold host_char at 2. destruct (Z.eqb_spec c 46) as [->|N]; cbn [orb andb negb].
  - change (tab kHostChars 46 =? 0) with true. cbn [negb orb andb].
    destruct dot; cbn [negb andb]; [by rewrite andb_false_r|done].
  - rewrite orb_false_r, andb_true_r. by destruct (tab kHostChars c =? 0).
Qed.

Lemma host_loop_spec l : forall b j dot,
  Bytes l ->
  host_loop b j dot l =
  forallb host_char l && dots_ok dot l &&
  (if numeric l then (j + count_dots l =? 3) && negb (match l with [] => dot | _ => List.last l 0 =? 46 end)
   else true).
Proof.
  induction l as [|c l IH]; intros b j dot B.
  - cbn. rewrite Z.add_0_r. by destruct (j =? 3), dot.
  - pose proof B as B0. apply Forall_cons in B as [Hc B].
    cbn [host_loop]. rewrite land_255, Z.mod_small by done.
    destruct (isdigit c) eqn:Ed; [|destruct (Z.eqb_spec c 46) as [->|N]].
    + apply isdigit_spec in Ed as Rd. rewrite IH by done.
      cbn [forallb dots_ok numeric]. unfold host_char at 2, count_dots.
      rewrite (proj2 (Z.eqb_neq _ _) (host_digit c Ed)). rewrite (proj2 (Z.eqb_neq c 46)) by lia.
      cbn [negb orb andb]. fold (numeric l). rewrite Ed. cbn [orb andb].
      rewrite filter_cons_False by lia. do 3 f_equal. destruct l; [|done].
      cbn [List.last]. by rewrite (proj2 (Z.eqb_neq c 46)) by lia.
    + destruct dot; [cbn [dots_ok Z.eqb Pos.eqb negb andb]; by rewrite andb_false_r|].
      change (46 =? 46) with true. rewrite IH by done.
      cbn [forallb dots_ok numeric]. unfold host_char at 2, count_dots.
      change (46 =? 46) with true. rewrite orb_true_r. cbn [andb negb orb isdigit].
      fold (numeric l). rewrite orb_true_r. cbn [andb].
      rewrite filter_cons_True by done. cbn [length].
      replace (j + Z.of_nat (S (length (filter (fun c => c = 46) l)))) with
        (j + 1 + Z.of_nat (length (filter (fun c => c = 46) l))) by lia.
      do 3 f_equal. by destruct l.
    + rewrite name_loop_spec by done. cbn [numeric forallb]. rewrite Ed, (proj2 (Z.eqb_neq _ _) N).
      cbn [orb andb]. by rewrite andb_true_r.
Qed.

(* ------------------------------------------------------------------ *)
(** ** Lemmas: addresses *)

Lemma ip_digits ds : forall b x dotted l,
  Digits ds -> 0 <= b -> dec_from b ds < 2 ^ 32 -> (dotted = true -> dec_from b ds <= 255) ->
  ip_loop b x dotted (ds ++ l) = ip_loop (dec_from b ds) x dotted l.
Proof.
  induction ds as [|d ds IH]; intros b x dotted l F Hb L D; [done|].
  apply Forall_cons in F as [Hd F]. pose proof (proj1 (isdigit_spec d) Hd) as Rd.
  cbn [app ip_loop]. rewrite (isdigit_byte d Hd), Hd.
  cbn [dec_from foldl] in *. fold (dec_from (10 * b + (d - 48)) ds) in *.
  pose proof (dec_from_mono ds (10 * b + (d - 48)) F ltac:(lia)) as M.
  assert (ckd_u32 (b * 10) = Some (10 * b)) as ->
    by (unfold ckd_u32; replace ((_ <=? _) && _) with true by lia; f_equal; lia).
  assert (ckd_u32 (10 * b + (d - 48)) = Some (10 * b + (d - 48))) as ->
    by (unfold ckd_u32; by replace ((_ <=? _) && _) with true by lia).
  rewrite Z.gtb_ltb. destruct dotted; [specialize (D eq_refl)|].
  - rewrite (proj2 (Z.ltb_ge 255 _)) by lia. cbn [andb]. apply IH; [done|lia|done|done].
  - rewrite andb_false_r. apply IH; [done|lia|done|done].
Qed.

(** [x <<= 8; x |= b;] *)
Lemma shift_octet x b : 0 <= b < 256 -> 0 <= x < 2 ^ 24 ->
  Z.lor (u32 (Z.shiftl x 8)) b = 256 * x + b.
Proof.
  intros Hb Hx. assert (u32 (Z.shiftl x 8) = Z.shiftl x 8) as ->.
  { rewrite Z.shiftl_mul_pow2 by lia. apply u32_id. lia. }
  rewrite lor_shiftl_add by lia. lia.
Qed.

Lemma ip_dot b x dotted l :
  0 <= b <= 255 -> 0 <= x < 2 ^ 24 ->
  ip_loop b x dotted (46 :: l) = ip_loop 0 (256 * x + b) true l.
Proof.
  intros Hb Hx. cbn [ip_loop]. change (Z.land 46 255) with 46. cbn [isdigit Z.leb Z.eqb Pos.eqb].
  change (isdigit 46) with false. cbn [Z.eqb Pos.eqb]. rewrite Z.gtb_ltb.
  rewrite (proj2 (Z.ltb_ge 255 _)) by lia. by rewrite shift_octet by lia.
Qed.

(** An octet in decimal. *)
Definition octet (ds : bytes) : Prop := ds <> [] /\ Digits ds /\ dec_value ds <= 255.

Definition dotted_quad (a b c d : bytes) : bytes := a ++ [46] ++ b ++ [46] ++ c ++ [46] ++ d.
Definition quad_value (a b c d : bytes) : Z :=
  ((dec_value a * 256 + dec_value b) * 256 + dec_value c) * 256 + dec_value d.

Lemma octet_range a : octet a -> 0 <= dec_value a <= 255.
Proof. intros (_ & F & L). split; [apply (dec_from_mono a 0 F); lia|done]. Qed.

Lemma ParseIp_quad a b c d :
  octet a -> octet b -> octet c -> octet d ->
  ip_loop 0 0 false (dotted_quad a b c d) = quad_value a b c d.
Proof.
  intros A B C D. pose proof (octet_range a A). pose proof (octet_range b B).
  pose proof (octet_range c C). pose proof (octet_range d D).
  destruct A as (_ & Fa & _), B as (_ & Fb & _), C as (_ & Fc & _), D as (_ & Fd & _).
  unfold dotted_quad, quad_value, dec_value in *.
  rewrite ip_digits by (done || lia). cbn [app]. rewrite ip_dot by lia.
  rewrite ip_digits by (done || lia). rewrite ip_dot by lia.
  rewrite ip_digits by (done || lia). rewrite ip_dot by lia.
  rewrite <- (app_nil_r d), ip_digits, app_nil_r by (done || lia). cbn [ip_loop].
  rewrite shift_octet by lia. lia.
Qed.

(** [x | b] of two [unsigned]s is one. *)
Lemma lor_u32 x b : 0 <= x < 2 ^ 32 -> 0 <= b < 2 ^ 32 -> 0 <= Z.lor x b < 2 ^ 32.
Proof.
  intros Hx Hb. assert (0 <= Z.lor x b) as N by (apply Z.lor_nonneg; lia).
  split; [done|]. destruct (decide (Z.lor x b = 0)) as [->|Nz]; [lia|].
  apply Z.log2_lt_pow2; [lia|]. rewrite Z.log2_lor by lia.
  apply Z.max_lub_lt;
    match goal with |- Z.log2 ?v < 32 => destruct (decide (v = 0)) as [->|];
      [done|apply Z.log2_lt_pow2; lia] end.
Qed.

Lemma u32_range z : 0 <= u32 z < 2 ^ 32.
Proof. apply Z.mod_pos_bound. lia. Qed.

Lemma ckd_u32_Some z r : ckd_u32 z = Some r -> r = z /\ 0 <= r < 2 ^ 32.
Proof. unfold ckd_u32. destruct ((0 <=? z) && (z <? 2 ^ 32)) eqn:E; intros; simplify_eq. lia. Qed.

Lemma ip_loop_range l : forall b x dotted,
  0 <= b < 2 ^ 32 -> 0 <= x < 2 ^ 32 -> -1 <= ip_loop b x dotted l < 2 ^ 32.
Proof.
  induction l as [|c l IH]; intros b x dotted Hb Hx; cbn [ip_loop].
  - pose proof (lor_u32 _ _ (u32_range (Z.shiftl x 8)) Hb). lia.
  - destruct (isdigit (Z.land c 255)).
    + destruct (ckd_u32 (b * 10)) as [b1|]; [|lia].
      destruct (ckd_u32 (b1 + (Z.land c 255 - 48))) as [b2|] eqn:E; [|lia].
      apply ckd_u32_Some in E as [_ E].
      destruct ((b2 >? 255) && dotted); [lia|]. by apply IH.
    + destruct (Z.land c 255 =? 46); [|lia]. destruct (b >? 255); [lia|].
      apply IH; [lia|]. apply lor_u32; [apply u32_range|done].
Qed.

Lemma strchr_app a c l : Forall (fun x => x <> c /\ x <> 0) a ->
  strchr (a ++ c :: l) c = Some (Z.of_nat (length a)).
Proof.
  induction 1 as [|x a [N1 N2] _ IH]; cbn [app strchr length]; [by rewrite Z.eqb_refl|].
  rewrite (proj2 (Z.eqb_neq _ _) N1), (proj2 (Z.eqb_neq _ _) N2), IH. cbn. f_equal. lia.
Qed.

Lemma cidr_digits ds : forall v,
  Digits ds -> 0 <= v -> dec_from v ds <= 32 -> cidr_loop v ds = dec_from v ds.
Proof.
  induction ds as [|d ds IH]; intros v F Hv L; [done|].
  apply Forall_cons in F as [Hd F]. pose proof (proj1 (isdigit_spec d) Hd) as Rd.
  cbn [cidr_loop]. rewrite Hd. cbn [dec_from foldl] in *.
  fold (dec_from (10 * v + (d - 48)) ds) in *.
  pose proof (dec_from_mono ds (10 * v + (d - 48)) F ltac:(lia)) as M.
  rewrite !s32_id by (rewrite ?s32_id by lia; lia).
  replace (v * 10 + (d - 48)) with (10 * v + (d - 48)) by lia.
  rewrite Z.gtb_ltb, (proj2 (Z.ltb_ge 32 _)) by lia. apply IH; [done|lia|done].
Qed.

Lemma quad_chars a b c d :
  octet a -> octet b -> octet c -> octet d ->
  Forall (fun x => 46 <= x <= 57 /\ x <> 47) (dotted_quad a b c d) /\ dotted_quad a b c d <> [].
Proof.
  intros (Na & A & _) (_ & B & _) (_ & C & _) (_ & D & _). split.
  - assert (forall ds, Digits ds -> Forall (fun x => 46 <= x <= 57 /\ x <> 47) ds) as H.
    { intros ds F. eapply Forall_impl; [exact F|]. intros x Hx. apply isdigit_spec in Hx. lia. }
    unfold dotted_quad. rewrite !Forall_app.
    repeat split; auto; repeat constructor; lia.
  - unfold dotted_quad. by destruct a.
Qed.

Lemma memrchr_none l c : Forall (fun x => x <> c) l -> memrchr l c = None.
Proof.
  induction 1 as [|x l N _ IH]; [done|]. cbn [memrchr]. by rewrite IH, (proj2 (Z.eqb_neq _ _) N).
Qed.

Lemma memrchr_last a c l :
  Forall (fun x => x <> c) l -> memrchr (a ++ c :: l) c = Some (Z.of_nat (length a)).
Proof.
  intros F. induction a as [|x a IH]; cbn [app memrchr length].
  - by rewrite memrchr_none, Z.eqb_refl.
  - rewrite IH. f_equal. lia.
Qed.

(** The two loops of [ParseForwarded] as functions of the unread bytes. *)
Fixpoint fwd_ip (t x : Z) (l : bytes) : option (option bytes * Z * Z) :=
  match l with
  | [] => Some (None, t, x)
  | y :: l =>
      if isdigit y then
        if 10 * t + (y - 48) >? 255 then None else fwd_ip (10 * t + (y - 48)) x l
      else if y =? 46 then fwd_ip 0 (Z.lor (u32 (Z.shiftl x 8)) t) l
      else if y =? 58 then Some (Some l, t, x)
      else None
  end.

Fixpoint fwd_port (t : Z) (l : bytes) : option Z :=
  match l with
  | [] => Some t
  | y :: l =>
      if isdigit y then
        if 10 * t + (y - 48) >? 65535 then None else fwd_port (10 * t + (y - 48)) l
      else None
  end.

Lemma drop_tab (s : bytes) n i y l :
  0 <= i -> drop (Z.to_nat i) (take (Z.to_nat n) s) = y :: l ->
  tab s i = y /\ i < n /\ drop (Z.to_nat (i + 1)) (take (Z.to_nat n) s) = l.
Proof.
  intros Hi E.
  assert (Z.to_nat i < length (take (Z.to_nat n) s))%nat as L.
  { destruct (decide (Z.to_nat i < length (take (Z.to_nat n) s))%nat); [done|].
    rewrite drop_ge in E by lia. done. }
  rewrite length_take in L. split; [|split; [lia|]].
  - rewrite <- (tab_take s (Z.to_nat n) i) by lia. unfold tab.
    rewrite <- (Nat.add_0_r (Z.to_nat i)), <- nth_skipn.
    change (skipn (Z.to_nat i)) with (@drop Z (Z.to_nat i)). by rewrite E.
  - replace (Z.to_nat (i + 1)) with (Z.to_nat i + 1)%nat by lia. by rewrite <- drop_drop, E.
Qed.

Lemma drop_end (s : bytes) n i :
  0 <= i -> n <= Z.of_nat (length s) -> drop (Z.to_nat i) (take (Z.to_nat n) s) = [] -> n <= i.
Proof.
  intros Hi Hn E. apply (f_equal (@length Z)) in E. rewrite length_drop, length_take in E.
  cbn in E. lia.
Qed.

Lemma forwarded_ip_list s n l : forall fuel i t x,
  Bytes l -> n <= Z.of_nat (length s) -> 0 <= i -> 0 <= t <= 255 ->
  drop (Z.to_nat i) (take (Z.to_nat n) s) = l -> l <> [] -> (length l <= fuel)%nat ->
  forwarded_ip s n fuel i t x =
  '(rest, t, x) ← fwd_ip t x l;
  Some (match rest with Some r => (58, n - Z.of_nat (length r), t, x)
                      | None => (List.last l 0, n, t, x) end).
Proof.
  induction l as [|y l IH]; intros fuel i t x B Hn Hi Ht E N Hf; [done|].
  destruct fuel as [|fuel]; [cbn in Hf; lia|]. apply Forall_cons in B as [Hy B].
  pose proof (f_equal (@length Z) E) as El. rewrite length_drop, length_take in El.
  apply drop_tab in E as (Ey & Li & E); [|done]. cbn [length] in El, Hf.
  assert (forall t x, 0 <= t <= 255 ->
    (if i + 1 <? n then forwarded_ip s n fuel (i + 1) t x else Some (y, i + 1, t, x)) =
    '(rest, t, x) ← fwd_ip t x l;
    Some (match rest with Some r => (58, n - Z.of_nat (length r), t, x)
                        | None => (List.last (y :: l) 0, n, t, x) end)) as Next.
  { intros t' x' Ht'. destruct l as [|y1 l].
    - cbn [length] in El. rewrite (proj2 (Z.ltb_ge _ _)) by lia. cbn.
      by replace (i + 1) with n by lia.
    - rewrite (proj2 (Z.ltb_lt _ _)) by (cbn [length] in El; lia).
      rewrite (IH fuel (i + 1) t' x' B Hn ltac:(lia) Ht' E ltac:(done) ltac:(lia)). done. }
  cbn [forwarded_ip fwd_ip]. rewrite Ey, land_255, Z.mod_small by done.
  destruct (isdigit y) eqn:Ed; [|destruct (y =? 46); [|destruct (Z.eqb_spec y 58) as [E58|]]].
  - apply isdigit_spec in Ed. assert (s32 (s32 (t * 10) + (y - 48)) = 10 * t + (y - 48)) as -> by (rewrite (s32_id (t * 10)) by lia; rewrite s32_id by lia; lia).
    destruct (10 * t + (y - 48) >? 255) eqn:G; [done|]. rewrite Z.gtb_ltb in G.
    rewrite Next by lia. done.
  - rewrite Next by lia. done.
  - cbn [mbind option_bind]. rewrite E58. by replace (i + 1) with (n - Z.of_nat (length l)) by lia.
  - done.
Qed.

Lemma forwarded_port_list s n l : forall fuel i t,
  Bytes l -> n <= Z.of_nat (length s) -> 0 <= i -> 0 <= t <= 65535 ->
  drop (Z.to_nat i) (take (Z.to_nat n) s) = l -> (length l < fuel)%nat ->
  forwarded_port s n fuel i t = fwd_port t l.
Proof.
  induction l as [|y l IH]; intros fuel i t B Hn Hi Ht E Hf.
  - pose proof (drop_end _ _ _ Hi Hn E). destruct fuel; cbn [forwarded_port];
      by rewrite (proj2 (Z.ltb_ge _ _)) by lia.
  - destruct fuel as [|fuel]; [lia|]. apply Forall_cons in B as [Hy B].
    apply drop_tab in E as (Ey & Li & E); [|done].
    cbn [forwarded_port fwd_port]. rewrite (proj2 (Z.ltb_lt _ _) Li).
    rewrite Ey, land_255, Z.mod_small by done. destruct (isdigit y) eqn:Ed; [|done].
    apply isdigit_spec in Ed. assert (s32 (s32 (t * 10) + (y - 48)) = 10 * t + (y - 48)) as -> by (rewrite (s32_id (t * 10)) by lia; rewrite s32_id by lia; lia).
    destruct (10 * t + (y - 48) >? 65535) eqn:G; [done|]. rewrite Z.gtb_ltb in G.
    cbn [length] in Hf. apply IH; [done|done|lia|lia|done|lia].
Qed.

Lemma fwd_ip_digits ds : forall t x l,
  Digits ds -> 0 <= t -> dec_from t ds <= 255 -> fwd_ip t x (ds ++ l) = fwd_ip (dec_from t ds) x l.
Proof.
  induction ds as [|d ds IH]; intros t x l F Ht L; [done|].
  apply Forall_cons in F as [Hd F]. pose proof (proj1 (isdigit_spec d) Hd) as Rd.
  cbn [app fwd_ip]. rewrite Hd. cbn [dec_from foldl] in *.
  fold (dec_from (10 * t + (d - 48)) ds) in *.
  pose proof (dec_from_mono ds (10 * t + (d - 48)) F ltac:(lia)) as M.
  rewrite Z.gtb_ltb, (proj2 (Z.ltb_ge 255 _)) by lia. apply IH; [done|lia|done].
Qed.

Lemma fwd_ip_quad a b c d l :
  octet a -> octet b -> octet c -> octet d ->
  exists x, 256 * x + dec_value d = quad_value a b c d /\ 0 <= x < 2 ^ 24 /\
    fwd_ip 0 0 (dotted_quad a b c d ++ l) = fwd_ip (dec_value d) x l.
Proof.
  intros A B C D. pose proof (octet_range a A). pose proof (octet_range b B).
  pose proof (octet_range c C). pose proof (octet_range d D).
  destruct A as (_ & Fa & _), B as (_ & Fb & _), C as (_ & Fc & _), D as (_ & Fd & _).
  exists ((dec_value a * 256 + dec_value b) * 256 + dec_value c).
  split; [unfold quad_value; lia|]. split; [lia|]. unfold dotted_quad, dec_value in *.
  assert (forall t x l, 0 <= t <= 255 -> 0 <= x < 2 ^ 24 ->
    fwd_ip t x (46 :: l) = fwd_ip 0 (256 * x + t) l) as Dot.
  { intros t x l0 Ht Hx. cbn [fwd_ip]. change (isdigit 46) with false. change (46 =? 46) with true.
    cbn [andb]. by rewrite shift_octet by lia. }
  rewrite <- app_assoc, fwd_ip_digits by (done || lia). cbn [app]. rewrite Dot by lia.
  rewrite <- app_assoc, fwd_ip_digits by (done || lia). cbn [app]. rewrite Dot by lia.
  rewrite <- app_assoc, fwd_ip_digits by (done || lia). cbn [app]. rewrite Dot by lia.
  rewrite fwd_ip_digits by (done || lia). f_equal. lia.
Qed.

Lemma fwd_port_digits ds : forall t,
  Digits ds -> 0 <= t <= 65535 ->
  fwd_port t ds = if dec_from t ds <=? 65535 then Some (dec_from t ds) else None.
Proof.
  induction ds as [|d ds IH]; intros t F Ht.
  - cbn. by rewrite (proj2 (Z.leb_le _ _)) by lia.
  - apply Forall_cons in F as [Hd F]. pose proof (proj1 (isdigit_spec d) Hd) as Rd.
    cbn [fwd_port]. rewrite Hd. cbn [dec_from foldl] in *.
    fold (dec_from (10 * t + (d - 48)) ds) in *.
    pose proof (dec_from_mono ds (10 * t + (d - 48)) F ltac:(lia)) as M. rewrite Z.gtb_ltb.
    destruct (Z.ltb_spec 65535 (10 * t + (d - 48))).
    + by rewrite (proj2 (Z.leb_gt _ _)) by lia.
    + apply IH; [done|lia].
Qed.

Lemma fwd_ip_no_colon l : forall t x t' x',
  fwd_ip t x l = Some (None, t', x') -> Forall (fun y => y <> 58) l.
Proof.
  induction l as [|y l IH]; intros t x t' x' E; [constructor|]. cbn [fwd_ip] in E.
  destruct (isdigit y) eqn:Ed.
  - apply isdigit_spec in Ed. destruct (10 * t + (y - 48) >? 255); [done|].
    constructor; [lia|by eapply IH].
  - destruct (Z.eqb_spec y 46); [constructor; [lia|by eapply IH]|]. by destruct (y =? 58).
Qed.

Lemma fwd_ip_suffix l : forall t x r t' x',
  fwd_ip t x l = Some (Some r, t', x') -> exists p, l = p ++ 58 :: r.
Proof.
  induction l as [|y l IH]; intros t x r t' x' E; [done|]. cbn [fwd_ip] in E.
  destruct (isdigit y).
  - destruct (10 * t + (y - 48) >? 255); [done|]. apply IH in E as [p ->]. by exists (y :: p).
  - destruct (y =? 46).
    + apply IH in E as [p ->]. by exists (y :: p).
    + destruct (Z.eqb_spec y 58) as [->|]; [|done]. simplify_eq. by exists [].
Qed.

(** What stands in front of the last element of the header. *)
Inductive forwarded_lead : bytes -> Prop :=
| lead_none : forwarded_lead []
| lead_comma p : forwarded_lead (p ++ [44])
| lead_space p : forwarded_lead (p ++ [44; 32]).

Lemma forwarded_start lead elem :
  forwarded_lead lead -> Forall (fun x => x <> 44) elem -> is_byte (hd 0 elem) -> hd 0 elem <> 32 ->
  elem <> [] ->
  match memrchr (lead ++ elem) 44 with
  | Some i => if Z.land (tab (lead ++ elem) (i + 1)) 255 =? 32 then i + 2 else i + 1
  | None => 0
  end = Z.of_nat (length lead).
Proof.
  intros L F B N N0. destruct elem as [|e elem]; [done|]. cbn [hd] in B, N.
  assert (forall p (y : Z) l, tab (p ++ 44 :: y :: l) (Z.of_nat (length p) + 1) = y) as T.
  { intros p y l. unfold tab. rewrite app_nth2 by lia.
    by replace (Z.to_nat (Z.of_nat (length p) + 1) - length p)%nat with 1%nat by lia. }
  destruct L as [|p|p]; rewrite <- ?app_assoc; cbn [app].
  - by rewrite memrchr_none.
  - rewrite memrchr_last, T, land_255, Z.mod_small, (proj2 (Z.eqb_neq _ _) N) by done.
    rewrite length_app. cbn [length]. lia.
  - rewrite memrchr_last by (constructor; [lia|done]). rewrite T. change (Z.land 32 255 =? 32) with true.
    rewrite length_app. cbn [length]. lia.
Qed.

Lemma forwarded_list lead elem :
  forwarded_lead lead -> Forall (fun x => x <> 44) elem -> Bytes elem -> hd 0 elem <> 32 ->
  elem <> [] ->
  forwarded (lead ++ elem) (Z.of_nat (length (lead ++ elem))) =
  '(rest, t, x) ← fwd_ip 0 0 elem;
  p ← match rest with Some r => fwd_port 0 r | None => Some 0 end;
  Some (Z.lor (u32 (Z.shiftl x 8)) t, u16 p).
Proof.
  intros L F B N N0. set (s := lead ++ elem). unfold forwarded.
  assert (0 < length s)%nat by (subst s; rewrite length_app; destruct elem; cbn in *; [done|lia]).
  rewrite (proj2 (Z.eqb_neq _ _)) by lia. rewrite Nat2Z.id, firstn_all. subst s.
  rewrite forwarded_start; [|done..| |done|done];
    [|destruct elem; [done|by apply Forall_cons in B as [? _]]].
  rewrite (forwarded_ip_list _ _ elem); try done; try lia;
    [|rewrite !Nat2Z.id, firstn_all; apply drop_app_length|rewrite length_app; lia].
  destruct (fwd_ip 0 0 elem) as [[[[r|] t] x]|] eqn:E; cbn [mbind option_bind]; [| |done].
  - change (58 =? 58) with true. cbv iota. apply fwd_ip_suffix in E as [p ->].
    rewrite (forwarded_port_list _ _ r); [done| |lia| |lia| |].
    + apply Forall_app in B as [_ B]. by apply Forall_cons in B as [_ ?].
    + rewrite !length_app. cbn [length]. lia.
    + rewrite Nat2Z.id, firstn_all, app_assoc.
      replace (Z.to_nat _) with (length ((lead ++ p) ++ [58])); [|rewrite !length_app; cbn; rewrite ?length_app; cbn [length]; lia].
      change (58 :: r) with ([58] ++ r). rewrite (app_assoc (lead ++ p)). apply drop_app_length.
    + rewrite !length_app. cbn [length]. lia.
  - apply fwd_ip_no_colon in E. rewrite Forall_forall in E.
    rewrite (proj2 (Z.eqb_neq _ _)); [done|]. apply E.
    destruct elem as [|e elem] using rev_ind; [done|]. rewrite last_last, elem_of_app. right. by left.
Qed.

Lemma cstr_app a : Forall (fun x => x <> 0) a -> cstr (a ++ [0]) = a.
Proof.
  induction 1 as [|x a N _ IH]; [done|]. cbn [app cstr]. by rewrite (proj2 (Z.eqb_neq _ _) N), IH.
Qed.

Lemma strchr_end a c : Forall (fun x => x <> c /\ x <> 0) a -> c <> 0 -> strchr (a ++ [0]) c = None.
Proof.
  intros F Nc. induction F as [|x a [N1 N2] _ IH]; cbn [app strchr].
  - by rewrite (proj2 (Z.eqb_neq 0 c)) by lia.
  - by rewrite (proj2 (Z.eqb_neq _ _) N1), (proj2 (Z.eqb_neq _ _) N2), IH.
Qed.

Lemma ParseIp_number ds :
  Digits ds -> 1 <= dec_value ds < 2 ^ 32 -> Z.of_nat (length ds) < SIZE_MAX ->
  ParseIp (Some ds) (Z.of_nat (length ds)) = dec_value ds.
Proof.
  intros F R L. unfold ParseIp. rewrite strarg_len, Nat2Z.id, firstn_all by lia.
  destruct ds as [|d ds]; [cbn in R; lia|]. rewrite (proj2 (Z.eqb_neq _ 0)) by (cbn; lia).
  rewrite <- (app_nil_r (d :: ds)) at 1. unfold dec_value in *. rewrite ip_digits by (done || lia). done.
Qed.

(* ------------------------------------------------------------------ *)
(** ** Lemmas: byte ranges *)

(** The three forms of a range, with the decimal digits they are written with. *)
Inductive byte_range :=
| RangeFrom (first : bytes)
| RangeBetween (first last : bytes)
| RangeSuffix (count : bytes).

Definition render_range (r : byte_range) : bytes :=
  bstr "bytes=" ++
  match r with
  | RangeFrom a => a ++ [45]
  | RangeBetween a b => a ++ [45] ++ b
  | RangeSuffix k => [45] ++ k
  end.

(** Every number fits and is written with at least one digit. *)
Definition range_number (ds : bytes) : Prop := ds <> [] /\ Digits ds /\ dec_value ds < 2 ^ 63 - 1.
Definition range_ok (r : byte_range) : Prop :=
  match r with
  | RangeFrom a => range_number a
  | RangeBetween a b => range_number a /\ range_number b
  | RangeSuffix k => range_number k
  end.

(** The part of a resource of [rl] bytes a range names: offset and length. *)
Definition range_meaning (r : byte_range) (rl : Z) : option (Z * Z) :=
  match r with
  | RangeFrom a => if dec_value a <? rl then Some (dec_value a, rl - dec_value a) else None
  | RangeBetween a b =>
      if (dec_value a <=? dec_value b) && (dec_value a <=? rl)
      then Some (dec_value a, Z.min (dec_value b + 1) rl - dec_value a) else None
  | RangeSuffix k =>
      if (1 <=? dec_value k) && (dec_value k <=? rl) then Some (rl - dec_value k, dec_value k)
      else None
  end.

Definition range_result (o : option (Z * Z)) : bool * Z * Z :=
  match o with Some (start, length) => (true, start, length) | None => (false, 0, 0) end.

Lemma ckd_ok z : - 2 ^ 63 <= z < 2 ^ 63 -> ckd z = Some z.
Proof. intros H. unfold ckd. by replace ((- 2 ^ 63 <=? z) && (z <? 2 ^ 63)) with true by lia. Qed.

Lemma ckd_Some z r : ckd z = Some r -> r = z /\ - 2 ^ 63 <= r < 2 ^ 63.
Proof.
  unfold ckd. destruct ((- 2 ^ 63 <=? z) && (z <? 2 ^ 63)) eqn:E; intros; simplify_eq. lia.
Qed.

Lemma range_number_loop ds l :
  range_number ds -> isdigit (hd 0 l) = false ->
  long_loop 0 (ds ++ l) = Some (dec_value ds, l) /\ 0 <= dec_value ds < 2 ^ 63 - 1.
Proof.
  intros (_ & F & L) N. pose proof (dec_from_mono ds 0 F ltac:(lia)) as M.
  fold (dec_value ds) in M. split; [|lia]. apply long_loop_digits; [done|lia| |done].
  unfold dec_value in L. lia.
Qed.

Lemma range_number_whole ds :
  range_number ds -> long_loop 0 ds = Some (dec_value ds, []) /\ 0 <= dec_value ds < 2 ^ 63 - 1.
Proof. intros H. rewrite <- (app_nil_r ds) at 1. by apply range_number_loop. Qed.

Lemma accept_digits ds l : range_number ds -> accept 45 (ds ++ l) = None.
Proof.
  intros (N & F & _). destruct ds as [|d ds]; [done|]. apply Forall_cons in F as [Hd _].
  apply isdigit_spec in Hd. cbn. by rewrite (proj2 (Z.eqb_neq _ _)) by lia.
Qed.

Lemma mem_digits ds c : Digits ds -> isdigit c = false -> mem c ds = false.
Proof.
  intros F N. induction F as [|d ds Hd _ IH]; [done|]. cbn [mem existsb].
  fold (mem c ds). rewrite IH, orb_false_r. apply Z.eqb_neq. intros ->. congruence.
Qed.

Lemma render_range_clean r : range_ok r -> mem 44 (render_range r) = false.
Proof.
  assert (forall a b, mem 44 (a ++ b) = mem 44 a || mem 44 b) as App by (intros; apply existsb_app).
  unfold render_range. destruct r as [a|a b|k]; cbn [range_ok]; rewrite !App;
    [intros (_ & A & _)|intros [(_ & A & _) (_ & B & _)]|intros (_ & A & _)];
    rewrite ?(mem_digits a), ?(mem_digits b), ?(mem_digits k) by done; reflexivity.
Qed.

Lemma range_fields_render r rl :
  range_ok r -> 0 <= rl < 2 ^ 63 ->
  exists start len, range_fields (drop 6 (render_range r)) rl = Some (start, len, []) /\
    - 2 ^ 63 < start < 2 ^ 63 /\
    range_meaning r rl =
    (if (start <? 0) || (len <? 1) || (rl <? start) then None
     else Some (start, Z.min (start + len) rl - start)) /\
    (0 <= start -> start <= rl -> start + len < 2 ^ 63).
Proof.
  intros W Hr. unfold render_range. rewrite drop_app_length' by done. unfold range_fields.
  destruct r as [a|a b|k]; cbn [range_ok] in W.
  - rewrite (accept_digits a _ W). destruct (range_number_loop a [45] W eq_refl) as [-> R].
    cbn [mbind option_bind]. change (accept 45 [45]) with (Some (@nil Z)). cbv iota.
    exists (dec_value a), (Z.max (dec_value a) rl - dec_value a). split; [done|]. split; [lia|].
    split; [|lia]. cbn [range_meaning].
    destruct (Z.ltb_spec (dec_value a) rl).
    + replace ((dec_value a <? 0) || _ || _) with false by lia. do 2 f_equal. lia.
    + by replace ((dec_value a <? 0) || _ || _) with true by lia.
  - destruct W as [Wa Wb]. rewrite (accept_digits a _ Wa).
    destruct (range_number_loop a ([45] ++ b) Wa eq_refl) as [-> Ra].
    cbn [mbind option_bind app accept]. change (45 =? 45) with true. cbv iota.
    destruct b as [|d b]; [by destruct Wb|].
    destruct (range_number_whole _ Wb) as [-> Rb]. cbn [mbind option_bind].
    rewrite ckd_ok by lia. cbn [mbind option_bind]. rewrite ckd_ok by lia. cbn [mbind option_bind].
    eexists _, _. split; [done|]. split; [lia|]. split; [|lia]. cbn [range_meaning].
    destruct ((dec_value a <=? dec_value (d :: b)) && (dec_value a <=? rl)) eqn:E.
    + replace (_ || _ || _) with false by lia. do 2 f_equal. lia.
    + by replace (_ || _ || _) with true by lia.
  - cbn [app accept]. change (45 =? 45) with true. cbv iota.
    destruct (range_number_whole _ W) as [-> R]. cbn [mbind option_bind].
    rewrite ckd_ok by lia. cbn [mbind option_bind].
    eexists _, _. split; [done|]. split; [lia|]. split; [|lia]. cbn [range_meaning].
    destruct ((1 <=? dec_value k) && (dec_value k <=? rl)) eqn:E.
    + replace (_ || _ || _) with false by lia. do 2 f_equal. lia.
    + by replace (_ || _ || _) with true by lia.
Qed.

(* ------------------------------------------------------------------ *)
(** ** Properties *)

(** [ParseContentLength] on every argument: the value is that of the leading decimal digits
    when there is at least one, the number is below [MAXIMUM] and nothing or a comma follows;
    in every other case, overflow included, the result is -1. *)
Theorem ParseContentLength_exact s n :
  ParseContentLength s n =
  let '(ds, rest) := span_digits (strarg s n) in
  if negb (bool_decide (ds = [])) && (dec_value ds <? MAXIMUM) && ((hd 44 rest) =? 44)
  then dec_value ds else -1.
Proof.
  unfold ParseContentLength. pose proof (span_digits_spec (strarg s n)) as S.
  destruct (span_digits (strarg s n)) as [ds rest]. destruct S as (-> & F & N).
  destruct ds as [|d ds].
  - cbn [app bool_decide negb andb]. destruct rest as [|c rest]; [done|].
    rewrite (proj2 (Z.eqb_neq _ _)) by (cbn; lia). cbn [content_length_loop hd] in *.
    rewrite N, andb_false_r. done.
  - rewrite (proj2 (Z.eqb_neq _ _)) by (cbn; lia).
    rewrite content_length_digits by (done || unfold MAXIMUM; lia). fold (dec_value (d :: ds)).
    change (bool_decide (d :: ds = [])) with false. cbn [negb andb].
    destruct (dec_value (d :: ds) <? MAXIMUM); cbn [andb]; [|done].
    destruct rest as [|c rest]; [done|]. cbn [content_length_loop hd] in *. rewrite N.
    rewrite Z.gtb_ltb, (proj2 (Z.ltb_lt 0 _)) by (cbn; lia). rewrite andb_true_r.
    by destruct (c =? 44).
Qed.

(** Whatever bytes stand in the Range header, a range that [ParseHttpRange] accepts lies
    within the resource, and a rejected one leaves both outputs zero. *)
Lemma ParseHttpRange_inside p n rl :
  0 <= rl < 2 ^ 63 ->
  let '(ok, start, length) := ParseHttpRange p n rl in
  if ok then 0 <= start /\ 0 <= length /\ start + length <= rl
  else start = 0 /\ length = 0.
Proof.
  intros Hr. unfold ParseHttpRange, parse_range.
  destruct (mem 44 _); [done|]. destruct ((Z.of_nat _ <? 7) || _); [done|].
  destruct (range_fields _ rl) as [[[start len] l]|]; cbn [mbind option_bind]; [|done].
  destruct (negb (Z.of_nat (length l) =? 0)); [done|].
  destruct (Z.ltb_spec start 0); [done|]. destruct (Z.ltb_spec len 1); [done|].
  rewrite Z.gtb_ltb. destruct (Z.ltb_spec rl start); [done|].
  destruct (ckd (start + len)) as [ending|] eqn:E; [|done]. cbn [mbind option_bind].
  apply ckd_Some in E as [-> E]. rewrite Z.gtb_ltb.
  destruct (Z.ltb_spec rl (start + len)); lia.
Qed.

(** A Range header with one range in any of its three forms is given the meaning HTTP gives
    it: from an offset to the end, between two offsets clipped to the resource, or the last
    bytes; ranges that name nothing are refused. *)
Lemma ParseHttpRange_means r rl :
  range_ok r -> 0 <= rl < 2 ^ 63 -> 
  ParseHttpRange (render_range r) (Z.of_nat (length (render_range r))) rl =
  range_result (range_meaning r rl).
Proof.
  intros W Hr. unfold ParseHttpRange. rewrite Nat2Z.id, firstn_all. unfold parse_range.
  rewrite render_range_clean by done.
  assert (7 <= length (render_range r))%nat as L.
  { unfold render_range. rewrite length_app. cbn [length].
    destruct r; rewrite ?length_app; cbn [length]; lia. }
  rewrite (proj2 (Z.ltb_ge _ 7)) by lia.
  assert (take 6 (render_range r) = bstr "bytes=") as -> by done.
  rewrite bool_decide_true by done. cbn [orb negb].
  destruct (range_fields_render r rl W Hr) as (start & len & -> & Rs & -> & Rl).
  cbn [mbind option_bind length]. change (negb (Z.of_nat 0 =? 0)) with false. cbv iota.
  rewrite !Z.gtb_ltb.
  destruct (Z.ltb_spec start 0); [done|]. destruct (Z.ltb_spec len 1); [done|].
  destruct (Z.ltb_spec rl start); [done|]. cbn [orb].
  rewrite ckd_ok by lia. cbn [mbind option_bind range_result]. rewrite Z.gtb_ltb.
  destruct (Z.ltb_spec rl (start + len)); do 2 f_equal; lia.
Qed.

(** the Range header. Whatever bytes stand in it, a range that [ParseHttpRange] accepts lies
    within the resource, and a rejected one leaves both outputs zero; and a header with one
    range in any of its three forms is given the meaning HTTP gives it: from an offset to the
    end, between two offsets clipped to the resource, or the last bytes, while ranges that name
    nothing are refused. *)
Theorem ParseHttpRange_exact rl :
  0 <= rl < 2 ^ 63 ->
  (forall p n, let '(ok, start, length) := ParseHttpRange p n rl in
     if ok then 0 <= start /\ 0 <= length /\ start + length <= rl
     else start = 0 /\ length = 0) /\
  (forall r, range_ok r ->
     ParseHttpRange (render_range r) (Z.of_nat (length (render_range r))) rl =
     range_result (range_meaning r rl)).
Proof.
  intros Hr. split; [intros p n; by apply ParseHttpRange_inside|].
  intros r W. by apply ParseHttpRange_means.
Qed.

Lemma ParseHttpRange_exact_witness :
  0 <= 1000 < 2 ^ 63 /\ ParseHttpRange (bstr "bytes=500-1999") 14 1000 = (true, 500, 500).
Proof.
  split; [lia|]. destruct (ParseHttpRange_exact 1000 ltac:(lia)) as [_ M].
  apply (M (RangeBetween (bstr "500") (bstr "1999"))).
  split; (split; [done|]; split; [decide_now|vm_compute; reflexivity]).
Defined.

(** [IsAcceptablePort] accepts decimal numbers up to 65535 (and the empty text) and nothing
    else; [IsAcceptableHost] accepts the empty text and texts of at most 253 characters of host names and
    dots in which no dot comes first or doubled, where a text of digits and dots alone must
    have exactly three dots and no dot at its end. *)
Theorem IsAcceptableHost_IsAcceptablePort_exact s n :
  Bytes (strarg s n) ->
  let l := strarg s n in
  IsAcceptablePort s n = forallb isdigit l && (dec_value l <=? 65535) /\
  IsAcceptableHost s n =
  bool_decide (l = []) ||
  ((Z.of_nat (length l) <=? DNS_NAME_MAX) && forallb host_char l && dots_ok true l &&
   (negb (numeric l) || ((count_dots l =? 3) && negb (List.last l 0 =? 46)))).
Proof.
  intros B l. fold l in B. split.
  - unfold IsAcceptablePort. fold l. pose proof (span_digits_spec l) as S.
    destruct (span_digits l) as [ds rest]. destruct S as (-> & F & N).
    rewrite forallb_app. assert (forallb isdigit ds = true) as ->.
    { apply forallb_forall. intros x Hx. rewrite Forall_forall in F. by apply F, list_elem_of_In. }
    destruct rest as [|c rest].
    + rewrite app_nil_r. cbn. by apply port_digits.
    + cbn [hd] in N. apply Forall_app in B as [_ B]. apply Forall_cons in B as [Hc _].
      rewrite port_other by done. cbn. by rewrite N.
  - unfold IsAcceptableHost. fold l. destruct l as [|c l0] eqn:El; [done|]. rewrite <- El in *.
    rewrite (proj2 (Z.eqb_neq _ 0)) by (rewrite El; cbn; lia).
    rewrite bool_decide_false by (by rewrite El). cbn [orb]. rewrite Z.gtb_ltb.
    destruct (Z.ltb_spec DNS_NAME_MAX (Z.of_nat (length l))).
    + rewrite (proj2 (Z.leb_gt _ _)) by lia. done.
    + rewrite (proj2 (Z.leb_le _ _)) by lia. rewrite host_loop_spec by done. cbn [andb].
      f_equal. destruct (numeric l); [|done]. cbn [negb orb]. by rewrite El.
Qed.

Lemma IsAcceptableHost_IsAcceptablePort_exact_witness :
  Bytes (strarg (Some (bstr "10.0.0.1")) 8) /\
  IsAcceptablePort (Some (bstr "10.0.0.1")) 8 = false /\
  IsAcceptableHost (Some (bstr "10.0.0.1")) 8 = true.
Proof.
  split; [decide_now|].
  exact (IsAcceptableHost_IsAcceptablePort_exact (Some (bstr "10.0.0.1")) 8 ltac:(decide_now)).
Defined.

(** [ParseIp] reads a dotted quad as the address in host order and a plain decimal number
    as itself; on any other bytes its result is -1 or fits 32 bits. [ParseCidr] reads the
    address in front of a slash and the prefix length of 1 to 32 bits behind it, and takes an
    address without a slash as a network of 32 bits. *)
Theorem ParseIp_ParseCidr_quad a b c d bits junk :
  octet a -> octet b -> octet c -> octet d ->
  Digits bits -> 1 <= dec_value bits <= 32 ->
  Z.of_nat (length (dotted_quad a b c d ++ 47 :: bits)) < SIZE_MAX ->
  ParseIp (Some (dotted_quad a b c d)) (Z.of_nat (length (dotted_quad a b c d))) =
    quad_value a b c d /\
  ParseCidr junk (dotted_quad a b c d ++ 47 :: bits ++ [0]) SIZE_MAX =
    MkCidr (quad_value a b c d) (dec_value bits) /\
  ParseCidr junk (dotted_quad a b c d ++ [0]) SIZE_MAX = MkCidr (quad_value a b c d) 32 /\
  (forall ds, Digits ds -> 1 <= dec_value ds < 2 ^ 32 -> Z.of_nat (length ds) < SIZE_MAX ->
    ParseIp (Some ds) (Z.of_nat (length ds)) = dec_value ds) /\
  (forall s n, -1 <= ParseIp s n < 2 ^ 32).
Proof.
  intros A B C D F R L. destruct (quad_chars a b c d A B C D) as [Q N].
  pose proof (ParseIp_quad a b c d A B C D) as IP.
  set (q := dotted_quad a b c d) in *. rewrite length_app in L. cbn [length] in L.
  assert (0 <= quad_value a b c d) as Pos.
  { unfold quad_value. pose proof (octet_range a A). pose proof (octet_range b B).
    pose proof (octet_range c C). pose proof (octet_range d D). lia. }
  assert (forall l, ParseIp (Some (q ++ l)) (Z.of_nat (length q)) = quad_value a b c d) as P.
  { intros l. unfold ParseIp. rewrite strarg_len, Nat2Z.id, take_app_length by lia.
    rewrite (proj2 (Z.eqb_neq _ _)) by (by destruct q; cbn; [|lia]). done. }
  assert (Forall (fun x => x <> 0) q /\ Forall (fun x => x <> 0) bits) as [Z1 Z2].
  { split; [eapply Forall_impl; [exact Q|cbn; lia]|eapply Forall_impl; [exact F|]].
    intros x Hx. apply isdigit_spec in Hx. lia. }
  split; [rewrite <- (app_nil_r q) at 1; apply P|]. split; [|split; [|split]].
  - unfold ParseCidr. rewrite Z.eqb_refl.
    rewrite (strchr_app q 47 (bits ++ [0])) by (eapply Forall_impl; [exact Q|cbn; lia]).
    rewrite P, (proj2 (Z.eqb_neq _ (-1))) by lia. cbn [negb].
    replace (q ++ 47 :: bits ++ [0]) with ((q ++ 47 :: bits) ++ [0]) by (by rewrite <- app_assoc).
    rewrite cstr_app by (rewrite Forall_app; split; [done|by constructor; [lia|]]).
    replace (Z.to_nat (Z.of_nat (length q) + 1)) with (length (q ++ [47])) by (rewrite length_app; cbn; lia).
    replace (q ++ 47 :: bits) with ((q ++ [47]) ++ bits) by (by rewrite <- app_assoc).
    rewrite <- (app_assoc (q ++ [47]) bits [0]), drop_app_length, take_app_length' by (rewrite !length_app; cbn [length]; lia).
    rewrite cidr_digits by (done || (unfold dec_value in R; lia)). fold (dec_value bits).
    by rewrite (proj2 (Z.leb_gt _ 0)) by lia.
  - unfold ParseCidr. rewrite Z.eqb_refl, cstr_app by done.
    rewrite strchr_end by (lia || (eapply Forall_impl; [exact Q|cbn; lia])). by rewrite P.
  - exact ParseIp_number.
  - intros s n. unfold ParseIp. destruct (_ =? 0); [lia|]. apply ip_loop_range; lia.
Qed.

Lemma ParseIp_ParseCidr_quad_witness :
  ParseIp (Some (bstr "10.10.10.1")) 10 = 168430081 /\
  ParseCidr 7 (bstr "10.10.10.1/24" ++ [0]) SIZE_MAX = MkCidr 168430081 24.
Proof.
  refine (_ (ParseIp_ParseCidr_quad (bstr "10") (bstr "10") (bstr "10") (bstr "1") (bstr "24") 7
           ltac:(repeat split; decide_now) ltac:(repeat split; decide_now)
           ltac:(repeat split; decide_now) ltac:(repeat split; decide_now)
           ltac:(decide_now) ltac:(decide_now) ltac:(vm_compute; reflexivity))).
  intros (P & Q & _). split; [exact P|exact Q].
Defined.

(** [ParseForwarded] reads the last element of the header, which may follow a comma and
    one space: the address of its dotted quad and its port, zero without one, and a port
    above 65535 fails. *)
Theorem ParseForwarded_last lead a b c d port :
  forwarded_lead lead -> octet a -> octet b -> octet c -> octet d -> Digits port ->
  Z.of_nat (length (lead ++ dotted_quad a b c d ++ 58 :: port)) < SIZE_MAX ->
  (let s := lead ++ dotted_quad a b c d in
   ParseForwarded s (Z.of_nat (length s)) = Some (quad_value a b c d, 0)) /\
  (let s := lead ++ dotted_quad a b c d ++ 58 :: port in
   ParseForwarded s (Z.of_nat (length s)) =
   if dec_value port <=? 65535 then Some (quad_value a b c d, dec_value port) else None).
Proof.
  intros Ld A B C D F L. destruct (quad_chars a b c d A B C D) as [Q N].
  pose proof (octet_range d D) as Rd. unfold ParseForwarded.
  assert (Digits port -> 0 <= dec_value port) as Pp by (intros; apply dec_from_mono; [done|lia]).
  specialize (Pp F).
  assert (forall l, Forall (fun x => 46 <= x <= 58) l -> Forall (fun x => x <> 44) l /\ Bytes l) as Ch.
  { intros l H. split; (eapply Forall_impl; [exact H|]); unfold is_byte; cbn; lia. }
  assert (Forall (fun x => 46 <= x <= 58) (dotted_quad a b c d)) as Q1
    by (eapply Forall_impl; [exact Q|cbn; lia]).
  assert (Forall (fun x => 46 <= x <= 58) (dotted_quad a b c d ++ 58 :: port)) as Q2.
  { rewrite Forall_app. split; [done|]. constructor; [lia|]. eapply Forall_impl; [exact F|].
    intros x Hx. apply isdigit_spec in Hx. lia. }
  assert (forall l, hd 0 (dotted_quad a b c d ++ l) <> 32) as H32.
  { intros l. destruct (dotted_quad a b c d) as [|x r]; [done|]. apply Forall_cons in Q1 as [? _]. cbn. lia. }
  cbv zeta. rewrite app_assoc, !length_app in L. rewrite !length_app. cbn [length] in *.
  rewrite !(proj2 (Z.eqb_neq _ SIZE_MAX)) by lia. split.
  - rewrite <- length_app, forwarded_list; [|done|apply Ch; done|apply Ch; done| |done];
      [|specialize (H32 []); by rewrite app_nil_r in H32].
    destruct (fwd_ip_quad a b c d [] A B C D) as (x & Ex & Rx & E). rewrite app_nil_r in E.
    rewrite E. cbn. rewrite shift_octet by lia. by rewrite Ex.
  - replace (length lead + (length (dotted_quad a b c d) + S (length port)))%nat
      with (length (lead ++ dotted_quad a b c d ++ 58 :: port)) by (rewrite !length_app; cbn [length]; lia).
    rewrite forwarded_list; [|done|apply Ch; done|apply Ch; done|done|];
      [|by destruct (dotted_quad a b c d)].
    destruct (fwd_ip_quad a b c d (58 :: port) A B C D) as (x & Ex & Rx & ->).
    cbn [fwd_ip]. change (isdigit 58) with false. change (58 =? 46) with false.
    change (58 =? 58) with true. cbn [mbind option_bind]. rewrite fwd_port_digits by (done || lia).
    fold (dec_value port). destruct (Z.leb_spec (dec_value port) 65535); [|done].
    cbn [mbind option_bind]. rewrite shift_octet, Ex by lia. unfold u16. by rewrite Z.mod_small by lia.
Qed.

Lemma ParseForwarded_last_witness :
  ParseForwarded (bstr "203.0.110.2, 203.0.113.42:31337") 31 = Some (0xCB00712A, 31337).
Proof.
  refine (proj2 (ParseForwarded_last (bstr "203.0.110.2, ") (bstr "203") (bstr "0") (bstr "113") (bstr "42")
    (bstr "31337") (lead_space (bstr "203.0.110.2")) _ _ _ _ _ _)).
  1-4: repeat split; decide_now.
  - decide_now.
  - vm_compute. reflexivity.
Defined.
