(* ===== verification/Ip.v ===== *)
(** Classification of IPv4 addresses: net/http/categorizeip.c with the predicates it asks
    (net/http/is*ip.c, libc/intrin/is{loopback,private,public}ip.c), net/http/iscloudflare.c
    and net/http/getipcategoryname.c. *)

From S2P Require Import Prelude.

(* ------------------------------------------------------------------ *)
(** ** Definitions *)

Definition kIpUnknown : Z := 0.
Definition kIpMulticast : Z := 1.
Definition kIpLoopback : Z := 2.
Definition kIpPrivate : Z := 3.
Definition kIpTestnet : Z := 4.
Definition kIpAfrinic : Z := 5.
Definition kIpLacnic : Z := 6.
Definition kIpApnic : Z := 7.
Definition kIpArin : Z := 8.
Definition kIpRipe : Z := 9.
Definition kIpDod : Z := 10.
Definition kIpAtt : Z := 11.
Definition kIpApple : Z := 12.
Definition kIpFord : Z := 13.
Definition kIpCogent : Z := 14.
Definition kIpPrudential : Z := 15.
Definition kIpUsps : Z := 16.
Definition kIpComcast : Z := 17.
Definition kIpFuture : Z := 18.
Definition kIpAnonymous : Z := 19.

(** [x >> 24] and [x >> 28] on [uint32_t]. *)
Definition IsLoopbackIp (x : Z) : bool := Z.shiftr x 24 =? 127.

Definition IsPrivateIp (x : Z) : bool :=
  (Z.shiftr x 24 =? 10) || (Z.land x 0xfff00000 =? 0xac100000) ||
  (Z.land x 0xffff0000 =? 0xc0a80000).

Definition IsMulticastIp (x : Z) : bool := Z.shiftr x 28 =? 0xE.

Definition IsAnonymousIp (x : Z) : bool :=
  (Z.land x 0xffffffff =? 0x1f0e8527) || (Z.land x 0xffffff00 =? 0x2e138900) ||
  (Z.land x 0xffffff00 =? 0x2e138f00) || (Z.land x 0xfffffffe =? 0x32074e58) ||
  (Z.land x 0xfffffe00 =? 0x3e490800) || (Z.land x 0xffffffff =? 0x3feb9bd2) ||
  (Z.land x 0xffffffff =? 0x400c7617) || (Z.land x 0xffffffff =? 0x400c7658) ||
  (Z.land x 0xffffff00 =? 0x432b9c00) || (Z.land x 0xffffff00 =? 0x450a8b00) ||
  (Z.land x 0xffffff00 =? 0x46e8f500) || (Z.land x 0xffffffff =? 0x4a5209e0) ||
  (Z.land x 0xfffffe00 =? 0x50fe4a00) || (Z.land x 0xfffffe00 =? 0x5d735200) ||
  (Z.land x 0xfffffe00 =? 0x5d735400) || (Z.land x 0xffffffff =? 0x602fe214) ||
  (Z.land x 0xffffff00 =? 0x93cb7800) || (Z.land x 0xffffffff =? 0xb0094b2b) ||
  (Z.land x 0xffffffff =? 0xb9246491) || (Z.land x 0xffffff00 =? 0xc0ee1500) ||
  (Z.land x 0xffffffff =? 0xc16b1147) || (Z.land x 0xffffffff =? 0xc6906958) ||
  (Z.land x 0xffffff00 =? 0xc772df00) || (Z.land x 0xffffff00 =? 0xc7bcec00) ||
  (Z.land x 0xffffffff =? 0xc8c8c8c8) || (Z.land x 0xffffff00 =? 0xce47a200) ||
  (Z.land x 0xffffff00 =? 0xcec46700) || (Z.land x 0xffffffff =? 0xd02be134) ||
  (Z.land x 0xffffff00 =? 0xd1d8c600) || (Z.land x 0xfffffffc =? 0xd43fa9e8) ||
  (Z.land x 0xffffffff =? 0xd5eaf973) || (Z.land x 0xffffff00 =? 0xd897b400).

Definition IsTestnetIp (x : Z) : bool :=
  (Z.land x 0xffffff00 =? 0xc0000200) || (Z.land x 0xffffff00 =? 0x0c6336400) ||
  (Z.land x 0xffffff00 =? 0xcb007100).

(** [(x & 0xff000000) >> 24] *)
Definition octet_a (x : Z) : Z := Z.shiftr (Z.land x 0xff000000) 24.

Definition IsAfrinicIp (x : Z) : bool :=
  let a := octet_a x in
  (a =? 41) || (a =? 102) || (a =? 105) || (a =? 154) || (a =? 196) || (a =? 197) ||
  (Z.land x 0xffffe000 =? 0xca7b0000).

Definition IsLacnicIp (x : Z) : bool :=
  let a := octet_a x in
  (a =? 177) || (a =? 179) || (a =? 181) || (a =? 186) || (a =? 187) || (a =? 189) ||
  (a =? 190) || (a =? 191) || (a =? 200) || (a =? 201).

Definition IsApnicIp (x : Z) : bool :=
  let a := octet_a x in
  (a =? 1) || (a =? 14) || (a =? 27) || (a =? 36) || (a =? 39) || (a =? 42) || (a =? 43) ||
  (a =? 49) || (a =? 58) || (a =? 59) || (a =? 60) || (a =? 61) || (a =? 101) || (a =? 103) ||
  (a =? 106) || (a =? 110) || (a =? 111) || (a =? 112) || (a =? 113) || (a =? 114) ||
  (a =? 115) || (a =? 116) || (a =? 117) || (a =? 118) || (a =? 119) || (a =? 120) ||
  (a =? 121) || (a =? 122) || (a =? 123) || (a =? 124) || (a =? 125) || (a =? 126) ||
  (a =? 133) || (a =? 150) || (a =? 153) || (a =? 163) || (a =? 171) || (a =? 175) ||
  (a =? 180) || (a =? 182) || (a =? 183) || (a =? 202) || (a =? 203) || (a =? 210) ||
  (a =? 211) || (a =? 218) || (a =? 219) || (a =? 220) || (a =? 221) || (a =? 222) ||
  (a =? 223).

Definition IsArinIp (x : Z) : bool :=
  let a := octet_a x in
  (a =? 3) || (a =? 4) || (a =? 8) || (a =? 9) || (a =? 13) || (a =? 15) || (a =? 16) ||
  (a =? 18) || (a =? 20) || (a =? 23) || (a =? 24) || (a =? 32) || (a =? 34) || (a =? 35) ||
  (a =? 40) || (a =? 44) || (a =? 45) || (a =? 47) || (a =? 50) || (a =? 52) || (a =? 54) ||
  (a =? 63) || (a =? 64) || (a =? 65) || (a =? 66) || (a =? 67) || (a =? 68) || (a =? 69) ||
  (a =? 70) || (a =? 71) || (a =? 72) || (a =? 74) || (a =? 75) || (a =? 76) || (a =? 96) ||
  (a =? 97) || (a =? 98) || (a =? 99) || (a =? 100) || (a =? 104) || (a =? 107) ||
  (a =? 108) || (a =? 128) || (a =? 129) || (a =? 130) || (a =? 131) || (a =? 132) ||
  (a =? 134) || (a =? 135) || (a =? 136) || (a =? 137) || (a =? 138) || (a =? 139) ||
  (a =? 140) || (a =? 142) || (a =? 143) || (a =? 144) || (a =? 146) || (a =? 147) ||
  (a =? 148) || (a =? 149) || (a =? 152) || (a =? 155) || (a =? 156) || (a =? 157) ||
  (a =? 158) || (a =? 159) || (a =? 160) || (a =? 161) || (a =? 162) || (a =? 164) ||
  (a =? 165) || (a =? 166) || (a =? 167) || (a =? 168) || (a =? 169) || (a =? 170) ||
  (a =? 172) || (a =? 173) || (a =? 174) || (a =? 184) || (a =? 192) || (a =? 198) ||
  (a =? 199) || (a =? 204) || (a =? 205) || (a =? 206) || (a =? 207) || (a =? 208) ||
  (a =? 209) || (a =? 216).

Definition IsRipeIp (x : Z) : bool :=
  let a := octet_a x in
  (a =? 2) || (a =? 5) || (a =? 25) || (a =? 31) || (a =? 37) || (a =? 46) || (a =? 51) ||
  (a =? 53) || (a =? 57) || (a =? 62) || (a =? 77) || (a =? 78) || (a =? 79) || (a =? 80) ||
  (a =? 81) || (a =? 82) || (a =? 83) || (a =? 84) || (a =? 85) || (a =? 86) || (a =? 87) ||
  (a =? 88) || (a =? 89) || (a =? 90) || (a =? 91) || (a =? 92) || (a =? 93) || (a =? 94) ||
  (a =? 95) || (a =? 109) || (a =? 141) || (a =? 145) || (a =? 151) || (a =? 176) ||
  (a =? 178) || (a =? 185) || (a =? 188) || (a =? 193) || (a =? 194) || (a =? 195) ||
  (a =? 212) || (a =? 213) || (a =? 217).

Definition IsDodIp (x : Z) : bool :=
  let a := octet_a x in
  (a =? 6) || (a =? 7) || (a =? 11) || (a =? 21) || (a =? 22) || (a =? 26) || (a =? 28) ||
  (a =? 29) || (a =? 30) || (a =? 33) || (a =? 55) || (a =? 214) || (a =? 215).

Definition IsCloudflareIp (x : Z) : bool :=
  (Z.land x 0xfffffc00 =? 0x6715f400) || (Z.land x 0xfffffc00 =? 0x6716c800) ||
  (Z.land x 0xfffffc00 =? 0x671f0400) || (Z.land x 0xfff80000 =? 0x68100000) ||
  (Z.land x 0xfffc0000 =? 0x68180000) || (Z.land x 0xffffc000 =? 0x6ca2c000) ||
  (Z.land x 0xfffffc00 =? 0x83004800) || (Z.land x 0xffffc000 =? 0x8d654000) ||
  (Z.land x 0xfffe0000 =? 0xa29e0000) || (Z.land x 0xfff80000 =? 0xac400000) ||
  (Z.land x 0xfffff000 =? 0xadf53000) || (Z.land x 0xfffff000 =? 0xbc726000) ||
  (Z.land x 0xfffff000 =? 0xbe5df000) || (Z.land x 0xfffffc00 =? 0xc5eaf000) ||
  (Z.land x 0xffff8000 =? 0xc6298000).

Definition IsPublicIp (x : Z) : bool :=
  negb (
    (Z.land x 0xffffffff =? 0x00000000) || (Z.land x 0xff000000 =? 0x00000000) ||
    (Z.land x 0xff000000 =? 0x0a000000) || (Z.land x 0xff000000 =? 0x7f000000) ||
    (Z.land x 0xfff00000 =? 0xac100000) || (Z.land x 0xffffff00 =? 0xc0000000) ||
    (Z.land x 0xffff0000 =? 0xc0a80000) || (Z.land x 0xffff0000 =? 0xa9fe0000) ||
    (Z.land x 0xffc00000 =? 0x64400000) || (Z.land x 0xfffe0000 =? 0xc6120000) ||
    (Z.land x 0xf0000000 =? 0xf0000000) || (Z.land x 0xffffffff =? 0xffffffff)).

Definition CategorizeIp (x : Z) : Z :=
  if IsLoopbackIp x then kIpLoopback
  else if IsPrivateIp x then kIpPrivate
  else if IsMulticastIp x then kIpMulticast
  else if IsAnonymousIp x then kIpAnonymous
  else if IsTestnetIp x then kIpTestnet
  else if IsAfrinicIp x then kIpAfrinic
  else if IsLacnicIp x then kIpLacnic
  else if IsApnicIp x then kIpApnic
  else if IsArinIp x then kIpArin
  else if IsRipeIp x then kIpRipe
  else if IsDodIp x then kIpDod
  else let a := octet_a x in
  if a =? 12 then kIpAtt
  else if a =? 17 then kIpApple
  else if a =? 19 then kIpFord
  else if a =? 38 then kIpCogent
  else if a =? 48 then kIpPrudential
  else if a =? 56 then kIpUsps
  else if a =? 73 then kIpComcast
  else if 240 <=? a then kIpFuture
  else kIpUnknown.

Definition GetIpCategoryName (c : Z) : option bytes :=
  switch c [
    (kIpMulticast, bstr "MULTICAST");
    (kIpLoopback, bstr "LOOPBACK");
    (kIpPrivate, bstr "PRIVATE");
    (kIpTestnet, bstr "TESTNET");
    (kIpAfrinic, bstr "AFRINIC");
    (kIpLacnic, bstr "LACNIC");
    (kIpApnic, bstr "APNIC");
    (kIpArin, bstr "ARIN");
    (kIpRipe, bstr "RIPE");
    (kIpDod, bstr "DOD");
    (kIpAtt, bstr "AT&T");
    (kIpApple, bstr "APPLE");
    (kIpFord, bstr "FORD");
    (kIpCogent, bstr "COGENT");
    (kIpPrudential, bstr "PRUDENTIAL");
    (kIpUsps, bstr "USPS");
    (kIpComcast, bstr "COMCAST");
    (kIpFuture, bstr "FUTURE");
    (kIpAnonymous, bstr "ANONYMOUS") ].

(* ------------------------------------------------------------------ *)
(** ** The contract: a routing table with longest-prefix match *)

(** The addresses of the network [net/bits]. *)
Definition block (net bits x : Z) : bool := (net <=? x) && (x <? net + 2 ^ (32 - bits)).

(** Dotted quads. *)
Definition ip (a b c d : Z) : Z := ((a * 256 + b) * 256 + c) * 256 + d.

Definition octets (category : Z) (l : list Z) : list (Z * Z * Z) :=
  map (fun a => (ip a 0 0 0, 8, category)) l.

Definition range_of (a b : Z) : list Z := map (fun k => a + Z.of_nat k) (seq 0 (Z.to_nat (b - a + 1))).

(** Networks with their prefix lengths, in no particular order. *)
Definition routes : list (Z * Z * Z) :=
  octets kIpAfrinic [41; 102; 105; 154; 196; 197] ++
  octets kIpLacnic [177; 179; 181; 186; 187; 189; 190; 191; 200; 201] ++
  octets kIpApnic ([1; 14; 27; 36; 39; 42; 43; 49] ++ range_of 58 61 ++ [101; 103; 106] ++
    range_of 110 126 ++ [133; 150; 153; 163; 171; 175; 180; 182; 183; 202; 203; 210; 211] ++
    range_of 218 223) ++
  octets kIpArin ([3; 4; 8; 9; 13; 15; 16; 18; 20; 23; 24; 32; 34; 35; 40; 44; 45; 47; 50; 52; 54] ++
    range_of 63 72 ++ range_of 74 76 ++ range_of 96 100 ++ [104; 107; 108] ++ range_of 128 132 ++
    range_of 134 140 ++ range_of 142 144 ++ range_of 146 149 ++ [152] ++ range_of 155 162 ++
    range_of 164 170 ++ range_of 172 174 ++ [184; 192; 198; 199] ++ range_of 204 209 ++ [216]) ++
  octets kIpRipe ([2; 5; 25; 31; 37; 46; 51; 53; 57; 62] ++ range_of 77 95 ++
    [109; 141; 145; 151; 176; 178; 185; 188; 193; 194; 195; 212; 213; 217]) ++
  octets kIpDod [6; 7; 11; 21; 22; 26; 28; 29; 30; 33; 55; 214; 215] ++
  [ (ip 12 0 0 0, 8, kIpAtt); (ip 17 0 0 0, 8, kIpApple); (ip 19 0 0 0, 8, kIpFord);
    (ip 38 0 0 0, 8, kIpCogent); (ip 48 0 0 0, 8, kIpPrudential); (ip 56 0 0 0, 8, kIpUsps);
    (ip 73 0 0 0, 8, kIpComcast);
    (ip 127 0 0 0, 8, kIpLoopback);
    (ip 10 0 0 0, 8, kIpPrivate); (ip 172 16 0 0, 12, kIpPrivate); (ip 192 168 0 0, 16, kIpPrivate);
    (ip 224 0 0 0, 4, kIpMulticast); (ip 240 0 0 0, 4, kIpFuture);
    (ip 192 0 2 0, 24, kIpTestnet); (ip 198 51 100 0, 24, kIpTestnet);
    (ip 203 0 113 0, 24, kIpTestnet); (ip 202 123 0 0, 19, kIpAfrinic);
    (ip 31 14 133 39, 32, kIpAnonymous); (ip 46 19 137 0, 24, kIpAnonymous);
    (ip 46 19 143 0, 24, kIpAnonymous); (ip 50 7 78 88, 31, kIpAnonymous);
    (ip 62 73 8 0, 23, kIpAnonymous); (ip 63 235 155 210, 32, kIpAnonymous);
    (ip 64 12 118 23, 32, kIpAnonymous); (ip 64 12 118 88, 32, kIpAnonymous);
    (ip 67 43 156 0, 24, kIpAnonymous); (ip 69 10 139 0, 24, kIpAnonymous);
    (ip 70 232 245 0, 24, kIpAnonymous); (ip 74 82 9 224, 32, kIpAnonymous);
    (ip 80 254 74 0, 23, kIpAnonymous); (ip 93 115 82 0, 23, kIpAnonymous);
    (ip 93 115 84 0, 23, kIpAnonymous); (ip 96 47 226 20, 32, kIpAnonymous);
    (ip 147 203 120 0, 24, kIpAnonymous); (ip 176 9 75 43, 32, kIpAnonymous);
    (ip 185 36 100 145, 32, kIpAnonymous); (ip 192 238 21 0, 24, kIpAnonymous);
    (ip 193 107 17 71, 32, kIpAnonymous); (ip 198 144 105 88, 32, kIpAnonymous);
    (ip 199 114 223 0, 24, kIpAnonymous); (ip 199 188 236 0, 24, kIpAnonymous);
    (ip 200 200 200 200, 32, kIpAnonymous); (ip 206 71 162 0, 24, kIpAnonymous);
    (ip 206 196 103 0, 24, kIpAnonymous); (ip 208 43 225 52, 32, kIpAnonymous);
    (ip 209 216 198 0, 24, kIpAnonymous); (ip 212 63 169 232, 30, kIpAnonymous);
    (ip 213 234 249 115, 32, kIpAnonymous); (ip 216 151 180 0, 24, kIpAnonymous) ].

(** The entry with the longest prefix among those that contain [x]. *)
Fixpoint longest_prefix (rs : list (Z * Z * Z)) (x : Z) (best : Z * Z) : Z * Z :=
  match rs with
  | [] => best
  | (net, bits, category) :: rs =>
      longest_prefix rs x
        (if block net bits x && (best.1 <? bits) then (bits, category) else best)
  end.

Definition route (rs : list (Z * Z * Z)) (x : Z) : Z := (longest_prefix rs x (0, kIpUnknown)).2.

(** The special-purpose networks of IANA that [IsPublicIp] lists. *)
Definition special : list (Z * Z) :=
  [ (ip 0 0 0 0, 32); (ip 0 0 0 0, 8); (ip 10 0 0 0, 8); (ip 127 0 0 0, 8); (ip 172 16 0 0, 12); (ip 192 0 0 0, 24);
    (ip 192 168 0 0, 16); (ip 169 254 0 0, 16); (ip 100 64 0 0, 10); (ip 198 18 0 0, 15);
    (ip 240 0 0 0, 4); (ip 255 255 255 255, 32) ].

(** The networks of Cloudflare. *)
Definition cloudflare : list (Z * Z) :=
  [ (ip 103 21 244 0, 22); (ip 103 22 200 0, 22); (ip 103 31 4 0, 22); (ip 104 16 0 0, 13);
    (ip 104 24 0 0, 14); (ip 108 162 192 0, 18); (ip 131 0 72 0, 22); (ip 141 101 64 0, 18);
    (ip 162 158 0 0, 15); (ip 172 64 0 0, 13); (ip 173 245 48 0, 20); (ip 188 114 96 0, 20);
    (ip 190 93 240 0, 20); (ip 197 234 240 0, 22); (ip 198 41 128 0, 17) ].

Definition in_networks (l : list (Z * Z)) (x : Z) : bool := existsb (fun r => block r.1 r.2 x) l.

(* ------------------------------------------------------------------ *)
(** ** Functions that are constant between boundaries *)

(** The first addresses in and behind every network. *)
Definition boundaries : list Z :=
  0 :: flat_map (fun r => [r.1.1; r.1.1 + 2 ^ (32 - r.1.2)]) (routes ++ map (fun r => (r, 0)) (special ++ cloudflare)).

Lemma zero_boundary : 0 ∈ boundaries.
Proof. apply list_elem_of_here. Qed.

Fixpoint floor_in (B : list Z) (x best : Z) : Z :=
  match B with
  | [] => best
  | b :: B => floor_in B x (if (b <=? x) && (best <? b) then b else best)
  end.

#[local] Opaque boundaries routes special cloudflare.

(** The boundary at or below an address. *)
Definition rep (x : Z) : Z := floor_in boundaries x 0.

Class Stepwise {A} (f : Z -> A) := stepwise : forall x, 0 <= x < 2 ^ 32 -> f x = f (rep x).

Lemma floor_in_le B x : forall best, best <= x -> best <= floor_in B x best <= x.
Proof.
  induction B as [|b B IH]; intros best H; cbn [floor_in]; [lia|].
  destruct ((b <=? x) && (best <? b)) eqn:E; [|by apply IH].
  specialize (IH b ltac:(lia)). lia.
Qed.

Lemma floor_in_max B x b : forall best, b ∈ B -> b <= x -> best <= x -> b <= floor_in B x best.
Proof.
  induction B as [|b' B IH]; intros best H Hb Hx; [by apply elem_of_nil in H|].
  cbn [floor_in]. apply elem_of_cons in H as [->|H].
  - destruct ((b' <=? x) && (best <? b')) eqn:E.
    + apply floor_in_le. lia.
    + pose proof (floor_in_le B x best Hx). lia.
  - destruct ((b' <=? x) && (best <? b')) eqn:E; apply IH; (done || lia).
Qed.

Lemma rep_le x : 0 <= x -> 0 <= rep x <= x.
Proof. unfold rep. generalize boundaries. intros B. apply floor_in_le. Qed.

Lemma rep_in : forall x, rep x ∈ boundaries.
Proof.
  intros x. unfold rep. assert (forall B best, floor_in B x best = best \/ floor_in B x best ∈ B) as F.
  { induction B as [|b B IH]; intros best; [by left|]. cbn [floor_in].
    destruct (IH (if (b <=? x) && (best <? b) then b else best)) as [->|H]; [|by right; right].
    destruct ((b <=? x) && (best <? b)); [right; by left|by left]. }
  destruct (F boundaries 0) as [->|H]; [apply zero_boundary|exact H].
Qed.

Definition is_boundary (b : Z) : bool := existsb (Z.eqb b) boundaries.

Lemma is_boundary_in b : is_boundary b = true -> b ∈ boundaries.
Proof.
  unfold is_boundary. rewrite existsb_exists. intros (y & H & E). apply Z.eqb_eq in E as ->.
  by apply list_elem_of_In.
Qed.

(** A comparison with a boundary is stepwise. *)
Lemma boundary_leb b x : is_boundary b = true -> 0 <= x -> (b <=? x) = (b <=? rep x).
Proof.
  intros H Hx. apply is_boundary_in in H. pose proof (rep_le x Hx).
  destruct (Z.leb_spec b x).
  - symmetry. apply Z.leb_le. unfold rep in *. revert H. generalize boundaries.
    intros B H. apply floor_in_max; [exact H|lia|lia].
  - symmetry. apply Z.leb_gt. lia.
Qed.

(** [x & mask] for a mask of leading ones. *)
Lemma land_leading x k :
  0 <= x < 2 ^ 32 -> 0 <= k <= 32 -> Z.land x (2 ^ 32 - 2 ^ k) = 2 ^ k * (x / 2 ^ k).
Proof.
  intros Hx Hk. replace (2 ^ 32 - 2 ^ k) with (Z.shiftl (Z.ones (32 - k)) k).
  2:{ rewrite Z.shiftl_mul_pow2, Z.ones_equiv by lia.
      replace (2 ^ 32) with (2 ^ (32 - k) * 2 ^ k) by (rewrite <- Z.pow_add_r by lia; f_equal; lia). lia. }
  apply Z.bits_inj'. intros i Hi. rewrite Z.land_spec, Z.shiftl_spec by lia.
  rewrite Z.mul_comm, <- Z.shiftr_div_pow2, <- Z.shiftl_mul_pow2, Z.shiftl_spec by lia.
  destruct (decide (i < k)) as [L|L].
  - rewrite !(Z.testbit_neg_r _ (i - k)) by lia. apply andb_false_r.
  - rewrite Z.shiftr_spec by lia. replace (i - k + k) with i by lia.
    destruct (decide (i < 32)).
    + rewrite Z.ones_spec_low by lia. apply andb_true_r.
    + rewrite Z.ones_spec_high by lia. rewrite andb_false_r. symmetry.
      apply (Z.testbit_false x i Hi). rewrite Z.div_small; [done|].
      split; [lia|]. eapply Z.lt_le_trans; [apply Hx|]. apply Z.pow_le_mono_r; lia.
Qed.

(** [(x & mask) == net] is membership in a network. *)
Lemma land_block x net k :
  0 <= x < 2 ^ 32 -> 0 <= k <= 32 -> net mod 2 ^ k = 0 ->
  (Z.land x (2 ^ 32 - 2 ^ k) =? net) = block net (32 - k) x.
Proof.
  intros Hx Hk Hn. rewrite land_leading by done. unfold block.
  replace (32 - (32 - k)) with k by lia. assert (0 < 2 ^ k) as P by (apply Z.pow_pos_nonneg; lia).
  pose proof (Z.div_mod x (2 ^ k) ltac:(lia)) as D. pose proof (Z.mod_pos_bound x (2 ^ k) P) as M.
  pose proof (Z.div_mod net (2 ^ k) ltac:(lia)) as Dn. rewrite Hn in Dn.
  destruct (Z.eqb_spec (2 ^ k * (x / 2 ^ k)) net) as [E|E]; [lia|].
  set (q := x / 2 ^ k) in *. set (r := net / 2 ^ k) in *.
  assert (q <> r) as Nq by (intros ->; lia).
  destruct (decide (q < r)).
  - symmetry. apply andb_false_iff. left. apply Z.leb_gt. nia.
  - symmetry. apply andb_false_iff. right. apply Z.ltb_ge. nia.
Qed.

Lemma shiftr_block x a k :
  0 <= k -> (Z.shiftr x k =? a) = block (a * 2 ^ k) (32 - k) x.
Proof.
  intros Hk. rewrite Z.shiftr_div_pow2 by lia. unfold block.
  replace (32 - (32 - k)) with k by lia. assert (0 < 2 ^ k) as P by (apply Z.pow_pos_nonneg; lia).
  pose proof (Z.div_mod x (2 ^ k) ltac:(lia)) as D. pose proof (Z.mod_pos_bound x (2 ^ k) P) as M.
  set (q := x / 2 ^ k) in *. destruct (Z.eqb_spec q a) as [E|E]; [lia|].
  destruct (decide (q < a)).
  - symmetry. apply andb_false_iff. left. apply Z.leb_gt. nia.
  - symmetry. apply andb_false_iff. right. apply Z.ltb_ge. nia.
Qed.

Lemma octet_shiftr x : 0 <= x < 2 ^ 32 -> octet_a x = Z.shiftr x 24.
Proof.
  intros Hx. unfold octet_a. change 0xff000000 with (2 ^ 32 - 2 ^ 24).
  rewrite land_leading by lia. rewrite !Z.shiftr_div_pow2 by lia.
  rewrite Z.mul_comm, Z.div_mul by lia. done.
Qed.

(* ------------------------------------------------------------------ *)
(** ** The tests of the code are stepwise *)

(** A network both of whose ends are boundaries. *)
Definition block_ok (net bits : Z) : bool :=
  is_boundary net && is_boundary (net + 2 ^ (32 - bits)).

#[export] Instance stepwise_block net bits :
  block_ok net bits = true -> Stepwise (block net bits).
Proof.
  intros H x Hx. apply andb_true_iff in H as [H1 H2]. unfold block.
  rewrite (boundary_leb net x H1), !Z.ltb_antisym, (boundary_leb _ x H2) by lia. done.
Qed.

(** The exponent of a mask of leading ones. *)
Definition mask_bits (m : Z) : Z := Z.log2 (2 ^ 32 - m).
Definition mask_ok (m net : Z) : bool :=
  (m =? 2 ^ 32 - 2 ^ mask_bits m) && (0 <=? mask_bits m) && (mask_bits m <=? 32) &&
  (net mod 2 ^ mask_bits m =? 0) && block_ok net (32 - mask_bits m).

#[local] Opaque rep.

Lemma rep_range x : 0 <= x < 2 ^ 32 -> 0 <= rep x < 2 ^ 32.
Proof. intros H. pose proof (rep_le x). lia. Qed.

#[export] Instance stepwise_mask m net :
  mask_ok m net = true -> Stepwise (fun x => Z.land x m =? net).
Proof.
  unfold mask_ok. intros H x Hx. pose proof (rep_range x Hx) as Hr.
  rewrite !andb_true_iff in H. destruct H as ((((Hm & H1) & H2) & H3) & H4).
  apply Z.eqb_eq in Hm, H3. apply Z.leb_le in H1, H2. revert H1 H2 H3 H4.
  set (k := mask_bits m) in *. clearbody k. subst m. intros.
  rewrite !land_block by done. by apply stepwise_block.
Qed.

Definition shift_ok (a k : Z) : bool := (0 <=? k) && block_ok (a * 2 ^ k) (32 - k).

#[export] Instance stepwise_shift a k :
  shift_ok a k = true -> Stepwise (fun x => Z.shiftr x k =? a).
Proof.
  intros H x Hx. apply andb_true_iff in H as [H1 H2]. apply Z.leb_le in H1.
  rewrite !shiftr_block by done. by apply stepwise_block.
Qed.

#[export] Instance stepwise_octet a :
  shift_ok a 24 = true -> Stepwise (fun x => octet_a x =? a).
Proof.
  intros H x Hx. rewrite !octet_shiftr by first [exact Hx | exact (rep_range x Hx)]. by apply (stepwise_shift a 24).
Qed.

#[export] Instance stepwise_octet_ge a :
  is_boundary (a * 2 ^ 24) = true -> Stepwise (fun x => a <=? octet_a x).
Proof.
  intros H x Hx. rewrite !octet_shiftr by first [exact Hx | exact (rep_range x Hx)].
  assert (forall y, (a <=? Z.shiftr y 24) = (a * 2 ^ 24 <=? y)) as E.
  { intros y. rewrite Z.shiftr_div_pow2 by lia. pose proof (Z.div_mod y (2 ^ 24) ltac:(lia)).
    pose proof (Z.mod_pos_bound y (2 ^ 24) ltac:(lia)).
    destruct (Z.leb_spec a (y / 2 ^ 24)); symmetry; [apply Z.leb_le|apply Z.leb_gt]; lia. }
  rewrite !E. apply boundary_leb; [exact H|lia].
Qed.

#[export] Instance stepwise_const {A} (c : A) : Stepwise (fun _ => c).
Proof. done. Qed.
Lemma stepwise_comp {A B} (h : A -> B) (f : Z -> A) `{!Stepwise f} : Stepwise (fun x => h (f x)).
Proof. intros x Hx. by rewrite (stepwise (f := f) x Hx). Qed.
#[export] Instance stepwise_orb (f g : Z -> bool) :
  Stepwise f -> Stepwise g -> Stepwise (fun x => f x || g x).
Proof. intros F G x Hx. by rewrite (F x Hx), (G x Hx). Qed.
#[export] Instance stepwise_negb (f : Z -> bool) : Stepwise f -> Stepwise (fun x => negb (f x)).
Proof. intros F x Hx. by rewrite (F x Hx). Qed.
#[export] Instance stepwise_if {A} (f : Z -> bool) (g h : Z -> A) :
  Stepwise f -> Stepwise g -> Stepwise h -> Stepwise (fun x => if f x then g x else h x).
Proof. intros F G H x Hx. by rewrite (F x Hx), (G x Hx), (H x Hx). Qed.

(** Descends to the comparisons, whose constants it checks against the boundaries. *)
Ltac stepwise_tac :=
  repeat first
    [ apply stepwise_const | apply stepwise_if | apply stepwise_orb | apply stepwise_negb
    | apply stepwise_octet; vm_compute; reflexivity
    | apply stepwise_octet_ge; vm_compute; reflexivity
    | apply stepwise_shift; vm_compute; reflexivity
    | apply stepwise_mask; vm_compute; reflexivity ].

#[export] Instance CategorizeIp_stepwise : Stepwise CategorizeIp.
Proof.
  unfold CategorizeIp, IsLoopbackIp, IsPrivateIp, IsMulticastIp, IsAnonymousIp, IsTestnetIp,
    IsAfrinicIp, IsLacnicIp, IsApnicIp, IsArinIp, IsRipeIp, IsDodIp. cbv zeta. stepwise_tac.
Qed.

#[export] Instance IsPublicIp_stepwise : Stepwise IsPublicIp.
Proof. unfold IsPublicIp. stepwise_tac. Qed.

Lemma longest_prefix_ext rs x y : forall best,
  Forall (fun r => block r.1.1 r.1.2 x = block r.1.1 r.1.2 y) rs ->
  longest_prefix rs x best = longest_prefix rs y best.
Proof.
  induction rs as [|[[net bits] c] rs IH]; intros best F; [done|].
  apply Forall_cons in F as [H F]. cbn [longest_prefix]. cbn in H. rewrite H. by apply IH.
Qed.

#[export] Instance route_stepwise : Stepwise (route routes).
Proof.
  intros x Hx. unfold route. f_equal. apply longest_prefix_ext.
  assert (forallb (fun r => block_ok r.1.1 r.1.2) routes = true) as F by (vm_compute; reflexivity).
  rewrite forallb_forall in F. apply Forall_forall. intros r Hr. apply list_elem_of_In in Hr.
  apply stepwise_block; [exact (F r Hr)|exact Hx].
Qed.

Lemma in_networks_stepwise l :
  forallb (fun r => block_ok r.1 r.2) l = true -> Stepwise (in_networks l).
Proof.
  intros F x Hx. unfold in_networks. induction l as [|r l IH]; [done|].
  cbn [forallb existsb] in *. apply andb_true_iff in F as [F1 F2].
  rewrite IH by done. f_equal. by apply stepwise_block.
Qed.

#[export] Instance special_stepwise : Stepwise (in_networks special).
Proof. apply in_networks_stepwise. vm_compute. reflexivity. Qed.
#[export] Instance cloudflare_stepwise : Stepwise (in_networks cloudflare).
Proof. apply in_networks_stepwise. vm_compute. reflexivity. Qed.
#[export] Instance IsCloudflareIp_stepwise : Stepwise IsCloudflareIp.
Proof. unfold IsCloudflareIp. stepwise_tac. Qed.

(** Two stepwise functions that agree at the boundaries agree. *)
Lemma stepwise_eq {A} `{EqDecision A} (f g : Z -> A) `{!Stepwise f, !Stepwise g} :
  forallb (fun b => (2 ^ 32 <=? b) || bool_decide (f b = g b)) boundaries = true ->
  forall x, 0 <= x < 2 ^ 32 -> f x = g x.
Proof.
  intros H x Hx. rewrite (stepwise (f := f) x Hx), (stepwise (f := g) x Hx).
  rewrite forallb_forall in H. specialize (H (rep x)).
  pose proof (rep_range x Hx) as Hr. pose proof (rep_in x) as Hi. apply list_elem_of_In in Hi.
  apply H in Hi. apply orb_true_iff in Hi as [Hi|Hi]; [apply Z.leb_le in Hi; lia|].
  by apply bool_decide_eq_true in Hi.
Qed.

Lemma names_ok x : 0 <= x < 2 ^ 32 ->
  GetIpCategoryName (CategorizeIp x) = None <-> CategorizeIp x = kIpUnknown.
Proof.
  intros Hx.
  assert (bool_decide (GetIpCategoryName (CategorizeIp x) = None) =
          bool_decide (CategorizeIp x = kIpUnknown)) as E.
  { revert x Hx.
    apply (@stepwise_eq _ _ (fun x => bool_decide (GetIpCategoryName (CategorizeIp x) = None))
             (fun x => bool_decide (CategorizeIp x = kIpUnknown))).
    - exact (stepwise_comp (fun c => bool_decide (GetIpCategoryName c = None)) CategorizeIp).
    - exact (stepwise_comp (fun c => bool_decide (c = kIpUnknown)) CategorizeIp).
    - vm_compute. reflexivity. }
  revert E. repeat case_bool_decide; intuition congruence.
Qed.

Definition internal (c : Z) : bool := (c =? kIpLoopback) || (c =? kIpPrivate) || (c =? kIpFuture).

Lemma not_public x : 0 <= x < 2 ^ 32 -> internal (CategorizeIp x) = true -> IsPublicIp x = false.
Proof.
  intros Hx H.
  assert (internal (CategorizeIp x) && IsPublicIp x = false) as E.
  { clear H. revert x Hx.
    apply (@stepwise_eq _ _ (fun x => internal (CategorizeIp x) && IsPublicIp x) (fun _ => false)).
    - intros x Hx. by rewrite (stepwise (f := CategorizeIp) x Hx), (stepwise (f := IsPublicIp) x Hx).
    - apply _.
    - vm_compute. reflexivity. }
  by rewrite H in E.
Qed.

Lemma cloudflare_public x :
  0 <= x < 2 ^ 32 -> IsCloudflareIp x = true -> IsPublicIp x = true.
Proof.
  intros Hx H. assert (IsCloudflareIp x && negb (IsPublicIp x) = false) as E.
  { clear H. revert x Hx.
    apply (@stepwise_eq _ _ (fun x => IsCloudflareIp x && negb (IsPublicIp x)) (fun _ => false)).
    - intros x Hx. by rewrite (stepwise (f := IsCloudflareIp) x Hx), (stepwise (f := IsPublicIp) x Hx).
    - apply _.
    - vm_compute. reflexivity. }
  rewrite H in E. by destruct (IsPublicIp x).
Qed.

(* ------------------------------------------------------------------ *)
(** ** Properties *)

(** On every 32-bit address [CategorizeIp] is longest-prefix match in a routing table: the
    chain of tests, whose order matters where networks nest, gives each address the category
    of the smallest network that contains it, and [GetIpCategoryName] has a name for every
    address but the unknown ones. *)
Theorem CategorizeIp_routes x :
  0 <= x < 2 ^ 32 ->
  CategorizeIp x = route routes x /\
  (GetIpCategoryName (CategorizeIp x) = None <-> CategorizeIp x = kIpUnknown).
Proof.
  intros Hx. split.
  - revert x Hx. apply (stepwise_eq CategorizeIp (route routes)). vm_compute. reflexivity.
  - apply (names_ok x Hx).
Qed.

Lemma CategorizeIp_routes_witness :
  CategorizeIp 0xCA7B0102 = route routes 0xCA7B0102 /\ CategorizeIp 0xCA7B0102 = kIpAfrinic.
Proof.
  split; [apply (CategorizeIp_routes 0xCA7B0102); split; [lia|reflexivity]|vm_compute; reflexivity].
Defined.

(** [IsPublicIp] rejects exactly the addresses of IANA's special-purpose networks and
    [IsCloudflareIp] accepts exactly those of Cloudflare's; no loopback, private or future-use
    address counts as public, and every address of Cloudflare does. *)
Theorem IsPublicIp_IsCloudflareIp_networks x :
  0 <= x < 2 ^ 32 ->
  IsPublicIp x = negb (in_networks special x) /\
  IsCloudflareIp x = in_networks cloudflare x /\
  (CategorizeIp x = kIpLoopback \/ CategorizeIp x = kIpPrivate \/ CategorizeIp x = kIpFuture ->
   IsPublicIp x = false) /\
  (IsCloudflareIp x = true -> IsPublicIp x = true).
Proof.
  intros Hx. split; [|split; [|split]].
  - revert x Hx. apply (stepwise_eq IsPublicIp (fun x => negb (in_networks special x))).
    vm_compute. reflexivity.
  - revert x Hx. apply (stepwise_eq IsCloudflareIp (in_networks cloudflare)).
    vm_compute. reflexivity.
  - intros H. apply (not_public x Hx). by destruct H as [-> | [-> | ->]].
  - apply (cloudflare_public x Hx).
Qed.

Lemma IsPublicIp_IsCloudflareIp_networks_witness :
  IsPublicIp 0xAC1FFFFF = false /\ IsPublicIp 0x68100001 = true.
Proof.
  split.
  - apply (IsPublicIp_IsCloudflareIp_networks 0xAC1FFFFF ltac:(split; [lia|reflexivity])).
    right. left. vm_compute. reflexivity.
  - apply (IsPublicIp_IsCloudflareIp_networks 0x68100001 ltac:(split; [lia|reflexivity])).
    vm_compute. reflexivity.
Defined.
