(* ===== verification/TokenBucket.v ===== *)
(** Token buckets (net/http/tokenbucket.c): the replenishing of eight signed buckets at once
    in a 64-bit word, the acquisition of a token, and what happens when threads interleave. *)

From S2P Require Import Prelude.

(* ------------------------------------------------------------------ *)
(** ** Definitions *)

(** Memory is an array of bytes; [w[j]] is the little-endian word of eight of them and
    [b[i]] is a signed byte. *)
Definition load_word (m : bytes) (j : nat) : Z := pack (take 8 (drop (8 * j) m)).
Definition store_word (m : bytes) (j : nat) (w : Z) : bytes :=
  take (8 * j) m ++ unpack 8 w ++ drop (8 * j + 8) m.

(** [d], computed from the word that was loaded; [None] is [continue]. *)
Definition replenish_step (a : Z) : option Z :=
  if a =? 0x7f7f7f7f7f7f7f7f then None
  else
    let b := 0x8080808080808080 in
    let c := Z.lxor 0x7f7f7f7f7f7f7f7f a in
    Some (Z.shiftr (Z.lxor (Z.land (u64 (Z.lor (Z.shiftr c 1) b - c)) b) b) 7).

(** [atomic_fetch_add] on a word. *)
Definition fetch_add_word (m : bytes) (j : nat) (d : Z) : bytes :=
  store_word m j (u64 (load_word m j + d)).

(** The loop, with nothing else running; [k] words are left. *)
Fixpoint replenish_loop (k j : nat) (m : bytes) : bytes :=
  match k with
  | O => m
  | S k =>
      replenish_loop k (S j)
        (match replenish_step (load_word m j) with
         | None => m
         | Some d => fetch_add_word m j d
         end)
  end.

Definition ReplenishTokens (m : bytes) (n : nat) : bytes := replenish_loop n 0 m.

(** [atomic_load] and [atomic_fetch_add(b + i, -1)] on a signed byte. *)
Definition load_byte (m : bytes) (i : nat) : Z := s8 (nth i m 0).
Definition dec_byte (m : bytes) (i : nat) : bytes := <[i := u8 (nth i m 0 - 1)]> m.

Definition bucket (x c : Z) : nat := Z.to_nat (Z.shiftr x (32 - c)).

Definition AcquireToken (m : bytes) (x c : Z) : Z * bytes :=
  let i := bucket x c in
  let t := load_byte m i in
  if t <=? 0 then (t, m) else (load_byte m i, dec_byte m i).

Definition CountTokens (m : bytes) (x c : Z) : Z := load_byte m (bucket x c).

(* ------------------------------------------------------------------ *)
(** ** Threads *)

(** An acquiring thread is between calls, or has seen a positive bucket and is about to
    decrement it. The replenishing thread has loaded a word or has not. *)
Inductive worker := Idle | Loaded (i : nat).
Inductive refiller := Resting | Adding (j : nat) (d : Z).

Record system := System { mem : bytes; workers : list worker; refill : refiller }.

Inductive step (c : Z) : system -> system -> Prop :=
| step_load m ws r k x :
    ws !! k = Some Idle -> 0 <= x < 2 ^ 32 ->
    step c (System m ws r)
      (System m (if load_byte m (bucket x c) <=? 0 then ws else <[k := Loaded (bucket x c)]> ws) r)
| step_dec m ws r k i :
    ws !! k = Some (Loaded i) ->
    step c (System m ws r) (System (dec_byte m i) (<[k := Idle]> ws) r)
| step_refill_load m ws j :
    (8 * j + 8 <= length m)%nat ->
    step c (System m ws Resting)
      (System m ws (match replenish_step (load_word m j) with
                    | None => Resting | Some d => Adding j d end))
| step_refill_add m ws j d :
    step c (System m ws (Adding j d)) (System (fetch_add_word m j d) ws Resting).

Inductive reachable (c : Z) (s0 : system) : system -> Prop :=
| reach_refl : reachable c s0 s0
| reach_step s s' : reachable c s0 s -> step c s s' -> reachable c s0 s'.

(** One more token, up to 127. *)
Definition refilled (v : Z) : Z := if v =? 127 then 127 else v + 1.

Example token_1 : ReplenishTokens [0; 127; 126; 5; 128; 127; 1; 2] 1 = [1; 127; 127; 6; 129; 127; 2; 3].
Proof. reflexivity. Qed.
Example token_2 : AcquireToken [0; 3; 127; 0] 0x40000001 2 = (3, [0; 2; 127; 0]).
Proof. reflexivity. Qed.

(* ------------------------------------------------------------------ *)
(** ** Lemmas: eight bytes in a word *)

Lemma pack_half l : Bytes l ->
  Z.lor (Z.shiftr (pack l) 1) (pack (map (fun _ => 128) l)) = pack (map (fun v => 128 + v / 2) l).
Proof.
  induction 1 as [|v l Hv Bl IH]; [done|]. cbn [map pack]. rewrite <- IH.
  assert (is_byte (128 + v / 2)) as Hh.
  { unfold is_byte in *. assert (0 <= v / 2 < 128) by (split; [apply Z.div_pos|apply Z.div_lt_upper_bound]; lia). lia. }
  assert (forall i, 0 <= i < 8 -> Z.testbit (128 + v / 2) i = (i =? 7) || Z.testbit v (i + 1)) as T.
  { intros i Hi. pose proof (forall_byte (fun v => forallb (fun i => Bool.eqb (Z.testbit (128 + v / 2) i)
      ((i =? 7) || Z.testbit v (i + 1))) (zbelow 8)) ltac:(vm_compute; reflexivity) v Hv) as F.
    cbv beta in F. pose proof (forall_below 8 _ F i ltac:(lia)) as G. by apply eqb_prop in G. }
  apply Z.bits_inj'. intros i Hi. rewrite Z.lor_spec, Z.shiftr_spec by done.
  rewrite (testbit_lane v _ (i + 1)) by (done || lia). rewrite !testbit_lane by (done || lia).
  rewrite Z.lor_spec. destruct (Z.ltb_spec i 8) as [L|L].
  - rewrite T by lia. destruct (Z.eqb_spec i 7) as [->|N].
    + cbn. by rewrite orb_true_r.
    + rewrite (proj2 (Z.ltb_lt (i + 1) 8)) by lia.
      pose proof (forall_below 8 (fun i => (i =? 7) || negb (Z.testbit 128 i)) ltac:(vm_compute; reflexivity) i ltac:(lia)) as G.
      cbv beta in G. rewrite (proj2 (Z.eqb_neq i 7) N) in G. apply negb_true_iff in G.
      rewrite G. apply orb_false_r.
  - rewrite (proj2 (Z.ltb_ge (i + 1) 8)) by lia. rewrite Z.shiftr_spec by lia.
    by replace (i + 1 - 8) with (i - 8 + 1) by lia.
Qed.

Lemma pack_sub (g h : Z -> Z) l : pack (map g l) - pack (map h l) = pack (map (fun v => g v - h v) l).
Proof. induction l as [|v l IH]; [done|]. cbn [map pack]. lia. Qed.

Lemma pack_add (g h : Z -> Z) l : pack (map g l) + pack (map h l) = pack (map (fun v => g v + h v) l).
Proof. induction l as [|v l IH]; [done|]. cbn [map pack]. lia. Qed.

Lemma pack_scale (g : Z -> Z) k l : pack (map (fun v => k * g v) l) = k * pack (map g l).
Proof. induction l as [|v l IH]; [cbn; lia|]. cbn [map pack]. lia. Qed.

Lemma pack_ext (g h : Z -> Z) l :
  Bytes l -> (forall v, is_byte v -> g v = h v) -> pack (map g l) = pack (map h l).
Proof. intros B E. induction B as [|v l Hv _ IH]; [done|]. cbn [map pack]. by rewrite IH, E. Qed.

Lemma Bytes_map (g : Z -> Z) l : Bytes l -> (forall v, is_byte v -> is_byte (g v)) -> Bytes (map g l).
Proof. induction 1; intros H1; cbn; constructor; auto. Qed.

Lemma pack_u64 l : Bytes l -> length l = 8%nat -> u64 (pack l) = pack l.
Proof. intros B L. apply u64_id. pose proof (pack_range l B) as R. rewrite L in R. exact R. Qed.

Lemma zip_with_map2 {A} (op : A -> A -> A) (g h : A -> A) l :
  zip_with op (map g l) (map h l) = map (fun v => op (g v) (h v)) l.
Proof. induction l; [done|]. cbn. by f_equal. Qed.

Lemma pack_map_op (op : Z -> Z -> Z) f (g h : Z -> Z) l :
  (forall a b i, Z.testbit (op a b) i = f (Z.testbit a i) (Z.testbit b i)) ->
  (forall a b, is_byte a -> is_byte b -> is_byte (op a b)) ->
  op 0 0 = 0 -> Bytes l -> (forall v, is_byte v -> is_byte (g v)) -> (forall v, is_byte v -> is_byte (h v)) ->
  op (pack (map g l)) (pack (map h l)) = pack (map (fun v => op (g v) (h v)) l).
Proof.
  intros S B Z0 Bl Bg Bh. rewrite (pack_op op f S B Z0), zip_with_map2; [done|..].
  - by apply Bytes_map.
  - by apply Bytes_map.
  - by rewrite !length_map.
Qed.

Lemma byte_128 : is_byte 128.
Proof. unfold is_byte. lia. Qed.
Lemma byte_127 : is_byte 127.
Proof. unfold is_byte. lia. Qed.

(** The lanes of [d]: one in every bucket that is not full. *)
Definition deficit (v : Z) : Z := if v =? 127 then 0 else 1.

Lemma const_lanes k (l : bytes) : length l = 8%nat ->
  pack (map (fun _ => k) l) = k * 0x0101010101010101.
Proof. do 8 (destruct l as [|? l]; [done|]). destruct l; [cbn; lia|done]. Qed.

Lemma replenish_deficit l : Bytes l -> length l = 8%nat ->
  replenish_step (pack l) =
  if bool_decide (Forall (fun v => v = 127) l) then None else Some (pack (map deficit l)).
Proof.
  intros B L. unfold replenish_step.
  assert (0x7f7f7f7f7f7f7f7f = pack (map (fun _ => 127) l)) as E7 by (by rewrite const_lanes).
  assert (0x8080808080808080 = pack (map (fun _ => 128) l)) as E8 by (by rewrite const_lanes).
  rewrite E7, E8. clear E7 E8.
  assert (bool_decide (Forall (fun v => v = 127) l) = (pack l =? pack (map (fun _ => 127) l))) as ->.
  { case_bool_decide as H.
    - symmetry. apply Z.eqb_eq. clear B L. induction H as [|v l -> _ IH]; [done|]. cbn [pack map]. by rewrite <- IH.
    - symmetry. apply Z.eqb_neq. intros E. apply H. apply (f_equal (unpack 8)) in E.
      rewrite <- L in E at 1. rewrite unpack_pack in E by done.
      replace 8%nat with (length (map (fun _ : Z => 127) l)) in E by (by rewrite length_map).
      rewrite unpack_pack in E by (apply Bytes_map; [done|intros; apply byte_127]).
      rewrite E. clear. induction l; cbn; constructor; done. }
  destruct (pack l =? pack (map (fun _ => 127) l)); [done|]. f_equal.
  assert (forall (P : Z -> bool), forallb P (zbelow 256) = true -> forall v, is_byte v -> P v = true) as FB
    by (intros P HP v Hv; by apply forall_byte).
  assert (Z.lxor (pack (map (fun _ => 127) l)) (pack l) = pack (map (Z.lxor 127) l)) as ->.
  { rewrite <- (map_id l) at 2. by rewrite (pack_map_op Z.lxor xorb (fun _ => 127) id); auto using Z.lxor_spec, lxor_byte, byte_127. }
  set (c := map (Z.lxor 127) l).
  assert (Bytes c) as Bc by (apply Bytes_map; [done|intros; apply lxor_byte; [unfold is_byte; lia|done]]).
  assert (length c = 8%nat) as Lc by (subst c; by rewrite length_map).
  assert (map (fun _ : Z => 128) l = map (fun _ => 128) c) as -> by (subst c; by rewrite map_map).
  rewrite pack_half by done. rewrite <- (map_id c) at 2. rewrite pack_sub.
  assert (forall v, is_byte v -> is_byte (128 + v / 2 - v)) as Sub.
  { intros v Hv. pose proof (FB (fun v => (0 <=? 128 + v / 2 - v) && (128 + v / 2 - v <? 256))
      ltac:(vm_compute; reflexivity) v Hv) as G. cbv beta in G. unfold is_byte. lia. }
  rewrite pack_u64 by (rewrite ?length_map; try done; by apply Bytes_map).
  rewrite (pack_map_op Z.land andb) by auto using Z.land_spec, land_byte, byte_128.
  rewrite (pack_map_op Z.lxor xorb) by auto using Z.lxor_spec, lxor_byte, land_byte, byte_128.
  rewrite (pack_ext _ (fun v => 128 * (if v =? 0 then 0 else 1)) c Bc).
  2:{ intros v Hv. apply Z.eqb_eq. revert v Hv. apply FB. vm_compute. reflexivity. }
  rewrite pack_scale, Z.shiftr_div_pow2 by lia. change (2 ^ 7) with 128.
  rewrite Z.mul_comm, Z.div_mul by lia. subst c. rewrite map_map. apply pack_ext; [done|].
  intros v Hv. apply Z.eqb_eq. revert v Hv. apply FB. vm_compute. reflexivity.
Qed.

(* ------------------------------------------------------------------ *)
(** ** Lemmas: words of the memory *)

Lemma pack_zip_add l : forall r, length l = length r -> pack l + pack r = pack (zip_with Z.add l r).
Proof.
  induction l as [|a l IH]; intros [|b r] L; try done. cbn [pack zip_with]. cbn in L.
  rewrite <- (IH r) by lia. lia.
Qed.

Definition lanes (m : bytes) (j : nat) : bytes := take 8 (drop (8 * j) m).

Lemma lanes_length m j : (8 * j + 8 <= length m)%nat -> length (lanes m j) = 8%nat.
Proof. intros H. unfold lanes. rewrite length_take, length_drop. lia. Qed.

Lemma lanes_split m j : m = take (8 * j) m ++ lanes m j ++ drop (8 * j + 8) m.
Proof.
  unfold lanes. rewrite <- (drop_drop m 8 (8 * j)), take_drop. by rewrite take_drop.
Qed.

(** An addition to a word whose lanes do not overflow. *)
Lemma fetch_add_lanes m j ds :
  (8 * j + 8 <= length m)%nat -> length ds = 8%nat -> Bytes (zip_with Z.add (lanes m j) ds) ->
  fetch_add_word m j (pack ds) =
  take (8 * j) m ++ zip_with Z.add (lanes m j) ds ++ drop (8 * j + 8) m.
Proof.
  intros H L B. unfold fetch_add_word, load_word, store_word. fold (lanes m j).
  pose proof (lanes_length m j H) as Ll. rewrite pack_zip_add by lia.
  assert (length (zip_with Z.add (lanes m j) ds) = 8%nat) as Lz by (rewrite length_zip_with; lia).
  rewrite pack_u64 by done. pose proof (unpack_pack _ B) as U. rewrite Lz in U. by rewrite U.
Qed.

Lemma Bytes_lanes m j : Bytes m -> Bytes (lanes m j).
Proof. intros B. by apply Forall_take, Forall_drop. Qed.

Lemma zip_deficit l : zip_with Z.add l (map deficit l) = map refilled l.
Proof.
  induction l as [|v l IH]; [done|]. cbn [map zip_with]. rewrite IH. f_equal.
  unfold deficit, refilled. destruct (Z.eqb_spec v 127); lia.
Qed.

Lemma refilled_byte v : is_byte v -> v <> 255 -> is_byte (refilled v) /\ refilled v <> 0.
Proof. unfold is_byte, refilled. intros. destruct (Z.eqb_spec v 127); lia. Qed.

(** One round of the loop. *)
Lemma replenish_word m j :
  Bytes m -> (8 * j + 8 <= length m)%nat -> Forall (fun v => v <> 255) (lanes m j) ->
  match replenish_step (load_word m j) with None => m | Some d => fetch_add_word m j d end =
  take (8 * j) m ++ map refilled (lanes m j) ++ drop (8 * j + 8) m.
Proof.
  intros B H N. pose proof (lanes_length m j H) as L. unfold load_word. fold (lanes m j).
  rewrite replenish_deficit by (done || by apply Bytes_lanes). case_bool_decide as F.
  - rewrite (lanes_split m j) at 1. do 2 f_equal. clear -F.
    induction F as [|v l -> _ IH]; [done|]. cbn. by f_equal.
  - rewrite fetch_add_lanes; rewrite ?length_map, ?zip_deficit; try done.
    pose proof (Bytes_lanes m j B) as Bl. clear -Bl N.
    induction Bl as [|v l Hv _ IH]; cbn; constructor; apply Forall_cons in N as [N1 N2].
    + by apply refilled_byte.
    + by apply IH.
Qed.

Lemma replenish_loop_spec k : forall j m,
  Bytes m -> (8 * (j + k) <= length m)%nat -> Forall (fun v => v <> 255) (drop (8 * j) m) ->
  replenish_loop k j m =
  take (8 * j) m ++ map refilled (take (8 * k) (drop (8 * j) m)) ++ drop (8 * (j + k)) m.
Proof.
  induction k as [|k IH]; intros j m B L N; cbn [replenish_loop].
  - rewrite Nat.mul_0_r, take_0, Nat.add_0_r. cbn. by rewrite take_drop.
  - pose proof (lanes_length m j ltac:(lia)) as Ll.
    assert (Forall (fun v => v <> 255) (lanes m j)) as Nl by (by apply Forall_take).
    rewrite replenish_word by (done || lia).
    set (m' := take (8 * j) m ++ map refilled (lanes m j) ++ drop (8 * j + 8) m).
    assert (length (take (8 * j) m) = 8 * j)%nat as Lt by (rewrite length_take; lia).
    assert (take (8 * S j) m' = take (8 * j) m ++ map refilled (lanes m j)) as Et.
    { subst m'. rewrite app_assoc, take_app_length'; [done|]. rewrite length_app, length_map. lia. }
    assert (drop (8 * S j) m' = drop (8 * j + 8) m) as Ed.
    { subst m'. rewrite app_assoc, drop_app_length'; [done|]. rewrite length_app, length_map. lia. }
    rewrite IH.
    + rewrite Et, Ed. rewrite <- app_assoc.
      assert (drop (8 * (S j + k)) m' = drop (8 * (j + S k)) m) as ->.
      { replace (8 * (S j + k))%nat with (8 * S j + 8 * k)%nat by lia.
        rewrite <- drop_drop, Ed, drop_drop. f_equal. lia. }
      f_equal. rewrite app_assoc. f_equal. rewrite <- map_app. f_equal. unfold lanes.
      replace (8 * S k)%nat with (8 + 8 * k)%nat by lia. by rewrite <- take_take_drop, drop_drop.
    + subst m'. rewrite !Forall_app. split; [by apply Forall_take|]. split; [|by apply Forall_drop].
      pose proof (Bytes_lanes m j B) as Bl. clear -Bl Nl.
      induction Bl as [|v l Hv _ IHl]; cbn; constructor; apply Forall_cons in Nl as [N1 N2];
        [by apply refilled_byte|by apply IHl].
    + subst m'. rewrite !length_app, length_map, length_drop. lia.
    + rewrite Ed. rewrite <- drop_drop. by apply Forall_drop.
Qed.

(* ------------------------------------------------------------------ *)
(** ** Lemmas: one acquiring and one replenishing thread *)

Abbreviation Tokens := (Forall (fun v => 0 <= v <= 127)).

(** [d] is still small enough for the buckets, which can only have shrunk since the load. *)
Definition refill_ok (m : bytes) (r : refiller) : Prop :=
  match r with
  | Resting => True
  | Adding j d => (8 * j + 8 <= length m)%nat /\
      exists ds, d = pack ds /\ length ds = 8%nat /\
        Forall2 (fun v e => 0 <= e /\ v + e <= 127) (lanes m j) ds
  end.

Definition worker_ok (m : bytes) (w : worker) : Prop :=
  match w with Idle => True | Loaded i => (i < length m)%nat /\ 1 <= nth i m 0 end.

Record safe (size : nat) (s : system) : Prop := {
  safe_tokens : Tokens (mem s);
  safe_size : length (mem s) = size;
  safe_workers : exists w, workers s = [w] /\ worker_ok (mem s) w;
  safe_refill : refill_ok (mem s) (refill s) }.

Lemma Tokens_nth m i : Tokens m -> 0 <= nth i m 0 <= 127.
Proof. intros H. revert i. induction H as [|v m Hv _ IH]; intros [|i]; cbn [nth]; try lia; done. Qed.

Lemma load_byte_tokens m i : Tokens m -> load_byte m i = nth i m 0.
Proof.
  intros H. pose proof (Tokens_nth m i H). unfold load_byte, s8. rewrite Z.mod_small by lia. lia.
Qed.

Lemma bucket_range x c : 0 <= x < 2 ^ 32 -> 1 <= c <= 32 -> (bucket x c < Z.to_nat (2 ^ c))%nat.
Proof.
  intros Hx Hc. unfold bucket. rewrite Z.shiftr_div_pow2 by lia.
  assert (0 < 2 ^ (32 - c)) by (apply Z.pow_pos_nonneg; lia).
  assert (x / 2 ^ (32 - c) < 2 ^ c).
  { apply Z.div_lt_upper_bound; [lia|]. rewrite <- Z.pow_add_r by lia.
    replace (32 - c + c) with 32 by lia. lia. }
  assert (0 <= x / 2 ^ (32 - c)) by (apply Z.div_pos; lia). lia.
Qed.

Lemma Forall2_weaken_l {A B} (P : A -> B -> Prop) l l' k :
  Forall2 P l k -> (forall i a, l !! i = Some a -> exists a', l' !! i = Some a' /\ forall b, P a b -> P a' b) ->
  length l' = length l -> Forall2 P l' k.
Proof.
  intros F H L. apply Forall2_same_length_lookup_2; [pose proof (Forall2_length _ _ _ F); lia|].
  intros i a' b Ha Hb. destruct (lookup_lt_is_Some_2 l i) as [a Ea].
  { rewrite <- L. eapply lookup_lt_Some. exact Ha. }
  destruct (H i a Ea) as (a'' & Ea'' & P'). rewrite Ha in Ea''. simplify_eq. apply P'.
  by eapply Forall2_lookup_lr.
Qed.

(** Taking a token from a bucket keeps a pending refill valid. *)
Lemma refill_ok_dec m r i :
  Tokens m -> (i < length m)%nat -> 1 <= nth i m 0 -> refill_ok m r -> refill_ok (dec_byte m i) r.
Proof.
  intros T Hi H1 R. destruct r as [|j d]; [done|]. destruct R as (L & ds & -> & Ld & F).
  unfold dec_byte. split; [by rewrite length_insert|]. exists ds. split; [done|]. split; [done|].
  pose proof (Tokens_nth m i T) as Ti. unfold u8. rewrite Z.mod_small by lia.
  assert (length (lanes (<[i:=nth i m 0 - 1]> m) j) = length (lanes m j)) as Ll
    by (rewrite !lanes_length; rewrite ?length_insert; lia).
  apply (Forall2_weaken_l _ _ _ _ F); [|done].
  intros k a Ea. unfold lanes in *. apply lookup_take_Some in Ea as [Ea Hk]. rewrite lookup_drop in Ea.
  destruct (decide (i = (8 * j + k)%nat)) as [->|N].
  - exists (a - 1). rewrite lookup_take_lt, lookup_drop, list_lookup_insert_eq by lia.
    rewrite (nth_lookup_Some _ _ _ _ Ea). split; [done|]. intros b [? ?]. lia.
  - exists a. rewrite lookup_take_lt, lookup_drop, list_lookup_insert_ne by (done || lia). done.
Qed.

Lemma Tokens_dec m i : Tokens m -> 1 <= nth i m 0 -> Tokens (dec_byte m i).
Proof.
  intros T H. apply Forall_insert; [done|]. pose proof (Tokens_nth m i T). unfold u8.
  rewrite Z.mod_small by lia. lia.
Qed.

Lemma Tokens_Bytes m : Tokens m -> Bytes m.
Proof. intros H. eapply Forall_impl; [exact H|]. unfold is_byte. cbn. lia. Qed.

(** A pending refill that is carried out keeps every bucket within bounds and takes nothing
    from any. *)
Lemma refill_tokens m j d :
  Tokens m -> refill_ok m (Adding j d) ->
  Tokens (fetch_add_word m j d) /\ length (fetch_add_word m j d) = length m /\
  (forall i, nth i m 0 <= nth i (fetch_add_word m j d) 0).
Proof.
  intros T (L & ds & -> & Ld & F). pose proof (lanes_length m j L) as Ll.
  assert (Tokens (lanes m j)) as Tl by (by apply Forall_take, Forall_drop).
  assert (Tokens (zip_with Z.add (lanes m j) ds) /\
          (forall i, nth i (lanes m j) 0 <= nth i (zip_with Z.add (lanes m j) ds) 0)) as [Tz Ge].
  { clear -Tl F. induction F as [|v e l ds [H0 H1] _ IH]; cbn [zip_with]; [done|].
    apply Forall_cons in Tl as [Hv Tl]. destruct (IH Tl) as [IH1 IH2].
    split; [constructor; [lia|done]|]. intros [|i]; cbn [nth]; [lia|done]. }
  rewrite fetch_add_lanes by (done || by apply Tokens_Bytes).
  assert (length (zip_with Z.add (lanes m j) ds) = 8%nat) as Lz by (rewrite length_zip_with; lia).
  split; [|split].
  - rewrite !Forall_app. split; [by apply Forall_take|]. split; [done|by apply Forall_drop].
  - rewrite !length_app, length_take, length_drop. lia.
  - intros i. rewrite (lanes_split m j) at 1.
    assert (length (take (8 * j) m) = 8 * j)%nat as Lt by (rewrite length_take; lia).
    destruct (decide (i < 8 * j)%nat); [rewrite !app_nth1 by lia; lia|].
    rewrite !(app_nth2 (take (8 * j) m)) by lia. rewrite Lt.
    destruct (decide (i - 8 * j < 8)%nat).
    + rewrite !(app_nth1 _ (drop (8 * j + 8) m)) by lia. apply Ge.
    + rewrite !app_nth2 by lia. rewrite Lz, Ll. lia.
Qed.

Lemma refill_ok_load m j :
  Tokens m -> (8 * j + 8 <= length m)%nat ->
  refill_ok m (match replenish_step (load_word m j) with None => Resting | Some d => Adding j d end).
Proof.
  intros T H. unfold load_word. fold (lanes m j). pose proof (lanes_length m j H) as L.
  assert (Tokens (lanes m j)) as Tl by (by apply Forall_take, Forall_drop).
  rewrite replenish_deficit by (done || by apply Tokens_Bytes). case_bool_decide; [done|].
  split; [done|]. exists (map deficit (lanes m j)). split; [done|]. split; [by rewrite length_map|].
  clear -Tl. induction Tl as [|v l Hv _ IH]; cbn; constructor; [|done].
  unfold deficit. destruct (Z.eqb_spec v 127); lia.
Qed.

Lemma safe_step c size s s' :
  1 <= c <= 32 -> Z.to_nat (2 ^ c) = size -> safe size s -> step c s s' -> safe size s'.
Proof.
  intros Hc Hs [T L (w & Ew & W) R] St.
  destruct St as [m ws r k x Hk Hx|m ws r k i Hk|m ws j Hj|m ws j d]; cbn [mem workers refill] in *; subst ws.
  - assert (k = 0%nat /\ w = Idle) as [-> ->] by (destruct k; [by simplify_eq/=|by destruct k]).
    constructor; cbn [mem workers refill]; try done. rewrite load_byte_tokens by done.
    destruct (Z.leb_spec (nth (bucket x c) m 0) 0); [by exists Idle|].
    exists (Loaded (bucket x c)). split; [done|]. cbn. pose proof (bucket_range x c Hx Hc). split; lia.
  - assert (k = 0%nat /\ w = Loaded i) as [-> ->] by (destruct k; [by simplify_eq/=|by destruct k]).
    destruct W as [W1 W2]. constructor; cbn [mem workers refill].
    + by apply Tokens_dec.
    + unfold dec_byte. by rewrite length_insert.
    + by exists Idle.
    + by apply refill_ok_dec.
  - constructor; cbn [mem workers refill]; try done; [by exists w|by apply refill_ok_load].
  - destruct (refill_tokens m j d T R) as (T' & L' & G).
    constructor; cbn [mem workers refill]; [done|lia| |done]. exists w. split; [done|].
    destruct w as [|i]; [done|]. destruct W as [W1 W2]. split; [lia|]. specialize (G i). lia.
Qed.

(* ------------------------------------------------------------------ *)
(** ** Properties *)

(** [ReplenishTokens] is exact as long as no bucket holds -1: the eight buckets of every
    word each gain one token and stop at 127, whatever the others hold, and memory behind the
    [n] words is not touched. *)
Theorem ReplenishTokens_lanes m n :
  Bytes m -> (8 * n <= length m)%nat -> Forall (fun v => v <> 255) m ->
  ReplenishTokens m n = map refilled (take (8 * n) m) ++ drop (8 * n) m.
Proof. intros B L N. apply (replenish_loop_spec n 0 m B); [lia|done]. Qed.

Lemma ReplenishTokens_lanes_witness :
  ReplenishTokens [0; 127; 126; 5; 128; 127; 1; 2; 9] 1 = [1; 127; 127; 6; 129; 127; 2; 3; 9].
Proof.
  apply (ReplenishTokens_lanes [0; 127; 126; 5; 128; 127; 1; 2; 9] 1);
    [decide_now|cbn; lia|decide_now].
Defined.

(** C34: While one thread acquires and one replenishes, every interleaving of their atomic
    steps keeps each bucket between 0 and 127 and a thread that was let through decrements a
    bucket that still has a token. *)
Theorem tokens_one_acquirer c m0 s :
  1 <= c <= 32 -> Z.of_nat (length m0) = 2 ^ c -> Forall (fun v => 0 <= v <= 127) m0 ->
  reachable c (System m0 [Idle] Resting) s ->
  (forall i, (i < length m0)%nat -> 0 <= load_byte (mem s) i <= 127) /\
  (forall k i, workers s !! k = Some (Loaded i) -> 1 <= load_byte (mem s) i).
Proof.
  intros Hc L0 T0 R. assert (safe (length m0) s) as [T L (w & Ew & W) _].
  { induction R as [|s s' _ IH St].
    - constructor; cbn; [done|done|by exists Idle|done].
    - apply (safe_step c _ s s'); [done|lia|done|done]. }
  split.
  - intros i _. rewrite load_byte_tokens by done. by apply Tokens_nth.
  - intros k i E. rewrite Ew in E. destruct k; [|by destruct k]. cbn in E. simplify_eq. destruct W as [_ W].
    by rewrite load_byte_tokens.
Qed.

Lemma tokens_one_acquirer_witness :
  0 <= load_byte (dec_byte [1; 0; 0; 0; 0; 0; 0; 127] 0) 7 <= 127.
Proof.
  refine (proj1 (tokens_one_acquirer 3 [1; 0; 0; 0; 0; 0; 0; 127]
    (System (dec_byte [1; 0; 0; 0; 0; 0; 0; 127] 0) [Idle] Resting)
    ltac:(lia) ltac:(reflexivity) ltac:(decide_now) _) 7%nat ltac:(cbn; lia)).
  eapply reach_step; [eapply reach_step; [apply reach_refl|]|].
  - apply (step_load 3 _ _ _ 0 5); [reflexivity|lia].
  - exact (step_dec 3 _ [Loaded 0] Resting 0 0 eq_refl).
Defined.

(** Two acquiring threads can both pass the test of a bucket with one token and leave -1
    behind; the next refill then carries into the neighbouring bucket, and a full bucket
    becomes -128. *)
Theorem tokens_two_acquirers_defect :
  let m0 := [1; 127; 0; 0; 0; 0; 0; 0] in
  exists s, reachable 3 (System m0 [Idle; Idle] Resting) s /\
    load_byte (mem s) 0 = 0 /\ load_byte (mem s) 1 = -128.
Proof.
  intros m0.
  pose proof (reach_refl 3 (System m0 [Idle; Idle] Resting)) as R.
  pose proof (reach_step _ _ _ _ R (step_load 3 m0 [Idle; Idle] Resting 0 5 eq_refl ltac:(lia))) as R1.
  pose proof (reach_step _ _ _ _ R1 (step_load 3 m0 [Loaded 0; Idle] Resting 1 5 eq_refl ltac:(lia))) as R2.
  pose proof (reach_step _ _ _ _ R2 (step_dec 3 m0 [Loaded 0; Loaded 0] Resting 0 0 eq_refl)) as R3.
  pose proof (reach_step _ _ _ _ R3 (step_dec 3 [0; 127; 0; 0; 0; 0; 0; 0] [Idle; Loaded 0] Resting 1 0 eq_refl)) as R4.
  pose proof (reach_step _ _ _ _ R4 (step_refill_load 3 [255; 127; 0; 0; 0; 0; 0; 0] [Idle; Idle] 0 ltac:(cbn; lia))) as R5.
  pose proof (reach_step _ _ _ _ R5 (step_refill_add 3 [255; 127; 0; 0; 0; 0; 0; 0] [Idle; Idle] 0 0x0101010101010001)) as R6.
  eexists. split; [exact R6|]. by vm_compute.
Qed.
