(* ===== verification/Dates.v ===== *)
(** Timestamps: net/http/formathttpdatetime.c, net/http/parsehttpdatetime.c,
    libc/str/dosdatetimetounix.c, libc/time/iso8601.c and libc/time/iso8601us.c. *)

From S2P Require Import Prelude.

(* ------------------------------------------------------------------ *)
(** ** Definitions *)

(** The fields of [struct tm] that these functions read. *)
Record tm := Tm {
  tm_sec : Z; tm_min : Z; tm_hour : Z; tm_mday : Z; tm_mon : Z; tm_year : Z; tm_wday : Z }.

Definition kWeekdayNameShort : list bytes :=
  [bstr "Sun"; bstr "Mon"; bstr "Tue"; bstr "Wed"; bstr "Thu"; bstr "Fri"; bstr "Sat"].

Definition kMonthNameShort : list bytes :=
  [bstr "Jan"; bstr "Feb"; bstr "Mar"; bstr "Apr"; bstr "May"; bstr "Jun"; bstr "Jul"; bstr "Aug";
   bstr "Sep"; bstr "Oct"; bstr "Nov"; bstr "Dec"].

Definition kMonthYearDay : list (list Z) :=
  [ [0; 31; 59; 90; 120; 151; 181; 212; 243; 273; 304; 334];
    [0; 31; 60; 91; 121; 152; 182; 213; 244; 274; 305; 335] ].

(** [MIN(MAX(x, lo), hi)] *)
Definition clamp (lo hi x : Z) : Z := Z.min (Z.max x lo) hi.

(** [*p++ = '0' + k;] *)
Definition digit (k : Z) : Z := u8 (48 + k).
Definition digits2 (i : Z) : bytes := [digit (i / 10); digit (i mod 10)].
Definition digits4 (i : Z) : bytes :=
  [digit (i / 1000); digit (i / 100 mod 10); digit (i / 10 mod 10); digit (i mod 10)].

(** The bytes written to [p], with the NUL. *)
Definition FormatHttpDateTime (t : tm) : bytes :=
  nth (Z.to_nat (tm_wday t)) kWeekdayNameShort [] ++ bstr ", " ++
  digits2 (clamp 1 31 (tm_mday t)) ++ bstr " " ++
  nth (Z.to_nat (clamp 0 11 (tm_mon t))) kMonthNameShort [] ++ bstr " " ++
  digits4 (clamp 0 9999 (s32 (tm_year t + 1900))) ++ bstr " " ++
  digits2 (clamp 0 23 (tm_hour t)) ++ bstr ":" ++
  digits2 (clamp 0 59 (tm_min t)) ++ bstr ":" ++
  digits2 (clamp 0 59 (tm_sec t)) ++ bstr " GMT" ++ [0].

(** [READ32LE(p)] *)
Definition READ32LE (p : bytes) : Z :=
  tab p 0 + 256 * tab p 1 + 65536 * tab p 2 + 16777216 * tab p 3.

(** The loop from month [i] on; [names] are the months that are left. *)
Fixpoint parse_month (p : bytes) (i : Z) (names : list bytes) : Z :=
  match names with
  | [] => 1
  | name :: names =>
      if Z.land (READ32LE p) 0x00ffffff =? READ32LE (name ++ [0]) then i + 1
      else parse_month p (i + 1) names
  end.

Definition ParseMonth (p : bytes) : Z := parse_month p 0 kMonthNameShort.

(** [year % 4 == 0 && (year % 100 || year % 400 == 0)] *)
Definition leap (year : Z) : bool :=
  (year mod 4 =? 0) && (negb (year mod 100 =? 0) || (year mod 400 =? 0)).

(** The last two statements of [ParseHttpDateTime] and of [DosDateTimeToUnix]: [year] counts
    from 1900, [month] from 1 and [day] from 0; all are [unsigned]. *)
Definition to_unix (year month day hour minute second : Z) : Z :=
  let yday := u32 (day + tab (nth (if leap year then 1 else 0) kMonthYearDay []) (month - 1)) in
  s64 (u64 (u32 (second + minute * 60 + hour * 3600 + yday * 86400) +
            u32 (year - 70) * 31536000 + u32 (year - 69) / 4 * 86400 -
            u32 (year - 1) / 100 * 86400 + u32 (year + 299) / 400 * 86400)).

Definition ParseHttpDateTime (p : option bytes) (n : Z) : Z :=
  let p := strarg p n in
  if negb (Z.of_nat (length p) =? 29) then 0
  else
    let ch i := s8 (tab p i) - 48 in
    let day := u32 (ch 5 * 10 + ch 6 - 1) in
    let month := ParseMonth (drop 8 p) in
    let year := u32 (ch 12 * 1000 + ch 13 * 100 + ch 14 * 10 + ch 15 - 1900) in
    let hour := u32 (ch 17 * 10 + ch 18) in
    let minute := u32 (ch 20 * 10 + ch 21) in
    let second := u32 (ch 23 * 10 + ch 24) in
    to_unix year month day hour minute second.

Definition DosDateTimeToUnix (date time : Z) : Z :=
  let year := u32 (Z.shiftr (Z.land date 0xfffffe00) 9 + 1980 - 1900) in
  let month := Z.max 1 (Z.min 12 (Z.shiftr (Z.land date 0x01e0) 5)) in
  let day := if negb (Z.land date 0x001f =? 0) then Z.land date 0x001f - 1 else 0 in
  let hour := Z.shiftr (Z.land time 0x0000f800) 11 in
  let minute := Z.shiftr (Z.land time 0x000007e0) 5 in
  let second := Z.shiftl (Z.land time 0x0000001f) 1 in
  to_unix year month day hour minute second.

(** [None] is a failed [unassert]. *)
Definition unassert (b : bool) : option unit := if b then Some () else None.

(** The characters, without the NUL. *)
Definition iso8601 (t : tm) : option bytes :=
  let x := s32 (tm_year t + 1900) in
  unassert ((0 <=? x) && (x <=? 9999)) ≫= fun _ =>
  let year := digits4 x in
  let x := s32 (tm_mon t + 1) in
  unassert ((1 <=? x) && (x <=? 12)) ≫= fun _ =>
  let mon := digits2 x in
  let x := tm_mday t in
  unassert ((1 <=? x) && (x <=? 31)) ≫= fun _ =>
  let mday := digits2 x in
  let x := tm_hour t in
  unassert ((0 <=? x) && (x <=? 23)) ≫= fun _ =>
  let hour := digits2 x in
  let x := tm_min t in
  unassert ((0 <=? x) && (x <=? 59)) ≫= fun _ =>
  let min := digits2 x in
  let x := tm_sec t in
  unassert ((0 <=? x) && (x <=? 60)) ≫= fun _ =>
  Some (year ++ bstr "-" ++ mon ++ bstr "-" ++ mday ++ bstr "T" ++ hour ++ bstr ":" ++ min ++
        bstr ":" ++ digits2 x).

Definition iso8601us (t : tm) (ns : Z) : option bytes :=
  p ← iso8601 t;
  unassert ((0 <=? ns) && (ns <? 1000000000)) ≫= fun _ =>
  Some (p ++ bstr "." ++
        [digit (ns / 100000000); digit (ns / 10000000 mod 10); digit (ns / 1000000 mod 10);
         digit (ns / 100000 mod 10); digit (ns / 10000 mod 10); digit (ns / 1000 mod 10)]).

Example dates_1 : FormatHttpDateTime (Tm 10 50 19 4 9 120 0) =
  bstr "Sun, 04 Oct 2020 19:50:10 GMT" ++ [0].
Proof. reflexivity. Qed.
Example dates_2 : ParseHttpDateTime (Some (bstr "Sun, 04 Oct 2020 19:50:10 GMT")) 29 = 1601841010.
Proof. reflexivity. Qed.
Example dates_3 : iso8601us (Tm 15 14 13 1 0 120 3) 123456789 = Some (bstr "2020-01-01T13:14:15.123456").
Proof. reflexivity. Qed.
Example dates_4 : DosDateTimeToUnix 0x4f57 0x0000 = 1571788800.
Proof. reflexivity. Qed.

(* ------------------------------------------------------------------ *)
(** ** The contract: the Gregorian calendar *)

Definition leap_days (Y : Z) : Z := if leap Y then 1 else 0.
Definition year_days (Y : Z) : Z := 365 + leap_days Y.

(** The days of month [m], counted from 0. *)
Definition month_days (Y m : Z) : Z :=
  if m =? 1 then 28 + leap_days Y
  else if (m =? 3) || (m =? 5) || (m =? 8) || (m =? 10) then 30 else 31.

(** The days from 1970 to the start of the [n]-th year behind it. *)
Fixpoint days_of_years (n : nat) : Z :=
  match n with O => 0 | S n => days_of_years n + year_days (1970 + Z.of_nat n) end.

Fixpoint days_of_months (Y : Z) (m : nat) : Z :=
  match m with O => 0 | S m => days_of_months Y m + month_days Y (Z.of_nat m) end.

(** Seconds since the epoch of a date of the calendar. *)
Definition calendar_seconds (t : tm) : Z :=
  let Y := tm_year t + 1900 in
  (days_of_years (Z.to_nat (Y - 1970)) + days_of_months Y (Z.to_nat (tm_mon t)) + tm_mday t - 1) * 86400 +
  tm_hour t * 3600 + tm_min t * 60 + tm_sec t.

Record tm_ok (t : tm) : Prop := {
  ok_year : 70 <= tm_year t <= 8099;
  ok_mon : 0 <= tm_mon t < 12;
  ok_mday : 1 <= tm_mday t <= month_days (tm_year t + 1900) (tm_mon t);
  ok_hour : 0 <= tm_hour t < 24;
  ok_min : 0 <= tm_min t < 60;
  ok_sec : 0 <= tm_sec t < 60;
  ok_wday : 0 <= tm_wday t < 7 }.

(** The years for which the leap rule may be applied to the years since 1900. *)
Definition leap_agrees (t : tm) : Prop :=
  tm_mon t < 2 \/ ((tm_year t + 1900) mod 400 <> 0 /\ (tm_year t + 1900) mod 400 <> 300).

(* ------------------------------------------------------------------ *)
(** ** Lemmas: the calendar *)

Lemma div_succ a d : 0 < d -> (a + 1) / d = a / d + (if (a + 1) mod d =? 0 then 1 else 0).
Proof.
  intros Hd. pose proof (Z.div_mod a d ltac:(lia)). pose proof (Z.mod_pos_bound a d Hd).
  pose proof (Z.div_mod (a + 1) d ltac:(lia)). pose proof (Z.mod_pos_bound (a + 1) d Hd).
  destruct (Z.eqb_spec ((a + 1) mod d) 0); nia.
Qed.

Lemma mod_shift a b d k : 0 < d -> b = a + k * d -> b mod d = a mod d.
Proof. intros Hd ->. apply Z.mod_add. lia. Qed.

(** Every year of the 400th is one of the 100th, and those are fourth years. *)
Lemma leap_count Y : leap_days Y =
  (if Y mod 4 =? 0 then 1 else 0) - (if Y mod 100 =? 0 then 1 else 0) + (if Y mod 400 =? 0 then 1 else 0).
Proof.
  unfold leap_days, leap.
  assert (Y mod 400 = 0 -> Y mod 100 = 0) as H1.
  { intros H. pose proof (Z.div_mod Y 400 ltac:(lia)). replace Y with (0 + (4 * (Y / 400)) * 100) by lia.
    rewrite Z.mod_add by lia. done. }
  assert (Y mod 100 = 0 -> Y mod 4 = 0) as H2.
  { intros H. pose proof (Z.div_mod Y 100 ltac:(lia)). replace Y with (0 + (25 * (Y / 100)) * 4) by lia.
    rewrite Z.mod_add by lia. done. }
  destruct (Z.eqb_spec (Y mod 400) 0), (Z.eqb_spec (Y mod 100) 0), (Z.eqb_spec (Y mod 4) 0);
    cbn; lia.
Qed.

(** The closed form in the code. *)
Lemma days_closed n :
  let y := Z.of_nat n + 70 in
  days_of_years n = (y - 70) * 365 + (y - 69) / 4 - (y - 1) / 100 + (y + 299) / 400.
Proof.
  cbv zeta. induction n as [|n IH]; [reflexivity|]. cbn [days_of_years]. rewrite IH.
  unfold year_days. rewrite leap_count. set (y := Z.of_nat n + 70).
  replace (Z.of_nat (S n) + 70 - 69) with ((y - 69) + 1) by lia.
  replace (Z.of_nat (S n) + 70 - 1) with ((y - 1) + 1) by lia.
  replace (Z.of_nat (S n) + 70 + 299) with ((y + 299) + 1) by lia.
  rewrite !div_succ by lia.
  rewrite (mod_shift (y - 69 + 1) (1970 + Z.of_nat n) 4 492) by lia.
  rewrite (mod_shift (y - 1 + 1) (1970 + Z.of_nat n) 100 19) by lia.
  rewrite (mod_shift (y + 299 + 1) (1970 + Z.of_nat n) 400 4) by lia. lia.
Qed.

Lemma month_table Y m :
  0 <= m < 12 ->
  tab (nth (if leap Y then 1 else 0) kMonthYearDay []) m = days_of_months Y (Z.to_nat m).
Proof.
  intros Hm. assert (m ∈ zbelow 12) as H.
  { unfold zbelow. apply list_elem_of_In, in_map_iff. exists (Z.to_nat m). split; [lia|]. apply in_seq. lia. }
  revert H. change (zbelow 12) with [0; 1; 2; 3; 4; 5; 6; 7; 8; 9; 10; 11]. rewrite !elem_of_cons, elem_of_nil.
  intros H.
  repeat (destruct H as [->|H];
    [cbv -[leap]; destruct (leap Y); reflexivity|]).
  destruct H.
Qed.

Lemma month_days_range Y m : 28 <= month_days Y m <= 31.
Proof.
  unfold month_days, leap_days. destruct (m =? 1); [destruct (leap Y); lia|].
  destruct ((m =? 3) || _ || _ || _); lia.
Qed.

Lemma days_of_months_bound Y m : 0 <= days_of_months Y m <= 31 * Z.of_nat m.
Proof. induction m as [|m IH]; cbn [days_of_months]; [lia|]. pose proof (month_days_range Y (Z.of_nat m)). lia. Qed.

(** The number of a month does not depend on leap years before March. *)
Lemma days_of_months_leap Y Y' m :
  0 <= m < 12 -> m < 2 \/ leap Y = leap Y' ->
  days_of_months Y (Z.to_nat m) = days_of_months Y' (Z.to_nat m).
Proof.
  intros Hm [H|H].
  - assert (m = 0 \/ m = 1) as [->| ->] by lia; reflexivity.
  - rewrite <- !month_table by done. by rewrite H.
Qed.

(** The century rule commutes with the shift by 1900 years except in two years of 400. *)
Lemma leap_1900 Y : Y mod 400 <> 0 -> Y mod 400 <> 300 -> leap (Y - 1900) = leap Y.
Proof.
  intros H0 H3. unfold leap.
  rewrite (mod_shift (Y - 1900) Y 4 475), (mod_shift (Y - 1900) Y 100 19) by lia.
  rewrite (proj2 (Z.eqb_neq _ _) H0), orb_false_r.
  destruct (Z.eqb_spec ((Y - 1900) mod 400) 0) as [E|E]; [|by rewrite orb_false_r].
  exfalso. apply H3. pose proof (Z.div_mod (Y - 1900) 400 ltac:(lia)) as D.
  assert (Y = 300 + (4 + (Y - 1900) / 400) * 400) as -> by lia. by rewrite Z.mod_add by lia.
Qed.

(** The tail of the code against the calendar. *)
Lemma to_unix_calendar t :
  tm_ok t -> leap_agrees t ->
  to_unix (tm_year t) (tm_mon t + 1) (tm_mday t - 1) (tm_hour t) (tm_min t) (tm_sec t) =
  calendar_seconds t.
Proof.
  intros [Hy Hm Hd Hh Hmi Hs Hw] A. unfold to_unix, calendar_seconds.
  replace (tm_mon t + 1 - 1) with (tm_mon t) by lia. rewrite month_table by done.
  rewrite (days_of_months_leap (tm_year t) (tm_year t + 1900) (tm_mon t)); [|done|].
  2:{ destruct A as [A|[A1 A2]]; [by left|right]. rewrite <- (leap_1900 (tm_year t + 1900)) by done. f_equal. lia. }
  pose proof (days_of_months_bound (tm_year t + 1900) (Z.to_nat (tm_mon t))) as M.
  pose proof (month_days_range (tm_year t + 1900) (tm_mon t)) as R.
  set (D := days_of_months (tm_year t + 1900) (Z.to_nat (tm_mon t))) in *. clearbody D.
  replace (tm_year t + 1900 - 1970) with (tm_year t - 70) by lia.
  pose proof (days_closed (Z.to_nat (tm_year t - 70))) as C. cbv zeta in C.
  replace (Z.of_nat (Z.to_nat (tm_year t - 70)) + 70) with (tm_year t) in C by lia. rewrite C.
  rewrite !(u32_id (tm_year t - _)), (u32_id (tm_year t + 299)), (u32_id (tm_mday t - 1 + D)) by lia.
  rewrite u32_id by lia.
  pose proof (Z.div_pos (tm_year t - 69) 4 ltac:(lia) ltac:(lia)).
  pose proof (Z.div_pos (tm_year t - 1) 100 ltac:(lia) ltac:(lia)).
  pose proof (Z.div_pos (tm_year t + 299) 400 ltac:(lia) ltac:(lia)).
  assert ((tm_year t - 1) / 100 <= tm_year t - 70) as L1.
  { pose proof (Z.div_mod (tm_year t - 1) 100 ltac:(lia)). pose proof (Z.mod_pos_bound (tm_year t - 1) 100 ltac:(lia)). lia. }
  assert ((tm_year t - 69) / 4 <= tm_year t) as L2 by (apply Z.div_le_upper_bound; lia).
  assert ((tm_year t + 299) / 400 <= tm_year t) as L3 by (apply Z.div_le_upper_bound; lia).
  rewrite u64_id by lia. unfold s64. rewrite Z.mod_small by lia. lia.
Qed.

(* ------------------------------------------------------------------ *)
(** ** Lemmas: printed fields *)

Lemma digit_value k : 0 <= k <= 9 -> s8 (digit k) - 48 = k.
Proof.
  intros H. unfold digit. rewrite u8_id by lia. unfold s8. rewrite Z.mod_small by lia. lia.
Qed.

Lemma clamp_id lo hi x : lo <= x <= hi -> clamp lo hi x = x.
Proof. unfold clamp. lia. Qed.

Lemma two_digits i : 0 <= i <= 99 ->
  (s8 (digit (i / 10)) - 48) * 10 + (s8 (digit (i mod 10)) - 48) = i.
Proof.
  intros H. pose proof (Z.div_mod i 10 ltac:(lia)). pose proof (Z.mod_pos_bound i 10 ltac:(lia)).
  rewrite !digit_value by lia. lia.
Qed.

(** The four digits of a year. *)
Lemma year_digits i : 0 <= i <= 9999 ->
  0 <= i / 1000 <= 9 /\ 0 <= i / 100 mod 10 <= 9 /\ 0 <= i / 10 mod 10 <= 9 /\ 0 <= i mod 10 <= 9 /\
  i = i / 1000 * 1000 + i / 100 mod 10 * 100 + i / 10 mod 10 * 10 + i mod 10.
Proof.
  intros H. pose proof (Z.div_mod i 10 ltac:(lia)) as E1. pose proof (Z.mod_pos_bound i 10 ltac:(lia)).
  pose proof (Z.div_mod (i / 10) 10 ltac:(lia)) as E2. pose proof (Z.mod_pos_bound (i / 10) 10 ltac:(lia)).
  pose proof (Z.div_mod (i / 100) 10 ltac:(lia)) as E3. pose proof (Z.mod_pos_bound (i / 100) 10 ltac:(lia)).
  assert (i / 10 / 10 = i / 100) as E4 by (by rewrite Z.div_div by lia).
  assert (i / 100 / 10 = i / 1000) as E5 by (by rewrite Z.div_div by lia). lia.
Qed.

Lemma month_name m : 0 <= m < 12 ->
  exists a b c, nth (Z.to_nat m) kMonthNameShort [] = [a; b; c] /\
    forall l, ParseMonth (a :: b :: c :: 32 :: l) = m + 1.
Proof.
  intros Hm. assert (In m (zbelow 12)) as H.
  { unfold zbelow. apply in_map_iff. exists (Z.to_nat m). split; [lia|]. apply in_seq. lia. }
  revert H. change (zbelow 12) with [0; 1; 2; 3; 4; 5; 6; 7; 8; 9; 10; 11].
  intros H. repeat (destruct H as [<-|H]; [eexists _, _, _; split; reflexivity|]). destruct H.
Qed.

Lemma weekday_name w : 0 <= w < 7 -> exists a b c, nth (Z.to_nat w) kWeekdayNameShort [] = [a; b; c].
Proof.
  intros Hw. assert (In w (zbelow 7)) as H.
  { unfold zbelow. apply in_map_iff. exists (Z.to_nat w). split; [lia|]. apply in_seq. lia. }
  revert H. change (zbelow 7) with [0; 1; 2; 3; 4; 5; 6].
  intros H. repeat (destruct H as [<-|H]; [eexists _, _, _; reflexivity|]). destruct H.
Qed.

Lemma parse_format t : tm_ok t ->
  ParseHttpDateTime (Some (FormatHttpDateTime t)) 29 =
  to_unix (tm_year t) (tm_mon t + 1) (tm_mday t - 1) (tm_hour t) (tm_min t) (tm_sec t).
Proof.
  intros [Hy Hm Hd Hh Hmi Hs Hw]. pose proof (month_days_range (tm_year t + 1900) (tm_mon t)) as R.
  unfold FormatHttpDateTime. rewrite (s32_id (tm_year t + 1900)), !clamp_id by lia.
  destruct (weekday_name _ Hw) as (w1 & w2 & w3 & ->).
  destruct (month_name _ Hm) as (m1 & m2 & m3 & -> & PM).
  unfold digits2, digits4, ParseHttpDateTime. cbn [app].
  rewrite strarg_len by (unfold SIZE_MAX; lia). change (Z.to_nat 29) with 29%nat. cbn [take length].
  change (negb (Z.of_nat 29 =? 29)) with false. cbv iota. cbn [drop]. rewrite PM.
  destruct (year_digits (tm_year t + 1900) ltac:(lia)) as (Y1 & Y2 & Y3 & Y4 & EY).
  unfold tab.
  repeat match goal with |- context [Z.to_nat (Zpos ?p)] =>
    let v := eval vm_compute in (Z.to_nat (Zpos p)) in change (Z.to_nat (Zpos p)) with v end.
  cbn [nth].
  rewrite !two_digits by lia. rewrite !digit_value by done.
  rewrite (u32_id (tm_mday t - 1)), (u32_id (tm_hour t)), (u32_id (tm_min t)), (u32_id (tm_sec t)) by lia.
  rewrite u32_id by lia. f_equal. lia.
Qed.

(* ------------------------------------------------------------------ *)
(** ** Lemmas: order of the printed form *)

(** The last [w] decimal digits of a number. *)
Fixpoint decimal (w : nat) (x : Z) : bytes :=
  match w with O => [] | S w => decimal w (x / 10) ++ [digit (x mod 10)] end.

Lemma digit_compare j k : 0 <= j <= 9 -> 0 <= k <= 9 -> (digit j ?= digit k) = (j ?= k).
Proof.
  intros Hj Hk. unfold digit. rewrite !u8_id by lia.
  destruct (Z.compare_spec j k); [apply Z.compare_eq_iff|apply Z.compare_lt_iff|apply Z.compare_gt_iff]; lia.
Qed.

Lemma lex_decimal w : forall x y l r,
  0 <= x < 10 ^ Z.of_nat w -> 0 <= y < 10 ^ Z.of_nat w ->
  lex (decimal w x ++ l) (decimal w y ++ r) = then_compare (x ?= y) (lex l r).
Proof.
  induction w as [|w IH]; intros x y l r Hx Hy.
  - change (10 ^ Z.of_nat 0) with 1 in *. replace x with 0 by lia. replace y with 0 by lia. done.
  - rewrite Nat2Z.inj_succ, Z.pow_succ_r in Hx, Hy by lia. cbn [decimal]. rewrite <- !app_assoc. cbn [app].
    pose proof (Z.div_mod x 10 ltac:(lia)) as Ex. pose proof (Z.mod_pos_bound x 10 ltac:(lia)) as Bx.
    pose proof (Z.div_mod y 10 ltac:(lia)) as Ey. pose proof (Z.mod_pos_bound y 10 ltac:(lia)) as By.
    rewrite IH by lia. cbn [lex]. rewrite digit_compare by lia. unfold then_compare.
    destruct (Z.compare_spec (x / 10) (y / 10)), (Z.compare_spec (x mod 10) (y mod 10)),
      (Z.compare_spec x y); lia || done.
Qed.

Lemma digits2_decimal x : 0 <= x <= 99 -> digits2 x = decimal 2 x.
Proof.
  intros H. unfold digits2. cbn [decimal app]. do 2 f_equal. symmetry. apply Z.mod_small.
  pose proof (Z.div_mod x 10 ltac:(lia)). pose proof (Z.mod_pos_bound x 10 ltac:(lia)). lia.
Qed.

Lemma digits4_decimal x : 0 <= x <= 9999 -> digits4 x = decimal 4 x.
Proof.
  intros H. destruct (year_digits x H) as (B & _). unfold digits4. cbn [decimal app].
  rewrite !Z.div_div by lia. change (10 * 10) with 100. change (100 * 10) with 1000.
  by rewrite (Z.mod_small (x / 1000)) by lia.
Qed.

Lemma micros_decimal ns : 0 <= ns < 1000000000 ->
  [digit (ns / 100000000); digit (ns / 10000000 mod 10); digit (ns / 1000000 mod 10);
   digit (ns / 100000 mod 10); digit (ns / 10000 mod 10); digit (ns / 1000 mod 10)] =
  decimal 6 (ns / 1000).
Proof.
  intros H. cbn [decimal app]. rewrite !Z.div_div by lia. cbn [Z.mul Pos.mul].
  rewrite (Z.mod_small (ns / 100000000)); [done|].
  split; [apply Z.div_pos; lia|apply Z.div_lt_upper_bound; lia].
Qed.

(** What the [unassert]s accept. *)
Record iso_ok (t : tm) (ns : Z) : Prop := {
  iso_year : 0 <= tm_year t + 1900 <= 9999;
  iso_mon : 0 <= tm_mon t <= 11;
  iso_mday : 1 <= tm_mday t <= 31;
  iso_hour : 0 <= tm_hour t <= 23;
  iso_min : 0 <= tm_min t <= 59;
  iso_sec : 0 <= tm_sec t <= 60;
  iso_ns : 0 <= ns < 1000000000 }.

Lemma unassert_true b : b = true -> unassert b = Some ().
Proof. by intros ->. Qed.

Lemma iso8601us_text t ns : iso_ok t ns ->
  iso8601us t ns = Some (
    decimal 4 (tm_year t + 1900) ++ 45 :: decimal 2 (tm_mon t + 1) ++ 45 :: decimal 2 (tm_mday t) ++
    84 :: decimal 2 (tm_hour t) ++ 58 :: decimal 2 (tm_min t) ++ 58 :: decimal 2 (tm_sec t) ++
    46 :: decimal 6 (ns / 1000)).
Proof.
  intros [Hy Hm Hd Hh Hmi Hs Hn]. unfold iso8601us, iso8601. rewrite !s32_id by lia.
  rewrite !unassert_true by lia. cbn [mbind option_bind]. f_equal.
  rewrite digits4_decimal, !digits2_decimal, micros_decimal by lia.
  rewrite <- !app_assoc. done.
Qed.

(** The instants that the text resolves: microseconds. *)
Definition iso_key (t : tm) (ns : Z) : list Z :=
  [tm_year t; tm_mon t; tm_mday t; tm_hour t; tm_min t; tm_sec t; ns / 1000].

Lemma compare_add a b k : (a + k ?= b + k) = (a ?= b).
Proof.
  destruct (Z.compare_spec a b); [apply Z.compare_eq_iff|apply Z.compare_lt_iff|apply Z.compare_gt_iff]; lia.
Qed.

(* ------------------------------------------------------------------ *)
(** ** Properties *)

(** C39: Printing and parsing an HTTP date give back the seconds that the Gregorian calendar
    counts from 1970, for every valid date from 1970 to 9999 outside March to December of
    the years that are 0 or 300 modulo 400. *)
Theorem ParseHttpDateTime_FormatHttpDateTime t :
  tm_ok t -> leap_agrees t ->
  length (FormatHttpDateTime t) = 30%nat /\
  ParseHttpDateTime (Some (FormatHttpDateTime t)) 29 = calendar_seconds t.
Proof.
  intros W A. split.
  - unfold FormatHttpDateTime, digits2, digits4. destruct (ok_wday t W), (ok_mon t W).
    destruct (weekday_name (tm_wday t)) as (? & ? & ? & ->); [lia|]. rewrite (clamp_id 0 11) by lia.
    destruct (month_name (tm_mon t)) as (? & ? & ? & -> & _); [lia|]. done.
  - rewrite parse_format by done. by apply to_unix_calendar.
Qed.

Lemma ParseHttpDateTime_FormatHttpDateTime_witness :
  ParseHttpDateTime (Some (bstr "Sun, 04 Oct 2020 19:50:10 GMT" ++ [0])) 29 = 1601841010.
Proof.
  refine (eq_trans (proj2 (ParseHttpDateTime_FormatHttpDateTime (Tm 10 50 19 4 9 120 0) _ _)) _).
  - constructor; vm_compute; intuition congruence.
  - right. split; vm_compute; congruence.
  - vm_compute. reflexivity.
Defined.

(** In March 2000 the leap day is missing: the rule for centuries is applied to the years
    since 1900. *)
Theorem ParseHttpDateTime_2000_defect :
  let t := Tm 0 0 0 1 2 100 3 in
  tm_ok t /\ ParseHttpDateTime (Some (FormatHttpDateTime t)) 29 = calendar_seconds t - 86400 /\
  DosDateTimeToUnix 0x2861 0 = calendar_seconds t - 86400.
Proof. split; [constructor; vm_compute; intuition congruence|]. split; vm_compute; reflexivity. Qed.

(** [iso8601us] accepts every broken-down time in range and prints 26 characters whose
    order as strings is the order in time, to the microsecond. *)
Theorem iso8601us_order a b n m :
  iso_ok a n -> iso_ok b m ->
  exists s t, iso8601us a n = Some s /\ iso8601us b m = Some t /\
    length s = 26%nat /\ lex s t = lex (iso_key a n) (iso_key b m).
Proof.
  intros A B. rewrite !iso8601us_text by done. eexists _, _. split; [done|]. split; [done|].
  split; [reflexivity|]. destruct A as [Ay Am Ad Ah Ami As An], B as [By Bm Bd Bh Bmi Bs Bn].
  assert (forall ns, 0 <= ns < 1000000000 -> 0 <= ns / 1000 < 10 ^ Z.of_nat 6) as Us.
  { intros ns H. change (10 ^ Z.of_nat 6) with 1000000.
    split; [apply Z.div_pos; lia|apply Z.div_lt_upper_bound; lia]. }
  repeat (rewrite lex_decimal by (cbn [Z.of_nat]; lia); cbn [lex]; rewrite ?Z.compare_refl; cbn [then_compare]).
  rewrite <- (app_nil_r (decimal 6 (n / 1000))), <- (app_nil_r (decimal 6 (m / 1000))).
  rewrite lex_decimal by (by apply Us). rewrite !compare_add. done.
Qed.

Lemma iso8601us_order_witness :
  exists s t, iso8601us (Tm 15 14 13 1 0 120 3) 999999 = Some s /\
    iso8601us (Tm 16 14 13 1 0 120 3) 0 = Some t /\ length s = 26%nat /\ lex s t = Lt.
Proof.
  apply (iso8601us_order (Tm 15 14 13 1 0 120 3) (Tm 16 14 13 1 0 120 3) 999999 0);
    constructor; cbn; lia.
Defined.
