(* ===== verification/Types.v ===== *)
(** Tables that are searched by bisection (net/http/findcontenttype.c, isnocompressext.c,
    gethttpreason.c) and recognisers of tokens, cookie values and media types
    (net/http/isvalidhttptoken.c, isvalidcookievalue.c, ismimetype.c). *)

From S2P Require Import Prelude Tables.

(* ------------------------------------------------------------------ *)
(** ** Definitions *)

Definition kContentTypeExtension : list (bytes * bytes) := [
    (bstr "7z", bstr "application/x-7z-compressed");
    (bstr "aac", bstr "audio/aac");
    (bstr "apng", bstr "image/apng");
    (bstr "atom", bstr "application/atom+xml");
    (bstr "avi", bstr "video/x-msvideo");
    (bstr "avif", bstr "image/avif");
    (bstr "azw", bstr "application/vnd.amazon.ebook");
    (bstr "bmp", bstr "image/bmp");
    (bstr "bz2", bstr "application/x-bzip2");
    (bstr "c", bstr "text/plain");
    (bstr "cc", bstr "text/plain");
    (bstr "css", bstr "text/css");
    (bstr "csv", bstr "text/csv");
    (bstr "diff", bstr "text/plain");
    (bstr "diff", bstr "text/plain");
    (bstr "doc", bstr "application/msword");
    (bstr "epub", bstr "application/epub+zip");
    (bstr "gif", bstr "image/gif");
    (bstr "gz", bstr "application/gzip");
    (bstr "h", bstr "text/plain");
    (bstr "htm", bstr "text/html");
    (bstr "html", bstr "text/html");
    (bstr "i", bstr "text/plain");
    (bstr "ico", bstr "image/vnd.microsoft.icon");
    (bstr "jar", bstr "application/java-archive");
    (bstr "jpeg", bstr "image/jpeg");
    (bstr "jpg", bstr "image/jpeg");
    (bstr "js", bstr "text/javascript");
    (bstr "json", bstr "application/json");
    (bstr "m4a", bstr "audio/mpeg");
    (bstr "markdown", bstr "text/plain");
    (bstr "md", bstr "text/plain");
    (bstr "mid", bstr "audio/midi");
    (bstr "midi", bstr "audio/midi");
    (bstr "mjs", bstr "text/javascript");
    (bstr "mp2", bstr "audio/mpeg");
    (bstr "mp3", bstr "audio/mpeg");
    (bstr "mp4", bstr "video/mp4");
    (bstr "mpeg", bstr "video/mpeg");
    (bstr "mpg", bstr "video/mpeg");
    (bstr "oga", bstr "audio/ogg");
    (bstr "ogg", bstr "application/ogg");
    (bstr "ogv", bstr "video/ogg");
    (bstr "ogx", bstr "application/ogg");
    (bstr "otf", bstr "font/otf");
    (bstr "patch", bstr "text/plain");
    (bstr "pdf", bstr "application/pdf");
    (bstr "png", bstr "image/png");
    (bstr "rar", bstr "application/vnd.rar");
    (bstr "rtf", bstr "application/rtf");
    (bstr "s", bstr "text/plain");
    (bstr "sh", bstr "application/x-sh");
    (bstr "sqlite", bstr "application/vnd.sqlite3");
    (bstr "sqlite3", bstr "application/vnd.sqlite3");
    (bstr "svg", bstr "image/svg+xml");
    (bstr "swf", bstr "application/x-shockwave-flash");
    (bstr "t38", bstr "image/t38");
    (bstr "tar", bstr "application/x-tar");
    (bstr "tiff", bstr "image/tiff");
    (bstr "ttf", bstr "font/ttf");
    (bstr "txt", bstr "text/plain");
    (bstr "ul", bstr "audio/basic");
    (bstr "ulaw", bstr "audio/basic");
    (bstr "wasm", bstr "application/wasm");
    (bstr "wav", bstr "audio/x-wav");
    (bstr "weba", bstr "audio/webm");
    (bstr "webm", bstr "video/webm");
    (bstr "webp", bstr "image/webp");
    (bstr "woff", bstr "font/woff");
    (bstr "woff2", bstr "font/woff2");
    (bstr "wsdl", bstr "application/wsdl+xml");
    (bstr "xhtml", bstr "application/xhtml+xml");
    (bstr "xls", bstr "application/vnd.ms-excel");
    (bstr "xml", bstr "application/xml");
    (bstr "xsl", bstr "application/xslt+xml");
    (bstr "xslt", bstr "application/xslt+xml");
    (bstr "xz", bstr "application/x-xz");
    (bstr "z", bstr "application/zlib");
    (bstr "zip", bstr "application/zip");
    (bstr "zst", bstr "application/zstd") ].

Definition kNoCompressExts : list bytes := [
    bstr "bz2"; bstr "gif"; bstr "gz"; bstr "jpg"; bstr "lz4"; bstr "mp4";
    bstr "mpeg"; bstr "mpg"; bstr "png"; bstr "webp"; bstr "xz"; bstr "zip" ].

Definition kHttpReason : list (Z * bytes) := [
    (100, bstr "Continue");
    (101, bstr "Switching Protocols");
    (102, bstr "Processing");
    (200, bstr "OK");
    (201, bstr "Created");
    (202, bstr "Accepted");
    (203, bstr "Non-authoritative Information");
    (204, bstr "No Content");
    (205, bstr "Reset Content");
    (206, bstr "Partial Content");
    (207, bstr "Multi-Status");
    (208, bstr "Already Reported");
    (226, bstr "IM Used");
    (300, bstr "Multiple Choices");
    (301, bstr "Moved Permanently");
    (302, bstr "Found");
    (303, bstr "See Other");
    (304, bstr "Not Modified");
    (305, bstr "Use Proxy");
    (307, bstr "Temporary Redirect");
    (308, bstr "Permanent Redirect");
    (400, bstr "Bad Request");
    (401, bstr "Unauthorized");
    (402, bstr "Payment Required");
    (403, bstr "Forbidden");
    (404, bstr "Not Found");
    (405, bstr "Method Not Allowed");
    (406, bstr "Not Acceptable");
    (407, bstr "Proxy Authentication Required");
    (408, bstr "Request Timeout");
    (409, bstr "Conflict");
    (410, bstr "Gone");
    (411, bstr "Length Required");
    (412, bstr "Precondition Failed");
    (413, bstr "Payload Too Large");
    (414, bstr "Request-URI Too Long");
    (415, bstr "Unsupported Media Type");
    (416, bstr "Requested Range Not Satisfiable");
    (417, bstr "Expectation Failed");
    (418, bstr "I'm a teapot");
    (421, bstr "Misdirected Request");
    (422, bstr "Unprocessable Entity");
    (423, bstr "Locked");
    (424, bstr "Failed Dependency");
    (426, bstr "Upgrade Required");
    (428, bstr "Precondition Required");
    (429, bstr "Too Many Requests");
    (431, bstr "Request Header Fields Too Large");
    (444, bstr "Connection Closed Without Response");
    (451, bstr "Unavailable For Legal Reasons");
    (499, bstr "Client Closed Request");
    (500, bstr "Internal Server Error");
    (501, bstr "Not Implemented");
    (502, bstr "Bad Gateway");
    (503, bstr "Service Unavailable");
    (504, bstr "Gateway Timeout");
    (505, bstr "HTTP Version Not Supported");
    (506, bstr "Variant Also Negotiates");
    (507, bstr "Insufficient Storage");
    (508, bstr "Loop Detected");
    (510, bstr "Not Extended");
    (511, bstr "Network Authentication Required");
    (599, bstr "Network Connect Timeout Error") ].

(** An array of [char\[8\]]. *)
Definition pad8 (s : bytes) : bytes := take 8 (s ++ replicate 8 0).

(** [READ64BE(p)] of a field of eight bytes. *)
Definition read64be (p : bytes) : Z := pack (rev p).

Definition bswap_64 (x : Z) : Z :=
  Z.lor (Z.lor (Z.lor (Z.lor (Z.lor (Z.lor (Z.lor
    (u64 (Z.shiftl (Z.land 0x00000000000000ff x) 56))
    (u64 (Z.shiftl (Z.land 0x000000000000ff00 x) 40)))
    (u64 (Z.shiftl (Z.land 0x0000000000ff0000 x) 24)))
    (u64 (Z.shiftl (Z.land 0x00000000ff000000 x) 8)))
    (Z.shiftr (Z.land 0x000000ff00000000 x) 8))
    (Z.shiftr (Z.land 0x0000ff0000000000 x) 24))
    (Z.shiftr (Z.land 0x00ff000000000000 x) 40))
    (Z.shiftr (Z.land 0xff00000000000000 x) 56).

Section Bisect.
Context {A : Type} (table : list (Z * A)) (key : Z).

(** The loop that the three searches share: [m = (l & r) + ((l ^ r) >> 1)]. *)
Fixpoint bisect (fuel : nat) (l r : Z) : option (option A) :=
  if l <=? r then
    match fuel with
    | O => None
    | S fuel =>
        let m := Z.land l r + Z.shiftr (Z.lxor l r) 1 in
        match table !! Z.to_nat m with
        | None => None
        | Some (k, v) =>
            if k <? key then bisect fuel (m + 1) r
            else if k >? key then bisect fuel l (m - 1)
            else Some (Some v)
        end
    end
  else Some None.

(** [l = 0; r = ARRAYLEN(table) - 1;] Running out of fuel or of the table is [None]. *)
Definition search : option (option A) :=
  bisect (length table) 0 (Z.of_nat (length table) - 1).
End Bisect.

Definition BisectContentType (ext : Z) : option (option bytes) :=
  search (map (fun e => (read64be (pad8 e.1), e.2)) kContentTypeExtension) ext.

(** [for (w = 0; n--;)] over the bytes in reverse: [None] when there is no dot. *)
Fixpoint extension_word (w : Z) (l : bytes) : option Z :=
  match l with
  | [] => None
  | x :: l =>
      let c := Z.land x 255 in
      if c =? # "." then Some w
      else extension_word (Z.lor (u64 (Z.shiftl w 8)) (tab kToLower c)) l
  end.

Definition FindContentType (p : option bytes) (n : Z) : option (option bytes) :=
  match extension_word 0 (rev (strarg p n)) with
  | Some w => BisectContentType (bswap_64 w)
  | None => Some None
  end.

Definition BisectNoCompressExts (ext : Z) : option bool :=
  (fun o => match o with Some _ => true | None => false end) <$>
  search (map (fun e => (read64be (pad8 e), ())) kNoCompressExts) ext.

(** The loop of [IsNoCompressExt]: [None] is [return false]. *)
Fixpoint nocompress_word (i w : Z) (l : bytes) : option Z :=
  match l with
  | [] => Some w
  | x :: l =>
      let c := Z.land x 255 in
      if c =? # "." then Some w
      else if i + 1 >? 8 then None
      else nocompress_word (i + 1) (Z.lor (u64 (Z.shiftl w 8)) (tab kToLower c)) l
  end.

Definition IsNoCompressExt (p : option bytes) (n : Z) : option bool :=
  let l := strarg p n in
  if Z.of_nat (length l) =? 0 then Some false
  else match nocompress_word 0 0 (rev l) with
       | Some w => BisectNoCompressExts (bswap_64 w)
       | None => Some false
       end.

(** The empty string stands for an unknown code. *)
Definition GetHttpReason (code : Z) : option bytes :=
  (fun o => match o with Some name => name | None => [] end) <$> search kHttpReason code.

(** Whether [t] of [n] bytes is media type [s], a C string. *)
Fixpoint mime_loop (t s : bytes) : bool :=
  match t with
  | [] => hd 0 s =? 0
  | x :: t =>
      if hd 0 s =? 0 then tab kHttpToken (Z.land x 255) =? 0
      else if negb (tab kToLower (Z.land (hd 0 s) 255) =? tab kToLower (Z.land x 255)) then false
      else mime_loop t (tl s)
  end.

Definition IsMimeType (t : option bytes) (n : Z) (s : bytes) : bool := mime_loop (strarg t n) s.

Definition IsValidHttpToken (s : option bytes) (n : Z) : bool :=
  if n =? 0 then false
  else forallb (fun x => negb (tab kHttpToken (Z.land x 255) =? 0)) (strarg s n).

Definition IsCookieOctet (i : Z) : bool :=
  (0x20 <? i) && (i <? 0x7F) && negb (i =? # ",") && negb (i =? # ";") && negb (i =? 92) &&
  negb (i =? # " ") && negb (i =? 34).

Definition IsValidCookieValue (s : option bytes) (n : Z) : bool :=
  forallb IsCookieOctet (strarg s n).

Example types_1 : FindContentType (Some (bstr "/a/b.tar.GZ")) 11 = Some (Some (bstr "application/gzip")).
Proof. vm_compute. reflexivity. Qed.
Example types_2 : IsNoCompressExt (Some (bstr "x.jpg")) 5 = Some true.
Proof. vm_compute. reflexivity. Qed.
Example types_3 : GetHttpReason 404 = Some (bstr "Not Found").
Proof. vm_compute. reflexivity. Qed.

(* ------------------------------------------------------------------ *)
(** ** Lemmas: bisection *)

Fixpoint ascending (ks : list Z) : bool :=
  match ks with
  | k :: (k' :: _) as ks => (k <=? k') && ascending ks
  | _ => true
  end.

Lemma ascending_lookup ks : forall i j a b,
  ascending ks = true -> (i <= j)%nat -> ks !! i = Some a -> ks !! j = Some b -> a <= b.
Proof.
  induction ks as [|k ks IH]; intros i j a b H L Ha Hb; [done|].
  assert (ascending ks = true /\ forall b, ks !! 0%nat = Some b -> k <= b) as [H' K].
  { cbn [ascending] in H. destruct ks as [|k' ks]; [done|]. apply andb_true_iff in H as [H1 H2].
    split; [done|]. intros ? E. cbn in E. simplify_eq. lia. }
  destruct i as [|i], j as [|j]; try lia; cbn in Ha, Hb; simplify_eq; try lia.
  - destruct ks as [|k' ks]; [done|]. specialize (K k' eq_refl).
    specialize (IH 0%nat j k' b H' ltac:(lia) eq_refl Hb). lia.
  - by apply (IH i j a b H' ltac:(lia)).
Qed.

Section BisectSpec.
Context {A : Type} (table : list (Z * A)) (key : Z).
Context (Hsorted : ascending (map fst table) = true).

Lemma table_le i j a b : (i <= j)%nat -> table !! i = Some a -> table !! j = Some b -> a.1 <= b.1.
Proof.
  intros L Ha Hb. apply (ascending_lookup (map fst table) i j); [done|done|..];
    rewrite list_lookup_fmap; [by rewrite Ha|by rewrite Hb].
Qed.

Lemma bisect_spec fuel : forall l r,
  0 <= l -> r < Z.of_nat (length table) -> r - l + 1 <= Z.of_nat fuel ->
  (forall i e, table !! i = Some e -> Z.of_nat i < l -> e.1 < key) ->
  (forall i e, table !! i = Some e -> r < Z.of_nat i -> key < e.1) ->
  match bisect table key fuel l r with
  | Some (Some v) => (key, v) ∈ table
  | Some None => forall v, (key, v) ∉ table
  | None => False
  end.
Proof.
  induction fuel as [|fuel IH]; intros l r Hl Hr Hf Lo Hi.
  - cbn [bisect]. rewrite (proj2 (Z.leb_gt l r)) by lia. intros v E.
    apply list_elem_of_lookup in E as [i E].
    destruct (decide (Z.of_nat i < l)) as [L|L]; [specialize (Lo i _ E L)|specialize (Hi i _ E ltac:(lia))]; cbn in *; lia.
  - cbn [bisect]. destruct (Z.leb_spec l r) as [L|L].
    + rewrite midpoint. set (m := (l + r) / 2).
      assert (l <= m <= r) as Hm.
      { subst m. split; [apply Z.div_le_lower_bound; lia|apply Z.div_le_upper_bound; lia]. }
      destruct (lookup_lt_is_Some_2 table (Z.to_nat m)) as [[k v] E]; [lia|]. rewrite E.
      rewrite Z.gtb_ltb. destruct (Z.ltb_spec k key); [|destruct (Z.ltb_spec key k)].
      * apply IH; try lia; [|done]. intros i e Ei Li.
        pose proof (table_le i (Z.to_nat m) _ _ ltac:(lia) Ei E). cbn in *. lia.
      * apply IH; try lia; [done|]. intros i e Ei Li.
        pose proof (table_le (Z.to_nat m) i _ _ ltac:(lia) E Ei). cbn in *. lia.
      * assert (k = key) as -> by lia. by eapply list_elem_of_lookup_2.
    + intros v E. apply list_elem_of_lookup in E as [i E].
      destruct (decide (Z.of_nat i < l)) as [L'|L']; [specialize (Lo i _ E L')|specialize (Hi i _ E ltac:(lia))]; cbn in *; lia.
Qed.

(** The linear search that bisection replaces. *)
Fixpoint assoc (t : list (Z * A)) : option A :=
  match t with
  | [] => None
  | (k, v) :: t => if k =? key then Some v else assoc t
  end.

(** Equal keys come with equal values. *)
Definition functional (t : list (Z * A)) : Prop :=
  forall k v v', (k, v) ∈ t -> (k, v') ∈ t -> v = v'.

Lemma assoc_Some t v : functional t -> (key, v) ∈ t -> assoc t = Some v.
Proof.
  intros F H. induction t as [|[k v'] t IH]; [by apply elem_of_nil in H|]. cbn [assoc].
  destruct (Z.eqb_spec k key) as [->|N].
  - f_equal. apply (F key); [apply list_elem_of_here|done].
  - apply elem_of_cons in H as [E|H]; [congruence|]. apply IH; [|done].
    intros k0 a b Ha Hb. apply (F k0); by apply list_elem_of_further.
Qed.

Lemma assoc_None t : (forall v, (key, v) ∉ t) -> assoc t = None.
Proof.
  intros H. induction t as [|[k v'] t IH]; [done|]. cbn [assoc].
  destruct (Z.eqb_spec k key) as [->|N].
  - destruct (H v'). apply list_elem_of_here.
  - apply IH. intros v E. apply (H v). by apply list_elem_of_further.
Qed.

Lemma search_assoc : functional table -> search table key = Some (assoc table).
Proof.
  intros F. unfold search.
  assert (forall i e, table !! i = Some e -> Z.of_nat (length table) - 1 < Z.of_nat i -> key < e.1) as Hi
    by (intros i e E L; apply lookup_lt_Some in E; lia).
  pose proof (bisect_spec (length table) 0 (Z.of_nat (length table) - 1) ltac:(lia) ltac:(lia) ltac:(lia)
    ltac:(intros; lia) Hi) as S.
  destruct (bisect table key (length table) 0 (Z.of_nat (length table) - 1)) as [[v|]|]; [| |done].
  - by rewrite (assoc_Some _ v F S).
  - by rewrite (assoc_None _ S).
Qed.
End BisectSpec.

(** Deciding that a table is functional. *)
Fixpoint functional_b {A} `{EqDecision A} (t : list (Z * A)) : bool :=
  match t with
  | [] => true
  | (k, v) :: t => forallb (fun e => negb (e.1 =? k) || bool_decide (e.2 = v)) t && functional_b t
  end.

Lemma functional_b_ok {A} `{EqDecision A} (t : list (Z * A)) : functional_b t = true -> functional t.
Proof.
  induction t as [|[k v] t IH]; intros H; [by intros ? ? ? E; apply elem_of_nil in E|].
  cbn [functional_b] in H. apply andb_true_iff in H as [H1 H2]. specialize (IH H2).
  rewrite forallb_forall in H1.
  assert (forall v', (k, v') ∈ t -> v' = v) as K.
  { intros v' E. apply list_elem_of_In, H1 in E. cbn in E. rewrite Z.eqb_refl in E. cbn in E.
    by apply bool_decide_eq_true in E. }
  intros k0 a b Ha Hb. apply elem_of_cons in Ha as [Ha|Ha], Hb as [Hb|Hb]; simplify_eq; try done.
  - by rewrite (K b Hb).
  - by rewrite (K a Ha).
  - by apply (IH k0).
Qed.

(* ------------------------------------------------------------------ *)
(** ** Lemmas: extensions as words *)

(** A byte of a word, moved to another place. *)
Lemma land_field x k : 0 <= k -> Z.land (Z.shiftl 255 k) x = Z.shiftl (Z.land (Z.shiftr x k) 255) k.
Proof.
  intros Hk. apply Z.bits_inj'. intros i Hi. rewrite Z.land_spec, !Z.shiftl_spec by done.
  destruct (decide (i < k)).
  - by rewrite !(Z.testbit_neg_r _ (i - k)) by lia.
  - rewrite Z.land_spec, Z.shiftr_spec by lia. replace (i - k + k) with i by lia. apply andb_comm.
Qed.

Lemma pack_lor l r :
  Bytes l -> Bytes r -> length l = length r -> Z.lor (pack l) (pack r) = pack (zip_with Z.lor l r).
Proof. apply (pack_op Z.lor orb Z.lor_spec lor_byte eq_refl). Qed.

(** The bytes of [bswap_64]. *)
Lemma bswap_fields x :
  let f k := Z.land (Z.shiftr x (8 * k)) 255 in
  bswap_64 x = pack [f 7; f 6; f 5; f 4; f 3; f 2; f 1; f 0].
Proof.
  intros f.
  assert (forall k, 0 <= f k < 256) as B
    by (intros k; subst f; cbv beta; rewrite land_255; apply Z.mod_pos_bound; lia).
  assert (forall k, 0 <= k -> Z.land (Z.shiftl 255 (8 * k)) x = f k * 2 ^ (8 * k)) as F.
  { intros k Hk. rewrite land_field by lia. by rewrite Z.shiftl_mul_pow2 by lia. }
  unfold bswap_64.
  change 0x00000000000000ff with (Z.shiftl 255 (8 * 0)). change 0x000000000000ff00 with (Z.shiftl 255 (8 * 1)).
  change 0x0000000000ff0000 with (Z.shiftl 255 (8 * 2)). change 0x00000000ff000000 with (Z.shiftl 255 (8 * 3)).
  change 0x000000ff00000000 with (Z.shiftl 255 (8 * 4)). change 0x0000ff0000000000 with (Z.shiftl 255 (8 * 5)).
  change 0x00ff000000000000 with (Z.shiftl 255 (8 * 6)). change 0xff00000000000000 with (Z.shiftl 255 (8 * 7)).
  rewrite !F by lia. clearbody f. clear F.
  pose proof (B 0). pose proof (B 1). pose proof (B 2). pose proof (B 3).
  pose proof (B 4). pose proof (B 5). pose proof (B 6). pose proof (B 7).
  rewrite !Z.shiftl_mul_pow2, !Z.shiftr_div_pow2 by lia. cbn [Z.mul Pos.mul].
  rewrite !u64_id by lia.
  replace (f 0 * 2 ^ (8 * 0) * 2 ^ 56) with (pack [0; 0; 0; 0; 0; 0; 0; f 0]) by (cbn [pack]; lia).
  replace (f 1 * 2 ^ (8 * 1) * 2 ^ 40) with (pack [0; 0; 0; 0; 0; 0; f 1; 0]) by (cbn [pack]; lia).
  replace (f 2 * 2 ^ (8 * 2) * 2 ^ 24) with (pack [0; 0; 0; 0; 0; f 2; 0; 0]) by (cbn [pack]; lia).
  replace (f 3 * 2 ^ (8 * 3) * 2 ^ 8) with (pack [0; 0; 0; 0; f 3; 0; 0; 0]) by (cbn [pack]; lia).
  replace (f 4 * 2 ^ (8 * 4) / 2 ^ 8) with (pack [0; 0; 0; f 4; 0; 0; 0; 0])
    by (apply Z.div_unique_exact; cbn [pack]; lia).
  replace (f 5 * 2 ^ (8 * 5) / 2 ^ 24) with (pack [0; 0; f 5; 0; 0; 0; 0; 0])
    by (apply Z.div_unique_exact; cbn [pack]; lia).
  replace (f 6 * 2 ^ (8 * 6) / 2 ^ 40) with (pack [0; f 6; 0; 0; 0; 0; 0; 0])
    by (apply Z.div_unique_exact; cbn [pack]; lia).
  replace (f 7 * 2 ^ (8 * 7) / 2 ^ 56) with (pack [f 7; 0; 0; 0; 0; 0; 0; 0])
    by (apply Z.div_unique_exact; cbn [pack]; lia).
  assert (is_byte 0) by (unfold is_byte; lia).
  do 7 (rewrite pack_lor by (done || (repeat constructor; done || apply B)); cbn [zip_with];
        rewrite ?Z.lor_0_l, ?Z.lor_0_r).
  done.
Qed.

Lemma pack_field l : forall k, Bytes l ->
  Z.land (Z.shiftr (pack l) (8 * Z.of_nat k)) 255 = nth k l 0.
Proof.
  induction l as [|v l IH]; intros k B.
  - cbn [pack]. rewrite Z.shiftr_0_l. by destruct k.
  - apply Forall_cons in B as [Hv B]. unfold is_byte in Hv. cbn [pack]. rewrite land_255. destruct k as [|k].
    + cbn [nth]. change (8 * Z.of_nat 0) with 0.
      rewrite Z.shiftr_0_r, Z.mul_comm, Z.mod_add, Z.mod_small by lia. done.
    + cbn [nth]. rewrite <- (IH k B), land_255.
      replace (8 * Z.of_nat (S k)) with (8 + 8 * Z.of_nat k) by lia.
      rewrite <- Z.shiftr_shiftr by lia. do 2 f_equal. rewrite Z.shiftr_div_pow2 by lia.
      change (2 ^ 8) with 256. rewrite Z.mul_comm, Z.div_add, Z.div_small by lia. lia.
Qed.

Lemma bswap_pack l : Bytes l -> length l = 8%nat -> bswap_64 (pack l) = read64be l.
Proof.
  intros B L. rewrite bswap_fields. unfold read64be.
  rewrite (pack_field l 7 B : Z.land (Z.shiftr (pack l) (8 * 7)) 255 = _), (pack_field l 6 B : Z.land (Z.shiftr (pack l) (8 * 6)) 255 = _), (pack_field l 5 B : Z.land (Z.shiftr (pack l) (8 * 5)) 255 = _), (pack_field l 4 B : Z.land (Z.shiftr (pack l) (8 * 4)) 255 = _),
    (pack_field l 3 B : Z.land (Z.shiftr (pack l) (8 * 3)) 255 = _), (pack_field l 2 B : Z.land (Z.shiftr (pack l) (8 * 2)) 255 = _), (pack_field l 1 B : Z.land (Z.shiftr (pack l) (8 * 1)) 255 = _), (pack_field l 0 B : Z.land (Z.shiftr (pack l) (8 * 0)) 255 = _).
  do 8 (destruct l as [|? l]; [done|]). by destruct l.
Qed.

Lemma pack_app l r : pack (l ++ r) = pack l + 256 ^ Z.of_nat (length l) * pack r.
Proof.
  induction l as [|v l IH]; [cbn [app length pack]; change (256 ^ Z.of_nat 0) with 1; lia|].
  cbn [app pack length]. rewrite IH, Nat2Z.inj_succ, Z.pow_succ_r by lia. lia.
Qed.

Lemma pack_pad8 e : pack (pad8 e) = pack (take 8 e).
Proof.
  unfold pad8. rewrite take_app, pack_app, take_replicate.
  assert (forall n, pack (replicate n 0) = 0) as Z0 by (induction n as [|n IH]; cbn [replicate pack]; lia).
  rewrite Z0. lia.
Qed.

Lemma pad8_length e : length (pad8 e) = 8%nat.
Proof. unfold pad8. rewrite length_take, length_app, length_replicate. lia. Qed.

Lemma pad8_bytes e : Bytes e -> Bytes (pad8 e).
Proof.
  intros B. apply Forall_take, Forall_app. split; [done|]. apply Forall_replicate. unfold is_byte. lia.
Qed.

Definition lower (c : Z) : Z := tab kToLower (Z.land c 255).

Lemma lower_byte c : is_byte (lower c).
Proof. apply Bytes_tab. decide_now. Qed.

(** [w <<= 8; w |= kToLower[c];] drops the ninth byte. *)
Lemma word_push e c : Bytes e ->
  Z.lor (u64 (Z.shiftl (pack (take 8 e)) 8)) (lower c) = pack (take 8 (lower c :: e)).
Proof.
  intros B. change (take 8 (lower c :: e)) with (lower c :: take 7 e). cbn [pack].
  assert (u64 (Z.shiftl (pack (take 8 e)) 8) = pack (take 7 e) * 2 ^ 8) as ->.
  { rewrite Z.shiftl_mul_pow2 by lia. change (take 8 e) with (take (7 + 1) e). rewrite <- take_take_drop, pack_app.
    assert (Bytes (take 7 e)) as B7 by (by apply Forall_take). pose proof (pack_range _ B7) as R.
    destruct (decide (length e < 7)%nat) as [L|L].
    - rewrite (drop_ge e 7) by lia. cbn [take pack]. rewrite Z.mul_0_r, Z.add_0_r. apply u64_id.
      assert (256 ^ Z.of_nat (length (take 7 e)) <= 256 ^ 7)
        by (apply Z.pow_le_mono_r; [lia|]; rewrite length_take; lia). lia.
    - assert (length (take 7 e) = 7)%nat as L7 by (rewrite length_take; lia). rewrite L7 in *.
      change (256 ^ Z.of_nat 7) with (2 ^ 56) in *. unfold u64.
      replace ((pack (take 7 e) + 2 ^ 56 * pack (take 1 (drop 7 e))) * 2 ^ 8)
        with (pack (take 7 e) * 2 ^ 8 + pack (take 1 (drop 7 e)) * 2 ^ 64) by lia.
      rewrite Z.mod_add by lia. apply Z.mod_small. lia. }
  rewrite <- Z.shiftl_mul_pow2, lor_shiftl_add by (lia || apply lower_byte). lia.
Qed.

(** The text behind the last dot; [None] when there is none. *)
Fixpoint extension (l : bytes) : option bytes :=
  match l with
  | [] => None
  | c :: l => match extension l with
              | Some e => Some e
              | None => if c =? 46 then Some l else None
              end
  end.

Lemma extension_spec l :
  match extension l with
  | Some x => exists p, l = p ++ 46 :: x /\ Forall (fun c => c <> 46) x
  | None => Forall (fun c => c <> 46) l
  end.
Proof.
  induction l as [|c l IH]; [constructor|]. cbn [extension]. destruct (extension l) as [x|].
  - destruct IH as (p & -> & F). by exists (c :: p).
  - destruct (Z.eqb_spec c 46) as [->|N]; [by exists []|by constructor].
Qed.

Lemma extension_word_dot a : forall e r, Bytes a -> Bytes e -> Forall (fun c => c <> 46) a ->
  extension_word (pack (take 8 e)) (a ++ 46 :: r) = Some (pack (take 8 (rev (map lower a) ++ e))) /\
  extension_word (pack (take 8 e)) a = None.
Proof.
  induction a as [|c a IH]; intros e r B Be F; [done|].
  apply Forall_cons in B as [Hc B]. apply Forall_cons in F as [Nc F].
  cbn [app extension_word map rev]. rewrite <- app_assoc. cbn [app].
  rewrite land_255, Z.mod_small by done. rewrite (proj2 (Z.eqb_neq _ _) Nc).
  assert (tab kToLower c = lower c) as -> by (unfold lower; by rewrite land_255, Z.mod_small).
  rewrite word_push by done. apply IH; [done| |done]. constructor; [apply lower_byte|done].
Qed.

Lemma extension_word_rev l : Bytes l ->
  extension_word 0 (rev l) = (fun x => pack (take 8 (map lower x))) <$> extension l.
Proof.
  intros B. pose proof (extension_spec l) as S. change 0 with (pack (take 8 [])).
  destruct (extension l) as [x|].
  - destruct S as (p & -> & F). rewrite rev_app_distr. cbn [rev]. rewrite <- app_assoc. cbn [app].
    apply Forall_app in B as [_ B]. apply Forall_cons in B as [_ B].
    rewrite (proj1 (extension_word_dot (rev x) [] (rev p) ltac:(by apply Forall_rev) ltac:(done) ltac:(by apply Forall_rev))).
    cbn. by rewrite map_rev, rev_involutive, app_nil_r.
  - by apply (extension_word_dot (rev l) [] []); [apply Forall_rev| |apply Forall_rev].
Qed.

Lemma lower_bytes x : Bytes (map lower x).
Proof. induction x; cbn; constructor; [apply lower_byte|done]. Qed.

Lemma bswap_extension x : bswap_64 (pack (take 8 (map lower x))) = read64be (pad8 (map lower x)).
Proof.
  rewrite <- pack_pad8. apply bswap_pack; [apply pad8_bytes, lower_bytes|apply pad8_length].
Qed.

(** Equal keys are equal extensions. *)
Lemma read64be_inj a b : Bytes a -> Bytes b -> length a = 8%nat -> length b = 8%nat ->
  read64be a = read64be b -> a = b.
Proof.
  unfold read64be. intros A B La Lb E. apply (f_equal (unpack 8)) in E.
  pose proof (unpack_pack (rev a) ltac:(by apply Forall_rev)) as Ua.
  pose proof (unpack_pack (rev b) ltac:(by apply Forall_rev)) as Ub.
  rewrite length_rev in Ua, Ub. rewrite La in Ua. rewrite Lb in Ub. rewrite Ua, Ub in E.
  by apply (f_equal (@rev Z)) in E; rewrite !rev_involutive in E.
Qed.

(** The entry for an extension: its first eight characters, whatever their case. *)
Fixpoint lookup_name {A} (t : list (bytes * A)) (x : bytes) : option A :=
  match t with
  | [] => None
  | (name, v) :: t => if bool_decide (pad8 name = pad8 (map lower x)) then Some v else lookup_name t x
  end.

Lemma assoc_lookup_name {A} (t : list (bytes * A)) x :
  Forall (fun e => Bytes e.1) t ->
  assoc (read64be (pad8 (map lower x))) (map (fun e => (read64be (pad8 e.1), e.2)) t) = lookup_name t x.
Proof.
  induction 1 as [|[name v] t B _ IH]; [done|]. cbn [map assoc lookup_name fst snd]. rewrite IH. cbn in B.
  assert ((read64be (pad8 name) =? read64be (pad8 (map lower x))) =
          bool_decide (pad8 name = pad8 (map lower x))) as ->; [|by case_bool_decide].
  case_bool_decide as E; [by rewrite E, Z.eqb_refl|]. apply Z.eqb_neq. intros E'. apply E.
  apply read64be_inj in E'; [done|..]; try apply pad8_length; apply pad8_bytes; [done|apply lower_bytes].
Qed.

Lemma nocompress_word_spec a : forall e r, Bytes a -> Bytes e -> Forall (fun c => c <> 46) a ->
  (length e <= 8)%nat -> (r = [] \/ exists r', r = 46 :: r') ->
  nocompress_word (Z.of_nat (length e)) (pack (take 8 e)) (a ++ r) =
  if (length a + length e <=? 8)%nat then Some (pack (take 8 (rev (map lower a) ++ e))) else None.
Proof.
  induction a as [|c a IH]; intros e r B Be F L R.
  - cbn [app map rev length Nat.add]. rewrite (proj2 (Nat.leb_le _ _)) by lia. by destruct R as [->|[r' ->]].
  - apply Forall_cons in B as [Hc B]. apply Forall_cons in F as [Nc F].
    cbn [app nocompress_word map rev length]. rewrite <- app_assoc. cbn [app].
    rewrite land_255, Z.mod_small by done. rewrite (proj2 (Z.eqb_neq _ _) Nc), Z.gtb_ltb.
    destruct (Z.ltb_spec 8 (Z.of_nat (length e) + 1)).
    + symmetry. destruct (Nat.leb_spec (S (length a) + length e) 8); [lia|done].
    + assert (tab kToLower c = lower c) as -> by (unfold lower; by rewrite land_255, Z.mod_small).
      rewrite word_push by done.
      replace (Z.of_nat (length e) + 1) with (Z.of_nat (length (lower c :: e))) by (cbn; lia).
      rewrite IH; [|done|by constructor; [apply lower_byte|]|done|cbn; lia|done]. cbn [length].
      by replace (S (length a) + length e)%nat with (length a + S (length e))%nat by lia.
Qed.

Lemma nocompress_word_rev l : Bytes l ->
  nocompress_word 0 0 (rev l) =
  let x := default l (extension l) in
  if (length x <=? 8)%nat then Some (pack (take 8 (map lower x))) else None.
Proof.
  intros B. pose proof (extension_spec l) as S. cbv zeta.
  assert (forall x r, Bytes x -> Forall (fun c => c <> 46) x -> (r = [] \/ exists r', r = 46 :: r') ->
    nocompress_word 0 0 (rev x ++ r) = if (length x <=? 8)%nat then Some (pack (take 8 (map lower x))) else None) as G.
  { intros x r Bx F R. pose proof (nocompress_word_spec (rev x) [] r ltac:(by apply Forall_rev) ltac:(done)
      ltac:(by apply Forall_rev) ltac:(cbn; lia) R) as N. cbn [length pack take] in N. change (Z.of_nat 0) with 0 in N. rewrite N.
    by rewrite length_rev, Nat.add_0_r, map_rev, rev_involutive, app_nil_r. }
  destruct (extension l) as [x|]; cbn [default from_option id].
  - destruct S as (p & -> & F). apply Forall_app in B as [_ B]. apply Forall_cons in B as [_ B].
    rewrite rev_app_distr. cbn [rev]. rewrite <- app_assoc. cbn [app]. apply G; [done|done|]. right. by exists (rev p).
  - rewrite <- (app_nil_r (rev l)). apply G; [done|done|]. by left.
Qed.

Definition is_some {A} (o : option A) : bool := match o with Some _ => true | None => false end.

(* ------------------------------------------------------------------ *)
(** ** Properties *)

(** The three bisections terminate within their tables and find what a linear search finds:
    [GetHttpReason] the phrase of a code; [FindContentType] the media type of the first eight
    characters behind the last dot, in any case; [IsNoCompressExt] whether the text behind the
    last dot (or the whole name, without one) is at most eight characters and in its list. *)
Theorem bisection_exact p n code :
  Bytes (strarg p n) ->
  let l := strarg p n in
  GetHttpReason code = Some (default [] (assoc code kHttpReason)) /\
  FindContentType p n = Some (x ← extension l; lookup_name kContentTypeExtension x) /\
  IsNoCompressExt p n =
    Some (let x := default l (extension l) in
          negb (bool_decide (l = [])) && (length x <=? 8)%nat &&
          is_some (lookup_name (map (fun e => (e, ())) kNoCompressExts) x)).
Proof.
  intros B l. fold l in B. split; [|split].
  - unfold GetHttpReason.
    rewrite search_assoc; [|vm_compute; reflexivity|apply functional_b_ok; vm_compute; reflexivity].
    by destruct (assoc code kHttpReason).
  - unfold FindContentType. fold l. rewrite extension_word_rev by done.
    destruct (extension l) as [x|]; [|done]. cbn [fmap option_fmap option_map mbind option_bind].
    rewrite bswap_extension. unfold BisectContentType.
    rewrite search_assoc; [|vm_compute; reflexivity|apply functional_b_ok; vm_compute; reflexivity].
    rewrite assoc_lookup_name; [done|]. decide_now.
  - unfold IsNoCompressExt. fold l. destruct (decide (l = [])) as [->|N]; [done|].
    rewrite (proj2 (Z.eqb_neq _ 0)) by (destruct l; [done|cbn; lia]).
    rewrite bool_decide_false by done. rewrite nocompress_word_rev by done. cbv zeta. cbn [negb andb].
    destruct (length (default l (extension l)) <=? 8)%nat; [|done]. cbn [andb].
    rewrite bswap_extension. unfold BisectNoCompressExts.
    rewrite search_assoc; [|vm_compute; reflexivity|apply functional_b_ok; vm_compute; reflexivity].
    cbn [fmap option_fmap option_map]. f_equal.
    rewrite <- (assoc_lookup_name (map (fun e => (e, ())) kNoCompressExts)) by decide_now.
    rewrite map_map. done.
Qed.

Lemma bisection_exact_witness :
  GetHttpReason 404 = Some (bstr "Not Found") /\
  FindContentType (Some (bstr "a.tar.GZ")) 8 = Some (Some (bstr "application/gzip")) /\
  IsNoCompressExt (Some (bstr "a.tar.GZ")) 8 = Some true.
Proof. apply (bisection_exact (Some (bstr "a.tar.GZ")) 8 404). decide_now. Defined.

(** The extension is cut at eight characters where [IsNoCompressExt] refuses. *)
Theorem FindContentType_truncates :
  FindContentType (Some (bstr "x.markdownish")) 13 = Some (Some (bstr "text/plain")).
Proof. vm_compute. reflexivity. Qed.
