(* ===== verification/Escape.v ===== *)
(** Escaping for other languages: net/http/escapehtml.c, net/http/escapejsstringliteral.c with
    [EncodeUtf16] of libc/str/utf16.h, and net/http/indentlines.c. *)

From S2P Require Import Prelude ThomPike.

(* ------------------------------------------------------------------ *)
(** ** Definitions *)

(** One round of the loop of [EscapeHtml]. *)
Definition html_char (c : Z) : bytes :=
  if c =? # "&" then bstr "&amp;"
  else if c =? # "<" then bstr "&lt;"
  else if c =? # ">" then bstr "&gt;"
  else if c =? 34 then bstr "&quot;"
  else if c =? 39 then bstr "&#39;"
  else [c].

Fixpoint html_loop (l : bytes) : bytes :=
  match l with [] => [] | c :: l => html_char c ++ html_loop l end.

Definition EscapeHtml (malloc : Z -> bool) (p : option bytes) (n : Z) : option (bytes * Z) :=
  let l := strarg p n in
  if malloc (Z.of_nat (length l) * 6 + 1) then Some (cbuf (html_loop l)) else None.

Definition kEscapeLiteral : list Z := [
    9; 9; 9; 9; 9; 9; 9; 9; 9; 1; 2; 9; 4; 3; 9; 9;
    9; 9; 9; 9; 9; 9; 9; 9; 9; 9; 9; 9; 9; 9; 9; 9;
    0; 0; 7; 0; 0; 0; 9; 9; 0; 0; 0; 0; 0; 0; 0; 6;
    0; 0; 0; 0; 0; 0; 0; 0; 0; 0; 0; 0; 9; 9; 9; 0;
    0; 0; 0; 0; 0; 0; 0; 0; 0; 0; 0; 0; 0; 0; 0; 0;
    0; 0; 0; 0; 0; 0; 0; 0; 0; 0; 0; 0; 5; 0; 0; 0;
    0; 0; 0; 0; 0; 0; 0; 0; 0; 0; 0; 0; 0; 0; 0; 0;
    0; 0; 0; 0; 0; 0; 0; 0; 0; 0; 0; 0; 0; 0; 0; 9 ].

(** On [wint_t], an unsigned number of 32 bits. *)
Definition EncodeUtf16 (wc : Z) : Z :=
  if ((0x0000 <=? wc) && (wc <=? 0xFFFF)) || ((0xE000 <=? wc) && (wc <=? 0xFFFF)) then wc
  else if (0x10000 <=? wc) && (wc <=? 0x10FFFF) then
    Z.lor (Z.shiftr (wc - 0x10000) 10 + 0xD800)
      (u32 (Z.shiftl (Z.land (wc - 0x10000) 1023 + 0xDC00) 16))
  else 0xFFFD.

Definition hex : bytes := bstr "0123456789abcdef".

Definition js_unit (w : Z) : bytes :=
  [92; # "u"; tab hex (Z.shiftr (Z.land w 0xF000) 12); tab hex (Z.shiftr (Z.land w 0x0F00) 8);
   tab hex (Z.shiftr (Z.land w 0x00F0) 4); tab hex (Z.shiftr (Z.land w 0x000F) 0)].

(** [do { ... } while ((w >>= 16));] on a [uint64_t]. *)
Fixpoint js_units (fuel : nat) (w : Z) : bytes :=
  match fuel with
  | O => []
  | S fuel => js_unit w ++ (if Z.shiftr w 16 =? 0 then [] else js_units fuel (Z.shiftr w 16))
  end.

(** The [switch]; [None] is [__builtin_unreachable]. *)
Definition js_char (x : Z) : option bytes :=
  switch (if (0 <=? x) && (x <=? 127) then tab kEscapeLiteral x else 9) [
    (0, [u8 x]);
    (1, [92; # "t"]);
    (2, [92; # "n"]);
    (3, [92; # "r"]);
    (4, [92; # "f"]);
    (5, [92; 92]);
    (6, [92; # "/"]);
    (7, [92; 34]);
    (9, js_units 4 (EncodeUtf16 x)) ].

Fixpoint js_loop (fuel : nat) (l : bytes) : option bytes :=
  match l with
  | [] => Some []
  | x :: l =>
      match fuel with
      | O => None
      | S fuel =>
          let '(c, l) := tp_next x l in
          a ← js_char c; b ← js_loop fuel l; Some (a ++ b)
      end
  end.

(** The buffer that is reused between calls: [*r] as the C string it holds, and [*y]. *)
Record js_buffer := Buffer { js_r : option bytes; js_y : Z }.

(** The buffer afterwards and [*z]; the function returns [*r]. [None] is undefined
    behaviour. *)
Definition EscapeJsStringLiteral (realloc : Z -> bool) (b : js_buffer) (p : option bytes) (n : Z)
    : option (js_buffer * Z) :=
  let l := strarg p n in
  let i := Z.of_nat (length l) * 8 + 6 + 1 in
  let write y :=
    out ← js_loop (length l) l; Some (Buffer (Some (out ++ [0])) y, Z.of_nat (length out)) in
  if i >? js_y b then (if realloc i then write i else Some (b, 0))
  else match js_r b with Some _ => write (js_y b) | None => Some (b, 0) end.

(** [memchr(p, '\n', n)]: the offset. *)
Fixpoint memchr_lf (l : bytes) : option nat :=
  match l with
  | [] => None
  | c :: l => if c =? 10 then Some O else S <$> memchr_lf l
  end.

(** The [do] loop: [t] bytes are in the buffer [r]. [None] is a failed [realloc]. *)
Fixpoint indent_loop (fuel : nat) (realloc : Z -> bool) (j : Z) (l r : bytes) : option bytes :=
  match fuel with
  | O => None
  | S fuel =>
      let lf := memchr_lf l in
      let m := match lf with Some k => S k | None => length l end in
      let a := match lf with
               | Some _ => if negb (hd 0 l =? 13) && negb (hd 0 l =? 10) then j else 0
               | None => match l with [] => 0 | _ => j end
               end in
      if realloc (Z.of_nat (length r) + a + Z.of_nat m + 1) then
        let r := r ++ replicate (Z.to_nat a) 32 ++ take m l in
        match lf with
        | Some _ => indent_loop fuel realloc j (drop m l) r
        | None => Some r
        end
      else None
  end.

Definition IndentLines (realloc : Z -> bool) (p : option bytes) (n j : Z) : option (bytes * Z) :=
  let l := strarg p n in
  cbuf <$> indent_loop (S (length l)) realloc j l [].

Example escape_1 : EscapeHtml (fun _ => true) (Some (bstr "<a & b>")) 7 =
  Some (bstr "&lt;a &amp; b&gt;" ++ [0], 17).
Proof. reflexivity. Qed.
Example escape_2 : EscapeJsStringLiteral (fun _ => true) (Buffer None 0)
    (Some ([0xF0; 0x9F; 0x98; 0x80] ++ bstr "</a")) 7 =
  Some (Buffer (Some (bstr "\ud83d\ude00\u003c\/a" ++ [0])) 63, 21).
Proof. vm_compute. reflexivity. Qed.
Example escape_3 : IndentLines (fun _ => true) (Some (bstr "a" ++ [10; 10] ++ bstr "b")) 4 2 =
  Some (bstr "  a" ++ [10; 10] ++ bstr "  b" ++ [0], 8).
Proof. reflexivity. Qed.

(* ------------------------------------------------------------------ *)
(** ** The contracts: what a reader of the output recovers *)

(** The bytes behind a prefix. *)
Fixpoint strip (pre l : bytes) : option bytes :=
  match pre, l with
  | [], _ => Some l
  | c :: pre, x :: l => if c =? x then strip pre l else None
  | _, [] => None
  end.

(** The entities of HTML that occur. *)
Definition entities : list (bytes * Z) :=
  [(bstr "&amp;", 38); (bstr "&lt;", 60); (bstr "&gt;", 62); (bstr "&quot;", 34); (bstr "&#39;", 39)].

Fixpoint entity (es : list (bytes * Z)) (l : bytes) : option (Z * bytes) :=
  match es with
  | [] => None
  | (e, c) :: es => match strip e l with Some r => Some (c, r) | None => entity es l end
  end.

(** A reader of HTML text: markup characters are an error. *)
Fixpoint read_html (fuel : nat) (l : bytes) : option bytes :=
  match l, fuel with
  | [], _ => Some []
  | _, O => None
  | x :: l', S fuel =>
      if x =? 38 then '(c, r) ← entity entities l; out ← read_html fuel r; Some (c :: out)
      else if (x =? 60) || (x =? 62) || (x =? 34) || (x =? 39) then None
      else out ← read_html fuel l'; Some (x :: out)
  end.

(** A reader of JSON string literals: the UTF-16 units they denote. Raw characters are
    printable ASCII other than quotes, the backslash, the slash and the markup characters. *)
Definition raw_char (x : Z) : bool :=
  (32 <=? x) && (x <? 127) && negb (existsb (Z.eqb x) [34; 38; 39; 47; 60; 61; 62; 92]).

Definition unhex (c : Z) : option Z :=
  if (48 <=? c) && (c <=? 57) then Some (c - 48)
  else if (97 <=? c) && (c <=? 102) then Some (c - 87) else None.

Definition escapes : list (Z * Z) :=
  [(116, 9); (110, 10); (114, 13); (102, 12); (92, 92); (47, 47); (34, 34)].

Fixpoint read_js (fuel : nat) (l : bytes) : option (list Z) :=
  match l, fuel with
  | [], _ => Some []
  | _, O => None
  | x :: l, S fuel =>
      if x =? 92 then
        match l with
        | e :: r =>
            match switch e escapes with
            | Some c => out ← read_js fuel r; Some (c :: out)
            | None =>
                match e =? 117, r with
                | true, a :: b :: c :: d :: r =>
                    a ← unhex a; b ← unhex b; c ← unhex c; d ← unhex d;
                    out ← read_js fuel r;
                    Some (((a * 16 + b) * 16 + c) * 16 + d :: out)
                | _, _ => None
                end
            end
        | [] => None
        end
      else if raw_char x then out ← read_js fuel l; Some (x :: out)
      else None
  end.

(** UTF-16 of a code point; those beyond Unicode become U+FFFD. *)
Definition utf16 (c : Z) : list Z :=
  if c <? 0x10000 then [c]
  else if c <? 0x110000 then [0xD800 + (c - 0x10000) / 1024; 0xDC00 + (c - 0x10000) mod 1024]
  else [0xFFFD].

Fixpoint utf16_text (cs : list Z) : list Z :=
  match cs with [] => [] | c :: cs => utf16 c ++ utf16_text cs end.

(** The lines of a text, each with the newline that ends it; what follows the last newline
    comes last, even when empty. *)
Fixpoint lines (l : bytes) : list bytes :=
  match l with
  | [] => [[]]
  | c :: l => if c =? 10 then [c] :: lines l
              else match lines l with x :: xs => (c :: x) :: xs | [] => [[c]] end
  end.

(** Lines that get no indentation: empty ones, and terminated ones that start with a carriage
    return. *)
Definition blank (line : bytes) : bool :=
  match line with [] => true | c :: _ => (List.last line 0 =? 10) && ((c =? 13) || (c =? 10)) end.

Definition indent_line (j : Z) (line : bytes) : bytes :=
  (if blank line then [] else replicate (Z.to_nat j) 32) ++ line.

Fixpoint indented (j : Z) (ls : list bytes) : bytes :=
  match ls with [] => [] | x :: ls => indent_line j x ++ indented j ls end.

(* ------------------------------------------------------------------ *)
(** ** Lemmas: HTML *)

Lemma html_char_read c fuel r :
  read_html (S fuel) (html_char c ++ r) = (out ← read_html fuel r; Some (c :: out)).
Proof.
  unfold html_char.
  destruct (Z.eqb_spec c 38) as [->|N1]; [reflexivity|]. destruct (Z.eqb_spec c 60) as [->|N2]; [reflexivity|].
  destruct (Z.eqb_spec c 62) as [->|N3]; [reflexivity|]. destruct (Z.eqb_spec c 34) as [->|N4]; [reflexivity|].
  destruct (Z.eqb_spec c 39) as [->|N5]; [reflexivity|]. cbn [app read_html].
  by rewrite (proj2 (Z.eqb_neq _ _) N1), (proj2 (Z.eqb_neq _ _) N2), (proj2 (Z.eqb_neq _ _) N3),
    (proj2 (Z.eqb_neq _ _) N4), (proj2 (Z.eqb_neq _ _) N5).
Qed.

Lemma html_char_length c : (1 <= length (html_char c) <= 6)%nat.
Proof. unfold html_char. repeat match goal with |- context [if ?b then _ else _] => destruct b end; cbn; lia. Qed.

Lemma html_loop_read l : forall fuel, (length l <= fuel)%nat -> read_html fuel (html_loop l) = Some l.
Proof.
  induction l as [|c l IH]; intros fuel L; [by destruct fuel|]. destruct fuel as [|fuel]; [cbn in L; lia|].
  cbn [html_loop]. rewrite html_char_read, IH by (cbn in L; lia). done.
Qed.

Lemma html_loop_length l : (length l <= length (html_loop l) <= 6 * length l)%nat.
Proof.
  induction l as [|c l IH]; [done|]. cbn [html_loop length]. rewrite length_app.
  pose proof (html_char_length c). lia.
Qed.

(* ------------------------------------------------------------------ *)
(** ** Lemmas: JavaScript *)

Lemma js_unhex_hex d : 0 <= d < 16 -> unhex (tab hex d) = Some d.
Proof.
  assert (forallb (fun d => bool_decide (unhex (tab hex d) = Some d)) (zbelow 16) = true) as F
    by (vm_compute; reflexivity).
  intros H. pose proof (forall_below 16 _ F d ltac:(lia)) as E. by apply bool_decide_eq_true in E.
Qed.

(** A hexadecimal digit of [w]. *)
Lemma nibble w k : 0 <= k -> Z.shiftr (Z.land w (Z.shiftl 15 k)) k = (w / 2 ^ k) mod 16.
Proof. intros H. by rewrite shiftr_land_field, land_15, Z.shiftr_div_pow2 by done. Qed.

Lemma js_unit_read w fuel r :
  read_js (S fuel) (js_unit w ++ r) = (out ← read_js fuel r; Some (w mod 65536 :: out)).
Proof.
  unfold js_unit.
  change 0xF000 with (Z.shiftl 15 12). change 0x0F00 with (Z.shiftl 15 8).
  change 0x00F0 with (Z.shiftl 15 4). change 0x000F with (Z.shiftl 15 0). rewrite !nibble by lia.
  set (a := (w / 2 ^ 12) mod 16). set (b := (w / 2 ^ 8) mod 16). set (c := (w / 2 ^ 4) mod 16).
  set (d := (w / 2 ^ 0) mod 16).
  assert (0 <= a < 16 /\ 0 <= b < 16 /\ 0 <= c < 16 /\ 0 <= d < 16) as (Ha & Hb & Hc & Hd)
    by (repeat split; apply Z.mod_pos_bound; lia).
  assert (((a * 16 + b) * 16 + c) * 16 + d = w mod 65536) as <-.
  { subst a b c d. rewrite Z.pow_0_r, Z.div_1_r.
    pose proof (Z.div_mod w 16 ltac:(lia)) as E0. pose proof (Z.div_mod (w / 16) 16 ltac:(lia)) as E1.
    pose proof (Z.div_mod (w / 256) 16 ltac:(lia)) as E2. pose proof (Z.div_mod (w / 4096) 16 ltac:(lia)) as E3.
    pose proof (Z.div_mod w 65536 ltac:(lia)) as E4.
    assert (w / 16 / 16 = w / 256) as D1 by (by rewrite Z.div_div by lia).
    assert (w / 256 / 16 = w / 4096) as D2 by (by rewrite Z.div_div by lia).
    assert (w / 4096 / 16 = w / 65536) as D3 by (by rewrite Z.div_div by lia).
    change (2 ^ 12) with 4096. change (2 ^ 8) with 256. change (2 ^ 4) with 16. lia. }
  cbn [app read_js]. change (92 =? 92) with true. cbv iota. change (switch 117 escapes) with (@None Z).
  cbv iota. change (117 =? 117) with true. cbv iota. rewrite !js_unhex_hex by done. done.
Qed.

Definition reads (a : bytes) (us : list Z) : Prop :=
  (length a <= 6 * length us)%nat /\
  forall fuel r, read_js (length us + fuel) (a ++ r) = (out ← read_js fuel r; Some (us ++ out)).

Lemma js_units_read w : 0 <= w < 2 ^ 32 ->
  reads (js_units 4 w) (if w <? 65536 then [w] else [w mod 65536; w / 65536]).
Proof.
  intros H. cbn [js_units]. rewrite !Z.shiftr_div_pow2 by lia. change (2 ^ 16) with 65536.
  destruct (Z.ltb_spec w 65536).
  - rewrite (Z.div_small w 65536) by lia. change (0 =? 0) with true. cbv iota. rewrite app_nil_r.
    split; [cbn; lia|]. intros fuel r. cbn [length Nat.add]. rewrite js_unit_read, Z.mod_small by lia. done.
  - assert (0 < w / 65536 < 65536) as Q
      by (split; [apply Z.div_str_pos; lia|apply Z.div_lt_upper_bound; lia]).
    rewrite (proj2 (Z.eqb_neq (w / 65536) 0)) by lia. rewrite (Z.div_small (w / 65536)) by lia.
    change (0 =? 0) with true. cbv iota. rewrite app_nil_r. split; [cbn; lia|].
    intros fuel r. cbn [length Nat.add]. rewrite <- app_assoc, !js_unit_read, (Z.mod_small (w / 65536)) by lia.
    by destruct (read_js fuel r).
Qed.

Lemma EncodeUtf16_units c : 0 <= c < 2 ^ 32 -> 0 <= EncodeUtf16 c < 2 ^ 32 /\
  (if EncodeUtf16 c <? 65536 then [EncodeUtf16 c] else [EncodeUtf16 c mod 65536; EncodeUtf16 c / 65536]) =
  utf16 c.
Proof.
  intros H. unfold EncodeUtf16, utf16. destruct (Z.ltb_spec c 0x10000) as [L|L].
  - replace (((0 <=? c) && (c <=? 65535)) || _) with true by lia. split; [lia|].
    by rewrite (proj2 (Z.ltb_lt _ _)) by lia.
  - replace (((0 <=? c) && (c <=? 65535)) || _) with false by lia.
    destruct (Z.ltb_spec c 0x110000) as [L'|L'].
    + replace ((65536 <=? c) && (c <=? 1114111)) with true by lia.
      change 1023 with (2 ^ 10 - 1). rewrite land_mask, Z.shiftr_div_pow2 by lia. change (2 ^ 10) with 1024.
      set (q := (c - 65536) / 1024). set (m := (c - 65536) mod 1024).
      assert (0 <= q < 1024) as Hq by (split; [apply Z.div_pos; lia|apply Z.div_lt_upper_bound; lia]).
      assert (0 <= m < 1024) as Hm by (apply Z.mod_pos_bound; lia).
      rewrite u32_id by (rewrite Z.shiftl_mul_pow2; lia).
      rewrite Z.lor_comm, lor_shiftl_add by lia. split; [lia|].
      rewrite (proj2 (Z.ltb_ge _ _)) by lia. change (2 ^ 16) with 65536.
      rewrite Z.add_comm, Z.mod_add, Z.div_add, Z.mod_small, Z.div_small by lia.
      replace (q + 55296) with (55296 + q) by lia. by replace (0 + (m + 56320)) with (56320 + m) by lia.
    + replace ((65536 <=? c) && (c <=? 1114111)) with false by lia. split; [lia|done].
Qed.

Lemma js_char_ascii c : 0 <= c < 128 -> exists a, js_char c = Some a /\ reads a [c].
Proof.
  intros Hc. assert (In c (zbelow 128)) as H.
  { unfold zbelow. apply in_map_iff. exists (Z.to_nat c). split; [lia|]. apply in_seq. lia. }
  clear Hc. vm_compute in H.
  repeat (destruct H as [<-|H];
    [eexists; split; [vm_compute; reflexivity|split; [cbn; lia|intros fuel r; reflexivity]]|]).
  destruct H.
Qed.

Lemma js_char_read c : 0 <= c < 2 ^ 32 -> exists a, js_char c = Some a /\ reads a (utf16 c).
Proof.
  intros Hc. destruct (decide (c < 128)) as [L|L].
  - unfold utf16. rewrite (proj2 (Z.ltb_lt c 65536)) by lia. apply js_char_ascii. lia.
  - unfold js_char. replace ((0 <=? c) && (c <=? 127)) with false by lia. eexists. split; [reflexivity|].
    destruct (EncodeUtf16_units c Hc) as [R <-]. by apply js_units_read.
Qed.

Lemma js_loop_read fuel : forall l, (length l <= fuel)%nat -> exists a,
  js_loop fuel l = Some a /\ reads a (utf16_text (codepoints l)).
Proof.
  induction fuel as [|fuel IH]; intros l L.
  - destruct l; [|cbn in L; lia]. exists []. split; [done|]. split; [cbn; lia|]. intros f r. cbn. by destruct (read_js f r).
  - destruct l as [|x l]; [exists []; split; [done|]; split; [cbn; lia|]; intros f r; cbn; by destruct (read_js f r)|].
    cbn [js_loop]. rewrite codepoints_cons. destruct (tp_next x l) as [c l'] eqn:E.
    pose proof (codepoints_range (x :: l)) as R. rewrite codepoints_cons, E in R. apply Forall_cons in R as [Hc _].
    assert (length l' <= fuel)%nat as L'.
    { destruct (tp_next_spec x l c l' E) as (? & ?). cbn in L. lia. }
    destruct (js_char_read c Hc) as (a & -> & La & Ra). destruct (IH l' L') as (b & -> & Lb & Rb).
    cbn [mbind option_bind]. eexists. split; [reflexivity|]. cbn [utf16_text].
    split; [rewrite !length_app; lia|]. intros f r.
    rewrite length_app, <- Nat.add_assoc, <- app_assoc, Ra, Rb. destruct (read_js f r); [|done]. cbn. by rewrite app_assoc.
Qed.

(** A code point beyond 16 bits takes at least two bytes. *)
Lemma tp_next_utf16 x l c r :
  tp_next x l = (c, r) -> (length (utf16 c) + length r <= 1 + length l)%nat.
Proof.
  intros H. assert (length (utf16 c) <= 2)%nat as L2
    by (unfold utf16; destruct (c <? _); [cbn; lia|]; destruct (c <? _); cbn; lia).
  pose proof (land_255_byte x) as B.
  assert ((Z.land x 255, l) = (c, r) -> (length (utf16 c) + length r <= 1 + length l)%nat) as D.
  { intros E. simplify_eq. unfold is_byte in B. unfold utf16. rewrite (proj2 (Z.ltb_lt _ 65536)) by lia. cbn; lia. }
  unfold tp_next in H. rewrite Z.geb_leb in H. destruct (Z.leb_spec 0xC0 (Z.land x 255)) as [Hb|]; [|auto].
  destruct (_ <=? _); [|auto]. destruct (merge_conts _ _ _) as [[c' r']|] eqn:E; [|auto]. simplify_eq.
  pose proof (ThomPikeByte_range _ B) as Rb.
  pose proof (merge_conts_spec _ _ _ _ _ E ltac:(lia)) as (_ & Ll & _).
  assert (forallb (fun b => implb (0xC0 <=? b) (2 <=? ThomPikeLen b)) (zbelow 256) = true) as F
    by (vm_compute; reflexivity).
  pose proof (forall_byte _ F _ B) as Fb. clear F. cbv beta in Fb.
  rewrite (proj2 (Z.leb_le 0xC0 _) Hb) in Fb. cbn [implb] in Fb. lia.
Qed.

Lemma utf16_text_length l : (length (utf16_text (codepoints l)) <= length l)%nat.
Proof.
  assert (forall k l, (length l <= k)%nat -> (length (utf16_text (codepoints l)) <= length l)%nat) as G;
    [|by apply (G (length l))].
  induction k as [|k IH]; intros [|x l'] L; cbn [length] in L; try lia; [cbn; lia|cbn; lia|].
  rewrite codepoints_cons. destruct (tp_next x l') as [c r] eqn:E.
  pose proof (tp_next_spec x l' c r E) as (_ & Lr & _). pose proof (tp_next_utf16 x l' c r E) as U.
  cbn [utf16_text length]. rewrite length_app. specialize (IH r ltac:(lia)). lia.
Qed.

(* ------------------------------------------------------------------ *)
(** ** Lemmas: lines *)

Lemma memchr_lf_lines l :
  match memchr_lf l with
  | Some k => lines l = take (S k) l :: lines (drop (S k) l) /\ List.last (take (S k) l) 0 = 10 /\ (k < length l)%nat
  | None => lines l = [l] /\ Forall (fun c => c <> 10) l
  end.
Proof.
  induction l as [|c l IH]; [done|]. cbn [memchr_lf lines]. destruct (Z.eqb_spec c 10) as [->|N].
  - cbn. split; [done|]. split; [done|lia].
  - destruct (memchr_lf l) as [k|]; cbn [fmap option_fmap option_map].
    + destruct IH as (E & La & Lk). rewrite E. split; [done|]. cbn [take length]. split; [|lia].
      rewrite <- La. cbn [List.last]. destruct l; [cbn in Lk; lia|done].
    + destruct IH as [-> F]. split; [done|by constructor].
Qed.

Lemma indent_loop_lines j fuel : forall l r,
  (length l < fuel)%nat -> indent_loop fuel (fun _ => true) j l r = Some (r ++ indented j (lines l)).
Proof.
  induction fuel as [|fuel IH]; intros l r L; [lia|]. cbn [indent_loop].
  pose proof (memchr_lf_lines l) as M. destruct (memchr_lf l) as [k|].
  - destruct M as (E & La & Lk). rewrite IH by (rewrite length_drop; lia). rewrite E. cbn [indented].
    rewrite <- !app_assoc. do 2 f_equal. rewrite app_assoc. f_equal. unfold indent_line. f_equal.
    destruct l as [|c l]; [cbn in Lk; lia|]. cbn [hd]. cbn [take blank] in *. rewrite La. cbn [andb].
    rewrite <- negb_orb. change (10 =? 10) with true. cbn [andb]. by destruct ((c =? 13) || (c =? 10)).
  - destruct M as [-> F]. cbn [indented]. rewrite app_nil_r. unfold indent_line. rewrite firstn_all.
    do 3 f_equal. destruct l as [|c l]; [done|]. cbn [blank].
    assert (List.last (c :: l) 0 <> 10) as N.
    { rewrite Forall_forall in F. apply F.
      pose proof (app_removelast_last (l := c :: l) 0 ltac:(done)) as E. rewrite E at 2.
      apply elem_of_app. right. apply list_elem_of_here. }
    by rewrite (proj2 (Z.eqb_neq _ _) N).
Qed.

(* ------------------------------------------------------------------ *)
(** ** Properties *)

(** [EscapeHtml] output read as HTML text gives back the input; in particular it contains no
    markup character and no quote, and it fits the buffer of [n * 6 + 1] bytes. Without memory
    there is no result. *)
Theorem EscapeHtml_read p n :
  let l := strarg p n in
  exists out, EscapeHtml (fun _ => true) p n = Some (cbuf out) /\
    read_html (length l) out = Some l /\ (length out <= 6 * length l)%nat /\
    EscapeHtml (fun _ => false) p n = None.
Proof.
  intros l. exists (html_loop l). split; [done|]. split; [by apply html_loop_read|].
  split; [apply html_loop_length|done].
Qed.

(** [EscapeJsStringLiteral] output read as a JSON string literal is the UTF-16 of the code
    points of the input. The output is printable ASCII without quotes, slashes or markup
    characters of its own, and it fits the buffer, whose size only grows. *)
Theorem EscapeJsStringLiteral_read b p n :
  (js_r b = None -> js_y b = 0) ->
  let l := strarg p n in
  exists out, EscapeJsStringLiteral (fun _ => true) b p n =
      Some (Buffer (Some (out ++ [0])) (Z.max (js_y b) (Z.of_nat (length l) * 8 + 7)), Z.of_nat (length out)) /\
    read_js (length l) out = Some (utf16_text (codepoints l)) /\
    Z.of_nat (length out) + 1 <= Z.of_nat (length l) * 8 + 7.
Proof.
  intros Hb l. destruct (js_loop_read (length l) l ltac:(lia)) as (out & E & Lo & R). exists out.
  pose proof (utf16_text_length l) as U. split; [|split; [|lia]].
  - unfold EscapeJsStringLiteral. fold l. rewrite E. cbn [mbind option_bind]. rewrite Z.gtb_ltb.
    destruct (Z.ltb_spec (js_y b) (Z.of_nat (length l) * 8 + 6 + 1)); [do 4 f_equal; lia|].
    destruct (js_r b); [do 4 f_equal; lia|]. specialize (Hb eq_refl). lia.
  - specialize (R (length l - length (utf16_text (codepoints l)))%nat []).
    rewrite app_nil_r in R. replace (length (utf16_text (codepoints l)) + _)%nat with (length l) in R by lia.
    rewrite R. destruct (length l - _)%nat; cbn; by rewrite app_nil_r.
Qed.

Lemma EscapeJsStringLiteral_read_witness :
  exists out, EscapeJsStringLiteral (fun _ => true) (Buffer None 0) (Some (bstr "</a>")) 4 =
      Some (Buffer (Some (out ++ [0])) 39, Z.of_nat (length out)) /\
    read_js 4 out = Some (bstr "</a>") /\ Z.of_nat (length out) + 1 <= 39.
Proof. apply (EscapeJsStringLiteral_read (Buffer None 0) (Some (bstr "</a>")) 4). done. Defined.

(** When the buffer cannot grow, the caller gets the text of the previous call back. *)
Theorem EscapeJsStringLiteral_stale p n r y :
  y < Z.of_nat (length (strarg p n)) * 8 + 7 ->
  EscapeJsStringLiteral (fun _ => false) (Buffer (Some r) y) p n = Some (Buffer (Some r) y, 0).
Proof.
  intros H. unfold EscapeJsStringLiteral. cbn [js_y]. rewrite Z.gtb_ltb.
  by rewrite (proj2 (Z.ltb_lt _ _)) by lia.
Qed.

(** [IndentLines] puts [j] spaces in front of every line of the text, the last one
    included, except in front of empty lines and of terminated lines that start with a carriage
    return, and changes nothing else; it needs one round per line. *)
Theorem IndentLines_lines p n j :
  IndentLines (fun _ => true) p n j = Some (cbuf (indented j (lines (strarg p n)))).
Proof. unfold IndentLines. rewrite indent_loop_lines by lia. done. Qed.
