(* ===== verification/Critbit.v ===== *)
(** Critical bit trees of strings: libc/mem/critbit0_{insert,emplace,contains,get,delete,
    clear,allprefixed}.c. *)

From stdpp Require Import gmap.
From S2P Require Import Prelude.

(* ------------------------------------------------------------------ *)
(** ** Definitions *)

(** A tagged pointer: a string, without its NUL, or a node with two children. [byte] is a
    [uint32_t]: what is stored there is a [newbyte]. *)
Inductive node :=
| Leaf (s : bytes)
| Node (byte otherbits : Z) (child0 child1 : node).

Record critbit0 := Tree { root : option node; count : Z }.

(** [(1 + (q->otherbits | c)) >> 8] *)
Definition direction (otherbits c : Z) : Z := Z.shiftr (1 + Z.lor otherbits c) 8.

(** [c = 0; if (q->byte < ulen) c = ubytes[q->byte];] *)
Definition byte_at (u : bytes) (byte : Z) : Z :=
  if byte <? Z.of_nat (length u) then tab u byte else 0.

Definition turn (u : bytes) (byte otherbits : Z) : Z := direction otherbits (byte_at u byte).

(** [while (1 & (intptr_t)p)]: the string the walk ends at. *)
Fixpoint walk (u : bytes) (p : node) : bytes :=
  match p with
  | Leaf s => s
  | Node byte otherbits c0 c1 => walk u (if turn u byte otherbits =? 0 then c0 else c1)
  end.

Definition critbit0_contains (t : critbit0) (u : bytes) : bool :=
  match root t with None => false | Some p => bool_decide (u = walk u p) end.

(** [strncmp(u, p, ulen) == 0 ? p : NULL] *)
Definition critbit0_get (t : critbit0) (u : bytes) : option bytes :=
  match root t with
  | None => None
  | Some p => let s := walk u p in if bool_decide (take (length u) s = u) then Some s else None
  end.

(** The loop over the [uint32_t newbyte]: where [p] differs from [u] and in which bits. The inner
    [None] is [return 0]; the outer one is a loop that goes on after [newbyte] wrapped around, as it
    does if the strings have the same first 2^32 bytes. *)
Fixpoint different_byte (fuel : nat) (newbyte : Z) (p u : bytes) : option (option (Z * Z)) :=
  if newbyte <? Z.of_nat (length u) then
    if negb (tab p newbyte =? tab u newbyte) then Some (Some (newbyte, Z.lxor (tab p newbyte) (tab u newbyte)))
    else match fuel with O => None | S fuel => different_byte fuel (u32 (newbyte + 1)) p u end
  else if negb (tab p newbyte =? 0) then Some (Some (newbyte, tab p newbyte))
  else Some None.

(** All bits but the highest one that is set. *)
Definition critical (b : Z) : Z :=
  let b := Z.lor b (Z.shiftr b 1) in
  let b := Z.lor b (Z.shiftr b 2) in
  let b := Z.lor b (Z.shiftr b 4) in
  Z.lxor (Z.land b (Z.lnot (Z.shiftr b 1))) 255.

(** The [for (;;)] that looks for the link to replace, and the replacement. *)
Fixpoint link (u : bytes) (newbyte newotherbits newdirection : Z) (wp : node) : node :=
  let newnode :=
    if newdirection =? 0 then Node newbyte newotherbits wp (Leaf u)
    else Node newbyte newotherbits (Leaf u) wp in
  match wp with
  | Leaf _ => newnode
  | Node byte otherbits c0 c1 =>
      if byte >? newbyte then newnode
      else if (byte =? newbyte) && (otherbits >? newotherbits) then newnode
      else if turn u byte otherbits =? 0
      then Node byte otherbits (link u newbyte newotherbits newdirection c0) c1
      else Node byte otherbits c0 (link u newbyte newotherbits newdirection c1)
  end.

(** [sizeof(struct CritbitNode)] *)
Definition NODE_SIZE : Z := 24.

(** The result and the tree, if the function returns; [malloc n] says whether an allocation of [n]
    bytes succeeds. *)
Definition critbit0_emplace (malloc : Z -> bool) (t : critbit0) (u : bytes) (ulen : Z) : option (Z * critbit0) :=
  let u := take (Z.to_nat ulen) u in
  match root t with
  | None => Some (if malloc (ulen + 1) then (1, Tree (Some (Leaf u)) 1) else (-1, t))
  | Some r =>
      let p := walk u r in
      different ← different_byte (length u) 0 p u;
      Some (match different with
            | None => (0, t)
            | Some (newbyte, bits) =>
                let newotherbits := critical bits in
                let newdirection := direction newotherbits (tab p newbyte) in
                if malloc NODE_SIZE && malloc (ulen + 1)
                then (1, Tree (Some (link u newbyte newotherbits newdirection r)) (u64 (count t + 1)))
                else (-1, t)
            end)
  end.

Definition critbit0_insert (malloc : Z -> bool) (t : critbit0) (u : bytes) : option (Z * critbit0) :=
  critbit0_emplace malloc t u (Z.of_nat (length u)).

(** [None] when the string is not there; [Some None] when the link itself goes away. *)
Fixpoint unlink (u : bytes) (p : node) : option (option node) :=
  match p with
  | Leaf s => if bool_decide (u = s) then Some None else None
  | Node byte otherbits c0 c1 =>
      if turn u byte otherbits =? 0
      then match unlink u c0 with
           | None => None
           | Some None => Some (Some c1)
           | Some (Some c) => Some (Some (Node byte otherbits c c1))
           end
      else match unlink u c1 with
           | None => None
           | Some None => Some (Some c0)
           | Some (Some c) => Some (Some (Node byte otherbits c0 c))
           end
  end.

Definition critbit0_delete (t : critbit0) (u : bytes) : bool * critbit0 :=
  match root t with
  | None => (false, t)
  | Some p =>
      match unlink u p with
      | None => (false, t)
      | Some None => (true, Tree None 0)
      | Some (Some q) => (true, Tree (Some q) (u64 (count t - 1)))
      end
  end.

Definition critbit0_clear (t : critbit0) : critbit0 := Tree None 0.

(** A callback works on a state of its own and returns a number. *)
Section Traverse.
Context {S : Type} (callback : bytes -> S -> Z * S).

Fixpoint allprefixed_traverse (top : node) (arg : S) : Z * S :=
  match top with
  | Leaf s => callback s arg
  | Node _ _ c0 c1 =>
      let '(rc, arg) := allprefixed_traverse c0 arg in
      if negb (rc =? 0) then (rc, arg)
      else
        let '(rc, arg) := allprefixed_traverse c1 arg in
        if negb (rc =? 0) then (rc, arg) else (0, arg)
  end.

(** The walk that also keeps [top]. *)
Fixpoint walk_top (u : bytes) (p top : node) : bytes * node :=
  match p with
  | Leaf s => (s, top)
  | Node byte otherbits c0 c1 =>
      let p := if turn u byte otherbits =? 0 then c0 else c1 in
      walk_top u p (if byte <? Z.of_nat (length u) then p else top)
  end.

Definition critbit0_allprefixed (t : critbit0) (prefix : bytes) (arg : S) : Z * S :=
  match root t with
  | None => (0, arg)
  | Some r =>
      let '(p, top) := walk_top prefix r r in
      if negb (bool_decide (take (length prefix) p = prefix)) then (0, arg)
      else allprefixed_traverse top arg
  end.
End Traverse.

Definition insert_all (malloc : Z -> bool) (l : list bytes) (t : critbit0) : critbit0 :=
  foldl (fun t u => match critbit0_insert malloc t u with Some (_, t) => t | None => t end) t l.
Definition sample_tree : critbit0 :=
  insert_all (fun _ => true) [bstr "foo"; bstr "bar"; bstr "foobar"; bstr "baz"; bstr "fo"] (Tree None 0).

Example critbit_1 : critbit0_contains sample_tree (bstr "foo") = true /\
  critbit0_contains sample_tree (bstr "f") = false /\ count sample_tree = 5.
Proof. repeat split; vm_compute; reflexivity. Qed.
Example critbit_2 : critbit0_allprefixed (fun s l => (0, l ++ [s])) sample_tree (bstr "fo") [] =
  (0, [bstr "fo"; bstr "foo"; bstr "foobar"]).
Proof. vm_compute. reflexivity. Qed.

(* ------------------------------------------------------------------ *)
(** ** The contract: a set of strings *)

(** The strings of a tree, in the order of the traversal. *)
Fixpoint keys (p : node) : list bytes :=
  match p with Leaf s => [s] | Node _ _ c0 c1 => keys c0 ++ keys c1 end.

Definition elems (t : critbit0) : list bytes := match root t with None => [] | Some p => keys p end.

(** Bit [p] of a string, counted from the highest bit of its first byte; a string goes on with
    zeros. *)
Definition bit (k : bytes) (p : Z) : bool := Z.testbit (byte_at k (p / 8)) (7 - p mod 8).

Definition agree (k k' : bytes) (p : Z) : Prop := forall q, 0 <= q < p -> bit k q = bit k' q.

(** A string as C has it. *)
Definition key_ok (k : bytes) : Prop := Forall (fun c => 1 <= c < 256) k.

(** The node that tests bit [p]. *)
Definition tests (byte otherbits p : Z) : Prop :=
  0 <= p /\ byte = p / 8 /\ otherbits = 255 - 2 ^ (7 - p mod 8).

(** A tree in which every node tests the first bit in which the strings below it differ, at
    or behind bit [n]. *)
Inductive wf : Z -> node -> Prop :=
| wf_leaf n k : key_ok k -> wf n (Leaf k)
| wf_node n p byte otherbits c0 c1 :
    n <= p -> tests byte otherbits p -> wf (p + 1) c0 -> wf (p + 1) c1 ->
    Forall (fun k => bit k p = false) (keys c0) -> Forall (fun k => bit k p = true) (keys c1) ->
    (forall k k', k ∈ keys c0 ++ keys c1 -> k' ∈ keys c0 ++ keys c1 -> agree k k' p) ->
    wf n (Node byte otherbits c0 c1).

Definition tree_ok (t : critbit0) : Prop :=
  match root t with None => True | Some p => wf 0 p end /\
  count t = Z.of_nat (length (elems t)).

Definition has_prefix (u k : bytes) : Prop := take (length u) k = u.
#[global] Instance has_prefix_dec u k : Decision (has_prefix u k).
Proof. unfold has_prefix. apply _. Defined.

(** The strings that start with [u]. *)
Definition matches (t : critbit0) (u : bytes) : list bytes := filter (has_prefix u) (elems t).

(** The callback over a list, up to the first result that is not 0. *)
Fixpoint run_callback {S} (callback : bytes -> S -> Z * S) (l : list bytes) (arg : S) : Z * S :=
  match l with
  | [] => (0, arg)
  | s :: l => let '(rc, arg) := callback s arg in
              if negb (rc =? 0) then (rc, arg) else run_callback callback l arg
  end.

(** What a program does with a tree, and its answers. *)
Inductive op :=
| Insert (malloc : Z -> bool) (u : bytes)
| Delete (u : bytes)
| Contains (u : bytes)
| Clear
| Count.

Definition step (t : critbit0) (o : op) : option (Z * critbit0) :=
  match o with
  | Insert malloc u => critbit0_insert malloc t u
  | Delete u => let '(b, t) := critbit0_delete t u in Some (Z.b2z b, t)
  | Contains u => Some (Z.b2z (critbit0_contains t u), t)
  | Clear => Some (0, critbit0_clear t)
  | Count => Some (count t, t)
  end.

(** The same for a set of strings: only an insertion that needs memory can fail. *)
Definition set_step (s : gset bytes) (o : op) : Z * gset bytes :=
  match o with
  | Insert malloc u =>
      if decide (u ∈ s) then (0, s)
      else if (bool_decide (s = ∅) || malloc NODE_SIZE) && malloc (Z.of_nat (length u) + 1)
      then (1, {[u]} ∪ s) else (-1, s)
  | Delete u => if decide (u ∈ s) then (1, s ∖ {[u]}) else (0, s)
  | Contains u => (Z.b2z (bool_decide (u ∈ s)), s)
  | Clear => (0, ∅)
  | Count => (Z.of_nat (size s), s)
  end.

(** All answers, if all calls return. *)
Fixpoint answers (t : critbit0) (ops : list op) : option (list Z) :=
  match ops with
  | [] => Some []
  | o :: ops => '(r, t) ← step t o; rs ← answers t ops; Some (r :: rs)
  end.
Fixpoint set_answers (s : gset bytes) (ops : list op) : list Z :=
  match ops with [] => [] | o :: ops => let '(r, s) := set_step s o in r :: set_answers s ops end.

(** Strings that are inserted are shorter than 4 GB. *)
Definition op_ok (o : op) : Prop :=
  match o with
  | Insert _ u => key_ok u /\ Z.of_nat (length u) < 2 ^ 32
  | Delete u | Contains u => key_ok u
  | _ => True
  end.

Definition set_of (t : critbit0) : gset bytes := list_to_set (elems t).

(* ------------------------------------------------------------------ *)
(** ** Lemmas: bits *)

Lemma byte_at_byte k b : key_ok k -> is_byte (byte_at k b).
Proof.
  intros H. unfold byte_at. destruct (b <? _); [|unfold is_byte; lia]. apply Bytes_tab.
  eapply Forall_impl; [exact H|]. unfold is_byte. cbn. lia.
Qed.

Lemma byte_at_S c k b : 0 <= b -> byte_at (c :: k) (b + 1) = byte_at k b.
Proof.
  intros H. unfold byte_at, tab. cbn [length]. rewrite Nat2Z.inj_succ.
  replace (Z.to_nat (b + 1)) with (S (Z.to_nat b)) by lia. cbn [nth].
  destruct (Z.ltb_spec b (Z.of_nat (length k))), (Z.ltb_spec (b + 1) (Z.succ (Z.of_nat (length k)))); lia || done.
Qed.

Lemma byte_at_0 k : byte_at k 0 = hd 0 k.
Proof. by destruct k. Qed.

Lemma byte_at_tl k b : 0 <= b -> byte_at (tl k) b = byte_at k (b + 1).
Proof. intros H. destruct k as [|c k]; [|by rewrite byte_at_S]. cbn [tl]. unfold byte_at. cbn [length].
  rewrite !(proj2 (Z.ltb_ge _ _)) by (cbn; lia). done. Qed.

Lemma tab_byte_at k b : 0 <= b -> tab k b = byte_at k b.
Proof.
  intros H. unfold byte_at. destruct (Z.ltb_spec b (Z.of_nat (length k))); [done|].
  unfold tab. apply nth_overflow. lia.
Qed.

(** The byte and the bit of a position. *)
Lemma position p : 0 <= p -> 0 <= p / 8 /\ 0 <= 7 - p mod 8 <= 7.
Proof.
  intros H. pose proof (Z.mod_pos_bound p 8 ltac:(lia)). pose proof (Z.div_pos p 8 ltac:(lia) ltac:(lia)). lia.
Qed.

Lemma direction_ok j c : 0 <= j <= 7 -> is_byte c ->
  direction (255 - 2 ^ j) c = if Z.testbit c j then 1 else 0.
Proof.
  intros Hj Hc.
  assert (forallb (fun c => forallb (fun j => direction (255 - 2 ^ j) c =? (if Z.testbit c j then 1 else 0))
    (zbelow 8)) (zbelow 256) = true) as F by (vm_compute; reflexivity).
  pose proof (forall_byte _ F c Hc) as G. clear F. cbv beta in G.
  pose proof (forall_below 8 _ G j ltac:(lia)) as E. by apply Z.eqb_eq in E.
Qed.

Lemma turn_bit u byte otherbits p :
  key_ok u -> tests byte otherbits p -> turn u byte otherbits = if bit u p then 1 else 0.
Proof.
  intros K (Hp & -> & ->). unfold turn, bit. apply direction_ok; [apply position; done|by apply byte_at_byte].
Qed.

Lemma critical_ok x : 1 <= x < 256 -> critical x = 255 - 2 ^ Z.log2 x /\ 0 <= Z.log2 x <= 7.
Proof.
  intros Hx.
  assert (forallb (fun x => (x =? 0) || ((critical x =? 255 - 2 ^ Z.log2 x) && (Z.log2 x <=? 7))) (zbelow 256) = true)
    as F by (vm_compute; reflexivity).
  pose proof (forall_byte _ F x ltac:(unfold is_byte; lia)) as G. clear F. cbv beta in G.
  rewrite (proj2 (Z.eqb_neq x 0)) in G by lia. cbn [orb] in G. pose proof (Z.log2_nonneg x). lia.
Qed.

(** Positions from a byte and a bit. *)
Lemma position_of b j : 0 <= b -> 0 <= j <= 7 -> (8 * b + (7 - j)) / 8 = b /\ 7 - (8 * b + (7 - j)) mod 8 = j.
Proof.
  intros Hb Hj. rewrite (Z.mul_comm 8), Z.add_comm.
  rewrite Z.div_add, Z.mod_add, Z.div_small, Z.mod_small by lia. lia.
Qed.

(** A string ends at its first NUL, and is determined by its bytes. *)
Lemma byte_at_zero k b : key_ok k -> 0 <= b -> byte_at k b = 0 -> (length k <= Z.to_nat b)%nat.
Proof.
  intros K Hb E. unfold byte_at in E. destruct (Z.ltb_spec b (Z.of_nat (length k))) as [L|L]; [|lia]. exfalso.
  unfold tab in E. unfold key_ok in K. rewrite List.Forall_forall in K.
  pose proof (K _ (nth_In k 0 (n := Z.to_nat b) ltac:(lia))). lia.
Qed.

Lemma bytes_determined k k' : key_ok k -> key_ok k' -> (forall i, 0 <= i -> byte_at k i = byte_at k' i) -> k = k'.
Proof.
  intros K K' A.
  assert (length k = length k') as E.
  { pose proof (A (Z.of_nat (length k)) ltac:(lia)) as E1. pose proof (A (Z.of_nat (length k')) ltac:(lia)) as E2.
    unfold byte_at in E1 at 1. unfold byte_at in E2 at 2. rewrite Z.ltb_irrefl in E1, E2. symmetry in E1.
    apply byte_at_zero in E1, E2; [lia|done|lia|done|lia]. }
  apply (nth_ext k k' 0 0 E). intros n Hn. specialize (A (Z.of_nat n) ltac:(lia)). unfold byte_at, tab in A.
  by rewrite !Nat2Z.id, !(proj2 (Z.ltb_lt _ _)) in A by lia.
Qed.

(** [different_byte] finds the first byte that differs, the end included. *)
Lemma different_byte_spec p u fuel : forall b, key_ok u -> key_ok p -> Z.of_nat (length u) < 2 ^ 32 ->
  0 <= b -> Z.of_nat (length u) - b <= Z.of_nat fuel -> b <= Z.of_nat (length u) ->
  (forall i, 0 <= i < b -> byte_at p i = byte_at u i) ->
  exists r, different_byte fuel b p u = Some r /\
  match r with
  | None => p = u
  | Some (k, x) => 0 <= k /\ x = Z.lxor (byte_at p k) (byte_at u k) /\ x <> 0 /\
      forall i, 0 <= i < k -> byte_at p i = byte_at u i
  end.
Proof.
  induction fuel as [|fuel IH]; intros b Ku Kp Lu Hb Lf Le A; cbn [different_byte]; rewrite !tab_byte_at by done;
    destruct (Z.ltb_spec b (Z.of_nat (length u))) as [L|L]; try lia.
  2: { destruct (Z.eqb_spec (byte_at p b) (byte_at u b)) as [E|E]; cbn [negb].
    - rewrite u32_id by lia. apply IH; try done; try lia. intros i Hi.
      destruct (decide (i = b)) as [->|N]; [done|]. apply A. lia.
    - eexists. split; [done|]. cbn. split; [done|]. split; [done|]. split; [|done]. intros X. by apply Z.lxor_eq in X. }
  all: assert (b = Z.of_nat (length u)) as -> by lia;
    assert (byte_at u (Z.of_nat (length u)) = 0) as U0 by (unfold byte_at; by rewrite Z.ltb_irrefl);
    destruct (Z.eqb_spec (byte_at p (Z.of_nat (length u))) 0) as [E|E]; cbn [negb]; eexists; (split; [done|]); cbn;
    [|rewrite U0, Z.lxor_0_r; split; [lia|]; split; [done|]; split; done].
  all: apply bytes_determined; [done|done|]; intros i Hi; destruct (decide (i < Z.of_nat (length u))); [apply A; lia|];
    pose proof (byte_at_zero p _ Kp Hb E);
    unfold byte_at; by rewrite !(proj2 (Z.ltb_ge i _)) by lia.
Qed.

(** The new node of an insertion tests the first bit in which the strings differ. *)
Lemma critical_bit p u k : key_ok p -> key_ok u -> 0 <= k ->
  let x := Z.lxor (byte_at p k) (byte_at u k) in
  x <> 0 -> (forall i, 0 <= i < k -> byte_at p i = byte_at u i) ->
  exists d, tests k (critical x) d /\ agree p u d /\ bit p d = negb (bit u d) /\
    direction (critical x) (tab p k) = if bit p d then 1 else 0.
Proof.
  intros Kp Ku Hk x Nx A.
  pose proof (byte_at_byte p k Kp) as Bp. pose proof (byte_at_byte u k Ku) as Bu.
  pose proof (lxor_byte _ _ Bp Bu) as Bx. fold x in Bx.
  unfold is_byte in Bx. destruct (critical_ok x ltac:(lia)) as [-> Hj].
  destruct (position_of k (Z.log2 x) Hk Hj) as [D M].
  exists (8 * k + (7 - Z.log2 x)). split; [split; [lia|by rewrite D, M]|]. split; [|split].
  - intros q Hq. unfold bit. pose proof (position q ltac:(lia)) as [Hd Hm].
    pose proof (Z.div_mod q 8 ltac:(lia)) as Eq.
    destruct (decide (q / 8 < k)) as [L|L]; [by rewrite A by lia|].
    assert (q / 8 = k) as -> by lia.
    assert (Z.testbit x (7 - q mod 8) = false) as T by (apply Z.bits_above_log2; lia).
    subst x. rewrite Z.lxor_spec in T. by destruct (Z.testbit (byte_at p k) _), (Z.testbit (byte_at u k) _).
  - unfold bit. rewrite D, M. assert (Z.testbit x (Z.log2 x) = true) as T by (apply Z.bit_log2; lia).
    unfold x in T at 1. rewrite Z.lxor_spec in T.
    by destruct (Z.testbit (byte_at p k) _), (Z.testbit (byte_at u k) _).
  - rewrite tab_byte_at by lia. unfold bit. rewrite D, M. by apply direction_ok.
Qed.

(* ------------------------------------------------------------------ *)
(** ** Lemmas: walks *)

Lemma turn_eqb u byte otherbits p :
  key_ok u -> tests byte otherbits p -> (turn u byte otherbits =? 0) = negb (bit u p).
Proof. intros K T. rewrite (turn_bit u byte otherbits p K T). by destruct (bit u p). Qed.

Lemma wf_keys n t : wf n t -> Forall key_ok (keys t).
Proof. induction 1; cbn [keys]; [by constructor|]. by apply Forall_app. Qed.

Lemma wf_key n t k : wf n t -> k ∈ keys t -> key_ok k.
Proof. intros W H. pose proof (wf_keys n t W) as F. rewrite Forall_forall in F. by apply F. Qed.

Lemma walk_in u t : walk u t ∈ keys t.
Proof.
  induction t as [s|b o c0 IH0 c1 IH1]; cbn [walk keys]; [apply list_elem_of_here|].
  apply elem_of_app. destruct (turn u b o =? 0); auto.
Qed.

(** Which child a string of the tree is in. *)
Lemma wf_side n byte otherbits c0 c1 k :
  wf n (Node byte otherbits c0 c1) -> exists p, n <= p /\ tests byte otherbits p /\
    wf (p + 1) c0 /\ wf (p + 1) c1 /\
    (k ∈ keys c0 ++ keys c1 <-> if bit k p then k ∈ keys c1 else k ∈ keys c0) /\
    (forall k k', k ∈ keys c0 ++ keys c1 -> k' ∈ keys c0 ++ keys c1 -> agree k k' p) /\
    Forall (fun k => bit k p = false) (keys c0) /\ Forall (fun k => bit k p = true) (keys c1).
Proof.
  intros W. inversion W as [|? p ? ? ? ? L T W0 W1 F0 F1 A]; subst. exists p.
  repeat (split; [done|]). split; [|done]. rewrite elem_of_app.
  pose proof (proj1 (Forall_forall _ _) F0) as G0. pose proof (proj1 (Forall_forall _ _) F1) as G1.
  split.
  - intros [H|H]; [by rewrite (G0 k H)|by rewrite (G1 k H)].
  - destruct (bit k p); auto.
Qed.

Lemma walk_found n t u : wf n t -> u ∈ keys t -> walk u t = u.
Proof.
  revert n. induction t as [s|b o c0 IH0 c1 IH1]; intros n W H.
  - cbn in *. by apply list_elem_of_singleton in H.
  - pose proof (wf_key n _ u W H) as K.
    destruct (wf_side n b o c0 c1 u W) as (p & _ & T & W0 & W1 & S & _). cbn [keys] in H. apply S in H.
    cbn [walk]. rewrite (turn_eqb u b o p K T). destruct (bit u p); cbn [negb]; [by apply (IH1 (p + 1))|by apply (IH0 (p + 1))].
Qed.

Lemma agree_sym k k' p : agree k k' p -> agree k' k p.
Proof. intros H q Hq. by rewrite H. Qed.
Lemma agree_trans k k' k'' p : agree k k' p -> agree k' k'' p -> agree k k'' p.
Proof. intros H H' q Hq. by rewrite H, H'. Qed.
Lemma agree_le k k' p q : agree k k' p -> q <= p -> agree k k' q.
Proof. intros H L r Hr. apply H. lia. Qed.

(** All strings below a node agree on the bits in front of it. *)
Lemma wf_agree n t k k' : wf n t -> k ∈ keys t -> k' ∈ keys t ->
  agree k k' n.
Proof.
  intros W Hk Hk'. inversion W as [? s Ks|? p ? ? ? ? L T W0 W1 F0 F1 A]; subst; cbn [keys] in *.
  - apply list_elem_of_singleton in Hk, Hk'. by subst.
  - apply agree_le with p; [by apply A|done].
Qed.

Lemma NoDup_keys n t : wf n t -> NoDup (keys t).
Proof.
  induction 1 as [n k K|n p b o c0 c1 L T W0 IH0 W1 IH1 F0 F1 A]; cbn [keys]; [apply NoDup_singleton|].
  apply NoDup_app. split; [done|]. split; [|done]. intros k H0 H1.
  rewrite Forall_forall in F0, F1. specialize (F0 k H0). specialize (F1 k H1). congruence.
Qed.

(* ------------------------------------------------------------------ *)
(** ** Lemmas: insertion *)

(** Comparing nodes compares the bits they test. *)
Lemma tests_before b o p b' o' p' :
  tests b o p -> tests b' o' p' -> ((b >? b') || ((b =? b') && (o >? o')) = true <-> p' < p).
Proof.
  intros (Hp & -> & ->) (Hp' & -> & ->). rewrite !Z.gtb_ltb.
  pose proof (position p Hp) as [? Hm]. pose proof (position p' Hp') as [? Hm'].
  pose proof (Z.div_mod p 8 ltac:(lia)). pose proof (Z.div_mod p' 8 ltac:(lia)).
  assert (255 - 2 ^ (7 - p' mod 8) < 255 - 2 ^ (7 - p mod 8) <-> 7 - p mod 8 < 7 - p' mod 8) as C.
  { split; intros X.
    - destruct (decide (7 - p mod 8 < 7 - p' mod 8)) as [|N]; [done|].
      pose proof (Z.pow_le_mono_r 2 (7 - p' mod 8) (7 - p mod 8)). lia.
    - pose proof (Z.pow_lt_mono_r 2 (7 - p mod 8) (7 - p' mod 8)). lia. }
  rewrite orb_true_iff, andb_true_iff, !Z.ltb_lt, Z.eqb_eq, C. lia.
Qed.

Section Link.
Context (u : bytes) (d newbyte newotherbits newdirection : Z).
Context (Ku : key_ok u) (T : tests newbyte newotherbits d).

(** The new node above a tree whose strings agree with [u] up to bit [d]. *)
Lemma new_node n p t :
  n <= d -> wf n t -> p ∈ keys t -> (forall k, k ∈ keys t -> agree p k (d + 1)) -> wf (d + 1) t ->
  agree p u d -> bit p d = negb (bit u d) -> newdirection = (if bit p d then 1 else 0) ->
  let new := if newdirection =? 0 then Node newbyte newotherbits t (Leaf u)
             else Node newbyte newotherbits (Leaf u) t in
  wf n new /\ keys new ≡ₚ u :: keys t.
Proof.
  intros L W Hp All W' A B ->.
  assert (forall k, k ∈ keys t -> bit k d = bit p d) as Bk.
  { intros k Hk. symmetry. apply (All k Hk). destruct T. lia. }
  assert (forall k k', k ∈ u :: keys t -> k' ∈ u :: keys t -> agree k k' d) as Ag.
  { assert (forall k, k ∈ u :: keys t -> agree p k d) as G.
    { intros k Hk. apply elem_of_cons in Hk as [->|Hk]; [done|]. apply agree_le with (d + 1); [by apply All|lia]. }
    intros k k' Hk Hk'. apply agree_trans with p; [apply agree_sym; by apply G|by apply G]. }
  assert (Forall (fun k => bit k d = bit p d) (keys t)) as Fk by (apply Forall_forall; exact Bk).
  destruct (bit p d) eqn:E; cbn [Z.eqb].
  - split; [|done]. apply wf_node with d; [done|done|by apply wf_leaf|done| |done|exact Ag].
    apply Forall_singleton. by destruct (bit u d).
  - split; [|cbn [keys]; by rewrite Permutation_app_comm].
    apply wf_node with d; [done|done|done|by apply wf_leaf|done| |].
    + apply Forall_singleton. by destruct (bit u d).
    + intros k k' Hk Hk'. cbn [keys] in Hk, Hk'. rewrite Permutation_app_comm in Hk, Hk'. by apply Ag.
Qed.

Lemma link_spec t : forall n,
  wf n t -> n <= d -> let p := walk u t in
  agree p u d -> bit p d = negb (bit u d) -> newdirection = (if bit p d then 1 else 0) ->
  wf n (link u newbyte newotherbits newdirection t) /\
  keys (link u newbyte newotherbits newdirection t) ≡ₚ u :: keys t.
Proof.
  induction t as [s|b o c0 IH0 c1 IH1]; intros n W L p A B N.
  - apply (new_node n p (Leaf s)); try done; [apply list_elem_of_here| |].
    + intros k Hk. apply list_elem_of_singleton in Hk. by subst.
    + inversion W; subst. by constructor.
  - pose proof (walk_in u (Node b o c0 c1)) as Hp. fold p in Hp.
    revert N. pose proof W as W2. inversion W2 as [|? q ? ? ? ? Lq Tq W0 W1 F0 F1 Aq]; subst. clear W2. intros N.
    cbn [link].
    assert ((b >? newbyte) || ((b =? newbyte) && (o >? newotherbits)) = true <-> d < q) as C
      by (by apply tests_before).
    destruct (decide (d < q)) as [Ld|Ld].
    + assert (wf n (Node b o c0 c1) -> _) as G
        by exact (fun w => new_node n p (Node b o c0 c1) L w Hp
             (fun k Hk => agree_le p k q (d + 1) (Aq p k Hp Hk) ltac:(lia))
             (wf_node (d + 1) q b o c0 c1 ltac:(lia) Tq W0 W1 F0 F1 Aq) A B N).
      apply C in Ld. apply orb_true_iff in Ld as [->|Ld]; [by apply G|]. rewrite Ld.
      destruct (b >? newbyte); by apply G.
    + assert ((b >? newbyte) || ((b =? newbyte) && (o >? newotherbits)) = false) as F.
      { apply not_true_is_false. intros E. apply C in E. lia. }
      apply orb_false_iff in F as [-> ->].
      assert (bit p q = bit u q) as Bq.
      { subst p. cbn [walk]. rewrite (turn_eqb u b o q Ku Tq). rewrite Forall_forall in F0, F1.
        destruct (bit u q); cbn [negb]; [apply F1|apply F0]; apply walk_in. }
      assert (d <> q) as Nd by (intros ->; rewrite B in Bq; by destruct (bit u q)).
      assert (forall k, k ∈ keys c0 ++ keys c1 -> agree u k q) as Au.
      { intros k Hk. apply agree_trans with p; [apply agree_sym; apply agree_le with d; [done|lia]|by apply Aq]. }
      subst p. cbn [walk] in *. rewrite (turn_eqb u b o q Ku Tq) in *.
      destruct (bit u q) eqn:Eu; cbn [negb] in *.
      * destruct (IH1 (q + 1) W1 ltac:(lia) A B N) as [W1' P1]. split.
        -- apply wf_node with q; try done.
           ++ rewrite P1. by constructor.
           ++ intros k k'. rewrite P1, <- Permutation_middle, !elem_of_cons.
              intros [->|Hk] [->|Hk']; [done|by apply Au|by apply agree_sym, Au|by apply Aq].
        -- cbn [keys]. by rewrite P1, <- Permutation_middle.
      * destruct (IH0 (q + 1) W0 ltac:(lia) A B N) as [W0' P0]. split.
        -- apply wf_node with q; try done.
           ++ rewrite P0. by constructor.
           ++ intros k k'. rewrite P0. cbn [app]. rewrite !elem_of_cons.
              intros [->|Hk] [->|Hk']; [done|by apply Au|by apply agree_sym, Au|by apply Aq].
        -- cbn [keys]. by rewrite P0.
Qed.
End Link.

(* ------------------------------------------------------------------ *)
(** ** Lemmas: deletion *)

Lemma wf_mono m n t : wf m t -> n <= m -> wf n t.
Proof. intros W L. inversion W; subst; [by apply wf_leaf|]. eapply wf_node; [|done..]. lia. Qed.

Lemma unlink_spec u : key_ok u -> forall t n, wf n t ->
  match unlink u t with
  | None => u ∉ keys t
  | Some None => keys t = [u]
  | Some (Some q) => wf n q /\ keys t ≡ₚ u :: keys q
  end.
Proof.
  intros Ku. induction t as [s|b o c0 IH0 c1 IH1]; intros n W; cbn [unlink keys].
  - case_bool_decide as E; [by subst|]. by rewrite list_elem_of_singleton.
  - inversion W as [|? q ? ? ? ? Lq Tq W0 W1 F0 F1 Aq]; subst.
    rewrite (turn_eqb u b o q Ku Tq). destruct (bit u q) eqn:Eu; cbn [negb].
    + assert (u ∉ keys c0) as N0.
      { intros H. rewrite Forall_forall in F0. specialize (F0 u H). congruence. }
      specialize (IH1 (q + 1) W1). destruct (unlink u c1) as [[c|]|].
      * destruct IH1 as [Wc P]. split; [|by rewrite P, <- Permutation_middle].
        apply wf_node with q; try done.
        -- rewrite P in F1. by apply Forall_cons in F1 as [_ F1].
        -- intros k k' Hk Hk'. apply Aq; rewrite P, <- Permutation_middle; by apply list_elem_of_further.
      * rewrite IH1. split; [|by rewrite Permutation_app_comm]. apply wf_mono with (q + 1); [done|lia].
      * rewrite elem_of_app. intuition.
    + assert (u ∉ keys c1) as N1.
      { intros H. rewrite Forall_forall in F1. specialize (F1 u H). congruence. }
      specialize (IH0 (q + 1) W0). destruct (unlink u c0) as [[c|]|].
      * destruct IH0 as [Wc P]. split; [|by rewrite P].
        apply wf_node with q; try done.
        -- rewrite P in F0. by apply Forall_cons in F0 as [_ F0].
        -- intros k k' Hk Hk'. apply Aq; rewrite P; by apply list_elem_of_further.
      * rewrite IH0. split; [|done]. apply wf_mono with (q + 1); [done|lia].
      * rewrite elem_of_app. intuition.
Qed.

(* ------------------------------------------------------------------ *)
(** ** Lemmas: order *)

Abbreviation str_lt := (fun k k' : bytes => lex k k' = Lt).

Lemma lex_first k : forall k' b, key_ok k -> key_ok k' -> 0 <= b ->
  (forall i, 0 <= i < b -> byte_at k i = byte_at k' i) -> byte_at k b < byte_at k' b -> lex k k' = Lt.
Proof.
  induction k as [|c k IH]; intros [|c' k'] b K K' Hb A L.
  - by apply Z.lt_irrefl in L.
  - done.
  - pose proof (byte_at_byte (c :: k) b K) as B. unfold is_byte in B.
    change (byte_at [] b) with (if b <? 0 then tab [] b else 0) in L. destruct (b <? 0); [|lia].
    unfold tab in L. destruct (Z.to_nat b); cbn in L; lia.
  - apply Forall_cons in K as [Hc K]. apply Forall_cons in K' as [Hc' K']. cbn [lex].
    destruct (decide (b = 0)) as [->|N].
    + rewrite !byte_at_0 in L. cbn in L. by rewrite (proj2 (Z.compare_lt_iff c c')) by lia.
    + pose proof (A 0 ltac:(lia)) as E. rewrite !byte_at_0 in E. cbn in E. subst c'.
      rewrite Z.compare_refl. cbn [then_compare]. apply (IH k' (b - 1)); [done|done|lia| |].
      * intros i Hi. rewrite <- (byte_at_S c k i), <- (byte_at_S c k' i) by lia. apply A. lia.
      * rewrite <- (byte_at_S c k (b - 1)), <- (byte_at_S c k' (b - 1)) by lia.
        by replace (b - 1 + 1) with b by lia.
Qed.

(** A byte is determined by its bits, the highest first. *)
Lemma byte_bits_lt x y j :
  is_byte x -> is_byte y -> 0 <= j <= 7 -> (forall i, j < i <= 7 -> Z.testbit x i = Z.testbit y i) ->
  Z.testbit x j = false -> Z.testbit y j = true -> x < y.
Proof.
  intros Hx Hy Hj A X Y. unfold is_byte in *.
  assert (Z.shiftr x (j + 1) = Z.shiftr y (j + 1)) as S.
  { apply Z.bits_inj'. intros i Hi. rewrite !Z.shiftr_spec by done.
    destruct (decide (i + (j + 1) <= 7)); [apply A; lia|]. by rewrite !byte_high by (unfold is_byte; lia). }
  assert (Z.testbit (x mod 2 ^ (j + 1)) j = false /\ Z.testbit (y mod 2 ^ (j + 1)) j = true) as [X' Y'].
  { rewrite !Z.mod_pow2_bits_low by lia. done. }
  rewrite !Z.shiftr_div_pow2 in S by lia. assert (0 < 2 ^ j) as P by (apply Z.pow_pos_nonneg; lia).
  assert (2 ^ (j + 1) = 2 * 2 ^ j) as E by (rewrite Z.pow_add_r by lia; lia).
  pose proof (Z.div_mod x (2 ^ (j + 1)) ltac:(lia)). pose proof (Z.div_mod y (2 ^ (j + 1)) ltac:(lia)).
  pose proof (Z.mod_pos_bound x (2 ^ (j + 1)) ltac:(lia)) as Bx. pose proof (Z.mod_pos_bound y (2 ^ (j + 1)) ltac:(lia)) as By.
  set (a := x mod 2 ^ (j + 1)) in *. set (b := y mod 2 ^ (j + 1)) in *.
  assert (forall z, 0 <= z < 2 * 2 ^ j -> Z.testbit z j = true <-> 2 ^ j <= z) as T.
  { intros z Hz. rewrite Z.testbit_true by lia.
    assert (z / 2 ^ j = 0 \/ z / 2 ^ j = 1) as D.
    { assert (z / 2 ^ j < 2) by (apply Z.div_lt_upper_bound; lia).
      pose proof (Z.div_pos z (2 ^ j) ltac:(lia) P). lia. }
    pose proof (Z.div_mod z (2 ^ j) ltac:(lia)). pose proof (Z.mod_pos_bound z (2 ^ j) P).
    destruct D as [D|D]; rewrite D in *; [change (0 mod 2) with 0|change (1 mod 2) with 1]; lia. }
  assert (2 ^ j <= b) by (apply T; [lia|done]).
  assert (a < 2 ^ j).
  { destruct (decide (2 ^ j <= a)) as [G|]; [|lia]. apply T in G; [congruence|lia]. }
  rewrite S in *. lia.
Qed.

Lemma byte_bits_eq x y :
  is_byte x -> is_byte y -> (forall i, 0 <= i <= 7 -> Z.testbit x i = Z.testbit y i) -> x = y.
Proof.
  intros Hx Hy A. apply Z.bits_inj'. intros i Hi. destruct (decide (i <= 7)); [apply A; lia|].
  by rewrite !byte_high by (done || lia).
Qed.

(** Strings that agree on the bits of their first [b] bytes have the same first [b] bytes. *)
Lemma agree_bytes k k' b p :
  key_ok k -> key_ok k' -> agree k k' p -> 0 <= b -> 8 * b + 8 <= p -> byte_at k b = byte_at k' b.
Proof.
  intros K K' A Hb L. apply byte_bits_eq; [by apply byte_at_byte..|]. intros i Hi.
  destruct (position_of b i Hb ltac:(lia)) as [D M]. specialize (A (8 * b + (7 - i)) ltac:(lia)).
  unfold bit in A. by rewrite D, M in A.
Qed.

Lemma bits_lt k k' p :
  key_ok k -> key_ok k' -> 0 <= p -> agree k k' p -> bit k p = false -> bit k' p = true -> lex k k' = Lt.
Proof.
  intros K K' Hp A F T. pose proof (position p Hp) as [Hd Hm]. pose proof (Z.div_mod p 8 ltac:(lia)) as E.
  apply (lex_first k k' (p / 8)); [done|done|done| |].
  - intros i Hi. apply (agree_bytes k k' i p); [done|done|done|lia|lia].
  - apply (byte_bits_lt _ _ (7 - p mod 8)); [by apply byte_at_byte..|lia| |done|done].
    intros i Hi. destruct (position_of (p / 8) i Hd ltac:(lia)) as [D M].
    specialize (A (8 * (p / 8) + (7 - i)) ltac:(lia)). unfold bit in A. by rewrite D, M in A.
Qed.

(** The traversal is in the order of [strcmp]. *)
Lemma keys_sorted n t : wf n t -> Sorted.StronglySorted str_lt (keys t).
Proof.
  induction 1 as [n k K|n p b o c0 c1 L T W0 IH0 W1 IH1 F0 F1 A]; cbn [keys]; [by repeat constructor|].
  apply SSorted_app_iff. split; [done|]. split; [done|]. intros x y Hx Hy. rewrite Forall_forall in F0, F1.
  apply (bits_lt x y p); [by apply (wf_key (p + 1) c0)|by apply (wf_key (p + 1) c1)|by destruct T| |by apply F0|by apply F1].
  apply A; apply elem_of_app; auto.
Qed.

(* ------------------------------------------------------------------ *)
(** ** Lemmas: prefixes *)

Lemma filter_none {A} (P : A -> Prop) `{forall x, Decision (P x)} (l : list A) :
  (forall x, P x -> x ∈ l -> False) -> filter P l = [].
Proof.
  intros N. induction l as [|x l IH]; [done|]. rewrite filter_cons_False.
  - apply IH. intros y Py Hy. apply (N y Py). by apply list_elem_of_further.
  - intros Px. apply (N x Px). apply list_elem_of_here.
Qed.

Lemma filter_every {A} (P : A -> Prop) `{forall x, Decision (P x)} (l : list A) :
  (forall x, x ∈ l -> P x) -> filter P l = l.
Proof.
  intros N. induction l as [|x l IH]; [done|]. rewrite filter_cons_True.
  - f_equal. apply IH. intros y Hy. apply N. by apply list_elem_of_further.
  - apply N, list_elem_of_here.
Qed.

Section Prefix.
Context (u : bytes) (Ku : key_ok u).

Abbreviation ubits := (8 * Z.of_nat (length u)).

Lemma has_prefix_bytes k : key_ok k ->
  has_prefix u k <-> forall i, 0 <= i < Z.of_nat (length u) -> byte_at k i = byte_at u i.
Proof.
  unfold has_prefix. revert k. induction Ku as [|c v Hc Kv IH]; intros k K; cbn [length].
  - rewrite take_0. split; [lia|done].
  - destruct k as [|x k]; cbn [take].
    + split; [done|]. intros A. specialize (A 0 ltac:(lia)). rewrite !byte_at_0 in A. cbn in A. lia.
    + apply Forall_cons in K as [Hx K]. specialize (IH Kv k K). split.
      * intros [= -> E] i Hi. destruct (decide (i = 0)) as [->|N]; [done|].
        replace i with (i - 1 + 1) by lia. rewrite !byte_at_S by lia. apply IH; [done|lia].
      * intros A. pose proof (A 0 ltac:(lia)) as E. rewrite !byte_at_0 in E. cbn in E. subst x. f_equal.
        apply IH. intros i Hi. specialize (A (i + 1) ltac:(lia)). by rewrite !byte_at_S in A by lia.
Qed.

Lemma has_prefix_agree k : key_ok k -> has_prefix u k <-> agree k u ubits.
Proof.
  intros K. rewrite has_prefix_bytes by done. split; intros A.
  - intros q Hq. unfold bit. pose proof (Z.div_mod q 8 ltac:(lia)). pose proof (position q ltac:(lia)).
    rewrite A by lia. done.
  - intros i Hi. apply (agree_bytes k u i ubits); [done|done|done|lia|lia].
Qed.

Lemma tests_byte b o p : tests b o p -> (b <? Z.of_nat (length u)) = (p <? ubits).
Proof.
  intros (Hp & -> & _). pose proof (Z.div_mod p 8 ltac:(lia)). pose proof (Z.mod_pos_bound p 8 ltac:(lia)).
  destruct (Z.ltb_spec (p / 8) (Z.of_nat (length u))), (Z.ltb_spec p ubits); lia || done.
Qed.

Lemma bit_behind p : 0 <= p -> ubits <= p -> bit u p = false.
Proof.
  intros Hp L. unfold bit, byte_at. pose proof (Z.div_mod p 8 ltac:(lia)).
  pose proof (Z.mod_pos_bound p 8 ltac:(lia)). rewrite (proj2 (Z.ltb_ge _ _)) by lia. apply Z.bits_0.
Qed.

Lemma walk_top_walk t top : (walk_top u t top).1 = walk u t.
Proof. revert top. induction t as [s|b o c0 IH0 c1 IH1]; intros top; [done|]. cbn. by destruct (_ =? 0). Qed.

(** Below the prefix the walk takes the first string and keeps [top]. *)
Lemma walk_top_behind t n : wf n t -> ubits <= n -> forall top,
  walk_top u t top = (hd [] (keys t), top) /\ keys t <> [].
Proof.
  induction 1 as [n k K|n p b o c0 c1 L T W0 IH0 W1 IH1 F0 F1 A]; intros Hn top; [done|].
  cbn [walk_top keys]. rewrite (tests_byte b o p T), (proj2 (Z.ltb_ge _ _)) by lia.
  rewrite (turn_eqb u b o p Ku T), bit_behind by (destruct T; lia). cbn [negb].
  destruct (IH0 ltac:(lia) top) as [-> N]. by destruct (keys c0).
Qed.

(** The strings with the prefix are those of [top], or there are none. *)
Lemma walk_top_spec t n : wf n t -> exists top,
  walk_top u t t = (hd [] (keys top), top) /\ keys top <> [] /\ wf ubits top /\
  filter (has_prefix u) (keys t) = filter (has_prefix u) (keys top).
Proof.
  induction 1 as [n k K|n p b o c0 c1 L T W0 IH0 W1 IH1 F0 F1 A].
  - exists (Leaf k). split; [done|]. split; [done|]. split; [by constructor|done].
  - destruct (Z.ltb_spec p ubits) as [Lp|Lp].
    + cbn [walk_top keys]. rewrite (tests_byte b o p T), (proj2 (Z.ltb_lt _ _)), (turn_eqb u b o p Ku T) by lia.
      rewrite filter_app.
      assert (forall c v, wf (p + 1) c -> Forall (fun k => bit k p = v) (keys c) -> bit u p = negb v ->
        filter (has_prefix u) (keys c) = []) as Empty.
      { intros c v W F E. apply filter_none. intros k P Hk.
        apply has_prefix_agree in P; [|by apply (wf_key (p + 1) c)]. rewrite Forall_forall in F.
        specialize (F k Hk). specialize (P p ltac:(destruct T; lia)). destruct v; cbn in E; congruence. }
      destruct (bit u p) eqn:E; cbn [negb].
      * rewrite (Empty c0 false W0 F0 eq_refl). exact IH1.
      * rewrite (Empty c1 true W1 F1 eq_refl), app_nil_r. exact IH0.
    + assert (wf ubits (Node b o c0 c1)) as W by (by apply wf_node with p).
      exists (Node b o c0 c1). destruct (walk_top_behind _ ubits W ltac:(lia) (Node b o c0 c1)) as [-> N]. done.
Qed.

(** Below [top] the first string decides for all. *)
Lemma top_prefix top : wf ubits top -> keys top <> [] ->
  filter (has_prefix u) (keys top) = if bool_decide (has_prefix u (hd [] (keys top))) then keys top else [].
Proof.
  intros W N. assert (hd [] (keys top) ∈ keys top) as Hh.
  { destruct (keys top); [done|]. apply list_elem_of_here. }
  set (h := hd [] (keys top)) in *. pose proof (wf_key _ _ h W Hh) as Kh. case_bool_decide as P.
  - apply has_prefix_agree in P; [|done]. apply filter_every. intros k Hk.
    apply has_prefix_agree; [by apply (wf_key _ _ k W)|].
    apply agree_trans with h; [by apply (wf_agree _ top)|done].
  - apply filter_none. intros k Q Hk. apply P. apply has_prefix_agree; [done|].
    apply has_prefix_agree in Q; [|by apply (wf_key _ _ k W)].
    apply agree_trans with k; [by apply (wf_agree _ top)|done].
Qed.
End Prefix.

Lemma run_callback_app {S} (callback : bytes -> S -> Z * S) l r arg :
  run_callback callback (l ++ r) arg =
  let '(rc, arg) := run_callback callback l arg in if negb (rc =? 0) then (rc, arg) else run_callback callback r arg.
Proof.
  revert arg. induction l as [|s l IH]; intros arg; [done|]. cbn [app run_callback].
  destruct (callback s arg) as [rc arg']. destruct (rc =? 0) eqn:E; cbn [negb]; [apply IH|by rewrite E].
Qed.

Lemma traverse_run {S} (callback : bytes -> S -> Z * S) top arg :
  allprefixed_traverse callback top arg = run_callback callback (keys top) arg.
Proof.
  revert arg. induction top as [s|b o c0 IH0 c1 IH1]; intros arg; cbn [allprefixed_traverse keys run_callback].
  - destruct (callback s arg) as [rc a]. destruct (Z.eqb_spec rc 0) as [->|]; done.
  - rewrite run_callback_app, IH0. destruct (run_callback callback (keys c0) arg) as [rc a]. destruct (rc =? 0); cbn [negb]; [|done].
    rewrite IH1. destruct (run_callback callback (keys c1) a) as [rc' a']. destruct (Z.eqb_spec rc' 0) as [->|]; done.
Qed.

(* ------------------------------------------------------------------ *)
(** ** Lemmas: operations *)

Lemma contains_spec t u : tree_ok t -> key_ok u -> critbit0_contains t u = bool_decide (u ∈ elems t).
Proof.
  intros [W _] Ku. unfold critbit0_contains, elems. destruct (root t) as [p|].
  - apply bool_decide_ext. split; [intros ->; apply walk_in|]. intros H. symmetry. by apply (walk_found 0).
  - symmetry. apply bool_decide_eq_false_2, not_elem_of_nil.
Qed.

Lemma insert_spec malloc t u :
  tree_ok t -> key_ok u -> Z.of_nat (length u) < 2 ^ 32 -> Z.of_nat (length (elems t)) + 1 < 2 ^ 64 ->
  exists rc t', critbit0_insert malloc t u = Some (rc, t') /\
  if decide (u ∈ elems t) then rc = 0 /\ t' = t
  else if (bool_decide (elems t = []) || malloc NODE_SIZE) && malloc (Z.of_nat (length u) + 1)
  then rc = 1 /\ tree_ok t' /\ elems t' ≡ₚ u :: elems t
  else rc = -1 /\ t' = t.
Proof.
  intros [W C] Ku Lu B. unfold critbit0_insert, critbit0_emplace. rewrite Nat2Z.id, firstn_all.
  unfold elems in *. destruct (root t) as [r|] eqn:Er.
  - pose proof (walk_in u r) as Hin. pose proof (wf_key 0 r _ W Hin) as Kp.
    destruct (different_byte_spec (walk u r) u (length u) 0 Ku Kp Lu) as (o & -> & D); [lia..|].
    cbn [mbind option_bind]. destruct o as [[k x]|].
    + destruct D as (Hk & -> & Nx & A). destruct (critical_bit _ u k Kp Ku Hk Nx A) as (d & T & Ag & Bd & Dir).
      rewrite bool_decide_eq_false_2 by (destruct (keys r); [by apply elem_of_nil in Hin|done]). cbn [orb].
      destruct (decide (u ∈ keys r)) as [Hu|Hu].
      { rewrite (walk_found 0 r u W Hu) in Bd. by destruct (bit u d). }
      destruct (malloc NODE_SIZE && malloc (Z.of_nat (length u) + 1)); eexists _, _; (split; [done|]); [|done].
      destruct (link_spec u d k _ _ Ku T r 0 W ltac:(by destruct T) Ag Bd Dir) as [W' P].
      split; [done|]. split; [|exact P]. split; [exact W'|]. unfold elems. cbn [root count].
      rewrite P, C. cbn [length]. rewrite u64_id by lia. lia.
    + eexists _, _. split; [done|]. rewrite decide_True by (by rewrite <- D at 1). done.
  - destruct (decide (u ∈ [])) as [H|_]; [by apply elem_of_nil in H|]. cbn [orb bool_decide]. eexists _, _.
    split; [apply f_equal, surjective_pairing|]. rewrite bool_decide_true by done. cbn [orb andb]. destruct (malloc _); [|done].
    split; [done|]. split; [|done]. split; [by constructor|done].
Qed.

Lemma delete_spec t u :
  tree_ok t -> key_ok u -> Z.of_nat (length (elems t)) < 2 ^ 64 ->
  let '(b, t') := critbit0_delete t u in
  if decide (u ∈ elems t) then b = true /\ tree_ok t' /\ elems t ≡ₚ u :: elems t'
  else b = false /\ t' = t.
Proof.
  intros [W C] Ku B. unfold critbit0_delete. unfold elems in *. destruct (root t) as [r|] eqn:Er.
  - pose proof (unlink_spec u Ku r 0 W) as S. destruct (unlink u r) as [[q|]|].
    + destruct S as [W' P]. rewrite decide_True by (rewrite P; apply list_elem_of_here).
      split; [done|]. split; [|exact P]. split; [exact W'|]. unfold elems. cbn [root count].
      rewrite C. rewrite P in B |- *. cbn [length] in *. rewrite u64_id by lia. lia.
    + rewrite S. rewrite decide_True by apply list_elem_of_here. done.
    + by rewrite decide_False.
  - by rewrite decide_False by apply not_elem_of_nil.
Qed.

Lemma NoDup_elems t : tree_ok t -> NoDup (elems t).
Proof. intros [W _]. unfold elems. destruct (root t); [by apply (NoDup_keys 0)|constructor]. Qed.

Lemma set_of_size t : tree_ok t -> Z.of_nat (size (set_of t)) = count t.
Proof. intros K. unfold set_of. rewrite size_list_to_set by (by apply NoDup_elems). by destruct K. Qed.

Lemma elem_set_of t u : u ∈ set_of t <-> u ∈ elems t.
Proof. apply elem_of_list_to_set. Qed.

Lemma set_of_empty t : bool_decide (set_of t = ∅) = bool_decide (elems t = []).
Proof. apply bool_decide_ext. unfold set_of. split; [|by intros ->].
  destruct (elems t) as [|k l]; [done|]. intros E. assert (k ∈ (∅ : gset bytes)) as H by (rewrite <- E; set_solver). set_solver. Qed.

Lemma set_of_perm t t' u : elems t' ≡ₚ u :: elems t -> set_of t' = {[u]} ∪ set_of t.
Proof. intros P. unfold set_of. by rewrite (list_to_set_perm_L _ _ P). Qed.

(** One operation on a tree is the operation on the set of its strings. *)
Lemma step_set_step t o :
  tree_ok t -> op_ok o -> Z.of_nat (length (elems t)) + 1 < 2 ^ 64 ->
  exists r t', step t o = Some (r, t') /\
  tree_ok t' /\ (length (elems t') <= length (elems t) + 1)%nat /\ set_step (set_of t) o = (r, set_of t').
Proof.
  intros K Ko B. destruct o as [malloc u|u|u| |]; cbn [step set_step op_ok] in *.
  - destruct Ko as [Ko Lo]. destruct (insert_spec malloc t u K Ko Lo B) as (rc & t' & E & S). exists rc, t'. split; [exact E|].
    rewrite set_of_empty. destruct (decide (u ∈ elems t)) as [H|H].
    + destruct S as [-> ->]. rewrite decide_True by (by apply elem_set_of). split; [done|]. split; [lia|done].
    + rewrite decide_False by (by rewrite elem_set_of). destruct (_ && _).
      * destruct S as (-> & K' & P). split; [done|]. rewrite P. split; [cbn; lia|]. by rewrite (set_of_perm t t' u P).
      * destruct S as [-> ->]. split; [done|]. split; [lia|done].
  - pose proof (delete_spec t u K Ko ltac:(lia)) as S. destruct (critbit0_delete t u) as [b t'].
    eexists _, _. split; [done|]. destruct (decide (u ∈ elems t)) as [H|H].
    + destruct S as (-> & K' & P). rewrite decide_True by (by apply elem_set_of).
      split; [done|]. split; [rewrite P; cbn; lia|]. rewrite (set_of_perm t' t u P). f_equal.
      pose proof (NoDup_elems t K) as N. rewrite P in N. apply NoDup_cons in N as [N _].
      assert (u ∉ set_of t') as Nu by (by rewrite elem_set_of). clear -Nu. set_solver.
    + destruct S as [-> ->]. rewrite decide_False by (by rewrite elem_set_of). split; [done|]. split; [lia|done].
  - eexists _, _. split; [done|]. split; [done|]. split; [lia|]. rewrite contains_spec by done. do 3 f_equal. apply bool_decide_ext. apply elem_set_of.
  - eexists _, _. split; [done|]. split; [by split|]. split; [cbn; lia|done].
  - eexists _, _. split; [done|]. split; [done|]. split; [lia|]. by rewrite set_of_size.
Qed.

Lemma answers_set t ops : tree_ok t -> Forall op_ok ops ->
  Z.of_nat (length (elems t)) + Z.of_nat (length ops) < 2 ^ 64 ->
  answers t ops = Some (set_answers (set_of t) ops).
Proof.
  intros K F. revert t K. induction F as [|o ops Ho F IH]; intros t K B; [done|]. cbn [answers set_answers length] in *.
  destruct (step_set_step t o K Ho ltac:(lia)) as (r & t' & -> & K' & L & ->). cbn [mbind option_bind].
  by rewrite IH by (done || lia).
Qed.

(** Trees built by insertions. *)
Lemma built_ok malloc l : forall t, tree_ok t -> Forall (fun u => key_ok u /\ Z.of_nat (length u) < 2 ^ 32) l ->
  Z.of_nat (length (elems t)) + Z.of_nat (length l) < 2 ^ 64 -> tree_ok (insert_all malloc l t).
Proof.
  induction l as [|u l IH]; intros t K F B; [done|]. apply Forall_cons in F as [Ku F]. unfold insert_all. cbn [foldl length] in *.
  destruct (step_set_step t (Insert malloc u) K Ku ltac:(lia)) as (r & t' & E & K' & L & _). cbn [step] in E. rewrite E.
  apply IH; [done|done|lia].
Qed.

(* ------------------------------------------------------------------ *)
(** ** Properties *)

(** C5: a critical bit tree is a set of strings. Starting from the empty tree, every sequence
    of insertions, deletions, lookups, clearings and readings of the count returns and gets the
    answers that a finite set gives: 1, 0 or -1 for an insertion that was done, that found the
    string or that got no memory (which leaves the set alone), whether a deletion found its string,
    whether a string is in, and how many there are. The strings that are inserted are shorter than
    2^32 bytes, because the place where two strings differ is a 32-bit number. *)
Theorem critbit0_set (ops : list op) :
  Forall op_ok ops -> Z.of_nat (length ops) < 2 ^ 64 ->
  answers (Tree None 0) ops = Some (set_answers ∅ ops).
Proof.
  intros F B. apply (answers_set (Tree None 0) ops); [by split|done|done].
Qed.

Lemma critbit0_set_witness :
  let ops := [Insert (fun _ => true) (bstr "foo"); Insert (fun _ => true) (bstr "bar");
              Insert (fun _ => true) (bstr "foo"); Insert (fun n => n <? 5) (bstr "foobar");
              Delete (bstr "foo"); Contains (bstr "foo"); Contains (bstr "bar"); Count; Clear; Count] in
  answers (Tree None 0) ops = Some (set_answers ∅ ops) /\
  answers (Tree None 0) ops = Some [1; 1; 0; -1; 1; 0; 1; 1; 0; 0].
Proof.
  intros ops. split; [|vm_compute; reflexivity]. apply (critbit0_set ops); [|done].
  repeat constructor; vm_compute; intuition discriminate.
Defined.

(** C37: the prefix searches. The strings of a tree are kept in strictly ascending order of
    [strcmp]; [critbit0_get] returns the first of those that start with the given text, if any;
    [critbit0_allprefixed] calls the callback for exactly those, in order, until it returns
    something other than 0, and returns that (or 0). *)
Theorem critbit0_prefixes {S} (callback : bytes -> S -> Z * S) (t : critbit0) (u : bytes) (arg : S) :
  tree_ok t -> key_ok u ->
  Sorted.StronglySorted str_lt (elems t) /\
  critbit0_get t u = head (matches t u) /\
  critbit0_allprefixed callback t u arg = run_callback callback (matches t u) arg.
Proof.
  intros [W _] Ku. unfold critbit0_get, critbit0_allprefixed, matches, elems.
  destruct (root t) as [r|]; [|split; [constructor|done]].
  split; [by apply (keys_sorted 0)|].
  destruct (walk_top_spec u Ku r 0 W) as (top & E & N & Wt & F). rewrite F, (top_prefix u Ku top Wt N).
  rewrite <- (walk_top_walk u r r), E. cbn [fst]. fold (has_prefix u (hd [] (keys top))).
  destruct (bool_decide (has_prefix u (hd [] (keys top)))) eqn:D; cbn [negb].
  - split; [by destruct (keys top)|apply traverse_run].
  - done.
Qed.

Lemma sample_tree_ok : tree_ok sample_tree.
Proof.
  apply (built_ok (fun _ => true)); [by split|repeat constructor; vm_compute; intuition discriminate|done].
Qed.

Lemma critbit0_prefixes_witness :
  let collect := fun s l => (if bool_decide (s = bstr "foo") then 7 else 0, l ++ [s]) in
  Sorted.StronglySorted str_lt (elems sample_tree) /\
  critbit0_get sample_tree (bstr "fo") = Some (bstr "fo") /\
  critbit0_allprefixed collect sample_tree (bstr "fo") [] = (7, [bstr "fo"; bstr "foo"]).
Proof.
  intros collect.
  destruct (critbit0_prefixes collect sample_tree (bstr "fo") [] sample_tree_ok) as (O & G & P).
  { repeat constructor; vm_compute; intuition discriminate. }
  split; [exact O|]. rewrite G, P. split; vm_compute; reflexivity.
Defined.
