(* ===== verification/Memtrack.v ===== *)
(** The table of memory mappings: libc/intrin/memtrack.greg.c and findmemoryinterval.c over
    struct MemoryIntervals of libc/runtime/memtrack.internal.h, with the readers of the table
    in libc/runtime/ismemtracked.greg.c and getmemtracksize.c. *)

From S2P Require Import Prelude.

(* ------------------------------------------------------------------ *)
(** ** Definitions *)

(** A run of 64 KB frames [mi_x .. mi_y] with what they map. *)
Record MemoryInterval := Interval {
  mi_x : Z; mi_y : Z; mi_h : Z; mi_size : Z; mi_offset : Z; mi_flags : Z; mi_prot : Z;
  mi_iscow : bool; mi_readonlyfile : bool }.

(** [mm_p] is the whole array, of which the first [mm_i] entries are in use; [mm_static] is
    [mm->p == mm->s]. *)
Record MemoryIntervals := Intervals {
  mm_i : Z; mm_n : Z; mm_p : list MemoryInterval; mm_static : bool }.

Definition interval0 : MemoryInterval := Interval 0 0 0 0 0 0 0 false false.
#[global] Instance MemoryInterval_inhabited : Inhabited MemoryInterval := populate interval0.

(** The table when the program starts: [i = 0; n = 16; p = s]. *)
Definition mmi_init : MemoryIntervals := Intervals 0 16 (replicate 16 interval0) true.

Definition FRAMESIZE : Z := 65536.
(** [sizeof(struct MemoryInterval)] *)
Definition INTERVAL_SIZE : Z := 40.
Definition kMemtrackStart : Z := 0x1fe7fffc0000.

Definition ROUNDUP (x k : Z) : Z := Z.land (x + k - 1) (- k).
Definition ROUNDDOWN (x k : Z) : Z := Z.land x (- k).

(** [unassert] stops the program. A [None] of this file is a program that stopped there or
    that touched memory outside of the array. *)
Definition unassert (b : bool) : option unit := if b then Some tt else None.

Definition entry (mm : MemoryIntervals) (k : Z) : MemoryInterval := mm_p mm !!! Z.to_nat k.

Definition set_entry (mm : MemoryIntervals) (k : Z) (e : MemoryInterval) : MemoryIntervals :=
  Intervals (mm_i mm) (mm_n mm) (<[Z.to_nat k := e]> (mm_p mm)) (mm_static mm).

(** [while (l < r)] *)
Fixpoint find_loop (fuel : nat) (mm : MemoryIntervals) (x l r : Z) : option Z :=
  if l <? r then
    match fuel with
    | O => None
    | S fuel =>
        let m := Z.land l r + Z.shiftr (Z.lxor l r) 1 in
        if mi_y (entry mm m) <? x then find_loop fuel mm x (m + 1) r else find_loop fuel mm x l m
    end
  else Some l.

Definition __find_memory (mm : MemoryIntervals) (x : Z) : option Z :=
  find_loop (Z.to_nat (mm_i mm)) mm x 0 (mm_i mm).

(** [for (i = n; i--;) d[i] = s[i];] *)
Fixpoint shove_down (a : list MemoryInterval) (d s n : nat) : list MemoryInterval :=
  match n with
  | O => a
  | S i => shove_down (<[(d + i)%nat := a !!! (s + i)%nat]> a) d s i
  end.

(** [for (i = 0; i < n; ++i) d[i] = s[i];] with [k] rounds to go. *)
Fixpoint shove_up (a : list MemoryInterval) (d s i k : nat) : list MemoryInterval :=
  match k with
  | O => a
  | S k => shove_up (<[(d + i)%nat := a !!! (s + i)%nat]> a) d s (S i) k
  end.

(** Both pointers point into the array [a]. *)
Definition __shove_memory (a : list MemoryInterval) (d s n : Z) : option (list MemoryInterval) :=
  unassert (n >=? 0) ;;
  unassert ((d + n <=? Z.of_nat (length a)) && (s + n <=? Z.of_nat (length a))) ;;
  Some (if d >? s then shove_down a (Z.to_nat d) (Z.to_nat s) (Z.to_nat n)
        else shove_up a (Z.to_nat d) (Z.to_nat s) 0 (Z.to_nat n)).

Definition __remove_memory (mm : MemoryIntervals) (i n : Z) : option MemoryIntervals :=
  unassert (i >=? 0) ;;
  unassert (i + n <=? mm_i mm) ;;
  p ← __shove_memory (mm_p mm) i (i + n) (mm_i mm - (i + n));
  Some (Intervals (mm_i mm - n) (mm_n mm) p (mm_static mm)).

(** What [sys_mmap] returns when it fails. *)
Definition MAP_FAILED : Z := -1.

(** What the runtime is built for, and the kernel: [sys_mmap addr size] is the [addr] of the
    struct DirectMap that a fixed anonymous mapping returns. *)
Section Platform.
Context (IsWindows IsAsan : bool) (sys_mmap : Z -> Z -> Z).

Definition kMemtrackGran : Z := if negb IsAsan then FRAMESIZE else FRAMESIZE * 8.

(** The code tests the answers of the kernel against null. An array that [sys_mmap] did not put
    at [base] is not memory of the program: the entries written into it in the same call fault. *)
Definition __extend_memory (mm : MemoryIntervals) : option (bool * MemoryIntervals) :=
  let gran := kMemtrackGran in
  let base := kMemtrackStart in
  if mm_static mm then
    let shad := Z.shiftr base 3 + 0x7fff8000 in
    if sys_mmap shad (Z.shiftr gran 3) =? 0 then Some (false, mm)
    else
      let addr := sys_mmap base gran in
      if addr =? 0 then Some (false, mm)
      else
        unassert (addr =? base) ;;
        let n := gran / INTERVAL_SIZE in
        unassert (mm_i mm <=? n) ;;
        Some (true, Intervals (mm_i mm) n
                      (take (Z.to_nat (mm_i mm)) (mm_p mm) ++ replicate (Z.to_nat (n - mm_i mm)) interval0)
                      false)
  else
    let size := ROUNDUP (mm_n mm * INTERVAL_SIZE) gran in
    let base := base + size in
    let shad := Z.shiftr base 3 + 0x7fff8000 in
    if IsAsan && (sys_mmap shad (Z.shiftr gran 3) =? 0) then Some (false, mm)
    else
      let addr := sys_mmap base gran in
      if addr =? 0 then Some (false, mm)
      else
        unassert (addr =? base) ;;
        let n := (size + gran) / INTERVAL_SIZE in
        Some (true, Intervals (mm_i mm) n
                      (mm_p mm ++ replicate (Z.to_nat (n - mm_n mm)) interval0) false).

(** 0, or -1 with [ENOMEM]. *)
Definition __mint_memory (mm : MemoryIntervals) (i : Z) : option (Z * MemoryIntervals) :=
  unassert (i >=? 0) ;;
  unassert (i <=? mm_i mm) ;;
  unassert (mm_n mm >=? 0) ;;
  '(ok, mm) ← (if mm_i mm =? mm_n mm then __extend_memory mm else Some (true, mm));
  if negb ok then Some (-1, mm)
  else
    p ← __shove_memory (mm_p mm) (i + 1) i (mm_i mm - i);
    Some (0, Intervals (mm_i mm + 1) (mm_n mm) p (mm_static mm)).

(** The righthand end of an entry moves to [x - 1], and the lefthand one to [y + 1]. *)
Definition trim_right (x : Z) (e : MemoryInterval) : MemoryInterval :=
  Interval (mi_x e) (x - 1) (mi_h e) (s64 (mi_size e - u64 (mi_y e - (x - 1)) * FRAMESIZE))
    (mi_offset e) (mi_flags e) (mi_prot e) (mi_iscow e) (mi_readonlyfile e).
Definition trim_left (y : Z) (e : MemoryInterval) : MemoryInterval :=
  Interval (y + 1) (mi_y e) (mi_h e) (s64 (mi_size e - u64 (y + 1 - mi_x e) * FRAMESIZE))
    (mi_offset e) (mi_flags e) (mi_prot e) (mi_iscow e) (mi_readonlyfile e).

Definition __punch_memory (mm : MemoryIntervals) (x y i : Z) : option (Z * MemoryIntervals) :=
  '(rc, mm) ← __mint_memory mm i;
  if rc =? -1 then Some (-1, mm)
  else
    let mm := set_entry mm i (trim_right x (entry mm i)) in
    let mm := set_entry mm (i + 1) (trim_left y (entry mm (i + 1))) in
    Some (0, mm).

(** [if (l <= r)]: the entries [l .. r] go, and are handed to [wf] on Windows. *)
Definition release (mm : MemoryIntervals) (l r : Z) (wf : bool) :
    option (Z * MemoryIntervals * list MemoryInterval) :=
  if l <=? r then
    let released :=
      if IsWindows && wf then take (Z.to_nat (s32 r - s32 l + 1)) (drop (Z.to_nat l) (mm_p mm)) else [] in
    mm ← __remove_memory mm l (s32 (u32 (r - l + 1)));
    Some (0, mm, released)
  else Some (0, mm, []).

(** [trim the right side of the lefthand map]; the inner [None] is [return einval()]. *)
Definition trim_lefthand (mm : MemoryIntervals) (x y l : Z) : option (option (MemoryIntervals * Z)) :=
  if (x >? mi_x (entry mm l)) && (x <=? mi_y (entry mm l)) then
    unassert (y >=? mi_y (entry mm l)) ;;
    if IsWindows then Some None
    else
      let mm := set_entry mm l (trim_right x (entry mm l)) in
      unassert (mi_x (entry mm l) <=? mi_y (entry mm l)) ;;
      Some (Some (mm, u32 (l + 1)))
  else Some (Some (mm, l)).

(** [trim the left side of the righthand map] *)
Definition trim_righthand (mm : MemoryIntervals) (x y r : Z) : option (option (MemoryIntervals * Z)) :=
  if (y >=? mi_x (entry mm r)) && (y <? mi_y (entry mm r)) then
    unassert (x <=? mi_x (entry mm r)) ;;
    if IsWindows then Some None
    else
      let mm := set_entry mm r (trim_left y (entry mm r)) in
      unassert (mi_x (entry mm r) <=? mi_y (entry mm r)) ;;
      Some (Some (mm, u32 (r - 1)))
  else Some (Some (mm, r)).

(** The result, the table, and the entries handed to [wf]. *)
Definition __untrack_memory (mm : MemoryIntervals) (x y : Z) (wf : bool) :
    option (Z * MemoryIntervals * list MemoryInterval) :=
  unassert (y >=? x) ;;
  if mm_i mm =? 0 then Some (0, mm, [])
  else
    l ← __find_memory mm x;
    if l =? mm_i mm then Some (0, mm, [])
    else if y <? mi_x (entry mm l) then Some (0, mm, [])
    else
      r ← __find_memory mm y;
      let r := if (r =? mm_i mm) || ((r >? l) && (y <? mi_x (entry mm r))) then u32 (r - 1) else r in
      unassert (r >=? l) ;;
      unassert (x <=? mi_y (entry mm r)) ;;
      if (l =? r) && (x >? mi_x (entry mm l)) && (y <? mi_y (entry mm l)) then
        '(rc, mm) ← __punch_memory mm x y l;
        Some (rc, mm, [])
      else
        left ← trim_lefthand mm x y l;
        match left with
        | None => Some (-1, mm, [])
        | Some (mm, l) =>
            right ← trim_righthand mm x y r;
            match right with
            | None => Some (-1, mm, [])
            | Some (mm, r) => release mm l r wf
            end
        end.

Definition __track_memory (mm : MemoryIntervals) (x y h prot flags : Z) (readonlyfile iscow : bool)
    (offset size : Z) : option (Z * MemoryIntervals) :=
  unassert (y >=? x) ;;
  i ← __find_memory mm x;
  let a := entry mm (i - 1) in
  let b := entry mm i in
  if negb (i =? 0) && (x =? mi_y a + 1) && (h =? mi_h a) && (prot =? mi_prot a) &&
     (flags =? mi_flags a) &&
     (u64 (mi_size a) =? u64 (u64 (mi_y a - mi_x a) * FRAMESIZE + FRAMESIZE)) then
    let size := s64 (mi_size a + u64 (y - mi_y a) * FRAMESIZE) in
    let a y size := Interval (mi_x a) y (mi_h a) size (mi_offset a) (mi_flags a) (mi_prot a)
                      (mi_iscow a) (mi_readonlyfile a) in
    let mm := set_entry mm (i - 1) (a y size) in
    if (i <? mm_i mm) && (y + 1 =? mi_x b) && (h =? mi_h b) && (prot =? mi_prot b) &&
       (flags =? mi_flags b) then
      let mm := set_entry mm (i - 1) (a (mi_y b) (s64 (size + mi_size b))) in
      mm ← __remove_memory mm i 1;
      Some (0, mm)
    else Some (0, mm)
  else if (i <? mm_i mm) && (y + 1 =? mi_x b) && (h =? mi_h b) && (prot =? mi_prot b) &&
          (flags =? mi_flags b) && (u64 size =? u64 (u64 (y - x) * FRAMESIZE + FRAMESIZE)) then
    Some (0, set_entry mm i
               (Interval x (mi_y b) (mi_h b) (s64 (mi_size b + u64 (mi_x b - x) * FRAMESIZE))
                  (mi_offset b) (mi_flags b) (mi_prot b) (mi_iscow b) (mi_readonlyfile b)))
  else
    '(rc, mm) ← __mint_memory mm i;
    if rc =? -1 then Some (-1, mm)
    else Some (0, set_entry mm i (Interval x y h size offset flags (s8 prot) iscow readonlyfile)).
End Platform.

(** [for (;;)] of [IsMemtrackedImpl], with [k] entries to go. *)
Fixpoint memtracked_loop (k : nat) (mm : MemoryIntervals) (y i : Z) : option bool :=
  if y <=? mi_y (entry mm i) then Some true
  else
    let i := i + 1 in
    if i =? mm_i mm then Some false
    else if negb (mi_x (entry mm i) =? mi_y (entry mm (i - 1)) + 1) then Some false
    else match k with O => None | S k => memtracked_loop k mm y i end.

Definition IsMemtracked (mm : MemoryIntervals) (x y : Z) : option bool :=
  i ← __find_memory mm x;
  if i =? mm_i mm then Some false
  else if x <? mi_x (entry mm i) then Some false
  else memtracked_loop (Z.to_nat (mm_i mm)) mm y i.

(** [n += ((size_t)(y - x) + 1) << 16] over the entries in use. *)
Definition __get_memtrack_size (mm : MemoryIntervals) : Z :=
  foldl (fun n e => u64 (n + u64 (Z.shiftl (u64 (mi_y e - mi_x e) + 1) 16))) 0
    (take (Z.to_nat (mm_i mm)) (mm_p mm)).

(** Building tables with the operations. *)
Definition try_track (r : option (Z * MemoryIntervals)) (x y : Z) : option (Z * MemoryIntervals) :=
  '(_, mm) ← r; __track_memory false (fun a _ => a) mm x y 0 3 2 false false 0 ((y - x + 1) * FRAMESIZE).
Definition sample_table : MemoryIntervals :=
  match try_track (try_track (try_track (Some (0, mmi_init)) 10 12) 20 29) 13 15 with
  | Some (_, mm) => mm | None => mmi_init end.
Definition runs (mm : MemoryIntervals) : list (Z * Z * Z) :=
  map (fun e => (mi_x e, mi_y e, mi_size e / FRAMESIZE)) (take (Z.to_nat (mm_i mm)) (mm_p mm)).

Example memtrack_1 : runs sample_table = [(10, 15, 6); (20, 29, 10)].
Proof. vm_compute. reflexivity. Qed.
Example memtrack_2 :
  (fun r => runs r.1.2) <$> __untrack_memory false false (fun a _ => a) sample_table 14 21 true =
  Some [(10, 13, 4); (22, 29, 8)].
Proof. vm_compute. reflexivity. Qed.
Example memtrack_3 :
  (fun r => runs r.1.2) <$> __untrack_memory false false (fun a _ => a) sample_table 23 24 true =
  Some [(10, 15, 6); (20, 22, 3); (25, 29, 5)].
Proof. vm_compute. reflexivity. Qed.
Example memtrack_4 :
  (fun r => runs r.1.2) <$> __untrack_memory false false (fun a _ => a) sample_table 5 11 true =
  Some [(12, 15, 4); (20, 29, 10)].
Proof. vm_compute. reflexivity. Qed.

(* ------------------------------------------------------------------ *)
(** ** The contract: who owns which frame *)

Definition used (mm : MemoryIntervals) : list MemoryInterval := take (Z.to_nat (mm_i mm)) (mm_p mm).

(** What the runtime remembers of a frame. *)
Definition attr (e : MemoryInterval) : Z * Z * Z := (mi_h e, mi_prot e, mi_flags e).
Definition within (f : Z) (e : MemoryInterval) : bool := (mi_x e <=? f) && (f <=? mi_y e).

Fixpoint owner (l : list MemoryInterval) (f : Z) : option (Z * Z * Z) :=
  match l with
  | [] => None
  | e :: l => if within f e then Some (attr e) else owner l f
  end.

(** Frames are numbers of 64 KB blocks below 2^31, and only the last one of an entry may be
    used in part. *)
Definition frames_ok (x y : Z) : Prop := 0 <= x <= y /\ y < 2 ^ 31 - 1.
Definition size_ok (x y size : Z) : Prop := (y - x) * FRAMESIZE < size <= (y - x) * FRAMESIZE + FRAMESIZE.
Definition entry_ok (e : MemoryInterval) : Prop :=
  frames_ok (mi_x e) (mi_y e) /\ size_ok (mi_x e) (mi_y e) (mi_size e).

Definition before (a b : MemoryInterval) : Prop := mi_y a < mi_x b.

(** The entries in use are well-formed, in ascending order and disjoint. *)
Definition entries_ok (l : list MemoryInterval) : Prop :=
  Forall entry_ok l /\ Sorted.StronglySorted before l.

(** The array is as long as [mm_n] says. *)
Definition shape (mm : MemoryIntervals) : Prop :=
  0 <= mm_i mm <= mm_n mm /\ mm_n mm = Z.of_nat (length (mm_p mm)) /\ (mm_static mm = true -> mm_n mm = 16).

Definition mm_ok (mm : MemoryIntervals) : Prop := shape mm /\ entries_ok (used mm).

(** An entry without the frames [x .. y]. *)
Definition pieces (x y : Z) (e : MemoryInterval) : list MemoryInterval :=
  if (mi_y e <? x) || (y <? mi_x e) then [e]
  else (if mi_x e <? x then [trim_right x e] else []) ++ (if y <? mi_y e then [trim_left y e] else []).

Definition cut (x y : Z) (l : list MemoryInterval) : list MemoryInterval := flat_map (pieces x y) l.

(** An entry that loses all of its frames, and one that loses some. *)
Definition covered (x y : Z) (e : MemoryInterval) : Prop := x <= mi_x e /\ mi_y e <= y.
Definition partial (x y : Z) (e : MemoryInterval) : Prop :=
  x <= mi_y e /\ mi_x e <= y /\ ~ covered x y e.

#[global] Instance covered_dec x y e : Decision (covered x y e).
Proof. unfold covered. apply _. Defined.

(** A kernel that maps fixed memory where it is told to, or answers [MAP_FAILED]. *)
Definition honest (sys_mmap : Z -> Z -> Z) : Prop :=
  forall a n, sys_mmap a n = a \/ sys_mmap a n = MAP_FAILED.

(** Where a full table goes on, and that the kernel refuses memory there. *)
Definition growth (IsAsan : bool) (mm : MemoryIntervals) : Z :=
  if mm_static mm then kMemtrackStart
  else kMemtrackStart + ROUNDUP (mm_n mm * INTERVAL_SIZE) (kMemtrackGran IsAsan).
Definition refused (IsAsan : bool) (sys_mmap : Z -> Z -> Z) (mm : MemoryIntervals) : Prop :=
  mm_i mm = mm_n mm /\ sys_mmap (growth IsAsan mm) (kMemtrackGran IsAsan) = MAP_FAILED.

(* ------------------------------------------------------------------ *)
(** ** Lemmas: lists of entries *)

Lemma entries_ok_app l r :
  entries_ok (l ++ r) <-> entries_ok l /\ entries_ok r /\ (forall a b, a ∈ l -> b ∈ r -> before a b).
Proof. unfold entries_ok. rewrite Forall_app, SSorted_app_iff. tauto. Qed.

Lemma entries_ok_cons e l :
  entries_ok (e :: l) <-> entry_ok e /\ entries_ok l /\ Forall (before e) l.
Proof.
  unfold entries_ok. rewrite Forall_cons. split.
  - intros [[He Hl] S]. inversion S; subst. done.
  - intros (He & [Hl S] & F). split; [done|]. by constructor.
Qed.

Lemma entries_ok_nil : entries_ok [].
Proof. split; constructor. Qed.

Lemma entries_ok_single e : entries_ok [e] <-> entry_ok e.
Proof. rewrite entries_ok_cons. split; [by intros []|]. intros H. split; [done|]. split; [apply entries_ok_nil|done]. Qed.

Lemma owner_app l r f : owner (l ++ r) f = match owner l f with Some a => Some a | None => owner r f end.
Proof. induction l as [|e l IH]; [done|]. cbn. by destruct (within f e). Qed.

Lemma owner_below l f : Forall (fun e => mi_y e < f) l -> owner l f = None.
Proof. induction 1 as [|e l H _ IH]; [done|]. cbn. unfold within. rewrite (proj2 (Z.leb_gt f _)) by done. by rewrite andb_false_r. Qed.

Lemma owner_above l f : Forall (fun e => f < mi_x e) l -> owner l f = None.
Proof. induction 1 as [|e l H _ IH]; [done|]. cbn. unfold within. by rewrite (proj2 (Z.leb_gt _ f)) by done. Qed.

Lemma owner_Some l f a : owner l f = Some a -> exists e, e ∈ l /\ mi_x e <= f <= mi_y e /\ attr e = a.
Proof.
  induction l as [|e l IH]; [done|]. cbn. destruct (within f e) eqn:W.
  - intros [= <-]. exists e. split; [apply list_elem_of_here|]. unfold within in W. split; [lia|done].
  - intros H. destruct (IH H) as (e' & He & ?). exists e'. split; [by apply list_elem_of_further|done].
Qed.

Lemma owner_None l f e : owner l f = None -> e ∈ l -> f < mi_x e \/ mi_y e < f.
Proof.
  induction l as [|c l IH]; [intros _ H; by apply elem_of_nil in H|]. cbn. destruct (within f c) eqn:W; [done|].
  intros N H. apply elem_of_cons in H as [->|H]; [|by apply IH]. unfold within in W. lia.
Qed.

Ltac ranges :=
  repeat match goal with
         | H : entry_ok ?e |- _ => unfold entry_ok, frames_ok, size_ok in H
         | |- entry_ok ?e => unfold entry_ok, frames_ok, size_ok
         end; unfold before, frames_ok, size_ok in *; unfold FRAMESIZE in *.

Lemma trim_right_ok x e : entry_ok e -> mi_x e < x <= mi_y e ->
  entry_ok (trim_right x e) /\ attr (trim_right x e) = attr e.
Proof.
  intros H R. split; [|done]. unfold trim_right. ranges. cbn [mi_x mi_y mi_size].
  rewrite u64_id, s64_id by lia. lia.
Qed.

Lemma trim_left_ok y e : entry_ok e -> mi_x e <= y < mi_y e ->
  entry_ok (trim_left y e) /\ attr (trim_left y e) = attr e.
Proof.
  intros H R. split; [|done]. unfold trim_left. ranges. cbn [mi_x mi_y mi_size].
  rewrite u64_id, s64_id by lia. lia.
Qed.

(** What is left of an entry lies inside of it. *)
Lemma pieces_ok x y e : entry_ok e -> x <= y ->
  entries_ok (pieces x y e) /\
  Forall (fun p => mi_x e <= mi_x p /\ mi_y p <= mi_y e) (pieces x y e) /\
  (forall f, owner (pieces x y e) f = if (x <=? f) && (f <=? y) then None else owner [e] f).
Proof.
  intros H L. unfold pieces. destruct ((mi_y e <? x) || (y <? mi_x e)) eqn:O.
  - split; [by apply entries_ok_single|]. split; [repeat constructor; lia|]. intros f. cbn. unfold within.
    destruct ((x <=? f) && (f <=? y)) eqn:F; [|done]. destruct ((mi_x e <=? f) && (f <=? mi_y e)) eqn:G; [lia|done].
  - assert (x <= mi_y e /\ mi_x e <= y) as [Ox Oy] by lia.
    pose proof (fun h => trim_right_ok x e H h) as TR. pose proof (fun h => trim_left_ok y e H h) as TL.
    split; [|split].
    + apply entries_ok_app. destruct (Z.ltb_spec (mi_x e) x), (Z.ltb_spec y (mi_y e));
        repeat rewrite ?entries_ok_single; (split; [first [apply TR; lia|apply entries_ok_nil]|]);
        (split; [first [apply TL; lia|apply entries_ok_nil]|]); intros a b Ha Hb;
        try (by apply elem_of_nil in Ha); try (by apply elem_of_nil in Hb).
      apply list_elem_of_singleton in Ha, Hb. subst. unfold before. cbn. lia.
    + apply Forall_app. destruct (Z.ltb_spec (mi_x e) x), (Z.ltb_spec y (mi_y e)); split; repeat constructor; cbn; lia.
    + intros f. destruct (Z.ltb_spec (mi_x e) x), (Z.ltb_spec y (mi_y e)); cbn; unfold within; cbn [mi_x mi_y trim_right trim_left];
        repeat match goal with |- context [if ?b then _ else _] => destruct b eqn:? end; try done; lia.
Qed.

Lemma cut_app x y l r : cut x y (l ++ r) = cut x y l ++ cut x y r.
Proof. apply flat_map_app. Qed.

(** Cutting takes the frames out and leaves the rest as it was. *)
Lemma cut_ok x y l : entries_ok l -> x <= y ->
  entries_ok (cut x y l) /\
  (forall lo, Forall (fun e => lo < mi_x e) l -> Forall (fun e => lo < mi_x e) (cut x y l)) /\
  (forall f, owner (cut x y l) f = if (x <=? f) && (f <=? y) then None else owner l f).
Proof.
  intros H L. induction l as [|e l IH].
  - split; [done|]. split; [done|]. intros f. cbn. by destruct (_ && _).
  - apply entries_ok_cons in H as (He & Hl & B). destruct (IH Hl) as (K & Lo & O). clear IH.
    destruct (pieces_ok x y e He L) as (Kp & In & Op). change (cut x y (e :: l)) with (pieces x y e ++ cut x y l).
    specialize (Lo (mi_y e) B) as Le. split; [|split].
    + apply entries_ok_app. split; [done|]. split; [done|]. intros a b Ha Hb.
      rewrite Forall_forall in In, Le. specialize (In a Ha). specialize (Le b Hb). unfold before. cbn in *. lia.
    + intros lo F. apply Forall_cons in F as [F1 F2]. apply Forall_app. split; [|by apply Lo].
      eapply Forall_impl; [exact In|]. cbn. lia.
    + intros f. rewrite owner_app, Op, O. cbn. destruct ((x <=? f) && (f <=? y)); [done|].
      by destruct (within f e).
Qed.

(* ------------------------------------------------------------------ *)
(** ** Lemmas: the array *)

Lemma shove_down_length a d s n : length (shove_down a d s n) = length a.
Proof. revert a. induction n as [|n IH]; intros a; [done|]. cbn. by rewrite IH, length_insert. Qed.

Lemma shove_up_length a d s i k : length (shove_up a d s i k) = length a.
Proof. revert a i. induction k as [|k IH]; intros a i; [done|]. cbn. by rewrite IH, length_insert. Qed.

Lemma shove_down_lookup a d s n j : (s < d)%nat -> (d + n <= length a)%nat ->
  shove_down a d s n !! j = if decide (d <= j < d + n)%nat then a !! (j - d + s)%nat else a !! j.
Proof.
  intros L. revert a. induction n as [|n IH]; intros a H; cbn [shove_down].
  - destruct (decide _); [lia|done].
  - rewrite IH by (rewrite length_insert; lia).
    destruct (decide (d <= j < d + n)%nat) as [D|D].
    + rewrite decide_True by lia. rewrite list_lookup_insert_ne by lia. done.
    + destruct (decide (j = d + n)%nat) as [->|N].
      * rewrite decide_True by lia. rewrite list_lookup_insert_eq by lia.
        replace (d + n - d + s)%nat with (s + n)%nat by lia.
        symmetry. apply list_lookup_lookup_total_lt. lia.
      * rewrite decide_False by lia. by rewrite list_lookup_insert_ne by lia.
Qed.

Lemma shove_up_lookup a d s i k j : (d <= s)%nat -> (s + i + k <= length a)%nat ->
  shove_up a d s i k !! j = if decide (d + i <= j < d + i + k)%nat then a !! (j - d + s)%nat else a !! j.
Proof.
  intros L. revert a i. induction k as [|k IH]; intros a i H; cbn [shove_up].
  - destruct (decide _); [lia|done].
  - rewrite IH by (rewrite length_insert; lia).
    destruct (decide (d + S i <= j < d + S i + k)%nat) as [D|D].
    + rewrite decide_True by lia. rewrite list_lookup_insert_ne by lia. done.
    + destruct (decide (j = d + i)%nat) as [->|N].
      * rewrite decide_True by lia. rewrite list_lookup_insert_eq by lia.
        replace (d + i - d + s)%nat with (s + i)%nat by lia.
        symmetry. apply list_lookup_lookup_total_lt. lia.
      * rewrite decide_False by lia. by rewrite list_lookup_insert_ne by lia.
Qed.

Lemma move_lookup {A} (a : list A) d s n j : (d + n <= length a)%nat -> (s + n <= length a)%nat ->
  (take d a ++ take n (drop s a) ++ drop (d + n) a) !! j =
  if decide (d <= j < d + n)%nat then a !! (j - d + s)%nat else a !! j.
Proof.
  intros Hd Hs. destruct (decide (j < d)%nat) as [L|L].
  - rewrite decide_False by lia. rewrite lookup_app_l by (rewrite length_take; lia). by rewrite lookup_take_lt by lia.
  - rewrite lookup_app_r by (rewrite length_take; lia). rewrite length_take, Nat.min_l by lia.
    destruct (decide (j < d + n)%nat) as [M|M].
    + rewrite decide_True by lia. rewrite lookup_app_l by (rewrite length_take, length_drop; lia).
      rewrite lookup_take_lt, lookup_drop by lia. f_equal. lia.
    + rewrite decide_False by lia. rewrite lookup_app_r by (rewrite length_take, length_drop; lia).
      rewrite length_take, length_drop, lookup_drop. f_equal. lia.
Qed.

(** The two loops move a block whichever way it overlaps. *)
Lemma shove_memory_move a d s n :
  0 <= d -> 0 <= s -> 0 <= n -> d + n <= Z.of_nat (length a) -> s + n <= Z.of_nat (length a) ->
  __shove_memory a d s n =
  Some (take (Z.to_nat d) a ++ take (Z.to_nat n) (drop (Z.to_nat s) a) ++ drop (Z.to_nat d + Z.to_nat n) a).
Proof.
  intros Hd Hs Hn Ld Ls. unfold __shove_memory, unassert. rewrite Z.geb_leb, Z.gtb_ltb.
  rewrite !(proj2 (Z.leb_le _ _)) by lia. cbn. f_equal. apply list_eq. intros j.
  rewrite move_lookup by lia. destruct (Z.ltb_spec s d).
  - apply shove_down_lookup; lia.
  - rewrite shove_up_lookup by lia. rewrite !Nat.add_0_r. done.
Qed.

Lemma used_length mm : shape mm -> Z.of_nat (length (used mm)) = mm_i mm.
Proof. intros (H & L & _). unfold used. rewrite length_take. lia. Qed.

Section Split.
Context (mm : MemoryIntervals) (K : shape mm).

Lemma entry_split pre a post : used mm = pre ++ a :: post -> entry mm (Z.of_nat (length pre)) = a.
Proof.
  intros E. unfold entry. rewrite Nat2Z.id. apply list_lookup_total_correct.
  assert (used mm !! length pre = Some a) as H by (rewrite E; by apply list_lookup_middle).
  unfold used in H. by apply lookup_take_Some in H as [? _].
Qed.

Lemma set_split pre a post e : used mm = pre ++ a :: post ->
  shape (set_entry mm (Z.of_nat (length pre)) e) /\
  used (set_entry mm (Z.of_nat (length pre)) e) = pre ++ e :: post.
Proof.
  intros E. pose proof (used_length mm K) as U. rewrite E, length_app in U. cbn [length] in U.
  destruct K as (H & L & S). unfold shape, used in *. cbn [mm_i mm_n mm_p mm_static set_entry].
  rewrite Nat2Z.id, length_insert. split; [done|].
  rewrite take_insert_lt by lia. rewrite E. by rewrite insert_app_r_alt, Nat.sub_diag by lia.
Qed.

Lemma remove_split pre mid post : used mm = pre ++ mid ++ post ->
  exists mm', __remove_memory mm (Z.of_nat (length pre)) (Z.of_nat (length mid)) = Some mm' /\
    shape mm' /\ used mm' = pre ++ post.
Proof.
  intros E. pose proof (used_length mm K) as U. rewrite E, !length_app in U.
  destruct K as (H & L & S). unfold __remove_memory, unassert. rewrite Z.geb_leb.
  rewrite !(proj2 (Z.leb_le _ _)) by lia. cbn [mbind option_bind].
  rewrite shove_memory_move by lia. cbn [mbind option_bind]. eexists. split; [done|].
  unfold shape, used in *. cbn [mm_i mm_n mm_p mm_static].
  assert (mm_p mm = (pre ++ mid ++ post) ++ drop (Z.to_nat (mm_i mm)) (mm_p mm)) as P
    by (rewrite <- E; symmetry; apply take_drop).
  set (rest := drop (Z.to_nat (mm_i mm)) (mm_p mm)) in *. clearbody rest.
  assert (take (Z.to_nat (Z.of_nat (length pre))) (mm_p mm) ++
          take (Z.to_nat (mm_i mm - (Z.of_nat (length pre) + Z.of_nat (length mid))))
            (drop (Z.to_nat (Z.of_nat (length pre) + Z.of_nat (length mid))) (mm_p mm)) = pre ++ post) as M.
  { rewrite P. replace (Z.to_nat (mm_i mm - _)) with (length post) by lia.
    replace (Z.to_nat (_ + _)) with (length pre + length mid)%nat by lia. rewrite Nat2Z.id.
    rewrite <- !app_assoc, take_app_length. f_equal.
    rewrite (app_assoc pre mid), drop_app_length' by (rewrite length_app; lia). apply take_app_length. }
  split; [|rewrite app_assoc, M; replace (Z.to_nat (mm_i mm - Z.of_nat (length mid))) with (length (pre ++ post))
             by (rewrite length_app; lia); apply take_app_length].
  split; [lia|]. split; [|done]. rewrite L. f_equal. rewrite app_assoc, M, !length_app, length_drop.
  rewrite P, !length_app. lia.
Qed.
End Split.

(** Rounding with masks. *)
Lemma land_minus_pow2 x k : 0 <= k -> Z.land x (- 2 ^ k) = x - x mod 2 ^ k.
Proof.
  intros Hk. replace (- 2 ^ k) with (Z.lnot (Z.ones k)) by (rewrite Z.ones_equiv; unfold Z.lnot; lia).
  rewrite <- Z.ldiff_land, Z.ldiff_ones_r by done. rewrite Z.shiftl_mul_pow2, Z.shiftr_div_pow2 by done.
  pose proof (Z.div_mod x (2 ^ k) ltac:(apply Z.pow_nonzero; lia)). lia.
Qed.

Section Mint.
Context (IsAsan : bool) (sys_mmap : Z -> Z -> Z) (Hm : honest sys_mmap).

Lemma gran_cases : kMemtrackGran IsAsan = 2 ^ 16 \/ kMemtrackGran IsAsan = 2 ^ 19.
Proof. unfold kMemtrackGran, FRAMESIZE. destruct IsAsan; cbn [negb]; lia. Qed.

Lemma extend_spec mm : shape mm -> mm_i mm = mm_n mm ->
  match __extend_memory IsAsan sys_mmap mm with
  | Some (ok, mm') => ok = true /\ shape mm' /\ mm_i mm' = mm_i mm /\ mm_i mm < mm_n mm' /\ used mm' = used mm
  | None => refused IsAsan sys_mmap mm
  end.
Proof.
  intros (H & L & S) Full. unfold __extend_memory, refused, growth. pose proof gran_cases as G.
  assert (forall a n, 0 < a -> (sys_mmap a n =? 0) = false) as NZ.
  { intros a n Ha. destruct (Hm a n) as [-> | ->]; [lia|done]. }
  set (gran := kMemtrackGran IsAsan) in *. cbv zeta. destruct (mm_static mm) eqn:St.
  - specialize (S eq_refl). rewrite NZ by done.
    destruct (Hm kMemtrackStart gran) as [-> | ->]; [|by split]. rewrite Z.eqb_refl. cbn [unassert mbind option_bind].
    assert (1638 <= gran / INTERVAL_SIZE) as Ln by (destruct G as [-> | ->]; vm_compute; congruence).
    set (n := gran / INTERVAL_SIZE) in *. unfold unassert. rewrite (proj2 (Z.leb_le _ _)) by lia.
    cbn [mbind option_bind]. split; [done|]. unfold shape, used. cbn [mm_i mm_n mm_p mm_static].
    assert (length (take (Z.to_nat (mm_i mm)) (mm_p mm)) = Z.to_nat (mm_i mm)) as T by (rewrite length_take; lia).
    rewrite length_app, length_replicate, T. split; [split; [lia|]; split; [lia|done]|]. split; [done|].
    split; [lia|]. rewrite take_app_le by lia. rewrite firstn_all2 by lia. done.
  - assert (mm_n mm * INTERVAL_SIZE <= ROUNDUP (mm_n mm * INTERVAL_SIZE) gran /\ 0 < gran /\ 40 * 1638 <= gran) as R.
    { unfold ROUNDUP. destruct G as [-> | ->]; rewrite land_minus_pow2 by lia;
        match goal with |- context [?a mod ?b] => pose proof (Z.mod_pos_bound a b ltac:(lia)) end; lia. }
    set (size := ROUNDUP (mm_n mm * INTERVAL_SIZE) gran) in *. unfold INTERVAL_SIZE, kMemtrackStart in *.
    pose proof (proj2 (Z.shiftr_nonneg (0x1fe7fffc0000 + size) 3)) as Sh.
    rewrite NZ, andb_false_r by lia.
    assert ((0x1fe7fffc0000 + size =? 0) = false) as NZ' by lia.
    destruct (Hm (0x1fe7fffc0000 + size) gran) as [-> | ->];
      [|rewrite (proj2 (Z.eqb_neq MAP_FAILED (_ + _))) by (unfold MAP_FAILED; lia); by split]. rewrite NZ', Z.eqb_refl. cbn [unassert mbind option_bind].
    assert (mm_n mm + 1 <= (size + gran) / 40) as Ln by (apply Z.div_le_lower_bound; lia).
    set (n := (size + gran) / 40) in *. split; [done|].
    unfold shape, used. cbn [mm_i mm_n mm_p mm_static]. rewrite length_app, length_replicate.
    split; [split; [lia|]; split; [lia|done]|]. split; [done|]. split; [lia|].
    rewrite take_app_le by lia. done.
Qed.

Lemma mint_split mm pre post : shape mm -> used mm = pre ++ post ->
  match __mint_memory IsAsan sys_mmap mm (Z.of_nat (length pre)) with
  | Some (rc, mm') =>
      rc = 0 /\ shape mm' /\ exists e, used mm' = pre ++ e :: post /\ forall a l, post = a :: l -> e = a
  | None => refused IsAsan sys_mmap mm
  end.
Proof.
  intros K E. pose proof (used_length mm K) as U. rewrite E, length_app in U. unfold __mint_memory, unassert.
  rewrite !Z.geb_leb, !(proj2 (Z.leb_le _ _)) by (destruct K; lia). cbn [mbind option_bind].
  assert (match (if mm_i mm =? mm_n mm then __extend_memory IsAsan sys_mmap mm else Some (true, mm)) with
    | Some (ok, mm') => ok = true /\ shape mm' /\ mm_i mm' = mm_i mm /\ mm_i mm < mm_n mm' /\ used mm' = used mm
    | None => refused IsAsan sys_mmap mm end) as H.
  { destruct (Z.eqb_spec (mm_i mm) (mm_n mm)) as [F|F]; [by apply extend_spec|].
    split; [done|]. split; [done|]. split; [done|]. split; [destruct K; lia|done]. }
  destruct (if mm_i mm =? mm_n mm then _ else _) as [[ok mm']|]; [|exact H]. cbn [mbind option_bind].
  destruct H as (-> & (B & L & S) & I & N & E'). cbn [negb]. rewrite E in E'.
    rewrite shove_memory_move by lia. cbn [mbind option_bind]. split; [done|].
    unfold shape, used in *. cbn [mm_i mm_n mm_p mm_static].
    assert (mm_p mm' = (pre ++ post) ++ drop (Z.to_nat (mm_i mm')) (mm_p mm')) as P
      by (rewrite <- E'; symmetry; apply take_drop).
    assert (0 < length (drop (Z.to_nat (mm_i mm')) (mm_p mm')))%nat as R by (rewrite length_drop; lia).
    set (rest := drop (Z.to_nat (mm_i mm')) (mm_p mm')) in *. clearbody rest.
    assert (exists e, take (Z.to_nat (Z.of_nat (length pre) + 1)) (mm_p mm') = pre ++ [e] /\
              forall a l, post = a :: l -> e = a) as (e & Tk & He).
    { rewrite P. replace (Z.to_nat (_ + 1)) with (length pre + 1)%nat by lia. rewrite <- app_assoc, take_app_add.
      destruct post as [|a l]; [destruct rest as [|a l]; [cbn in R; lia|]|]; exists a; (split; [done|]); intros ? ? [= ]; congruence. }
    assert (take (Z.to_nat (mm_i mm' - Z.of_nat (length pre))) (drop (Z.to_nat (Z.of_nat (length pre))) (mm_p mm')) = post) as Tp.
    { rewrite P, Nat2Z.id, <- app_assoc, drop_app_length. replace (Z.to_nat (_ - _)) with (length post) by lia. apply take_app_length. }
    rewrite Tk, Tp. split; [|exists e; split; [|done]].
    + split; [lia|]. split; [|done]. rewrite L. f_equal.
      rewrite !length_app, length_drop. cbn [length]. lia.
    + rewrite (app_assoc (pre ++ [e])), <- (app_assoc pre). apply take_app_length'. rewrite length_app. cbn [length app]. lia.
Qed.
End Mint.

(** There are fewer entries than frames. *)
Lemma entries_count l : forall lo, entries_ok l -> Forall (fun e => lo <= mi_x e) l -> 0 <= lo <= 2 ^ 31 - 1 ->
  lo + Z.of_nat (length l) <= 2 ^ 31 - 1.
Proof.
  induction l as [|e l IH]; intros lo K F B; [cbn; lia|]. apply entries_ok_cons in K as (He & Kl & Bl).
  apply Forall_cons in F as [F _]. ranges. cbn [length].
  specialize (IH (lo + 1) Kl). rewrite Nat2Z.inj_succ. enough (lo + 1 + Z.of_nat (length l) <= 2 ^ 31 - 1) by lia.
  apply IH; [|lia]. eapply Forall_impl; [exact Bl|]. cbn. lia.
Qed.

Lemma mm_count mm : mm_ok mm -> 0 <= mm_i mm < 2 ^ 31.
Proof.
  intros [K E]. rewrite <- (used_length mm K). pose proof (entries_count (used mm) 0 E) as C.
  enough (0 + Z.of_nat (length (used mm)) <= 2 ^ 31 - 1) by lia. apply C; [|lia].
  destruct E as [F _]. eapply Forall_impl; [exact F|]. intros e He. ranges. lia.
Qed.

(* ------------------------------------------------------------------ *)
(** ** Lemmas: binary search *)

Lemma entries_mono l i j a b :
  entries_ok l -> (i <= j)%nat -> l !! i = Some a -> l !! j = Some b -> mi_y a <= mi_y b.
Proof.
  intros K L Ha Hb. destruct (decide (i = j)) as [->|N]; [by simplify_eq|].
  rewrite <- (take_drop_middle l i a Ha) in K, Hb.
  apply entries_ok_app in K as (_ & K & _). apply entries_ok_cons in K as (_ & [Kl _] & F).
  assert (i < length l)%nat by (by eapply lookup_lt_Some).
  rewrite lookup_app_r in Hb by (rewrite length_take; lia). rewrite length_take, Nat.min_l in Hb by lia.
  destruct (j - i)%nat eqn:D; [lia|]. cbn in Hb. rewrite Forall_forall in F, Kl.
  apply list_elem_of_lookup_2 in Hb. specialize (F b Hb). specialize (Kl b Hb). ranges. lia.
Qed.

Lemma find_loop_spec mm x fuel : mm_ok mm -> forall l r,
  0 <= l <= r -> r <= mm_i mm -> r - l <= Z.of_nat fuel ->
  (forall j e, used mm !! j = Some e -> Z.of_nat j < l -> mi_y e < x) ->
  (forall j e, used mm !! j = Some e -> r <= Z.of_nat j -> x <= mi_y e) ->
  exists k, find_loop fuel mm x l r = Some k /\ 0 <= k <= mm_i mm /\
    (forall j e, used mm !! j = Some e -> Z.of_nat j < k -> mi_y e < x) /\
    (forall j e, used mm !! j = Some e -> k <= Z.of_nat j -> x <= mi_y e).
Proof.
  intros [K E]. pose proof (used_length mm K) as U. induction fuel as [|fuel IH]; intros l r Hl Hr Hf Lo Hi.
  - assert (l = r) as -> by lia. exists r. cbn [find_loop]. rewrite Z.ltb_irrefl. split; [done|]. split; [lia|done].
  - cbn [find_loop]. destruct (Z.ltb_spec l r) as [L|L].
    + rewrite midpoint. set (m := (l + r) / 2).
      assert (l <= m < r) as Hm.
      { subst m. split; [apply Z.div_le_lower_bound; lia|apply Z.div_lt_upper_bound; lia]. }
      destruct (lookup_lt_is_Some_2 (used mm) (Z.to_nat m)) as [e He]; [lia|].
      assert (entry mm m = e) as ->.
      { unfold entry. apply list_lookup_total_correct. unfold used in He. by apply lookup_take_Some in He as [? _]. }
      destruct (Z.ltb_spec (mi_y e) x).
      * apply IH; [lia|lia|lia| |done]. intros j e' Hj Lj.
        pose proof (entries_mono _ j (Z.to_nat m) e' e E ltac:(lia) Hj He). lia.
      * apply IH; [lia|lia|lia|done|]. intros j e' Hj Lj.
        pose proof (entries_mono _ (Z.to_nat m) j e e' E ltac:(lia) He Hj). lia.
    + assert (l = r) as -> by lia. exists r. split; [done|]. split; [lia|done].
Qed.

(** [__find_memory] splits the table in front of the first entry that does not end below [x]. *)
Lemma find_split mm x : mm_ok mm -> exists pre post,
  used mm = pre ++ post /\ __find_memory mm x = Some (Z.of_nat (length pre)) /\
  Forall (fun e => mi_y e < x) pre /\ Forall (fun e => x <= mi_y e) post.
Proof.
  intros K. pose proof (mm_count mm K) as C. pose proof (used_length mm (proj1 K)) as U.
  destruct (find_loop_spec mm x (Z.to_nat (mm_i mm)) K 0 (mm_i mm)) as (k & F & B & Lo & Hi); try lia.
  { intros j e Hj L. apply lookup_lt_Some in Hj. lia. }
  exists (take (Z.to_nat k) (used mm)), (drop (Z.to_nat k) (used mm)). split; [by rewrite take_drop|].
  split; [unfold __find_memory; rewrite F; f_equal; rewrite length_take; lia|]. split.
  - apply Forall_lookup. intros j e Hj. apply lookup_take_Some in Hj as [Hj ?]. apply (Lo j e Hj). lia.
  - apply Forall_lookup. intros j e Hj. rewrite lookup_drop in Hj. apply (Hi _ e Hj). lia.
Qed.

Lemma find_unique mm x pre post : mm_ok mm ->
  used mm = pre ++ post -> Forall (fun e => mi_y e < x) pre -> Forall (fun e => x <= mi_y e) post ->
  __find_memory mm x = Some (Z.of_nat (length pre)).
Proof.
  intros K E Fp Fq. destruct (find_split mm x K) as (p & q & E' & -> & Gp & Gq). do 2 f_equal.
  rewrite E in E'. clear -E' Fp Fq Gp Gq. revert p E' Gp. induction Fp as [|a pre Ha Fp IH]; intros [|b p] E Gp; [done| | |].
  - cbn in E. subst. apply Forall_cons in Fq as [? _]. apply Forall_cons in Gp as [? _]. lia.
  - cbn in E. subst q. apply Forall_cons in Gq as [? _]. lia.
  - cbn in E. injection E as -> E. apply Forall_cons in Gp as [_ Gp]. cbn. f_equal. by apply IH.
Qed.

(** Splitting an ordered list at an upper bound. *)
Lemma split_upper l y : entries_ok l -> exists mid suf,
  l = mid ++ suf /\ Forall (fun e => mi_x e <= y) mid /\ Forall (fun e => y < mi_x e) suf.
Proof.
  induction l as [|e l IH]; intros K; [by exists [], []|]. apply entries_ok_cons in K as (He & Kl & B).
  destruct (decide (mi_x e <= y)) as [L|L].
  - destruct (IH Kl) as (mid & suf & -> & Fm & Fs). exists (e :: mid), suf. split; [done|]. by split; [constructor|].
  - exists [], (e :: l). split; [done|]. split; [done|]. constructor; [lia|].
    eapply Forall_impl; [exact B|]. intros b Hb. ranges. cbn in *. lia.
Qed.

(* ------------------------------------------------------------------ *)
(** ** Lemmas: untracking *)

Lemma cut_outside x y l :
  Forall (fun e => mi_y e < x \/ y < mi_x e) l -> cut x y l = l.
Proof.
  induction 1 as [|e l H _ IH]; [done|]. change (cut x y (e :: l)) with (pieces x y e ++ cut x y l).
  rewrite IH. unfold pieces. by replace ((mi_y e <? x) || (y <? mi_x e)) with true by lia.
Qed.

Lemma cut_inside x y l : Forall (fun e => covered x y e /\ mi_x e <= mi_y e) l -> cut x y l = [].
Proof.
  unfold covered. induction 1 as [|e l H _ IH]; [done|]. change (cut x y (e :: l)) with (pieces x y e ++ cut x y l).
  rewrite IH, app_nil_r. unfold pieces.
  rewrite (proj2 (Z.ltb_ge (mi_y e) x)), (proj2 (Z.ltb_ge y (mi_x e))) by lia.
  by rewrite (proj2 (Z.ltb_ge (mi_x e) x)), (proj2 (Z.ltb_ge y (mi_y e))) by lia.
Qed.

Lemma covered_none x y l : Forall (fun e => mi_x e <= mi_y e /\ (mi_y e < x \/ y < mi_x e)) l -> filter (covered x y) l = [].
Proof.
  unfold covered. induction 1 as [|e l H _ IH]; [done|]. by rewrite filter_cons_False by lia.
Qed.

Lemma covered_all x y l : Forall (covered x y) l -> filter (covered x y) l = l.
Proof. induction 1 as [|e l H _ IH]; [done|]. by rewrite filter_cons_True, IH. Qed.

Section Untrack.
Context (IsWindows IsAsan : bool) (sys_mmap : Z -> Z -> Z) (Hm : honest sys_mmap).

(** The end of [__untrack_memory], after the ends were trimmed: the entries [D] go. *)
Lemma release_spec mm A D B wf l r :
  shape mm -> mm_i mm < 2 ^ 31 -> used mm = A ++ D ++ B ->
  l = Z.of_nat (length A) -> r = u32 (l + Z.of_nat (length D) - 1) ->
  exists mm', release IsWindows mm l r wf = Some (0, mm', if IsWindows && wf then D else []) /\
    shape mm' /\ used mm' = A ++ B.
Proof.
  intros K C E -> ->. pose proof (used_length mm K) as U. rewrite E, !length_app in U.
  destruct (remove_split mm K A D B E) as (mm' & R & K' & E'). unfold release.
  destruct D as [|d D0] eqn:ED.
  - cbn [length] in *. destruct A as [|a A].
    + cbn [length] in *. change (u32 (Z.of_nat 0 + Z.of_nat 0 - 1)) with (2 ^ 32 - 1).
      change (Z.of_nat 0 <=? 2 ^ 32 - 1) with true. cbv iota.
      change (s32 (u32 (2 ^ 32 - 1 - Z.of_nat 0 + 1))) with 0. change (Z.of_nat 0) with 0 in *. rewrite R.
      exists mm'. split; [|done]. cbn [mbind option_bind]. by destruct (IsWindows && wf).
    + cbn [length] in *. rewrite u32_id by lia. rewrite (proj2 (Z.leb_gt _ _)) by lia.
      exists mm. split; [by destruct (IsWindows && wf)|]. done.
  - rewrite <- ED in *. assert (0 < length D)%nat by (rewrite ED; cbn; lia).
    rewrite u32_id by lia. rewrite (proj2 (Z.leb_le _ _)) by lia.
    replace (Z.of_nat (length A) + Z.of_nat (length D) - 1 - Z.of_nat (length A) + 1) with (Z.of_nat (length D)) by lia.
    rewrite !u32_id, !s32_id by lia. rewrite R. cbn [mbind option_bind]. exists mm'. split; [|done]. do 2 f_equal.
    destruct (IsWindows && wf); [|done]. replace (Z.to_nat (_ + 1)) with (length D) by lia. rewrite Nat2Z.id.
    unfold used in E. assert (mm_p mm = (A ++ D ++ B) ++ drop (Z.to_nat (mm_i mm)) (mm_p mm)) as ->
      by (rewrite <- E; symmetry; apply take_drop).
    rewrite <- app_assoc, drop_app_length, <- app_assoc. apply take_app_length.
Qed.

(** The entries of the table around the frames [x .. y]: those below, those that overlap, of
    which [z] is the last, and those above. *)
Record around (mm : MemoryIntervals) (x y : Z) (pre mid : list MemoryInterval) (z : MemoryInterval)
    (suf : list MemoryInterval) : Prop := Around {
  around_ok : mm_ok mm;
  around_used : used mm = pre ++ (mid ++ [z]) ++ suf;
  around_pre : Forall (fun e => mi_y e < x) pre;
  around_mid : Forall (fun e => x <= mi_y e /\ mi_y e < y) mid;
  around_z : x <= mi_y z /\ mi_x z <= y;
  around_suf : Forall (fun e => y < mi_x e) suf }.

Lemma around_find_x mm x y pre mid z suf : x <= y -> around mm x y pre mid z suf ->
  __find_memory mm x = Some (Z.of_nat (length pre)).
Proof.
  intros L [K E Fp Fm Hz Fs]. apply (find_unique mm x pre ((mid ++ [z]) ++ suf) K E Fp).
  destruct K as [_ [F _]]. rewrite E in F. apply Forall_app in F as [_ F]. apply Forall_app in F as [_ F].
  apply Forall_app. split; [apply Forall_app; split|].
  - eapply Forall_impl; [exact Fm|]. by intros ? [].
  - apply Forall_singleton. lia.
  - apply Forall_forall. intros e He. rewrite Forall_forall in F, Fs. specialize (F e He). specialize (Fs e He). ranges. cbn in *. lia.
Qed.

(** The index of the last entry that overlaps, as the code finds it. *)
Lemma around_find_y mm x y pre mid z suf : x <= y -> around mm x y pre mid z suf ->
  exists r, __find_memory mm y = Some r /\
    (if (r =? mm_i mm) || ((r >? Z.of_nat (length pre)) && (y <? mi_x (entry mm r))) then u32 (r - 1) else r) =
    Z.of_nat (length (pre ++ mid)).
Proof.
  intros L [K E Fp Fm Hz Fs]. pose proof (mm_count mm K) as C. pose proof (used_length mm (proj1 K)) as U.
  assert (Forall (fun e => mi_y e < y) (pre ++ mid)) as Fpm.
  { apply Forall_app. split; eapply Forall_impl; [exact Fp| |exact Fm|]; cbn; lia. }
  assert (Forall (fun e => y < mi_y e) suf) as Fs'.
  { destruct K as [_ [F _]]. rewrite E in F. apply Forall_app in F as [_ F]. apply Forall_app in F as [_ F].
    apply Forall_forall. intros e He. rewrite Forall_forall in F, Fs. specialize (F e He). specialize (Fs e He). ranges. cbn in *. lia. }
  rewrite E, !length_app in U. cbn [length] in U.
  destruct (decide (y <= mi_y z)) as [G|G].
  - exists (Z.of_nat (length (pre ++ mid))). split.
    + apply (find_unique mm y (pre ++ mid) (z :: suf) K); [by rewrite E, <- !app_assoc|done|].
      constructor; [done|]. eapply Forall_impl; [exact Fs'|]. cbn. lia.
    + rewrite (entry_split mm (pre ++ mid) z suf) by (by rewrite E, <- !app_assoc).
      rewrite length_app in *. rewrite (proj2 (Z.eqb_neq _ (mm_i mm))) by lia.
      rewrite (proj2 (Z.ltb_ge y _)) by lia. by rewrite andb_false_r.
  - exists (Z.of_nat (length ((pre ++ mid) ++ [z]))). split.
    + apply (find_unique mm y ((pre ++ mid) ++ [z]) suf K); [by rewrite E, <- !app_assoc| |].
      * apply Forall_app. split; [done|]. apply Forall_singleton. lia.
      * eapply Forall_impl; [exact Fs'|]. cbn. lia.
    + rewrite !length_app in *. cbn [length] in *.
      assert ((Z.of_nat (length pre + length mid + 1) =? mm_i mm) ||
        (Z.of_nat (length pre + length mid + 1) >? Z.of_nat (length pre)) &&
        (y <? mi_x (entry mm (Z.of_nat (length pre + length mid + 1)))) = true) as ->; [|rewrite u32_id by lia; lia].
      destruct suf as [|s suf].
      * cbn [length] in *. by rewrite (proj2 (Z.eqb_eq _ (mm_i mm))) by lia.
      * pose proof (entry_split mm ((pre ++ mid) ++ [z]) s suf) as Es. rewrite !length_app in Es. cbn [length] in Es.
        rewrite Es by (by rewrite E, <- !app_assoc). apply Forall_cons in Fs as [Fs _].
        rewrite Z.gtb_ltb, (proj2 (Z.ltb_lt _ _)), (proj2 (Z.ltb_lt y _)) by lia. apply orb_true_r.
Qed.

Lemma punch_spec mm pre e suf x y : shape mm -> used mm = pre ++ e :: suf ->
  match __punch_memory IsAsan sys_mmap mm x y (Z.of_nat (length pre)) with
  | Some (rc, mm') => rc = 0 /\ shape mm' /\ used mm' = pre ++ [trim_right x e; trim_left y e] ++ suf
  | None => refused IsAsan sys_mmap mm
  end.
Proof.
  intros K E. unfold __punch_memory. pose proof (mint_split IsAsan sys_mmap Hm mm pre (e :: suf) K E) as H.
  destruct (__mint_memory _ _ _ _) as [[rc mm1]|]; [|exact H].
  cbn [mbind option_bind]. destruct H as (-> & K1 & e' & E1 & Ee).
  rewrite (Ee e suf eq_refl) in E1. cbn [Z.eqb]. rewrite (entry_split mm1 pre e (e :: suf) E1).
    destruct (set_split mm1 K1 pre e (e :: suf) (trim_right x e) E1) as [K2 E2].
    set (mm2 := set_entry mm1 (Z.of_nat (length pre)) (trim_right x e)) in *.
    assert (used mm2 = (pre ++ [trim_right x e]) ++ e :: suf) as E2' by (by rewrite E2, <- app_assoc).
    replace (Z.of_nat (length pre) + 1) with (Z.of_nat (length (pre ++ [trim_right x e]))) by (rewrite length_app; cbn; lia).
    rewrite (entry_split mm2 _ e suf E2').
    destruct (set_split mm2 K2 _ e suf (trim_left y e) E2') as [K3 E3].
    split; [done|]. split; [exact K3|]. by rewrite E3, <- app_assoc.
Qed.

Definition untracked mm x y wf (l : list MemoryInterval) (rc : Z) mm' (rel : list MemoryInterval) : Prop :=
  (rc = 0 /\ shape mm' /\ used mm' = cut x y l /\ rel = (if IsWindows && wf then filter (covered x y) l else [])) \/
  (rc = -1 /\ mm' = mm /\ rel = [] /\ IsWindows = true /\ Exists (partial x y) l).
Definition untracks mm x y wf (o : option (Z * MemoryIntervals * list MemoryInterval)) : Prop :=
  match o with
  | Some (rc, mm', rel) => untracked mm x y wf (used mm) rc mm' rel
  | None => refused IsAsan sys_mmap mm
  end.

(** What is in front of the entries that overlap and behind them does not change. *)
Lemma cut_around mm x y pre mid z suf l : around mm x y pre mid z suf -> l = mid ++ [z] ->
  cut x y (used mm) = pre ++ cut x y l ++ suf /\ filter (covered x y) (used mm) = filter (covered x y) l.
Proof.
  intros [K E Fp Fm Hz Fs] ->. destruct K as [_ [F _]]. rewrite E in *.
  apply Forall_app in F as [F1 F]. apply Forall_app in F as [_ F2]. split.
  - rewrite !cut_app. rewrite (cut_outside x y pre), (cut_outside x y suf); [done| |].
    + eapply Forall_impl; [exact Fs|]. cbn. lia.
    + eapply Forall_impl; [exact Fp|]. cbn. lia.
  - rewrite !filter_app, (covered_none x y pre), (covered_none x y suf), app_nil_r; [done| |].
    + apply Forall_forall. intros e He. rewrite Forall_forall in F2, Fs. specialize (F2 e He). specialize (Fs e He). ranges. cbn in *. lia.
    + apply Forall_forall. intros e He. rewrite Forall_forall in F1, Fp. specialize (F1 e He). specialize (Fp e He). ranges. cbn in *. lia.
Qed.

Lemma around_entries mm x y pre mid z suf : around mm x y pre mid z suf ->
  Forall entry_ok (mid ++ [z]) /\ Forall (fun e => mi_y e < mi_x z) mid.
Proof.
  intros [K E Fp Fm Hz Fs]. destruct K as [_ K]. rewrite E in K. apply entries_ok_app in K as (_ & K & _).
  apply entries_ok_app in K as (K & _ & _). split; [by destruct K|].
  apply entries_ok_app in K as (_ & _ & B). apply Forall_forall. intros e He. apply (B e z He). apply list_elem_of_here.
Qed.

Lemma trim_lefthand_spec mm x y pre a rest : shape mm -> used mm = pre ++ a :: rest ->
  x <= mi_y a -> (mi_x a < x -> mi_y a <= y) ->
  trim_lefthand IsWindows mm x y (Z.of_nat (length pre)) =
  Some (if mi_x a <? x then
          if IsWindows then None
          else Some (set_entry mm (Z.of_nat (length pre)) (trim_right x a), u32 (Z.of_nat (length pre) + 1))
        else Some (mm, Z.of_nat (length pre))).
Proof.
  intros K E Hx Hy. unfold trim_lefthand. rewrite (entry_split mm pre a rest E), Z.gtb_ltb, Z.geb_leb.
  rewrite (proj2 (Z.leb_le x _)), andb_true_r by lia. destruct (Z.ltb_spec (mi_x a) x) as [L|L]; [|done].
  rewrite (proj2 (Z.leb_le _ y)) by (by apply Hy). cbn [unassert mbind option_bind]. destruct IsWindows; [done|].
  destruct (set_split mm K pre a rest (trim_right x a) E) as [_ E']. rewrite (entry_split _ pre _ rest E').
  cbn [trim_right mi_x mi_y]. by rewrite (proj2 (Z.leb_le _ (x - 1))) by lia.
Qed.

Lemma trim_righthand_spec mm x y pre z rest : shape mm -> used mm = pre ++ z :: rest ->
  mi_x z <= y -> (y < mi_y z -> x <= mi_x z) ->
  trim_righthand IsWindows mm x y (Z.of_nat (length pre)) =
  Some (if y <? mi_y z then
          if IsWindows then None
          else Some (set_entry mm (Z.of_nat (length pre)) (trim_left y z), u32 (Z.of_nat (length pre) - 1))
        else Some (mm, Z.of_nat (length pre))).
Proof.
  intros K E Hy Hx. unfold trim_righthand. rewrite (entry_split mm pre z rest E), Z.geb_leb.
  rewrite (proj2 (Z.leb_le _ y)) by lia. cbn [andb]. destruct (Z.ltb_spec y (mi_y z)) as [L|L]; [|done].
  rewrite (proj2 (Z.leb_le x _)) by (by apply Hx). cbn [unassert mbind option_bind]. destruct IsWindows; [done|].
  destruct (set_split mm K pre z rest (trim_left y z) E) as [_ E']. rewrite (entry_split _ pre _ rest E').
  cbn [trim_left mi_x mi_y]. by rewrite (proj2 (Z.leb_le (y + 1) _)) by lia.
Qed.

(** The code up to the point where the entries that overlap are known. *)
Lemma untrack_enter mm x y wf pre mid z suf a : x <= y -> around mm x y pre mid z suf -> a = hd z mid ->
  __untrack_memory IsWindows IsAsan sys_mmap mm x y wf =
  (if bool_decide (mid = []) && (mi_x a <? x) && (y <? mi_y a) then
     '(rc, mm) ← __punch_memory IsAsan sys_mmap mm x y (Z.of_nat (length pre)); Some (rc, mm, [])
   else
     left ← trim_lefthand IsWindows mm x y (Z.of_nat (length pre));
     match left with
     | None => Some (-1, mm, [])
     | Some (mm, l) =>
         right ← trim_righthand IsWindows mm x y (Z.of_nat (length (pre ++ mid)));
         match right with
         | None => Some (-1, mm, [])
         | Some (mm, r) => release IsWindows mm l r wf
         end
     end).
Proof.
  intros L A ->. pose proof (around_find_x _ _ _ _ _ _ _ L A) as Fx.
  destruct (around_find_y _ _ _ _ _ _ _ L A) as (r & Fy & Er). destruct (around_entries _ _ _ _ _ _ _ A) as [He _].
  destruct A as [KK E Fp Fm [Hz Hz'] Fs]. destruct KK as [K _].
  pose proof (used_length mm K) as U. rewrite E, !length_app in U. cbn [length] in U.
  assert (entry mm (Z.of_nat (length pre)) = hd z mid /\ mi_x (hd z mid) <= y) as [Ea Ya].
  { destruct mid as [|a m]; cbn [hd app] in *; (split; [by apply (entry_split mm pre _ _ E)|]); [done|].
    apply Forall_cons in He as [He _]. apply Forall_cons in Fm as [Fm _]. ranges. lia. }
  assert (entry mm (Z.of_nat (length (pre ++ mid))) = z) as Ez by (apply (entry_split mm _ z suf); by rewrite E, <- !app_assoc).
  unfold __untrack_memory. rewrite Z.geb_leb, (proj2 (Z.leb_le _ _)) by lia. cbn [unassert mbind option_bind].
  rewrite (proj2 (Z.eqb_neq (mm_i mm) 0)), Fx by lia. cbn [mbind option_bind].
  rewrite (proj2 (Z.eqb_neq _ (mm_i mm))) by lia. rewrite Ea, (proj2 (Z.ltb_ge y _)), Fy by lia.
  cbn [mbind option_bind]. rewrite Er, !Z.geb_leb, !Z.gtb_ltb, Ez, (proj2 (Z.leb_le x (mi_y z))) by lia.
  rewrite (proj2 (Z.leb_le (Z.of_nat (length pre)) _)) by (rewrite length_app; lia). cbn [unassert mbind option_bind].
  assert ((Z.of_nat (length pre) =? Z.of_nat (length (pre ++ mid))) = bool_decide (mid = [])) as ->; [|done].
  rewrite length_app. destruct mid as [|a m]; cbn [length].
  - rewrite bool_decide_true by done. apply Z.eqb_eq. lia.
  - rewrite bool_decide_false by done. apply Z.eqb_neq. lia.
Qed.

(** One entry overlaps. *)
Lemma untrack_one mm x y wf pre z suf : x <= y -> around mm x y pre [] z suf ->
  untracks mm x y wf (__untrack_memory IsWindows IsAsan sys_mmap mm x y wf).
Proof.
  intros L A. rewrite (untrack_enter mm x y wf pre [] z suf z L A eq_refl). rewrite app_nil_r.
  destruct (cut_around mm x y pre [] z suf [z] A eq_refl) as [Cu Fi].
  destruct A as [KK E Fp _ [Hz Hz'] Fs]. cbn [app] in E. pose proof (mm_count mm KK) as C. destruct KK as [K _].
  pose proof (used_length mm K) as U. rewrite E, length_app in U. cbn [length] in U.
  rewrite bool_decide_true by done. cbn [andb]. unfold untracks, untracked. rewrite Cu, Fi, filter_cons, filter_nil. clear Cu Fi.
  unfold cut. cbn [flat_map]. rewrite app_nil_r. unfold pieces.
  rewrite (proj2 (Z.ltb_ge (mi_y z) x)), (proj2 (Z.ltb_ge y (mi_x z))) by lia. cbn [orb].
  assert (mi_x z < x \/ y < mi_y z -> Exists (partial x y) (used mm)) as Pa.
  { intros D. rewrite E. apply Exists_app. right. apply Exists_cons. left. unfold partial, covered. lia. }
  assert (covered x y z <-> ~ (mi_x z < x \/ y < mi_y z)) as Co by (unfold covered; lia).
  destruct ((mi_x z <? x) && (y <? mi_y z)) eqn:P.
  - pose proof (punch_spec mm pre z suf x y K E) as H. destruct (__punch_memory _ _ _ _ _ _) as [[rc mm']|]; [|exact H].
    cbn [mbind option_bind]. destruct H as (-> & K' & E').
    assert ((mi_x z <? x) = true /\ (y <? mi_y z) = true) as [-> ->] by lia.
    rewrite decide_False by (rewrite Co; lia). left. split; [done|]. split; [done|].
    split; [done|]. by destruct (IsWindows && wf).
  - rewrite (trim_lefthand_spec mm x y pre z suf K E) by lia. cbn [mbind option_bind].
    destruct (Z.ltb_spec (mi_x z) x) as [Gx|Gx].
    + rewrite (proj2 (Z.ltb_ge y _)) by lia. rewrite decide_False by (rewrite Co; lia).
      destruct IsWindows eqn:W; [right; do 4 (split; [done|]); apply Pa; lia|].
      destruct (set_split mm K pre z suf (trim_right x z) E) as [K' E'].
      pose proof (trim_righthand_spec _ x y pre (trim_right x z) suf K' E') as TR. cbn [trim_right mi_x mi_y] in TR.
      rewrite (proj2 (Z.ltb_ge y (x - 1))), W in TR by lia. rewrite TR by lia. cbn [mbind option_bind].
      destruct (release_spec _ (pre ++ [trim_right x z]) [] suf wf (u32 (Z.of_nat (length pre) + 1)) (Z.of_nat (length pre)) K')
        as (mm' & R & K2 & E2); [exact (proj2 C)|by rewrite E', <- app_assoc|rewrite length_app, u32_id by lia; cbn; lia|
          rewrite (u32_id (_ + 1)) by lia; rewrite u32_id by (cbn [length]; lia); cbn [length]; lia|].
      rewrite W in R. rewrite R. left. split; [done|]. split; [done|]. split; [by rewrite E2, <- app_assoc|done].
    + rewrite (trim_righthand_spec mm x y pre z suf K E) by lia. cbn [mbind option_bind].
      destruct (Z.ltb_spec y (mi_y z)) as [Gy|Gy].
      * rewrite decide_False by (rewrite Co; lia).
        destruct IsWindows eqn:W; [right; do 4 (split; [done|]); apply Pa; lia|].
        destruct (set_split mm K pre z suf (trim_left y z) E) as [K' E'].
        destruct (release_spec _ pre [] (trim_left y z :: suf) wf (Z.of_nat (length pre)) (u32 (Z.of_nat (length pre) - 1)) K')
          as (mm' & R & K2 & E2); [exact (proj2 C)|done|done|cbn; f_equal; lia|].
        rewrite W in R. rewrite R. left. done.
      * rewrite decide_True by (rewrite Co; lia).
        destruct (release_spec mm pre [z] suf wf (Z.of_nat (length pre)) (Z.of_nat (length pre)) K)
          as (mm' & -> & K2 & E2); [lia|done|done|rewrite u32_id by (cbn; lia); cbn; lia|].
        left. done.
Qed.

(** What overlaps is cut at its two ends only. *)
Lemma cut_many mm x y pre a m z suf : x <= y -> around mm x y pre (a :: m) z suf ->
  cut x y (used mm) =
    (pre ++ (if mi_x a <? x then [trim_right x a] else [])) ++ (if y <? mi_y z then [trim_left y z] else []) ++ suf /\
  filter (covered x y) (used mm) = (if mi_x a <? x then [] else [a]) ++ m ++ (if y <? mi_y z then [] else [z]) /\
  ((mi_x a <? x) || (y <? mi_y z) = true -> Exists (partial x y) (used mm)).
Proof.
  intros L A. destruct (cut_around _ _ _ _ _ _ _ (a :: m ++ [z]) A eq_refl) as [-> ->].
  destruct (around_entries _ _ _ _ _ _ _ A) as [He Hb]. destruct A as [[_ [_ So]] E _ Fm [Hz Hz'] _].
  cbn [app] in E, He. apply Forall_cons in He as [Ha He]. apply Forall_app in He as [Hm' He].
  apply Forall_singleton in He. apply Forall_cons in Hb as [Hb Hbm]. apply Forall_cons in Fm as [Fa Fm].
  assert (Forall (fun e => covered x y e /\ mi_x e <= mi_y e) m) as Cm.
  { rewrite E in So. apply SSorted_app_iff in So as (_ & So & _). inversion So as [|? ? _ Fo]; subst.
    rewrite <- app_assoc in Fo. apply Forall_app in Fo as [Fo _]. apply Forall_forall. intros e Hin.
    rewrite Forall_forall in Fo, Fm, Hm'. specialize (Fo e Hin). specialize (Fm e Hin). specialize (Hm' e Hin).
    unfold covered. ranges. cbn in *. lia. }
  change (a :: m ++ [z]) with ([a] ++ m ++ [z]). rewrite !cut_app, (cut_inside x y m Cm), !filter_app, (covered_all x y m)
    by (eapply Forall_impl; [exact Cm|]; by intros ? []).
  unfold cut. cbn [flat_map app]. rewrite !app_nil_r, !filter_cons, !filter_nil. unfold pieces. ranges.
  rewrite (proj2 (Z.ltb_ge (mi_y a) x)), (proj2 (Z.ltb_ge y (mi_x a))), (proj2 (Z.ltb_ge y (mi_y a))) by lia.
  rewrite (proj2 (Z.ltb_ge (mi_y z) x)), (proj2 (Z.ltb_ge y (mi_x z))), (proj2 (Z.ltb_ge (mi_x z) x)) by lia.
  cbn [orb app]. rewrite app_nil_r, <- !app_assoc. split; [done|].
  rewrite E. split.
  - unfold covered. f_equal; [|f_equal]; [destruct (Z.ltb_spec (mi_x a) x)|destruct (Z.ltb_spec y (mi_y z))]; case_decide; done || lia.
  - intros D. apply Exists_app. right. rewrite <- app_assoc. destruct (Z.ltb_spec (mi_x a) x).
    + apply Exists_cons. left. unfold partial, covered. lia.
    + apply Exists_cons. right. apply Exists_app. right. apply Exists_cons. left. unfold partial, covered. lia.
Qed.

(** Several entries overlap: [a] is the first and [z] the last. *)
Lemma untrack_many mm x y wf pre a m z suf : x <= y -> around mm x y pre (a :: m) z suf ->
  untracks mm x y wf (__untrack_memory IsWindows IsAsan sys_mmap mm x y wf).
Proof.
  intros L A. rewrite (untrack_enter mm x y wf pre (a :: m) z suf a L A eq_refl).
  destruct (cut_many mm x y pre a m z suf L A) as (Cu & Fi & Pa).
  destruct (around_entries _ _ _ _ _ _ _ A) as [He Hb]. destruct A as [KK E _ Fm [Hz Hz'] _].
  pose proof (mm_count mm KK) as C. destruct KK as [K _]. apply Forall_cons in Hb as [Hb _]. apply Forall_cons in Fm as [Fa _].
  rewrite bool_decide_false by done. cbn [andb]. unfold untracks, untracked. rewrite Cu, Fi. clear Cu Fi.
  pose proof (used_length mm K) as U. rewrite E, !length_app in U. cbn [length] in U. rewrite length_app in *. cbn [length] in *.
  rewrite <- app_assoc in E. cbn [app] in E.
  rewrite (trim_lefthand_spec mm x y pre a (m ++ z :: suf) K E) by lia. cbn [mbind option_bind].
  destruct (decide (IsWindows = true /\ mi_x a < x)) as [[W G]|NW].
  { rewrite (proj2 (Z.ltb_lt _ _)) in * by done. rewrite W. right.
    do 4 (split; [done|]). by apply Pa. }
  set (a' := if mi_x a <? x then trim_right x a else a).
  set (mm1 := if mi_x a <? x then set_entry mm (Z.of_nat (length pre)) (trim_right x a) else mm).
  set (l1 := Z.of_nat (length pre) + (if mi_x a <? x then 1 else 0)).
  assert ((if mi_x a <? x then if IsWindows then None else Some (set_entry mm (Z.of_nat (length pre)) (trim_right x a),
      u32 (Z.of_nat (length pre) + 1)) else Some (mm, Z.of_nat (length pre))) = Some (mm1, l1)) as ->.
  { subst mm1 l1. destruct (Z.ltb_spec (mi_x a) x); [|by rewrite Z.add_0_r]. destruct IsWindows; [exfalso; apply NW; done|].
    by rewrite u32_id by lia. }
  assert (shape mm1 /\ used mm1 = (pre ++ a' :: m) ++ z :: suf /\ mm_i mm1 = mm_i mm) as (K1 & E1 & I1).
  { subst mm1 a'. rewrite <- app_assoc. destruct (Z.ltb_spec (mi_x a) x); [|done].
    destruct (set_split mm K pre a _ (trim_right x a) E) as [? ?]. done. }
  pose proof (trim_righthand_spec mm1 x y (pre ++ a' :: m) z suf K1 E1) as TR. rewrite length_app in TR. cbn [length] in TR.
  rewrite TR by lia. cbn [mbind option_bind]. clear TR.
  destruct (Z.ltb_spec y (mi_y z)) as [Gy|Gy].
  - destruct IsWindows eqn:W.
    { assert (mm1 = mm) as -> by (subst mm1; rewrite (proj2 (Z.ltb_ge (mi_x a) x)); [done|]; destruct (Z.ltb_spec (mi_x a) x); [exfalso; auto|done]).
      right. do 4 (split; [done|]). apply Pa. by rewrite orb_true_r. }
    destruct (set_split mm1 K1 (pre ++ a' :: m) z suf (trim_left y z) E1) as [K2 E2]. rewrite length_app in K2, E2. cbn [length] in K2, E2.
    destruct (release_spec _ (pre ++ (if mi_x a <? x then [trim_right x a] else []))
      ((if mi_x a <? x then [] else [a]) ++ m) (trim_left y z :: suf) wf l1 (u32 (Z.of_nat (length pre + S (length m)) - 1)) K2)
      as (mm' & R & K3 & E3).
    + cbn [set_entry mm_i]. rewrite I1. lia.
    + rewrite E2. subst a'. destruct (mi_x a <? x); by rewrite <- !app_assoc.
    + subst l1. rewrite length_app. destruct (mi_x a <? x); cbn; lia.
    + subst l1. rewrite length_app. f_equal. destruct (mi_x a <? x); cbn [length app]; lia.
    + rewrite W in R. rewrite R. left. done.
  - destruct (release_spec mm1 (pre ++ (if mi_x a <? x then [trim_right x a] else []))
      ((if mi_x a <? x then [] else [a]) ++ m ++ [z]) suf wf l1 (Z.of_nat (length pre + S (length m))) K1)
      as (mm' & -> & K3 & E3).
    + rewrite I1. lia.
    + rewrite E1. subst a'. destruct (mi_x a <? x); by rewrite <- !app_assoc.
    + subst l1. rewrite length_app. destruct (mi_x a <? x); cbn; lia.
    + subst l1. rewrite !length_app. cbn [length]. destruct (mi_x a <? x); cbn [length]; rewrite u32_id by lia; lia.
    + left. done.
Qed.

Lemma untrack_spec mm x y wf : mm_ok mm -> x <= y ->
  untracks mm x y wf (__untrack_memory IsWindows IsAsan sys_mmap mm x y wf).
Proof.
  intros KK L. destruct (find_split mm x KK) as (pre & post & E & Fx & Fp & Fq). pose proof KK as [K Es].
  rewrite E in Es. apply entries_ok_app in Es as (Ep & Es & _).
  destruct (split_upper post y Es) as (mid & suf & -> & Fm & Fs). apply Forall_app in Fq as [Fq _].
  destruct mid as [|b mid' _] using rev_ind.
  - (* nothing overlaps *)
    cbn [app] in E. assert (cut x y (used mm) = used mm /\ filter (covered x y) (used mm) = []) as [Cu Fi].
    { rewrite E. destruct Ep as [Ep _], Es as [Es _]. cbn [app] in Es. split.
      - apply cut_outside. apply Forall_app. split; eapply Forall_impl; [exact Fp| |exact Fs|]; cbn; lia.
      - apply covered_none, Forall_app. split; apply Forall_forall; intros e He; rewrite Forall_forall in *.
        + specialize (Ep e He). specialize (Fp e He). ranges. cbn in *. lia.
        + specialize (Es e He). specialize (Fs e He). ranges. cbn in *. lia. }
    assert (__untrack_memory IsWindows IsAsan sys_mmap mm x y wf = Some (0, mm, [])) as ->;
      [|left; rewrite Cu, Fi; by destruct (IsWindows && wf)].
    pose proof (used_length mm K) as U. rewrite E, length_app in U.
    unfold __untrack_memory. rewrite Z.geb_leb, (proj2 (Z.leb_le _ _)) by lia. cbn [unassert mbind option_bind].
    destruct (mm_i mm =? 0); [done|]. rewrite Fx. cbn [mbind option_bind].
    destruct (Z.eqb_spec (Z.of_nat (length pre)) (mm_i mm)); [done|].
    destruct suf as [|s suf]; [cbn in U; lia|]. rewrite (entry_split mm pre s suf E).
    apply Forall_cons in Fs as [Fs _]. by rewrite (proj2 (Z.ltb_lt y _)) by lia.
  - assert (around mm x y pre mid' b suf) as A.
    { apply Forall_app in Fm as [Fm Fb]. apply Forall_app in Fq as [Fq Fqb].
      apply Forall_cons in Fb as [Fb _]. apply Forall_cons in Fqb as [Fqb _]. split; try done. apply Forall_forall. intros e He. rewrite Forall_forall in Fq.
      split; [by apply Fq|]. apply entries_ok_app in Es as (Es & _ & _). apply entries_ok_app in Es as (_ & _ & B).
      specialize (B e b He (list_elem_of_here _ _)). unfold before in B. cbn in *. lia. }
    destruct mid' as [|a m]; [by apply (untrack_one mm x y wf pre b suf)|by apply (untrack_many mm x y wf pre a m b suf)].
Qed.
End Untrack.

(* ------------------------------------------------------------------ *)
(** ** Lemmas: tracking *)

Definition in_frames (x y f : Z) : bool := (x <=? f) && (f <=? y).

(** The frames [x .. y] are free. *)
Definition free (mm : MemoryIntervals) (x y : Z) : Prop := forall f, x <= f <= y -> owner (used mm) f = None.

Lemma free_split mm x y pre post : mm_ok mm -> x <= y -> free mm x y -> used mm = pre ++ post ->
  Forall (fun e => x <= mi_y e) post -> Forall (fun e => y < mi_x e) post.
Proof.
  intros [_ [K _]] L Fr E F. apply Forall_forall. intros e He. rewrite Forall_forall in F. specialize (F e He). cbn in F.
  destruct (decide (y < mi_x e)); [done|]. assert (e ∈ used mm) as Hu by (rewrite E; apply elem_of_app; auto).
  pose proof (owner_None (used mm) (Z.max x (mi_x e)) e (Fr (Z.max x (mi_x e)) ltac:(lia)) Hu).
  rewrite Forall_forall in K. specialize (K e Hu). ranges. destruct K as [K _]. lia.
Qed.

(** Replacing the entries [M] in the middle by [N], which adds the frames [x .. y]. *)
Lemma replace_middle P M Q N x y at_ :
  entries_ok (P ++ M ++ Q) -> entries_ok N ->
  Forall (fun e => Forall (before e) N) P -> Forall (fun n => Forall (before n) Q) N ->
  Forall (fun e => mi_y e < x) P ->
  (forall f, owner N f = if in_frames x y f then Some at_ else owner M f) ->
  entries_ok (P ++ N ++ Q) /\
  forall f, owner (P ++ N ++ Q) f = if in_frames x y f then Some at_ else owner (P ++ M ++ Q) f.
Proof.
  intros K KN BP BQ LP O. apply entries_ok_app in K as (KP & K & PQ). apply entries_ok_app in K as (_ & KQ & _). split.
  - apply entries_ok_app. split; [done|]. split.
    + apply entries_ok_app. split; [done|]. split; [done|]. intros a b Ha Hb.
      rewrite Forall_forall in BQ. specialize (BQ a Ha). rewrite Forall_forall in BQ. by apply BQ.
    + intros a b Ha Hb. apply elem_of_app in Hb as [Hb|Hb]; [|apply PQ; [done|]; apply elem_of_app; auto].
      rewrite Forall_forall in BP. specialize (BP a Ha). rewrite Forall_forall in BP. by apply BP.
  - intros f. rewrite !owner_app, O. destruct (in_frames x y f) eqn:I; [|done].
    rewrite owner_below; [done|]. unfold in_frames in I. eapply Forall_impl; [exact LP|]. cbn. lia.
Qed.

Section Track.
Context (IsAsan : bool) (sys_mmap : Z -> Z -> Z) (Hm : honest sys_mmap).
Context (mm : MemoryIntervals) (x y h prot flags : Z) (ro cow : bool) (offset size : Z).
Context (KK : mm_ok mm) (Hf : frames_ok x y) (Hs : size_ok x y size) (Hp : 0 <= prot < 128) (Fr : free mm x y).

Definition tracked (rc : Z) (mm' : MemoryIntervals) : Prop :=
  rc = 0 /\ mm_ok mm' /\
  forall f, owner (used mm') f = if in_frames x y f then Some (h, prot, flags) else owner (used mm) f.
Definition tracks (o : option (Z * MemoryIntervals)) : Prop :=
  match o with Some (rc, mm') => tracked rc mm' | None => refused IsAsan sys_mmap mm end.

Lemma tracked_middle mm' P M Q N :
  shape mm' -> used mm = P ++ M ++ Q -> used mm' = P ++ N ++ Q -> entries_ok N ->
  Forall (fun e => Forall (before e) N) P -> Forall (fun n => Forall (before n) Q) N ->
  Forall (fun e => mi_y e < x) P ->
  (forall f, owner N f = if in_frames x y f then Some (h, prot, flags) else owner M f) ->
  tracked 0 mm'.
Proof.
  intros K E E' KN BP BQ LP O. split; [done|]. destruct KK as [_ K0]. rewrite E in K0.
  destruct (replace_middle P M Q N x y (h, prot, flags) K0 KN BP BQ LP O) as [K1 O1].
  split; [split; [done|by rewrite E']|]. intros f. by rewrite E', E.
Qed.

Lemma full_size a : entry_ok a -> u64 (mi_size a) = u64 (u64 (mi_y a - mi_x a) * FRAMESIZE + FRAMESIZE) ->
  mi_size a = (mi_y a - mi_x a) * FRAMESIZE + FRAMESIZE.
Proof. intros H. ranges. rewrite (u64_id (mi_y a - mi_x a)), !u64_id by lia. done. Qed.

(** An entry's neighbours. *)
Lemma entry_bounds P a R : used mm = P ++ a :: R ->
  entry_ok a /\ Forall (fun p => before p a) P /\ Forall (before a) R /\ Forall entry_ok R.
Proof.
  intros E. destruct KK as [_ K]. rewrite E in K. apply entries_ok_app in K as (_ & K & B).
  apply entries_ok_cons in K as (Ha & [HR _] & F). split; [done|]. split; [|done].
  apply Forall_forall. intros p Hin. apply B; [done|apply list_elem_of_here].
Qed.

Ltac owners :=
  intros f; cbn [owner]; unfold within, in_frames, attr; cbn [mi_x mi_y mi_h mi_prot mi_flags];
  repeat match goal with |- context [if ?b then _ else _] => destruct b eqn:? end; try congruence; try lia; try done.

(** The lefthand entry grows. *)
Lemma track_left P a Q a' :
  used mm = P ++ a :: Q -> Forall (fun e => y < mi_x e) Q -> x = mi_y a + 1 ->
  attr a = (h, prot, flags) -> mi_size a = (mi_y a - mi_x a) * FRAMESIZE + FRAMESIZE ->
  a' = Interval (mi_x a) y (mi_h a) (s64 (mi_size a + u64 (y - mi_y a) * FRAMESIZE)) (mi_offset a) (mi_flags a) (mi_prot a)
         (mi_iscow a) (mi_readonlyfile a) ->
  shape (set_entry mm (Z.of_nat (length P)) a') /\
  used (set_entry mm (Z.of_nat (length P)) a') = P ++ a' :: Q /\ entry_ok a' /\
  tracked 0 (set_entry mm (Z.of_nat (length P)) a').
Proof.
  intros E FQ Xa At Sz Ea. destruct (entry_bounds P a Q E) as (Ha & BP & _).
  destruct (set_split mm (proj1 KK) P a Q a' E) as [K' E']. split; [done|]. split; [done|].
  assert (entry_ok a') as Ha'.
  { subst a'. ranges. cbn [mi_x mi_y mi_size]. rewrite u64_id, s64_id by lia. lia. }
  split; [done|]. apply (tracked_middle _ P [a] Q [a']); try done.
  - by apply entries_ok_single.
  - eapply Forall_impl; [exact BP|]. intros p B. apply Forall_singleton. unfold before in *. by subst a'.
  - apply Forall_singleton. eapply Forall_impl; [exact FQ|]. intros q B. unfold before. by subst a'.
  - eapply Forall_impl; [exact BP|]. intros p B. ranges. lia.
  - subst a'. unfold attr in At. ranges. owners.
Qed.

(** The hole between two entries is filled. *)
Lemma track_merge P a b Q mm2 a' :
  used mm = P ++ a :: b :: Q -> x = mi_y a + 1 -> y + 1 = mi_x b ->
  attr a = (h, prot, flags) -> attr b = (h, prot, flags) ->
  mi_size a = (mi_y a - mi_x a) * FRAMESIZE + FRAMESIZE ->
  a' = Interval (mi_x a) (mi_y b) (mi_h a) (s64 (s64 (mi_size a + u64 (y - mi_y a) * FRAMESIZE) + mi_size b)) (mi_offset a)
         (mi_flags a) (mi_prot a) (mi_iscow a) (mi_readonlyfile a) ->
  shape mm2 -> used mm2 = P ++ a' :: b :: Q ->
  exists mm', __remove_memory mm2 (Z.of_nat (length P + 1)) 1 = Some mm' /\ tracked 0 mm'.
Proof.
  intros E Xa Yb At Bt Sz Ea K2 E2. destruct (entry_bounds P a (b :: Q) E) as (Ha & BP & BQ & HQ).
  assert (used mm2 = (P ++ [a']) ++ [b] ++ Q) as E2' by (by rewrite E2, <- app_assoc).
  destruct (remove_split mm2 K2 (P ++ [a']) [b] Q E2') as (mm' & R & K' & E'). rewrite length_app in R. cbn [length] in R.
  exists mm'. split; [exact R|]. apply Forall_cons in HQ as [Hb _].
  assert (entry_ok a') as Ha'.
  { subst a'. ranges. cbn [mi_x mi_y mi_size]. rewrite u64_id, (s64_id (mi_size a + _)), s64_id by lia. lia. }
  assert (used mm = (P ++ [a]) ++ b :: Q) as Eb by (by rewrite E, <- app_assoc).
  destruct (entry_bounds (P ++ [a]) b Q Eb) as (_ & _ & BbQ & _).
  apply (tracked_middle mm' P [a; b] Q [a']); try done.
  - by rewrite E', <- app_assoc.
  - by apply entries_ok_single.
  - eapply Forall_impl; [exact BP|]. intros p B. apply Forall_singleton. unfold before in *. by subst a'.
  - apply Forall_singleton. eapply Forall_impl; [exact BbQ|]. intros q B. unfold before in *. by subst a'.
  - eapply Forall_impl; [exact BP|]. intros p B. ranges. lia.
  - subst a'. unfold attr in At, Bt. ranges. owners.
Qed.

(** The righthand entry grows. *)
Lemma track_right P b Q b' :
  used mm = P ++ b :: Q -> Forall (fun e => mi_y e < x) P -> y + 1 = mi_x b -> attr b = (h, prot, flags) ->
  size = (y - x) * FRAMESIZE + FRAMESIZE ->
  b' = Interval x (mi_y b) (mi_h b) (s64 (mi_size b + u64 (mi_x b - x) * FRAMESIZE)) (mi_offset b) (mi_flags b) (mi_prot b)
         (mi_iscow b) (mi_readonlyfile b) ->
  tracked 0 (set_entry mm (Z.of_nat (length P)) b').
Proof.
  intros E FP Yb Bt Sz Eb. destruct (entry_bounds P b Q E) as (Hb & _ & BQ & _).
  destruct (set_split mm (proj1 KK) P b Q b' E) as [K' E'].
  assert (entry_ok b') as Hb'.
  { subst b'. ranges. cbn [mi_x mi_y mi_size]. rewrite u64_id, s64_id by lia. lia. }
  apply (tracked_middle _ P [b] Q [b']); try done.
  - by apply entries_ok_single.
  - eapply Forall_impl; [exact FP|]. intros p B. apply Forall_singleton. unfold before in *. by subst b'.
  - apply Forall_singleton. eapply Forall_impl; [exact BQ|]. intros q B. unfold before in *. by subst b'.
  - subst b'. unfold attr in Bt. ranges. owners.
Qed.

(** A new entry. *)
Lemma track_new pre post : used mm = pre ++ post ->
  Forall (fun e => mi_y e < x) pre -> Forall (fun e => y < mi_x e) post ->
  tracks
    ('(rc, mm) ← __mint_memory IsAsan sys_mmap mm (Z.of_nat (length pre));
     if rc =? -1 then Some (-1, mm)
     else Some (0, set_entry mm (Z.of_nat (length pre)) (Interval x y h size offset flags (s8 prot) cow ro))).
Proof.
  intros E FP FQ. pose proof (mint_split IsAsan sys_mmap Hm mm pre post (proj1 KK) E) as H.
  destruct (__mint_memory _ _ _ _) as [[rc mm1]|]; [|exact H].
  cbn [mbind option_bind]. destruct H as (-> & K1 & e & E1 & _).
  cbn [Z.eqb]. set (n := Interval x y h size offset flags (s8 prot) cow ro).
    destruct (set_split mm1 K1 pre e post n E1) as [K2 E2].
    apply (tracked_middle _ pre [] post [n]); try done.
    + apply entries_ok_single. by split.
    + eapply Forall_impl; [exact FP|]. intros p B. by apply Forall_singleton.
    + by apply Forall_singleton.
    + assert (s8 prot = prot) as Ep by (unfold s8; rewrite Z.mod_small by lia; lia). subst n. rewrite Ep. owners.
Qed.

Lemma track_spec : tracks (__track_memory IsAsan sys_mmap mm x y h prot flags ro cow offset size).
Proof.
  destruct (find_split mm x KK) as (pre & post & E & Fx & Fp & Fq). pose proof KK as [K Es]. pose proof Hf as [Hxy Hy].
  pose proof (free_split mm x y pre post KK ltac:(lia) Fr E Fq) as Fs. pose proof (used_length mm K) as U.
  rewrite E, length_app in U.
  unfold __track_memory. rewrite Z.geb_leb, (proj2 (Z.leb_le _ _)) by lia. cbn [unassert mbind option_bind].
  rewrite Fx. cbn [mbind option_bind].
  match goal with |- context [if ?c then _ else _] => destruct c eqn:CA end; cbn [set_entry mm_i].
  - destruct pre as [|a P _] using rev_ind; [by rewrite Z.eqb_refl in CA|].
    rewrite length_app in *. cbn [length] in *. replace (Z.of_nat (length P + 1) - 1) with (Z.of_nat (length P)) in * by lia.
    rewrite <- app_assoc in E. cbn [app] in E. rewrite (entry_split mm P a post E) in *.
    destruct (entry_bounds P a post E) as (Ha & _).
    assert (x = mi_y a + 1 /\ attr a = (h, prot, flags) /\
      u64 (mi_size a) = u64 (u64 (mi_y a - mi_x a) * FRAMESIZE + FRAMESIZE)) as (Xa & At & Sa).
    { unfold attr. split; [lia|]. split; [|lia]. repeat f_equal; lia. }
    apply (full_size a Ha) in Sa.
    destruct (track_left P a post _ E Fs Xa At Sa eq_refl) as (K1 & E1 & Ha1 & T1).
    match goal with |- context [if ?c then _ else _] => destruct c eqn:CB end; [|exact T1].
    destruct post as [|b Q]; [exfalso; cbn [length] in U; repeat (apply andb_true_iff in CB as [CB _]); apply Z.ltb_lt in CB; lia|].
    assert (used mm = (P ++ [a]) ++ b :: Q) as Eb by (by rewrite E, <- app_assoc).
    pose proof (entry_split mm (P ++ [a]) b Q Eb) as Gb. rewrite length_app in Gb. cbn [length] in Gb. rewrite Gb in *.
    destruct (set_split _ K1 P _ (b :: Q) (Interval (mi_x a) (mi_y b) (mi_h a)
      (s64 (s64 (mi_size a + u64 (y - mi_y a) * FRAMESIZE) + mi_size b)) (mi_offset a) (mi_flags a) (mi_prot a) (mi_iscow a)
      (mi_readonlyfile a)) E1) as [K2 E2].
    assert (y + 1 = mi_x b /\ attr b = (h, prot, flags)) as [Yb Bt].
    { unfold attr. split; [lia|]. repeat f_equal; lia. }
    destruct (track_merge P a b Q _ _ E Xa Yb At Bt Sa eq_refl K2 E2) as (mm' & R & T). cbn [set_entry mm_i mm_n mm_p mm_static] in R.
    rewrite R. exact T.
  - match goal with |- context [if ?c then _ else _] => destruct c eqn:CB end; [|by apply (track_new pre post)].
    destruct post as [|b Q]; [exfalso; cbn [length] in U; repeat (apply andb_true_iff in CB as [CB _]); apply Z.ltb_lt in CB; lia|]. rewrite (entry_split mm pre b Q E) in *.
    apply (track_right pre b Q); try done; [lia| |].
    + unfold attr. repeat f_equal; lia.
    + apply andb_true_iff in CB as [_ S]. apply Z.eqb_eq in S. pose proof Hs as [H1 H2]. unfold FRAMESIZE in S, H1, H2 |- *. rewrite (u64_id (y - x)) in S by lia. rewrite (u64_id size) in S by lia. rewrite u64_id in S by (clear -Hxy Hy; lia). done.
Qed.
End Track.

(* ------------------------------------------------------------------ *)
(** ** Lemmas: readers *)

Lemma owner_gap e Q f : entries_ok (e :: Q) -> mi_y e < f -> Forall (fun q => f < mi_x q) Q -> owner (e :: Q) f = None.
Proof.
  intros K L F. cbn [owner]. unfold within. rewrite (proj2 (Z.leb_gt f _)), andb_false_r by done. by apply owner_above.
Qed.

(** The loop follows adjacent entries up to [y]. *)
Lemma memtracked_loop_spec mm y : mm_ok mm -> forall Q P e k,
  used mm = P ++ e :: Q -> (length Q <= k)%nat ->
  exists b, memtracked_loop k mm y (Z.of_nat (length P)) = Some b /\
    (b = true <-> forall f, mi_x e <= f <= y -> owner (e :: Q) f <> None).
Proof.
  intros KK. induction Q as [|q Q IH]; intros P e k E Lk; pose proof (used_length mm (proj1 KK)) as U;
    rewrite E, length_app in U; cbn [length] in U;
    destruct k as [|k]; cbn [memtracked_loop]; rewrite (entry_split mm P e _ E);
    (destruct (Z.leb_spec y (mi_y e)) as [L|L];
      [exists true; split; [done|]; split; [|done]; intros _ f Hf; cbn [owner]; unfold within;
       by rewrite (proj2 (Z.leb_le _ f)), (proj2 (Z.leb_le f _)) by lia|]).
  all: destruct KK as [KK0 KE]; pose proof KE as KE'; rewrite E in KE'; apply entries_ok_app in KE' as (_ & KE' & _);
    pose proof KE' as KE2; apply entries_ok_cons in KE2 as (He & KQ & BQ); ranges.
  1, 2: rewrite (proj2 (Z.eqb_eq _ (mm_i mm))) by lia; exists false; split; [done|]; split; [done|];
    intros H; exfalso; apply (H (mi_y e + 1)); [lia|]; apply owner_gap; [done|lia|done].
  1: cbn in Lk; lia.
  rewrite (proj2 (Z.eqb_neq _ (mm_i mm))) by lia.
  assert (used mm = (P ++ [e]) ++ q :: Q) as E' by (by rewrite E, <- app_assoc).
  pose proof (entry_split mm _ q Q E') as Eq. rewrite length_app in Eq. cbn [length] in Eq.
  replace (Z.of_nat (length P) + 1) with (Z.of_nat (length P + 1)) by lia. rewrite Eq.
  replace (Z.of_nat (length P + 1) - 1) with (Z.of_nat (length P)) by lia. rewrite (entry_split mm P e _ E).
  apply Forall_cons in BQ as [Bq BQ]. destruct (Z.eqb_spec (mi_x q) (mi_y e + 1)) as [Ad|Ad]; cbn [negb].
  - destruct (IH (P ++ [e]) q k E') as (b & R & Sp); [cbn in Lk; lia|]. rewrite length_app in R. cbn [length] in R.
    exists b. split; [exact R|]. rewrite Sp. split; intros H f Hf.
    + cbn [owner]. destruct (within f e) eqn:W; [done|]. apply H. unfold within in W. lia.
    + specialize (H f ltac:(lia)). cbn [owner] in H. unfold within in H at 1.
      rewrite (proj2 (Z.leb_gt f (mi_y e))), andb_false_r in H by lia. exact H.
  - exists false. split; [done|]. split; [done|]. intros H. exfalso. apply (H (mi_y e + 1)); [lia|].
    apply owner_gap; [done|lia|]. constructor; [lia|]. apply entries_ok_cons in KQ as (Hq & _ & BqQ).
    eapply Forall_impl; [exact BqQ|]. intros r Hr. ranges. lia.
Qed.

Lemma IsMemtracked_spec mm x y : mm_ok mm -> x <= y ->
  exists b, IsMemtracked mm x y = Some b /\ (b = true <-> forall f, x <= f <= y -> owner (used mm) f <> None).
Proof.
  intros KK L. destruct (find_split mm x KK) as (pre & post & E & Fx & Fp & Fq). unfold IsMemtracked. rewrite Fx.
  cbn [mbind option_bind]. pose proof (used_length mm (proj1 KK)) as U. rewrite E, length_app in U.
  assert (forall f, x <= f -> owner (used mm) f = owner post f) as Ow.
  { intros f Hf. rewrite E, owner_app, owner_below; [done|]. eapply Forall_impl; [exact Fp|]. cbn. lia. }
  destruct post as [|e Q].
  - cbn [length] in U. rewrite (proj2 (Z.eqb_eq _ (mm_i mm))) by lia. exists false. split; [done|]. split; [done|].
    intros H. exfalso. apply (H x); [lia|]. by rewrite Ow by lia.
  - cbn [length] in U. rewrite (proj2 (Z.eqb_neq _ (mm_i mm))) by lia. rewrite (entry_split mm pre e Q E).
    destruct (Z.ltb_spec x (mi_x e)) as [G|G].
    + exists false. split; [done|]. split; [done|]. intros H. exfalso. apply (H x); [lia|]. rewrite Ow by lia.
      destruct KK as [_ KE]. rewrite E in KE. apply entries_ok_app in KE as (_ & KE & _).
      apply entries_ok_cons in KE as (He & _ & B). apply owner_above. constructor; [done|].
      eapply Forall_impl; [exact B|]. intros r Hr. ranges. lia.
    + apply Forall_cons in Fq as [Fq _].
      destruct (memtracked_loop_spec mm y KK Q pre e (Z.to_nat (mm_i mm)) E ltac:(lia)) as (b & R & Sp).
      exists b. split; [exact R|]. rewrite Sp. split; intros H f Hf.
      * rewrite Ow by lia. apply H. lia.
      * destruct (decide (x <= f)); [rewrite <- Ow by done; apply H; lia|].
        cbn [owner]. unfold within. by rewrite (proj2 (Z.leb_le _ f)), (proj2 (Z.leb_le f _)) by lia.
Qed.

(** The size of the table is 64 KB for each frame. *)
Definition frame_count (l : list MemoryInterval) : Z := foldr (fun e n => mi_y e - mi_x e + 1 + n) 0 l.

Lemma frame_count_bound l : forall lo, entries_ok l -> Forall (fun e => lo <= mi_x e) l -> 0 <= lo <= 2 ^ 31 - 1 ->
  0 <= frame_count l <= 2 ^ 31 - 1 - lo.
Proof.
  induction l as [|e l IH]; intros lo K F B; cbn [frame_count foldr]; [lia|]. fold (frame_count l).
  apply entries_ok_cons in K as (He & Kl & Bl). apply Forall_cons in F as [F _]. ranges.
  specialize (IH (mi_y e + 1) Kl). enough (0 <= frame_count l <= 2 ^ 31 - 1 - (mi_y e + 1)) by lia.
  apply IH; [|lia]. eapply Forall_impl; [exact Bl|]. cbn. lia.
Qed.

Lemma memtrack_size_loop l : forall n, entries_ok l -> 0 <= n -> n + FRAMESIZE * frame_count l < 2 ^ 64 ->
  foldl (fun n e => u64 (n + u64 (Z.shiftl (u64 (mi_y e - mi_x e) + 1) 16))) n l = n + FRAMESIZE * frame_count l.
Proof.
  induction l as [|e l IH]; intros n K Hn B; cbn [foldl frame_count foldr]; [lia|]. fold (frame_count l).
  cbn [frame_count foldr] in B. fold (frame_count l) in B. apply entries_ok_cons in K as (He & Kl & Bl).
  assert (0 <= frame_count l) as C.
  { apply (frame_count_bound l 0 Kl); [|lia]. destruct Kl as [Kl _]. eapply Forall_impl; [exact Kl|]. intros ? ?. ranges. lia. }
  ranges. rewrite (u64_id (mi_y e - mi_x e)), Z.shiftl_mul_pow2 by lia. change (2 ^ 16) with 65536.
  rewrite !u64_id by (try rewrite u64_id by lia; lia). rewrite IH by (done || lia). lia.
Qed.

Lemma memtrack_size_spec mm : mm_ok mm -> __get_memtrack_size mm = FRAMESIZE * frame_count (used mm).
Proof.
  intros [K E]. unfold __get_memtrack_size. fold (used mm). rewrite memtrack_size_loop; [lia|done|lia|].
  pose proof (frame_count_bound (used mm) 0 E) as B. enough (0 <= frame_count (used mm) <= 2 ^ 31 - 1 - 0) by (unfold FRAMESIZE; lia).
  apply B; [|lia]. destruct E as [E _]. eapply Forall_impl; [exact E|]. intros ? ?. ranges. lia.
Qed.

Lemma mm_ok_init : mm_ok mmi_init.
Proof. split; [done|apply entries_ok_nil]. Qed.

Lemma sample_table_ok : mm_ok sample_table.
Proof.
  split; [split; [vm_compute; split; congruence|done]|].
  assert (used sample_table = [Interval 10 15 0 393216 0 2 3 false false; Interval 20 29 0 655360 0 2 3 false false])
    as -> by (vm_compute; reflexivity).
  unfold entries_ok, entry_ok, frames_ok, size_ok, before, FRAMESIZE. split; repeat constructor; cbn; lia.
Qed.

(* ------------------------------------------------------------------ *)
(** ** Properties *)

(** C21: tracking. When the frames [x .. y] are free, [__track_memory] gets past all of its
    assertions, stays inside of the array and returns 0, and afterwards exactly those frames are
    owned in addition, with the handle, protection and flags given, whether it made a new entry or
    extended or merged its neighbours; the table stays ordered and disjoint, with sizes that fit
    its entries. The one exception is a full table for which the kernel answers [MAP_FAILED] when
    asked for the memory it is to go on in: the code, which only tests for null, then writes there
    and stops the program. *)
Theorem track_memory_owner IsAsan sys_mmap mm x y h prot flags ro cow offset size :
  honest sys_mmap -> mm_ok mm -> frames_ok x y -> size_ok x y size -> 0 <= prot < 128 -> free mm x y ->
  match __track_memory IsAsan sys_mmap mm x y h prot flags ro cow offset size with
  | Some (rc, mm') =>
      rc = 0 /\ mm_ok mm' /\
      forall f, owner (used mm') f = if in_frames x y f then Some (h, prot, flags) else owner (used mm) f
  | None => mm_i mm = mm_n mm /\ sys_mmap (growth IsAsan mm) (kMemtrackGran IsAsan) = MAP_FAILED
  end.
Proof. intros Hm KK Hf Hs Hp Fr. by apply track_spec. Qed.

Lemma track_memory_owner_witness :
  match __track_memory false (fun a _ => a) sample_table 16 19 0 3 2 false false 0 (4 * FRAMESIZE) with
  | Some (rc, mm') => rc = 0 /\ owner (used mm') 17 = Some (0, 3, 2)
  | None => False
  end.
Proof.
  assert (honest (fun a _ => a)) as Hm by (intros a n; by left).
  assert (free sample_table 16 19) as Fr.
  { intros f Hf. assert (f = 16 \/ f = 17 \/ f = 18 \/ f = 19) as [-> | [-> | [-> | ->]]] by lia; vm_compute; reflexivity. }
  assert (size_ok 16 19 (4 * FRAMESIZE)) as Hs by (vm_compute; intuition congruence).
  pose proof (track_memory_owner false (fun a _ => a) sample_table 16 19 0 3 2 false false 0 (4 * FRAMESIZE)
    Hm sample_table_ok ltac:(unfold frames_ok; lia) Hs ltac:(lia) Fr) as T.
  destruct (__track_memory _ _ _ _ _ _ _ _ _ _ _ _) as [[rc mm']|].
  - destruct T as (-> & _ & O). split; [done|]. rewrite O. reflexivity.
  - destruct T as [F _]. vm_compute in F. discriminate F.
Defined.

(** C18: untracking. On every well-formed table and for all frames [x .. y], [__untrack_memory]
    gets past all of its assertions and stays inside of the array. When it returns 0, the entries
    are those from before with the frames [x .. y] cut out of them: an entry may lose its left or
    right end, be split in two or go away, with its size adjusted, and nothing else changes; so
    exactly those frames are free in addition. On Windows the entries that went away have been
    handed to the callback. It fails only on Windows, where an entry would have had to be trimmed,
    and then the table is as it was. The one exception is a full table for which the kernel answers
    [MAP_FAILED] when asked for the memory it is to go on in: the code then writes there and stops
    the program. *)
Theorem untrack_memory_owner IsWindows IsAsan sys_mmap mm x y wf :
  honest sys_mmap -> mm_ok mm -> x <= y ->
  match __untrack_memory IsWindows IsAsan sys_mmap mm x y wf with
  | Some (rc, mm', rel) =>
      (rc = 0 /\ mm_ok mm' /\ used mm' = cut x y (used mm) /\
       (forall f, owner (used mm') f = if in_frames x y f then None else owner (used mm) f) /\
       rel = (if IsWindows && wf then filter (covered x y) (used mm) else [])) \/
      (rc = -1 /\ mm' = mm /\ rel = [] /\ IsWindows = true /\ Exists (partial x y) (used mm))
  | None => mm_i mm = mm_n mm /\ sys_mmap (growth IsAsan mm) (kMemtrackGran IsAsan) = MAP_FAILED
  end.
Proof.
  intros Hm KK L. pose proof (untrack_spec IsWindows IsAsan sys_mmap Hm mm x y wf KK L) as H.
  destruct (__untrack_memory _ _ _ _ _ _ _) as [[[rc mm'] rel]|]; [|exact H].
  destruct H as [(-> & K & U & R)|H]; [left|by right].
  destruct (cut_ok x y (used mm) (proj2 KK) L) as (Kc & _ & Oc). split; [done|]. split; [split; [done|by rewrite U]|].
  split; [done|]. split; [by rewrite U|done].
Qed.

Lemma untrack_memory_owner_witness :
  match __untrack_memory false false (fun a _ => a) sample_table 14 21 true with
  | Some (rc, mm', rel) => rc = 0 /\ owner (used mm') 14 = None /\ owner (used mm') 22 = Some (0, 3, 2)
  | None => False
  end.
Proof.
  assert (honest (fun a _ => a)) as Hm by (intros a n; by left).
  pose proof (untrack_memory_owner false false (fun a _ => a) sample_table 14 21 true Hm sample_table_ok ltac:(lia)) as T.
  destruct (__untrack_memory _ _ _ _ _ _ _) as [[[rc mm'] rel]|].
  - destruct T as [(-> & _ & _ & O & _)|(_ & _ & _ & W & _)]; [|discriminate W]. rewrite !O. split; [done|]. split; reflexivity.
  - destruct T as [F _]. vm_compute in F. discriminate F.
Defined.

(** Reading the table. [IsMemtracked] answers whether every one of the frames [x .. y] is
    owned, across entries that touch, and [__get_memtrack_size] counts 64 KB for each owned
    frame without overflow. *)
Theorem IsMemtracked_exact mm x y :
  mm_ok mm -> x <= y ->
  (exists b, IsMemtracked mm x y = Some b /\ (b = true <-> forall f, x <= f <= y -> owner (used mm) f <> None)) /\
  __get_memtrack_size mm = FRAMESIZE * frame_count (used mm).
Proof. intros KK L. split; [by apply IsMemtracked_spec|by apply memtrack_size_spec]. Qed.

Lemma IsMemtracked_exact_witness :
  (exists b, IsMemtracked sample_table 12 20 = Some b /\ b = false) /\ __get_memtrack_size sample_table = FRAMESIZE * 16.
Proof.
  destruct (IsMemtracked_exact sample_table 12 20) as [(b & E & S) G].
  - apply sample_table_ok.
  - lia.
  - split; [|exact G]. exists b. split; [exact E|]. destruct b; [|done]. exfalso.
    apply (proj1 S eq_refl 16); [lia|]. vm_compute. reflexivity.
Defined.

(** [__extend_memory] tests what [sys_mmap] returned against null, where a failure is
    [MAP_FAILED]: the table then continues in memory that was not mapped. *)
Theorem extend_memory_defect :
  __extend_memory false (fun _ _ => MAP_FAILED) mmi_init = None.
Proof. reflexivity. Qed.

(** A mapping appended to a full one loses its size: a file of one byte behind 64 KB of the same
    kind counts as two full frames. *)
Theorem track_memory_size :
  (fun r => map mi_size (used r.2)) <$>
    (r ← __track_memory false (fun a _ => a) mmi_init 10 10 (-1) 1 1 false false 0 65536;
     __track_memory false (fun a _ => a) r.2 11 11 (-1) 1 1 false false 0 1) = Some [131072].
Proof. reflexivity. Qed.
