(* ===== verification/Mmap.v ===== *)
(** Mapping and unmapping memory: libc/runtime/mmap.c, munmap.c and untrackmemoryintervals.c over
    the table of [Memtrack], for builds without the address sanitizer. *)

From S2P Require Import Prelude Memtrack.

(* ------------------------------------------------------------------ *)
(** ** Definitions *)

Definition kAutomapStart : Z := 0x100080040000.
Definition kAutomapSize : Z := kMemtrackStart - kAutomapStart.

(** Addresses are [intptr_t]s. *)
Definition FRAME (x : Z) : Z := s32 (Z.shiftr x 16).
Definition ADDR_32_TO_48 (x : Z) : Z := s64 (Z.shiftl (u64 x) 16).
Definition ALIGNED (p : Z) : bool := Z.land p (FRAMESIZE - 1) =? 0.
Definition IsLegalPointer (p : Z) : bool := (-0x800000000000 <=? p) && (p <=? 0x7fffffffffff).
Definition IsLegalSize (n : Z) : bool := n <=? 0x800000000000 - FRAMESIZE.

Definition __rounddown2pow (x : Z) : Z := if x =? 0 then 0 else Z.shiftl 1 (Z.log2 x).

Definition OverlapsShadowSpace (p n : Z) : bool :=
  if negb (n =? 0) then Z.max p 0x7fff0000 <? Z.min (p + (n - 1)) 0x10007fffffff else false.

Definition __overlaps_existing_mapping (mm : MemoryIntervals) (p n : Z) : option bool :=
  unassert (n >? 0) ;;
  let a := FRAME p in
  let b := FRAME (p + (n - 1)) in
  i ← __find_memory mm a;
  Some (if i <? mm_i mm then
          let e := entry mm i in
          ((a <=? mi_x e) && (mi_x e <=? b)) || ((a <=? mi_y e) && (mi_y e <=? b)) ||
          ((mi_x e <=? a) && (b <=? mi_y e))
        else false).

(** [ckd_add] on [int]s. *)
Definition ckd_add32 (a b : Z) : option Z :=
  if (- 2 ^ 31 <=? a + b) && (a + b <? 2 ^ 31) then Some (a + b) else None.

(** [ckd_add(&start, base, align - 1)], [start &= -align], [ckd_add(&end, start, n - 1)] *)
Definition aligned_span (base n align : Z) : option (Z * Z) :=
  start ← ckd_add32 base (align - 1);
  let start := Z.land start (- align) in
  ending ← ckd_add32 start (n - 1);
  Some (start, ending).

Definition span_after (e : MemoryInterval) (n align : Z) : option (Z * Z) :=
  start ← ckd_add32 (mi_y e) 1;
  aligned_span start n align.

(** [while (++i < _mmi.i)], where [k] bounds the rounds: a place between two entries, or where
    [i] ended. *)
Fixpoint choose_loop (k : nat) (mm : MemoryIntervals) (n align i : Z) : Z + Z :=
  match k with
  | O => inr (i + 1)
  | S k =>
      let i := i + 1 in
      if i <? mm_i mm then
        match span_after (entry mm (i - 1)) n align with
        | Some (start, ending) => if ending <? mi_x (entry mm i) then inl start else choose_loop k mm n align i
        | None => choose_loop k mm n align i
        end
      else inr i
  end.

(** The inner [None] is [return false]. *)
Definition __choose_memory (mm : MemoryIntervals) (x n align : Z) : option (option Z) :=
  unassert (align >? 0) ;;
  if negb (mm_i mm =? 0) then
    i ← __find_memory mm x;
    let found :=
      if i <? mm_i mm then
        match aligned_span x n align with
        | Some (start, ending) =>
            if ending <? mi_x (entry mm i) then inl start
            else choose_loop (Z.to_nat (mm_i mm)) mm n align i
        | None => choose_loop (Z.to_nat (mm_i mm)) mm n align i
        end
      else inr i in
    Some (match found with
          | inl start => Some start
          | inr i => fst <$> span_after (entry mm (i - 1)) n align
          end)
  else Some (fst <$> aligned_span x n align).

Definition __auto_map (mm : MemoryIntervals) (count align : Z) : option (option Z) :=
  res ← __choose_memory mm (FRAME kAutomapStart) count align;
  Some (match res with
        | Some x => if x + count <=? FRAME (kAutomapStart + (kAutomapSize - 1)) then Some x else None
        | None => None
        end).

(** What [sys_mmap] returns: struct DirectMap, and whether [errno] is [ENOTSUP]. *)
Record DirectMap := Direct { dm_addr : Z; dm_maphandle : Z; dm_enotsup : bool }.

(** The system: its kind, the numbers it gives to flags, and its kernel. [sys_mmap] takes the
    address, size, protection, flags, file and offset; [sys_protect] says whether the guard page
    could be protected. *)
Record system := System {
  IsWindows : bool; IsLinux : bool; IsOpenbsd : bool; IsFreebsd : bool;
  MAP_FIXED : Z; MAP_FIXED_NOREPLACE : Z; MAP_ANONYMOUS : Z; MAP_TYPE : Z; MAP_FILE : Z;
  MAP_SHARED : Z; MAP_PRIVATE : Z; MAP_STACK : Z; PROT_NONE : Z; O_ACCMODE : Z; O_RDONLY : Z;
  pagesize : Z; virtualmax : Z; image_start : Z; image_end : Z;
  fd_zip : Z -> bool; fd_flags : Z -> Z;
  sys_mmap : Z -> Z -> Z -> Z -> Z -> Z -> DirectMap;
  sys_munmap : Z -> Z -> Z; sys_protect : Z -> Z -> bool }.

Inductive errno_mmap := EINVAL | ENOMEM_ | EEXIST | KERNEL.
Inductive mapped := Mapped (addr : Z) | Failed (e : errno_mmap).

Section System.
Context (os : system).

(** The mappings of [__extend_memory]: [PROT_READ | PROT_WRITE], and anonymous, private and fixed. *)
Definition table_mmap (a n : Z) : Z :=
  dm_addr (sys_mmap os a n 3 (Z.lor (Z.lor (MAP_ANONYMOUS os) (MAP_PRIVATE os)) (MAP_FIXED os)) (-1) 0).

Definition track mm x y h prot flags ro cow off size :=
  __track_memory false table_mmap mm x y h prot flags ro cow off size.

Definition __untrack_memories (mm : MemoryIntervals) (addr size : Z) : option (Z * MemoryIntervals) :=
  unassert (size >? 0) ;;
  let a := s32 (Z.shiftr (ROUNDDOWN addr FRAMESIZE) 16) in
  let b := s32 (Z.shiftr (ROUNDDOWN (addr + size - 1) FRAMESIZE) 16) in
  '(rc, mm, _) ← __untrack_memory (IsWindows os) false table_mmap mm a b true;
  Some (rc, mm).

Definition OverlapsImageSpace (p n : Z) : bool :=
  if negb (n =? 0) then Z.max p (image_start os) <? Z.min (p + (n - 1)) (image_end os - 1) else false.

(** [None] of the functions below is [__mmap_die], a failed assertion, or a program outside of
    its array. *)
Definition __finish_memory (mm : MemoryIntervals) (addr size prot flags off x n : Z) (dm : DirectMap) :
    option (mapped * MemoryIntervals) :=
  '(rc, mm) ← (if negb (IsWindows os) && negb (Z.land flags (MAP_FIXED os) =? 0)
               then __untrack_memories mm addr size else Some (0, mm));
  unassert (rc =? 0) ;;
  '(rc, mm) ← track mm x (x + (n - 1)) (dm_maphandle dm) prot flags false false off size;
  if negb (rc =? 0) then
    unassert (negb (sys_munmap os addr n =? -1)) ;;
    Some (Failed ENOMEM_, mm)
  else Some (Mapped addr, mm).

Definition __map_memory (mm : MemoryIntervals) (addr size prot flags fd off f x n : Z) :
    option (mapped * MemoryIntervals) :=
  let dm := sys_mmap os addr size prot f fd off in
  if dm_addr dm =? MAP_FAILED then
    unassert (negb (IsWindows os && negb (Z.land flags (MAP_FIXED os) =? 0))) ;;
    Some (Failed KERNEL, mm)
  else
    unassert (dm_addr dm =? addr) ;;
    __finish_memory mm addr size prot flags off x n dm.

(** [for (i = 0; i < m; i += FRAMESIZE)] with [k] rounds to go. *)
Fixpoint map_memories_loop (k : nat) (mm : MemoryIntervals) (addr prot flags fd off f x i : Z) (ro cow : bool) :
    option MemoryIntervals :=
  match k with
  | O => Some mm
  | S k =>
      let oi := if fd =? -1 then 0 else off + i in
      let dm := sys_mmap os (addr + i) FRAMESIZE prot f fd oi in
      unassert (negb (dm_addr dm =? MAP_FAILED)) ;;
      '(rc, mm) ← track mm (x + i / FRAMESIZE) (x + i / FRAMESIZE) (dm_maphandle dm) prot flags ro cow oi FRAMESIZE;
      unassert (negb (rc =? -1)) ;;
      map_memories_loop k mm addr prot flags fd off f x (i + FRAMESIZE) ro cow
  end.

Definition __map_memories (mm : MemoryIntervals) (addr size prot flags fd off f x n : Z) :
    option (mapped * MemoryIntervals) :=
  let m := Z.shiftl (n - 1) 16 in
  unassert (m <? size) ;;
  unassert (m + FRAMESIZE >=? size) ;;
  let oi := if fd =? -1 then 0 else off + m in
  let sz := size - m in
  let dm := sys_mmap os (addr + m) sz prot f fd oi in
  if dm_addr dm =? MAP_FAILED then Some (Failed KERNEL, mm)
  else
    let shared := Z.land flags (MAP_TYPE os) =? MAP_SHARED os in
    let iscow := negb shared && negb (fd =? -1) in
    let readonlyfile := shared && negb (fd =? -1) && (Z.land (fd_flags os fd) (O_ACCMODE os) =? O_RDONLY os) in
    '(rc, mm) ← track mm (x + (n - 1)) (x + (n - 1)) (dm_maphandle dm) prot flags readonlyfile iscow oi sz;
    unassert (negb (rc =? -1)) ;;
    mm ← map_memories_loop (Z.to_nat (m / FRAMESIZE)) mm addr prot flags fd off f x 0 readonlyfile iscow;
    Some (Mapped addr, mm).

(** The checks in front: the flags, file, offset and size to go on with, or an error. *)
Definition mmap_arguments (p size flags fd off : Z) : errno_mmap + (Z * Z * Z * Z) :=
  if size =? 0 then inl EINVAL
  else if negb (ALIGNED p) then inl EINVAL
  else if negb (IsLegalSize size) then inl EINVAL
  else if negb (IsLegalPointer p) then inl EINVAL
  else
    let both := Z.lor (MAP_SHARED os) (MAP_PRIVATE os) in
    let flags := if Z.land flags both =? both then MAP_SHARED os else flags in
    if negb (Z.land flags (MAP_ANONYMOUS os) =? 0) then
      if Z.land flags (MAP_TYPE os) =? MAP_FILE os then inl EINVAL
      else inr (flags, -1, 0, ROUNDUP size FRAMESIZE)
    else if fd_zip os fd then inl EINVAL
    else if off <? 0 then inl EINVAL
    else if negb (Z.land off ((if IsWindows os then FRAMESIZE else pagesize os) - 1) =? 0) then inl EINVAL
    else if 2 ^ 63 - 1 - size <? off then inl EINVAL
    else inr (flags, fd, off, size).

(** [__virtualmax < LONG_MAX && (ckd_add(&virtualneed, ...) || virtualneed > __virtualmax)] *)
Definition over_limit (mm : MemoryIntervals) (size : Z) : bool :=
  let need := __get_memtrack_size mm + size in
  (virtualmax os <? 2 ^ 63 - 1) && ((2 ^ 64 <=? need) || (need >? virtualmax os)).

(** The first frame of the mapping, or an error. *)
Definition mmap_frame (mm : MemoryIntervals) (p size n flags : Z) (clashes : bool) :
    option ((errno_mmap + Z) * MemoryIntervals) :=
  let a := Z.max 1 (Z.shiftr (__rounddown2pow size) 16) in
  if negb (Z.land flags (MAP_FIXED os) =? 0) then
    '(rc, mm) ← (if IsWindows os then __untrack_memories mm p size else Some (0, mm));
    unassert (rc =? 0) ;;
    Some (inr (FRAME p), mm)
  else if negb (p =? 0) && negb clashes && negb (OverlapsShadowSpace p size) then Some (inr (FRAME p), mm)
  else
    res ← __auto_map mm n a;
    Some (match res with Some x => inr x | None => inl ENOMEM_ end, mm).

Definition MAP_GROWSDOWN_linux : Z := 0x100.
Definition MAP_STACK_freebsd : Z := 0x400.
Definition MAP_STACK_openbsd : Z := 0x4000.

(** What is left to do for a stack: the flags for the kernel and whether a guard page is needed,
    or that the function returns. *)
Definition mmap_stack (mm : MemoryIntervals) (p size prot flags fd off f x n : Z) :
    option ((Z * bool) + (mapped * MemoryIntervals)) :=
  if Z.land f (MAP_TYPE os) =? MAP_STACK os then
    if negb (Z.land (Z.lnot f) (MAP_ANONYMOUS os) =? 0) then Some (inr (Failed EINVAL, mm))
    else
      let f := Z.lor (Z.land f (Z.lnot (MAP_TYPE os))) (MAP_PRIVATE os) in
      if IsOpenbsd os then
        if dm_addr (sys_mmap os p size prot f fd off) =? MAP_FAILED then Some (inr (Failed KERNEL, mm))
        else Some (inl (Z.lor f MAP_STACK_openbsd, true))
      else if IsLinux os then
        unassert (sys_munmap os p size =? 0) ;;
        let guardsize := pagesize os in
        let dm := sys_mmap os (p + size - guardsize) guardsize prot (Z.lor f MAP_GROWSDOWN_linux) fd off in
        if negb (dm_addr dm =? MAP_FAILED) then
          unassert (dm_addr (sys_mmap os p (pagesize os) (PROT_NONE os)
                      (Z.lor (MAP_FIXED os) (Z.lor (MAP_PRIVATE os) (MAP_ANONYMOUS os))) (-1) 0) =? p) ;;
          r ← __finish_memory mm p size prot flags off x n (Direct p (dm_maphandle dm) false);
          Some (inr r)
        else Some (inl (f, dm_enotsup dm))
      else Some (inl (if IsFreebsd os then Z.lor f MAP_STACK_freebsd else f, true))
  else Some (inl (f, false)).

Definition __mmap_unlocked (mm : MemoryIntervals) (addr size prot flags fd off : Z) :
    option (mapped * MemoryIntervals) :=
  match mmap_arguments addr size flags fd off with
  | inl e => Some (Failed e, mm)
  | inr (flags, fd, off, size) =>
      if over_limit mm size then Some (Failed ENOMEM_, mm)
      else
        overlaps ← __overlaps_existing_mapping mm addr size;
        let clashes := OverlapsImageSpace addr size || overlaps in
        if (Z.land flags (MAP_FIXED_NOREPLACE os) =? MAP_FIXED_NOREPLACE os) && clashes then Some (Failed EEXIST, mm)
        else
          match ckd_add32 (s32 (Z.shiftr size 16)) (Z.b2z (negb (Z.land size (FRAMESIZE - 1) =? 0))) with
          | None => Some (Failed EINVAL, mm)
          | Some n =>
              let f := Z.lor (Z.land flags (Z.lnot (MAP_FIXED_NOREPLACE os))) (MAP_FIXED os) in
              '(frame, mm) ← mmap_frame mm addr size n flags clashes;
              match frame with
              | inl e => Some (Failed e, mm)
              | inr x =>
                  let p := ADDR_32_TO_48 x in
                  stack ← mmap_stack mm p size prot flags fd off f x n;
                  match stack with
                  | inr r => Some r
                  | inl (f, needguard) =>
                      '(r, mm) ← (if negb (IsWindows os) then __map_memory mm p size prot flags fd off f x n
                                  else __map_memories mm p size prot flags fd off f x n);
                      match r with
                      | Mapped q =>
                          unassert (negb needguard || sys_protect os q (pagesize os)) ;;
                          Some (Mapped q, mm)
                      | Failed e => Some (Failed e, mm)
                      end
                  end
              end
          end
  end.

(** The ranges given to [sys_munmap], from entry [i] on. *)
Fixpoint munmap_loop (k : nat) (mm : MemoryIntervals) (l r i : Z) : option (list (Z * Z)) :=
  let e := entry mm i in
  if (i <? mm_i mm) && (r >=? mi_x e) then
    match k with
    | O => None
    | S k =>
        '(beg, ending) ←
          (if (l >=? mi_x e) && (r <=? mi_y e) then Some (l, r)
           else if (l <=? mi_x e) && (r >=? mi_x e) then Some (mi_x e, Z.min r (mi_y e))
           else if (l <=? mi_y e) && (r >=? mi_y e) then Some (Z.max (mi_x e) l, mi_y e)
           else None);
        let a := ADDR_32_TO_48 beg in
        let b := ADDR_32_TO_48 ending + FRAMESIZE in
        let c := ADDR_32_TO_48 (mi_x e) + mi_size e in
        let m := Z.min b c - a in
        unassert (IsWindows os || (sys_munmap os a m =? 0)) ;;
        rest ← munmap_loop k mm l r (i + 1);
        Some ((a, m) :: rest)
    end
  else Some [].

Definition __munmap_impl (mm : MemoryIntervals) (p n : Z) : option (list (Z * Z)) :=
  let l := FRAME p in
  let r := FRAME (p + n - 1) in
  i ← __find_memory mm l;
  munmap_loop (Z.to_nat (mm_i mm)) mm l r i.

(** 0 or -1, the table, and the ranges that were unmapped. *)
Definition __munmap_unlocked (mm : MemoryIntervals) (p n : Z) : option (Z * MemoryIntervals * list (Z * Z)) :=
  if n =? 0 then Some (-1, mm, [])
  else if negb (IsLegalSize n) then Some (-1, mm, [])
  else if negb (IsLegalPointer p) then Some (-1, mm, [])
  else if negb (IsLegalPointer (p + (n - 1))) then Some (-1, mm, [])
  else if negb (ALIGNED p) then Some (-1, mm, [])
  else
    calls ← __munmap_impl mm p n;
    '(rc, mm) ← __untrack_memories mm p n;
    Some (rc, mm, calls).
End System.

(** A Linux whose kernel grants everything. *)
Definition sample_system : system :=
  System false true false false 0x10 0x100000 0x20 0xf 0 1 2 6 0 3 0 4096 (2 ^ 63 - 1) 0x400000 0x600000
    (fun _ => false) (fun _ => 0) (fun a _ _ _ _ _ => Direct a (-1) false) (fun _ _ => 0) (fun _ _ => true).

Definition mmap_example (l : list (Z * Z)) : option (list mapped * list (Z * Z * Z)) :=
  '(rs, mm) ← foldl (fun st '(addr, size) =>
      '(rs, mm) ← st; '(r, mm) ← __mmap_unlocked sample_system mm addr size 3 0x22 (-1) 0; Some (rs ++ [r], mm))
    (Some ([], mmi_init)) l;
  Some (rs, runs mm).

Example mmap_1 : mmap_example [(0, 100); (0, 0x30000); (0x100080040000, 1); (7, 7)] =
  Some ([Mapped 0x100080040000; Mapped 0x100080060000; Mapped 0x100080050000; Failed EINVAL], [(0x10008004, 0x10008008, 5)]).
Proof. vm_compute. reflexivity. Qed.

(* ------------------------------------------------------------------ *)
(** ** Lemmas: addresses and frames *)

Lemma FRAME_addr a : 0 <= a < 2 ^ 47 -> FRAME a = a / 65536.
Proof.
  intros H. unfold FRAME. rewrite Z.shiftr_div_pow2 by lia. change (2 ^ 16) with 65536. apply s32_id.
  pose proof (Z.div_pos a 65536). assert (a / 65536 < 2 ^ 31) by (apply Z.div_lt_upper_bound; lia). lia.
Qed.

Lemma ADDR_frame x : 0 <= x < 2 ^ 31 -> ADDR_32_TO_48 x = x * 65536.
Proof.
  intros H. unfold ADDR_32_TO_48. rewrite u64_id by lia. rewrite Z.shiftl_mul_pow2 by lia. change (2 ^ 16) with 65536.
  apply s64_id. lia.
Qed.

Lemma ROUNDDOWN_frame a : Z.shiftr (ROUNDDOWN a FRAMESIZE) 16 = a / 65536.
Proof.
  unfold ROUNDDOWN, FRAMESIZE. change (Z.opp 65536) with (Z.opp (2 ^ 16)). rewrite land_minus_pow2, Z.shiftr_div_pow2 by lia.
  change (2 ^ 16) with 65536. pose proof (Z.div_mod a 65536 ltac:(lia)) as D.
  replace (a - a mod 65536) with (a / 65536 * 65536) by lia. apply Z.div_mul. lia.
Qed.

Lemma ROUNDUP_frame a : ROUNDUP a FRAMESIZE = (a + 65535) / 65536 * 65536.
Proof.
  unfold ROUNDUP, FRAMESIZE. change (Z.opp 65536) with (Z.opp (2 ^ 16)). rewrite land_minus_pow2 by lia. change (2 ^ 16) with 65536.
  pose proof (Z.div_mod (a + 65536 - 1) 65536 ltac:(lia)). replace (a + 65535) with (a + 65536 - 1) by lia. lia.
Qed.

Lemma ALIGNED_frame p : ALIGNED p = true <-> p mod 65536 = 0.
Proof.
  unfold ALIGNED, FRAMESIZE. change (65536 - 1) with (Z.ones 16). rewrite Z.land_ones by lia. apply Z.eqb_eq.
Qed.

(** The first entry that does not end below decides. *)
Lemma overlaps_spec mm p n :
  mm_ok mm -> 0 <= p -> 0 < n -> p + n <= 2 ^ 47 ->
  exists b, __overlaps_existing_mapping mm p n = Some b /\
    (b = false <-> free mm (p / 65536) ((p + n - 1) / 65536)).
Proof.
  intros KK Hp Hn B. unfold __overlaps_existing_mapping, unassert. rewrite Z.gtb_ltb, (proj2 (Z.ltb_lt _ _)) by lia.
  cbn [mbind option_bind]. rewrite !FRAME_addr by lia. replace (p + (n - 1)) with (p + n - 1) by lia.
  assert (p / 65536 <= (p + n - 1) / 65536) as L by (apply Z.div_le_mono; lia).
  set (a := p / 65536) in *. set (b := (p + n - 1) / 65536) in *.
  destruct (find_split mm a KK) as (pre & post & E & -> & Fp & Fq). cbn [mbind option_bind]. eexists. split; [done|].
  pose proof (used_length mm (proj1 KK)) as U. rewrite E, length_app in U.
  assert (forall f, a <= f -> owner (used mm) f = owner post f) as Ow.
  { intros f Hf. rewrite E, owner_app, owner_below; [done|]. eapply Forall_impl; [exact Fp|]. cbn. lia. }
  destruct post as [|e Q]; cbn [length] in U.
  - rewrite (proj2 (Z.ltb_ge _ (mm_i mm))) by lia. split; [|done]. intros _ f Hf. by rewrite Ow by lia.
  - rewrite (proj2 (Z.ltb_lt _ (mm_i mm))) by lia. rewrite (entry_split mm pre e Q E).
    destruct KK as [_ KE]. rewrite E in KE. apply entries_ok_app in KE as (_ & KE & _).
    apply entries_ok_cons in KE as (He & _ & BQ). apply Forall_cons in Fq as [Fe _]. ranges. split.
    + intros H f Hf. rewrite Ow by lia. apply owner_above. constructor; [lia|]. eapply Forall_impl; [exact BQ|]. cbn. lia.
    + intros H. destruct (Z.max_spec a (mi_x e)) as [[? M]|[? M]]; pose proof (owner_None (used mm) (Z.max a (mi_x e)) e) as O;
        rewrite M in O; (destruct (decide (mi_x e <= b)); [|lia]); destruct O as [O|O]; try lia;
        first [apply H; lia|rewrite E; apply elem_of_app; right; apply list_elem_of_here].
Qed.

(* ------------------------------------------------------------------ *)
(** ** Lemmas: choosing memory *)

(** Frames between two neighbours are free. *)
Lemma free_gap mm x y pre post : used mm = pre ++ post ->
  Forall (fun e => mi_y e < x) pre -> Forall (fun e => y < mi_x e) post -> free mm x y.
Proof.
  intros E Fp Fq f Hf. rewrite E, owner_app, owner_below, owner_above; [done| |].
  - eapply Forall_impl; [exact Fq|]. cbn. lia.
  - eapply Forall_impl; [exact Fp|]. cbn. lia.
Qed.

Lemma before_all P a : entries_ok (P ++ [a]) -> forall s, mi_y a < s -> Forall (fun e => mi_y e < s) (P ++ [a]).
Proof.
  intros K s L. apply entries_ok_app in K as (_ & Ka & B). apply entries_ok_single in Ka. apply Forall_app.
  split; [|by apply Forall_singleton]. apply Forall_forall. intros e He. specialize (B e a He (list_elem_of_here _ _)). ranges. lia.
Qed.

Lemma after_all b Q : entries_ok (b :: Q) -> forall y, y < mi_x b -> Forall (fun e => y < mi_x e) (b :: Q).
Proof.
  intros K y L. apply entries_ok_cons in K as (Hb & _ & B). constructor; [done|].
  eapply Forall_impl; [exact B|]. intros e He. ranges. lia.
Qed.

Section Choose.
Context (mm : MemoryIntervals) (n k : Z) (KK : mm_ok mm) (Hk : 0 <= k).

(** A place for [n] frames. *)
Definition place (s : Z) : Prop := 0 <= s /\ s + n - 1 < 2 ^ 31 /\ s mod 2 ^ k = 0 /\ free mm s (s + n - 1).

Lemma aligned_span_spec base s e : 0 <= base -> aligned_span base n (2 ^ k) = Some (s, e) ->
  base <= s /\ e = s + n - 1 /\ e < 2 ^ 31 /\ s mod 2 ^ k = 0.
Proof.
  intros Hb. unfold aligned_span, ckd_add32. destruct (_ && _); cbn [mbind option_bind]; [|done].
  destruct ((- 2 ^ 31 <=? _) && _) eqn:C; cbn [mbind option_bind]; [|done]. intros [= <- <-].
  rewrite land_minus_pow2 in * by done. assert (0 < 2 ^ k) as P by (apply Z.pow_pos_nonneg; lia).
  set (w := base + (2 ^ k - 1)) in *. pose proof (Z.mod_pos_bound w (2 ^ k) P) as M. pose proof (Z.div_mod w (2 ^ k) ltac:(lia)) as D.
  split; [lia|]. split; [lia|]. split; [lia|]. replace (w - w mod 2 ^ k) with (w / 2 ^ k * 2 ^ k) by lia. apply Z.mod_mul. lia.
Qed.

Lemma span_after_spec a s e : entry_ok a -> span_after a n (2 ^ k) = Some (s, e) ->
  mi_y a < s /\ e = s + n - 1 /\ e < 2 ^ 31 /\ s mod 2 ^ k = 0.
Proof.
  intros Ha. unfold span_after, ckd_add32. destruct (_ && _); cbn [mbind option_bind]; [|done].
  intros H. apply aligned_span_spec in H; [lia|ranges; lia].
Qed.

Lemma choose_loop_spec Q : forall P e fuel, used mm = P ++ e :: Q -> (length Q < fuel)%nat ->
  match choose_loop fuel mm n (2 ^ k) (Z.of_nat (length P)) with
  | inl s => place s
  | inr i => i = mm_i mm
  end.
Proof.
  induction Q as [|q Q IH]; intros P e [|fuel] E L; [lia| |lia|]; pose proof (used_length mm (proj1 KK)) as U;
    rewrite E, length_app in U; cbn [length] in *; cbn [choose_loop].
  - rewrite (proj2 (Z.ltb_ge _ (mm_i mm))) by lia. lia.
  - rewrite (proj2 (Z.ltb_lt _ (mm_i mm))) by lia.
    assert (used mm = (P ++ [e]) ++ q :: Q) as E' by (by rewrite E, <- app_assoc).
    pose proof (entry_split mm _ q Q E') as Eq. rewrite length_app in Eq. cbn [length] in Eq.
    replace (Z.of_nat (length P) + 1 - 1) with (Z.of_nat (length P)) by lia. rewrite (entry_split mm P e _ E).
    replace (Z.of_nat (length P) + 1) with (Z.of_nat (length P + 1)) by lia. rewrite Eq.
    pose proof (IH (P ++ [e]) q fuel E' ltac:(lia)) as R. rewrite length_app in R. cbn [length] in R.
    pose proof (proj2 KK) as KE. rewrite E' in KE. apply entries_ok_app in KE as (KP & KQ & _).
    assert (entry_ok e) as He by (apply entries_ok_app in KP as (_ & KP & _); by apply entries_ok_single in KP).
    destruct (span_after e n (2 ^ k)) as [[s en]|] eqn:Sp; [|exact R].
    destruct (span_after_spec e s en He Sp) as (? & -> & ? & ?). destruct (Z.ltb_spec (s + n - 1) (mi_x q)); [|exact R].
    split; [ranges; lia|]. split; [lia|]. split; [done|]. apply (free_gap mm _ _ _ _ E').
    + by apply before_all.
    + by apply after_all.
Qed.

Lemma last_span_spec a P s e : used mm = P ++ [a] -> span_after a n (2 ^ k) = Some (s, e) -> place s.
Proof.
  intros E Sp. pose proof (proj2 KK) as KE. rewrite E in KE. pose proof KE as KP.
  apply entries_ok_app in KE as (_ & Ka & _). apply entries_ok_single in Ka.
  destruct (span_after_spec a s e Ka Sp) as (? & -> & ? & ?). split; [ranges; lia|]. split; [lia|]. split; [done|].
  apply (free_gap mm _ _ (P ++ [a]) []); [by rewrite app_nil_r|by apply before_all|done].
Qed.

Lemma choose_spec x : 0 <= x -> exists r, __choose_memory mm x n (2 ^ k) = Some r /\ forall s, r = Some s -> place s.
Proof.
  intros Hx. unfold __choose_memory, unassert. assert (0 < 2 ^ k) as Pk by (apply Z.pow_pos_nonneg; lia).
  rewrite Z.gtb_ltb, (proj2 (Z.ltb_lt _ _)) by done. cbn [mbind option_bind].
  pose proof (used_length mm (proj1 KK)) as U.
  destruct (Z.eqb_spec (mm_i mm) 0) as [Z0|Z0]; cbn [negb].
  - eexists. split; [done|]. intros s H. destruct (aligned_span x n (2 ^ k)) as [[s0 e]|] eqn:Sp; [|done].
    cbn in H. injection H as <-. destruct (aligned_span_spec x s0 e Hx Sp) as (? & -> & ? & ?).
    split; [lia|]. split; [lia|]. split; [done|]. intros f _. by destruct (used mm); [|cbn in U; lia].
  - destruct (find_split mm x KK) as (pre & post & E & -> & Fp & Fq). cbn [mbind option_bind].
    rewrite E, length_app in U. pose proof (proj2 KK) as KE. rewrite E in KE.
    assert (forall a P, used mm = P ++ [a] -> entry mm (mm_i mm - 1) = a) as Last.
    { intros a P El. rewrite <- (used_length mm (proj1 KK)), El, length_app. cbn [length].
      replace (_ - 1) with (Z.of_nat (length P)) by lia. by apply (entry_split mm P a []). }
    assert (exists P a, used mm = P ++ [a]) as (P & a & El).
    { destruct (used mm) as [|a P _] using rev_ind; [|eauto]. symmetry in E. apply app_eq_nil in E as [-> ->]. cbn in U. lia. }
    assert (forall i, i = mm_i mm -> forall s, fst <$> span_after (entry mm (i - 1)) n (2 ^ k) = Some s -> place s) as Tail.
    { intros i -> s H. rewrite (Last a P El) in H. destruct (span_after a n (2 ^ k)) as [[s0 e]|] eqn:Sp; [|done].
      cbn in H. injection H as <-. by apply (last_span_spec a P s0 e). }
    eexists. split; [done|]. intros s. destruct post as [|e Q]; cbn [length] in U.
    + rewrite (proj2 (Z.ltb_ge _ (mm_i mm))) by lia. apply Tail. lia.
    + rewrite (proj2 (Z.ltb_lt _ (mm_i mm))) by lia. rewrite (entry_split mm pre e Q E).
      pose proof (choose_loop_spec Q pre e (Z.to_nat (mm_i mm)) E ltac:(lia)) as R.
      assert (match choose_loop (Z.to_nat (mm_i mm)) mm n (2 ^ k) (Z.of_nat (length pre)) with
              | inl start => Some start | inr i => fst <$> span_after (entry mm (i - 1)) n (2 ^ k) end = Some s -> place s) as R'.
      { destruct (choose_loop _ _ _ _ _) as [s0|i]; [by intros [= <-]|by apply Tail]. }
      destruct (aligned_span x n (2 ^ k)) as [[s0 e0]|] eqn:Sp; [|exact R'].
      destruct (aligned_span_spec x s0 e0 Hx Sp) as (? & -> & ? & ?). destruct (Z.ltb_spec (s0 + n - 1) (mi_x e)); [|exact R'].
      intros [= <-]. split; [lia|]. split; [lia|]. split; [done|]. apply (free_gap mm _ _ _ _ E).
      * eapply Forall_impl; [exact Fp|]. cbn. lia.
      * apply after_all; [|done]. by apply entries_ok_app in KE as (_ & KE & _).
Qed.
End Choose.

(* ------------------------------------------------------------------ *)
(** ** Lemmas: mapping *)

(** A System V system whose kernel maps fixed memory where it is told to or answers [MAP_FAILED],
    with a [MAP_FIXED] that is no part of [MAP_TYPE]. *)
Record kernel_ok (os : system) : Prop := KernelOk {
  k_sysv : IsWindows os = false;
  k_flags : Z.land (MAP_FIXED os) (MAP_TYPE os) = 0;
  k_mmap : forall a n p f fd off, Z.land f (MAP_FIXED os) = MAP_FIXED os ->
    dm_addr (sys_mmap os a n p f fd off) = a \/ dm_addr (sys_mmap os a n p f fd off) = MAP_FAILED }.

(** Flags with all bits of [m]. *)
Definition has (m f : Z) : Prop := Z.land f m = m.

Lemma has_bits m f : has m f <-> forall i, Z.testbit m i = true -> Z.testbit f i = true.
Proof.
  unfold has. split.
  - intros H i Hi. rewrite <- H, Z.land_spec in Hi. by apply andb_true_iff in Hi as [? _].
  - intros H. apply Z.bits_inj'. intros i _. rewrite Z.land_spec. specialize (H i).
    destruct (Z.testbit m i), (Z.testbit f i); naive_solver.
Qed.

Lemma has_lor_l m f g : has m f -> has m (Z.lor f g).
Proof. rewrite !has_bits. intros H i Hi. rewrite Z.lor_spec, H by done. done. Qed.
Lemma has_lor_r m f g : has m g -> has m (Z.lor f g).
Proof. rewrite Z.lor_comm. apply has_lor_l. Qed.
Lemma has_refl m : has m m.
Proof. apply Z.land_diag. Qed.
Lemma has_without m f t : Z.land m t = 0 -> has m f -> has m (Z.land f (Z.lnot t)).
Proof.
  rewrite !has_bits. intros D H i Hi. rewrite Z.land_spec, H by done.
  destruct (decide (i < 0)) as [N|N]; [by rewrite Z.testbit_neg_r in Hi|]. rewrite Z.lnot_spec by lia.
  assert (Z.testbit (Z.land m t) i = false) as E by (by rewrite D, Z.bits_0). rewrite Z.land_spec, Hi in E. cbn in *. by rewrite E.
Qed.
#[local] Hint Resolve has_lor_l has_lor_r has_refl has_without : flags.

Section Sysv.
Context (os : system) (Hk : kernel_ok os).

Lemma table_honest : honest (table_mmap os).
Proof. intros a n. apply (k_mmap os Hk). change (has (MAP_FIXED os) (Z.lor (Z.lor (MAP_ANONYMOUS os) (MAP_PRIVATE os)) (MAP_FIXED os))). auto with flags. Qed.

(** The kernel does not give the table more memory. *)
Definition table_refused : Prop := exists a, table_mmap os a FRAMESIZE = MAP_FAILED.

Lemma refused_table mm : refused false (table_mmap os) mm -> mm_i mm = mm_n mm /\ table_refused.
Proof. intros [F R]. split; [done|]. by exists (growth false mm). Qed.

Lemma untrack_memories_spec mm addr size :
  mm_ok mm -> 0 <= addr -> 0 < size -> addr + size <= 2 ^ 47 ->
  let x := addr / 65536 in let y := (addr + size - 1) / 65536 in
  match __untrack_memories os mm addr size with
  | Some (rc, mm') => rc = 0 /\ mm_ok mm' /\ used mm' = cut x y (used mm)
  | None => mm_i mm = mm_n mm /\ table_refused
  end.
Proof.
  intros KK Ha Hs B x y. unfold __untrack_memories, unassert. rewrite Z.gtb_ltb, (proj2 (Z.ltb_lt _ _)) by lia.
  cbn [mbind option_bind]. rewrite !ROUNDDOWN_frame. fold x y.
  assert (0 <= x <= y /\ y < 2 ^ 31) as R.
  { subst x y. split; [split; [apply Z.div_pos; lia|apply Z.div_le_mono; lia]|apply Z.div_lt_upper_bound; lia]. }
  rewrite !s32_id by lia.
  pose proof (untrack_spec (IsWindows os) false (table_mmap os) table_honest mm x y true KK ltac:(lia)) as H.
  destruct (__untrack_memory _ _ _ _ _ _ _) as [[[rc mm'] rel]|]; cbn [mbind option_bind]; [|by apply refused_table].
  destruct H as [(-> & K & U & _)|(_ & _ & _ & W & _)]; [|by rewrite (k_sysv os Hk) in W].
  split; [done|]. split; [|done]. split; [done|]. rewrite U. by apply cut_ok; [apply KK|lia].
Qed.

(** The kernel refuses to make room for a stack, to map its guard page or to protect it. *)
Definition stack_refused : Prop :=
  (exists p n, sys_munmap os p n <> 0) \/
  (exists p f, dm_addr (sys_mmap os p (pagesize os) (PROT_NONE os) f (-1) 0) = MAP_FAILED) \/
  (exists p, sys_protect os p (pagesize os) = false).

(** What a mapping of the frames [x .. y] does to a table. *)
Definition outcome (mm : MemoryIntervals) (fixed stack : bool) (x y prot flags : Z)
    (o : option (mapped * MemoryIntervals)) : Prop :=
  match o with
  | Some (Mapped q, mm') => mm_ok mm' /\ q = x * 65536 /\
      exists h, forall f, owner (used mm') f = if in_frames x y f then Some (h, prot, flags) else owner (used mm) f
  | Some (Failed _, mm') => mm' = mm
  | None => (table_refused /\ (fixed = false -> mm_i mm = mm_n mm)) \/ (stack = true /\ stack_refused)
  end.

Lemma finish_spec mm stack size prot flags off x n dm :
  mm_ok mm -> frames_ok x (x + (n - 1)) -> size_ok x (x + (n - 1)) size -> 0 <= prot < 128 ->
  let fixed := negb (Z.land flags (MAP_FIXED os) =? 0) in
  (fixed = false -> free mm x (x + (n - 1))) ->
  outcome mm fixed stack x (x + (n - 1)) prot flags (__finish_memory os mm (x * 65536) size prot flags off x n dm).
Proof.
  intros KK Hf Hs Hp fixed Fx. unfold __finish_memory. rewrite (k_sysv os Hk). cbn [negb andb]. fold fixed.
  set (y := x + (n - 1)) in *.
  assert (match (if fixed then __untrack_memories os mm (x * 65536) size else Some (0, mm)) with
    | Some (rc, mm1) => rc = 0 /\ mm_ok mm1 /\ free mm1 x y /\ (fixed = false -> mm1 = mm) /\
        forall f, in_frames x y f = false -> owner (used mm1) f = owner (used mm) f
    | None => fixed = true /\ table_refused end) as U.
  { clearbody fixed. destruct fixed; [|split; [done|]; split; [done|]; split; [by apply Fx|]; done]. pose proof (untrack_memories_spec mm (x * 65536) size KK) as U.
    assert (x * 65536 / 65536 = x /\ (x * 65536 + size - 1) / 65536 = y) as [Dx Dy].
    { split; [apply Z.div_mul; lia|]. destruct Hs as [S1 S2]. unfold FRAMESIZE in S1, S2.
      symmetry. apply (Z.div_unique _ _ _ (size - 1 - (y - x) * 65536)); [left|]; lia. }
    rewrite Dx, Dy in U. specialize (U ltac:(ranges; lia) ltac:(ranges; lia) ltac:(ranges; lia)).
    destruct (__untrack_memories _ _ _ _) as [[rc mm1]|]; [|by destruct U]. destruct U as (-> & K1 & U).
    destruct (cut_ok x y (used mm) (proj2 KK) ltac:(ranges; lia)) as (_ & _ & O).
    split; [done|]. split; [done|]. split; [|split; [done|]].
    - intros f Hf'. rewrite U, O. by replace ((x <=? f) && (f <=? y)) with true by lia.
    - intros f I. rewrite U, O. unfold in_frames in I. by rewrite I. }
  destruct (if fixed then _ else _) as [[rc mm1]|]; cbn [mbind option_bind]; [|left; destruct U as [-> ?]; done].
  destruct U as (-> & K1 & Fr & Same & Out). cbn [Z.eqb unassert mbind option_bind].
  pose proof (track_spec false (table_mmap os) table_honest mm1 x y (dm_maphandle dm) prot flags false false off size K1 Hf Hs Hp Fr) as T.
  unfold track. destruct (__track_memory _ _ _ _ _ _ _ _ _ _ _ _) as [[rc mm2]|]; cbn [mbind option_bind].
  - destruct T as (-> & K2 & O). cbn [Z.eqb negb]. split; [done|]. split; [done|]. exists (dm_maphandle dm). intros f.
    rewrite O. destruct (in_frames x y f) eqn:I; [done|by apply Out].
  - left. apply refused_table in T as [F T]. split; [done|]. intros E. by rewrite <- (Same E).
Qed.

Lemma map_memory_spec mm stack size prot flags fd off f x n :
  mm_ok mm -> frames_ok x (x + (n - 1)) -> size_ok x (x + (n - 1)) size -> 0 <= prot < 128 -> has (MAP_FIXED os) f ->
  let fixed := negb (Z.land flags (MAP_FIXED os) =? 0) in
  (fixed = false -> free mm x (x + (n - 1))) ->
  outcome mm fixed stack x (x + (n - 1)) prot flags (__map_memory os mm (x * 65536) size prot flags fd off f x n).
Proof.
  intros KK Hf Hs Hp Hx fixed Fx. unfold __map_memory. rewrite (k_sysv os Hk).
  destruct (k_mmap os Hk (x * 65536) size prot f fd off Hx) as [E|E]; rewrite E; [|done].
  rewrite (proj2 (Z.eqb_neq _ MAP_FAILED)) by (unfold MAP_FAILED; ranges; lia). rewrite Z.eqb_refl.
  cbn [unassert mbind option_bind]. by apply finish_spec.
Qed.

Lemma stack_spec mm size prot flags fd off f x n :
  mm_ok mm -> frames_ok x (x + (n - 1)) -> size_ok x (x + (n - 1)) size -> 0 <= prot < 128 -> has (MAP_FIXED os) f ->
  let fixed := negb (Z.land flags (MAP_FIXED os) =? 0) in
  let stack := Z.land f (MAP_TYPE os) =? MAP_STACK os in
  (fixed = false -> free mm x (x + (n - 1))) ->
  match mmap_stack os mm (x * 65536) size prot flags fd off f x n with
  | Some (inl (f', guard)) => has (MAP_FIXED os) f' /\ (guard = true -> stack = true)
  | Some (inr r) => outcome mm fixed stack x (x + (n - 1)) prot flags (Some r)
  | None => outcome mm fixed stack x (x + (n - 1)) prot flags None
  end.
Proof.
  intros KK Hf Hs Hp Hx fixed stack Fx. pose proof (fun dm => finish_spec mm stack size prot flags off x n dm KK Hf Hs Hp Fx) as Fin.
  fold fixed in Fin. clearbody fixed. unfold mmap_stack. fold stack. destruct stack; [|done].
  destruct (negb _); [done|]. pose proof (k_flags os Hk) as D.
  destruct (IsOpenbsd os). { destruct (_ =? MAP_FAILED); [done|]. split; [|done]. auto 6 with flags. }
  destruct (IsLinux os); [|split; [|done]; destruct (IsFreebsd os); auto 6 with flags].
  destruct (Z.eqb_spec (sys_munmap os (x * 65536) size) 0) as [_|M]; cbn [unassert mbind option_bind]; [|right; split; [done|left; eauto]].
  destruct (negb _); [|split; [auto 6 with flags|done]].
  destruct (_ =? x * 65536) eqn:G; cbn [unassert mbind option_bind].
  - match goal with |- context [__finish_memory _ _ _ _ _ _ _ _ _ ?dm] => specialize (Fin dm) end.
    destruct (__finish_memory _ _ _ _ _ _ _ _ _ _) as [[r mm']|]; exact Fin.
  - right. split; [done|]. right. left. eexists _, _. apply Z.eqb_neq in G.
    match type of G with dm_addr ?d <> _ => destruct (k_mmap os Hk (x * 65536) (pagesize os) (PROT_NONE os)
      (Z.lor (MAP_FIXED os) (Z.lor (MAP_PRIVATE os) (MAP_ANONYMOUS os))) (-1) 0) as [E|E] end;
      [apply has_lor_l, has_refl|by destruct G|exact E].
Qed.

(** The number of frames of a size. *)
Definition frames (size : Z) : Z := (size + 65535) / 65536.

Lemma frames_spec size : 0 < size -> 1 <= frames size /\ (frames size - 1) * 65536 < size <= frames size * 65536.
Proof.
  intros H. unfold frames. pose proof (Z.div_mod (size + 65535) 65536 ltac:(lia)).
  pose proof (Z.mod_pos_bound (size + 65535) 65536 ltac:(lia)). lia.
Qed.

Lemma frames_unique size n : (n - 1) * 65536 < size <= n * 65536 -> frames size = n.
Proof. intros H. unfold frames. symmetry. apply (Z.div_unique _ _ _ (size + 65535 - n * 65536)); [left|]; lia. Qed.

(** [size >> 16] and one more for a rest. *)
Lemma frames_code size : 0 < size -> frames size < 2 ^ 31 ->
  ckd_add32 (s32 (Z.shiftr size 16)) (Z.b2z (negb (Z.land size (FRAMESIZE - 1) =? 0))) = Some (frames size).
Proof.
  intros H L. unfold FRAMESIZE. change (65536 - 1) with (Z.ones 16). rewrite Z.land_ones, Z.shiftr_div_pow2 by lia.
  change (2 ^ 16) with 65536. pose proof (Z.div_mod size 65536 ltac:(lia)) as D. pose proof (Z.mod_pos_bound size 65536 ltac:(lia)) as M.
  destruct (frames_spec size H) as [F1 F2]. assert (0 <= size / 65536 <= frames size) by lia.
  rewrite s32_id by lia. unfold ckd_add32. destruct (Z.eqb_spec (size mod 65536) 0) as [E|E]; cbn [negb Z.b2z].
  - assert (frames size = size / 65536) as -> by (apply frames_unique; lia).
    by replace ((- 2 ^ 31 <=? size / 65536 + 0) && (size / 65536 + 0 <? 2 ^ 31)) with true by lia; rewrite Z.add_0_r.
  - assert (frames size = size / 65536 + 1) as -> by (apply frames_unique; lia).
    by replace ((- 2 ^ 31 <=? size / 65536 + 1) && (size / 65536 + 1 <? 2 ^ 31)) with true by lia.
Qed.

(** The alignment is a power of two. *)
Lemma alignment size : 0 < size -> exists k, 0 <= k /\ Z.max 1 (Z.shiftr (__rounddown2pow size) 16) = 2 ^ k.
Proof.
  intros H. unfold __rounddown2pow. rewrite (proj2 (Z.eqb_neq size 0)) by lia. pose proof (Z.log2_nonneg size) as L.
  rewrite Z.shiftl_mul_pow2, Z.mul_1_l by done. rewrite Z.shiftr_div_pow2 by lia.
  destruct (decide (16 <= Z.log2 size)) as [G|G].
  - exists (Z.log2 size - 16). split; [lia|]. rewrite <- Z.pow_sub_r by lia. pose proof (Z.pow_pos_nonneg 2 (Z.log2 size - 16)). lia.
  - exists 0. split; [done|]. rewrite Z.div_small; [done|]. split; [apply Z.pow_nonneg; lia|apply Z.pow_lt_mono_r; lia].
Qed.

Definition norm_flags (flags : Z) : Z :=
  let both := Z.lor (MAP_SHARED os) (MAP_PRIVATE os) in
  if Z.land flags both =? both then MAP_SHARED os else flags.
Definition is_fixed (flags : Z) : bool := negb (Z.land (norm_flags flags) (MAP_FIXED os) =? 0).
Definition kernel_flags (flags : Z) : Z := Z.lor (Z.land (norm_flags flags) (Z.lnot (MAP_FIXED_NOREPLACE os))) (MAP_FIXED os).
Definition is_stack (flags : Z) : bool := Z.land (kernel_flags flags) (MAP_TYPE os) =? MAP_STACK os.

Lemma arguments_spec p size flags fd off a : 0 <= size -> mmap_arguments os p size flags fd off = inr a ->
  let '(flags', _, _, size') := a in
  p mod 65536 = 0 /\ 0 < size /\ flags' = norm_flags flags /\ 0 < size' /\ frames size' = frames size /\ size <= size' <= frames size * 65536.
Proof.
  intros Hs. unfold mmap_arguments. destruct (Z.eqb_spec size 0) as [|N]; [done|].
  destruct (ALIGNED p) eqn:A; cbn [negb]; [|done]. apply ALIGNED_frame in A. destruct (IsLegalSize size); cbn [negb]; [|done].
  destruct (IsLegalPointer p); cbn [negb]; [|done]. fold (norm_flags flags). destruct (frames_spec size ltac:(lia)) as [F1 F2].
  destruct (negb _).
  - destruct (_ =? MAP_FILE os); [done|]. intros [= <-]. rewrite ROUNDUP_frame. fold (frames size).
    split; [done|]. split; [lia|]. split; [done|]. split; [lia|]. split; [apply frames_unique; lia|lia].
  - destruct (fd_zip os fd); [done|]. destruct (off <? 0); [done|]. destruct (negb _); [done|]. destruct (_ <? off); [done|].
    intros [= <-]. split; [done|]. split; [lia|]. split; [done|]. split; [lia|]. split; [done|lia].
Qed.

Lemma frame_spec mm p size flags clashes :
  mm_ok mm -> 0 <= p -> p mod 65536 = 0 -> 0 < size -> p + size <= (2 ^ 31 - 1) * 65536 ->
  (clashes = false -> free mm (p / 65536) ((p + size - 1) / 65536)) ->
  exists o, mmap_frame os mm p size (frames size) flags clashes = Some (o, mm) /\
    match o with
    | inl _ => True
    | inr x => frames_ok x (x + (frames size - 1)) /\
        (if negb (Z.land flags (MAP_FIXED os) =? 0) then x * 65536 = p else free mm x (x + (frames size - 1)))
    end.
Proof.
  intros KK Hp Ap Hs B Cl. unfold mmap_frame. rewrite (k_sysv os Hk). destruct (frames_spec size Hs) as [F1 F2].
  pose proof (Z.div_mod p 65536 ltac:(lia)) as D. rewrite Ap, Z.add_0_r in D.
  assert ((p + size - 1) / 65536 = p / 65536 + (frames size - 1)) as Y.
  { symmetry. apply (Z.div_unique _ _ _ (size - 1 - (frames size - 1) * 65536)); [left|]; lia. }
  assert (frames_ok (p / 65536) (p / 65536 + (frames size - 1))) as Fo by (unfold frames_ok; lia).
  rewrite (FRAME_addr p) by lia. cbn [mbind option_bind unassert Z.eqb].
  destruct (negb (Z.land flags (MAP_FIXED os) =? 0)).
  - eexists. split; [reflexivity|]. split; [done|lia].
  - destruct (negb (p =? 0) && negb clashes && negb (OverlapsShadowSpace p size)) eqn:C.
    + eexists. split; [reflexivity|]. split; [done|]. rewrite <- Y. apply Cl. by destruct clashes; [rewrite andb_false_r in C|].
    + destruct (alignment size Hs) as (k & Hk' & ->). unfold __auto_map.
      destruct (choose_spec mm (frames size) k KK Hk' (FRAME kAutomapStart)) as (r & -> & R); [vm_compute; congruence|].
      cbn [mbind option_bind]. destruct r as [x|]; [|eexists; split; [reflexivity|exact I]].
      change (FRAME (kAutomapStart + (kAutomapSize - 1))) with 0x1fe7fffb.
      destruct (Z.leb_spec (x + frames size) 0x1fe7fffb); [|eexists; split; [reflexivity|exact I]].
      destruct (R x eq_refl) as (? & ? & _ & Fr). eexists. split; [reflexivity|]. split; [unfold frames_ok; lia|].
      by replace (x + (frames size - 1)) with (x + frames size - 1) by lia.
Qed.

Lemma mmap_spec mm addr size prot flags fd off :
  mm_ok mm -> 0 <= prot < 128 -> 0 <= addr -> 0 <= size -> addr + frames size * 65536 <= (2 ^ 31 - 1) * 65536 ->
  match __mmap_unlocked os mm addr size prot flags fd off with
  | Some (Mapped q, mm') => mm_ok mm' /\ exists x h, let y := x + (frames size - 1) in
      q = x * 65536 /\ (if is_fixed flags then q = addr else free mm x y) /\
      forall f, owner (used mm') f = if in_frames x y f then Some (h, prot, norm_flags flags) else owner (used mm) f
  | Some (Failed _, mm') => mm' = mm
  | None => (table_refused /\ (is_fixed flags = false -> mm_i mm = mm_n mm)) \/ (is_stack flags = true /\ stack_refused)
  end.
Proof.
  intros KK Hp Ha Hs B. unfold __mmap_unlocked.
  destruct (mmap_arguments os addr size flags fd off) as [e|a] eqn:EA; [done|].
  pose proof (arguments_spec _ _ _ _ _ _ Hs EA) as AS. destruct a as [[[flags' fd'] off'] size'].
  destruct AS as (Al & S0 & -> & S1 & Fs & S2). rewrite <- Fs in *.
  destruct (frames_spec size' S1) as [F1 F2]. destruct (over_limit os mm size'); [done|].
  destruct (overlaps_spec mm addr size' KK Ha S1 ltac:(lia)) as (b & -> & Ov). cbn [mbind option_bind].
  destruct (_ && _); [done|]. rewrite (frames_code size' S1) by lia.
  destruct (frame_spec mm addr size' (norm_flags flags) (OverlapsImageSpace os addr size' || b) KK Ha Al S1 ltac:(lia)) as (o & -> & O).
  { intros C. apply orb_false_iff in C as [_ C]. by apply Ov. }
  cbn [mbind option_bind]. destruct o as [e|x]; [done|]. destruct O as [Fo O]. fold (is_fixed flags) (kernel_flags flags) in *.
  assert (size_ok x (x + (frames size' - 1)) size') as So by (unfold size_ok, FRAMESIZE; lia).
  rewrite ADDR_frame by (unfold frames_ok in Fo; lia).
  assert (is_fixed flags = false -> free mm x (x + (frames size' - 1))) as Pre by (intros E; by rewrite E in O).
  assert (has (MAP_FIXED os) (kernel_flags flags)) as Hx by apply has_lor_r, has_refl.
  pose proof (stack_spec mm size' prot (norm_flags flags) fd' off' (kernel_flags flags) x (frames size') KK Fo So Hp Hx Pre) as St.
  cbv zeta in St. fold (is_fixed flags) (is_stack flags) in St.
  destruct (mmap_stack _ _ _ _ _ _ _ _ _ _ _) as [[[f' guard]|[r mm']]|]; cbn [mbind option_bind]; [|destruct r|exact St].
  - destruct St as [Hx' Gu]. rewrite (k_sysv os Hk). cbn [negb].
    pose proof (map_memory_spec mm (is_stack flags) size' prot (norm_flags flags) fd' off' f' x (frames size') KK Fo So Hp Hx' Pre) as Out.
    fold (is_fixed flags) in Out. destruct (__map_memory _ _ _ _ _ _ _ _ _ _ _) as [[[q|e] mm']|]; cbn [mbind option_bind]; [|exact Out..].
    destruct (negb guard || sys_protect os q (pagesize os)) eqn:Pr; cbn [unassert mbind option_bind].
    + destruct Out as (K' & -> & h & Out). split; [done|]. exists x, h. cbv zeta. split; [done|]. split; [|done]. by destruct (is_fixed flags).
    + apply orb_false_iff in Pr as [G Pr]. right. split; [apply Gu; by destruct guard|]. right. right. eauto.
  - destruct St as (K' & -> & h & Out). split; [done|]. exists x, h. cbv zeta. split; [done|]. split; [|done]. by destruct (is_fixed flags).
  - exact St.
Qed.

(** The bytes of an entry in the frames [l .. r]; a last frame that is used in part ends early. *)
Definition unmap_range (l r : Z) (e : MemoryInterval) : Z * Z :=
  let a := Z.max l (mi_x e) * 65536 in
  (a, Z.min ((Z.min r (mi_y e) + 1) * 65536) (mi_x e * 65536 + mi_size e) - a).

Definition overlapping (l r : Z) (e : MemoryInterval) : Prop := l <= mi_y e /\ mi_x e <= r.
#[global] Instance overlapping_dec l r e : Decision (overlapping l r e).
Proof. unfold overlapping. apply _. Defined.

Lemma munmap_loop_spec mm l r : mm_ok mm -> 0 <= l <= r -> r < 2 ^ 31 -> forall Q P k,
  used mm = P ++ Q -> Forall (fun e => l <= mi_y e) Q -> (length Q <= k)%nat ->
  match munmap_loop os k mm l r (Z.of_nat (length P)) with
  | Some calls => calls = map (unmap_range l r) (filter (overlapping l r) Q)
  | None => Exists (fun c => sys_munmap os c.1 c.2 <> 0) (map (unmap_range l r) (filter (overlapping l r) Q))
  end.
Proof.
  intros KK Hl Hr. induction Q as [|e Q IH]; intros P k E F L; pose proof (used_length mm (proj1 KK)) as U;
    rewrite E, length_app in U; cbn [length] in U.
  - destruct k; cbn [munmap_loop]; by rewrite (proj2 (Z.ltb_ge _ (mm_i mm))) by lia.
  - apply Forall_cons in F as [Fe F]. destruct k as [|k]; [cbn in L; lia|]. cbn [munmap_loop length] in *.
    pose proof (proj2 KK) as KE. rewrite E in KE. apply entries_ok_app in KE as (_ & KE & _).
    rewrite (proj2 (Z.ltb_lt _ (mm_i mm))), (entry_split mm P e Q E) by lia. rewrite !Z.geb_leb. cbn [andb].
    destruct (Z.leb_spec (mi_x e) r) as [G|G].
    + assert ((if (mi_x e <=? l) && (r <=? mi_y e) then Some (l, r)
         else if (l <=? mi_x e) && true then Some (mi_x e, Z.min r (mi_y e))
         else if (l <=? mi_y e) && (mi_y e <=? r) then Some (Z.max (mi_x e) l, mi_y e) else None) =
         Some (Z.max l (mi_x e), Z.min r (mi_y e))) as ->.
      { repeat match goal with |- context [if ?b then _ else _] => destruct b eqn:? end; try lia; do 2 f_equal; lia. }
      cbn [mbind option_bind]. apply entries_ok_cons in KE as (He & _ & _). ranges.
      rewrite filter_cons_True by (split; lia). cbn [map].
      assert (unmap_range l r e = (ADDR_32_TO_48 (Z.max l (mi_x e)),
        Z.min (ADDR_32_TO_48 (Z.min r (mi_y e)) + FRAMESIZE) (ADDR_32_TO_48 (mi_x e) + mi_size e) - ADDR_32_TO_48 (Z.max l (mi_x e)))) as ->.
      { unfold unmap_range. rewrite !ADDR_frame by lia. do 2 f_equal. unfold FRAMESIZE. lia. }
      assert (used mm = (P ++ [e]) ++ Q) as E' by (by rewrite E, <- app_assoc).
      pose proof (IH (P ++ [e]) k E' F ltac:(lia)) as R. rewrite length_app in R. cbn [length] in R.
      replace (Z.of_nat (length P) + 1) with (Z.of_nat (length P + 1)) by lia.
      rewrite (k_sysv os Hk). cbn [orb].
      match goal with |- context [sys_munmap os ?a ?m =? 0] => destruct (Z.eqb_spec (sys_munmap os a m) 0) as [M|M] end;
        cbn [unassert mbind option_bind].
      * destruct (munmap_loop _ _ _ _ _ _); cbn [mbind option_bind]; [by f_equal|by apply Exists_cons_tl].
      * by apply Exists_cons_hd.
    + replace (filter (overlapping l r) (e :: Q)) with (@nil MemoryInterval); [done|]. symmetry.
      pose proof (after_all e Q KE r G) as A. clear -A. induction A as [|a A Ha _ IHA]; [done|].
      rewrite filter_cons_False by (unfold overlapping; lia). exact IHA.
Qed.

Lemma munmap_spec mm p n :
  mm_ok mm -> 0 <= p -> p mod 65536 = 0 -> 0 < n -> n <= 0x800000000000 - 65536 -> p + n <= 2 ^ 47 ->
  let l := p / 65536 in let r := (p + n - 1) / 65536 in
  let calls := map (unmap_range l r) (filter (overlapping l r) (used mm)) in
  match __munmap_unlocked os mm p n with
  | Some (rc, mm', calls') => rc = 0 /\ mm_ok mm' /\ used mm' = cut l r (used mm) /\ calls' = calls
  | None => Exists (fun c => sys_munmap os c.1 c.2 <> 0) calls \/ (mm_i mm = mm_n mm /\ table_refused)
  end.
Proof.
  intros KK Hp Ap Hn Ln B l r calls. unfold __munmap_unlocked, IsLegalSize, IsLegalPointer. rewrite (proj2 (Z.eqb_neq n 0)) by lia.
  rewrite (proj2 (Z.leb_le n _)) by (unfold FRAMESIZE; lia). rewrite !(proj2 (Z.leb_le _ _)) by lia.
  rewrite (proj2 (ALIGNED_frame p) Ap). cbn [negb andb]. unfold __munmap_impl. rewrite !FRAME_addr by lia. fold l r.
  assert (0 <= l <= r /\ r < 2 ^ 31) as R.
  { subst l r. split; [split; [apply Z.div_pos; lia|apply Z.div_le_mono; lia]|apply Z.div_lt_upper_bound; lia]. }
  destruct (find_split mm l KK) as (pre & post & E & -> & Fp & Fq). cbn [mbind option_bind].
  pose proof (used_length mm (proj1 KK)) as U. rewrite E, length_app in U.
  assert (filter (overlapping l r) (used mm) = filter (overlapping l r) post) as Fo.
  { rewrite E, filter_app. clear -Fp. induction Fp as [|a A Ha _ IHA]; [done|].
    rewrite filter_cons_False by (unfold overlapping; lia). exact IHA. }
  pose proof (munmap_loop_spec mm l r KK ltac:(lia) ltac:(lia) post pre (Z.to_nat (mm_i mm)) E Fq ltac:(lia)) as M.
  rewrite <- Fo in M. fold calls in M. destruct (munmap_loop _ _ _ _ _ _) as [calls'|]; cbn [mbind option_bind]; [|by left].
  pose proof (untrack_memories_spec mm p n KK Hp Hn B) as H. fold l r in H.
  destruct (__untrack_memories _ _ _ _) as [[rc mm']|]; cbn [mbind option_bind]; [|by right]. naive_solver.
Qed.
End Sysv.

Lemma sample_kernel_ok : kernel_ok sample_system.
Proof. split; [done|done|]. intros. by left. Qed.

(* ------------------------------------------------------------------ *)
(** ** Properties *)





(** When all mappings lie below the start of the region for automatic addresses, the next one is
    placed right behind them and not in that region. *)
Theorem auto_map_below : __auto_map sample_table 1 1 = Some (Some 30) /\ FRAME kAutomapStart = 0x10008004.
Proof. split; vm_compute; reflexivity. Qed.

(** A mapping that cannot be tracked is given back with the number of its frames as its size: of
    three frames at [addr] the kernel is told to unmap 3 bytes. *)
Theorem finish_memory_unmaps_frames (os : system) mm addr size prot flags off x n dm :
  IsWindows os = false -> Z.land flags (MAP_FIXED os) = 0 ->
  track os mm x (x + (n - 1)) (dm_maphandle dm) prot flags false false off size = Some (-1, mm) ->
  __finish_memory os mm addr size prot flags off x n dm =
  (unassert (negb (sys_munmap os addr n =? -1)) ;; Some (Failed ENOMEM_, mm)).
Proof. intros W F T. unfold __finish_memory. rewrite W, F. cbn [Z.eqb negb andb mbind option_bind unassert]. by rewrite T. Qed.
