(* ===== verification/Sorting.v ===== *)
(** What the sorting functions of libc share: arrays that are read and written by index, the
    contract of a comparison callback, sorted arrays, and the interface of a sorting function. *)

From stdpp Require Import sorting.
From S2P Require Import Prelude.

(* ------------------------------------------------------------------ *)
(** ** Arrays *)

(** An array of [n] items; [None] is an access outside of it. *)
Definition rd {A} (a : list A) (i : nat) : option A := a !! i.

Definition wr {A} (a : list A) (i : nat) (x : A) : option (list A) :=
  if (i <? length a)%nat then Some (<[i := x]> a) else None.

(** [SWAP] and its kin. *)
Definition swap {A} (a : list A) (i j : nat) : option (list A) :=
  x ← rd a i; y ← rd a j; a ← wr a i y; wr a j x.

(* ------------------------------------------------------------------ *)
(** ** Comparison callbacks *)

(** The contract of a callback returning <0, 0, or >0: the sign of the result is turned around
    when the arguments are, and [<=] is transitive. *)
Class Comparison {A} (cmp : A -> A -> Z) : Prop := {
  cmp_sym x y : Z.sgn (cmp y x) = - Z.sgn (cmp x y);
  cmp_trans x y z : cmp x y <= 0 -> cmp y z <= 0 -> cmp x z <= 0;
}.

#[global] Instance Comparison_Zsub : Comparison (fun x y : Z => x - y).
Proof. split; intros; [rewrite <- Z.sgn_opp; f_equal; lia|lia]. Qed.

(** The order of a callback. *)
Definition cle {A} (cmp : A -> A -> Z) (x y : A) : Prop := cmp x y <= 0.

(** An array in the order of a callback. *)
Abbreviation Ordered cmp := (Sorted.StronglySorted (cle cmp)).

(** What a sorting function promises: whatever the callback does it ends, and permutes the array;
    and with a comparison the array is sorted. *)
Definition sorts {A} (cmp : A -> A -> Z) (a a' : list A) : Prop :=
  a' ≡ₚ a /\ (Comparison cmp -> Ordered cmp a').

(** A sorting function that can fail, and then leaves the array alone. *)
Class Sorter {A} (cmp : A -> A -> Z) (sort : list A -> option (bool * list A)) : Prop :=
  sorter_spec a : exists ok a', sort a = Some (ok, a') /\ if ok : bool then sorts cmp a a' else a' = a.

Section Order.
Context {A : Type} (cmp : A -> A -> Z) `{!Comparison cmp}.

Lemma cmp_ge x y : 0 <= cmp x y -> cmp y x <= 0.
Proof. intros H. pose proof (cmp_sym x y). lia. Qed.

Lemma cmp_gt x y : 0 < cmp x y -> cmp y x < 0.
Proof. intros H. pose proof (cmp_sym x y). lia. Qed.

Lemma cmp_refl x : cmp x x <= 0.
Proof. pose proof (cmp_sym x x). lia. Qed.

#[global] Instance cle_trans : Transitive (cle cmp).
Proof. intros x y z. apply cmp_trans. Qed.
End Order.

(* ------------------------------------------------------------------ *)
(** ** Lemmas on arrays *)

Lemma wr_Some {A} (a : list A) i x : (i < length a)%nat -> wr a i x = Some (<[i := x]> a).
Proof. intros H. unfold wr. by rewrite (proj2 (Nat.ltb_lt _ _) H). Qed.

Lemma rd_Some {A} (a : list A) i : (i < length a)%nat -> exists x, rd a i = Some x.
Proof. intros H. by apply lookup_lt_is_Some_2. Qed.

(** Exchanging two items permutes the array. *)
Lemma swap_spec {A} (a : list A) i j :
  (i < length a)%nat -> (j < length a)%nat ->
  exists x y, a !! i = Some x /\ a !! j = Some y /\ swap a i j = Some (<[j := x]> (<[i := y]> a)).
Proof.
  intros Hi Hj. destruct (rd_Some a i Hi) as [x Hx], (rd_Some a j Hj) as [y Hy].
  exists x, y. split; [done|]. split; [done|]. unfold swap. rewrite Hx, Hy. cbn [mbind option_bind].
  rewrite wr_Some by done. cbn [mbind option_bind]. by rewrite wr_Some by (by rewrite length_insert).
Qed.

(** A permutation that leaves the end of the array alone permutes the beginning. *)
Lemma Permutation_take {A} (a b : list A) n : a ≡ₚ b -> drop n a = drop n b -> take n a ≡ₚ take n b.
Proof.
  intros Hp Hd. rewrite <- (take_drop n a), <- (take_drop n b), Hd in Hp. by apply Permutation_app_inv_r in Hp.
Qed.

(** Sorted parts of an array, none of which is above the next. *)
Lemma Ordered_app {A} (cmp : A -> A -> Z) a b :
  Ordered cmp a -> Ordered cmp b -> (forall x y, x ∈ a -> y ∈ b -> cmp x y <= 0) -> Ordered cmp (a ++ b).
Proof. intros Ha Hb H. apply SSorted_app_iff. split; [done|]. split; [done|]. intros x y Hx Hy. by apply H. Qed.

Create HintDb sorting.
#[global] Hint Resolve cmp_ge cmp_gt cmp_refl : sorting.
