(* ===== verification/Heapsort.v ===== *)
(** Heap sort: libc/mem/heapsort.c. *)

From S2P Require Import Prelude Sorting.

(* ------------------------------------------------------------------ *)
(** ** Definitions *)

Section Heapsort.
Context {A : Type} (compar : A -> A -> Z).

(** Items are numbered from 1: [base + i * size]. *)
Definition item (a : list A) (i : nat) : option A := match i with O => None | S i => rd a i end.
Definition put (a : list A) (i : nat) (x : A) : option (list A) := match i with O => None | S i => wr a i x end.

(** [child] and [child_i] after the test for the larger of two children. *)
Definition larger_child (a : list A) (nmemb child_i : nat) : option (nat * A) :=
  c ← item a child_i;
  if (child_i <? nmemb)%nat then
    c' ← item a (S child_i);
    Some (if compar c c' <? 0 then (S child_i, c') else (child_i, c))
  else Some (child_i, c).

(** [CREATE]: lets the item at [par_i] sink. *)
Fixpoint CREATE (fuel : nat) (a : list A) (nmemb par_i : nat) : option (list A) :=
  match fuel with
  | O => None
  | S fuel =>
      let child_i := (par_i * 2)%nat in
      if (child_i <=? nmemb)%nat then
        '(child_i, child) ← larger_child a nmemb child_i;
        par ← item a par_i;
        if compar child par <=? 0 then Some a
        else
          a ← put a par_i child;
          a ← put a child_i par;
          CREATE fuel a nmemb child_i
      else Some a
  end.

(** The first loop of [SELECT]: the larger child is copied over its parent, down to a leaf. *)
Fixpoint select_down (fuel : nat) (a : list A) (nmemb par_i : nat) : option (list A * nat) :=
  match fuel with
  | O => None
  | S fuel =>
      let child_i := (par_i * 2)%nat in
      if (child_i <=? nmemb)%nat then
        '(child_i, child) ← larger_child a nmemb child_i;
        a ← put a par_i child;
        select_down fuel a nmemb child_i
      else Some (a, par_i)
  end.

(** The second loop of [SELECT]: the place of [k] is sought from the leaf up. *)
Fixpoint select_up (fuel : nat) (a : list A) (k : A) (child_i : nat) : option (list A) :=
  match fuel with
  | O => None
  | S fuel =>
      let par_i := (child_i / 2)%nat in
      if (child_i =? 1)%nat then put a child_i k
      else
        par ← item a par_i;
        if compar k par <? 0 then put a child_i k
        else a ← put a child_i par; select_up fuel a k par_i
  end.

Definition SELECT (a : list A) (nmemb : nat) (k : A) : option (list A) :=
  '(a, i) ← select_down (S nmemb) a nmemb 1;
  select_up (S i) a k i.

(** [for (l = nmemb / 2 + 1; --l;) CREATE(l, ...)] *)
Fixpoint create_loop (l : nat) (a : list A) (nmemb : nat) : option (list A) :=
  match l with
  | O => Some a
  | S l' => a ← CREATE (S nmemb) a nmemb l; create_loop l' a nmemb
  end.

(** [while (nmemb > 1)], which takes [nmemb] down. *)
Fixpoint select_loop (nmemb : nat) (a : list A) : option (list A) :=
  match nmemb with
  | O => Some a
  | S nmemb' =>
      if (nmemb <=? 1)%nat then Some a
      else
        k ← item a nmemb;
        top ← item a 1;
        a ← put a nmemb top;
        a ← SELECT a nmemb' k;
        select_loop nmemb' a
  end.

(** The results: 0, [einval()], and -1 where [malloc] failed. *)
Inductive heapsort_result := HeapDone | HeapEinval | HeapEnomem.

Definition heapsort_r (malloc : Z -> bool) (a : list A) (size : Z) : option (heapsort_result * list A) :=
  let nmemb := length a in
  if (nmemb <=? 1)%nat then Some (HeapDone, a)
  else if size =? 0 then Some (HeapEinval, a)
  else if negb (malloc size) then Some (HeapEnomem, a)
  else
    a ← create_loop (nmemb / 2) a nmemb;
    a ← select_loop nmemb a;
    Some (HeapDone, a).
End Heapsort.

(** [heapsort]: the callback takes no third argument. *)
Definition heapsort {A} (malloc : Z -> bool) (a : list A) (size : Z) (compar : A -> A -> Z) :=
  heapsort_r compar malloc a size.

Example heapsort_1 :
  heapsort_r (fun x y => x - y) (fun _ => true) [5; 2; 9; 9; 1; -3; 7; 0; 4] 4
    = Some (HeapDone, [-3; 0; 1; 2; 4; 5; 7; 9; 9]) /\
  heapsort_r (fun x y => x - y) (fun _ => true) [2; 1] 0 = Some (HeapEinval, [2; 1]) /\
  heapsort_r (fun x y => x - y) (fun _ => false) [2; 1] 4 = Some (HeapEnomem, [2; 1]).
Proof. vm_compute. repeat split. Qed.

(* ------------------------------------------------------------------ *)
(** ** Heaps *)

Section HeapLemmas.
Context {A : Type} (compar : A -> A -> Z).
Implicit Types (a : list A) (x y k : A) (i j h n : nat).
Open Scope nat_scope.

(** [put] where there is an item. *)
Definition upd a i x : list A := <[i - 1 := x]> a.

Lemma put_Some a i x : 1 <= i <= length a -> put a i x = Some (upd a i x).
Proof. intros H. destruct i as [|i]; [lia|]. cbn. rewrite wr_Some by lia. unfold upd. by replace (S i - 1) with i by lia. Qed.

Lemma item_lookup a i : 1 <= i -> item a i = a !! (i - 1).
Proof. intros H. destruct i as [|i]; [lia|]. cbn. unfold rd. by rewrite ?Nat.sub_0_r. Qed.

Lemma item_Some a i : 1 <= i <= length a -> exists x, item a i = Some x.
Proof. intros H. rewrite item_lookup by lia. apply lookup_lt_is_Some_2. lia. Qed.

Lemma item_upd_eq a i x : 1 <= i <= length a -> item (upd a i x) i = Some x.
Proof. intros H. rewrite item_lookup by lia. apply list_lookup_insert_eq. lia. Qed.

Lemma item_upd_ne a i j x : 1 <= i -> i <> j -> item (upd a i x) j = item a j.
Proof.
  intros Hi H. destruct j as [|j]; [done|]. rewrite !item_lookup by lia. apply list_lookup_insert_ne. lia.
Qed.

Lemma length_upd a i x : length (upd a i x) = length a.
Proof. apply length_insert. Qed.

(** Moving an item to a place from which the hole came. *)
Lemma upd_move a i j x k :
  1 <= i <= length a -> 1 <= j -> item a j = Some x -> upd (upd a i x) j k ≡ₚ upd a i k.
Proof.
  intros Hi Hj Hx. unfold upd. rewrite item_lookup in Hx by done.
  destruct (decide (i = j)) as [->|Hne]; [by rewrite list_insert_insert_eq|].
  rewrite <- (list_insert_insert_eq a (i - 1) x k). apply Permutation_insert_swap.
  - apply list_lookup_insert_eq. lia.
  - by rewrite list_lookup_insert_ne by lia.
Qed.

Lemma upd_id a i x : item a i = Some x -> upd a i x = a.
Proof. intros H. destruct i as [|i]; [done|]. cbn in H. unfold upd. replace (S i - 1) with i by lia. by apply list_insert_id. Qed.

Lemma drop_upd a i x n : 1 <= i <= n -> drop n (upd a i x) = drop n a.
Proof. intros H. unfold upd. by rewrite drop_insert_lt by lia. Qed.

(** The item [j] is not above its parent. *)
Definition edge a j : Prop :=
  forall x y, item a j = Some x -> item a (j / 2) = Some y -> (compar x y <= 0)%Z.

Definition heap_from (l n : nat) a : Prop := forall j, 2 <= j <= n -> l <= j / 2 -> edge a j.

(** Children of [i] are not above the parent of [i]. *)
Definition grand n i a : Prop :=
  forall j x y, j / 2 = i -> j <= n -> item a j = Some x -> item a (i / 2) = Some y -> (compar x y <= 0)%Z.

Lemma half_lt i : 1 <= i -> i / 2 < i.
Proof. intros H. apply Nat.div_lt; lia. Qed.

Lemma children j i : j / 2 = i <-> j = i * 2 \/ j = S (i * 2).
Proof.
  split; [intros <-; pose proof (Nat.div_mod_eq j 2); pose proof (Nat.mod_upper_bound j 2); lia|].
  intros [->| ->]; symmetry; [apply Nat.div_unique with 0|apply Nat.div_unique with 1]; lia.
Qed.

Lemma larger_child_spec a n i :
  1 <= i -> i * 2 <= n -> n <= length a ->
  exists c x, larger_child compar a n (i * 2) = Some (c, x) /\ c / 2 = i /\ i < c <= n /\ item a c = Some x /\
    (Comparison compar -> forall j y, j / 2 = i -> j <= n -> item a j = Some y -> (compar y x <= 0)%Z).
Proof.
  intros Hi Hn Hl. unfold larger_child.
  destruct (item_Some a (i * 2)) as [x Hx]; [lia|]. rewrite Hx. cbn [mbind option_bind].
  destruct (i * 2 <? n) eqn:E.
  - apply Nat.ltb_lt in E. destruct (item_Some a (S (i * 2))) as [y Hy]; [lia|]. rewrite Hy. cbn [mbind option_bind].
    destruct (compar x y <? 0)%Z eqn:Ec.
    + exists (S (i * 2)), y. rewrite children. repeat split; auto; try lia.
      intros HC j z Hj Hjn Hz. apply children in Hj as [->| ->]; simplify_eq; [lia|auto with sorting].
    + exists (i * 2), x. rewrite children. repeat split; auto; try lia.
      intros HC j z Hj Hjn Hz. apply children in Hj as [->| ->]; simplify_eq; [auto with sorting|].
      apply cmp_ge; [done|lia].
  - apply Nat.ltb_ge in E. exists (i * 2), x. rewrite children. repeat split; auto; try lia.
    intros HC j z Hj Hjn Hz. apply children in Hj as [->| ->]; simplify_eq; [auto with sorting|lia].
Qed.

(** What a loop did to the first [n] items: they were permuted. *)
Definition permuted n a a' : Prop := a' ≡ₚ a /\ drop n a' = drop n a.

Lemma permuted_trans n a b c : permuted n a b -> permuted n b c -> permuted n a c.
Proof. intros [H1 H2] [H3 H4]. split; [by rewrite H3|by rewrite H4]. Qed.

(** An edge that does not meet a place that was written. *)
Lemma edge_upd a i x j : 1 <= i -> j <> i -> j / 2 <> i -> edge a j -> edge (upd a i x) j.
Proof. intros Hi H1 H2 He y z. rewrite !item_upd_ne by auto. apply He. Qed.

(** All is in order from [l] on but for the children of [i]. *)
Definition sinking (l n i : nat) a : Prop :=
  (forall j, 2 <= j <= n -> l <= j / 2 -> j / 2 <> i -> edge a j) /\ (l <= i / 2 -> grand n i a).

Lemma sink_step l n i c a x p :
  Comparison compar -> 1 <= l <= i -> c / 2 = i -> i < c <= n -> n <= length a ->
  item a c = Some x -> item a i = Some p -> (0 < compar x p)%Z ->
  (forall j y, j / 2 = i -> j <= n -> item a j = Some y -> (compar y x <= 0)%Z) ->
  sinking l n i a -> sinking l n c (upd (upd a i x) c p).
Proof.
  intros HC Hl Hci Hc Hn Hx Hp Hlt Hmax [Hedge Hgrand]. pose proof (half_lt i ltac:(lia)) as Hhi.
  split.
  - intros j Hj Hlj Hjc. destruct (decide (j = c)) as [->|Hne].
    { intros y z. rewrite Hci, item_upd_eq, item_upd_ne, item_upd_eq by (rewrite ?length_upd; lia).
      intros [= <-] [= <-]. pose proof (cmp_gt compar x p Hlt). lia. }
    apply edge_upd; [lia|done|done|]. destruct (decide (j = i)) as [->|Hji].
    { intros y z. rewrite item_upd_eq, item_upd_ne by lia. intros [= <-] Hz. apply (Hgrand Hlj c); [done|lia|done|done]. }
    destruct (decide (j / 2 = i)) as [Hji2|Hji2].
    { intros y z. rewrite Hji2, item_upd_eq, item_upd_ne by lia. intros Hy [= <-]. apply (Hmax j); [done|lia|done]. }
    apply edge_upd; [lia|done|done|]. by apply Hedge.
  - intros _ j y z Hjc Hjn. rewrite Hci. assert (j <> c /\ j <> i) as [H1 H2].
    { apply children in Hjc. lia. }
    rewrite !(item_upd_ne _ c) by lia. rewrite item_upd_ne, item_upd_eq by lia. intros Hy [= <-].
    apply (Hedge j); [apply children in Hjc; lia|lia|lia|done|by rewrite Hjc].
Qed.

(** The item at [i] has no children above it. *)
Lemma sunk l n i a :
  sinking l n i a -> (forall j x y, j / 2 = i -> 2 <= j <= n -> item a j = Some x -> item a i = Some y -> (compar x y <= 0)%Z) ->
  heap_from l n a.
Proof.
  intros [Hedge _] H j Hj Hlj. destruct (decide (j / 2 = i)) as [E|E]; [|by apply Hedge].
  intros x y Hx Hy. rewrite E in Hy. by apply (H j).
Qed.

Lemma CREATE_spec n fuel : forall a i,
  1 <= i -> n <= length a -> n < i + fuel -> 1 <= fuel ->
  exists a', CREATE compar fuel a n i = Some a' /\ permuted n a a' /\
    (Comparison compar -> forall l, 1 <= l <= i -> sinking l n i a -> heap_from l n a').
Proof.
  induction fuel as [|fuel IH]; intros a i Hi Hn Hf Hf1; [lia|]. cbn [CREATE].
  destruct (i * 2 <=? n) eqn:E.
  - apply Nat.leb_le in E. destruct (larger_child_spec a n i) as (c & x & -> & Hci & Hc & Hx & Hmax); [done..|].
    destruct (item_Some a i) as [p Hp]; [lia|]. rewrite Hp. cbn [mbind option_bind].
    destruct (compar x p <=? 0)%Z eqn:Ec.
    + exists a. split; [done|]. split; [done|]. intros HC l Hl Hs. apply (sunk l n i); [done|].
      intros j y z Hj Hjn Hy Hz. simplify_eq. apply (cmp_trans y x); [|lia]. apply (Hmax HC j); [done|lia|done].
    + rewrite put_Some by lia. cbn [mbind option_bind]. rewrite put_Some by (rewrite length_upd; lia).
      cbn [mbind option_bind].
      destruct (IH (upd (upd a i x) c p) c) as (a' & -> & Hp' & Ho); [lia|rewrite !length_upd; lia|lia|lia|].
      exists a'. split; [done|]. split.
      * apply (permuted_trans _ _ (upd (upd a i x) c p)); [|done]. split.
        -- rewrite upd_move by (done || lia). by rewrite upd_id.
        -- by rewrite !drop_upd by lia.
      * intros HC l Hl Hs. apply (Ho HC l); [lia|]. apply sink_step; try done; [lia|by apply Hmax].
  - apply Nat.leb_gt in E. exists a. split; [done|]. split; [done|]. intros HC l Hl Hs.
    apply (sunk l n i); [done|]. intros j x y Hj Hjn. apply children in Hj. lia.
Qed.

Lemma create_loop_spec n l : forall a,
  n <= length a ->
  exists a', create_loop compar l a n = Some a' /\ permuted n a a' /\
    (Comparison compar -> heap_from (S l) n a -> heap_from 1 n a').
Proof.
  induction l as [|l IH]; intros a Hn; cbn [create_loop]; [by exists a|].
  destruct (CREATE_spec n (S n) a (S l)) as (a1 & -> & [H1 H1'] & Ho1); [lia..|]. cbn [mbind option_bind].
  destruct (IH a1) as (a2 & -> & H2 & Ho2); [by rewrite H1|].
  exists a2. split; [done|]. split; [by apply (permuted_trans _ _ a1)|].
  intros HC Hh. apply Ho2, Ho1; [done|done|lia|]. split.
  - intros j Hj Hlj Hne. apply Hh; lia.
  - intros Hlt. pose proof (half_lt (S l)). lia.
Qed.

(** All is in order but for what meets the hole [h]. *)
Definition holed n h a : Prop :=
  (forall j, 2 <= j <= n -> j <> h -> j / 2 <> h -> edge a j) /\ (2 <= h -> grand n h a).

Lemma hole_down n h c a x :
  1 <= h -> c / 2 = h -> h < c <= n -> n <= length a -> item a c = Some x ->
  (forall j y, j / 2 = h -> j <= n -> item a j = Some y -> (compar y x <= 0)%Z) ->
  holed n h a -> holed n c (upd a h x).
Proof.
  intros Hh Hch Hc Hn Hx Hmax [Hedge Hgrand]. pose proof (half_lt h ltac:(lia)) as Hhh. split.
  - intros j Hj Hjc Hjc2. destruct (decide (j = h)) as [->|Hjh].
    { intros y z. rewrite item_upd_eq, item_upd_ne by lia. intros [= <-] Hz.
      apply (Hgrand ltac:(lia) c); [done|lia|done|done]. }
    destruct (decide (j / 2 = h)) as [E|E].
    { intros y z. rewrite E, item_upd_eq, item_upd_ne by lia. intros Hy [= <-]. apply (Hmax j); [done|lia|done]. }
    apply edge_upd; [lia|done|done|]. by apply Hedge.
  - intros _ j y z Hjc Hjn. rewrite Hch, item_upd_eq by lia. apply children in Hjc as Hjc'.
    rewrite item_upd_ne by lia. intros Hy [= <-]. apply (Hedge j); [lia|lia|lia|done|by rewrite Hjc].
Qed.

Lemma select_down_spec n fuel : forall a h,
  1 <= h -> n <= length a -> n < h + fuel -> 1 <= fuel -> (h <= n \/ h = 1) ->
  exists a' h', select_down compar fuel a n h = Some (a', h') /\ 1 <= h' /\ n < h' * 2 /\ (h' <= n \/ h' = 1) /\
    length a' = length a /\
    (forall k, h <= length a -> permuted (n `max` 1) (upd a h k) (upd a' h' k)) /\
    (Comparison compar -> holed n h a -> holed n h' a').
Proof.
  induction fuel as [|fuel IH]; intros a h Hh Hn Hf Hf1 Hhn; [lia|]. cbn [select_down].
  destruct (h * 2 <=? n) eqn:E.
  - apply Nat.leb_le in E. destruct (larger_child_spec a n h) as (c & x & -> & Hch & Hc & Hx & Hmax); [done..|].
    cbn [mbind option_bind]. rewrite put_Some by lia. cbn [mbind option_bind].
    destruct (IH (upd a h x) c) as (a' & h' & -> & H1 & H2 & H3 & Hl & Hp & Ho); [lia|rewrite length_upd; lia|lia|lia|lia|].
    exists a', h'. split; [done|]. split; [done|]. split; [done|]. split; [done|].
    split; [by rewrite Hl, length_upd|]. split.
    + intros k Hk. apply (permuted_trans _ _ (upd (upd a h x) c k)).
      * split; [by apply upd_move; [lia|lia|]|by rewrite !drop_upd by lia].
      * apply Hp. rewrite length_upd. lia.
    + intros HC Hhole. apply Ho; [done|]. apply hole_down; try done. by apply Hmax.
  - apply Nat.leb_gt in E. exists a, h. do 2 (split; [done|]). split; [lia|]. do 2 (split; [done|]). by split.
Qed.

(** The hole is filled. *)
Lemma hole_fill n h a k :
  1 <= h <= length a -> holed n h a ->
  (forall j x, j / 2 = h -> 2 <= j <= n -> item a j = Some x -> (compar x k <= 0)%Z) ->
  (forall y, 2 <= h -> item a (h / 2) = Some y -> (compar k y <= 0)%Z) ->
  heap_from 1 n (upd a h k).
Proof.
  intros Hh [Hedge _] Hbelow Habove j Hj _. pose proof (half_lt j ltac:(lia)) as Hjj.
  destruct (decide (j = h)) as [->|Hjh].
  { intros y z. rewrite item_upd_eq, item_upd_ne by lia. intros [= <-] Hz. apply Habove; [lia|done]. }
  destruct (decide (j / 2 = h)) as [E|E]; [|apply edge_upd; [lia|done|done|by apply Hedge]].
  intros y z. rewrite E, item_upd_eq, item_upd_ne by lia. intros Hy [= <-]. by apply (Hbelow j).
Qed.

(** The parent of the hole, which is not above [k], moves into it. *)
Lemma hole_up n h a k p :
  Comparison compar -> 2 <= h <= n -> n <= length a -> item a (h / 2) = Some p -> (compar p k <= 0)%Z ->
  holed n h a ->
  holed n (h / 2) (upd a h p) /\
  (forall j x, j / 2 = h / 2 -> 2 <= j <= n -> item (upd a h p) j = Some x -> (compar x k <= 0)%Z).
Proof.
  intros HC Hh Hn Hp Hpk [Hedge Hgrand].
  assert (1 <= h / 2 < h) as Hhh by (split; [apply Nat.div_le_lower_bound; lia|apply half_lt; lia]).
  assert (Hsib : forall j x, j / 2 = h / 2 -> 2 <= j <= n -> item (upd a h p) j = Some x -> (compar x p <= 0)%Z).
  { intros j x Hj Hjn. destruct (decide (j = h)) as [->|Hjh].
    - rewrite item_upd_eq by lia. intros [= <-]. by apply cmp_refl.
    - rewrite item_upd_ne by lia. intros Hx. apply (Hedge j); [done|done|lia|done|by rewrite Hj]. }
  split; [split|].
  - intros j Hj Hjp Hjp2. destruct (decide (j / 2 = h)) as [E|E].
    + intros y z. rewrite E, item_upd_eq, item_upd_ne by (try lia; apply children in E; lia).
      intros Hy [= <-]. apply (Hgrand ltac:(lia) j); [done|lia|done|done].
    + apply edge_upd; [lia|intros ->; done|done|]. apply Hedge; [done|intros ->; done|done].
  - intros Hp2 j y z Hj Hjn Hy. pose proof (half_lt (h / 2) ltac:(lia)). rewrite item_upd_ne by lia. intros Hz.
    apply (cmp_trans y p).
    + apply (Hsib j); [done|apply children in Hj; lia|done].
    + apply (Hedge (h / 2)); [lia|lia|lia|done|done].
  - intros j x Hj Hjn Hx. apply (cmp_trans x p); [by apply (Hsib j)|done].
Qed.

Lemma select_up_spec n fuel : forall a k h,
  1 <= h -> n <= length a -> 1 <= length a -> h < fuel -> (h <= n \/ h = 1) ->
  exists a', select_up compar fuel a k h = Some a' /\ permuted (n `max` 1) (upd a h k) a' /\
    (Comparison compar -> holed n h a ->
     (forall j x, j / 2 = h -> 2 <= j <= n -> item a j = Some x -> (compar x k <= 0)%Z) -> heap_from 1 n a').
Proof.
  induction fuel as [|fuel IH]; intros a k h Hh Hn Hn1 Hf Hhn; [lia|]. cbn [select_up].
  destruct (h =? 1) eqn:E1.
  { apply Nat.eqb_eq in E1 as ->. rewrite put_Some by lia. eexists. split; [done|]. split; [done|].
    intros HC Hhole Hb. apply hole_fill; try done; lia. }
  apply Nat.eqb_neq in E1.
  assert (1 <= h / 2 < h) as Hhh by (split; [apply Nat.div_le_lower_bound; lia|apply half_lt; lia]).
  destruct (item_Some a (h / 2)) as [p Hp]; [lia|]. rewrite Hp. cbn [mbind option_bind].
  destruct (compar k p <? 0)%Z eqn:Ec.
  - rewrite put_Some by lia. eexists. split; [done|]. split; [done|].
    intros HC Hhole Hb. apply hole_fill; try done; [lia|]. intros y _ Hy. simplify_eq. lia.
  - rewrite put_Some by lia. cbn [mbind option_bind].
    destruct (IH (upd a h p) k (h / 2)) as (a' & -> & Hp' & Ho); [lia|rewrite length_upd; lia..|lia|lia|].
    exists a'. split; [done|]. split.
    + apply (permuted_trans _ _ (upd (upd a h p) (h / 2) k)); [|done].
      split; [by apply upd_move; [lia|lia|]|by rewrite !drop_upd by lia].
    + intros HC Hhole Hb. destruct (hole_up n h a k p) as [H1 H2]; try done; [lia|apply cmp_ge; [done|lia]|].
      by apply Ho.
Qed.

Lemma SELECT_spec n a k :
  n <= length a -> 1 <= length a ->
  exists a', SELECT compar a n k = Some a' /\ permuted (n `max` 1) (upd a 1 k) a' /\
    (Comparison compar -> heap_from 2 n a -> heap_from 1 n a').
Proof.
  intros Hn Hn1. unfold SELECT.
  destruct (select_down_spec n (S n) a 1) as (a1 & h & -> & H1 & H2 & H3 & Hl & Hp & Ho); [lia..|].
  cbn [mbind option_bind].
  destruct (select_up_spec n (S h) a1 k h) as (a' & -> & Hp' & Ho'); [lia|rewrite Hl; lia..|lia|lia|].
  exists a'. split; [done|]. split; [apply (permuted_trans _ _ (upd a1 h k)); [by apply Hp|done]|].
  intros HC Hh. apply Ho'; [done|apply Ho; [done|]|].
  - split; [|lia]. intros j Hj Hj1 Hj2. apply Hh; [done|].
    assert (1 <= j / 2) by (apply Nat.div_le_lower_bound; lia). lia.
  - intros j x Hj Hjn. apply children in Hj. lia.
Qed.

Lemma heap_root n a x top i :
  Comparison compar -> heap_from 1 n a -> n <= length a -> item a 1 = Some top -> 1 <= i <= n -> item a i = Some x ->
  (compar x top <= 0)%Z.
Proof.
  intros HC Hh Hn Htop. revert x. induction (lt_wf i) as [i _ IH]. intros x Hi Hx.
  destruct (decide (i = 1)) as [->|Hne]; [simplify_eq; by apply cmp_refl|].
  assert (1 <= i / 2 < i) as Hhi by (split; [apply Nat.div_le_lower_bound; lia|apply half_lt; lia]).
  destruct (item_Some a (i / 2)) as [p Hp]; [lia|]. apply (cmp_trans x p).
  - apply (Hh i); [lia|lia|done|done].
  - apply (IH (i / 2)); [lia|lia|done].
Qed.

(** The first [m] items are a heap, and the others are sorted and not below them. *)
Definition partly_sorted m a : Prop :=
  heap_from 1 m a /\ Ordered compar (drop m a) /\ (forall x y, x ∈ take m a -> y ∈ drop m a -> (compar x y <= 0)%Z).

(** The largest item has taken its place at [S m]. *)
Lemma place_top m a a2 top :
  Comparison compar -> S m <= length a -> item a 1 = Some top -> partly_sorted (S m) a -> heap_from 1 m a2 ->
  a2 ≡ₚ a -> drop m a2 = top :: drop (S m) a -> partly_sorted m a2.
Proof.
  intros HC Hm Htop (Hheap & Hsort & Hbelow) Hheap2 Hp Hd.
  assert (Htake : forall x, x ∈ take m a2 -> x ∈ take (S m) a).
  { intros x Hx. rewrite <- (take_drop m a2), <- (take_drop (S m) a), Hd in Hp.
    rewrite cons_middle, (app_assoc (take m a2)) in Hp. apply Permutation_app_inv_r in Hp.
    rewrite <- Hp. apply elem_of_app. by left. }
  assert (Hroot : forall x, x ∈ take (S m) a -> (compar x top <= 0)%Z).
  { intros x Hx. apply elem_of_take in Hx as (i & Hi & Him).
    apply (heap_root (S m) a x top (S i)); try done. lia. }
  assert (Htop_in : top ∈ take (S m) a).
  { apply elem_of_take. exists 0. split; [by rewrite item_lookup in Htop|lia]. }
  split; [done|]. rewrite Hd. split.
  - constructor; [done|]. apply Forall_forall. intros y Hy. by apply Hbelow.
  - intros x y Hx Hy. apply elem_of_cons in Hy as [->|Hy]; [by apply Hroot, Htake|]. apply Hbelow; [by apply Htake|done].
Qed.

Lemma select_loop_spec m : forall a,
  m <= length a ->
  exists a', select_loop compar m a = Some a' /\ a' ≡ₚ a /\ (Comparison compar -> partly_sorted m a -> Ordered compar a').
Proof.
  induction m as [|m IH]; intros a Hm; cbn [select_loop].
  { exists a. split; [done|]. split; [done|]. intros _ (_ & H & _). done. }
  destruct (S m <=? 1) eqn:E.
  { apply Nat.leb_le in E. assert (m = 0) as -> by lia. exists a. split; [done|]. split; [done|].
    intros _ (_ & H1 & H2). rewrite <- (take_drop 1 a). apply Ordered_app; [|done|done].
    destruct a; cbn; repeat constructor. }
  apply Nat.leb_gt in E. destruct (item_Some a (S m)) as [k Hk]; [lia|]. destruct (item_Some a 1) as [top Htop]; [lia|].
  rewrite Hk, Htop. cbn [mbind option_bind]. rewrite put_Some by lia. cbn [mbind option_bind].
  destruct (SELECT_spec m (upd a (S m) top) k) as (a2 & -> & [Hp Hd] & Ho); [rewrite length_upd; lia..|].
  rewrite Nat.max_l in Hd by lia. rewrite drop_upd in Hd by lia.
  assert (Hpa : a2 ≡ₚ a) by (rewrite Hp, upd_move by (done || lia); by rewrite upd_id).
  cbn [mbind option_bind]. destruct (IH a2) as (a' & -> & Hp' & Ho'); [rewrite Hpa; lia|].
  exists a'. split; [done|]. split; [by rewrite Hp'|]. intros HC Hps. apply Ho'; [done|].
  apply (place_top m a a2 top); try done.
  - apply Ho; [done|]. intros j Hj Hj2. apply edge_upd; [lia|lia|pose proof (half_lt j ltac:(lia)); lia|].
    destruct Hps as [Hh _]. apply Hh; lia.
  - rewrite Hd. unfold upd. replace (S m - 1) with m by lia.
    rewrite (drop_S _ top m) by (apply list_lookup_insert_eq; lia). by rewrite drop_insert_lt by lia.
Qed.

Lemma heapsort_r_spec malloc a size :
  exists r a', heapsort_r compar malloc a size = Some (r, a') /\
    match r with
    | HeapDone => sorts compar a a'
    | HeapEinval => size = 0%Z /\ a' = a
    | HeapEnomem => malloc size = false /\ a' = a
    end.
Proof.
  unfold heapsort_r. destruct (length a <=? 1) eqn:E.
  { apply Nat.leb_le in E. exists HeapDone, a. split; [done|]. split; [done|]. intros _.
    destruct a as [|x [|y a]]; [..|cbn in E; lia]; repeat constructor. }
  destruct (size =? 0)%Z eqn:Ez; [apply Z.eqb_eq in Ez; by eexists _, _|].
  destruct (malloc size) eqn:Em; cbn [negb]; [|by eexists _, _].
  destruct (create_loop_spec (length a) (length a / 2) a) as (a1 & -> & [H1 _] & Ho1); [lia|]. cbn [mbind option_bind].
  destruct (select_loop_spec (length a) a1) as (a2 & -> & H2 & Ho2); [by rewrite H1|].
  exists HeapDone, a2. split; [done|]. split; [by rewrite H2|]. intros HC. apply Ho2; [done|].
  assert (Hd : drop (length a) a1 = []) by (apply drop_ge; by rewrite H1).
  unfold partly_sorted. rewrite Hd. split; [|split; [constructor|by intros x y _ ?%elem_of_nil]].
  apply Ho1; [done|]. intros j Hj Hlj. pose proof (Nat.Div0.div_le_mono j (length a) 2 ltac:(lia)). lia.
Qed.
End HeapLemmas.

(** Heap sort as a sorting function that fails when there is no memory for an item. *)
#[global] Instance heapsort_sorter {A} (compar : A -> A -> Z) malloc size :
  Sorter compar (fun a => '(r, a') ← heapsort_r compar malloc a size;
                          Some (if r is HeapDone then true else false, a')).
Proof.
  intros a. destruct (heapsort_r_spec compar malloc a size) as (r & a' & -> & Hr). cbn [mbind option_bind].
  eexists _, _. split; [done|]. by destruct r; [|destruct Hr..].
Qed.

(** heap sort ends and stays inside of its array, whatever the callback returns, and permutes
    the items; with a callback that compares, the result is sorted. It fails only for items without
    a size and when there is no memory for one item, and then leaves the array alone. *)
Theorem heapsort_sorts {A} (malloc : Z -> bool) (a : list A) (size : Z) (compar : A -> A -> Z) :
  exists r a', heapsort malloc a size compar = Some (r, a') /\
    match r with
    | HeapDone => a' ≡ₚ a /\ (Comparison compar -> Ordered compar a')
    | HeapEinval => size = 0 /\ a' = a
    | HeapEnomem => malloc size = false /\ a' = a
    end.
Proof. apply heapsort_r_spec. Qed.
