(* ===== verification/Qsort.v ===== *)
(** Quick sort with a limit on its depth: libc/mem/qsort.c, which falls back to the heap sort of
    [Heapsort]. *)

From S2P Require Import Prelude Sorting Heapsort.

(* ------------------------------------------------------------------ *)
(** ** Definitions *)

(** The array is a list of items of [es] bytes, with [es] not 0, and pointers into it are indices.
    [swap] of the source moves [es] bytes in units that depend on their alignment. *)
Section Qsort.
Context {A : Type} (cmp : A -> A -> Z).
Implicit Types a : list A.
Open Scope nat_scope.

Definition CMP a (i j : nat) : option Z := x ← rd a i; y ← rd a j; Some (cmp x y).

(** [for (pl = pm; pl > a && CMP(pl - es, pl) > 0; pl -= es) swap(pl, pl - es);] *)
Fixpoint insert_down (pl : nat) a : option (list A) :=
  match pl with
  | O => Some a
  | S pl' =>
      c ← CMP a pl' pl;
      if (c >? 0)%Z then a ← swap a pl pl'; insert_down pl' a else Some a
  end.

(** [for (pm = a + es; pm < a + n * es; pm += es)], with [todo] items left. *)
Fixpoint insertion_loop (todo pm : nat) a : option (list A) :=
  match todo with
  | O => Some a
  | S todo => a ← insert_down pm a; insertion_loop todo (S pm) a
  end.

Definition med3 a (i j k : nat) : option nat :=
  ij ← CMP a i j;
  if (ij <? 0)%Z then
    jk ← CMP a j k;
    if (jk <? 0)%Z then Some j else ik ← CMP a i k; Some (if (ik <? 0)%Z then k else i)
  else
    jk ← CMP a j k;
    if (jk >? 0)%Z then Some j else ik ← CMP a i k; Some (if (ik <? 0)%Z then i else k).

(** The choice of [pm]. *)
Definition pivot a : option nat :=
  let n := length a in
  let pm := n / 2 in
  if 7 <? n then
    let pl := 0 in
    let pn := n - 1 in
    '(pl, pm, pn) ←
      (if 40 <? n then
         let s := n / 8 in
         pl ← med3 a pl (pl + s) (pl + 2 * s);
         pm ← med3 a (pm - s) pm (pm + s);
         pn ← med3 a (pn - 2 * s) (pn - s) pn;
         Some (pl, pm, pn)
       else Some (pl, pm, pn));
    med3 a pl pm pn
  else Some pm.

(** [while (pb <= pc && (cmp_result = CMP(pb, a)) <= 0)]; [todo] is [pc + 1 - pb]. *)
Fixpoint scan_up (todo : nat) a (pa pb : nat) : option (list A * nat * nat) :=
  match todo with
  | O => Some (a, pa, pb)
  | S todo =>
      c ← CMP a pb 0;
      if (c <=? 0)%Z then
        if (c =? 0)%Z then a ← swap a pa pb; scan_up todo a (S pa) (S pb)
        else scan_up todo a pa (S pb)
      else Some (a, pa, pb)
  end.

(** [while (pb <= pc && (cmp_result = CMP(pc, a)) >= 0)]. *)
Fixpoint scan_down (todo : nat) a (pc pd : nat) : option (list A * nat * nat) :=
  match todo with
  | O => Some (a, pc, pd)
  | S todo =>
      c ← CMP a pc 0;
      if (c >=? 0)%Z then
        if (c =? 0)%Z then a ← swap a pc pd; scan_down todo a (pc - 1) (pd - 1)
        else scan_down todo a (pc - 1) pd
      else Some (a, pc, pd)
  end.

(** The loop [for (;;)] of the partition. *)
Fixpoint partition (fuel : nat) a (pa pb pc pd : nat) : option (list A * nat * nat * nat * nat) :=
  match fuel with
  | O => None
  | S fuel =>
      '(a, pa, pb) ← scan_up (S pc - pb) a pa pb;
      '(a, pc, pd) ← scan_down (S pc - pb) a pc pd;
      if pc <? pb then Some (a, pa, pb, pc, pd)
      else a ← swap a pb pc; partition fuel a pa (S pb) (pc - 1) pd
  end.

(** [vecswap(a + i, a + j, r)]: two blocks of [r] items. *)
Fixpoint vecswap a (i j r : nat) : option (list A) :=
  match r with
  | O => Some a
  | S r => a ← swap a i j; vecswap a (S i) (S j) r
  end.

Section Introsort.
(** [heapsort_r(a, n, es, ...)]: whether it returned 0, and the array. *)
Context (heapsort : list A -> option (bool * list A)).

Fixpoint introsort (fuel : nat) a (maxdepth : Z) : option (list A) :=
  match fuel with
  | O => None
  | S fuel =>
      let n := length a in
      if n <? 7 then insertion_loop (n - 1) 1 a
      else
        '(ok, a) ← (if (maxdepth =? 0)%Z then heapsort a else Some (false, a));
        if ok : bool then Some a
        else
          let maxdepth := u64 (maxdepth - 1) in
          pm ← pivot a;
          a ← swap a 0 pm;
          '(a, pa, pb, pc, pd) ← partition n a 1 1 (n - 1) (n - 1);
          let r := pa `min` (pb - pa) in
          a ← vecswap a 0 (pb - r) r;
          let r := (pd - pc) `min` (n - 1 - pd) in
          a ← vecswap a pb (n - r) r;
          let r := pb - pa in
          let s := pd - pc in
          let sort_left a := l ← introsort fuel (take r a) maxdepth; Some (l ++ drop r a) in
          let sort_right a := l ← introsort fuel (drop (n - s) a) maxdepth; Some (take (n - s) a ++ l) in
          if r <? s then
            if 1 <? s then a ← (if 1 <? r then sort_left a else Some a); sort_right a else Some a
          else
            if 1 <? r then a ← (if 1 <? s then sort_right a else Some a); sort_left a else Some a
  end.
End Introsort.

(** [for (i = n; i > 0; i >>= 1) maxdepth++;] *)
Fixpoint depth_loop (fuel : nat) (i maxdepth : Z) : option Z :=
  match fuel with
  | O => None
  | S fuel => if (i >? 0)%Z then depth_loop fuel (Z.shiftr i 1) (maxdepth + 1) else Some maxdepth
  end.

Definition qsort_r (malloc : Z -> bool) a (es : Z) : option (list A) :=
  maxdepth ← depth_loop 65 (Z.of_nat (length a)) 0;
  introsort
    (fun a => '(r, a') ← heapsort_r cmp malloc a es; Some (if r is HeapDone then true else false, a'))
    (S (length a)) a (u64 (maxdepth * 2)).
End Qsort.

(** [qsort]: the callback takes no third argument. *)
Definition qsort {A} (malloc : Z -> bool) (a : list A) (es : Z) (cmp : A -> A -> Z) := qsort_r cmp malloc a es.

Example qsort_1 :
  qsort (fun _ => true) [5; 2; 9; 9; 1; -3; 7; 0; 4; 4; 4; 2; 6; 8; 9; 3; 1; 0; 5; 4] 4 (fun x y => x - y)
    = Some [-3; 0; 0; 1; 1; 2; 2; 3; 4; 4; 4; 4; 5; 5; 6; 7; 8; 9; 9; 9] /\
  qsort (fun _ => true) (map (fun i => (i * 37) mod 101) (seqZ 0 101)) 8 (fun x y => x - y) = Some (seqZ 0 101).
Proof. vm_compute. repeat split. Qed.

(* ------------------------------------------------------------------ *)
(** ** Exchanges in an array that is given in parts *)

Section SwapLemmas.
Context {A : Type}.
Implicit Types a l m r p q : list A.
Open Scope nat_scope.

Lemma lookup_mid l x r : (l ++ x :: r) !! length l = Some x.
Proof. by apply list_lookup_middle. Qed.

Lemma insert_mid l x y r : <[length l := y]> (l ++ x :: r) = l ++ y :: r.
Proof. rewrite insert_app_r_alt, Nat.sub_diag by done. done. Qed.

Lemma swap_parts l x m y r i j :
  i = length l -> j = length l + S (length m) ->
  swap (l ++ x :: m ++ y :: r) i j = Some (l ++ y :: m ++ x :: r) /\
  swap (l ++ x :: m ++ y :: r) j i = Some (l ++ y :: m ++ x :: r).
Proof.
  intros -> ->.
  assert (Hi : (l ++ x :: m ++ y :: r) !! length l = Some x) by apply lookup_mid.
  assert (Hj : forall z, (l ++ z :: m ++ y :: r) !! (length l + S (length m)) = Some y).
  { intros z. rewrite lookup_app_r by lia. replace (length l + S (length m) - length l) with (S (length m)) by lia.
    apply lookup_mid. }
  assert (Ej : forall z w, <[length l + S (length m) := w]> (l ++ z :: m ++ y :: r) = l ++ z :: m ++ w :: r).
  { intros z w. rewrite insert_app_r. f_equal. cbn. f_equal. apply insert_mid. }
  assert (Hlen : length l + S (length m) < length (l ++ x :: m ++ y :: r)) by (rewrite length_app; cbn; rewrite length_app; cbn; lia).
  unfold swap, rd. rewrite Hi, Hj. cbn [mbind option_bind]. split.
  - rewrite wr_Some by lia. cbn [mbind option_bind]. rewrite insert_mid, wr_Some; [by rewrite Ej|].
    by rewrite !length_app in *; cbn in *; rewrite !length_app in *; cbn in *; lia.
  - rewrite wr_Some by lia. cbn [mbind option_bind]. rewrite Ej, wr_Some; [by rewrite insert_mid|].
    rewrite length_app. cbn. lia.
Qed.

Lemma swap_same l x r i : i = length l -> swap (l ++ x :: r) i i = Some (l ++ x :: r).
Proof.
  intros ->. unfold swap, rd. rewrite lookup_mid. cbn [mbind option_bind].
  assert (Hl : length l < length (l ++ x :: r)) by (rewrite length_app; cbn; lia).
  rewrite wr_Some by done. cbn [mbind option_bind]. rewrite insert_mid. by rewrite wr_Some, insert_mid.
Qed.

(** Two blocks of the same length change places. *)
Lemma vecswap_parts p : forall l m q r i j,
  length p = length q -> i = length l -> j = length l + length p + length m ->
  vecswap (l ++ p ++ m ++ q ++ r) i j (length p) = Some (l ++ q ++ m ++ p ++ r).
Proof.
  induction p as [|x p IH]; intros l m [|y q] r i j Hlen -> ->; try done. cbn in Hlen.
  cbn [length vecswap app].
  pose proof (swap_parts l x (p ++ m) y (q ++ r) (length l) (length l + S (length p) + length m)) as [Hs _];
    [done|rewrite length_app; lia|].
  rewrite <- !app_assoc in Hs. cbn [app] in Hs. rewrite Hs. cbn [mbind option_bind].
  specialize (IH (l ++ [y]) (m ++ [x]) q r (S (length l)) (S (length l + S (length p) + length m))).
  rewrite <- !app_assoc in IH. cbn [app] in IH. rewrite IH; [by rewrite <- ?app_assoc|lia|..]; rewrite !length_app; cbn; lia.
Qed.

(** The shorter one of two adjacent parts [p] and [q] changes places with the far end of the
    other one. *)
Lemma vecswap_rotate l p q r k i j :
  k = length p `min` length q -> i = length l -> j = length l + length p + length q - k ->
  exists p' q', vecswap (l ++ p ++ q ++ r) i j k = Some (l ++ q' ++ p' ++ r) /\ p' ≡ₚ p /\ q' ≡ₚ q.
Proof.
  intros -> -> ->. destruct (le_lt_dec (length p) (length q)) as [H|H].
  - rewrite Nat.min_l by done. exists p, (drop (length q - length p) q ++ take (length q - length p) q).
    split; [|split; [done|by rewrite Permutation_app_comm, take_drop]].
    rewrite <- (take_drop (length q - length p) q) at 1. rewrite <- !app_assoc.
    rewrite (vecswap_parts p); [by rewrite <- ?app_assoc|rewrite length_drop; lia|done|rewrite length_take; lia].
  - rewrite Nat.min_r by lia. exists (drop (length q) p ++ take (length q) p), q.
    split; [|split; [by rewrite Permutation_app_comm, take_drop|done]].
    rewrite <- (take_drop (length q) p) at 1. rewrite <- !app_assoc.
    pose proof (vecswap_parts (take (length q) p) l (drop (length q) p) q r (length l)
                  (length l + length p + length q - length q)) as Hv.
    rewrite length_take, length_drop, Nat.min_l in Hv by lia. apply Hv; lia.
Qed.
End SwapLemmas.

(* ------------------------------------------------------------------ *)
(** ** Insertion sort *)

Section QsortLemmas.
Context {A : Type} (cmp : A -> A -> Z).
Implicit Types a l r : list A.
Open Scope nat_scope.

Lemma CMP_Some a i j x y : a !! i = Some x -> a !! j = Some y -> CMP cmp a i j = Some (cmp x y).
Proof. intros Hx Hy. unfold CMP, rd. by rewrite Hx, Hy. Qed.

(** The item [x] goes down to its place. *)
Lemma insert_down_spec l : forall x r,
  exists l1 l2, l = l1 ++ l2 /\ insert_down cmp (length l) (l ++ x :: r) = Some (l1 ++ x :: l2 ++ r) /\
    Forall (fun y => 0 < cmp y x)%Z l2 /\ (forall l1' z, l1 = l1' ++ [z] -> (cmp z x <= 0)%Z).
Proof.
  induction l as [|y l IH] using rev_ind; intros x r.
  { exists [], []. repeat split; try done. by intros [|]. }
  rewrite length_app, Nat.add_1_r. cbn [insert_down]. rewrite <- app_assoc. cbn [app].
  erewrite CMP_Some; [|apply lookup_mid|]; cycle 1.
  { rewrite lookup_app_r by lia. replace (S (length l) - length l) with 1 by lia. done. }
  cbn [mbind option_bind]. destruct (cmp y x >? 0)%Z eqn:E.
  - pose proof (swap_parts l y [] x r (length l) (S (length l))) as [_ Hs]; [done|cbn; lia|]. cbn [app] in Hs. rewrite Hs.
    cbn [mbind option_bind]. destruct (IH x (y :: r)) as (l1 & l2 & -> & -> & Hf & Hl).
    exists l1, (l2 ++ [y]). rewrite <- !app_assoc. repeat split; try done.
    apply Forall_app. split; [done|]. repeat constructor. lia.
  - exists (l ++ [y]), []. rewrite app_nil_r, <- app_assoc. repeat split; try done.
    intros l1' z [_ ->]%app_inj_tail. lia.
Qed.

Lemma insert_down_Ordered l1 l2 x :
  Comparison cmp -> Ordered cmp (l1 ++ l2) -> Forall (fun y => 0 < cmp y x)%Z l2 ->
  (forall l1' z, l1 = l1' ++ [z] -> (cmp z x <= 0)%Z) -> Ordered cmp (l1 ++ x :: l2).
Proof.
  intros HC Ho Hf Hl. apply SSorted_app_iff in Ho as (H1 & H2 & H12).
  assert (Hx : forall y, y ∈ l2 -> (cmp x y <= 0)%Z).
  { intros y Hy. rewrite Forall_forall in Hf. pose proof (cmp_gt cmp y x (Hf y Hy)). lia. }
  apply Ordered_app; [done|constructor; [done|by apply Forall_forall]|].
  intros y z Hy Hz. apply elem_of_cons in Hz as [->|Hz]; [|by apply H12].
  destruct l1 as [|w l1 _] using rev_ind; [by apply elem_of_nil in Hy|].
  specialize (Hl l1 w eq_refl). apply elem_of_app in Hy as [Hy|Hy].
  - apply (cmp_trans y w); [|done]. apply SSorted_app_iff in H1 as (_ & _ & H1). apply H1; [done|]. by apply list_elem_of_singleton.
  - apply list_elem_of_singleton in Hy as ->. done.
Qed.

Lemma insertion_loop_spec r : forall l,
  exists a', insertion_loop cmp (length r) (length l) (l ++ r) = Some a' /\ a' ≡ₚ l ++ r /\
    (Comparison cmp -> Ordered cmp l -> Ordered cmp a').
Proof.
  induction r as [|x r IH]; intros l; cbn [insertion_loop length].
  { exists (l ++ []). rewrite app_nil_r. repeat split; done. }
  destruct (insert_down_spec l x r) as (l1 & l2 & -> & -> & Hf & Hl). cbn [mbind option_bind].
  destruct (IH (l1 ++ x :: l2)) as (a' & Ha & Hp & Ho).
  replace (length (l1 ++ x :: l2)) with (S (length (l1 ++ l2))) in Ha by (rewrite !length_app; cbn; lia).
  rewrite <- app_assoc in Ha. cbn [app] in Ha. rewrite Ha. exists a'. split; [done|]. split.
  - rewrite Hp. rewrite <- !app_assoc. cbn [app]. apply Permutation_app_head, Permutation_middle.
  - intros HC Hs. by apply Ho, insert_down_Ordered.
Qed.

(* ------------------------------------------------------------------ *)
(** ** The partition *)

Section Partition.
(** The pivot, which stays in the first item. *)
Context (v : A).

Definition equal : list A -> Prop := Forall (fun x => cmp x v = 0%Z).
Definition less : list A -> Prop := Forall (fun x => cmp x v < 0)%Z.
Definition greater : list A -> Prop := Forall (fun x => 0 < cmp x v)%Z.

Lemma lookup_part l x r i : i = S (length l) -> (v :: l ++ x :: r) !! i = Some x.
Proof. intros ->. apply lookup_mid. Qed.

(** [e] are equal items, [l] less ones, and [u] is not looked at yet. *)
Lemma scan_up_spec u : forall e l t pa pb,
  equal e -> less l -> pa = S (length e) -> pb = pa + length l ->
  exists e' l' u', scan_up cmp (length u) (v :: e ++ l ++ u ++ t) pa pb =
      Some (v :: e' ++ l' ++ u' ++ t, S (length e'), S (length e') + length l') /\
    equal e' /\ less l' /\ e' ++ l' ++ u' ≡ₚ e ++ l ++ u /\ length u' <= length u /\
    (forall x w, u' = x :: w -> (0 < cmp x v)%Z).
Proof.
  induction u as [|x u IH]; intros e l t pa pb He Hl -> ->; cbn [scan_up length].
  { exists e, l, []. by repeat split. }
  erewrite (CMP_Some _ _ 0 x v); [|rewrite app_assoc; apply lookup_part; rewrite length_app; lia|done].
  cbn [mbind option_bind]. destruct (cmp x v <=? 0)%Z eqn:E1; cycle 1.
  { exists e, l, (x :: u). repeat split; try done. intros y w [= <- <-]. lia. }
  destruct (cmp x v =? 0)%Z eqn:E2.
  - apply Z.eqb_eq in E2. destruct l as [|y l].
    + pose proof (swap_same (v :: e) x (u ++ t) (S (length e)) eq_refl) as Hs. cbn [length app] in Hs |- *.
      rewrite Nat.add_0_r, Hs. clear Hs. cbn [mbind option_bind].
      destruct (IH (e ++ [x]) [] t (S (S (length e))) (S (S (length e)))) as (e' & l' & u' & Hs & H); [|done|rewrite ?length_app; cbn; lia..|].
      * apply Forall_app. by repeat constructor.
      * rewrite <- !app_assoc in Hs, H. cbn [app] in Hs, H. rewrite Hs. exists e', l', u'.
        destruct H as (? & ? & ? & ? & ?). repeat split; try done. lia.
    + pose proof (swap_parts (v :: e) y l x (u ++ t) (S (length e)) (S (length e) + length (y :: l))) as [Hs _];
        [done|cbn; lia|]. cbn [app] in Hs |- *. rewrite Hs. cbn [mbind option_bind].
      apply Forall_cons in Hl as [Hy Hl].
      destruct (IH (e ++ [x]) (l ++ [y]) t (S (S (length e))) (S (S (length e) + length (y :: l)))) as (e' & l' & u' & Hs' & H1 & H2 & H3 & H4 & H5);
        [apply Forall_app; by repeat constructor|apply Forall_app; by repeat constructor|rewrite length_app; cbn; lia|rewrite !length_app; cbn; lia|].
      rewrite <- !app_assoc in Hs'. cbn [app] in Hs'. rewrite Hs'. exists e', l', u'. split; [done|]. split; [done|]. split; [done|]. split; [|split; [lia|done]].
      rewrite H3. rewrite <- !app_assoc. cbn [app]. apply Permutation_app_head.
      rewrite <- (Permutation_middle l u y), <- (Permutation_middle l u x). constructor.
  - apply Z.eqb_neq in E2.
    destruct (IH e (l ++ [x]) t (S (length e)) (S (S (length e) + length l))) as (e' & l' & u' & Hs & H);
      [done|apply Forall_app; repeat constructor; [done|lia]|done|rewrite length_app; cbn; lia|].
    rewrite <- !app_assoc in Hs, H. cbn [app] in Hs, H |- *. rewrite Hs. exists e', l', u'.
        destruct H as (? & ? & ? & ? & ?). repeat split; try done. lia.
Qed.

(** [g] are greater items, [e] equal ones, and [u] is not looked at yet. *)
Lemma scan_down_spec u : forall s g e pc pd,
  equal e -> greater g -> pc = length s + length u -> pd = pc + length g ->
  exists u' w g' e', u = u' ++ w /\ scan_down cmp (length u) (v :: s ++ u ++ g ++ e) pc pd =
      Some (v :: s ++ u' ++ g' ++ e', length s + length u', length s + length u' + length g') /\
    equal e' /\ greater g' /\ u' ++ g' ++ e' ≡ₚ u ++ g ++ e /\ (forall x w, u' = w ++ [x] -> (cmp x v < 0)%Z).
Proof.
  induction u as [|x u IH] using rev_ind; intros s g e pc pd He Hg -> ->; cbn [scan_down length].
  { exists [], [], g, e. repeat split; try done. by intros x [|]. }
  rewrite length_app, Nat.add_1_r. cbn [scan_down].
  replace (length s + S (length u)) with (S (length (s ++ u))) by (rewrite length_app; lia).
  erewrite (CMP_Some _ _ 0 x v); [|rewrite <- !app_assoc, (app_assoc s); by apply lookup_part|done].
  cbn [mbind option_bind]. destruct (cmp x v >=? 0)%Z eqn:E1; cycle 1.
  { exists (u ++ [x]), [], g, e. rewrite !length_app. split; [by rewrite app_nil_r|]. repeat split; try done.
    - cbn. do 3 f_equal; lia.
    - intros y w [_ ->]%app_inj_tail. lia. }
  destruct (cmp x v =? 0)%Z eqn:E2.
  - apply Z.eqb_eq in E2. destruct g as [|y g _] using rev_ind.
    + pose proof (swap_same (v :: s ++ u) x e (S (length (s ++ u))) eq_refl) as Hs.
      cbn [length app] in Hs |- *. rewrite <- !app_assoc in Hs |- *. cbn [app] in Hs |- *.
      rewrite Nat.add_0_r, Hs. clear Hs. cbn [mbind option_bind].
      destruct (IH s [] (x :: e) (S (length (s ++ u)) - 1) (S (length (s ++ u)) - 1)) as (u' & w & g' & e' & -> & Hs & H);
        [by constructor|done|rewrite length_app; lia|cbn; lia|].
      cbn [app] in Hs, H. rewrite Hs. exists u', (w ++ [x]), g', e'. rewrite <- !app_assoc. split; [done|]. split; [done|].
      rewrite <- app_assoc in H. done.
    + apply Forall_app in Hg as [Hg Hy]. apply Forall_cons in Hy as [Hy _].
      pose proof (swap_parts (v :: s ++ u) x g y e (S (length (s ++ u))) (S (length (s ++ u)) + length (g ++ [y]))) as [Hs _];
        [done|cbn; rewrite !length_app; cbn; lia|].
      cbn [length app] in Hs. rewrite <- !app_assoc in Hs |- *. cbn [app] in Hs |- *. rewrite Hs. clear Hs. cbn [mbind option_bind].
      destruct (IH s (y :: g) (x :: e) (S (length (s ++ u)) - 1) (S (length (s ++ u)) + length (g ++ [y]) - 1)) as (u' & w & g' & e' & -> & Hs & H1 & H2 & H3 & H4);
        [by constructor|by constructor|rewrite length_app; lia|rewrite !length_app; cbn; lia|].
      cbn [app] in Hs, H3. rewrite Hs. exists u', (w ++ [x]), g', e'. rewrite <- !app_assoc. split; [done|].
      repeat split; try done. rewrite H3, <- !app_assoc. cbn [app]. do 2 apply Permutation_app_head.
      rewrite <- (Permutation_middle g e x), <- (Permutation_middle g e y). constructor.
  - apply Z.eqb_neq in E2.
    destruct (IH s (x :: g) e (S (length (s ++ u)) - 1) (S (length (s ++ u)) + length g)) as (u' & w & g' & e' & -> & Hs & H);
      [done|constructor; [lia|done]|rewrite length_app; lia|cbn; lia|].
    exists u', (w ++ [x]), g', e'. rewrite <- !app_assoc in Hs, H. repeat rewrite <- app_assoc.
    cbn [app] in Hs, H |- *. by rewrite Hs.
Qed.

Lemma partition_spec fuel : forall u e l g f pa pb pc pd,
  length u < fuel -> equal e -> less l -> greater g -> equal f ->
  pa = S (length e) -> pb = pa + length l -> S pc = pb + length u -> pd = pc + length g ->
  exists e' l' g' f', partition cmp fuel (v :: e ++ l ++ u ++ g ++ f) pa pb pc pd =
      Some (v :: e' ++ l' ++ g' ++ f', S (length e'), S (length e') + length l',
            length e' + length l', length e' + length l' + length g') /\
    equal e' /\ less l' /\ greater g' /\ equal f' /\ e' ++ l' ++ g' ++ f' ≡ₚ e ++ l ++ u ++ g ++ f.
Proof.
  induction fuel as [|fuel IH]; intros u e l g f pa pb pc pd Hfuel He Hl Hg Hf Hpa Hpb Hpc Hpd; [lia|].
  cbn [partition]. replace (S pc - pb) with (length u) by lia.
  destruct (scan_up_spec u e l (g ++ f) pa pb) as (e1 & l1 & u1 & -> & He1 & Hl1 & Hp1 & Hle & Hu1); [done..|].
  assert (Hlen : length (e1 ++ l1 ++ u1) = length (e ++ l ++ u)) by (by rewrite Hp1).
  rewrite !length_app in Hlen. cbn [mbind option_bind].
  destruct (scan_down_spec u1 (e1 ++ l1) g f pc pd) as (u2 & w & g2 & f2 & Hu & Hs & Hf2 & Hg2 & Hp2 & Hu2);
    [done|done|rewrite length_app; lia|done|].
  rewrite <- !app_assoc in Hs. replace (S pc - (S (length e1) + length l1)) with (length u1) by lia.
  rewrite Hs. clear Hs. cbn [mbind option_bind]. rewrite length_app.
  assert (Hperm : e1 ++ l1 ++ u2 ++ g2 ++ f2 ≡ₚ e ++ l ++ u ++ g ++ f).
  { rewrite Hp2. rewrite (app_assoc l1), (app_assoc e1), Hp1. by rewrite <- !app_assoc. }
  destruct (_ <? _) eqn:E.
  - apply Nat.ltb_lt in E. assert (u2 = []) as -> by (apply length_zero_iff_nil; lia).
    exists e1, l1, g2, f2. split; [do 3 f_equal; cbn; lia|]. by repeat split.
  - apply Nat.ltb_ge in E. destruct u2 as [|x u2]; [cbn in E; lia|].
    destruct u2 as [|y u2 _] using rev_ind.
    { specialize (Hu1 x w Hu). specialize (Hu2 x [] eq_refl). lia. }
    specialize (Hu1 x (u2 ++ [y] ++ w) ltac:(rewrite Hu; cbn; by rewrite <- app_assoc)).
    specialize (Hu2 y (x :: u2) eq_refl). cbn [length] in *. rewrite length_app in *. cbn [length] in *.
    pose proof (swap_parts (v :: e1 ++ l1) x u2 y (g2 ++ f2) (S (length e1) + length l1)
                  (length e1 + length l1 + S (length u2 + 1))) as [Hs _];
      [cbn; rewrite length_app; lia|cbn; rewrite length_app; lia|].
    cbn [app] in Hs |- *. repeat rewrite <- app_assoc in Hs. repeat rewrite <- app_assoc. cbn [app] in Hs |- *. rewrite Hs.
    clear Hs. cbn [mbind option_bind].
    assert (length u2 + 2 <= length u1) by (rewrite Hu; cbn; rewrite !length_app; cbn; lia).
    destruct (IH u2 e1 (l1 ++ [y]) (x :: g2) f2 (S (length e1)) (S (S (length e1) + length l1))
                (length e1 + length l1 + S (length u2 + 1) - 1) (length e1 + length l1 + S (length u2 + 1) + length g2))
      as (e' & l' & g' & f' & Hr & H1 & H2 & H3 & H4 & H5);
      [lia|done|apply Forall_app; split; [done|by apply Forall_singleton]|by constructor|done|done|rewrite ?length_app; cbn; lia..|].
    rewrite <- !app_assoc in Hr. cbn [app] in Hr. rewrite Hr. exists e', l', g', f'. split; [done|].
    repeat split; try done. rewrite H5, <- Hperm. rewrite <- !app_assoc. cbn [app]. do 2 apply Permutation_app_head.
    rewrite <- (Permutation_middle u2 (g2 ++ f2) x). rewrite <- app_assoc. cbn [app].
    rewrite <- (Permutation_middle u2 (g2 ++ f2) y). constructor.
Qed.
End Partition.

(** Every choice of the pivot is an item. *)
Lemma med3_lt a i j k n :
  i < n -> j < n -> k < n -> n <= length a -> exists m, med3 cmp a i j k = Some m /\ m < n.
Proof.
  intros Hi Hj Hk Hn. destruct (rd_Some a i) as [x Hx]; [lia|]. destruct (rd_Some a j) as [y Hy]; [lia|].
  destruct (rd_Some a k) as [z Hz]; [lia|]. unfold med3.
  rewrite (CMP_Some a i j x y), (CMP_Some a j k y z), (CMP_Some a i k x z) by done. cbn [mbind option_bind].
  repeat case_match; eauto.
Qed.

Lemma pivot_lt a : 7 <= length a -> exists m, pivot cmp a = Some m /\ m < length a.
Proof.
  intros Hn. unfold pivot.
  pose proof (Nat.div_mod_eq (length a) 2) as H2. pose proof (Nat.mod_upper_bound (length a) 2 ltac:(lia)).
  pose proof (Nat.div_mod_eq (length a) 8) as H8. pose proof (Nat.mod_upper_bound (length a) 8 ltac:(lia)).
  set (h := length a / 2) in *. set (s := length a / 8) in *. clearbody h s.
  destruct (7 <? length a); [|exists h; split; [done|lia]]. destruct (40 <? length a).
  - destruct (med3_lt a 0 (0 + s) (0 + 2 * s) (length a)) as (m1 & -> & H1); [lia..|].
    destruct (med3_lt a (h - s) h (h + s) (length a)) as (m2 & -> & H3); [lia..|].
    destruct (med3_lt a (length a - 1 - 2 * s) (length a - 1 - s) (length a - 1) (length a)) as (m3 & -> & H4); [lia..|].
    cbn [mbind option_bind]. by apply med3_lt.
  - cbn [mbind option_bind]. apply med3_lt; lia.
Qed.

(* ------------------------------------------------------------------ *)
(** ** The whole sort *)

Lemma sorts_short a : length a <= 1 -> sorts cmp a a.
Proof. intros H. split; [done|]. intros _. destruct a as [|x [|y a]]; [..|cbn in H; lia]; repeat constructor. Qed.

(** The parts of the partition, sorted. *)
Lemma sorts_parts v l l' e g g' a :
  less v l -> Forall (fun x => x = v \/ cmp x v = 0%Z) e -> greater v g -> sorts cmp l l' -> sorts cmp g g' ->
  a ≡ₚ l ++ e ++ g -> sorts cmp a (l' ++ e ++ g').
Proof.
  intros Hl He Hg [Pl Ol] [Pg Og] Hp. split; [by rewrite Pl, Pg, Hp|]. intros HC.
  assert (Hev : forall x, x ∈ e -> (cmp x v <= 0 /\ cmp v x <= 0)%Z).
  { intros x Hx. rewrite Forall_forall in He. destruct (He x Hx) as [->|E]; [split; by apply cmp_refl|].
    split; [lia|]. apply cmp_ge; [done|lia]. }
  assert (Hlv : forall x, x ∈ l' -> (cmp x v <= 0)%Z).
  { intros x Hx. rewrite Pl in Hx. apply (proj1 (Forall_forall _ _) Hl) in Hx. lia. }
  assert (Hvg : forall x, x ∈ g' -> (cmp v x <= 0)%Z).
  { intros x Hx. rewrite Pg in Hx. apply (proj1 (Forall_forall _ _) Hg) in Hx. apply cmp_ge; [done|lia]. }
  apply Ordered_app; [by apply Ol| |].
  - apply Ordered_app; [|by apply Og|].
    + clear -He Hev HC. induction He as [|x e Hx _ IH]; constructor.
      * apply IH. intros y Hy. apply Hev. by apply list_elem_of_further.
      * apply Forall_forall. intros y Hy. apply (cmp_trans x v); apply Hev; [apply list_elem_of_here|by apply list_elem_of_further].
    + intros x y Hx Hy. apply (cmp_trans x v); [by apply Hev|by apply Hvg].
  - intros x y Hx Hy. apply (cmp_trans x v); [by apply Hlv|].
    apply elem_of_app in Hy as [Hy|Hy]; [by apply Hev|by apply Hvg].
Qed.

Section IntrosortLemmas.
Context (heapsort : list A -> option (bool * list A)) `{!Sorter cmp heapsort}.

(** The partition with the two exchanges of blocks behind it. *)
Lemma partition_blocks v t n :
  n = S (length t) ->
  exists b pa pb pc pd c l e g,
    partition cmp n (v :: t) 1 1 (n - 1) (n - 1) = Some (b, pa, pb, pc, pd) /\
    vecswap b 0 (pb - pa `min` (pb - pa)) (pa `min` (pb - pa)) = Some c /\
    vecswap c pb (n - (pd - pc) `min` (n - 1 - pd)) ((pd - pc) `min` (n - 1 - pd)) = Some (l ++ e ++ g) /\
    pb - pa = length l /\ pd - pc = length g /\ length l < n /\ length g < n /\ n - length g = length (l ++ e) /\
    less v l /\ Forall (fun x => x = v \/ cmp x v = 0%Z) e /\ greater v g /\ v :: t ≡ₚ l ++ e ++ g.
Proof.
  intros ->. replace (S (length t) - 1) with (length t) by lia.
  destruct (partition_spec v (S (length t)) t [] [] [] [] 1 1 (length t) (length t))
    as (e & l & g & f & Hpart & He & Hl & Hg & Hf & Hp); try done; try (constructor || (cbn; lia)).
  cbn [app] in Hpart. rewrite !app_nil_r in Hpart, Hp. cbn [app] in Hp.
  assert (Hlen : length t = length e + length l + length g + length f) by (rewrite <- Hp, !length_app; lia).
  destruct (vecswap_rotate [] (v :: e) l (g ++ f) (length (v :: e) `min` length l) 0
              (length (v :: e) + length l - length (v :: e) `min` length l)) as (p1 & q1 & Hv1 & Hp1 & Hq1); [done..|].
  pose proof (Permutation_length Hp1) as Lp1. pose proof (Permutation_length Hq1) as Lq1.
  destruct (vecswap_rotate (q1 ++ p1) g f [] (length g `min` length f) (S (length e) + length l)
              (S (length t) - length g `min` length f)) as (g1 & f1 & Hv2 & Hg1 & Hf1);
    [done|rewrite length_app; cbn in Lp1; lia..|].
  pose proof (Permutation_length Hg1) as Lg1. pose proof (Permutation_length Hf1) as Lf1.
  exists (v :: e ++ l ++ g ++ f), (S (length e)), (S (length e) + length l), (length e + length l),
    (length e + length l + length g), (q1 ++ p1 ++ g ++ f), q1, (p1 ++ f1), g1.
  rewrite !app_nil_r in Hv2. rewrite <- !app_assoc in Hv2. cbn [app length] in Hv1.
  replace (S (length e) + length l - S (length e)) with (length l) by lia.
  replace (length e + length l + length g - (length e + length l)) with (length g) by lia.
  replace (length t - (length e + length l + length g)) with (length f) by lia.
  split; [done|]. split; [done|]. split; [by rewrite <- !app_assoc|].
  rewrite !length_app. cbn [length] in Lp1. split; [lia|]. split; [lia|]. split; [lia|]. split; [lia|]. split; [lia|].
  split; [exact (Permutation_Forall (Permutation_sym Hq1) Hl)|].
  split; [|split; [exact (Permutation_Forall (Permutation_sym Hg1) Hg)|]].
  - apply Forall_app. split.
    + apply (Permutation_Forall (Permutation_sym Hp1)). constructor; [by left|]. eapply Forall_impl; [exact He|]. cbn. auto.
    + apply (Permutation_Forall (Permutation_sym Hf1)). eapply Forall_impl; [exact Hf|]. cbn. auto.
  - rewrite Hq1, Hp1, Hf1, Hg1, <- Hp. rewrite <- app_assoc, (Permutation_app_comm f g). cbn [app].
    by rewrite <- Permutation_middle, (app_assoc l e), (Permutation_app_comm l e), <- app_assoc.
Qed.

Lemma introsort_spec fuel : forall a maxdepth,
  length a < fuel -> exists a', introsort cmp heapsort fuel a maxdepth = Some a' /\ sorts cmp a a'.
Proof.
  induction fuel as [|fuel IH]; intros a maxdepth Hf; [lia|]. cbn [introsort].
  destruct (length a <? 7) eqn:E.
  { destruct a as [|x r]; [exists []; split; [done|apply sorts_short; cbn; lia]|]. destruct (insertion_loop_spec r [x]) as (a' & Ha & Hp & Ho).
    cbn [length]. rewrite Nat.sub_1_r. cbn [pred]. exists a'. split; [exact Ha|]. split; [done|].
    intros HC. apply Ho; [done|]. repeat constructor. }
  apply Nat.ltb_ge in E.
  assert (exists ok b, (if (maxdepth =? 0)%Z then heapsort a else Some (false, a)) = Some (ok, b) /\
            if ok : bool then sorts cmp a b else b = a) as (ok & b & -> & Hb).
  { destruct (maxdepth =? 0)%Z; [apply sorter_spec|by exists false, a]. }
  cbn [mbind option_bind]. destruct ok; [by exists b|]. subst b.
  destruct (pivot_lt a E) as (pm & -> & Hpm). cbn [mbind option_bind].
  destruct (swap_spec a 0 pm) as (x & y & Hx & Hy & ->); [lia|lia|]. cbn [mbind option_bind].
  pose proof (Permutation_insert_swap a 0 pm x y Hx Hy) as Hperm.
  destruct (<[pm := x]> (<[0 := y]> a)) as [|v t] eqn:Ea; [apply Permutation_length in Hperm; cbn in Hperm; lia|].
  pose proof (Permutation_length Hperm) as Hlen. cbn [length] in Hlen.
  destruct (partition_blocks v t (length a)) as
    (b & pa & pb & pc & pd & c & l & e & g & -> & Hc & Hd & Hl & Hg & Hln & Hgn & Hle & Vl & Ve & Vg & Hp); [done|].
  cbn [mbind option_bind]. rewrite Hc. cbn [mbind option_bind]. rewrite Hd. cbn [mbind option_bind]. rewrite Hl, Hg, Hle.
  assert (Hfinal : forall l' g', sorts cmp l l' -> sorts cmp g g' -> sorts cmp a (l' ++ e ++ g')).
  { intros l' g' Sl Sg. apply (sorts_parts v l l' e g g'); try done. by rewrite <- Hp. }
  set (d := u64 (maxdepth - 1)). clearbody d.
  destruct (IH l d) as (l' & El & Sl); [lia|]. destruct (IH g d) as (g' & Eg & Sg); [lia|].
  assert (Hleft : forall r, take (length l) (l ++ r) = l /\ drop (length l) (l ++ r) = r)
    by (intros r; by rewrite take_app_length, drop_app_length).
  assert (Hright : forall m r, length m = length l -> take (length (l ++ e)) (m ++ e ++ r) = m ++ e /\
                     drop (length (l ++ e)) (m ++ e ++ r) = r).
  { intros m r Hm. rewrite (app_assoc m e r), length_app, <- Hm, <- length_app.
    by rewrite take_app_length, drop_app_length. }
  pose proof (Permutation_length (proj1 Sl)) as Ll.
  destruct (length l <? length g) eqn:E1.
  - destruct (1 <? length g) eqn:E2; cycle 1.
    { apply Nat.ltb_ge in E2. apply Nat.ltb_lt in E1. eexists. split; [done|]. apply Hfinal; apply sorts_short; lia. }
    destruct (1 <? length l) eqn:E3.
    + destruct (Hleft (e ++ g)) as [-> ->]. rewrite El. cbn [mbind option_bind].
      destruct (Hright l' g Ll) as [-> ->]. rewrite Eg. cbn [mbind option_bind]. rewrite <- app_assoc. eauto.
    + cbn [mbind option_bind]. destruct (Hright l g eq_refl) as [-> ->]. rewrite Eg. cbn [mbind option_bind].
      rewrite <- app_assoc. apply Nat.ltb_ge in E3. eexists. split; [done|]. apply Hfinal; [by apply sorts_short|done].
  - destruct (1 <? length l) eqn:E2; cycle 1.
    { apply Nat.ltb_ge in E1, E2. eexists. split; [done|]. apply Hfinal; apply sorts_short; lia. }
    destruct (1 <? length g) eqn:E3.
    + destruct (Hright l g eq_refl) as [-> ->]. rewrite Eg. cbn [mbind option_bind]. rewrite <- app_assoc.
      destruct (Hleft (e ++ g')) as [-> ->]. rewrite El. cbn [mbind option_bind]. eauto.
    + cbn [mbind option_bind]. destruct (Hleft (e ++ g)) as [-> ->]. rewrite El. cbn [mbind option_bind].
      apply Nat.ltb_ge in E3. eexists. split; [done|]. apply Hfinal; [done|by apply sorts_short].
Qed.
End IntrosortLemmas.
End QsortLemmas.

Lemma depth_loop_total k : forall i m, 0 <= i < 2 ^ Z.of_nat k -> exists d, depth_loop (S k) i m = Some d.
Proof.
  induction k as [|k IH]; intros i m Hi; cbn [depth_loop]; destruct (i >? 0) eqn:E; eauto; [cbn in Hi; lia|].
  apply IH. rewrite Z.shiftr_div_pow2 by lia. split; [apply Z.div_pos; lia|].
  apply Z.div_lt_upper_bound; [lia|]. rewrite Nat2Z.inj_succ, Z.pow_succ_r in Hi by lia. lia.
Qed.

(** C10: [qsort] ends within its depth and stays inside of its array, whatever the callback returns,
    and permutes the items; with a callback that compares, the result is sorted. This includes the
    arrays for which it gives up on quick sort and calls heap sort, with or without memory. *)
Theorem qsort_sorts {A} (malloc : Z -> bool) (a : list A) (es : Z) (cmp : A -> A -> Z) :
  Z.of_nat (length a) < 2 ^ 64 ->
  exists a', qsort malloc a es cmp = Some a' /\ a' ≡ₚ a /\ (Comparison cmp -> Ordered cmp a').
Proof.
  intros Hl. unfold qsort, qsort_r. destruct (depth_loop_total 64 (Z.of_nat (length a)) 0) as [d ->]; [lia|].
  cbn [mbind option_bind]. apply introsort_spec; [apply _|lia].
Qed.

Lemma qsort_sorts_witness :
  exists a', qsort (fun _ => true) [3; 1; 2] 4 (fun x y => x - y) = Some a' /\ Ordered (fun x y => x - y) a'.
Proof.
  destruct (qsort_sorts (fun _ => true) [3; 1; 2] 4 (fun x y => x - y)) as (a' & H1 & _ & H2); [reflexivity|].
  exists a'. split; [exact H1|]. apply H2. apply Comparison_Zsub.
Defined.
