(* ===== verification/IntSort.v ===== *)
(** Sorting of integers: libc/str/intsort.c and libc/str/longsort.c, which differ in the width of
    the items only, and libc/mem/radix_sort_int32.c and radix_sort_int64.c on top of them. *)

From S2P Require Import Prelude Sorting.

(* ------------------------------------------------------------------ *)
(** ** Definitions *)

Section Intsort.
Implicit Types (A : list Z) (i j n : nat).
Open Scope nat_scope.

(** [while (j >= 0 && A[j] > t)] and [A[j + 1] = t], from [j + 1] on. *)
Fixpoint shift_down (j1 : nat) A (t : Z) : option (list Z) :=
  match j1 with
  | O => wr A O t
  | S j =>
      x ← rd A j;
      if (x >? t)%Z then A ← wr A (S j) x; shift_down j A t else wr A (S j) t
  end.

(** [for (i = 1; i < n; i++)], with [todo] items left. *)
Fixpoint InsertionSort_loop (todo i : nat) A : option (list Z) :=
  match todo with
  | O => Some A
  | S todo => t ← rd A i; A ← shift_down i A t; InsertionSort_loop todo (S i) A
  end.

Definition InsertionSort A : option (list Z) := InsertionSort_loop (length A - 1) 1 A.

(** [while (A[i] < p) i++;] and [while (A[j] > p) j--;]. *)
Fixpoint scan_lt (fuel : nat) A i (p : Z) : option nat :=
  match fuel with
  | O => None
  | S fuel => x ← rd A i; if (x <? p)%Z then scan_lt fuel A (S i) p else Some i
  end.

Fixpoint scan_gt A j (p : Z) : option nat :=
  x ← rd A j;
  if (x >? p)%Z then match j with O => None | S j => scan_gt A j p end else Some j.

(** The loop of the partition, [for (...;; i++, j--)]. *)
Fixpoint split_loop (fuel : nat) A (p : Z) i j : option (list Z * nat) :=
  match fuel with
  | O => None
  | S fuel =>
      i ← scan_lt (S (length A)) A i p;
      j ← scan_gt A j p;
      if j <=? i then Some (A, i)
      else A ← swap A i j; split_loop fuel A p (S i) (j - 1)
  end.

(** [IntSort], and [LongSort]. *)
Fixpoint IntSort (fuel : nat) A : option (list Z) :=
  match fuel with
  | O => None
  | S fuel =>
      let n := length A in
      if n <=? 32 then InsertionSort A
      else
        p ← rd A (n / 2);
        '(A, i) ← split_loop n A p 0 (n - 1);
        l ← IntSort fuel (take i A);
        r ← IntSort fuel (drop i A);
        Some (l ++ r)
  end.

Definition _intsort A : option (list Z) := IntSort (S (length A)) A.
Definition _longsort A : option (list Z) := IntSort (S (length A)) A.
End Intsort.

(** The digits of the radix sorts. *)
Definition HIST_SIZE : Z := 2048.
Definition get_byte_0 (v : Z) : Z := Z.land v 0x7FF.
Definition get_byte_1 (v : Z) : Z := Z.land (Z.shiftr v 11) 0x7FF.
Definition get_byte_2 (v : Z) : Z := Z.land (Z.shiftr v 22) 0x7FF.
Definition get_byte_3 (v : Z) : Z := Z.land (Z.shiftr v 33) 0x7FF.
Definition get_byte_4 (v : Z) : Z := Z.land (Z.shiftr v 44) 0x7FF.
Definition get_byte_2_flip_sign (v : Z) : Z := Z.lxor (Z.shiftr (u32 v) 22) 0x200.
Definition get_byte_5_flip_sign (v : Z) : Z := Z.lxor (Z.land (Z.shiftr v 55) 0x7FF) 0x400.

(** [b[get_byte(A[i])]++] for every item, from [calloc]. *)
Fixpoint histogram (get_byte : Z -> Z) (A : list Z) (b : list Z) : option (list Z) :=
  match A with
  | [] => Some b
  | x :: A =>
      let pos := Z.to_nat (get_byte x) in
      c ← rd b pos; b ← wr b pos (u64 (c + 1)); histogram get_byte A b
  end.

(** [tsum = b[i] + sum; b[i] = sum - 1; sum = tsum;] for every [i]. *)
Fixpoint prefix_sums (sum : Z) (b : list Z) : list Z :=
  match b with
  | [] => []
  | c :: b => u64 (sum - 1) :: prefix_sums (u64 (c + sum)) b
  end.

(** [pos = get_byte(reader[i]); writer[++b[pos]] = reader[i];] for every item. *)
Fixpoint scatter (get_byte : Z -> Z) (reader b writer : list Z) : option (list Z) :=
  match reader with
  | [] => Some writer
  | x :: reader =>
      let pos := Z.to_nat (get_byte x) in
      c ← rd b pos;
      let c := u64 (c + 1) in
      b ← wr b pos c;
      writer ← wr writer (Z.to_nat c) x;
      scatter get_byte reader b writer
  end.

(** The counters of a digit after the first two loops; those of different digits are independent. *)
Definition counters (get_byte : Z -> Z) (A : list Z) : option (list Z) :=
  b ← histogram get_byte A (replicate (Z.to_nat HIST_SIZE) 0); Some (prefix_sums 0 b).

(** The memory that [malloc] gave for [T] is [T]; [None] where it gave none. The result is that of
    the function, and [A]. *)
Definition radix_sort_int32 (malloc : option (list Z)) (calloc : bool) (A : list Z) : option (Z * list Z) :=
  if Z.of_nat (length A) <? HIST_SIZE then A ← _intsort A; Some (0, A)
  else match malloc with
  | None => Some (-1, A)
  | Some T =>
      if negb calloc then Some (-1, A)
      else
        b0 ← counters get_byte_0 A;
        b1 ← counters get_byte_1 A;
        b2 ← counters get_byte_2_flip_sign A;
        T ← scatter get_byte_0 A b0 T;
        A ← scatter get_byte_1 T b1 A;
        T ← scatter get_byte_2_flip_sign A b2 T;
        Some (0, T)
  end.

Definition radix_sort_int64 (malloc : option (list Z)) (calloc : bool) (A : list Z) : option (Z * list Z) :=
  if Z.of_nat (length A) <? HIST_SIZE then A ← _longsort A; Some (0, A)
  else match malloc with
  | None => Some (-1, A)
  | Some T =>
      if negb calloc then Some (-1, A)
      else
        b0 ← counters get_byte_0 A;
        b1 ← counters get_byte_1 A;
        b2 ← counters get_byte_2 A;
        b3 ← counters get_byte_3 A;
        b4 ← counters get_byte_4 A;
        b5 ← counters get_byte_5_flip_sign A;
        T ← scatter get_byte_0 A b0 T;
        A ← scatter get_byte_1 T b1 A;
        T ← scatter get_byte_2 A b2 T;
        A ← scatter get_byte_3 T b3 A;
        T ← scatter get_byte_4 A b4 T;
        A ← scatter get_byte_5_flip_sign T b5 A;
        Some (0, A)
  end.

Example intsort_1 :
  _intsort (map (fun i => (i * 37) mod 101 - 50) (seqZ 0 101)) = Some (seqZ (-50) 101) /\
  radix_sort_int32 (Some (replicate 10 7)) true [5; -1; 3; 3; 0; 2147483647; -2147483648; 9; 8; 7]
    = Some (0, [-2147483648; -1; 0; 3; 3; 5; 7; 8; 9; 2147483647]).
Proof. vm_compute. repeat split. Qed.

Example radix_1 :
  (b ← counters get_byte_0 [5; 4099; 3; 5]; scatter get_byte_0 [5; 4099; 3; 5] b [0; 0; 0; 0]) = Some [4099; 3; 5; 5].
Proof. vm_compute. reflexivity. Qed.

(* ------------------------------------------------------------------ *)
(** ** Insertion and partition *)

Section IntsortLemmas.
Implicit Types (A l r : list Z) (i j n : nat).
Open Scope nat_scope.

Lemma rd_mid l (x : Z) r i : i = length l -> rd (l ++ x :: r) i = Some x.
Proof. intros ->. by apply list_lookup_middle. Qed.

Lemma wr_mid l (x y : Z) r i : i = length l -> wr (l ++ x :: r) i y = Some (l ++ y :: r).
Proof.
  intros ->. rewrite wr_Some by (rewrite length_app; cbn; lia).
  by rewrite insert_app_r_alt, Nat.sub_diag by done.
Qed.

(** The items of [l] above [t] move up by one, and [t] takes the place that is left. *)
Lemma shift_down_spec l : forall y r t,
  exists l1 l2, l = l1 ++ l2 /\ shift_down (length l) (l ++ y :: r) t = Some (l1 ++ t :: l2 ++ r) /\
    Forall (fun x => t < x)%Z l2 /\ (forall l1' z, l1 = l1' ++ [z] -> (z <= t)%Z).
Proof.
  induction l as [|x l IH] using rev_ind; intros y r t.
  { exists [], []. repeat split; try done. by intros [|]. }
  rewrite length_app, Nat.add_1_r. cbn [shift_down]. rewrite <- app_assoc. cbn [app].
  rewrite rd_mid by done. cbn [mbind option_bind]. destruct (x >? t)%Z eqn:E.
  - replace (l ++ x :: y :: r) with ((l ++ [x]) ++ y :: r) by (by rewrite <- app_assoc).
    rewrite wr_mid by (rewrite length_app; cbn; lia). cbn [mbind option_bind]. rewrite <- app_assoc. cbn [app].
    destruct (IH x (x :: r) t) as (l1 & l2 & -> & -> & Hf & Hl).
    exists l1, (l2 ++ [x]). rewrite <- !app_assoc. repeat split; try done.
    apply Forall_app. split; [done|]. apply Forall_singleton. lia.
  - replace (l ++ x :: y :: r) with ((l ++ [x]) ++ y :: r) by (by rewrite <- app_assoc).
    rewrite wr_mid by (rewrite length_app; cbn; lia). exists (l ++ [x]), []. rewrite app_nil_r.
    repeat split; try done. intros l1' z [_ ->]%app_inj_tail. lia.
Qed.

Abbreviation Up := (Sorted.StronglySorted Z.le).

Lemma insert_Up l1 l2 t :
  Up (l1 ++ l2) -> Forall (fun x => t < x)%Z l2 -> (forall l1' z, l1 = l1' ++ [z] -> (z <= t)%Z) -> Up (l1 ++ t :: l2).
Proof.
  intros Ho Hf Hl. apply SSorted_app_iff in Ho as (H1 & H2 & H12). apply SSorted_app_iff.
  split; [done|]. split; [constructor; [done|]; eapply Forall_impl; [exact Hf|]; cbn; lia|].
  intros x z Hx Hz. apply elem_of_cons in Hz as [->|Hz]; [|by apply H12].
  destruct l1 as [|w l1 _] using rev_ind; [by apply elem_of_nil in Hx|].
  specialize (Hl l1 w eq_refl). apply elem_of_app in Hx as [Hx|Hx].
  - apply SSorted_app_iff in H1 as (_ & _ & H1). specialize (H1 x w Hx). rewrite list_elem_of_singleton in H1. lia.
  - apply list_elem_of_singleton in Hx as ->. done.
Qed.

Lemma InsertionSort_loop_spec r : forall l,
  Up l -> exists A', InsertionSort_loop (length r) (length l) (l ++ r) = Some A' /\ A' ≡ₚ l ++ r /\ Up A'.
Proof.
  induction r as [|x r IH]; intros l Hl; cbn [InsertionSort_loop length].
  { exists (l ++ []). rewrite app_nil_r. done. }
  rewrite rd_mid by done. cbn [mbind option_bind].
  destruct (shift_down_spec l x r x) as (l1 & l2 & -> & -> & Hf & Hm). cbn [mbind option_bind].
  destruct (IH (l1 ++ x :: l2)) as (A' & HA & Hp & Ho); [by apply insert_Up|].
  replace (length (l1 ++ x :: l2)) with (S (length (l1 ++ l2))) in HA by (rewrite !length_app; cbn; lia).
  rewrite <- app_assoc in HA. cbn [app] in HA. rewrite HA. exists A'. split; [done|]. split; [|done].
  rewrite Hp, <- !app_assoc. cbn [app]. apply Permutation_app_head, Permutation_middle.
Qed.

Lemma InsertionSort_spec A : exists A', InsertionSort A = Some A' /\ A' ≡ₚ A /\ Up A'.
Proof.
  unfold InsertionSort. destruct A as [|x r]; [exists []; split; [done|]; split; [done|constructor]|]. cbn [length]. rewrite Nat.sub_1_r.
  apply (InsertionSort_loop_spec r [x]). repeat constructor.
Qed.

Lemma scan_lt_spec p fuel : forall A i k y,
  A !! k = Some y -> (p <= y)%Z -> i <= k -> k < i + fuel ->
  exists i' x, scan_lt fuel A i p = Some i' /\ i <= i' <= k /\ A !! i' = Some x /\ (p <= x)%Z /\
    forall m z, i <= m < i' -> A !! m = Some z -> (z < p)%Z.
Proof.
  induction fuel as [|fuel IH]; intros A i k y Hk Hy Hik Hf; [lia|]. cbn [scan_lt].
  destruct (rd_Some A i) as [x Hx]; [apply lookup_lt_Some in Hk; lia|]. rewrite Hx. cbn [mbind option_bind].
  destruct (x <? p)%Z eqn:E.
  - assert (i <> k) by (intros ->; unfold rd in Hx; simplify_eq; lia).
    destruct (IH A (S i) k y) as (i' & x' & -> & H1 & H2 & H3 & H4); [done|done|lia|lia|].
    exists i', x'. split; [done|]. split; [lia|]. split; [done|]. split; [done|].
    intros m z Hm Hz. destruct (decide (m = i)) as [->|]; [unfold rd in Hx; simplify_eq; lia|]. apply (H4 m); [lia|done].
  - exists i, x. repeat split; try done; lia.
Qed.

Lemma scan_gt_spec p A j : forall k y,
  j < length A -> A !! k = Some y -> (y <= p)%Z -> k <= j ->
  exists j' x, scan_gt A j p = Some j' /\ k <= j' <= j /\ A !! j' = Some x /\ (x <= p)%Z /\
    forall m z, j' < m <= j -> A !! m = Some z -> (p < z)%Z.
Proof.
  induction j as [|j IH]; intros k y Hj Hk Hy Hkj; cbn [scan_gt];
    (destruct (rd_Some A _ Hj) as [x Hx]; rewrite Hx; cbn [mbind option_bind]; destruct (x >? p)%Z eqn:E).
  - assert (k = 0) as -> by lia. unfold rd in Hx. simplify_eq. lia.
  - exists 0, x. repeat split; try done; lia.
  - assert (k <> S j) by (intros ->; unfold rd in Hx; simplify_eq; lia).
    destruct (IH k y) as (j' & x' & -> & H1 & H2 & H3 & H4); [lia|done|done|lia|].
    exists j', x'. split; [done|]. split; [lia|]. split; [done|]. split; [done|].
    intros m z Hm Hz. destruct (decide (m = S j)) as [->|]; [unfold rd in Hx; simplify_eq; lia|]. apply (H4 m); [lia|done].
  - exists (S j), x. repeat split; try done; lia.
Qed.

(** What lies below [i] is not above [p], what lies above [j] is not below it, and both scans meet
    an item that stops them. *)
Definition split_inv A (p : Z) i j : Prop :=
  j < length A /\
  (forall k x, k < i -> A !! k = Some x -> (x <= p)%Z) /\ (forall k x, j < k -> A !! k = Some x -> (p <= x)%Z) /\
  (exists k x, i <= k /\ A !! k = Some x /\ (p <= x)%Z) /\
  (exists k x, k <= j /\ A !! k = Some x /\ (x <= p)%Z) /\
  (0 < i \/ exists k x, 1 <= k <= j /\ A !! k = Some x /\ (x <= p)%Z).

(** The scans stopped at [i] and [j], whose items change places. *)
Lemma split_inv_swap A p i j x y :
  i < j -> A !! i = Some x -> (p <= x)%Z -> A !! j = Some y -> (y <= p)%Z ->
  (forall k z, k < i -> A !! k = Some z -> (z <= p)%Z) -> (forall k z, j < k -> A !! k = Some z -> (p <= z)%Z) ->
  split_inv (<[j := x]> (<[i := y]> A)) p (S i) (j - 1).
Proof.
  intros Hij Hi Hx Hj Hy Hbelow Habove. apply lookup_lt_Some in Hi as Li. apply lookup_lt_Some in Hj as Lj.
  assert (Hat : forall k z, (<[j := x]> (<[i := y]> A)) !! k = Some z ->
            (k = i /\ z = y) \/ (k = j /\ z = x) \/ (k <> i /\ k <> j /\ A !! k = Some z)).
  { intros k z. destruct (decide (k = j)) as [->|Hkj].
    { rewrite list_lookup_insert_eq by (rewrite length_insert; lia). intros [= ->]. auto. }
    rewrite list_lookup_insert_ne by done. destruct (decide (k = i)) as [->|Hki].
    { rewrite list_lookup_insert_eq by lia. intros [= ->]. auto. }
    rewrite list_lookup_insert_ne by done. auto. }
  assert (Ei : (<[j := x]> (<[i := y]> A)) !! i = Some y)
    by (rewrite list_lookup_insert_ne, list_lookup_insert_eq by lia; done).
  assert (Ej : (<[j := x]> (<[i := y]> A)) !! j = Some x)
    by (rewrite list_lookup_insert_eq by (rewrite length_insert; lia); done).
  split; [rewrite !length_insert; lia|]. split; [|split; [|split; [|split]]].
  - intros k z Hk [(-> & ->)|[(-> & ->)|(H1 & H2 & H3)]]%Hat; [done|lia|]. apply (Hbelow k); [lia|done].
  - intros k z Hk [(-> & ->)|[(-> & ->)|(H1 & H2 & H3)]]%Hat; [lia|done|]. apply (Habove k); [lia|done].
  - exists j, x. split; [lia|done].
  - exists i, y. split; [lia|done].
  - left. lia.
Qed.

Lemma split_loop_spec p fuel : forall A i j,
  split_inv A p i j -> S j - i <= fuel -> 1 <= fuel ->
  exists A' m, split_loop fuel A p i j = Some (A', m) /\ A' ≡ₚ A /\ 0 < m < length A /\
    (forall k x, k < m -> A' !! k = Some x -> (x <= p)%Z) /\ (forall k x, m <= k -> A' !! k = Some x -> (p <= x)%Z).
Proof.
  induction fuel as [|fuel IH]; intros A i j (Hj & Hbelow & Habove & (k1 & y1 & S1a & S1b & S1c) & (k2 & y2 & S2a & S2b & S2c) & S3) Hf Hf1;
    [lia|]. cbn [split_loop].
  destruct (scan_lt_spec p (S (length A)) A i k1 y1) as (i' & x & -> & Hi1 & Hi2 & Hi3 & Hi4);
    [done|done|done|apply lookup_lt_Some in S1b; lia|].
  destruct (scan_gt_spec p A j k2 y2) as (j' & y & Ej & Hj1 & Hj2 & Hj3 & Hj4); [done..|].
  cbn [mbind option_bind]. rewrite Ej. cbn [mbind option_bind].
  assert (Hb : forall k z, k < i' -> A !! k = Some z -> (z <= p)%Z).
  { intros k z Hk Hz. destruct (le_lt_dec i k); [|by apply (Hbelow k)]. specialize (Hi4 k z ltac:(lia) Hz). lia. }
  assert (Ha : forall k z, j' < k -> A !! k = Some z -> (p <= z)%Z).
  { intros k z Hk Hz. destruct (le_lt_dec k j); [|by apply (Habove k)]. specialize (Hj4 k z ltac:(lia) Hz). lia. }
  destruct (j' <=? i') eqn:E.
  - apply Nat.leb_le in E. exists A, i'. split; [done|]. split; [done|]. apply lookup_lt_Some in Hi2 as Li.
    split; [|split; [done|]].
    + split; [|done]. destruct S3 as [|(k & z & Hk & Hz & Hzp)]; [lia|].
      destruct (le_lt_dec k j'); [lia|]. specialize (Hj4 k z ltac:(lia) Hz). lia.
    + intros k z Hk Hz. destruct (le_lt_dec k j'); [|by apply (Ha k)]. assert (k = i') as -> by lia. by simplify_eq.
  - apply Nat.leb_gt in E. apply lookup_lt_Some in Hi2 as Li. apply lookup_lt_Some in Hj2 as Lj.
    destruct (swap_spec A i' j') as (x' & y' & Hx' & Hy' & ->); [done..|].
    assert (x' = x) as -> by congruence. assert (y' = y) as -> by congruence. cbn [mbind option_bind].
    pose proof (Permutation_insert_swap A i' j' _ _ Hx' Hy') as Hp.
    destruct (IH (<[j' := x]> (<[i' := y]> A)) (S i') (j' - 1)) as (A' & m & -> & H1 & H2 & H3);
      [by apply split_inv_swap|lia|lia|].
    exists A', m. split; [done|]. split; [by rewrite H1|]. rewrite !length_insert in H2. done.
Qed.

Lemma IntSort_spec fuel : forall A,
  length A < fuel -> exists A', IntSort fuel A = Some A' /\ A' ≡ₚ A /\ Up A'.
Proof.
  induction fuel as [|fuel IH]; intros A Hf; [lia|]. cbn [IntSort].
  destruct (length A <=? 32) eqn:E; [apply InsertionSort_spec|]. apply Nat.leb_gt in E.
  pose proof (Nat.div_mod_eq (length A) 2) as H2. pose proof (Nat.mod_upper_bound (length A) 2 ltac:(lia)).
  destruct (rd_Some A (length A / 2)) as [p Hp]; [lia|]. rewrite Hp. cbn [mbind option_bind].
  destruct (split_loop_spec p (length A) A 0 (length A - 1)) as (A1 & m & -> & Hp1 & Hm & Hlow & Hhigh); [|lia|lia|].
  { split; [lia|]. split; [lia|]. split; [intros k x Hk Hx; apply lookup_lt_Some in Hx; lia|].
    split; [|split; [|right]]; exists (length A / 2), p; (split; [lia|by split]). }
  cbn [mbind option_bind]. pose proof (Permutation_length Hp1) as Hl1.
  destruct (IH (take m A1)) as (l & -> & Pl & Ol); [rewrite length_take; lia|].
  destruct (IH (drop m A1)) as (r & -> & Pr & Or); [rewrite length_drop; lia|]. cbn [mbind option_bind].
  exists (l ++ r). split; [done|]. split; [by rewrite Pl, Pr, take_drop|]. apply SSorted_app_iff.
  split; [done|]. split; [done|]. intros x y Hx Hy. rewrite Pl in Hx. rewrite Pr in Hy.
  apply elem_of_take in Hx as (k & Hk & Hkm). apply list_elem_of_lookup in Hy as [k' Hk']. rewrite lookup_drop in Hk'.
  specialize (Hlow k x Hkm Hk). specialize (Hhigh (m + k') y ltac:(lia) Hk'). lia.
Qed.
End IntsortLemmas.

(* ------------------------------------------------------------------ *)
(** ** One digit: a stable sort by buckets *)

Lemma sum_list_snoc (l : list nat) n : sum_list (l ++ [n]) = (sum_list l + n)%nat.
Proof. induction l as [|m l IH]; cbn; lia. Qed.

Section Digit.
Context (get_byte : Z -> Z).
Implicit Types (A L D : list Z).
Open Scope nat_scope.

Definition digit (x : Z) : nat := Z.to_nat (get_byte x).
Definition digit_ok A : Prop := Forall (fun x => 0 <= get_byte x < HIST_SIZE)%Z A.

(** The items with a digit, in their order. *)
Definition bucket k A : list Z := filter (fun x => digit x = k) A.
#[local] Arguments bucket : simpl never.

Lemma bucket_nil k : bucket k [] = [].
Proof. done. Qed.

Lemma bucket_cons_eq x A : bucket (digit x) (x :: A) = x :: bucket (digit x) A.
Proof. unfold bucket. by rewrite filter_cons_True. Qed.

Lemma bucket_cons_ne x k A : k <> digit x -> bucket k (x :: A) = bucket k A.
Proof. intros H. unfold bucket. by rewrite filter_cons_False. Qed.

Lemma bucket_app k A L : bucket k (A ++ L) = bucket k A ++ bucket k L.
Proof. apply filter_app. Qed.

Definition buckets n A : list (list Z) := (fun k => bucket k A) <$> seq 0 n.

(** The reference: the buckets one after the other. *)
Definition bucket_sort A : list Z := mjoin (buckets (Z.to_nat HIST_SIZE) A).

(** Where the bucket of [k] starts. *)
Definition start A k : nat := sum_list (length <$> take k (buckets (Z.to_nat HIST_SIZE) A)).

Lemma buckets_S n A : buckets (S n) A = buckets n A ++ [bucket n A].
Proof. unfold buckets. rewrite seq_S, fmap_app. done. Qed.

Lemma filter_below n A :
  filter (fun x => digit x < S n) A ≡ₚ filter (fun x => digit x < n) A ++ bucket n A.
Proof.
  unfold bucket. induction A as [|x A IH]; [done|].
  destruct (decide (digit x < n)) as [H|H].
  { rewrite !(filter_cons_True (fun x => digit x < _)), (filter_cons_False (fun x => digit x = n)) by lia. by rewrite IH. }
  rewrite (filter_cons_False (fun x => digit x < n)) by done. destruct (decide (digit x = n)) as [E|E].
  - rewrite filter_cons_True, (filter_cons_True (fun x => digit x = n)) by (done || lia). rewrite IH. apply Permutation_middle.
  - rewrite filter_cons_False, (filter_cons_False (fun x => digit x = n)) by (done || lia). done.
Qed.

Lemma join_buckets n A : mjoin (buckets n A) ≡ₚ filter (fun x => digit x < n) A.
Proof.
  induction n as [|n IH]; [|by rewrite buckets_S, join_app, IH, filter_below; cbn; rewrite app_nil_r].
  induction A as [|x A IHA]; [done|]. by rewrite filter_cons_False by lia.
Qed.

Lemma bucket_sort_Permutation A : digit_ok A -> bucket_sort A ≡ₚ A.
Proof.
  intros H. unfold bucket_sort. rewrite join_buckets. induction H as [|x A Hx _ IH]; [done|].
  rewrite filter_cons_True; [by rewrite IH|]. unfold digit. lia.
Qed.

Lemma bucket_Permutation A L k : A ≡ₚ L -> bucket k A ≡ₚ bucket k L.
Proof. intros H. unfold bucket. by rewrite H. Qed.

Lemma start_Permutation A L k : A ≡ₚ L -> start A k = start L k.
Proof.
  intros H. unfold start, buckets. f_equal. rewrite !fmap_take. f_equal. rewrite <- !list_fmap_compose.
  apply list_fmap_ext. intros i n _. cbn. apply Permutation_length. by apply bucket_Permutation.
Qed.

Lemma start_S A k : k < Z.to_nat HIST_SIZE -> start A (S k) = start A k + length (bucket k A).
Proof.
  intros Hk. unfold start. rewrite (take_S_r _ _ (bucket k A)); [|unfold buckets; rewrite list_lookup_fmap, lookup_seq_lt by done; done].
  rewrite fmap_app. apply sum_list_snoc.
Qed.

(** Buckets do not overlap, and end at the end of the array. *)
Lemma start_le A k k' : k < k' <= Z.to_nat HIST_SIZE -> start A k + length (bucket k A) <= start A k'.
Proof.
  intros H. rewrite <- start_S by lia. destruct H as [H1 H2]. induction H1 as [|k' Hk IH]; [done|].
  rewrite (start_S A k') by lia. specialize (IH ltac:(lia)). lia.
Qed.

Lemma start_end A : digit_ok A -> start A (Z.to_nat HIST_SIZE) = length A.
Proof.
  intros H. unfold start. rewrite take_ge by (unfold buckets; by rewrite length_fmap, length_seq).
  rewrite <- length_join. by apply Permutation_length, bucket_sort_Permutation.
Qed.

(** The reference by position. *)
Lemma bucket_sort_lookup A q x :
  bucket_sort A !! q = Some x ->
  exists k i, k < Z.to_nat HIST_SIZE /\ bucket k A !! i = Some x /\ q = start A k + i.
Proof.
  unfold bucket_sort. intros (k & l & i & Hk & Hi & ->)%join_lookup_Some. exists k, i.
  unfold buckets in Hk. rewrite list_lookup_fmap in Hk. apply fmap_Some in Hk as (k' & Hs & ->).
  apply lookup_seq in Hs as [-> Hlt]. cbn in Hi. done.
Qed.

(** The first loop counts. *)
Lemma histogram_spec A : forall (c : list nat),
  digit_ok A -> length c = Z.to_nat HIST_SIZE -> (forall k n, c !! k = Some n -> Z.of_nat (n + length A) < 2 ^ 64)%Z ->
  histogram get_byte A (Z.of_nat <$> c) =
    Some (Z.of_nat <$> zip_with Nat.add c (length <$> buckets (Z.to_nat HIST_SIZE) A)).
Proof.
  induction A as [|x A IH]; intros c HA Hc Hb; cbn [histogram].
  { do 2 f_equal. unfold buckets. rewrite <- list_fmap_compose. symmetry. apply list_eq. intros k.
    rewrite lookup_zip_with, list_lookup_fmap. destruct (c !! k) as [n|] eqn:E; [|done]. cbn.
    apply lookup_lt_Some in E. rewrite lookup_seq_lt by lia. cbn. f_equal. unfold bucket. cbn. lia. }
  apply Forall_cons in HA as [Hx HA]. fold (digit x).
  assert (Hlt : digit x < length c) by (unfold digit; lia).
  destruct (lookup_lt_is_Some_2 c (digit x) Hlt) as [n Hn].
  assert (Er : rd (Z.of_nat <$> c) (digit x) = Some (Z.of_nat n)) by (unfold rd; by rewrite list_lookup_fmap, Hn).
  rewrite Er. cbn [mbind option_bind]. rewrite wr_Some by (by rewrite length_fmap). cbn [mbind option_bind].
  pose proof (Hb _ _ Hn) as Hbn. cbn [length] in Hbn. rewrite u64_id by lia.
  replace (Z.of_nat n + 1)%Z with (Z.of_nat (S n)) by lia. rewrite <- list_fmap_insert. rewrite IH.
  - do 2 f_equal. apply list_eq. intros k. unfold buckets. rewrite !lookup_zip_with, !list_lookup_fmap.
    destruct (decide (k = digit x)) as [->|Hk].
    + rewrite list_lookup_insert_eq, Hn, lookup_seq_lt by lia. cbn. f_equal.
      rewrite bucket_cons_eq. cbn. lia.
    + rewrite list_lookup_insert_ne by done. destruct (c !! k) as [m|] eqn:Em; [|done]. cbn.
      apply lookup_lt_Some in Em. rewrite !lookup_seq_lt by lia. cbn.
      by rewrite bucket_cons_ne by done.
  - done.
  - by rewrite length_insert.
  - intros k m Hm. destruct (decide (k = digit x)) as [->|Hk].
    + rewrite list_lookup_insert_eq in Hm by done. injection Hm as <-. lia.
    + rewrite list_lookup_insert_ne in Hm by done. specialize (Hb k m Hm). cbn [length] in Hb. lia.
Qed.

(** The second loop turns the counts into the places before the buckets. *)
Lemma prefix_sums_lookup c : forall s k,
  (Z.of_nat (s + sum_list c) < 2 ^ 64)%Z -> k < length c ->
  prefix_sums (Z.of_nat s) (Z.of_nat <$> c) !! k = Some (u64 (Z.of_nat (s + sum_list (take k c)) - 1)).
Proof.
  induction c as [|n c IH]; intros s k Hs Hk; [cbn in Hk; lia|]. cbn in Hs. cbn [fmap list_fmap prefix_sums].
  destruct k as [|k]; cbn [lookup list_lookup take].
  { cbn. by rewrite Nat.add_0_r. }
  rewrite u64_id by lia. replace (Z.of_nat n + Z.of_nat s)%Z with (Z.of_nat (s + n)) by lia.
  cbn in Hk. rewrite IH by lia. cbn. do 3 f_equal. lia.
Qed.

Lemma counters_spec A :
  digit_ok A -> (Z.of_nat (length A) < 2 ^ 63)%Z ->
  exists b, counters get_byte A = Some b /\ length b = Z.to_nat HIST_SIZE /\
    forall k, k < Z.to_nat HIST_SIZE -> b !! k = Some (u64 (Z.of_nat (start A k) - 1)).
Proof.
  intros HA Hl. unfold counters.
  replace (replicate (Z.to_nat HIST_SIZE) 0%Z) with (Z.of_nat <$> replicate (Z.to_nat HIST_SIZE) 0) by (by rewrite fmap_replicate).
  rewrite histogram_spec; [|done|by rewrite length_replicate|]; cycle 1.
  { intros k n Hk. apply lookup_replicate in Hk as [-> _]. lia. }
  cbn [mbind option_bind].
  assert (Hz : zip_with Nat.add (replicate (Z.to_nat HIST_SIZE) 0) (length <$> buckets (Z.to_nat HIST_SIZE) A) =
          length <$> buckets (Z.to_nat HIST_SIZE) A).
  { apply list_eq. intros k. rewrite lookup_zip_with, list_lookup_fmap.
    destruct (decide (k < Z.to_nat HIST_SIZE)) as [Hk|Hk].
    - rewrite lookup_replicate_2 by done. cbn. by destruct (_ !! k).
    - rewrite (lookup_ge_None_2 (replicate _ _)) by (rewrite length_replicate; lia). cbn. symmetry.
      apply fmap_None, lookup_ge_None_2. unfold buckets. rewrite length_fmap, length_seq. lia. }
  rewrite Hz. eexists. split; [done|].
  assert (Hlen : length (length <$> buckets (Z.to_nat HIST_SIZE) A) = Z.to_nat HIST_SIZE)
    by (unfold buckets; by rewrite !length_fmap, length_seq).
  assert (Hget : forall k, k < Z.to_nat HIST_SIZE ->
            prefix_sums 0 (Z.of_nat <$> (length <$> buckets (Z.to_nat HIST_SIZE) A)) !! k =
            Some (u64 (Z.of_nat (start A k) - 1))).
  { intros k Hk. rewrite (prefix_sums_lookup _ 0).
    - unfold start. by rewrite fmap_take.
    - cbn. rewrite <- length_join. fold (bucket_sort A). rewrite (Permutation_length (bucket_sort_Permutation A HA)). lia.
    - by rewrite Hlen. }
  split; [|exact Hget].
  clear -Hlen. rewrite <- Hlen at 2. generalize (length <$> buckets (Z.to_nat HIST_SIZE) A). generalize 0%Z.
  intros s c. revert s. induction c as [|n c IH]; intros s; cbn; [done|]. by rewrite IH.
Qed.

(** After the items [D] of [L], each is at its place in the bucket. *)
Definition scattered L D (b writer : list Z) : Prop :=
  length writer = length L /\ length b = Z.to_nat HIST_SIZE /\
  (forall k, k < Z.to_nat HIST_SIZE -> b !! k = Some (u64 (Z.of_nat (start L k + length (bucket k D)) - 1))) /\
  (forall k i x, k < Z.to_nat HIST_SIZE -> bucket k D !! i = Some x -> writer !! (start L k + i) = Some x).

Lemma u64_succ_pred n : (Z.of_nat n < 2 ^ 64)%Z -> u64 (u64 (Z.of_nat n - 1) + 1) = Z.of_nat n.
Proof.
  intros H. unfold u64. rewrite Zplus_mod_idemp_l. replace (Z.of_nat n - 1 + 1)%Z with (Z.of_nat n) by lia.
  apply Z.mod_small. lia.
Qed.

(** The place of the next item is free, and inside of the array. *)
Lemma next_place L D x r :
  digit_ok L -> L = D ++ x :: r ->
  digit x < Z.to_nat HIST_SIZE /\ start L (digit x) + length (bucket (digit x) D) < length L /\
  forall k i, k < Z.to_nat HIST_SIZE -> i < length (bucket k D) ->
    start L k + i <> start L (digit x) + length (bucket (digit x) D).
Proof.
  intros HL E. assert (Hx : digit x < Z.to_nat HIST_SIZE).
  { assert (Hin : x ∈ L) by (rewrite E; apply elem_of_app; right; apply list_elem_of_here).
    apply (proj1 (Forall_forall _ _) HL) in Hin. unfold digit. lia. }
  assert (Hlen : forall k, length (bucket k D) + (if decide (k = digit x) then 1 else 0) <= length (bucket k L)).
  { intros k. rewrite E, bucket_app, length_app. destruct (decide (k = digit x)) as [->|]; [rewrite bucket_cons_eq; cbn|]; lia. }
  pose proof (Hlen (digit x)) as Hlx. rewrite decide_True in Hlx by done. split; [done|]. split.
  - pose proof (start_le L (digit x) (Z.to_nat HIST_SIZE) ltac:(lia)). rewrite start_end in * by done. lia.
  - intros k i Hk Hi. pose proof (Hlen k). destruct (lt_eq_lt_dec k (digit x)) as [[H1| ->]|H1]; [|lia|].
    + pose proof (start_le L k (digit x) ltac:(lia)). lia.
    + pose proof (start_le L (digit x) k ltac:(lia)). lia.
Qed.

Lemma scatter_spec L r : forall D b writer,
  digit_ok L -> L = D ++ r -> (Z.of_nat (length L) < 2 ^ 63)%Z -> scattered L D b writer ->
  exists b' writer', scatter get_byte r b writer = Some writer' /\ scattered L L b' writer'.
Proof.
  induction r as [|x r IH]; intros D b writer HL E Hl (Hw & Hb & Hc & Hp); cbn [scatter].
  { rewrite app_nil_r in E. subst D. by exists b, writer. }
  destruct (next_place L D x r HL E) as (Hx & Hlt & Hfree). fold (digit x).
  unfold rd. rewrite (Hc _ Hx). cbn [mbind option_bind]. rewrite u64_succ_pred by lia.
  rewrite wr_Some by lia. cbn [mbind option_bind]. rewrite Nat2Z.id, wr_Some by lia. cbn [mbind option_bind].
  apply (IH (D ++ [x])); [done|by rewrite <- app_assoc|done|]. split; [by rewrite length_insert|]. split; [by rewrite length_insert|].
  split.
  - intros k Hk. rewrite bucket_app, length_app. destruct (decide (k = digit x)) as [->|Hne].
    + rewrite list_lookup_insert_eq by lia. rewrite bucket_cons_eq, bucket_nil. cbn. f_equal. rewrite u64_id by lia. lia.
    + rewrite list_lookup_insert_ne, bucket_cons_ne, bucket_nil by done. cbn. rewrite Nat.add_0_r. by apply Hc.
  - intros k i y Hk Hi. rewrite bucket_app in Hi. destruct (decide (k = digit x)) as [->|Hne].
    + rewrite bucket_cons_eq, bucket_nil in Hi. apply lookup_app_Some in Hi as [Hi|[Hge Hi]].
      * rewrite list_lookup_insert_ne by (apply lookup_lt_Some in Hi as ?; apply not_eq_sym; by apply Hfree). by apply Hp.
      * apply list_lookup_singleton_Some in Hi as [Hi <-]. replace i with (length (bucket (digit x) D)) by lia.
        by rewrite list_lookup_insert_eq by lia.
    + rewrite bucket_cons_ne, bucket_nil, app_nil_r in Hi by done.
      rewrite list_lookup_insert_ne by (apply lookup_lt_Some in Hi as ?; apply not_eq_sym; by apply Hfree). by apply Hp.
Qed.

(** A pass, with counters from a permutation of what it reads, is the reference. *)
Lemma pass_spec A L writer :
  digit_ok L -> A ≡ₚ L -> length writer = length L -> (Z.of_nat (length L) < 2 ^ 63)%Z ->
  exists b, counters get_byte A = Some b /\ scatter get_byte L b writer = Some (bucket_sort L).
Proof.
  intros HL HA Hw Hl. destruct (counters_spec A) as (b & Eb & Hb & Hc);
    [exact (Permutation_Forall (Permutation_sym HA) HL)|by rewrite HA|]. exists b. split; [done|].
  destruct (scatter_spec L L [] b writer) as (b' & w' & -> & (Hw' & _ & _ & Hp)); [done|done|done| |].
  { split; [done|]. split; [done|]. split; [|by intros k i x _ Hi; rewrite bucket_nil, lookup_nil in Hi].
    intros k Hk. rewrite (Hc k Hk), (start_Permutation A L) by done. rewrite bucket_nil. cbn. by rewrite Nat.add_0_r. }
  f_equal. symmetry. apply (list_eq_same_length _ _ (length L)).
  - done.
  - by apply Permutation_length, bucket_sort_Permutation.
  - intros q x y _ Hx Hy. apply bucket_sort_lookup in Hx as (k & i & Hk & Hi & ->). rewrite (Hp k i x) in Hy by done. congruence.
Qed.

(** Sorting by a digit refines the order there was. *)
Definition by_digit (R : Z -> Z -> Prop) (x y : Z) : Prop :=
  (get_byte x < get_byte y \/ get_byte x = get_byte y /\ R x y)%Z.

Lemma SSorted_filter (R : Z -> Z -> Prop) P `{!forall x, Decision (P x)} (l : list Z) :
  Sorted.StronglySorted R l -> Sorted.StronglySorted R (filter P l).
Proof.
  induction 1 as [|x l Hl IH Hx]; [constructor|]. destruct (decide (P x)).
  - rewrite filter_cons_True by done. constructor; [done|]. rewrite Forall_forall in Hx |- *.
    intros y Hy. apply list_elem_of_filter in Hy as [_ Hy]. by apply Hx.
  - by rewrite filter_cons_False.
Qed.

Lemma bucket_sort_sorted R L :
  digit_ok L -> Sorted.StronglySorted R L -> Sorted.StronglySorted (by_digit R) (bucket_sort L).
Proof.
  intros HL HR. unfold bucket_sort. generalize (Z.to_nat HIST_SIZE). intros n.
  assert (Hin : forall k x, x ∈ bucket k L -> digit x = k /\ (0 <= get_byte x)%Z).
  { intros k x Hx. apply list_elem_of_filter in Hx as [Hd Hx]. apply (proj1 (Forall_forall _ _) HL) in Hx. split; [done|lia]. }
  induction n as [|n IH]; [constructor|]. rewrite buckets_S, join_app. cbn. rewrite app_nil_r.
  apply SSorted_app_iff. split; [done|]. split.
  - pose proof (SSorted_filter R (fun x => digit x = n) L HR) as Hs. fold (bucket n L) in Hs.
    assert (Hall : forall x, x ∈ bucket n L -> digit x = n /\ (0 <= get_byte x)%Z) by (intros x; apply Hin).
    induction Hs as [|x l Hl IHl Hx]; [constructor|]. constructor.
    + apply IHl. intros y Hy. apply Hall. by apply list_elem_of_further.
    + rewrite Forall_forall in Hx |- *. intros y Hy. right. split; [|by apply Hx].
      destruct (Hall x (list_elem_of_here _ _)) as [H1 H2]. destruct (Hall y) as [H3 H4]; [by apply list_elem_of_further|].
      unfold digit in *. lia.
  - intros x y Hx Hy. left. destruct (Hin n y Hy) as [H1 H2].
    rewrite join_buckets in Hx. apply list_elem_of_filter in Hx as [Hxn Hx]. apply (proj1 (Forall_forall _ _) HL) in Hx.
    unfold digit in *. lia.
Qed.
End Digit.

(* ------------------------------------------------------------------ *)
(** ** The digits of a number *)

Lemma get_byte_mod k v : 0 <= k -> Z.land (Z.shiftr v k) 0x7FF = (v / 2 ^ k) mod 2 ^ 11.
Proof. intros H. change 0x7FF with (2 ^ 11 - 1). by rewrite land_mask, Z.shiftr_div_pow2 by lia. Qed.

Lemma get_byte_0_mod v : get_byte_0 v = v mod 2 ^ 11.
Proof. unfold get_byte_0. change 0x7FF with (2 ^ 11 - 1). by rewrite land_mask by lia. Qed.

Lemma flip_10 w : 0 <= w < 1024 -> Z.lxor w 0x200 = (w + 512) mod 1024.
Proof.
  intros H. assert (Hall : forallb (fun w => Z.lxor w 0x200 =? (w + 512) mod 1024) (seqZ 0 1024) = true) by (vm_compute; reflexivity).
  rewrite forallb_forall in Hall. apply Z.eqb_eq, Hall, list_elem_of_In, elem_of_seqZ. lia.
Qed.

Lemma flip_11 v : -256 <= v < 256 -> Z.lxor (v mod 2 ^ 11) 0x400 = v + 1024.
Proof.
  intros H. assert (Hall : forallb (fun v => Z.lxor (v mod 2 ^ 11) 0x400 =? v + 1024) (seqZ (-256) 512) = true) by (vm_compute; reflexivity).
  rewrite forallb_forall in Hall. apply Z.eqb_eq, Hall, list_elem_of_In, elem_of_seqZ. lia.
Qed.

(** [v] in the digits of [radix_sort_int32], and of [radix_sort_int64]. *)
Lemma digits_32 v :
  - 2 ^ 31 <= v < 2 ^ 31 ->
  v + 2 ^ 31 = get_byte_2_flip_sign v * 2 ^ 22 + get_byte_1 v * 2 ^ 11 + get_byte_0 v /\
  0 <= get_byte_0 v < 2 ^ 11 /\ 0 <= get_byte_1 v < 2 ^ 11 /\ 0 <= get_byte_2_flip_sign v < 2 ^ 11.
Proof.
  intros H. unfold get_byte_2_flip_sign, get_byte_1. rewrite get_byte_0_mod, get_byte_mod, Z.shiftr_div_pow2 by lia.
  unfold u32. rewrite flip_10 by (Z.div_mod_to_equations; lia). Z.div_mod_to_equations. lia.
Qed.

Lemma digits_64 v :
  - 2 ^ 63 <= v < 2 ^ 63 ->
  v + 2 ^ 65 = get_byte_5_flip_sign v * 2 ^ 55 + get_byte_4 v * 2 ^ 44 + get_byte_3 v * 2 ^ 33 +
    get_byte_2 v * 2 ^ 22 + get_byte_1 v * 2 ^ 11 + get_byte_0 v /\
  0 <= get_byte_0 v < 2 ^ 11 /\ 0 <= get_byte_1 v < 2 ^ 11 /\ 0 <= get_byte_2 v < 2 ^ 11 /\
  0 <= get_byte_3 v < 2 ^ 11 /\ 0 <= get_byte_4 v < 2 ^ 11 /\ 0 <= get_byte_5_flip_sign v < 2 ^ 11.
Proof.
  intros H. unfold get_byte_5_flip_sign, get_byte_4, get_byte_3, get_byte_2, get_byte_1.
  rewrite get_byte_0_mod, !get_byte_mod, flip_11 by (lia || (Z.div_mod_to_equations; lia)).
  Z.div_mod_to_equations. lia.
Qed.

(* ------------------------------------------------------------------ *)
(** ** The radix sorts *)

Lemma no_order (l : list Z) : Sorted.StronglySorted (fun _ _ => True) l.
Proof. induction l; constructor; [done|]. by apply Forall_forall. Qed.

Lemma SSorted_impl (R Q : Z -> Z -> Prop) (l : list Z) :
  (forall x y, x ∈ l -> y ∈ l -> R x y -> Q x y) -> Sorted.StronglySorted R l -> Sorted.StronglySorted Q l.
Proof.
  intros H Hs. induction Hs as [|x l Hl IH Hx]; constructor.
  - apply IH. intros y z Hy Hz. apply H; by apply list_elem_of_further.
  - rewrite Forall_forall in Hx |- *. intros y Hy. apply H; [apply list_elem_of_here|by apply list_elem_of_further|by apply Hx].
Qed.

(** Sorted numbers in ascending order, as a result with what was done to [A]. *)
Definition sorted_from (A A' : list Z) : Prop := A' ≡ₚ A /\ Sorted.StronglySorted Z.le A'.

Section Passes.
Context (A T : list Z) (P : Z -> Prop).
Hypothesis HA : Forall P A.
Hypothesis HT : length T = length A.
Hypothesis Hl : Z.of_nat (length A) < 2 ^ 63.

(** A pass over a permutation [L] of [A] that is sorted by [R]. *)
Lemma pass_next get_byte (R : Z -> Z -> Prop) L writer :
  (forall x, P x -> 0 <= get_byte x < HIST_SIZE) -> L ≡ₚ A -> length writer = length A ->
  Sorted.StronglySorted R L ->
  exists b L', counters get_byte A = Some b /\ scatter get_byte L b writer = Some L' /\
    L' ≡ₚ A /\ length L' = length A /\ Sorted.StronglySorted (by_digit get_byte R) L'.
Proof.
  intros Hg HL Hw Hs. assert (Hok : digit_ok get_byte L).
  { apply (Forall_impl P); [exact (Permutation_Forall (Permutation_sym HL) HA)|exact Hg]. }
  destruct (pass_spec get_byte A L writer) as (b & Hb & Hsc);
    [done|done|by rewrite HL|by rewrite (Permutation_length HL)|].
  exists b, (bucket_sort get_byte L). split; [done|]. split; [done|].
  assert (Hp : bucket_sort get_byte L ≡ₚ A) by (by rewrite bucket_sort_Permutation).
  split; [done|]. split; [by apply Permutation_length|]. by apply bucket_sort_sorted.
Qed.
End Passes.

Lemma radix_sort_int32_spec malloc calloc (A : list Z) :
  Z.of_nat (length A) < 2 ^ 60 -> (forall T, malloc = Some T -> length T = length A) ->
  Forall (fun x => - 2 ^ 31 <= x < 2 ^ 31) A ->
  exists rc A', radix_sort_int32 malloc calloc A = Some (rc, A') /\
    ((rc = 0 /\ sorted_from A A') \/ (rc = -1 /\ A' = A /\ (malloc = None \/ calloc = false))).
Proof.
  intros Hl HT HA. unfold radix_sort_int32. destruct (_ <? HIST_SIZE).
  { destruct (IntSort_spec (S (length A)) A) as (A' & E & H); [lia|]. unfold _intsort. rewrite E. cbn. eauto 10. }
  destruct malloc as [T|]; [|eauto 10]. destruct calloc; [|cbn; eauto 10]. cbn [negb]. specialize (HT T eq_refl).
  assert (Hd : forall x, - 2 ^ 31 <= x < 2 ^ 31 -> 0 <= get_byte_0 x < HIST_SIZE /\ 0 <= get_byte_1 x < HIST_SIZE /\
                 0 <= get_byte_2_flip_sign x < HIST_SIZE) by (intros x Hx; apply (digits_32 x Hx)).
  pose proof (pass_next A _ HA ltac:(lia)) as pass.
  destruct (pass get_byte_0 (fun _ _ => True) A T) as (b0 & L0 & E0 & S0 & P0 & N0 & O0); [by apply Hd|done|done|apply no_order|].
  destruct (pass get_byte_1 _ L0 A ltac:(intros x Hx; apply (Hd x Hx)) P0 eq_refl O0) as (b1 & L1 & E1 & S1 & P1 & N1 & O1).
  destruct (pass get_byte_2_flip_sign _ L1 L0 ltac:(intros x Hx; apply (Hd x Hx)) P1 N0 O1) as (b2 & L2 & E2 & S2 & P2 & N2 & O2).
  rewrite E0, E1, E2. cbn [mbind option_bind]. rewrite S0. cbn [mbind option_bind]. rewrite S1. cbn [mbind option_bind].
  rewrite S2. cbn [mbind option_bind]. exists 0, L2. split; [done|]. left. split; [done|]. split; [done|].
  revert O2. apply SSorted_impl. intros x y Hx Hy H. rewrite P2 in Hx, Hy. rewrite Forall_forall in HA.
  pose proof (digits_32 x (HA x Hx)). pose proof (digits_32 y (HA y Hy)). unfold by_digit in H. lia.
Qed.

Lemma radix_sort_int64_spec malloc calloc (A : list Z) :
  Z.of_nat (length A) < 2 ^ 60 -> (forall T, malloc = Some T -> length T = length A) ->
  Forall (fun x => - 2 ^ 63 <= x < 2 ^ 63) A ->
  exists rc A', radix_sort_int64 malloc calloc A = Some (rc, A') /\
    ((rc = 0 /\ sorted_from A A') \/ (rc = -1 /\ A' = A /\ (malloc = None \/ calloc = false))).
Proof.
  intros Hl HT HA. unfold radix_sort_int64. destruct (_ <? HIST_SIZE).
  { destruct (IntSort_spec (S (length A)) A) as (A' & E & H); [lia|]. unfold _longsort. rewrite E. cbn. eauto 10. }
  destruct malloc as [T|]; [|eauto 10]. destruct calloc; [|cbn; eauto 10]. cbn [negb]. specialize (HT T eq_refl).
  assert (Hd : forall x, - 2 ^ 63 <= x < 2 ^ 63 -> 0 <= get_byte_0 x < HIST_SIZE /\ 0 <= get_byte_1 x < HIST_SIZE /\
                 0 <= get_byte_2 x < HIST_SIZE /\ 0 <= get_byte_3 x < HIST_SIZE /\ 0 <= get_byte_4 x < HIST_SIZE /\
                 0 <= get_byte_5_flip_sign x < HIST_SIZE) by (intros x Hx; apply (digits_64 x Hx)).
  pose proof (pass_next A _ HA ltac:(lia)) as pass.
  destruct (pass get_byte_0 (fun _ _ => True) A T) as (b0 & L0 & E0 & S0 & P0 & N0 & O0); [by apply Hd|done|done|apply no_order|].
  destruct (pass get_byte_1 _ L0 A ltac:(intros x Hx; apply (Hd x Hx)) P0 eq_refl O0) as (b1 & L1 & E1 & S1 & P1 & N1 & O1).
  destruct (pass get_byte_2 _ L1 L0 ltac:(intros x Hx; apply (Hd x Hx)) P1 N0 O1) as (b2 & L2 & E2 & S2 & P2 & N2 & O2).
  destruct (pass get_byte_3 _ L2 L1 ltac:(intros x Hx; apply (Hd x Hx)) P2 N1 O2) as (b3 & L3 & E3 & S3 & P3 & N3 & O3).
  destruct (pass get_byte_4 _ L3 L2 ltac:(intros x Hx; apply (Hd x Hx)) P3 N2 O3) as (b4 & L4 & E4 & S4 & P4 & N4 & O4).
  destruct (pass get_byte_5_flip_sign _ L4 L3 ltac:(intros x Hx; apply (Hd x Hx)) P4 N3 O4) as (b5 & L5 & E5 & S5 & P5 & N5 & O5).
  rewrite E0, E1, E2, E3, E4, E5. cbn [mbind option_bind].
  rewrite S0. cbn [mbind option_bind]. rewrite S1. cbn [mbind option_bind]. rewrite S2. cbn [mbind option_bind].
  rewrite S3. cbn [mbind option_bind]. rewrite S4. cbn [mbind option_bind]. rewrite S5. cbn [mbind option_bind].
  exists 0, L5. split; [done|]. left. split; [done|]. split; [done|].
  revert O5. apply SSorted_impl. intros x y Hx Hy H. rewrite P5 in Hx, Hy. rewrite Forall_forall in HA.
  pose proof (digits_64 x (HA x Hx)). pose proof (digits_64 y (HA y Hy)). unfold by_digit in H. lia.
Qed.

(** C33: [_intsort] and [_longsort] end, stay inside of their array whatever it holds, and sort it in
    ascending order; and so do [radix_sort_int32] and [radix_sort_int64] for numbers of 32 and 64
    bits, which fail only when there is no memory and then leave the array alone. *)
Theorem integer_sorts (malloc : option (list Z)) (calloc : bool) (A : list Z) :
  Z.of_nat (length A) < 2 ^ 60 -> (forall T, malloc = Some T -> length T = length A) ->
  (exists A', _intsort A = Some A' /\ sorted_from A A') /\
  (exists A', _longsort A = Some A' /\ sorted_from A A') /\
  (Forall (fun x => - 2 ^ 31 <= x < 2 ^ 31) A ->
     exists rc A', radix_sort_int32 malloc calloc A = Some (rc, A') /\
       ((rc = 0 /\ sorted_from A A') \/ (rc = -1 /\ A' = A /\ (malloc = None \/ calloc = false)))) /\
  (Forall (fun x => - 2 ^ 63 <= x < 2 ^ 63) A ->
     exists rc A', radix_sort_int64 malloc calloc A = Some (rc, A') /\
       ((rc = 0 /\ sorted_from A A') \/ (rc = -1 /\ A' = A /\ (malloc = None \/ calloc = false)))).
Proof.
  intros Hl HT. pose proof (IntSort_spec (S (length A)) A (Nat.lt_succ_diag_r _)) as Hi.
  split; [exact Hi|]. split; [exact Hi|].
  split; [intros HA; by apply radix_sort_int32_spec|intros HA; by apply radix_sort_int64_spec].
Qed.

Lemma integer_sorts_witness :
  exists A', _intsort [3; 1; 2] = Some A' /\ sorted_from [3; 1; 2] A'.
Proof. apply (integer_sorts None false [3; 1; 2]); [reflexivity|discriminate]. Defined.
