(* ===== verification/Conv.v ===== *)
(** * Reading numbers (libc/fmt)

    strtol.c, strtoul.c and their wide versions wcstol.c and wcstoul.c, over the macros of
    libc/fmt/internal.h, with atoi.c, atol.c and sizetol.c. A string is the list of its characters
    with the NUL, and a pointer into it is what is left of the list; a read behind the end is [None].
    The theorems state the result, the error and the end pointer on every string. *)

From S2P Require Import Prelude.

(** [kBase36]: libc/nexgen32e/kbase36.c, one more than the value of a digit, or 0. *)
Definition kBase36 : list Z :=
  replicate 48 0 ++ [1;2;3;4;5;6;7;8;9;10] ++ replicate 7 0 ++
  [11;12;13;14;15;16;17;18;19;20;21;22;23;24;25;26;27;28;29;30;31;32;33;34;35;36] ++ replicate 6 0 ++
  [11;12;13;14;15;16;17;18;19;20;21;22;23;24;25;26;27;28;29;30;31;32;33;34;35;36] ++ replicate 133 0.

Inductive conv_errno := ERANGE | EINVAL | EOVERFLOW.

(** What a call leaves: its result, the error it stores into errno if any, and what it stores through
    [endptr]. *)
Record conv := { ret : Z; err : option conv_errno; end_ : list Z }.

(** Checked arithmetic: the number if it lies between [lo] and [hi]. *)
Definition ckd (lo hi x : Z) : option Z := if (lo <=? x) && (x <=? hi) then Some x else None.

Definition LONG_MIN : Z := - 2 ^ 63.
Definition LONG_MAX : Z := 2 ^ 63 - 1.
Definition INT_MIN : Z := - 2 ^ 31.
Definition INT_MAX : Z := 2 ^ 31 - 1.
Definition ULONG_MAX : Z := 2 ^ 64 - 1.

Definition isdigit (c : Z) : bool := (48 <=? c) && (c <=? 57).
Definition isxdigit (c : Z) : bool :=
  isdigit c || ((97 <=? c) && (c <=? 102)) || ((65 <=? c) && (c <=? 70)).

(* ------------------------------------------------------------------ *)
(** ** The macros of internal.h *)

Definition is_blank (c : Z) : bool := (c =? # " ") || (c =? 9).

Fixpoint CONSUME_SPACES (s : list Z) : option (list Z * Z) :=
  match s with
  | [] => None
  | c :: s' => if is_blank c then CONSUME_SPACES s' else Some (s, c)
  end.

Definition is_sign (c : Z) : bool := (c =? # "-") || (c =? # "+").

Definition GET_SIGN (s : list Z) (c : Z) : option (list Z * Z * Z) :=
  let d := if c =? # "-" then -1 else 1 in
  if is_sign c then
    let s := tail s in
    c ← head s; Some (s, c, d)
  else Some (s, c, d).

(** The prefix [0x] in front of a hexadecimal digit, and [0b] in front of a binary one; [s] is at
    the letter. *)
Definition is_hex_prefix (s : list Z) (c : Z) : option bool :=
  if (c =? # "x") || (c =? # "X") then c1 ← s !! 1%nat; Some (isxdigit c1) else Some false.
Definition is_bin_prefix (s : list Z) (c : Z) : option bool :=
  if (c =? # "b") || (c =? # "B") then c1 ← s !! 1%nat; Some ((c1 =? # "0") || (c1 =? # "1")) else Some false.

(** [inl] is the return with [EINVAL]; otherwise the position, its character, [t] and the radix. *)
Definition GET_RADIX (s : list Z) (c r : Z) : option (unit + list Z * Z * bool * Z) :=
  if r =? 0 then
    if c =? # "0" then
      let s := tail s in
      c ← head s; hex ← is_hex_prefix s c;
      if (hex : bool) then
        let s := tail s in c ← head s; Some (inr (s, c, true, 16))
      else
        bin ← is_bin_prefix s c;
        if (bin : bool) then
          let s := tail s in c ← head s; Some (inr (s, c, true, 2))
        else Some (inr (s, c, true, 8))
    else Some (inr (s, c, false, 10))
  else if negb ((2 <=? r) && (r <=? 36)) then Some (inl ())
  else if c =? # "0" then
    let s := tail s in
    c ← head s;
    bin ← (if r =? 2 then is_bin_prefix s c else Some false);
    skip ← (if (bin : bool) then Some true else if r =? 16 then is_hex_prefix s c else Some false);
    if (skip : bool) then
      let s := tail s in c ← head s; Some (inr (s, c, true, r))
    else Some (inr (s, c, true, r))
  else Some (inr (s, c, false, r)).

(** [(c = kBase36[c & 255]) && --c < base] *)
Definition base36 (c base : Z) : option Z :=
  let c := tab kBase36 (Z.land c 255) in
  if negb (c =? 0) && (c - 1 <? base) then Some (c - 1) else None.

(* ------------------------------------------------------------------ *)
(** ** strtol and strtoul *)

(** The loop over the digits: [s] is at the digit of the value [c]. *)
Fixpoint strtol_loop (base d : Z) (s : list Z) (c x : Z) (e : option conv_errno) : option (list Z * Z * option conv_errno) :=
  match s with
  | [] => None
  | _ :: s =>
      let '(x, e) :=
        match (x ← ckd LONG_MIN LONG_MAX (x * base); ckd LONG_MIN LONG_MAX (x + c * d)) with
        | Some x => (x, e)
        | None => (if d >? 0 then LONG_MAX else LONG_MIN, Some ERANGE)
        end in
      c1 ← head s;
      match base36 c1 base with
      | Some c => strtol_loop base d s c x e
      | None => Some (s, x, e)
      end
  end.

(** On the characters as [int]s. *)
Definition strtol_impl (s : list Z) (base : Z) : option conv :=
  let start := s in
  '(s, c) ← CONSUME_SPACES s;
  '(s, c, d) ← GET_SIGN s c;
  r ← GET_RADIX s c base;
  match r with
  | inl _ => Some {| ret := 0; err := Some EINVAL; end_ := start |}
  | inr (s, c, t, base) =>
      match base36 c base with
      | Some c =>
          '(s, x, e) ← strtol_loop base d s c 0 None;
          Some {| ret := x; err := e; end_ := s |}
      | None => Some {| ret := 0; err := None; end_ := if (t : bool) then s else start |}
      end
  end.

Fixpoint strtoul_loop (base : Z) (s : list Z) (c x : Z) : option (list Z * option Z) :=
  match s with
  | [] => None
  | _ :: s =>
      match (x ← ckd 0 ULONG_MAX (x * base); ckd 0 ULONG_MAX (x + c)) with
      | None => Some (s, None)
      | Some x =>
          c1 ← head s;
          match base36 c1 base with
          | Some c => strtoul_loop base s c x
          | None => Some (s, Some x)
          end
      end
  end.

Definition strtoul_impl (s : list Z) (base : Z) : option conv :=
  let start := s in
  '(s, c) ← CONSUME_SPACES s;
  '(s, c, d) ← GET_SIGN s c;
  r ← GET_RADIX s c base;
  match r with
  | inl _ => Some {| ret := 0; err := Some EINVAL; end_ := start |}
  | inr (s, c, t, base) =>
      match base36 c base with
      | Some c =>
          '(s, x) ← strtoul_loop base s c 0;
          match x with
          | None => Some {| ret := ULONG_MAX; err := Some ERANGE; end_ := s |}
          | Some x => Some {| ret := if d >? 0 then x else u64 (- x); err := None; end_ := s |}
          end
      | None => Some {| ret := if d >? 0 then 0 else u64 (- 0); err := None; end_ := if (t : bool) then s else start |}
      end
  end.

(** [char] is signed, and [wchar_t] is an [int]. *)
Definition strtol (s : bytes) (base : Z) : option conv := strtol_impl (s8 <$> s) base.
Definition strtoul (s : bytes) (base : Z) : option conv := strtoul_impl (s8 <$> s) base.
Definition wcstol (s : list Z) (base : Z) : option conv := strtol_impl (s32 <$> s) base.
Definition wcstoul (s : list Z) (base : Z) : option conv := strtoul_impl (s32 <$> s) base.

(* ------------------------------------------------------------------ *)
(** ** atoi, atol and sizetol *)

(** [do c = *s++; while (blank); d = ...; if (sign) c = *s++]; [s] is behind [c]. *)
Fixpoint skip_blanks (s : list Z) : option (list Z * Z) :=
  match s with
  | [] => None
  | c :: s => if is_blank c then skip_blanks s else Some (s, c)
  end.

Definition skip_sign (s : list Z) : option (list Z * Z * Z) :=
  '(s, c) ← skip_blanks s;
  let d := if c =? # "-" then -1 else 1 in
  if is_sign c then c ← head s; Some (tail s, c, d) else Some (s, c, d).

(** [for (; isdigit(c); c = *s++)] with checked arithmetic in [lo..hi]; [inl] is the overflow. *)
Fixpoint decimal_loop (lo hi d : Z) (s : list Z) (c x : Z) : option (unit + list Z * Z * Z) :=
  if isdigit c then
    match (x ← ckd lo hi (x * 10); ckd lo hi (x + (c - 48) * d)) with
    | None => Some (inl ())
    | Some x => match s with [] => None | c :: s => decimal_loop lo hi d s c x end
    end
  else Some (inr (s, c, x)).

Definition ato (lo hi : Z) (s : list Z) : option (Z * option conv_errno) :=
  '(s, c, d) ← skip_sign s;
  r ← decimal_loop lo hi d s c 0;
  match r with
  | inl _ => Some (if d >? 0 then hi else lo, Some ERANGE)
  | inr (_, _, x) => Some (x, None)
  end.

Definition atoi (s : bytes) : option (Z * option conv_errno) := ato INT_MIN INT_MAX (s8 <$> s).
Definition atol (s : bytes) : option (Z * option conv_errno) := ato LONG_MIN LONG_MAX (s8 <$> s).

Definition GetExponent (c : Z) : Z :=
  default (-1) (switch c
    [(0, 0); (# " ", 0); (9, 0); (# "k", 1); (# "K", 1); (# "m", 2); (# "M", 2); (# "g", 3); (# "G", 3);
     (# "t", 4); (# "T", 4); (# "p", 5); (# "P", 5); (# "e", 6); (# "E", 6)]).

(** [while (e--) if (ckd_mul(&x, x, b)) ...] *)
Fixpoint scale_loop (e : nat) (x b : Z) : option Z :=
  match e with
  | O => Some x
  | S e => x ← ckd LONG_MIN LONG_MAX (x * b); scale_loop e x b
  end.

Definition sizetol (s : bytes) (b : Z) : option (Z * option conv_errno) :=
  '(s, c, d) ← skip_sign (s8 <$> s);
  if negb (isdigit c) then Some (-1, Some EINVAL) else
  r ← decimal_loop LONG_MIN LONG_MAX d s c 0;
  match r with
  | inl _ => Some (-1, Some EOVERFLOW)
  | inr (_, c, x) =>
      let e := GetExponent c in
      if e =? -1 then Some (-1, Some EINVAL)
      else
        match scale_loop (Z.to_nat e) x b with
        | None => Some (-1, Some EOVERFLOW)
        | Some x => Some (x, None)
        end
  end.

Example strtol_ex : ret <$> strtol (bstr "  -0x1fz" ++ [0]) 0 = Some (-31).
Proof. reflexivity. Qed.
Example strtoul_ex : strtoul (bstr "99999999999999999999" ++ [0]) 10 = Some {| ret := ULONG_MAX; err := Some ERANGE; end_ := [0] |}.
Proof. reflexivity. Qed.
Example sizetol_ex : sizetol (bstr "-3kb" ++ [0]) 1024 = Some (-3072, None).
Proof. reflexivity. Qed.

(* ------------------------------------------------------------------ *)
(** ** What the functions mean *)

(** The value of a character as a digit. *)
Definition digit_value (c : Z) : option Z :=
  if (48 <=? c) && (c <=? 57) then Some (c - 48)
  else if (97 <=? c) && (c <=? 122) then Some (c - 87)
  else if (65 <=? c) && (c <=? 90) then Some (c - 55)
  else None.

Fixpoint drop_while (p : Z -> bool) (s : list Z) : list Z :=
  match s with [] => [] | c :: s' => if p c then drop_while p s' else s end.

Section Meaning.
Context (digit : Z -> option Z).

(** The values of the digits of a radix at the start of a string. *)
Fixpoint digits (radix : Z) (s : list Z) : list Z :=
  match s with
  | [] => []
  | c :: s => match digit c with Some v => if v <? radix then v :: digits radix s else [] | None => [] end
  end.

(** The number that digits spell. *)
Definition number (radix : Z) (vs : list Z) : Z := fold_left (fun x v => x * radix + v) vs 0.

(** [0x] and [0b] count when a digit follows. *)
Definition hex_prefix (s : list Z) : bool :=
  match s with a :: b :: c :: _ => (a =? # "0") && ((b =? # "x") || (b =? # "X")) && isxdigit c | _ => false end.
Definition bin_prefix (s : list Z) : bool :=
  match s with a :: b :: c :: _ => (a =? # "0") && ((b =? # "b") || (b =? # "B")) && ((c =? # "0") || (c =? # "1")) | _ => false end.
Definition zero_prefix (s : list Z) : bool := match s with a :: _ => a =? # "0" | [] => false end.

(** The radix of a number, and its text without a prefix. *)
Definition radix_of (base : Z) (s : list Z) : Z * list Z :=
  if ((base =? 0) || (base =? 16)) && hex_prefix s then (16, drop 2 s)
  else if ((base =? 0) || (base =? 2)) && bin_prefix s then (2, drop 2 s)
  else if base =? 0 then (if zero_prefix s then 8 else 10, s)
  else (base, s).

Definition unsigned (s : list Z) : list Z := match s with c :: s' => if is_sign c then s' else s | [] => [] end.
Definition sign (s : list Z) : Z := match s with c :: _ => if c =? # "-" then -1 else 1 | [] => 1 end.

Definition good_base (base : Z) : bool := (base =? 0) || ((2 <=? base) && (base <=? 36)).

(** A number in the range of [long], or the nearest end of the range and an error. *)
Definition saturate (lo hi x : Z) : Z * option conv_errno :=
  if x <? lo then (lo, Some ERANGE) else if hi <? x then (hi, Some ERANGE) else (x, None).

Definition strtol_spec (s : list Z) (base : Z) : conv :=
  if negb (good_base base) then {| ret := 0; err := Some EINVAL; end_ := s |} else
  let v := drop_while is_blank s in
  let '(radix, text) := radix_of base (unsigned v) in
  let vs := digits radix text in
  if decide (vs = []) then {| ret := 0; err := None; end_ := s |} else
  let '(x, e) := saturate LONG_MIN LONG_MAX (sign v * number radix vs) in
  {| ret := x; err := e; end_ := drop (length vs) text |}.

(** How many digits are read until the number is too large. *)
Fixpoint overrun (radix x : Z) (vs : list Z) : nat :=
  match vs with
  | [] => 0
  | v :: vs => if ULONG_MAX <? x * radix + v then 1 else S (overrun radix (x * radix + v) vs)
  end.

Definition strtoul_spec (s : list Z) (base : Z) : conv :=
  if negb (good_base base) then {| ret := 0; err := Some EINVAL; end_ := s |} else
  let v := drop_while is_blank s in
  let '(radix, text) := radix_of base (unsigned v) in
  let vs := digits radix text in
  if decide (vs = []) then {| ret := 0; err := None; end_ := s |}
  else if number radix vs <=? ULONG_MAX
  then {| ret := u64 (sign v * number radix vs); err := None; end_ := drop (length vs) text |}
  else {| ret := ULONG_MAX; err := Some ERANGE; end_ := drop (overrun radix 0 vs) text |}.
End Meaning.

(* ------------------------------------------------------------------ *)
(** ** Characters *)

(** What the table says of a character of any width. *)
Definition digit36 (c : Z) : option Z :=
  let k := tab kBase36 (Z.land c 255) in if k =? 0 then None else Some (k - 1).

Lemma base36_digit c base :
  base36 c base = match digit36 c with Some v => if v <? base then Some v else None | None => None end.
Proof. unfold base36, digit36. destruct (Z.eqb_spec (tab kBase36 (Z.land c 255)) 0); [done|]. cbn. done. Qed.

Lemma digit36_range c v : digit36 c = Some v -> 0 <= v < 36.
Proof.
  unfold digit36. rewrite land_255. intros H.
  assert (forallb (fun b => (0 <=? tab kBase36 b) && (tab kBase36 b <=? 36)) (zbelow 256) = true) as T by (vm_compute; reflexivity).
  pose proof (forall_byte _ T (c mod 256) (Z.mod_pos_bound c 256 ltac:(lia))) as B. cbn beta in B.
  destruct (Z.eqb_spec (tab kBase36 (c mod 256)) 0); simplify_eq. lia.
Qed.

Lemma digit36_char b : is_byte b -> digit36 (s8 b) = digit_value (s8 b).
Proof.
  intros Hb.
  assert (forallb (fun b => bool_decide (digit36 (s8 b) = digit_value (s8 b))) (zbelow 256) = true) as T
    by (vm_compute; reflexivity).
  pose proof (forall_byte _ T b Hb) as B. cbn beta in B. by apply bool_decide_eq_true in B.
Qed.

Lemma xdigit36 c : isxdigit c = true -> exists v, base36 c 16 = Some v.
Proof.
  intros H. assert (0 <= c < 256) as R.
  { unfold isxdigit, isdigit in H. lia. }
  assert (forallb (fun c => negb (isxdigit c) || bool_decide (is_Some (base36 c 16))) (zbelow 256) = true) as T
    by (vm_compute; reflexivity).
  pose proof (forall_byte _ T c R) as B. cbn beta in B. rewrite H in B. cbn in B. by apply bool_decide_eq_true in B.
Qed.

(* ------------------------------------------------------------------ *)
(** ** The loops *)

Lemma digits_cons36 base c s :
  digits digit36 base (c :: s) = match base36 c base with Some v => v :: digits digit36 base s | None => [] end.
Proof. cbn. rewrite base36_digit. destruct (digit36 c); [|done]. by destruct (_ <? _). Qed.

(** A NUL is no digit, so that one is left behind every digit. *)
Lemma digit_more c s base v : 0 ∈ c :: s -> base36 c base = Some v -> 0 ∈ s.
Proof. intros H E. apply elem_of_cons in H as [<-|H]; [|done]. by vm_compute in E. Qed.

Lemma nonempty_head (s : list Z) : 0 ∈ s -> exists c s', s = c :: s'.
Proof. destruct s; [intros H; by apply elem_of_nil in H|eauto]. Qed.

Lemma ckd_in lo hi x : lo <= x <= hi -> ckd lo hi x = Some x.
Proof. intros. unfold ckd. by replace ((lo <=? x) && (x <=? hi)) with true by lia. Qed.

Lemma ckd_out lo hi x : ~ lo <= x <= hi -> ckd lo hi x = None.
Proof. intros. unfold ckd. by replace ((lo <=? x) && (x <=? hi)) with false by lia. Qed.

Lemma saturate_in lo hi x : lo <= x <= hi -> saturate lo hi x = (x, None).
Proof. intros. unfold saturate. ztest; by try lia. Qed.

Lemma saturate_out lo hi d x :
  lo < 0 -> 0 < hi -> (d = 1 \/ d = -1) -> 0 <= x -> ~ lo <= d * x <= hi ->
  saturate lo hi (d * x) = (if d >? 0 then hi else lo, Some ERANGE).
Proof.
  intros ? ? Hd Hx Out. unfold saturate. destruct Hd as [-> | ->]; cbn [Z.gtb Z.compare]; ztest; by try lia.
Qed.

Section Loops.
Context (base : Z).
Context (Hb : 2 <= base <= 36).

Lemma digits_range s : Forall (fun v => 0 <= v < base) (digits digit36 base s).
Proof.
  induction s as [|c s IH]; [constructor|]. cbn. destruct (digit36 c) as [v|] eqn:E; [|constructor].
  apply digit36_range in E. destruct (Z.ltb_spec v base); constructor; [lia|done].
Qed.

Abbreviation acc := (fold_left (fun x v => x * base + v)).

Lemma acc_mono vs x : Forall (fun v => 0 <= v < base) vs -> 0 <= x -> x <= acc vs x.
Proof.
  intros F. revert x. induction F as [|v vs Hv _ IH]; intros x Hx; cbn; [lia|].
  specialize (IH (x * base + v) ltac:(nia)). nia.
Qed.

(** One digit with saturation. *)
Lemma saturate_step lo hi d x c :
  lo < 0 -> 0 < hi -> (d = 1 \/ d = -1) -> 0 <= x -> 0 <= c < base ->
  match (x ← ckd lo hi ((saturate lo hi (d * x)).1 * base); ckd lo hi (x + c * d)) with
  | Some x' => (x', (saturate lo hi (d * x)).2)
  | None => (if d >? 0 then hi else lo, Some ERANGE)
  end = saturate lo hi (d * (x * base + c)).
Proof using Hb.
  intros Hlo Hhi Hd Hx Hc. assert (x * base >= x * 2) as B by nia.
  destruct (decide (lo <= d * x <= hi)) as [In|Out].
  - rewrite (saturate_in lo hi (d * x)) by done. cbn [fst snd].
    replace (d * x * base) with (d * (x * base)) by lia. generalize dependent (x * base). intros y B.
    destruct (decide (lo <= d * y <= hi)).
    + rewrite ckd_in by done. cbn [mbind option_bind]. destruct (decide (lo <= d * (y + c) <= hi)).
      * rewrite ckd_in, saturate_in by lia. f_equal. lia.
      * rewrite ckd_out by lia. symmetry. apply saturate_out; lia.
    + rewrite ckd_out by lia. cbn. symmetry. apply saturate_out; lia.
  - rewrite (saturate_out lo hi d x) by done. cbn [fst snd]. rewrite ckd_out.
    + cbn [mbind option_bind]. symmetry. apply saturate_out; [lia..|]. nia.
    + destruct Hd as [-> | ->]; cbn [Z.gtb Z.compare]; nia.
Qed.

Lemma strtol_loop_run d s c x :
  (d = 1 \/ d = -1) -> 0 ∈ s -> (ch ← head s; base36 ch base) = Some c -> 0 <= x ->
  strtol_loop base d s c (saturate LONG_MIN LONG_MAX (d * x)).1 (saturate LONG_MIN LONG_MAX (d * x)).2 =
  Some (drop (length (digits digit36 base s)) s,
        (saturate LONG_MIN LONG_MAX (d * acc (digits digit36 base s) x)).1,
        (saturate LONG_MIN LONG_MAX (d * acc (digits digit36 base s) x)).2).
Proof using Hb.
  intros Hd. revert c x. induction s as [|ch s IH]; intros c x Hz Hc Hx; [done|]. cbn in Hc.
  pose proof (digit_more _ _ _ _ Hz Hc) as Hz'. destruct (nonempty_head s Hz') as (c1 & s1 & Es).
  assert (0 <= c < base) as Rc.
  { pose proof (digits_range (ch :: s)) as F. rewrite digits_cons36, Hc in F. by apply Forall_cons in F as [F _]. }
  cbn [strtol_loop]. rewrite saturate_step by (done || (unfold LONG_MIN, LONG_MAX; lia)).
  destruct (saturate LONG_MIN LONG_MAX (d * (x * base + c))) as [x' e'] eqn:E. rewrite digits_cons36, Hc. cbn [length drop fold_left].
  rewrite Es at 1. cbn [head mbind option_bind]. destruct (base36 c1 base) as [c'|] eqn:E1.
  - assert (x' = (saturate LONG_MIN LONG_MAX (d * (x * base + c))).1 /\ e' = (saturate LONG_MIN LONG_MAX (d * (x * base + c))).2)
      as [-> ->] by by rewrite E. apply IH; [done|by rewrite Es|nia].
  - rewrite Es, digits_cons36, E1. cbn. by rewrite E.
Qed.

Lemma strtoul_loop_run s c x :
  0 ∈ s -> (ch ← head s; base36 ch base) = Some c -> 0 <= x <= ULONG_MAX ->
  strtoul_loop base s c x =
  let vs := digits digit36 base s in
  if acc vs x <=? ULONG_MAX then Some (drop (length vs) s, Some (acc vs x)) else Some (drop (overrun base x vs) s, None).
Proof using Hb.
  revert c x. induction s as [|ch s IH]; intros c x Hz Hc Hx; [done|]. cbn in Hc.
  pose proof (digit_more _ _ _ _ Hz Hc) as Hz'. destruct (nonempty_head s Hz') as (c1 & s1 & Es).
  pose proof (digits_range (ch :: s)) as F. rewrite digits_cons36, Hc in F. apply Forall_cons in F as [Rc F].
  cbn [strtoul_loop]. rewrite digits_cons36, Hc. cbn [length drop fold_left overrun]. cbv zeta.
  pose proof (acc_mono _ (x * base + c) F ltac:(nia)) as Mono.
  replace (x' ← ckd 0 ULONG_MAX (x * base); ckd 0 ULONG_MAX (x' + c)) with (ckd 0 ULONG_MAX (x * base + c)).
  2: { destruct (decide (0 <= x * base <= ULONG_MAX)); [by rewrite (ckd_in _ _ (x * base))|]. by rewrite !ckd_out by nia. }
  unfold ckd. replace (0 <=? x * base + c) with true by nia. cbn [andb].
  destruct (Z.leb_spec (x * base + c) ULONG_MAX) as [L|L].
  - destruct (Z.ltb_spec ULONG_MAX (x * base + c)); [lia|]. rewrite Es at 1. cbn [head mbind option_bind].
    destruct (base36 c1 base) as [c'|] eqn:E1.
    + rewrite IH by (done || (rewrite Es; done) || nia). done.
    + rewrite Es, digits_cons36, E1. cbn. replace (x * base + c <=? ULONG_MAX) with true by lia. done.
  - destruct (Z.ltb_spec ULONG_MAX (x * base + c)); [|lia].
    destruct (Z.leb_spec (acc (digits digit36 base s) (x * base + c)) ULONG_MAX); [lia|]. done.
Qed.
End Loops.

(* ------------------------------------------------------------------ *)
(** ** Blanks, signs and prefixes *)

Lemma drop_while_blank s : 0 ∈ s -> exists c v, drop_while is_blank s = c :: v /\ 0 ∈ c :: v /\ CONSUME_SPACES s = Some (c :: v, c).
Proof.
  induction s as [|c s IH]; intros H; [by apply elem_of_nil in H|]. cbn. destruct (is_blank c) eqn:E; [|by exists c, s].
  apply IH. apply elem_of_cons in H as [<-|H]; [by vm_compute in E|done].
Qed.

Lemma get_sign_run c v :
  0 ∈ c :: v -> exists c' v', unsigned (c :: v) = c' :: v' /\ 0 ∈ c' :: v' /\ GET_SIGN (c :: v) c = Some (c' :: v', c', sign (c :: v)).
Proof.
  intros H. unfold GET_SIGN, unsigned, sign. destruct (is_sign c) eqn:E; [|by exists c, v].
  assert (0 ∈ v) as H' by (apply elem_of_cons in H as [<-|H]; [by vm_compute in E|done]).
  destruct (nonempty_head v H') as (c' & v' & ->). by exists c', v'.
Qed.

Lemma sign_cases s : sign s = 1 \/ sign s = -1.
Proof. destruct s as [|c s]; [by left|]. cbn. destruct (_ =? _); auto. Qed.

Lemma is_hex_prefix_run c v : 0 ∈ c :: v -> is_hex_prefix (c :: v) c = Some (hex_prefix (# "0" :: c :: v)).
Proof.
  intros H. unfold is_hex_prefix. cbn. destruct ((c =? _) || (c =? _)) eqn:E; [|by destruct v].
  apply elem_of_cons in H as [<-|H]; [by vm_compute in E|]. by destruct (nonempty_head v H) as (c' & v' & ->).
Qed.

Lemma is_bin_prefix_run c v : 0 ∈ c :: v -> is_bin_prefix (c :: v) c = Some (bin_prefix (# "0" :: c :: v)).
Proof.
  intros H. unfold is_bin_prefix. cbn. destruct ((c =? _) || (c =? _)) eqn:E; [|by destruct v].
  apply elem_of_cons in H as [<-|H]; [by vm_compute in E|]. by destruct (nonempty_head v H) as (c' & v' & ->).
Qed.

Lemma hex_prefix_text a b v :
  hex_prefix (a :: b :: v) = true -> 0 ∈ a :: b :: v ->
  exists c v' x, v = c :: v' /\ 0 ∈ v /\ base36 c 16 = Some x.
Proof.
  destruct v as [|c v']; [done|]. cbn [hex_prefix]. intros [H1 H]%andb_prop Z. destruct (xdigit36 c H) as [x Ex].
  exists c, v', x. split; [done|]. split; [|done].
  apply elem_of_cons in Z as [<-|Z]; [done|]. apply elem_of_cons in Z as [<-|Z]; [|done]. lia.
Qed.

Lemma bin_prefix_text a b v :
  bin_prefix (a :: b :: v) = true -> 0 ∈ a :: b :: v ->
  exists c v' x, v = c :: v' /\ 0 ∈ v /\ base36 c 2 = Some x.
Proof.
  cbn. destruct v as [|c v']; [done|]. intros H Z.
  assert (c = 48 \/ c = 49) as C by lia.
  exists c, v', (c - 48). split; [done|]. split; [|by destruct C as [-> | ->]].
  apply elem_of_cons in Z as [<-|Z]; [done|]. apply elem_of_cons in Z as [<-|Z]; [|done]. lia.
Qed.

Lemma hex_not_bin a b v : hex_prefix (a :: b :: v) = true -> bin_prefix (a :: b :: v) = false.
Proof. destruct v as [|c v]; [done|]. cbn [hex_prefix bin_prefix]. intros [H _]%andb_prop. lia. Qed.

(** What [GET_RADIX] leaves behind: the digits themselves, the digits without a leading zero, or the
    digits behind a prefix, of which there is one at least. *)
Definition radix_done (s1 : list Z) (c1 : Z) (t : bool) (r : Z) (text : list Z) : Prop :=
  head s1 = Some c1 /\ 0 ∈ s1 /\ 2 <= r <= 36 /\
  ((t = false /\ text = s1) \/ (t = true /\ text = # "0" :: s1) \/ (t = true /\ text = s1 /\ exists x, base36 c1 r = Some x)).

Lemma radix_done_plain c s r : 0 ∈ c :: s -> 2 <= r <= 36 -> radix_done (c :: s) c false r (c :: s).
Proof. unfold radix_done. auto 10. Qed.
Lemma radix_done_zero c s r : 0 ∈ c :: s -> 2 <= r <= 36 -> radix_done (c :: s) c true r (# "0" :: c :: s).
Proof. unfold radix_done. auto 10. Qed.
Lemma radix_done_prefix c s r x : base36 c r = Some x -> 0 ∈ c :: s -> 2 <= r <= 36 -> radix_done (c :: s) c true r (c :: s).
Proof. unfold radix_done. intros. eauto 10. Qed.

(** Names the position that [GET_RADIX] computed. *)
Ltac radix_tac :=
  eexists _, _, _; split; [reflexivity|]; rewrite ?andb_false_r; cbn [orb andb fst snd drop];
  first [ eapply radix_done_prefix; [eassumption|assumption|cbn [fst]; lia]
        | apply radix_done_zero; [assumption|cbn [fst]; lia] | apply radix_done_plain; [assumption|cbn [fst]; lia] ].

Lemma get_radix_run base c v :
  0 ∈ c :: v -> good_base base = true ->
  exists s1 c1 t, GET_RADIX (c :: v) c base = Some (inr (s1, c1, t, (radix_of base (c :: v)).1)) /\
    radix_done s1 c1 t (radix_of base (c :: v)).1 (radix_of base (c :: v)).2.
Proof.
  intros Z G. unfold good_base in G. unfold GET_RADIX, radix_of.
  destruct (Z.eqb_spec c (# "0")) as [->|N].
  - assert (0 ∈ v) as Zv by (apply elem_of_cons in Z as [Z|Z]; done).
    destruct (nonempty_head v Zv) as (c1 & v1 & ->). cbn [tail head mbind option_bind zero_prefix].
    rewrite is_hex_prefix_run, is_bin_prefix_run by done. change (# "0" =? # "0") with true.
    destruct (hex_prefix (# "0" :: c1 :: v1)) eqn:HX.
    + destruct (hex_prefix_text _ _ _ HX Z) as (c2 & v2 & x & -> & Z2 & Ex).
      assert (bin_prefix (# "0" :: c1 :: c2 :: v2) = false) as -> by exact (hex_not_bin _ _ _ HX).
      destruct (Z.eqb_spec base 0) as [->|N0]; [radix_tac|].
      replace (negb ((2 <=? base) && (base <=? 36))) with false by lia.
      destruct (Z.eqb_spec base 16) as [->|N16]; cbn [orb andb].
      * radix_tac.
      * rewrite andb_false_r. destruct (base =? 2); (radix_tac).
    + rewrite andb_false_r. destruct (bin_prefix (# "0" :: c1 :: v1)) eqn:BX.
      * destruct (bin_prefix_text _ _ _ BX Z) as (c2 & v2 & x & -> & Z2 & Ex).
        destruct (Z.eqb_spec base 0) as [->|N0]; [radix_tac|].
        replace (negb ((2 <=? base) && (base <=? 36))) with false by lia.
        destruct (Z.eqb_spec base 2) as [->|N2]; cbn [orb andb].
        -- radix_tac.
        -- destruct (base =? 16); (radix_tac).
      * rewrite andb_false_r. destruct (Z.eqb_spec base 0) as [->|N0]; [radix_tac|].
        replace (negb ((2 <=? base) && (base <=? 36))) with false by lia.
        destruct (base =? 2), (base =? 16); (radix_tac).
  - assert (hex_prefix (c :: v) = false) as -> by (destruct v as [|? [|? ?]]; cbn; lia).
    assert (bin_prefix (c :: v) = false) as -> by (destruct v as [|? [|? ?]]; cbn; lia).
    assert (zero_prefix (c :: v) = false) as -> by (cbn; lia). rewrite !andb_false_r.
    destruct (Z.eqb_spec base 0) as [->|N0]; [radix_tac|].
    replace (negb ((2 <=? base) && (base <=? 36))) with false by lia.
    radix_tac.
Qed.

Lemma get_radix_bad base s c : good_base base = false -> GET_RADIX s c base = Some (inl ()).
Proof.
  unfold good_base, GET_RADIX. intros G. destruct (base =? 0); [done|]. cbn [orb] in G. by rewrite G.
Qed.

(** The digits that are left after [GET_RADIX], and those of the whole text. *)
Lemma radix_digits s1 c1 t r text :
  radix_done s1 c1 t r text ->
  let vs := digits digit36 r text in
  match base36 c1 r with
  | Some _ =>
      vs <> [] /\ number r vs = number r (digits digit36 r s1) /\ overrun r 0 vs = (length text - length s1 + overrun r 0 (digits digit36 r s1))%nat /\
      drop (length vs) text = drop (length (digits digit36 r s1)) s1 /\ drop (length text - length s1) text = s1
  | None => if t then vs = [0] /\ text = # "0" :: s1 else vs = []
  end.
Proof.
  intros (Hd & Hz & Hr & C). destruct s1 as [|c s1]; [done|]. cbn [head] in Hd. injection Hd as ->.
  assert (base36 (# "0") r = Some 0) as Z0.
  { unfold base36. change (tab kBase36 (Z.land 48 255)) with 1. cbv zeta. by replace (1 - 1 <? r) with true by lia. }
  destruct C as [[-> ->]|[[-> ->]|(-> & -> & x & Ex)]].
  - rewrite digits_cons36. destruct (base36 c1 r); [|done]. rewrite Nat.sub_diag. done.
  - rewrite (digits_cons36 _ (# "0")), Z0, digits_cons36. destruct (base36 c1 r); [|done].
    cbn [length]. replace (S (S (length s1)) - S (length s1))%nat with 1%nat by lia. cbn [overrun].
    replace (ULONG_MAX <? 0 * r + 0) with false by (unfold ULONG_MAX; lia). done.
  - rewrite Ex, digits_cons36, Ex, Nat.sub_diag. done.
Qed.

Lemma strtol_impl_run s base : 0 ∈ s -> strtol_impl s base = Some (strtol_spec digit36 s base).
Proof.
  intros Hs. unfold strtol_impl, strtol_spec. destruct (drop_while_blank s Hs) as (c & v & -> & Hz & ->). cbn [mbind option_bind].
  destruct (get_sign_run c v Hz) as (c' & v' & -> & Hz' & ->). cbn [mbind option_bind].
  destruct (good_base base) eqn:G; [|by rewrite get_radix_bad]. destruct (get_radix_run base c' v' Hz' G) as (s1 & c1 & t & -> & D).
  destruct (radix_of base (c' :: v')) as [r text]. cbn [fst snd mbind option_bind negb] in *.
  pose proof (radix_digits _ _ _ _ _ D) as X. cbv zeta in X. pose proof D as (Hh & H1 & Hr & _).
  destruct (base36 c1 r) as [k|] eqn:E.
  - destruct X as (NE & N & _ & Dr & _). rewrite decide_False, N, Dr by done.
    pose proof (strtol_loop_run r Hr _ s1 k 0 (sign_cases (c :: v)) H1) as L. rewrite Hh in L. specialize (L E ltac:(lia)).
    rewrite Z.mul_0_r in L. change (saturate LONG_MIN LONG_MAX 0) with (0, @None conv_errno) in L. cbn [fst snd] in L.
    rewrite L. unfold number. cbn [mbind option_bind]. by destruct (saturate _ _ _).
  - destruct t; [destruct X as [-> ->]|rewrite X]; [|done]. rewrite decide_False by done.
    change (number r [0]) with 0. by rewrite Z.mul_0_r.
Qed.

Lemma strtoul_impl_run s base : 0 ∈ s -> strtoul_impl s base = Some (strtoul_spec digit36 s base).
Proof.
  intros Hs. unfold strtoul_impl, strtoul_spec. destruct (drop_while_blank s Hs) as (c & v & -> & Hz & ->). cbn [mbind option_bind].
  destruct (get_sign_run c v Hz) as (c' & v' & -> & Hz' & ->). cbn [mbind option_bind].
  destruct (good_base base) eqn:G; [|by rewrite get_radix_bad]. destruct (get_radix_run base c' v' Hz' G) as (s1 & c1 & t & -> & D).
  destruct (radix_of base (c' :: v')) as [r text]. cbn [fst snd mbind option_bind negb] in *.
  pose proof (radix_digits _ _ _ _ _ D) as X. cbv zeta in X. pose proof D as (Hh & H1 & Hr & _).
  assert (forall x, (if sign (c :: v) >? 0 then x else u64 (- x)) = x \/ sign (c :: v) = -1) as S.
  { intros x. destruct (sign_cases (c :: v)) as [-> | ->]; auto. }
  destruct (base36 c1 r) as [k|] eqn:E.
  - destruct X as (NE & N & O & Dr & Ds). rewrite decide_False, N, Dr, O by done. rewrite <- drop_drop, Ds.
    pose proof (strtoul_loop_run r Hr s1 k 0 H1) as L. rewrite Hh in L. specialize (L E ltac:(unfold ULONG_MAX; lia)).
    cbv zeta in L. rewrite L. change (fold_left _ (digits digit36 r s1) 0) with (number r (digits digit36 r s1)).
    pose proof (acc_mono r Hr (digits digit36 r s1) 0 (digits_range _ _) ltac:(lia)) as P.
    change (fold_left _ (digits digit36 r s1) 0) with (number r (digits digit36 r s1)) in P.
    destruct (Z.leb_spec (number r (digits digit36 r s1)) ULONG_MAX) as [Le|]; [|done]. cbn [mbind option_bind].
    do 2 f_equal. destruct (sign_cases (c :: v)) as [-> | ->]; cbn [Z.gtb Z.compare]; [|f_equal; lia].
    rewrite Z.mul_1_l, u64_id; [done|]. unfold ULONG_MAX in Le. lia.
  - destruct t; [destruct X as [-> ->]|rewrite X].
    + rewrite decide_False by done. change (number r [0]) with 0. rewrite Z.mul_0_r.
      change (0 <=? ULONG_MAX) with true. cbn iota. do 2 f_equal. by destruct (_ >? 0).
    + rewrite decide_True by done. do 2 f_equal. by destruct (_ >? 0).
Qed.

Lemma drop_while_Forall (P : Z -> Prop) p s : Forall P s -> Forall P (drop_while p s).
Proof. induction 1 as [|c s H F IH]; [constructor|]. cbn. destruct (p c); [done|by constructor]. Qed.

Lemma unsigned_Forall (P : Z -> Prop) s : Forall P s -> Forall P (unsigned s).
Proof. destruct 1 as [|c s H F]; [constructor|]. cbn. destruct (is_sign c); [done|by constructor]. Qed.

Lemma radix_of_Forall (P : Z -> Prop) base s : Forall P s -> Forall P (radix_of base s).2.
Proof. intros F. unfold radix_of. repeat case_match; by try apply Forall_drop. Qed.

Lemma nul_char (s : bytes) : 0 ∈ s -> 0 ∈ s8 <$> s.
Proof. intros H. apply list_elem_of_fmap. by exists 0. Qed.

(** Where the table agrees with [digit_value]. *)
Lemma spec_digits (t : list Z) base : Forall (fun c => digit36 c = digit_value c) t ->
  strtol_spec digit36 t base = strtol_spec digit_value t base /\ strtoul_spec digit36 t base = strtoul_spec digit_value t base.
Proof.
  intros B. assert (forall r text, Forall (fun c => digit36 c = digit_value c) text -> digits digit36 r text = digits digit_value r text) as X.
  { intros r text. induction 1 as [|c text E _ IH]; [done|]. cbn. by rewrite E, IH. }
  assert (Forall (fun c => digit36 c = digit_value c) (radix_of base (unsigned (drop_while is_blank t))).2) as F
    by (by apply radix_of_Forall, unsigned_Forall, drop_while_Forall).
  unfold strtol_spec, strtoul_spec. destruct (radix_of base _) as [r text]. cbn [snd] in F. by rewrite (X r text F).
Qed.

Lemma strtol_run s base :
  Bytes s -> 0 ∈ s ->
  strtol s base = Some (strtol_spec digit_value (s8 <$> s) base) /\
  strtoul s base = Some (strtoul_spec digit_value (s8 <$> s) base).
Proof.
  intros B Z%nul_char. unfold strtol, strtoul. rewrite strtol_impl_run, strtoul_impl_run by done.
  destruct (spec_digits (s8 <$> s) base) as [-> ->]; [|done]. apply Forall_fmap. eapply Forall_impl; [exact B|]. apply digit36_char.
Qed.

Lemma digit36_wide b : is_byte b -> digit36 b = digit_value b.
Proof.
  intros Hb.
  assert (forallb (fun b => bool_decide (digit36 b = digit_value b)) (zbelow 256) = true) as T by (vm_compute; reflexivity).
  pose proof (forall_byte _ T b Hb) as B. cbn beta in B. by apply bool_decide_eq_true in B.
Qed.

Lemma wcstol_run s base :
  Bytes s -> 0 ∈ s ->
  wcstol s base = Some (strtol_spec digit_value s base) /\ wcstoul s base = Some (strtoul_spec digit_value s base).
Proof.
  intros B Z. assert (s32 <$> s = s) as E.
  { clear Z. induction B as [|c s Hc _ IH]; [done|]. rewrite fmap_cons, IH. f_equal. unfold is_byte in Hc. apply s32_id. lia. }
  unfold wcstol, wcstoul. rewrite E, strtol_impl_run, strtoul_impl_run by done.
  destruct (spec_digits s base) as [-> ->]; [|done]. eapply Forall_impl; [exact B|]. apply digit36_wide.
Qed.

(** The number at the start of a string, with the text behind it, if there is one. *)
Definition numeral (s : list Z) (base : Z) : option (Z * list Z) :=
  let v := drop_while is_blank s in
  let '(radix, text) := radix_of base (unsigned v) in
  let vs := digits digit_value radix text in
  if decide (vs = []) then None else Some (sign v * number radix vs, drop (length vs) text).

Definition means_signed (s : list Z) (base : Z) (c : conv) : Prop :=
  if negb (good_base base) then ret c = 0 /\ err c = Some EINVAL
  else match numeral s base with
       | None => ret c = 0 /\ err c = None
       | Some (x, rest) => (ret c, err c) = saturate LONG_MIN LONG_MAX x /\ end_ c = rest
       end.

(** What is returned on overflow, and where the end pointer is then, is left open. *)
Definition means_unsigned (s : list Z) (base : Z) (c : conv) : Prop :=
  if negb (good_base base) then ret c = 0 /\ err c = Some EINVAL
  else match numeral s base with
       | None => ret c = 0 /\ err c = None
       | Some (x, rest) =>
           if Z.abs x <=? ULONG_MAX then ret c = u64 x /\ err c = None /\ end_ c = rest else err c = Some ERANGE
       end.

Lemma digits_nonneg radix text : Forall (fun v => 0 <= v) (digits digit_value radix text).
Proof.
  induction text as [|c text IH]; cbn [digits]; [constructor|]. unfold digit_value.
  repeat case_match; simplify_eq; (constructor; [lia|done]) || constructor.
Qed.

Lemma number_nonneg radix vs : 0 <= radix -> Forall (fun v => 0 <= v) vs -> 0 <= number radix vs.
Proof.
  intros R F. unfold number. enough (forall x, 0 <= x -> 0 <= fold_left (fun x v => x * radix + v) vs x) as H by by apply H.
  induction F as [|v vs Hv _ IH]; intros x Hx; [done|]. cbn. apply IH. nia.
Qed.

Lemma spec_signed s base : means_signed s base (strtol_spec digit_value s base).
Proof.
  unfold means_signed, strtol_spec, numeral. destruct (negb (good_base base)); [done|]. destruct (radix_of _ _) as [radix text].
  case_decide; [done|]. by destruct (saturate _ _ _).
Qed.

Lemma spec_unsigned s base : means_unsigned s base (strtoul_spec digit_value s base).
Proof.
  unfold means_unsigned, strtoul_spec, numeral. destruct (negb (good_base base)) eqn:G; [done|].
  assert (0 <= (radix_of base (unsigned (drop_while is_blank s))).1) as R.
  { unfold good_base in G. unfold radix_of. repeat case_match; cbn [fst]; lia. }
  destruct (radix_of _ _) as [radix text]. cbn [fst] in R. case_decide; [done|].
  pose proof (number_nonneg radix _ R (digits_nonneg radix text)) as N.
  replace (Z.abs (sign (drop_while is_blank s) * number radix (digits digit_value radix text))) with (number radix (digits digit_value radix text))
    by (destruct (sign_cases (drop_while is_blank s)) as [-> | ->]; lia).
  by destruct (_ <=? ULONG_MAX).
Qed.

(** C24: strtol, strtoul, wcstol and wcstoul on every string that ends in a NUL (of characters below 256
    for the wide ones) and for every base: they return, reading nothing behind the NUL; a base other
    than 0 and 2 to 36 gives 0 and EINVAL; otherwise blanks and a sign are skipped, base 0 is 16, 2, 8
    or 10 by the prefix, a prefix 0x or 0b counts if a digit follows, and the digits that follow are
    the number, with the end pointer behind them; without digits the result is 0. The signed functions
    saturate at both ends of long and store ERANGE exactly when the number does not fit; the unsigned
    ones negate modulo 2^64, and store ERANGE exactly if the digits are more than ULONG_MAX. *)
Theorem strtol_strtoul_exact s base :
  Bytes s -> 0 ∈ s ->
  (exists c, strtol s base = Some c /\ means_signed (s8 <$> s) base c) /\
  (exists c, strtoul s base = Some c /\ means_unsigned (s8 <$> s) base c) /\
  (exists c, wcstol s base = Some c /\ means_signed s base c) /\
  (exists c, wcstoul s base = Some c /\ means_unsigned s base c).
Proof.
  intros B Z. destruct (strtol_run s base B Z) as [-> ->], (wcstol_run s base B Z) as [-> ->].
  split; [|split; [|split]]; eexists; (split; [reflexivity|]); auto using spec_signed, spec_unsigned.
Qed.

Lemma strtol_strtoul_exact_witness :
  (exists c, strtol (bstr " -0x80000000000000000z" ++ [0]) 0 = Some c /\ ret c = LONG_MIN /\ err c = Some ERANGE /\ end_ c = [# "z"; 0]) /\
  (exists c, wcstoul (bstr "-1" ++ [0]) 10 = Some c /\ ret c = ULONG_MAX /\ err c = None).
Proof.
  split.
  - destruct (strtol_strtoul_exact (bstr " -0x80000000000000000z" ++ [0]) 0) as ((c & E & M) & _); [decide_now..|].
    exists c. split; [exact E|]. destruct c as [r er en]. vm_compute in M. destruct M as [[= -> ->] ->]. split; [vm_compute; reflexivity|]. split; reflexivity.
  - destruct (strtol_strtoul_exact (bstr "-1" ++ [0]) 10) as (_ & _ & _ & c & E & M); [decide_now..|].
    exists c. split; [exact E|]. destruct c as [r er en]. vm_compute in M. destruct M as (-> & -> & _). split; [vm_compute; reflexivity|reflexivity].
Defined.

(** The wide versions look at the low byte of a character only: U+0131 is read as the digit 1. *)
Lemma wcstol_low_byte_defect :
  wcstol [0x131; 0] 10 = Some {| ret := 1; err := None; end_ := [0] |} /\ digit_value 0x131 = None.
Proof. split; vm_compute; reflexivity. Qed.

(* ------------------------------------------------------------------ *)
(** ** Decimal numbers *)

Lemma isdigit_value c : isdigit c = true -> digit_value c = Some (c - 48) /\ 0 <= c - 48 < 10.
Proof. unfold isdigit, digit_value. intros H. rewrite H. split; [done|lia]. Qed.

Lemma isdigit_digits c s :
  digits digit_value 10 (c :: s) = if isdigit c then (c - 48) :: digits digit_value 10 s else [].
Proof.
  cbn. unfold isdigit, digit_value. destruct ((48 <=? c) && (c <=? 57)) eqn:E.
  - by replace (c - 48 <? 10) with true by lia.
  - destruct ((97 <=? c) && (c <=? 122)) eqn:E1; [by replace (c - 87 <? 10) with false by lia|].
    destruct ((65 <=? c) && (c <=? 90)) eqn:E2; [by replace (c - 55 <? 10) with false by lia|done].
Qed.

Abbreviation acc10 := (fold_left (fun x v => x * 10 + v)).

Lemma acc10_mono s x : 0 <= x -> x <= acc10 (digits digit_value 10 s) x.
Proof.
  intros Hx. apply (acc_mono 10 ltac:(lia)); [|done]. clear. induction s as [|c s IH]; [constructor|].
  rewrite isdigit_digits. destruct (isdigit c) eqn:E; [|constructor]. constructor; [by apply isdigit_value|done].
Qed.

Lemma decimal_loop_run lo hi d s c x :
  lo < 0 -> 0 < hi -> (d = 1 \/ d = -1) -> 0 ∈ c :: s -> 0 <= x -> lo <= d * x <= hi ->
  let n := d * acc10 (digits digit_value 10 (c :: s)) x in
  decimal_loop lo hi d s c (d * x) =
  Some (if (lo <=? n) && (n <=? hi) then
          inr (tail (drop (length (digits digit_value 10 (c :: s))) (c :: s)),
               List.hd 0 (drop (length (digits digit_value 10 (c :: s))) (c :: s)), n)
        else inl ()).
Proof.
  intros Hlo Hhi Hd. revert c x. induction s as [|c1 s IH]; intros c x Hz Hx R; cbn [decimal_loop].
  - apply list_elem_of_singleton in Hz as <-. cbn. by replace ((lo <=? d * x) && (d * x <=? hi)) with true by lia.
  - rewrite isdigit_digits. destruct (isdigit c) eqn:E.
    + apply isdigit_value in E as E'. destruct E' as [_ Rc]. cbn [length fold_left drop].
      pose proof (acc10_mono (c1 :: s) (x * 10 + (c - 48)) ltac:(lia)) as Mono.
      assert (0 ∈ c1 :: s) as Hz1 by (apply elem_of_cons in Hz as [<-|Hz]; [done|exact Hz]).
      destruct (decide (lo <= d * (x * 10 + (c - 48)) <= hi)) as [In|Out].
      * rewrite ckd_in by lia. cbn [mbind option_bind]. rewrite ckd_in by lia.
        replace (d * x * 10 + (c - 48) * d) with (d * (x * 10 + (c - 48))) by lia. apply IH; [done|lia|done].
      * assert ((y ← ckd lo hi (d * x * 10); ckd lo hi (y + (c - 48) * d)) = None) as ->.
        { destruct (decide (lo <= d * x * 10 <= hi)); [rewrite ckd_in by done; cbn [mbind option_bind]|by rewrite ckd_out].
          apply ckd_out. lia. }
        set (n := acc10 _ _) in *. by replace ((lo <=? d * n) && (d * n <=? hi)) with false by lia.
    + cbn. by replace ((lo <=? d * x) && (d * x <=? hi)) with true by lia.
Qed.

Lemma skip_sign_run s :
  0 ∈ s -> exists c v, unsigned (drop_while is_blank s) = c :: v /\ 0 ∈ c :: v /\
    skip_sign s = Some (v, c, sign (drop_while is_blank s)).
Proof.
  intros H. unfold skip_sign. assert (exists c v, drop_while is_blank s = c :: v /\ 0 ∈ c :: v /\ skip_blanks s = Some (v, c)) as X.
  { induction s as [|c s IH]; [by apply elem_of_nil in H|]. cbn. destruct (is_blank c) eqn:E; [|by exists c, s].
    apply IH. apply elem_of_cons in H as [<-|H]; [by vm_compute in E|done]. }
  destruct X as (c & v & -> & Hz & ->). cbn [mbind option_bind]. destruct (get_sign_run c v Hz) as (c' & v' & E & Hz' & G).
  exists c', v'. split; [done|]. split; [done|]. unfold GET_SIGN in G. unfold sign. destruct (is_sign c); [|by simplify_eq].
  cbn [tail] in G. destruct v as [|c2 v2]; [done|]. cbn in G |- *. by simplify_eq.
Qed.

(** What atoi, atol and sizetol read. *)
Definition decimal_spec (s : list Z) : Z * list Z :=
  let v := drop_while is_blank s in
  let vs := digits digit_value 10 (unsigned v) in
  (sign v * number 10 vs, drop (length vs) (unsigned v)).

Lemma ato_run lo hi s : lo < 0 -> 0 < hi -> 0 ∈ s -> ato lo hi s = Some (saturate lo hi (decimal_spec s).1).
Proof.
  intros Hlo Hhi Hs. unfold ato, decimal_spec. destruct (skip_sign_run s Hs) as (c & v & -> & Hz & ->).
  set (d := sign _). cbn [mbind option_bind fst]. pose proof (sign_cases (drop_while is_blank s)) as Hd. fold d in Hd.
  pose proof (decimal_loop_run lo hi d v c 0 Hlo Hhi Hd Hz ltac:(lia) ltac:(lia)) as L. rewrite Z.mul_0_r in L.
  rewrite L. change (acc10 _ 0) with (number 10 (digits digit_value 10 (c :: v))).
  pose proof (acc10_mono (c :: v) 0 ltac:(lia)) as P. change (acc10 _ 0) with (number 10 (digits digit_value 10 (c :: v))) in P.
  set (n := number _ _) in *. destruct ((lo <=? d * n) && (d * n <=? hi)) eqn:E; cbn [mbind option_bind].
  - by rewrite saturate_in by lia.
  - rewrite saturate_out; [done|lia..].
Qed.

(** The unit behind the digits of a size, as a power. *)
Definition sizetol_spec (s : list Z) (b : Z) : Z * option conv_errno :=
  let '(n, rest) := decimal_spec s in
  if decide (digits digit_value 10 (unsigned (drop_while is_blank s)) = []) then (-1, Some EINVAL) else
  if negb ((LONG_MIN <=? n) && (n <=? LONG_MAX)) then (-1, Some EOVERFLOW) else
  let e := GetExponent (List.hd 0 rest) in
  if e =? -1 then (-1, Some EINVAL) else
  if (LONG_MIN <=? n * b ^ e) && (n * b ^ e <=? LONG_MAX) then (n * b ^ e, None) else (-1, Some EOVERFLOW).

Lemma scale_loop_run lo hi e x b :
  lo = LONG_MIN -> hi = LONG_MAX -> 1 <= b -> lo <= x <= hi ->
  scale_loop e x b = if (lo <=? x * b ^ Z.of_nat e) && (x * b ^ Z.of_nat e <=? hi) then Some (x * b ^ Z.of_nat e) else None.
Proof.
  intros Elo Ehi Hb. assert (lo < 0 < hi) as R0 by (unfold LONG_MIN, LONG_MAX in *; lia).
  revert x. induction e as [|e IH]; intros x Hx; cbn [scale_loop]; rewrite <- ?Elo, <- ?Ehi.
  - change (b ^ Z.of_nat 0) with 1. rewrite Z.mul_1_r. by replace ((lo <=? x) && (x <=? hi)) with true by lia.
  - rewrite Nat2Z.inj_succ, Z.pow_succ_r by lia. replace (x * (b * b ^ Z.of_nat e)) with (x * b * b ^ Z.of_nat e) by lia.
    assert (0 < b ^ Z.of_nat e) as P by (apply Z.pow_pos_nonneg; lia).
    destruct (decide (lo <= x * b <= hi)) as [In|Out].
    + rewrite ckd_in by done. by apply IH.
    + rewrite ckd_out by done. cbn [mbind option_bind]. clear IH. revert Out P. generalize (b ^ Z.of_nat e) (x * b). intros k y Out Hk. clear -R0 Out Hk.
      assert (y < 0 -> y * k <= y) by nia. assert (0 < y -> y <= y * k) by nia.
      replace ((lo <=? y * k) && (y * k <=? hi)) with false by lia. done.
Qed.

Lemma sizetol_run s b : 1 <= b -> 0 ∈ s8 <$> s -> sizetol s b = Some (sizetol_spec (s8 <$> s) b).
Proof.
  intros Hb Hs. unfold sizetol, sizetol_spec, decimal_spec. generalize dependent (s8 <$> s). clear s. intros s Hs.
  destruct (skip_sign_run s Hs) as (c & v & -> & Hz & ->).
  set (d := sign _). cbn [mbind option_bind]. pose proof (sign_cases (drop_while is_blank s)) as Hd. fold d in Hd.
  pose proof (isdigit_digits c v) as Dg. destruct (isdigit c) eqn:Ec; [|by rewrite decide_True].
  cbn [negb]. rewrite decide_False by by rewrite Dg.
  pose proof (decimal_loop_run LONG_MIN LONG_MAX d v c 0 ltac:(done) ltac:(done) Hd Hz ltac:(lia)
                ltac:(unfold LONG_MIN, LONG_MAX; lia)) as L. rewrite Z.mul_0_r in L.
  rewrite L. change (acc10 _ 0) with (number 10 (digits digit_value 10 (c :: v))).
  set (n := d * number _ _) in *. set (rest := drop _ (c :: v)).
  destruct ((LONG_MIN <=? n) && (n <=? LONG_MAX)) eqn:E; [|done]. cbn [mbind option_bind negb].
  destruct (Z.eqb_spec (GetExponent (List.hd 0 rest)) (-1)) as [Ee|NE]; [done|].
  assert (0 <= GetExponent (List.hd 0 rest)) as Pe.
  { revert NE. unfold GetExponent. cbn [switch]. repeat case_match; cbn; lia. }
  rewrite (scale_loop_run LONG_MIN LONG_MAX) by (done || lia). rewrite Z2Nat.id by done.
  set (y := n * b ^ _). by destruct ((LONG_MIN <=? y) && (y <=? LONG_MAX)).
Qed.

(** atoi, atol and sizetol on every string that ends in a NUL: they read blanks, a sign and decimal
    digits; atoi and atol return the number, or the nearest end of the range of int or long with
    ERANGE. sizetol scales the number by the power of its unit suffix, and fails with EINVAL exactly
    when there are no digits or another character follows them, and with EOVERFLOW exactly when the
    number or its scaled value does not fit. *)
Theorem atoi_atol_sizetol_exact s b :
  0 ∈ s -> 1 <= b ->
  atoi s = Some (saturate INT_MIN INT_MAX (decimal_spec (s8 <$> s)).1) /\
  atol s = Some (saturate LONG_MIN LONG_MAX (decimal_spec (s8 <$> s)).1) /\
  sizetol s b = Some (sizetol_spec (s8 <$> s) b).
Proof.
  intros Hs%nul_char Hb. unfold atoi, atol. rewrite !ato_run, sizetol_run by done. done.
Qed.

Lemma atoi_atol_sizetol_exact_witness :
  atoi (bstr "-2147483649" ++ [0]) = Some (INT_MIN, Some ERANGE) /\
  atol (bstr "+12x" ++ [0]) = Some (12, None) /\
  sizetol (bstr "8E" ++ [0]) 1024 = Some (-1, Some EOVERFLOW).
Proof.
  destruct (atoi_atol_sizetol_exact (bstr "-2147483649" ++ [0]) 1) as (-> & _ & _); [decide_now..|].
  destruct (atoi_atol_sizetol_exact (bstr "+12x" ++ [0]) 1) as (_ & -> & _); [decide_now..|].
  destruct (atoi_atol_sizetol_exact (bstr "8E" ++ [0]) 1024) as (_ & _ & ->); [decide_now..|].
  split; [vm_compute; reflexivity|]. split; vm_compute; reflexivity.
Defined.
