(* ===== verification/Format.v ===== *)
(** * Printing numbers (libc/intrin/format*.c and libc/fmt/format*.c)

    Decimal, octal, hexadecimal and binary numerals, with thousands separators, as the library
    prints them, and that strtol and strtoul of [Conv] read them back. Each function returns the
    text it writes with its NUL, and the length up to the NUL, which is the pointer it returns. *)

From stdpp Require Import sets.
From S2P Require Import Prelude Sorting Conv.

(** [do { p[i++] = x % radix + '0'; x = x / radix; } while (x > 0)]: the digits, last one first. *)
Fixpoint digit_loop (fuel : nat) (radix x : Z) : option bytes :=
  match fuel with
  | O => None
  | S fuel =>
      let c := x mod radix + # "0" in
      let x := x / radix in
      if x >? 0 then p ← digit_loop fuel radix x; Some (c :: p) else Some [c]
  end.

(** [for (; a < b; ++a, --b)] with the exchange of two characters. *)
Fixpoint reverse_loop (fuel : nat) (p : bytes) (a b : nat) : option bytes :=
  match fuel with
  | O => None
  | S fuel => if (a <? b)%nat then p ← swap p a b; reverse_loop fuel p (S a) (b - 1) else Some p
  end.

Definition reverse_digits (p : bytes) : option bytes :=
  match length p with O => Some p | S i => reverse_loop (S i) p 0 i end.

(** A number below [2 ^ 64] has at most 64 digits. *)
Definition FormatUint64 (x : Z) : option (bytes * Z) :=
  p ← digit_loop 64 10 x; p ← reverse_digits p; Some (cbuf p).
Definition FormatUint32 (x : Z) : option (bytes * Z) :=
  p ← digit_loop 32 10 x; p ← reverse_digits p; Some (cbuf p).

(** A character in front of what a function prints. *)
Definition prefixed (pre : bytes) (r : bytes * Z) : bytes * Z := (pre ++ r.1, Z.of_nat (length pre) + r.2).

Definition FormatInt64 (x : Z) : option (bytes * Z) :=
  if x <? 0 then prefixed [# "-"] <$> FormatUint64 (u64 (- u64 x)) else FormatUint64 (u64 x).
Definition FormatInt32 (x : Z) : option (bytes * Z) :=
  if x <? 0 then prefixed [# "-"] <$> FormatUint32 (u32 (- u32 x)) else FormatUint32 (u32 x).

Definition FormatOctal64 (x : Z) (z : bool) : option (bytes * Z) :=
  let z := negb (x =? 0) && z in
  p ← digit_loop 64 8 x; p ← reverse_digits (if z then p ++ [# "0"] else p); Some (cbuf p).
Definition FormatOctal32 (x : Z) (z : bool) : option (bytes * Z) :=
  let z := negb (x =? 0) && z in
  p ← digit_loop 32 8 x; p ← reverse_digits (if z then p ++ [# "0"] else p); Some (cbuf p).

(** formathex64.c. [_bsrl] is the position of the highest bit. *)
Definition hex_width (x : Z) (z : Z) : Z :=
  if negb (z =? 0) then
    if x <? 16 then if x <? 8 then 8 else 16
    else if x <? 32 then 32 else 64
  else Z.land (x + 1 + 3) (-4).

Definition hex_digits : bytes := bstr "0123456789abcdef".

(** [do { *p++ = digits[(x >> (i -= 4)) & 15]; } while (i)]. A shift by less than nothing is undefined. *)
Fixpoint hex_loop (fuel : nat) (x i : Z) : option bytes :=
  match fuel with
  | O => None
  | S fuel =>
      let i := i - 4 in
      if i <? 0 then None else
      let c := tab hex_digits (Z.land (Z.shiftr x i) 15) in
      if i =? 0 then Some [c] else p ← hex_loop fuel x i; Some (c :: p)
  end.

Definition FormatHex64 (x z : Z) : option (bytes * Z) :=
  if negb (x =? 0) then
    p ← hex_loop 16 x (hex_width (Z.log2 x) z);
    Some (cbuf ((if negb (z =? 0) then [# "0"; # "x"] else []) ++ p))
  else Some (cbuf ((if z =? 1 then [# "0"; # "x"] else []) ++ [# "0"])).

(** formatbinary64.c *)
Definition bin_width (x : Z) : nat :=
  if x <? 16 then if x <? 2 then 0 else if x <? 8 then 7 else 15
  else if x <? 32 then 31 else 63.

(** [do { *p++ = '0' + !!(x & 1 << i); } while (i--)] *)
Fixpoint bin_loop (x : Z) (i : nat) : bytes :=
  (# "0" + (if Z.land x (u64 (Z.shiftl 1 (Z.of_nat i))) =? 0 then 0 else 1)) ::
  match i with O => [] | S i => bin_loop x i end.

Definition FormatBinary64 (x z : Z) : bytes * Z :=
  if negb (x =? 0) then
    cbuf ((if negb (z =? 0) then [# "0"; # "b"] else []) ++ bin_loop x (bin_width (Z.log2 x)))
  else cbuf ((if z =? 1 then [# "0"; # "b"] else []) ++ [# "0"]).

(** formatint64thousands.c: the digits are copied from the back, with a comma after every third.
    [i] digits of [m] are left. *)
Fixpoint thousands_loop (m : bytes) (i : nat) : option bytes :=
  match i with
  | O => None
  | S i =>
      c ← m !! i;
      match i with
      | O => Some [c]
      | S _ =>
          p ← thousands_loop m i;
          Some (if (i mod 3 =? 0)%nat then c :: # "," :: p else c :: p)
      end
  end.

Definition FormatUint64Thousands (x : Z) : option (bytes * Z) :=
  m ← digit_loop 64 10 x; p ← thousands_loop m (length m); Some (cbuf p).

Definition FormatInt64Thousands (x : Z) : option (bytes * Z) :=
  if x <? 0 then prefixed [# "-"] <$> FormatUint64Thousands (u64 (- u64 x)) else FormatUint64Thousands (u64 x).

(** [popcnt]: the number of bits that are set. *)
Fixpoint pos_bits (p : positive) : Z :=
  match p with xH => 1 | xO p => pos_bits p | xI p => 1 + pos_bits p end.
Definition popcnt (x : Z) : Z := match x with Z.pos p => pos_bits p | _ => 0 end.

(** formatflex64.c: hexadecimal for the powers of two from 256. *)
Definition FormatFlex64 (x z : Z) : option (bytes * Z) :=
  if (x >=? 256) && (popcnt (u64 x) =? 1) then FormatHex64 (u64 x) z else FormatInt64 x.

Example FormatInt64_ex : fst <$> FormatInt64 (- 2 ^ 63) = Some (bstr "-9223372036854775808" ++ [0]).
Proof. vm_compute. reflexivity. Qed.
Example FormatThousands_ex : fst <$> FormatInt64Thousands (-1234567) = Some (bstr "-1,234,567" ++ [0]).
Proof. vm_compute. reflexivity. Qed.
Example FormatHex64_ex : fst <$> FormatHex64 0xBEEF 2 = Some (bstr "0xbeef" ++ [0]).
Proof. vm_compute. reflexivity. Qed.

(** Two and three take two binary digits, of which the first one is not printed. *)
Lemma FormatBinary64_defect : (FormatBinary64 2 2).1 = bstr "0b0" ++ [0] /\ (FormatBinary64 3 2).1 = bstr "0b1" ++ [0].
Proof. split; vm_compute; reflexivity. Qed.

(* ------------------------------------------------------------------ *)
(** ** Digits *)

Lemma number_snoc radix vs v : number radix (vs ++ [v]) = number radix vs * radix + v.
Proof. unfold number. by rewrite fold_left_app. Qed.

(** The digits come last one first, and make up the number. *)
Lemma digit_loop_run fuel k radix x :
  2 <= radix <= 10 -> 0 <= x < radix ^ Z.of_nat k -> (1 <= k <= fuel)%nat ->
  exists p, digit_loop fuel radix x = Some p /\ Forall (fun c => 48 <= c < 48 + radix) p /\
    (1 <= length p <= k)%nat /\ number radix (rev ((fun c => c - 48) <$> p)) = x /\
    (p = [48] \/ List.last p 48 <> 48).
Proof.
  intros Hr. revert k x. induction fuel as [|fuel IH]; intros k x Hx Hk; [lia|]. cbn [digit_loop].
  pose proof (Z.mod_pos_bound x radix ltac:(lia)) as M. pose proof (Z.div_mod x radix ltac:(lia)) as DM.
  destruct k as [|k]; [lia|]. rewrite Nat2Z.inj_succ, Z.pow_succ_r in Hx by lia.
  destruct (Z.gtb_spec (x / radix) 0) as [G|L].
  - assert (x / radix < radix ^ Z.of_nat k) as B by (apply Z.div_lt_upper_bound; lia).
    assert (k <> 0%nat) as Nk by (intros ->; cbn in B; lia).
    destruct (IH k (x / radix)) as (p & -> & F & Len & N & T); [lia..|]. eexists. split; [done|].
    split; [constructor; [lia|done]|]. split; [cbn [length]; lia|]. split.
    + cbn [fmap list_fmap rev]. rewrite number_snoc. change (list_fmap _ _ _ p) with ((fun c => c - 48) <$> p). rewrite N. lia.
    + right. destruct p as [|c p]; [cbn in Len; lia|]. destruct T as [E|T]; [|done]. simplify_eq.
      cbn in N. lia.
  - assert (x / radix = 0) as Z0 by (pose proof (Z.div_pos x radix ltac:(lia) ltac:(lia)); lia).
    eexists. split; [done|]. split; [repeat constructor; lia|]. split; [cbn; lia|]. split; [cbn; lia|].
    destruct (decide (x mod radix = 0)) as [->|]; [by left|right; cbn; lia].
Qed.

Lemma insert_middle {A} (l r : list A) x y : <[length l := y]> (l ++ x :: r) = l ++ y :: r.
Proof. rewrite insert_app_r_alt by lia. by rewrite Nat.sub_diag. Qed.

Lemma swap_ends {A} (l m r : list A) x y :
  swap (l ++ x :: m ++ y :: r) (length l) (length l + S (length m)) = Some (l ++ y :: m ++ x :: r).
Proof.
  destruct (swap_spec (l ++ x :: m ++ y :: r) (length l) (length l + S (length m))) as (x' & y' & Ex & Ey & ->).
  1,2: rewrite length_app; cbn; rewrite length_app; cbn; lia.
  rewrite list_lookup_middle in Ex by done. rewrite lookup_app_r in Ey by lia.
  replace (length l + S (length m) - length l)%nat with (S (length m)) in Ey by lia.
  change ((m ++ y :: r) !! length m = Some y') in Ey. rewrite list_lookup_middle in Ey by done.
  injection Ex as <-. injection Ey as <-.
  rewrite insert_middle. rewrite app_comm_cons, app_assoc.
  replace (length l + S (length m))%nat with (length (l ++ y :: m)) by (rewrite length_app; cbn; lia).
  rewrite insert_middle. by rewrite <- app_assoc.
Qed.

Lemma reverse_loop_run n fuel l m r :
  length m = n -> (n < 2 * fuel)%nat ->
  reverse_loop fuel (l ++ m ++ r) (length l) (length l + n - 1) = Some (l ++ rev m ++ r).
Proof.
  revert fuel l m r. induction n as [n IH] using lt_wf_ind. intros fuel l m r Hn Hf. destruct fuel as [|fuel]; [lia|].
  cbn [reverse_loop]. destruct m as [|x m].
  { cbn in Hn. subst n. replace (length l <? length l + 0 - 1)%nat with false by (symmetry; apply Nat.ltb_ge; lia). done. }
  destruct m as [|y m _] using rev_ind.
  { cbn in Hn. subst n. replace (length l <? length l + 1 - 1)%nat with false by (symmetry; apply Nat.ltb_ge; lia). done. }
  cbn in Hn. rewrite length_app in Hn. cbn in Hn.
  replace (length l <? length l + n - 1)%nat with true by (symmetry; apply Nat.ltb_lt; lia).
  replace (length l + n - 1)%nat with (length l + S (length m))%nat by lia.
  cbn [app]. rewrite <- app_assoc. cbn [app]. rewrite swap_ends. cbn [mbind option_bind].
  specialize (IH (length m) ltac:(lia) fuel (l ++ [y]) m (x :: r) eq_refl ltac:(lia)).
  rewrite length_app in IH. cbn [length] in IH. rewrite <- !app_assoc in IH. cbn [app] in IH.
  replace (S (length l)) with (length l + 1)%nat by lia.
  replace (length l + S (length m) - 1)%nat with (length l + 1 + length m - 1)%nat by lia. rewrite IH.
  f_equal. f_equal. cbn [rev]. rewrite rev_app_distr. cbn. by rewrite <- app_assoc.
Qed.

Lemma reverse_digits_run p : reverse_digits p = Some (rev p).
Proof.
  unfold reverse_digits. destruct (length p) as [|i] eqn:E; [by destruct p|].
  pose proof (reverse_loop_run (S i) (S i) [] p [] E ltac:(lia)) as L. cbn [app length] in L.
  rewrite !app_nil_r in L. by replace (0 + S i - 1)%nat with i in L by lia.
Qed.

(* ------------------------------------------------------------------ *)
(** ** Reading them back *)

(** Characters that spell digits of a radix. *)
Definition spells (radix : Z) : bytes -> list Z -> Prop :=
  Forall2 (fun c v => digit_value c = Some v /\ 0 <= v < radix /\ 48 <= c < 128).

Lemma s8_ascii c : 0 <= c < 128 -> s8 c = c.
Proof. intros. unfold s8. rewrite Z.mod_small by lia. lia. Qed.

Lemma s8_ascii_list l : Forall (fun c => 0 <= c < 128) l -> s8 <$> l = l.
Proof. induction 1 as [|c l H _ IH]; [done|]. cbn. by rewrite s8_ascii, IH. Qed.

Lemma spells_digits radix text vs : spells radix text vs -> digits digit_value radix (text ++ [0]) = vs.
Proof.
  induction 1 as [|c v text vs (E & R & _) _ IH]; [done|]. cbn. rewrite E.
  replace (v <? radix) with true by lia. by rewrite IH.
Qed.

Lemma spells_ascii radix text vs : spells radix text vs -> Forall (fun c => 0 <= c < 128) text.
Proof. induction 1 as [|c v text vs (_ & _ & R) _ IH]; constructor; [lia|done]. Qed.

Lemma spells_dec radix text :
  2 <= radix <= 10 -> Forall (fun c => 48 <= c < 48 + radix) text -> spells radix text ((fun c => c - 48) <$> text).
Proof.
  intros Hr. induction 1 as [|c text H _ IH]; constructor; [|done]. split; [|lia]. unfold digit_value.
  by replace ((48 <=? c) && (c <=? 57)) with true by lia.
Qed.

(** A text that reads as the number [x] with [base], up to its NUL. *)
Definition reads (out : bytes * Z) (base x : Z) : Prop :=
  out.2 = Z.of_nat (length out.1) - 1 /\ strtoul out.1 base = Some {| ret := x; err := None; end_ := [0] |}.

Lemma not_blank_digit c l : 48 <= c -> drop_while is_blank (c :: l) = c :: l /\ unsigned (c :: l) = c :: l /\ sign (c :: l) = 1.
Proof.
  intros H. assert (is_blank c = false) as E by (unfold is_blank; lia). assert (is_sign c = false) as E1 by (unfold is_sign; lia).
  cbn. rewrite E, E1. by replace (c =? 45) with false by lia.
Qed.

Section Reads.
Context (pre text : bytes) (vs : list Z) (radix base : Z).
Context (Hs : spells radix text vs).
Context (Hne : text <> []).
Context (Hp : Forall (fun c => 48 <= c < 128) pre).
Context (Hb : good_base base = true).
Context (Hr : radix_of base (pre ++ text ++ [0]) = (radix, text ++ [0])).

Lemma reads_text : s8 <$> (pre ++ text ++ [0]) = pre ++ text ++ [0] /\ Bytes (pre ++ text ++ [0]) /\ 0 ∈ pre ++ text ++ [0].
Proof using Hs Hp.
  pose proof (spells_ascii _ _ _ Hs) as A.
  assert (Forall (fun c => 0 <= c < 128) (pre ++ text ++ [0])) as F.
  { apply Forall_app. split; [eapply Forall_impl; [exact Hp|cbn; lia]|]. apply Forall_app. split; [done|]. repeat constructor; lia. }
  split; [by apply s8_ascii_list|]. split; [|rewrite !elem_of_app, list_elem_of_singleton; auto]. eapply Forall_impl; [exact F|]. unfold is_byte. cbn. lia.
Qed.

Lemma reads_start :
  drop_while is_blank (pre ++ text ++ [0]) = pre ++ text ++ [0] /\ unsigned (pre ++ text ++ [0]) = pre ++ text ++ [0] /\
  sign (pre ++ text ++ [0]) = 1.
Proof using Hs Hp Hne.
  clear Hr. destruct pre as [|c p]; [|apply Forall_cons in Hp as [H _]; cbn [app]; apply not_blank_digit; lia].
  destruct Hs as [|c v t w (_ & _ & R)]; [done|]. cbn [app]. apply not_blank_digit. lia.
Qed.

Lemma spells_end : drop (length vs) (text ++ [0]) = [0] /\ vs <> [].
Proof using Hs Hne.
  clear Hr. split; [|by destruct Hs]. rewrite <- (Forall2_length _ _ _ Hs). apply drop_app_length.
Qed.

Lemma strtoul_reads x :
  number radix vs = x -> 0 <= x < 2 ^ 64 -> reads (cbuf (pre ++ text)) base x.
Proof using Hs Hne Hp Hb Hr.
  intros Hn Hx. split; [cbn; rewrite !length_app; cbn; lia|]. unfold cbuf. cbn [fst]. rewrite <- app_assoc.
  destruct reads_text as (E & B & Z0). destruct (strtol_run _ base B Z0) as [_ ->]. rewrite E. unfold strtoul_spec.
  rewrite Hb. destruct reads_start as (-> & -> & ->). rewrite Hr. cbn [negb]. rewrite (spells_digits _ _ _ Hs).
  destruct spells_end as [-> NE]. rewrite decide_False by done. rewrite Hn.
  replace (x <=? ULONG_MAX) with true by (unfold ULONG_MAX; lia). by rewrite Z.mul_1_l, u64_id.
Qed.
End Reads.

(** Which radix a base and a prefix call for. *)
Lemma radix_plain base radix text :
  2 <= base <= 36 -> base = radix -> hex_prefix text = false -> bin_prefix text = false -> radix_of base text = (radix, text).
Proof. intros H <- Hx Hb. unfold radix_of. rewrite Hx, Hb, !andb_false_r. by replace (base =? 0) with false by lia. Qed.

(** Decimal digits are no letters. *)
Lemma prefix_digits text r : Forall (fun c => 48 <= c < 58) text -> hex_prefix (text ++ 0 :: r) = false /\ bin_prefix (text ++ 0 :: r) = false.
Proof.
  intros F. destruct F as [|a text Ha F]; [by destruct r as [|? [|]]|]. destruct F as [|b text Hb F]; cbn.
  - destruct r; split; lia.
  - destruct text as [|c text]; cbn; split; lia.
Qed.

Lemma number_acc radix vs x :
  fold_left (fun x v => x * radix + v) vs x = x * radix ^ Z.of_nat (length vs) + number radix vs.
Proof.
  unfold number. revert x. induction vs as [|v vs IH]; intros x; cbn [fold_left length].
  - change (radix ^ Z.of_nat 0) with 1. lia.
  - rewrite IH, (IH (0 * radix + v)), Nat2Z.inj_succ, Z.pow_succ_r by lia. lia.
Qed.

Lemma number_cons radix v vs : number radix (v :: vs) = v * radix ^ Z.of_nat (length vs) + number radix vs.
Proof. unfold number at 1. cbn [fold_left]. rewrite number_acc. lia. Qed.

(** *** Decimal and octal *)

Lemma digit_loop_text fuel k radix x :
  2 <= radix <= 10 -> 0 <= x < radix ^ Z.of_nat k -> (1 <= k <= fuel)%nat ->
  exists p, digit_loop fuel radix x = Some p /\ spells radix (rev p) ((fun c => c - 48) <$> rev p) /\ rev p <> [] /\
    (length p <= k)%nat /\ number radix ((fun c => c - 48) <$> rev p) = x /\ Forall (fun c => 48 <= c < 58) (rev p) /\
    (x <> 0 -> zero_prefix (rev p) = false).
Proof.
  intros Hr Hx Hk. destruct (digit_loop_run fuel k radix x Hr Hx Hk) as (p & E & F & L & N & T). exists p.
  assert (Forall (fun c => 48 <= c < 48 + radix) (rev p)) as F' by by apply Forall_rev.
  split; [done|]. split; [by apply spells_dec|]. split; [destruct p; [cbn in L; lia|]; cbn; by destruct (rev p)|].
  split; [lia|]. assert (number radix ((fun c => c - 48) <$> rev p) = x) as N'.
  { change ((fun c => c - 48) <$> rev p) with (map (fun c => c - 48) (rev p)). by rewrite map_rev. }
  split; [done|]. split; [eapply Forall_impl; [exact F'|cbn; lia]|]. intros Nx. destruct T as [->|T]; [cbn in N; lia|].
  destruct p as [|c p _] using rev_ind; [done|]. rewrite List.last_last in T. rewrite rev_app_distr. cbn. lia.
Qed.

Lemma FormatUint64_run k x :
  0 <= x < 10 ^ Z.of_nat k -> (1 <= k <= 64)%nat ->
  exists p, FormatUint64 x = Some (cbuf p) /\ (length p <= k)%nat /\ Forall (fun c => 48 <= c < 58) p /\
    (exists vs, spells 10 p vs /\ number 10 vs = x) /\ p <> [] /\ (x <> 0 -> zero_prefix p = false).
Proof.
  intros Hx Hk. destruct (digit_loop_text 64 k 10 x) as (p & E & S & NE & L & N & F & Z0); [lia..|].
  exists (rev p). unfold FormatUint64. rewrite E. cbn [mbind option_bind]. rewrite reverse_digits_run. cbn [mbind option_bind].
  rewrite length_rev. eauto 10.
Qed.

Lemma zero_prefix_app p r : p <> [] -> zero_prefix (p ++ r) = zero_prefix p.
Proof. by destruct p. Qed.

Lemma FormatUint64_reads x base :
  0 <= x < 2 ^ 64 -> base = 0 \/ base = 10 -> exists out, FormatUint64 x = Some out /\ reads out base x /\ (length out.1 <= 21)%nat.
Proof.
  intros Hx Hb. destruct (decide (x = 0)) as [->|Nx].
  { exists (cbuf [48]). split; [vm_compute; reflexivity|]. split; [|cbn; lia]. split; [done|].
    by destruct Hb as [-> | ->]; vm_compute. }
  destruct (FormatUint64_run 20 x) as (p & E & L & F & (vs & S & N) & NE & Z0); [cbn; lia|lia|]. exists (cbuf p).
  split; [done|]. split; [|cbn; rewrite length_app; cbn; lia].
  destruct (prefix_digits p [] F) as [Hp Bp].
  apply (strtoul_reads [] p vs 10 base); [done..|constructor|by destruct Hb as [-> | ->]| |done|done].
  cbn [app]. unfold radix_of. rewrite Hp, Bp, !andb_false_r, zero_prefix_app, Z0 by done. by destruct Hb as [-> | ->].
Qed.

Lemma FormatOctal64_reads x z base :
  0 <= x < 2 ^ 64 -> base = 8 \/ (base = 0 /\ z = true) ->
  exists out, FormatOctal64 x z = Some out /\ reads out base x /\ (length out.1 <= 24)%nat.
Proof.
  intros Hx Hb. destruct (decide (x = 0)) as [->|Nx].
  { exists (cbuf [48]). split; [destruct z; vm_compute; reflexivity|]. split; [|cbn; lia]. split; [done|].
    by destruct Hb as [-> | [-> _]]; vm_compute. }
  destruct (digit_loop_text 64 22 8 x) as (p & E & S & NE & L & N & F & Z0); [lia|cbn; lia|lia|].
  unfold FormatOctal64. rewrite E. cbn [mbind option_bind]. rewrite reverse_digits_run. cbn [mbind option_bind].
  replace (negb (x =? 0) && z) with z by (replace (x =? 0) with false by lia; done).
  set (q := rev (if z then p ++ [48] else p)). exists (cbuf q). split; [done|].
  assert (q = if z then 48 :: rev p else rev p) as Eq by (unfold q; destruct z; [apply rev_app_distr|done]).
  split; [|cbn; rewrite length_app; rewrite Eq; destruct z; cbn; rewrite length_rev; lia].
  assert (spells 8 q ((fun c => c - 48) <$> q) /\ number 8 ((fun c => c - 48) <$> q) = x /\ Forall (fun c => 48 <= c < 58) q /\ q <> []) as (Sq & Nq & Fq & Qn).
  { rewrite Eq. destruct z; [|done]. split; [constructor; [split; [done|lia]|done]|]. split; [cbn [fmap list_fmap]; by rewrite number_cons|].
    split; [by constructor; [lia|]|done]. }
  destruct (prefix_digits q [] Fq) as [Hp Bp].
  apply (strtoul_reads [] q _ 8 base Sq); [done|constructor|by destruct Hb as [-> | [-> ->]]| |done|done].
  cbn [app]. unfold radix_of. rewrite Hp, Bp, !andb_false_r, zero_prefix_app by done.
  destruct Hb as [-> | [-> ->]]; [done|]. by rewrite Eq.
Qed.

(** *** Hexadecimal and binary *)

Lemma hex_digit d : 0 <= d < 16 ->
  digit_value (tab hex_digits d) = Some d /\ 48 <= tab hex_digits d < 128 /\ isxdigit (tab hex_digits d) = true /\
  tab hex_digits d <> # "x" /\ tab hex_digits d <> # "X".
Proof.
  intros Hd.
  assert (forallb (fun d => bool_decide (digit_value (tab hex_digits d) = Some d) && (48 <=? tab hex_digits d) && (tab hex_digits d <? 128)
    && isxdigit (tab hex_digits d) && negb (tab hex_digits d =? # "x") && negb (tab hex_digits d =? # "X")) (zbelow 16) = true) as T
    by (vm_compute; reflexivity).
  pose proof (forall_below 16 _ T d Hd) as B. cbn beta in B.
  repeat match goal with H : _ && _ = true |- _ => apply andb_prop in H as [? ?] end.
  split; [by eapply bool_decide_eq_true|]. split; [lia|]. split; [done|]. split; lia.
Qed.

Lemma hex_loop_run fuel k x :
  0 <= x -> (1 <= k <= fuel)%nat ->
  exists p vs, hex_loop fuel x (4 * Z.of_nat k) = Some p /\ spells 16 p vs /\ length p = k /\
    number 16 vs = x mod 16 ^ Z.of_nat k /\ Forall (fun c => isxdigit c = true /\ c <> # "x" /\ c <> # "X") p.
Proof.
  intros Hx. revert k. induction fuel as [|fuel IH]; intros k Hk; [lia|]. destruct k as [|k]; [lia|]. cbn [hex_loop].
  replace (4 * Z.of_nat (S k) - 4) with (4 * Z.of_nat k) by lia. replace (4 * Z.of_nat k <? 0) with false by lia.
  set (d := Z.land (Z.shiftr x (4 * Z.of_nat k)) 15).
  assert (d = x / 16 ^ Z.of_nat k mod 16) as Ed.
  { unfold d. rewrite land_15, Z.shiftr_div_pow2 by lia. by rewrite Z.pow_mul_r by lia. }
  destruct (hex_digit d) as (V & R & X1 & X2 & X3); [rewrite Ed; apply Z.mod_pos_bound; lia|].
  assert (0 <= d < 16) as Rd by (rewrite Ed; apply Z.mod_pos_bound; lia). clearbody d.
  destruct k as [|k].
  - exists [tab hex_digits d], [d]. split; [done|]. split; [repeat constructor; done || lia|]. split; [done|].
    split; [|repeat constructor; done]. rewrite Ed. cbn. by rewrite Z.div_1_r.
  - destruct (IH (S k)) as (p & vs & -> & Sp & L & N & F); [lia|]. exists (tab hex_digits d :: p), (d :: vs).
    rewrite (proj2 (Z.eqb_neq (4 * Z.of_nat (S k)) 0)) by lia. split; [done|]. split; [constructor; [done|done]|].
    split; [cbn; lia|]. split; [|by constructor]. rewrite number_cons, N.
    assert (length vs = S k) as -> by (rewrite <- (Forall2_length _ _ _ Sp); done).
    rewrite (Nat2Z.inj_succ (S k)), Z.pow_succ_r by lia. rewrite (Z.mul_comm 16).
    rewrite Z.rem_mul_r by lia. rewrite Ed. lia.
Qed.

Lemma hex_width_run x z :
  0 < x < 2 ^ 64 -> exists k, hex_width (Z.log2 x) z = 4 * Z.of_nat k /\ (1 <= k <= 16)%nat /\ x < 16 ^ Z.of_nat k.
Proof.
  intros Hx. pose proof (Z.log2_nonneg x). pose proof (proj2 (Z.log2_spec x ltac:(lia))) as U.
  assert (Z.log2 x < 64) as L by (apply Z.log2_lt_pow2; lia).
  assert (forall nz : bool, forallb (fun b => let w := hex_width b (if nz then 1 else 0) in
     (w mod 4 =? 0) && (4 <=? w) && (w <=? 64) && (b <? w)) (zbelow 64) = true) as T by (intros []; vm_compute; reflexivity).
  assert (hex_width (Z.log2 x) z = hex_width (Z.log2 x) (if negb (z =? 0) then 1 else 0)) as E.
  { unfold hex_width. by destruct (z =? 0). }
  pose proof (forall_below 64 _ (T (negb (z =? 0))) (Z.log2 x) ltac:(lia)) as B. cbn beta zeta in B. rewrite <- E in B.
  set (w := hex_width _ z) in *. exists (Z.to_nat (w / 4)). pose proof (Z.div_mod w 4 ltac:(lia)).
  rewrite Z2Nat.id by (apply Z.div_pos; lia). split; [lia|]. split; [lia|].
  change 16 with (2 ^ 4). rewrite <- Z.pow_mul_r by lia. eapply Z.lt_le_trans; [exact U|]. apply Z.pow_le_mono_r; lia.
Qed.

(** A prefix is not missing when a base is given. *)
Lemma FormatHex64_reads x z base :
  0 <= x < 2 ^ 64 -> base = 16 \/ (base = 0 /\ z <> 0) ->
  exists out, FormatHex64 x z = Some out /\ reads out base x /\ (length out.1 <= 19)%nat.
Proof.
  intros Hx Hb. unfold FormatHex64. destruct (Z.eqb_spec x 0) as [->|Nx]; cbn [negb].
  { eexists. split; [done|]. destruct (Z.eqb_spec z 1) as [->|]; cbn [app].
    - split; [split; [done|]|cbn; lia]. by destruct Hb as [-> | [-> _]]; vm_compute.
    - split; [split; [done|]|cbn; lia]. by destruct Hb as [-> | [-> _]]; vm_compute. }
  destruct (hex_width_run x z) as (k & -> & Hk & Ux); [lia|].
  destruct (hex_loop_run 16 k x) as (p & vs & -> & S & L & N & F); [lia..|]. rewrite Z.mod_small in N by lia. cbn [mbind option_bind].
  eexists. split; [done|]. split; [|cbn; rewrite !length_app; destruct (negb _); cbn; lia].
  destruct p as [|c p]; [cbn in L; lia|]. apply Forall_cons in F as [Fc F].
  eapply (strtoul_reads _ (c :: p) vs 16 base S); [done|destruct (negb _); repeat constructor; lia| | |done|done].
  - by destruct Hb as [-> | [-> _]].
  - destruct (Z.eqb_spec z 0) as [->|Nz]; cbn [negb app].
    + destruct Hb as [-> | [_ ?]]; [|done]. assert (hex_prefix (c :: p ++ [0]) = false) as Hx'.
      { destruct p as [|c1 p]; [done|]. apply Forall_cons in F as [(_ & F1 & F2) F]. cbn [app hex_prefix].
        assert ((c1 =? # "x") || (c1 =? # "X") = false) as -> by lia. destruct (p ++ [0]); [done|]. by rewrite andb_false_r. }
      unfold radix_of. by rewrite Hx'.
    + unfold radix_of. assert (hex_prefix (# "0" :: # "x" :: c :: p ++ [0]) = true) as -> by (cbn [hex_prefix]; by rewrite (proj1 Fc)).
      by destruct Hb as [-> | [-> _]].
Qed.

Lemma bin_digit x i : 0 <= x -> (i < 64)%nat ->
  (if Z.land x (u64 (Z.shiftl 1 (Z.of_nat i))) =? 0 then 0 else 1) = x / 2 ^ Z.of_nat i mod 2.
Proof.
  intros Hx Hi. rewrite <- Z.testbit_spec' by lia. rewrite Z.shiftl_1_l, u64_id.
  2: { split; [apply Z.pow_nonneg; lia|apply Z.pow_lt_mono_r; lia]. }
  assert (Z.land x (2 ^ Z.of_nat i) = if Z.testbit x (Z.of_nat i) then 2 ^ Z.of_nat i else 0) as ->.
  { apply Z.bits_inj'. intros n Hn. rewrite Z.land_spec, Z.pow2_bits_eqb by lia.
    destruct (Z.eqb_spec (Z.of_nat i) n) as [<-|Ne].
    - destruct (Z.testbit x (Z.of_nat i)); [by rewrite Z.pow2_bits_true by lia|by rewrite Z.bits_0].
    - rewrite andb_false_r. destruct (Z.testbit x _); [by rewrite Z.pow2_bits_false by lia|by rewrite Z.bits_0]. }
  destruct (Z.testbit x (Z.of_nat i)); cbn [Z.b2z]; [|done].
  by rewrite (proj2 (Z.eqb_neq _ _)) by (apply Z.pow_nonzero; lia).
Qed.

Lemma bin_loop_run x i : 0 <= x -> (i < 64)%nat ->
  exists vs, spells 2 (bin_loop x i) vs /\ length (bin_loop x i) = S i /\ number 2 vs = x mod 2 ^ Z.of_nat (S i) /\
    Forall (fun c => 48 <= c < 50) (bin_loop x i).
Proof.
  intros Hx. induction i as [|i IH]; intros Hi.
  - cbn [bin_loop]. rewrite bin_digit by (done || lia). cbn [Z.of_nat]. rewrite Z.pow_0_r, Z.div_1_r.
    pose proof (Z.mod_pos_bound x 2 ltac:(lia)) as M. exists [x mod 2]. split.
    + constructor; [|constructor]. split; [|lia]. assert (x mod 2 = 0 \/ x mod 2 = 1) as [-> | ->] by lia; done.
    + split; [done|]. split; [unfold number; cbn [fold_left]; change (2 ^ Z.of_nat 1) with 2; lia|]. apply Forall_singleton. lia.
  - destruct IH as (vs & Sp & L & N & F); [lia|]. cbn [bin_loop]. rewrite bin_digit by (done || lia).
    set (d := x / 2 ^ Z.of_nat (S i) mod 2). assert (0 <= d < 2) as Rd by (apply Z.mod_pos_bound; lia).
    exists (d :: vs). split.
    + constructor; [|done]. split; [|lia]. assert (d = 0 \/ d = 1) as [-> | ->] by lia; done.
    + split; [cbn [length]; by rewrite L|]. split; [|constructor; [lia|done]]. rewrite number_cons, N.
      assert (length vs = S i) as -> by (rewrite <- (Forall2_length _ _ _ Sp); done).
      rewrite (Nat2Z.inj_succ (S i)), Z.pow_succ_r by lia. rewrite (Z.mul_comm 2).
      rewrite Z.rem_mul_r by lia. fold d. lia.
Qed.

Lemma bin_width_run x :
  0 < x < 2 ^ 64 -> x <> 2 -> x <> 3 -> (bin_width (Z.log2 x) < 64)%nat /\ x < 2 ^ Z.of_nat (S (bin_width (Z.log2 x))).
Proof.
  intros Hx N2 N3. pose proof (Z.log2_nonneg x). pose proof (Z.log2_spec x ltac:(lia)) as [U1 U].
  assert (Z.log2 x < 64) as L by (apply Z.log2_lt_pow2; lia).
  assert (forallb (fun b => (b =? 1) || ((Z.of_nat (bin_width b) <? 64) && (b <? Z.of_nat (S (bin_width b))))) (zbelow 64) = true) as T
    by (vm_compute; reflexivity).
  pose proof (forall_below 64 _ T (Z.log2 x) ltac:(lia)) as B. cbn beta in B.
  destruct (Z.eqb_spec (Z.log2 x) 1) as [E|Ne]; [rewrite E in U1, U; change (2 <= x) in U1; change (x < 4) in U; lia|]. cbn [orb] in B.
  apply andb_prop in B as [B1%Z.ltb_lt B2%Z.ltb_lt].
  split; [lia|]. eapply Z.lt_le_trans; [exact U|]. apply Z.pow_le_mono_r; lia.
Qed.

Lemma FormatBinary64_reads x z base :
  0 <= x < 2 ^ 64 -> x <> 2 -> x <> 3 -> base = 2 \/ (base = 0 /\ z <> 0) ->
  reads (FormatBinary64 x z) base x /\ (length (FormatBinary64 x z).1 <= 67)%nat.
Proof.
  intros Hx N2 N3 Hb. unfold FormatBinary64. destruct (Z.eqb_spec x 0) as [->|Nx]; cbn [negb].
  { destruct (Z.eqb_spec z 1) as [->|]; cbn [app]; (split; [split; [done|]|cbn; lia]);
      by destruct Hb as [-> | [-> _]]; vm_compute. }
  destruct (bin_width_run x) as [W U]; [lia..|]. destruct (bin_loop_run x _ ltac:(lia) W) as (vs & Sp & L & N & F).
  rewrite Z.mod_small in N by lia. set (p := bin_loop _ _) in *. clearbody p.
  split; [|cbn; rewrite !length_app; destruct (negb _); cbn; lia].
  assert (p <> []) as NE by (intros ->; done).
  eapply (strtoul_reads _ p vs 2 base Sp); [done|destruct (negb _); repeat constructor; lia| | |done|done].
  - by destruct Hb as [-> | [-> _]].
  - assert (Forall (fun c => 48 <= c < 58) p) as F' by (eapply Forall_impl; [exact F|cbn; lia]).
    destruct (prefix_digits p [] F') as [Hp Bp]. destruct (Z.eqb_spec z 0) as [->|Nz]; cbn [negb app].
    + destruct Hb as [-> | [_ ?]]; [|done]. by apply radix_plain.
    + destruct p as [|c p]; [done|]. apply Forall_cons in F as [Fc _]. unfold radix_of.
      assert (bin_prefix (# "0" :: # "b" :: (c :: p) ++ [0]) = true) as -> by (cbn [bin_prefix app]; lia).
      by destruct Hb as [-> | [-> _]].
Qed.

(** *** Signs *)

Lemma strtol_decimal neg p vs base :
  spells 10 p vs -> p <> [] -> Forall (fun c => 48 <= c < 58) p -> base = 10 \/ (base = 0 /\ zero_prefix p = false) ->
  let x := (if neg : bool then -1 else 1) * number 10 vs in
  LONG_MIN <= x <= LONG_MAX ->
  strtol ((if neg then [# "-"] else []) ++ p ++ [0]) base = Some {| ret := x; err := None; end_ := [0] |} /\
  atol ((if neg then [# "-"] else []) ++ p ++ [0]) = Some (x, None) /\
  (INT_MIN <= x <= INT_MAX -> atoi ((if neg then [# "-"] else []) ++ p ++ [0]) = Some (x, None)).
Proof.
  intros Sp NE F Hb x Hx. set (t := (if neg then [# "-"] else []) ++ p ++ [0]).
  assert (Forall (fun c => 0 <= c < 128) t) as A.
  { unfold t. apply Forall_app. split; [destruct neg; repeat constructor; lia|]. apply Forall_app.
    split; [eapply Forall_impl; [exact F|cbn; lia]|repeat constructor; lia]. }
  assert (0 ∈ t) as Z0 by (unfold t; rewrite !elem_of_app, list_elem_of_singleton; auto).
  assert (Bytes t) as B by (eapply Forall_impl; [exact A|unfold is_byte; cbn; lia]).
  assert (drop_while is_blank t = t /\ unsigned t = p ++ [0] /\ sign t = if neg then -1 else 1) as (E1 & E2 & E3).
  { unfold t. destruct neg; [done|]. cbn [app]. destruct p as [|c p]; [done|]. apply Forall_cons in F as [Fc _].
    destruct (not_blank_digit c (p ++ [0])) as (? & ? & ?); [lia|done]. }
  assert (decimal_spec (s8 <$> t) = (x, [0])) as Ed.
  { rewrite s8_ascii_list by done. unfold decimal_spec. rewrite E1, E2, E3, (spells_digits _ _ _ Sp). f_equal.
    by apply (spells_end p vs 10). }
  unfold atol, atoi. rewrite ato_run, Ed by (done || by apply nul_char). cbn [fst]. rewrite saturate_in by done.
  split; [|split; [done|]].
  - destruct (strtol_run t base B Z0) as [-> _]. rewrite s8_ascii_list by done. unfold strtol_spec. rewrite E1, E2, E3.
    destruct (prefix_digits p [] F) as [Hp Bp].
    assert (radix_of base (p ++ [0]) = (10, p ++ [0])) as ->.
    { unfold radix_of. rewrite Hp, Bp, !andb_false_r, zero_prefix_app by done. by destruct Hb as [-> | [-> ->]]. }
    rewrite (spells_digits _ _ _ Sp). destruct (spells_end p vs 10 Sp NE) as [-> Nv]. rewrite decide_False by done.
    fold x. rewrite saturate_in by done. by destruct Hb as [-> | [-> _]].
  - intros Hi. rewrite ato_run, Ed by (done || by apply nul_char). cbn [fst]. by rewrite saturate_in.
Qed.

Lemma FormatInt64_reads y base :
  - 2 ^ 63 <= y < 2 ^ 63 -> base = 0 \/ base = 10 ->
  exists p, FormatInt64 y = Some (p, Z.of_nat (length p) - 1) /\ strtol p base = Some {| ret := y; err := None; end_ := [0] |} /\
    atol p = Some (y, None) /\ (INT_MIN <= y <= INT_MAX -> atoi p = Some (y, None)) /\ (length p <= 21)%nat.
Proof.
  intros Hy Hb. destruct (decide (y = 0)) as [->|Ny].
  { exists (bstr "0" ++ [0]). split; [vm_compute; reflexivity|]. split; [by destruct Hb as [-> | ->]; vm_compute|]. split; [by vm_compute|]. split; [by vm_compute|cbn; lia]. }
  unfold FormatInt64. destruct (Z.ltb_spec y 0) as [Neg|Pos].
  - assert (u64 (- u64 y) = - y) as ->.
    { unfold u64. replace (- (y mod 2 ^ 64)) with (0 - y mod 2 ^ 64) by lia.
      rewrite Zminus_mod_idemp_r. apply Z.mod_small. lia. }
    destruct (FormatUint64_run 19 (- y)) as (p & -> & L & F & (vs & Sp & N) & NE & Z0); [cbn; lia|lia|].
    destruct (strtol_decimal true p vs base Sp NE F) as (E1 & E2 & E3).
    + destruct Hb as [-> | ->]; [right; split; [done|apply Z0; lia]|by left].
    + rewrite N. unfold LONG_MIN, LONG_MAX. lia.
    + exists ([# "-"] ++ p ++ [0]). rewrite N in E1, E2, E3. replace (-1 * - y) with y in E1, E2, E3 by lia.
      split; [unfold prefixed; cbn; do 2 f_equal; rewrite length_app; cbn; lia|]. split; [done|]. split; [done|]. split; [done|].
      rewrite !length_app; cbn; lia.
  - rewrite u64_id by lia. destruct (FormatUint64_run 19 y) as (p & -> & L & F & (vs & Sp & N) & NE & Z0); [cbn; lia|lia|].
    destruct (strtol_decimal false p vs base Sp NE F) as (E1 & E2 & E3).
    + destruct Hb as [-> | ->]; [right; split; [done|apply Z0; lia]|by left].
    + rewrite N. unfold LONG_MIN, LONG_MAX. lia.
    + exists (p ++ [0]). cbn [app] in E1, E2, E3. rewrite N, Z.mul_1_l in E1, E2, E3.
      split; [unfold cbuf; do 2 f_equal; rewrite length_app; cbn; lia|]. split; [done|]. split; [done|]. split; [done|].
      rewrite !length_app; cbn; lia.
Qed.

(** The 32-bit versions print what the 64-bit ones print. *)
Lemma digit_loop_more f f' radix x p : digit_loop f radix x = Some p -> (f <= f')%nat -> digit_loop f' radix x = Some p.
Proof.
  revert f' x p. induction f as [|f IH]; intros [|f'] x p E L; try done; [lia|]. cbn [digit_loop] in *.
  destruct (_ >? 0); [|done]. destruct (digit_loop f radix (x / radix)) as [q|] eqn:Eq; [|done].
  by rewrite (IH f' _ _ Eq ltac:(lia)).
Qed.

Lemma digit_loop_32 radix x : 2 <= radix <= 10 -> 0 <= x < 2 ^ 32 -> digit_loop 32 radix x = digit_loop 64 radix x.
Proof.
  intros Hr Hx. destruct (digit_loop_run 32 32 radix x Hr) as (p & E & _); [|lia|].
  - split; [lia|]. eapply Z.lt_le_trans; [apply Hx|]. apply Z.pow_le_mono_l. lia.
  - rewrite E. symmetry. apply (digit_loop_more 32); [done|lia].
Qed.

Lemma FormatUint32_64 x : 0 <= x < 2 ^ 32 -> FormatUint32 x = FormatUint64 x.
Proof. intros. unfold FormatUint32, FormatUint64. by rewrite digit_loop_32 by lia. Qed.

Lemma FormatOctal32_64 x z : 0 <= x < 2 ^ 32 -> FormatOctal32 x z = FormatOctal64 x z.
Proof. intros. unfold FormatOctal32, FormatOctal64. by rewrite digit_loop_32 by lia. Qed.

Lemma FormatInt32_64 y : - 2 ^ 31 <= y < 2 ^ 31 -> FormatInt32 y = FormatInt64 y.
Proof.
  intros Hy. unfold FormatInt32, FormatInt64. destruct (Z.ltb_spec y 0).
  - assert (forall w, - w < y -> (- (y mod w)) mod w = - y) as X.
    { intros w Hw. replace (- (y mod w)) with (0 - y mod w) by lia. rewrite Zminus_mod_idemp_r. apply Z.mod_small. lia. }
    unfold u32, u64. rewrite !X by lia. by rewrite FormatUint32_64 by lia.
  - rewrite u32_id, u64_id by lia. apply FormatUint32_64. lia.
Qed.

(** Commas apart, the digits are the ones without separators. *)
Lemma thousands_loop_run m i :
  Forall (fun c => c <> # ",") m -> (1 <= i <= length m)%nat ->
  exists p, thousands_loop m i = Some p /\ filter (fun c => c <> # ",") p = rev (take i m) /\
    length p = (i + (i - 1) / 3)%nat.
Proof.
  intros F. induction i as [|i IH]; intros Hi; [lia|]. destruct (lookup_lt_is_Some_2 m i ltac:(lia)) as [c Ec].
  assert (c <> # ",") as Nc by (rewrite Forall_forall in F; apply F; by eapply list_elem_of_lookup_2).
  cbn [thousands_loop]. rewrite Ec. cbn [mbind option_bind]. rewrite (take_S_r _ _ _ Ec), rev_app_distr. cbn [rev app].
  destruct i as [|i]; [exists [c]; split; [done|]; split; [by rewrite filter_cons_True|done]|].
  destruct IH as (p & -> & E & L); [lia|]. cbn [mbind option_bind]. eexists. split; [done|].
  pose proof (Nat.div_mod_eq (S i) 3). pose proof (Nat.div_mod_eq (S i - 1) 3).
  pose proof (Nat.mod_upper_bound (S i - 1) 3 ltac:(lia)). pose proof (Nat.mod_upper_bound (S i) 3 ltac:(lia)).
  replace (S (S i) - 1)%nat with (S i) by lia. destruct (Nat.eqb_spec (S i mod 3) 0).
  - rewrite filter_cons_True, filter_cons_False by naive_solver. rewrite E. split; [done|]. cbn [length]. lia.
  - rewrite filter_cons_True by done. rewrite E. split; [done|]. cbn [length]. lia.
Qed.

Lemma FormatUint64Thousands_run x :
  0 <= x < 2 ^ 64 ->
  exists p q, FormatUint64Thousands x = Some (cbuf p) /\ FormatUint64 x = Some (cbuf q) /\
    filter (fun c => c <> # ",") p = q /\ length p = (length q + (length q - 1) / 3)%nat /\ (length p <= 26)%nat.
Proof.
  intros Hx. destruct (digit_loop_run 64 20 10 x) as (m & E & F & L & _); [lia|cbn; lia|lia|].
  destruct (thousands_loop_run m (length m)) as (p & Ep & Fp & Lp); [eapply Forall_impl; [exact F|cbn; lia]|lia|].
  exists p, (rev m). unfold FormatUint64Thousands, FormatUint64. rewrite E. cbn [mbind option_bind]. rewrite Ep, reverse_digits_run.
  rewrite firstn_all in Fp || rewrite take_ge in Fp by lia. rewrite length_rev. split; [done|]. split; [done|]. split; [done|]. split; [done|].
  pose proof (Nat.Div0.div_le_mono (length m - 1) 19 3 ltac:(lia)) as D. change (19 / 3)%nat with 6%nat in D. lia.
Qed.

(** C25: Numbers that the library prints are read back by the library: for every 64-bit number, strtoul
    reads the decimal, octal, hexadecimal and (two and three apart) binary numerals that
    FormatUint64, FormatOctal64, FormatHex64 and FormatBinary64 write, with the radix they are in,
    and with base 0 where a prefix was asked for, without an error and up to the NUL; strtol, atol and
    for 32-bit numbers atoi read what FormatInt64 and FormatInt32 write, the most negative number
    included. Commas apart the text with thousands separators is the text without. All of them stay
    within the buffers that their documentation asks for. *)
Theorem Format_strtol_roundtrip x y z :
  0 <= x < 2 ^ 64 -> - 2 ^ 63 <= y < 2 ^ 63 ->
  (forall base, base = 0 \/ base = 10 ->
     exists out, FormatUint64 x = Some out /\ reads out base x /\ (length out.1 <= 21)%nat) /\
  (forall base p, base = 8 \/ (base = 0 /\ p = true) ->
     exists out, FormatOctal64 x p = Some out /\ reads out base x /\ (length out.1 <= 24)%nat) /\
  (forall base, base = 16 \/ (base = 0 /\ z <> 0) ->
     exists out, FormatHex64 x z = Some out /\ reads out base x /\ (length out.1 <= 19)%nat) /\
  (forall base, base = 2 \/ (base = 0 /\ z <> 0) -> x <> 2 -> x <> 3 ->
     reads (FormatBinary64 x z) base x /\ (length (FormatBinary64 x z).1 <= 67)%nat) /\
  (forall base, base = 0 \/ base = 10 ->
     exists p, FormatInt64 y = Some (p, Z.of_nat (length p) - 1) /\ (length p <= 21)%nat /\
       strtol p base = Some {| ret := y; err := None; end_ := [0] |} /\ atol p = Some (y, None) /\
       (INT_MIN <= y <= INT_MAX -> FormatInt32 y = FormatInt64 y /\ atoi p = Some (y, None))) /\
  (exists p q, FormatUint64Thousands x = Some (cbuf p) /\ FormatUint64 x = Some (cbuf q) /\
     filter (fun c => c <> # ",") p = q /\ (length p <= 26)%nat).
Proof.
  intros Hx Hy. split; [intros; by apply FormatUint64_reads|]. split; [intros; by apply FormatOctal64_reads|].
  split; [intros; by apply FormatHex64_reads|]. split; [intros; by apply FormatBinary64_reads|]. split.
  - intros base Hb. destruct (FormatInt64_reads y base Hy Hb) as (p & E & E1 & E2 & E3 & L). exists p.
    split; [done|]. split; [done|]. split; [done|]. split; [done|]. intros R. split; [|by apply E3].
    apply FormatInt32_64. unfold INT_MIN, INT_MAX in R. lia.
  - destruct (FormatUint64Thousands_run x Hx) as (p & q & ? & ? & ? & _ & ?). eauto 10.
Qed.

Lemma Format_strtol_roundtrip_witness :
  exists p, FormatInt64 (-42) = Some (p, Z.of_nat (length p) - 1) /\ strtol p 0 = Some {| ret := -42; err := None; end_ := [0] |} /\
    exists out, FormatHex64 255 1 = Some out /\ reads out 0 255.
Proof.
  destruct (Format_strtol_roundtrip 255 (-42) 1) as (_ & _ & H & _ & I & _); [lia..|].
  destruct (I 0) as (p & E1 & _ & E2 & _); [by left|]. destruct (H 0) as (out & E3 & E4 & _); [right; lia|].
  exists p. split; [exact E1|]. split; [exact E2|]. exists out. split; [exact E3|exact E4].
Defined.
