(* ===== verification/Leb.v ===== *)
(** * Variable length integers (libc/fmt/*leb64.c)

    Little-endian groups of seven bits, with the high bit set where more follow: unsigned (uleb64.c,
    unuleb64.c), signed by zig-zag (zleb64.c, unzleb64.c), and sleb64.c. An encoder returns the bytes
    it writes; a decoder is given the bytes up to its capacity [n]. *)

From S2P Require Import Prelude.

(** The loop of uleb64 and zleb64. *)
Fixpoint uleb_loop (fuel : nat) (x : Z) : option bytes :=
  match fuel with
  | O => None
  | S fuel =>
      let c := Z.land x 127 in
      let x := Z.shiftr x 7 in
      if x =? 0 then Some [u8 c]
      else p ← uleb_loop fuel x; Some (u8 (Z.lor c 128) :: p)
  end.

Definition uleb64 (x : Z) : option bytes := uleb_loop 10 x.

(** [for (k = t = i = 0; i < n; ++i, k += 7)]; a shift by 64 or more is undefined. The result is what
    is returned and what is stored through [x]. *)
Fixpoint unuleb_loop (p : bytes) (i k t : Z) : option (Z * option Z) :=
  match p with
  | [] => Some (-1, None)
  | c :: p =>
      if 64 <=? k then None else
      let t := Z.lor t (u64 (Z.shiftl (Z.land (s8 c) 127) k)) in
      if negb (Z.land (Z.lnot (s8 c)) 128 =? 0) then Some (i + 1, Some t)
      else unuleb_loop p (i + 1) (k + 7) t
  end.

Definition unuleb64 (p : bytes) : option (Z * option Z) := unuleb_loop p 0 0 0.

(** Zig-zag: the sign becomes the lowest bit. *)
Definition zigzag (x : Z) : Z := Z.lxor (u64 (Z.shiftl (u64 x) 1)) (u64 (Z.shiftr x 63)).

Definition zleb64 (x : Z) : option bytes := uleb_loop 10 (zigzag x).

(** [(u >> 1) ^ -(u & 1)] *)
Definition unzigzag (u : Z) : Z := s64 (Z.lxor (Z.shiftr u 1) (u64 (- Z.land u 1))).

(** [do ... while (c & 128)]: bits behind the tenth byte are dropped. *)
Fixpoint unzleb_loop (p : bytes) (i u : Z) : option (Z * option Z) :=
  match p with
  | [] => Some (-1, None)
  | c :: p =>
      let c := Z.land (s8 c) 255 in
      let u := if i <? 10 then Z.lor u (u64 (Z.shiftl (Z.land c 127) (i * 7))) else u in
      if Z.land c 128 =? 0 then Some (i + 1, Some (unzigzag u)) else unzleb_loop p (i + 1) u
  end.

Definition unzleb64 (p : bytes) : option (Z * option Z) := unzleb_loop p 0 0.

(** sleb64.c *)
Fixpoint sleb_loop (fuel : nat) (x : Z) : option bytes :=
  match fuel with
  | O => None
  | S fuel =>
      let c := Z.land x 127 in
      let x := Z.shiftr x 7 in
      if ((x =? 0) && (Z.land c 64 =? 0)) || ((x =? -1) && negb (Z.land c 64 =? 0)) then Some [u8 c]
      else p ← sleb_loop fuel x; Some (u8 (Z.lor c 64) :: p)
  end.

Definition sleb64 (x : Z) : option bytes := sleb_loop 10 x.

Example uleb64_ex : uleb64 624485 = Some [0xe5; 0x8e; 0x26].
Proof. vm_compute. reflexivity. Qed.
Example unuleb64_ex : unuleb64 [0xe5; 0x8e; 0x26; 7] = Some (3, Some 624485).
Proof. vm_compute. reflexivity. Qed.
Example zleb64_ex : zleb64 (-2 ^ 63) = Some [255; 255; 255; 255; 255; 255; 255; 255; 255; 1].
Proof. vm_compute. reflexivity. Qed.

(** sleb64 marks the bytes that are followed by others with the bit 64, which is the sign, and not
    with 128: no number that takes two bytes can be told from one that takes one byte. *)
Lemma sleb64_defect : sleb64 128 = Some [64; 1] /\ sleb64 (-64) = Some [64].
Proof. split; vm_compute; reflexivity. Qed.

(** unuleb64 shifts by as much as the input says. *)
Lemma unuleb64_defect : unuleb64 (replicate 10 128 ++ [0]) = None.
Proof. vm_compute. reflexivity. Qed.

(* ------------------------------------------------------------------ *)
(** ** Bytes of a number *)

Lemma land_127 x : Z.land x 127 = x mod 128.
Proof. apply (land_mask x 7). lia. Qed.

Lemma shiftr_7 x : Z.shiftr x 7 = x / 128.
Proof. by rewrite Z.shiftr_div_pow2 by lia. Qed.

(** The two kinds of bytes, last and not last, as both decoders see them. *)
Lemma last_byte v : 0 <= v < 128 ->
  u8 v = v /\ Z.land (s8 v) 127 = v /\ negb (Z.land (Z.lnot (s8 v)) 128 =? 0) = true /\
  Z.land (s8 v) 255 = v /\ Z.land v 127 = v /\ (Z.land v 128 =? 0) = true.
Proof.
  intros Hv.
  assert (forallb (fun v => (u8 v =? v) && (Z.land (s8 v) 127 =? v) && negb (Z.land (Z.lnot (s8 v)) 128 =? 0) &&
    (Z.land (s8 v) 255 =? v) && (Z.land v 127 =? v) && (Z.land v 128 =? 0)) (zbelow 128) = true) as T by (vm_compute; reflexivity).
  pose proof (forall_below 128 _ T v Hv) as B. cbn beta in B.
  repeat match goal with H : _ && _ = true |- _ => apply andb_prop in H as [? ?] end.
  split_and!; first [by apply Z.eqb_eq|done].
Qed.

Lemma more_byte v : 0 <= v < 128 ->
  let c := u8 (Z.lor v 128) in
  Z.land (s8 c) 127 = v /\ negb (Z.land (Z.lnot (s8 c)) 128 =? 0) = false /\
  Z.land (s8 c) 255 = c /\ Z.land c 127 = v /\ (Z.land c 128 =? 0) = false.
Proof.
  intros Hv.
  assert (forallb (fun v => let c := u8 (Z.lor v 128) in (Z.land (s8 c) 127 =? v) && (Z.land (Z.lnot (s8 c)) 128 =? 0) &&
    (Z.land (s8 c) 255 =? c) && (Z.land c 127 =? v) && negb (Z.land c 128 =? 0)) (zbelow 128) = true) as T by (vm_compute; reflexivity).
  pose proof (forall_below 128 _ T v Hv) as B. cbn beta zeta in B |- *.
  repeat match goal with H : _ && _ = true |- _ => apply andb_prop in H as [? ?] end. 
  split_and!; first [by apply Z.eqb_eq|by apply negb_false_iff|by apply negb_true_iff].
Qed.

(** The next group goes above the ones that were read. *)
Lemma lor_group t v k : 0 <= k -> 0 <= t < 2 ^ k -> 0 <= v * 2 ^ k < 2 ^ 64 ->
  Z.lor t (u64 (Z.shiftl v k)) = t + v * 2 ^ k.
Proof.
  intros Hk Ht Hv. rewrite Z.shiftl_mul_pow2, u64_id by lia. rewrite Z.lor_comm, <- Z.shiftl_mul_pow2 by lia.
  rewrite lor_shiftl_add, Z.shiftl_mul_pow2 by lia. lia.
Qed.

(** What follows a group. *)
Lemma group_step x k : 0 <= x -> 0 <= k -> x * 2 ^ k = x mod 128 * 2 ^ k + x / 128 * 2 ^ (k + 7) /\ 0 <= x mod 128 * 2 ^ k <= x * 2 ^ k.
Proof.
  intros Hx Hk. rewrite Z.pow_add_r by lia. change (2 ^ 7) with 128. pose proof (Z.div_mod x 128 ltac:(lia)).
  pose proof (Z.mod_pos_bound x 128 ltac:(lia)). pose proof (Z.pow_pos_nonneg 2 k ltac:(lia) Hk).
  pose proof (Z.div_pos x 128 Hx ltac:(lia)). split; nia.
Qed.

(* ------------------------------------------------------------------ *)
(** ** Round trips *)

Lemma uleb_loop_cons fuel x p :
  uleb_loop (S fuel) x = Some p -> 0 <= x ->
  (x / 128 = 0 /\ p = [x mod 128] /\ x = x mod 128) \/
  (x / 128 > 0 /\ exists q, p = u8 (Z.lor (x mod 128) 128) :: q /\ uleb_loop fuel (x / 128) = Some q).
Proof.
  cbn [uleb_loop]. rewrite land_127, shiftr_7. intros E Hx. pose proof (Z.mod_pos_bound x 128 ltac:(lia)).
  pose proof (Z.div_mod x 128 ltac:(lia)). pose proof (Z.div_pos x 128 Hx ltac:(lia)).
  destruct (Z.eqb_spec (x / 128) 0) as [Z0|NZ].
  - left. injection E as <-. split; [done|]. split; [|lia]. by rewrite (proj1 (last_byte (x mod 128) ltac:(lia))).
  - right. split; [lia|]. destruct (uleb_loop fuel (x / 128)) as [q|]; [|done]. injection E as <-. eauto.
Qed.

Lemma uleb_loop_total k x : 0 <= x < 128 ^ Z.of_nat (S k) -> exists p, uleb_loop (S k) x = Some p /\ (1 <= length p <= S k)%nat.
Proof.
  revert x. induction k as [|k IH]; intros x Hx.
  - change (128 ^ Z.of_nat 1) with 128 in Hx. cbn [uleb_loop]. rewrite land_127, shiftr_7, Z.div_small by lia. cbn. eauto.
  - cbn [uleb_loop]. rewrite shiftr_7. destruct (x / 128 =? 0); [eexists; split; [done|cbn [length]; lia]|].
    rewrite (Nat2Z.inj_succ (S k)), Z.pow_succ_r in Hx by lia.
    destruct (IH (x / 128)) as (q & E & L).
    { split; [apply Z.div_pos; lia|apply Z.div_lt_upper_bound; lia]. }
    cbn [uleb_loop] in E |- *. rewrite E.
    cbn [mbind option_bind]. eexists. split; [done|]. cbn [length]. lia.
Qed.

Section Decode.
Context (rest : bytes).

Lemma unuleb_loop_run fuel x p i k t :
  uleb_loop fuel x = Some p -> 0 <= x -> 0 <= k < 64 -> 0 <= t < 2 ^ k -> t + x * 2 ^ k < 2 ^ 64 ->
  unuleb_loop (p ++ rest) i k t = Some (i + Z.of_nat (length p), Some (t + x * 2 ^ k)) /\
  forall m, (m < length p)%nat -> unuleb_loop (take m p) i k t = Some (-1, None).
Proof.
  revert x p i k t. induction fuel as [|fuel IH]; intros x p i k t E Hx Hk Ht B; [done|].
  destruct (group_step x k Hx ltac:(lia)) as [G Gb]. pose proof (Z.mod_pos_bound x 128 ltac:(lia)) as M.
  destruct (uleb_loop_cons _ _ _ E Hx) as [(Z0 & -> & Ex)|(NZ & q & -> & Eq)].
  - destruct (last_byte (x mod 128) M) as (_ & L1 & L2 & _). split.
    + cbn [app unuleb_loop]. replace (64 <=? k) with false by lia. rewrite L1, L2, lor_group by lia. by rewrite <- Ex.
    + intros [|m] Hm; [done|cbn in Hm; lia].
  - destruct (more_byte (x mod 128) M) as (L1 & L2 & _). cbv zeta in L1, L2.
    assert (0 <= t + x mod 128 * 2 ^ k < 2 ^ (k + 7)) as Ht'.
    { rewrite Z.pow_add_r by lia. change (2 ^ 7) with 128. nia. }
    assert (k + 7 < 64) as Hk'.
    { apply (Z.pow_lt_mono_r_iff 2); [lia..|]. pose proof (Z.pow_pos_nonneg 2 (k + 7) ltac:(lia) ltac:(lia)). nia. }
    destruct (IH (x / 128) q (i + 1) (k + 7) (t + x mod 128 * 2 ^ k) Eq) as [I1 I2]; [lia..|].
    split.
    + cbn [app unuleb_loop]. replace (64 <=? k) with false by lia. rewrite L1, L2, lor_group by lia. rewrite I1.
      f_equal. f_equal; [cbn [length]; lia|]. f_equal. lia.
    + intros [|m] Hm; [done|]. cbn [take unuleb_loop]. replace (64 <=? k) with false by lia. rewrite L1, L2, lor_group by lia.
      apply I2. cbn [length] in Hm. lia.
Qed.

Lemma unzleb_loop_run fuel x p i t :
  uleb_loop fuel x = Some p -> 0 <= x -> 0 <= i < 10 -> 0 <= t < 2 ^ (i * 7) -> t + x * 2 ^ (i * 7) < 2 ^ 64 ->
  unzleb_loop (p ++ rest) i t = Some (i + Z.of_nat (length p), Some (unzigzag (t + x * 2 ^ (i * 7)))) /\
  forall m, (m < length p)%nat -> unzleb_loop (take m p) i t = Some (-1, None).
Proof.
  revert x p i t. induction fuel as [|fuel IH]; intros x p i t E Hx Hi Ht B; [done|].
  destruct (group_step x (i * 7) Hx ltac:(lia)) as [G Gb]. pose proof (Z.mod_pos_bound x 128 ltac:(lia)) as M.
  destruct (uleb_loop_cons _ _ _ E Hx) as [(Z0 & -> & Ex)|(NZ & q & -> & Eq)].
  - destruct (last_byte (x mod 128) M) as (_ & _ & _ & L1 & L2 & L3). split.
    + cbn [app unzleb_loop]. replace (i <? 10) with true by lia. rewrite L1, L2, L3, lor_group by lia. by rewrite <- Ex.
    + intros [|m] Hm; [done|cbn in Hm; lia].
  - destruct (more_byte (x mod 128) M) as (_ & _ & L1 & L2 & L3). cbv zeta in L1, L2, L3.
    replace (i * 7 + 7) with ((i + 1) * 7) in G by lia.
    assert (0 <= t + x mod 128 * 2 ^ (i * 7) < 2 ^ ((i + 1) * 7)) as Ht'.
    { replace ((i + 1) * 7) with (i * 7 + 7) by lia. rewrite Z.pow_add_r by lia. change (2 ^ 7) with 128. nia. }
    assert ((i + 1) * 7 < 64) as Hk'.
    { apply (Z.pow_lt_mono_r_iff 2); [lia..|]. pose proof (Z.pow_pos_nonneg 2 ((i + 1) * 7) ltac:(lia) ltac:(lia)). nia. }
    destruct (IH (x / 128) q (i + 1) (t + x mod 128 * 2 ^ (i * 7)) Eq) as [I1 I2]; [lia..|].
    split.
    + cbn [app unzleb_loop]. replace (i <? 10) with true by lia. rewrite L1, L2, L3, lor_group by lia. rewrite I1.
      f_equal. f_equal; [cbn [length]; lia|]. do 2 f_equal. lia.
    + intros [|m] Hm; [done|]. cbn [take unzleb_loop]. replace (i <? 10) with true by lia. rewrite L1, L2, L3, lor_group by lia.
      apply I2. cbn [length] in Hm. lia.
Qed.
End Decode.

Lemma lxor_ones y : 0 <= y < 2 ^ 64 -> Z.lxor y (2 ^ 64 - 1) = 2 ^ 64 - 1 - y.
Proof.
  intros Hy. change (2 ^ 64 - 1) with (Z.ones 64). assert (y + Z.lxor y (Z.ones 64) = Z.ones 64) as E; [|lia].
  rewrite Z.add_nocarry_lxor.
  - by rewrite <- Z.lxor_assoc, Z.lxor_nilpotent, Z.lxor_0_l.
  - apply Z.bits_inj'. intros n Hn. rewrite Z.land_spec, Z.lxor_spec, Z.bits_0.
    destruct (decide (n < 64)).
    + rewrite Z.ones_spec_low by lia. by destruct (Z.testbit y n).
    + rewrite <- (Z.mod_small y (2 ^ 64)), Z.mod_pow2_bits_high by lia. done.
Qed.

Lemma zigzag_value x : - 2 ^ 63 <= x < 2 ^ 63 -> zigzag x = if x <? 0 then -2 * x - 1 else 2 * x.
Proof.
  intros Hx. unfold zigzag. assert (Z.shiftr x 63 = if x <? 0 then -1 else 0) as ->.
  { rewrite Z.shiftr_div_pow2 by lia. destruct (Z.ltb_spec x 0).
    - symmetry. apply (Z.div_unique _ _ _ (x + 2 ^ 63)); lia.
    - apply Z.div_small. lia. }
  rewrite Z.shiftl_mul_pow2 by lia. change (2 ^ 1) with 2. destruct (Z.ltb_spec x 0) as [N|P].
  - assert (u64 (u64 x * 2) = 2 ^ 64 + 2 * x) as ->.
    { unfold u64. rewrite Zmult_mod_idemp_l. symmetry. apply (Z.mod_unique _ _ (-1)); lia. }
    change (u64 (-1)) with (2 ^ 64 - 1). rewrite lxor_ones; lia.
  - change (u64 0) with 0. rewrite Z.lxor_0_r, (u64_id x) by lia. rewrite u64_id by lia. lia.
Qed.

Lemma unzigzag_zigzag x : - 2 ^ 63 <= x < 2 ^ 63 -> unzigzag (zigzag x) = x.
Proof.
  intros Hx. rewrite zigzag_value by done. unfold unzigzag. rewrite Z.shiftr_div_pow2 by lia. change (2 ^ 1) with 2.
  rewrite (land_mask _ 1 ltac:(lia) : Z.land _ 1 = _). change (2 ^ 1) with 2. destruct (Z.ltb_spec x 0).
  - assert ((-2 * x - 1) mod 2 = 1) as -> by (symmetry; apply (Z.mod_unique _ _ (- x - 1)); lia).
    assert ((-2 * x - 1) / 2 = - x - 1) as -> by (symmetry; apply (Z.div_unique _ _ _ 1); lia).
    change (u64 (- (1))) with (2 ^ 64 - 1). rewrite lxor_ones by lia. unfold s64.
    replace (2 ^ 64 - 1 - (- x - 1) + 2 ^ 63) with (x + 2 ^ 63 + 1 * 2 ^ 64) by lia.
    rewrite Z.mod_add, Z.mod_small by lia. lia.
  - rewrite Z.mul_comm, Z.mod_mul, Z.div_mul by lia. change (u64 (- (0))) with 0. rewrite Z.lxor_0_r. apply s64_id. lia.
Qed.

(** Variable length integers are read back: for every unsigned x and signed y of 64 bits, uleb64 and
    zleb64 write between one and ten bytes; unuleb64 and unzleb64 on these bytes, whatever comes
    behind them, return their number and store x and y; and on every proper prefix of them, as when a
    buffer is cut short, they return -1 and store nothing. *)
Theorem leb64_roundtrip x y rest :
  0 <= x < 2 ^ 64 -> - 2 ^ 63 <= y < 2 ^ 63 ->
  (exists p, uleb64 x = Some p /\ (1 <= length p <= 10)%nat /\
     unuleb64 (p ++ rest) = Some (Z.of_nat (length p), Some x) /\
     forall m, (m < length p)%nat -> unuleb64 (take m p) = Some (-1, None)) /\
  (exists p, zleb64 y = Some p /\ (1 <= length p <= 10)%nat /\
     unzleb64 (p ++ rest) = Some (Z.of_nat (length p), Some y) /\
     forall m, (m < length p)%nat -> unzleb64 (take m p) = Some (-1, None)).
Proof.
  intros Hx Hy. assert (0 <= zigzag y < 2 ^ 64) as Hz by (rewrite zigzag_value by done; destruct (Z.ltb_spec y 0); lia). split.
  - destruct (uleb_loop_total 9 x) as (p & E & L); [change (128 ^ Z.of_nat 10) with (2 ^ 70); lia|]. exists p.
    split; [done|]. split; [done|]. destruct (unuleb_loop_run rest 10 x p 0 0 0 E) as [R1 R2]; [lia..|].
    rewrite Z.mul_1_r, !Z.add_0_l in R1. done.
  - destruct (uleb_loop_total 9 (zigzag y)) as (p & E & L); [change (128 ^ Z.of_nat 10) with (2 ^ 70); lia|]. exists p.
    split; [done|]. split; [done|]. destruct (unzleb_loop_run rest 10 (zigzag y) p 0 0 E) as [R1 R2]; [lia..|].
    change (2 ^ (0 * 7)) with 1 in R1. rewrite Z.mul_1_r, !Z.add_0_l, unzigzag_zigzag in R1 by done. done.
Qed.

Lemma leb64_roundtrip_witness :
  exists p, uleb64 300 = Some p /\ unuleb64 (p ++ [7]) = Some (Z.of_nat (length p), Some 300).
Proof.
  destruct (leb64_roundtrip 300 (-1) [7]) as [(p & E & _ & R & _) _]; [lia..|]. exists p. split; [exact E|exact R].
Defined.
