(* ===== verification/Dll.v ===== *)
(** * Doubly linked lists (libc/intrin/dll.c and dll.h)

    A list is a ring of cells, held by a pointer to its last element, or a null pointer if it is
    empty. The operations are modelled on a heap of cells; the theorems state them against plain
    lists of pointers, any number of which share the heap, and end in a refinement of a machine over
    such lists. *)

From stdpp Require Import gmap.
From S2P Require Import Prelude.

(* ------------------------------------------------------------------ *)
(** ** Cells, and loads and stores through pointers *)

Abbreviation ptr := N.
Abbreviation NULL := 0%N.
Abbreviation ptrs := (list N).

(** [struct Dll] *)
Record Dll := { next : ptr; prev : ptr }.

Abbreviation heap := (gmap ptr Dll).

(** Code that reads and writes cells. An access through a null pointer, or to what is not a cell,
    is undefined: [None]. *)
Definition M (A : Type) : Type := heap -> option (A * heap).

#[global] Instance M_ret : MRet M := fun _ x h => Some (x, h).
#[global] Instance M_bind : MBind M := fun _ _ k m h => '(x, h) ← m h; k x h.

Definition load (p : ptr) : M Dll := fun h =>
  if (p =? NULL)%N then None else (fun c => (c, h)) <$> h !! p.

Definition get_next (p : ptr) : M ptr := c ← load p; mret (next c).
Definition get_prev (p : ptr) : M ptr := c ← load p; mret (prev c).
Definition set_next (p v : ptr) : M unit := fun h =>
  '(c, h) ← load p h; Some ((), <[p := {| next := v; prev := prev c |}]> h).
Definition set_prev (p v : ptr) : M unit := fun h =>
  '(c, h) ← load p h; Some ((), <[p := {| next := next c; prev := v |}]> h).

(* ------------------------------------------------------------------ *)
(** ** dll.h *)

Definition dll_init (e : ptr) : M unit := set_next e e;; set_prev e e.

Definition dll_is_alone (e : ptr) : M bool :=
  n ← get_next e;
  if negb (n =? e)%N then mret false else
  p ← get_prev e;
  mret (p =? e)%N.

Definition dll_is_empty (list : ptr) : bool := (list =? NULL)%N.

Definition dll_last (list : ptr) : ptr := list.

Definition dll_first (list : ptr) : M ptr :=
  if (list =? NULL)%N then mret NULL else get_next list.

Definition dll_next (list e : ptr) : M ptr :=
  if (e =? list)%N then mret NULL else get_next e.

Definition dll_prev (list e : ptr) : M ptr :=
  n ← get_next list;
  if (e =? n)%N then mret NULL else get_prev e.

(* ------------------------------------------------------------------ *)
(** ** dll.c *)

Definition dll_splice_after (elem succ : ptr) : M unit :=
  tmp1 ← get_next elem;
  tmp2 ← get_prev succ;
  set_next elem succ;;
  set_prev succ elem;;
  set_next tmp2 tmp1;;
  set_prev tmp1 tmp2.

(** [struct Dll **list] is passed as the value it points to, and the new value is returned. *)
Definition dll_remove (list elem : ptr) : M ptr :=
  list ←
    (if (list =? elem)%N then
       p ← get_prev list;
       if (p =? list)%N then mret NULL else get_prev list
     else mret list);
  n ← get_next elem; p ← get_prev elem; set_prev n p;;
  p ← get_prev elem; n ← get_next elem; set_next p n;;
  set_next elem elem;;
  set_prev elem elem;;
  mret list.

Definition dll_make_first (list elem : ptr) : M ptr :=
  if (elem =? NULL)%N then mret list
  else if (list =? NULL)%N then get_prev elem
  else dll_splice_after list elem;; mret list.

Definition dll_make_last (list elem : ptr) : M ptr :=
  if (elem =? NULL)%N then mret list
  else
    n ← get_next elem;
    dll_make_first list n;;
    mret elem.

(** [for (e = dll_first(list); e; e = dll_next(list, e))] and its reverse, the loops with which the
    library walks over a list; the result is the sequence of the elements. *)
Fixpoint walk_next (fuel : nat) (list e : ptr) : M ptrs :=
  match fuel with
  | O => fun _ => None
  | S fuel =>
      if (e =? NULL)%N then mret []
      else e' ← dll_next list e; l ← walk_next fuel list e'; mret (e :: l)
  end.

Fixpoint walk_prev (fuel : nat) (list e : ptr) : M ptrs :=
  match fuel with
  | O => fun _ => None
  | S fuel =>
      if (e =? NULL)%N then mret []
      else e' ← dll_prev list e; l ← walk_prev fuel list e'; mret (e :: l)
  end.

Definition walk (fuel : nat) (list : ptr) : M ptrs :=
  e ← dll_first list; walk_next fuel list e.

Definition walk_back (fuel : nat) (list : ptr) : M ptrs :=
  walk_prev fuel list (dll_last list).

(* ------------------------------------------------------------------ *)
(** ** Lists and their representation *)

(** The pointer that holds a list. *)
Definition held (l : ptrs) : ptr := List.last l NULL.

(** The fields of a cell. *)
Definition nx (h : heap) (a : ptr) : option ptr := next <$> h !! a.
Definition pv (h : heap) (a : ptr) : option ptr := prev <$> h !! a.

(** [b] follows [a]. *)
Definition linked (h : heap) (a b : ptr) : Prop := nx h a = Some b /\ pv h b = Some a.

(** Consecutive elements are linked. *)
Fixpoint seg (h : heap) (l : ptrs) : Prop :=
  match l with
  | a :: ((b :: _) as r) => linked h a b /\ seg h r
  | _ => True
  end.

(** And the last one with the first one. *)
Definition ring (h : heap) (l : ptrs) : Prop :=
  seg h l /\ (l <> [] -> linked h (held l) (List.hd NULL l)).

(** The heap holds these lists, apart from each other. *)
Definition dlls (h : heap) (R : list ptrs) : Prop :=
  NoDup (mjoin R) /\ (NULL ∉ mjoin R) /\ Forall (ring h) R.

(* ------------------------------------------------------------------ *)
(** ** Accesses *)

Definition upd_next (p v : ptr) (h : heap) : heap := alter (fun c => {| next := v; prev := prev c |}) p h.
Definition upd_prev (p v : ptr) (h : heap) : heap := alter (fun c => {| next := next c; prev := v |}) p h.

Section Accesses.
Context (h : heap).

Lemma nx_pv p b : nx h p = Some b -> is_Some (pv h p).
Proof. unfold nx, pv. destruct (h !! p); naive_solver. Qed.

Lemma pv_nx p b : pv h p = Some b -> is_Some (nx h p).
Proof. unfold nx, pv. destruct (h !! p); naive_solver. Qed.

Lemma get_next_run p b : p <> NULL -> nx h p = Some b -> get_next p h = Some (b, h).
Proof.
  intros P H. unfold get_next, mbind, M_bind, load. rewrite (proj2 (N.eqb_neq _ _) P).
  unfold nx in H. destruct (h !! p); naive_solver.
Qed.

Lemma get_prev_run p b : p <> NULL -> pv h p = Some b -> get_prev p h = Some (b, h).
Proof.
  intros P H. unfold get_prev, mbind, M_bind, load. rewrite (proj2 (N.eqb_neq _ _) P).
  unfold pv in H. destruct (h !! p); naive_solver.
Qed.

Lemma set_next_run p v : p <> NULL -> is_Some (h !! p) -> set_next p v h = Some ((), upd_next p v h).
Proof.
  intros P [c H]. unfold set_next, load. rewrite (proj2 (N.eqb_neq _ _) P), H. cbn.
  f_equal. f_equal. unfold upd_next. apply map_eq. intros i. destruct (decide (i = p)) as [->|N].
  - by rewrite lookup_insert_eq, lookup_alter_eq, H.
  - by rewrite lookup_insert_ne, lookup_alter_ne.
Qed.

Lemma set_prev_run p v : p <> NULL -> is_Some (h !! p) -> set_prev p v h = Some ((), upd_prev p v h).
Proof.
  intros P [c H]. unfold set_prev, load. rewrite (proj2 (N.eqb_neq _ _) P), H. cbn.
  f_equal. f_equal. unfold upd_prev. apply map_eq. intros i. destruct (decide (i = p)) as [->|N].
  - by rewrite lookup_insert_eq, lookup_alter_eq, H.
  - by rewrite lookup_insert_ne, lookup_alter_ne.
Qed.

Lemma nx_cell p : is_Some (nx h p) <-> is_Some (h !! p).
Proof. unfold nx. by rewrite fmap_is_Some. Qed.
Lemma pv_cell p : is_Some (pv h p) <-> is_Some (h !! p).
Proof. unfold pv. by rewrite fmap_is_Some. Qed.

Lemma upd_next_cell p v a : is_Some (upd_next p v h !! a) <-> is_Some (h !! a).
Proof. unfold upd_next. apply lookup_alter_is_Some. Qed.
Lemma upd_prev_cell p v a : is_Some (upd_prev p v h !! a) <-> is_Some (h !! a).
Proof. unfold upd_prev. apply lookup_alter_is_Some. Qed.

Lemma nx_upd_next p v a : is_Some (h !! p) -> nx (upd_next p v h) a = if decide (a = p) then Some v else nx h a.
Proof.
  intros [c H]. unfold nx, upd_next. case_decide as E; [subst|by rewrite lookup_alter_ne].
  by rewrite lookup_alter_eq, H.
Qed.
Lemma pv_upd_prev p v a : is_Some (h !! p) -> pv (upd_prev p v h) a = if decide (a = p) then Some v else pv h a.
Proof.
  intros [c H]. unfold pv, upd_prev. case_decide as E; [subst|by rewrite lookup_alter_ne].
  by rewrite lookup_alter_eq, H.
Qed.
Lemma pv_upd_next p v a : pv (upd_next p v h) a = pv h a.
Proof.
  unfold pv, upd_next. destruct (decide (a = p)) as [->|]; [|by rewrite lookup_alter_ne].
  rewrite lookup_alter_eq. by destruct (h !! p).
Qed.
Lemma nx_upd_prev p v a : nx (upd_prev p v h) a = nx h a.
Proof.
  unfold nx, upd_prev. destruct (decide (a = p)) as [->|]; [|by rewrite lookup_alter_ne].
  rewrite lookup_alter_eq. by destruct (h !! p).
Qed.
End Accesses.

(** Runs the next access of a program on a heap whose cells are known. *)
Lemma M_bind_run {A B} (m : M A) (k : A -> M B) h x h' : m h = Some (x, h') -> (m ≫= k) h = k x h'.
Proof. unfold mbind, M_bind. by intros ->. Qed.

(* ------------------------------------------------------------------ *)
(** ** Segments and rings *)

Section Rings.
Context (h : heap).

Lemma held_snoc l a : held (l ++ [a]) = a.
Proof. apply List.last_last. Qed.

Lemma held_app l r : r <> [] -> held (l ++ r) = held r.
Proof.
  intros N. destruct (exists_last N) as (r' & a & ->). by rewrite app_assoc, !held_snoc.
Qed.

Lemma held_in l : l <> [] -> held l ∈ l.
Proof.
  intros N. destruct (exists_last N) as (r' & a & ->). rewrite held_snoc. set_solver.
Qed.

Lemma hd_in l : l <> [] -> List.hd NULL l ∈ l.
Proof. destruct l; [done|]. set_solver. Qed.

Lemma hd_app l r : l <> [] -> List.hd NULL (l ++ r) = List.hd NULL l.
Proof. by destruct l. Qed.

Lemma seg_cons a l : seg h (a :: l) <-> (l <> [] -> linked h a (List.hd NULL l)) /\ seg h l.
Proof. destruct l as [|b l]; cbn; naive_solver. Qed.

Lemma seg_app l r :
  seg h (l ++ r) <-> seg h l /\ seg h r /\ (l <> [] -> r <> [] -> linked h (held l) (List.hd NULL r)).
Proof.
  induction l as [|a l IH]; [cbn; naive_solver|]. rewrite <- app_comm_cons, !seg_cons, IH.
  destruct l as [|b l]; cbn -[seg held]; [unfold held; cbn; naive_solver|].
  change (held (a :: b :: l)) with (held (b :: l)). naive_solver.
Qed.

Lemma ring_rotate l r : ring h (l ++ r) -> ring h (r ++ l).
Proof.
  destruct l as [|a l]; [by rewrite app_nil_r|]. destruct r as [|b r]; [by rewrite app_nil_r|].
  unfold ring. rewrite !seg_app, !held_app, !hd_app by done. naive_solver.
Qed.

Lemma ring_next l1 a l2 : ring h (l1 ++ a :: l2) -> nx h a = Some (List.hd NULL (l2 ++ l1 ++ [a])).
Proof.
  intros H%ring_rotate. cbn [app] in H. destruct H as [S W]. apply seg_cons in S as [S _].
  rewrite app_assoc. destruct (l2 ++ l1) as [|b k]; cbn in *; [by apply W|by apply S].
Qed.

Lemma ring_prev l1 a l2 : ring h (l1 ++ a :: l2) -> pv h a = Some (held (a :: l2 ++ l1)).
Proof. intros H%ring_rotate. destruct H as [_ W]. by apply W. Qed.
End Rings.

(** What is not written stays a segment. *)
Lemma seg_frame h h' l :
  NoDup l -> (forall a, a ∈ l -> a <> held l -> nx h' a = nx h a) ->
  (forall a, a ∈ l -> a <> List.hd NULL l -> pv h' a = pv h a) -> seg h l -> seg h' l.
Proof.
  induction l as [|a l IH]; [done|]. intros D N P S. apply NoDup_cons in D as [A D].
  apply seg_cons in S as [L S]. apply seg_cons.
  assert (forall x, x ∈ l -> x <> a) as X by (intros x Hx ->; done).
  split.
  - intros NE. specialize (L NE). destruct L as [L1 L2].
    assert (held (a :: l) = held l) as E by by destruct l.
    split; [rewrite N; [done|set_solver|]|rewrite P; [done|..]].
    + rewrite E. intros ->. by apply A, held_in.
    + apply list_elem_of_further, hd_in, NE.
    + cbn. apply X, hd_in, NE.
  - destruct (decide (l = [])) as [->|NE]; [done|]. apply IH; [done|..|done].
    + intros x Hx Hne. apply N; [set_solver|]. by destruct l.
    + intros x Hx _. apply P; [set_solver|]. cbn. by apply X.
Qed.

Lemma ring_frame h h' l :
  NoDup l -> (forall a, a ∈ l -> nx h' a = nx h a /\ pv h' a = pv h a) -> ring h l -> ring h' l.
Proof.
  intros D E [S W]. split.
  - apply (seg_frame h); [done|intros; by apply E..|done].
  - intros NE. destruct (W NE) as [W1 W2]. split.
    + rewrite (proj1 (E _ (held_in _ NE))). done.
    + rewrite (proj2 (E _ (hd_in _ NE))). done.
Qed.

(* ------------------------------------------------------------------ *)
(** ** Lists that share a heap *)

#[global] Instance dlls_Proper h : Proper ((≡ₚ) ==> iff) (dlls h).
Proof. intros R R' E. unfold dlls. by rewrite E. Qed.

Lemma dlls_rotate h l r R : dlls h ((l ++ r) :: R) -> dlls h ((r ++ l) :: R).
Proof.
  unfold dlls. cbn [mjoin list_join]. intros (D & Z & F). apply Forall_cons in F as [F1 F2].
  split; [by rewrite (Permutation_app_comm r l)|]. split; [by rewrite (Permutation_app_comm r l)|].
  constructor; [by apply ring_rotate|done].
Qed.

(** Empty lists occupy nothing. *)
Lemma dlls_nil h R : dlls h ([] :: R) <-> dlls h R.
Proof.
  unfold dlls. cbn [mjoin list_join app]. rewrite Forall_cons. split; [naive_solver|].
  intros (? & ? & ?). split; [done|]. split; [done|]. split; [by split|done].
Qed.

Lemma dlls_app h L R :
  dlls h (L ++ R) <-> dlls h L /\ dlls h R /\ (forall a, a ∈ mjoin L -> a ∈ mjoin R -> False).
Proof.
  unfold dlls. rewrite join_app, NoDup_app, Forall_app, not_elem_of_app. naive_solver.
Qed.

(** Storing into the cells of some lists leaves the others alone. *)
Lemma dlls_frame h h' L L' R :
  dlls h (L ++ R) -> mjoin L' ≡ₚ mjoin L -> Forall (ring h') L' ->
  (forall a, a ∉ mjoin L -> nx h' a = nx h a /\ pv h' a = pv h a) -> dlls h' (L' ++ R).
Proof.
  unfold dlls. rewrite !join_app, !Forall_app. intros (D & Z & F1 & F2) P F' X. rewrite P.
  split; [done|]. split; [done|]. split; [done|]. apply NoDup_app in D as (_ & D & DR).
  rewrite Forall_forall in F2 |- *. intros l Hl. apply (ring_frame h); [..|by apply F2].
  - clear -DR Hl. induction R as [|r R IH]; [by apply elem_of_nil in Hl|].
    cbn in DR. apply NoDup_app in DR as (? & _ & ?). apply elem_of_cons in Hl as [->|]; auto.
  - intros a Ha. apply X. intros Hin. apply (D a Hin). apply list_elem_of_join. eauto.
Qed.

Lemma dlls_cell h l R a : dlls h (l :: R) -> a ∈ l -> a <> NULL /\ ring h l /\ NoDup l /\ is_Some (h !! a).
Proof.
  intros (D & Z & F) Ha. apply Forall_cons in F as [F _]. cbn in D, Z. apply NoDup_app in D as (D & _).
  split; [intros ->; set_solver|]. split; [done|]. split; [done|].
  apply list_elem_of_split in Ha as (l1 & l2 & ->). apply ring_next in F. apply nx_cell. eauto.
Qed.

(** The links that [dll_splice_after] stores make one ring of two. *)
Lemma splice_ring h h' e l s m (t1 := List.hd NULL (l ++ [e])) (t2 := held (s :: m)) :
  NoDup (e :: l) -> NoDup (s :: m) -> (forall a, a ∈ e :: l -> a ∈ s :: m -> False) ->
  ring h (e :: l) -> ring h (s :: m) ->
  (forall a, nx h' a = if decide (a = t2) then Some t1 else if decide (a = e) then Some s else nx h a) ->
  (forall a, pv h' a = if decide (a = t1) then Some t2 else if decide (a = s) then Some e else pv h a) ->
  ring h' (e :: s :: m ++ l).
Proof.
  intros De Ds X [Re We] [Rs Ws] N P. specialize (We ltac:(done)). cbn [List.hd] in We.
  assert (t2 ∈ s :: m) as I2 by by apply held_in.
  assert (t1 ∈ e :: l) as I1. { assert (t1 ∈ l ++ [e]) by (apply hd_in; by destruct l). set_solver. }
  apply NoDup_cons in De as [De Dl]. apply seg_cons in Re as [_ Rl].
  assert (forall a, a ∈ e :: l -> a <> t2 /\ a <> s) as X1 by (intros a Ha; split; intros ->; set_solver).
  assert (forall a, a ∈ s :: m -> a <> t1 /\ a <> e) as X2 by (intros a Ha; split; intros ->; set_solver).
  assert (forall a, a ∈ l -> a <> e) as X3 by (intros a Ha ->; done).
  assert (forall a, a ∈ l -> nx h' a = nx h a) as Nl.
  { intros a Ha. destruct (X1 a); [set_solver|]. rewrite N, !decide_False; auto. }
  assert (linked h' e s) as L1.
  { destruct (X1 e); [set_solver|]. destruct (X2 s); [set_solver|].
    split; [rewrite N, decide_False, decide_True by done|rewrite P, decide_False, decide_True by done]; done. }
  assert (seg h' (s :: m)) as S1.
  { apply (seg_frame h); [done|..|done]; intros a Ha NE; destruct (X2 a Ha); [rewrite N|rewrite P]; rewrite !decide_False; done. }
  change (e :: s :: m ++ l) with (e :: (s :: m) ++ l). split.
  - apply seg_cons. split; [done|]. apply seg_app. split; [done|]. split.
    + apply (seg_frame h); [done|intros; by apply Nl| |done]. intros a Ha NE. destruct (X1 a); [set_solver|].
      rewrite P, !decide_False; [done|done|]. intros ->. unfold t1 in NE. by destruct l.
    + intros _ NE. assert (t1 = List.hd NULL l) as E by (unfold t1; by destruct l). rewrite <- E.
      split; [by rewrite N, decide_True|by rewrite P, decide_True].
  - intros _. cbn [List.hd]. destruct (decide (l = [])) as [->|NE].
    + rewrite app_nil_r. change (held (e :: s :: m)) with t2. unfold t1 in *. cbn in *.
      split; [by rewrite N, decide_True|by rewrite P, decide_True].
    + change (e :: (s :: m) ++ l) with ((e :: s :: m) ++ l). rewrite held_app by done.
      replace (held (e :: l)) with (held l) in We by by destruct l. destruct We as [W1 W2].
      split; [rewrite Nl; [done|by apply held_in]|]. rewrite P, !decide_False; [done|..].
      * apply X1, list_elem_of_here.
      * intros E. apply De. rewrite E. unfold t1. destruct l; [done|]. cbn. set_solver.
Qed.

(** [dll_splice_after]: the ring of [succ] comes to lie behind [elem]. *)
Lemma splice_run h e l s m R :
  dlls h ((e :: l) :: (s :: m) :: R) ->
  exists h', dll_splice_after e s h = Some ((), h') /\ dlls h' ((e :: s :: m ++ l) :: R).
Proof.
  intros H. assert (dlls h ((s :: m) :: (e :: l) :: R)) as H' by (rewrite Permutation_swap; done).
  destruct (dlls_cell _ _ _ e H) as (Ze & Re & De & Ce); [set_solver|].
  destruct (dlls_cell _ _ _ s H') as (Zs & Rs & Ds & Cs); [set_solver|].
  pose proof (ring_next h [] e l Re) as Ne. cbn in Ne. pose proof (ring_prev h [] s m Rs) as Ps.
  rewrite app_nil_r in Ps. set (t1 := List.hd NULL (l ++ [e])) in *. set (t2 := held (s :: m)) in *.
  assert (t2 ∈ s :: m) as I2 by by apply held_in.
  assert (t1 ∈ e :: l) as I1. { assert (t1 ∈ l ++ [e]) by (apply hd_in; by destruct l). set_solver. }
  destruct (dlls_cell _ _ _ t2 H' I2) as (Z2 & _ & _ & C2). destruct (dlls_cell _ _ _ t1 H I1) as (Z1 & _ & _ & C1).
  assert (forall a, a ∈ e :: l -> a ∈ s :: m -> False) as X.
  { destruct H as (D & _). cbn [mjoin list_join] in D. apply NoDup_app in D as (_ & D & _).
    intros a A1 A2. apply (D a A1). apply elem_of_app. by left. }
  set (h1 := upd_next e s h). set (h2 := upd_prev s e h1). set (h3 := upd_next t2 t1 h2). set (h4 := upd_prev t1 t2 h3).
  assert (forall a, is_Some (h1 !! a) <-> is_Some (h !! a)) as K1 by apply upd_next_cell.
  assert (forall a, is_Some (h2 !! a) <-> is_Some (h !! a)) as K2 by (intros; rewrite <- K1; apply upd_prev_cell).
  assert (forall a, is_Some (h3 !! a) <-> is_Some (h !! a)) as K3 by (intros; rewrite <- K2; apply upd_next_cell).
  exists h4. split.
  { unfold dll_splice_after. erewrite M_bind_run by by apply get_next_run.
    erewrite M_bind_run by by apply get_prev_run. erewrite M_bind_run by by apply set_next_run.
    erewrite M_bind_run by (apply set_prev_run; [done|by apply K1]).
    erewrite M_bind_run by (apply set_next_run; [done|by apply K2]).
    apply set_prev_run; [done|by apply K3]. }
  assert (forall a, nx h4 a = if decide (a = t2) then Some t1 else if decide (a = e) then Some s else nx h a) as N4.
  { intros a. unfold h4, h3, h2, h1. rewrite nx_upd_prev, nx_upd_next by by apply K2.
    case_decide; [done|]. by rewrite nx_upd_prev, nx_upd_next. }
  assert (forall a, pv h4 a = if decide (a = t1) then Some t2 else if decide (a = s) then Some e else pv h a) as P4.
  { intros a. unfold h4, h3, h2, h1. rewrite pv_upd_prev by by apply K3. case_decide; [done|].
    rewrite pv_upd_next, pv_upd_prev by by apply K1. case_decide; [done|]. by rewrite pv_upd_next. }
  clearbody h1 h2 h3 h4. clear K1 K2 K3 C1 C2 Ce Cs.
  apply (dlls_frame h h4 [e :: l; s :: m] [e :: s :: m ++ l] R); [done|..].
  - cbn. rewrite !app_nil_r. constructor. by rewrite (Permutation_app_comm l (s :: m)).
  - apply Forall_singleton. by apply (splice_ring h).
  - intros a Ha. cbn in Ha. rewrite N4, P4. rewrite app_nil_r in Ha.
    rewrite !decide_False; [done|..]; intros ->; set_solver.
Qed.

(** The links that [dll_remove] stores leave the ring without the element, and the element alone. *)
Lemma unlink_rings h h' e k (n := List.hd NULL (k ++ [e])) (p := held (e :: k)) :
  NoDup (e :: k) -> ring h (e :: k) ->
  (forall a, nx h' a = if decide (a = e) then Some e else if decide (a = p) then Some n else nx h a) ->
  (forall a, pv h' a = if decide (a = e) then Some e else if decide (a = n) then Some p else pv h a) ->
  Forall (ring h') [k; [e]].
Proof.
  intros D [S W] N P. apply NoDup_cons in D as [De D]. apply seg_cons in S as [_ S].
  assert (forall a, a ∈ k -> a <> e) as X by (intros a Ha ->; done).
  constructor; [|apply Forall_singleton; split; [done|]; intros _; split; [rewrite N|rewrite P]; by rewrite decide_True].
  destruct (decide (k = [])) as [->|NE]; [by split|].
  assert (p = held k) as Ep by (unfold p; by destruct k).
  assert (n = List.hd NULL k) as En by (unfold n; by destruct k). split.
  - apply (seg_frame h); [done|..|done]; intros a Ha Na; [rewrite N|rewrite P]; rewrite !decide_False; auto; congruence.
  - intros _. rewrite <- Ep, <- En. split.
    + rewrite N, decide_False, decide_True; [done..|]. rewrite Ep. by apply X, held_in.
    + rewrite P, decide_False, decide_True; [done..|]. rewrite En. by apply X, hd_in.
Qed.

(** The pointer to the list moves when the last element goes. *)
Lemma remove_held h l1 e l2 R :
  dlls h ((l1 ++ e :: l2) :: R) ->
  (if (held (l1 ++ e :: l2) =? e)%N then
     p ← get_prev (held (l1 ++ e :: l2));
     if (p =? held (l1 ++ e :: l2))%N then mret NULL else get_prev (held (l1 ++ e :: l2))
   else mret (held (l1 ++ e :: l2))) h = Some (held (l1 ++ l2), h).
Proof.
  intros H. destruct (dlls_cell _ _ _ e H) as (Z & Rg & D & _); [set_solver|].
  apply ring_prev in Rg. apply NoDup_app in D as (_ & X & D). apply NoDup_cons in D as [D _].
  destruct (decide (l2 = [])) as [->|NE].
  - rewrite held_snoc, N.eqb_refl, app_nil_r. cbn [app] in Rg.
    erewrite M_bind_run by (apply get_prev_run; [done|exact Rg]). destruct l1 as [|x l1]; [cbn; by rewrite N.eqb_refl|].
    change (held (e :: x :: l1)) with (held (x :: l1)) in *. rewrite (proj2 (N.eqb_neq _ _)); [by apply get_prev_run|].
    intros E. apply (X e); [rewrite <- E; by apply held_in|set_solver].
  - rewrite !held_app by done. replace (held (e :: l2)) with (held l2) by by destruct l2.
    rewrite (proj2 (N.eqb_neq _ _)); [done|]. intros E. apply D. rewrite <- E. by apply held_in.
Qed.

Lemma remove_run h l1 e l2 R :
  dlls h ((l1 ++ e :: l2) :: R) ->
  exists h', dll_remove (held (l1 ++ e :: l2)) e h = Some (held (l1 ++ l2), h') /\ dlls h' ((l1 ++ l2) :: [e] :: R).
Proof.
  intros H. pose proof (dlls_rotate _ _ _ _ H) as H'. cbn [app] in H'. set (k := l2 ++ l1) in *.
  destruct (dlls_cell _ _ _ e H') as (Z & Rg & D & C); [set_solver|].
  pose proof (ring_next h [] e k Rg) as Ne. pose proof (ring_prev h [] e k Rg) as Pe.
  cbn [app] in Ne. rewrite app_nil_r in Pe. set (n := List.hd NULL (k ++ [e])) in *. set (p := held (e :: k)) in *.
  assert (n ∈ e :: k) as In. { assert (n ∈ k ++ [e]) by (apply hd_in; by destruct k). set_solver. }
  assert (p ∈ e :: k) as Ip by by apply held_in.
  destruct (dlls_cell _ _ _ n H' In) as (Zn & _ & _ & Cn). destruct (dlls_cell _ _ _ p H' Ip) as (Zp & _ & _ & Cp).
  set (h1 := upd_prev n p h). set (h2 := upd_next p n h1). set (h3 := upd_next e e h2). set (h4 := upd_prev e e h3).
  assert (forall a, is_Some (h1 !! a) <-> is_Some (h !! a)) as K1 by apply upd_prev_cell.
  assert (forall a, is_Some (h2 !! a) <-> is_Some (h !! a)) as K2 by (intros; rewrite <- K1; apply upd_next_cell).
  assert (forall a, is_Some (h3 !! a) <-> is_Some (h !! a)) as K3 by (intros; rewrite <- K2; apply upd_next_cell).
  exists h4. split.
  { unfold dll_remove. erewrite M_bind_run with (h' := h) (x := held (l1 ++ l2)).
    - erewrite M_bind_run by by apply get_next_run. erewrite M_bind_run by by apply get_prev_run.
      erewrite M_bind_run by by apply set_prev_run.
      erewrite M_bind_run by (apply get_prev_run; [done|]; unfold h1; rewrite pv_upd_prev by done; case_decide; done).
      erewrite M_bind_run by (apply get_next_run; [done|]; unfold h1; rewrite nx_upd_prev; done).
      erewrite M_bind_run by (apply set_next_run; [done|by apply K1]).
      erewrite M_bind_run by (apply set_next_run; [done|by apply K2]).
      erewrite M_bind_run by (apply set_prev_run; [done|by apply K3]). done.
    - by apply (remove_held h l1 e l2 R). }
  assert (Forall (ring h4) [k; [e]]) as F4.
  { apply (unlink_rings h); [done..| |]; intros a; unfold h4, h3, h2, h1.
    - rewrite nx_upd_prev, nx_upd_next by by apply K2. case_decide; [done|].
      rewrite nx_upd_next by by apply K1. by rewrite nx_upd_prev.
    - rewrite pv_upd_prev by by apply K3. case_decide; [done|]. by rewrite !pv_upd_next, pv_upd_prev. }
  assert (dlls h4 (k :: [e] :: R)) as G.
  { apply (dlls_frame h h4 [e :: k] [k; [e]] R); [done|..|done|].
    - cbn. rewrite !app_nil_r. by rewrite <- Permutation_cons_append.
    - intros a Ha. cbn in Ha. rewrite app_nil_r in Ha. unfold h4, h3, h2, h1.
      rewrite nx_upd_prev, nx_upd_next, nx_upd_next, nx_upd_prev by first [by apply K2|by apply K1].
      rewrite pv_upd_prev, !pv_upd_next, pv_upd_prev by first [by apply K3|done].
      rewrite !decide_False; [done|..]; intros ->; set_solver. }
  by apply dlls_rotate.
Qed.

Lemma make_first_run h l e m R :
  dlls h (l :: (e :: m) :: R) ->
  exists h', dll_make_first (held l) e h = Some (held ((e :: m) ++ l), h') /\ dlls h' (((e :: m) ++ l) :: R).
Proof.
  intros H. assert (dlls h ((e :: m) :: l :: R)) as H' by by rewrite Permutation_swap.
  destruct (dlls_cell _ _ _ e H') as (Z & Rg & _ & C); [set_solver|]. unfold dll_make_first.
  rewrite (proj2 (N.eqb_neq _ _) Z). destruct (decide (l = [])) as [->|NE].
  - rewrite app_nil_r. cbn [held List.last]. rewrite N.eqb_refl. exists h. split.
    + pose proof (ring_prev h [] e m Rg) as P. rewrite app_nil_r in P. by apply get_prev_run.
    + by apply dlls_nil.
  - destruct (exists_last NE) as (l' & z & ->). rewrite app_assoc, !held_snoc.
    destruct (dlls_cell _ _ _ z H) as (Zz & _); [set_solver|]. rewrite (proj2 (N.eqb_neq _ _) Zz).
    apply dlls_rotate in H. cbn [app] in H. destruct (splice_run _ _ _ _ _ _ H) as (h' & E & D).
    exists h'. split; [by erewrite M_bind_run by exact E|]. by apply (dlls_rotate h' [z]).
Qed.

(** [dll_make_last] appends a whole list. *)
Lemma make_last_run h l m R :
  dlls h (l :: m :: R) ->
  exists h', dll_make_last (held l) (held m) h = Some (held (l ++ m), h') /\ dlls h' ((l ++ m) :: R).
Proof.
  intros H. destruct (decide (m = [])) as [->|NE].
  - exists h. rewrite app_nil_r. split; [done|]. rewrite Permutation_swap in H. by apply dlls_nil.
  - rewrite held_app by done. unfold dll_make_last. assert (dlls h (m :: l :: R)) as H' by by rewrite Permutation_swap.
    destruct (exists_last NE) as (m' & z & E).
    assert (held m = z) as -> by (rewrite E; apply held_snoc).
    destruct (dlls_cell _ _ _ z H') as (Zz & Rg & _ & C); [rewrite E; set_solver|].
    rewrite (proj2 (N.eqb_neq _ _) Zz). rewrite E in Rg. apply ring_next in Rg.
    erewrite M_bind_run by by apply get_next_run. cbn [app] in *. rewrite <- E.
    destruct m as [|e m]; [done|]. destruct (make_first_run _ _ _ _ _ H) as (h' & Em & D).
    exists h'. cbn [List.hd]. erewrite M_bind_run by exact Em. split; [done|]. by apply (dlls_rotate h' (e :: m)).
Qed.

Lemma init_run h e R :
  e <> NULL -> is_Some (h !! e) -> e ∉ mjoin R -> dlls h R ->
  exists h', dll_init e h = Some ((), h') /\ dlls h' ([e] :: R).
Proof.
  intros Z C X H. exists (upd_prev e e (upd_next e e h)). split.
  - unfold dll_init. erewrite M_bind_run by by apply set_next_run. apply set_prev_run; [done|]. by apply upd_next_cell.
  - destruct H as (D & ZR & F). split; [cbn; by apply NoDup_cons|]. split; [cbn; set_solver|].
    constructor.
    + split; [done|]. intros _. split; [rewrite nx_upd_prev, nx_upd_next|rewrite pv_upd_prev];
        [by rewrite decide_True|done|by rewrite decide_True|by apply upd_next_cell].
    + rewrite Forall_forall in F |- *. intros l Hl. apply (ring_frame h); [..|by apply F].
      * clear -D Hl. induction R as [|r R IH]; [by apply elem_of_nil in Hl|].
        cbn in D. apply NoDup_app in D as (? & _ & ?). apply elem_of_cons in Hl as [->|]; auto.
      * intros a Ha. rewrite nx_upd_prev, nx_upd_next, pv_upd_prev, pv_upd_next by first [done|by apply upd_next_cell].
        rewrite !decide_False; [done|..]; intros ->; apply X, list_elem_of_join; eauto.
Qed.

(** Reading. *)
Lemma first_run h l R : dlls h (l :: R) -> dll_first (held l) h = Some (List.hd NULL l, h).
Proof.
  intros H. destruct (decide (l = [])) as [->|NE]; [done|]. unfold dll_first.
  destruct (dlls_cell _ _ _ (held l) H) as (Z & Rg & _); [by apply held_in|].
  rewrite (proj2 (N.eqb_neq _ _) Z). apply get_next_run; [done|]. by apply Rg.
Qed.

Lemma next_run h l1 e l2 R :
  dlls h ((l1 ++ e :: l2) :: R) -> dll_next (held (l1 ++ e :: l2)) e h = Some (List.hd NULL l2, h).
Proof.
  intros H. destruct (dlls_cell _ _ _ e H) as (Z & Rg & D & _); [set_solver|].
  apply ring_next in Rg. apply NoDup_app in D as (_ & _ & D). apply NoDup_cons in D as [D _].
  unfold dll_next. destruct l2 as [|b l2]; [by rewrite held_snoc, N.eqb_refl|].
  rewrite held_app by done. change (held (e :: b :: l2)) with (held (b :: l2)).
  rewrite (proj2 (N.eqb_neq _ _)); [by apply get_next_run|]. intros ->. by apply D, held_in.
Qed.

Lemma prev_run h l1 e l2 R :
  dlls h ((l1 ++ e :: l2) :: R) -> dll_prev (held (l1 ++ e :: l2)) e h = Some (held l1, h).
Proof.
  intros H. destruct (dlls_cell _ _ _ e H) as (Z & Rg & D & _); [set_solver|].
  unfold dll_prev. erewrite M_bind_run.
  2: { destruct (dlls_cell _ _ _ (held (l1 ++ e :: l2)) H) as (Zh & [_ W] & _).
       - apply held_in. by destruct l1.
       - apply get_next_run; [done|]. apply W. by destruct l1. }
  apply ring_prev in Rg. apply NoDup_app in D as (_ & X & _). destruct l1 as [|x l1].
  - cbn. by rewrite N.eqb_refl.
  - cbn [app List.hd]. rewrite (proj2 (N.eqb_neq _ _)).
    + apply get_prev_run; [done|]. by rewrite app_comm_cons, held_app in Rg by done.
    + intros <-. apply (X e); set_solver.
Qed.

Lemma is_alone_run h l1 e l2 R :
  dlls h ((l1 ++ e :: l2) :: R) -> dll_is_alone e h = Some (bool_decide (l1 = [] /\ l2 = []), h).
Proof.
  intros H. apply dlls_rotate in H. cbn [app] in H. destruct (dlls_cell _ _ _ e H) as (Z & Rg & D & _); [set_solver|].
  pose proof (ring_next h [] e _ Rg) as Ne. apply (ring_prev h [] e) in Rg as Pe. rewrite app_nil_r in Pe. cbn [app] in Ne.
  unfold dll_is_alone. erewrite M_bind_run by (apply get_next_run; [done|exact Ne]).
  apply NoDup_cons in D as [D _]. destruct (l2 ++ l1) as [|b k] eqn:E.
  - apply app_nil in E as [-> ->]. cbn. rewrite N.eqb_refl. cbn. erewrite M_bind_run by (apply get_prev_run; [done|exact Pe]).
    cbn. by rewrite N.eqb_refl.
  - cbn [app List.hd]. rewrite (proj2 (N.eqb_neq _ _)) by set_solver. cbn. rewrite bool_decide_eq_false_2; [done|].
    intros [-> ->]. done.
Qed.

Lemma walk_next_run h l1 l2 R fuel :
  dlls h ((l1 ++ l2) :: R) -> (length l2 < fuel)%nat ->
  walk_next fuel (held (l1 ++ l2)) (List.hd NULL l2) h = Some (l2, h).
Proof.
  revert l1 fuel. induction l2 as [|e l2 IH]; intros l1 [|fuel] H L; cbn [length] in L; try lia; [done|].
  destruct (dlls_cell _ _ _ e H) as (Z & _); [set_solver|]. cbn [walk_next List.hd].
  rewrite (proj2 (N.eqb_neq _ _) Z). erewrite M_bind_run by by eapply next_run.
  erewrite M_bind_run; [done|]. rewrite (cons_middle e l1 l2), app_assoc. apply IH; [|lia].
  by rewrite <- app_assoc.
Qed.

Lemma walk_prev_run h l2 l1 R fuel :
  dlls h ((l1 ++ l2) :: R) -> (length l1 < fuel)%nat ->
  walk_prev fuel (held (l1 ++ l2)) (held l1) h = Some (rev l1, h).
Proof.
  revert l2 fuel. induction l1 as [|e l1 IH] using rev_ind; intros l2 [|fuel] H L; rewrite ?length_app in L; cbn [length] in L;
    try lia; [done|].
  destruct (dlls_cell _ _ _ e H) as (Z & _); [set_solver|]. rewrite held_snoc. cbn [walk_prev].
  rewrite (proj2 (N.eqb_neq _ _) Z). rewrite <- app_assoc in *. cbn [app] in *.
  erewrite M_bind_run by by eapply prev_run. erewrite M_bind_run; [by rewrite rev_app_distr|].
  apply IH; [done|lia].
Qed.

(** Code that loads and stores neither adds nor frees cells. *)
Definition keeps {A} (m : M A) : Prop := forall h x h' a, m h = Some (x, h') -> is_Some (h !! a) -> is_Some (h' !! a).

Lemma keeps_ret {A} (x : A) : keeps (mret x).
Proof. intros h y h' a E. unfold mret, M_ret in E. by simplify_eq. Qed.

Lemma keeps_bind {A B} (m : M A) (k : A -> M B) : keeps m -> (forall x, keeps (k x)) -> keeps (m ≫= k).
Proof.
  intros Hm Hk h y h' a E. unfold mbind, M_bind in E. destruct (m h) as [[x h1]|] eqn:E1; [|done].
  intros C. eapply Hk; [exact E|]. by eapply Hm.
Qed.

Lemma keeps_load p : keeps (load p).
Proof. intros h x h' a E. unfold load in E. destruct (p =? NULL)%N, (h !! p); by simplify_eq/=. Qed.

Lemma keeps_set_next p v : keeps (set_next p v).
Proof.
  intros h [] h' a E C. unfold set_next in E. destruct (load p h) as [[c h1]|] eqn:E1; [|done]. simplify_eq/=.
  apply (keeps_load _ _ _ _ a) in E1; [|done]. destruct (decide (a = p)) as [->|]; simplify_map_eq; eauto.
Qed.

Lemma keeps_set_prev p v : keeps (set_prev p v).
Proof.
  intros h [] h' a E C. unfold set_prev in E. destruct (load p h) as [[c h1]|] eqn:E1; [|done]. simplify_eq/=.
  apply (keeps_load _ _ _ _ a) in E1; [|done]. destruct (decide (a = p)) as [->|]; simplify_map_eq; eauto.
Qed.

Create HintDb keeps.
#[export] Hint Resolve keeps_ret keeps_load keeps_set_next keeps_set_prev : keeps.

(** Decomposes a program into its accesses. *)
Ltac keeps_tac :=
  repeat first
    [ progress intros | solve [eauto with keeps] | apply keeps_bind
    | match goal with |- keeps (if ?b then _ else _) => destruct b end
    | match goal with |- keeps (match ?x with pair _ _ => _ end) => destruct x end ].

Lemma keeps_get_next p : keeps (get_next p).
Proof. unfold get_next. keeps_tac. Qed.
Lemma keeps_get_prev p : keeps (get_prev p).
Proof. unfold get_prev. keeps_tac. Qed.
#[export] Hint Resolve keeps_get_next keeps_get_prev : keeps.

Lemma keeps_splice e s : keeps (dll_splice_after e s).
Proof. unfold dll_splice_after. keeps_tac. Qed.
#[export] Hint Resolve keeps_splice : keeps.

Lemma keeps_make_first l e : keeps (dll_make_first l e).
Proof. unfold dll_make_first. keeps_tac. Qed.
#[export] Hint Resolve keeps_make_first : keeps.

Lemma keeps_make_last l e : keeps (dll_make_last l e).
Proof. unfold dll_make_last. keeps_tac. Qed.

Lemma keeps_remove l e : keeps (dll_remove l e).
Proof. unfold dll_remove. keeps_tac. Qed.

Lemma keeps_init e : keeps (dll_init e).
Proof. unfold dll_init. keeps_tac. Qed.
#[export] Hint Resolve keeps_make_last keeps_remove keeps_init : keeps.

(* ------------------------------------------------------------------ *)
(** ** A machine with list variables *)

(** What code does to a heap of cells and some variables that hold lists; a walk over a list ends
    within the number of cells of the heap. [Prepend v w e] and [Append v w e] are
    [dll_make_first(&v, e)] and [dll_make_last(&v, e)] for an element [e] of the list [w], all of
    which moves, with [w = 0] behind it, as the console driver moves a line; [SpliceAfter v e w s]
    is [dll_splice_after(e, s)] with [w = 0] behind it, for elements of [v] and [w]. *)
Inductive op :=
| Init (e : ptr) | MakeFirst (v : nat) (e : ptr) | MakeLast (v : nat) (e : ptr)
| Prepend (v w : nat) (e : ptr) | Append (v w : nat) (e : ptr) | SpliceAfter (v : nat) (e : ptr) (w : nat) (s : ptr)
| Remove (v : nat) (e : ptr)
| First (v : nat) | Last (v : nat) | Next (v : nat) (e : ptr) | Prev (v : nat) (e : ptr)
| IsEmpty (v : nat) | IsAlone (e : ptr) | Walk (v : nat) | WalkBack (v : nat).

Inductive answer := Void | Ptr (p : ptr) | Bool (b : bool) | Ptrs (l : ptrs).

(** [None] if there is no such variable. *)
Definition var (vs : list ptr) (v : nat) : M ptr := fun h => p ← vs !! v; Some (p, h).

Definition walk_all (p : ptr) : M ptrs := fun h => walk (S (size h)) p h.
Definition walk_all_back (p : ptr) : M ptrs := fun h => walk_back (S (size h)) p h.

Definition exec (o : op) (vs : list ptr) : M (answer * list ptr) :=
  match o with
  | Init e => dll_init e;; mret (Void, vs)
  | MakeFirst v e => p ← var vs v; p ← dll_make_first p e; mret (Void, <[v := p]> vs)
  | MakeLast v e => p ← var vs v; p ← dll_make_last p e; mret (Void, <[v := p]> vs)
  | Prepend v w e => p ← var vs v; p ← dll_make_first p e; mret (Void, <[w := NULL]> (<[v := p]> vs))
  | Append v w e => p ← var vs v; p ← dll_make_last p e; mret (Void, <[w := NULL]> (<[v := p]> vs))
  | SpliceAfter v e w s => dll_splice_after e s;; mret (Void, <[w := NULL]> vs)
  | Remove v e => p ← var vs v; p ← dll_remove p e; mret (Void, <[v := p]> vs)
  | First v => p ← var vs v; r ← dll_first p; mret (Ptr r, vs)
  | Last v => p ← var vs v; mret (Ptr (dll_last p), vs)
  | Next v e => p ← var vs v; r ← dll_next p e; mret (Ptr r, vs)
  | Prev v e => p ← var vs v; r ← dll_prev p e; mret (Ptr r, vs)
  | IsEmpty v => p ← var vs v; mret (Bool (dll_is_empty p), vs)
  | IsAlone e => b ← dll_is_alone e; mret (Bool b, vs)
  | Walk v => p ← var vs v; l ← walk_all p; mret (Ptrs l, vs)
  | WalkBack v => p ← var vs v; l ← walk_all_back p; mret (Ptrs l, vs)
  end.

Fixpoint run (os : list op) (vs : list ptr) : M (list answer * list ptr) :=
  match os with
  | [] => mret ([], vs)
  | o :: os => '(r, vs) ← exec o vs; '(rs, vs) ← run os vs; mret (r :: rs, vs)
  end.

(** The same on lists. A cell is raw, alone, or in one of the lists; operations ask for what the
    comments in dll.c ask for. *)
Record world := { lists : list ptrs; alone : gset ptr; raw : gset ptr }.

(** The elements behind and before [e]. *)
Fixpoint behind (e : ptr) (l : ptrs) : option ptrs :=
  match l with [] => None | a :: l => if (a =? e)%N then Some l else behind e l end.
Definition before (e : ptr) (l : ptrs) : option ptrs := (fun l => rev l) <$> behind e (rev l).

(** The list in the order of its ring from [e] on; a null pointer is no element of an empty list. *)
Definition from (e : ptr) (l : ptrs) : option ptrs :=
  if (e =? NULL)%N then if decide (l = []) then Some [] else None
  else l1 ← before e l; l2 ← behind e l; Some (e :: l2 ++ l1).
(** The same up to [e], which comes last. *)
Definition upto (e : ptr) (l : ptrs) : option ptrs :=
  if (e =? NULL)%N then if decide (l = []) then Some [] else None
  else l1 ← before e l; l2 ← behind e l; Some (l2 ++ l1 ++ [e]).

Definition set_list (v : nat) (l : ptrs) (w : world) : world :=
  {| lists := <[v := l]> (lists w); alone := alone w; raw := raw w |}.
Definition set_alone (f : gset ptr -> gset ptr) (w : world) : world :=
  {| lists := lists w; alone := f (alone w); raw := raw w |}.
Definition set_raw (f : gset ptr -> gset ptr) (w : world) : world :=
  {| lists := lists w; alone := alone w; raw := f (raw w) |}.

Definition aexec (o : op) (w : world) : option (answer * world) :=
  match o with
  | Init e =>
      if decide (e ∈ raw w) then Some (Void, set_raw (.∖ {[e]}) (set_alone ({[e]} ∪.) w)) else None
  | MakeFirst v e =>
      l ← lists w !! v;
      if (e =? NULL)%N then Some (Void, w)
      else if decide (e ∈ alone w) then Some (Void, set_list v (e :: l) (set_alone (.∖ {[e]}) w)) else None
  | MakeLast v e =>
      l ← lists w !! v;
      if (e =? NULL)%N then Some (Void, w)
      else if decide (e ∈ alone w) then Some (Void, set_list v (l ++ [e]) (set_alone (.∖ {[e]}) w)) else None
  | Prepend v v' e =>
      l ← lists w !! v; m ← lists w !! v'; m ← from e m;
      if decide (v = v') then None else Some (Void, set_list v' [] (set_list v (m ++ l) w))
  | Append v v' e =>
      l ← lists w !! v; m ← lists w !! v'; m ← upto e m;
      if decide (v = v') then None else Some (Void, set_list v' [] (set_list v (l ++ m) w))
  | SpliceAfter v e v' s =>
      l ← lists w !! v; l1 ← before e l; l2 ← behind e l;
      m ← lists w !! v'; m1 ← before s m; m2 ← behind s m;
      let m := s :: m2 ++ m1 in
      if decide (v = v') then None
      else Some (Void, set_list v' [] (set_list v (if decide (l2 = []) then m ++ l1 ++ [e] else l1 ++ [e] ++ m ++ l2) w))
  | Remove v e =>
      l ← lists w !! v; l1 ← before e l; l2 ← behind e l;
      Some (Void, set_list v (l1 ++ l2) (set_alone ({[e]} ∪.) w))
  | First v => l ← lists w !! v; Some (Ptr (List.hd NULL l), w)
  | Last v => l ← lists w !! v; Some (Ptr (List.last l NULL), w)
  | Next v e => l ← lists w !! v; l ← behind e l; Some (Ptr (List.hd NULL l), w)
  | Prev v e => l ← lists w !! v; l ← before e l; Some (Ptr (List.last l NULL), w)
  | IsEmpty v => l ← lists w !! v; Some (Bool (bool_decide (l = [])), w)
  | IsAlone e =>
      if decide (e ∈ alone w) then Some (Bool true, w) else
      l ← List.find (fun l => bool_decide (e ∈ l)) (lists w); Some (Bool (bool_decide (l = [e])), w)
  | Walk v => l ← lists w !! v; Some (Ptrs l, w)
  | WalkBack v => l ← lists w !! v; Some (Ptrs (rev l), w)
  end.

Fixpoint arun (os : list op) (w : world) : option (list answer * world) :=
  match os with
  | [] => Some ([], w)
  | o :: os => '(r, w) ← aexec o w; '(rs, w) ← arun os w; Some (r :: rs, w)
  end.

(** What the heap and the variables have to do with the lists. *)
Definition cells (w : world) : list ptrs := lists w ++ ((fun e => [e]) <$> elements (alone w)).

Definition holds (w : world) (vs : list ptr) (h : heap) : Prop :=
  vs = held <$> lists w /\ dlls h (cells w) /\
  forall e, e ∈ raw w -> e <> NULL /\ is_Some (h !! e) /\ e ∉ mjoin (cells w).

Lemma insert_perm {A} (L : list A) v l :
  L !! v = Some l -> exists R, forall x, <[v := x]> L ≡ₚ x :: R.
Proof.
  intros E. apply list_elem_of_split_length in E as (l1 & l2 & -> & ->). exists (l1 ++ l2). intros x.
  rewrite insert_app_r_alt, Nat.sub_diag by lia. cbn. by rewrite Permutation_middle.
Qed.

Lemma cells_list w v l :
  lists w !! v = Some l ->
  exists R, cells w ≡ₚ l :: R /\ (forall x, cells (set_list v x w) ≡ₚ x :: R) /\
    (forall x e, e ∉ alone w -> cells (set_list v x (set_alone ({[e]} ∪.) w)) ≡ₚ x :: [e] :: R).
Proof.
  intros E. destruct (insert_perm _ _ _ E) as (R & H). exists (R ++ ((fun e => [e]) <$> elements (alone w))).
  unfold cells. cbn. split; [|split].
  - rewrite <- (list_insert_id _ _ _ E) at 1. by rewrite H.
  - intros x. by rewrite H.
  - intros x e He. rewrite H, elements_union_singleton by done. cbn. by rewrite <- Permutation_middle.
Qed.

Lemma cells_take w v l e :
  lists w !! v = Some l -> e ∈ alone w ->
  exists R, cells w ≡ₚ l :: [e] :: R /\ (forall x, cells (set_list v x (set_alone (.∖ {[e]}) w)) ≡ₚ x :: R).
Proof.
  intros E He. destruct (insert_perm _ _ _ E) as (R & H).
  exists (R ++ ((fun e => [e]) <$> elements (alone w ∖ {[e]}))). unfold cells. cbn. split.
  - rewrite <- (list_insert_id _ _ _ E) at 1. rewrite H.
    rewrite (union_difference_singleton_L e (alone w)) at 1 by done.
    rewrite elements_union_singleton by set_solver. cbn. by rewrite <- Permutation_middle.
  - intros x. by rewrite H.
Qed.

Lemma behind_split e l l2 : behind e l = Some l2 -> exists l1, l = l1 ++ e :: l2 /\ e ∉ l1.
Proof.
  induction l as [|a l IH]; [done|]. cbn. destruct (N.eqb_spec a e) as [->|N].
  - intros [= ->]. exists []. set_solver.
  - intros (l1 & -> & X)%IH. exists (a :: l1). set_solver.
Qed.

Lemma before_split e l l1 : before e l = Some l1 -> exists l2, l = l1 ++ e :: l2 /\ e ∉ l2.
Proof.
  unfold before. intros (r & (k & E & X)%behind_split & ->)%fmap_Some. exists (rev k). split.
  - rewrite <- (rev_involutive l), E, rev_app_distr. cbn. by rewrite <- app_assoc.
  - by rewrite list_elem_of_In, <- in_rev, <- list_elem_of_In.
Qed.

Lemma around_split e l l1 l2 :
  NoDup l -> before e l = Some l1 -> behind e l = Some l2 -> l = l1 ++ e :: l2.
Proof.
  intros D (k2 & E2 & _)%before_split (k1 & E1 & _)%behind_split. rewrite E1 in D, E2 |- *. clear E1.
  assert (k1 = l1) as ->; [|done].
  revert l1 E2 D. induction k1 as [|a k1 IH]; intros [|b l1] E D; simplify_eq/=; [done|..].
  - apply NoDup_cons in D as [D _]. set_solver.
  - apply NoDup_cons in D as [D _]. set_solver.
  - f_equal. apply IH; [done|]. by apply NoDup_cons in D as [_ D].
Qed.

Lemma dlls_size h l R : dlls h (l :: R) -> (length l <= size h)%nat.
Proof.
  intros H. destruct (decide (l = [])) as [->|NE]; [cbn; lia|].
  destruct (dlls_cell _ _ _ _ H (held_in _ NE)) as (_ & _ & D & _).
  rewrite <- size_dom, <- (size_list_to_set (C := gset ptr)) by done. apply subseteq_size. intros a Ha.
  apply elem_of_list_to_set in Ha. apply elem_of_dom. by apply (dlls_cell _ _ _ _ H).
Qed.

Lemma walk_run h l R : dlls h (l :: R) -> walk (S (size h)) (held l) h = Some (l, h).
Proof.
  intros H. unfold walk. erewrite M_bind_run by by eapply first_run.
  apply (walk_next_run h [] l R); [done|]. apply dlls_size in H. lia.
Qed.

Lemma walk_back_run h l R : dlls h (l :: R) -> walk_back (S (size h)) (held l) h = Some (rev l, h).
Proof.
  intros H. pose proof (dlls_size _ _ _ H). unfold walk_back, dll_last.
  pose proof (walk_prev_run h [] l R (S (size h))) as W. rewrite app_nil_r in W. apply W; [done|lia].
Qed.

Lemma var_run w vs h v l : holds w vs h -> lists w !! v = Some l -> var vs v h = Some (held l, h).
Proof. intros (-> & _) E. unfold var. by rewrite list_lookup_fmap, E. Qed.

(** Where the cells move between the lists, raw cells stay raw. *)
Lemma holds_move {A} w w' vs h h' (m : M A) x :
  holds w vs h -> m h = Some (x, h') -> keeps m -> dlls h' (cells w') ->
  mjoin (cells w') ≡ₚ mjoin (cells w) -> raw w' = raw w -> holds w' (held <$> lists w') h'.
Proof.
  intros (_ & _ & Hr) E K D P Er. split; [done|]. split; [done|]. intros e He. rewrite Er in He.
  destruct (Hr e He) as (? & ? & ?). split; [done|]. split; [by eapply K|]. by rewrite P.
Qed.

Lemma insert2_perm {A} (L : list A) v v' l m :
  L !! v = Some l -> L !! v' = Some m -> v <> v' -> exists R, forall x y, <[v' := y]> (<[v := x]> L) ≡ₚ x :: y :: R.
Proof.
  revert v v'. induction L as [|a L IH]; intros [|v] [|v'] E E' N; try done; cbn in E, E'.
  - destruct (insert_perm _ _ _ E') as (R & H). exists R. intros x y. cbn. by rewrite H.
  - destruct (insert_perm _ _ _ E) as (R & H). exists R. intros x y. cbn. rewrite H. apply Permutation_swap.
  - destruct (IH v v') as (R & H); [done..|congruence|]. exists (a :: R). intros x y. cbn. rewrite H.
    by rewrite (Permutation_middle [x; y] R a).
Qed.

Lemma cells_two w v v' l m :
  lists w !! v = Some l -> lists w !! v' = Some m -> v <> v' ->
  exists R, cells w ≡ₚ l :: m :: R /\ forall x y, cells (set_list v' y (set_list v x w)) ≡ₚ x :: y :: R.
Proof.
  intros E E' N. destruct (insert2_perm _ _ _ _ _ E E' N) as (R & H).
  exists (R ++ ((fun e => [e]) <$> elements (alone w))). unfold cells. cbn. split.
  - rewrite <- (list_insert_id _ _ _ E') at 1. rewrite <- (list_insert_id _ _ _ E) at 1. by rewrite H.
  - intros x y. by rewrite H.
Qed.

Section Exec.
Context (w : world) (vs : list ptr) (h : heap).
Context (Hw : holds w vs h).

Lemma exec_make_first v e l :
  lists w !! v = Some l -> e ∈ alone w ->
  exists h', exec (MakeFirst v e) vs h = Some ((Void, <[v := held (e :: l)]> vs), h') /\
    holds (set_list v (e :: l) (set_alone (.∖ {[e]}) w)) (<[v := held (e :: l)]> vs) h'.
Proof using Hw.
  intros E He. destruct (cells_take w v l e E He) as (R & C & C'). pose proof Hw as (V & D & _).
  rewrite C in D. destruct (make_first_run _ _ _ _ _ D) as (h' & Em & D'). exists h'. split.
  - unfold exec. erewrite M_bind_run by by eapply var_run. by erewrite M_bind_run by exact Em.
  - rewrite V, <- list_fmap_insert. eapply holds_move; [done|exact Em|auto with keeps|by rewrite C'| |done].
    rewrite C, C'. cbn. by rewrite <- Permutation_middle.
Qed.

Lemma exec_make_last v e l :
  lists w !! v = Some l -> e ∈ alone w ->
  exists h', exec (MakeLast v e) vs h = Some ((Void, <[v := held (l ++ [e])]> vs), h') /\
    holds (set_list v (l ++ [e]) (set_alone (.∖ {[e]}) w)) (<[v := held (l ++ [e])]> vs) h'.
Proof using Hw.
  intros E He. destruct (cells_take w v l e E He) as (R & C & C'). pose proof Hw as (V & D & _).
  rewrite C in D. destruct (make_last_run _ _ _ _ D) as (h' & Em & D'). exists h'. split.
  - unfold exec. erewrite M_bind_run by by eapply var_run. by erewrite M_bind_run by exact Em.
  - rewrite V, <- list_fmap_insert. eapply holds_move; [done|exact Em|auto with keeps|by rewrite C'| |done].
    rewrite C, C'. cbn. by rewrite <- app_assoc.
Qed.

Lemma exec_remove v e l l1 l2 :
  lists w !! v = Some l -> before e l = Some l1 -> behind e l = Some l2 ->
  exists h', exec (Remove v e) vs h = Some ((Void, <[v := held (l1 ++ l2)]> vs), h') /\
    holds (set_list v (l1 ++ l2) (set_alone ({[e]} ∪.) w)) (<[v := held (l1 ++ l2)]> vs) h'.
Proof using Hw.
  intros E B1 B2. destruct (cells_list w v l E) as (R & C & _ & C'). pose proof Hw as (V & D & _).
  pose proof (proj1 D) as ND. rewrite C in D. assert (l = l1 ++ e :: l2) as ->.
  { apply around_split; [|done..]. destruct D as (D & _). cbn in D. by apply NoDup_app in D as (D & _). }
  assert (e ∉ alone w) as X.
  { intros He. unfold cells in ND. rewrite join_app in ND. apply NoDup_app in ND as (_ & ND & _). apply (ND e).
    - apply list_elem_of_join. exists (l1 ++ e :: l2). split; [set_solver|]. by eapply list_elem_of_lookup_2.
    - apply list_elem_of_join. exists [e]. split; [set_solver|]. apply list_elem_of_fmap. exists e. split; [done|].
      by apply elem_of_elements. }
  specialize (C' (l1 ++ l2) e X). destruct (remove_run _ _ _ _ _ D) as (h' & Em & D'). exists h'. split.
  - unfold exec. erewrite M_bind_run by by eapply var_run. by erewrite M_bind_run by exact Em.
  - rewrite V, <- list_fmap_insert. eapply holds_move; [done|exact Em|auto with keeps|by rewrite C'| |done].
    rewrite C, C'. cbn. rewrite <- !app_assoc. cbn. by rewrite (Permutation_middle l2 (mjoin R) e).
Qed.

Lemma exec_init e :
  e ∈ raw w ->
  exists h', exec (Init e) vs h = Some ((Void, vs), h') /\ holds (set_raw (.∖ {[e]}) (set_alone ({[e]} ∪.) w)) vs h'.
Proof using Hw.
  intros He. pose proof Hw as (V & D & Hr). destruct (Hr e He) as (Z & C & X).
  destruct (init_run _ _ _ Z C X D) as (h' & E & D'). exists h'. split; [unfold exec; by erewrite M_bind_run by exact E|].
  assert (e ∉ alone w) as Xa.
  { intros Ha. apply X. unfold cells. rewrite join_app. apply elem_of_app. right. apply list_elem_of_join. exists [e].
    split; [set_solver|]. apply list_elem_of_fmap. exists e. split; [done|]. by apply elem_of_elements. }
  assert (cells (set_raw (.∖ {[e]}) (set_alone ({[e]} ∪.) w)) ≡ₚ [e] :: cells w) as P.
  { unfold cells. cbn. rewrite elements_union_singleton by done. cbn. by rewrite <- Permutation_middle. }
  split; [done|]. split; [by rewrite P|]. intros a. cbn [raw set_raw set_alone]. intros [Ha Na]%elem_of_difference.
  destruct (Hr a Ha) as (? & ? & ?). split; [done|]. split; [by eapply keeps_init|]. rewrite P. cbn. set_solver.
Qed.

(** All of one list goes to another one. *)
Lemma exec_two {A} v v' l m x h' (p : M A) r :
  lists w !! v = Some l -> lists w !! v' = Some m -> v <> v' ->
  p h = Some (r, h') -> keeps p -> x ≡ₚ l ++ m ->
  (forall R, dlls h (l :: m :: R) -> dlls h' (x :: R)) ->
  holds (set_list v' [] (set_list v x w)) (<[v' := NULL]> (<[v := held x]> vs)) h'.
Proof using Hw.
  intros E E' N Ep K P D'. pose proof Hw as (V & D & _). destruct (cells_two w v v' l m E E' N) as (R & C & C').
  rewrite C in D. specialize (D' R D). rewrite V, <- list_fmap_insert. change NULL with (held []). rewrite <- list_fmap_insert.
  eapply holds_move; [done|exact Ep|exact K| | |done].
  - rewrite C', Permutation_swap. by apply dlls_nil.
  - rewrite C, C'. cbn. by rewrite P, <- app_assoc.
Qed.

(** The two lists are in the heap. *)
Lemma two_lists v v' l m :
  lists w !! v = Some l -> lists w !! v' = Some m -> v <> v' -> exists R, dlls h (l :: m :: R).
Proof using Hw.
  intros E E' N. pose proof Hw as (V & D & _). destruct (cells_two w v v' l m E E' N) as (R & C & C').
  rewrite C in D. eauto.
Qed.

Lemma dlls_NoDup l R : dlls h (l :: R) -> NoDup l.
Proof. intros (D & _). cbn in D. by apply NoDup_app in D as (D & _). Qed.

Lemma from_ring e l m R k : from e m = Some k -> dlls h (l :: m :: R) ->
  k ≡ₚ m /\ dlls h (l :: k :: R) /\ ((e = NULL /\ k = [] /\ m = []) \/ (e <> NULL /\ exists k', k = e :: k')).
Proof.
  unfold from. intros F H. assert (dlls h (m :: l :: R)) as H' by by rewrite Permutation_swap.
  destruct (N.eqb_spec e NULL) as [->|Z].
  - case_decide; simplify_eq. naive_solver.
  - destruct (before e m) as [m1|] eqn:B1; [|done]. destruct (behind e m) as [m2|] eqn:B2; [|done]. cbn in F. simplify_eq.
    apply (around_split _ _ _ _ (dlls_NoDup _ _ H') B1) in B2 as ->. apply dlls_rotate in H'. cbn [app] in H'.
    split; [by rewrite (Permutation_app_comm m1 (e :: m2))|]. split; [by rewrite Permutation_swap|]. right. split; [done|]. eauto.
Qed.

Lemma upto_ring e l m R k : upto e m = Some k -> dlls h (l :: m :: R) ->
  k ≡ₚ m /\ dlls h (l :: k :: R) /\ held k = e.
Proof.
  unfold upto. intros F H. assert (dlls h (m :: l :: R)) as H' by by rewrite Permutation_swap.
  destruct (N.eqb_spec e NULL) as [->|Z].
  - case_decide; simplify_eq. naive_solver.
  - destruct (before e m) as [m1|] eqn:B1; [|done]. destruct (behind e m) as [m2|] eqn:B2; [|done]. cbn in F. simplify_eq.
    apply (around_split _ _ _ _ (dlls_NoDup _ _ H') B1) in B2 as ->. rewrite (cons_middle e m1 m2), app_assoc in H'.
    apply dlls_rotate in H'. split; [by rewrite (Permutation_app_comm m2), <- app_assoc|].
    split; [by rewrite Permutation_swap|]. by rewrite app_assoc, held_snoc.
Qed.

Lemma exec_prepend v v' e l m k :
  lists w !! v = Some l -> lists w !! v' = Some m -> from e m = Some k -> v <> v' ->
  exists vs' h', exec (Prepend v v' e) vs h = Some ((Void, vs'), h') /\ holds (set_list v' [] (set_list v (k ++ l) w)) vs' h'.
Proof using Hw.
  intros E E' F N. destruct (two_lists v v' l m E E' N) as (R & D). destruct (from_ring e l m R k F D) as (P & Dk & C).
  exists (<[v' := NULL]> (<[v := held (k ++ l)]> vs)).
  assert (exists h', dll_make_first (held l) e h = Some (held (k ++ l), h') /\ forall R, dlls h (l :: k :: R) -> dlls h' ((k ++ l) :: R)) as (h' & Em & D').
  { destruct C as [(-> & -> & _)|(Z & k' & ->)].
    - exists h. split; [done|]. intros R' D'. rewrite Permutation_swap in D'. by apply dlls_nil.
    - destruct (make_first_run _ _ _ _ _ Dk) as (h' & Em & _). exists h'. split; [exact Em|]. intros R' D'.
      destruct (make_first_run _ _ _ _ _ D') as (h2 & Em2 & D2). rewrite Em in Em2. by simplify_eq. }
  exists h'. split; [unfold exec; erewrite M_bind_run by (by eapply var_run); by erewrite M_bind_run by exact Em|].
  eapply (exec_two v v' l m); [done..|exact Em|auto with keeps|by rewrite P, Permutation_app_comm|].
  intros R' Hd. apply D'. by destruct (from_ring e l m R' k F Hd) as (_ & ? & _).
Qed.

Lemma exec_append v v' e l m k :
  lists w !! v = Some l -> lists w !! v' = Some m -> upto e m = Some k -> v <> v' ->
  exists vs' h', exec (Append v v' e) vs h = Some ((Void, vs'), h') /\ holds (set_list v' [] (set_list v (l ++ k) w)) vs' h'.
Proof using Hw.
  intros E E' F N. destruct (two_lists v v' l m E E' N) as (R & D). destruct (upto_ring e l m R k F D) as (P & Dk & C).
  destruct (make_last_run _ _ _ _ Dk) as (h' & Em & _). rewrite C in Em.
  exists (<[v' := NULL]> (<[v := held (l ++ k)]> vs)), h'.
  split; [unfold exec; erewrite M_bind_run by (by eapply var_run); by erewrite M_bind_run by exact Em|].
  eapply (exec_two v v' l m); [done..|exact Em|auto with keeps|by rewrite P|].
  intros R' Hd. destruct (upto_ring e l m R' k F Hd) as (_ & Hk & _). destruct (make_last_run _ _ _ _ Hk) as (h2 & Em2 & D2).
  rewrite C, Em in Em2. by simplify_eq.
Qed.

(** [dll_splice_after] inside of a list, or around it if [e] is its last element. *)
Lemma exec_splice v e v' s l1 l2 m1 m2 :
  lists w !! v = Some (l1 ++ e :: l2) -> lists w !! v' = Some (m1 ++ s :: m2) -> v <> v' ->
  let x := if decide (l2 = []) then (s :: m2 ++ m1) ++ l1 ++ [e] else l1 ++ [e] ++ (s :: m2 ++ m1) ++ l2 in
  exists vs' h', exec (SpliceAfter v e v' s) vs h = Some ((Void, vs'), h') /\ holds (set_list v' [] (set_list v x w)) vs' h'.
Proof using Hw.
  intros E E' N x.
  assert (forall R, dlls h ((l1 ++ e :: l2) :: (m1 ++ s :: m2) :: R) -> dlls h ((e :: l2 ++ l1) :: (s :: m2 ++ m1) :: R)) as Rot.
  { intros R D. apply dlls_rotate in D. cbn [app] in D. rewrite Permutation_swap in D. apply dlls_rotate in D. cbn [app] in D.
    by rewrite Permutation_swap in D. }
  destruct (two_lists v v' _ _ E E' N) as (R & D). destruct (splice_run _ _ _ _ _ _ (Rot R D)) as (h' & Em & _).
  exists (<[v' := NULL]> vs), h'. split; [unfold exec; by erewrite M_bind_run by exact Em|].
  assert (held x = held (l1 ++ e :: l2)) as Hx.
  { subst x. case_decide as Z; [subst; by rewrite app_assoc, !held_snoc|]. rewrite !app_assoc, !(held_app _ l2) by done.
    by rewrite cons_middle, app_assoc, held_app. }
  assert (x ≡ₚ (l1 ++ e :: l2) ++ (m1 ++ s :: m2)) as Px.
  { subst x. rewrite (Permutation_app_comm m1 (s :: m2)). case_decide as Z; [subst; by rewrite Permutation_app_comm|].
    rewrite (cons_middle e l1 l2), <- !app_assoc. do 2 apply Permutation_app_head. apply Permutation_app_comm. }
  assert (<[v' := NULL]> vs = <[v' := NULL]> (<[v := held x]> vs)) as ->.
  { f_equal. rewrite list_insert_id; [done|]. destruct Hw as (-> & _). rewrite list_lookup_fmap, E. cbn. by rewrite Hx. }
  eapply (exec_two v v' _ _ x h' _ _ E E' N Em); [auto with keeps|done|].
  intros R' Hd. destruct (splice_run _ _ _ _ _ _ (Rot R' Hd)) as (h2 & Em2 & D2). rewrite Em in Em2. simplify_eq.
  subst x. case_decide as Z.
  - subst l2. cbn [app] in *. apply (dlls_rotate h2 [e]) in D2. cbn [app] in D2. rewrite <- ?app_assoc in D2. by rewrite <- ?app_assoc.
  - change (e :: s :: (m2 ++ m1) ++ l2 ++ l1) with (([e] ++ (s :: m2 ++ m1)) ++ l2 ++ l1) in D2. rewrite app_assoc in D2.
    apply dlls_rotate in D2. cbn [app] in *. rewrite <- ?app_assoc in D2. cbn [app] in D2. by rewrite <- ?app_assoc.
Qed.

(** Inserting nothing. *)
Lemma exec_null v l : lists w !! v = Some l ->
  exec (MakeFirst v NULL) vs h = Some ((Void, vs), h) /\ exec (MakeLast v NULL) vs h = Some ((Void, vs), h).
Proof using Hw.
  intros E. assert (<[v := held l]> vs = vs) as I.
  { apply list_insert_id. destruct Hw as (-> & _). by rewrite list_lookup_fmap, E. }
  split; unfold exec; erewrite M_bind_run by (by eapply var_run); unfold mbind, M_bind, mret, M_ret; cbn; by rewrite I.
Qed.

Lemma exec_is_alone e r w' :
  aexec (IsAlone e) w = Some (r, w') -> exec (IsAlone e) vs h = Some ((r, vs), h) /\ w' = w.
Proof using Hw.
  destruct Hw as (V & D & _). unfold aexec, exec. case_decide as He.
  - intros [= <- <-]. split; [|done].
    unfold cells in D. rewrite (union_difference_singleton_L e (alone w) He) in D.
    rewrite elements_union_singleton in D by set_solver. cbn in D. rewrite <- Permutation_middle in D.
    erewrite M_bind_run by by eapply (is_alone_run h [] e []). done.
  - destruct (List.find _ _) as [l|] eqn:F; [|done]. cbn. intros [= <- <-]. split; [|done].
    apply List.find_some in F as [Hl Hin%bool_decide_eq_true]. apply list_elem_of_In, list_elem_of_lookup in Hl as [v Hv].
    destruct (cells_list w v l Hv) as (R & C & _). rewrite C in D.
    apply list_elem_of_split in Hin as (l1 & l2 & ->).
    erewrite M_bind_run by by eapply is_alone_run. unfold mret, M_ret. do 4 f_equal. apply bool_decide_ext. split.
    + by intros [-> ->].
    + destruct l1 as [|? [|]]; cbn; intros; by simplify_eq/=.
Qed.
End Exec.

Lemma exec_refines w vs h o r w' :
  holds w vs h -> aexec o w = Some (r, w') ->
  exists vs' h', exec o vs h = Some ((r, vs'), h') /\ holds w' vs' h'.
Proof.
  intros Hw A. pose proof Hw as (_ & D & _).
  destruct o; try (unfold aexec in A; destruct (lists w !! v) as [l|] eqn:E; [cbn [mbind option_bind] in A|done];
    destruct (cells_list w v l E) as (R & C & _); rewrite C in D).
  - unfold aexec in A. case_decide; simplify_eq. destruct (exec_init _ _ _ Hw e) as (h' & ? & ?); eauto.
  - destruct (N.eqb_spec e NULL) as [->|Z].
    { simplify_eq. exists vs, h. split; [|done]. by apply (exec_null _ _ _ Hw v l). }
    case_decide; simplify_eq. destruct (exec_make_first _ _ _ Hw v e l) as (h' & ? & ?); eauto.
  - destruct (N.eqb_spec e NULL) as [->|Z].
    { simplify_eq. exists vs, h. split; [|done]. by apply (exec_null _ _ _ Hw v l). }
    case_decide; simplify_eq. destruct (exec_make_last _ _ _ Hw v e l) as (h' & ? & ?); eauto.
  - destruct (lists w !! w0) as [m|] eqn:E'; [|done]. cbn [mbind option_bind] in A. destruct (from e m) as [k|] eqn:F; [|done].
    cbn [mbind option_bind] in A. case_decide; simplify_eq. by apply (exec_prepend _ _ _ Hw v w0 e l m k).
  - destruct (lists w !! w0) as [m|] eqn:E'; [|done]. cbn [mbind option_bind] in A. destruct (upto e m) as [k|] eqn:F; [|done].
    cbn [mbind option_bind] in A. case_decide; simplify_eq. by apply (exec_append _ _ _ Hw v w0 e l m k).
  - destruct (before e l) as [l1|] eqn:E1; [|done]. destruct (behind e l) as [l2|] eqn:E2; [|done]. cbn [mbind option_bind] in A.
    destruct (lists w !! w0) as [m|] eqn:E'; [|done]. cbn [mbind option_bind] in A.
    destruct (before s m) as [m1|] eqn:E3; [|done]. destruct (behind s m) as [m2|] eqn:E4; [|done]. cbn [mbind option_bind] in A.
    case_decide as N; simplify_eq. destruct (two_lists _ _ _ Hw v w0 l m E E' N) as (R' & D').
    apply (around_split _ _ _ _ (dlls_NoDup _ _ _ D') E1) in E2 as ->. rewrite Permutation_swap in D'.
    apply (around_split _ _ _ _ (dlls_NoDup _ _ _ D') E3) in E4 as ->. by apply (exec_splice _ _ _ Hw).
  - destruct (before e l) as [l1|] eqn:E1; [|done]. destruct (behind e l) as [l2|] eqn:E2; [|done].
    cbn in A. simplify_eq. destruct (exec_remove _ _ _ Hw v e l l1 l2) as (h' & ? & ?); eauto.
  - simplify_eq. exists vs, h. split; [|done]. unfold exec. erewrite M_bind_run by by eapply var_run.
    by erewrite M_bind_run by by eapply first_run.
  - simplify_eq. exists vs, h. split; [|done]. unfold exec. by erewrite M_bind_run by by eapply var_run.
  - destruct (behind e l) as [l2|] eqn:E2; [|done]. cbn in A. simplify_eq. apply behind_split in E2 as (l1 & -> & _).
    exists vs, h. split; [|done]. unfold exec. erewrite M_bind_run by by eapply var_run.
    by erewrite M_bind_run by by eapply next_run.
  - destruct (before e l) as [l1|] eqn:E1; [|done]. cbn in A. simplify_eq. apply before_split in E1 as (l2 & -> & _).
    exists vs, h. split; [|done]. unfold exec. erewrite M_bind_run by by eapply var_run.
    by erewrite M_bind_run by by eapply prev_run.
  - simplify_eq. exists vs, h. split; [|done]. unfold exec. erewrite M_bind_run by by eapply var_run.
    unfold dll_is_empty. destruct (decide (l = [])) as [->|NE]; [done|].
    destruct (dlls_cell _ _ _ _ D (held_in _ NE)) as (Z & _). rewrite (proj2 (N.eqb_neq _ _) Z).
    by rewrite bool_decide_eq_false_2.
  - destruct (exec_is_alone _ _ _ Hw _ _ _ A) as (Ee & ->). eauto.
  - simplify_eq. exists vs, h. split; [|done]. unfold exec. erewrite M_bind_run by by eapply var_run.
    by erewrite M_bind_run by by eapply walk_run.
  - simplify_eq. exists vs, h. split; [|done]. unfold exec. erewrite M_bind_run by by eapply var_run.
    by erewrite M_bind_run by by eapply walk_back_run.
Qed.

(** C8: Lists of libc/intrin/dll.c are lists. Take any sequence of initialisations, insertions at
    either end (of single elements, of null pointers, and of all of another list from or up to any
    of its elements), splices of a list behind any element of another one, removals, accesses to
    neighbours and walks in both directions, over any number of lists in one heap. If each step
    meets the conditions that dll.c states (an element that is inserted is not in the list, one
    that is removed is in the list, spliced elements are in different lists), then the code never
    goes through a null or dangling pointer, every walk ends, every call returns what it would
    return on plain sequences, and at the end each variable holds the sequence that it should hold,
    with no cell in two of them. *)
Theorem dll_refines w vs h os rs w' :
  holds w vs h -> arun os w = Some (rs, w') ->
  exists vs' h', run os vs h = Some ((rs, vs'), h') /\ holds w' vs' h'.
Proof.
  revert w vs h rs. induction os as [|o os IH]; intros w vs h rs Hw A; cbn in A; [simplify_eq; by exists vs, h|].
  destruct (aexec o w) as [[r w1]|] eqn:E1; [|done]. cbn in A. destruct (arun os w1) as [[rs1 w2]|] eqn:E2; [|done].
  simplify_eq/=. destruct (exec_refines _ _ _ _ _ _ Hw E1) as (vs1 & h1 & X1 & H1).
  destruct (IH _ _ _ _ H1 E2) as (vs2 & h2 & X2 & H2). exists vs2, h2. split; [|done].
  erewrite M_bind_run by exact X1. cbn. by erewrite M_bind_run by exact X2.
Qed.

Definition sample_world : world := {| lists := [[]; []]; alone := ∅; raw := {[1%N; 2%N; 3%N]} |}.
Definition sample_heap : heap :=
  list_to_map ((fun p => (p, {| next := NULL; prev := NULL |})) <$> [1%N; 2%N; 3%N]).
Definition sample_ops : list op :=
  [Init 1%N; Init 2%N; Init 3%N; MakeLast 0 1%N; MakeFirst 0 2%N; MakeFirst 1 NULL; Prepend 1 0 1%N; Walk 1; MakeLast 0 3%N;
   SpliceAfter 0 3%N 1 2%N; Walk 0; Append 1 0 2%N; IsEmpty 0; Remove 1 1%N; WalkBack 1; IsAlone 1%N; Next 1 3%N].
Definition sample_answers : list answer :=
  [Void; Void; Void; Void; Void; Void; Void; Ptrs [1%N; 2%N]; Void; Void; Ptrs [2%N; 1%N; 3%N]; Void; Bool true; Void;
   Ptrs [2%N; 3%N]; Bool true; Ptr 2%N].

Lemma sample_holds : holds sample_world [NULL; NULL] sample_heap.
Proof.
  split; [done|]. split.
  - split; [constructor|]. split; [set_solver|]. repeat constructor; done.
  - intros e He. unfold sample_world in He. cbn [raw] in He.
    assert (e = 1%N \/ e = 2%N \/ e = 3%N) as X by set_solver.
    destruct X as [->|[->| ->]]; (split; [done|]; split; [vm_compute; eauto|cbn; set_solver]).
Qed.

Lemma dll_refines_witness :
  exists vs' h' w', run sample_ops [NULL; NULL] sample_heap = Some ((sample_answers, vs'), h') /\ holds w' vs' h'.
Proof.
  destruct (dll_refines sample_world [NULL; NULL] sample_heap sample_ops sample_answers
    (match arun sample_ops sample_world with Some (_, w') => w' | None => sample_world end))
    as (vs' & h' & E & H); [apply sample_holds|vm_compute; reflexivity|]. exists vs', h'. eexists. split; [exact E|exact H].
Defined.
