(* ===== verification/Console.v ===== *)
(** * Standard input on Windows consoles (libc/calls/read-nt.c)

    Console events become keystrokes: short byte strings in a pool of 512, which is split into a list
    of what can be read, a line that is being edited, and the free ones, all three of them lists of
    [Dll]. This file models the conversion of events, the line editing, and reading, over the real
    lists in memory; the theorems show that no null pointer is followed and no keystroke lost, and
    state what a reader gets in terms of plain queues of byte strings. *)

From stdpp Require Import gmap.
From S2P Require Import Prelude ThomPike Conv Format Dll.

(* ------------------------------------------------------------------ *)
(** ** Configuration and events *)

(** libc/intrin/nomultics.internal.h *)
Definition kTtySilence : Z := 1.
Definition kTtyEchoRaw : Z := 2.
Definition kTtyUncanon : Z := 4.
Definition kTtyNoCr2Nl : Z := 8.
Definition kTtyNoIsigs : Z := 16.
Definition kTtyXtMouse : Z := 32.

Record TtyConf := {
  magic : Z; mousebs : Z; vintr : Z; vquit : Z; verase : Z; vkill : Z; veof : Z; vmin : Z; veol : Z; veol2 : Z }.

(** [x & mask] as a condition. *)
Definition has (x mask : Z) : bool := negb (Z.land x mask =? 0).

(** libc/nt/struct/inputrecord.h *)
Definition kNtRightAltPressed : Z := 0x0001.
Definition kNtLeftAltPressed : Z := 0x0002.
Definition kNtRightCtrlPressed : Z := 0x0004.
Definition kNtLeftCtrlPressed : Z := 0x0008.
Definition kNtShiftPressed : Z := 0x0010.
Definition kNtFromLeft1stButtonPressed : Z := 0x0001.
Definition kNtRightmostButtonPressed : Z := 0x0002.
Definition kNtMouseMoved : Z := 0x0001.
Definition kNtMouseWheeled : Z := 0x0004.

Definition AnyCtrl : Z := Z.lor kNtLeftCtrlPressed kNtRightCtrlPressed.
Definition AnyAlt : Z := Z.lor kNtLeftAltPressed kNtRightAltPressed.

Inductive NtInputRecord :=
| KeyEvent (bKeyDown : bool) (wVirtualKeyCode UnicodeChar dwControlKeyState : Z)
| MouseEvent (X Y dwButtonState dwControlKeyState dwEventFlags : Z)
| WindowBufferSizeEvent
| OtherEvent.

(* ------------------------------------------------------------------ *)
(** ** Virtual keys *)

Record VirtualKey := { vk : Z; normal_str : Z; shift_str : Z; ctrl_str : Z; shift_ctrl_str : Z }.

(** The macros [S] and [W]: four characters in an [int]. *)
Definition W (s : bytes) : Z := pack (take 4 (s ++ [0; 0; 0; 0])).

Definition vkey (k : Z) (a b c d : Z) : VirtualKey :=
  {| vk := k; normal_str := a; shift_str := b; ctrl_str := c; shift_ctrl_str := d |}.

Definition kVirtualKey : list VirtualKey :=
  [ vkey 0x26 (W (bstr "A")) (W (bstr "1;2A")) (W (bstr "1;5A")) (W (bstr "1;6A"));
    vkey 0x28 (W (bstr "B")) (W (bstr "1;2B")) (W (bstr "1;5B")) (W (bstr "1;6B"));
    vkey 0x27 (W (bstr "C")) (W (bstr "1;2C")) (W (bstr "1;5C")) (W (bstr "1;6C"));
    vkey 0x25 (W (bstr "D")) (W (bstr "1;2D")) (W (bstr "1;5D")) (W (bstr "1;6D"));
    vkey 0x2D (W (bstr "2~")) (W (bstr "2;2~")) (W (bstr "2;5~")) (W (bstr "2;6~"));
    vkey 0x2E (W (bstr "3~")) (W (bstr "3;2~")) (W (bstr "3;5~")) (W (bstr "3;6~"));
    vkey 0x24 (W (bstr "H")) (W (bstr "1;2H")) (W (bstr "1;5H")) (W (bstr "1;6H"));
    vkey 0x23 (W (bstr "F")) (W (bstr "1;2F")) (W (bstr "1;5F")) (W (bstr "1;6F"));
    vkey 0x21 (W (bstr "5~")) (W (bstr "5;2~")) (W (bstr "5;5~")) (W (bstr "5;6~"));
    vkey 0x22 (W (bstr "6~")) (W (bstr "6;2~")) (W (bstr "6;5~")) (W (bstr "6;6~"));
    vkey 0x70 (- W (bstr "OP")) (W (bstr "1;2P")) (W (bstr "11^")) (W (bstr "1;6P"));
    vkey 0x71 (- W (bstr "OQ")) (W (bstr "1;2Q")) (W (bstr "12^")) (W (bstr "1;6Q"));
    vkey 0x72 (- W (bstr "OR")) (W (bstr "1;2R")) (W (bstr "13^")) (W (bstr "1;6R"));
    vkey 0x73 (- W (bstr "OS")) (W (bstr "1;2S")) (W (bstr "14^")) (W (bstr "1;6S"));
    vkey 0x74 (W (bstr "15~")) (W (bstr "28~")) (W (bstr "15^")) (W (bstr "28^"));
    vkey 0x75 (W (bstr "17~")) (W (bstr "29~")) (W (bstr "17^")) (W (bstr "29^"));
    vkey 0x76 (W (bstr "18~")) (W (bstr "31~")) (W (bstr "18^")) (W (bstr "31^"));
    vkey 0x77 (W (bstr "19~")) (W (bstr "32~")) (W (bstr "19^")) (W (bstr "32^"));
    vkey 0x78 (W (bstr "20~")) (W (bstr "33~")) (W (bstr "20^")) (W (bstr "33^"));
    vkey 0x79 (W (bstr "21~")) (W (bstr "34~")) (W (bstr "21^")) (W (bstr "34^"));
    vkey 0x7A (W (bstr "23~")) (W (bstr "23$")) (W (bstr "23^")) (W (bstr "23@"));
    vkey 0x7B (W (bstr "24~")) (W (bstr "24$")) (W (bstr "24^")) (W (bstr "24@"));
    vkey 0 0 0 0 0 ].

Definition kDecckm : list VirtualKey :=
  [ vkey 0x26 (- W (bstr "OA")) (- W (bstr "OA")) (W (bstr "A")) (W (bstr "A"));
    vkey 0x28 (- W (bstr "OB")) (- W (bstr "OB")) (W (bstr "B")) (W (bstr "B"));
    vkey 0x27 (- W (bstr "OC")) (- W (bstr "OC")) (W (bstr "C")) (W (bstr "C"));
    vkey 0x25 (- W (bstr "OD")) (- W (bstr "OD")) (W (bstr "D")) (W (bstr "D"));
    vkey 0x21 (W (bstr "5~")) (W (bstr "5;2~")) (W (bstr "5;5~")) (W (bstr "5;6~"));
    vkey 0x22 (W (bstr "6~")) (W (bstr "6;2~")) (W (bstr "6;5~")) (W (bstr "6;6~"));
    vkey 0 0 0 0 0 ].

(** A table ends with an entry of key 0. *)
Fixpoint GetVirtualKey (vkt : list VirtualKey) (k : Z) (shift ctrl : bool) : option Z :=
  match vkt with
  | [] => None
  | e :: vkt =>
      if vk e =? 0 then Some 0
      else if vk e =? k then
        Some (if shift && ctrl then shift_ctrl_str e else if shift then shift_str e
              else if ctrl then ctrl_str e else normal_str e)
      else GetVirtualKey vkt k shift ctrl
  end.

Definition IsMouseModeCommand (x : Z) : bool := (x =? 1000) || (x =? 1002) || (x =? 1006) || (x =? 1015).

(* ------------------------------------------------------------------ *)
(** ** State *)

(** The pool and its lists. [bufs] holds [buf] up to [buflen] for each keystroke: the rest of the
    array is never read. A keystroke is named by the address of its list element, from which
    [KEYSTROKE_CONTAINER] finds it. *)
Record Keys := {
  cells : heap;
  bufs : gmap ptr bytes;
  list_ : ptr;
  line_ : ptr;
  free_ : ptr;
  freekeys : Z }.

(** The rest of [struct Keystrokes], with the configuration, what was written to the terminal, and the
    signals that are pending. *)
Record Device := {
  end_of_file : bool;
  ohno_decckm : bool;
  utf16hs : Z;
  vkt : list VirtualKey;
  tty : TtyConf;
  out : bytes;
  sigpending : Z }.

Record Console := { keys : Keys; dev : Device }.

Definition set_keys (k : Keys) (s : Console) : Console := {| keys := k; dev := dev s |}.
Definition on_dev (f : Device -> Device) (s : Console) : Console := {| keys := keys s; dev := f (dev s) |}.

Definition set_eof (d : Device) : Device :=
  {| end_of_file := true; ohno_decckm := ohno_decckm d; utf16hs := utf16hs d; vkt := vkt d; tty := tty d; out := out d;
     sigpending := sigpending d |}.
Definition set_hs (h : Z) (d : Device) : Device :=
  {| end_of_file := end_of_file d; ohno_decckm := ohno_decckm d; utf16hs := h; vkt := vkt d; tty := tty d; out := out d;
     sigpending := sigpending d |}.
Definition set_tty (t : TtyConf) (d : Device) : Device :=
  {| end_of_file := end_of_file d; ohno_decckm := ohno_decckm d; utf16hs := utf16hs d; vkt := vkt d; tty := t; out := out d;
     sigpending := sigpending d |}.
Definition set_vkt (v : list VirtualKey) (o : bool) (d : Device) : Device :=
  {| end_of_file := end_of_file d; ohno_decckm := o; utf16hs := utf16hs d; vkt := v; tty := tty d; out := out d;
     sigpending := sigpending d |}.
Definition set_magic (m : Z) (t : TtyConf) : TtyConf :=
  {| magic := m; mousebs := mousebs t; vintr := vintr t; vquit := vquit t; verase := verase t; vkill := vkill t;
     veof := veof t; vmin := vmin t; veol := veol t; veol2 := veol2 t |}.
Definition set_mousebs (b : Z) (t : TtyConf) : TtyConf :=
  {| magic := magic t; mousebs := b; vintr := vintr t; vquit := vquit t; verase := verase t; vkill := vkill t;
     veof := veof t; vmin := vmin t; veol := veol t; veol2 := veol2 t |}.

Definition WriteTty (p : bytes) (d : Device) : Device :=
  {| end_of_file := end_of_file d; ohno_decckm := ohno_decckm d; utf16hs := utf16hs d; vkt := vkt d; tty := tty d; out := out d ++ p;
     sigpending := sigpending d |}.
Definition AddSignal (sig : Z) (d : Device) : Device :=
  {| end_of_file := end_of_file d; ohno_decckm := ohno_decckm d; utf16hs := utf16hs d; vkt := vkt d; tty := tty d; out := out d;
     sigpending := Z.lor (sigpending d) (Z.shiftl 1 (sig - 1)) |}.

(* ------------------------------------------------------------------ *)
(** ** The lists of keystrokes *)

Definition FreeKeystrokeImpl (key : ptr) (k : Keys) : option Keys :=
  '(f, h) ← dll_make_first (free_ k) key (cells k);
  Some {| cells := h; bufs := bufs k; list_ := list_ k; line_ := line_ k; free_ := f; freekeys := s16 (freekeys k + 1) |}.

Definition NewKeystroke (k : Keys) : option (ptr * Keys) :=
  '(e, h) ← dll_first (free_ k) (cells k);
  '(f, h) ← dll_remove (free_ k) e h;
  Some (e, {| cells := h; bufs := <[e := []]> (bufs k); list_ := list_ k; line_ := line_ k; free_ := f;
              freekeys := s16 (freekeys k - 1) |}).

(** [&__keystroke.list] and [&__keystroke.line] *)
Inductive which := LIST | LINE.
Definition get_list (w : which) (k : Keys) : ptr := match w with LIST => list_ k | LINE => line_ k end.
Definition set_list_ (w : which) (p : ptr) (h : heap) (k : Keys) : Keys :=
  match w with
  | LIST => {| cells := h; bufs := bufs k; list_ := p; line_ := line_ k; free_ := free_ k; freekeys := freekeys k |}
  | LINE => {| cells := h; bufs := bufs k; list_ := list_ k; line_ := p; free_ := free_ k; freekeys := freekeys k |}
  end.

Definition FreeKeystroke (w : which) (key : ptr) (k : Keys) : option Keys :=
  '(p, h) ← dll_remove (get_list w k) key (cells k);
  FreeKeystrokeImpl key (set_list_ w p h k).

(** [while ((key = dll_first( *list))) FreeKeystroke(list, key)] *)
Fixpoint FreeKeystrokes (fuel : nat) (w : which) (k : Keys) : option Keys :=
  match fuel with
  | O => None
  | S fuel =>
      '(key, h) ← dll_first (get_list w k) (cells k);
      if (key =? NULL)%N then Some k
      else k ← FreeKeystroke w key k; FreeKeystrokes fuel w k
  end.

(** [dll_make_last(&list, line); line = 0] *)
Definition flush_line (k : Keys) : option Keys :=
  '(p, h) ← dll_make_last (list_ k) (line_ k) (cells k);
  Some {| cells := h; bufs := bufs k; list_ := p; line_ := NULL; free_ := free_ k; freekeys := freekeys k |}.

(** [dll_make_last(&list, &k->elem)], for either list. *)
Definition append_key (w : which) (key : ptr) (k : Keys) : option Keys :=
  '(p, h) ← dll_make_last (get_list w k) key (cells k); Some (set_list_ w p h k).

Definition set_buf (key : ptr) (b : bytes) (k : Keys) : Keys :=
  {| cells := cells k; bufs := <[key := b]> (bufs k); list_ := list_ k; line_ := line_ k; free_ := free_ k; freekeys := freekeys k |}.

(** [OpenConsole] after [WipeKeystrokes]: the keystrokes of the pool are made free one by one. Address 0
    is no keystroke. *)
Definition POOL : nat := 512.
Definition pool : list ptr := N.of_nat <$> seq 1 POOL.

Fixpoint open_loop (ps : list ptr) (k : Keys) : option Keys :=
  match ps with
  | [] => Some k
  | e :: ps =>
      '(_, h) ← dll_init e (cells k);
      k ← FreeKeystrokeImpl e {| cells := h; bufs := bufs k; list_ := list_ k; line_ := line_ k; free_ := free_ k; freekeys := freekeys k |};
      open_loop ps k
  end.

Definition zeroed : Keys :=
  {| cells := list_to_map ((fun e => (e, {| next := NULL; prev := NULL |})) <$> pool);
     bufs := list_to_map ((fun e => (e, [])) <$> pool);
     list_ := NULL; line_ := NULL; free_ := NULL; freekeys := 0 |}.

Definition OpenConsole (t : TtyConf) : option Console :=
  k ← open_loop pool zeroed;
  Some {| keys := k; dev := {| end_of_file := false; ohno_decckm := false; utf16hs := 0; vkt := kVirtualKey; tty := t; out := [];
                              sigpending := 0 |} |}.

(* ------------------------------------------------------------------ *)
(** ** Events to bytes *)

Definition IsHighSurrogate (c : Z) : bool := Z.land 0xfc00 c =? 0xd800.
Definition IsLowSurrogate (c : Z) : bool := Z.land 0xfc00 c =? 0xdc00.
Definition MergeUtf16 (hi lo : Z) : Z := Z.shiftl (hi - 0xD800) 10 + (lo - 0xDC00) + 0x10000.

Definition isascii (c : Z) : bool := (0 <=? c) && (c <=? 0x7F).
Definition isgraph (c : Z) : bool := (0x21 <=? c) && (c <=? 0x7E).
Definition iscntrl (c : Z) : bool := ((0 <=? c) && (c <=? 0x1F)) || (c =? 0x7F).

(** The character of a key that comes without one, with control held down. *)
Definition missing_char (k cks : Z) : option Z :=
  if (k =? # "2") && has cks AnyCtrl then Some 0
  else if isascii k && isdigit k && has cks AnyCtrl then Some (24 + (k - # "0"))
  else if isascii k && isgraph k && has cks AnyCtrl then Some (Z.lxor k 64)
  else None.

(** What a key event calls for: bytes, nothing, one half of a surrogate pair to remember, a signal, or
    the end of the file. *)
Inductive key_action := Emit (p : bytes) | Ignore | High (c : Z) | Signal (sig : Z) | Eof.

(** From where the character is known: line ends, backspace, signals, end of file, and the encoding. *)
Definition char_action (down : bool) (c cks : Z) (t : TtyConf) : key_action :=
  let c := if (c =? 13) && negb (has (magic t) kTtyNoCr2Nl) then 10 else c in
  let c := if (c =? # " ") && has cks AnyCtrl then 0 else c in
  let c := if (c =? 8) && negb (has cks AnyCtrl) then 127 else c in
  if negb (c =? 0) && negb (has (magic t) kTtyNoIsigs) && (c =? vintr t) then Signal 2
  else if negb (c =? 0) && negb (has (magic t) kTtyNoIsigs) && (c =? vquit t) then Signal 3
  else if negb (c =? 0) && (c =? veof t) && negb (has (magic t) kTtyUncanon) then Eof
  else Emit ((if has cks AnyAlt && down then [27] else []) ++ put_word (tpenc c)).

Definition key_event (down : bool) (k c cks : Z) (d : Device) : option key_action :=
  let cks := u16 cks in
  if negb down && ((c =? 0) || negb (k =? 0x12)) then Some Ignore else
  v ← GetVirtualKey (vkt d) k (has cks kNtShiftPressed) (has cks AnyCtrl);
  if negb (v =? 0) then
    Some (Emit ([27] ++ (if has cks AnyAlt then [27] else []) ++
                (if v >? 0 then # "[" :: emit_word 4 v else emit_word 4 (- v))))
  else if (k =? 0xBF) && has cks AnyCtrl then Some (Emit [31])
  else
    match (if c =? 0 then missing_char k cks else Some c) with
    | None => Some Ignore
    | Some c =>
        if IsHighSurrogate c then Some (High c)
        else
          let c := if IsLowSurrogate c then u32 (MergeUtf16 (utf16hs d) c) else c in
          Some (char_action down c cks (tty d))
    end.

(** An end of file flushes the line that is being edited, if there is one. *)
Definition ProcessKeyEvent (down : bool) (k c cks : Z) (s : Console) : option (bytes * Console) :=
  a ← key_event down k c cks (dev s);
  match a with
  | Emit p => Some (p, s)
  | Ignore => Some ([], s)
  | High c => Some ([], on_dev (set_hs c) s)
  | Signal sig => Some ([], on_dev (AddSignal sig) s)
  | Eof =>
      if dll_is_empty (line_ (keys s)) then Some ([], on_dev set_eof s)
      else k ← flush_line (keys s); Some ([], set_keys k s)
  end.

(** [OutputXtermMouseEvent] *)
Definition xterm_mouse (e X Y bs currentbs : Z) (d : Device) : option (bytes * Device) :=
  '(pe, _) ← FormatInt32 e;
  '(px, _) ← FormatInt32 (Z.land (X + 1) 0x7fff);
  '(py, _) ← FormatInt32 (Z.land (Y + 1) 0x7fff);
  Some ([27; # "["; # "<"] ++ cstr pe ++ # ";" :: cstr px ++ # ";" :: cstr py ++
          [if (bs =? 0) && negb (currentbs =? 0) then # "m" else # "M"],
        set_tty (set_mousebs bs (tty d)) d).

Definition ProcessMouseEvent (X Y dwButtonState dwControlKeyState dwEventFlags : Z) (d : Device) : option (bytes * Device) :=
  let t := tty d in
  let currentbs := mousebs t in
  let ev := Z.land dwEventFlags (Z.lor kNtMouseMoved kNtMouseWheeled) in
  let bs := Z.land dwButtonState (Z.lor kNtFromLeft1stButtonPressed kNtRightmostButtonPressed) in
  if has ev kNtMouseWheeled then
    let isup := Z.shiftr (s32 dwButtonState) 16 >? 0 in
    if has (magic t) kTtyXtMouse then
      xterm_mouse (if has dwControlKeyState AnyCtrl then (if isup then 80 else 81) else (if isup then 64 else 65)) X Y bs currentbs d
    else if negb (has dwControlKeyState (Z.lor kNtShiftPressed (Z.lor AnyCtrl AnyAlt))) then
      Some ([27; if ohno_decckm d then # "O" else # "["; if isup then # "A" else # "B"], d)
    else Some ([], d)
  else if (negb (bs =? 0) || negb (currentbs =? 0)) && has (magic t) kTtyXtMouse then
    let e := if negb (bs =? 0) && has ev kNtMouseMoved && negb (currentbs =? 0) then 32 else 0 in
    let e := if has (Z.lor bs currentbs) kNtRightmostButtonPressed then Z.lor e 2 else e in
    xterm_mouse e X Y bs currentbs d
  else Some ([], d).

Definition ConvertConsoleInputToAnsi (r : NtInputRecord) (s : Console) : option (bytes * Console) :=
  match r with
  | KeyEvent down k c cks => ProcessKeyEvent down k c cks s
  | MouseEvent X Y b cks ev => '(p, d) ← ProcessMouseEvent X Y b cks ev (dev s); Some (p, {| keys := keys s; dev := d |})
  | WindowBufferSizeEvent => Some ([], on_dev (AddSignal 28) s)
  | OtherEvent => Some ([], s)
  end.

(* ------------------------------------------------------------------ *)
(** ** Echo and line editing *)

Definition IsCtl (c : Z) : bool := isascii c && iscntrl c && negb (c =? 10) && negb (c =? 9).

(** One character of [WriteCtl]. *)
Definition ctl_bytes (c : Z) : bytes := if IsCtl (s8 c) then [ # "^"; Z.lxor c 64] else [c].

Definition EchoTty (p : bytes) (d : Device) : Device :=
  if has (magic (tty d)) kTtyEchoRaw then WriteTty p d else WriteTty (p ≫= ctl_bytes) d.

(** [EraseCharacter] writes a backspace, a space and a backspace. *)
Definition erase_character : bytes := [8; 32; 8].

Definition erase_bytes (raw : bool) (c : Z) : bytes :=
  if Z.land c 192 =? 128 then []
  else erase_character ++ (if negb raw && IsCtl (s8 c) then erase_character else []).

Definition EraseKeystroke (s : Console) : option (bool * Console) :=
  let e := dll_last (line_ (keys s)) in
  if (e =? NULL)%N then Some (false, s)
  else
    b ← bufs (keys s) !! e;
    k ← FreeKeystroke LINE e (keys s);
    Some (true, {| keys := k; dev := WriteTty (rev b ≫= erase_bytes (has (magic (tty (dev s))) kTtyEchoRaw)) (dev s) |}).

(** [while (EraseKeystroke()) {}] *)
Fixpoint erase_line (fuel : nat) (s : Console) : option Console :=
  match fuel with
  | O => None
  | S fuel => '(more, s) ← EraseKeystroke s; if (more : bool) then erase_line fuel s else Some s
  end.

(** [len == 1 && buf[0] && (buf[0] & 255) == c] *)
Definition is_char (buf : bytes) (c : Z) : bool :=
  match buf with [b] => negb (b =? 0) && (Z.land b 255 =? c) | _ => false end.

Definition is_canonical (s : Console) : bool := negb (has (magic (tty (dev s))) kTtyUncanon).

Definition IngestConsoleInputRecord (r : NtInputRecord) (s : Console) : option Console :=
  '(buf, s) ← ConvertConsoleInputToAnsi r s;
  if (length buf =? 0)%nat then Some s
  else if is_char buf (verase (tty (dev s))) && is_canonical s then
    '(_, s) ← EraseKeystroke s; Some s
  else if is_char buf (vkill (tty (dev s))) && is_canonical s then erase_line (S POOL) s
  else
    '(e, k) ← NewKeystroke (keys s);
    let k := set_buf e buf k in
    let d := if has (magic (tty (dev s))) kTtySilence then dev s else EchoTty buf (dev s) in
    if negb (is_canonical s) then
      k ← append_key LIST e k; Some {| keys := k; dev := d |}
    else
      k ← append_key LINE e k;
      k ← (if (freekeys k =? 0) || is_char buf 10 || is_char buf (veol (tty d)) || is_char buf (veol2 (tty d))
           then flush_line k else Some k);
      Some {| keys := k; dev := d |}.

(** [for (i = 0; i < n && !end_of_file; ++i)] *)
Fixpoint ingest_records (rs : list NtInputRecord) (s : Console) : option Console :=
  match rs with
  | [] => Some s
  | r :: rs =>
      if end_of_file (dev s) then Some s
      else s ← IngestConsoleInputRecord r s; ingest_records rs s
  end.

(** The console of the system: the events that wait there, or [None] when its calls fail. *)
Abbreviation Events := (option (list NtInputRecord)).

Fixpoint IngestConsoleInput (fuel : nat) (q : Events) (s : Console) : option (Events * Console) :=
  match fuel with
  | O => None
  | S fuel =>
      if freekeys (keys s) =? 0 then Some (q, s)
      else if end_of_file (dev s) then Some (q, s)
      else
        match q with
        | None => Some (q, on_dev set_eof s)
        | Some rs =>
            if (length rs =? 0)%nat then Some (q, s)
            else
              let n := Z.to_nat (Z.min (freekeys (keys s)) (Z.min 16 (Z.of_nat (length rs)))) in
              s ← ingest_records (take n rs) s;
              IngestConsoleInput fuel (Some (drop n rs)) s
        end
  end.

Definition ingest_fuel (q : Events) : nat := S (S (length (default [] q))).

(* ------------------------------------------------------------------ *)
(** ** Reading *)

(** The loop of [DigestConsoleInput]: [data] is what was copied so far. *)
Fixpoint digest_loop (fuel : nat) (data : bytes) (size : Z) (s : Console) : option (bytes * Console) :=
  match fuel with
  | O => None
  | S fuel =>
      if size =? 0 then Some (data, s)
      else
        '(e, _) ← dll_first (list_ (keys s)) (cells (keys s));
        if (e =? NULL)%N then Some (data, s)
        else
          b ← bufs (keys s) !! e;
          let got := Z.min size (Z.of_nat (length b)) in
          let data := data ++ take (Z.to_nat got) b in
          let size := size - got in
          let b := drop (Z.to_nat got) b in
          k ← (if negb (length b =? 0)%nat then Some (set_buf e b (keys s)) else FreeKeystroke LIST e (keys s));
          let s := set_keys k s in
          if has (magic (tty (dev s))) kTtyUncanon && (Z.of_nat (length data) >=? vmin (tty (dev s))) then Some (data, s)
          else digest_loop fuel data size s
  end.

(** [None] in the result is the return of false, [Some data] the bytes that were read. *)
Definition DigestConsoleInput (size : Z) (s : Console) : option (option bytes * Console) :=
  if dll_is_empty (list_ (keys s)) && end_of_file (dev s) then Some (Some [], s)
  else
    '(data, s) ← digest_loop (S (S POOL)) [] size s;
    Some (if (length data =? 0)%nat then None else Some data, s).

(** [ReadFromConsole]. What the waits return, with the events that arrive meanwhile, is given: -2
    means that there is console data. A read may still wait when they are used up. *)
Inductive read_result := Read (data : bytes) | Failed (rc : Z) | Waiting.

Fixpoint ReadFromConsole (waits : list (Z * list NtInputRecord)) (size : Z) (q : Events) (s : Console) :
    option (read_result * Events * Console) :=
  '(q, s) ← IngestConsoleInput (ingest_fuel q) q s;
  '(r, s) ← DigestConsoleInput size s;
  match r with
  | Some data => Some (Read data, q, s)
  | None =>
      match waits with
      | [] => Some (Waiting, q, s)
      | (rc, arrived) :: waits =>
          let q := (fun rs => rs ++ arrived) <$> q in
          if rc =? -2 then ReadFromConsole waits size q s else Some (Failed rc, q, s)
      end
  end.

(** The sum over the list of [CountConsoleInputBytes]; [n] keystrokes are left at most. *)
Fixpoint count_loop (fuel : nat) (e : ptr) (k : Keys) (count : Z) : option Z :=
  match fuel with
  | O => None
  | S fuel =>
      if (e =? NULL)%N then Some count
      else
        b ← bufs k !! e;
        '(e, _) ← dll_next (list_ k) e (cells k);
        count_loop fuel e k (count + Z.of_nat (length b))
  end.

Definition CountConsoleInputBytes (q : Events) (s : Console) : option (Z * Events * Console) :=
  '(q, s) ← IngestConsoleInput (ingest_fuel q) q s;
  '(e, _) ← dll_first (list_ (keys s)) (cells (keys s));
  count ← count_loop (S POOL) e (keys s) 0;
  Some (if (count =? 0) && end_of_file (dev s) then -1 else count, q, s).

(** [FlushConsoleInputBuffer] empties the events of the system. *)
Definition FlushConsoleInputBytes (q : Events) (s : Console) : option (Events * Console) :=
  k ← FreeKeystrokes (S POOL) LIST (keys s);
  k ← FreeKeystrokes (S POOL) LINE k;
  Some ((fun _ => []) <$> q, set_keys k s).

(* ------------------------------------------------------------------ *)
(** ** Commands in the output *)

Inductive intercept := ASC | ESC | CSI | CMD.

(** One character of [InterceptTerminalCommands]; [cm2] is the mode of the console. *)
Definition intercept_char (c : Z) (st : intercept * Z * bool * Z * Device) : intercept * Z * bool * Z * Device :=
  let '(t, x, ismouse, cm2, d) := st in
  let c := s8 c in
  match t with
  | ASC => (if c =? 27 then ESC else ASC, x, ismouse, cm2, d)
  | ESC => (if c =? # "[" then CSI else ASC, x, ismouse, cm2, d)
  | CSI => if c =? # "?" then (CMD, 0, ismouse, cm2, d) else (ASC, x, ismouse, cm2, d)
  | CMD =>
      if (# "0" <=? c) && (c <=? # "9") then (CMD, u32 (u32 (x * 10) + (c - # "0")), ismouse, cm2, d)
      else if c =? # ";" then (CMD, 0, ismouse || IsMouseModeCommand (s32 x), cm2, d)
      else if c =? # "h" then
        if x =? 1 then (ASC, x, ismouse, cm2, set_vkt kDecckm true d)
        else if ismouse || IsMouseModeCommand (s32 x) then
          (ASC, x, true, Z.land (Z.lor cm2 0x10) (Z.lnot 0x40), set_tty (set_magic (Z.lor (magic (tty d)) kTtyXtMouse) (tty d)) d)
        else (ASC, x, false, cm2, d)
      else if c =? # "l" then
        if x =? 1 then (ASC, x, ismouse, cm2, set_vkt kVirtualKey false d)
        else if ismouse || IsMouseModeCommand (s32 x) then
          (ASC, x, true, Z.lor cm2 0x40, set_tty (set_magic (u8 (Z.land (magic (tty d)) (Z.lnot kTtyXtMouse))) (tty d)) d)
        else (ASC, x, false, cm2, d)
      else (CMD, x, ismouse, cm2, d)
  end.

(** The new mode of the console, if it is set, and the state. *)
Definition InterceptTerminalCommands (data : bytes) (cm : Z) (d : Device) : option Z * Device :=
  let '(_, _, _, cm2, d) := fold_left (fun st c => intercept_char c st) data (ASC, 0, false, cm, d) in
  (if cm2 =? cm then None else Some cm2, d).

(* ------------------------------------------------------------------ *)
(** ** Queues of byte strings *)

(** What the lists of keystrokes hold: [committed] can be read, [pending] is the line being edited. *)
Record Queues := { committed : list bytes; pending : list bytes }.

Definition total (q : Queues) : nat := length (committed q) + length (pending q).

Definition holds_buf (k : Keys) (e : ptr) (b : bytes) : Prop := bufs k !! e = Some b.

(** The pool is split into the three lists, whose keystrokes hold these bytes. *)
Record split (k : Keys) (q : Queues) (L N F : ptrs) : Prop := {
  split_dlls : dlls (cells k) [L; N; F];
  split_list : list_ k = held L;
  split_line : line_ k = held N;
  split_free : free_ k = held F;
  split_count : freekeys k = Z.of_nat (length F);
  split_total : (length L + length N + length F = POOL)%nat;
  split_L : Forall2 (holds_buf k) L (committed q);
  split_N : Forall2 (holds_buf k) N (pending q) }.

Definition rep (k : Keys) (q : Queues) : Prop := exists L N F, split k q L N F.

Lemma rep_count k q : rep k q -> freekeys k = Z.of_nat (POOL - total q) /\ (total q <= POOL)%nat.
Proof.
  intros (L & N & F & [_ _ _ _ C T HL HN]). unfold total.
  rewrite <- (Forall2_length _ _ _ HL), <- (Forall2_length _ _ _ HN), C. lia.
Qed.

(** Buffers of other keystrokes are of no interest. *)
Lemma Forall2_bufs k k' l bs :
  (forall e, e ∈ l -> bufs k' !! e = bufs k !! e) -> Forall2 (holds_buf k) l bs -> Forall2 (holds_buf k') l bs.
Proof.
  intros H F. induction F as [|e b l bs Hb _ IH]; constructor.
  - unfold holds_buf. rewrite H; [done|]. apply list_elem_of_here.
  - apply IH. intros e' He'. apply H. by apply list_elem_of_further.
Qed.

Lemma held_one e : held [e] = e.
Proof. done. Qed.

Lemma s16_small n : (n <= POOL)%nat -> s16 (Z.of_nat n) = Z.of_nat n.
Proof. intros H. apply s16_id. unfold POOL in H. lia. Qed.

Lemma dlls_apart h L M R a : dlls h (L :: M :: R) -> a ∈ L -> a ∉ M.
Proof.
  intros (D & _). cbn in D. apply NoDup_app in D as (_ & D & _). intros HL HM. apply (D a HL). apply elem_of_app. by left.
Qed.

(** Rearranges the lists that share a heap. *)
Lemma dlls_perm h R R' : dlls h R -> R' ≡ₚ R -> dlls h R'.
Proof. intros D P. by rewrite P. Qed.

Ltac dlls_tac H := apply (dlls_perm _ _ _ H); solve_Permutation.

Lemma take_append h T O F e :
  dlls h [T; O; e :: F] ->
  exists h1 h2, dll_first (held (e :: F)) h = Some (e, h) /\ dll_remove (held (e :: F)) e h = Some (held F, h1) /\
    dll_make_last (held T) e h1 = Some (held (T ++ [e]), h2) /\ dlls h2 [T ++ [e]; O; F] /\ e ∉ T /\ e ∉ O.
Proof.
  intros D. assert (dlls h ((e :: F) :: [T; O])) as D1 by dlls_tac D.
  pose proof (first_run _ _ _ D1) as Ef. destruct (remove_run _ [] e F _ D1) as (h1 & E1 & D2). cbn [app] in E1, D2.
  assert (dlls h1 (T :: [e] :: [O; F])) as D3 by dlls_tac D2.
  destruct (make_last_run _ _ _ _ D3) as (h2 & E2 & D4). exists h1, h2. split; [done|]. split; [done|]. split; [done|].
  split; [done|]. split; intros X.
  - assert (dlls h1 ([e] :: T :: [O; F])) as D5 by dlls_tac D2. by apply (dlls_apart _ _ _ _ e D5); [apply list_elem_of_here|].
  - assert (dlls h1 ([e] :: O :: [T; F])) as D5 by dlls_tac D2. by apply (dlls_apart _ _ _ _ e D5); [apply list_elem_of_here|].
Qed.

Lemma release h l1 e l2 O F :
  dlls h [l1 ++ e :: l2; O; F] ->
  exists h1 h2, dll_remove (held (l1 ++ e :: l2)) e h = Some (held (l1 ++ l2), h1) /\
    dll_make_first (held F) e h1 = Some (held (e :: F), h2) /\ dlls h2 [l1 ++ l2; O; e :: F].
Proof.
  intros D. destruct (remove_run _ _ _ _ _ D) as (h1 & E1 & D2).
  assert (dlls h1 (F :: [e] :: [l1 ++ l2; O])) as D3 by dlls_tac D2.
  destruct (make_first_run _ _ _ _ _ D3) as (h2 & E2 & D4). exists h1, h2. split; [done|]. split; [done|].
  cbn [app] in D4. dlls_tac D4.
Qed.

Lemma Forall2_other k l bs e b k' :
  bufs k' = <[e := b]> (bufs k) -> e ∉ l -> Forall2 (holds_buf k) l bs -> Forall2 (holds_buf k') l bs.
Proof.
  intros E X F. eapply Forall2_bufs; [|exact F]. intros a Ha. rewrite E, lookup_insert_ne; [done|]. by intros ->.
Qed.

(** A free keystroke is taken, filled, and put at the end of a list. *)
Definition push (w : which) (b : bytes) (q : Queues) : Queues :=
  match w with
  | LIST => {| committed := committed q ++ [b]; pending := pending q |}
  | LINE => {| committed := committed q; pending := pending q ++ [b] |}
  end.

Lemma push_run w k q b :
  rep k q -> (total q < POOL)%nat ->
  exists e k1 k2, NewKeystroke k = Some (e, k1) /\ append_key w e (set_buf e b k1) = Some k2 /\ rep k2 (push w b q).
Proof.
  intros R T. destruct (rep_count _ _ R) as [Hc _]. destruct R as (L & N & F & [D El En Ef C Tot HL HN]).
  destruct F as [|e F]; [cbn in C; lia|]. cbn [length] in C, Tot.
  assert (s16 (freekeys k - 1) = Z.of_nat (length F)) as Es by (rewrite C; replace (Z.of_nat (S (length F)) - 1) with (Z.of_nat (length F)) by lia; apply s16_small; lia).
  unfold NewKeystroke, append_key. rewrite Ef. destruct w; cbn [get_list set_list_ set_buf].
  - destruct (take_append _ _ _ _ _ D) as (h1 & h2 & -> & E1 & E2 & D' & XL & XN). cbn [mbind option_bind]. rewrite E1.
    cbn [mbind option_bind]. eexists _, _, _. split; [done|]. cbn [get_list set_list_ set_buf list_ line_ cells]. rewrite El, E2. cbn [mbind option_bind]. split; [done|].
    exists (L ++ [e]), N, F. split; cbn; try done; [rewrite length_app; cbn; lia|..].
    + apply Forall2_app; [eapply (Forall2_other k); [cbn; by rewrite insert_insert_eq|done|done]|].
      repeat constructor. unfold holds_buf. cbn. by rewrite lookup_insert_eq.
    + eapply (Forall2_other k); [cbn; by rewrite insert_insert_eq|done|done].
  - assert (dlls (cells k) [N; L; e :: F]) as D0 by dlls_tac D.
    destruct (take_append _ _ _ _ _ D0) as (h1 & h2 & -> & E1 & E2 & D' & XN & XL). cbn [mbind option_bind]. rewrite E1.
    cbn [mbind option_bind]. eexists _, _, _. split; [done|]. cbn [get_list set_list_ set_buf list_ line_ cells]. rewrite En, E2. cbn [mbind option_bind]. split; [done|].
    exists L, (N ++ [e]), F. split; cbn; try done; [dlls_tac D'|rewrite length_app; cbn; lia|..].
    + eapply (Forall2_other k); [cbn; by rewrite insert_insert_eq|done|done].
    + apply Forall2_app; [eapply (Forall2_other k); [cbn; by rewrite insert_insert_eq|done|done]|].
      repeat constructor. unfold holds_buf. cbn. by rewrite lookup_insert_eq.
Qed.

Definition commit (q : Queues) : Queues := {| committed := committed q ++ pending q; pending := [] |}.

Lemma flush_run k q : rep k q -> exists k', flush_line k = Some k' /\ rep k' (commit q).
Proof.
  intros (L & N & F & [D El En Ef C Tot HL HN]). destruct (make_last_run _ _ _ _ D) as (h & E & D').
  unfold flush_line. rewrite El, En, E. cbn [mbind option_bind]. eexists. split; [done|].
  exists (L ++ N), [], F. split; cbn; try done.
  - assert (dlls h ([] :: [L ++ N; F])) as D0 by by apply dlls_nil. dlls_tac D0.
  - rewrite length_app. lia.
  - by apply Forall2_app.
Qed.

Definition queue (w : which) (q : Queues) : list bytes := match w with LIST => committed q | LINE => pending q end.
Definition set_queue (w : which) (l : list bytes) (q : Queues) : Queues :=
  match w with LIST => {| committed := l; pending := pending q |} | LINE => {| committed := committed q; pending := l |} end.

(** A keystroke is freed, wherever it stands. *)
Lemma free_run w k q L N F l1 e l2 :
  split k q L N F -> (match w with LIST => L | LINE => N end) = l1 ++ e :: l2 ->
  exists k', FreeKeystroke w e k = Some k' /\
    rep k' (set_queue w (take (length l1) (queue w q) ++ drop (S (length l1)) (queue w q)) q).
Proof.
  intros [D El En Ef C Tot HL HN] E. assert (s16 (freekeys k + 1) = Z.of_nat (S (length F))) as Es.
  { rewrite C. replace (Z.of_nat (length F) + 1) with (Z.of_nat (S (length F))) by lia. apply s16_small.
    destruct w; subst; rewrite length_app in Tot; cbn in Tot; lia. }
  assert (forall bs, Forall2 (holds_buf k) (l1 ++ e :: l2) bs -> Forall2 (holds_buf k) (l1 ++ l2) (take (length l1) bs ++ drop (S (length l1)) bs)) as X.
  { intros bs (b1 & b2 & F1 & F2 & ->)%Forall2_app_inv_l. apply Forall2_cons_inv_l in F2 as (b & b2' & _ & F2 & ->).
    rewrite (Forall2_length _ _ _ F1), take_app_length, drop_app_ge by lia.
    replace (S (length b1) - length b1)%nat with 1%nat by lia. by apply Forall2_app. }
  unfold FreeKeystroke, FreeKeystrokeImpl. destruct w; cbn [get_list set_list_ queue set_queue]; subst.
  - destruct (release _ _ _ _ _ _ D) as (h1 & h2 & E1 & E2 & D'). rewrite El, E1. cbn [mbind option_bind free_ cells]. rewrite Ef, E2.
    cbn [mbind option_bind]. eexists. split; [done|]. exists (l1 ++ l2), N, (e :: F).
    split; cbn; try done; [rewrite !length_app in *; cbn in *; lia|by apply X].
  - assert (dlls (cells k) [l1 ++ e :: l2; L; F]) as D0 by dlls_tac D.
    destruct (release _ _ _ _ _ _ D0) as (h1 & h2 & E1 & E2 & D'). rewrite En, E1. cbn [mbind option_bind free_ cells]. rewrite Ef, E2.
    cbn [mbind option_bind]. eexists. split; [done|]. exists L, (l1 ++ l2), (e :: F).
    split; cbn; try done; [dlls_tac D'|rewrite !length_app in *; cbn in *; lia|by apply X].
Qed.

Lemma open_loop_run ps k F :
  dlls (cells k) [F] -> free_ k = held F -> freekeys k = Z.of_nat (length F) -> list_ k = NULL -> line_ k = NULL ->
  NoDup ps -> (forall e, e ∈ ps -> e <> NULL /\ is_Some (cells k !! e) /\ e ∉ F) -> (length F + length ps <= POOL)%nat ->
  exists k', open_loop ps k = Some k' /\ dlls (cells k') [rev ps ++ F] /\ free_ k' = held (rev ps ++ F) /\
    freekeys k' = Z.of_nat (length ps + length F) /\ list_ k' = NULL /\ line_ k' = NULL.
Proof.
  revert k F. induction ps as [|e ps IH]; intros k F D Ef C El En ND H T; [exists k; done|]. cbn [open_loop].
  apply NoDup_cons in ND as [Ne ND]. destruct (H e) as (Z & Ce & Xe); [apply list_elem_of_here|].
  destruct (init_run (cells k) e [F]) as (h1 & E1 & D1); [done|done|cbn; by rewrite app_nil_r|done|]. rewrite E1. cbn [mbind option_bind].
  assert (dlls h1 (F :: [e] :: [])) as D2 by dlls_tac D1. destruct (make_first_run _ _ _ _ _ D2) as (h2 & E2 & D3).
  unfold FreeKeystrokeImpl. cbn [free_ cells bufs list_ line_ freekeys]. rewrite Ef, E2. cbn [mbind option_bind].
  assert (s16 (freekeys k + 1) = Z.of_nat (S (length F))) as ->.
  { rewrite C. replace (Z.of_nat (length F) + 1) with (Z.of_nat (S (length F))) by lia. apply s16_small. cbn in T. lia. }
  match goal with |- context [open_loop ps ?k1] => destruct (IH k1 (e :: F)) as (k' & E & D' & R1 & R2 & R3) end; cbn; try done.
  - intros a Ha. destruct (H a) as (Za & Ca & Xa); [by apply list_elem_of_further|]. split; [done|]. split.
    + eapply keeps_make_first; [exact E2|]. by eapply keeps_init.
    + apply not_elem_of_cons. split; [by intros ->|done].
  - cbn in T. lia.
  - exists k'. split; [done|]. cbn [rev]. rewrite <- app_assoc. cbn [app]. split; [done|]. split; [done|]. split; [cbn in R2; lia|done].
Qed.

Lemma pool_NoDup : NoDup pool.
Proof. unfold pool. apply NoDup_fmap; [apply _|]. apply NoDup_seq. Qed.

Lemma pool_length : length pool = POOL.
Proof. unfold pool. by rewrite length_fmap, length_seq. Qed.

Lemma pool_cells e : e ∈ pool -> e <> NULL /\ is_Some (cells zeroed !! e) /\ e ∉ @nil ptr.
Proof.
  intros He. split; [intros ->|].
  - unfold pool in He. apply list_elem_of_fmap in He as (n & En & Hn). apply elem_of_seq in Hn. lia.
  - split; [|apply not_elem_of_nil]. unfold zeroed. cbn [cells]. exists {| next := NULL; prev := NULL |}.
    apply elem_of_list_to_map; [|apply list_elem_of_fmap; by exists e].
    rewrite <- list_fmap_compose. rewrite (list_fmap_ext _ id); [rewrite list_fmap_id; apply pool_NoDup|reflexivity].
Qed.

Lemma open_loop_pool : exists k, open_loop pool zeroed = Some k /\ rep k {| committed := []; pending := [] |}.
Proof.
  assert (dlls (cells zeroed) [[]]) as D0.
  { split; [constructor|]. split; [apply not_elem_of_nil|]. apply Forall_singleton. split; [exact I|]. intros []. reflexivity. }
  destruct (open_loop_run pool zeroed [] D0 eq_refl eq_refl eq_refl eq_refl pool_NoDup pool_cells) as (k & E & D & Ef & C & El & En);
    [rewrite pool_length; cbn; lia|]. rewrite app_nil_r in D, Ef. generalize pool_length. intros Lp.
  exists k. split; [exact E|]. exists [], [], (rev pool). split; cbn [committed pending].
  - apply dlls_nil, dlls_nil, D.
  - exact El.
  - exact En.
  - exact Ef.
  - rewrite C, length_rev. cbn [length]. lia.
  - rewrite length_rev. cbn [length]. lia.
  - constructor.
  - constructor.
Qed.

(* ------------------------------------------------------------------ *)
(** ** A terminal on queues *)

(** The specification: the same terminal, on queues of byte strings instead of lists in memory. *)
Record Term := { queues : Queues; tdev : Device }.

Definition on_tdev (f : Device -> Device) (t : Term) : Term := {| queues := queues t; tdev := f (tdev t) |}.
Definition set_queues (q : Queues) (t : Term) : Term := {| queues := q; tdev := tdev t |}.

(** What an event does, and the bytes of its keystroke. *)
Definition t_convert (r : NtInputRecord) (t : Term) : option (bytes * Term) :=
  match r with
  | KeyEvent down k c cks =>
      a ← key_event down k c cks (tdev t);
      Some (match a with
            | Emit p => (p, t)
            | Ignore => ([], t)
            | High c => ([], on_tdev (set_hs c) t)
            | Signal sig => ([], on_tdev (AddSignal sig) t)
            | Eof => match pending (queues t) with
                     | [] => ([], on_tdev set_eof t)
                     | _ => ([], set_queues (commit (queues t)) t)
                     end
            end)
  | MouseEvent X Y b cks ev => '(p, d) ← ProcessMouseEvent X Y b cks ev (tdev t); Some (p, {| queues := queues t; tdev := d |})
  | WindowBufferSizeEvent => Some ([], on_tdev (AddSignal 28) t)
  | OtherEvent => Some ([], t)
  end.

Definition erase_echo (d : Device) (b : bytes) : Device := WriteTty (rev b ≫= erase_bytes (has (magic (tty d)) kTtyEchoRaw)) d.

(** The last keystroke of the line, or all of them from the last one on, are taken back. *)
Definition t_erase (t : Term) : Term :=
  match rev (pending (queues t)) with
  | [] => t
  | b :: l => {| queues := {| committed := committed (queues t); pending := rev l |}; tdev := erase_echo (tdev t) b |}
  end.
Definition t_kill (t : Term) : Term :=
  {| queues := {| committed := committed (queues t); pending := [] |}; tdev := fold_left erase_echo (rev (pending (queues t))) (tdev t) |}.

Definition t_canonical (t : Term) : bool := negb (has (magic (tty (tdev t))) kTtyUncanon).

Definition t_full (t : Term) : bool := (total (queues t) =? POOL)%nat.

Definition t_record (r : NtInputRecord) (t : Term) : option Term :=
  '(buf, t) ← t_convert r t;
  let c := tty (tdev t) in
  Some (if (length buf =? 0)%nat then t
        else if is_char buf (verase c) && t_canonical t then t_erase t
        else if is_char buf (vkill c) && t_canonical t then t_kill t
        else
          let d := if has (magic c) kTtySilence then tdev t else EchoTty buf (tdev t) in
          if negb (t_canonical t) then {| queues := push LIST buf (queues t); tdev := d |}
          else
            let q := push LINE buf (queues t) in
            let ends := (total q =? POOL)%nat || is_char buf 10 || is_char buf (veol c) || is_char buf (veol2 c) in
            {| queues := if ends then commit q else q; tdev := d |}).

(** Events are taken while there is room, up to an end of file. *)
Fixpoint t_ingest (rs : list NtInputRecord) (t : Term) : option (list NtInputRecord * Term) :=
  match rs with
  | [] => Some ([], t)
  | r :: rs' =>
      if t_full t || end_of_file (tdev t) then Some (rs, t)
      else t ← t_record r t; t_ingest rs' t
  end.

Definition t_ingest_events (q : Events) (t : Term) : option (Events * Term) :=
  match q with
  | None => Some (None, if t_full t || end_of_file (tdev t) then t else on_tdev set_eof t)
  | Some rs => '(rs, t) ← t_ingest rs t; Some (Some rs, t)
  end.

(** Bytes are copied from the front; [raw] stops as soon as [vmin] bytes are there. *)
Fixpoint t_copy (raw : bool) (vmin : Z) (data : bytes) (size : nat) (l : list bytes) : bytes * list bytes :=
  match l with
  | [] => (data, [])
  | b :: l' =>
      if (size =? 0)%nat then (data, l)
      else if (size <? length b)%nat then (data ++ take size b, drop size b :: l')
      else if raw && (Z.of_nat (length (data ++ b)) >=? vmin) then (data ++ b, l')
      else t_copy raw vmin (data ++ b) (size - length b) l'
  end.

Definition t_digest (size : nat) (t : Term) : option bytes * Term :=
  match committed (queues t), end_of_file (tdev t) with
  | [], true => (Some [], t)
  | l, _ =>
      let '(data, l) := t_copy (has (magic (tty (tdev t))) kTtyUncanon) (vmin (tty (tdev t))) [] size l in
      (if (length data =? 0)%nat then None else Some data, set_queues {| committed := l; pending := pending (queues t) |} t)
  end.

Fixpoint t_read (waits : list (Z * list NtInputRecord)) (size : nat) (q : Events) (t : Term) : option (read_result * Events * Term) :=
  '(q, t) ← t_ingest_events q t;
  let '(r, t) := t_digest size t in
  match r with
  | Some data => Some (Read data, q, t)
  | None =>
      match waits with
      | [] => Some (Waiting, q, t)
      | (rc, arrived) :: waits =>
          let q := (fun rs => rs ++ arrived) <$> q in
          if rc =? -2 then t_read waits size q t else Some (Failed rc, q, t)
      end
  end.

Definition t_count (q : Events) (t : Term) : option (Z * Events * Term) :=
  '(q, t) ← t_ingest_events q t;
  let count := Z.of_nat (length (mjoin (committed (queues t)))) in
  Some (if (count =? 0) && end_of_file (tdev t) then -1 else count, q, t).

Definition t_flush (q : Events) (t : Term) : Events * Term :=
  ((fun _ => []) <$> q, set_queues {| committed := []; pending := [] |} t).

(** A terminal and the code that implements it. The events that are left behind an end of file are
    never looked at again. *)
Definition sim (s : Console) (t : Term) : Prop := rep (keys s) (queues t) /\ dev s = tdev t.
Definition same_events (q q' : Events) (t : Term) : Prop := q = q' \/ end_of_file (tdev t) = true.

(** *** Conversion and editing *)

Lemma sim_dev s t f : sim s t -> sim (on_dev f s) (on_tdev f t).
Proof. intros [R E]. split; [done|]. cbn. by rewrite E. Qed.

Lemma line_empty k q : rep k q -> dll_is_empty (line_ k) = bool_decide (pending q = []).
Proof.
  intros (L & N & F & [D _ En _ _ _ _ HN]). rewrite En. unfold dll_is_empty. destruct HN as [|e b N bs Hb HN]; [done|].
  rewrite bool_decide_eq_false_2 by done. assert (dlls (cells k) ((e :: N) :: [L; F])) as D1 by dlls_tac D.
  destruct (dlls_cell _ _ _ (held (e :: N)) D1) as (Z & _); [by apply held_in|]. by apply N.eqb_neq.
Qed.

Lemma convert_run r s t :
  sim s t ->
  match t_convert r t with
  | Some (p, t') => exists s', ConvertConsoleInputToAnsi r s = Some (p, s') /\ sim s' t'
  | None => ConvertConsoleInputToAnsi r s = None
  end.
Proof.
  intros S. pose proof S as [R E]. destruct r as [down k c cks|X Y b cks ev| |]; cbn [ConvertConsoleInputToAnsi t_convert].
  - unfold ProcessKeyEvent. rewrite E. destruct (key_event down k c cks (tdev t)) as [a|]; [|done]. cbn [mbind option_bind].
    destruct a as [p| |c'|sig|]; try (eexists; split; [done|]; first [done|by apply sim_dev]).
    rewrite (line_empty _ _ R). destruct (pending (queues t)) as [|b bs] eqn:Ep; [eexists; split; [done|by apply sim_dev]|].
    destruct (flush_run _ _ R) as (k' & Ek & R'). rewrite Ek. cbn. eexists. split; [done|]. by split.
  - rewrite E. destruct (ProcessMouseEvent X Y b cks ev (tdev t)) as [[p d]|]; [|done]. cbn. eexists. split; [done|]. by split.
  - eexists. split; [done|]. by apply sim_dev.
  - by exists s.
Qed.

Lemma erase_run s t :
  sim s t -> exists s', EraseKeystroke s = Some (negb (bool_decide (pending (queues t) = [])), s') /\ sim s' (t_erase t).
Proof.
  intros [R E]. unfold EraseKeystroke, dll_last, t_erase. pose proof (line_empty _ _ R) as Em. unfold dll_is_empty in Em. rewrite Em.
  destruct (rev (pending (queues t))) as [|b l] eqn:Er.
  - apply (f_equal (@rev bytes)) in Er. rewrite rev_involutive in Er. rewrite Er. cbn. exists s. by split.
  - apply (f_equal (@rev bytes)) in Er. rewrite rev_involutive in Er. cbn [rev] in Er.
    rewrite bool_decide_eq_false_2 by (rewrite Er; by destruct (rev l)). cbn [negb].
    destruct R as (L & N & F & Sp). pose proof (split_N _ _ _ _ _ Sp) as HN. rewrite Er in HN.
    apply Forall2_app_inv_r in HN as (N1 & N2 & F1 & F2 & EN). apply Forall2_cons_inv_r in F2 as (e & N2' & Hb & F2 & ->).
    apply Forall2_nil_inv_r in F2 as ->. subst N. rewrite (split_line _ _ _ _ _ Sp), held_snoc, Hb. cbn [mbind option_bind].
    destruct (free_run LINE _ _ _ _ _ N1 e [] Sp eq_refl) as (k' & Ek & R'). rewrite Ek. cbn [mbind option_bind].
    eexists. split; [done|]. split; [|cbn; unfold erase_echo; by rewrite E]. cbn [queue set_queue] in R'. rewrite Er in R'.
    rewrite (Forall2_length _ _ _ F1), take_app_length, drop_app_ge in R' by lia.
    replace (S (length (rev l)) - length (rev l))%nat with 1%nat in R' by lia. cbn [drop] in R'. rewrite app_nil_r in R'. done.
Qed.

Lemma kill_erase t : pending (queues t) <> [] -> t_kill (t_erase t) = t_kill t.
Proof.
  intros NE. unfold t_kill, t_erase. destruct (rev (pending (queues t))) as [|b l] eqn:E.
  - apply (f_equal (@rev bytes)) in E. rewrite rev_involutive in E. done.
  - cbn. by rewrite rev_involutive.
Qed.

Lemma kill_run fuel s t :
  sim s t -> (length (pending (queues t)) < fuel)%nat -> exists s', erase_line fuel s = Some s' /\ sim s' (t_kill t).
Proof.
  revert s t. induction fuel as [|fuel IH]; intros s t S L; [lia|]. cbn [erase_line].
  destruct (erase_run s t S) as (s' & -> & S'). cbn [mbind option_bind].
  destruct (pending (queues t)) as [|b l] eqn:E.
  - rewrite bool_decide_eq_true_2 by done. cbn [negb]. exists s'. split; [done|].
    unfold t_erase in S'. unfold t_kill. rewrite E in *. cbn in S'. destruct S' as [R' E']. destruct t as [[c p] d]. cbn in E. subst p. by split.
  - rewrite bool_decide_eq_false_2 by done. cbn [negb]. rewrite <- kill_erase by by rewrite E. apply IH; [done|].
    unfold t_erase. rewrite E. destruct (rev (b :: l)) as [|b' l'] eqn:Er; apply (f_equal length) in Er;
      rewrite length_rev in Er; cbn in Er, L |- *; rewrite ?length_rev; lia.
Qed.

Lemma convert_total r t p t' : t_convert r t = Some (p, t') -> total (queues t') = total (queues t).
Proof.
  destruct r as [down k c cks|X Y b cks ev| |]; cbn [t_convert]; intros E.
  - destruct (key_event down k c cks (tdev t)) as [a|]; [|done]. cbn [mbind option_bind] in E.
    destruct a; try (by simplify_eq). destruct (pending (queues t)) as [|b bs] eqn:Ep; simplify_eq; [done|].
    unfold total, commit. cbn. rewrite length_app, Ep. cbn. lia.
  - destruct (ProcessMouseEvent X Y b cks ev (tdev t)) as [[? ?]|]; [|done]. by simplify_eq/=.
  - by simplify_eq/=.
  - by simplify_eq/=.
Qed.

Lemma record_run r s t :
  sim s t -> (total (queues t) < POOL)%nat ->
  match t_record r t with
  | Some t' => exists s', IngestConsoleInputRecord r s = Some s' /\ sim s' t'
  | None => IngestConsoleInputRecord r s = None
  end.
Proof.
  intros S T. unfold t_record, IngestConsoleInputRecord. pose proof (convert_run r s t S) as C.
  destruct (t_convert r t) as [[buf t1]|] eqn:Ec; [|by rewrite C]. cbn [mbind option_bind]. destruct C as (s1 & -> & S1). cbn [mbind option_bind].
  apply convert_total in Ec. pose proof S1 as [R1 E1]. unfold is_canonical, t_canonical. rewrite E1.
  destruct (length buf =? 0)%nat; [eauto|]. destruct (is_char buf (verase _) && _).
  { destruct (erase_run s1 t1 S1) as (s2 & -> & S2). cbn. eauto. }
  destruct (is_char buf (vkill _) && _).
  { apply kill_run; [done|]. unfold total in *. lia. }
  rewrite negb_involutive. destruct (has (magic (tty (tdev t1))) kTtyUncanon).
  - destruct (push_run LIST _ _ buf R1) as (e & k1 & k2 & -> & E2 & R2); [lia|]. cbn [mbind option_bind]. rewrite E2.
    cbn [mbind option_bind]. eexists. split; [done|]. by split.
  - destruct (push_run LINE _ _ buf R1) as (e & k1 & k2 & -> & E2 & R2); [lia|]. cbn [mbind option_bind]. rewrite E2. cbn [mbind option_bind].
    set (d := if has _ kTtySilence then _ else _).
    assert (tty d = tty (tdev t1)) as -> by (unfold d; destruct (has _ _); [done|]; unfold EchoTty; by destruct (has _ _)).
    destruct (rep_count _ _ R2) as [C2 B2]. set (q := push LINE buf (queues t1)) in *.
    assert ((freekeys k2 =? 0) = (total q =? POOL)%nat) as ->.
    { rewrite C2. destruct (Nat.eqb_spec (total q) POOL) as [->|N]; [by rewrite Nat.sub_diag|]. apply Z.eqb_neq. lia. }
    destruct (_ || _).
    + destruct (flush_run _ _ R2) as (k3 & -> & R3). cbn. eexists. split; [done|]. by split.
    + cbn. eexists. split; [done|]. by split.
Qed.

Lemma erase_total t : (total (queues (t_erase t)) <= total (queues t))%nat.
Proof.
  unfold t_erase, total. destruct (rev (pending (queues t))) as [|b l] eqn:E; [done|]. apply (f_equal length) in E.
  rewrite length_rev in E. cbn in E |- *. rewrite length_rev. lia.
Qed.

Lemma commit_total q : total (commit q) = total q.
Proof. unfold total, commit. cbn. rewrite length_app. lia. Qed.

Lemma push_total w b q : total (push w b q) = S (total q).
Proof. unfold total. destruct w; cbn; rewrite length_app; cbn; lia. Qed.

Lemma record_total r t t' : t_record r t = Some t' -> (total (queues t') <= S (total (queues t)))%nat.
Proof.
  unfold t_record. destruct (t_convert r t) as [[buf t1]|] eqn:Ec; [|done]. apply convert_total in Ec. cbn [mbind option_bind].
  intros [= <-]. rewrite <- Ec. pose proof (erase_total t1).
  repeat match goal with |- context [if ?b then _ else _] => destruct b end; cbn [queues]; rewrite ?commit_total, ?push_total; try lia.
  all: unfold t_kill, total, commit; cbn; rewrite ?length_app; cbn; lia.
Qed.

(** *** Batches of events *)

Lemma ingest_done rs t : t_full t || end_of_file (tdev t) = true -> t_ingest rs t = Some (rs, t).
Proof. destruct rs as [|r rs]; [done|]. intros H. cbn. by rewrite H. Qed.

(** The records of a batch, of which there are no more than free keystrokes. *)
Lemma records_run rs more s t :
  sim s t -> (length rs + total (queues t) <= POOL)%nat ->
  match t_ingest (rs ++ more) t with
  | Some (q', t') =>
      exists s1 t1, ingest_records rs s = Some s1 /\ sim s1 t1 /\ (total (queues t1) <= POOL)%nat /\
        t_ingest more t1 = Some (if end_of_file (tdev t1) then more else q', t') /\
        (end_of_file (tdev t1) = true -> t1 = t')
  | None => True
  end.
Proof.
  revert s t. induction rs as [|r rs IH]; intros s t S T.
  - cbn [app]. destruct (t_ingest more t) as [[q' t']|] eqn:E; [|done]. exists s, t. split; [done|]. split; [done|]. split; [cbn in T; lia|].
    destruct (end_of_file (tdev t)) eqn:Ee.
    + rewrite ingest_done in E by (rewrite Ee; apply orb_true_r). simplify_eq. rewrite ingest_done by (rewrite Ee; apply orb_true_r). done.
    + by rewrite E.
  - cbn [app ingest_records]. cbn [t_ingest]. cbn [length] in T. pose proof S as [R Ed]. rewrite Ed.
    assert (t_full t = false) as -> by (unfold t_full; apply Nat.eqb_neq; lia). cbn [orb].
    destruct (end_of_file (tdev t)) eqn:Ee.
    + exists s, t. split; [done|]. split; [done|]. split; [lia|]. rewrite Ee. rewrite ingest_done by (rewrite Ee; apply orb_true_r). done.
    + pose proof (record_run r s t S ltac:(lia)) as Rr. destruct (t_record r t) as [t1|] eqn:Er; [|done]. cbn [mbind option_bind].
      destruct Rr as (s1 & -> & S1). cbn [mbind option_bind]. apply IH; [done|].
      apply record_total in Er. lia.
Qed.

Lemma ingest_run fuel rs s t q' t' :
  sim s t -> (length rs < fuel)%nat -> t_ingest rs t = Some (q', t') ->
  exists qc s', IngestConsoleInput fuel (Some rs) s = Some (qc, s') /\ sim s' t' /\ same_events qc (Some q') t'.
Proof.
  revert rs s t. induction fuel as [|fuel IH]; intros rs s t S L E; [lia|]. cbn [IngestConsoleInput].
  pose proof S as [R Ed]. destruct (rep_count _ _ R) as [C T]. unfold same_events.
  assert ((freekeys (keys s) =? 0) = t_full t) as ->.
  { rewrite C. unfold t_full. destruct (Nat.eqb_spec (total (queues t)) POOL) as [->|N]; [by rewrite Nat.sub_diag|]. apply Z.eqb_neq. lia. }
  rewrite Ed. destruct (t_full t || end_of_file (tdev t)) eqn:Stop.
  { rewrite ingest_done in E by done. injection E as -> ->. exists (Some q'), s.
    destruct (t_full t'); [by auto|]. cbn [orb] in Stop. rewrite Stop. by auto. }
  apply orb_false_iff in Stop as [Hf He]. rewrite Hf, He. apply Nat.eqb_neq in Hf. destruct (Nat.eqb_spec (length rs) 0) as [Z0|NZ].
  { apply nil_length_inv in Z0 as ->. injection E as <- <-. exists (Some []), s. by auto. }
  set (n := Z.to_nat _). assert (1 <= n <= length rs /\ n + total (queues t) <= POOL)%nat as Hn.
  { unfold n. rewrite C. lia. }
  rewrite <- (take_drop n rs) in E. pose proof (records_run (take n rs) (drop n rs) s t S) as X. rewrite E in X.
  rewrite length_take in X. destruct X as (s1 & t1 & -> & S1 & T1 & E1 & Ee1); [lia|]. cbn [mbind option_bind].
  destruct (end_of_file (tdev t1)) eqn:Ee.
  - specialize (Ee1 eq_refl). subst t'. destruct fuel as [|fuel]; [lia|]. cbn [IngestConsoleInput].
    pose proof S1 as [_ ->]. rewrite Ee. exists (Some (drop n rs)), s1. destruct (_ =? 0); by auto.
  - apply (IH _ _ _ S1); [rewrite length_drop; lia|done].
Qed.

Lemma ingest_events_run qc qa s t qa' t' :
  sim s t -> same_events qc qa t -> t_ingest_events qa t = Some (qa', t') ->
  exists qc' s', IngestConsoleInput (ingest_fuel qc) qc s = Some (qc', s') /\ sim s' t' /\ same_events qc' qa' t'.
Proof.
  intros S Q E. pose proof S as [R Ed]. destruct (rep_count _ _ R) as [C T].
  assert ((freekeys (keys s) =? 0) = t_full t) as Ef.
  { rewrite C. unfold t_full. destruct (Nat.eqb_spec (total (queues t)) POOL) as [->|N]; [by rewrite Nat.sub_diag|]. apply Z.eqb_neq. lia. }
  destruct (t_full t || end_of_file (tdev t)) eqn:Stop.
  - assert (t' = t /\ qa' = qa) as [-> ->].
    { destruct qa as [rs|]; cbn [t_ingest_events] in E; [rewrite ingest_done in E by done|rewrite Stop in E]; by simplify_eq/=. }
    exists qc, s. split; [|done]. unfold ingest_fuel. cbn [IngestConsoleInput]. rewrite Ef, Ed.
    destruct (t_full t); [done|]. cbn [orb] in Stop. by rewrite Stop.
  - pose proof Stop as [Hf He]%orb_false_iff. destruct Q as [->|Q]; [|congruence]. destruct qa as [rs|]; cbn [t_ingest_events] in E.
    + destruct (t_ingest rs t) as [[rs' t1]|] eqn:Ei; [|done]. cbn in E. simplify_eq. apply (ingest_run _ rs s t); [done|unfold ingest_fuel; cbn; lia|done].
    + rewrite Stop in E. simplify_eq. unfold ingest_fuel. cbn [IngestConsoleInput]. rewrite Ef, Ed, Hf, He.
      eexists _, _. split; [done|]. split; [by apply sim_dev|]. by left.
Qed.

(** *** Reading *)

Lemma set_buf_run k q L N F e b' bs :
  split k q (e :: L) N F -> committed q = bs -> rep (set_buf e b' k) {| committed := b' :: tail bs; pending := pending q |}.
Proof.
  intros [D El En Ef C Tot HL HN] <-. exists (e :: L), N, F. split; cbn; try done.
  - inversion HL as [|? b ? bs Hb HL' Eq]; subst. rewrite <- Eq || idtac. cbn. constructor.
    + unfold holds_buf. cbn. by rewrite lookup_insert_eq.
    + eapply (Forall2_other k); [done| |done]. destruct D as (D & _). cbn in D. by apply NoDup_cons in D as [D _]; rewrite elem_of_app in D; naive_solver.
  - eapply (Forall2_other k); [done| |done]. apply (dlls_apart (cells k) (e :: L) N [F]); [done|apply list_elem_of_here].
Qed.

Lemma t_copy_0 raw vm data l : t_copy raw vm data 0 l = (data, l).
Proof. by destruct l. Qed.

Lemma digest_loop_run fuel data size s t :
  sim s t -> (S (length (committed (queues t))) < fuel)%nat ->
  let '(data', l) := t_copy (has (magic (tty (tdev t))) kTtyUncanon) (vmin (tty (tdev t))) data size (committed (queues t)) in
  exists s', digest_loop fuel data (Z.of_nat size) s = Some (data', s') /\
    sim s' (set_queues {| committed := l; pending := pending (queues t) |} t).
Proof.
  revert data size s t. induction fuel as [|fuel IH]; intros data size s t S Lf; [lia|]. cbn [digest_loop].
  pose proof S as [R Ed].
  destruct (Z.eqb_spec (Z.of_nat size) 0) as [Z0|NZ].
  { assert (size = 0%nat) as -> by lia. rewrite t_copy_0. exists s. split; [done|]. split; [|done]. by destruct t as [[c p] d]. }
  destruct R as (L & N & F & Sp). pose proof Sp as [D El En Ef C Tot HL HN]. rewrite El, (first_run _ _ _ D). cbn [mbind option_bind].
  inversion HL as [EL Ec|e b L' bs Hb HL' EL Ec]; subst L.
  { cbn. exists s. split; [done|]. split; [|done]. exists [], N, F. split; cbn; try done. }
  cbn [List.hd]. destruct (dlls_cell _ _ _ e D) as (Ze & _); [apply list_elem_of_here|]. rewrite (proj2 (N.eqb_neq _ _) Ze), Hb. cbn [mbind option_bind].
  cbn [t_copy]. rewrite (proj2 (Nat.eqb_neq size 0)) by lia. destruct (Nat.ltb_spec size (length b)) as [Lt|Ge].
  - rewrite Z.min_l by lia. rewrite Nat2Z.id. rewrite length_drop. rewrite (proj2 (Nat.eqb_neq (length b - size) 0)) by lia. cbn [negb mbind option_bind].
    assert (sim (set_keys (set_buf e (drop size b) (keys s)) s) (set_queues {| committed := drop size b :: bs; pending := pending (queues t) |} t)) as S1.
    { split; [|done]. apply (set_buf_run (keys s) (queues t) L' N F e (drop size b) (b :: bs)); [exact Sp|by rewrite <- Ec]. }
    cbn [dev set_keys]. rewrite Ed. destruct (_ && _); [eexists; split; [done|exact S1]|].
    rewrite Z.sub_diag. destruct fuel as [|fuel]; [cbn in Lf; lia|]. cbn. eexists. split; [done|exact S1].
  - rewrite Z.min_r by lia. rewrite Nat2Z.id, firstn_all, drop_all. cbn [length Nat.eqb negb].
    destruct (free_run LIST _ _ _ _ _ [] e L' Sp eq_refl) as (k' & -> & R'). cbn [mbind option_bind]. cbn [queue set_queue] in R'.
    rewrite <- Ec in R'. cbn [length take drop app] in R'.
    assert (sim (set_keys k' s) (set_queues {| committed := bs; pending := pending (queues t) |} t)) as S1 by by split.
    cbn [dev set_keys]. rewrite Ed. destruct (_ && _); [eexists; split; [done|exact S1]|].
    replace (Z.of_nat size - Z.of_nat (length b)) with (Z.of_nat (size - length b)) by lia.
    specialize (IH (data ++ b) (size - length b)%nat _ _ S1). cbn [queues tdev set_queues committed pending] in IH.
    apply IH. rewrite <- Ec in Lf. cbn in Lf. lia.
Qed.

Lemma list_empty k q : rep k q -> dll_is_empty (list_ k) = bool_decide (committed q = []).
Proof.
  intros (L & N & F & [D El _ _ _ _ HL _]). rewrite El. unfold dll_is_empty. destruct HL as [|e b L bs Hb HL]; [done|].
  rewrite bool_decide_eq_false_2 by done.
  destruct (dlls_cell _ _ _ (held (e :: L)) D) as (Z & _); [by apply held_in|]. by apply N.eqb_neq.
Qed.

Lemma digest_run size s t :
  sim s t -> exists s', DigestConsoleInput (Z.of_nat size) s = Some ((t_digest size t).1, s') /\ sim s' (t_digest size t).2.
Proof.
  intros Sm. pose proof Sm as [R Ed]. unfold DigestConsoleInput, t_digest. rewrite (list_empty _ _ R), Ed.
  destruct (rep_count _ _ R) as [_ T]. unfold total in T.
  pose proof (digest_loop_run (S (S POOL)) [] size s t Sm ltac:(lia)) as X.
  destruct (committed (queues t)) as [|b bs] eqn:Ec.
  - rewrite bool_decide_eq_true_2 by done. destruct (end_of_file (tdev t)); [by exists s|]. cbn [andb].
    destruct (t_copy _ _ _ _ _) as [data l]. destruct X as (s' & -> & S'). cbn [mbind option_bind]. exists s'. by split.
  - rewrite bool_decide_eq_false_2 by done. cbn [andb].
    destruct (t_copy _ _ _ _ _) as [data l]. destruct X as (s' & -> & S'). cbn [mbind option_bind]. exists s'. by split.
Qed.

Lemma same_events_more qc qa t a : same_events qc qa t -> same_events ((fun rs => rs ++ a) <$> qc) ((fun rs => rs ++ a) <$> qa) t.
Proof. intros [->|E]; [by left|by right]. Qed.

Lemma digest_eof size t : end_of_file (tdev (t_digest size t).2) = end_of_file (tdev t).
Proof.
  unfold t_digest. destruct (committed (queues t)), (end_of_file (tdev t)) eqn:E; try exact E; destruct (t_copy _ _ _ _ _); exact E.
Qed.

Lemma read_run waits size qc qa s t r qa' t' :
  sim s t -> same_events qc qa t -> t_read waits size qa t = Some (r, qa', t') ->
  exists qc' s', ReadFromConsole waits (Z.of_nat size) qc s = Some (r, qc', s') /\ sim s' t' /\ same_events qc' qa' t'.
Proof.
  revert qc qa s t. induction waits as [|[rc arrived] waits IH]; intros qc qa s t S Q E;
    cbn [t_read ReadFromConsole] in *; destruct (t_ingest_events qa t) as [[q1 t1]|] eqn:Ei; try done; cbn [mbind option_bind] in E;
    destruct (ingest_events_run _ _ _ _ _ _ S Q Ei) as (qc1 & s1 & -> & S1 & Q1); cbn [mbind option_bind];
    destruct (digest_run size s1 t1 S1) as (s2 & -> & S2); cbn [mbind option_bind];
    assert (same_events qc1 q1 (t_digest size t1).2) as Q2 by (unfold same_events; rewrite digest_eof; exact Q1);
    destruct (t_digest size t1) as [[data|] t2]; cbn [fst snd] in *; simplify_eq; eauto 10.
  apply same_events_more with (a := arrived) in Q2. destruct (Z.eqb_spec rc (-2)) as [->|N]; [|simplify_eq; eauto 10].
  by apply (IH _ _ _ _ S2 Q2).
Qed.

Lemma count_loop_run fuel k q L1 L2 N F bs c :
  split k q (L1 ++ L2) N F -> Forall2 (holds_buf k) L2 bs -> (length L2 < fuel)%nat ->
  count_loop fuel (List.hd NULL L2) k c = Some (c + Z.of_nat (length (mjoin bs))).
Proof.
  intros Sp. revert fuel L1 bs c Sp. induction L2 as [|e L2 IH]; intros [|fuel] L1 bs c Sp HB Lf; cbn [length] in Lf; try lia.
  - apply Forall2_nil_inv_l in HB as ->. cbn. f_equal. lia.
  - apply Forall2_cons_inv_l in HB as (b & bs' & Hb & HB & ->). cbn [count_loop List.hd].
    pose proof (split_dlls _ _ _ _ _ Sp) as D. destruct (dlls_cell _ _ _ e D) as (Z & _); [apply elem_of_app; right; apply list_elem_of_here|].
    rewrite (proj2 (N.eqb_neq _ _) Z), Hb. cbn [mbind option_bind]. rewrite (split_list _ _ _ _ _ Sp), (next_run _ _ _ _ _ D). cbn [mbind option_bind].
    rewrite (cons_middle e L1 L2), app_assoc in Sp. rewrite (IH fuel _ bs' _ Sp HB ltac:(lia)). f_equal. change (mjoin (b :: bs')) with (b ++ mjoin bs'). rewrite length_app. lia.
Qed.

Lemma count_run qc qa s t n qa' t' :
  sim s t -> same_events qc qa t -> t_count qa t = Some (n, qa', t') ->
  exists qc' s', CountConsoleInputBytes qc s = Some (n, qc', s') /\ sim s' t' /\ same_events qc' qa' t'.
Proof.
  intros S Q E. unfold t_count in E. destruct (t_ingest_events qa t) as [[q1 t1]|] eqn:Ei; [|done]. cbn [mbind option_bind] in E.
  destruct (ingest_events_run _ _ _ _ _ _ S Q Ei) as (qc1 & s1 & E1 & S1 & Q1). unfold CountConsoleInputBytes. rewrite E1.
  cbn [mbind option_bind]. pose proof S1 as [(L & N & F & Sp) Ed]. pose proof (split_dlls _ _ _ _ _ Sp) as D.
  rewrite (split_list _ _ _ _ _ Sp), (first_run _ _ _ D). cbn [mbind option_bind].
  rewrite (count_loop_run _ _ _ [] L N F _ 0 Sp (split_L _ _ _ _ _ Sp)) by (pose proof (split_total _ _ _ _ _ Sp); lia).
  cbn [mbind option_bind]. rewrite Ed. rewrite Z.add_0_l. simplify_eq. eauto 10.
Qed.

Lemma free_all_run fuel w k q :
  rep k q -> (length (queue w q) < fuel)%nat -> exists k', FreeKeystrokes fuel w k = Some k' /\ rep k' (set_queue w [] q).
Proof.
  revert k q. induction fuel as [|fuel IH]; intros k q R Lf; [lia|]. cbn [FreeKeystrokes]. destruct R as (L & N & F & Sp).
  pose proof Sp as [D El En _ _ _ HL HN].
  assert (dll_first (get_list w k) (cells k) = Some (List.hd NULL (match w with LIST => L | LINE => N end), cells k)) as ->.
  { destruct w; cbn [get_list]; [rewrite El; by eapply first_run|]. rewrite En.
    assert (dlls (cells k) (N :: [L; F])) as D1 by dlls_tac D. by eapply first_run. }
  cbn [mbind option_bind]. destruct (match w with LIST => L | LINE => N end) as [|e l] eqn:El'.
  - cbn. exists k. split; [done|]. exists L, N, F.
    destruct w; subst; [apply Forall2_nil_inv_l in HL as E0|apply Forall2_nil_inv_l in HN as E0]; destruct q as [c p]; cbn in *; subst; done.
  - cbn [List.hd]. assert (e <> NULL) as Ze.
    { destruct w; [destruct (dlls_cell _ _ _ e D) as (Z & _); [rewrite El'; apply list_elem_of_here|done]|].
      assert (dlls (cells k) (N :: [L; F])) as D1 by dlls_tac D. destruct (dlls_cell _ _ _ e D1) as (Z & _); [rewrite El'; apply list_elem_of_here|done]. }
    rewrite (proj2 (N.eqb_neq _ _) Ze). destruct (free_run w _ _ _ _ _ [] e l Sp El') as (k' & -> & R'). cbn [mbind option_bind].
    change (rep k' (set_queue w (drop 1 (queue w q)) q)) in R'.
    assert (length (queue w q) <> 0%nat) as NE.
    { intros Z%nil_length_inv. destruct w; cbn in Z; subst; [rewrite Z in HL|rewrite Z in HN]; [apply Forall2_nil_inv_r in HL|apply Forall2_nil_inv_r in HN]; congruence. }
    assert (length (queue w (set_queue w (drop 1 (queue w q)) q)) = length (queue w q) - 1)%nat as Lq
      by (destruct w; cbn [queue set_queue]; apply length_drop).
    destruct (IH k' _ R') as (k2 & E2 & R2).
    + rewrite Lq. lia.
    + exists k2. split; [done|]. by destruct w.
Qed.

Lemma flush_input_run qc qa s t :
  sim s t -> same_events qc qa t ->
  exists qc' s', FlushConsoleInputBytes qc s = Some (qc', s') /\ sim s' (t_flush qa t).2 /\ same_events qc' (t_flush qa t).1 (t_flush qa t).2.
Proof.
  intros [R Ed] Q. destruct (rep_count _ _ R) as [_ T]. unfold total in T. unfold FlushConsoleInputBytes.
  destruct (free_all_run (S POOL) LIST _ _ R) as (k1 & -> & R1); [cbn; lia|]. cbn [mbind option_bind].
  destruct (free_all_run (S POOL) LINE _ _ R1) as (k2 & -> & R2); [cbn; lia|]. cbn [mbind option_bind].
  eexists _, _. split; [done|]. split; [by split|]. destruct Q as [->|E]; [by left|by right].
Qed.

(* ------------------------------------------------------------------ *)
(** ** Every event is converted, into at most 23 bytes *)

(** The two tables of virtual keys. *)
Definition good_dev (d : Device) : Prop := vkt d = kVirtualKey \/ vkt d = kDecckm.

Lemma GetVirtualKey_ends t k shift ctrl : Exists (fun e => vk e = 0) t -> exists v, GetVirtualKey t k shift ctrl = Some v.
Proof.
  induction 1 as [e t E|e t _ IH]; cbn [GetVirtualKey]; [rewrite E; by eexists|].
  destruct (vk e =? 0); [by eexists|]. destruct (vk e =? k); [by eexists|done].
Qed.

Lemma GetVirtualKey_total d k shift ctrl : good_dev d -> exists v, GetVirtualKey (vkt d) k shift ctrl = Some v.
Proof. intros [-> | ->]; apply GetVirtualKey_ends, Exists_exists; exists (vkey 0 0 0 0 0); (split; [|done]); unfold kVirtualKey, kDecckm; set_solver. Qed.

Lemma emit_word_length n w : (1 <= length (emit_word (S n) w) <= S n)%nat.
Proof.
  revert w. induction n as [|n IH]; intros w.
  - cbn. destruct (_ =? 0); cbn; lia.
  - change (emit_word (S (S n)) w) with (u8 w :: (if Z.shiftr w 8 =? 0 then [] else emit_word (S n) (Z.shiftr w 8))).
    destruct (_ =? 0); [cbn; lia|]. cbn [length]. specialize (IH (Z.shiftr w 8)). lia.
Qed.

Lemma Emit_length p n : (1 <= length p <= n)%nat -> forall p', Emit p = Emit p' -> (1 <= length p' <= n)%nat.
Proof. intros H p' E. by inversion E; subst. Qed.

Lemma key_event_total down k c cks d :
  good_dev d -> exists a, key_event down k c cks d = Some a /\ forall p, a = Emit p -> (1 <= length p <= 23)%nat.
Proof.
  intros G. unfold key_event. destruct (_ && _); [by eexists|].
  destruct (GetVirtualKey_total d k (has (u16 cks) kNtShiftPressed) (has (u16 cks) AnyCtrl) G) as [v ->]. cbn [mbind option_bind].
  destruct (negb (v =? 0)).
  { eexists. split; [done|]. apply Emit_length. pose proof (emit_word_length 3 v). pose proof (emit_word_length 3 (- v)).
    cbn [app length]. rewrite length_app. destruct (has (u16 cks) AnyAlt), (v >? 0); cbn [length]; lia. }
  destruct (_ && _); [eexists; split; [done|]; apply Emit_length; cbn; lia|].
  destruct (if c =? 0 then _ else _) as [c'|]; [|by eexists]. destruct (IsHighSurrogate c'); [by eexists|].
  eexists. split; [done|]. unfold char_action. destruct (_ && (_ =? vintr _)); [by intros p|]. destruct (_ && (_ =? vquit _)); [by intros p|].
  destruct (_ && negb (has _ kTtyUncanon)); [by intros p|]. apply Emit_length.
  rewrite length_app. unfold put_word. match goal with |- context [emit_word 8 ?w] => pose proof (emit_word_length 7 w) as B; generalize dependent w end.
  intros w B. destruct (_ && _); cbn [length]; lia.
Qed.

Lemma cstr_digits p : Forall (fun c => 48 <= c < 58) p -> cstr (p ++ [0]) = p.
Proof. induction 1 as [|c p H _ IH]; [done|]. cbn. rewrite (proj2 (Z.eqb_neq c 0)) by lia. by rewrite IH. Qed.

Lemma FormatInt32_small k x :
  0 <= x < 10 ^ Z.of_nat k -> x < 2 ^ 31 -> (1 <= k <= 64)%nat ->
  exists p n, FormatInt32 x = Some (p, n) /\ (length (cstr p) <= k)%nat.
Proof.
  intros Hx Hi Hk. rewrite FormatInt32_64 by lia. unfold FormatInt64. rewrite (proj2 (Z.ltb_ge x 0)) by lia. rewrite u64_id by lia.
  destruct (FormatUint64_run k x Hx Hk) as (p & -> & L & F & _). eexists _, _. split; [done|]. by rewrite cstr_digits.
Qed.

Lemma xterm_mouse_total e X Y bs cur d :
  0 <= e < 100 -> exists p d', xterm_mouse e X Y bs cur d = Some (p, d') /\ (1 <= length p <= 18)%nat /\ vkt d' = vkt d.
Proof.
  intros He. unfold xterm_mouse.
  assert (forall z, 0 <= Z.land z 0x7fff < 2 ^ 15) as B.
  { intros z. change 0x7fff with (2 ^ 15 - 1). rewrite land_mask by lia. apply Z.mod_pos_bound. lia. }
  destruct (FormatInt32_small 2 e) as (pe & ne & -> & Le); [cbn; lia..|].
  destruct (FormatInt32_small 5 (Z.land (X + 1) 0x7fff)) as (px & nx & -> & Lx); [specialize (B (X + 1)); cbn; lia|specialize (B (X + 1)); lia|lia|].
  destruct (FormatInt32_small 5 (Z.land (Y + 1) 0x7fff)) as (py & ny & -> & Ly); [specialize (B (Y + 1)); cbn; lia|specialize (B (Y + 1)); lia|lia|].
  cbn [mbind option_bind]. eexists _, _. split; [done|]. split; [|done]. repeat (rewrite ?length_app; cbn [length]). lia.
Qed.

Lemma mouse_total X Y b cks ev d :
  exists p d', ProcessMouseEvent X Y b cks ev d = Some (p, d') /\ (length p <= 23)%nat /\ vkt d' = vkt d.
Proof.
  assert (forall e bs, 0 <= e < 100 -> exists p d', xterm_mouse e X Y bs (mousebs (tty d)) d = Some (p, d') /\ (length p <= 23)%nat /\ vkt d' = vkt d) as X1.
  { intros e bs He. destruct (xterm_mouse_total e X Y bs (mousebs (tty d)) d He) as (p & d' & E & L & V). exists p, d'. split; [done|]. split; [lia|done]. }
  unfold ProcessMouseEvent. destruct (has _ kNtMouseWheeled).
  - destruct (has (magic (tty d)) kTtyXtMouse).
    + apply X1. destruct (has cks AnyCtrl), (_ >? 0); lia.
    + destruct (negb _); eexists _, _; (split; [done|]; cbn; split; [lia|done]).
  - destruct (_ && has (magic _) _).
    + apply X1. destruct (has (Z.lor _ _) _), (_ && _ && _); vm_compute; intuition congruence.
    + eexists _, _; (split; [done|]; cbn; split; [lia|done]).
Qed.

(** What holds of a terminal at all times: a full pool can be read from, and no keystroke is empty. *)
Definition wf (t : Term) : Prop :=
  good_dev (tdev t) /\ (total (queues t) <= POOL)%nat /\ (total (queues t) = POOL -> committed (queues t) <> []) /\
  Forall (fun b => b <> []) (committed (queues t)) /\ Forall (fun b => b <> []) (pending (queues t)).

Lemma wf_dev t f : (forall d, vkt (f d) = vkt d) -> wf t -> wf (on_tdev f t).
Proof. intros V (G & H). split; [|done]. unfold good_dev. cbn. by rewrite V. Qed.

Lemma wf_commit t : wf t -> wf (set_queues (commit (queues t)) t).
Proof.
  intros (G & T & Fl & Fc & Fp). split; [done|]. cbn [queues set_queues]. rewrite commit_total. split; [done|].
  split; [|split; [cbn; by apply Forall_app|cbn; constructor]].
  intros E. specialize (Fl E). cbn. by destruct (committed (queues t)).
Qed.

Lemma convert_wf r t :
  wf t -> exists p t', t_convert r t = Some (p, t') /\ (length p <= 23)%nat /\ wf t' /\ total (queues t') = total (queues t).
Proof.
  intros W. assert (exists p t', t_convert r t = Some (p, t') /\ (length p <= 23)%nat /\ wf t') as (p & t' & E & L & W').
  2: { exists p, t'. split; [done|]. split; [done|]. split; [done|]. by apply convert_total in E. }
  pose proof W as (G & _). destruct r as [down k c cks|X Y b cks ev| |]; cbn [t_convert].
  - destruct (key_event_total down k c cks (tdev t) G) as (a & -> & B). cbn [mbind option_bind].
    destruct a as [p| |c'|sig|]; try (eexists _, _; split; [done|]; split; [cbn; lia|]; first [done|by apply wf_dev]).
    + exists p, t. split; [done|]. split; [|done]. by apply B.
    + destruct (pending (queues t)); (eexists _, _; split; [done|]; split; [cbn; lia|]); [by apply wf_dev|by apply wf_commit].
  - destruct (mouse_total X Y b cks ev (tdev t)) as (p & d' & -> & L & V). cbn. eexists _, _. split; [done|]. split; [done|].
    destruct W as (_ & H). split; [|done]. unfold good_dev. cbn. by rewrite V.
  - eexists _, _. split; [done|]. split; [cbn; lia|]. by apply wf_dev.
  - eexists _, _. split; [done|]. split; [cbn; lia|done].
Qed.

Lemma wf_intro t d q :
  wf t -> vkt d = vkt (tdev t) -> (total q <= POOL)%nat -> (total q = POOL -> committed q <> []) ->
  Forall (fun b => b <> []) (committed q) -> Forall (fun b => b <> []) (pending q) -> wf {| queues := q; tdev := d |}.
Proof. intros (G & _) V. unfold wf, good_dev in *. cbn. by rewrite V. Qed.

Lemma erase_wf t : wf t -> (total (queues t) < POOL)%nat -> wf (t_erase t).
Proof.
  intros W T. pose proof (erase_total t) as B. unfold t_erase in *. destruct (rev (pending (queues t))) as [|b l] eqn:E; [done|].
  pose proof W as (_ & _ & _ & Fc & Fp). apply (wf_intro t); cbn [queues committed pending] in *; try done; try lia.
  apply Forall_rev. rewrite <- (rev_involutive (pending _)), E in Fp. apply Forall_rev in Fp. rewrite rev_involutive in Fp.
  by apply Forall_cons in Fp as [_ Fp].
Qed.

Lemma vkt_erase_echo l d : vkt (fold_left erase_echo l d) = vkt d.
Proof. revert d. induction l as [|b l IH]; intros d; [done|]. cbn. by rewrite IH. Qed.

Lemma kill_wf t : wf t -> (total (queues t) < POOL)%nat -> wf (t_kill t).
Proof.
  intros W T. pose proof W as (_ & _ & _ & Fc & Fp). unfold total in T.
  apply (wf_intro t); cbn; try done; [apply vkt_erase_echo|unfold total; cbn; lia..].
Qed.

Lemma vkt_echo p d : vkt (EchoTty p d) = vkt d.
Proof. unfold EchoTty. by destruct (has _ _). Qed.

Lemma record_wf r t : wf t -> (total (queues t) < POOL)%nat -> exists t', t_record r t = Some t' /\ wf t'.
Proof.
  intros W T. unfold t_record. destruct (convert_wf r t W) as (p & t1 & -> & _ & W1 & T1). cbn [mbind option_bind].
  eexists. split; [done|]. rewrite <- T1 in T. clear t W T1. pose proof W1 as (_ & _ & _ & Fc & Fp).
  destruct (Nat.eqb_spec (length p) 0) as [|NZ]; [done|]. assert (p <> []) as Np by by intros ->.
  destruct (_ && _); [by apply erase_wf|]. destruct (_ && _); [by apply kill_wf|].
  set (d := if has _ kTtySilence then _ else _). assert (vkt d = vkt (tdev t1)) as V by (unfold d; destruct (has _ _); [done|apply vkt_echo]).
  destruct (negb (t_canonical t1)).
  - apply (wf_intro t1); try done; rewrite ?push_total; [lia|intros _; cbn; by destruct (committed _)|].
    cbn. apply Forall_app. by repeat constructor.
  - set (q := push LINE p (queues t1)). assert (Forall (fun b => b <> []) (pending q)) as Fq by (apply Forall_app; by repeat constructor).
    destruct (Nat.eqb_spec (total q) POOL) as [Tq|Tq]; cbn [orb].
    + apply (wf_intro t1); try done; rewrite ?commit_total; [lia|intros _; cbn; by destruct (committed _), (pending _)|].
      cbn. by apply Forall_app.
    + assert (total q <= POOL)%nat as Bq by (unfold q; rewrite push_total; lia).
      destruct (_ || _); apply (wf_intro t1); try done; rewrite ?commit_total; try done. cbn. by apply Forall_app.
Qed.

(** Events are taken in order, until none is left, the pool is full, or the input has ended. *)
Lemma ingest_wf rs t :
  wf t -> exists rs' t', t_ingest rs t = Some (rs', t') /\ wf t' /\ (exists p, rs = p ++ rs') /\
    (rs' = [] \/ t_full t' = true \/ end_of_file (tdev t') = true).
Proof.
  revert t. induction rs as [|r rs IH]; intros t W.
  - exists [], t. split; [done|]. split; [done|]. split; [by exists []|by left].
  - cbn [t_ingest]. destruct (t_full t || end_of_file (tdev t)) eqn:E.
    + exists (r :: rs), t. split; [done|]. split; [done|]. split; [by exists []|right; by apply orb_true_iff].
    + apply orb_false_iff in E as [Ef _]. unfold t_full in Ef. apply Nat.eqb_neq in Ef. pose proof W as (_ & T & _).
      destruct (record_wf r t W) as (t1 & -> & W1); [lia|]. cbn [mbind option_bind].
      destruct (IH t1 W1) as (rs' & t' & E & W' & (p & ->) & D). exists rs', t'. split; [done|]. split; [done|]. split; [by exists (r :: p)|done].
Qed.

Lemma ingest_events_wf q t : wf t -> exists q' t', t_ingest_events q t = Some (q', t') /\ wf t'.
Proof.
  intros W. destruct q as [rs|]; cbn [t_ingest_events].
  - destruct (ingest_wf rs t W) as (rs' & t' & -> & W' & _). by eexists _, _.
  - eexists _, _. split; [done|]. destruct (_ || _); [done|by apply wf_dev].
Qed.

(** What a copy takes: from the front, all of it but what does not fit or what raw mode leaves. *)
Lemma t_copy_spec raw vm data size l :
  Forall (fun b => b <> []) l ->
  exists p l' n, t_copy raw vm data size l = (data ++ p, l') /\ mjoin l = p ++ mjoin l' /\ Forall (fun b => b <> []) l' /\
    (length l' <= length l)%nat /\ (length l' = length l -> l <> [] -> l' <> []) /\ (l <> [] -> size <> 0%nat -> p <> []) /\
    (p = take size (mjoin l) \/ raw = true /\ vm <= Z.of_nat (length (data ++ p)) /\ p = mjoin (take n l) /\ (length p <= size)%nat).
Proof.
  intros F. revert data size. induction F as [|b l Nb F IH]; intros data size.
  { exists [], [], 0%nat. cbn. rewrite app_nil_r, take_nil. repeat (split; [done|]). by left. }
  cbn [t_copy]. change (mjoin (b :: l)) with (b ++ mjoin l).
  destruct (Nat.eqb_spec size 0) as [->|NZ].
  { exists [], (b :: l), 0%nat. rewrite app_nil_r. repeat (split; [try done; by constructor|]). by left. }
  destruct (Nat.ltb_spec size (length b)) as [Lt|Ge].
  { exists (take size b), (drop size b :: l), 0%nat. split; [done|]. change (mjoin (drop size b :: l)) with (drop size b ++ mjoin l).
    split; [by rewrite app_assoc, take_drop|]. split; [constructor; [|done]|].
    { intros E%(f_equal length). rewrite length_drop in E. cbn in E. lia. }
    split; [done|]. split; [done|]. split; [|left; rewrite take_app_le by lia; done].
    intros _ _ E%(f_equal length). rewrite length_take in E. cbn in E. lia. }
  destruct (raw && _) eqn:Er.
  { apply andb_true_iff in Er as [-> Hv]. exists b, l, 1%nat. split; [done|]. split; [done|]. split; [done|]. split; [cbn; lia|]. split; [cbn; lia|].
    split; [done|]. right. split; [done|]. split; [lia|]. split; [cbn; by rewrite app_nil_r|done]. }
  destruct (IH (data ++ b) (size - length b)%nat) as (p & l' & n & -> & J & F' & L & _ & _ & D).
  exists (b ++ p), l', (S n). rewrite app_assoc. split; [done|]. split; [by rewrite J, app_assoc|]. split; [done|]. split; [cbn; lia|].
  split; [cbn; lia|]. split; [by destruct b|]. destruct D as [->|(-> & V & Ep & Lp)]; [left; by rewrite take_app_ge by lia|].
  right. split; [done|]. split; [done|]. split; [cbn [take]; by rewrite Ep at 1|rewrite length_app; lia].
Qed.

Lemma digest_wf size t : wf t -> wf (t_digest size t).2.
Proof.
  intros W. pose proof W as (_ & T & Fl & Fc & Fp). unfold t_digest. destruct (committed (queues t)) as [|b l] eqn:E.
  - destruct (end_of_file _); [done|]. cbn [t_copy length Nat.eqb snd]. unfold total in *. rewrite E in *. by apply (wf_intro t).
  - destruct (t_copy_spec (has (magic (tty (tdev t))) kTtyUncanon) (vmin (tty (tdev t))) [] size (b :: l) Fc)
      as (p & l' & n & -> & _ & F' & L & NE & _). cbn [snd]. unfold total in *. rewrite E in *. cbn [length] in *.
    apply (wf_intro t); unfold total; cbn [committed pending length]; try done; [lia|].
    intros Tq. apply NE; [lia|done].
Qed.

Lemma read_wf waits size q t : wf t -> exists r q' t', t_read waits size q t = Some (r, q', t') /\ wf t'.
Proof.
  revert q t. induction waits as [|[rc arrived] waits IH]; intros q t W; cbn [t_read];
    destruct (ingest_events_wf q t W) as (q1 & t1 & -> & W1); cbn [mbind option_bind]; pose proof (digest_wf size t1 W1) as W2;
    destruct (t_digest size t1) as [[data|] t2]; cbn [snd] in W2; try (by eexists _, _, _).
  destruct (rc =? -2); [by apply IH|by eexists _, _, _].
Qed.

Lemma count_wf q t : wf t -> exists n q' t', t_count q t = Some (n, q', t') /\ wf t'.
Proof. intros W. unfold t_count. destruct (ingest_events_wf q t W) as (q1 & t1 & -> & W1). by eexists _, _, _. Qed.

Lemma flush_wf q t : wf t -> wf (t_flush q t).2.
Proof. intros W. by apply (wf_intro t); cbn; try (unfold total, POOL; cbn; lia). Qed.

Lemma intercept_dev data st : good_dev st.2 -> good_dev (fold_left (fun st c => intercept_char c st) data st).2.
Proof.
  revert st. induction data as [|c data IH]; intros [[[[t x] m] cm] d] G; [done|]. cbn [fold_left]. apply IH. cbn [snd] in G.
  unfold intercept_char. destruct t; repeat match goal with |- context [if ?b then _ else _] => destruct b end; cbn [snd]; try done; by (left + right).
Qed.

Lemma intercept_eof data st : end_of_file (fold_left (fun st c => intercept_char c st) data st).2 = end_of_file st.2.
Proof.
  revert st. induction data as [|c data IH]; intros [[[[t x] m] cm] d]; [done|]. cbn [fold_left]. rewrite IH.
  unfold intercept_char. by destruct t; repeat match goal with |- context [if ?b then _ else _] => destruct b end.
Qed.

(* ------------------------------------------------------------------ *)
(** ** Programs that use the terminal *)

(** Events arrive, or the handle breaks; the program reads, counts what can be read, discards it,
    changes the configuration, or writes commands to the terminal. *)
Inductive call :=
| Arrive (rs : list NtInputRecord)
| Broken
| CallRead (waits : list (Z * list NtInputRecord)) (size : nat)
| CallCount
| CallFlush
| Configure (t : TtyConf)
| Output (data : bytes) (cm : Z).

Inductive reply := RRead (r : read_result) | RCount (n : Z) | RMode (m : option Z) | RNone.

Definition c_step (c : call) (q : Events) (s : Console) : option (reply * Events * Console) :=
  match c with
  | Arrive rs => Some (RNone, (fun l => l ++ rs) <$> q, s)
  | Broken => Some (RNone, None, s)
  | CallRead waits size => '(r, q, s) ← ReadFromConsole waits (Z.of_nat size) q s; Some (RRead r, q, s)
  | CallCount => '(n, q, s) ← CountConsoleInputBytes q s; Some (RCount n, q, s)
  | CallFlush => '(q, s) ← FlushConsoleInputBytes q s; Some (RNone, q, s)
  | Configure t => Some (RNone, q, on_dev (set_tty t) s)
  | Output data cm => let '(m, d) := InterceptTerminalCommands data cm (dev s) in Some (RMode m, q, on_dev (fun _ => d) s)
  end.

Definition t_step (c : call) (q : Events) (t : Term) : option (reply * Events * Term) :=
  match c with
  | Arrive rs => Some (RNone, (fun l => l ++ rs) <$> q, t)
  | Broken => Some (RNone, None, t)
  | CallRead waits size => '(r, q, t) ← t_read waits size q t; Some (RRead r, q, t)
  | CallCount => '(n, q, t) ← t_count q t; Some (RCount n, q, t)
  | CallFlush => let '(q, t) := t_flush q t in Some (RNone, q, t)
  | Configure c => Some (RNone, q, on_tdev (set_tty c) t)
  | Output data cm => let '(m, d) := InterceptTerminalCommands data cm (tdev t) in Some (RMode m, q, on_tdev (fun _ => d) t)
  end.

Definition session (A : Type) (step : call -> Events -> A -> option (reply * Events * A)) :=
  fix go (cs : list call) (q : Events) (a : A) : option (list reply * Events * A) :=
    match cs with
    | [] => Some ([], q, a)
    | c :: cs => '(r, q, a) ← step c q a; '(rs, q, a) ← go cs q a; Some (r :: rs, q, a)
    end.

Definition c_session := session Console c_step.
Definition t_session := session Term t_step.

Lemma step_run c qc qa s t :
  sim s t -> same_events qc qa t -> wf t ->
  exists r qc' qa' s' t', c_step c qc s = Some (r, qc', s') /\ t_step c qa t = Some (r, qa', t') /\ sim s' t' /\ same_events qc' qa' t' /\ wf t'.
Proof.
  intros S Q W. destruct c as [rs| |waits size| | |c|data cm]; cbn [c_step t_step].
  - eexists _, _, _, _, _. split; [done|]. split; [done|]. split; [done|]. split; [by apply same_events_more|done].
  - eexists _, _, _, _, _. split; [done|]. split; [done|]. split; [done|]. split; [by left|done].
  - destruct (read_wf waits size qa t W) as (r & qa' & t' & E & W'). destruct (read_run _ _ _ _ _ _ _ _ _ S Q E) as (qc' & s' & -> & S' & Q').
    rewrite E. cbn [mbind option_bind]. by eexists _, _, _, _, _.
  - destruct (count_wf qa t W) as (n & qa' & t' & E & W'). destruct (count_run _ _ _ _ _ _ _ S Q E) as (qc' & s' & -> & S' & Q').
    rewrite E. cbn [mbind option_bind]. by eexists _, _, _, _, _.
  - destruct (flush_input_run _ _ _ _ S Q) as (qc' & s' & -> & S' & Q'). pose proof (flush_wf qa t W) as W'.
    destruct (t_flush qa t) as [qa' t']. cbn [mbind option_bind fst snd] in *. by eexists _, _, _, _, _.
  - eexists _, _, _, _, _. split; [done|]. split; [done|]. split; [by apply sim_dev|]. split; [exact Q|by apply wf_dev].
  - pose proof S as [R ->]. pose proof W as (G & H). destruct (InterceptTerminalCommands data cm (tdev t)) as [m d] eqn:E.
    eexists _, _, _, _, _. split; [done|]. split; [done|]. unfold InterceptTerminalCommands in E.
    pose proof (intercept_dev data (ASC, 0, false, cm, tdev t) G) as G'. pose proof (intercept_eof data (ASC, 0, false, cm, tdev t)) as Ee.
    destruct (fold_left _ _ _) as [[[[? ?] ?] ?] d']. cbn [snd] in G', Ee. simplify_eq.
    split; [by split|]. split; [|by split]. unfold same_events in *. cbn. by rewrite Ee.
Qed.

Lemma session_run cs qc qa s t :
  sim s t -> same_events qc qa t -> wf t ->
  exists rs qc' qa' s' t', c_session cs qc s = Some (rs, qc', s') /\ t_session cs qa t = Some (rs, qa', t') /\ sim s' t' /\ wf t'.
Proof.
  revert qc qa s t. induction cs as [|c cs IH]; intros qc qa s t S Q W; [by eexists _, _, _, _, _|].
  destruct (step_run c _ _ _ _ S Q W) as (r & qc1 & qa1 & s1 & t1 & E1 & E2 & S1 & Q1 & W1).
  destruct (IH _ _ _ _ S1 Q1 W1) as (rs & qc2 & qa2 & s2 & t2 & F1 & F2 & S2 & W2).
  exists (r :: rs), qc2, qa2, s2, t2. unfold c_session, t_session in *. cbn [session]. rewrite E1, E2. cbn [mbind option_bind].
  rewrite F1, F2. done.
Qed.

(** A terminal that was opened just now. *)
Definition fresh (d : Device) : Term := {| queues := {| committed := []; pending := [] |}; tdev := d |}.

Lemma OpenConsole_run conf : exists s, OpenConsole conf = Some s /\ sim s (fresh (dev s)) /\ wf (fresh (dev s)).
Proof.
  destruct open_loop_pool as (k & E & R). unfold OpenConsole. rewrite E. cbn [mbind option_bind]. eexists. split; [reflexivity|].
  split; [split; [exact R|reflexivity]|]. unfold wf, good_dev, total, fresh, POOL. cbn. split; [by left|]. split; [lia|]. split; [lia|]. split; constructor.
Qed.

(** C7: Whatever events arrive and whatever a program asks of the console after it was opened, every
    call returns: the keystroke lists stay intact, no null pointer is followed, no loop runs on. The
    answers are those of a terminal that is two plain queues of byte strings, and at the end the lists
    in memory hold these queues, a pool of keystrokes that is used up always has something to read, and
    no keystroke is empty. *)
Theorem console_refines (conf : TtyConf) (cs : list call) :
  exists s0 rs q qa s t,
    OpenConsole conf = Some s0 /\ c_session cs (Some []) s0 = Some (rs, q, s) /\
    t_session cs (Some []) (fresh (dev s0)) = Some (rs, qa, t) /\ sim s t /\ wf t.
Proof.
  destruct (OpenConsole_run conf) as (s0 & E & S & W).
  destruct (session_run cs (Some []) (Some []) s0 _ S (or_introl eq_refl) W) as (rs & q & qa & s & t & H).
  exists s0, rs, q, qa, s, t. split; [exact E|exact H].
Qed.

(** C27: What [DigestConsoleInput] hands to a reader. Bytes come in the order in which they were
    committed and none is lost: what is read, followed by what is left, is what was there. A read takes
    as much as fits, except in raw mode, where it may stop at the end of a keystroke once it has [vmin]
    bytes. It is empty only at the end of the file, and gives nothing only when there is nothing to read
    or no room. The line that is being edited and the device are left alone. *)
Theorem console_read (s : Console) (t : Term) (size : nat) :
  sim s t -> wf t ->
  exists r s' t',
    DigestConsoleInput (Z.of_nat size) s = Some (r, s') /\ sim s' t' /\ wf t' /\
    tdev t' = tdev t /\ pending (queues t') = pending (queues t) /\
    let before := committed (queues t) in
    let after := committed (queues t') in
    match r with
    | None => after = before /\ (size = 0%nat \/ before = [] /\ end_of_file (tdev t) = false)
    | Some [] => before = [] /\ end_of_file (tdev t) = true
    | Some data =>
        data ++ mjoin after = mjoin before /\
        (data = take size (mjoin before) \/
         has (magic (tty (tdev t))) kTtyUncanon = true /\ vmin (tty (tdev t)) <= Z.of_nat (length data) <= Z.of_nat size /\
         exists n, data = mjoin (take n before))
    end.
Proof.
  intros S W. destruct (digest_run size s t S) as (s' & E & S'). exists (t_digest size t).1, s', (t_digest size t).2.
  split; [done|]. split; [done|]. split; [by apply digest_wf|]. pose proof W as (_ & _ & _ & Fc & _). unfold t_digest.
  destruct (committed (queues t)) as [|b l] eqn:Ec.
  { destruct (end_of_file (tdev t)); cbn; auto 10. }
  destruct (t_copy_spec (has (magic (tty (tdev t))) kTtyUncanon) (vmin (tty (tdev t))) [] size (b :: l) Fc)
    as (p & l' & n & Et & J & _ & _ & _ & NE & D). rewrite Et. cbn [app fst snd queues tdev set_queues committed pending] in *.
  split; [done|]. split; [done|]. destruct p as [|c p]; cbn [length Nat.eqb].
  - assert (size = 0%nat) as -> by (destruct (Nat.eq_dec size 0); [done|by destruct NE]). cbn in Et. simplify_eq. by auto.
  - split; [done|]. destruct D as [D|(R & V & Ep & L)]; [by left|]. right. split; [done|]. split; [split; [done|by apply inj_le]|by exists n].
Qed.

Definition conf0 : TtyConf :=
  {| magic := 0; mousebs := 0; vintr := 3; vquit := 28; verase := 127; vkill := 21; veof := 4; vmin := 1; veol := 0; veol2 := 0 |}.

Definition typed (p : bytes) : list NtInputRecord := (fun c => KeyEvent true 0 c 0) <$> p.

Lemma console_read_witness :
  exists s t s' t', sim s t /\ wf t /\ mjoin (committed (queues t)) = bstr "hi" ++ [10] /\
    DigestConsoleInput 2 s = Some (Some (bstr "hi"), s') /\ sim s' t' /\ mjoin (committed (queues t')) = [10].
Proof.
  destruct (OpenConsole_run conf0) as (s0 & E0 & S0 & W0).
  destruct (session_run [Arrive (typed (bstr "hx" ++ [8] ++ bstr "i" ++ [13])); CallCount] (Some []) (Some []) s0 _ S0 (or_introl eq_refl) W0)
    as (rs & q & qa & s & t & _ & E & S & W).
  assert (committed (queues t) = [bstr "h"; bstr "i"; [10]]) as Ec.
  { unfold OpenConsole in E0. destruct (open_loop pool zeroed); [|discriminate E0]. injection E0 as <-. vm_compute in E. injection E as _ _ <-. reflexivity. }
  assert (magic (tty (tdev t)) = 0) as Em.
  { unfold OpenConsole in E0. destruct (open_loop pool zeroed); [|discriminate E0]. injection E0 as <-. vm_compute in E. injection E as _ _ <-. reflexivity. }
  destruct (console_read s t 2 S W) as (r & s' & t' & Ed & S' & _ & _ & _ & H). rewrite Ec, Em in H. cbn zeta in H.
  exists s, t, s', t'. split; [exact S|]. split; [exact W|]. rewrite Ec. split; [reflexivity|].
  destruct r as [[|c p]|]; [by destruct H| |by destruct H as [_ [H|[H _]]]].
  destruct H as [J [D|[D _]]]; [|discriminate D]. cbn in D. rewrite D in Ed, J. split; [exact Ed|]. split; [exact S'|].
  by injection J.
Defined.

(* ------------------------------------------------------------------ *)
(** ** Buffers and echo *)

(** The characters of a UTF-8 text: bytes that continue one do not count. *)
Definition columns (p : bytes) : nat := length (filter (fun c => Z.land c 192 <> 128) p).

Lemma columns_app p q : columns (p ++ q) = (columns p + columns q)%nat.
Proof. unfold columns. by rewrite filter_app, length_app. Qed.

Definition erasures (n : nat) : bytes := mjoin (replicate n erase_character).

Lemma erasures_add n m : erasures (n + m) = erasures n ++ erasures m.
Proof. unfold erasures. by rewrite replicate_add, join_app. Qed.

Lemma erasures_comm n m : erasures n ++ erasures m = erasures m ++ erasures n.
Proof. rewrite <- !erasures_add. f_equal. lia. Qed.

(** Every byte is taken back as it was echoed. *)
Lemma erase_byte raw c : 0 <= c < 256 -> erase_bytes raw c = erasures (columns (if raw : bool then [c] else ctl_bytes c)).
Proof.
  intros H. assert (forallb (fun c => forallb (fun raw : bool => bool_decide (erase_bytes raw c = erasures (columns (if raw then [c] else ctl_bytes c)))) [true; false])
    (Z.of_nat <$> seq 0 256) = true) as A by (vm_compute; reflexivity).
  rewrite forallb_forall in A. specialize (A c). rewrite forallb_forall in A.
  assert (List.In c (Z.of_nat <$> seq 0 256)) as I.
  { apply list_elem_of_In, list_elem_of_fmap. exists (Z.to_nat c). split; [lia|]. apply elem_of_seq. lia. }
  specialize (A I raw). apply bool_decide_eq_true in A; [done|]. destruct raw; cbn; auto.
Qed.

Lemma erase_echoed (raw : bool) b :
  Forall (fun c => 0 <= c < 256) b -> rev b ≫= erase_bytes raw = erasures (columns (if raw then b else b ≫= ctl_bytes)).
Proof.
  induction 1 as [|c b Hc _ IH]; [by destruct raw|]. cbn [rev]. rewrite bind_app, IH. cbn [mbind list_bind]. rewrite app_nil_r, (erase_byte raw c Hc).
  rewrite erasures_comm, <- erasures_add, <- columns_app. by destruct raw.
Qed.

(** Every event is converted, into no more bytes than the buffer of a keystroke has. And what
    [EraseKeystroke] writes takes back as many characters as [EchoTty] wrote for the keystroke, with
    control characters shown as two, and bytes that continue a character not counted. *)
Theorem console_bounds (s : Console) (t : Term) (r : NtInputRecord) :
  sim s t -> wf t ->
  (exists p s', ConvertConsoleInputToAnsi r s = Some (p, s') /\ (length p <= 23)%nat) /\
  (forall l b, pending (queues t) = l ++ [b] -> Bytes b ->
   exists s' echo,
     out (EchoTty b (dev s)) = out (dev s) ++ echo /\
     EraseKeystroke s = Some (true, s') /\ out (dev s') = out (dev s) ++ erasures (columns echo)).
Proof.
  intros S W. split.
  - destruct (convert_wf r t W) as (p & t' & E & L & _). pose proof (convert_run r s t S) as X. rewrite E in X.
    destruct X as (s' & -> & _). by exists p, s'.
  - intros l b Ep Hb. destruct (erase_run s t S) as (s' & Es & S'). destruct S as [_ Ed]. destruct S' as [_ Ed']. rewrite Ep in Es.
    rewrite bool_decide_eq_false_2 in Es by by destruct l. exists s', (if has (magic (tty (dev s))) kTtyEchoRaw then b else b ≫= ctl_bytes).
    split; [unfold EchoTty; by destruct (has _ _)|]. split; [done|]. rewrite Ed', Ed. unfold t_erase. rewrite Ep, rev_app_distr.
    cbn. by rewrite erase_echoed.
Qed.

Lemma console_bounds_witness :
  exists s t p s1 s2, sim s t /\ wf t /\ pending (queues t) = [ [195; 169] ] /\
    ConvertConsoleInputToAnsi (MouseEvent 10 20 0x780000 0 4) s = Some (p, s1) /\ (length p <= 23)%nat /\
    EraseKeystroke s = Some (true, s2) /\ out (dev s2) = [195; 169] ++ [8; 32; 8].
Proof.
  destruct (OpenConsole_run conf0) as (s0 & E0 & S0 & W0).
  destruct (session_run [Arrive (typed [233]); CallCount] (Some []) (Some []) s0 _ S0 (or_introl eq_refl) W0)
    as (rs & q & qa & s & t & _ & E & S & W).
  assert (pending (queues t) = [ [195; 169] ] /\ out (tdev t) = [195; 169] /\ magic (tty (tdev t)) = 0) as (Ep & Eo & Em).
  { unfold OpenConsole in E0. destruct (open_loop pool zeroed); [|discriminate E0]. injection E0 as <-. vm_compute in E. injection E as _ _ <-.
    repeat split. }
  destruct (console_bounds s t (MouseEvent 10 20 0x780000 0 4) S W) as [(p & s1 & E1 & L) H].
  destruct (H [] [195; 169] Ep) as (s2 & echo & X & E2 & O); [repeat constructor; unfold is_byte; lia|].
  pose proof S as [_ Ed]. exists s, t, p, s1, s2. split; [exact S|]. split; [exact W|]. split; [exact Ep|]. split; [exact E1|].
  split; [exact L|]. split; [exact E2|]. unfold EchoTty, WriteTty in X. rewrite Ed, Em in X. cbn [out has] in X.
  cbn in X. apply app_inv_head in X. subst echo. rewrite O, Ed, Eo. reflexivity.
Defined.

(** The echo of a terminal that is silent is not written, but taking it back is. *)
Lemma erase_silent_defect :
  exists s rs q s', OpenConsole (set_magic kTtySilence conf0) = Some s /\
    c_session [Arrive (typed (bstr "a" ++ [8])); CallCount] (Some []) s = Some (rs, q, s') /\ out (dev s') = [8; 32; 8].
Proof.
  destruct (OpenConsole_run (set_magic kTtySilence conf0)) as (s0 & E0 & S0 & W0).
  destruct (session_run [Arrive (typed (bstr "a" ++ [8])); CallCount] (Some []) (Some []) s0 _ S0 (or_introl eq_refl) W0)
    as (rs & q & qa & s & t & Ec & E & [_ Ed] & W).
  exists s0, rs, q, s. split; [exact E0|]. split; [exact Ec|]. rewrite Ed.
  unfold OpenConsole in E0. destruct (open_loop pool zeroed); [|discriminate E0]. injection E0 as <-. vm_compute in E. injection E as _ _ <-. reflexivity.
Qed.
