(* ===== verification/Mutex.v ===== *)
(** Mutual exclusion between threads: libc/intrin/pthread_mutex_*.c, pthread_mutexattr_*.c and
    pthread_spin_*.c. A function is the program of its accesses to the mutex, and threads interleave access by
    access. *)

From S2P Require Import Prelude.

(* ------------------------------------------------------------------ *)
(** ** Definitions *)

Inductive mutex_type := PTHREAD_MUTEX_NORMAL | PTHREAD_MUTEX_RECURSIVE | PTHREAD_MUTEX_ERRORCHECK.
#[global] Instance mutex_type_dec : EqDecision mutex_type.
Proof. solve_decision. Defined.

Definition type_number (ty : mutex_type) : Z :=
  match ty with
  | PTHREAD_MUTEX_NORMAL => 0
  | PTHREAD_MUTEX_RECURSIVE => 1
  | PTHREAD_MUTEX_ERRORCHECK => 2
  end.

Definition PTHREAD_PROCESS_PRIVATE : Z := 0.
Definition PTHREAD_PROCESS_SHARED : Z := 1.

Definition EPERM : Z := 1.
Definition EAGAIN : Z := 11.
Definition EBUSY : Z := 16.
Definition EINVAL : Z := 22.
Definition EDEADLK : Z := 35.

(** [pthread_mutexattr_t] and its functions; [char] is signed. *)
Record pthread_mutexattr := Attr { a_type : Z; a_pshared : Z }.

Definition pthread_mutexattr_init : pthread_mutexattr := Attr 0 0.
Definition pthread_mutexattr_destroy : pthread_mutexattr := Attr (-1) (-1).

Definition pthread_mutexattr_settype (attr : pthread_mutexattr) (type : Z) : pthread_mutexattr * Z :=
  if (type =? 0) || (type =? 1) || (type =? 2) then (Attr type (a_pshared attr), 0) else (attr, EINVAL).

Definition pthread_mutexattr_gettype (attr : pthread_mutexattr) : Z := a_type attr.

Definition pthread_mutexattr_setpshared (attr : pthread_mutexattr) (pshared : Z) : pthread_mutexattr * Z :=
  if (pshared =? PTHREAD_PROCESS_SHARED) || (pshared =? PTHREAD_PROCESS_PRIVATE)
  then (Attr (a_type attr) pshared, 0) else (attr, EINVAL).

Definition pthread_mutexattr_getpshared (attr : pthread_mutexattr) : Z := a_pshared attr.

(** The fields that change; [_depth] has 6 bits and [_owner] 23. *)
Record pthread_mutex := Mutex { m_lock : Z; m_depth : Z; m_owner : Z; m_pid : Z }.

Inductive field := Lock | Depth | Owner | Pid.

Definition get (f : field) (m : pthread_mutex) : Z :=
  match f with Lock => m_lock m | Depth => m_depth m | Owner => m_owner m | Pid => m_pid m end.

Definition set (f : field) (v : Z) (m : pthread_mutex) : pthread_mutex :=
  match f with
  | Lock => Mutex (s32 v) (m_depth m) (m_owner m) (m_pid m)
  | Depth => Mutex (m_lock m) (v mod 2 ^ 6) (m_owner m) (m_pid m)
  | Owner => Mutex (m_lock m) (m_depth m) (v mod 2 ^ 23) (m_pid m)
  | Pid => Mutex (m_lock m) (m_depth m) (m_owner m) (s64 v)
  end.

(** Programs over one mutex. [Exchange] is [atomic_exchange_explicit] on [_lock], and [Spin] the
    loop [while (atomic_exchange_explicit(&mutex->_lock, 1, ...)) pthread_pause_np();]. *)
Inductive prog :=
| Return (rc : Z)
| Load (f : field) (k : Z -> prog)
| Store (f : field) (v : Z) (k : prog)
| Exchange (v : Z) (k : Z -> prog)
| Spin (k : prog).

(** [pthread_mutex_init]: [_type] (2 bits), [_pshared] (1 bit) and the fields above. The first two
    do not change afterwards, and are arguments of the other functions. *)
Definition pthread_mutex_init (attr : option pthread_mutexattr) : Z * Z * pthread_mutex :=
  (match attr with Some a => a_type a mod 2 ^ 2 | None => 0 end,
   match attr with Some a => a_pshared a mod 2 | None => 0 end, Mutex 0 0 0 0).

(** [memset(mutex, -1, sizeof *mutex)]. *)
Definition pthread_mutex_destroy : Z * Z * pthread_mutex := (3, 1, Mutex (-1) 63 (2 ^ 23 - 1) (-1)).

(** The spin locks; [_lock] is all there is. *)
Definition pthread_spin_init : prog := Store Lock 0 (Return 0).
Definition pthread_spin_destroy : prog := Store Lock (-1) (Return 0).
Definition pthread_spin_lock : prog := Spin (Return 0).
Definition pthread_spin_trylock : prog := Exchange 1 (fun old => if old =? 0 then Return 0 else Return EBUSY).
Definition pthread_spin_unlock : prog := Store Lock 0 (Return 0).

(** The rest of a function after code that it calls. *)
Fixpoint bind (p : prog) (k : Z -> prog) : prog :=
  match p with
  | Return rc => k rc
  | Load f p => Load f (fun v => bind (p v) k)
  | Store f v p => Store f v (bind p k)
  | Exchange v p => Exchange v (fun old => bind (p old) k)
  | Spin p => Spin (bind p k)
  end.

Section Code.
(** The type of the mutex, whether [_pshared] is [PTHREAD_PROCESS_PRIVATE], the process, whether
    this is a child of [vfork], and the code of third_party/nsync where it is linked. *)
Context (ty : mutex_type) (private : bool) (pid : Z) (vforked : bool).
Context (nsync_mu_lock nsync_mu_trylock nsync_mu_unlock : option prog).

(** [mutex->_type == PTHREAD_MUTEX_NORMAL && mutex->_pshared == PTHREAD_PROCESS_PRIVATE &&
    _weaken(f)]: the function that takes over. *)
Definition delegate (f : option prog) : option prog :=
  if bool_decide (ty = PTHREAD_MUTEX_NORMAL) && private then f else None.

(** What follows the test [mutex->_owner == t] when it holds. *)
Definition relock : prog :=
  if negb (bool_decide (ty = PTHREAD_MUTEX_ERRORCHECK)) then
    Load Depth (fun d =>
      if d <? 63 then Load Depth (fun d => Store Depth (d + 1) (Return 0)) else Return EAGAIN)
  else Return EDEADLK.

Definition take_ownership (t : Z) : prog := Store Depth 0 (Store Owner t (Store Pid pid (Return 0))).

Definition pthread_mutex_lock (t : Z) : prog :=
  if vforked then Return 0
  else match delegate nsync_mu_lock with
  | Some code => bind code (fun _ => Return 0)
  | None =>
      if bool_decide (ty = PTHREAD_MUTEX_NORMAL) then Spin (Return 0)
      else Load Owner (fun o => if o =? t then relock else Spin (take_ownership t))
  end.

Definition pthread_mutex_trylock (t : Z) : prog :=
  match delegate nsync_mu_trylock with
  | Some code => bind code (fun ok => if negb (ok =? 0) then Return 0 else Return EBUSY)
  | None =>
      if bool_decide (ty = PTHREAD_MUTEX_NORMAL) then
        Exchange 1 (fun old => if old =? 0 then Return 0 else Return EBUSY)
      else
        Load Owner (fun o =>
          if o =? t then relock
          else Exchange 1 (fun old => if negb (old =? 0) then Return EBUSY else take_ownership t))
  end.

Definition pthread_mutex_unlock (t : Z) : prog :=
  match delegate nsync_mu_unlock with
  | Some code => bind code (fun _ => Return 0)
  | None =>
      if bool_decide (ty = PTHREAD_MUTEX_NORMAL) then Store Lock 0 (Return 0)
      else
        let rest :=
          Load Depth (fun d =>
            if negb (d =? 0) then Load Depth (fun d => Store Depth (d - 1) (Return 0))
            else Store Owner 0 (Store Lock 0 (Return 0))) in
        Load Owner (fun o =>
          if negb (o =? 0) then
            Load Owner (fun o =>
              if negb (o =? t) then Return EPERM
              else Load Pid (fun p => if negb (p =? pid) then Return EPERM else rest))
          else rest)
  end.
End Code.

(** One access. *)
Definition access (m : pthread_mutex) (p : prog) : pthread_mutex * prog :=
  match p with
  | Return rc => (m, Return rc)
  | Load f k => (m, k (get f m))
  | Store f v k => (set f v m, k)
  | Exchange v k => (set Lock v m, k (m_lock m))
  | Spin k => (set Lock 1 m, if m_lock m =? 0 then k else Spin k)
  end.

(** A program that is run without interruption for [n] accesses. *)
Fixpoint exec (n : nat) (m : pthread_mutex) (p : prog) : pthread_mutex * prog :=
  match n with O => (m, p) | S n => let '(m, p) := access m p in exec n m p end.

Inductive call := CallLock | CallTrylock | CallUnlock.

(** A thread between calls that has locked the mutex [held] times, or inside of a call. *)
Inductive thread := Ready (held : Z) | Calling (c : call) (p : prog) (held : Z).

Record system := System { mutex : pthread_mutex; threads : Z -> thread }.

Definition upd (ts : Z -> thread) (t : Z) (s : thread) : Z -> thread := fun u => if u =? t then s else ts u.

(** What a call that returned [rc] does to the number of times the thread holds the mutex. *)
Definition held_after (c : call) (rc held : Z) : Z :=
  if rc =? 0 then match c with CallUnlock => held - 1 | _ => held + 1 end else held.

(** What is linked of third_party/nsync. *)
Record nsync := Nsync { mu_lock : option prog; mu_trylock : option prog; mu_unlock : option prog }.

Definition no_nsync : nsync := Nsync None None None.

(** The mutexes that these functions handle themselves: the recursive and the error checking ones,
    the ones that processes share and, in a program without nsync, the others too. *)
Definition own_code (ty : mutex_type) (private : bool) (ns : nsync) : Prop :=
  ty <> PTHREAD_MUTEX_NORMAL \/ private = false \/ ns = no_nsync.

Section Threads.
Context (ty : mutex_type) (private : bool) (pid : Z) (ns : nsync).

(** The functions, outside of a child of [vfork]. *)
Definition code (c : call) (t : Z) : prog :=
  match c with
  | CallLock => pthread_mutex_lock ty private pid false (mu_lock ns) t
  | CallTrylock => pthread_mutex_trylock ty private pid (mu_trylock ns) t
  | CallUnlock => pthread_mutex_unlock ty private pid (mu_unlock ns) t
  end.

(** Threads call in any order, but only unlock what they hold. The label is a call that
    returned: the thread, the call, its result and how often the thread held the mutex. *)
Inductive step : system -> option (Z * call * Z * Z) -> system -> Prop :=
| step_call m ts t c held :
    ts t = Ready held -> (c = CallUnlock -> 0 < held) -> 0 < t < 2 ^ 23 ->
    step (System m ts) None (System m (upd ts t (Calling c (code c t) held)))
| step_access m ts t c p held :
    ts t = Calling c p held -> (forall rc, p <> Return rc) ->
    step (System m ts) None
      (System (access m p).1 (upd ts t (Calling c (access m p).2 held)))
| step_return m ts t c rc held :
    ts t = Calling c (Return rc) held ->
    step (System m ts) (Some (t, c, rc, held)) (System m (upd ts t (Ready (held_after c rc held)))).

Definition start : system := System (pthread_mutex_init None).2 (fun _ => Ready 0).

Definition spin_code (c : call) : prog :=
  match c with
  | CallLock => pthread_spin_lock
  | CallTrylock => pthread_spin_trylock
  | CallUnlock => pthread_spin_unlock
  end.

Inductive reachable : system -> Prop :=
| reach_start : reachable start
| reach_step s l s' : reachable s -> step s l s' -> reachable s'.
End Threads.

(** How often a thread holds the mutex: from the return of the call that locked it to the call
    that unlocks it. *)
Definition held_by (s : system) (t : Z) : Z :=
  match threads s t with
  | Ready held | Calling CallLock _ held | Calling CallTrylock _ held => held
  | Calling CallUnlock _ held => held - 1
  end.

(** What a call of a thread that holds the mutex [held] times may return. *)
Definition outcome (ty : mutex_type) (c : call) (held rc : Z) : Prop :=
  match c with
  | CallUnlock => rc = 0
  | _ =>
      if held =? 0 then rc = 0 \/ (c = CallTrylock /\ rc = EBUSY)
      else match ty with
           | PTHREAD_MUTEX_NORMAL => c = CallTrylock /\ rc = EBUSY
           | PTHREAD_MUTEX_RECURSIVE => rc = if held <? 64 then 0 else EAGAIN
           | PTHREAD_MUTEX_ERRORCHECK => rc = EDEADLK
           end
  end.

Example mutex_1 :
  let '(m, p) := exec 9 (pthread_mutex_init None).2 (pthread_mutex_lock PTHREAD_MUTEX_RECURSIVE true 7 false None 5) in
  p = Return 0 /\ m = Mutex 1 0 5 7 /\
  exec 9 m (pthread_mutex_lock PTHREAD_MUTEX_RECURSIVE true 7 false None 5) = (Mutex 1 1 5 7, Return 0) /\
  exec 9 m (pthread_mutex_lock PTHREAD_MUTEX_ERRORCHECK true 7 false None 5) = (Mutex 1 0 5 7, Return EDEADLK) /\
  exec 9 m (pthread_mutex_trylock PTHREAD_MUTEX_RECURSIVE true 7 None 6) = (Mutex 1 0 5 7, Return EBUSY) /\
  exec 9 m (pthread_mutex_unlock PTHREAD_MUTEX_RECURSIVE true 7 None 6) = (Mutex 1 0 5 7, Return EPERM) /\
  exec 9 m (pthread_mutex_unlock PTHREAD_MUTEX_RECURSIVE true 7 None 5) = (Mutex 0 0 0 7, Return 0).
Proof. vm_compute. repeat split. Qed.

(* ------------------------------------------------------------------ *)
(** ** The invariant of all interleavings *)

(** The code of nsync is not reached. *)
Lemma code_own ty private pid ns c t :
  own_code ty private ns -> code ty private pid ns c t = code ty private pid no_nsync c t.
Proof.
  unfold code, pthread_mutex_lock, pthread_mutex_trylock, pthread_mutex_unlock, delegate.
  intros [Hn|[-> | ->]]; [|by rewrite !andb_false_r|done].
  by rewrite !(bool_decide_eq_false_2 (ty = PTHREAD_MUTEX_NORMAL) Hn).
Qed.

Section Invariant.
Context (ty : mutex_type) (private : bool) (pid : Z) (ns : nsync).
Hypothesis Hpid : s64 pid = pid.
Hypothesis Hns : own_code ty private ns.

#[local] Abbreviation normal := (ty = PTHREAD_MUTEX_NORMAL).

Definition free_mutex (m : pthread_mutex) : Prop := m_lock m = 0 /\ m_owner m = 0 /\ m_depth m = 0.

(** The mutex of a thread that holds it [held] times and is not inside of a call. *)
Definition owned (t : Z) (m : pthread_mutex) (held : Z) : Prop :=
  match ty with
  | PTHREAD_MUTEX_NORMAL => held = 1 /\ m_owner m = 0 /\ m_depth m = 0
  | PTHREAD_MUTEX_RECURSIVE => 1 <= held <= 64 /\ m_owner m = t /\ m_depth m = held - 1 /\ m_pid m = pid
  | PTHREAD_MUTEX_ERRORCHECK => held = 1 /\ m_owner m = t /\ m_depth m = 0 /\ m_pid m = pid
  end.

Section Call.
(** The call, the thread that makes it and how often it held the mutex before. *)
Context (c : call) (t held : Z).

(** The thread owns the mutex: its stores are its own business until it releases it, and what
    follows then does not touch the mutex. *)
Fixpoint ok_in (p : prog) (m : pthread_mutex) : Prop :=
  match p with
  | Return rc => outcome ty c held rc /\ owned t m (held_after c rc held)
  | Load f k => ok_in (k (get f m)) m
  | Store Lock v k =>
      v = 0 /\ m_owner m = 0 /\ m_depth m = 0 /\ c = CallUnlock /\ held = 1 /\ k = Return 0
  | Store Owner v k => (v = 0 \/ v = t) /\ ok_in k (set Owner v m)
  | Store f v k => ok_in k (set f v m)
  | Exchange v k => v = 1 /\ ok_in (k 1) m
  | Spin _ => normal
  end.

(** The thread does not own the mutex: it only looks at the owner, whoever that is now, and
    acquires a mutex that is free. *)
Fixpoint ok_out (p : prog) : Prop :=
  match p with
  | Return rc => outcome ty c held rc /\ held_after c rc held = 0
  | Load Owner k => forall o, o <> t -> ok_out (k o)
  | Load _ _ | Store _ _ _ => False
  | Exchange v k => v = 1 /\ ok_out (k 1) /\ forall m, free_mutex m -> ok_in (k 0) (set Lock 1 m)
  | Spin k => forall m, free_mutex m -> ok_in k (set Lock 1 m)
  end.
End Call.

Definition inside (t : Z) (s : thread) (m : pthread_mutex) : Prop :=
  match s with
  | Ready held => owned t m held
  | Calling c p held => ok_in c t held p m
  end.

Definition outside (t : Z) (s : thread) : Prop :=
  match s with
  | Ready held => held = 0
  | Calling c p held => held = match c with CallUnlock => 1 | _ => 0 end /\ ok_out c t held p
  end.

Definition tid_ok (t : Z) (s : thread) : Prop :=
  match s with Ready _ => True | Calling _ _ _ => 0 < t < 2 ^ 23 end.

(** Either the mutex is free and every thread is outside, or one thread is inside. *)
Definition mutex_inv (s : system) : Prop :=
  (forall t, tid_ok t (threads s t)) /\
  exists holder : option Z,
    match holder with
    | None => free_mutex (mutex s)
    | Some h => m_lock (mutex s) = 1 /\ (m_owner (mutex s) = 0 \/ m_owner (mutex s) = h) /\
        inside h (threads s h) (mutex s)
    end /\
    forall t, holder <> Some t -> outside t (threads s t).

Lemma take_ownership_in c t m :
  c <> CallUnlock -> 0 < t < 2 ^ 23 -> ~ normal -> ok_in c t 0 (take_ownership pid t) (set Lock 1 m).
Proof.
  intros Hc Ht Hn. cbn. split; [auto|]. rewrite (Z.mod_small t) by lia.
  destruct c; [| |done]; (split; [by left|]); unfold owned; cbn; rewrite Hpid; destruct ty; cbn; try done; lia.
Qed.

Lemma relock_in c t m held :
  c <> CallUnlock -> ~ normal -> owned t m held -> ok_in c t held (relock ty) m.
Proof.
  unfold relock, owned. intros Hc Hn Ho. destruct ty eqn:E; [done| |].
  - rewrite bool_decide_eq_false_2 by done. cbn. destruct Ho as (H1 & H2 & H3 & H4).
    destruct (m_depth m <? 63) eqn:Hd.
    + assert (H64 : (held <? 64) = true) by lia.
      destruct c; [| |done]; cbn; unfold owned; rewrite E, H64, (proj2 (Z.eqb_neq held 0)) by lia; cbn;
        rewrite Z.mod_small; lia.
    + assert (H64 : (held <? 64) = false) by lia.
      destruct c; [| |done]; cbn; unfold owned; rewrite E, H64, (proj2 (Z.eqb_neq held 0)) by lia; cbn; lia.
  - rewrite bool_decide_eq_true_2 by done. destruct Ho as (-> & H2 & H3 & H4).
    destruct c; [| |done]; cbn; unfold owned; rewrite E; done.
Qed.

Lemma code_in c t m held :
  (c = CallUnlock -> 0 < held) -> 0 < t < 2 ^ 23 -> m_lock m = 1 -> owned t m held ->
  ok_in c t held (code ty private pid ns c t) m.
Proof.
  intros Hc Ht Hl Ho. rewrite code_own by exact Hns.
  unfold code, pthread_mutex_lock, pthread_mutex_trylock, pthread_mutex_unlock, delegate.
  destruct (decide normal) as [Hn|Hn].
  - rewrite !(bool_decide_eq_true_2 normal Hn). unfold owned in Ho. rewrite Hn in Ho. destruct Ho as (-> & H1 & H2).
    destruct c, private; cbn; unfold owned; rewrite ?Hn; cbn; auto 10.
  - rewrite !(bool_decide_eq_false_2 normal Hn). cbn [andb].
    assert (Hw : m_owner m = t) by (unfold owned in Ho; destruct ty; tauto).
    destruct c.
    + cbn. rewrite Hw, Z.eqb_refl. by apply relock_in.
    + cbn. rewrite Hw, Z.eqb_refl. by apply relock_in.
    + assert (Hp : m_pid m = pid) by (unfold owned in Ho; destruct ty; tauto).
      assert (Hd : m_depth m = held - 1) by (unfold owned in Ho; destruct ty; lia).
      cbn. rewrite Hw, (proj2 (Z.eqb_neq t 0)) by lia. cbn. rewrite Hw, Z.eqb_refl. cbn.
      rewrite Hp, Z.eqb_refl. cbn. rewrite Hd.
      destruct (held - 1 =? 0) eqn:E; cbn.
      * repeat split; auto; lia.
      * rewrite Hd. split; [done|]. unfold owned in *. destruct ty; cbn; try lia; rewrite Z.mod_small by lia; lia.
Qed.

Lemma code_out c t :
  c <> CallUnlock -> 0 < t < 2 ^ 23 -> ok_out c t 0 (code ty private pid ns c t).
Proof.
  intros Hc Ht. rewrite code_own by exact Hns. unfold code, pthread_mutex_lock, pthread_mutex_trylock, delegate.
  destruct (decide normal) as [Hn|Hn].
  - rewrite !(bool_decide_eq_true_2 normal Hn).
    destruct c, private; try done; cbn; unfold owned, free_mutex; rewrite ?Hn; cbn; intuition.
  - rewrite !(bool_decide_eq_false_2 normal Hn). cbn [andb].
    destruct c; [| |done]; cbn; intros o Ho; rewrite (proj2 (Z.eqb_neq o t)) by done; cbn.
    + intros m _. by apply (take_ownership_in CallLock t m).
    + split; [done|]. split; [auto|]. intros m _. by apply (take_ownership_in CallTrylock t m).
Qed.

Lemma upd_eq ts t s : upd ts t s t = s.
Proof. unfold upd. by rewrite Z.eqb_refl. Qed.

Lemma upd_ne ts t s u : u <> t -> upd ts t s u = ts u.
Proof. intros H. unfold upd. by rewrite (proj2 (Z.eqb_neq u t) H). Qed.

Lemma tids_upd ts t s :
  (forall u, tid_ok u (ts u)) -> tid_ok t s -> forall u, tid_ok u (upd ts t s u).
Proof.
  intros H Hs u. destruct (decide (u = t)) as [->|Hu]; [by rewrite upd_eq|by rewrite upd_ne].
Qed.

(** The holder goes on, and stays inside. *)
Lemma inv_inside m ts t s :
  (forall u, tid_ok u (ts u)) -> tid_ok t s -> (forall u, Some t <> Some u -> outside u (ts u)) ->
  m_lock m = 1 -> m_owner m = 0 \/ m_owner m = t -> inside t s m -> mutex_inv (System m (upd ts t s)).
Proof.
  intros Hts Hs Hout Hl Ho Hin. split; [by apply tids_upd|]. exists (Some t). cbn. rewrite upd_eq.
  split; [done|]. intros u Hu. rewrite upd_ne by congruence. by apply Hout.
Qed.

(** A thread that is not the holder goes on, and stays outside. *)
Lemma inv_outside m ts t s holder :
  (forall u, tid_ok u (ts u)) -> tid_ok t s -> (forall u, u <> t -> holder <> Some u -> outside u (ts u)) ->
  holder <> Some t -> outside t s ->
  match holder with
  | None => free_mutex m
  | Some h => m_lock m = 1 /\ (m_owner m = 0 \/ m_owner m = h) /\ inside h (ts h) m
  end -> mutex_inv (System m (upd ts t s)).
Proof.
  intros Hts Hs Hout Ht Hin Hh. split; [by apply tids_upd|]. exists holder. cbn. split.
  - destruct holder as [h|]; [|done]. rewrite upd_ne by congruence. done.
  - intros u Hu. destruct (decide (u = t)) as [->|Hut]; [by rewrite upd_eq|].
    rewrite upd_ne by done. by apply Hout.
Qed.

Lemma step_inside m ts t c p held :
  (forall u, tid_ok u (ts u)) -> 0 < t < 2 ^ 23 -> (forall u, Some t <> Some u -> outside u (ts u)) ->
  m_lock m = 1 -> m_owner m = 0 \/ m_owner m = t -> (forall rc, p <> Return rc) -> ok_in c t held p m ->
  mutex_inv (System (access m p).1 (upd ts t (Calling c (access m p).2 held))).
Proof.
  intros Hts Ht Hout Hl Ho Hp Hin. destruct m as [l d o pd]. cbn in Hl, Ho. subst l.
  destruct p as [rc|f k|[] v k|v k|k]; [by destruct (Hp rc)|..]; cbn in Hin |- *.
  - by apply inv_inside.
  - destruct Hin as (-> & -> & -> & -> & -> & ->).
    apply inv_outside with (holder := None); try done.
    intros u Hu _. apply Hout. congruence.
  - by apply inv_inside.
  - destruct Hin as [Hv Hin]. apply inv_inside; try done. cbn.
    destruct Hv as [->| ->]; [by left|right; apply Z.mod_small; lia].
  - by apply inv_inside.
  - destruct Hin as [-> Hin]. by apply inv_inside.
  - by apply inv_inside.
Qed.

Lemma step_outside m ts t c p held holder :
  (forall u, tid_ok u (ts u)) -> 0 < t < 2 ^ 23 -> (forall u, holder <> Some u -> outside u (ts u)) ->
  holder <> Some t -> held = match c with CallUnlock => 1 | _ => 0 end -> (forall rc, p <> Return rc) ->
  ok_out c t held p ->
  match holder with
  | None => free_mutex m
  | Some h => m_lock m = 1 /\ (m_owner m = 0 \/ m_owner m = h) /\ inside h (ts h) m
  end -> mutex_inv (System (access m p).1 (upd ts t (Calling c (access m p).2 held))).
Proof.
  intros Hts Ht Hout Hne Hheld Hp Hok Hh.
  assert (Hkeep : forall p', ok_out c t held p' -> mutex_inv (System m (upd ts t (Calling c p' held))))
    by (intros p' Hp'; apply inv_outside with (holder := holder); auto; by split).
  assert (Howner : m_owner m <> t).
  { destruct holder as [h|]; [destruct Hh as (_ & [?|?] & _); [lia|congruence]|destruct Hh; lia]. }
  assert (Hlock : forall h, holder = Some h -> m_lock m = 1 /\ set Lock 1 m = m).
  { intros h ->. destruct Hh as [Hl _]. split; [done|]. destruct m; cbn in *. by subst. }
  assert (Htake : forall p', holder = None -> ok_in c t held p' (set Lock 1 m) ->
            mutex_inv (System (set Lock 1 m) (upd ts t (Calling c p' held)))).
  { intros p' -> Hp'. apply inv_inside; try done; [|left; apply Hh]. intros u _. by apply Hout. }
  destruct p as [rc|[] k| |v k|k]; try done; [by destruct (Hp rc)|..]; cbn [ok_out] in Hok; cbn [access fst snd get].
  - by apply Hkeep, Hok.
  - destruct Hok as (-> & H1 & H0). destruct holder as [h|].
    + destruct (Hlock h eq_refl) as [-> ->]. by apply Hkeep.
    + destruct Hh as [Hl Hh]. rewrite Hl. by apply Htake, H0.
  - destruct holder as [h|].
    + destruct (Hlock h eq_refl) as [-> ->]. by apply Hkeep.
    + destruct Hh as [Hl Hh]. rewrite Hl. by apply Htake, Hok.
Qed.

Lemma mutex_inv_step s l s' : mutex_inv s -> step ty private pid ns s l s' -> mutex_inv s'.
Proof.
  intros (Hts & holder & Hh & Hout) Hstep.
  destruct Hstep as [m ts t c held Hr Hu Ht|m ts t c p held Hr Hp|m ts t c rc held Hr];
    cbn in Hh, Hout, Hts; pose proof (Hts t) as Htid; rewrite Hr in Htid;
    destruct (decide (holder = Some t)) as [->|Hne].
  - destruct Hh as (Hl & Ho & Hin). rewrite Hr in Hin. apply inv_inside; try done. by apply code_in.
  - pose proof (Hout t Hne) as H0. rewrite Hr in H0. cbn in H0. subst held.
    assert (c <> CallUnlock) by (intros ->; specialize (Hu eq_refl); lia).
    apply inv_outside with (holder := holder); auto. split; [by destruct c|by apply code_out].
  - destruct Hh as (Hl & Ho & Hin). rewrite Hr in Hin. by apply step_inside.
  - pose proof (Hout t Hne) as H0. rewrite Hr in H0. destruct H0 as [H0 Hok].
    by apply step_outside with (holder := holder).
  - destruct Hh as (Hl & Ho & Hin). rewrite Hr in Hin. apply inv_inside; try done. apply Hin.
  - pose proof (Hout t Hne) as H0. rewrite Hr in H0. destruct H0 as [H0 [_ Hok]].
    apply inv_outside with (holder := holder); auto. done.
Qed.

Lemma mutex_inv_reachable s : reachable ty private pid ns s -> mutex_inv s.
Proof.
  induction 1 as [|s l s' _ IH Hstep]; [|by apply mutex_inv_step with s l].
  split; [done|]. by exists None.
Qed.

Lemma outside_held s t : outside t (threads s t) -> held_by s t = 0.
Proof. unfold held_by. destruct (threads s t) as [h|[] p h]; cbn; lia. Qed.

Lemma inv_outcome m ts t c rc held :
  mutex_inv (System m ts) -> ts t = Calling c (Return rc) held -> outcome ty c held rc.
Proof.
  intros (_ & holder & Hh & Hout) Hr. cbn in Hh, Hout. destruct (decide (holder = Some t)) as [->|Hne].
  - rewrite Hr in Hh. apply Hh.
  - specialize (Hout t Hne). rewrite Hr in Hout. apply Hout.
Qed.
End Invariant.

(* ------------------------------------------------------------------ *)
(** ** Calls that are not interrupted *)

Lemma exec_S n m p : exec (S n) m p = exec n (access m p).1 (access m p).2.
Proof. cbn [exec]. by destruct (access m p). Qed.

(** A loop on a lock that is taken goes on. *)
Lemma exec_spin n m k : m_lock m = 1 -> exec n m (Spin k) = (m, Spin k).
Proof.
  intros Hl. induction n as [|n IH]; [done|]. rewrite exec_S. cbn [access fst snd]. rewrite Hl. cbn [Z.eqb].
  replace (set Lock 1 m) with m; [done|]. destruct m; cbn in *. by subst.
Qed.

Section Alone.
Context (ty : mutex_type) (private : bool) (pid : Z) (ns : nsync).
Hypothesis Hns : own_code ty private ns.

Lemma exec_free m t c :
  free_mutex m -> 0 < t -> c <> CallUnlock -> (exec 5 m (code ty private pid ns c t)).2 = Return 0.
Proof.
  destruct m as [l d o p]. intros (Hl & Ho & Hd) Ht Hc. rewrite code_own by exact Hns. cbn in Hl, Ho, Hd. subst.
  destruct t as [|t|t]; [lia| |lia].
  destruct c; [| |done]; unfold code, pthread_mutex_lock, pthread_mutex_trylock, delegate;
    destruct (bool_decide (ty = PTHREAD_MUTEX_NORMAL)), private; reflexivity.
Qed.

Lemma exec_busy m t :
  m_lock m = 1 -> m_owner m <> t ->
  exec 5 m (code ty private pid ns CallTrylock t) = (m, Return EBUSY) /\
  forall n, exists p, exec n m (code ty private pid ns CallLock t) = (m, p) /\ forall rc, p <> Return rc.
Proof.
  destruct m as [l d o p]. cbn [m_lock m_owner]. intros -> Ho. apply Z.eqb_neq in Ho. split.
  - rewrite code_own by exact Hns. unfold code, pthread_mutex_trylock, delegate.
    destruct (bool_decide (ty = PTHREAD_MUTEX_NORMAL)), private; cbn -[Z.eqb]; rewrite ?Ho; reflexivity.
  - intros n. rewrite code_own by exact Hns. unfold code, pthread_mutex_lock, delegate.
    assert (Hspin : forall n k, exists q,
              exec n (Mutex 1 d o p) (Spin k) = (Mutex 1 d o p, q) /\ forall rc, q <> Return rc)
      by (intros n' k; exists (Spin k); rewrite exec_spin; done).
    destruct (bool_decide (ty = PTHREAD_MUTEX_NORMAL)), private; cbn [andb]; try apply Hspin;
      (destruct n as [|n]; [eexists; split; [reflexivity|done]|]);
      rewrite exec_S; cbn [access fst snd get m_owner]; rewrite Ho; apply Hspin.
Qed.
End Alone.

(** Spin locks are normal mutexes. *)
Lemma code_spin private pid c t : code PTHREAD_MUTEX_NORMAL private pid no_nsync c t = spin_code c.
Proof. by destruct c, private. Qed.


(** An nsync that is linked and would let everybody in. *)
Definition lax : nsync := Nsync (Some (Return 0)) (Some (Return 1)) (Some (Return 0)).


(** C40: for the same mutexes, outside of children of [vfork]: when every thread is between calls, a
    thread that runs alone locks the mutex in 5 accesses if nobody holds it; and while another
    thread holds it, trying fails at once with EBUSY and changes nothing, and locking does not
    return however long it runs. *)
Theorem mutex_alone (ty : mutex_type) (private : bool) (pid : Z) (ns : nsync) (s : system) (t : Z) :
  s64 pid = pid -> own_code ty private ns -> reachable ty private pid ns s -> 0 < t ->
  (forall u, exists held, threads s u = Ready held) ->
  ((forall u, held_by s u = 0) ->
     (exec 5 (mutex s) (code ty private pid ns CallLock t)).2 = Return 0 /\
     (exec 5 (mutex s) (code ty private pid ns CallTrylock t)).2 = Return 0) /\
  (forall u, 0 < held_by s u -> u <> t ->
     exec 5 (mutex s) (code ty private pid ns CallTrylock t) = (mutex s, Return EBUSY) /\
     forall n, exists p, exec n (mutex s) (code ty private pid ns CallLock t) = (mutex s, p) /\
       forall rc, p <> Return rc).
Proof.
  intros Hpid Hns Hr Ht Hready. apply mutex_inv_reachable in Hr; [|done..].
  destruct Hr as (_ & [h|] & Hh & Hout); (split; [intros Hz|intros u Hu Hut]).
  - destruct Hh as (_ & _ & Hin). destruct (Hready h) as [held E]. specialize (Hz h).
    unfold held_by in Hz. rewrite E in Hz, Hin. subst held. unfold inside, owned in Hin. destruct ty; lia.
  - apply exec_busy; [done|apply Hh|]. destruct (decide (h = u)) as [->|Hne].
    + destruct Hh as (_ & [->| ->] & _); lia.
    + rewrite (outside_held ty pid s u) in Hu by (apply Hout; congruence). lia.
  - split; by apply exec_free.
  - rewrite (outside_held ty pid s u) in Hu by (by apply Hout). lia.
Qed.

Lemma mutex_alone_witness :
  (exec 5 (pthread_mutex_init None).2 (code PTHREAD_MUTEX_NORMAL false 7 lax CallLock 5)).2 = Return 0.
Proof.
  apply (mutex_alone PTHREAD_MUTEX_NORMAL false 7 lax start 5 eq_refl
           ltac:(right; left; reflexivity) (reach_start _ _ _ _)); [lia|..].
  - intros u. by exists 0.
  - done.
Defined.
