(* ===== verification/Semaphore.v ===== *)
(** Unnamed semaphores: libc/thread/sem_{init,destroy,post,trywait,timedwait,wait,getvalue}.c.
    A thread inside of a call is at one of the accesses of the code to the semaphore, threads
    interleave access by access, and what the kernel and the machine decide is a choice. *)

From S2P Require Import Prelude.

(* ------------------------------------------------------------------ *)
(** ** Definitions *)

Definition INT_MIN : Z := - 2 ^ 31.
Definition INT_MAX : Z := 2 ^ 31 - 1.
Definition SEM_VALUE_MAX : Z := INT_MAX.
Definition SEM_MAGIC_NAMED : Z := 0xDEADBEEF.
Definition SEM_MAGIC_UNNAMED : Z := 0xFEEDABEE.

Definition SEM_EINTR : Z := 4.
Definition SEM_EAGAIN : Z := 11.
Definition SEM_EBUSY : Z := 16.
Definition SEM_EINVAL : Z := 22.
Definition SEM_ETIMEDOUT : Z := 110.
Definition SEM_ECANCELED : Z := 125.

(** The fields of an unnamed [sem_t]. *)
Record sem := Sem { sem_value : Z; sem_waiters : Z; sem_magic : Z; sem_pid : Z; sem_pshared : Z }.

Definition set_value (s : sem) (v : Z) : sem :=
  Sem v (sem_waiters s) (sem_magic s) (sem_pid s) (sem_pshared s).

Definition set_waiters (s : sem) (n : Z) : sem :=
  Sem (sem_value s) n (sem_magic s) (sem_pid s) (sem_pshared s).

(** 0, or -1 with [errno]. *)
Inductive result := Success | Failure (errno : Z).

(** [sem_init]; [None] leaves the memory alone. *)
Definition sem_init (pid pshared value : Z) : result * option sem :=
  if value >? SEM_VALUE_MAX then (Failure SEM_EINVAL, None)
  else (Success, Some (Sem value 0 SEM_MAGIC_UNNAMED pid (if pshared =? 0 then 0 else 1))).

(** [sem_destroy]; [None] stands for a failed assertion. *)
Definition sem_destroy (s : sem) : option (result * sem) :=
  if sem_magic s =? SEM_MAGIC_NAMED then None
  else if negb (sem_magic s =? SEM_MAGIC_UNNAMED) then Some (Failure SEM_EINVAL, s)
  else if sem_waiters s <? 0 then None
  else if negb (sem_waiters s =? 0) then Some (Failure SEM_EBUSY, s)
  else Some (Success, set_value s INT_MIN).

Definition sem_getvalue (s : sem) : Z := sem_value s.

(** [Wait timed] is [sem_timedwait], with a deadline or not; [sem_wait] is [Wait false]. *)
Inductive call := CallPost | CallTrywait | CallWait (timed : bool).

(** Where a thread is. [TryLoad] and [TryCas] are in [sem_trywait], called for itself ([None]) or
    as the attempt [i] of [sem_timedwait]. [WaitLeave None] is the clean-up of a thread that was
    cancelled while it waited. [Crashed] is an [unassert] that failed; [WakeFailed] and
    [WaitFailed] are an [npassert] that failed, with what the futex interface had returned. *)
Inductive point :=
| PostAdd | PostWake
| TryLoad (i : option Z) | TryCas (i : option Z) (v : Z)
| WaitEnter | WaitLoad | WaitFutex | WaitCas (v : Z) | WaitLeave (r : option result)
| Done (r : result) | Exited | Crashed | WakeFailed (wakeups : Z) | WaitFailed (rc : Z).

(** What is not decided by the code: what [nsync_futex_wait_] returns ([None] if the thread is
    cancelled in it), whether the deadline has passed, whether [compare_exchange_weak] fails
    although the values agree, and what [nsync_futex_wake_] returns. *)
Record choice := Choice { futex_wait : option Z; expired : bool; spurious : bool; futex_wake : Z }.

(** [sem_trywait] returned -1 with [errno]. *)
Definition try_failed (i : option Z) (errno : Z) : point :=
  match i with
  | None => Done (Failure errno)
  | Some i =>
      if errno =? SEM_EAGAIN then if i + 1 <? 7 then TryLoad (Some (i + 1)) else WaitEnter
      else Done (Failure errno)
  end.

(** The body of the loop of [sem_trywait]. *)
Definition try_value (i : option Z) (v : Z) : point :=
  if negb (v >? INT_MIN) then Crashed
  else if v =? 0 then try_failed i SEM_EAGAIN
  else if v <? 0 then try_failed i SEM_EINVAL
  else TryCas i v.

(** The test of what [nsync_futex_wait_] returned. *)
Definition futex_result (timed : bool) (ch : choice) (rc : Z) : point :=
  if (rc =? - SEM_EINTR) || (rc =? - SEM_ECANCELED) then WaitLeave (Some (Failure (- rc)))
  else if rc =? - SEM_EAGAIN then WaitLoad
  else if rc =? - SEM_ETIMEDOUT then
    if negb timed then WaitFailed rc
    else if expired ch then WaitLeave (Some (Failure SEM_ETIMEDOUT)) else WaitLoad
  else if negb (rc =? 0) then WaitFailed rc
  else WaitLoad.

(** One access of a thread. *)
Definition sem_step (timed : bool) (ch : choice) (s : sem) (p : point) : sem * point :=
  let v := sem_value s in
  match p with
  | PostAdd =>
      (set_value s (s32 (v + 1)),
       if negb (v >? INT_MIN) then Crashed
       else if v >=? 0 then PostWake else Done (Failure SEM_EINVAL))
  | PostWake => (s, if negb (futex_wake ch >=? 0) then WakeFailed (futex_wake ch) else Done Success)
  | TryLoad i => (s, try_value i v)
  | TryCas i expected =>
      if (v =? expected) && negb (spurious ch) then (set_value s (s32 (expected - 1)), Done Success)
      else (s, try_value i v)
  | WaitEnter =>
      (set_waiters s (s32 (sem_waiters s + 1)), if negb (sem_waiters s >=? 0) then Crashed else WaitLoad)
  | WaitLoad =>
      (s, if v =? 0 then WaitFutex
          else if v >? 0 then WaitCas v
          else if negb (v >? INT_MIN) then Crashed
          else WaitLeave (Some (Failure SEM_EINVAL)))
  | WaitFutex =>
      (s, match futex_wait ch with None => WaitLeave None | Some rc => futex_result timed ch rc end)
  | WaitCas expected =>
      if (v =? expected) && negb (spurious ch)
      then (set_value s (s32 (expected - 1)), WaitLeave (Some Success)) else (s, WaitLoad)
  | WaitLeave r =>
      (set_waiters s (s32 (sem_waiters s - 1)),
       if negb (sem_waiters s >? 0) then Crashed
       else match r with Some r => Done r | None => Exited end)
  | Done _ | Exited | Crashed | WakeFailed _ | WaitFailed _ => (s, p)
  end.

Definition sem_post : point := PostAdd.
Definition sem_trywait : point := TryLoad None.
Definition sem_timedwait : point := TryLoad (Some 0).
Definition sem_wait : call * point := (CallWait false, sem_timedwait).

Definition entry (c : call) : point :=
  match c with CallPost => sem_post | CallTrywait => sem_trywait | CallWait _ => sem_timedwait end.

Definition is_timed (c : call) : bool := match c with CallWait timed => timed | _ => false end.

(** A call without interruption, with the choices of its accesses. *)
Fixpoint sem_run (timed : bool) (chs : list choice) (s : sem) (p : point) : sem * point :=
  match chs with
  | [] => (s, p)
  | ch :: chs => let '(s, p) := sem_step timed ch s p in sem_run timed chs s p
  end.

(** A thread that is not in a call, or is; [balance] counts its calls of [sem_post] that returned
    0 less its waits that returned 0. *)
Record thread := Thread { balance : Z; running : option (call * point) }.

(** What a call that returned [r] adds to the semaphore. *)
Definition credit (c : call) (r : result) : Z :=
  match r, c with Success, CallPost => 1 | Success, _ => -1 | Failure _, _ => 0 end.

Record system := System { semaphore : sem; threads : list thread }.

(** What the post of an access finds: the [old] of [sem_post]. *)
Definition found (s : sem) (p : point) : list Z :=
  match p with PostAdd => [sem_value s] | _ => [] end.

(** A thread starts a call, makes an access with any choice, or returns. The label lists what
    the step's post found. *)
Inductive step : system -> list Z -> system -> Prop :=
| step_call s ts t b c :
    ts !! t = Some (Thread b None) ->
    step (System s ts) [] (System s (<[t := Thread b (Some (c, entry c))]> ts))
| step_access s ts t b c p ch :
    ts !! t = Some (Thread b (Some (c, p))) ->
    step (System s ts) (found s p)
      (System (sem_step (is_timed c) ch s p).1 (<[t := Thread b (Some (c, (sem_step (is_timed c) ch s p).2))]> ts))
| step_return s ts t b c r :
    ts !! t = Some (Thread b (Some (c, Done r))) ->
    step (System s ts) [] (System s (<[t := Thread (b + credit c r) None]> ts)).

Definition start (pid pshared value : Z) (n : nat) : system :=
  System (default (Sem 0 0 0 0 0) (sem_init pid pshared value).2) (replicate n (Thread 0 None)).

(** The systems that runs lead to, with what the posts of the run found. *)
Inductive reachable (pid pshared value : Z) (n : nat) : list Z -> system -> Prop :=
| reach_start : reachable pid pshared value n [] (start pid pshared value n)
| reach_step olds l sys sys' :
    reachable pid pshared value n olds sys -> step sys l sys' -> reachable pid pshared value n (l ++ olds) sys'.

Definition calm : choice := Choice (Some 0) false false 0.

Example semaphore_1 :
  let s := default (Sem 0 0 0 0 0) (sem_init 7 0 1).2 in
  let '(s1, p1) := sem_run false (replicate 2 calm) s sem_trywait in
  p1 = Done Success /\ sem_value s1 = 0 /\
  (sem_run false [calm] s1 sem_trywait).2 = Done (Failure SEM_EAGAIN) /\
  (sem_run false (replicate 51 calm) s1 sem_timedwait).2 = WaitFutex /\
  (sem_run true (replicate 9 calm ++ [Choice (Some (-110)) true false 0; calm]) s1 sem_timedwait)
    = (s1, Done (Failure SEM_ETIMEDOUT)) /\
  sem_run false [calm; calm] s1 sem_post = (s, Done Success).
Proof. vm_compute. repeat split. Qed.

(* ------------------------------------------------------------------ *)
(** ** The invariant of all interleavings *)

(** What a call may return. *)
Definition sem_outcome (c : call) (r : result) : Prop :=
  match r, c with
  | Success, _ => True
  | Failure _, CallPost => False
  | Failure e, CallTrywait => e = SEM_EAGAIN
  | Failure e, CallWait timed => e = SEM_EINTR \/ e = SEM_ECANCELED \/ (e = SEM_ETIMEDOUT /\ timed = true)
  end.

(** Where a thread can be in each call. *)
Definition point_ok (c : call) (p : point) : Prop :=
  match c, p with
  | CallPost, (PostAdd | PostWake) => True
  | CallTrywait, TryLoad None => True
  | CallTrywait, TryCas None v => 0 < v <= INT_MAX
  | CallWait _, TryLoad (Some i) => 0 <= i < 7
  | CallWait _, TryCas (Some i) v => 0 <= i < 7 /\ 0 < v <= INT_MAX
  | CallWait _, (WaitEnter | WaitLoad | WaitFutex | WaitLeave None | Exited) => True
  | CallWait _, WaitCas v => 0 < v <= INT_MAX
  | CallWait _, WaitLeave (Some r) => sem_outcome c r
  | CallPost, WakeFailed wakeups => wakeups < 0
  | CallWait timed, WaitFailed rc =>
      rc <> 0 /\ rc <> - SEM_EINTR /\ rc <> - SEM_ECANCELED /\ rc <> - SEM_EAGAIN /\
      (rc = - SEM_ETIMEDOUT -> timed = false)
  | _, Done r => sem_outcome c r
  | _, _ => False
  end.

(** What a call has already added to the value, and to the number of waiters. *)
Definition pending (c : call) (p : point) : Z :=
  match p with
  | PostWake | WakeFailed _ => 1
  | WaitLeave (Some r) | Done r => credit c r
  | _ => 0
  end.

Definition waiting (p : point) : Z :=
  match p with WaitLoad | WaitFutex | WaitCas _ | WaitLeave _ | WaitFailed _ => 1 | _ => 0 end.

Lemma try_value_ok c i v :
  (c, i) = (CallTrywait, None) \/ (exists timed j, (c, i) = (CallWait timed, Some j) /\ 0 <= j < 7) ->
  0 <= v <= INT_MAX ->
  point_ok c (try_value i v) /\ pending c (try_value i v) = 0 /\ waiting (try_value i v) = 0.
Proof.
  unfold try_value, INT_MAX, INT_MIN. intros Hc Hv.
  rewrite Z.gtb_ltb, (proj2 (Z.ltb_lt _ _)), (proj2 (Z.ltb_ge v 0)) by lia. cbn [negb].
  destruct Hc as [[= -> ->]|(timed & j & [= -> ->] & Hj)]; destruct (v =? 0) eqn:E; cbn; try (by auto).
  - unfold INT_MAX. lia.
  - destruct (j + 1 <? 7) eqn:Ej; cbn; lia.
  - unfold INT_MAX. lia.
Qed.

Lemma futex_ok timed ch :
  let p := match futex_wait ch with None => WaitLeave None | Some rc => futex_result timed ch rc end in
  point_ok (CallWait timed) p /\ pending (CallWait timed) p = 0 /\ waiting p = 1.
Proof.
  unfold futex_result. change (- SEM_EINTR) with (-4). change (- SEM_ECANCELED) with (-125).
  change (- SEM_EAGAIN) with (-11). change (- SEM_ETIMEDOUT) with (-110).
  destruct (futex_wait ch) as [rc|]; [|done].
  destruct (rc =? -4) eqn:E4; [apply Z.eqb_eq in E4; subst; split; [by left|done]|].
  destruct (rc =? -125) eqn:E125; [apply Z.eqb_eq in E125; subst; split; [by right; left|done]|].
  destruct (rc =? -11) eqn:E11; [done|].
  apply Z.eqb_neq in E4, E125, E11. destruct (rc =? -110) eqn:E110.
  - apply Z.eqb_eq in E110. subst rc. destruct timed; [|by repeat split].
    destruct (expired ch); [|done]. split; [by right; right|done].
  - apply Z.eqb_neq in E110. destruct (rc =? 0) eqn:E0; [done|]. apply Z.eqb_neq in E0. cbn.
    repeat split; (done || lia).
Qed.

Lemma sem_step_ok c ch s p :
  point_ok c p -> Forall (fun old => old < SEM_VALUE_MAX) (found s p) ->
  0 <= sem_value s <= INT_MAX -> waiting p <= sem_waiters s < INT_MAX ->
  let '(s', p') := sem_step (is_timed c) ch s p in
  point_ok c p' /\ sem_value s' - sem_value s = pending c p' - pending c p /\
  sem_waiters s' - sem_waiters s = waiting p' - waiting p /\ 0 <= sem_value s' <= INT_MAX.
Proof.
  intros Hp Hpost Hv Hw. unfold SEM_VALUE_MAX, INT_MAX in *.
  assert (Hpos : (sem_value s >? INT_MIN) = true) by (unfold INT_MIN; lia).
  destruct c as [| |timed]; destruct p as [| |[i|]|[i|] v| | | |v|[r|]|r| | |w|rc]; cbn in Hp; try done;
    cbn [sem_step is_timed waiting] in *.
  - cbn [found] in Hpost. apply Forall_cons in Hpost as [Hpost _]. rewrite Hpos. replace (sem_value s >=? 0) with true by lia.
    cbn. rewrite s32_id; lia.
  - destruct (futex_wake ch >=? 0) eqn:E; cbn; lia.
  - cbn. split; [done|lia].
  - cbn. split; [done|lia].
  - destruct (try_value_ok CallTrywait None (sem_value s)) as (H1 & -> & ->); [by left|done|].
    split; [done|]. cbn. lia.
  - destruct (try_value_ok CallTrywait None (sem_value s)) as (H1 & H2 & H3); [by left|done|].
    destruct (_ && _) eqn:E; [|rewrite H2, H3; split; [done|cbn; lia]].
    ztest. cbn. rewrite s32_id; lia.
  - cbn. split; [done|lia].
  - destruct (try_value_ok (CallWait timed) (Some i) (sem_value s)) as (H1 & -> & ->); [by right; eauto|done|].
    split; [done|]. cbn. lia.
  - destruct (try_value_ok (CallWait timed) (Some i) (sem_value s)) as (H1 & H2 & H3);
      [right; exists timed, i; split; [done|lia]|done|].
    destruct (_ && _) eqn:E; [|rewrite H2, H3; split; [done|cbn; lia]].
    ztest. cbn. rewrite s32_id; lia.
  - replace (sem_waiters s >=? 0) with true by lia. cbn. rewrite s32_id; lia.
  - destruct (sem_value s =? 0) eqn:E; [cbn; lia|]. replace (sem_value s >? 0) with true by lia.
    cbn. unfold INT_MAX. lia.
  - destruct (futex_ok timed ch) as (H1 & -> & ->). split; [done|]. cbn. lia.
  - destruct (_ && _) eqn:E; [|cbn; lia]. ztest. cbn. rewrite s32_id; lia.
  - replace (sem_waiters s >? 0) with true by lia. cbn. rewrite s32_id by lia. split; [done|lia].
  - replace (sem_waiters s >? 0) with true by lia. cbn. rewrite s32_id; lia.
  - cbn. split; [done|lia].
  - cbn. lia.
  - cbn. split; [done|lia].
Qed.

(** Sums over the threads. *)
Definition total (f : thread -> Z) (ts : list thread) : Z := foldr (fun t a => f t + a) 0 ts.
#[local] Arguments total : simpl never.

Lemma total_insert f ts t x y :
  ts !! t = Some x -> total f (<[t := y]> ts) = total f ts - f x + f y.
Proof.
  unfold total. revert t. induction ts as [|z ts IH]; intros [|t] H; [done|done|cbn in H; simplify_eq; cbn; lia|].
  specialize (IH t H). change (<[S t := y]> (z :: ts)) with (z :: <[t := y]> ts). cbn [foldr]. lia.
Qed.

Lemma total_range f ts :
  Forall (fun t => 0 <= f t <= 1) ts ->
  0 <= total f ts <= Z.of_nat (length ts) /\ forall t x, ts !! t = Some x -> f x <= total f ts.
Proof.
  unfold total. induction 1 as [|z ts Hz _ IH]; [done|]. destruct IH as [IH1 IH2]. split; [cbn in *; lia|].
  intros [|t] x H; cbn in *; simplify_eq; [lia|]. apply IH2 in H. lia.
Qed.

Lemma total_ext f g ts : Forall (fun t => f t = g t) ts -> total f ts = total g ts.
Proof. unfold total. induction 1 as [|t ts Ht _ IH]; cbn; lia. Qed.

(** What a thread has added to the value and to the number of waiters so far. *)
Definition weight (t : thread) : Z :=
  balance t + match running t with Some (c, p) => pending c p | None => 0 end.

Definition waits (t : thread) : Z :=
  match running t with Some (_, p) => waiting p | None => 0 end.

Definition thread_ok (t : thread) : Prop :=
  match running t with Some (c, p) => point_ok c p | None => True end.

Definition sem_inv (value : Z) (n : nat) (sys : system) : Prop :=
  length (threads sys) = n /\ Forall thread_ok (threads sys) /\
  sem_value (semaphore sys) = value + total weight (threads sys) /\
  sem_waiters (semaphore sys) = total waits (threads sys) /\
  0 <= sem_value (semaphore sys) <= INT_MAX.

Lemma waits_range t : 0 <= waits t <= 1.
Proof. unfold waits, waiting. by repeat case_match. Qed.

Lemma sem_waiters_range value n sys :
  sem_inv value n sys -> 0 <= sem_waiters (semaphore sys) <= Z.of_nat n /\
  forall t x, threads sys !! t = Some x -> waits x <= sem_waiters (semaphore sys).
Proof.
  intros (<- & _ & _ & -> & _). apply total_range. rewrite Forall_forall. intros x _. apply waits_range.
Qed.

Lemma sem_inv_step value n l sys sys' :
  Z.of_nat n < INT_MAX -> Forall (fun old => old < SEM_VALUE_MAX) l ->
  sem_inv value n sys -> step sys l sys' -> sem_inv value n sys'.
Proof.
  intros Hn Hl Hinv Hstep. pose proof (sem_waiters_range _ _ _ Hinv) as [Hw Hwt].
  destruct Hinv as (Hlen & Hok & Hval & Hwait & Hrange).
  destruct Hstep as [s ts t b c Ht|s ts t b c p ch Ht|s ts t b c r Ht]; cbn in *;
    unfold sem_inv; cbn; rewrite length_insert, !(total_insert _ _ _ _ _ Ht), Hlen;
    set (W := total weight ts) in *; set (V := total waits ts) in *; clearbody W V.
  - split; [done|]. split; [apply Forall_insert; [done|by destruct c]|].
    unfold weight, waits. destruct c; cbn; lia.
  - pose proof (Forall_lookup_1 _ _ _ _ Hok Ht) as Hp. specialize (Hwt t _ Ht). cbn in Hp, Hwt.
    pose proof (sem_step_ok c ch s p Hp Hl Hrange ltac:(unfold waits in Hwt; cbn in Hwt; lia)) as Hs.
    destruct (sem_step (is_timed c) ch s p) as [s' p']. destruct Hs as (Hp' & Hs1 & Hs2 & Hs3). cbn.
    split; [done|]. split; [by apply Forall_insert|]. unfold weight, waits. cbn. lia.
  - split; [done|]. split; [by apply Forall_insert|]. unfold weight, waits. destruct c, r; cbn; lia.
Qed.

Lemma total_start f n x : f x = 0 -> total f (replicate n x) = 0.
Proof. intros H. unfold total. induction n as [|n IH]; cbn; lia. Qed.

Lemma sem_inv_reachable pid pshared value n olds sys :
  0 <= value <= SEM_VALUE_MAX -> Z.of_nat n < INT_MAX ->
  reachable pid pshared value n olds sys -> Forall (fun old => old < SEM_VALUE_MAX) olds ->
  sem_inv value n sys.
Proof.
  intros Hv Hn. induction 1 as [|olds l sys sys' _ IH Hstep]; intros Holds.
  2:{ apply Forall_app in Holds as [Hl Holds]. apply sem_inv_step with l sys; auto. }
  unfold sem_inv, start, sem_init. replace (value >? SEM_VALUE_MAX) with false by lia. cbn.
  rewrite length_replicate, !total_start by done. split; [done|].
  split; [apply Forall_replicate; done|]. unfold SEM_VALUE_MAX in Hv. lia.
Qed.

(** C31: whatever the interleaving of the accesses of the threads that post to and wait on a
    semaphore, and whatever the kernel and the machine decide, as long as no post found the greatest
    value SEM_VALUE_MAX: the value is never negative and is the initial one plus the calls of
    [sem_post] that returned 0 less the waits that returned 0, where a call that is still running
    counts from the access by which it changed the value; so between calls no unit was lost or taken
    twice. [sem_waiters] is the number of threads inside of the slow path of [sem_timedwait]. No
    [unassert] fails, and an [npassert] only if the futex interface returned what the code does not
    expect: a negative number of wakeups, or from the wait something other than 0, EINTR, ECANCELED,
    EAGAIN or, with a deadline, ETIMEDOUT. [sem_post] always succeeds, [sem_trywait] fails with
    EAGAIN only, and [sem_timedwait] with EINTR, ECANCELED or, if it has a deadline, ETIMEDOUT. *)
Theorem semaphore_counts (pid pshared value : Z) (n : nat) (olds : list Z) (sys : system) :
  0 <= value <= SEM_VALUE_MAX -> Z.of_nat n < INT_MAX -> reachable pid pshared value n olds sys ->
  Forall (fun old => old < SEM_VALUE_MAX) olds ->
  0 <= sem_getvalue (semaphore sys) <= SEM_VALUE_MAX /\
  sem_getvalue (semaphore sys) = value + total weight (threads sys) /\
  (Forall (fun t => running t = None) (threads sys) ->
     sem_getvalue (semaphore sys) = value + total balance (threads sys)) /\
  sem_waiters (semaphore sys) = total waits (threads sys) /\
  forall t b c p, threads sys !! t = Some (Thread b (Some (c, p))) ->
    match p with
    | Crashed => False
    | WakeFailed wakeups => wakeups < 0
    | WaitFailed rc =>
        ~ In rc [0; - SEM_EINTR; - SEM_ECANCELED; - SEM_EAGAIN] /\
        (rc = - SEM_ETIMEDOUT -> is_timed c = false)
    | Done r => sem_outcome c r
    | _ => True
    end.
Proof.
  intros Hv Hn Hr Holds.
  destruct (sem_inv_reachable _ _ _ _ _ _ Hv Hn Hr Holds) as (_ & Hok & Hval & Hw & Hrange).
  unfold sem_getvalue. split; [done|]. split; [done|]. split; [|split; [done|]].
  - intros Hidle. rewrite Hval. f_equal. apply total_ext. apply (Forall_impl _ _ _ Hidle).
    intros t Ht. unfold weight. rewrite Ht. lia.
  - intros t b c p Ht. pose proof (Forall_lookup_1 _ _ _ _ Hok Ht) as Hp. cbn in Hp.
    destruct p; try done; destruct c; try done. cbn [In]. cbn in Hp. split; [|apply Hp]. lia.
Qed.

(** Two threads on a semaphore of value 1: one has taken the unit and the other one posts, finding
    the value 0. *)
Lemma semaphore_counts_witness :
  exists sys, reachable 7 0 1 2 [0] sys /\ sem_getvalue (semaphore sys) = 1 /\
    sem_getvalue (semaphore sys) = 1 + total balance (threads sys).
Proof.
  assert (exists sys, reachable 7 0 1 2 [0] sys /\ threads sys = [Thread 1 None; Thread (-1) None] /\
            sem_getvalue (semaphore sys) = 1) as (sys & Hr & Ht & Hg).
  { pose proof (reach_start 7 0 1 2) as H. unfold start in H. cbn in H.
    eapply reach_step in H; [|apply (step_call _ _ 1 0 CallTrywait); reflexivity]. cbn in H.
    do 2 (eapply reach_step in H; [|eapply (step_access _ _ 1 0 CallTrywait _ calm); reflexivity]; cbn in H).
    eapply reach_step in H; [|apply (step_return _ _ 1 0 CallTrywait Success); reflexivity]. cbn in H.
    eapply reach_step in H; [|apply (step_call _ _ 0 0 CallPost); reflexivity]. cbn in H.
    do 2 (eapply reach_step in H; [|eapply (step_access _ _ 0 0 CallPost _ calm); reflexivity]; cbn in H).
    eapply reach_step in H; [|apply (step_return _ _ 0 0 CallPost Success); reflexivity]. by eexists. }
  exists sys. split; [exact Hr|]. split; [exact Hg|].
  apply (semaphore_counts 7 0 1 2 [0] sys); [done|done|exact Hr|by repeat constructor|].
  rewrite Ht. by repeat constructor.
Defined.

(* ------------------------------------------------------------------ *)
(** ** Calls that are not interrupted *)

(** A unit is taken at once, in two accesses; and without one [sem_trywait] fails at once and
    [sem_timedwait] arrives at the futex after its 7 attempts. *)
Lemma semaphore_alone s timed :
  (0 < sem_value s <= INT_MAX ->
     sem_run timed [calm; calm] s sem_trywait = (set_value s (sem_value s - 1), Done Success) /\
     sem_run timed [calm; calm] s sem_timedwait = (set_value s (sem_value s - 1), Done Success)) /\
  (sem_value s = 0 -> 0 <= sem_waiters s < INT_MAX ->
     sem_run timed [calm] s sem_trywait = (s, Done (Failure SEM_EAGAIN)) /\
     sem_run timed (replicate 9 calm) s sem_timedwait = (set_waiters s (sem_waiters s + 1), WaitFutex)).
Proof.
  unfold sem_trywait, sem_timedwait, INT_MAX. split.
  - intros Hv. cbn [sem_run sem_step]. unfold try_value, INT_MIN.
    rewrite !Z.gtb_ltb, (proj2 (Z.ltb_lt (- 2 ^ 31) _)), (proj2 (Z.ltb_ge (sem_value s) 0)), (proj2 (Z.eqb_neq _ 0)) by lia.
    cbn [negb sem_step]. rewrite Z.eqb_refl. cbn. rewrite s32_id by lia. done.
  - destruct s as [v w mg pd ps]. cbn [sem_value sem_waiters]. intros -> Hw. split; [done|].
    transitivity (sem_run timed [calm; calm] (Sem 0 w mg pd ps) WaitEnter); [reflexivity|].
    cbn -[s32 Z.geb]. replace (w >=? 0) with true by lia. cbn -[s32]. rewrite s32_id by lia. done.
Qed.

(** The greatest value plus one is [INT_MIN], and the post reports success; the next call then
    fails an assertion. *)
Theorem sem_post_overflow s :
  sem_value s = INT_MAX ->
  sem_run false [calm; calm] s sem_post = (set_value s INT_MIN, Done Success) /\
  (sem_run false [calm] (set_value s INT_MIN) sem_trywait).2 = Crashed.
Proof. destruct s as [v w mg pd ps]. cbn. intros ->. split; reflexivity. Qed.
