(* ===== verification/Base64.v ===== *)
(** Base64: net/http/encodebase64.c and net/http/decodebase64.c. *)

From S2P Require Import Prelude.

Module Base64.

(* ------------------------------------------------------------------ *)
(** ** Encoder *)

Definition CHARS : bytes :=
  (bstr "ABCDEFGHIJKLMNOPQRSTUVWXYZabcdefghijklmnopqrstuvwxyz0123456789+/").

(** One iteration of the encoder's loop: [a] is [p[0]]; [b] and [c] are [p[1]] and
    [p[2]] where [p + 1 < pe] and [p + 2 < pe]. *)
Definition encode_group (a : Z) (b c : option Z) : bytes :=
  let w := Z.shiftl a 16 in
  let w := match b with Some b => Z.lor w (Z.shiftl b 8) | None => w end in
  let w := match c with Some c => Z.lor w (Z.shiftl c 0) | None => w end in
  [ tab CHARS (Z.land (Z.shiftr w 18) 63);
    tab CHARS (Z.land (Z.shiftr w 12) 63);
    match b with Some _ => tab CHARS (Z.land (Z.shiftr w 6) 63) | None => # "=" end;
    match c with Some _ => tab CHARS (Z.land w 63) | None => # "=" end ].

(** The loop [for (...; p < pe; p += 3)]. *)
Fixpoint encode_loop (p : bytes) : bytes :=
  match p with
  | [] => []
  | [a] => encode_group a None None
  | [a; b] => encode_group a (Some b) None
  | a :: b :: c :: p' => encode_group a (Some b) (Some c) ++ encode_loop p'
  end.

(** [n]: the length of the output without its NUL; [n + 1] bytes are allocated. *)
Definition encoded_size (size : Z) : Z :=
  let n := if negb (size mod 3 =? 0) then u64 (size + (3 - size mod 3)) else size in
  u64 (n / 3 * 4).

Definition EncodeBase64 (malloc : Z -> bool) (data : option bytes) (size : Z)
  : result (bytes * Z) :=
  let s := strarg data size in
  if malloc (u64 (encoded_size (Z.of_nat (length s)) + 1))
  then Ok (encode_loop s ++ [0], encoded_size (Z.of_nat (length s)))
  else Err ENOMEM.

(* ------------------------------------------------------------------ *)
(** ** Decoder *)

Definition kBase64 : list Z := [
    -1; -1; -1; -1; -1; -1; -1; -1; -1; -1; -1; -1; -1; -1; -1; -1;
    -1; -1; -1; -1; -1; -1; -1; -1; -1; -1; -1; -1; -1; -1; -1; -1;
    -1; -1; -1; -1; -1; -1; -1; -1; -1; -1; -1; 62; -1; 62; -1; 63;
    52; 53; 54; 55; 56; 57; 58; 59; 60; 61; -1; -1; -1; -2; -1; -1;
    -1; 0;  1;  2;  3;  4;  5;  6;  7;  8;  9;  10; 11; 12; 13; 14;
    15; 16; 17; 18; 19; 20; 21; 22; 23; 24; 25; -1; -1; -1; -1; 63;
    -1; 26; 27; 28; 29; 30; 31; 32; 33; 34; 35; 36; 37; 38; 39; 40;
    41; 42; 43; 44; 45; 46; 47; 48; 49; 50; 51; -1; -1; -1; -1; -1;
    -1; -1; -1; -1; -1; -1; -1; -1; -1; -1; -1; -1; -1; -1; -1; -1;
    -1; -1; -1; -1; -1; -1; -1; -1; -1; -1; -1; -1; -1; -1; -1; -1;
    -1; -1; -1; -1; -1; -1; -1; -1; -1; -1; -1; -1; -1; -1; -1; -1;
    -1; -1; -1; -1; -1; -1; -1; -1; -1; -1; -1; -1; -1; -1; -1; -1;
    -1; -1; -1; -1; -1; -1; -1; -1; -1; -1; -1; -1; -1; -1; -1; -1;
    -1; -1; -1; -1; -1; -1; -1; -1; -1; -1; -1; -1; -1; -1; -1; -1;
    -1; -1; -1; -1; -1; -1; -1; -1; -1; -1; -1; -1; -1; -1; -1; -1;
    -1; -1; -1; -1; -1; -1; -1; -1; -1; -1; -1; -1; -1; -1; -1; -1 ].

(** [do { if (p == pe) goto Done; a = kBase64[*p++ & 0xff]; } while (a == -1);]
    [None] is the jump to [Done]. *)
Fixpoint next_digit (p : bytes) : option (Z * bytes) :=
  match p with
  | [] => None
  | x :: p' =>
      let a := tab kBase64 (Z.land x 255) in
      if a =? -1 then next_digit p' else Some (a, p')
  end.

(** [do { c = p < pe ? kBase64[*p++ & 0xff] : -2; } while (c == -1);] *)
Definition next_digit_or_pad (p : bytes) : Z * bytes :=
  match next_digit p with Some cp => cp | None => (-2, []) end.

(** The bytes that one quantum of digits [a b c d] emits. *)
Definition decode_group (a b c d : Z) : bytes :=
  let w := Z.lor (Z.shiftl a 18) (Z.shiftl b 12) in
  let w := if negb (c =? -2) then Z.lor w (Z.shiftl c 6) else w in
  let w := if negb (d =? -2) then Z.lor w d else w in
  [Z.shiftr (Z.land w 0xFF0000) 16]
    ++ (if negb (c =? -2) then [Z.shiftr (Z.land w 0x00FF00) 8] else [])
    ++ (if negb (d =? -2) then [Z.shiftr (Z.land w 0x0000FF) 0] else []).

(** The loop [for (;;)]; [None] means the fuel ran out. *)
Fixpoint decode_loop (fuel : nat) (p : bytes) : option bytes :=
  match fuel with
  | O => None
  | S fuel =>
      match next_digit p with
      | None => Some []
      | Some (a, p) =>
          if a =? -2 then decode_loop fuel p else
          match next_digit p with
          | None => Some []
          | Some (b, p) =>
              if b =? -2 then decode_loop fuel p else
              let '(c, p) := next_digit_or_pad p in
              let '(d, p) := next_digit_or_pad p in
              out ← decode_loop fuel p;
              Some (decode_group a b c d ++ out)
          end
      end
  end.

(** [ROUNDUP(size, 4) / 4 * 3 + 1], the allocation of the decoder. *)
Definition decoded_capacity (size : Z) : Z :=
  u64 (u64 (Z.land (size + 3) (-4)) / 4 * 3 + 1).

(** The outer [option] is the fuel's; one iteration consumes a byte or ends. *)
Definition DecodeBase64 (malloc : Z -> bool) (data : option bytes) (size : Z)
  : option (result (bytes * Z)) :=
  let s := strarg data size in
  if malloc (decoded_capacity (Z.of_nat (length s)))
  then out ← decode_loop (S (length s)) s; Some (Ok (cbuf out))
  else Some (Err ENOMEM).

(* ------------------------------------------------------------------ *)
(** ** Lemmas *)

Lemma kBase64_CHARS i :
  0 <= i < 64 -> tab kBase64 (Z.land (tab CHARS i) 255) = i.
Proof.
  intros. apply Z.eqb_eq.
  apply (forall_below 64 (fun i => tab kBase64 (Z.land (tab CHARS i) 255) =? i));
    [vm_compute; reflexivity | lia].
Qed.

Lemma kBase64_range c : is_byte c -> -2 <= tab kBase64 c < 64.
Proof.
  intros H.
  enough (((-2 <=? tab kBase64 c) && (tab kBase64 c <? 64)) = true) by lia.
  apply (forall_byte (fun c => (-2 <=? tab kBase64 c) && (tab kBase64 c <? 64)));
    [vm_compute; reflexivity | done].
Qed.

Lemma next_digit_CHARS i p : 0 <= i < 64 -> next_digit (tab CHARS i :: p) = Some (i, p).
Proof.
  intros. cbn [next_digit]. rewrite kBase64_CHARS by done.
  by rewrite (proj2 (Z.eqb_neq i (-1))) by lia.
Qed.

Lemma next_digit_pad p : next_digit (# "=" :: p) = Some (-2, p).
Proof. reflexivity. Qed.

Lemma word3 a b c :
  is_byte b -> is_byte c ->
  Z.lor (Z.lor (Z.shiftl a 16) (Z.shiftl b 8)) (Z.shiftl c 0) = a * 65536 + b * 256 + c.
Proof.
  unfold is_byte. intros. rewrite Z.shiftl_0_r.
  rewrite <- Z.lor_assoc, (lor_shiftl_add b c 8) by lia.
  rewrite lor_shiftl_add by lia. lia.
Qed.

Lemma word4 a b c d :
  0 <= b < 64 -> 0 <= c < 64 -> 0 <= d < 64 ->
  Z.lor (Z.lor (Z.lor (Z.shiftl a 18) (Z.shiftl b 12)) (Z.shiftl c 6)) d
  = a * 262144 + b * 4096 + c * 64 + d.
Proof.
  intros. rewrite <- !Z.lor_assoc, (lor_shiftl_add c d 6) by lia.
  rewrite (lor_shiftl_add b _ 12) by lia. rewrite lor_shiftl_add by lia. lia.
Qed.

(** The four digits of a quantum, as arithmetic on its bytes. *)
Lemma encode_group_3 a b c :
  is_byte a -> is_byte b -> is_byte c ->
  encode_group a (Some b) (Some c) =
  map (tab CHARS) [a / 4; a mod 4 * 16 + b / 16; b mod 16 * 4 + c / 64; c mod 64].
Proof.
  intros Ha Hb Hc. unfold encode_group. rewrite word3 by done.
  unfold is_byte in *. rewrite !Z.shiftr_div_pow2, !land_63 by lia. cbn [map].
  cons_eq; Z.div_mod_to_equations; lia.
Qed.

Lemma encode_group_2 a b :
  is_byte a -> is_byte b ->
  encode_group a (Some b) None =
  map (tab CHARS) [a / 4; a mod 4 * 16 + b / 16; b mod 16 * 4] ++ [# "="].
Proof.
  intros Ha Hb. pose proof (word3 a b 0 Hb) as E. rewrite Z.shiftl_0_l, Z.lor_0_r in E.
  unfold encode_group. rewrite E by (unfold is_byte; lia).
  unfold is_byte in *. rewrite !Z.shiftr_div_pow2, !land_63 by lia. cbn [map app].
  cons_eq; Z.div_mod_to_equations; lia.
Qed.

Lemma encode_group_1 a :
  is_byte a ->
  encode_group a None None =
  map (tab CHARS) [a / 4; a mod 4 * 16] ++ [# "="; # "="].
Proof.
  intros Ha. pose proof (word3 a 0 0) as E. rewrite !Z.shiftl_0_l, !Z.lor_0_r in E.
  unfold encode_group. rewrite E by (unfold is_byte; lia).
  unfold is_byte in *. rewrite !Z.shiftr_div_pow2, !land_63 by lia. cbn [map app].
  cons_eq; Z.div_mod_to_equations; lia.
Qed.

(** The bytes of a quantum, as arithmetic on its digits; [c] and [d] are pads when
    [-2]. *)
Lemma decode_group_spec a b c d :
  0 <= a < 64 -> 0 <= b < 64 -> -2 <= c < 64 -> c <> -1 -> -2 <= d < 64 -> d <> -1 ->
  decode_group a b c d =
  let c' := Z.max c 0 in let d' := Z.max d 0 in
  [a * 4 + b / 16]
    ++ (if c =? -2 then [] else [b mod 16 * 16 + c' / 4])
    ++ (if d =? -2 then [] else [c' mod 4 * 64 + d']).
Proof.
  intros Ha Hb Hc Hc1 Hd Hd1. cbv zeta. unfold decode_group.
  assert (Z.lor (Z.shiftl a 18) (Z.shiftl b 12) = a * 262144 + b * 4096) as E0.
  { pose proof (word4 a b 0 0) as E. rewrite Z.shiftl_0_l, !Z.lor_0_r in E.
    rewrite E by lia. lia. }
  assert ((if negb (c =? -2) then Z.lor (Z.lor (Z.shiftl a 18) (Z.shiftl b 12)) (Z.shiftl c 6)
           else Z.lor (Z.shiftl a 18) (Z.shiftl b 12))
          = a * 262144 + b * 4096 + Z.max c 0 * 64) as E1.
  { destruct (Z.eqb_spec c (-2)); cbn [negb]; [lia|].
    pose proof (word4 a b c 0) as E. rewrite Z.lor_0_r in E. rewrite E by lia. lia. }
  set (w1 := if negb (c =? -2) then _ else _) in *. rewrite E1. clear E0.
  assert ((if negb (d =? -2) then Z.lor (a * 262144 + b * 4096 + Z.max c 0 * 64) d
           else a * 262144 + b * 4096 + Z.max c 0 * 64)
          = a * 262144 + b * 4096 + Z.max c 0 * 64 + Z.max d 0) as ->.
  { destruct (Z.eqb_spec d (-2)); cbn [negb]; [lia|].
    rewrite <- (word4 a b (Z.max c 0) (Z.max d 0)) by lia.
    pose proof (word4 a b (Z.max c 0) 0) as E. rewrite Z.lor_0_r in E.
    replace (a * 262144 + b * 4096 + Z.max c 0 * 64)
      with (a * 262144 + b * 4096 + Z.max c 0 * 64 + 0) by lia.
    rewrite <- E by lia. f_equal. lia. }
  change 0xFF0000 with (Z.shiftl 255 16). change 0x00FF00 with (Z.shiftl 255 8).
  change 0x0000FF with (Z.shiftl 255 0).
  rewrite !shiftr_land_field, !land_255, !Z.shiftr_div_pow2 by lia.
  destruct (Z.eqb_spec c (-2)), (Z.eqb_spec d (-2)); cbn [negb app];
    cons_eq; Z.div_mod_to_equations; lia.
Qed.

(** *** The encoder's output decodes to its input *)

Lemma decode_encode s : forall fuel,
  Bytes s -> (length s < fuel)%nat -> decode_loop fuel (encode_loop s) = Some s.
Proof.
  induction s as [|a|a b|a b c s IH] using list_ind3; intros [|fuel] Hs Hf;
    cbn [length] in Hf; try lia; rewrite ?Forall_cons in Hs; destruct_and? Hs;
    cbn [encode_loop decode_loop].
  - done.
  - rewrite encode_group_1 by done. unfold is_byte in *. cbn [map app].
    unfold next_digit_or_pad.
    rewrite !next_digit_CHARS, !next_digit_pad by (Z.div_mod_to_equations; lia).
    rewrite !(proj2 (Z.eqb_neq _ (-2))) by (Z.div_mod_to_equations; lia).
    destruct fuel; [lia|]. cbn [decode_loop next_digit mbind option_bind].
    rewrite decode_group_spec by (Z.div_mod_to_equations; lia).
    cbn [Z.eqb app]. f_equal. cons_eq. Z.div_mod_to_equations; lia.
  - rewrite encode_group_2 by done. unfold is_byte in *. cbn [map app].
    unfold next_digit_or_pad.
    rewrite !next_digit_CHARS, !next_digit_pad by (Z.div_mod_to_equations; lia).
    rewrite !(proj2 (Z.eqb_neq _ (-2))) by (Z.div_mod_to_equations; lia).
    destruct fuel; [lia|]. cbn [decode_loop next_digit mbind option_bind].
    rewrite decode_group_spec by (Z.div_mod_to_equations; lia).
    rewrite (proj2 (Z.eqb_neq _ (-2))) by (Z.div_mod_to_equations; lia).
    cbn [Z.eqb app]. f_equal. cons_eq; Z.div_mod_to_equations; lia.
  - rewrite encode_group_3 by done. unfold is_byte in *. cbn [map app].
    unfold next_digit_or_pad.
    rewrite !next_digit_CHARS by (Z.div_mod_to_equations; lia).
    rewrite !(proj2 (Z.eqb_neq _ (-2))) by (Z.div_mod_to_equations; lia).
    rewrite IH by (done || lia). cbn [mbind option_bind].
    rewrite decode_group_spec by (Z.div_mod_to_equations; lia).
    rewrite !(proj2 (Z.eqb_neq _ (-2))) by (Z.div_mod_to_equations; lia).
    cbn [app]. f_equal. cons_eq; Z.div_mod_to_equations; lia.
Qed.

(** *** The decoder terminates within its allocation *)

Lemma next_digit_spec p a p' :
  next_digit p = Some (a, p') ->
  (length p' < length p)%nat /\ -2 <= a < 64 /\ a <> -1.
Proof.
  induction p as [|x p IH]; cbn [next_digit]; [done|].
  pose proof (kBase64_range (Z.land x 255)) as R.
  rewrite land_255 in *. specialize (R (u8_byte x)).
  destruct (Z.eqb_spec (tab kBase64 (x mod 256)) (-1)); intros H.
  - apply IH in H as (? & ? & ?). cbn [length]. lia.
  - simplify_eq. cbn [length]. lia.
Qed.

Lemma next_digit_or_pad_spec p c p' :
  next_digit_or_pad p = (c, p') ->
  -2 <= c < 64 /\ c <> -1 /\ ((length p' < length p)%nat \/ (c = -2 /\ p' = [])).
Proof.
  unfold next_digit_or_pad. destruct (next_digit p) as [[c0 p0]|] eqn:E; intros H; simplify_eq.
  - apply next_digit_spec in E. lia.
  - repeat split; try lia. by right.
Qed.

Lemma decode_group_bytes a b c d :
  0 <= a < 64 -> 0 <= b < 64 -> -2 <= c < 64 -> c <> -1 -> -2 <= d < 64 -> d <> -1 ->
  Bytes (decode_group a b c d).
Proof.
  intros. rewrite decode_group_spec by done. cbv zeta.
  unfold is_byte. destruct (c =? -2), (d =? -2); cbn [app];
    repeat constructor; Z.div_mod_to_equations; lia.
Qed.

Lemma decode_loop_total fuel : forall p,
  (length p < fuel)%nat ->
  exists out, decode_loop fuel p = Some out /\ Bytes out /\
              Z.of_nat (length out) <= (Z.of_nat (length p) + 3) / 4 * 3.
Proof.
  induction fuel as [|fuel IH]; intros p Hf; [lia|]. cbn [decode_loop].
  assert (exists out : bytes, Some [] = Some out /\ Bytes out /\
     Z.of_nat (length out) <= (Z.of_nat (length p) + 3) / 4 * 3) as Done.
  { exists []. repeat split; [constructor|]. cbn [length]. Z.div_mod_to_equations; lia. }
  destruct (next_digit p) as [[a p1]|] eqn:E1; [|exact Done].
  apply next_digit_spec in E1 as (L1 & Ra & Ha).
  destruct (Z.eqb_spec a (-2)).
  { destruct (IH p1) as (out & -> & Hb & L); [lia|]. exists out. repeat split; [done|].
    Z.div_mod_to_equations; lia. }
  destruct (next_digit p1) as [[b p2]|] eqn:E2; [|exact Done].
  apply next_digit_spec in E2 as (L2 & Rb & Hb).
  destruct (Z.eqb_spec b (-2)).
  { destruct (IH p2) as (out & -> & Hbo & L); [lia|]. exists out. repeat split; [done|].
    Z.div_mod_to_equations; lia. }
  destruct (next_digit_or_pad p2) as [c p3] eqn:E3.
  apply next_digit_or_pad_spec in E3 as (Rc & Hc & L3).
  destruct (next_digit_or_pad p3) as [d p4] eqn:E4.
  apply next_digit_or_pad_spec in E4 as (Rd & Hd & L4).
  assert (length p4 <= length p2)%nat as L24.
  { destruct L3 as [?|[_ ->]], L4 as [?|[_ ->]]; cbn [length] in *; lia. }
  destruct (IH p4) as (out & -> & Hbo & L); [lia|]. cbn [mbind option_bind].
  exists (decode_group a b c d ++ out). split; [done|]. split.
  { apply Forall_app. split; [apply decode_group_bytes; lia|done]. }
  rewrite length_app, decode_group_spec by lia. cbv zeta.
  destruct L3 as [L3|[L3 ->]], L4 as [L4|[L4 ->]]; cbn [length] in *; try lia;
    destruct (Z.eqb_spec c (-2)), (Z.eqb_spec d (-2)); cbn [app length] in *;
    try lia; Z.div_mod_to_equations; lia.
Qed.

(** *** Characters outside the alphabet are skipped *)

Definition significant (x : Z) : bool := negb (tab kBase64 (Z.land x 255) =? -1).

Lemma next_digit_filter p :
  next_digit (List.filter significant p) =
  match next_digit p with
  | Some (a, p') => Some (a, List.filter significant p')
  | None => None
  end.
Proof.
  induction p as [|x p IH]; [done|]. cbn [List.filter next_digit].
  unfold significant at 1. destruct (_ =? -1) eqn:E; cbn [negb next_digit]; [done|].
  by rewrite E.
Qed.

Lemma next_digit_or_pad_filter p :
  next_digit_or_pad (List.filter significant p) =
  ((next_digit_or_pad p).1, List.filter significant (next_digit_or_pad p).2).
Proof.
  unfold next_digit_or_pad. rewrite next_digit_filter.
  by destruct (next_digit p) as [[]|].
Qed.

Lemma decode_loop_filter fuel : forall p,
  decode_loop fuel (List.filter significant p) = decode_loop fuel p.
Proof.
  induction fuel as [|fuel IH]; intros p; [done|]. cbn [decode_loop].
  rewrite next_digit_filter. destruct (next_digit p) as [[a p1]|]; [|done].
  destruct (a =? -2); [apply IH|].
  rewrite next_digit_filter. destruct (next_digit p1) as [[b p2]|]; [|done].
  destruct (b =? -2); [apply IH|].
  rewrite next_digit_or_pad_filter.
  destruct (next_digit_or_pad p2) as [c p3]; cbn [fst snd].
  rewrite next_digit_or_pad_filter.
  destruct (next_digit_or_pad p3) as [d p4]; cbn [fst snd]. by rewrite IH.
Qed.

(** More fuel than bytes changes nothing. *)
Lemma decode_loop_mono fuel : forall p out fuel',
  decode_loop fuel p = Some out -> (fuel <= fuel')%nat -> decode_loop fuel' p = Some out.
Proof.
  induction fuel as [|fuel IH]; intros p out [|fuel'] H L; try done; [lia|].
  cbn [decode_loop] in *. destruct (next_digit p) as [[a p1]|]; [|done].
  destruct (a =? -2); [apply IH; [done|lia]|].
  destruct (next_digit p1) as [[b p2]|]; [|done].
  destruct (b =? -2); [apply IH; [done|lia]|].
  destruct (next_digit_or_pad p2) as [c p3], (next_digit_or_pad p3) as [d p4].
  destruct (decode_loop fuel p4) as [o|] eqn:E; [|done].
  by rewrite (IH _ _ fuel' E) by lia.
Qed.

Lemma encode_loop_length s :
  Z.of_nat (length (encode_loop s)) = (Z.of_nat (length s) + 2) / 3 * 4.
Proof.
  induction s as [|a|a b|a b c s IH] using list_ind3; try reflexivity.
  cbn [encode_loop]. rewrite length_app, Nat2Z.inj_add, IH.
  change (length (encode_group _ _ _)) with 4%nat. cbn [length].
  Z.div_mod_to_equations; lia.
Qed.

Lemma encoded_size_eq n :
  0 <= n < 3 * 2 ^ 62 - 2 -> encoded_size n = (n + 2) / 3 * 4.
Proof.
  intros. unfold encoded_size, u64.
  destruct (Z.eqb_spec (n mod 3) 0); cbn [negb];
    rewrite !Z.mod_small by (Z.div_mod_to_equations; lia); Z.div_mod_to_equations; lia.
Qed.

Lemma decoded_capacity_eq n :
  0 <= n < 2 ^ 62 -> decoded_capacity n = (n + 3) / 4 * 3 + 1.
Proof.
  intros. unfold decoded_capacity, u64.
  assert (Z.land (n + 3) (-4) = (n + 3) / 4 * 4) as ->.
  { change (-4) with (Z.lnot (Z.ones 2)). rewrite <- Z.ldiff_land, Z.ldiff_ones_r by lia.
    rewrite Z.shiftr_div_pow2, Z.shiftl_mul_pow2 by lia. done. }
  rewrite !Z.mod_small by (Z.div_mod_to_equations; lia). Z.div_mod_to_equations; lia.
Qed.

(* ------------------------------------------------------------------ *)
(** ** Properties *)

(** C38: decoding what [EncodeBase64] returned, with the length it reported, gives back
    exactly the bytes that were encoded, for every byte string whose text fits in memory. *)
Theorem DecodeBase64_EncodeBase64 malloc data size buf n :
  Bytes (strarg data size) ->
  EncodeBase64 malloc data size = Ok (buf, n) ->
  Z.of_nat (length (strarg data size)) < 3 * 2 ^ 62 - 2 ->
  malloc (decoded_capacity n) = true ->
  DecodeBase64 malloc (Some buf) n = Some (Ok (cbuf (strarg data size))).
Proof.
  unfold EncodeBase64, DecodeBase64. intros Hs He Hn Hm.
  set (s := strarg data size) in *. destruct (malloc _) in He; [|done].
  assert (cbuf (encode_loop s) = (buf, n)) as E.
  { unfold cbuf. rewrite encode_loop_length, <- encoded_size_eq by lia. congruence. }
  replace buf with (cbuf (encode_loop s)).1 by (rewrite E; done).
  replace n with (cbuf (encode_loop s)).2 in Hm |- * by (rewrite E; done).
  rewrite strarg_cbuf by (cbn [cbuf snd]; rewrite encode_loop_length; unfold SIZE_MAX; Z.div_mod_to_equations; lia). cbn [cbuf snd] in Hm. rewrite Hm.
  assert (length s <= length (encode_loop s))%nat.
  { apply Nat2Z.inj_le. rewrite encode_loop_length. Z.div_mod_to_equations; lia. }
  by rewrite decode_encode by (done || lia).
Qed.

Lemma DecodeBase64_EncodeBase64_witness :
  DecodeBase64 (fun _ => true) (Some ((bstr "aGkA/w==") ++ [0])) 8 = Some (Ok ([104; 105; 0; 255; 0], 4)).
Proof.
  apply (DecodeBase64_EncodeBase64 (fun _ => true) (Some [104; 105; 0; 255; 1]) 4).
  - decide_now.
  - reflexivity.
  - reflexivity.
  - reflexivity.
Defined.

(** both directions stay inside the buffers they allocate. The encoder fills its
    [n + 1] bytes exactly; the decoder always ends, and writes bytes only, at most as
    many as it allocated; each fails only when its allocation does. *)
Theorem Base64_buffers malloc data size :
  Z.of_nat (length (strarg data size)) < 2 ^ 62 ->
  let n := Z.of_nat (length (strarg data size)) in
  match EncodeBase64 malloc data size with
  | Ok (buf, z) => Z.of_nat (length buf) = encoded_size n + 1 /\ z = encoded_size n
  | Err e => e = ENOMEM /\ malloc (u64 (encoded_size n + 1)) = false
  end /\
  match DecodeBase64 malloc data size with
  | Some (Ok (buf, z)) =>
      Z.of_nat (length buf) = z + 1 /\ z + 1 <= decoded_capacity n /\ Bytes buf
  | Some (Err e) => e = ENOMEM /\ malloc (decoded_capacity n) = false
  | None => False
  end.
Proof.
  intros Hn. cbv zeta. unfold EncodeBase64, DecodeBase64. set (s := strarg data size) in *.
  split.
  - destruct (malloc _) eqn:E; [|done].
    rewrite length_app, Nat2Z.inj_add, encode_loop_length, encoded_size_eq by lia.
    done.
  - destruct (malloc _) eqn:E; [|done].
    destruct (decode_loop_total (S (length s)) s) as (out & -> & Hb & L); [lia|].
    cbn [mbind option_bind]. unfold cbuf. rewrite length_app, Nat2Z.inj_add.
    rewrite decoded_capacity_eq by lia. cbn [length]. repeat split; try lia.
    apply Forall_app. split; [done|]. repeat constructor; unfold is_byte; lia.
Qed.

Lemma Base64_buffers_witness :
  match EncodeBase64 (fun _ => true) (Some [102; 111]) 2 with
  | Ok (buf, z) => Z.of_nat (length buf) = encoded_size 2 + 1 /\ z = encoded_size 2
  | Err _ => False
  end.
Proof.
  destruct (Base64_buffers (fun _ => true) (Some [102; 111]) 2) as [H _]; [reflexivity|].
  exact H.
Defined.

(** Characters outside both alphabets, such as line breaks, never matter: the decoder
    returns the same bytes as for the text with all of them removed. *)
Theorem DecodeBase64_ignores_junk s out :
  Z.of_nat (length s) < SIZE_MAX ->
  DecodeBase64 (fun _ => true) (Some s) (Z.of_nat (length s)) = Some (Ok out) ->
  let t := List.filter significant s in
  DecodeBase64 (fun _ => true) (Some t) (Z.of_nat (length t)) = Some (Ok out).
Proof.
  intros Hs. cbv zeta. unfold DecodeBase64. set (t := List.filter significant s).
  assert (length t <= length s)%nat as L.
  { subst t. clear Hs. induction s as [|x s IH]; [done|]. cbn [List.filter length].
    destruct (significant x); cbn [length]; lia. }
  rewrite !strarg_len, !Nat2Z.id, !firstn_all by lia. cbn [mbind option_bind].
  destruct (decode_loop_total (S (length t)) t) as (o & E & _); [lia|]. rewrite E.
  pose proof (decode_loop_mono _ _ _ (S (length s)) E) as E'.
  subst t. rewrite decode_loop_filter in E'. by rewrite E' by lia.
Qed.

Lemma DecodeBase64_ignores_junk_witness :
  DecodeBase64 (fun _ => true) (Some (bstr "aGk=")) 4 = Some (Ok ([104; 105; 0], 2)).
Proof.
  apply (DecodeBase64_ignores_junk ([97; 71; 10] ++ [13; 107; 32; 61]) ([104; 105; 0], 2));
    reflexivity.
Defined.

End Base64.
