(* ===== verification/Base32.v ===== *)
(** Base32, and the other encodings with an alphabet of a power of two of characters:
    net/http/base32.c. *)

From S2P Require Import Prelude.

Module Base32.

(* ------------------------------------------------------------------ *)
(** ** Definitions *)

(** [const char base32def[]], with its NUL. *)
Definition base32def : bytes := (bstr "0123456789abcdefghjkmnpqrstvwxyz") ++ [0].

(** [while (b && (b >>= 1)) bits++;] *)
Fixpoint tobits_loop (fuel : nat) (b bits : Z) : option Z :=
  match fuel with
  | O => None
  | S fuel =>
      if b =? 0 then Some bits
      else let b := Z.shiftr b 1 in if b =? 0 then Some bits else tobits_loop fuel b (bits + 1)
  end.

(** An [int] that is not negative has 31 bits. *)
Definition tobits (b : Z) : option Z := tobits_loop 32 b 0.

(** [if (al == 0) { a = base32def; al = sizeof(base32def)/sizeof(a[0]); }]; [None] asks for it. *)
Definition alphabet (a : option bytes) : bytes := default base32def a.

(** The loop of the encoder. [todo] is [n - count], and [rest] is what lies between [s + next] and
    [s + sl]. A left shift of an [int] drops the bits that do not fit. *)
Fixpoint encode_loop (a : bytes) (bl mask : Z) (todo : nat) (buffer : Z) (rest : bytes) (bitsLeft : Z) : bytes :=
  match todo with
  | O => []
  | S todo =>
      if (bitsLeft >? 0) || bool_decide (rest <> []) then
        let '(buffer, rest, bitsLeft) :=
          if bitsLeft <? bl then
            match rest with
            | c :: rest => (Z.lor (s32 (Z.shiftl buffer 8)) (Z.land (s8 c) 255), rest, bitsLeft + 8)
            | [] => let pad := bl - bitsLeft in (s32 (Z.shiftl buffer pad), [], bitsLeft + pad)
            end
          else (buffer, rest, bitsLeft) in
        let bitsLeft := bitsLeft - bl in
        tab a (Z.land mask (Z.shiftr buffer bitsLeft)) :: encode_loop a bl mask todo buffer rest bitsLeft
      else []
  end.

(** [n]: the length of the output; [n + 1] bytes are allocated. *)
Definition encoded_length (sl bl : Z) : Z := u64 (u64 (sl * 8) + bl - 1) / bl.

(** [None] is a failed assertion, or [s[0]] where there is no byte. *)
Definition EncodeBase32 (malloc : Z -> bool) (s : option bytes) (sl : Z) (a : option bytes)
  : option (result (bytes * Z)) :=
  let text := strarg s sl in
  let al := Z.of_nat (length (alphabet a)) in
  if negb ((2 <=? al) && (al <=? 128)) then None
  else
    bl ← tobits al;
    let mask := Z.shiftl 1 bl - 1 in
    let n := encoded_length (Z.of_nat (length text)) bl in
    if malloc (u64 (n + 1)) then
      match s with
      | Some (c :: _) =>
          Some (Ok (cbuf (encode_loop (alphabet a) bl mask (Z.to_nat n) (s8 c) (tail text) 8)))
      | _ => None
      end
    else Some (Err ENOMEM).

Definition kBase32 : list Z := [
    -1; -1; -1; -1; -1; -1; -1; -1; -1; -2; -2; -1; -1; -2; -1; -1;
    -1; -1; -1; -1; -1; -1; -1; -1; -1; -1; -1; -1; -1; -1; -1; -1;
    -2; -1; -1; -1; -1; -1; -1; -1; -1; -1; -1; -1; -1; -2; -1; -1;
     0;  1;  2;  3;  4;  5;  6;  7;  8;  9; -1; -1; -1; -1; -1; -1;
    -1; 10; 11; 12; 13; 14; 15; 16; 17;  1; 18; 19;  1; 20; 21; -1;
    22; 23; 24; 25; 26;  0; 27; 28; 29; 30; 31; -1; -1; -1; -1; -1;
    -1; 10; 11; 12; 13; 14; 15; 16; 17;  1; 18; 19;  1; 20; 21; -1;
    22; 23; 24; 25; 26;  0; 27; 28; 29; 30; 31; -1; -1; -1; -1; -1;
    -1; -1; -1; -1; -1; -1; -1; -1; -1; -1; -1; -1; -1; -1; -1; -1;
    -1; -1; -1; -1; -1; -1; -1; -1; -1; -1; -1; -1; -1; -1; -1; -1;
    -1; -1; -1; -1; -1; -1; -1; -1; -1; -1; -1; -1; -1; -1; -1; -1;
    -1; -1; -1; -1; -1; -1; -1; -1; -1; -1; -1; -1; -1; -1; -1; -1;
    -1; -1; -1; -1; -1; -1; -1; -1; -1; -1; -1; -1; -1; -1; -1; -1;
    -1; -1; -1; -1; -1; -1; -1; -1; -1; -1; -1; -1; -1; -1; -1; -1;
    -1; -1; -1; -1; -1; -1; -1; -1; -1; -1; -1; -1; -1; -1; -1; -1;
    -1; -1; -1; -1; -1; -1; -1; -1; -1; -1; -1; -1; -1; -1; -1; -1 ].

(** [for (int i = 0; i < al; i++) map[a[i] & 0xff] = i;], from [i] on. *)
Fixpoint populate (i : Z) (a : bytes) (map : list Z) : list Z :=
  match a with
  | [] => map
  | c :: a => populate (i + 1) a (<[Z.to_nat (Z.land c 255) := s8 i]> map)
  end.

(** [kBase32], or [kBase32cust] after it was filled. *)
Definition decode_map (a : option bytes) : list Z :=
  match a with None => kBase32 | Some a => populate 0 a (replicate 256 (-1)) end.

(** The loop of the decoder. [s] is the memory from [s] on and [room] is [n - count]; [None] is a
    read behind the end of the memory. *)
Fixpoint decode_loop (map : list Z) (bl : Z) (s : bytes) (room buffer bitsLeft : Z) : option bytes :=
  if negb (room >? 0) then Some []
  else match s with
  | [] => None
  | c :: s =>
      if c =? 0 then Some []
      else
        let m := tab map (Z.land c 255) in
        if m =? -2 then decode_loop map bl s room buffer bitsLeft
        else if m =? -1 then Some []
        else
          let buffer := Z.lor (u32 (Z.shiftl buffer bl)) m in
          let bitsLeft := bitsLeft + bl in
          if bitsLeft >=? 8 then
            out ← decode_loop map bl s (room - 1) buffer (bitsLeft - 8);
            Some (u8 (Z.shiftr buffer (bitsLeft - 8)) :: out)
          else decode_loop map bl s room buffer bitsLeft
  end.

(** [n]; [n + 1] bytes are allocated. *)
Definition decoded_room (sl bl : Z) : Z := u64 (u64 (sl * bl) + 1) / 8 + 1.

(** [None] is a failed assertion or a read behind the end of the memory; [s] is not null. *)
Definition DecodeBase32 (malloc : Z -> bool) (s : option bytes) (sl : Z) (a : option bytes)
  : option (result (bytes * Z)) :=
  let text := strarg s sl in
  let al := Z.of_nat (length (alphabet a)) in
  if negb ((2 <=? al) && (al <=? 128)) then None
  else
    bl ← tobits al;
    let n := decoded_room (Z.of_nat (length text)) bl in
    if malloc (u64 (n + 1)) then
      m ← s;
      out ← decode_loop (decode_map a) bl m n 0 0;
      Some (Ok (cbuf out))
    else Some (Err ENOMEM).

Example base32_1 :
  EncodeBase32 (fun _ => true) (Some ((bstr "foobar") ++ [0])) SIZE_MAX None
    = Some (Ok ((bstr "csqpyrk1e8") ++ [0], 10)) /\
  DecodeBase32 (fun _ => true) (Some ((bstr "CSQ-PYRK 1E8") ++ [0])) SIZE_MAX None
    = Some (Ok ((bstr "foobar") ++ [0], 6)) /\
  EncodeBase32 (fun _ => true) (Some [255; 10]) 2 (Some (bstr "0123456789ABCDEF"))
    = Some (Ok ((bstr "FF0A") ++ [0], 4)).
Proof. vm_compute. repeat split. Qed.

(** The length of the input does not bound what is read: a digit behind it is decoded, if there is
    room, and so is the memory behind a text without a NUL. *)
Example base32_2 :
  DecodeBase32 (fun _ => true) (Some ((bstr "cscc") ++ [0])) 2 None = Some (Ok ((bstr "fX") ++ [0], 2)) /\
  DecodeBase32 (fun _ => true) (Some (bstr "cs")) 2 None = None.
Proof. vm_compute. repeat split. Qed.

(* ------------------------------------------------------------------ *)
(** ** Bits that are carried over *)

(** The number of a list of bytes, the first one on top. *)
Definition value (l : bytes) : Z := fold_left (fun v b => v * 256 + b) l 0.

Lemma value_from l : forall v, fold_left (fun v b => v * 256 + b) l v = v * 2 ^ (8 * Z.of_nat (length l)) + value l.
Proof.
  unfold value. induction l as [|b l IH]; intros v; cbn [fold_left length]; [change (2 ^ (8 * Z.of_nat 0)) with 1; lia|].
  rewrite IH, (IH (0 * 256 + b)).
  replace (2 ^ (8 * Z.of_nat (S (length l)))) with (256 * 2 ^ (8 * Z.of_nat (length l)))
    by (rewrite Nat2Z.inj_succ, Z.mul_succ_r, Z.pow_add_r by lia; lia).
  lia.
Qed.

Lemma value_cons b l : value (b :: l) = b * 2 ^ (8 * Z.of_nat (length l)) + value l.
Proof. unfold value. cbn [fold_left]. rewrite value_from. unfold value. lia. Qed.

Lemma value_snoc l b : value (l ++ [b]) = value l * 256 + b.
Proof. unfold value. by rewrite fold_left_app. Qed.

Lemma value_range l : Bytes l -> 0 <= value l < 2 ^ (8 * Z.of_nat (length l)).
Proof.
  induction 1 as [|b l Hb _ IH]; [done|]. rewrite value_cons. cbn [length].
  replace (2 ^ (8 * Z.of_nat (S (length l)))) with (256 * 2 ^ (8 * Z.of_nat (length l)))
    by (rewrite Nat2Z.inj_succ, Z.mul_succ_r, Z.pow_add_r by lia; lia).
  unfold is_byte in Hb. nia.
Qed.

Lemma mod_mod_pow z j k : 0 <= j <= k -> z mod 2 ^ k mod 2 ^ j = z mod 2 ^ j.
Proof.
  intros H. replace k with (j + (k - j)) by lia. rewrite Z.pow_add_r by lia.
  apply Z.mod_mod_divide, Z.divide_factor_l.
Qed.

Lemma s32_mod z k : 0 <= k <= 32 -> s32 z mod 2 ^ k = z mod 2 ^ k.
Proof.
  intros H. unfold s32.
  rewrite Zminus_mod, (mod_mod_pow (z + 2 ^ 31) k 32), <- Zminus_mod by lia. f_equal. lia.
Qed.

Lemma s8_mod z : s8 z mod 2 ^ 8 = z mod 2 ^ 8.
Proof. unfold s8. rewrite Zminus_mod, Z.mod_mod, <- Zminus_mod by lia. f_equal. lia. Qed.

Lemma lor_mod a b k : 0 <= k -> Z.lor a b mod 2 ^ k = Z.lor (a mod 2 ^ k) (b mod 2 ^ k).
Proof. intros H. rewrite <- !Z.land_ones by done. apply Z.land_lor_distr_l. Qed.

(** Appending [y], of [j] bits, to a buffer of which [k] bits count. *)
Lemma append_bits x y j k :
  0 <= j -> 0 <= k -> 0 <= y < 2 ^ j -> (x * 2 ^ j + y) mod 2 ^ (k + j) = (x mod 2 ^ k) * 2 ^ j + y.
Proof.
  intros Hj Hk Hy. rewrite Z.pow_add_r by lia. symmetry.
  apply (Z.mod_unique_pos _ _ (x / 2 ^ k)).
  - pose proof (Z.mod_pos_bound x (2 ^ k) ltac:(lia)). nia.
  - pose proof (Z.div_mod x (2 ^ k) ltac:(lia)). nia.
Qed.

Lemma encode_append x c k :
  0 <= k <= 24 -> is_byte c ->
  Z.lor (s32 (Z.shiftl x 8)) (Z.land (s8 c) 255) mod 2 ^ (k + 8) = (x mod 2 ^ k) * 256 + c.
Proof.
  intros Hk Hc. unfold is_byte in Hc. rewrite land_255. change 256 with (2 ^ 8).
  rewrite s8_mod, (Z.mod_small c) by lia.
  rewrite lor_mod, s32_mod, <- lor_mod, lor_shiftl_add by lia. apply append_bits; lia.
Qed.

Lemma decode_append x d bl k :
  0 <= bl -> 0 <= k -> k + bl <= 32 -> 0 <= d < 2 ^ bl ->
  Z.lor (u32 (Z.shiftl x bl)) d mod 2 ^ (k + bl) = (x mod 2 ^ k) * 2 ^ bl + d.
Proof.
  intros Hbl Hk Hs Hd. unfold u32. rewrite lor_mod, mod_mod_pow, <- lor_mod, lor_shiftl_add by lia.
  by apply append_bits.
Qed.

(** The [j] bits above the lowest [i] of a buffer. *)
Lemma top_bits x i j : 0 <= i -> 0 <= j -> (x / 2 ^ i) mod 2 ^ j = (x mod 2 ^ (j + i)) / 2 ^ i.
Proof.
  intros Hi Hj. rewrite Z.pow_add_r by lia.
  rewrite (Z.mul_comm (2 ^ j)), Z.rem_mul_r by lia.
  rewrite (Z.mul_comm (2 ^ i) ((x / 2 ^ i) mod _)), Z.div_add by lia.
  rewrite (Z.div_small (x mod 2 ^ i)) by (apply Z.mod_pos_bound; lia). lia.
Qed.

(** What the decoder carries in [k'] bits [b'] and the encoder in [k] bits [b] is [p]. *)
Definition carried (p : bytes) (b' k' b k : Z) : Prop :=
  Bytes p /\ 8 * Z.of_nat (length p) = k' + k /\ value p = b' * 2 ^ k + b /\
  0 <= b' < 2 ^ k' /\ 0 <= b < 2 ^ k.

(** A digit of [bl] bits passes from the encoder to the decoder. *)
Lemma pass_digit p b' k' b k bl :
  0 <= bl <= k -> 0 <= k' -> carried p b' k' b k ->
  carried p (b' * 2 ^ bl + b / 2 ^ (k - bl)) (k' + bl) (b mod 2 ^ (k - bl)) (k - bl).
Proof.
  intros Hbl Hk' (Hp & Hl & Hv & Hb' & Hb).
  assert (E : 2 ^ k = 2 ^ bl * 2 ^ (k - bl)) by (rewrite <- Z.pow_add_r by lia; f_equal; lia).
  pose proof (Z.div_mod b (2 ^ (k - bl)) ltac:(lia)) as Hd.
  pose proof (Z.mod_pos_bound b (2 ^ (k - bl)) ltac:(lia)).
  assert (0 <= b / 2 ^ (k - bl) < 2 ^ bl)
    by (split; [apply Z.div_pos; lia|apply Z.div_lt_upper_bound; lia]).
  rewrite E in Hv. split; [done|]. rewrite (Z.pow_add_r 2 k' bl) by lia.
  repeat split; try lia; nia.
Qed.

(** The decoder emits the first byte. *)
Lemma emit_byte p b' k' b k :
  8 <= k' -> 0 <= k -> carried p b' k' b k ->
  exists p2, p = b' / 2 ^ (k' - 8) :: p2 /\ carried p2 (b' mod 2 ^ (k' - 8)) (k' - 8) b k.
Proof.
  intros Hk' Hk (Hp & Hl & Hv & Hb' & Hb). destruct Hp as [|y p2 Hy Hp2]; [cbn in Hl; lia|].
  rewrite value_cons in Hv. cbn [length] in Hl.
  replace (8 * Z.of_nat (length p2)) with ((k' - 8) + k) in Hv by lia.
  pose proof (value_range p2 Hp2) as Hr. replace (8 * Z.of_nat (length p2)) with ((k' - 8) + k) in Hr by lia.
  rewrite Z.pow_add_r in Hv, Hr by lia.
  pose proof (Z.div_mod b' (2 ^ (k' - 8)) ltac:(lia)) as Hd.
  pose proof (Z.mod_pos_bound b' (2 ^ (k' - 8)) ltac:(lia)) as Hm.
  assert (y = b' / 2 ^ (k' - 8)) as ->.
  { apply (Z.div_unique_pos _ _ _ (b' - y * 2 ^ (k' - 8))); nia. }
  exists p2. split; [done|]. split; [done|]. split; [lia|]. split; [nia|]. split; [done|done].
Qed.

(* ------------------------------------------------------------------ *)
(** ** Encoding and decoding *)

Section Loops.
Context (a map : list Z) (bl : Z).
Hypothesis Hbl : 1 <= bl <= 7.
(** The map undoes the alphabet. *)
Hypothesis Hdigit : forall d, 0 <= d < 2 ^ bl -> is_byte (tab a d) /\ tab a d <> 0 /\ tab map (tab a d) = d.

(** The digit that the encoder takes from [k] bits. *)
Lemma encode_digit buffer k :
  bl <= k -> Z.land (2 ^ bl - 1) (Z.shiftr buffer (k - bl)) = (buffer mod 2 ^ k) / 2 ^ (k - bl).
Proof.
  intros Hk. rewrite Z.land_comm, land_mask, Z.shiftr_div_pow2, top_bits by lia. do 2 f_equal. f_equal. lia.
Qed.

Lemma digit_range x k : bl <= k -> 0 <= (x mod 2 ^ k) / 2 ^ (k - bl) < 2 ^ bl.
Proof.
  intros Hk. pose proof (Z.mod_pos_bound x (2 ^ k) ltac:(lia)). split; [apply Z.div_pos; lia|].
  apply Z.div_lt_upper_bound; [lia|]. rewrite <- Z.pow_add_r by lia. replace (k - bl + bl) with k by lia. lia.
Qed.

(** What the decoder does with a digit. *)
Lemma decode_digit d s room buffer k :
  0 <= d < 2 ^ bl -> 0 < room -> 0 <= k < 8 ->
  let next := Z.lor (u32 (Z.shiftl buffer bl)) d in
  next mod 2 ^ (k + bl) = (buffer mod 2 ^ k) * 2 ^ bl + d /\
  decode_loop map bl (tab a d :: s) room buffer k =
    if k + bl >=? 8
    then out ← decode_loop map bl s (room - 1) next (k + bl - 8);
         Some ((next mod 2 ^ (k + bl)) / 2 ^ (k + bl - 8) :: out)
    else decode_loop map bl s room next (k + bl).
Proof.
  intros Hd Hroom Hk. cbv zeta. split; [apply decode_append; lia|].
  destruct (Hdigit d Hd) as (Hb & H0 & Hm). cbn [decode_loop].
  replace (room >? 0) with true by lia. cbn [negb]. rewrite (proj2 (Z.eqb_neq _ _) H0).
  unfold is_byte in Hb. rewrite land_255, Z.mod_small, Hm by lia.
  replace (d =? -2) with false by lia. replace (d =? -1) with false by lia.
  destruct (k + bl >=? 8) eqn:E; [|done].
  unfold u8. rewrite Z.shiftr_div_pow2, top_bits by lia. by replace (8 + (k + bl - 8)) with (k + bl) by lia.
Qed.

Definition decodes (todo : nat) : Prop :=
  forall buffer rest k buffer' k' p z room,
    Bytes rest -> 0 <= k <= 8 -> 0 <= k' < 8 ->
    carried p (buffer' mod 2 ^ k') k' (buffer mod 2 ^ k) k ->
    Z.of_nat todo = (k + 8 * Z.of_nat (length rest) + bl - 1) / bl ->
    Z.of_nat (length p + length rest) <= room ->
    decode_loop map bl (encode_loop a bl (2 ^ bl - 1) todo buffer rest k ++ 0 :: z) room buffer' k' = Some (p ++ rest).

(** The encoder has bits for a digit. *)
Lemma decodes_digit todo buffer rest k buffer' k' p z room :
  decodes todo -> Bytes rest -> bl <= k < bl + 8 -> 0 <= k' < 8 ->
  carried p (buffer' mod 2 ^ k') k' (buffer mod 2 ^ k) k ->
  Z.of_nat (S todo) = (k + 8 * Z.of_nat (length rest) + bl - 1) / bl ->
  Z.of_nat (length p + length rest) <= room ->
  decode_loop map bl
    ((tab a (Z.land (2 ^ bl - 1) (Z.shiftr buffer (k - bl))) ::
      encode_loop a bl (2 ^ bl - 1) todo buffer rest (k - bl)) ++ 0 :: z) room buffer' k' = Some (p ++ rest).
Proof.
  intros IH Hrest Hk Hk' Hc Htodo Hroom. rewrite encode_digit by lia.
  pose proof (digit_range buffer k ltac:(lia)) as Hd.
  assert (Hl := proj1 (proj2 Hc)).
  apply (pass_digit _ _ _ _ _ bl) in Hc; [|lia..].
  rewrite mod_mod_pow in Hc by lia.
  assert (Hleft : Z.of_nat todo = (k - bl + 8 * Z.of_nat (length rest) + bl - 1) / bl).
  { replace (k + 8 * Z.of_nat (length rest) + bl - 1)
      with (k - bl + 8 * Z.of_nat (length rest) + bl - 1 + 1 * bl) in Htodo by lia.
    rewrite Z.div_add in Htodo by lia. lia. }
  cbn [app]. set (d := (buffer mod 2 ^ k) / 2 ^ (k - bl)) in *.
  edestruct (decode_digit d) as [Hn ->]; [done| |done|]; [lia|].
  set (next := Z.lor (u32 (Z.shiftl buffer' bl)) d) in *. rewrite <- Hn in Hc.
  destruct (k' + bl >=? 8) eqn:E.
  - apply emit_byte in Hc as (p2 & -> & Hc); [|lia..]. rewrite mod_mod_pow in Hc by lia.
    rewrite (IH buffer rest (k - bl) next (k' + bl - 8) p2); [done|done|lia|lia|done|done|].
    cbn [length] in Hroom. lia.
  - apply IH; [done|lia|lia|done|done|done].
Qed.

(** The last digit is filled up with zeros. *)
Lemma decodes_pad buffer k buffer' k' p z room :
  0 < k < bl -> 0 <= k' < 8 -> carried p (buffer' mod 2 ^ k') k' (buffer mod 2 ^ k) k ->
  Z.of_nat (length p) <= room ->
  decode_loop map bl
    (tab a (Z.land (2 ^ bl - 1) (Z.shiftr (s32 (Z.shiftl buffer (bl - k))) (k + (bl - k) - bl))) :: 0 :: z)
    room buffer' k' = Some p.
Proof.
  intros Hk Hk' Hc Hroom. replace (k + (bl - k) - bl) with (bl - bl) by lia. rewrite encode_digit by lia.
  pose proof (digit_range (s32 (Z.shiftl buffer (bl - k))) bl ltac:(lia)) as Hd.
  set (d := (s32 (Z.shiftl buffer (bl - k)) mod 2 ^ bl) / 2 ^ (bl - bl)) in *.
  assert (Ed : d = buffer mod 2 ^ k * 2 ^ (bl - k)).
  { unfold d. rewrite Z.sub_diag, Z.div_1_r, s32_mod, Z.shiftl_mul_pow2 by lia.
    pose proof (append_bits buffer 0 (bl - k) k ltac:(lia) ltac:(lia) ltac:(lia)) as H.
    replace (k + (bl - k)) with bl in H by lia. rewrite !Z.add_0_r in H. exact H. }
  destruct Hc as (Hp & Hl & Hv & _). destruct Hp as [|y [|y2 p] Hy Hp]; [cbn in Hl; lia| |cbn [length] in Hl; lia].
  cbn [length] in Hl, Hroom. assert (k' = 8 - k) as -> by lia.
  destruct (decode_digit d (0 :: z) room buffer' (8 - k)) as [Hn ->]; [done|lia|lia|].
  replace (8 - k + bl >=? 8) with true by lia. cbn [decode_loop].
  assert (Hend : forall r, (if negb (r >? 0) then Some [] else Some []) = Some ([] : bytes)) by (intros r; by destruct (negb _)).
  rewrite Z.eqb_refl, Hend. cbn [mbind option_bind]. rewrite Hn, Ed. do 2 f_equal.
  change (value [y]) with (0 * 256 + y) in Hv. rewrite Z.add_0_l in Hv. rewrite Hv.
  replace (8 - k + bl - 8) with (bl - k) by lia. replace (2 ^ bl) with (2 ^ k * 2 ^ (bl - k)) at 1
    by (rewrite <- Z.pow_add_r by lia; f_equal; lia).
  rewrite Z.mul_assoc, <- Z.mul_add_distr_r. apply Z.div_mul. lia.
Qed.

(** How many digits [n] bits take, and one digit less. *)
Lemma digits_zero n : 0 <= n -> 0 = (n + bl - 1) / bl -> n = 0.
Proof.
  intros Hn H. destruct (decide (n = 0)) as [|Hne]; [done|].
  pose proof (Z.div_le_lower_bound (n + bl - 1) bl 1 ltac:(lia) ltac:(lia)). lia.
Qed.

Lemma digits_succ todo n :
  0 <= n -> Z.of_nat (S todo) = (n + bl - 1) / bl ->
  0 < n /\ (n < bl -> todo = O) /\ (bl <= n -> Z.of_nat todo = (n - bl + bl - 1) / bl).
Proof.
  intros Hn H. assert (Hpos : 0 < n).
  { destruct (decide (n = 0)) as [->|]; [rewrite Z.div_small in H|]; lia. }
  replace (n + bl - 1) with (n - bl + bl - 1 + 1 * bl) in H by lia. rewrite Z.div_add in H by lia.
  repeat split; [done| |lia]. intros Hlt. rewrite (Z.div_small (n - bl + bl - 1)) in H by lia. lia.
Qed.

Lemma encode_guard k (rest : bytes) :
  0 < k + 8 * Z.of_nat (length rest) -> (k >? 0) || bool_decide (rest <> []) = true.
Proof.
  intros H. destruct rest; [cbn in H; by replace (k >? 0) with true by lia|].
  rewrite bool_decide_eq_true_2 by done. apply orb_true_r.
Qed.

Lemma decodes_all todo : decodes todo.
Proof.
  induction todo as [|todo IH]; intros buffer rest k buffer' k' p z room Hrest Hk Hk' Hc Htodo Hroom.
  - apply digits_zero in Htodo; [|lia].
    destruct rest; [|cbn [length] in Htodo; lia]. destruct Hc as (_ & Hl & _).
    destruct p; [|cbn [length] in Hl, Htodo; lia]. cbn. by destruct (negb _).
  - destruct (digits_succ todo (k + 8 * Z.of_nat (length rest)) ltac:(lia) Htodo) as (Hpos & Hlast & _).
    cbn [encode_loop]. rewrite encode_guard by done.
    destruct (k <? bl) eqn:E; [|apply decodes_digit; try done; lia].
    destruct rest as [|c rest]; cbn [length] in *.
    + rewrite Hlast, app_nil_r by lia. cbn [encode_loop app]. apply decodes_pad; try done; lia.
    + apply Forall_cons in Hrest as [Hc0 Hrest]. replace (p ++ c :: rest) with ((p ++ [c]) ++ rest) by (by rewrite <- app_assoc).
      destruct Hc as (Hp & Hl & Hv & Hb' & Hb). unfold is_byte in Hc0.
      apply decodes_digit; try done; [lia| | |]; rewrite ?length_app; cbn [length] in *; [|rewrite Htodo; f_equal; lia|lia].
      rewrite encode_append by (unfold is_byte; lia).
      split; [by apply Forall_app; split; [|repeat constructor; unfold is_byte; lia]|].
      rewrite length_app, value_snoc, Hv, Z.pow_add_r by lia. cbn [length]. change (2 ^ 8) with 256.
      repeat split; lia.
Qed.

(** The encoder fills its buffer, with characters of the alphabet. *)
Lemma encode_loop_spec todo : forall buffer rest k,
  0 <= k <= 8 -> Z.of_nat todo = (k + 8 * Z.of_nat (length rest) + bl - 1) / bl ->
  let out := encode_loop a bl (2 ^ bl - 1) todo buffer rest k in
  length out = todo /\ Forall (fun c => is_byte c /\ c <> 0) out.
Proof.
  induction todo as [|todo IH]; intros buffer rest k Hk Htodo; [done|].
  destruct (digits_succ todo (k + 8 * Z.of_nat (length rest)) ltac:(lia) Htodo) as (Hpos & Hlast & Hmore).
  assert (Hchar : forall x, is_byte (tab a (Z.land (2 ^ bl - 1) x)) /\ tab a (Z.land (2 ^ bl - 1) x) <> 0).
  { intros x. rewrite Z.land_comm, land_mask by lia.
    destruct (Hdigit (x mod 2 ^ bl)) as (H1 & H2 & _); [apply Z.mod_pos_bound; lia|done]. }
  cbv zeta. cbn [encode_loop]. rewrite encode_guard by done.
  destruct (k <? bl) eqn:E; [destruct rest as [|c rest]|]; cbn [length] in *.
  - rewrite Hlast by lia. cbn. by repeat constructor; apply Hchar.
  - edestruct (IH (Z.lor (s32 (Z.shiftl buffer 8)) (Z.land (s8 c) 255)) rest (k + 8 - bl)) as [-> Hf];
      [lia|rewrite Hmore by lia; f_equal; lia|]. split; [done|]. constructor; [apply Hchar|exact Hf].
  - edestruct (IH buffer rest (k - bl)) as [-> Hf]; [lia|rewrite Hmore by lia; f_equal; lia|].
    split; [done|]. constructor; [apply Hchar|exact Hf].
Qed.
End Loops.

(** The decoder writes bytes, and at most as many as it has room for. *)
Lemma decode_loop_room map bl s : forall room buffer bitsLeft out,
  0 <= room -> decode_loop map bl s room buffer bitsLeft = Some out ->
  Bytes out /\ Z.of_nat (length out) <= room.
Proof.
  induction s as [|c s IH]; intros room buffer bitsLeft out Hr; cbn [decode_loop].
  - destruct (negb _); [|done]. intros [= <-]. split; [done|cbn; lia].
  - destruct (room >? 0) eqn:E; cbn [negb]; [|intros [= <-]; split; [done|cbn; lia]].
    repeat case_match; try (by apply IH); try (intros [= <-]; split; [done|cbn; lia]).
    destruct (decode_loop map bl s (room - 1) _ _) as [out'|] eqn:Ed; [|done]. cbn. intros [= <-].
    apply IH in Ed as [Hb Hl]; [|lia]. split; [constructor; [apply u8_byte|done]|cbn; lia].
Qed.

(* ------------------------------------------------------------------ *)
(** ** Alphabets *)

(** An alphabet of [2 ^ bl] characters. *)
Definition alphabet_ok (a : option bytes) (bl : Z) : Prop :=
  match a with
  | None => bl = 5
  | Some a => 1 <= bl <= 7 /\ Z.of_nat (length a) = 2 ^ bl /\ Bytes a /\ NoDup a /\ 0 ∉ a
  end.

Lemma tab_insert m i v c :
  is_byte c -> length m = 256%nat -> is_byte i ->
  tab (<[Z.to_nat (Z.land i 255) := v]> m) c = if c =? i then v else tab m c.
Proof.
  unfold tab, is_byte. intros Hc Hm Hi. rewrite land_255, Z.mod_small, !nth_lookup by done.
  destruct (c =? i) eqn:E.
  - apply Z.eqb_eq in E as ->. by rewrite list_lookup_insert_eq by lia.
  - by rewrite list_lookup_insert_ne by lia.
Qed.

Lemma populate_notin a : forall i map c,
  is_byte c -> Bytes a -> length map = 256%nat -> c ∉ a -> tab (populate i a map) c = tab map c.
Proof.
  induction a as [|x a IH]; intros i map c Hc Ha Hm Hn; cbn [populate]; [done|].
  apply Forall_cons in Ha as [Hx Ha]. apply not_elem_of_cons in Hn as [Hne Hn].
  rewrite IH, tab_insert by (rewrite ?length_insert; done). by rewrite (proj2 (Z.eqb_neq c x)) by done.
Qed.

Lemma populate_in a : forall i map j c,
  Bytes a -> NoDup a -> length map = 256%nat -> 0 <= i -> i + Z.of_nat (length a) <= 128 ->
  a !! j = Some c -> tab (populate i a map) c = i + Z.of_nat j.
Proof.
  induction a as [|x a IH]; intros i map j c Ha Hd Hm Hi Hl Hj; [done|]. cbn [populate].
  apply Forall_cons in Ha as [Hx Ha]. apply NoDup_cons in Hd as [Hn Hd]. cbn [length] in Hl.
  destruct j as [|j]; cbn in Hj.
  - injection Hj as ->. rewrite populate_notin, tab_insert by (rewrite ?length_insert; done).
    rewrite Z.eqb_refl. unfold s8. rewrite Z.mod_small by lia. lia.
  - rewrite (IH _ _ j) by (rewrite ?length_insert; done || lia). lia.
Qed.

(** The map of an alphabet undoes it. *)
Lemma alphabet_digit a bl d :
  alphabet_ok a bl -> 0 <= d < 2 ^ bl ->
  is_byte (tab (alphabet a) d) /\ tab (alphabet a) d <> 0 /\ tab (decode_map a) (tab (alphabet a) d) = d.
Proof.
  unfold alphabet_ok, alphabet, decode_map. destruct a as [a|]; cbn [from_option id].
  - intros (Hbl & Hlen & Hb & Hnd & H0) Hd.
    destruct (lookup_lt_is_Some_2 a (Z.to_nat d)) as [c Hc]; [lia|].
    assert (Et : tab a d = c) by (unfold tab; by rewrite nth_lookup, Hc). rewrite Et.
    assert (Hin : c ∈ a) by (by apply list_elem_of_lookup_2 in Hc).
    split; [by apply (proj1 (Forall_forall _ _) Hb)|]. split; [intros ->; done|].
    assert (2 ^ bl <= 2 ^ 7) by (apply Z.pow_le_mono_r; lia).
    rewrite (populate_in a 0 _ (Z.to_nat d)); try done; lia.
  - intros -> Hd.
    assert (H : forallb (fun d => let c := tab base32def d in
              (0 <=? c) && (c <? 256) && negb (c =? 0) && (tab kBase32 c =? d)) (map Z.of_nat (seq 0 32)) = true)
      by (vm_compute; reflexivity).
    rewrite forallb_forall in H. specialize (H d). unfold is_byte.
    assert (Hin : In d (map Z.of_nat (seq 0 32))) by (apply in_map_iff; exists (Z.to_nat d); rewrite in_seq; lia).
    apply H in Hin. cbv zeta in Hin. rewrite !andb_true_iff, negb_true_iff in Hin. lia.
Qed.

Lemma alphabet_bits a bl :
  alphabet_ok a bl -> 1 <= bl <= 7 /\ 2 <= Z.of_nat (length (alphabet a)) <= 128 /\
  tobits (Z.of_nat (length (alphabet a))) = Some bl.
Proof.
  destruct a as [a|]; [|cbn; intros ->; done]. cbn. intros (Hbl & -> & _). split; [done|].
  assert (bl = 1 \/ bl = 2 \/ bl = 3 \/ bl = 4 \/ bl = 5 \/ bl = 6 \/ bl = 7) as H by lia.
  repeat destruct H as [->|H]; [done..|]. by rewrite H.
Qed.

Lemma encoded_length_eq n bl :
  1 <= bl <= 7 -> 0 <= n < 2 ^ 60 -> encoded_length n bl = (8 * n + bl - 1) / bl.
Proof. intros Hbl Hn. unfold encoded_length. rewrite (u64_id (n * 8)), u64_id by lia. f_equal. lia. Qed.

Lemma cstr_encoded out z : Forall (fun c => is_byte c /\ c <> 0) out -> cstr (out ++ 0 :: z) = out.
Proof.
  induction 1 as [|c out [_ Hc] _ IH]; [done|]. cbn. rewrite (proj2 (Z.eqb_neq c 0)) by done. by rewrite IH.
Qed.

Lemma Bytes_strarg s sl : Bytes s -> Bytes (strarg (Some s) sl).
Proof.
  intros Hs. unfold strarg. destruct (sl =? SIZE_MAX); [|by apply Forall_take].
  induction Hs as [|c s Hc _ IH]; cbn; [done|]. destruct (c =? 0); by constructor.
Qed.

(** The text of a pair of arguments is empty or starts where the memory does. *)
Lemma strarg_head c s sl : strarg (Some (c :: s)) sl = [] \/ strarg (Some (c :: s)) sl = c :: tail (strarg (Some (c :: s)) sl).
Proof.
  unfold strarg. destruct (sl =? SIZE_MAX); cbn; [destruct (c =? 0); auto|].
  destruct (Z.to_nat sl); cbn; auto.
Qed.

Section Text.
Context (a : option bytes) (bl : Z) (c : Z) (text : bytes).
Hypothesis Ha : alphabet_ok a bl.
Hypothesis Hc : is_byte c.
Hypothesis Htext : Bytes text.
Hypothesis Hhead : text = [] \/ text = c :: tail text.

Definition digits : Z := (8 * Z.of_nat (length text) + bl - 1) / bl.
Definition encoded : bytes :=
  encode_loop (alphabet a) bl (2 ^ bl - 1) (Z.to_nat digits) (s8 c) (tail text) 8.

Lemma digits_text :
  0 <= digits /\ (text = [] -> digits = 0) /\ Z.of_nat (length text) * 8 <= digits * bl.
Proof.
  destruct (alphabet_bits a bl Ha) as (Hbl & _). unfold digits.
  split; [apply Z.div_pos; lia|]. split; [intros ->; apply Z.div_small; cbn; lia|].
  pose proof (Z.div_mod (8 * Z.of_nat (length text) + bl - 1) bl ltac:(lia)).
  pose proof (Z.mod_pos_bound (8 * Z.of_nat (length text) + bl - 1) bl ltac:(lia)). lia.
Qed.

Lemma digits_tail : text <> [] -> Z.of_nat (Z.to_nat digits) = (8 + 8 * Z.of_nat (length (tail text)) + bl - 1) / bl.
Proof.
  intros Hne. destruct digits_text as (Hd & _). rewrite Z2Nat.id by done. unfold digits. f_equal.
  destruct text; [done|]. cbn [length tail]. lia.
Qed.

Lemma encoded_spec : Z.of_nat (length encoded) = digits /\ Forall (fun c => is_byte c /\ c <> 0) encoded.
Proof.
  destruct digits_text as (Hd & H0 & _). destruct (alphabet_bits a bl Ha) as (Hbl & _). unfold encoded.
  destruct (decide (text = [])) as [E|Hne]; [rewrite H0 by done; done|].
  destruct (encode_loop_spec (alphabet a) (decode_map a) bl Hbl (fun d => alphabet_digit a bl d Ha)
              (Z.to_nat digits) (s8 c) (tail text) 8) as [-> Hf]; [lia|by apply digits_tail|].
  split; [lia|done].
Qed.

Lemma encoded_decodes z room :
  Z.of_nat (length text) <= room -> decode_loop (decode_map a) bl (encoded ++ 0 :: z) room 0 0 = Some text.
Proof.
  intros Hroom. destruct digits_text as (Hd & H0 & _). destruct (alphabet_bits a bl Ha) as (Hbl & _). unfold encoded.
  destruct Hhead as [E|E]; [rewrite H0, E by done; change (Z.to_nat 0) with O; cbn [encode_loop app decode_loop Z.eqb]; by destruct (negb _)|].
  pose proof Htext as Ht. rewrite E in Ht, Hroom. cbn [length] in Hroom. apply Forall_cons in Ht as [_ Htl]. unfold is_byte in Hc.
  rewrite (decodes_all (alphabet a) (decode_map a) bl Hbl (fun d => alphabet_digit a bl d Ha)
    (Z.to_nat digits) (s8 c) (tail text) 8 0 0 [c]);
    [by rewrite E at 2|done|lia|lia| |apply digits_tail; by rewrite E|cbn [length]; lia].
  split; [constructor; [exact Hc|constructor]|]. split; [done|]. rewrite s8_mod, (Z.mod_small c) by lia.
  change (value [c]) with (0 * 256 + c). change (0 mod 2 ^ 0) with 0. lia.
Qed.
End Text.

Lemma strarg_encoded out z sl :
  Forall (fun c => is_byte c /\ c <> 0) out -> sl = Z.of_nat (length out) \/ sl = SIZE_MAX ->
  Z.of_nat (length out) < SIZE_MAX -> strarg (Some (out ++ 0 :: z)) sl = out.
Proof.
  intros Hf Hsl Hlen. destruct (decide (sl = SIZE_MAX)) as [->|Hne].
  - unfold strarg. rewrite Z.eqb_refl. by apply cstr_encoded.
  - destruct Hsl as [->|]; [|done]. rewrite strarg_len, Nat2Z.id by lia. by rewrite take_app_length.
Qed.

Lemma decoded_room_le n m bl :
  1 <= bl <= 7 -> 0 <= n -> 0 <= m < 2 ^ 60 -> n * 8 <= m * bl -> n <= decoded_room m bl.
Proof.
  intros Hbl Hn Hm H. unfold decoded_room. rewrite (u64_id (m * bl)), u64_id by nia.
  pose proof (Z.div_le_lower_bound (m * bl + 1) 8 n ltac:(lia) ltac:(lia)). lia.
Qed.

(** what EncodeBase32 returns has one character for each [bl] bits of its input, and decoding
    it, by its length or as a string, gives the input back. This holds for the default alphabet and
    for every alphabet of a power of two, up to 128, of different characters. *)
Theorem DecodeBase32_EncodeBase32 malloc s sl a bl :
  alphabet_ok a bl -> Bytes s -> s <> [] -> (forall n, malloc n = true) ->
  Z.of_nat (length (strarg (Some s) sl)) < 2 ^ 56 ->
  exists out,
    EncodeBase32 malloc (Some s) sl a = Some (Ok (cbuf out)) /\
    Z.of_nat (length out) = (8 * Z.of_nat (length (strarg (Some s) sl)) + bl - 1) / bl /\
    forall sl' z, sl' = Z.of_nat (length out) \/ sl' = SIZE_MAX ->
      DecodeBase32 malloc (Some ((cbuf out).1 ++ z)) sl' a = Some (Ok (cbuf (strarg (Some s) sl))).
Proof.
  intros Ha Hs Hne Hm Hlen. destruct (alphabet_bits a bl Ha) as (Hbl & Hal & Hbits).
  destruct s as [|c s]; [done|]. pose proof (strarg_head c s sl) as Hhead.
  pose proof (Bytes_strarg _ sl Hs) as Htext. apply Forall_cons in Hs as [Hc Hs].
  set (text := strarg (Some (c :: s)) sl) in *.
  destruct (encoded_spec a bl c text Ha Htext Hhead) as [Hol Hoc]. destruct (digits_text a bl c text Ha Htext Hhead) as (_ & _ & Hd).
  assert (Hsmall : 0 <= digits bl text < 2 ^ 60)
    by (unfold digits; split; [apply Z.div_pos; lia|apply Z.div_lt_upper_bound; nia]).
  exists (encoded a bl c text). split; [|split; [done|]].
  - unfold EncodeBase32. fold text. rewrite Hbits. cbn [mbind option_bind].
    replace (_ && _) with true by lia. cbn [negb].
    rewrite Hm, encoded_length_eq, Z.shiftl_1_l by lia. done.
  - intros sl' z Hsl. cbn [cbuf fst]. rewrite <- app_assoc. cbn [app].
    unfold DecodeBase32. rewrite strarg_encoded by (done || unfold SIZE_MAX; lia). rewrite Hbits. cbn [mbind option_bind].
    replace (_ && _) with true by lia. cbn [negb]. rewrite Hm.
    rewrite encoded_decodes; try done. rewrite Hol. apply decoded_room_le; [lia..|done].
Qed.

Lemma DecodeBase32_EncodeBase32_witness :
  exists out, EncodeBase32 (fun _ => true) (Some [104; 105; 0]) 3 (Some (bstr "01234567")) = Some (Ok (cbuf out)) /\
    DecodeBase32 (fun _ => true) (Some ((cbuf out).1 ++ [])) SIZE_MAX (Some (bstr "01234567"))
      = Some (Ok ([104; 105; 0; 0], 3)).
Proof.
  destruct (DecodeBase32_EncodeBase32 (fun _ => true) [104; 105; 0] 3 (Some (bstr "01234567")) 3) as (out & H1 & _ & H2).
  - cbn. repeat split; try lia; [decide_now..].
  - decide_now.
  - done.
  - done.
  - done.
  - exists out. split; [exact H1|]. apply (H2 SIZE_MAX []). by right.
Defined.

(** A null pointer is read although the function gives it a length: [s ? strlen(s) : 0]. *)
Lemma EncodeBase32_null sl a : EncodeBase32 (fun _ => true) None sl a = None.
Proof. unfold EncodeBase32. destruct (negb _); [done|]. by destruct (tobits _). Qed.

(** Whatever the memory holds, the decoder writes bytes and stays inside of its buffer. *)
Theorem DecodeBase32_room malloc s sl a buf z :
  DecodeBase32 malloc s sl a = Some (Ok (buf, z)) ->
  exists bl, tobits (Z.of_nat (length (alphabet a))) = Some bl /\
    Bytes buf /\ Z.of_nat (length buf) <= decoded_room (Z.of_nat (length (strarg s sl))) bl + 1.
Proof.
  unfold DecodeBase32. destruct (negb _); [done|]. destruct (tobits _) as [bl|]; [|done].
  cbn [mbind option_bind]. destruct (malloc _); [|done]. destruct s as [m|]; [|done].
  cbn [mbind option_bind]. destruct (decode_loop _ _ _ _ _ _) as [out|] eqn:E; [|done].
  cbn [mbind option_bind]. intros [= <- <-]. exists bl. split; [done|].
  assert (Hr : 0 <= decoded_room (Z.of_nat (length (strarg (Some m) sl))) bl).
  { unfold decoded_room. apply Z.add_nonneg_nonneg; [|lia].
    apply Z.div_pos; [apply Z.mod_pos_bound; lia|lia]. }
  apply decode_loop_room in E as [Hb Hl]; [|done]. rewrite length_app. cbn [length]. split; [|lia].
  apply Forall_app. split; [done|]. by repeat constructor.
Qed.

End Base32.
