(* ===== verification/Seccomp.v ===== *)
(** * Seccomp filters (libc/calls/struct/filter.internal.h, bpf.internal.h, seccomp.internal.h)

    Programs of the packet filter machine that decide on system calls: the instructions that the
    library builds, the data they see, and what the kernel documents of running and accepting them. The
    machine has an accumulator and jumps forward only, so that running a program is structural. *)

From S2P Require Import Prelude.

Record sock_filter := { code : Z; jt : Z; jf : Z; k : Z }.

Definition BPF_STMT (c v : Z) : sock_filter := {| code := u16 c; jt := 0; jf := 0; k := u32 v |}.
Definition BPF_JUMP (c v t f : Z) : sock_filter := {| code := u16 c; jt := u8 t; jf := u8 f; k := u32 v |}.

Definition BPF_LD : Z := 0x00.
Definition BPF_ALU : Z := 0x04.
Definition BPF_JMP : Z := 0x05.
Definition BPF_RET : Z := 0x06.
Definition BPF_W : Z := 0x00.
Definition BPF_ABS : Z := 0x20.
Definition BPF_AND : Z := 0x50.
Definition BPF_JEQ : Z := 0x10.
Definition BPF_JGE : Z := 0x30.
Definition BPF_K : Z := 0x00.

Definition SECCOMP_RET_KILL_PROCESS : Z := 0x80000000.
Definition SECCOMP_RET_KILL_THREAD : Z := 0x00000000.
Definition SECCOMP_RET_TRAP : Z := 0x00030000.
Definition SECCOMP_RET_ERRNO : Z := 0x00050000.
Definition SECCOMP_RET_ALLOW : Z := 0x7fff0000.
Definition SECCOMP_RET_DATA : Z := 0x0000ffff.

(** A system call, as a filter sees it. *)
Record seccomp_data := {
  nr : Z; arch : Z; instruction_pointer : Z;
  arg0 : Z; arg1 : Z; arg2 : Z; arg3 : Z; arg4 : Z; arg5 : Z }.

Definition args (d : seccomp_data) : list Z := [arg0 d; arg1 d; arg2 d; arg3 d; arg4 d; arg5 d].

(** Offsets into the record. *)
Definition OFF_nr : Z := 0.
Definition OFF_arch : Z := 4.
Definition OFF_args (i : Z) : Z := 16 + 8 * i.

(** The lower and the upper half of an argument. *)
Definition lo (d : seccomp_data) (i : nat) : Z := u32 (nth i (args d) 0).
Definition hi (d : seccomp_data) (i : nat) : Z := u32 (Z.shiftr (nth i (args d) 0) 32).
Definition sysno (d : seccomp_data) : Z := u32 (nr d).

(** A 32-bit load on a little-endian machine. *)
Definition load_word (d : seccomp_data) (off : Z) : option Z :=
  match off with
  | 0 => Some (sysno d)
  | 4 => Some (u32 (arch d))
  | 8 => Some (u32 (instruction_pointer d))
  | 12 => Some (u32 (Z.shiftr (instruction_pointer d) 32))
  | 16 => Some (lo d 0) | 20 => Some (hi d 0)
  | 24 => Some (lo d 1) | 28 => Some (hi d 1)
  | 32 => Some (lo d 2) | 36 => Some (hi d 2)
  | 40 => Some (lo d 3) | 44 => Some (hi d 3)
  | 48 => Some (lo d 4) | 52 => Some (hi d 4)
  | 56 => Some (lo d 5) | 60 => Some (hi d 5)
  | _ => None
  end.

(** The instructions that are used. *)
Inductive insn := LdW (off : Z) | And (v : Z) | Jeq (v : Z) (t f : nat) | Jge (v : Z) (t f : nat) | Ret (v : Z).

Definition decode (i : sock_filter) : option insn :=
  match code i with
  | 0x20 => Some (LdW (k i))
  | 0x54 => Some (And (k i))
  | 0x15 => Some (Jeq (k i) (Z.to_nat (jt i)) (Z.to_nat (jf i)))
  | 0x35 => Some (Jge (k i) (Z.to_nat (jt i)) (Z.to_nat (jf i)))
  | 0x06 => Some (Ret (k i))
  | _ => None
  end.

(** Runs a program: [skip] instructions are jumped over, [a] is the accumulator. A program that runs off
    its end has no result. *)
Fixpoint run_bpf (d : seccomp_data) (p : list sock_filter) (skip : nat) (a : Z) : option Z :=
  match p with
  | [] => None
  | i :: p =>
      match skip with
      | S skip => run_bpf d p skip a
      | O =>
          match decode i with
          | Some (LdW off) => a ← load_word d off; run_bpf d p 0 a
          | Some (And v) => run_bpf d p 0 (Z.land a v)
          | Some (Jeq v t f) => run_bpf d p (if a =? v then t else f) a
          | Some (Jge v t f) => run_bpf d p (if a >=? v then t else f) a
          | Some (Ret v) => Some v
          | None => None
          end
      end
  end.

Definition run_filter (p : list sock_filter) (d : seccomp_data) : option Z := run_bpf d p 0 0.

(** What the kernel asks of a program before it installs it: known instructions, loads inside of the
    data, jumps inside of the program, and a return at the end. *)
Fixpoint jumps_ok (p : list sock_filter) (behind : nat) : bool :=
  match p with
  | [] => true
  | i :: p =>
      let room := (length p + behind)%nat in
      match decode i with
      | Some (LdW off) => (off mod 4 =? 0) && (0 <=? off) && (off <? 64)
      | Some (And _) => true
      | Some (Jeq _ t f) | Some (Jge _ t f) => (t <? room)%nat && (f <? room)%nat
      | Some (Ret _) => true
      | None => false
      end && jumps_ok p behind
  end.

Definition ends_in_ret (p : list sock_filter) : bool :=
  match last p with Some i => match decode i with Some (Ret _) => true | _ => false end | None => false end.

Definition BPF_MAXINSNS : nat := 4096.

Definition bpf_check (p : list sock_filter) : bool :=
  (length p <=? BPF_MAXINSNS)%nat && jumps_ok p 0 && ends_in_ret p.

(* ------------------------------------------------------------------ *)
(** ** Composition of programs *)

(** Jumping over a whole piece. *)
Lemma run_skip d p q a : run_bpf d (p ++ q) (length p) a = run_bpf d q 0 a.
Proof. induction p as [|i p IH]; [done|]. cbn. apply IH. Qed.

Lemma jumps_ok_app p q n : jumps_ok (p ++ q) n = jumps_ok p (length q + n) && jumps_ok q n.
Proof.
  induction p as [|i p IH]; [done|]. cbn [app jumps_ok]. rewrite IH, length_app.
  replace (length p + length q + n)%nat with (length p + (length q + n))%nat by lia. by rewrite andb_assoc.
Qed.

(** More room behind a program does no harm. *)
Lemma jumps_ok_more p n m : (n <= m)%nat -> jumps_ok p n = true -> jumps_ok p m = true.
Proof.
  intros L. induction p as [|i p IH]; [done|]. cbn [jumps_ok]. rewrite !andb_true_iff. intros [H Hp]. split; [|by apply IH].
  destruct (decode i) as [[]|]; try done; rewrite !andb_true_iff, !Nat.ltb_lt in *; lia.
Qed.
