(* ===== verification/PledgeTables.v ===== *)
(** * System calls and promises (libc/sysv/consts/nrlinux.h, libc/calls/pledge-linux.c)

    The numbers of system calls on x86-64 Linux, their names, and the groups of calls that each promise
    of pledge stands for. A number may carry flags in its upper four bits, which ask for a hand-written
    rule instead of a plain permission. *)

From S2P Require Import Prelude.

(* ------------------------------------------------------------------ *)
(** ** Numbers *)

Definition __NR_linux_exit : Z := 0x003c.
Definition __NR_linux_exit_group : Z := 0x00e7.
Definition __NR_linux_read : Z := 0x0000.
Definition __NR_linux_write : Z := 0x0001.
Definition __NR_linux_open : Z := 0x0002.
Definition __NR_linux_close : Z := 0x0003.
Definition __NR_linux_stat : Z := 0x0004.
Definition __NR_linux_fstat : Z := 0x0005.
Definition __NR_linux_lstat : Z := 0x0006.
Definition __NR_linux_poll : Z := 0x0007.
Definition __NR_linux_ppoll : Z := 0x010f.
Definition __NR_linux_brk : Z := 0x000c.
Definition __NR_linux_sigreturn : Z := 0x000f.
Definition __NR_linux_lseek : Z := 0x0008.
Definition __NR_linux_mmap : Z := 0x0009.
Definition __NR_linux_msync : Z := 0x001a.
Definition __NR_linux_mprotect : Z := 0x000a.
Definition __NR_linux_munmap : Z := 0x000b.
Definition __NR_linux_sigaction : Z := 0x000d.
Definition __NR_linux_sigprocmask : Z := 0x000e.
Definition __NR_linux_ioctl : Z := 0x0010.
Definition __NR_linux_pread : Z := 0x0011.
Definition __NR_linux_pwrite : Z := 0x0012.
Definition __NR_linux_readv : Z := 0x0013.
Definition __NR_linux_writev : Z := 0x0014.
Definition __NR_linux_access : Z := 0x0015.
Definition __NR_linux_pipe : Z := 0x0016.
Definition __NR_linux_select : Z := 0x0017.
Definition __NR_linux_pselect6 : Z := 0x010e.
Definition __NR_linux_sched_yield : Z := 0x0018.
Definition __NR_linux_mremap : Z := 0x0019.
Definition __NR_linux_mincore : Z := 0x001b.
Definition __NR_linux_madvise : Z := 0x001c.
Definition __NR_linux_shmget : Z := 0x001d.
Definition __NR_linux_shmat : Z := 0x001e.
Definition __NR_linux_shmctl : Z := 0x001f.
Definition __NR_linux_dup : Z := 0x0020.
Definition __NR_linux_dup2 : Z := 0x0021.
Definition __NR_linux_pause : Z := 0x0022.
Definition __NR_linux_nanosleep : Z := 0x0023.
Definition __NR_linux_getitimer : Z := 0x0024.
Definition __NR_linux_setitimer : Z := 0x0026.
Definition __NR_linux_alarm : Z := 0x0025.
Definition __NR_linux_getpid : Z := 0x0027.
Definition __NR_linux_sendfile : Z := 0x0028.
Definition __NR_linux_socket : Z := 0x0029.
Definition __NR_linux_connect : Z := 0x002a.
Definition __NR_linux_accept : Z := 0x002b.
Definition __NR_linux_sendto : Z := 0x002c.
Definition __NR_linux_recvfrom : Z := 0x002d.
Definition __NR_linux_sendmsg : Z := 0x002e.
Definition __NR_linux_recvmsg : Z := 0x002f.
Definition __NR_linux_shutdown : Z := 0x0030.
Definition __NR_linux_bind : Z := 0x0031.
Definition __NR_linux_listen : Z := 0x0032.
Definition __NR_linux_getsockname : Z := 0x0033.
Definition __NR_linux_getpeername : Z := 0x0034.
Definition __NR_linux_socketpair : Z := 0x0035.
Definition __NR_linux_setsockopt : Z := 0x0036.
Definition __NR_linux_getsockopt : Z := 0x0037.
Definition __NR_linux_fork : Z := 0x0039.
Definition __NR_linux_vfork : Z := 0x003a.
Definition __NR_linux_execve : Z := 0x003b.
Definition __NR_linux_wait4 : Z := 0x003d.
Definition __NR_linux_kill : Z := 0x003e.
Definition __NR_linux_clone : Z := 0x0038.
Definition __NR_linux_tkill : Z := 0x00c8.
Definition __NR_linux_futex : Z := 0x00ca.
Definition __NR_linux_set_robust_list : Z := 0x0111.
Definition __NR_linux_get_robust_list : Z := 0x0112.
Definition __NR_linux_uname : Z := 0x003f.
Definition __NR_linux_semget : Z := 0x0040.
Definition __NR_linux_semop : Z := 0x0041.
Definition __NR_linux_semctl : Z := 0x0042.
Definition __NR_linux_shmdt : Z := 0x0043.
Definition __NR_linux_msgget : Z := 0x0044.
Definition __NR_linux_msgsnd : Z := 0x0045.
Definition __NR_linux_msgrcv : Z := 0x0046.
Definition __NR_linux_msgctl : Z := 0x0047.
Definition __NR_linux_fcntl : Z := 0x0048.
Definition __NR_linux_flock : Z := 0x0049.
Definition __NR_linux_fsync : Z := 0x004a.
Definition __NR_linux_fdatasync : Z := 0x004b.
Definition __NR_linux_truncate : Z := 0x004c.
Definition __NR_linux_ftruncate : Z := 0x004d.
Definition __NR_linux_getcwd : Z := 0x004f.
Definition __NR_linux_chdir : Z := 0x0050.
Definition __NR_linux_fchdir : Z := 0x0051.
Definition __NR_linux_rename : Z := 0x0052.
Definition __NR_linux_mkdir : Z := 0x0053.
Definition __NR_linux_rmdir : Z := 0x0054.
Definition __NR_linux_creat : Z := 0x0055.
Definition __NR_linux_link : Z := 0x0056.
Definition __NR_linux_unlink : Z := 0x0057.
Definition __NR_linux_symlink : Z := 0x0058.
Definition __NR_linux_readlink : Z := 0x0059.
Definition __NR_linux_chmod : Z := 0x005a.
Definition __NR_linux_fchmod : Z := 0x005b.
Definition __NR_linux_chown : Z := 0x005c.
Definition __NR_linux_fchown : Z := 0x005d.
Definition __NR_linux_lchown : Z := 0x005e.
Definition __NR_linux_umask : Z := 0x005f.
Definition __NR_linux_gettimeofday : Z := 0x0060.
Definition __NR_linux_getrlimit : Z := 0x0061.
Definition __NR_linux_getrusage : Z := 0x0062.
Definition __NR_linux_sysinfo : Z := 0x0063.
Definition __NR_linux_times : Z := 0x0064.
Definition __NR_linux_ptrace : Z := 0x0065.
Definition __NR_linux_syslog : Z := 0x0067.
Definition __NR_linux_getuid : Z := 0x0066.
Definition __NR_linux_getgid : Z := 0x0068.
Definition __NR_linux_getppid : Z := 0x006e.
Definition __NR_linux_getpgrp : Z := 0x006f.
Definition __NR_linux_setsid : Z := 0x0070.
Definition __NR_linux_getsid : Z := 0x007c.
Definition __NR_linux_getpgid : Z := 0x0079.
Definition __NR_linux_setpgid : Z := 0x006d.
Definition __NR_linux_geteuid : Z := 0x006b.
Definition __NR_linux_getegid : Z := 0x006c.
Definition __NR_linux_getgroups : Z := 0x0073.
Definition __NR_linux_setgroups : Z := 0x0074.
Definition __NR_linux_setreuid : Z := 0x0071.
Definition __NR_linux_setregid : Z := 0x0072.
Definition __NR_linux_setuid : Z := 0x0069.
Definition __NR_linux_setgid : Z := 0x006a.
Definition __NR_linux_setresuid : Z := 0x0075.
Definition __NR_linux_setresgid : Z := 0x0077.
Definition __NR_linux_getresuid : Z := 0x0076.
Definition __NR_linux_getresgid : Z := 0x0078.
Definition __NR_linux_sigpending : Z := 0x007f.
Definition __NR_linux_sigsuspend : Z := 0x0082.
Definition __NR_linux_sigaltstack : Z := 0x0083.
Definition __NR_linux_mknod : Z := 0x0085.
Definition __NR_linux_mknodat : Z := 0x0103.
Definition __NR_linux_statfs : Z := 0x0089.
Definition __NR_linux_fstatfs : Z := 0x008a.
Definition __NR_linux_getpriority : Z := 0x008c.
Definition __NR_linux_setpriority : Z := 0x008d.
Definition __NR_linux_mlock : Z := 0x0095.
Definition __NR_linux_munlock : Z := 0x0096.
Definition __NR_linux_mlockall : Z := 0x0097.
Definition __NR_linux_munlockall : Z := 0x0098.
Definition __NR_linux_setrlimit : Z := 0x00a0.
Definition __NR_linux_chroot : Z := 0x00a1.
Definition __NR_linux_sync : Z := 0x00a2.
Definition __NR_linux_acct : Z := 0x00a3.
Definition __NR_linux_settimeofday : Z := 0x00a4.
Definition __NR_linux_mount : Z := 0x00a5.
Definition __NR_linux_reboot : Z := 0x00a9.
Definition __NR_linux_quotactl : Z := 0x00b3.
Definition __NR_linux_setfsuid : Z := 0x007a.
Definition __NR_linux_setfsgid : Z := 0x007b.
Definition __NR_linux_capget : Z := 0x007d.
Definition __NR_linux_capset : Z := 0x007e.
Definition __NR_linux_sigtimedwait : Z := 0x0080.
Definition __NR_linux_sigqueueinfo : Z := 0x0081.
Definition __NR_linux_personality : Z := 0x0087.
Definition __NR_linux_ustat : Z := 0x0088.
Definition __NR_linux_sysfs : Z := 0x008b.
Definition __NR_linux_sched_setparam : Z := 0x008e.
Definition __NR_linux_sched_getparam : Z := 0x008f.
Definition __NR_linux_sched_setscheduler : Z := 0x0090.
Definition __NR_linux_sched_getscheduler : Z := 0x0091.
Definition __NR_linux_sched_get_priority_max : Z := 0x0092.
Definition __NR_linux_sched_get_priority_min : Z := 0x0093.
Definition __NR_linux_sched_rr_get_interval : Z := 0x0094.
Definition __NR_linux_vhangup : Z := 0x0099.
Definition __NR_linux_modify_ldt : Z := 0x009a.
Definition __NR_linux_pivot_root : Z := 0x009b.
Definition __NR_linux__sysctl : Z := 0x009c.
Definition __NR_linux_prctl : Z := 0x009d.
Definition __NR_linux_arch_prctl : Z := 0x009e.
Definition __NR_linux_adjtimex : Z := 0x009f.
Definition __NR_linux_umount2 : Z := 0x00a6.
Definition __NR_linux_swapon : Z := 0x00a7.
Definition __NR_linux_swapoff : Z := 0x00a8.
Definition __NR_linux_sethostname : Z := 0x00aa.
Definition __NR_linux_setdomainname : Z := 0x00ab.
Definition __NR_linux_iopl : Z := 0x00ac.
Definition __NR_linux_ioperm : Z := 0x00ad.
Definition __NR_linux_init_module : Z := 0x00af.
Definition __NR_linux_delete_module : Z := 0x00b0.
Definition __NR_linux_gettid : Z := 0x00ba.
Definition __NR_linux_readahead : Z := 0x00bb.
Definition __NR_linux_setxattr : Z := 0x00bc.
Definition __NR_linux_fsetxattr : Z := 0x00be.
Definition __NR_linux_getxattr : Z := 0x00bf.
Definition __NR_linux_fgetxattr : Z := 0x00c1.
Definition __NR_linux_listxattr : Z := 0x00c2.
Definition __NR_linux_flistxattr : Z := 0x00c4.
Definition __NR_linux_removexattr : Z := 0x00c5.
Definition __NR_linux_fremovexattr : Z := 0x00c7.
Definition __NR_linux_lsetxattr : Z := 0x00bd.
Definition __NR_linux_lgetxattr : Z := 0x00c0.
Definition __NR_linux_llistxattr : Z := 0x00c3.
Definition __NR_linux_lremovexattr : Z := 0x00c6.
Definition __NR_linux_sched_setaffinity : Z := 0x00cb.
Definition __NR_linux_sched_getaffinity : Z := 0x00cc.
Definition __NR_linux_io_setup : Z := 0x00ce.
Definition __NR_linux_io_destroy : Z := 0x00cf.
Definition __NR_linux_io_getevents : Z := 0x00d0.
Definition __NR_linux_io_submit : Z := 0x00d1.
Definition __NR_linux_io_cancel : Z := 0x00d2.
Definition __NR_linux_lookup_dcookie : Z := 0x00d4.
Definition __NR_linux_epoll_create : Z := 0x00d5.
Definition __NR_linux_epoll_wait : Z := 0x00e8.
Definition __NR_linux_epoll_ctl : Z := 0x00e9.
Definition __NR_linux_getdents : Z := 0x00d9.
Definition __NR_linux_oldgetdents : Z := 0x004e.
Definition __NR_linux_set_tid_address : Z := 0x00da.
Definition __NR_linux_restart_syscall : Z := 0x00db.
Definition __NR_linux_semtimedop : Z := 0x00dc.
Definition __NR_linux_fadvise : Z := 0x00dd.
Definition __NR_linux_timer_create : Z := 0x00de.
Definition __NR_linux_timer_settime : Z := 0x00df.
Definition __NR_linux_timer_gettime : Z := 0x00e0.
Definition __NR_linux_timer_getoverrun : Z := 0x00e1.
Definition __NR_linux_timer_delete : Z := 0x00e2.
Definition __NR_linux_clock_settime : Z := 0x00e3.
Definition __NR_linux_clock_gettime : Z := 0x00e4.
Definition __NR_linux_clock_getres : Z := 0x00e5.
Definition __NR_linux_clock_nanosleep : Z := 0x00e6.
Definition __NR_linux_tgkill : Z := 0x00ea.
Definition __NR_linux_mbind : Z := 0x00ed.
Definition __NR_linux_set_mempolicy : Z := 0x00ee.
Definition __NR_linux_get_mempolicy : Z := 0x00ef.
Definition __NR_linux_mq_open : Z := 0x00f0.
Definition __NR_linux_mq_unlink : Z := 0x00f1.
Definition __NR_linux_mq_timedsend : Z := 0x00f2.
Definition __NR_linux_mq_timedreceive : Z := 0x00f3.
Definition __NR_linux_mq_notify : Z := 0x00f4.
Definition __NR_linux_mq_getsetattr : Z := 0x00f5.
Definition __NR_linux_kexec_load : Z := 0x00f6.
Definition __NR_linux_waitid : Z := 0x00f7.
Definition __NR_linux_add_key : Z := 0x00f8.
Definition __NR_linux_request_key : Z := 0x00f9.
Definition __NR_linux_keyctl : Z := 0x00fa.
Definition __NR_linux_ioprio_set : Z := 0x00fb.
Definition __NR_linux_ioprio_get : Z := 0x00fc.
Definition __NR_linux_inotify_init : Z := 0x00fd.
Definition __NR_linux_inotify_add_watch : Z := 0x00fe.
Definition __NR_linux_inotify_rm_watch : Z := 0x00ff.
Definition __NR_linux_openat : Z := 0x0101.
Definition __NR_linux_mkdirat : Z := 0x0102.
Definition __NR_linux_fchownat : Z := 0x0104.
Definition __NR_linux_utime : Z := 0x0084.
Definition __NR_linux_utimes : Z := 0x00eb.
Definition __NR_linux_futimesat : Z := 0x0105.
Definition __NR_linux_fstatat : Z := 0x0106.
Definition __NR_linux_unlinkat : Z := 0x0107.
Definition __NR_linux_renameat : Z := 0x0108.
Definition __NR_linux_linkat : Z := 0x0109.
Definition __NR_linux_symlinkat : Z := 0x010a.
Definition __NR_linux_readlinkat : Z := 0x010b.
Definition __NR_linux_fchmodat : Z := 0x010c.
Definition __NR_linux_faccessat : Z := 0x010d.
Definition __NR_linux_unshare : Z := 0x0110.
Definition __NR_linux_splice : Z := 0x0113.
Definition __NR_linux_tee : Z := 0x0114.
Definition __NR_linux_sync_file_range : Z := 0x0115.
Definition __NR_linux_vmsplice : Z := 0x0116.
Definition __NR_linux_migrate_pages : Z := 0x0100.
Definition __NR_linux_move_pages : Z := 0x0117.
Definition __NR_linux_preadv : Z := 0x0127.
Definition __NR_linux_pwritev : Z := 0x0128.
Definition __NR_linux_utimensat : Z := 0x0118.
Definition __NR_linux_fallocate : Z := 0x011d.
Definition __NR_linux_accept4 : Z := 0x0120.
Definition __NR_linux_dup3 : Z := 0x0124.
Definition __NR_linux_pipe2 : Z := 0x0125.
Definition __NR_linux_epoll_pwait : Z := 0x0119.
Definition __NR_linux_epoll_create1 : Z := 0x0123.
Definition __NR_linux_perf_event_open : Z := 0x012a.
Definition __NR_linux_inotify_init1 : Z := 0x0126.
Definition __NR_linux_tgsigqueueinfo : Z := 0x0129.
Definition __NR_linux_signalfd : Z := 0x011a.
Definition __NR_linux_signalfd4 : Z := 0x0121.
Definition __NR_linux_eventfd : Z := 0x011c.
Definition __NR_linux_eventfd2 : Z := 0x0122.
Definition __NR_linux_timerfd_create : Z := 0x011b.
Definition __NR_linux_timerfd_settime : Z := 0x011e.
Definition __NR_linux_timerfd_gettime : Z := 0x011f.
Definition __NR_linux_recvmmsg : Z := 0x012b.
Definition __NR_linux_fanotify_init : Z := 0x012c.
Definition __NR_linux_fanotify_mark : Z := 0x012d.
Definition __NR_linux_prlimit : Z := 0x012e.
Definition __NR_linux_name_to_handle_at : Z := 0x012f.
Definition __NR_linux_open_by_handle_at : Z := 0x0130.
Definition __NR_linux_clock_adjtime : Z := 0x0131.
Definition __NR_linux_syncfs : Z := 0x0132.
Definition __NR_linux_sendmmsg : Z := 0x0133.
Definition __NR_linux_setns : Z := 0x0134.
Definition __NR_linux_getcpu : Z := 0x0135.
Definition __NR_linux_process_vm_readv : Z := 0x0136.
Definition __NR_linux_process_vm_writev : Z := 0x0137.
Definition __NR_linux_kcmp : Z := 0x0138.
Definition __NR_linux_finit_module : Z := 0x0139.
Definition __NR_linux_sched_setattr : Z := 0x013a.
Definition __NR_linux_sched_getattr : Z := 0x013b.
Definition __NR_linux_renameat2 : Z := 0x013c.
Definition __NR_linux_seccomp : Z := 0x013d.
Definition __NR_linux_getrandom : Z := 0x013e.
Definition __NR_linux_memfd_create : Z := 0x013f.
Definition __NR_linux_kexec_file_load : Z := 0x0140.
Definition __NR_linux_bpf : Z := 0x0141.
Definition __NR_linux_execveat : Z := 0x0142.
Definition __NR_linux_userfaultfd : Z := 0x0143.
Definition __NR_linux_membarrier : Z := 0x0144.
Definition __NR_linux_mlock2 : Z := 0x0145.
Definition __NR_linux_copy_file_range : Z := 0x0146.
Definition __NR_linux_preadv2 : Z := 0x0147.
Definition __NR_linux_pwritev2 : Z := 0x0148.
Definition __NR_linux_pkey_mprotect : Z := 0x0149.
Definition __NR_linux_pkey_alloc : Z := 0x014a.
Definition __NR_linux_pkey_free : Z := 0x014b.
Definition __NR_linux_statx : Z := 0x014c.
Definition __NR_linux_io_pgetevents : Z := 0x014d.
Definition __NR_linux_rseq : Z := 0x014e.
Definition __NR_linux_pidfd_send_signal : Z := 0x01a8.
Definition __NR_linux_io_uring_setup : Z := 0x01a9.
Definition __NR_linux_io_uring_enter : Z := 0x01aa.
Definition __NR_linux_io_uring_register : Z := 0x01ab.
Definition __NR_linux_open_tree : Z := 0x01ac.
Definition __NR_linux_move_mount : Z := 0x01ad.
Definition __NR_linux_fsopen : Z := 0x01ae.
Definition __NR_linux_fsconfig : Z := 0x01af.
Definition __NR_linux_fsmount : Z := 0x01b0.
Definition __NR_linux_fspick : Z := 0x01b1.
Definition __NR_linux_pidfd_open : Z := 0x01b2.
Definition __NR_linux_clone3 : Z := 0x01b3.
Definition __NR_linux_close_range : Z := 0x01b4.
Definition __NR_linux_openat2 : Z := 0x01b5.
Definition __NR_linux_pidfd_getfd : Z := 0x01b6.
Definition __NR_linux_faccessat2 : Z := 0x01b7.
Definition __NR_linux_process_madvise : Z := 0x01b8.
Definition __NR_linux_epoll_pwait2 : Z := 0x01b9.
Definition __NR_linux_mount_setattr : Z := 0x01ba.
Definition __NR_linux_quotactl_fd : Z := 0x01bb.
Definition __NR_linux_landlock_create_ruleset : Z := 0x01bc.
Definition __NR_linux_landlock_add_rule : Z := 0x01bd.
Definition __NR_linux_landlock_restrict_self : Z := 0x01be.
Definition __NR_linux_memfd_secret : Z := 0x01bf.
Definition __NR_linux_process_mrelease : Z := 0x01c0.
Definition __NR_linux_futex_waitv : Z := 0x01c1.
Definition __NR_linux_set_mempolicy_home_node : Z := 0x01c2.

(* ------------------------------------------------------------------ *)
(** ** Flags of a number *)

Definition SPECIAL : Z := 0xf000.
Definition SELF : Z := 0x8000.
Definition ADDRLESS : Z := 0x2000.
Definition INET : Z := 0x2000.
Definition ANET : Z := 0x8000.
Definition LOCK : Z := 0x4000.
Definition NOEXEC : Z := 0x8000.
Definition EXEC : Z := 0x4000.
Definition READONLY : Z := 0x8000.
Definition WRITEONLY : Z := 0x4000.
Definition CREATONLY : Z := 0x2000.
Definition STDIO : Z := 0x8000.
Definition THREAD : Z := 0x8000.
Definition TTY : Z := 0x8000.
Definition UNIX : Z := 0x4000.
Definition NOBITS : Z := 0x8000.
Definition RESTRICT : Z := 0x1000.

(** [a | b] of two numbers. *)
Infix ".|" := Z.lor (at level 50, left associativity) : c_scope.

(* ------------------------------------------------------------------ *)
(** ** Names *)

Definition kSyscallName : list (Z * bytes) :=
  [ (__NR_linux_exit, bstr "exit");
    (__NR_linux_exit_group, bstr "exit_group");
    (__NR_linux_read, bstr "read");
    (__NR_linux_write, bstr "write");
    (__NR_linux_open, bstr "open");
    (__NR_linux_close, bstr "close");
    (__NR_linux_stat, bstr "stat");
    (__NR_linux_fstat, bstr "fstat");
    (__NR_linux_lstat, bstr "lstat");
    (__NR_linux_poll, bstr "poll");
    (__NR_linux_ppoll, bstr "ppoll");
    (__NR_linux_brk, bstr "brk");
    (__NR_linux_sigreturn, bstr "sigreturn");
    (__NR_linux_lseek, bstr "lseek");
    (__NR_linux_mmap, bstr "mmap");
    (__NR_linux_msync, bstr "msync");
    (__NR_linux_mprotect, bstr "mprotect");
    (__NR_linux_munmap, bstr "munmap");
    (__NR_linux_sigaction, bstr "sigaction");
    (__NR_linux_sigprocmask, bstr "sigprocmask");
    (__NR_linux_ioctl, bstr "ioctl");
    (__NR_linux_pread, bstr "pread");
    (__NR_linux_pwrite, bstr "pwrite");
    (__NR_linux_readv, bstr "readv");
    (__NR_linux_writev, bstr "writev");
    (__NR_linux_access, bstr "access");
    (__NR_linux_pipe, bstr "pipe");
    (__NR_linux_select, bstr "select");
    (__NR_linux_pselect6, bstr "pselect6");
    (__NR_linux_sched_yield, bstr "sched_yield");
    (__NR_linux_mremap, bstr "mremap");
    (__NR_linux_mincore, bstr "mincore");
    (__NR_linux_madvise, bstr "madvise");
    (__NR_linux_shmget, bstr "shmget");
    (__NR_linux_shmat, bstr "shmat");
    (__NR_linux_shmctl, bstr "shmctl");
    (__NR_linux_dup, bstr "dup");
    (__NR_linux_dup2, bstr "dup2");
    (__NR_linux_pause, bstr "pause");
    (__NR_linux_nanosleep, bstr "nanosleep");
    (__NR_linux_getitimer, bstr "getitimer");
    (__NR_linux_setitimer, bstr "setitimer");
    (__NR_linux_alarm, bstr "alarm");
    (__NR_linux_getpid, bstr "getpid");
    (__NR_linux_sendfile, bstr "sendfile");
    (__NR_linux_socket, bstr "socket");
    (__NR_linux_connect, bstr "connect");
    (__NR_linux_accept, bstr "accept");
    (__NR_linux_sendto, bstr "sendto");
    (__NR_linux_recvfrom, bstr "recvfrom");
    (__NR_linux_sendmsg, bstr "sendmsg");
    (__NR_linux_recvmsg, bstr "recvmsg");
    (__NR_linux_shutdown, bstr "shutdown");
    (__NR_linux_bind, bstr "bind");
    (__NR_linux_listen, bstr "listen");
    (__NR_linux_getsockname, bstr "getsockname");
    (__NR_linux_getpeername, bstr "getpeername");
    (__NR_linux_socketpair, bstr "socketpair");
    (__NR_linux_setsockopt, bstr "setsockopt");
    (__NR_linux_getsockopt, bstr "getsockopt");
    (__NR_linux_fork, bstr "fork");
    (__NR_linux_vfork, bstr "vfork");
    (__NR_linux_execve, bstr "execve");
    (__NR_linux_wait4, bstr "wait4");
    (__NR_linux_kill, bstr "kill");
    (__NR_linux_clone, bstr "clone");
    (__NR_linux_tkill, bstr "tkill");
    (__NR_linux_futex, bstr "futex");
    (__NR_linux_set_robust_list, bstr "set_robust_list");
    (__NR_linux_get_robust_list, bstr "get_robust_list");
    (__NR_linux_uname, bstr "uname");
    (__NR_linux_semget, bstr "semget");
    (__NR_linux_semop, bstr "semop");
    (__NR_linux_semctl, bstr "semctl");
    (__NR_linux_shmdt, bstr "shmdt");
    (__NR_linux_msgget, bstr "msgget");
    (__NR_linux_msgsnd, bstr "msgsnd");
    (__NR_linux_msgrcv, bstr "msgrcv");
    (__NR_linux_msgctl, bstr "msgctl");
    (__NR_linux_fcntl, bstr "fcntl");
    (__NR_linux_flock, bstr "flock");
    (__NR_linux_fsync, bstr "fsync");
    (__NR_linux_fdatasync, bstr "fdatasync");
    (__NR_linux_truncate, bstr "truncate");
    (__NR_linux_ftruncate, bstr "ftruncate");
    (__NR_linux_getcwd, bstr "getcwd");
    (__NR_linux_chdir, bstr "chdir");
    (__NR_linux_fchdir, bstr "fchdir");
    (__NR_linux_rename, bstr "rename");
    (__NR_linux_mkdir, bstr "mkdir");
    (__NR_linux_rmdir, bstr "rmdir");
    (__NR_linux_creat, bstr "creat");
    (__NR_linux_link, bstr "link");
    (__NR_linux_unlink, bstr "unlink");
    (__NR_linux_symlink, bstr "symlink");
    (__NR_linux_readlink, bstr "readlink");
    (__NR_linux_chmod, bstr "chmod");
    (__NR_linux_fchmod, bstr "fchmod");
    (__NR_linux_chown, bstr "chown");
    (__NR_linux_fchown, bstr "fchown");
    (__NR_linux_lchown, bstr "lchown");
    (__NR_linux_umask, bstr "umask");
    (__NR_linux_gettimeofday, bstr "gettimeofday");
    (__NR_linux_getrlimit, bstr "getrlimit");
    (__NR_linux_getrusage, bstr "getrusage");
    (__NR_linux_sysinfo, bstr "sysinfo");
    (__NR_linux_times, bstr "times");
    (__NR_linux_ptrace, bstr "ptrace");
    (__NR_linux_syslog, bstr "syslog");
    (__NR_linux_getuid, bstr "getuid");
    (__NR_linux_getgid, bstr "getgid");
    (__NR_linux_getppid, bstr "getppid");
    (__NR_linux_getpgrp, bstr "getpgrp");
    (__NR_linux_setsid, bstr "setsid");
    (__NR_linux_getsid, bstr "getsid");
    (__NR_linux_getpgid, bstr "getpgid");
    (__NR_linux_setpgid, bstr "setpgid");
    (__NR_linux_geteuid, bstr "geteuid");
    (__NR_linux_getegid, bstr "getegid");
    (__NR_linux_getgroups, bstr "getgroups");
    (__NR_linux_setgroups, bstr "setgroups");
    (__NR_linux_setreuid, bstr "setreuid");
    (__NR_linux_setregid, bstr "setregid");
    (__NR_linux_setuid, bstr "setuid");
    (__NR_linux_setgid, bstr "setgid");
    (__NR_linux_setresuid, bstr "setresuid");
    (__NR_linux_setresgid, bstr "setresgid");
    (__NR_linux_getresuid, bstr "getresuid");
    (__NR_linux_getresgid, bstr "getresgid");
    (__NR_linux_sigpending, bstr "sigpending");
    (__NR_linux_sigsuspend, bstr "sigsuspend");
    (__NR_linux_sigaltstack, bstr "sigaltstack");
    (__NR_linux_mknod, bstr "mknod");
    (__NR_linux_mknodat, bstr "mknodat");
    (__NR_linux_statfs, bstr "statfs");
    (__NR_linux_fstatfs, bstr "fstatfs");
    (__NR_linux_getpriority, bstr "getpriority");
    (__NR_linux_setpriority, bstr "setpriority");
    (__NR_linux_mlock, bstr "mlock");
    (__NR_linux_munlock, bstr "munlock");
    (__NR_linux_mlockall, bstr "mlockall");
    (__NR_linux_munlockall, bstr "munlockall");
    (__NR_linux_setrlimit, bstr "setrlimit");
    (__NR_linux_chroot, bstr "chroot");
    (__NR_linux_sync, bstr "sync");
    (__NR_linux_acct, bstr "acct");
    (__NR_linux_settimeofday, bstr "settimeofday");
    (__NR_linux_mount, bstr "mount");
    (__NR_linux_reboot, bstr "reboot");
    (__NR_linux_quotactl, bstr "quotactl");
    (__NR_linux_setfsuid, bstr "setfsuid");
    (__NR_linux_setfsgid, bstr "setfsgid");
    (__NR_linux_capget, bstr "capget");
    (__NR_linux_capset, bstr "capset");
    (__NR_linux_sigtimedwait, bstr "sigtimedwait");
    (__NR_linux_sigqueueinfo, bstr "sigqueueinfo");
    (__NR_linux_personality, bstr "personality");
    (__NR_linux_ustat, bstr "ustat");
    (__NR_linux_sysfs, bstr "sysfs");
    (__NR_linux_sched_setparam, bstr "sched_setparam");
    (__NR_linux_sched_getparam, bstr "sched_getparam");
    (__NR_linux_sched_setscheduler, bstr "sched_setscheduler");
    (__NR_linux_sched_getscheduler, bstr "sched_getscheduler");
    (__NR_linux_sched_get_priority_max, bstr "sched_get_priority_max");
    (__NR_linux_sched_get_priority_min, bstr "sched_get_priority_min");
    (__NR_linux_sched_rr_get_interval, bstr "sched_rr_get_interval");
    (__NR_linux_vhangup, bstr "vhangup");
    (__NR_linux_modify_ldt, bstr "modify_ldt");
    (__NR_linux_pivot_root, bstr "pivot_root");
    (__NR_linux__sysctl, bstr "_sysctl");
    (__NR_linux_prctl, bstr "prctl");
    (__NR_linux_arch_prctl, bstr "arch_prctl");
    (__NR_linux_adjtimex, bstr "adjtimex");
    (__NR_linux_umount2, bstr "umount2");
    (__NR_linux_swapon, bstr "swapon");
    (__NR_linux_swapoff, bstr "swapoff");
    (__NR_linux_sethostname, bstr "sethostname");
    (__NR_linux_setdomainname, bstr "setdomainname");
    (__NR_linux_iopl, bstr "iopl");
    (__NR_linux_ioperm, bstr "ioperm");
    (__NR_linux_init_module, bstr "init_module");
    (__NR_linux_delete_module, bstr "delete_module");
    (__NR_linux_gettid, bstr "gettid");
    (__NR_linux_readahead, bstr "readahead");
    (__NR_linux_setxattr, bstr "setxattr");
    (__NR_linux_fsetxattr, bstr "fsetxattr");
    (__NR_linux_getxattr, bstr "getxattr");
    (__NR_linux_fgetxattr, bstr "fgetxattr");
    (__NR_linux_listxattr, bstr "listxattr");
    (__NR_linux_flistxattr, bstr "flistxattr");
    (__NR_linux_removexattr, bstr "removexattr");
    (__NR_linux_fremovexattr, bstr "fremovexattr");
    (__NR_linux_lsetxattr, bstr "lsetxattr");
    (__NR_linux_lgetxattr, bstr "lgetxattr");
    (__NR_linux_llistxattr, bstr "llistxattr");
    (__NR_linux_lremovexattr, bstr "lremovexattr");
    (__NR_linux_sched_setaffinity, bstr "sched_setaffinity");
    (__NR_linux_sched_getaffinity, bstr "sched_getaffinity");
    (__NR_linux_io_setup, bstr "io_setup");
    (__NR_linux_io_destroy, bstr "io_destroy");
    (__NR_linux_io_getevents, bstr "io_getevents");
    (__NR_linux_io_submit, bstr "io_submit");
    (__NR_linux_io_cancel, bstr "io_cancel");
    (__NR_linux_lookup_dcookie, bstr "lookup_dcookie");
    (__NR_linux_epoll_create, bstr "epoll_create");
    (__NR_linux_epoll_wait, bstr "epoll_wait");
    (__NR_linux_epoll_ctl, bstr "epoll_ctl");
    (__NR_linux_getdents, bstr "getdents");
    (__NR_linux_oldgetdents, bstr "oldgetdents");
    (__NR_linux_set_tid_address, bstr "set_tid_address");
    (__NR_linux_restart_syscall, bstr "restart_syscall");
    (__NR_linux_semtimedop, bstr "semtimedop");
    (__NR_linux_fadvise, bstr "fadvise");
    (__NR_linux_timer_create, bstr "timer_create");
    (__NR_linux_timer_settime, bstr "timer_settime");
    (__NR_linux_timer_gettime, bstr "timer_gettime");
    (__NR_linux_timer_getoverrun, bstr "timer_getoverrun");
    (__NR_linux_timer_delete, bstr "timer_delete");
    (__NR_linux_clock_settime, bstr "clock_settime");
    (__NR_linux_clock_gettime, bstr "clock_gettime");
    (__NR_linux_clock_getres, bstr "clock_getres");
    (__NR_linux_clock_nanosleep, bstr "clock_nanosleep");
    (__NR_linux_tgkill, bstr "tgkill");
    (__NR_linux_mbind, bstr "mbind");
    (__NR_linux_set_mempolicy, bstr "set_mempolicy");
    (__NR_linux_get_mempolicy, bstr "get_mempolicy");
    (__NR_linux_mq_open, bstr "mq_open");
    (__NR_linux_mq_unlink, bstr "mq_unlink");
    (__NR_linux_mq_timedsend, bstr "mq_timedsend");
    (__NR_linux_mq_timedreceive, bstr "mq_timedreceive");
    (__NR_linux_mq_notify, bstr "mq_notify");
    (__NR_linux_mq_getsetattr, bstr "mq_getsetattr");
    (__NR_linux_kexec_load, bstr "kexec_load");
    (__NR_linux_waitid, bstr "waitid");
    (__NR_linux_add_key, bstr "add_key");
    (__NR_linux_request_key, bstr "request_key");
    (__NR_linux_keyctl, bstr "keyctl");
    (__NR_linux_ioprio_set, bstr "ioprio_set");
    (__NR_linux_ioprio_get, bstr "ioprio_get");
    (__NR_linux_inotify_init, bstr "inotify_init");
    (__NR_linux_inotify_add_watch, bstr "inotify_add_watch");
    (__NR_linux_inotify_rm_watch, bstr "inotify_rm_watch");
    (__NR_linux_openat, bstr "openat");
    (__NR_linux_mkdirat, bstr "mkdirat");
    (__NR_linux_fchownat, bstr "fchownat");
    (__NR_linux_utime, bstr "utime");
    (__NR_linux_utimes, bstr "utimes");
    (__NR_linux_futimesat, bstr "futimesat");
    (__NR_linux_fstatat, bstr "fstatat");
    (__NR_linux_unlinkat, bstr "unlinkat");
    (__NR_linux_renameat, bstr "renameat");
    (__NR_linux_linkat, bstr "linkat");
    (__NR_linux_symlinkat, bstr "symlinkat");
    (__NR_linux_readlinkat, bstr "readlinkat");
    (__NR_linux_fchmodat, bstr "fchmodat");
    (__NR_linux_faccessat, bstr "faccessat");
    (__NR_linux_unshare, bstr "unshare");
    (__NR_linux_splice, bstr "splice");
    (__NR_linux_tee, bstr "tee");
    (__NR_linux_sync_file_range, bstr "sync_file_range");
    (__NR_linux_vmsplice, bstr "vmsplice");
    (__NR_linux_migrate_pages, bstr "migrate_pages");
    (__NR_linux_move_pages, bstr "move_pages");
    (__NR_linux_preadv, bstr "preadv");
    (__NR_linux_pwritev, bstr "pwritev");
    (__NR_linux_utimensat, bstr "utimensat");
    (__NR_linux_fallocate, bstr "fallocate");
    (__NR_linux_accept4, bstr "accept4");
    (__NR_linux_dup3, bstr "dup3");
    (__NR_linux_pipe2, bstr "pipe2");
    (__NR_linux_epoll_pwait, bstr "epoll_pwait");
    (__NR_linux_epoll_create1, bstr "epoll_create1");
    (__NR_linux_perf_event_open, bstr "perf_event_open");
    (__NR_linux_inotify_init1, bstr "inotify_init1");
    (__NR_linux_tgsigqueueinfo, bstr "tgsigqueueinfo");
    (__NR_linux_signalfd, bstr "signalfd");
    (__NR_linux_signalfd4, bstr "signalfd4");
    (__NR_linux_eventfd, bstr "eventfd");
    (__NR_linux_eventfd2, bstr "eventfd2");
    (__NR_linux_timerfd_create, bstr "timerfd_create");
    (__NR_linux_timerfd_settime, bstr "timerfd_settime");
    (__NR_linux_timerfd_gettime, bstr "timerfd_gettime");
    (__NR_linux_recvmmsg, bstr "recvmmsg");
    (__NR_linux_fanotify_init, bstr "fanotify_init");
    (__NR_linux_fanotify_mark, bstr "fanotify_mark");
    (__NR_linux_prlimit, bstr "prlimit");
    (__NR_linux_name_to_handle_at, bstr "name_to_handle_at");
    (__NR_linux_open_by_handle_at, bstr "open_by_handle_at");
    (__NR_linux_clock_adjtime, bstr "clock_adjtime");
    (__NR_linux_syncfs, bstr "syncfs");
    (__NR_linux_sendmmsg, bstr "sendmmsg");
    (__NR_linux_setns, bstr "setns");
    (__NR_linux_getcpu, bstr "getcpu");
    (__NR_linux_process_vm_readv, bstr "process_vm_readv");
    (__NR_linux_process_vm_writev, bstr "process_vm_writev");
    (__NR_linux_kcmp, bstr "kcmp");
    (__NR_linux_finit_module, bstr "finit_module");
    (__NR_linux_sched_setattr, bstr "sched_setattr");
    (__NR_linux_sched_getattr, bstr "sched_getattr");
    (__NR_linux_renameat2, bstr "renameat2");
    (__NR_linux_seccomp, bstr "seccomp");
    (__NR_linux_getrandom, bstr "getrandom");
    (__NR_linux_memfd_create, bstr "memfd_create");
    (__NR_linux_kexec_file_load, bstr "kexec_file_load");
    (__NR_linux_bpf, bstr "bpf");
    (__NR_linux_execveat, bstr "execveat");
    (__NR_linux_userfaultfd, bstr "userfaultfd");
    (__NR_linux_membarrier, bstr "membarrier");
    (__NR_linux_mlock2, bstr "mlock2");
    (__NR_linux_copy_file_range, bstr "copy_file_range");
    (__NR_linux_preadv2, bstr "preadv2");
    (__NR_linux_pwritev2, bstr "pwritev2");
    (__NR_linux_pkey_mprotect, bstr "pkey_mprotect");
    (__NR_linux_pkey_alloc, bstr "pkey_alloc");
    (__NR_linux_pkey_free, bstr "pkey_free");
    (__NR_linux_statx, bstr "statx");
    (__NR_linux_io_pgetevents, bstr "io_pgetevents");
    (__NR_linux_rseq, bstr "rseq");
    (__NR_linux_pidfd_send_signal, bstr "pidfd_send_signal");
    (__NR_linux_io_uring_setup, bstr "io_uring_setup");
    (__NR_linux_io_uring_enter, bstr "io_uring_enter");
    (__NR_linux_io_uring_register, bstr "io_uring_register");
    (__NR_linux_open_tree, bstr "open_tree");
    (__NR_linux_move_mount, bstr "move_mount");
    (__NR_linux_fsopen, bstr "fsopen");
    (__NR_linux_fsconfig, bstr "fsconfig");
    (__NR_linux_fsmount, bstr "fsmount");
    (__NR_linux_fspick, bstr "fspick");
    (__NR_linux_pidfd_open, bstr "pidfd_open");
    (__NR_linux_clone3, bstr "clone3");
    (__NR_linux_close_range, bstr "close_range");
    (__NR_linux_openat2, bstr "openat2");
    (__NR_linux_pidfd_getfd, bstr "pidfd_getfd");
    (__NR_linux_faccessat2, bstr "faccessat2");
    (__NR_linux_process_madvise, bstr "process_madvise");
    (__NR_linux_epoll_pwait2, bstr "epoll_pwait2");
    (__NR_linux_mount_setattr, bstr "mount_setattr");
    (__NR_linux_quotactl_fd, bstr "quotactl_fd");
    (__NR_linux_landlock_create_ruleset, bstr "landlock_create_ruleset");
    (__NR_linux_landlock_add_rule, bstr "landlock_add_rule");
    (__NR_linux_landlock_restrict_self, bstr "landlock_restrict_self");
    (__NR_linux_memfd_secret, bstr "memfd_secret");
    (__NR_linux_process_mrelease, bstr "process_mrelease");
    (__NR_linux_futex_waitv, bstr "futex_waitv");
    (__NR_linux_set_mempolicy_home_node, bstr "set_mempolicy_home_node") ].

(* ------------------------------------------------------------------ *)
(** ** Groups *)

Definition kPledgeDefault : list Z :=
  [ __NR_linux_exit;
    __NR_linux_arch_prctl ].

Definition kPledgeStdio : list Z :=
  [ __NR_linux_sigreturn;
    __NR_linux_restart_syscall;
    __NR_linux_exit_group;
    __NR_linux_sched_yield;
    __NR_linux_sched_getaffinity;
    __NR_linux_clock_getres;
    __NR_linux_clock_gettime;
    __NR_linux_clock_nanosleep;
    __NR_linux_close_range;
    __NR_linux_close;
    __NR_linux_write;
    __NR_linux_writev;
    __NR_linux_pwrite;
    __NR_linux_pwritev;
    __NR_linux_pwritev2;
    __NR_linux_read;
    __NR_linux_readv;
    __NR_linux_pread;
    __NR_linux_preadv;
    __NR_linux_preadv2;
    __NR_linux_dup;
    __NR_linux_dup2;
    __NR_linux_dup3;
    __NR_linux_fchdir;
    __NR_linux_fcntl .| STDIO;
    __NR_linux_fstat;
    __NR_linux_fsync;
    __NR_linux_sysinfo;
    __NR_linux_fdatasync;
    __NR_linux_ftruncate;
    __NR_linux_getrandom;
    __NR_linux_getgroups;
    __NR_linux_getpgid;
    __NR_linux_getpgrp;
    __NR_linux_getpid;
    __NR_linux_gettid;
    __NR_linux_getuid;
    __NR_linux_getgid;
    __NR_linux_getsid;
    __NR_linux_getppid;
    __NR_linux_geteuid;
    __NR_linux_getegid;
    __NR_linux_getrlimit;
    __NR_linux_getresgid;
    __NR_linux_getresuid;
    __NR_linux_getitimer;
    __NR_linux_setitimer;
    __NR_linux_timerfd_create;
    __NR_linux_timerfd_settime;
    __NR_linux_timerfd_gettime;
    __NR_linux_copy_file_range;
    __NR_linux_gettimeofday;
    __NR_linux_sendfile;
    __NR_linux_vmsplice;
    __NR_linux_splice;
    __NR_linux_lseek;
    __NR_linux_tee;
    __NR_linux_brk;
    __NR_linux_msync;
    __NR_linux_mmap .| NOEXEC;
    __NR_linux_mlock;
    __NR_linux_mremap;
    __NR_linux_munmap;
    __NR_linux_mincore;
    __NR_linux_madvise;
    __NR_linux_fadvise;
    __NR_linux_mprotect .| NOEXEC;
    __NR_linux_arch_prctl;
    __NR_linux_migrate_pages;
    __NR_linux_sync_file_range;
    __NR_linux_set_tid_address;
    __NR_linux_membarrier;
    __NR_linux_nanosleep;
    __NR_linux_pipe;
    __NR_linux_pipe2;
    __NR_linux_poll;
    __NR_linux_ppoll;
    __NR_linux_select;
    __NR_linux_pselect6;
    __NR_linux_epoll_create;
    __NR_linux_epoll_create1;
    __NR_linux_epoll_ctl;
    __NR_linux_epoll_wait;
    __NR_linux_epoll_pwait;
    __NR_linux_epoll_pwait2;
    __NR_linux_recvfrom;
    __NR_linux_sendto .| ADDRLESS;
    __NR_linux_ioctl .| RESTRICT;
    __NR_linux_alarm;
    __NR_linux_pause;
    __NR_linux_shutdown;
    __NR_linux_eventfd;
    __NR_linux_eventfd2;
    __NR_linux_signalfd;
    __NR_linux_signalfd4;
    __NR_linux_sigaction;
    __NR_linux_sigaltstack;
    __NR_linux_sigprocmask;
    __NR_linux_sigsuspend;
    __NR_linux_sigpending;
    __NR_linux_kill .| SELF;
    __NR_linux_tkill;
    __NR_linux_tgkill .| SELF;
    __NR_linux_socketpair;
    __NR_linux_getrusage;
    __NR_linux_times;
    __NR_linux_umask;
    __NR_linux_wait4;
    __NR_linux_uname;
    __NR_linux_prctl .| STDIO;
    __NR_linux_clone .| THREAD;
    __NR_linux_futex;
    __NR_linux_set_robust_list;
    __NR_linux_get_robust_list;
    __NR_linux_prlimit .| STDIO;
    __NR_linux_sched_getaffinity;
    __NR_linux_sched_setaffinity;
    __NR_linux_sigtimedwait ].

Definition kPledgeFlock : list Z :=
  [ __NR_linux_flock;
    __NR_linux_fcntl .| LOCK ].

Definition kPledgeRpath : list Z :=
  [ __NR_linux_chdir;
    __NR_linux_getcwd;
    __NR_linux_open .| READONLY;
    __NR_linux_openat .| READONLY;
    __NR_linux_stat;
    __NR_linux_lstat;
    __NR_linux_fstat;
    __NR_linux_fstatat;
    __NR_linux_access;
    __NR_linux_faccessat;
    __NR_linux_faccessat2;
    __NR_linux_readlink;
    __NR_linux_readlinkat;
    __NR_linux_statfs;
    __NR_linux_fstatfs;
    __NR_linux_getdents;
    __NR_linux_oldgetdents ].

Definition kPledgeWpath : list Z :=
  [ __NR_linux_getcwd;
    __NR_linux_open .| WRITEONLY;
    __NR_linux_openat .| WRITEONLY;
    __NR_linux_stat;
    __NR_linux_fstat;
    __NR_linux_lstat;
    __NR_linux_fstatat;
    __NR_linux_access;
    __NR_linux_truncate;
    __NR_linux_faccessat;
    __NR_linux_faccessat2;
    __NR_linux_readlinkat;
    __NR_linux_chmod .| NOBITS;
    __NR_linux_fchmod .| NOBITS;
    __NR_linux_fchmodat .| NOBITS ].

Definition kPledgeCpath : list Z :=
  [ __NR_linux_open .| CREATONLY;
    __NR_linux_openat .| CREATONLY;
    __NR_linux_creat .| RESTRICT;
    __NR_linux_rename;
    __NR_linux_renameat;
    __NR_linux_renameat2;
    __NR_linux_link;
    __NR_linux_linkat;
    __NR_linux_symlink;
    __NR_linux_symlinkat;
    __NR_linux_rmdir;
    __NR_linux_unlink;
    __NR_linux_unlinkat;
    __NR_linux_mkdir;
    __NR_linux_mkdirat ].

Definition kPledgeDpath : list Z :=
  [ __NR_linux_mknod;
    __NR_linux_mknodat ].

Definition kPledgeFattr : list Z :=
  [ __NR_linux_chmod .| NOBITS;
    __NR_linux_fchmod .| NOBITS;
    __NR_linux_fchmodat .| NOBITS;
    __NR_linux_utime;
    __NR_linux_utimes;
    __NR_linux_futimesat;
    __NR_linux_utimensat ].

Definition kPledgeInet : list Z :=
  [ __NR_linux_socket .| INET;
    __NR_linux_listen;
    __NR_linux_bind;
    __NR_linux_sendto;
    __NR_linux_connect;
    __NR_linux_accept;
    __NR_linux_accept4;
    __NR_linux_ioctl .| INET;
    __NR_linux_getsockopt .| RESTRICT;
    __NR_linux_setsockopt .| RESTRICT;
    __NR_linux_getpeername;
    __NR_linux_getsockname ].

Definition kPledgeAnet : list Z :=
  [ __NR_linux_socket .| ANET;
    __NR_linux_listen;
    __NR_linux_bind;
    __NR_linux_sendto;
    __NR_linux_accept;
    __NR_linux_accept4;
    __NR_linux_ioctl .| INET;
    __NR_linux_getsockopt .| RESTRICT;
    __NR_linux_setsockopt .| RESTRICT;
    __NR_linux_getpeername;
    __NR_linux_getsockname ].

Definition kPledgeUnix : list Z :=
  [ __NR_linux_socket .| UNIX;
    __NR_linux_listen;
    __NR_linux_bind;
    __NR_linux_connect;
    __NR_linux_sendto;
    __NR_linux_accept;
    __NR_linux_accept4;
    __NR_linux_getsockopt .| RESTRICT;
    __NR_linux_setsockopt .| RESTRICT;
    __NR_linux_getpeername;
    __NR_linux_getsockname ].

Definition kPledgeDns : list Z :=
  [ __NR_linux_socket .| INET;
    __NR_linux_bind;
    __NR_linux_sendto;
    __NR_linux_connect;
    __NR_linux_recvfrom;
    __NR_linux_setsockopt .| RESTRICT;
    __NR_linux_fstatat;
    __NR_linux_openat .| READONLY;
    __NR_linux_read;
    __NR_linux_close ].

Definition kPledgeTty : list Z :=
  [ __NR_linux_ioctl .| TTY ].

Definition kPledgeRecvfd : list Z :=
  [ __NR_linux_recvmsg;
    __NR_linux_recvmmsg ].

Definition kPledgeSendfd : list Z :=
  [ __NR_linux_sendmsg;
    __NR_linux_sendmmsg ].

Definition kPledgeProc : list Z :=
  [ __NR_linux_fork;
    __NR_linux_vfork;
    __NR_linux_clone .| RESTRICT;
    __NR_linux_kill;
    __NR_linux_tgkill;
    __NR_linux_setsid;
    __NR_linux_setpgid;
    __NR_linux_prlimit;
    __NR_linux_setrlimit;
    __NR_linux_getpriority;
    __NR_linux_setpriority;
    __NR_linux_ioprio_get;
    __NR_linux_ioprio_set;
    __NR_linux_sched_getscheduler;
    __NR_linux_sched_setscheduler;
    __NR_linux_sched_get_priority_min;
    __NR_linux_sched_get_priority_max;
    __NR_linux_sched_getparam;
    __NR_linux_sched_setparam ].

Definition kPledgeId : list Z :=
  [ __NR_linux_setuid;
    __NR_linux_setreuid;
    __NR_linux_setresuid;
    __NR_linux_setgid;
    __NR_linux_setregid;
    __NR_linux_setresgid;
    __NR_linux_setgroups;
    __NR_linux_prlimit;
    __NR_linux_setrlimit;
    __NR_linux_getpriority;
    __NR_linux_setpriority;
    __NR_linux_setfsuid;
    __NR_linux_setfsgid ].

Definition kPledgeChown : list Z :=
  [ __NR_linux_chown;
    __NR_linux_fchown;
    __NR_linux_lchown;
    __NR_linux_fchownat ].

Definition kPledgeSettime : list Z :=
  [ __NR_linux_settimeofday;
    __NR_linux_clock_adjtime ].

Definition kPledgeProtExec : list Z :=
  [ __NR_linux_mmap .| EXEC;
    __NR_linux_mprotect ].

Definition kPledgeExec : list Z :=
  [ __NR_linux_execve;
    __NR_linux_execveat ].

Definition kPledgeUnveil : list Z :=
  [ __NR_linux_landlock_create_ruleset;
    __NR_linux_landlock_add_rule;
    __NR_linux_landlock_restrict_self ].

Definition kPledgeVminfo : list Z :=
  [ __NR_linux_sched_yield ].

Definition kPledgeTmppath : list Z :=
  [ __NR_linux_lstat;
    __NR_linux_unlink;
    __NR_linux_unlinkat ].

(* ------------------------------------------------------------------ *)
(** ** Promises *)

Definition PROMISE_STDIO : Z := 0.
Definition PROMISE_RPATH : Z := 1.
Definition PROMISE_WPATH : Z := 2.
Definition PROMISE_CPATH : Z := 3.
Definition PROMISE_DPATH : Z := 4.
Definition PROMISE_FLOCK : Z := 5.
Definition PROMISE_FATTR : Z := 6.
Definition PROMISE_INET : Z := 7.
Definition PROMISE_UNIX : Z := 8.
Definition PROMISE_DNS : Z := 9.
Definition PROMISE_TTY : Z := 10.
Definition PROMISE_RECVFD : Z := 11.
Definition PROMISE_PROC : Z := 12.
Definition PROMISE_EXEC : Z := 13.
Definition PROMISE_ID : Z := 14.
Definition PROMISE_UNVEIL : Z := 15.
Definition PROMISE_SENDFD : Z := 16.
Definition PROMISE_SETTIME : Z := 17.
Definition PROMISE_PROT_EXEC : Z := 18.
Definition PROMISE_VMINFO : Z := 19.
Definition PROMISE_TMPPATH : Z := 20.
Definition PROMISE_CHOWN : Z := 21.
Definition PROMISE_ANET : Z := 22.
Definition PROMISE_LEN_ : Z := 23.

Record Pledges := { pname : bytes; syscalls : list Z }.

(** In the order of the numbers of the promises. *)
Definition kPledge : list Pledges :=
  [ {| pname := bstr "stdio"; syscalls := kPledgeStdio |};
    {| pname := bstr "rpath"; syscalls := kPledgeRpath |};
    {| pname := bstr "wpath"; syscalls := kPledgeWpath |};
    {| pname := bstr "cpath"; syscalls := kPledgeCpath |};
    {| pname := bstr "dpath"; syscalls := kPledgeDpath |};
    {| pname := bstr "flock"; syscalls := kPledgeFlock |};
    {| pname := bstr "fattr"; syscalls := kPledgeFattr |};
    {| pname := bstr "inet"; syscalls := kPledgeInet |};
    {| pname := bstr "unix"; syscalls := kPledgeUnix |};
    {| pname := bstr "dns"; syscalls := kPledgeDns |};
    {| pname := bstr "tty"; syscalls := kPledgeTty |};
    {| pname := bstr "recvfd"; syscalls := kPledgeRecvfd |};
    {| pname := bstr "proc"; syscalls := kPledgeProc |};
    {| pname := bstr "exec"; syscalls := kPledgeExec |};
    {| pname := bstr "id"; syscalls := kPledgeId |};
    {| pname := bstr "unveil"; syscalls := kPledgeUnveil |};
    {| pname := bstr "sendfd"; syscalls := kPledgeSendfd |};
    {| pname := bstr "settime"; syscalls := kPledgeSettime |};
    {| pname := bstr "prot_exec"; syscalls := kPledgeProtExec |};
    {| pname := bstr "vminfo"; syscalls := kPledgeVminfo |};
    {| pname := bstr "tmppath"; syscalls := kPledgeTmppath |};
    {| pname := bstr "chown"; syscalls := kPledgeChown |};
    {| pname := bstr "anet"; syscalls := kPledgeAnet |} ].
