(* ===== verification/Pledge.v ===== *)
(** * Pledges (libc/calls/pledge-linux.c, parsepromises.c, pledge.c)

    pledge turns a set of promises into a seccomp filter that the kernel runs on every system call. This
    file models how the filter is assembled, instruction by instruction, for x86-64; the theorems show
    that what the kernel runs is the policy that the promises stand for. *)

From S2P Require Import Prelude Seccomp PledgeTables.

Definition Eperm : Z := 1.
Definition Sigabrt : Z := 6.
Definition Einval : Z := 22.
Definition Enosys : Z := 38.

(** libc/sysv/consts/audit.h, o.h and prot.h *)
Definition AUDIT_ARCH_X86_64 : Z := 62 .| 0x80000000 .| 0x40000000.
Definition O_RDONLY : Z := 0.
Definition O_WRONLY : Z := 1.
Definition O_RDWR : Z := 2.
Definition O_ACCMODE : Z := 3.
Definition PROT_READ : Z := 1.
Definition PROT_WRITE : Z := 2.

(** libc/calls/pledge.h *)
Definition PLEDGE_PENALTY_KILL_THREAD : Z := 0.
Definition PLEDGE_PENALTY_KILL_PROCESS : Z := 1.
Definition PLEDGE_PENALTY_RETURN_EPERM : Z := 2.
Definition PLEDGE_PENALTY_MASK : Z := 0x0f.
Definition PLEDGE_STDERR_LOGGING : Z := 0x10.

(* ------------------------------------------------------------------ *)
(** ** Pieces of filters *)

(** What each function appends. Every piece but the first assumes that the number of the system call is
    in the accumulator, and leaves it there for the next one. *)
Definition kPledgeStart : list sock_filter :=
  [ BPF_STMT (BPF_LD .| BPF_W .| BPF_ABS) OFF_arch;
    BPF_JUMP (BPF_JMP .| BPF_JEQ .| BPF_K) AUDIT_ARCH_X86_64 1 0;
    BPF_STMT (BPF_RET .| BPF_K) SECCOMP_RET_KILL_PROCESS;
    BPF_STMT (BPF_LD .| BPF_W .| BPF_ABS) OFF_nr;
    BPF_JUMP (BPF_JMP .| BPF_JGE .| BPF_K) __NR_linux_memfd_secret 5 0;
    BPF_JUMP (BPF_JMP .| BPF_JEQ .| BPF_K) __NR_linux_rseq 4 0;
    BPF_JUMP (BPF_JMP .| BPF_JEQ .| BPF_K) __NR_linux_memfd_create 3 0;
    BPF_JUMP (BPF_JMP .| BPF_JEQ .| BPF_K) __NR_linux_openat2 2 0;
    BPF_JUMP (BPF_JMP .| BPF_JEQ .| BPF_K) __NR_linux_clone3 1 0;
    BPF_JUMP (BPF_JMP .| BPF_JEQ .| BPF_K) __NR_linux_statx 0 1;
    BPF_STMT (BPF_RET .| BPF_K) (SECCOMP_RET_ERRNO .| (Z.land Enosys SECCOMP_RET_DATA)) ].

Definition kFilterIgnoreExitGroup : list sock_filter :=
  [ BPF_JUMP (BPF_JMP .| BPF_JEQ .| BPF_K) __NR_linux_exit_group 0 1;
    BPF_STMT (BPF_RET .| BPF_K) (SECCOMP_RET_ERRNO .| (Z.land Eperm SECCOMP_RET_DATA)) ].

Definition AllowKillSelf (pid : Z) : list sock_filter :=
  [ BPF_JUMP (BPF_JMP .| BPF_JEQ .| BPF_K) __NR_linux_kill 0 4;
    BPF_STMT (BPF_LD .| BPF_W .| BPF_ABS) (OFF_args 0);
    BPF_JUMP (BPF_JMP .| BPF_JEQ .| BPF_K) pid 0 1;
    BPF_STMT (BPF_RET .| BPF_K) SECCOMP_RET_ALLOW;
    BPF_STMT (BPF_LD .| BPF_W .| BPF_ABS) OFF_nr ].

Definition AllowTgkillSelf (pid : Z) : list sock_filter :=
  [ BPF_JUMP (BPF_JMP .| BPF_JEQ .| BPF_K) __NR_linux_tgkill 0 4;
    BPF_STMT (BPF_LD .| BPF_W .| BPF_ABS) (OFF_args 0);
    BPF_JUMP (BPF_JMP .| BPF_JEQ .| BPF_K) pid 0 1;
    BPF_STMT (BPF_RET .| BPF_K) SECCOMP_RET_ALLOW;
    BPF_STMT (BPF_LD .| BPF_W .| BPF_ABS) OFF_nr ].

Definition AllowMonitor (pid tid : Z) : list sock_filter :=
  [ BPF_JUMP (BPF_JMP .| BPF_JEQ .| BPF_K) __NR_linux_write 0 4;
    BPF_STMT (BPF_LD .| BPF_W .| BPF_ABS) (OFF_args 0);
    BPF_JUMP (BPF_JMP .| BPF_JEQ .| BPF_K) 2 0 1;
    BPF_STMT (BPF_RET .| BPF_K) SECCOMP_RET_ALLOW;
    BPF_STMT (BPF_LD .| BPF_W .| BPF_ABS) OFF_nr;
    BPF_JUMP (BPF_JMP .| BPF_JEQ .| BPF_K) __NR_linux_kill 0 6;
    BPF_STMT (BPF_LD .| BPF_W .| BPF_ABS) (OFF_args 0);
    BPF_JUMP (BPF_JMP .| BPF_JEQ .| BPF_K) pid 0 3;
    BPF_STMT (BPF_LD .| BPF_W .| BPF_ABS) (OFF_args 1);
    BPF_JUMP (BPF_JMP .| BPF_JEQ .| BPF_K) Sigabrt 0 1;
    BPF_STMT (BPF_RET .| BPF_K) SECCOMP_RET_ALLOW;
    BPF_STMT (BPF_LD .| BPF_W .| BPF_ABS) OFF_nr;
    BPF_JUMP (BPF_JMP .| BPF_JEQ .| BPF_K) __NR_linux_tkill 0 6;
    BPF_STMT (BPF_LD .| BPF_W .| BPF_ABS) (OFF_args 0);
    BPF_JUMP (BPF_JMP .| BPF_JEQ .| BPF_K) tid 0 3;
    BPF_STMT (BPF_LD .| BPF_W .| BPF_ABS) (OFF_args 1);
    BPF_JUMP (BPF_JMP .| BPF_JEQ .| BPF_K) Sigabrt 0 1;
    BPF_STMT (BPF_RET .| BPF_K) SECCOMP_RET_ALLOW;
    BPF_STMT (BPF_LD .| BPF_W .| BPF_ABS) OFF_nr;
    BPF_JUMP (BPF_JMP .| BPF_JEQ .| BPF_K) __NR_linux_sigaction 0 4;
    BPF_STMT (BPF_LD .| BPF_W .| BPF_ABS) (OFF_args 0);
    BPF_JUMP (BPF_JMP .| BPF_JEQ .| BPF_K) Sigabrt 0 1;
    BPF_STMT (BPF_RET .| BPF_K) SECCOMP_RET_ALLOW;
    BPF_STMT (BPF_LD .| BPF_W .| BPF_ABS) OFF_nr;
    BPF_JUMP (BPF_JMP .| BPF_JEQ .| BPF_K) __NR_linux_sigreturn 1 0;
    BPF_JUMP (BPF_JMP .| BPF_JEQ .| BPF_K) __NR_linux_sigprocmask 0 1;
    BPF_STMT (BPF_RET .| BPF_K) SECCOMP_RET_ALLOW ].

Definition AllowCloneRestrict : list sock_filter :=
  [ BPF_JUMP (BPF_JMP .| BPF_JEQ .| BPF_K) __NR_linux_clone 0 (6 - 1);
    BPF_STMT (BPF_LD .| BPF_W .| BPF_ABS) (OFF_args 0);
    BPF_STMT (BPF_ALU .| BPF_AND .| BPF_K) 0x00822000;
    BPF_JUMP (BPF_JMP .| BPF_JEQ .| BPF_K) 0 0 1;
    BPF_STMT (BPF_RET .| BPF_K) SECCOMP_RET_ALLOW;
    BPF_STMT (BPF_LD .| BPF_W .| BPF_ABS) OFF_nr ].

Definition AllowCloneThread : list sock_filter :=
  [ BPF_JUMP (BPF_JMP .| BPF_JEQ .| BPF_K) __NR_linux_clone 0 (9 - 1);
    BPF_STMT (BPF_LD .| BPF_W .| BPF_ABS) (OFF_args 0);
    BPF_STMT (BPF_ALU .| BPF_AND .| BPF_K) 0x00010f00;
    BPF_JUMP (BPF_JMP .| BPF_JEQ .| BPF_K) 0x00010f00 0 (8 - 4);
    BPF_STMT (BPF_LD .| BPF_W .| BPF_ABS) (OFF_args 0);
    BPF_STMT (BPF_ALU .| BPF_AND .| BPF_K) 0x00822000;
    BPF_JUMP (BPF_JMP .| BPF_JEQ .| BPF_K) 0 0 1;
    BPF_STMT (BPF_RET .| BPF_K) SECCOMP_RET_ALLOW;
    BPF_STMT (BPF_LD .| BPF_W .| BPF_ABS) OFF_nr ].

Definition AllowIoctlStdio : list sock_filter :=
  [ BPF_JUMP (BPF_JMP .| BPF_JEQ .| BPF_K) __NR_linux_ioctl 0 7;
    BPF_STMT (BPF_LD .| BPF_W .| BPF_ABS) (OFF_args 1);
    BPF_JUMP (BPF_JMP .| BPF_JEQ .| BPF_K) 0x541b 3 0;
    BPF_JUMP (BPF_JMP .| BPF_JEQ .| BPF_K) 0x5421 2 0;
    BPF_JUMP (BPF_JMP .| BPF_JEQ .| BPF_K) 0x5451 1 0;
    BPF_JUMP (BPF_JMP .| BPF_JEQ .| BPF_K) 0x5450 0 1;
    BPF_STMT (BPF_RET .| BPF_K) SECCOMP_RET_ALLOW;
    BPF_STMT (BPF_LD .| BPF_W .| BPF_ABS) OFF_nr ].

Definition AllowIoctlInet : list sock_filter :=
  [ BPF_JUMP (BPF_JMP .| BPF_JEQ .| BPF_K) __NR_linux_ioctl 0 4;
    BPF_STMT (BPF_LD .| BPF_W .| BPF_ABS) (OFF_args 1);
    BPF_JUMP (BPF_JMP .| BPF_JEQ .| BPF_K) 0x8905 0 1;
    BPF_STMT (BPF_RET .| BPF_K) SECCOMP_RET_ALLOW;
    BPF_STMT (BPF_LD .| BPF_W .| BPF_ABS) OFF_nr ].

Definition AllowIoctlTty : list sock_filter :=
  [ BPF_JUMP (BPF_JMP .| BPF_JEQ .| BPF_K) __NR_linux_ioctl 0 15;
    BPF_STMT (BPF_LD .| BPF_W .| BPF_ABS) (OFF_args 1);
    BPF_JUMP (BPF_JMP .| BPF_JEQ .| BPF_K) 0x5401 11 0;
    BPF_JUMP (BPF_JMP .| BPF_JEQ .| BPF_K) 0x5402 10 0;
    BPF_JUMP (BPF_JMP .| BPF_JEQ .| BPF_K) 0x5403 9 0;
    BPF_JUMP (BPF_JMP .| BPF_JEQ .| BPF_K) 0x5404 8 0;
    BPF_JUMP (BPF_JMP .| BPF_JEQ .| BPF_K) 0x5413 7 0;
    BPF_JUMP (BPF_JMP .| BPF_JEQ .| BPF_K) 0x5410 6 0;
    BPF_JUMP (BPF_JMP .| BPF_JEQ .| BPF_K) 0x540f 5 0;
    BPF_JUMP (BPF_JMP .| BPF_JEQ .| BPF_K) 0x5414 4 0;
    BPF_JUMP (BPF_JMP .| BPF_JEQ .| BPF_K) 0x540b 3 0;
    BPF_JUMP (BPF_JMP .| BPF_JEQ .| BPF_K) 0x540a 2 0;
    BPF_JUMP (BPF_JMP .| BPF_JEQ .| BPF_K) 0x5409 1 0;
    BPF_JUMP (BPF_JMP .| BPF_JEQ .| BPF_K) 0x5427 0 1;
    BPF_STMT (BPF_RET .| BPF_K) SECCOMP_RET_ALLOW;
    BPF_STMT (BPF_LD .| BPF_W .| BPF_ABS) OFF_nr ].

Definition AllowSetsockoptRestrict : list sock_filter :=
  [ BPF_JUMP (BPF_JMP .| BPF_JEQ .| BPF_K) __NR_linux_setsockopt 0 25;
    BPF_STMT (BPF_LD .| BPF_W .| BPF_ABS) (OFF_args 1);
    BPF_JUMP (BPF_JMP .| BPF_JEQ .| BPF_K) 41 3 0;
    BPF_JUMP (BPF_JMP .| BPF_JEQ .| BPF_K) 0 2 0;
    BPF_JUMP (BPF_JMP .| BPF_JEQ .| BPF_K) 1 1 0;
    BPF_JUMP (BPF_JMP .| BPF_JEQ .| BPF_K) 6 0 19;
    BPF_STMT (BPF_LD .| BPF_W .| BPF_ABS) (OFF_args 2);
    BPF_JUMP (BPF_JMP .| BPF_JEQ .| BPF_K) 0x0c 16 0;
    BPF_JUMP (BPF_JMP .| BPF_JEQ .| BPF_K) 0x1a 15 0;
    BPF_JUMP (BPF_JMP .| BPF_JEQ .| BPF_K) 0x06 14 0;
    BPF_JUMP (BPF_JMP .| BPF_JEQ .| BPF_K) 0x0f 13 0;
    BPF_JUMP (BPF_JMP .| BPF_JEQ .| BPF_K) 0x03 12 0;
    BPF_JUMP (BPF_JMP .| BPF_JEQ .| BPF_K) 0x0c 11 0;
    BPF_JUMP (BPF_JMP .| BPF_JEQ .| BPF_K) 0x13 10 0;
    BPF_JUMP (BPF_JMP .| BPF_JEQ .| BPF_K) 0x02 9 0;
    BPF_JUMP (BPF_JMP .| BPF_JEQ .| BPF_K) 0x09 8 0;
    BPF_JUMP (BPF_JMP .| BPF_JEQ .| BPF_K) 0x14 7 0;
    BPF_JUMP (BPF_JMP .| BPF_JEQ .| BPF_K) 0x01 6 0;
    BPF_JUMP (BPF_JMP .| BPF_JEQ .| BPF_K) 0x0b 5 0;
    BPF_JUMP (BPF_JMP .| BPF_JEQ .| BPF_K) 0x04 4 0;
    BPF_JUMP (BPF_JMP .| BPF_JEQ .| BPF_K) 0x05 3 0;
    BPF_JUMP (BPF_JMP .| BPF_JEQ .| BPF_K) 0x17 2 0;
    BPF_JUMP (BPF_JMP .| BPF_JEQ .| BPF_K) 0x1e 1 0;
    BPF_JUMP (BPF_JMP .| BPF_JEQ .| BPF_K) 0x15 0 1;
    BPF_STMT (BPF_RET .| BPF_K) SECCOMP_RET_ALLOW;
    BPF_STMT (BPF_LD .| BPF_W .| BPF_ABS) OFF_nr ].

Definition AllowGetsockoptRestrict : list sock_filter :=
  [ BPF_JUMP (BPF_JMP .| BPF_JEQ .| BPF_K) __NR_linux_getsockopt 0 13;
    BPF_STMT (BPF_LD .| BPF_W .| BPF_ABS) (OFF_args 1);
    BPF_JUMP (BPF_JMP .| BPF_JEQ .| BPF_K) 1 1 0;
    BPF_JUMP (BPF_JMP .| BPF_JEQ .| BPF_K) 6 0 9;
    BPF_STMT (BPF_LD .| BPF_W .| BPF_ABS) (OFF_args 2);
    BPF_JUMP (BPF_JMP .| BPF_JEQ .| BPF_K) 0x03 6 0;
    BPF_JUMP (BPF_JMP .| BPF_JEQ .| BPF_K) 0x04 5 0;
    BPF_JUMP (BPF_JMP .| BPF_JEQ .| BPF_K) 0x0f 4 0;
    BPF_JUMP (BPF_JMP .| BPF_JEQ .| BPF_K) 0x02 3 0;
    BPF_JUMP (BPF_JMP .| BPF_JEQ .| BPF_K) 0x09 2 0;
    BPF_JUMP (BPF_JMP .| BPF_JEQ .| BPF_K) 0x14 1 0;
    BPF_JUMP (BPF_JMP .| BPF_JEQ .| BPF_K) 0x15 0 1;
    BPF_STMT (BPF_RET .| BPF_K) SECCOMP_RET_ALLOW;
    BPF_STMT (BPF_LD .| BPF_W .| BPF_ABS) OFF_nr ].

Definition AllowMmapExec : list sock_filter :=
  [ BPF_JUMP (BPF_JMP .| BPF_JEQ .| BPF_K) __NR_linux_mmap 0 (6 - 1);
    BPF_STMT (BPF_LD .| BPF_W .| BPF_ABS) (OFF_args 3);
    BPF_STMT (BPF_ALU .| BPF_AND .| BPF_K) 0x52000;
    BPF_JUMP (BPF_JMP .| BPF_JEQ .| BPF_K) 0 0 (5 - 4);
    BPF_STMT (BPF_RET .| BPF_K) SECCOMP_RET_ALLOW;
    BPF_STMT (BPF_LD .| BPF_W .| BPF_ABS) OFF_nr ].

Definition AllowMmapNoexec : list sock_filter :=
  [ BPF_JUMP (BPF_JMP .| BPF_JEQ .| BPF_K) __NR_linux_mmap 0 (9 - 1);
    BPF_STMT (BPF_LD .| BPF_W .| BPF_ABS) (OFF_args 2);
    BPF_STMT (BPF_ALU .| BPF_AND .| BPF_K) (Z.lnot ((PROT_READ .| PROT_WRITE)));
    BPF_JUMP (BPF_JMP .| BPF_JEQ .| BPF_K) 0 0 (8 - 4);
    BPF_STMT (BPF_LD .| BPF_W .| BPF_ABS) (OFF_args 3);
    BPF_STMT (BPF_ALU .| BPF_AND .| BPF_K) 0x52000;
    BPF_JUMP (BPF_JMP .| BPF_JEQ .| BPF_K) 0 0 1;
    BPF_STMT (BPF_RET .| BPF_K) SECCOMP_RET_ALLOW;
    BPF_STMT (BPF_LD .| BPF_W .| BPF_ABS) OFF_nr ].

Definition AllowMprotectNoexec : list sock_filter :=
  [ BPF_JUMP (BPF_JMP .| BPF_JEQ .| BPF_K) __NR_linux_mprotect 0 (6 - 1);
    BPF_STMT (BPF_LD .| BPF_W .| BPF_ABS) (OFF_args 2);
    BPF_STMT (BPF_ALU .| BPF_AND .| BPF_K) (Z.lnot ((PROT_READ .| PROT_WRITE)));
    BPF_JUMP (BPF_JMP .| BPF_JEQ .| BPF_K) 0 0 1;
    BPF_STMT (BPF_RET .| BPF_K) SECCOMP_RET_ALLOW;
    BPF_STMT (BPF_LD .| BPF_W .| BPF_ABS) OFF_nr ].

Definition AllowOpenReadonly : list sock_filter :=
  [ BPF_JUMP (BPF_JMP .| BPF_JEQ .| BPF_K) __NR_linux_open 0 (9 - 1);
    BPF_STMT (BPF_LD .| BPF_W .| BPF_ABS) (OFF_args 1);
    BPF_STMT (BPF_ALU .| BPF_AND .| BPF_K) O_ACCMODE;
    BPF_JUMP (BPF_JMP .| BPF_JEQ .| BPF_K) O_RDONLY 0 (8 - 4);
    BPF_STMT (BPF_LD .| BPF_W .| BPF_ABS) (OFF_args 1);
    BPF_STMT (BPF_ALU .| BPF_AND .| BPF_K) 0x400240;
    BPF_JUMP (BPF_JMP .| BPF_JEQ .| BPF_K) 0 0 1;
    BPF_STMT (BPF_RET .| BPF_K) SECCOMP_RET_ALLOW;
    BPF_STMT (BPF_LD .| BPF_W .| BPF_ABS) OFF_nr ].

Definition AllowOpenatReadonly : list sock_filter :=
  [ BPF_JUMP (BPF_JMP .| BPF_JEQ .| BPF_K) __NR_linux_openat 0 (9 - 1);
    BPF_STMT (BPF_LD .| BPF_W .| BPF_ABS) (OFF_args 2);
    BPF_STMT (BPF_ALU .| BPF_AND .| BPF_K) O_ACCMODE;
    BPF_JUMP (BPF_JMP .| BPF_JEQ .| BPF_K) O_RDONLY 0 (8 - 4);
    BPF_STMT (BPF_LD .| BPF_W .| BPF_ABS) (OFF_args 2);
    BPF_STMT (BPF_ALU .| BPF_AND .| BPF_K) 0x400240;
    BPF_JUMP (BPF_JMP .| BPF_JEQ .| BPF_K) 0 0 1;
    BPF_STMT (BPF_RET .| BPF_K) SECCOMP_RET_ALLOW;
    BPF_STMT (BPF_LD .| BPF_W .| BPF_ABS) OFF_nr ].

Definition AllowOpenWriteonly : list sock_filter :=
  [ BPF_JUMP (BPF_JMP .| BPF_JEQ .| BPF_K) __NR_linux_open 0 (10 - 1);
    BPF_STMT (BPF_LD .| BPF_W .| BPF_ABS) (OFF_args 1);
    BPF_STMT (BPF_ALU .| BPF_AND .| BPF_K) O_ACCMODE;
    BPF_JUMP (BPF_JMP .| BPF_JEQ .| BPF_K) O_WRONLY 1 0;
    BPF_JUMP (BPF_JMP .| BPF_JEQ .| BPF_K) O_RDWR 0 (9 - 5);
    BPF_STMT (BPF_LD .| BPF_W .| BPF_ABS) (OFF_args 1);
    BPF_STMT (BPF_ALU .| BPF_AND .| BPF_K) 0x400040;
    BPF_JUMP (BPF_JMP .| BPF_JEQ .| BPF_K) 0 0 1;
    BPF_STMT (BPF_RET .| BPF_K) SECCOMP_RET_ALLOW;
    BPF_STMT (BPF_LD .| BPF_W .| BPF_ABS) OFF_nr ].

Definition AllowOpenatWriteonly : list sock_filter :=
  [ BPF_JUMP (BPF_JMP .| BPF_JEQ .| BPF_K) __NR_linux_openat 0 (10 - 1);
    BPF_STMT (BPF_LD .| BPF_W .| BPF_ABS) (OFF_args 2);
    BPF_STMT (BPF_ALU .| BPF_AND .| BPF_K) O_ACCMODE;
    BPF_JUMP (BPF_JMP .| BPF_JEQ .| BPF_K) O_WRONLY 1 0;
    BPF_JUMP (BPF_JMP .| BPF_JEQ .| BPF_K) O_RDWR 0 (9 - 5);
    BPF_STMT (BPF_LD .| BPF_W .| BPF_ABS) (OFF_args 2);
    BPF_STMT (BPF_ALU .| BPF_AND .| BPF_K) 0x400040;
    BPF_JUMP (BPF_JMP .| BPF_JEQ .| BPF_K) 0 0 1;
    BPF_STMT (BPF_RET .| BPF_K) SECCOMP_RET_ALLOW;
    BPF_STMT (BPF_LD .| BPF_W .| BPF_ABS) OFF_nr ].

Definition AllowOpenCreatonly : list sock_filter :=
  [ BPF_JUMP (BPF_JMP .| BPF_JEQ .| BPF_K) __NR_linux_open 0 (12 - 1);
    BPF_STMT (BPF_LD .| BPF_W .| BPF_ABS) (OFF_args 1);
    BPF_STMT (BPF_ALU .| BPF_AND .| BPF_K) 0x40;
    BPF_JUMP (BPF_JMP .| BPF_JEQ .| BPF_K) 0x40 (7 - 4) 0;
    BPF_STMT (BPF_LD .| BPF_W .| BPF_ABS) (OFF_args 1);
    BPF_STMT (BPF_ALU .| BPF_AND .| BPF_K) 0x410000;
    BPF_JUMP (BPF_JMP .| BPF_JEQ .| BPF_K) 0x410000 0 (10 - 7);
    BPF_STMT (BPF_LD .| BPF_W .| BPF_ABS) (OFF_args 2);
    BPF_STMT (BPF_ALU .| BPF_AND .| BPF_K) 0xe00;
    BPF_JUMP (BPF_JMP .| BPF_JEQ .| BPF_K) 0 0 1;
    BPF_STMT (BPF_RET .| BPF_K) SECCOMP_RET_ALLOW;
    BPF_STMT (BPF_LD .| BPF_W .| BPF_ABS) OFF_nr ].

Definition AllowOpenatCreatonly : list sock_filter :=
  [ BPF_JUMP (BPF_JMP .| BPF_JEQ .| BPF_K) __NR_linux_openat 0 (12 - 1);
    BPF_STMT (BPF_LD .| BPF_W .| BPF_ABS) (OFF_args 2);
    BPF_STMT (BPF_ALU .| BPF_AND .| BPF_K) 0x40;
    BPF_JUMP (BPF_JMP .| BPF_JEQ .| BPF_K) 0x40 (7 - 4) 0;
    BPF_STMT (BPF_LD .| BPF_W .| BPF_ABS) (OFF_args 2);
    BPF_STMT (BPF_ALU .| BPF_AND .| BPF_K) 0x410000;
    BPF_JUMP (BPF_JMP .| BPF_JEQ .| BPF_K) 0x410000 0 (10 - 7);
    BPF_STMT (BPF_LD .| BPF_W .| BPF_ABS) (OFF_args 3);
    BPF_STMT (BPF_ALU .| BPF_AND .| BPF_K) 0xe00;
    BPF_JUMP (BPF_JMP .| BPF_JEQ .| BPF_K) 0 0 1;
    BPF_STMT (BPF_RET .| BPF_K) SECCOMP_RET_ALLOW;
    BPF_STMT (BPF_LD .| BPF_W .| BPF_ABS) OFF_nr ].

Definition AllowCreatRestrict : list sock_filter :=
  [ BPF_JUMP (BPF_JMP .| BPF_JEQ .| BPF_K) __NR_linux_creat 0 (6 - 1);
    BPF_STMT (BPF_LD .| BPF_W .| BPF_ABS) (OFF_args 1);
    BPF_STMT (BPF_ALU .| BPF_AND .| BPF_K) 0xe00;
    BPF_JUMP (BPF_JMP .| BPF_JEQ .| BPF_K) 0 0 1;
    BPF_STMT (BPF_RET .| BPF_K) SECCOMP_RET_ALLOW;
    BPF_STMT (BPF_LD .| BPF_W .| BPF_ABS) OFF_nr ].

Definition AllowFcntlStdio : list sock_filter :=
  [ BPF_JUMP (BPF_JMP .| BPF_JEQ .| BPF_K) __NR_linux_fcntl 0 (6 - 1);
    BPF_STMT (BPF_LD .| BPF_W .| BPF_ABS) (OFF_args 1);
    BPF_JUMP (BPF_JMP .| BPF_JEQ .| BPF_K) 1030 (4 - 3) 0;
    BPF_JUMP (BPF_JMP .| BPF_JGE .| BPF_K) 5 (5 - 4) 0;
    BPF_STMT (BPF_RET .| BPF_K) SECCOMP_RET_ALLOW;
    BPF_STMT (BPF_LD .| BPF_W .| BPF_ABS) OFF_nr ].

Definition AllowFcntlLock : list sock_filter :=
  [ BPF_JUMP (BPF_JMP .| BPF_JEQ .| BPF_K) __NR_linux_fcntl 0 9;
    BPF_STMT (BPF_LD .| BPF_W .| BPF_ABS) (OFF_args 1);
    BPF_JUMP (BPF_JMP .| BPF_JEQ .| BPF_K) 0x05 5 0;
    BPF_JUMP (BPF_JMP .| BPF_JEQ .| BPF_K) 0x06 4 0;
    BPF_JUMP (BPF_JMP .| BPF_JEQ .| BPF_K) 0x07 3 0;
    BPF_JUMP (BPF_JMP .| BPF_JEQ .| BPF_K) 0x24 2 0;
    BPF_JUMP (BPF_JMP .| BPF_JEQ .| BPF_K) 0x25 1 0;
    BPF_JUMP (BPF_JMP .| BPF_JEQ .| BPF_K) 0x26 0 1;
    BPF_STMT (BPF_RET .| BPF_K) SECCOMP_RET_ALLOW;
    BPF_STMT (BPF_LD .| BPF_W .| BPF_ABS) OFF_nr ].

Definition AllowSendtoAddrless : list sock_filter :=
  [ BPF_JUMP (BPF_JMP .| BPF_JEQ .| BPF_K) __NR_linux_sendto 0 (7 - 1);
    BPF_STMT (BPF_LD .| BPF_W .| BPF_ABS) (OFF_args 4 + 0);
    BPF_JUMP (BPF_JMP .| BPF_JEQ .| BPF_K) 0 0 (6 - 3);
    BPF_STMT (BPF_LD .| BPF_W .| BPF_ABS) (OFF_args 4 + 4);
    BPF_JUMP (BPF_JMP .| BPF_JEQ .| BPF_K) 0 0 (6 - 5);
    BPF_STMT (BPF_RET .| BPF_K) SECCOMP_RET_ALLOW;
    BPF_STMT (BPF_LD .| BPF_W .| BPF_ABS) OFF_nr ].

Definition AllowSocketInet : list sock_filter :=
  [ BPF_JUMP (BPF_JMP .| BPF_JEQ .| BPF_K) __NR_linux_socket 0 (15 - 1);
    BPF_STMT (BPF_LD .| BPF_W .| BPF_ABS) (OFF_args 0);
    BPF_JUMP (BPF_JMP .| BPF_JEQ .| BPF_K) 0x02 1 0;
    BPF_JUMP (BPF_JMP .| BPF_JEQ .| BPF_K) 0x0a 0 (14 - 4);
    BPF_STMT (BPF_LD .| BPF_W .| BPF_ABS) (OFF_args 1);
    BPF_STMT (BPF_ALU .| BPF_AND .| BPF_K) (Z.lnot 0x80800);
    BPF_JUMP (BPF_JMP .| BPF_JEQ .| BPF_K) 0x01 1 0;
    BPF_JUMP (BPF_JMP .| BPF_JEQ .| BPF_K) 0x02 0 (14 - 8);
    BPF_STMT (BPF_LD .| BPF_W .| BPF_ABS) (OFF_args 2);
    BPF_JUMP (BPF_JMP .| BPF_JEQ .| BPF_K) 0x00 3 0;
    BPF_JUMP (BPF_JMP .| BPF_JEQ .| BPF_K) 0x01 2 0;
    BPF_JUMP (BPF_JMP .| BPF_JEQ .| BPF_K) 0x06 1 0;
    BPF_JUMP (BPF_JMP .| BPF_JEQ .| BPF_K) 0x11 0 1;
    BPF_STMT (BPF_RET .| BPF_K) SECCOMP_RET_ALLOW;
    BPF_STMT (BPF_LD .| BPF_W .| BPF_ABS) OFF_nr ].

Definition AllowSocketAnet : list sock_filter :=
  [ BPF_JUMP (BPF_JMP .| BPF_JEQ .| BPF_K) __NR_linux_socket 0 12;
    BPF_STMT (BPF_LD .| BPF_W .| BPF_ABS) (OFF_args 0);
    BPF_JUMP (BPF_JMP .| BPF_JEQ .| BPF_K) 0x02 1 0;
    BPF_JUMP (BPF_JMP .| BPF_JEQ .| BPF_K) 0x0a 0 8;
    BPF_STMT (BPF_LD .| BPF_W .| BPF_ABS) (OFF_args 1);
    BPF_STMT (BPF_ALU .| BPF_AND .| BPF_K) (Z.lnot 0x80800);
    BPF_JUMP (BPF_JMP .| BPF_JEQ .| BPF_K) 0x01 0 5;
    BPF_STMT (BPF_LD .| BPF_W .| BPF_ABS) (OFF_args 2);
    BPF_JUMP (BPF_JMP .| BPF_JEQ .| BPF_K) 0x00 2 0;
    BPF_JUMP (BPF_JMP .| BPF_JEQ .| BPF_K) 0x01 1 0;
    BPF_JUMP (BPF_JMP .| BPF_JEQ .| BPF_K) 0x06 0 1;
    BPF_STMT (BPF_RET .| BPF_K) SECCOMP_RET_ALLOW;
    BPF_STMT (BPF_LD .| BPF_W .| BPF_ABS) OFF_nr ].

Definition AllowSocketUnix : list sock_filter :=
  [ BPF_JUMP (BPF_JMP .| BPF_JEQ .| BPF_K) __NR_linux_socket 0 (11 - 1);
    BPF_STMT (BPF_LD .| BPF_W .| BPF_ABS) (OFF_args 0);
    BPF_JUMP (BPF_JMP .| BPF_JEQ .| BPF_K) 1 0 (10 - 3);
    BPF_STMT (BPF_LD .| BPF_W .| BPF_ABS) (OFF_args 1);
    BPF_STMT (BPF_ALU .| BPF_AND .| BPF_K) (Z.lnot 0x80800);
    BPF_JUMP (BPF_JMP .| BPF_JEQ .| BPF_K) 1 1 0;
    BPF_JUMP (BPF_JMP .| BPF_JEQ .| BPF_K) 2 0 (10 - 7);
    BPF_STMT (BPF_LD .| BPF_W .| BPF_ABS) (OFF_args 2);
    BPF_JUMP (BPF_JMP .| BPF_JEQ .| BPF_K) 0 0 1;
    BPF_STMT (BPF_RET .| BPF_K) SECCOMP_RET_ALLOW;
    BPF_STMT (BPF_LD .| BPF_W .| BPF_ABS) OFF_nr ].

Definition AllowPrctlStdio : list sock_filter :=
  [ BPF_JUMP (BPF_JMP .| BPF_JEQ .| BPF_K) __NR_linux_prctl 0 (11 - 1);
    BPF_STMT (BPF_LD .| BPF_W .| BPF_ABS) (OFF_args 0);
    BPF_JUMP (BPF_JMP .| BPF_JEQ .| BPF_K) 15 6 0;
    BPF_JUMP (BPF_JMP .| BPF_JEQ .| BPF_K) 16 5 0;
    BPF_JUMP (BPF_JMP .| BPF_JEQ .| BPF_K) 21 4 0;
    BPF_JUMP (BPF_JMP .| BPF_JEQ .| BPF_K) 22 3 0;
    BPF_JUMP (BPF_JMP .| BPF_JEQ .| BPF_K) 23 2 0;
    BPF_JUMP (BPF_JMP .| BPF_JEQ .| BPF_K) 24 1 0;
    BPF_JUMP (BPF_JMP .| BPF_JEQ .| BPF_K) 38 0 1;
    BPF_STMT (BPF_RET .| BPF_K) SECCOMP_RET_ALLOW;
    BPF_STMT (BPF_LD .| BPF_W .| BPF_ABS) OFF_nr ].

Definition AllowChmodNobits : list sock_filter :=
  [ BPF_JUMP (BPF_JMP .| BPF_JEQ .| BPF_K) __NR_linux_chmod 0 (6 - 1);
    BPF_STMT (BPF_LD .| BPF_W .| BPF_ABS) (OFF_args 1);
    BPF_STMT (BPF_ALU .| BPF_AND .| BPF_K) 0xe00;
    BPF_JUMP (BPF_JMP .| BPF_JEQ .| BPF_K) 0 0 1;
    BPF_STMT (BPF_RET .| BPF_K) SECCOMP_RET_ALLOW;
    BPF_STMT (BPF_LD .| BPF_W .| BPF_ABS) OFF_nr ].

Definition AllowFchmodNobits : list sock_filter :=
  [ BPF_JUMP (BPF_JMP .| BPF_JEQ .| BPF_K) __NR_linux_fchmod 0 (6 - 1);
    BPF_STMT (BPF_LD .| BPF_W .| BPF_ABS) (OFF_args 1);
    BPF_STMT (BPF_ALU .| BPF_AND .| BPF_K) 0xe00;
    BPF_JUMP (BPF_JMP .| BPF_JEQ .| BPF_K) 0 0 1;
    BPF_STMT (BPF_RET .| BPF_K) SECCOMP_RET_ALLOW;
    BPF_STMT (BPF_LD .| BPF_W .| BPF_ABS) OFF_nr ].

Definition AllowFchmodatNobits : list sock_filter :=
  [ BPF_JUMP (BPF_JMP .| BPF_JEQ .| BPF_K) __NR_linux_fchmodat 0 (6 - 1);
    BPF_STMT (BPF_LD .| BPF_W .| BPF_ABS) (OFF_args 2);
    BPF_STMT (BPF_ALU .| BPF_AND .| BPF_K) 0xe00;
    BPF_JUMP (BPF_JMP .| BPF_JEQ .| BPF_K) 0 0 1;
    BPF_STMT (BPF_RET .| BPF_K) SECCOMP_RET_ALLOW;
    BPF_STMT (BPF_LD .| BPF_W .| BPF_ABS) OFF_nr ].

Definition AllowPrlimitStdio : list sock_filter :=
  [ BPF_JUMP (BPF_JMP .| BPF_JEQ .| BPF_K) __NR_linux_prlimit 0 (7 - 1);
    BPF_STMT (BPF_LD .| BPF_W .| BPF_ABS) (OFF_args 2);
    BPF_JUMP (BPF_JMP .| BPF_JEQ .| BPF_K) 0 0 (6 - 3);
    BPF_STMT (BPF_LD .| BPF_W .| BPF_ABS) (OFF_args 2 + 4);
    BPF_JUMP (BPF_JMP .| BPF_JEQ .| BPF_K) 0 0 1;
    BPF_STMT (BPF_RET .| BPF_K) SECCOMP_RET_ALLOW;
    BPF_STMT (BPF_LD .| BPF_W .| BPF_ABS) OFF_nr ].

(* ------------------------------------------------------------------ *)
(** ** Assembly *)

(** [struct Filter], up to [n]. *)
Abbreviation Filter := (list sock_filter).
Definition FILTER_SIZE : nat := 700.

(** [notpossible] ends the program, and has no result. *)
Definition AppendFilter (f : Filter) (p : list sock_filter) : option Filter :=
  if (FILTER_SIZE <? length f + length p)%nat then None else Some (f ++ p).

Definition is_special (x : Z) : bool := negb (Z.land x SPECIAL =? 0).

Definition CountUnspecial (p : list Z) : Z := Z.of_nat (length (filter (fun x => is_special x = false) p)).

(** The first loop of [AppendPledge]: a comparison for each call that is allowed whatever its arguments
    are, with a jump to the return behind the last of them. *)
Fixpoint append_unspecial (f : Filter) (p : list Z) (count j : Z) : option Filter :=
  match p with
  | [] => Some f
  | x :: p =>
      if is_special x then append_unspecial f p count j
      else
        f ← AppendFilter f [BPF_JUMP (BPF_JMP .| BPF_JEQ .| BPF_K) x (count - j - 1) (if j =? count - 1 then 1 else 0)];
        append_unspecial f p count (j + 1)
  end.

(** The switch of the second loop. *)
Definition special_rule (pid x : Z) : option (list sock_filter) :=
  if x =? (__NR_linux_mmap .| EXEC) then Some AllowMmapExec
  else if x =? (__NR_linux_mmap .| NOEXEC) then Some AllowMmapNoexec
  else if x =? (__NR_linux_mprotect .| NOEXEC) then Some AllowMprotectNoexec
  else if x =? (__NR_linux_chmod .| NOBITS) then Some AllowChmodNobits
  else if x =? (__NR_linux_fchmod .| NOBITS) then Some AllowFchmodNobits
  else if x =? (__NR_linux_fchmodat .| NOBITS) then Some AllowFchmodatNobits
  else if x =? (__NR_linux_prctl .| STDIO) then Some AllowPrctlStdio
  else if x =? (__NR_linux_open .| CREATONLY) then Some AllowOpenCreatonly
  else if x =? (__NR_linux_openat .| CREATONLY) then Some AllowOpenatCreatonly
  else if x =? (__NR_linux_open .| READONLY) then Some AllowOpenReadonly
  else if x =? (__NR_linux_openat .| READONLY) then Some AllowOpenatReadonly
  else if x =? (__NR_linux_open .| WRITEONLY) then Some AllowOpenWriteonly
  else if x =? (__NR_linux_openat .| WRITEONLY) then Some AllowOpenatWriteonly
  else if x =? (__NR_linux_setsockopt .| RESTRICT) then Some AllowSetsockoptRestrict
  else if x =? (__NR_linux_getsockopt .| RESTRICT) then Some AllowGetsockoptRestrict
  else if x =? (__NR_linux_creat .| RESTRICT) then Some AllowCreatRestrict
  else if x =? (__NR_linux_fcntl .| STDIO) then Some AllowFcntlStdio
  else if x =? (__NR_linux_fcntl .| LOCK) then Some AllowFcntlLock
  else if x =? (__NR_linux_ioctl .| RESTRICT) then Some AllowIoctlStdio
  else if x =? (__NR_linux_ioctl .| TTY) then Some AllowIoctlTty
  else if x =? (__NR_linux_ioctl .| INET) then Some AllowIoctlInet
  else if x =? (__NR_linux_socket .| INET) then Some AllowSocketInet
  else if x =? (__NR_linux_socket .| ANET) then Some AllowSocketAnet
  else if x =? (__NR_linux_socket .| UNIX) then Some AllowSocketUnix
  else if x =? (__NR_linux_sendto .| ADDRLESS) then Some AllowSendtoAddrless
  else if x =? (__NR_linux_clone .| RESTRICT) then Some AllowCloneRestrict
  else if x =? (__NR_linux_clone .| THREAD) then Some AllowCloneThread
  else if x =? (__NR_linux_prlimit .| STDIO) then Some AllowPrlimitStdio
  else if x =? (__NR_linux_kill .| SELF) then Some (AllowKillSelf pid)
  else if x =? (__NR_linux_tgkill .| SELF) then Some (AllowTgkillSelf pid)
  else None.

Fixpoint append_special (pid : Z) (f : Filter) (p : list Z) : option Filter :=
  match p with
  | [] => Some f
  | x :: p =>
      if is_special x then
        r ← special_rule pid x;
        f ← AppendFilter f r;
        append_special pid f p
      else append_special pid f p
  end.

Definition AppendPledge (pid : Z) (f : Filter) (p : list Z) : option Filter :=
  let count := CountUnspecial p in
  f ← (if count =? 0 then Some f
       else if count <? 256 then
         f ← append_unspecial f p count 0;
         AppendFilter f [BPF_STMT (BPF_RET .| BPF_K) SECCOMP_RET_ALLOW]
       else None);
  append_special pid f p.

(** [for (i = 0; i < ARRAYLEN(kPledge); ++i)]: [ipromises] is inverted, a promise is a zero bit. *)
Fixpoint append_promises (pid : Z) (f : Filter) (ps : list Pledges) (i ipromises : Z) : option Filter :=
  match ps with
  | [] => Some f
  | p :: ps =>
      f ← (if negb (Z.testbit ipromises i) then
             if (length (syscalls p) =? 0)%nat then None else AppendPledge pid f (syscalls p)
           else Some f);
      append_promises pid f ps (i + 1) ipromises
  end.

(** What violations lead to, or [None] if there is no such penalty. *)
Definition penalty (mode : Z) : option Z :=
  let m := Z.land mode PLEDGE_PENALTY_MASK in
  if m =? PLEDGE_PENALTY_KILL_THREAD then Some SECCOMP_RET_KILL_THREAD
  else if m =? PLEDGE_PENALTY_KILL_PROCESS then Some SECCOMP_RET_KILL_PROCESS
  else if m =? PLEDGE_PENALTY_RETURN_EPERM then Some (SECCOMP_RET_ERRNO .| Eperm)
  else None.

(** The program that [sys_pledge_linux] builds, or the error it returns before. *)
Definition pledge_filter (pid tid ipromises mode : Z) : option (Z + Filter) :=
  f ← AppendFilter [] kPledgeStart;
  f ← (if ipromises =? 2 ^ 64 - 1 then AppendFilter f kFilterIgnoreExitGroup else Some f);
  f ← AppendPledge pid f kPledgeDefault;
  f ← append_promises pid f kPledge 0 ipromises;
  if negb (Z.land mode PLEDGE_STDERR_LOGGING =? 0) then
    f ← AppendFilter f (AllowMonitor pid tid);
    f ← AppendFilter f [BPF_STMT (BPF_RET .| BPF_K) (SECCOMP_RET_TRAP .| Z.land mode SECCOMP_RET_DATA)];
    Some (inr f)
  else
    match penalty mode with
    | None => Some (inl (- Einval))
    | Some k => f ← AppendFilter f [BPF_STMT (BPF_RET .| BPF_K) k]; Some (inr f)
    end.

(** [install] is what prctl answers to the program, [supported] its answer to PR_GET_SECCOMP. *)
Definition sys_pledge_linux (install : Filter -> Z) (supported : Z) (pid tid ipromises mode : Z) : option Z :=
  r ← pledge_filter pid tid ipromises mode;
  match r with
  | inl e => Some e
  | inr f =>
      let rc := install f in
      Some (if (rc =? - Einval) && (supported =? - Einval) then 0 else rc)
  end.
