(* ===== verification/PledgeFilter.v ===== *)
(** * What a pledge allows (libc/calls/pledge-linux.c)

    What the pieces of the filter of [Pledge] test, as conditions on the number and the arguments of a
    system call, and the proof that the filter decides by them: piece by piece, by running each on a call
    that is not known, then for groups, and for the whole program. Then the policy that the comments above
    the pieces state, and that the filter is this policy but for the calls on which the repository
    contradicts itself. *)

From S2P Require Import Prelude Seccomp PledgeTables Pledge.

(** Runs decoded instructions. *)
Fixpoint run_insns (d : seccomp_data) (p : list (option insn)) (skip : nat) (a : Z) : option Z :=
  match p with
  | [] => None
  | i :: p =>
      match skip with
      | S skip => run_insns d p skip a
      | O =>
          match i with
          | Some (LdW off) => a ← load_word d off; run_insns d p 0 a
          | Some (And v) => run_insns d p 0 (Z.land a v)
          | Some (Jeq v t f) => run_insns d p (if a =? v then t else f) a
          | Some (Jge v t f) => run_insns d p (if a >=? v then t else f) a
          | Some (Ret v) => Some v
          | None => None
          end
      end
  end.

Lemma run_decoded d p s a : run_bpf d p s a = run_insns d (decode <$> p) s a.
Proof.
  revert s a. induction p as [|i p IH]; intros s a; [done|]. cbn. destruct s as [|s]; [|apply IH].
  destruct (decode i) as [[]|]; try done; try apply IH. destruct (load_word d off); [|done]. cbn. apply IH.
Qed.

Definition none_of (x mask : Z) : bool := Z.land x mask =? 0.
Definition all_of (x mask : Z) : bool := Z.land x mask =? mask.
Definition one_of (x : Z) (l : list Z) : bool := existsb (Z.eqb x) l.

(** A piece of a filter that allows the calls that satisfy [c], and leaves the others to what follows. *)
Definition allows (p : list sock_filter) (c : seccomp_data -> bool) : Prop :=
  forall d rest, run_bpf d (p ++ rest) 0 (sysno d) = if c d then Some SECCOMP_RET_ALLOW else run_bpf d rest 0 (sysno d).

Lemma allows_decoded (p : list sock_filter) (c : seccomp_data -> bool) :
  (forall d (r : list (option insn)), run_insns d ((decode <$> p : list (option insn)) ++ r) 0 (sysno d) = if c d then Some SECCOMP_RET_ALLOW else run_insns d r 0 (sysno d)) ->
  allows p c.
Proof. intros H d rest. rewrite !run_decoded, fmap_app. apply H. Qed.

Section steps.
Context (d : seccomp_data) (p : list (option insn)) (a : Z).

Lemma step_over i n : run_insns d (i :: p) (S n) a = run_insns d p n a.
Proof. reflexivity. Qed.
Lemma step_jeq v t f : run_insns d (Some (Jeq v t f) :: p) 0 a = run_insns d p (if a =? v then t else f) a.
Proof. reflexivity. Qed.
Lemma step_jge v t f : run_insns d (Some (Jge v t f) :: p) 0 a = run_insns d p (if a >=? v then t else f) a.
Proof. reflexivity. Qed.
Lemma step_ld off w : load_word d off = Some w -> run_insns d (Some (LdW off) :: p) 0 a = run_insns d p 0 w.
Proof. intros E. cbn [run_insns]. by rewrite E. Qed.
Lemma step_and v : run_insns d (Some (And v) :: p) 0 a = run_insns d p 0 (Z.land a v).
Proof. reflexivity. Qed.
Lemma step_ret v : run_insns d (Some (Ret v) :: p) 0 a = Some v.
Proof. reflexivity. Qed.
End steps.

Ltac bpf_step :=
  lazymatch goal with
  | |- run_insns _ _ (if ?b then _ else _) _ = _ => destruct b eqn:?
  | |- run_insns _ (_ :: _) (S _) _ = _ => rewrite step_over
  | |- run_insns _ (Some (Jeq _ _ _) :: _) 0 _ = _ => rewrite step_jeq
  | |- run_insns _ (Some (Jge _ _ _) :: _) 0 _ = _ => rewrite step_jge
  | |- run_insns _ (Some (LdW _) :: _) 0 _ = _ => erewrite step_ld by reflexivity
  | |- run_insns _ (Some (And _) :: _) 0 _ = _ => rewrite step_and
  | |- run_insns _ (Some (Ret _) :: _) 0 _ = _ => rewrite step_ret
  end.


(* ------------------------------------------------------------------ *)
(** ** What the pieces test *)

Definition S_BITS : Z := 0x200 .| 0x400 .| 0x800.
Definition O_CREAT : Z := 0x40.
Definition O_TRUNC : Z := 0x200.
Definition O_TMPFILE : Z := 0x400000.
Definition O_DIRECTORY : Z := 0x10000.
Definition AF_UNIX : Z := 1.
Definition AF_INET : Z := 2.
Definition AF_INET6 : Z := 10.
Definition SOCK_STREAM : Z := 1.
Definition SOCK_DGRAM : Z := 2.
Definition CLONE_FORBIDDEN : Z := 0x20000 .| 0x2000 .| 0x800000.
Definition CLONE_THREADS : Z := 0x100 .| 0x200 .| 0x400 .| 0x10000 .| 0x800.

(** SOCK_CLOEXEC and SOCK_NONBLOCK are ignored. *)
Definition socket_type (t : Z) : Z := Z.land t (u32 (Z.lnot (0x80000 .| 0x800))).

Definition is_null (d : seccomp_data) (i : nat) : bool := (lo d i =? 0) && (hi d i =? 0).

Definition reads_only (flags : Z) : bool := (Z.land flags O_ACCMODE =? O_RDONLY) && none_of flags (O_CREAT .| O_TRUNC .| O_TMPFILE).
Definition writes_only (flags : Z) : bool := one_of (Z.land flags O_ACCMODE) [O_WRONLY; O_RDWR] && none_of flags (O_CREAT .| O_TMPFILE).

(** The conditions on the arguments of calls that are allowed in part, by what is asked of the mode of
    a file that is created and by the names of the options that can be set. *)
Section Conditions.
Context (creates : Z -> Z -> bool) (options : list Z) (pid : Z).

Definition conditions_with : list (Z * (seccomp_data -> bool)) :=
  [ (__NR_linux_mmap .| EXEC, fun d => none_of (lo d 3) 0x52000);
    (__NR_linux_mmap .| NOEXEC, fun d => one_of (lo d 2) [0; PROT_READ; PROT_WRITE; PROT_READ .| PROT_WRITE] && none_of (lo d 3) 0x52000);
    (__NR_linux_mprotect .| NOEXEC, fun d => one_of (lo d 2) [0; PROT_READ; PROT_WRITE; PROT_READ .| PROT_WRITE]);
    (__NR_linux_chmod .| NOBITS, fun d => none_of (lo d 1) S_BITS);
    (__NR_linux_fchmod .| NOBITS, fun d => none_of (lo d 1) S_BITS);
    (__NR_linux_fchmodat .| NOBITS, fun d => none_of (lo d 2) S_BITS);
    (__NR_linux_prctl .| STDIO, fun d => one_of (lo d 0) [15; 16; 21; 22; 23; 24; 38]);
    (__NR_linux_open .| CREATONLY, fun d => creates (lo d 1) (lo d 2));
    (__NR_linux_openat .| CREATONLY, fun d => creates (lo d 2) (lo d 3));
    (__NR_linux_open .| READONLY, fun d => reads_only (lo d 1));
    (__NR_linux_openat .| READONLY, fun d => reads_only (lo d 2));
    (__NR_linux_open .| WRITEONLY, fun d => writes_only (lo d 1));
    (__NR_linux_openat .| WRITEONLY, fun d => writes_only (lo d 2));
    (__NR_linux_setsockopt .| RESTRICT, fun d => one_of (lo d 1) [0; 1; 6; 41] &&
       one_of (lo d 2) options);
    (__NR_linux_getsockopt .| RESTRICT, fun d => one_of (lo d 1) [1; 6] && one_of (lo d 2) [0x02; 0x03; 0x04; 0x09; 0x0f; 0x14; 0x15]);
    (__NR_linux_creat .| RESTRICT, fun d => none_of (lo d 1) S_BITS);
    (__NR_linux_fcntl .| STDIO, fun d => one_of (lo d 1) [0; 1; 2; 3; 4; 1030]);
    (__NR_linux_fcntl .| LOCK, fun d => one_of (lo d 1) [0x05; 0x06; 0x07; 0x24; 0x25; 0x26]);
    (__NR_linux_ioctl .| RESTRICT, fun d => one_of (lo d 1) [0x541b; 0x5421; 0x5451; 0x5450]);
    (__NR_linux_ioctl .| TTY, fun d => one_of (lo d 1) [0x5401; 0x5402; 0x5403; 0x5404; 0x5413; 0x5410; 0x540f; 0x5414; 0x540b; 0x540a; 0x5409; 0x5427]);
    (__NR_linux_ioctl .| INET, fun d => one_of (lo d 1) [0x8905]);
    (__NR_linux_socket .| INET, fun d => one_of (lo d 0) [AF_INET; AF_INET6] && one_of (socket_type (lo d 1)) [SOCK_STREAM; SOCK_DGRAM] && one_of (lo d 2) [0; 1; 6; 17]);
    (__NR_linux_socket .| ANET, fun d => one_of (lo d 0) [AF_INET; AF_INET6] && one_of (socket_type (lo d 1)) [SOCK_STREAM] && one_of (lo d 2) [0; 1; 6]);
    (__NR_linux_socket .| UNIX, fun d => one_of (lo d 0) [AF_UNIX] && one_of (socket_type (lo d 1)) [SOCK_STREAM; SOCK_DGRAM] && one_of (lo d 2) [0]);
    (__NR_linux_sendto .| ADDRLESS, fun d => is_null d 4);
    (__NR_linux_clone .| RESTRICT, fun d => none_of (lo d 0) CLONE_FORBIDDEN);
    (__NR_linux_clone .| THREAD, fun d => all_of (lo d 0) CLONE_THREADS && none_of (lo d 0) CLONE_FORBIDDEN);
    (__NR_linux_prlimit .| STDIO, fun d => is_null d 2);
    (__NR_linux_kill .| SELF, fun d => lo d 0 =? u32 pid);
    (__NR_linux_tgkill .| SELF, fun d => lo d 0 =? u32 pid) ].
End Conditions.

(** The pieces look for O_CREAT, and for O_DIRECTORY together with __O_TMPFILE. *)
Definition creates (flags mode : Z) : bool :=
  if all_of flags O_CREAT || all_of flags (O_TMPFILE .| O_DIRECTORY) then none_of mode S_BITS else true.

Definition options : list Z :=
  [0x01; 0x02; 0x03; 0x04; 0x05; 0x06; 0x09; 0x0b; 0x0c; 0x0f; 0x13; 0x14; 0x15; 0x17; 0x1a; 0x1e].

(** What the pieces test. *)
Definition conditions (pid : Z) : list (Z * (seccomp_data -> bool)) := conditions_with creates options pid.

(* ------------------------------------------------------------------ *)
(** ** The pieces test it *)

(** Evaluates the constants of a condition. *)
Ltac policy_constants :=
  unfold reads_only, writes_only, creates, options, socket_type, is_null, none_of, all_of, one_of; cbn [existsb];
  repeat match goal with
    | |- context [?x =? ?c] => is_const c; let v := eval vm_compute in c in change (x =? c) with (x =? v)
    | |- context [Z.land ?x ?c] => is_const c; let v := eval vm_compute in c in change (Z.land x c) with (Z.land x v)
    | |- context [Z.lor ?a ?b] => let v := eval vm_compute in (Z.lor a b) in change (Z.lor a b) with v
    | |- context [u32 (Z.lnot ?a)] => let v := eval vm_compute in (u32 (Z.lnot a)) in change (u32 (Z.lnot a)) with v
    end.

Ltac bpf_done :=
  policy_constants;
  repeat match goal with
    | H : (?x =? ?v) = true |- _ => apply Z.eqb_eq in H; rewrite ?H; clear H
    | H : (?x =? ?v) = false |- _ => rewrite ?H; clear H
    end;
  reflexivity.

(** Runs a piece on a call that is not known. *)
Ltac bpf_run p :=
  apply allows_decoded; intros d r;
  (let l := eval vm_compute in (decode <$> p) in change (decode <$> p) with l);
  cbn [app]; repeat bpf_step; bpf_done.

Lemma AllowMmapExec_allows :
  allows AllowMmapExec (fun d => (sysno d =? __NR_linux_mmap) && (none_of (lo d 3) 0x52000)).
Proof. bpf_run AllowMmapExec. Qed.

Lemma AllowChmodNobits_allows :
  allows AllowChmodNobits (fun d => (sysno d =? __NR_linux_chmod) && (none_of (lo d 1) S_BITS)).
Proof. bpf_run AllowChmodNobits. Qed.

Lemma AllowFchmodNobits_allows :
  allows AllowFchmodNobits (fun d => (sysno d =? __NR_linux_fchmod) && (none_of (lo d 1) S_BITS)).
Proof. bpf_run AllowFchmodNobits. Qed.

Lemma AllowFchmodatNobits_allows :
  allows AllowFchmodatNobits (fun d => (sysno d =? __NR_linux_fchmodat) && (none_of (lo d 2) S_BITS)).
Proof. bpf_run AllowFchmodatNobits. Qed.

Lemma AllowPrctlStdio_allows :
  allows AllowPrctlStdio (fun d => (sysno d =? __NR_linux_prctl) && (one_of (lo d 0) [15; 16; 21; 22; 23; 24; 38])).
Proof. bpf_run AllowPrctlStdio. Qed.

Lemma AllowOpenCreatonly_allows :
  allows AllowOpenCreatonly (fun d => (sysno d =? __NR_linux_open) && (creates (lo d 1) (lo d 2))).
Proof. bpf_run AllowOpenCreatonly. Qed.

Lemma AllowOpenatCreatonly_allows :
  allows AllowOpenatCreatonly (fun d => (sysno d =? __NR_linux_openat) && (creates (lo d 2) (lo d 3))).
Proof. bpf_run AllowOpenatCreatonly. Qed.

Lemma AllowOpenReadonly_allows :
  allows AllowOpenReadonly (fun d => (sysno d =? __NR_linux_open) && (reads_only (lo d 1))).
Proof. bpf_run AllowOpenReadonly. Qed.

Lemma AllowOpenatReadonly_allows :
  allows AllowOpenatReadonly (fun d => (sysno d =? __NR_linux_openat) && (reads_only (lo d 2))).
Proof. bpf_run AllowOpenatReadonly. Qed.

Lemma AllowOpenWriteonly_allows :
  allows AllowOpenWriteonly (fun d => (sysno d =? __NR_linux_open) && (writes_only (lo d 1))).
Proof. bpf_run AllowOpenWriteonly. Qed.

Lemma AllowOpenatWriteonly_allows :
  allows AllowOpenatWriteonly (fun d => (sysno d =? __NR_linux_openat) && (writes_only (lo d 2))).
Proof. bpf_run AllowOpenatWriteonly. Qed.

Lemma AllowSetsockoptRestrict_allows :
  allows AllowSetsockoptRestrict (fun d => (sysno d =? __NR_linux_setsockopt) && (one_of (lo d 1) [0; 1; 6; 41] &&
       one_of (lo d 2) options)).
Proof. bpf_run AllowSetsockoptRestrict. Qed.

Lemma AllowGetsockoptRestrict_allows :
  allows AllowGetsockoptRestrict (fun d => (sysno d =? __NR_linux_getsockopt) && (one_of (lo d 1) [1; 6] && one_of (lo d 2) [0x02; 0x03; 0x04; 0x09; 0x0f; 0x14; 0x15])).
Proof. bpf_run AllowGetsockoptRestrict. Qed.

Lemma AllowCreatRestrict_allows :
  allows AllowCreatRestrict (fun d => (sysno d =? __NR_linux_creat) && (none_of (lo d 1) S_BITS)).
Proof. bpf_run AllowCreatRestrict. Qed.

Lemma AllowFcntlLock_allows :
  allows AllowFcntlLock (fun d => (sysno d =? __NR_linux_fcntl) && (one_of (lo d 1) [0x05; 0x06; 0x07; 0x24; 0x25; 0x26])).
Proof. bpf_run AllowFcntlLock. Qed.

Lemma AllowIoctlStdio_allows :
  allows AllowIoctlStdio (fun d => (sysno d =? __NR_linux_ioctl) && (one_of (lo d 1) [0x541b; 0x5421; 0x5451; 0x5450])).
Proof. bpf_run AllowIoctlStdio. Qed.

Lemma AllowIoctlTty_allows :
  allows AllowIoctlTty (fun d => (sysno d =? __NR_linux_ioctl) && (one_of (lo d 1) [0x5401; 0x5402; 0x5403; 0x5404; 0x5413; 0x5410; 0x540f; 0x5414; 0x540b; 0x540a; 0x5409; 0x5427])).
Proof. bpf_run AllowIoctlTty. Qed.

Lemma AllowIoctlInet_allows :
  allows AllowIoctlInet (fun d => (sysno d =? __NR_linux_ioctl) && (one_of (lo d 1) [0x8905])).
Proof. bpf_run AllowIoctlInet. Qed.

Lemma AllowSocketInet_allows :
  allows AllowSocketInet (fun d => (sysno d =? __NR_linux_socket) && (one_of (lo d 0) [AF_INET; AF_INET6] && one_of (socket_type (lo d 1)) [SOCK_STREAM; SOCK_DGRAM] && one_of (lo d 2) [0; 1; 6; 17])).
Proof. bpf_run AllowSocketInet. Qed.

Lemma AllowSocketAnet_allows :
  allows AllowSocketAnet (fun d => (sysno d =? __NR_linux_socket) && (one_of (lo d 0) [AF_INET; AF_INET6] && one_of (socket_type (lo d 1)) [SOCK_STREAM] && one_of (lo d 2) [0; 1; 6])).
Proof. bpf_run AllowSocketAnet. Qed.

Lemma AllowSocketUnix_allows :
  allows AllowSocketUnix (fun d => (sysno d =? __NR_linux_socket) && (one_of (lo d 0) [AF_UNIX] && one_of (socket_type (lo d 1)) [SOCK_STREAM; SOCK_DGRAM] && one_of (lo d 2) [0])).
Proof. bpf_run AllowSocketUnix. Qed.

Lemma AllowSendtoAddrless_allows :
  allows AllowSendtoAddrless (fun d => (sysno d =? __NR_linux_sendto) && (is_null d 4)).
Proof. bpf_run AllowSendtoAddrless. Qed.

Lemma AllowCloneRestrict_allows :
  allows AllowCloneRestrict (fun d => (sysno d =? __NR_linux_clone) && (none_of (lo d 0) CLONE_FORBIDDEN)).
Proof. bpf_run AllowCloneRestrict. Qed.

Lemma AllowCloneThread_allows :
  allows AllowCloneThread (fun d => (sysno d =? __NR_linux_clone) && (all_of (lo d 0) CLONE_THREADS && none_of (lo d 0) CLONE_FORBIDDEN)).
Proof. bpf_run AllowCloneThread. Qed.

Lemma AllowPrlimitStdio_allows :
  allows AllowPrlimitStdio (fun d => (sysno d =? __NR_linux_prlimit) && (is_null d 2)).
Proof. bpf_run AllowPrlimitStdio. Qed.

Lemma allows_ext p c c' : (forall d, c d = c' d) -> allows p c -> allows p c'.
Proof. intros E A d rest. rewrite <- E. apply A. Qed.

Lemma lo_range d i : 0 <= lo d i < 2 ^ 32.
Proof. unfold lo, u32. apply Z.mod_pos_bound. lia. Qed.

(** The bits behind a mask are those of a small number. *)
Lemma prot_noexec x : 0 <= x < 2 ^ 32 -> (Z.land x 0xfffffffc =? 0) = one_of x [0; PROT_READ; PROT_WRITE; PROT_READ .| PROT_WRITE].
Proof.
  intros H. apply eq_true_iff_eq. unfold one_of. rewrite existsb_exists, Z.eqb_eq.
  change (Z.land x 0xfffffffc = 0 <-> exists y, List.In y [0; 1; 2; 3] /\ (x =? y) = true). split.
  - intros E. assert (x / 2 ^ 2 = 0) as D.
    { rewrite <- Z.shiftr_div_pow2 by lia. apply Z.bits_inj_iff'. intros n Hn. rewrite Z.shiftr_spec, Z.bits_0 by lia.
      destruct (Z.ltb_spec (n + 2) 32) as [L|G].
      - apply (f_equal (fun z => Z.testbit z (n + 2))) in E. rewrite Z.land_spec, Z.bits_0 in E.
        change 0xfffffffc with (Z.shiftl (Z.ones 30) 2) in E. rewrite Z.shiftl_spec, Z.ones_spec_low in E by lia. by rewrite andb_true_r in E.
      - destruct (Z.eq_dec x 0) as [->|NZ]; [apply Z.bits_0|]. apply Z.bits_above_log2; [lia|]. apply Z.log2_lt_pow2; [lia|].
        eapply Z.lt_le_trans; [exact (proj2 H)|]. apply Z.pow_le_mono_r; lia. }
    exists x. rewrite Z.eqb_refl. split; [|done]. apply Z.div_small_iff in D; [|done]. assert (x = 0 \/ x = 1 \/ x = 2 \/ x = 3) by lia. cbn. intuition.
  - intros (y & Hy & ->%Z.eqb_eq). cbn in Hy. intuition (subst; reflexivity).
Qed.

Lemma AllowMprotectNoexec_allows :
  allows AllowMprotectNoexec (fun d => (sysno d =? __NR_linux_mprotect) && (one_of (lo d 2) [0; PROT_READ; PROT_WRITE; PROT_READ .| PROT_WRITE])).
Proof.
  apply (allows_ext _ (fun d => (sysno d =? __NR_linux_mprotect) && none_of (lo d 2) 0xfffffffc)).
  - intros d. f_equal. apply prot_noexec, lo_range.
  - bpf_run AllowMprotectNoexec.
Qed.

Lemma AllowMmapNoexec_allows :
  allows AllowMmapNoexec (fun d => (sysno d =? __NR_linux_mmap) &&
    (one_of (lo d 2) [0; PROT_READ; PROT_WRITE; PROT_READ .| PROT_WRITE] && none_of (lo d 3) 0x52000)).
Proof.
  apply (allows_ext _ (fun d => (sysno d =? __NR_linux_mmap) && (none_of (lo d 2) 0xfffffffc && none_of (lo d 3) 0x52000))).
  - intros d. do 2 f_equal. apply prot_noexec, lo_range.
  - bpf_run AllowMmapNoexec.
Qed.

Lemma AllowFcntlStdio_allows :
  allows AllowFcntlStdio (fun d => (sysno d =? __NR_linux_fcntl) && (one_of (lo d 1) [0; 1; 2; 3; 4; 1030])).
Proof.
  apply (allows_ext _ (fun d => (sysno d =? __NR_linux_fcntl) && ((lo d 1 =? 1030) || negb (lo d 1 >=? 5)))).
  - intros d. f_equal. pose proof (lo_range d 1) as R. unfold one_of. cbn [existsb]. apply eq_true_iff_eq.
    rewrite !orb_true_iff, !Z.eqb_eq, negb_true_iff, Z.geb_leb, Z.leb_gt. intuition lia.
  - apply allows_decoded; intros d r.
    (let l := eval vm_compute in (decode <$> AllowFcntlStdio) in change (decode <$> AllowFcntlStdio) with l).
    cbn [app]; repeat bpf_step; policy_constants;
      repeat match goal with H : _ = true |- _ => rewrite H; clear H | H : _ = false |- _ => rewrite H; clear H end; reflexivity.
Qed.

(** The process id is a variable of the piece. *)
Ltac bpf_run_pid :=
  apply allows_decoded; intros d r; unfold AllowKillSelf, AllowTgkillSelf, BPF_JUMP;
  match goal with |- context [u32 ?pid] => is_var pid; generalize (u32 pid); intros q end;
  match goal with |- context [decode <$> ?p] => let l := eval vm_compute in (decode <$> p) in change (decode <$> p) with l end;
  cbn [app]; repeat bpf_step; policy_constants;
  repeat match goal with H : (_ =? _) = _ |- _ => rewrite H; clear H end; reflexivity.

Lemma AllowKillSelf_allows pid : allows (AllowKillSelf pid) (fun d => (sysno d =? __NR_linux_kill) && (lo d 0 =? u32 pid)).
Proof. bpf_run_pid. Qed.

Lemma AllowTgkillSelf_allows pid : allows (AllowTgkillSelf pid) (fun d => (sysno d =? __NR_linux_tgkill) && (lo d 0 =? u32 pid)).
Proof. bpf_run_pid. Qed.

(** Every entry of the table has its piece, which allows what the entry says. *)
Definition follows (pid : Z) (e : Z * (seccomp_data -> bool)) : Prop :=
  exists r, special_rule pid e.1 = Some r /\ allows r (fun d => (sysno d =? Z.land e.1 0xfff) && e.2 d) /\ jumps_ok r 1 = true.

Ltac rule_follows H := apply Forall_cons; split; [eexists; split; [reflexivity|split; [exact H|reflexivity]]|].

Lemma conditions_follow pid : Forall (follows pid) (conditions pid).
Proof.
  unfold conditions, conditions_with.
  rule_follows AllowMmapExec_allows.
  rule_follows AllowMmapNoexec_allows.
  rule_follows AllowMprotectNoexec_allows.
  rule_follows AllowChmodNobits_allows.
  rule_follows AllowFchmodNobits_allows.
  rule_follows AllowFchmodatNobits_allows.
  rule_follows AllowPrctlStdio_allows.
  rule_follows AllowOpenCreatonly_allows.
  rule_follows AllowOpenatCreatonly_allows.
  rule_follows AllowOpenReadonly_allows.
  rule_follows AllowOpenatReadonly_allows.
  rule_follows AllowOpenWriteonly_allows.
  rule_follows AllowOpenatWriteonly_allows.
  rule_follows AllowSetsockoptRestrict_allows.
  rule_follows AllowGetsockoptRestrict_allows.
  rule_follows AllowCreatRestrict_allows.
  rule_follows AllowFcntlStdio_allows.
  rule_follows AllowFcntlLock_allows.
  rule_follows AllowIoctlStdio_allows.
  rule_follows AllowIoctlTty_allows.
  rule_follows AllowIoctlInet_allows.
  rule_follows AllowSocketInet_allows.
  rule_follows AllowSocketAnet_allows.
  rule_follows AllowSocketUnix_allows.
  rule_follows AllowSendtoAddrless_allows.
  rule_follows AllowCloneRestrict_allows.
  rule_follows AllowCloneThread_allows.
  rule_follows AllowPrlimitStdio_allows.
  rule_follows (AllowKillSelf_allows pid).
  rule_follows (AllowTgkillSelf_allows pid).
  apply Forall_nil_2.
Qed.

(** What an entry of a group permits. *)
Definition permits (pid x : Z) (d : seccomp_data) : bool :=
  if is_special x then
    match find (fun e => e.1 =? x) (conditions pid) with
    | Some e => (sysno d =? Z.land x 0xfff) && e.2 d
    | None => false
    end
  else sysno d =? x.

Definition group_permits (pid : Z) (p : list Z) (d : seccomp_data) : bool := existsb (fun x => permits pid x d) p.

(** The entries of a group have rules, and are few. *)
Definition group_ok (p : list Z) : bool :=
  forallb (fun x => if is_special x then existsb (fun e => e.1 =? x) (conditions 0) else (0 <=? x) && (x <? 2 ^ 32)) p &&
  (CountUnspecial p <? 256).

Lemma find_special pid x :
  existsb (fun e => e.1 =? x) (conditions 0) = true -> exists e, find (fun e => e.1 =? x) (conditions pid) = Some e.
Proof.
  replace (existsb (fun e => e.1 =? x) (conditions 0)) with (existsb (fun y => y =? x) (fst <$> conditions pid)) by reflexivity.
  induction (conditions pid) as [|e l IH]; [done|]. cbn. destruct (e.1 =? x); [by eexists|done].
Qed.

Lemma special_follows pid x :
  is_special x = true -> existsb (fun e => e.1 =? x) (conditions 0) = true ->
  exists r, special_rule pid x = Some r /\ allows r (permits pid x) /\ jumps_ok r 1 = true.
Proof.
  intros Sp Ex. destruct (find_special pid x Ex) as [e E]. pose proof (find_some _ _ E) as [In Eq]. apply Z.eqb_eq in Eq.
  destruct (proj1 (Forall_forall _ _) (conditions_follow pid) e) as (r & R & A & J); [by apply list_elem_of_In|]. rewrite Eq in R, A.
  exists r. split; [done|]. split; [|done]. eapply allows_ext; [|exact A]. intros d. unfold permits. by rewrite Sp, E.
Qed.

(* ------------------------------------------------------------------ *)
(** ** Assembled groups *)

Definition plain (p : list Z) : list Z := filter (fun x => is_special x = false) p.

Fixpoint chain (xs : list Z) : list sock_filter :=
  match xs with
  | [] => []
  | x :: xs =>
      BPF_JUMP (BPF_JMP .| BPF_JEQ .| BPF_K) x (Z.of_nat (length xs)) (match xs with [] => 1 | _ => 0 end) :: chain xs
  end.

Definition group_code (pid : Z) (p : list Z) : list sock_filter :=
  (match plain p with [] => [] | xs => chain xs ++ [BPF_STMT (BPF_RET .| BPF_K) SECCOMP_RET_ALLOW] end) ++
  mjoin (omap (fun x => if is_special x then special_rule pid x else None) p).

Lemma AppendFilter_app f p q : (g ← AppendFilter f p; AppendFilter g q) = AppendFilter f (p ++ q).
Proof.
  unfold AppendFilter. rewrite length_app. destruct (Nat.ltb_spec FILTER_SIZE (length f + length p)) as [L|L]; cbn [mbind option_bind].
  - by rewrite (proj2 (Nat.ltb_lt _ _)) by lia.
  - rewrite length_app, Nat.add_assoc. by rewrite app_assoc.
Qed.

Lemma AppendFilter_nil f : (length f <= FILTER_SIZE)%nat -> AppendFilter f [] = Some f.
Proof. intros L. unfold AppendFilter. cbn [length]. rewrite (proj2 (Nat.ltb_ge _ _)) by lia. by rewrite app_nil_r. Qed.

Lemma AppendFilter_size f p g : AppendFilter f p = Some g -> (length g <= FILTER_SIZE)%nat.
Proof. unfold AppendFilter. destruct (Nat.ltb_spec FILTER_SIZE (length f + length p)); [done|]. intros [= <-]. by rewrite length_app. Qed.

(** Appending in steps is appending at once. *)
Lemma AppendFilter_bind f p (k : Filter -> option Filter) q :
  (forall g, (length g <= FILTER_SIZE)%nat -> k g = AppendFilter g q) -> (g ← AppendFilter f p; k g) = AppendFilter f (p ++ q).
Proof.
  intros H. rewrite <- AppendFilter_app. destruct (AppendFilter f p) as [g|] eqn:E; [|done]. cbn. apply H. by eapply AppendFilter_size.
Qed.

Lemma append_unspecial_code f p j count :
  (length f <= FILTER_SIZE)%nat -> count = j + Z.of_nat (length (plain p)) -> append_unspecial f p count j = AppendFilter f (chain (plain p)).
Proof.
  revert f j. induction p as [|x p IH]; intros f j L C; [by rewrite AppendFilter_nil|]. cbn [append_unspecial]. unfold plain in *.
  rewrite filter_cons. destruct (is_special x) eqn:E.
  - rewrite decide_False by done. apply IH; [done|]. rewrite filter_cons, decide_False in C by (by rewrite E). done.
  - rewrite filter_cons, decide_True in C by done. rewrite decide_True by done. cbn [length] in C. cbn [chain].
    replace (count - j - 1) with (Z.of_nat (length (filter (fun x => is_special x = false) p))) by lia.
    replace (if j =? count - 1 then 1 else 0) with (match filter (fun x => is_special x = false) p with [] => 1 | _ => 0 end).
    + apply (AppendFilter_bind f [_]). intros g Lg. apply IH; [done|lia].
    + destruct (filter _ p); cbn [length] in C; destruct (Z.eqb_spec j (count - 1)); lia.
Qed.

Lemma append_special_code pid f p :
  (length f <= FILTER_SIZE)%nat ->
  Forall (fun x => is_special x = true -> is_Some (special_rule pid x)) p ->
  append_special pid f p = AppendFilter f (mjoin (omap (fun x => if is_special x then special_rule pid x else None) p)).
Proof.
  intros L F. revert f L. induction F as [|x p Hx F IH]; intros f L; [by rewrite AppendFilter_nil|]. cbn [append_special omap list_omap].
  destruct (is_special x) eqn:E; [|by apply IH]. destruct (Hx eq_refl) as [r ->]. cbn [mbind option_bind].
  apply (AppendFilter_bind f r). intros g Lg. by apply IH.
Qed.

Lemma CountUnspecial_plain p : CountUnspecial p = Z.of_nat (length (plain p)).
Proof. reflexivity. Qed.

Lemma group_specials pid p :
  group_ok p = true -> Forall (fun x => is_special x = true -> is_Some (special_rule pid x)) p.
Proof.
  unfold group_ok. rewrite andb_true_iff, forallb_forall. intros [H _]. apply Forall_forall. intros x Hx Sp.
  specialize (H x (proj1 (list_elem_of_In _ _) Hx)). rewrite Sp in H. destruct (special_follows pid x Sp H) as (r & -> & _). by eexists.
Qed.

Lemma AppendPledge_code pid f p :
  (length f <= FILTER_SIZE)%nat -> group_ok p = true -> AppendPledge pid f p = AppendFilter f (group_code pid p).
Proof.
  intros L G. pose proof (group_specials pid p G) as Sp. unfold AppendPledge, group_code. rewrite CountUnspecial_plain.
  unfold group_ok in G. apply andb_true_iff in G as [_ C]. rewrite CountUnspecial_plain in C.
  destruct (Z.eqb_spec (Z.of_nat (length (plain p))) 0) as [Z0|NZ].
  - destruct (plain p) as [|x xs]; [|cbn in Z0; lia]. cbn [app mbind option_bind]. by apply append_special_code.
  - rewrite C. rewrite (append_unspecial_code f p 0) by (done || lia).
    destruct (plain p) as [|x xs] eqn:E; [cbn in NZ; lia|]. rewrite AppendFilter_app. apply AppendFilter_bind. intros g Lg. by apply append_special_code.
Qed.

Lemma run_jump d v t f p a :
  run_bpf d (BPF_JUMP (BPF_JMP .| BPF_JEQ .| BPF_K) v t f :: p) 0 a = run_bpf d p (if a =? u32 v then Z.to_nat (u8 t) else Z.to_nat (u8 f)) a.
Proof. reflexivity. Qed.

Lemma length_chain xs : length (chain xs) = length xs.
Proof. induction xs as [|x xs IH]; [done|]. cbn. by rewrite IH. Qed.

Lemma chain_run d xs rest a :
  Forall (fun x => 0 <= x < 2 ^ 32) xs -> (length xs < 256)%nat -> xs <> [] ->
  run_bpf d (chain xs ++ BPF_STMT (BPF_RET .| BPF_K) SECCOMP_RET_ALLOW :: rest) 0 a =
  if one_of a xs then Some SECCOMP_RET_ALLOW else run_bpf d rest 0 a.
Proof.
  intros F. induction F as [|x xs Hx F IH]; intros L NE; [done|]. cbn [chain app length] in *. rewrite run_jump, (u32_id x Hx).
  unfold one_of. cbn [existsb]. destruct (a =? x); cbn [orb].
  - rewrite u8_id by lia. rewrite Nat2Z.id, <- length_chain, run_skip. reflexivity.
  - destruct xs as [|y xs]; [reflexivity|]. change (Z.to_nat (u8 0)) with 0%nat. apply IH; [cbn [length] in *; lia|done].
Qed.

Lemma allows_nil : allows [] (fun _ => false).
Proof. by intros d rest. Qed.

Lemma allows_app p q c c' : allows p c -> allows q c' -> allows (p ++ q) (fun d => c d || c' d).
Proof. intros A B d rest. rewrite <- app_assoc, A. destruct (c d); [done|]. apply B. Qed.

Lemma specials_allow pid p :
  Forall (fun x => is_special x = true -> existsb (fun e => e.1 =? x) (conditions 0) = true) p ->
  allows (mjoin (omap (fun x => if is_special x then special_rule pid x else None) p)) (fun d => existsb (fun x => is_special x && permits pid x d) p).
Proof.
  induction 1 as [|x p Hx F IH]; [apply allows_nil|]. cbn [omap list_omap]. destruct (is_special x) eqn:E.
  - destruct (special_follows pid x E (Hx eq_refl)) as (r & -> & A & _). eapply allows_ext; [|exact (allows_app _ _ _ _ A IH)].
    intros d. cbn [existsb]. by rewrite E.
  - eapply allows_ext; [|exact IH]. intros d. cbn [existsb]. by rewrite E.
Qed.

Lemma group_split pid p d :
  group_permits pid p d = one_of (sysno d) (plain p) || existsb (fun x => is_special x && permits pid x d) p.
Proof.
  unfold group_permits, plain. induction p as [|x p IH]; [done|]. cbn [existsb]. rewrite filter_cons, IH. clear IH. destruct (is_special x) eqn:E.
  - rewrite decide_False by done. cbn [andb]. by destruct (permits pid x d), (one_of _ _).
  - rewrite decide_True by done. unfold one_of at 2. cbn [existsb andb]. unfold permits at 1. rewrite E. by destruct (sysno d =? x).
Qed.

Lemma group_ok_entries p :
  group_ok p = true ->
  Forall (fun x => is_special x = true -> existsb (fun e => e.1 =? x) (conditions 0) = true) p /\
  Forall (fun x => 0 <= x < 2 ^ 32) (plain p) /\ (length (plain p) < 256)%nat.
Proof.
  unfold group_ok. rewrite andb_true_iff, forallb_forall, CountUnspecial_plain, Z.ltb_lt. intros [H C]. split; [|split; [|lia]].
  - apply Forall_forall. intros x Hx Sp. specialize (H x (proj1 (list_elem_of_In _ _) Hx)). by rewrite Sp in H.
  - apply Forall_forall. intros x Hx. apply list_elem_of_filter in Hx as [Sp Hx]. specialize (H x (proj1 (list_elem_of_In _ _) Hx)).
    rewrite Sp, andb_true_iff, Z.leb_le, Z.ltb_lt in H. done.
Qed.

(** An assembled group allows what its entries permit. *)
Lemma group_allows pid p : group_ok p = true -> allows (group_code pid p) (group_permits pid p).
Proof.
  intros G. destruct (group_ok_entries p G) as (Sp & Pl & L). eapply allows_ext; [intros d; symmetry; apply group_split|].
  unfold group_code. apply allows_app; [|by apply specials_allow]. destruct (plain p) as [|x xs] eqn:E; [apply allows_nil|].
  intros d rest. rewrite <- app_assoc. by apply chain_run.
Qed.

Lemma decode_jeq v t f :
  decode (BPF_JUMP (BPF_JMP .| BPF_JEQ .| BPF_K) v t f) = Some (Jeq (u32 v) (Z.to_nat (u8 t)) (Z.to_nat (u8 f))).
Proof. reflexivity. Qed.

Lemma chain_jumps xs n : (length xs < 256)%nat -> (2 <= n)%nat -> jumps_ok (chain xs) n = true.
Proof.
  induction xs as [|x xs IH]; intros L Ln; [done|]. cbn [length] in L. cbn [chain jumps_ok].
  rewrite IH by lia. rewrite length_chain, andb_true_r. rewrite decode_jeq, u8_id by lia. rewrite Nat2Z.id.
  apply andb_true_iff. rewrite !Nat.ltb_lt. split; [lia|].
  destruct xs; [change (Z.to_nat (u8 1)) with 1%nat|change (Z.to_nat (u8 0)) with 0%nat]; cbn [length]; lia.
Qed.

Lemma specials_jumps pid p n :
  (1 <= n)%nat -> Forall (fun x => is_special x = true -> existsb (fun e => e.1 =? x) (conditions 0) = true) p ->
  jumps_ok (mjoin (omap (fun x => if is_special x then special_rule pid x else None) p)) n = true.
Proof.
  intros Ln. induction 1 as [|x p Hx F IH]; [done|]. cbn [omap list_omap]. destruct (is_special x) eqn:E; [|done].
  destruct (special_follows pid x E (Hx eq_refl)) as (r & -> & _ & J). cbn [mjoin list_join]. rewrite jumps_ok_app.
  apply andb_true_iff. split; [|done]. eapply jumps_ok_more; [|exact J]. lia.
Qed.

Lemma group_jumps pid p n : group_ok p = true -> (1 <= n)%nat -> jumps_ok (group_code pid p) n = true.
Proof.
  intros G Ln. destruct (group_ok_entries p G) as (Sp & _ & L). unfold group_code. rewrite jumps_ok_app.
  apply andb_true_iff. split; [|by apply specials_jumps]. destruct (plain p) as [|x xs]; [done|]. rewrite jumps_ok_app.
  apply andb_true_iff. split; [|reflexivity]. apply chain_jumps; [done|]. cbn [length]. lia.
Qed.

(* ------------------------------------------------------------------ *)
(** ** The whole filter *)

(** The promises that are made. *)
Fixpoint promised (ps : list Pledges) (i ipromises : Z) : list Pledges :=
  match ps with
  | [] => []
  | p :: ps => if Z.testbit ipromises i then promised ps (i + 1) ipromises else p :: promised ps (i + 1) ipromises
  end.

Definition allowed (pid ipromises : Z) (d : seccomp_data) : bool :=
  group_permits pid kPledgeDefault d || existsb (fun p => group_permits pid (syscalls p) d) (promised kPledge 0 ipromises).

(** Calls that are answered with ENOSYS whatever is promised. *)
Definition refused (d : seccomp_data) : bool :=
  (sysno d >=? __NR_linux_memfd_secret) ||
  one_of (sysno d) [__NR_linux_rseq; __NR_linux_memfd_create; __NR_linux_openat2; __NR_linux_clone3; __NR_linux_statx].

(** What the handler of violations needs. *)
Definition monitor_permits (pid tid : Z) (d : seccomp_data) : bool :=
  (sysno d =? __NR_linux_write) && (lo d 0 =? 2) ||
  (sysno d =? __NR_linux_kill) && (lo d 0 =? u32 pid) && (lo d 1 =? Sigabrt) ||
  (sysno d =? __NR_linux_tkill) && (lo d 0 =? u32 tid) && (lo d 1 =? Sigabrt) ||
  (sysno d =? __NR_linux_sigaction) && (lo d 0 =? Sigabrt) ||
  one_of (sysno d) [__NR_linux_sigreturn; __NR_linux_sigprocmask].

Definition logging (mode : Z) : bool := negb (Z.land mode PLEDGE_STDERR_LOGGING =? 0).

(** The verdict on a call, by whether the promises allow it. *)
Definition verdict_if (allow : bool) (pid tid ipromises mode : Z) (d : seccomp_data) : option Z :=
  if negb (u32 (arch d) =? AUDIT_ARCH_X86_64) then Some SECCOMP_RET_KILL_PROCESS
  else if refused d then Some (SECCOMP_RET_ERRNO .| Enosys)
  else if (ipromises =? 2 ^ 64 - 1) && (sysno d =? __NR_linux_exit_group) then Some (SECCOMP_RET_ERRNO .| Eperm)
  else if allow then Some SECCOMP_RET_ALLOW
  else if logging mode then
    if monitor_permits pid tid d then Some SECCOMP_RET_ALLOW
    else Some (SECCOMP_RET_TRAP .| Z.land mode SECCOMP_RET_DATA)
  else penalty mode.

Definition verdict (pid tid ipromises mode : Z) (d : seccomp_data) : option Z :=
  verdict_if (allowed pid ipromises d) pid tid ipromises mode d.

Lemma start_run d rest :
  run_bpf d (kPledgeStart ++ rest) 0 0 =
  if negb (u32 (arch d) =? AUDIT_ARCH_X86_64) then Some SECCOMP_RET_KILL_PROCESS
  else if refused d then Some (SECCOMP_RET_ERRNO .| Enosys) else run_bpf d rest 0 (sysno d).
Proof.
  rewrite !run_decoded, fmap_app. generalize (decode <$> rest). intros r.
  (let l := eval vm_compute in (decode <$> kPledgeStart) in change (decode <$> kPledgeStart) with l).
  unfold refused. change (sysno d >=? __NR_linux_memfd_secret) with (sysno d >=? 447).
  cbn [app]. repeat bpf_step; policy_constants;
    repeat match goal with H : _ = true |- _ => rewrite H; clear H | H : _ = false |- _ => rewrite H; clear H end;
    rewrite ?orb_true_r; reflexivity.
Qed.

Lemma exit_group_run d rest :
  run_bpf d (kFilterIgnoreExitGroup ++ rest) 0 (sysno d) =
  if sysno d =? __NR_linux_exit_group then Some (SECCOMP_RET_ERRNO .| Eperm) else run_bpf d rest 0 (sysno d).
Proof.
  rewrite !run_decoded, fmap_app. generalize (decode <$> rest). intros r.
  (let l := eval vm_compute in (decode <$> kFilterIgnoreExitGroup) in change (decode <$> kFilterIgnoreExitGroup) with l).
  cbn [app]. repeat bpf_step; policy_constants; repeat match goal with H : _ = _ |- _ => rewrite H; clear H end; reflexivity.
Qed.

Lemma AllowMonitor_allows pid tid : allows (AllowMonitor pid tid) (monitor_permits pid tid).
Proof.
  apply allows_decoded; intros d r. unfold AllowMonitor, monitor_permits, BPF_JUMP.
  generalize (u32 pid), (u32 tid). intros q q'.
  match goal with |- context [decode <$> ?p] => let l := eval vm_compute in (decode <$> p) in change (decode <$> p) with l end.
  cbn [app]; repeat bpf_step; policy_constants;
    repeat match goal with
      | H : (sysno d =? ?v) = true |- _ => apply Z.eqb_eq in H; rewrite ?H; clear H
      | H : (_ =? _) = _ |- _ => rewrite ?H; clear H
      end; reflexivity.
Qed.

Definition groups_ok : bool := group_ok kPledgeDefault && forallb (fun p => group_ok (syscalls p) && negb (length (syscalls p) =? 0)%nat) kPledge.

Lemma groups_are_ok : groups_ok = true.
Proof. vm_compute. reflexivity. Qed.

Definition ok_pledge (p : Pledges) : Prop := group_ok (syscalls p) = true /\ (length (syscalls p) =? 0)%nat = false.

Lemma default_ok : group_ok kPledgeDefault = true.
Proof. vm_compute. reflexivity. Qed.

Lemma kPledge_ok : Forall ok_pledge kPledge.
Proof.
  pose proof groups_are_ok as G. unfold groups_ok in G. apply andb_true_iff in G as [_ G]. rewrite forallb_forall in G.
  apply Forall_forall. intros p Hp. specialize (G p (proj1 (list_elem_of_In _ _) Hp)). apply andb_true_iff in G as [A B].
  split; [done|]. by apply negb_true_iff.
Qed.

Lemma promised_sub ps i ip : Forall ok_pledge ps -> Forall ok_pledge (promised ps i ip).
Proof. intros F. revert i. induction F as [|p ps Hp F IH]; intros i; [constructor|]. cbn. destruct (Z.testbit ip i); [apply IH|by constructor]. Qed.

Definition groups_code (pid : Z) (ps : list Pledges) : list sock_filter := mjoin ((fun p => group_code pid (syscalls p)) <$> ps).

Lemma append_promises_code pid f ps i ip :
  (length f <= FILTER_SIZE)%nat -> Forall ok_pledge ps -> append_promises pid f ps i ip = AppendFilter f (groups_code pid (promised ps i ip)).
Proof.
  intros L F. revert f i L. induction F as [|p ps [Hp Lp] F IH]; intros f i L; [by rewrite AppendFilter_nil|].
  cbn [append_promises promised]. destruct (Z.testbit ip i); cbn [negb mbind option_bind]; [by apply IH|].
  rewrite Lp, AppendPledge_code by done. apply (AppendFilter_bind f (group_code pid (syscalls p))). intros g Lg. by apply IH.
Qed.

Lemma bind_size {A} f p (h h' : Filter -> option A) :
  (forall g, (length g <= FILTER_SIZE)%nat -> h g = h' g) -> (g ← AppendFilter f p; h g) = (g ← AppendFilter f p; h' g).
Proof. intros H. destruct (AppendFilter f p) as [g|] eqn:E; [|done]. cbn. apply H. by eapply AppendFilter_size. Qed.

Definition pledge_code (pid ip : Z) : list sock_filter :=
  kPledgeStart ++ (if ip =? 2 ^ 64 - 1 then kFilterIgnoreExitGroup else []) ++ group_code pid kPledgeDefault ++
  groups_code pid (promised kPledge 0 ip).

Definition ending (pid tid mode : Z) : option (list sock_filter) :=
  if logging mode then
    Some (AllowMonitor pid tid ++ [BPF_STMT (BPF_RET .| BPF_K) (SECCOMP_RET_TRAP .| Z.land mode SECCOMP_RET_DATA)])
  else (fun v => [BPF_STMT (BPF_RET .| BPF_K) v]) <$> penalty mode.

Lemma pledge_filter_code pid tid ip mode :
  pledge_filter pid tid ip mode =
  match ending pid tid mode with
  | Some e => inr <$> AppendFilter [] (pledge_code pid ip ++ e)
  | None => (fun _ => inl (- Einval)) <$> AppendFilter [] (pledge_code pid ip)
  end.
Proof.
  assert (forall {A} (h : Filter -> option A),
    (f ← AppendFilter [] kPledgeStart;
     f ← (if ip =? 2 ^ 64 - 1 then AppendFilter f kFilterIgnoreExitGroup else Some f);
     f ← AppendPledge pid f kPledgeDefault;
     f ← append_promises pid f kPledge 0 ip; h f) = (f ← AppendFilter [] (pledge_code pid ip); h f)) as X.
  { intros A h. unfold pledge_code. rewrite <- AppendFilter_app. rewrite !option_bind_assoc. apply bind_size.
    intros f Lf. unfold compose; cbn beta. rewrite <- AppendFilter_app.
    replace (if ip =? 2 ^ 64 - 1 then AppendFilter f kFilterIgnoreExitGroup else Some f)
      with (AppendFilter f (if ip =? 2 ^ 64 - 1 then kFilterIgnoreExitGroup else [])) by (destruct (ip =? _); [done|by apply AppendFilter_nil]).
    rewrite !option_bind_assoc. apply bind_size. intros g Lg. unfold compose; cbn beta. rewrite <- AppendFilter_app, !option_bind_assoc.
    rewrite AppendPledge_code by (done || apply default_ok). apply bind_size. intros g' Lg'. unfold compose; cbn beta.
    rewrite append_promises_code by (done || apply kPledge_ok). done. }
  unfold pledge_filter. rewrite X. clear X. unfold ending, logging. destruct (negb _).
  - rewrite <- AppendFilter_app. destruct (AppendFilter [] (pledge_code pid ip)) as [f|] eqn:E; [|done]. cbn [mbind option_bind].
    rewrite <- AppendFilter_app. destruct (AppendFilter f (AllowMonitor pid tid)) as [g|]; [|done]. cbn [mbind option_bind].
    by destruct (AppendFilter g _).
  - destruct (penalty mode) as [v|]; cbn [fmap option_fmap option_map]; [|by destruct (AppendFilter [] _)].
    rewrite <- AppendFilter_app. destruct (AppendFilter [] (pledge_code pid ip)) as [f|] eqn:E; [|done]. cbn [mbind option_bind].
    by destruct (AppendFilter f _).
Qed.

Lemma special_rule_size pid x : length <$> special_rule pid x = length <$> special_rule 0 x.
Proof.  unfold special_rule. repeat (destruct (x =? _); [reflexivity|]). reflexivity. Qed.

(** *** Running it *)

#[local] Opaque special_rule kPledgeStart AllowMonitor kFilterIgnoreExitGroup conditions kPledge kPledgeDefault.

Lemma groups_allow pid ps :
  Forall ok_pledge ps -> allows (groups_code pid ps) (fun d => existsb (fun p => group_permits pid (syscalls p) d) ps).
Proof.
  induction 1 as [|p ps [Hp _] F IH]; [apply allows_nil|]. unfold groups_code. cbn [fmap list_fmap mjoin list_join].
  exact (allows_app _ _ _ _ (group_allows pid _ Hp) IH).
Qed.

Lemma ret_run d v rest a : 0 <= v < 2 ^ 32 -> run_bpf d (BPF_STMT (BPF_RET .| BPF_K) v :: rest) 0 a = Some v.
Proof. intros H. transitivity (Some (u32 v)); [reflexivity|]. by rewrite u32_id. Qed.

Lemma trap_range mode : 0 <= SECCOMP_RET_TRAP .| Z.land mode SECCOMP_RET_DATA < 2 ^ 32.
Proof.
  change SECCOMP_RET_TRAP with (Z.shiftl 3 16). change SECCOMP_RET_DATA with (2 ^ 16 - 1). rewrite land_mask by lia.
  rewrite lor_shiftl_add by (lia || (apply Z.mod_pos_bound; lia)). pose proof (Z.mod_pos_bound mode (2 ^ 16) ltac:(lia)). lia.
Qed.

Lemma penalty_range mode v : penalty mode = Some v -> 0 <= v < 2 ^ 32.
Proof. unfold penalty. repeat (destruct (_ =? _)); intros [= <-]; vm_compute; intuition congruence. Qed.

Definition tail_verdict (pid tid mode : Z) (d : seccomp_data) : option Z :=
  if logging mode then
    if monitor_permits pid tid d then Some SECCOMP_RET_ALLOW else Some (SECCOMP_RET_TRAP .| Z.land mode SECCOMP_RET_DATA)
  else penalty mode.

Lemma ending_run pid tid mode e d : ending pid tid mode = Some e -> run_bpf d e 0 (sysno d) = tail_verdict pid tid mode d.
Proof.
  unfold ending, tail_verdict. destruct (logging mode).
  - intros E. apply (inj Some) in E. subst e. rewrite AllowMonitor_allows. destruct (monitor_permits pid tid d); [reflexivity|]. apply ret_run, trap_range.
  - destruct (penalty mode) as [v|] eqn:Ep; [|done]. intros E. apply (inj Some) in E. subst e. eapply ret_run, penalty_range, Ep.
Qed.

Lemma groups_run pid ip e d :
  run_bpf d (group_code pid kPledgeDefault ++ groups_code pid (promised kPledge 0 ip) ++ e) 0 (sysno d) =
  if allowed pid ip d then Some SECCOMP_RET_ALLOW else run_bpf d e 0 (sysno d).
Proof.
  unfold allowed. rewrite (group_allows pid kPledgeDefault default_ok). destruct (group_permits pid kPledgeDefault d); [reflexivity|]. cbn [orb].
  apply (groups_allow pid _ (promised_sub kPledge 0 ip kPledge_ok)).
Qed.

Lemma pledge_code_run pid tid ip mode e d :
  ending pid tid mode = Some e -> run_filter (pledge_code pid ip ++ e) d = verdict pid tid ip mode d.
Proof.
  intros E. unfold run_filter, pledge_code, verdict, verdict_if. rewrite <- !app_assoc, start_run.
  destruct (negb (u32 (arch d) =? _)); [reflexivity|]. destruct (refused d); [reflexivity|].
  pose proof (groups_run pid ip e d) as X. rewrite (ending_run _ _ _ _ _ E) in X. unfold tail_verdict in X.
  destruct (ip =? 2 ^ 64 - 1).
  - rewrite exit_group_run. destruct (sysno d =? __NR_linux_exit_group); [reflexivity|]. rewrite X. reflexivity.
  - rewrite app_nil_l, X. reflexivity.
Qed.

Lemma groups_jumps pid ps n : Forall ok_pledge ps -> (1 <= n)%nat -> jumps_ok (groups_code pid ps) n = true.
Proof.
  intros F Ln. induction F as [|p ps [Hp _] F IH]; [done|]. unfold groups_code. cbn [fmap list_fmap mjoin list_join].
  rewrite jumps_ok_app. apply andb_true_iff. split; [|exact IH]. apply group_jumps; [done|lia].
Qed.

Lemma ending_jumps pid tid mode e : ending pid tid mode = Some e -> jumps_ok e 0 = true /\ (1 <= length e)%nat /\ exists e' v, e = e' ++ [BPF_STMT (BPF_RET .| BPF_K) v].
Proof.
  unfold ending. destruct (logging mode).
  - intros E. apply (inj Some) in E. subst e. split; [vm_compute; reflexivity|]. split; [rewrite length_app; cbn; lia|]. by eexists _, _.
  - destruct (penalty mode) as [v|]; [|done]. intros [= <-]. split; [reflexivity|]. split; [cbn; lia|]. by exists [], v.
Qed.

Lemma pledge_code_check pid tid ip mode e :
  ending pid tid mode = Some e -> (length (pledge_code pid ip ++ e) <= FILTER_SIZE)%nat -> bpf_check (pledge_code pid ip ++ e) = true.
Proof.
  intros E L. destruct (ending_jumps _ _ _ _ E) as (J & Le & e' & v & Ee). unfold bpf_check. rewrite !andb_true_iff. split; [split|].
  - apply Nat.leb_le. unfold FILTER_SIZE, BPF_MAXINSNS in *. lia.
  - unfold pledge_code. rewrite !jumps_ok_app, !andb_true_iff, !length_app. split; [|done]. split; [|split; [|split]].
    + apply (jumps_ok_more _ 1); [lia|vm_compute; reflexivity].
    + destruct (ip =? _); [|done]. apply (jumps_ok_more _ 1); [lia|vm_compute; reflexivity].
    + apply group_jumps; [apply default_ok|lia].
    + apply groups_jumps; [apply promised_sub, kPledge_ok|lia].
  - rewrite Ee, app_assoc. unfold ends_in_ret. by rewrite last_snoc.
Qed.

(** *** Its size *)

Definition group_size (p : list Z) : nat := length (group_code 0 p).


Lemma group_code_size pid p : length (group_code pid p) = group_size p.
Proof.
  unfold group_size, group_code. rewrite !length_app. apply Nat.add_cancel_l. induction p as [|x p IH]; [vm_compute; reflexivity|]. cbn [omap list_omap].
  destruct (is_special x); [|exact IH]. pose proof (special_rule_size pid x) as E.
  destruct (special_rule pid x), (special_rule 0 x); try discriminate E; [|exact IH]. apply (inj Some) in E. cbn [mjoin list_join]. rewrite !length_app, E. apply Nat.add_cancel_l. exact IH.
Qed.

Definition pledge_size (ip mode : Z) : nat :=
  length kPledgeStart + (if ip =? 2 ^ 64 - 1 then 2 else 0) + group_size kPledgeDefault +
  list_sum ((fun p => group_size (syscalls p)) <$> promised kPledge 0 ip) + (if logging mode then 28 else if penalty mode then 1 else 0).

Lemma groups_code_size pid ps : length (groups_code pid ps) = list_sum ((fun p => group_size (syscalls p)) <$> ps).
Proof.
  induction ps as [|p ps IH]; [done|]. unfold groups_code in *. cbn [fmap list_fmap mjoin list_join list_sum foldr]. rewrite length_app, group_code_size.
  apply Nat.add_cancel_l. exact IH.
Qed.

Lemma pledge_code_size pid tid ip mode :
  length (pledge_code pid ip ++ default [] (ending pid tid mode)) = pledge_size ip mode.
Proof.
  unfold pledge_code, pledge_size, ending. rewrite !length_app, group_code_size, groups_code_size.
  assert (length (default [] (if logging mode then Some (AllowMonitor pid tid ++ [BPF_STMT (BPF_RET .| BPF_K) (SECCOMP_RET_TRAP .| Z.land mode SECCOMP_RET_DATA)])
    else (fun v => [BPF_STMT (BPF_RET .| BPF_K) v]) <$> penalty mode)) = if logging mode then 28%nat else if penalty mode then 1%nat else 0%nat) as ->
    by (destruct (logging mode); [vm_compute; reflexivity|by destruct (penalty mode)]).
  assert (length (if ip =? 2 ^ 64 - 1 then kFilterIgnoreExitGroup else []) = if ip =? 2 ^ 64 - 1 then 2%nat else 0%nat) as -> by by destruct (ip =? _).
  lia.
Qed.

(** What the assembly gives: a program that the kernel accepts and that decides on every call as the
    tests of the pieces say, an error, or a program that is too large. *)
Lemma pledge_filter_spec (pid tid ip mode : Z) :
  match pledge_filter pid tid ip mode with
  | Some (inr f) =>
      bpf_check f = true /\ length f = pledge_size ip mode /\ (length f <= FILTER_SIZE)%nat /\
      forall d, is_Some (verdict pid tid ip mode d) /\ run_filter f d = verdict pid tid ip mode d
  | Some (inl e) => e = - Einval /\ logging mode = false /\ penalty mode = None
  | None => (FILTER_SIZE < pledge_size ip mode)%nat
  end.
Proof.
  rewrite pledge_filter_code. pose proof (pledge_code_size pid tid ip mode) as Sz. destruct (ending pid tid mode) as [e|] eqn:E; unfold default, id in Sz.
  - unfold AppendFilter. cbn [length Nat.add app]. rewrite Sz. destruct (Nat.ltb_spec FILTER_SIZE (pledge_size ip mode)) as [L|L]; [done|].
    cbn. rewrite Sz. split; [eapply pledge_code_check; [exact E|lia]|]. split; [done|]. split; [done|]. intros d.
    split; [|by apply pledge_code_run]. unfold verdict, verdict_if. unfold ending in E.
    destruct (negb _); [by eexists|]. destruct (refused d); [by eexists|]. destruct (_ && _); [by eexists|]. destruct (allowed pid ip d); [by eexists|].
    destruct (logging mode); [destruct (monitor_permits pid tid d); by eexists|]. destruct (penalty mode); [by eexists|done].
  - unfold AppendFilter. cbn [length Nat.add]. rewrite app_nil_r in Sz. rewrite Sz. destruct (Nat.ltb_spec FILTER_SIZE (pledge_size ip mode)) as [L|L]; [done|].
    cbn. unfold ending in E. destruct (logging mode); [done|]. destruct (penalty mode); [done|]. done.
Qed.

(* ------------------------------------------------------------------ *)
(** ** The policy *)

(** What creates a file, by O_CREAT or by __O_TMPFILE, must not give it the sticky, setuid and setgid
    bits. *)
Definition policy_creates (flags mode : Z) : bool :=
  if none_of flags (O_CREAT .| O_TMPFILE) then true else none_of mode S_BITS.

(** TCP_NODELAY, SO_REUSEADDR, TCP_CORK and SO_TYPE, TCP_KEEPIDLE and SO_ERROR, TCP_KEEPINTVL and
    SO_DONTROUTE, SO_BROADCAST, SO_KEEPALIVE, IP_RECVERR, IP_RECVTTL and TCP_QUICKACK, SO_REUSEPORT,
    SO_RCVTIMEO, SO_SNDTIMEO, TCP_FASTOPEN, IPV6_V6ONLY, TCP_FASTOPEN_CONNECT. *)
Definition policy_options : list Z :=
  [0x01; 0x02; 0x03; 0x04; 0x05; 0x06; 0x09; 0x0b; 0x0c; 0x0f; 0x14; 0x15; 0x17; 0x1a; 0x1e].

(** The conditions that the comments above the pieces state. *)
Definition policy (pid : Z) : list (Z * (seccomp_data -> bool)) := conditions_with policy_creates policy_options pid.

Definition policy_permits (pid x : Z) (d : seccomp_data) : bool :=
  if is_special x then
    match find (fun e => e.1 =? x) (policy pid) with
    | Some e => (sysno d =? Z.land x 0xfff) && e.2 d
    | None => false
    end
  else sysno d =? x.

(** A call is allowed by an entry of the default group or of the group of a promise. *)
Definition policy_allows (pid ipromises : Z) (d : seccomp_data) : bool :=
  existsb (fun x => policy_permits pid x d) (kPledgeDefault ++ mjoin (syscalls <$> promised kPledge 0 ipromises)).

Definition policy_verdict (pid tid ipromises mode : Z) (d : seccomp_data) : option Z :=
  verdict_if (policy_allows pid ipromises d) pid tid ipromises mode d.

Definition SIGSYS : Z := 31.

Definition open_flags (d : seccomp_data) : option Z :=
  if sysno d =? __NR_linux_open then Some (lo d 1)
  else if sysno d =? __NR_linux_openat then Some (lo d 2) else None.

(** The mode that a call of the chmod family gives to a file. *)
Definition chmod_mode (d : seccomp_data) : option Z :=
  if one_of (sysno d) [__NR_linux_chmod; __NR_linux_fchmod] then Some (lo d 1)
  else if sysno d =? __NR_linux_fchmodat then Some (lo d 2) else None.

(** Calls on which comments, documentation and code do not agree, or that the code lets escape:
    - setsockopt with the option 0x13, which the code allows and the comment does not name;
    - open and openat without O_CREAT: for __O_TMPFILE without O_DIRECTORY the code does not look at the
      mode as the comment says, and with cpath it allows what the documentation does not;
    - sigaction of SIGSYS, which the documentation forbids and the code does not;
    - getdents and readlink, which the documentation also lists under stdio and wpath, sendmsg and
      sendmmsg, which it lists under recvfd, and tkill, by which other processes can be signalled;
    - chown, and chmod with the special bits, which the documentation says are answered by EPERM, where
      the penalty is another one. *)
Definition contested (ipromises mode : Z) (d : seccomp_data) : bool :=
  (sysno d =? __NR_linux_setsockopt) && (lo d 2 =? 0x13)
  || match open_flags d with
     | Some flags => none_of flags O_CREAT &&
         (negb (Z.testbit ipromises PROMISE_CPATH) || negb (none_of flags O_TMPFILE) && none_of flags O_DIRECTORY)
     | None => false
     end
  || (sysno d =? __NR_linux_sigaction) && (lo d 0 =? SIGSYS)
  || one_of (sysno d)
       [__NR_linux_getdents; __NR_linux_oldgetdents; __NR_linux_readlink; __NR_linux_sendmsg; __NR_linux_sendmmsg;
        __NR_linux_tkill; __NR_linux_chown; __NR_linux_fchown; __NR_linux_lchown; __NR_linux_fchownat]
  || match chmod_mode d with
     | Some m => negb (none_of m S_BITS) && (logging mode || negb (Z.land mode PLEDGE_PENALTY_MASK =? PLEDGE_PENALTY_RETURN_EPERM))
     | None => false
     end.

Lemma none_of_lor x a b : none_of x (a .| b) = none_of x a && none_of x b.
Proof.
  unfold none_of. rewrite Z.land_lor_distr_r. apply eq_true_iff_eq. by rewrite andb_true_iff, !Z.eqb_eq, Z.lor_eq_0_iff.
Qed.

Lemma all_of_subset x m : all_of x m = true <-> forall n, 0 <= n -> Z.testbit m n = true -> Z.testbit x n = true.
Proof.
  unfold all_of. rewrite Z.eqb_eq. split.
  - intros E n Hn B. rewrite <- E, Z.land_spec in B. by apply andb_true_iff in B as [B _].
  - intros H. apply Z.bits_inj'. intros n Hn. rewrite Z.land_spec. specialize (H n Hn).
    destruct (Z.testbit m n); [by rewrite H|apply andb_false_r].
Qed.

Lemma all_of_lor x a b : all_of x (a .| b) = all_of x a && all_of x b.
Proof.
  apply eq_true_iff_eq. rewrite andb_true_iff, !all_of_subset. setoid_rewrite Z.lor_spec. setoid_rewrite orb_true_iff.
  naive_solver.
Qed.

(** A mask of one bit. *)
Lemma all_none_bit x n : 0 <= n -> all_of x (2 ^ n) = negb (none_of x (2 ^ n)).
Proof.
  intros Hn. unfold all_of, none_of. rewrite <- Z.shiftl_1_l, Z.land_comm.
  assert (Z.land (Z.shiftl 1 n) x = if Z.testbit x n then Z.shiftl 1 n else 0) as ->.
  { apply Z.bits_inj'. intros k Hk. rewrite Z.land_spec, Z.shiftl_1_l, Z.pow2_bits_eqb by lia.
    destruct (Z.eqb_spec n k) as [->|N]; cbn [andb].
    - destruct (Z.testbit x k); [by rewrite Z.pow2_bits_true|by rewrite Z.bits_0].
    - destruct (Z.testbit x n); [by rewrite Z.pow2_bits_false|by rewrite Z.bits_0]. }
  destruct (Z.testbit x n); [|rewrite Z.eqb_refl, Z.shiftl_1_l; apply Z.eqb_neq; pose proof (Z.pow_pos_nonneg 2 n); lia].
  rewrite Z.eqb_refl, Z.shiftl_1_l, (proj2 (Z.eqb_neq _ _)); [done|]. pose proof (Z.pow_pos_nonneg 2 n). lia.
Qed.

Lemma creates_agree flags mode :
  none_of flags O_CREAT && (negb (none_of flags O_TMPFILE) && none_of flags O_DIRECTORY) = false ->
  policy_creates flags mode = creates flags mode.
Proof.
  unfold policy_creates, creates. rewrite none_of_lor, all_of_lor.
  change O_CREAT with (2 ^ 6). change O_TMPFILE with (2 ^ 22). change O_DIRECTORY with (2 ^ 16).
  rewrite !all_none_bit by lia. by destruct (none_of flags (2 ^ 6)), (none_of flags (2 ^ 22)), (none_of flags (2 ^ 16)).
Qed.

Lemma options_agree x : (x =? 0x13) = false -> one_of x policy_options = one_of x options.
Proof. intros E. unfold one_of, policy_options, options. cbn [existsb]. by rewrite E. Qed.

#[local] Transparent conditions.

Lemma contested_open ip mode d flags :
  contested ip mode d = false -> open_flags d = Some flags ->
  none_of flags O_CREAT && (negb (none_of flags O_TMPFILE) && none_of flags O_DIRECTORY) = false.
Proof.
  unfold contested. rewrite !orb_false_iff. intros ((((_ & O) & _) & _) & _) E. rewrite E in O.
  destruct (none_of flags O_CREAT); [|done]. cbn [andb] in *. by apply orb_false_iff in O as [_ O].
Qed.

Lemma contested_option ip mode d :
  contested ip mode d = false -> sysno d = __NR_linux_setsockopt -> (lo d 2 =? 0x13) = false.
Proof. unfold contested. rewrite !orb_false_iff. intros ((((O & _) & _) & _) & _) E. by rewrite E in O. Qed.

(** Where a call is not contested, the entry of the policy says what the piece tests. *)
Definition agrees (d : seccomp_data) (e e' : Z * (seccomp_data -> bool)) : Prop :=
  e.1 = e'.1 /\ (sysno d = Z.land e.1 0xfff -> e.2 d = e'.2 d).

Lemma conditions_agree pid ip mode d :
  contested ip mode d = false -> Forall2 (agrees d) (policy pid) (conditions pid).
Proof.
  intros C. unfold policy, conditions, conditions_with.
  repeat (apply Forall2_cons; split; [split; [reflexivity|intros E; cbn [fst snd]; try reflexivity]|]); [..|apply Forall2_nil_2].
  - apply creates_agree, (contested_open _ _ _ _ C). unfold open_flags. by rewrite E.
  - apply creates_agree, (contested_open _ _ _ _ C). unfold open_flags. by rewrite E.
  - by rewrite (options_agree _ (contested_option _ _ _ C E)).
Qed.

Lemma find_agree d x l l' :
  Forall2 (agrees d) l l' ->
  match find (fun e => e.1 =? x) l with Some e => (sysno d =? Z.land x 0xfff) && e.2 d | None => false end =
  match find (fun e => e.1 =? x) l' with Some e => (sysno d =? Z.land x 0xfff) && e.2 d | None => false end.
Proof.
  induction 1 as [|e e' l l' [E A] _ IH]; [done|]. cbn [find]. rewrite <- E. destruct (Z.eqb_spec e.1 x) as [<-|]; [|done].
  destruct (Z.eqb_spec (sysno d) (Z.land e.1 0xfff)); [by rewrite A|done].
Qed.

Lemma policy_permits_agree pid x ip mode d : contested ip mode d = false -> policy_permits pid x d = permits pid x d.
Proof.
  intros C. unfold policy_permits, permits. destruct (is_special x); [|done].
  exact (find_agree d x _ _ (conditions_agree pid ip mode d C)).
Qed.

Lemma policy_allows_agree pid ip mode d : contested ip mode d = false -> policy_allows pid ip d = allowed pid ip d.
Proof.
  intros C. unfold policy_allows, allowed, group_permits. rewrite existsb_app.
  assert (forall l, existsb (fun x => policy_permits pid x d) l = existsb (fun x => permits pid x d) l) as Hl.
  { intros l. induction l as [|x l IH]; [done|]. cbn [existsb]. by rewrite (policy_permits_agree _ _ _ _ _ C), IH. }
  rewrite Hl. f_equal. induction (promised kPledge 0 ip) as [|p ps IH]; [done|].
  cbn [fmap list_fmap mjoin list_join existsb]. rewrite existsb_app, Hl. f_equal. exact IH.
Qed.

