(* ===== verification/PledgeConfine.v ===== *)
(** * What a pledge prevents (libc/calls/pledge-linux.c)

    Consequences of the theorem on filters: which promises each call of importance needs, that more
    promises allow more, and which sets of promises fit into the array for the program. The last part
    shows where what is allowed differs from what the documentation of pledge says. *)

From S2P Require Import Prelude Seccomp PledgeTables Pledge PledgeFilter.

(* ------------------------------------------------------------------ *)
(** ** Confinement *)

(** A promise is made if its bit is clear. *)
Definition made (ip i : Z) : Prop := Z.testbit ip i = false.

(** The entries for a system call, with the promise they belong to. *)
Fixpoint entries_from (ps : list Pledges) (i n : Z) : list (Z * Z) :=
  match ps with
  | [] => []
  | p :: ps => ((fun x => (i, x)) <$> filter (fun x => Z.land x 0xfff = n) (syscalls p)) ++ entries_from ps (i + 1) n
  end.
Definition entries (n : Z) : list (Z * Z) := entries_from kPledge 0 n.

(** Plain entries are numbers without flags. *)
Definition plain_small (p : list Z) : bool := forallb (fun x => is_special x || (Z.land x 0xfff =? x)) p.

Lemma tables_small : plain_small kPledgeDefault && forallb (fun p => plain_small (syscalls p)) kPledge = true.
Proof. vm_compute. reflexivity. Qed.

Lemma permits_call pid x d : is_special x || (Z.land x 0xfff =? x) = true -> permits pid x d = true -> Z.land x 0xfff = sysno d.
Proof.
  intros S. unfold permits. destruct (is_special x); cbn [orb] in S.
  - destruct (find _ _); [|done]. intros [E%Z.eqb_eq _]%andb_true_iff. done.
  - intros ->%Z.eqb_eq. by apply Z.eqb_eq.
Qed.

Lemma group_permits_entry pid p d :
  plain_small p = true -> group_permits pid p d = true -> exists x, x ∈ p /\ Z.land x 0xfff = sysno d /\ permits pid x d = true.
Proof.
  intros S (x & In & P)%existsb_exists. apply (proj1 (forallb_forall _ _)) with (x := x) in S; [|done]. exists x.
  split; [by apply list_elem_of_In|]. split; [by eapply permits_call|done].
Qed.

Lemma promised_entries pid ps i ip d :
  forallb (fun p => plain_small (syscalls p)) ps = true ->
  existsb (fun p => group_permits pid (syscalls p) d) (promised ps i ip) = true ->
  exists e, e ∈ entries_from ps i (sysno d) /\ made ip e.1 /\ permits pid e.2 d = true.
Proof.
  revert i. induction ps as [|p ps IH]; intros i S E; [done|]. cbn [forallb] in S. apply andb_true_iff in S as [Sp S]. cbn [promised entries_from] in *.
  destruct (Z.testbit ip i) eqn:B.
  - destruct (IH _ S E) as (e & In & H). exists e. split; [apply elem_of_app; by right|done].
  - cbn [existsb] in E. apply orb_true_iff in E as [E|E].
    + destruct (group_permits_entry _ _ _ Sp E) as (x & In & N & P). exists (i, x). split; [|done]. apply elem_of_app. left.
      apply list_elem_of_fmap. exists x. split; [done|]. by apply list_elem_of_filter.
    + destruct (IH _ S E) as (e & In & H). exists e. split; [apply elem_of_app; by right|done].
Qed.

(** Whatever is allowed is an entry of a promise that was made, or one of two calls that always are. *)
Lemma allowed_entry pid ip d :
  allowed pid ip d = true ->
  sysno d ∈ [__NR_linux_exit; __NR_linux_arch_prctl] \/ exists e, e ∈ entries (sysno d) /\ made ip e.1 /\ permits pid e.2 d = true.
Proof.
  pose proof tables_small as [Sd Sp]%andb_true_iff. unfold allowed. intros [E|E]%orb_true_iff; [left|right; by apply promised_entries].
  destruct (group_permits_entry _ _ _ Sd E) as (x & In & <- & _). unfold kPledgeDefault in In. rewrite !elem_of_cons in In. rewrite !elem_of_cons.
  destruct In as [->|[->|In]]; [by left|by right; left|by apply not_elem_of_nil in In].
Qed.

Lemma verdict_allow pid tid ip mode d :
  verdict pid tid ip mode d = Some SECCOMP_RET_ALLOW ->
  u32 (arch d) = AUDIT_ARCH_X86_64 /\ refused d = false /\ (allowed pid ip d = true \/ logging mode = true /\ monitor_permits pid tid d = true).
Proof.
  unfold verdict, verdict_if. destruct (Z.eqb_spec (u32 (arch d)) AUDIT_ARCH_X86_64) as [->|]; cbn [negb]; [|done]. destruct (refused d); [done|].
  destruct (_ && _); [done|]. destruct (allowed pid ip d); [by auto|]. destruct (logging mode).
  - destruct (monitor_permits pid tid d); [by auto|]. intros E. exfalso. apply (inj Some) in E.
    apply (f_equal (fun z => Z.testbit z 20)) in E. rewrite Z.lor_spec, Z.land_spec in E. rewrite andb_false_r in E. discriminate E.
  - unfold penalty. repeat (destruct (_ =? _); [done|]). done.
Qed.

(** Calls that are allowed on other grounds than a promise. *)
Definition always : list Z :=
  [__NR_linux_exit; __NR_linux_arch_prctl; __NR_linux_write; __NR_linux_kill; __NR_linux_tkill; __NR_linux_sigaction; __NR_linux_sigreturn;
   __NR_linux_sigprocmask].

Lemma monitor_always pid tid d : monitor_permits pid tid d = true -> sysno d ∈ always.
Proof.
  unfold monitor_permits, one_of. cbn [existsb].
  rewrite !orb_true_iff, !andb_true_iff, !Z.eqb_eq. unfold always. rewrite !elem_of_cons. intuition (try discriminate).
Qed.

Lemma allow_entry pid tid ip mode d :
  verdict pid tid ip mode d = Some SECCOMP_RET_ALLOW -> sysno d ∉ always ->
  exists e, e ∈ entries (sysno d) /\ made ip e.1 /\ permits pid e.2 d = true.
Proof.
  intros V N. apply verdict_allow in V as (_ & _ & [A|[_ M]]); [|by destruct N; eapply monitor_always].
  apply allowed_entry in A as [D|E]; [|done]. destruct N. unfold always. rewrite !elem_of_cons in *. destruct D as [->|[->|[]%not_elem_of_nil]]; auto.
Qed.

(** Calls, and the promises of which one is needed for any of them. *)
Definition needed : list (list Z * list Z) :=
  [ ([__NR_linux_execve; __NR_linux_execveat], [PROMISE_EXEC]);
    ([__NR_linux_fork; __NR_linux_vfork; __NR_linux_setsid; __NR_linux_setpgid], [PROMISE_PROC]);
    ([__NR_linux_socket; __NR_linux_bind], [PROMISE_INET; PROMISE_ANET; PROMISE_UNIX; PROMISE_DNS]);
    ([__NR_linux_connect], [PROMISE_INET; PROMISE_UNIX; PROMISE_DNS]);
    ([__NR_linux_listen; __NR_linux_accept; __NR_linux_accept4], [PROMISE_INET; PROMISE_ANET; PROMISE_UNIX]);
    ([__NR_linux_recvmsg; __NR_linux_recvmmsg], [PROMISE_RECVFD]);
    ([__NR_linux_open], [PROMISE_RPATH; PROMISE_WPATH; PROMISE_CPATH]);
    ([__NR_linux_openat], [PROMISE_RPATH; PROMISE_WPATH; PROMISE_CPATH; PROMISE_DNS]);
    ([__NR_linux_creat; __NR_linux_rename; __NR_linux_renameat; __NR_linux_link; __NR_linux_symlink; __NR_linux_mkdir; __NR_linux_rmdir], [PROMISE_CPATH]);
    ([__NR_linux_unlink; __NR_linux_unlinkat], [PROMISE_CPATH; PROMISE_TMPPATH]);
    ([__NR_linux_chmod; __NR_linux_fchmod; __NR_linux_fchmodat], [PROMISE_WPATH; PROMISE_FATTR]);
    ([__NR_linux_chown; __NR_linux_fchown; __NR_linux_lchown; __NR_linux_fchownat], [PROMISE_CHOWN]);
    ([__NR_linux_mknod; __NR_linux_mknodat], [PROMISE_DPATH]);
    ([__NR_linux_setuid; __NR_linux_setgid; __NR_linux_setreuid; __NR_linux_setregid; __NR_linux_setresuid; __NR_linux_setresgid; __NR_linux_setgroups], [PROMISE_ID]);
    ([__NR_linux_settimeofday; __NR_linux_clock_adjtime], [PROMISE_SETTIME]);
    ([__NR_linux_ptrace; __NR_linux_mount; __NR_linux_reboot; __NR_linux_bpf; __NR_linux_init_module; __NR_linux_process_vm_writev; __NR_linux_chroot;
      __NR_linux_pivot_root; __NR_linux_unshare; __NR_linux_setns; __NR_linux_pkey_mprotect; __NR_linux_clock_settime], []) ].

Definition need_ok (r : list Z * list Z) : bool :=
  forallb (fun n => negb (one_of n always) && forallb (fun e => one_of e.1 r.2) (entries n)) r.1.

Lemma needed_ok : forallb need_ok needed = true.
Proof. vm_compute. reflexivity. Qed.

Lemma one_of_elem x l : one_of x l = true <-> x ∈ l.
Proof.
  unfold one_of. rewrite existsb_exists. setoid_rewrite <- list_elem_of_In. split.
  - by intros (y & In & ->%Z.eqb_eq).
  - intros In. exists x. by rewrite Z.eqb_refl.
Qed.

Lemma not_always x : one_of x always = false -> x ∉ always.
Proof. intros E In%one_of_elem. congruence. Qed.

(** Files are opened for writing by [open] and [openat]. *)
Definition opens_for_writing (d : seccomp_data) : bool :=
  (sysno d =? __NR_linux_open) && negb (Z.land (lo d 1) O_ACCMODE =? O_RDONLY) ||
  (sysno d =? __NR_linux_openat) && negb (Z.land (lo d 2) O_ACCMODE =? O_RDONLY).

(** Memory is made executable by [mmap] and [mprotect]. *)
Definition makes_executable (d : seccomp_data) : bool :=
  one_of (sysno d) [__NR_linux_mmap; __NR_linux_mprotect] && Z.testbit (lo d 2) 2.

(** Processes are made by [clone] without the flags of a thread. *)
Definition makes_process (d : seccomp_data) : bool :=
  (sysno d =? __NR_linux_clone) && negb (all_of (lo d 0) CLONE_THREADS).

(** Processes are signalled by [kill] and [tgkill]. *)
Definition signals_another (pid : Z) (d : seccomp_data) : bool :=
  one_of (sysno d) [__NR_linux_kill; __NR_linux_tgkill] && negb (lo d 0 =? u32 pid).

(** Files get the sticky, setuid and setgid bits from [chmod] and the like, and when [creat], [open] and
    [openat] create them. *)
Definition sets_special_bits (d : seccomp_data) : bool :=
  one_of (sysno d) [__NR_linux_chmod; __NR_linux_fchmod; __NR_linux_creat] && negb (none_of (lo d 1) S_BITS) ||
  (sysno d =? __NR_linux_fchmodat) && negb (none_of (lo d 2) S_BITS) ||
  (sysno d =? __NR_linux_open) && (all_of (lo d 1) O_CREAT && negb (none_of (lo d 2) S_BITS)) ||
  (sysno d =? __NR_linux_openat) && (all_of (lo d 2) O_CREAT && negb (none_of (lo d 3) S_BITS)).

Section confined.
Context (pid tid ip mode : Z) (d : seccomp_data) (V : verdict pid tid ip mode d = Some SECCOMP_RET_ALLOW).

Lemma confined_row r : need_ok r = true -> sysno d ∈ r.1 -> exists i, i ∈ r.2 /\ made ip i.
Proof using V.
  unfold need_ok. rewrite forallb_forall. intros H In. specialize (H _ (proj1 (list_elem_of_In _ _) In)). apply andb_true_iff in H as [A H].
  destruct (allow_entry _ _ _ _ _ V) as (e & In' & M & _); [by apply not_always, negb_true_iff|].
  rewrite forallb_forall in H. specialize (H _ (proj1 (list_elem_of_In _ _) In')). exists e.1. split; [by apply one_of_elem|done].
Qed.

(** What permits a call belongs to the promises [l], or keeps it from having the effect [c]. *)
Definition harmless (c : seccomp_data -> bool) (p : seccomp_data -> bool) : Prop := forall d, p d = true -> c d = false.
Definition entry_ok (c : seccomp_data -> bool) (l : list Z) (e : Z * Z) : Prop := e.1 ∈ l \/ harmless c (permits pid e.2).

Lemma confined_effect n c l :
  sysno d = n -> one_of n [__NR_linux_exit; __NR_linux_arch_prctl] = false -> harmless c (monitor_permits pid tid) -> Forall (entry_ok c l) (entries n) ->
  c d = true -> exists i, i ∈ l /\ made ip i.
Proof using V.
  intros <- A HM F C. apply verdict_allow in V as (_ & _ & [[D|(e & In & M & P)]%allowed_entry|[_ M]]).
  - apply one_of_elem in D. congruence.
  - rewrite Forall_forall in F. destruct (F e In) as [L|L]; [by exists e.1|]. rewrite L in C by done. discriminate.
  - rewrite HM in C by done. discriminate.
Qed.
End confined.

Lemma open_entries : entries __NR_linux_open =
  [(PROMISE_RPATH, __NR_linux_open .| READONLY); (PROMISE_WPATH, __NR_linux_open .| WRITEONLY); (PROMISE_CPATH, __NR_linux_open .| CREATONLY)].
Proof. vm_compute. reflexivity. Qed.

Lemma openat_entries : entries __NR_linux_openat =
  [(PROMISE_RPATH, __NR_linux_openat .| READONLY); (PROMISE_WPATH, __NR_linux_openat .| WRITEONLY); (PROMISE_CPATH, __NR_linux_openat .| CREATONLY);
   (PROMISE_DNS, __NR_linux_openat .| READONLY)].
Proof. vm_compute. reflexivity. Qed.

Lemma memory_entries :
  entries __NR_linux_mmap = [(PROMISE_STDIO, __NR_linux_mmap .| NOEXEC); (PROMISE_PROT_EXEC, __NR_linux_mmap .| EXEC)] /\
  entries __NR_linux_mprotect = [(PROMISE_STDIO, __NR_linux_mprotect .| NOEXEC); (PROMISE_PROT_EXEC, __NR_linux_mprotect)].
Proof. split; vm_compute; reflexivity. Qed.

Lemma signal_entries :
  entries __NR_linux_kill = [(PROMISE_STDIO, __NR_linux_kill .| SELF); (PROMISE_PROC, __NR_linux_kill)] /\
  entries __NR_linux_tgkill = [(PROMISE_STDIO, __NR_linux_tgkill .| SELF); (PROMISE_PROC, __NR_linux_tgkill)].
Proof. split; vm_compute; reflexivity. Qed.

Lemma clone_entries :
  entries __NR_linux_clone = [(PROMISE_STDIO, __NR_linux_clone .| THREAD); (PROMISE_PROC, __NR_linux_clone .| RESTRICT)].
Proof. vm_compute. reflexivity. Qed.

Lemma mode_entries :
  entries __NR_linux_chmod = [(PROMISE_WPATH, __NR_linux_chmod .| NOBITS); (PROMISE_FATTR, __NR_linux_chmod .| NOBITS)] /\
  entries __NR_linux_fchmod = [(PROMISE_WPATH, __NR_linux_fchmod .| NOBITS); (PROMISE_FATTR, __NR_linux_fchmod .| NOBITS)] /\
  entries __NR_linux_fchmodat = [(PROMISE_WPATH, __NR_linux_fchmodat .| NOBITS); (PROMISE_FATTR, __NR_linux_fchmodat .| NOBITS)] /\
  entries __NR_linux_creat = [(PROMISE_CPATH, __NR_linux_creat .| RESTRICT)].
Proof. repeat split; vm_compute; reflexivity. Qed.

(** An effect, as a proposition. *)
Ltac effect :=
  intros d P; apply not_true_iff_false; intros C; revert P C;
  unfold opens_for_writing, makes_executable, makes_process, signals_another, sets_special_bits, monitor_permits, reads_only, one_of; cbn [existsb];
  rewrite ?orb_true_iff, ?andb_true_iff, ?orb_true_iff, ?andb_true_iff, ?negb_true_iff, ?Z.eqb_eq, ?Z.eqb_neq; intros P C;
  repeat match goal with H : _ /\ _ |- _ => destruct H | H : _ \/ _ |- _ => destruct H end;
  try congruence;
  try match goal with H : sysno d = ?a, H' : sysno d = ?b |- _ => rewrite H in H'; discriminate H' end.

Section harmless.
Context (pid tid : Z).

Lemma monitor_harmless :
  harmless opens_for_writing (monitor_permits pid tid) /\ harmless makes_executable (monitor_permits pid tid) /\
  harmless (signals_another pid) (monitor_permits pid tid) /\ harmless sets_special_bits (monitor_permits pid tid) /\
  harmless makes_process (monitor_permits pid tid).
Proof. repeat split; effect. Qed.

Lemma readonly_harmless :
  harmless opens_for_writing (fun d => (sysno d =? __NR_linux_open) && reads_only (lo d 1)) /\
  harmless opens_for_writing (fun d => (sysno d =? __NR_linux_openat) && reads_only (lo d 2)).
Proof. split; effect. Qed.

Lemma noexec_bit x : one_of x [0; PROT_READ; PROT_WRITE; PROT_READ .| PROT_WRITE] = true -> Z.testbit x 2 = false.
Proof. unfold one_of. cbn [existsb]. rewrite !orb_true_iff, !Z.eqb_eq. intros [->|[->|[->|[->|]]]]; done. Qed.

Lemma self_harmless n : harmless (signals_another pid) (fun d => (sysno d =? n) && (lo d 0 =? u32 pid)).
Proof. effect. Qed.
End harmless.

Lemma noexec_harmless n : harmless makes_executable (fun d => (sysno d =? n) && one_of (lo d 2) [0; PROT_READ; PROT_WRITE; PROT_READ .| PROT_WRITE]).
Proof. intros d [_ P%noexec_bit]%andb_true_iff. unfold makes_executable. by rewrite P, andb_false_r. Qed.

Lemma harmless_weaker c p p' : harmless c p -> (forall d, p' d = true -> p d = true) -> harmless c p'.
Proof. intros H I d P. by apply H, I. Qed.

Lemma nobits_harmless :
  harmless sets_special_bits (fun d => (sysno d =? __NR_linux_chmod) && none_of (lo d 1) S_BITS) /\
  harmless sets_special_bits (fun d => (sysno d =? __NR_linux_fchmod) && none_of (lo d 1) S_BITS) /\
  harmless sets_special_bits (fun d => (sysno d =? __NR_linux_creat) && none_of (lo d 1) S_BITS) /\
  harmless sets_special_bits (fun d => (sysno d =? __NR_linux_fchmodat) && none_of (lo d 2) S_BITS).
Proof. split; [|split; [|split]]; effect. Qed.

(** An entry for [open] or [openat] is harmless if it looks at the mode of what is created. *)
Lemma open_bits (q : seccomp_data -> bool) :
  (forall d, q d = true -> all_of (lo d 1) O_CREAT = true -> none_of (lo d 2) S_BITS = true) ->
  harmless sets_special_bits (fun d => (sysno d =? __NR_linux_open) && q d).
Proof.
  intros H d [E%Z.eqb_eq Q]%andb_true_iff. specialize (H d Q). unfold sets_special_bits, one_of. rewrite E. cbn -[all_of none_of lo].
  destruct (all_of (lo d 1) O_CREAT); [by rewrite H|done].
Qed.

Lemma openat_bits (q : seccomp_data -> bool) :
  (forall d, q d = true -> all_of (lo d 2) O_CREAT = true -> none_of (lo d 3) S_BITS = true) ->
  harmless sets_special_bits (fun d => (sysno d =? __NR_linux_openat) && q d).
Proof.
  intros H d [E%Z.eqb_eq Q]%andb_true_iff. specialize (H d Q). unfold sets_special_bits, one_of. rewrite E. cbn -[all_of none_of lo].
  destruct (all_of (lo d 2) O_CREAT); [by rewrite H|done].
Qed.

Lemma no_creat x m : none_of x (O_CREAT .| m) = true -> all_of x O_CREAT = false.
Proof.
  rewrite none_of_lor. intros [H _]%andb_true_iff. change O_CREAT with (2 ^ 6) in *. by rewrite all_none_bit, H.
Qed.

Lemma reads_bits flags mode : reads_only flags = true -> all_of flags O_CREAT = true -> none_of mode S_BITS = true.
Proof. unfold reads_only. rewrite <- Z.lor_assoc. intros [_ H%no_creat]%andb_true_iff. by rewrite H. Qed.

Lemma writes_bits flags mode : writes_only flags = true -> all_of flags O_CREAT = true -> none_of mode S_BITS = true.
Proof. unfold writes_only. intros [_ H%no_creat]%andb_true_iff. by rewrite H. Qed.

Lemma creates_bits flags mode : creates flags mode = true -> all_of flags O_CREAT = true -> none_of mode S_BITS = true.
Proof. unfold creates. intros H E. by rewrite E in H. Qed.

#[local] Hint Resolve reads_bits writes_bits creates_bits : core.

Lemma clone_harmless :
  harmless makes_process (fun d => (sysno d =? __NR_linux_clone) && (all_of (lo d 0) CLONE_THREADS && none_of (lo d 0) CLONE_FORBIDDEN)).
Proof. intros d [E [A _]%andb_true_iff]%andb_true_iff. unfold makes_process. by rewrite A, andb_false_r. Qed.

(** Goes through the entries of a call. *)
Ltac each_entry E :=
  rewrite E; repeat (apply Forall_cons_2; [unfold entry_ok; cbn [fst snd]; first [left; rewrite ?elem_of_cons; by auto|right]|]); try apply Forall_nil_2.

Section confined_effects.
Context (pid tid ip mode : Z) (d : seccomp_data) (V : verdict pid tid ip mode d = Some SECCOMP_RET_ALLOW).

Ltac effect_of n c := apply (confined_effect _ _ _ _ _ V n c); [assumption|reflexivity|apply monitor_harmless| |assumption].

Lemma confined_writing : opens_for_writing d = true -> exists i, i ∈ [PROMISE_WPATH; PROMISE_CPATH] /\ made ip i.
Proof using V.
  intros C. pose proof C as [[E%Z.eqb_eq _]%andb_true_iff|[E%Z.eqb_eq _]%andb_true_iff]%orb_true_iff.
  - effect_of __NR_linux_open opens_for_writing. each_entry open_entries. apply readonly_harmless.
  - effect_of __NR_linux_openat opens_for_writing. each_entry openat_entries; apply readonly_harmless.
Qed.

Lemma confined_executable : makes_executable d = true -> exists i, i ∈ [PROMISE_PROT_EXEC] /\ made ip i.
Proof using V.
  intros C. pose proof C as [E _]%andb_true_iff. apply one_of_elem in E. rewrite !elem_of_cons in E. destruct E as [E|[E|[]%not_elem_of_nil]].
  - effect_of __NR_linux_mmap makes_executable. each_entry (proj1 memory_entries).
    apply (harmless_weaker _ _ _ (noexec_harmless __NR_linux_mmap)). intros x [A [B _]%andb_true_iff]%andb_true_iff. apply andb_true_iff. done.
  - effect_of __NR_linux_mprotect makes_executable. each_entry (proj2 memory_entries). apply noexec_harmless.
Qed.

Lemma confined_signals : signals_another pid d = true -> exists i, i ∈ [PROMISE_PROC] /\ made ip i.
Proof using V.
  intros C. pose proof C as [E _]%andb_true_iff. apply one_of_elem in E. rewrite !elem_of_cons in E. destruct E as [E|[E|[]%not_elem_of_nil]].
  - effect_of __NR_linux_kill (signals_another pid). each_entry (proj1 signal_entries). apply self_harmless.
  - effect_of __NR_linux_tgkill (signals_another pid). each_entry (proj2 signal_entries). apply self_harmless.
Qed.

Lemma confined_processes : makes_process d = true -> exists i, i ∈ [PROMISE_PROC] /\ made ip i.
Proof using V.
  intros C. pose proof C as [E%Z.eqb_eq _]%andb_true_iff. effect_of __NR_linux_clone makes_process.
  each_entry clone_entries. apply clone_harmless.
Qed.

Lemma confined_modes : sets_special_bits d = false.
Proof using V.
  destruct (sets_special_bits d) eqn:C; [|done]. exfalso. cut (exists i, i ∈ ([] : list Z) /\ made ip i); [by intros (i & []%not_elem_of_nil & _)|].
  destruct mode_entries as (Ec & Ef & Ea & Er), nobits_harmless as (Hc & Hf & Hr & Ha).
  pose proof C as [[[[E _]%andb_true_iff|[E%Z.eqb_eq _]%andb_true_iff]%orb_true_iff|[E%Z.eqb_eq _]%andb_true_iff]%orb_true_iff
    |[E%Z.eqb_eq _]%andb_true_iff]%orb_true_iff.
  - apply one_of_elem in E. rewrite !elem_of_cons in E. destruct E as [E|[E|[E|[]%not_elem_of_nil]]].
    + effect_of __NR_linux_chmod sets_special_bits. each_entry Ec; exact Hc.
    + effect_of __NR_linux_fchmod sets_special_bits. each_entry Ef; exact Hf.
    + effect_of __NR_linux_creat sets_special_bits. each_entry Er; exact Hr.
  - effect_of __NR_linux_fchmodat sets_special_bits. each_entry Ea; exact Ha.
  - effect_of __NR_linux_open sets_special_bits. each_entry open_entries; eapply open_bits; cbv beta; eauto.
  - effect_of __NR_linux_openat sets_special_bits. each_entry openat_entries; eapply openat_bits; cbv beta; eauto.
Qed.
End confined_effects.

(** What an installed filter answers. *)
Lemma filter_verdict pid tid ip mode f d : pledge_filter pid tid ip mode = Some (inr f) -> run_filter f d = verdict pid tid ip mode d.
Proof.
  rewrite pledge_filter_code. destruct (ending pid tid mode) as [e|] eqn:E; unfold AppendFilter; destruct (_ <? _)%nat; try done.
  intros H. apply (inj Some) in H. apply (inj inr) in H. subst f. by apply pledge_code_run.
Qed.


(** The promises of a bit mask. *)
Definition mask_of (l : list Z) : Z := fold_right (fun i m => Z.clearbit m i) (2 ^ 64 - 1) l.
Definition call (n a0 a1 a2 a3 : Z) : seccomp_data :=
  {| nr := n; arch := AUDIT_ARCH_X86_64; instruction_pointer := 0; arg0 := a0; arg1 := a1; arg2 := a2; arg3 := a3; arg4 := 0; arg5 := 0 |}.

(** The filter of a program. *)
Definition filter_of (ip mode : Z) : Filter := match pledge_filter 7 7 ip mode with Some (inr f) => f | _ => [] end.


(* ------------------------------------------------------------------ *)
(** ** More promises allow more *)

Lemma promised_mono ps i ip ip' p :
  (forall j, i <= j < i + Z.of_nat (length ps) -> made ip j -> made ip' j) -> p ∈ promised ps i ip -> p ∈ promised ps i ip'.
Proof.
  revert i. induction ps as [|q ps IH]; intros i H In; [done|]. cbn [promised length] in *.
  assert (p ∈ promised ps (i + 1) ip -> p ∈ promised ps (i + 1) ip') as IH' by (apply IH; intros j Hj; apply H; lia).
  unfold made in H. destruct (Z.testbit ip i) eqn:B.
  - destruct (Z.testbit ip' i); [by apply IH'|]. apply elem_of_cons. right. by apply IH'.
  - rewrite (H i) by (done || lia). rewrite elem_of_cons in *. destruct In; auto.
Qed.

Lemma allowed_mono pid ip ip' d :
  (forall i, 0 <= i < PROMISE_LEN_ -> made ip i -> made ip' i) -> allowed pid ip d = true -> allowed pid ip' d = true.
Proof.
  intros H. unfold allowed. rewrite !orb_true_iff, !existsb_exists. intros [G|(p & In & G)]; [by left|right]. exists p. split; [|done].
  rewrite <- list_elem_of_In in *. eapply promised_mono; [|exact In]. intros j Hj. apply H. exact Hj.
Qed.

Lemma exit_group_entries : entries __NR_linux_exit_group = [(PROMISE_STDIO, __NR_linux_exit_group)].
Proof. vm_compute. reflexivity. Qed.

(** C26: Promises are permissions. A call that is allowed stays allowed if more is promised, by the same
    process, whatever the penalties are, and as long as violations are still logged if they were. So the
    order on sets of promises is one on what programs may do, even though the empty set gets an
    instruction of its own. *)
Theorem pledge_monotone (pid tid ip ip' mode mode' : Z) (f f' : Filter) (d : seccomp_data) :
  pledge_filter pid tid ip mode = Some (inr f) -> pledge_filter pid tid ip' mode' = Some (inr f') ->
  (forall i, 0 <= i < PROMISE_LEN_ -> made ip i -> made ip' i) -> (logging mode = true -> logging mode' = true) ->
  run_filter f d = Some SECCOMP_RET_ALLOW -> run_filter f' d = Some SECCOMP_RET_ALLOW.
Proof.
  intros F F' S L R. rewrite (filter_verdict _ _ _ _ _ _ F) in R. rewrite (filter_verdict _ _ _ _ _ _ F').
  destruct (verdict_allow _ _ _ _ _ R) as (A & N & P). unfold verdict, verdict_if. rewrite A, Z.eqb_refl, N. cbn [negb].
  destruct ((ip' =? 2 ^ 64 - 1) && (sysno d =? __NR_linux_exit_group)) eqn:X.
  - exfalso. apply andb_true_iff in X as [->%Z.eqb_eq X%Z.eqb_eq].
    destruct (allow_entry _ _ _ _ _ R) as (e & In & M & _); [rewrite X; by apply not_always|].
    rewrite X, exit_group_entries in In. apply list_elem_of_singleton in In. subst e. apply S in M; [discriminate M|]. cbn. unfold PROMISE_STDIO, PROMISE_LEN_. lia.
  - destruct P as [P|[G P]]; [by rewrite (allowed_mono _ _ _ _ S P)|]. rewrite (L G), P. by destruct (allowed pid ip' d).
Qed.

(** Reading is still allowed to a program that also promises to write. *)
Lemma pledge_monotone_witness :
  run_filter (filter_of (mask_of [PROMISE_STDIO; PROMISE_RPATH; PROMISE_WPATH]) 0) (call __NR_linux_open 0 O_RDONLY 0 0) = Some SECCOMP_RET_ALLOW.
Proof.
  apply (pledge_monotone 7 7 (mask_of [PROMISE_STDIO; PROMISE_RPATH]) (mask_of [PROMISE_STDIO; PROMISE_RPATH; PROMISE_WPATH]) 0 0
    (filter_of (mask_of [PROMISE_STDIO; PROMISE_RPATH]) 0)); try (vm_compute; reflexivity); [|done].
  intros i _. unfold made, mask_of. cbn [fold_right]. rewrite !Z.clearbit_eqb, !andb_false_iff, !negb_false_iff, !Z.eqb_eq. tauto.
Defined.

(* ------------------------------------------------------------------ *)
(** ** Limits *)

Section promised_sizes.
Context (size : Pledges -> nat) (ip : Z).

Lemma promised_le ps i : (list_sum (size <$> promised ps i ip) <= list_sum (size <$> ps))%nat.
Proof.
  revert i. induction ps as [|q ps IH]; intros i; [done|]. specialize (IH (i + 1)). unfold list_sum in *. cbn [promised].
  destruct (Z.testbit ip i); cbn [fmap list_fmap foldr] in *; lia.
Qed.

Lemma promised_without ps i (j : nat) p :
  ps !! j = Some p -> Z.testbit ip (i + Z.of_nat j) = true -> (list_sum (size <$> promised ps i ip) + size p <= list_sum (size <$> ps))%nat.
Proof.
  revert i j. induction ps as [|q ps IH]; intros i j L B; [done|]. cbn [promised]. destruct j as [|j].
  - apply (inj Some) in L. subst q. rewrite Z.add_0_r in B. rewrite B. pose proof (promised_le ps (i + 1)) as Le. unfold list_sum in *. cbn [fmap list_fmap foldr]. lia.
  - specialize (IH (i + 1) j L). rewrite Nat2Z.inj_succ in B. replace (i + Z.succ (Z.of_nat j)) with (i + 1 + Z.of_nat j) in B by lia. specialize (IH B).
    unfold list_sum in *. destruct (Z.testbit ip i); cbn [fmap list_fmap foldr] in *; lia.
Qed.
End promised_sizes.

(** Groups of 29 instructions or more: without one of them, the rest fits in every mode. *)
Definition large_promises : list Z :=
  [PROMISE_STDIO; PROMISE_RPATH; PROMISE_WPATH; PROMISE_CPATH; PROMISE_INET; PROMISE_ANET; PROMISE_UNIX; PROMISE_DNS].

Lemma large_groups :
  forallb (fun i => match kPledge !! Z.to_nat i with
    | Some p => (length kPledgeStart + 2 + group_size kPledgeDefault + list_sum ((fun p => group_size (syscalls p)) <$> kPledge) + 28 <=?
                 FILTER_SIZE + group_size (syscalls p))%nat
    | None => false end) large_promises = true.
Proof. vm_compute. reflexivity. Qed.

(** Every set of promises without all of the large groups fits into the array. *)
Lemma pledge_fits ip mode i : i ∈ large_promises -> ~ made ip i -> (pledge_size ip mode <= FILTER_SIZE)%nat.
Proof.
  intros In M. pose proof large_groups as L. rewrite forallb_forall in L. specialize (L i (proj1 (list_elem_of_In _ _) In)). cbv beta in L.
  destruct (kPledge !! Z.to_nat i) as [p|] eqn:E; [|done]. apply Nat.leb_le in L.
  assert (0 <= i) as Hi by (unfold large_promises in In; rewrite !elem_of_cons in In; destruct In as [->|[->|[->|[->|[->|[->|[->|[->|[]%not_elem_of_nil]]]]]]]]; done).
  pose proof (promised_without (fun p => group_size (syscalls p)) ip kPledge 0 (Z.to_nat i) p E) as W. rewrite Z2Nat.id, Z.add_0_l in W by done.
  unfold made in M. destruct (Z.testbit ip i); [specialize (W eq_refl)|by destruct M].
  unfold pledge_size. destruct (ip =? 2 ^ 64 - 1), (logging mode), (penalty mode); lia.
Qed.

(** All promises at once do not fit: the program ends where the filter should be installed. *)
Lemma all_promises_overflow : pledge_filter 7 7 0 PLEDGE_PENALTY_KILL_THREAD = None /\ pledge_size 0 PLEDGE_PENALTY_KILL_THREAD = 704%nat /\
  pledge_size 0 PLEDGE_STDERR_LOGGING = 731%nat.
Proof. vm_compute. auto. Qed.

(** With cpath, open does not have to create a file: any file is opened for writing without wpath. *)
Lemma cpath_opens_any : run_filter (filter_of (mask_of [PROMISE_CPATH]) 0) (call __NR_linux_open 0 O_RDWR 0 0) = Some SECCOMP_RET_ALLOW.
Proof. vm_compute. reflexivity. Qed.

(** With stdio, the handler of SIGSYS can be replaced. *)
Lemma sigsys_replaceable :
  run_filter (filter_of (mask_of [PROMISE_STDIO]) PLEDGE_STDERR_LOGGING) (call __NR_linux_sigaction 31 0 0 8) = Some SECCOMP_RET_ALLOW.
Proof. vm_compute. reflexivity. Qed.

(** With stdio, kill and tgkill are for the process itself, but tkill signals any thread of any process. *)
Lemma tkill_signals_any (t s : Z) :
  run_filter (filter_of (mask_of [PROMISE_STDIO]) 0) (call __NR_linux_tkill t s 0 0) = Some SECCOMP_RET_ALLOW /\
  run_filter (filter_of (mask_of [PROMISE_STDIO]) 0) (call __NR_linux_kill 1 9 0 0) = Some SECCOMP_RET_KILL_THREAD.
Proof. split; vm_compute; reflexivity. Qed.

(** stdio does not allow getdents. *)
Lemma stdio_no_getdents :
  run_filter (filter_of (mask_of [PROMISE_STDIO]) 0) (call __NR_linux_getdents 3 0 0 0) = Some SECCOMP_RET_KILL_THREAD.
Proof. vm_compute. reflexivity. Qed.

(** wpath does not allow readlink. *)
Lemma wpath_no_readlink :
  run_filter (filter_of (mask_of [PROMISE_WPATH]) 0) (call __NR_linux_readlink 0 0 0 0) = Some SECCOMP_RET_KILL_THREAD.
Proof. vm_compute. reflexivity. Qed.

(** It is sendfd and not recvfd that allows sendmsg. *)
Lemma recvfd_no_sendmsg :
  run_filter (filter_of (mask_of [PROMISE_RECVFD]) 0) (call __NR_linux_sendmsg 3 0 0 0) = Some SECCOMP_RET_KILL_THREAD /\
  run_filter (filter_of (mask_of [PROMISE_SENDFD]) 0) (call __NR_linux_sendmsg 3 0 0 0) = Some SECCOMP_RET_ALLOW.
Proof. split; vm_compute; reflexivity. Qed.

(** With inet, the option 0x13 can be set. *)
Lemma setsockopt_0x13_allowed :
  run_filter (filter_of (mask_of [PROMISE_INET]) 0) (call __NR_linux_setsockopt 3 0 0x13 0) = Some SECCOMP_RET_ALLOW.
Proof. vm_compute. reflexivity. Qed.

(** With cpath and __O_TMPFILE alone, the mode may have the setuid bit. *)
Lemma tmpfile_alone_sets_bits :
  run_filter (filter_of (mask_of [PROMISE_CPATH]) 0) (call __NR_linux_open 0 (O_TMPFILE .| O_RDWR) 0x9ed 0) = Some SECCOMP_RET_ALLOW.
Proof. vm_compute. reflexivity. Qed.

(** By default, setting the sticky bit does not give EPERM but kills the thread, and so does chown. *)
Lemma chmod_bits_kill :
  run_filter (filter_of (mask_of [PROMISE_FATTR]) 0) (call __NR_linux_chmod 0 0x3ed 0 0) = Some SECCOMP_RET_KILL_THREAD /\
  run_filter (filter_of (mask_of [PROMISE_FATTR]) 0) (call __NR_linux_chown 0 1 1 0) = Some SECCOMP_RET_KILL_THREAD.
Proof. split; vm_compute; reflexivity. Qed.
