(* ===== verification/Memory.v ===== *)
(** * Memory (libc/intrin, libc/str)

    Byte-addressed memory with unmapped pages, the blocks that vectorised code reads from it, and the masks
    by which such code finds the first byte of a block that it looks for: one bit per byte (pmovmskb), or
    the top bits of the bytes of a word. *)

From S2P Require Import Prelude.

(** What an address holds; reading an address that has nothing ends the program. *)
Definition memory : Type := Z -> option Z.

Definition load {A} (m : Z -> option A) (p : Z) (n : nat) : option (list A) := mapM m (seqZ p (Z.of_nat n)).

Definition PAGE : Z := 4096.

(** Pages are mapped as a whole, and hold bytes. *)
Record well_mapped (m : memory) : Prop := {
  mapped_page a b : a / PAGE = b / PAGE -> is_Some (m a) -> is_Some (m b);
  mapped_byte a v : m a = Some v -> is_byte v
}.

(** [__builtin_ctzll] *)
Fixpoint ctz_pos (p : positive) : Z := match p with xO p => 1 + ctz_pos p | _ => 0 end.
Definition ctz (w : Z) : Z := match w with Zpos p => ctz_pos p | _ => 0 end.

(** [__builtin_ia32_pmovmskb128] of a vector of comparisons. *)
Fixpoint pmovmskb (l : list bool) : Z := match l with [] => 0 | b :: l => Z.b2z b + 2 * pmovmskb l end.

(** The bytes of a word that are zero, at least up to the first of them. *)
Definition ONES : Z := 0x0101010101010101.
Definition BANE : Z := 0x8080808080808080.
Definition zero_bytes (w : Z) : Z := Z.land (Z.land (u64 (Z.lnot w)) (u64 (w - ONES))) BANE.

(** The index of the first element that satisfies a test. *)
Fixpoint first {A} (f : A -> bool) (l : list A) : option nat :=
  match l with [] => None | x :: l => if f x then Some O else S <$> first f l end.

(** A mask whose lowest bit, at a scale of [2 ^ sh], is at the index. *)
Definition marks (w sh : Z) (o : option nat) : Prop :=
  match o with None => w = 0 | Some i => w <> 0 /\ Z.shiftr (ctz w) sh = Z.of_nat i end.

(* ------------------------------------------------------------------ *)
(** ** Trailing zeros *)

Lemma ctz_pos_nonneg p : 0 <= ctz_pos p.
Proof. induction p; cbn [ctz_pos]; lia. Qed.

Lemma ctz_double w : 0 < w -> ctz (2 * w) = 1 + ctz w.
Proof. destruct w; [lia| |lia]. intros _. done. Qed.

Lemma ctz_pow (k : nat) w : 0 < w -> ctz (2 ^ Z.of_nat k * w) = Z.of_nat k + ctz w.
Proof.
  intros H. induction k as [|k IH]; [by rewrite Z.mul_1_l|]. rewrite Nat2Z.inj_succ, Z.pow_succ_r, <- Z.mul_assoc by lia.
  rewrite ctz_double, IH by nia. lia.
Qed.

Lemma ctz_odd w : ctz (1 + 2 * w) = 0.
Proof. destruct w as [|p|[p|p|]]; try done. Qed.

Lemma ctz_bound w n : 0 < w < 2 ^ n -> 0 <= ctz w < n.
Proof.
  destruct w as [|p|]; try lia. cbn [ctz]. revert n. induction p as [p IH|p IH|]; intros n [_ H]; cbn [ctz_pos].
  - split; [lia|]. destruct (Z.le_gt_cases n 0) as [L|]; [|lia]. assert (2 ^ n <= 1) by (destruct n; [done|lia|done]). lia.
  - destruct (Z.le_gt_cases n 0) as [L|]; [assert (2 ^ n <= 1) by (destruct n; [done|lia|done]); lia|].
    specialize (IH (n - 1)). replace n with (Z.succ (n - 1)) in H by lia. rewrite Z.pow_succ_r in H by lia. lia.
  - split; [lia|]. destruct (Z.le_gt_cases n 0) as [L|]; [|lia]. assert (2 ^ n <= 1) by (destruct n; [done|lia|done]). lia.
Qed.

(** The bit at [ctz], and those below. *)
Lemma ctz_bits w : 0 < w -> Z.testbit w (ctz w) = true /\ forall i, 0 <= i < ctz w -> Z.testbit w i = false.
Proof.
  destruct w as [|p|]; try lia. intros _. cbn [ctz]. induction p as [p _|p [IH1 IH2]|]; cbn [ctz_pos].
  - split; [done|lia].
  - pose proof (ctz_pos_nonneg p). change (Z.pos p~0) with (2 * Z.pos p). split.
    + replace (1 + ctz_pos p) with (Z.succ (ctz_pos p)) by lia. rewrite Z.double_bits_succ. done.
    + intros i Hi. destruct (Z.eq_dec i 0) as [->|]; [done|]. replace i with (Z.succ (i - 1)) by lia. rewrite Z.double_bits_succ. apply IH2. lia.
  - split; [done|lia].
Qed.

Lemma ctz_unique w i : 0 < w -> 0 <= i -> Z.testbit w i = true -> (forall j, 0 <= j < i -> Z.testbit w j = false) -> ctz w = i.
Proof.
  intros Hw Hi T F. destruct (ctz_bits w Hw) as [T' F']. assert (0 <= ctz w) by (destruct w; cbn; try lia; apply ctz_pos_nonneg).
  destruct (Z.lt_trichotomy (ctz w) i) as [L|[E|L]]; [|done|].
  - rewrite F in T' by lia. done.
  - rewrite F' in T by lia. done.
Qed.

(* ------------------------------------------------------------------ *)
(** ** Masks *)

Lemma first_fmap {A B} (f : B -> bool) (g : A -> B) l : first f (g <$> l) = first (fun x => f (g x)) l.
Proof. induction l as [|x l IH]; [done|]. cbn. rewrite <- IH. done. Qed.

Lemma first_ext {A} (f g : A -> bool) l : (forall x, x ∈ l -> f x = g x) -> first f l = first g l.
Proof.
  induction l as [|x l IH]; intros H; [done|]. cbn. rewrite (H x), IH; [done| |apply list_elem_of_here]. intros y Hy. apply H. by apply list_elem_of_further.
Qed.

Lemma first_Some {A} (f : A -> bool) l i :
  first f l = Some i <-> (exists x, l !! i = Some x /\ f x = true) /\ forall j x, (j < i)%nat -> l !! j = Some x -> f x = false.
Proof.
  revert i. induction l as [|y l IH]; intros i; cbn [first]; [split; [done|by intros [(x & E & _) _]]|]. destruct (f y) eqn:F.
  - split.
    + intros [= <-]. split; [by exists y|lia].
    + intros [_ H]. destruct i as [|i]; [done|]. rewrite (H 0%nat y) in F by (done || lia). done.
  - destruct i as [|i].
    + split; [destruct (first f l); done|]. intros [(x & [= <-] & X) _]. congruence.
    + transitivity (first f l = Some i); [destruct (first f l); cbn; naive_solver|]. rewrite IH. split.
      * intros [E H]. split; [done|]. intros [|j] x L; [intros [= <-]; done|]. apply H. lia.
      * intros [E H]. split; [done|]. intros j x L. apply (H (S j)). lia.
Qed.

Lemma first_None {A} (f : A -> bool) l : first f l = None <-> forall x, x ∈ l -> f x = false.
Proof.
  induction l as [|y l IH]; cbn [first]; [split; [by intros _ x []%not_elem_of_nil|done]|]. destruct (f y) eqn:F.
  - split; [done|]. intros H. rewrite H in F; [done|apply list_elem_of_here].
  - transitivity (first f l = None); [by destruct (first f l)|]. rewrite IH. split; intros H x Hx; [apply elem_of_cons in Hx as [->|]; auto|].
    apply H. by apply list_elem_of_further.
Qed.

Lemma pmovmskb_nonneg l : 0 <= pmovmskb l.
Proof. induction l as [|[] l IH]; cbn [pmovmskb Z.b2z]; lia. Qed.

Lemma pmovmskb_bound l : 0 <= pmovmskb l < 2 ^ Z.of_nat (length l).
Proof. induction l as [|b l IH]; [done|]. cbn [pmovmskb length]. rewrite Nat2Z.inj_succ, Z.pow_succ_r by lia. destruct b; cbn [Z.b2z]; lia. Qed.

Lemma pmovmskb_bits l j : 0 <= j -> Z.testbit (pmovmskb l) j = default false (l !! Z.to_nat j).
Proof.
  revert j. induction l as [|b l IH]; intros j Hj; [by rewrite Z.bits_0|]. cbn [pmovmskb]. rewrite Z.add_comm. destruct (Z.eq_dec j 0) as [->|N].
  - rewrite Z.add_comm, Z.bit0_odd, Z.odd_add_mul_2. by destruct b.
  - replace j with (Z.succ (j - 1)) by lia. rewrite Z.testbit_succ_r by lia. rewrite IH by lia. replace (Z.to_nat (Z.succ (j - 1))) with (S (Z.to_nat (j - 1))) by lia. done.
Qed.

(** The complement of a mask. *)
Lemma pmovmskb_negb l : Z.lxor (pmovmskb l) (Z.ones (Z.of_nat (length l))) = pmovmskb (negb <$> l).
Proof.
  apply Z.bits_inj'. intros j Hj. rewrite Z.lxor_spec, !pmovmskb_bits, list_lookup_fmap, Z.testbit_ones_nonneg by lia.
  destruct (Z.ltb_spec j (Z.of_nat (length l))).
  - destruct (lookup_lt_is_Some_2 l (Z.to_nat j) ltac:(lia)) as [b ->]. cbn. by destruct b.
  - by rewrite lookup_ge_None_2 by lia.
Qed.

Lemma pmovmskb_marks l : marks (pmovmskb l) 0 (first id l).
Proof.
  induction l as [|b l IH]; [done|]. cbn [pmovmskb first]. destruct b; cbn [Z.b2z id].
  - split; [pose proof (pmovmskb_nonneg l); lia|]. by rewrite ctz_odd.
  - rewrite Z.add_0_l. pose proof (pmovmskb_nonneg l) as N. destruct (first id l) as [i|]; cbn [fmap option_fmap option_map marks] in *; [|lia].
    destruct IH as [Nz E]. split; [lia|]. rewrite ctz_double by lia. rewrite Z.shiftr_0_r in *. lia.
Qed.

Lemma mask_marks {A} (f : A -> bool) l : marks (pmovmskb (f <$> l)) 0 (first f l).
Proof. pose proof (pmovmskb_marks (f <$> l)) as H. by rewrite first_fmap in H. Qed.

(** [m >> k << k] *)
Lemma pmovmskb_skip (k : nat) l :
  (k <= length l)%nat -> Z.shiftl (Z.shiftr (pmovmskb l) (Z.of_nat k)) (Z.of_nat k) = pmovmskb (replicate k false ++ drop k l).
Proof.
  rewrite Z.shiftl_mul_pow2, Z.shiftr_div_pow2 by lia. revert l. induction k as [|k IH]; intros l L.
  - by rewrite Z.div_1_r, Z.mul_1_r.
  - destruct l as [|b l]; [cbn in L; lia|]. cbn [length] in L. cbn [replicate app drop pmovmskb Z.b2z]. rewrite <- IH by lia.
    rewrite Nat2Z.inj_succ, Z.pow_succ_r by lia. rewrite <- Z.div_div by lia.
    rewrite (Z.add_comm (Z.b2z b)), (Z.mul_comm 2 (pmovmskb l)), Z.div_add_l, (Z.div_small (Z.b2z b)) by (destruct b; cbn [Z.b2z]; lia). rewrite Z.add_0_r. ring.
Qed.

Lemma first_skip {A} (f : A -> bool) (k : nat) l : first id (replicate k false ++ drop k (f <$> l)) = (fun i => (k + i)%nat) <$> first f (drop k l).
Proof.
  revert l. induction k as [|k IH]; intros l.
  - change (first id (f <$> l) = (fun i => i) <$> first f l). rewrite first_fmap. unfold id. by destruct (first _ l).
  - destruct l as [|x l]; [|cbn [replicate app drop fmap list_fmap first id]; rewrite IH; by destruct (first f (drop k l))].
    cbn [drop]. clear. change (first id (replicate (S k) false ++ []) = None). generalize (S k). intros n. induction n as [|n IH]; [done|]. cbn. by rewrite IH.
Qed.

Lemma mask_skip_marks {A} (f : A -> bool) (k : nat) l :
  (k <= length l)%nat ->
  marks (Z.shiftl (Z.shiftr (pmovmskb (f <$> l)) (Z.of_nat k)) (Z.of_nat k)) 0 ((fun i => (k + i)%nat) <$> first f (drop k l)).
Proof. intros L. rewrite pmovmskb_skip by by rewrite length_fmap. rewrite <- first_skip. apply pmovmskb_marks. Qed.

(** One byte of a word. *)
Lemma marks_lane b w o :
  is_byte b -> 0 <= w -> (b = 0 -> marks w 3 o) -> marks (b + 256 * w) 3 (if b =? 0 then S <$> o else Some O).
Proof.
  intros Hb Hw M. unfold is_byte in Hb. destruct (Z.eqb_spec b 0) as [->|Nb].
  - rewrite Z.add_0_l. specialize (M eq_refl). destruct o as [i|]; cbn in *; [|lia]. destruct M as [Nz E]. split; [lia|].
    change 256 with (2 ^ Z.of_nat 8). rewrite ctz_pow by lia. rewrite Z.shiftr_div_pow2 in * by lia. replace (Z.of_nat 8 + ctz w) with (1 * 2 ^ 3 + ctz w) by lia. rewrite Z.div_add_l by lia. lia.
  - split; [lia|]. assert (ctz (b + 256 * w) < 8) as L.
    { destruct (ctz_bits b) as [T F]; [lia|]. pose proof (ctz_bound b 8 ltac:(lia)) as B.
      rewrite (ctz_unique _ (ctz b)); [lia|lia|lia| |].
      - rewrite testbit_lane by (unfold is_byte; lia). rewrite (proj2 (Z.ltb_lt _ _)) by lia. done.
      - intros j Hj. rewrite testbit_lane by (unfold is_byte; lia). rewrite (proj2 (Z.ltb_lt _ _)) by lia. apply F. lia. }
    assert (0 <= ctz (b + 256 * w)) by (destruct (b + 256 * w); cbn; try lia; apply ctz_pos_nonneg).
    rewrite Z.shiftr_div_pow2 by lia. apply Z.div_small. lia.
Qed.

(** Words of any number of bytes. *)
Definition ones (n : nat) : Z := pack (replicate n 1).
Definition bane (n : nat) : Z := pack (replicate n 0x80).
Definition zero_lanes (n : nat) (w : Z) : Z := Z.land (Z.land (Z.lnot w) (w - ones n)) (bane n).

Lemma land_lane a x b y : is_byte a -> is_byte b -> Z.land (a + 256 * x) (b + 256 * y) = Z.land a b + 256 * Z.land x y.
Proof.
  intros Ha Hb. apply Z.bits_inj'. intros i Hi. rewrite Z.land_spec, !testbit_lane by (done || by apply land_byte).
  destruct (i <? 8); by rewrite Z.land_spec.
Qed.

Lemma lxor_lane a x b y : is_byte a -> is_byte b -> Z.lxor (a + 256 * x) (b + 256 * y) = Z.lxor a b + 256 * Z.lxor x y.
Proof.
  intros Ha Hb. apply Z.bits_inj'. intros i Hi. rewrite Z.lxor_spec, !testbit_lane by (done || by apply lxor_byte).
  destruct (i <? 8); by rewrite Z.lxor_spec.
Qed.

Lemma lnot_lane a x : Z.lnot (a + 256 * x) = (255 - a) + 256 * Z.lnot x.
Proof. unfold Z.lnot. lia. Qed.

Lemma bane_nonneg n : 0 <= bane n.
Proof. unfold bane. induction n as [|n IH]; cbn [replicate pack]; lia. Qed.

Lemma zero_lanes_nonneg n w : 0 <= zero_lanes n w.
Proof. unfold zero_lanes. apply Z.land_nonneg. right. apply bane_nonneg. Qed.

Lemma zero_lane_byte a : is_byte a -> a <> 0 -> Z.land (Z.land (255 - a) (a - 1)) 0x80 = 0.
Proof.
  intros Ha Na. apply Z.eqb_eq, (implb_true_iff (negb (a =? 0)));
    [|by apply negb_true_iff, Z.eqb_neq]. revert a Ha Na. intros a Ha _.
  exact (forall_byte (fun a => implb (negb (a =? 0)) (Z.land (Z.land (255 - a) (a - 1)) 0x80 =? 0)) ltac:(vm_compute; reflexivity) a Ha).
Qed.

Lemma zero_lanes_marks l : Bytes l -> marks (zero_lanes (length l) (pack l)) 3 (first (Z.eqb 0) l).
Proof.
  induction 1 as [|a l Ha _ IH]; [done|]. cbn [length pack first]. unfold zero_lanes, ones, bane. cbn [replicate pack].
  rewrite lnot_lane. destruct (Z.eqb_spec 0 a) as [<-|Na].
  - replace (0 + 256 * pack l - (1 + 256 * pack (replicate (length l) 1))) with (255 + 256 * (pack l - pack (replicate (length l) 1) - 1)) by lia.
    rewrite !land_lane by (try apply land_byte; unfold is_byte; lia). change (Z.land (Z.land (255 - 0) 255) 128) with 128.
    apply (marks_lane 128 _ None); [unfold is_byte; lia| |done]. apply Z.land_nonneg. right. apply bane_nonneg.
  - replace (a + 256 * pack l - (1 + 256 * pack (replicate (length l) 1))) with ((a - 1) + 256 * (pack l - pack (replicate (length l) 1))) by lia.
    rewrite !land_lane by (try apply land_byte; unfold is_byte in *; lia). rewrite zero_lane_byte by (done || lia).
    apply (marks_lane 0); [unfold is_byte; lia|apply zero_lanes_nonneg|]. intros _. exact IH.
Qed.

Lemma zero_bytes_lanes w : zero_bytes w = zero_lanes 8 w.
Proof.
  unfold zero_bytes, zero_lanes, u64. rewrite <- !Z.land_ones by lia. apply Z.bits_inj'. intros i Hi. rewrite !Z.land_spec.
  change (bane 8) with BANE. change (ones 8) with ONES.
  destruct (Z.testbit BANE i) eqn:B; [|by rewrite !andb_false_r]. assert (i < 64) as L.
  { destruct (Z.lt_ge_cases i 64); [done|]. rewrite Z.bits_above_log2 in B; [done|done|]. apply (Z.lt_le_trans _ 64); [reflexivity|done]. }
  rewrite Z.ones_spec_low by lia. by rewrite !andb_true_r.
Qed.

(** The first zero byte of a word. *)
Lemma zero_bytes_marks l : Bytes l -> length l = 8%nat -> marks (zero_bytes (pack l)) 3 (first (Z.eqb 0) l).
Proof. intros B L. rewrite zero_bytes_lanes. rewrite <- L. by apply zero_lanes_marks. Qed.

(** The first byte in which words differ. *)
Lemma lxor_marks l r : Bytes l -> Bytes r -> length l = length r -> marks (Z.lxor (pack l) (pack r)) 3 (first (fun e => negb (e.1 =? e.2)) (zip l r)).
Proof.
  intros Bl. revert r. induction Bl as [|a l Ha Bl IH]; intros [|b r] Br L; try done. apply Forall_cons in Br as [Hb Br].
  cbn [pack zip zip_with first fst snd]. rewrite lxor_lane by done.
  assert (negb (a =? b) = negb (Z.lxor a b =? 0)) as ->.
  { f_equal. apply eq_true_iff_eq. rewrite !Z.eqb_eq. symmetry. apply Z.lxor_eq_0_iff. }
  pose proof (marks_lane (Z.lxor a b) (Z.lxor (pack l) (pack r)) (first (fun e => negb (e.1 =? e.2)) (zip l r))) as M.
  destruct (Z.lxor a b =? 0); cbn [negb]; apply M; try (by apply lxor_byte); try (intros _; apply IH; [done|by injection L]);
    apply Z.lxor_nonneg; split; intros _; apply pack_range; done.
Qed.

(** Of two masks, the bit of the first that has one. *)
Definition omin (o o' : option nat) : option nat :=
  match o, o' with Some i, Some j => Some (i `min` j)%nat | Some i, None => Some i | None, o' => o' end.

Lemma first_or {A} (f g : A -> bool) l : first (fun x => f x || g x) l = omin (first f l) (first g l).
Proof.
  induction l as [|x l IH]; [done|]. cbn [first]. rewrite IH. destruct (f x), (g x), (first f l), (first g l); done.
Qed.

Lemma ctz_lor w w' : 0 < w -> 0 < w' -> ctz (Z.lor w w') = Z.min (ctz w) (ctz w').
Proof.
  intros H H'. destruct (ctz_bits w H) as [T F], (ctz_bits w' H') as [T' F'].
  assert (0 <= ctz w) by (destruct w; cbn; try lia; apply ctz_pos_nonneg). assert (0 <= ctz w') by (destruct w'; cbn; try lia; apply ctz_pos_nonneg).
  apply ctz_unique; [|lia| |].
  - assert (0 <= Z.lor w w') by (apply Z.lor_nonneg; lia). assert (Z.lor w w' <> 0) by (intros [-> _]%Z.lor_eq_0_iff; lia). lia.
  - rewrite Z.lor_spec. destruct (Z.le_ge_cases (ctz w) (ctz w')); [rewrite Z.min_l, T by done; done|rewrite Z.min_r, T' by done; apply orb_true_r].
  - intros j Hj. by rewrite Z.lor_spec, F, F' by lia.
Qed.

Lemma lor_marks w w' sh o o' : 0 <= w -> 0 <= w' -> 0 <= sh -> marks w sh o -> marks w' sh o' -> marks (Z.lor w w') sh (omin o o').
Proof.
  intros H H' Hs. destruct o as [i|], o' as [j|]; cbn [marks omin].
  - intros [N E] [N' E']. split; [intros [-> _]%Z.lor_eq_0_iff; done|]. rewrite ctz_lor by lia.
    rewrite Nat2Z.inj_min, <- E, <- E'. rewrite !Z.shiftr_div_pow2 by done.
    destruct (Z.le_ge_cases (ctz w) (ctz w')) as [L|L].
    + rewrite !Z.min_l; [done| |done]. apply Z.div_le_mono; lia.
    + rewrite !Z.min_r; [done| |done]. apply Z.div_le_mono; lia.
  - intros [N E] ->. by rewrite Z.lor_0_r.
  - intros ->. by rewrite Z.lor_0_l.
  - intros -> ->. done.
Qed.

(* ------------------------------------------------------------------ *)
(** ** Blocks *)

Lemma load_Some {A} (m : Z -> option A) p n l : load m p n = Some l <-> length l = n /\ forall i : nat, (i < n)%nat -> m (p + Z.of_nat i) = l !! i.
Proof.
  unfold load. rewrite mapM_Some, Forall2_lookup. split.
  - intros H. assert (length l = n) as L.
    { apply Nat.le_antisymm; apply Nat.nlt_ge; intros X.
      - destruct (lookup_lt_is_Some_2 l n X) as [v E]. specialize (H n). rewrite E, lookup_seqZ_ge in H by lia. inversion H.
      - destruct (l !! length l) as [v|] eqn:E; [apply lookup_lt_Some in E; lia|]. specialize (H (length l)). rewrite E, lookup_seqZ_lt in H by lia. inversion H. }
    split; [done|]. intros i Hi. specialize (H i). rewrite lookup_seqZ_lt in H by lia. inversion H as [x y E|]; subst. done.
  - intros [L H] i. destruct (Nat.lt_ge_cases i n) as [X|X].
    + rewrite lookup_seqZ_lt by lia. destruct (lookup_lt_is_Some_2 l i ltac:(lia)) as [v E]. rewrite E. constructor. by rewrite H.
    + rewrite lookup_seqZ_ge, lookup_ge_None_2 by lia. constructor.
Qed.

Lemma load_lookup {A} (m : Z -> option A) p n l (i : nat) v : load m p n = Some l -> l !! i = Some v -> m (p + Z.of_nat i) = Some v.
Proof. intros [L H]%load_Some E. rewrite H; [done|]. apply lookup_lt_Some in E. lia. Qed.

Lemma load_is_Some {A} (m : Z -> option A) p n : (forall a, p <= a < p + Z.of_nat n -> is_Some (m a)) -> is_Some (load m p n).
Proof. intros H. unfold load. apply mapM_is_Some. apply Forall_forall. intros a Ha%elem_of_seqZ. apply H. lia. Qed.

Lemma load_Bytes m p n l : well_mapped m -> load m p n = Some l -> Bytes l.
Proof. intros W L. apply Forall_lookup. intros i v E. eapply mapped_byte; [done|]. by eapply load_lookup. Qed.

(** A byte range that code finds the end of. *)
Definition reaches {A} (m : Z -> option A) (f : A -> bool) (s e : Z) : Prop :=
  s <= e /\ (forall a, s <= a < e -> exists v, m a = Some v /\ f v = false) /\ exists v, m e = Some v /\ f v = true.

Lemma reaches_next {A} (m : Z -> option A) f s s' e : reaches m f s e -> s <= s' <= e -> reaches m f s' e.
Proof. intros (L & H & E) X. split; [lia|]. split; [intros a Ha; apply H; lia|done]. Qed.

Lemma reaches_start {A} (m : Z -> option A) f s e : reaches m f s e -> is_Some (m s).
Proof. intros (L & H & v & E & F). destruct (Z.eq_dec s e) as [->|]; [by exists v|]. destruct (H s) as (w & X & _); [lia|]. by exists w. Qed.

(** The blocks of code that reads [n] bytes at a time lie within pages. *)
Lemma load_aligned m n (p a : Z) :
  well_mapped m -> (Z.of_nat n | PAGE) -> (0 < n)%nat -> (Z.of_nat n | p) -> p <= a < p + Z.of_nat n -> is_Some (m a) -> is_Some (load m p n).
Proof.
  intros W [k Ek] Hn [q ->] Ha Ma. apply load_is_Some. intros b Hb. eapply mapped_page; [done| |exact Ma]. rewrite Ek.
  rewrite (Z.mul_comm k), <- !Z.div_div by (unfold PAGE in *; nia).
  replace (a / Z.of_nat n) with q by (apply Z.div_unique with (a - q * Z.of_nat n); lia).
  by replace (b / Z.of_nat n) with q by (apply Z.div_unique with (b - q * Z.of_nat n); lia).
Qed.

(** What a block that has the start of a range shows of its end. *)
Lemma block_first {A} (m : Z -> option A) f s e p n l :
  load m p n = Some l -> reaches m f s e -> p <= s < p + Z.of_nat n ->
  first f (drop (Z.to_nat (s - p)) l) = if e <? p + Z.of_nat n then Some (Z.to_nat (e - s)) else None.
Proof.
  intros [L Ld]%load_Some (Le & H & v & E & F) Hs. destruct (Z.ltb_spec e (p + Z.of_nat n)) as [X|X].
  - apply first_Some. split.
    + exists v. split; [|done]. rewrite lookup_drop, <- Ld by lia. replace (p + Z.of_nat (Z.to_nat (s - p) + Z.to_nat (e - s))) with e by lia. done.
    + intros j x Hj. rewrite lookup_drop, <- Ld by lia. intros M. destruct (H (s + Z.of_nat j)) as (w & E' & F'); [lia|].
      replace (p + Z.of_nat (Z.to_nat (s - p) + j)) with (s + Z.of_nat j) in M by lia. congruence.
  - apply first_None. intros x [j Hj]%list_elem_of_lookup. rewrite lookup_drop in Hj. pose proof (lookup_lt_Some _ _ _ Hj) as Lj. rewrite <- Ld in Hj by lia.
    destruct (H (s + Z.of_nat j)) as (w & E' & F'); [lia|]. replace (p + Z.of_nat (Z.to_nat (s - p) + j)) with (s + Z.of_nat j) in Hj by lia. congruence.
Qed.

Lemma block_first_0 {A} (m : Z -> option A) f p e n l :
  load m p n = Some l -> reaches m f p e -> (0 < n)%nat -> first f l = if e <? p + Z.of_nat n then Some (Z.to_nat (e - p)) else None.
Proof. intros L R N. pose proof (block_first _ _ _ _ _ _ _ L R ltac:(lia)) as B. by rewrite Z.sub_diag in B. Qed.

(* ------------------------------------------------------------------ *)
(** ** Scanning by vectors *)

(** The loop on vectors that have no such byte, and the address of the lowest bit of the mask. *)
Fixpoint sse_loop (fuel : nat) (m : memory) (f : Z -> bool) (p b : Z) : option Z :=
  if b =? 0 then
    match fuel with
    | O => None
    | S fuel => v ← load m (p + 16) 16; sse_loop fuel m f (p + 16) (pmovmskb (f <$> v))
    end
  else Some (p + ctz b).

(** Where the first byte that satisfies [f] is: from the vector that has [s], the bytes before which are
    shifted out. *)
Definition scan_sse (fuel : nat) (m : memory) (f : Z -> bool) (s : Z) : option Z :=
  let k := Z.land s 15 in
  let p := Z.land s (-16) in
  v ← load m p 16;
  sse_loop fuel m f p (Z.shiftl (Z.shiftr (pmovmskb (f <$> v)) k) k).

Lemma align_down s n : 0 <= n -> Z.land s (- 2 ^ n) = s - s mod 2 ^ n.
Proof.
  intros H. replace (- 2 ^ n) with (Z.lnot (Z.ones n)) by (rewrite Z.ones_equiv; unfold Z.lnot; lia).
  rewrite <- Z.ldiff_land, Z.ldiff_ones_r, Z.shiftl_mul_pow2, Z.shiftr_div_pow2 by done. pose proof (Z.div_mod s (2 ^ n)). lia.
Qed.

Lemma sse_loop_exact fuel m f p b e s :
  well_mapped m -> reaches m f s e -> p <= s < p + 16 -> (16 | p) ->
  marks b 0 (if e <? p + 16 then Some (Z.to_nat (e - p)) else None) -> e - p < 16 * Z.of_nat (S fuel) -> sse_loop fuel m f p b = Some e.
Proof.
  intros W. revert p b s. induction fuel as [|fuel IH]; intros p b s R Hs D M Hf; pose proof R as (Le & _); cbn [sse_loop];
    destruct (Z.ltb_spec e (p + 16)) as [X|X]; cbn [marks] in M; try lia.
  - destruct M as [N E]. rewrite (proj2 (Z.eqb_neq _ _) N). rewrite Z.shiftr_0_r in E. f_equal. lia.
  - destruct M as [N E]. rewrite (proj2 (Z.eqb_neq _ _) N). rewrite Z.shiftr_0_r in E. f_equal. lia.
  - rewrite (proj2 (Z.eqb_eq _ _) M). assert (reaches m f (p + 16) e) as R' by (apply (reaches_next m f s); [done|lia]).
    assert (16 | p + 16) as D' by (apply Z.divide_add_r; [done|apply Z.divide_refl]).
    destruct (load_aligned m 16 (p + 16) (p + 16)) as [l El]; try done; [by exists 256|lia|lia|by eapply reaches_start|].
    rewrite El. cbn [mbind option_bind]. eapply (IH _ _ (p + 16)); [done|lia|done| |lia].
    pose proof (block_first_0 _ _ _ _ _ _ El R' ltac:(lia)) as B. change (Z.of_nat 16) with 16 in B. rewrite <- B. apply mask_marks.
Qed.

Lemma scan_sse_exact fuel m f s e :
  well_mapped m -> reaches m f s e -> e - s < 16 * Z.of_nat fuel -> scan_sse fuel m f s = Some e.
Proof.
  intros W R Hf. unfold scan_sse. rewrite land_15. change (-16) with (- 2 ^ 4). rewrite align_down by lia. change (2 ^ 4) with 16.
  pose proof (Z.mod_pos_bound s 16 ltac:(lia)) as B. set (k := s mod 16) in *.
  assert (16 | s - k) as D by (exists (s / 16); unfold k; pose proof (Z.div_mod s 16 ltac:(lia)); lia).
  destruct (load_aligned m 16 (s - k) s) as [l El]; try done; [by exists 256|lia|lia|by eapply reaches_start|].
  rewrite El. cbn [mbind option_bind]. eapply sse_loop_exact; [done|exact R|lia|done| |lia].
  pose proof (block_first _ _ _ _ _ _ _ El R ltac:(lia)) as F. replace (s - (s - k)) with k in F by lia. pose proof R as (Le & _).
  rewrite <- (Z2Nat.id k) by lia. apply load_Some in El as [L _].
  pose proof (mask_skip_marks f (Z.to_nat k) l ltac:(lia)) as M. rewrite F in M. rewrite !Z2Nat.id in * by lia.
  destruct (e <? s - k + Z.of_nat 16) eqn:X; change (Z.of_nat 16) with 16 in X; rewrite X; [|exact M].
  cbn [fmap option_fmap option_map] in M. by replace (Z.to_nat (e - (s - k))) with (Z.to_nat k + Z.to_nat (e - s))%nat by lia.
Qed.
