(* ===== verification/Strings.v ===== *)
(** * Strings in memory (libc/intrin, libc/str)

    The functions of string.h that read vectors or words where the standard says bytes: they look past the
    ends of strings, but not past the ends of pages, and find the same bytes. Addresses are numbers, the
    null pointer is 0. A result of [None] is a read of memory that is not mapped, or a loop that the fuel is
    not enough for: that there is a result shows that neither happens. *)

From S2P Require Import Prelude Tables Memory.

(* ------------------------------------------------------------------ *)
(** ** Bytes in strings *)

(** [strlen]: with vectors, and the alternative with words for other compilers. *)
Definition strlen (fuel : nat) (m : memory) (s : Z) : option Z :=
  e ← scan_sse fuel m (Z.eqb 0) s; Some (e - s).

Definition word (m : memory) (p : Z) : option Z := pack <$> load m p 8.

Fixpoint strlen_loop (fuel : nat) (m : memory) (p w : Z) : option Z :=
  if w =? 0 then
    match fuel with
    | O => None
    | S fuel => w ← word m (p + 8); strlen_loop fuel m (p + 8) (zero_bytes w)
    end
  else Some (p + Z.shiftr (ctz w) 3).

Definition strlen_words (fuel : nat) (m : memory) (s : Z) : option Z :=
  let k := Z.land s 7 in
  let p := Z.land s (-8) in
  w ← word m p;
  let w := zero_bytes w in
  let w := u64 (Z.shiftl (Z.shiftr w (Z.shiftl k 3)) (Z.shiftl k 3)) in
  e ← strlen_loop fuel m p w; Some (e - s).

(** [strchr] and [strchrnul]. [sse] is [X86_HAVE(SSE)]; [c & 255] is what they compare. *)
Definition stops (c v : Z) : bool := (v =? 0) || (v =? c).

Fixpoint strchr_pure (fuel : nat) (m : memory) (s c : Z) : option Z :=
  match fuel with
  | O => None
  | S fuel =>
      v ← m s;
      if v =? c then Some s
      else if v =? 0 then Some 0
      else strchr_pure fuel m (s + 1) c
  end.

Definition strchr_sse (fuel : nat) (m : memory) (s c : Z) : option Z :=
  s ← scan_sse fuel m (stops c) s;
  v ← m s;
  Some (if negb (c =? 0) && (v =? 0) then 0 else s).

Definition strchr (sse : bool) (fuel : nat) (m : memory) (s c : Z) : option Z :=
  if sse then strchr_sse fuel m s (u8 c) else strchr_pure fuel m s (u8 c).

Fixpoint strchrnul_pure (fuel : nat) (m : memory) (s c : Z) : option Z :=
  match fuel with
  | O => None
  | S fuel =>
      v ← m s;
      if v =? c then Some s
      else if v =? 0 then Some s
      else strchrnul_pure fuel m (s + 1) c
  end.

Definition strchrnul (sse : bool) (fuel : nat) (m : memory) (s c : Z) : option Z :=
  if sse then scan_sse fuel m (stops (u8 c)) s else strchrnul_pure fuel m s (u8 c).

Fixpoint rawmemchr_pure (fuel : nat) (m : memory) (s c : Z) : option Z :=
  match fuel with
  | O => None
  | S fuel => v ← m s; if v =? c then Some s else rawmemchr_pure fuel m (s + 1) c
  end.

Definition rawmemchr (sse : bool) (fuel : nat) (m : memory) (s c : Z) : option Z :=
  if sse then scan_sse fuel m (Z.eqb (u8 c)) s else rawmemchr_pure fuel m s (u8 c).

(** The alternatives with words, which start at an address that is a multiple of 8. *)
Fixpoint strchr_x64 (fuel : nat) (m : memory) (p c : Z) : option Z :=
  match fuel with
  | O => None
  | S fuel =>
      w ← word m p;
      let x := zero_bytes (Z.lxor w (u64 (c * ONES))) in
      let y := zero_bytes w in
      if Z.lor x y =? 0 then strchr_x64 fuel m (p + 8) c
      else if x =? 0 then Some 0
      else
        let a := ctz x in
        if y =? 0 then Some (p + Z.shiftr a 3)
        else if a <=? ctz y then Some (p + Z.shiftr a 3)
        else Some 0
  end.

Fixpoint strchr_align (fuel : nat) (m : memory) (s c : Z) : option Z :=
  match fuel with
  | O => None
  | S fuel' =>
      if Z.land s 7 =? 0 then strchr_x64 fuel m s c
      else
        v ← m s;
        if v =? c then Some s
        else if v =? 0 then Some 0
        else strchr_align fuel' m (s + 1) c
  end.

Definition strchr_words (fuel : nat) (m : memory) (s c : Z) : option Z := strchr_align fuel m s (Z.land c 255).

Fixpoint strchrnul_x64 (fuel : nat) (m : memory) (p c : Z) : option Z :=
  match fuel with
  | O => None
  | S fuel =>
      w ← word m p;
      let x := zero_bytes (Z.lxor w (u64 (c * ONES))) in
      let y := zero_bytes w in
      if Z.lor x y =? 0 then strchrnul_x64 fuel m (p + 8) c
      else if x =? 0 then Some (p + Z.shiftr (ctz y) 3)
      else
        let a := ctz x in
        if y =? 0 then Some (p + Z.shiftr a 3)
        else if a <=? ctz y then Some (p + Z.shiftr a 3)
        else Some (p + Z.shiftr (ctz y) 3)
  end.

Fixpoint strchrnul_align (fuel : nat) (m : memory) (s c : Z) : option Z :=
  match fuel with
  | O => None
  | S fuel' =>
      if Z.land s 7 =? 0 then strchrnul_x64 fuel m s c
      else
        v ← m s;
        if v =? c then Some s
        else if v =? 0 then Some s
        else strchrnul_align fuel' m (s + 1) c
  end.

Definition strchrnul_words (fuel : nat) (m : memory) (s c : Z) : option Z := strchrnul_align fuel m s (Z.land c 255).

(** [strnlen] *)
Fixpoint strnlen_x64 (fuel : nat) (m : memory) (s n i : Z) : option Z :=
  match fuel with
  | O => None
  | S fuel =>
      if i + 8 <? n then
        w ← word m (s + i);
        let w := zero_bytes w in
        if w =? 0 then strnlen_x64 fuel m s n (i + 8) else Some (i + Z.shiftr (ctz w) 3)
      else Some i
  end.

Fixpoint strnlen_bytes (fuel : nat) (m : memory) (s n i : Z) : option Z :=
  match fuel with
  | O => None
  | S fuel => if i =? n then Some i else v ← m (s + i); if v =? 0 then Some i else strnlen_bytes fuel m s n (i + 1)
  end.

Fixpoint strnlen_align (fuel : nat) (m : memory) (s n i : Z) : option Z :=
  match fuel with
  | O => None
  | S fuel' =>
      if Z.land (s + i) 7 =? 0 then i ← strnlen_x64 fuel m s n i; strnlen_bytes fuel m s n i
      else if i =? n then Some i
      else v ← m (s + i); if v =? 0 then Some i else strnlen_align fuel' m s n (i + 1)
  end.

Definition strnlen (fuel : nat) (m : memory) (s n : Z) : option Z := strnlen_align fuel m s n 0.

(* ------------------------------------------------------------------ *)
(** ** Comparisons *)

(** [strcmp]; [tiny] is [IsTiny()]. *)
Fixpoint strcmp_bytes (fuel : nat) (m : memory) (a b i : Z) : option Z :=
  match fuel with
  | O => None
  | S fuel =>
      x ← m (a + i); y ← m (b + i);
      if (x =? y) && negb (y =? 0) then strcmp_bytes fuel m a b (i + 1) else Some (x - y)
  end.

Fixpoint strcmp_words (fuel : nat) (m : memory) (a b i : Z) : option Z :=
  match fuel with
  | O => None
  | S fuel =>
      v ← word m (a + i); w ← word m (b + i);
      let w := Z.lor (Z.lxor v w) (zero_bytes v) in
      if w =? 0 then strcmp_words fuel m a b (i + 8)
      else
        let i := i + Z.shiftr (ctz w) 3 in
        x ← m (a + i); y ← m (b + i);
        Some (x - y)
  end.

Fixpoint strcmp_align (fuel : nat) (m : memory) (a b i : Z) : option Z :=
  match fuel with
  | O => None
  | S fuel' =>
      if Z.land (a + i) 7 =? 0 then strcmp_words fuel m a b i
      else
        x ← m (a + i); y ← m (b + i);
        if negb (x =? y) || (y =? 0) then Some (x - y) else strcmp_align fuel' m a b (i + 1)
  end.

Definition strcmp (tiny : bool) (fuel : nat) (m : memory) (a b : Z) : option Z :=
  if a =? b then Some 0
  else
    x ← m a; y ← m b;
    if negb (x - y =? 0) then Some (x - y)
    else if negb tiny && (Z.land a 7 =? Z.land b 7) then strcmp_align fuel m a b 0
    else strcmp_bytes fuel m a b 0.

(** [strcasecmp]. Words that differ may be equal but for their case, so that the word that has the first
    difference is left for the loop on bytes, at that byte, until the next word. *)
Inductive place := Head | CheckEm | Words.

Fixpoint strcasecmp_loop (fuel : nat) (m : memory) (a b : Z) (at_ : place) (i : Z) : option Z :=
  match fuel with
  | O => None
  | S fuel =>
      match at_ with
      | Head => strcasecmp_loop fuel m a b (if Z.land (a + i) 7 =? 0 then Words else CheckEm) i
      | CheckEm =>
          x ← m (a + i); y ← m (b + i);
          let x := tab kToLower x in
          let y := tab kToLower y in
          if negb (x =? y) || (y =? 0) then Some (x - y) else strcasecmp_loop fuel m a b Head (i + 1)
      | Words =>
          v ← word m (a + i); w ← word m (b + i);
          let w := Z.lor (Z.lxor v w) (zero_bytes v) in
          if w =? 0 then strcasecmp_loop fuel m a b Words (i + 8)
          else strcasecmp_loop fuel m a b CheckEm (i + Z.shiftr (ctz w) 3)
      end
  end.

Fixpoint strcasecmp_bytes (fuel : nat) (m : memory) (a b i : Z) : option Z :=
  match fuel with
  | O => None
  | S fuel =>
      x ← m (a + i); y ← m (b + i);
      let x := tab kToLower x in
      let y := tab kToLower y in
      if (x =? y) && negb (y =? 0) then strcasecmp_bytes fuel m a b (i + 1) else Some (x - y)
  end.

Definition strcasecmp (fuel : nat) (m : memory) (a b : Z) : option Z :=
  if a =? b then Some 0
  else if Z.land a 7 =? Z.land b 7 then strcasecmp_loop fuel m a b Head 0
  else strcasecmp_bytes fuel m a b 0.


(* ------------------------------------------------------------------ *)
(** ** Strings *)

(** The string [l] is at [s], with its NUL. *)
Definition cstring (m : memory) (s : Z) (l : bytes) : Prop := Forall (fun b => b <> 0) l /\ load m s (S (length l)) = Some (l ++ [0]).

Lemma reaches_first {A} (m : Z -> option A) f s n l i : load m s n = Some l -> first f l = Some i -> reaches m f s (s + Z.of_nat i).
Proof.
  intros L [(x & E & F) H]%first_Some. split; [lia|]. split; [|exists x; split; [by eapply load_lookup|done]].
  intros a Ha. assert (exists y, l !! Z.to_nat (a - s) = Some y) as [y Ey].
  { apply lookup_lt_is_Some. apply lookup_lt_Some in E. lia. }
  exists y. split; [|eapply H; [|exact Ey]; lia]. replace a with (s + Z.of_nat (Z.to_nat (a - s))) by lia. by eapply load_lookup.
Qed.

Lemma cstring_first m s l f : cstring m s l -> f 0 = true -> exists i, first f (l ++ [0]) = Some i /\ (i <= length l)%nat.
Proof.
  intros [_ L] F. destruct (first f (l ++ [0])) as [i|] eqn:E.
  - exists i. split; [done|]. apply first_Some in E as [(x & E & _) _]. apply lookup_lt_Some in E. rewrite length_app in E. cbn in E. lia.
  - rewrite first_None in E. rewrite (E 0) in F; [done|]. apply elem_of_app. right. apply list_elem_of_here.
Qed.

Lemma first_nul l : Forall (fun b => b <> 0) l -> first (Z.eqb 0) (l ++ [0]) = Some (length l).
Proof. induction 1 as [|x l Hx _ IH]; [done|]. cbn [app first length]. rewrite (proj2 (Z.eqb_neq 0 x)) by lia. by rewrite IH. Qed.

Lemma strlen_ok fuel m s l : well_mapped m -> cstring m s l -> (length l < fuel)%nat -> strlen fuel m s = Some (Z.of_nat (length l)).
Proof.
  intros W [N L] F. unfold strlen. rewrite (scan_sse_exact _ _ _ _ (s + Z.of_nat (length l))); [cbn; f_equal; lia|done| |lia].
  eapply reaches_first; [exact L|by apply first_nul].
Qed.

(** *** Searching for a character *)

(** What strchr and strchrnul answer. *)
Definition strchr_spec (s c : Z) (l : bytes) : Z := match first (Z.eqb c) (l ++ [0]) with Some i => s + Z.of_nat i | None => 0 end.
Definition strchrnul_spec (s c : Z) (l : bytes) : Z :=
  match first (Z.eqb c) l with Some i => s + Z.of_nat i | None => s + Z.of_nat (length l) end.

Lemma first_stops c l : first (stops c) l = omin (first (Z.eqb 0) l) (first (Z.eqb c) l).
Proof.
  rewrite <- first_or. apply first_ext. intros x _. unfold stops. by rewrite (Z.eqb_sym x 0), (Z.eqb_sym x c).
Qed.

(** From where a search stops to its answer. *)
Definition answer (m : memory) (c e : Z) : option Z := v ← m e; Some (if v =? c then e else 0).

Section search.
Context (m : memory) (s c : Z) (l : bytes) (C : cstring m s l).

Lemma first_app_nul f : first f (l ++ [0]) = match first f l with Some i => Some i | None => if f 0 then Some (length l) else None end.
Proof.
  clear C. induction l as [|x k IH]; [done|]. cbn [app first length]. rewrite IH. destruct (f x); [done|]. by destruct (first f k), (f 0).
Qed.

Lemma stops_at : exists e, reaches m (stops c) s e /\ e - s <= Z.of_nat (length l) /\ answer m c e = Some (strchr_spec s c l) /\ e = strchrnul_spec s c l.
Proof using C.
  destruct (cstring_first m s l (stops c) C eq_refl) as (i & E & Hi). pose proof C as [N L]. exists (s + Z.of_nat i).
  split; [by eapply reaches_first|]. split; [lia|]. unfold answer, strchr_spec, strchrnul_spec.
  rewrite first_stops, first_nul in E by done. rewrite first_app_nul in *.
  apply (load_lookup _ _ _ _ i (default 0 ((l ++ [0]) !! i))) in L as Li;
    [|destruct ((l ++ [0]) !! i) eqn:X; [done|apply lookup_ge_None_1 in X; rewrite length_app in X; cbn in X; lia]]. rewrite Li. cbn [mbind option_bind].
  destruct (first (Z.eqb c) l) as [j|] eqn:F; cbn [omin] in E.
  - apply first_Some in F as [(x & X & Ex) _]. pose proof (lookup_lt_Some _ _ _ X) as Lx. apply (inj Some) in E. assert (i = j) as -> by lia.
    rewrite lookup_app_l, X by done. cbn. apply Z.eqb_eq in Ex. subst x. by rewrite Z.eqb_refl.
  - destruct (Z.eqb_spec c 0) as [->|Nc]; cbn [omin] in E; apply (inj Some) in E; assert (i = length l) as -> by lia;
      rewrite list_lookup_middle by done; cbn [default from_option id].
    + by rewrite Z.eqb_refl.
    + rewrite (proj2 (Z.eqb_neq 0 c)) by lia. done.
Qed.
End search.

Section variants.
Context (m : memory) (c : Z) (W : well_mapped m).

(** One byte of a search. *)
Lemma reaches_step f s e : reaches m f s e -> exists v, m s = Some v /\ is_byte v /\ (f v = true /\ s = e \/ f v = false /\ reaches m f (s + 1) e).
Proof using W.
  intros R. pose proof R as (Le & H & v & E & F). destruct (Z.eq_dec s e) as [->|].
  - exists v. split; [done|]. split; [by eapply mapped_byte|by left].
  - destruct (H s) as (w & X & G); [lia|]. exists w. split; [done|]. split; [by eapply mapped_byte|]. right. split; [done|].
    apply (reaches_next m f s); [done|lia].
Qed.

Lemma answer_stop s v : m s = Some v -> stops c v = true -> answer m c s = Some (if v =? c then s else 0).
Proof. intros E _. unfold answer. by rewrite E. Qed.

Lemma strchr_pure_ok fuel s e : reaches m (stops c) s e -> e - s < Z.of_nat fuel -> strchr_pure fuel m s c = answer m c e.
Proof using W.
  revert s. induction fuel as [|fuel IH]; intros s R F; [destruct R; lia|]. cbn [strchr_pure].
  destruct (reaches_step _ _ _ R) as (v & E & _ & [[St ->]|[St R']]); rewrite E; cbn [mbind option_bind].
  - rewrite (answer_stop _ _ E St). unfold stops in St. destruct (v =? c); [done|]. destruct (v =? 0); [done|]. done.
  - unfold stops in St. apply orb_false_iff in St as [-> ->]. apply IH; [done|lia].
Qed.

Lemma strchr_sse_ok fuel s e : reaches m (stops c) s e -> e - s < Z.of_nat fuel -> strchr_sse fuel m s c = answer m c e.
Proof using W.
  intros R F. unfold strchr_sse. rewrite (scan_sse_exact _ _ _ _ e W R) by lia. unfold answer. cbn [mbind option_bind].
  destruct R as (_ & _ & v & E & St). rewrite E. cbn [mbind option_bind]. f_equal. unfold stops in St.
  destruct (Z.eqb_spec v 0) as [->|N]; cbn [orb] in St; [rewrite (Z.eqb_sym 0 c); by destruct (c =? 0)|]. rewrite St. by destruct (c =? 0).
Qed.

Lemma strchrnul_pure_ok fuel s e : reaches m (stops c) s e -> e - s < Z.of_nat fuel -> strchrnul_pure fuel m s c = Some e.
Proof using W.
  revert s. induction fuel as [|fuel IH]; intros s R F; [destruct R; lia|]. cbn [strchrnul_pure].
  destruct (reaches_step _ _ _ R) as (v & E & _ & [[St ->]|[St R']]); rewrite E; cbn [mbind option_bind]; unfold stops in St.
  - destruct (v =? c); [done|]. destruct (v =? 0); done.
  - apply orb_false_iff in St as [-> ->]. apply IH; [done|lia].
Qed.

Lemma rawmemchr_pure_ok fuel s e : reaches m (Z.eqb c) s e -> e - s < Z.of_nat fuel -> rawmemchr_pure fuel m s c = Some e.
Proof using W.
  revert s. induction fuel as [|fuel IH]; intros s R F; [destruct R; lia|]. cbn [rawmemchr_pure].
  destruct (reaches_step _ _ _ R) as (v & E & _ & [[St ->]|[St R']]); rewrite E; cbn [mbind option_bind]; rewrite Z.eqb_sym, St; [done|].
  apply IH; [done|lia].
Qed.

(** The bytes of a word that are [c]. *)
Lemma char_marks l : is_byte c -> Bytes l -> length l = 8%nat -> marks (zero_bytes (Z.lxor (pack l) (u64 (c * ONES)))) 3 (first (Z.eqb c) l).
Proof.
  intros Hc B L. assert (u64 (c * ONES) = pack (replicate 8 c)) as ->.
  { unfold is_byte in Hc. rewrite u64_id by (unfold ONES; lia). unfold ONES. cbn [replicate pack]. lia. }
  rewrite (pack_op Z.lxor xorb Z.lxor_spec lxor_byte eq_refl); [|done|by apply Forall_replicate|by rewrite length_replicate].
  rewrite (first_ext _ (fun x => Z.eqb 0 (Z.lxor x c))).
  - rewrite <- first_fmap. replace (zip_with Z.lxor l (replicate 8 c)) with ((fun x => Z.lxor x c) <$> l)
      by (rewrite zip_with_replicate_r_eq by done; done).
    apply zero_bytes_marks; [|by rewrite length_fmap]. apply Forall_fmap. eapply Forall_impl; [exact B|]. intros x Hx. by apply lxor_byte.
  - intros x _. apply eq_true_iff_eq. rewrite !Z.eqb_eq. split; [intros <-; by rewrite Z.lxor_nilpotent|]. intros E. symmetry. by apply Z.lxor_eq.
Qed.

Lemma word_aligned p : is_Some (m p) -> (8 | p) -> exists l, load m p 8 = Some l /\ word m p = Some (pack l) /\ Bytes l /\ length l = 8%nat.
Proof using W.
  intros Mp D. destruct (load_aligned m 8 p p) as [l El]; try done; [by exists 512|lia|lia|]. exists l. split; [done|].
  split; [unfold word; by rewrite El|]. split; [by eapply load_Bytes|]. by apply load_Some in El as [? _].
Qed.
End variants.

Section words.
Context (m : memory) (c : Z) (W : well_mapped m) (Hc : is_byte c).

(** What the masks of a word say of where the search stops in it. *)
Lemma word_answer p e l i :
  load m p 8 = Some l -> first (stops c) l = Some i -> e = p + Z.of_nat i ->
  let x := zero_bytes (Z.lxor (pack l) (u64 (c * ONES))) in
  let y := zero_bytes (pack l) in
  Z.lor x y <> 0 /\
  (if x =? 0 then Some 0
   else if y =? 0 then Some (p + Z.shiftr (ctz x) 3)
   else if ctz x <=? ctz y then Some (p + Z.shiftr (ctz x) 3) else Some 0) = answer m c e.
Proof using W Hc.
  intros L S ->. pose proof (load_Bytes _ _ _ _ W L) as B. pose proof L as [Ll _]%load_Some.
  pose proof (char_marks c l Hc B Ll) as X. pose proof (zero_bytes_marks l B Ll) as Y. rewrite first_stops in S.
  set (x := zero_bytes (Z.lxor (pack l) (u64 (c * ONES)))) in *. set (y := zero_bytes (pack l)) in *. cbn zeta.
  assert (forall j v f, first f l = Some j -> (forall b, f b = true -> b = v) -> answer m c (p + Z.of_nat j) = Some (if v =? c then p + Z.of_nat j else 0)) as A.
  { intros j v f [(b & Eb & Fb) _]%first_Some Hv. apply Hv in Fb. subst b. unfold answer. by rewrite (load_lookup _ _ _ _ _ _ L Eb). }
  assert (forall v b, Z.eqb v b = true -> b = v) as Q by (intros v b H%Z.eqb_eq; done).
  destruct (first (Z.eqb 0) l) as [j|] eqn:F0, (first (Z.eqb c) l) as [k|] eqn:Fc; cbn [omin marks] in *; try done; apply (inj Some) in S; subst i.
  - destruct X as [Nx Ex], Y as [Ny Ey]. split; [intros [? _]%Z.lor_eq_0_iff; done|]. rewrite (proj2 (Z.eqb_neq _ _) Nx), (proj2 (Z.eqb_neq _ _) Ny), Ex.
    rewrite Z.shiftr_div_pow2 in Ex, Ey by lia. destruct (Z.leb_spec (ctz x) (ctz y)) as [H|H].
    + apply (Z.div_le_mono _ _ (2 ^ 3)) in H; [|lia]. rewrite Nat.min_r by lia. by rewrite (A k c _ Fc (Q c)), Z.eqb_refl.
    + assert (ctz y <= ctz x) as H' by lia. apply (Z.div_le_mono _ _ (2 ^ 3)) in H'; [|lia]. rewrite Nat.min_l by lia. rewrite (A j 0 _ F0 (Q 0)).
      destruct (Z.eqb_spec 0 c) as [<-|]; [|done]. exfalso. revert H. unfold x, y. rewrite u64_id, Z.mul_0_l, Z.lxor_0_r by lia. lia.
  - destruct Y as [Ny Ey]. split; [intros [_ ?]%Z.lor_eq_0_iff; done|]. rewrite (proj2 (Z.eqb_eq _ _) X). rewrite (A j 0 _ F0 (Q 0)).
    destruct (Z.eqb_spec 0 c) as [<-|]; [|done]. congruence.
  - destruct X as [Nx Ex]. split; [intros [? _]%Z.lor_eq_0_iff; done|]. rewrite (proj2 (Z.eqb_neq _ _) Nx), (proj2 (Z.eqb_eq _ _) Y), Ex.
    by rewrite (A k c _ Fc (Q c)), Z.eqb_refl.
Qed.

Lemma strchr_x64_ok fuel p e : reaches m (stops c) p e -> (8 | p) -> e - p < 8 * Z.of_nat fuel -> strchr_x64 fuel m p c = answer m c e.
Proof using W Hc.
  revert p. induction fuel as [|fuel IH]; intros p R D F; [destruct R; lia|]. cbn [strchr_x64].
  destruct (word_aligned m W p (reaches_start _ _ _ _ R) D) as (l & L & -> & B & Ll). cbn [mbind option_bind].
  pose proof (block_first_0 _ _ _ _ _ _ L R ltac:(lia)) as S. change (Z.of_nat 8) with 8 in S.
  revert S. destruct (Z.ltb_spec e (p + 8)) as [X|X]; intros S.
  - destruct (word_answer p e l _ L S) as [N A]; [destruct R; lia|]. rewrite (proj2 (Z.eqb_neq _ _) N). exact A.
  - rewrite first_stops in S. pose proof (char_marks c l Hc B Ll) as Mx. pose proof (zero_bytes_marks l B Ll) as My.
    destruct (first (Z.eqb 0) l), (first (Z.eqb c) l); cbn [omin] in S; try discriminate S. cbn [marks] in Mx, My. cbv zeta. rewrite Mx, My. cbn [Z.lor Z.eqb].
    apply IH; [apply (reaches_next m _ p); [done|lia]|by apply Z.divide_add_r; [|apply Z.divide_refl]|lia].
Qed.

Lemma aligned_8 s : Z.land s 7 = 0 -> (8 | s).
Proof. intros E. apply Z.mod_divide; [lia|]. rewrite <- E. symmetry. apply (land_mask s 3). lia. Qed.

Lemma strchr_align_ok fuel s e : reaches m (stops c) s e -> e - s < Z.of_nat fuel -> strchr_align fuel m s c = answer m c e.
Proof using W Hc.
  revert s. induction fuel as [|fuel IH]; intros s R F; [destruct R; lia|]. cbn [strchr_align].
  destruct (Z.eqb_spec (Z.land s 7) 0) as [A|_]; [apply strchr_x64_ok; [done|by apply aligned_8|lia]|].
  destruct (reaches_step m W _ _ _ R) as (v & E & _ & [[St ->]|[St R']]); rewrite E; cbn [mbind option_bind].
  - rewrite (answer_stop _ _ _ _ E St). unfold stops in St. destruct (v =? c); [done|]. destruct (v =? 0); [done|]. done.
  - unfold stops in St. apply orb_false_iff in St as [-> ->]. apply IH; [done|lia].
Qed.

(** The masks of a word say where the search stops in it. *)
Lemma word_stop p l i :
  load m p 8 = Some l -> first (stops c) l = Some i ->
  let x := zero_bytes (Z.lxor (pack l) (u64 (c * ONES))) in
  let y := zero_bytes (pack l) in
  Z.lor x y <> 0 /\
  (if x =? 0 then p + Z.shiftr (ctz y) 3
   else if y =? 0 then p + Z.shiftr (ctz x) 3
   else if ctz x <=? ctz y then p + Z.shiftr (ctz x) 3 else p + Z.shiftr (ctz y) 3) = p + Z.of_nat i.
Proof using W Hc.
  intros L S. pose proof (load_Bytes _ _ _ _ W L) as B. pose proof L as [Ll _]%load_Some.
  pose proof (char_marks c l Hc B Ll) as X. pose proof (zero_bytes_marks l B Ll) as Y. rewrite first_stops in S.
  set (x := zero_bytes (Z.lxor (pack l) (u64 (c * ONES)))) in *. set (y := zero_bytes (pack l)) in *. cbn zeta.
  destruct (first (Z.eqb 0) l) as [j|], (first (Z.eqb c) l) as [k|]; cbn [omin marks] in *; try done; apply (inj Some) in S; subst i.
  - destruct X as [Nx Ex], Y as [Ny Ey]. split; [intros [? _]%Z.lor_eq_0_iff; done|]. rewrite (proj2 (Z.eqb_neq _ _) Nx), (proj2 (Z.eqb_neq _ _) Ny), Ex, Ey.
    rewrite Z.shiftr_div_pow2 in Ex, Ey by lia. destruct (Z.leb_spec (ctz x) (ctz y)) as [H|H].
    + apply (Z.div_le_mono _ _ (2 ^ 3)) in H; lia.
    + assert (ctz y <= ctz x) as H' by lia. apply (Z.div_le_mono _ _ (2 ^ 3)) in H'; lia.
  - destruct Y as [Ny Ey]. split; [intros [_ ?]%Z.lor_eq_0_iff; done|]. by rewrite (proj2 (Z.eqb_eq _ _) X), Ey.
  - destruct X as [Nx Ex]. split; [intros [? _]%Z.lor_eq_0_iff; done|]. by rewrite (proj2 (Z.eqb_neq _ _) Nx), (proj2 (Z.eqb_eq _ _) Y), Ex.
Qed.

Lemma strchrnul_x64_ok fuel p e : reaches m (stops c) p e -> (8 | p) -> e - p < 8 * Z.of_nat fuel -> strchrnul_x64 fuel m p c = Some e.
Proof using W Hc.
  revert p. induction fuel as [|fuel IH]; intros p R D F; [destruct R; lia|]. cbn [strchrnul_x64].
  destruct (word_aligned m W p (reaches_start _ _ _ _ R) D) as (l & L & -> & B & Ll). cbn [mbind option_bind].
  pose proof (block_first_0 _ _ _ _ _ _ L R ltac:(lia)) as S. change (Z.of_nat 8) with 8 in S.
  revert S. destruct (Z.ltb_spec e (p + 8)) as [X|X]; intros S.
  - destruct (word_stop p l _ L S) as [N A]. rewrite (proj2 (Z.eqb_neq _ _) N). rewrite Z2Nat.id in A by (destruct R; lia).
    replace (p + (e - p)) with e in A by lia. cbv zeta. rewrite <- A. by repeat case_match.
  - rewrite first_stops in S. pose proof (char_marks c l Hc B Ll) as Mx. pose proof (zero_bytes_marks l B Ll) as My.
    destruct (first (Z.eqb 0) l), (first (Z.eqb c) l); cbn [omin] in S; try discriminate S. cbn [marks] in Mx, My. cbv zeta. rewrite Mx, My. cbn [Z.lor Z.eqb].
    apply IH; [apply (reaches_next m _ p); [done|lia]|by apply Z.divide_add_r; [|apply Z.divide_refl]|lia].
Qed.

Lemma strchrnul_align_ok fuel s e : reaches m (stops c) s e -> e - s < Z.of_nat fuel -> strchrnul_align fuel m s c = Some e.
Proof using W Hc.
  revert s. induction fuel as [|fuel IH]; intros s R F; [destruct R; lia|]. cbn [strchrnul_align].
  destruct (Z.eqb_spec (Z.land s 7) 0) as [A|_]; [apply strchrnul_x64_ok; [done|by apply aligned_8|lia]|].
  destruct (reaches_step m W _ _ _ R) as (v & E & _ & [[St ->]|[St R']]); rewrite E; cbn [mbind option_bind]; unfold stops in St.
  - destruct (v =? c); [done|]. by destruct (v =? 0).
  - apply orb_false_iff in St as [-> ->]. apply IH; [done|lia].
Qed.
End words.

Lemma strchr_ok sse fuel m s c l : well_mapped m -> cstring m s l -> (length l < fuel)%nat -> strchr sse fuel m s c = Some (strchr_spec s (u8 c) l).
Proof.
  intros W C F. destruct (stops_at m s (u8 c) l C) as (e & R & Le & A & E). destruct sse; cbn [strchr]; rewrite <- A; [apply strchr_sse_ok|apply strchr_pure_ok]; (done || lia).
Qed.

Lemma strchrnul_ok sse fuel m s c l : well_mapped m -> cstring m s l -> (length l < fuel)%nat -> strchrnul sse fuel m s c = Some (strchrnul_spec s (u8 c) l).
Proof.
  intros W C F. destruct (stops_at m s (u8 c) l C) as (e & R & Le & A & E). destruct sse; cbn [strchrnul]; [apply scan_sse_exact|rewrite <- E; apply strchrnul_pure_ok]; rewrite <- ?E; (done || lia).
Qed.

(** C22: Searches that read whole vectors or words are searches of strings. For every string in memory, wherever
    it starts, the length that strlen finds by vectors is right, and strchr and strchrnul, by vectors, by
    bytes and by words, answer with the address of the first byte that is the one asked for, or with
    the null pointer or the address of the NUL if there is none. None of them reads a page that the
    string is not in, although those by vectors and words read past its ends. *)
Theorem string_search_exact (m : memory) (s c : Z) (l : bytes) (fuel : nat) :
  well_mapped m -> cstring m s l -> (length l < fuel)%nat ->
  strlen fuel m s = Some (Z.of_nat (length l)) /\
  (forall sse, strchr sse fuel m s c = Some (strchr_spec s (u8 c) l)) /\
  strchr_words fuel m s c = Some (strchr_spec s (u8 c) l) /\
  (forall sse, strchrnul sse fuel m s c = Some (strchrnul_spec s (u8 c) l)) /\
  strchrnul_words fuel m s c = Some (strchrnul_spec s (u8 c) l).
Proof.
  intros W C F. destruct (stops_at m s (u8 c) l C) as (e & R & Le & A & E).
  split; [by apply strlen_ok|]. split; [intros sse; by apply strchr_ok|]. split; [|split; [intros sse; by apply strchrnul_ok|]].
  - unfold strchr_words. rewrite land_255. change (c mod 256) with (u8 c). rewrite <- A. apply strchr_align_ok; [done|apply u8_byte|done|lia].
  - unfold strchrnul_words. rewrite land_255. change (c mod 256) with (u8 c). rewrite <- E. apply strchrnul_align_ok; [done|apply u8_byte|done|lia].
Qed.

(** Memory for examples: some bytes from an address on, in pages of zeros. *)
Definition page_of (a : Z) (l : bytes) : memory := fun p =>
  if (0 <=? p) && (p <? 2 * PAGE) then Some (nth (Z.to_nat (p - a)) (if p <? a then [] else l) 0) else None.

Lemma page_of_mapped a l : Bytes l -> well_mapped (page_of a l).
Proof.
  intros B. split.
  - unfold page_of, PAGE. intros x y E. assert ((0 <=? x) && (x <? 2 * 4096) = (0 <=? y) && (y <? 2 * 4096)) as ->; [|by destruct (_ && _)].
    apply eq_true_iff_eq. rewrite !andb_true_iff, !Z.leb_le, !Z.ltb_lt. pose proof (Z.div_mod x 4096). pose proof (Z.div_mod y 4096).
    pose proof (Z.mod_pos_bound x 4096). pose proof (Z.mod_pos_bound y 4096). lia.
  - unfold page_of. intros x v. destruct (_ && _); [|done]. intros [= <-]. apply (Bytes_tab (if x <? a then [] else l) (x - a)). by destruct (x <? a).
Qed.

Lemma string_search_exact_witness :
  strchr true 40 (page_of 4090 (bstr "Host: localhost")) 4090 (# "l") = Some 4096.
Proof.
  destruct (string_search_exact (page_of 4090 (bstr "Host: localhost")) 4090 (# "l") (bstr "Host: localhost") 40) as (_ & S & _).
  - apply page_of_mapped. repeat constructor; unfold is_byte; lia.
  - split; [repeat constructor; discriminate|reflexivity].
  - cbn. lia.
  - apply (S true).
Defined.

(** The alternative of strlen for other compilers takes the byte 1 for a NUL where one is before the
    string: the borrow of the subtraction is shifted out too late. *)
Lemma strlen_words_defect :
  cstring (page_of 9 [1; 65; 66; 0]) 9 [1; 65; 66] /\ strlen_words 5 (page_of 9 [1; 65; 66; 0]) 9 = Some 0.
Proof. split; [split; [repeat constructor; discriminate|reflexivity]|reflexivity]. Qed.

(* ------------------------------------------------------------------ *)
(** ** Two strings *)

(** The bytes at the same offset from two addresses. *)
Definition pairs (m : memory) (a b : Z) : Z -> option (Z * Z) := fun i => x ← m (a + i); y ← m (b + i); Some (x, y).

Lemma pairs_Some m a b i x y : pairs m a b i = Some (x, y) <-> m (a + i) = Some x /\ m (b + i) = Some y.
Proof. unfold pairs. destruct (m (a + i)), (m (b + i)); cbn; naive_solver. Qed.

Lemma load_pairs m a b i n k l r : load m (a + i) n = Some l -> load m (b + i) k = Some r -> load (pairs m a b) i (n `min` k) = Some (zip l r).
Proof.
  intros [Ll Hl]%load_Some [Lr Hr]%load_Some. apply load_Some. split; [rewrite length_zip_with; lia|]. intros j Hj.
  destruct (lookup_lt_is_Some_2 l j ltac:(lia)) as [x X], (lookup_lt_is_Some_2 r j ltac:(lia)) as [y Y].
  rewrite (proj2 (lookup_zip_Some l r j x y)) by done. apply pairs_Some. split; rewrite Z.add_assoc; [rewrite Hl by lia; done|rewrite Hr by lia; done].
Qed.

Definition unequal (e : Z * Z) : bool := negb (e.1 =? e.2).

(** Where strings differ or end. *)
Definition parts (e : Z * Z) : bool := unequal e || (e.1 =? 0).

Lemma parts_second x y : parts (x, y) = negb (x =? y) || (y =? 0).
Proof. unfold parts, unequal. cbn [fst snd]. by destruct (Z.eqb_spec x y) as [->|]. Qed.

(** The difference of the bytes where strings differ. *)
Fixpoint strcmp_spec (l r : bytes) : Z :=
  match l, r with
  | x :: l, y :: r => if x =? y then strcmp_spec l r else x - y
  | x :: _, [] => x
  | [], y :: _ => - y
  | [], [] => 0
  end.

Lemma first_zip_fst {B} (f : Z -> bool) l (r : list B) : length l = length r -> first (fun e => f e.1) (zip l r) = first f l.
Proof. revert r. induction l as [|x l IH]; intros [|y r] L; try done. cbn in *. rewrite IH by lia. done. Qed.

(** The mask of two words. *)
Lemma parts_marks l r :
  Bytes l -> Bytes r -> length l = 8%nat -> length r = 8%nat -> marks (Z.lor (Z.lxor (pack l) (pack r)) (zero_bytes (pack l))) 3 (first parts (zip l r)).
Proof.
  intros Bl Br Ll Lr. rewrite (first_ext parts (fun e => unequal e || (0 =? e.1))) by (intros e _; unfold parts; by rewrite (Z.eqb_sym e.1)).
  rewrite first_or, (first_zip_fst (Z.eqb 0)) by lia. apply lor_marks; [| |lia|apply lxor_marks; (done || lia)|by apply zero_bytes_marks].
  - apply Z.lxor_nonneg. split; intros _; by apply pack_range.
  - rewrite zero_bytes_lanes. apply zero_lanes_nonneg.
Qed.

Lemma land_7 x : Z.land x 7 = x mod 8.
Proof. apply (land_mask x 3). lia. Qed.

Lemma next_word x : Z.land (x + 8) 7 = Z.land x 7.
Proof. rewrite !land_7. by rewrite <- (Z.mod_add x 1 8). Qed.

(** Both words are within pages that the strings are in. *)
Lemma words_aligned m a b i :
  well_mapped m -> Z.land a 7 = Z.land b 7 -> Z.land (a + i) 7 = 0 -> is_Some (pairs m a b i) ->
  exists l r, word m (a + i) = Some (pack l) /\ word m (b + i) = Some (pack r) /\ load (pairs m a b) i 8 = Some (zip l r) /\
  marks (Z.lor (Z.lxor (pack l) (pack r)) (zero_bytes (pack l))) 3 (first parts (zip l r)).
Proof.
  intros W E A [[x y] [X Y]%pairs_Some]. assert (8 | b - a) as D.
  { apply Z.mod_divide; [lia|]. rewrite !land_7 in E. rewrite Zminus_mod, E, Z.sub_diag. done. }
  destruct (word_aligned m W (a + i)) as (l & L & Wl & Bl & Ll); [by exists x|by apply aligned_8|].
  destruct (word_aligned m W (b + i)) as (r & R & Wr & Br & Lr); [by exists y| |].
  { replace (b + i) with (a + i + (b - a)) by lia. apply Z.divide_add_r; [by apply aligned_8|done]. }
  exists l, r. split; [done|]. split; [done|]. split; [by apply (load_pairs m a b i 8 8)|]. by apply parts_marks.
Qed.

Lemma reaches_pair m a b f i e :
  reaches (pairs m a b) f i e -> exists x y, m (a + i) = Some x /\ m (b + i) = Some y /\ (f (x, y) = true /\ i = e \/ f (x, y) = false /\ reaches (pairs m a b) f (i + 1) e).
Proof.
  intros R. pose proof R as (Le & H & [x y] & [X Y]%pairs_Some & F). destruct (Z.eq_dec i e) as [->|].
  - exists x, y. split; [done|]. split; [done|by left].
  - destruct (H i) as ([x' y'] & [X' Y']%pairs_Some & G); [lia|]. exists x', y'. split; [done|]. split; [done|]. right. split; [done|].
    apply (reaches_next _ _ i); [done|lia].
Qed.

Section comparing.
Context (m : memory) (a b e x y : Z) (W : well_mapped m).
Context (X : m (a + e) = Some x) (Y : m (b + e) = Some y).

Lemma strcmp_bytes_ok fuel i : reaches (pairs m a b) parts i e -> e - i < Z.of_nat fuel -> strcmp_bytes fuel m a b i = Some (x - y).
Proof using X Y.
  revert i. induction fuel as [|fuel IH]; intros i R F; [destruct R; lia|]. cbn [strcmp_bytes].
  destruct (reaches_pair _ _ _ _ _ _ R) as (u & v & U & V & [[P ->]|[P R']]); rewrite U, V; cbn [mbind option_bind]; rewrite parts_second in P.
  - rewrite X in U. rewrite Y in V. injection U as <-. injection V as <-. rewrite <- negb_false_iff, negb_orb, negb_involutive in P. by rewrite P.
  - apply orb_false_iff in P as [->%negb_false_iff%Z.eqb_eq P]. rewrite Z.eqb_refl, P. cbn [andb negb]. apply IH; [done|lia].
Qed.

Lemma strcmp_words_ok fuel i :
  Z.land a 7 = Z.land b 7 -> Z.land (a + i) 7 = 0 -> reaches (pairs m a b) parts i e -> e - i < 8 * Z.of_nat fuel -> strcmp_words fuel m a b i = Some (x - y).
Proof using W X Y.
  intros E. revert i. induction fuel as [|fuel IH]; intros i A R F; [destruct R; lia|]. cbn [strcmp_words].
  destruct (words_aligned m a b i W E A (reaches_start _ _ _ _ R)) as (l & r & -> & -> & L & M). cbn [mbind option_bind].
  pose proof (block_first_0 _ _ _ _ _ _ L R ltac:(lia)) as S. change (Z.of_nat 8) with 8 in S. revert S. destruct (Z.ltb_spec e (i + 8)) as [H|H]; intros S; rewrite S in M; cbn [marks] in M.
  - destruct M as [N C]. rewrite (proj2 (Z.eqb_neq _ _) N), C. destruct R. replace (i + Z.of_nat (Z.to_nat (e - i))) with e by lia. by rewrite X, Y.
  - rewrite M. cbn [Z.eqb]. apply IH; [|apply (reaches_next _ _ i); [done|lia]|lia].
    by rewrite Z.add_assoc, next_word.
Qed.

Lemma strcmp_align_ok fuel i :
  Z.land a 7 = Z.land b 7 -> reaches (pairs m a b) parts i e -> e - i < Z.of_nat fuel -> strcmp_align fuel m a b i = Some (x - y).
Proof using W X Y.
  intros E. revert i. induction fuel as [|fuel IH]; intros i R F; [destruct R; lia|]. cbn [strcmp_align].
  destruct (Z.eqb_spec (Z.land (a + i) 7) 0) as [A|_]; [apply strcmp_words_ok; (done || lia)|].
  destruct (reaches_pair _ _ _ _ _ _ R) as (u & v & U & V & [[P ->]|[P R']]); rewrite U, V; cbn [mbind option_bind]; rewrite parts_second in P.
  - rewrite X in U. rewrite Y in V. injection U as <-. injection V as <-. by rewrite P.
  - apply orb_false_iff in P as [->%negb_false_iff%Z.eqb_eq P]. rewrite Z.eqb_refl, P. cbn [orb negb]. apply IH; [done|lia].
Qed.
End comparing.

(** Where strings differ or end, seen through a function on characters. *)
Definition parts_by (t : Z -> Z) (e : Z * Z) : bool := negb (t e.1 =? t e.2) || (t e.2 =? 0).

Section parting.
Context (t : Z -> Z) (t_nul : forall b, is_byte b -> (t b = 0 <-> b = 0)).

Lemma first_parts l r :
  Forall (fun b => b <> 0) l -> Forall (fun b => b <> 0) r -> Bytes l -> Bytes r ->
  exists i x y, first (parts_by t) (zip (l ++ [0]) (r ++ [0])) = Some i /\ zip (l ++ [0]) (r ++ [0]) !! i = Some (x, y) /\ t x - t y = strcmp_spec (t <$> l) (t <$> r) /\
  (i <= length l `min` length r)%nat.
Proof using t_nul.
  assert (t 0 = 0) as T0 by (apply t_nul; unfold is_byte; lia). intros Nl. revert r. induction Nl as [|x l Hx Nl IH]; intros r Nr Bl Br.
  - destruct r as [|y r]; exists 0%nat; cbn [app zip zip_with first lookup list_lookup fmap list_fmap length]; unfold parts_by; cbn [fst snd].
    + exists 0, 0. rewrite T0. done.
    + exists 0, y. apply Forall_cons in Nr as [Hy _]. apply Forall_cons in Br as [By _]. rewrite T0.
      assert (t y <> 0) as Ty by (by rewrite t_nul). rewrite (proj2 (Z.eqb_neq 0 (t y))) by lia. cbn. done.
  - apply Forall_cons in Bl as [Bx Bl]. assert (t x <> 0) as Tx by (by rewrite t_nul). destruct r as [|y r].
    + exists 0%nat, x, 0. cbn [app zip zip_with first lookup list_lookup fmap list_fmap length]. unfold parts_by; cbn [fst snd]. rewrite T0.
      rewrite (proj2 (Z.eqb_neq (t x) 0)) by lia. cbn [negb orb strcmp_spec]. split; [done|]. split; [done|]. split; [lia|lia].
    + apply Forall_cons in Nr as [Hy Nr]. apply Forall_cons in Br as [By Br]. assert (t y <> 0) as Ty by (by rewrite t_nul).
      cbn [app zip zip_with first fmap list_fmap strcmp_spec length]. unfold parts_by at 1. cbn [fst snd]. rewrite (proj2 (Z.eqb_neq (t y) 0)) by lia.
      destruct (Z.eqb_spec (t x) (t y)) as [E|E]; cbn [negb orb].
      * destruct (IH r Nr Bl Br) as (i & u & v & F & L & D & Hi). exists (S i), u, v. rewrite F. split; [done|]. split; [done|]. split; [done|]. cbn [length]. lia.
      * exists 0%nat, x, y. split; [done|]. split; [done|]. split; [done|]. lia.
Qed.

Lemma strings_part m a b l r :
  well_mapped m -> cstring m a l -> cstring m b r ->
  exists i x y, reaches (pairs m a b) (parts_by t) 0 (Z.of_nat i) /\ m (a + Z.of_nat i) = Some x /\ m (b + Z.of_nat i) = Some y /\
  t x - t y = strcmp_spec (t <$> l) (t <$> r) /\ (i <= length l)%nat.
Proof using t_nul.
  intros W [Nl Ll] [Nr Lr]. pose proof (load_Bytes _ _ _ _ W Ll) as [Bl _]%Forall_app. pose proof (load_Bytes _ _ _ _ W Lr) as [Br _]%Forall_app.
  destruct (first_parts l r Nl Nr Bl Br) as (i & x & y & F & L & D & Hi). exists i, x, y.
  rewrite <- (Z.add_0_r a) in Ll. rewrite <- (Z.add_0_r b) in Lr. pose proof (load_pairs _ _ _ _ _ _ _ _ Ll Lr) as Lp.
  split; [apply (reaches_first _ _ _ _ _ _ Lp F)|]. apply (load_lookup _ _ _ _ _ _ Lp) in L. rewrite Z.add_0_l in L. apply pairs_Some in L as [X Y].
  split; [done|]. split; [done|]. split; [done|lia].
Qed.
End parting.

Lemma parts_by_id e : parts_by id e = parts e.
Proof. destruct e as [x y]. by rewrite parts_second. Qed.

Lemma reaches_ext {A} (m : Z -> option A) f g s e : (forall x, f x = g x) -> reaches m f s e -> reaches m g s e.
Proof. intros H (L & B & v & E & F). split; [done|]. split; [|exists v; by rewrite <- H]. intros x Hx. destruct (B x Hx) as (w & ? & ?). exists w. by rewrite <- H. Qed.

(** There is one string at an address. *)
Lemma cstring_fun m s l r : cstring m s l -> cstring m s r -> l = r.
Proof.
  intros [Nl Ll] [Nr Lr]. pose proof (reaches_first _ _ _ _ _ _ Ll (first_nul l Nl)) as (_ & Bl & x & Ex & Fx).
  pose proof (reaches_first _ _ _ _ _ _ Lr (first_nul r Nr)) as (_ & Br & y & Ey & Fy). assert (length l = length r) as E.
  { destruct (Nat.lt_trichotomy (length l) (length r)) as [H|[H|H]]; [|done|].
    - destruct (Br (s + Z.of_nat (length l))) as (v & E & F); [lia|]. congruence.
    - destruct (Bl (s + Z.of_nat (length r))) as (v & E & F); [lia|]. congruence. }
  rewrite E in Ll. rewrite Ll in Lr. injection Lr as Lr. by apply app_inv_tail in Lr.
Qed.

Lemma strcmp_spec_refl l : strcmp_spec l l = 0.
Proof. induction l as [|x l IH]; [done|]. cbn. by rewrite Z.eqb_refl. Qed.

(** *** Without case *)

Definition lower_byte : Z -> Z := tab kToLower.

Lemma lower_nul b : is_byte b -> (lower_byte b = 0 <-> b = 0).
Proof.
  intros Hb. unfold lower_byte. rewrite kToLower_spec by done. unfold is_byte, isupper in *. destruct (_ && _) eqn:E; [|done]. lia.
Qed.

(** How many steps are left at each place. *)
Definition steps_left (at_ : place) (d : Z) : Z := 3 * d + match at_ with Head => 3 | Words => 2 | CheckEm => 1 end.

Section caseless.
Context (m : memory) (a b e x y : Z) (W : well_mapped m).
Context (X : m (a + e) = Some x) (Y : m (b + e) = Some y) (E : Z.land a 7 = Z.land b 7).
Abbreviation part := (parts_by lower_byte).

(** Bytes that are the same and not NUL are the same without case. *)
Lemma part_parts u v : is_byte u -> is_byte v -> parts (u, v) = false -> part (u, v) = false.
Proof.
  intros Hu Hv. rewrite parts_second. unfold parts_by. cbn [fst snd]. rewrite orb_false_iff, negb_false_iff, Z.eqb_eq. intros [-> N].
  rewrite Z.eqb_refl. cbn [negb orb]. apply Z.eqb_neq. rewrite lower_nul by done. by apply Z.eqb_neq.
Qed.

(** A word whose first [j] bytes do not part the strings is before the end by as much. *)
Lemma word_progress i l (j : nat) :
  load (pairs m a b) i 8 = Some l -> reaches (pairs m a b) part i e -> (j <= 8)%nat ->
  (forall k u, (k < j)%nat -> l !! k = Some u -> parts u = false) -> i + Z.of_nat j <= e.
Proof using W.
  intros L (Le & H & [u v] & P & F) Hj N. destruct (Z.le_gt_cases (i + Z.of_nat j) e) as [|G]; [done|]. exfalso.
  pose proof L as [Ll Hl]%load_Some. destruct (lookup_lt_is_Some_2 l (Z.to_nat (e - i)) ltac:(lia)) as [w Ew].
  pose proof (load_lookup _ _ _ _ _ _ L Ew) as Q. replace (i + Z.of_nat (Z.to_nat (e - i))) with e in Q by lia. rewrite P in Q. injection Q as <-.
  apply pairs_Some in P as [U V]. rewrite part_parts in F; [done|by eapply mapped_byte..|]. eapply N; [|exact Ew]. lia.
Qed.

Lemma strcasecmp_loop_ok fuel at_ i :
  reaches (pairs m a b) part i e -> (at_ = Words -> Z.land (a + i) 7 = 0) -> steps_left at_ (e - i) <= Z.of_nat fuel ->
  strcasecmp_loop fuel m a b at_ i = Some (lower_byte x - lower_byte y).
Proof using W X Y E.
  revert at_ i. induction fuel as [|fuel IH]; intros at_ i R A F; [destruct R; unfold steps_left in F; destruct at_; lia|]. cbn [strcasecmp_loop]. destruct at_; unfold steps_left in F.
  - destruct (Z.eqb_spec (Z.land (a + i) 7) 0) as [Al|]; apply IH; unfold steps_left; (done || lia).
  - destruct (reaches_pair _ _ _ _ _ _ R) as (u & v & U & V & [[P ->]|[P R']]); rewrite U, V; cbn [mbind option_bind]; unfold parts_by in P; cbn [fst snd] in P;
      unfold lower_byte in *; rewrite P.
    + rewrite X in U. rewrite Y in V. by injection U as <-; injection V as <-.
    + apply IH; [done|done|]. unfold steps_left. lia.
  - destruct (words_aligned m a b i W E (A eq_refl) (reaches_start _ _ _ _ R)) as (l & r & -> & -> & L & M). cbn [mbind option_bind].
    destruct (first parts (zip l r)) as [j|] eqn:S; cbn [marks] in M.
    + destruct M as [N C]. rewrite (proj2 (Z.eqb_neq _ _) N), C. pose proof S as [(w & Ew & _) B]%first_Some. apply lookup_lt_Some in Ew. pose proof L as [Ll _]%load_Some.
      pose proof (word_progress i _ j L R ltac:(lia) (fun k u => B k u)). apply IH; [apply (reaches_next _ _ i); [done|lia]|done|unfold steps_left; lia].
    + rewrite M. cbn [Z.eqb]. rewrite first_None in S. pose proof (word_progress i _ 8 L R ltac:(lia)) as Q.
      assert (i + 8 <= e) by (apply Q; intros k u _ Hu; apply S; by eapply list_elem_of_lookup_2).
      apply IH; [apply (reaches_next _ _ i); [done|lia]| |unfold steps_left; lia]. intros _. rewrite Z.add_assoc, next_word. by apply A.
Qed.
End caseless.

Lemma andb_negb_orb p q : p && negb q = negb (negb p || q).
Proof. by destruct p, q. Qed.

Lemma strcasecmp_bytes_ok m a b e x y fuel i :
  m (a + e) = Some x -> m (b + e) = Some y -> reaches (pairs m a b) (parts_by lower_byte) i e -> e - i < Z.of_nat fuel ->
  strcasecmp_bytes fuel m a b i = Some (lower_byte x - lower_byte y).
Proof.
  intros X Y. revert i. induction fuel as [|fuel IH]; intros i R F; [destruct R; lia|]. cbn [strcasecmp_bytes].
  destruct (reaches_pair _ _ _ _ _ _ R) as (u & v & U & V & [[P ->]|[P R']]); rewrite U, V; cbn [mbind option_bind]; unfold parts_by in P; cbn [fst snd] in P;
    unfold lower_byte in *; rewrite andb_negb_orb, P; cbn [negb].
  - rewrite X in U. rewrite Y in V. by injection U as <-; injection V as <-.
  - apply IH; [done|lia].
Qed.

(** C9: Comparisons by words are comparisons of strings. For any two strings in memory, however they are
    aligned, strcmp answers with the difference of the first bytes that differ, a NUL being less than any
    other, and strcasecmp with that of the bytes in lower case, although it has to look again at words
    that differ, and both read words past the ends of the strings: not on pages that they are not in. *)
Theorem string_compare_exact (m : memory) (a b : Z) (l r : bytes) (fuel : nat) :
  well_mapped m -> cstring m a l -> cstring m b r -> (3 * length l + 2 < fuel)%nat ->
  (forall tiny, strcmp tiny fuel m a b = Some (strcmp_spec l r)) /\
  strcasecmp fuel m a b = Some (strcmp_spec (lower_byte <$> l) (lower_byte <$> r)).
Proof.
  intros W Ca Cb F. destruct (Z.eq_dec a b) as [<-|Nab].
  { rewrite (cstring_fun _ _ _ _ Cb Ca). unfold strcmp, strcasecmp. rewrite Z.eqb_refl, !strcmp_spec_refl. done. }
  unfold strcmp, strcasecmp. rewrite (proj2 (Z.eqb_neq a b)) by done. split.
  - intros tiny. destruct (strings_part id (fun b _ => conj (fun e => e) (fun e => e)) m a b l r W Ca Cb) as (i & x & y & R & X & Y & D & Hi).
    rewrite !list_fmap_id in D. unfold id in D. apply (reaches_ext _ _ parts) in R; [|apply parts_by_id].
    destruct (reaches_pair _ _ _ _ _ _ R) as (u & v & U & V & P). rewrite Z.add_0_r in U, V. rewrite U, V. cbn [mbind option_bind].
    destruct (Z.eqb_spec (u - v) 0) as [Q|Q]; cbn [negb].
    + rewrite <- D. destruct (negb tiny && _) eqn:T.
      * apply andb_true_iff in T as [_ T%Z.eqb_eq]. apply (strcmp_align_ok m a b (Z.of_nat i)); (done || lia).
      * apply (strcmp_bytes_ok m a b (Z.of_nat i)); (done || lia).
    + rewrite <- D. destruct P as [[_ Hi0]|[P _]]; [|rewrite parts_second in P; apply orb_false_iff in P as [P%negb_false_iff%Z.eqb_eq _]; lia].
      rewrite <- Hi0, Z.add_0_r in X, Y. congruence.
  - destruct (strings_part lower_byte lower_nul m a b l r W Ca Cb) as (i & x & y & R & X & Y & D & Hi). rewrite <- D.
    destruct (Z.eqb_spec (Z.land a 7) (Z.land b 7)) as [A|A].
    + apply (strcasecmp_loop_ok m a b (Z.of_nat i)); try done. cbn [steps_left]. unfold steps_left. lia.
    + apply (strcasecmp_bytes_ok m a b (Z.of_nat i)); (done || lia).
Qed.

Lemma string_compare_exact_witness :
  strcasecmp 100 (page_of 4088 (bstr "Content-Length" ++ 0 :: 0 :: bstr "content-type")) 4088 4104 = Some (-8).
Proof.
  destruct (string_compare_exact (page_of 4088 (bstr "Content-Length" ++ 0 :: 0 :: bstr "content-type")) 4088 4104
    (bstr "Content-Length") (bstr "content-type") 100) as [_ C].
  - apply page_of_mapped. repeat constructor; unfold is_byte; lia.
  - split; [repeat constructor; discriminate|reflexivity].
  - split; [repeat constructor; discriminate|reflexivity].
  - cbn. lia.
  - exact C.
Defined.

(* ------------------------------------------------------------------ *)
(** ** Lengths with a limit *)

(** The [k] bytes at [s] are not NUL, and either there are [n] of them or a NUL is next. *)
Definition bounded (m : memory) (s n k : Z) : Prop :=
  0 <= k <= n /\ (forall i, 0 <= i < k -> exists v, m (s + i) = Some v /\ (v =? 0) = false) /\ (k < n -> m (s + k) = Some 0).

Section limited.
Context (m : memory) (s n k : Z) (W : well_mapped m) (B : bounded m s n k).

Lemma bounded_reaches i : 0 <= i <= k -> k < n -> reaches m (Z.eqb 0) (s + i) (s + k).
Proof using B.
  destruct B as (_ & H & E). intros Hi L. split; [lia|]. split; [|exists 0; by rewrite E by done]. intros a Ha.
  destruct (H (a - s)) as (v & Ev & F); [lia|]. replace (s + (a - s)) with a in Ev by lia. exists v. by rewrite Z.eqb_sym.
Qed.

Lemma bounded_byte i : 0 <= i <= k -> i <> n -> exists v, m (s + i) = Some v /\ (v = 0 <-> i = k).
Proof using B.
  destruct B as (Hk & H & E). intros Hi N. destruct (Z.eq_dec i k) as [->|].
  - exists 0. rewrite E by lia. done.
  - destruct (H i) as (v & Ev & F%Z.eqb_neq); [lia|]. exists v. split; [done|]. split; [done|lia].
Qed.

Lemma strnlen_bytes_ok fuel i : 0 <= i <= k -> k - i < Z.of_nat fuel -> strnlen_bytes fuel m s n i = Some k.
Proof using B.
  revert i. induction fuel as [|fuel IH]; intros i Hi F; [lia|]. cbn [strnlen_bytes]. destruct (Z.eqb_spec i n) as [->|N]; [destruct B; f_equal; lia|].
  destruct (bounded_byte i Hi N) as (v & -> & Z). cbn [mbind option_bind]. destruct (Z.eqb_spec v 0) as [V|V]; [apply Z in V as ->; done|].
  apply IH; [|lia]. assert (i <> k) by (intros ?; by apply V, Z). lia.
Qed.

Lemma strnlen_x64_ok fuel i : 0 <= i <= k -> Z.land (s + i) 7 = 0 -> k - i < 8 * Z.of_nat fuel -> exists j, strnlen_x64 fuel m s n i = Some j /\ i <= j <= k.
Proof using W B.
  revert i. induction fuel as [|fuel IH]; intros i Hi A F; [destruct B; lia|]. cbn [strnlen_x64].
  destruct (Z.ltb_spec (i + 8) n) as [L|L]; [|exists i; split; [done|lia]].
  destruct (bounded_byte i Hi ltac:(lia)) as (v & Ev & _). destruct (word_aligned m W (s + i)) as (l & El & -> & Bl & Ll); [by exists v|by apply aligned_8|].
  cbn [mbind option_bind]. pose proof (zero_bytes_marks l Bl Ll) as M. destruct (first (Z.eqb 0) l) as [j|] eqn:S; cbn [marks] in M.
  - destruct M as [N ->]. rewrite (proj2 (Z.eqb_neq _ _) N). exists (i + Z.of_nat j). split; [done|].
    destruct (Z.le_gt_cases (i + Z.of_nat j) k) as [|G]; [lia|]. exfalso. apply first_Some in S as [(x & Ex & _) H]. apply lookup_lt_Some in Ex.
    destruct (lookup_lt_is_Some_2 l (Z.to_nat (k - i)) ltac:(lia)) as [y Ey]. specialize (H (Z.to_nat (k - i)) y ltac:(lia) Ey).
    apply (load_lookup _ _ _ _ _ _ El) in Ey. replace (s + i + Z.of_nat (Z.to_nat (k - i))) with (s + k) in Ey by lia.
    destruct B as (_ & _ & E). rewrite E in Ey by lia. injection Ey as <-. done.
  - rewrite M. cbn [Z.eqb]. assert (i + 8 <= k).
    { destruct (Z.le_gt_cases (i + 8) k) as [|G]; [done|]. exfalso. pose proof (block_first_0 _ _ _ _ _ _ El (bounded_reaches i Hi ltac:(lia)) ltac:(lia)) as X.
      rewrite S, (proj2 (Z.ltb_lt _ _)) in X by lia. done. }
    destruct (IH (i + 8)) as (j & -> & Hj); [lia|by rewrite Z.add_assoc, next_word|lia|]. exists j. split; [done|lia].
Qed.

Lemma strnlen_align_ok fuel i : 0 <= i <= k -> k - i < Z.of_nat fuel -> strnlen_align fuel m s n i = Some k.
Proof using W B.
  revert i. induction fuel as [|fuel IH]; intros i Hi F; [destruct B; lia|]. cbn [strnlen_align].
  destruct (Z.eqb_spec (Z.land (s + i) 7) 0) as [A|_].
  - destruct (strnlen_x64_ok (S fuel) i Hi A ltac:(destruct B; lia)) as (j & -> & Hj). cbn [mbind option_bind]. apply strnlen_bytes_ok; destruct B; lia.
  - destruct (Z.eqb_spec i n) as [->|N]; [destruct B; f_equal; lia|].
    destruct (bounded_byte i Hi N) as (v & -> & Z). cbn [mbind option_bind]. destruct (Z.eqb_spec v 0) as [V|V]; [apply Z in V as ->; done|].
    apply IH; [|lia]. assert (i <> k) by (intros ?; by apply V, Z). lia.
Qed.
End limited.

(** strnlen reads words only up to the limit, and counts the bytes before the first NUL or the limit. *)
Lemma strnlen_ok fuel m s n k : well_mapped m -> bounded m s n k -> k < Z.of_nat fuel -> strnlen fuel m s n = Some k.
Proof. intros W B F. unfold strnlen. apply strnlen_align_ok; try done; destruct B; lia. Qed.
