(* ===== verification/Memcmp.v ===== *)
(** * Regions of memory (libc/intrin/memcmp.c, libc/str/memcasecmp.c, slice.h, net/https/certhashost.c)

    Comparisons of regions by vectors and words that overlap, of slices, and of the names in certificates. They
    must not read outside of the regions: no pages are assumed here. *)

From S2P Require Import Prelude Tables Memory Strings.

(** [memcmp] *)
Definition same (m : memory) (p q : Z) : option (list bool) :=
  v ← load m p 16; w ← load m q 16; Some (zip_with Z.eqb v w).

Definition differ (m : memory) (p q : Z) : option Z := s ← same m p q; Some (Z.lxor (pmovmskb s) 0xffff).

Definition difference (m : memory) (p q u : Z) : option Z := x ← m (p + u); y ← m (q + u); Some (x - y).

Fixpoint memcmp_vectors (fuel : nat) (m : memory) (p q n : Z) : option (Z + Z * Z * Z) :=
  if n >? 32 then
    match fuel with
    | O => None
    | S fuel =>
        u ← differ m p q;
        if u =? 0 then memcmp_vectors fuel m (p + 16) (q + 16) (n - 16)
        else inl <$> difference m p q (ctz u)
    end
  else Some (inr (p, q, n)).

(** The last one or two vectors, which overlap. *)
Definition memcmp_last (m : memory) (p q n : Z) : option Z :=
  u ← differ m p q;
  if u =? 0 then
    u ← differ m (p + n - 16) (q + n - 16);
    if u =? 0 then Some 0 else difference m p q (n - 16 + ctz u)
  else difference m p q (ctz u).

Definition memcmp_sse (fuel : nat) (m : memory) (p q n : Z) : option Z :=
  r ← memcmp_vectors fuel m p q n;
  match r with
  | inl c => Some c
  | inr (p, q, n) => memcmp_last m p q n
  end.

Fixpoint memcmp_lines (fuel : nat) (m : memory) (p q n : Z) : option (Z + Z * Z * Z) :=
  if n >=? 16 + 64 then
    match fuel with
    | O => None
    | S fuel =>
        s0 ← same m p q; s1 ← same m (p + 16) (q + 16); s2 ← same m (p + 32) (q + 32); s3 ← same m (p + 48) (q + 48);
        let w := Z.lor (Z.lor (Z.lor (pmovmskb s0) (Z.shiftl (pmovmskb s1) 16)) (Z.shiftl (pmovmskb s2) 32)) (Z.shiftl (pmovmskb s3) 48) in
        if w =? 2 ^ 64 - 1 then memcmp_lines fuel m (p + 64) (q + 64) (n - 64)
        else inl <$> difference m p q (ctz (Z.lxor w (2 ^ 64 - 1)))
    end
  else Some (inr (p, q, n)).

Definition memcmp_avx (fuel : nat) (m : memory) (p q n : Z) : option Z :=
  r ← (if n >? 32 then memcmp_lines fuel m p q n else Some (inr (p, q, n)));
  match r with
  | inl c => Some c
  | inr (p, q, n) => memcmp_sse fuel m p q n
  end.

(** Words of 8 or 4 bytes, first at the start and then at the end. *)
Definition memcmp_words (size : nat) (m : memory) (p q n : Z) : option Z :=
  let ends x y w := let u := Z.land (ctz w) (-8) in Z.land (Z.shiftr x u) 255 - Z.land (Z.shiftr y u) 255 in
  x ← pack <$> load m p size; y ← pack <$> load m q size;
  let w := Z.lxor x y in
  if w =? 0 then
    let p := p + n - Z.of_nat size in
    let q := q + n - Z.of_nat size in
    x ← pack <$> load m p size; y ← pack <$> load m q size;
    let w := Z.lxor x y in
    if w =? 0 then Some 0 else Some (ends x y w)
  else Some (ends x y w).

Fixpoint memcmp_bytes (n : nat) (m : memory) (p q : Z) : option Z :=
  match n with
  | O => Some 0
  | S n => x ← m p; y ← m q; if negb (x - y =? 0) then Some (x - y) else memcmp_bytes n m (p + 1) (q + 1)
  end.

(** [tiny] and [avx] are [IsTiny()] and [X86_HAVE(AVX)]. *)
Definition memcmp (tiny avx : bool) (fuel : nat) (m : memory) (a b n : Z) : option Z :=
  if (a =? b) || (n =? 0) then Some 0
  else
    x ← m a; y ← m b;
    if negb (x - y =? 0) then Some (x - y)
    else if tiny then memcmp_bytes (Z.to_nat n) m a b
    else if n <=? 16 then
      if n >=? 8 then memcmp_words 8 m a b n
      else if n >=? 4 then memcmp_words 4 m a b n
      else memcmp_bytes (Z.to_nat n) m a b
    else if avx then memcmp_avx fuel m a b n
    else memcmp_sse fuel m a b n.

(** [memcasecmp] *)
Fixpoint memcasecmp_words (fuel : nat) (m : memory) (a b n i : Z) : option Z :=
  match fuel with
  | O => None
  | S fuel =>
      if i + 8 <=? n then
        x ← word m a; y ← word m b;
        let w := Z.lxor x y in
        if w =? 0 then memcasecmp_words fuel m a b n (i + 8) else Some (i + Z.shiftr (ctz w) 3)
      else Some i
  end.

Fixpoint memcasecmp_loop (fuel : nat) (m : memory) (a b n i : Z) : option Z :=
  match fuel with
  | O => None
  | S fuel' =>
      if i <? n then
        i ← memcasecmp_words fuel m a b n i;
        if i =? n then Some 0
        else
          x ← m (a + i); y ← m (b + i);
          let c := tab kToLower x - tab kToLower y in
          if negb (c =? 0) then Some c else memcasecmp_loop fuel' m a b n (i + 1)
      else Some 0
  end.

Definition memcasecmp (fuel : nat) (m : memory) (p q n : Z) : option Z :=
  if p =? q then Some 0 else memcasecmp_loop fuel m p q n 0.

(** libc/str/slice.h *)
Definition SlicesEqualCase (fuel : nat) (m : memory) (a n b k : Z) : option bool :=
  if n =? k then c ← memcasecmp fuel m a b n; Some (c =? 0) else Some false.

Definition SlicesEqual (tiny avx : bool) (fuel : nat) (m : memory) (a n b k : Z) : option bool :=
  if n =? k then c ← memcmp tiny avx fuel m a b n; Some (c =? 0) else Some false.

Definition CompareSlices (tiny avx : bool) (fuel : nat) (m : memory) (a n b k : Z) : option Z :=
  c ← memcmp tiny avx fuel m a b (Z.min n k);
  Some (if negb (c =? 0) then c else if n <? k then -1 else if n >? k then 1 else 0).

Definition CompareSlicesCase (fuel : nat) (m : memory) (a n b k : Z) : option Z :=
  c ← memcasecmp fuel m a b (Z.min n k);
  Some (if negb (c =? 0) then c else if n <? k then -1 else if n >? k then 1 else 0).

(* ------------------------------------------------------------------ *)
(** ** Regions *)

(** The difference of the first bytes that differ. *)
Fixpoint mdiff (zs : list (Z * Z)) : Z :=
  match zs with [] => 0 | (x, y) :: zs => if x =? y then mdiff zs else x - y end.

Lemma first_app {A} (f : A -> bool) l r :
  first f (l ++ r) = match first f l with Some i => Some i | None => (fun i => (length l + i)%nat) <$> first f r end.
Proof.
  induction l as [|x l IH]; cbn [app first length]; [by destruct (first f r)|]. destruct (f x); [done|]. rewrite IH. by destruct (first f l), (first f r).
Qed.

(** What the first difference of a part tells of the whole. *)
Lemma mdiff_first zs r :
  match first unequal zs with
  | None => mdiff (zs ++ r) = mdiff r
  | Some i => exists x y, zs !! i = Some (x, y) /\ mdiff (zs ++ r) = x - y
  end.
Proof.
  induction zs as [|[x y] zs IH]; [done|]. cbn [first app mdiff]. unfold unequal at 1. cbn [fst snd]. destruct (Z.eqb_spec x y) as [E|E]; cbn [negb].
  - destruct (first unequal zs) as [i|]; cbn [fmap option_fmap option_map]; [|done]. destruct IH as (u & v & L & D). exists u, v. done.
  - exists x, y. done.
Qed.

Lemma mdiff_equal zs : first unequal zs = None -> mdiff zs = 0.
Proof. intros E. pose proof (mdiff_first zs []) as H. rewrite E, app_nil_r in H. done. Qed.

Lemma load_sub {A} (m : Z -> option A) s n l (k j : nat) : load m s n = Some l -> (k + j <= n)%nat -> load m (s + Z.of_nat k) j = Some (take j (drop k l)).
Proof.
  intros [L H]%load_Some K. apply load_Some. split; [rewrite length_take, length_drop; lia|]. intros i Hi.
  rewrite lookup_take_lt, lookup_drop, <- H by lia. f_equal. lia.
Qed.

Lemma load_cons (m : memory) p x l : load m p (S (length l)) = Some (x :: l) -> m p = Some x /\ load m (p + 1) (length l) = Some l.
Proof.
  intros L. split; [rewrite <- (Z.add_0_r p); by apply (load_lookup _ _ _ _ 0 x L)|].
  pose proof (load_sub _ _ _ _ 1 (length l) L ltac:(lia)) as S. cbn [drop] in S. by rewrite take_ge in S.
Qed.

(** Two regions, as one of pairs. *)
Definition regions (m : memory) (p q : Z) (zs : list (Z * Z)) : Prop :=
  load (pairs m p q) 0 (length zs) = Some zs /\ Forall (fun e => is_byte e.1 /\ is_byte e.2) zs.

Lemma regions_sub m p q zs (k j : nat) : regions m p q zs -> regions m (p + Z.of_nat k) (q + Z.of_nat k) (take j (drop k zs)).
Proof.
  intros [L B]. split; [|by apply Forall_take, Forall_drop].
  assert (load (pairs m p q) (Z.of_nat k) (length (take j (drop k zs))) = Some (take j (drop k zs))) as X.
  { rewrite length_take, length_drop. destruct (Nat.le_gt_cases k (length zs)) as [H|H].
    - pose proof (load_sub _ _ _ _ k (j `min` (length zs - k)) L ltac:(lia)) as X. rewrite Z.add_0_l in X. rewrite X. f_equal.
      rewrite <- length_drop, <- take_take, (take_ge (drop k zs) (length (drop k zs))) by done. done.
    - rewrite (drop_ge zs) by lia. replace (j `min` (length zs - k))%nat with 0%nat by lia. by destruct j. }
  apply load_Some in X as [Lx X]. apply load_Some. split; [done|]. intros i Hi. rewrite <- X by done. unfold pairs.
  by replace (p + Z.of_nat k + (0 + Z.of_nat i)) with (p + (Z.of_nat k + Z.of_nat i)) by lia; replace (q + Z.of_nat k + (0 + Z.of_nat i)) with (q + (Z.of_nat k + Z.of_nat i)) by lia.
Qed.

Lemma regions_drop m p q zs (k : nat) : regions m p q zs -> regions m (p + Z.of_nat k) (q + Z.of_nat k) (drop k zs).
Proof. intros R. pose proof (regions_sub m p q zs k (length (drop k zs)) R) as X. by rewrite take_ge in X. Qed.

Lemma regions_lookup m p q zs (i : nat) x y : regions m p q zs -> zs !! i = Some (x, y) -> m (p + Z.of_nat i) = Some x /\ m (q + Z.of_nat i) = Some y.
Proof. intros [L _] E. pose proof (load_lookup _ _ _ _ _ _ L E) as X. by apply pairs_Some in X. Qed.

Lemma regions_load m p q zs (k j : nat) :
  regions m p q zs -> (k + j <= length zs)%nat ->
  load m (p + Z.of_nat k) j = Some (fst <$> take j (drop k zs)) /\ load m (q + Z.of_nat k) j = Some (snd <$> take j (drop k zs)).
Proof.
  intros R H. split; apply load_Some; (split; [rewrite length_fmap, length_take, length_drop; lia|]); intros i Hi;
    rewrite list_lookup_fmap, lookup_take_lt, lookup_drop by lia; destruct (lookup_lt_is_Some_2 zs (k + i) ltac:(lia)) as [[x y] E]; rewrite E;
    destruct (regions_lookup _ _ _ _ _ _ _ R E) as [X Y]; rewrite <- Z.add_assoc, <- Nat2Z.inj_add; done.
Qed.

Lemma difference_ok m p q zs (i : nat) x y : regions m p q zs -> zs !! i = Some (x, y) -> difference m p q (Z.of_nat i) = Some (x - y).
Proof. intros R E. destruct (regions_lookup _ _ _ _ _ _ _ R E) as [X Y]. unfold difference. by rewrite X, Y. Qed.

(* ------------------------------------------------------------------ *)
(** ** Masks of differences *)

Lemma pmovmskb_app l r : pmovmskb (l ++ r) = pmovmskb l + 2 ^ Z.of_nat (length l) * pmovmskb r.
Proof.
  induction l as [|b l IH]; [rewrite Z.mul_1_l; done|]. cbn [app pmovmskb length]. rewrite IH, Nat2Z.inj_succ, Z.pow_succ_r by lia. ring.
Qed.

Lemma same_ok m p q zs (k : nat) :
  regions m p q zs -> (k + 16 <= length zs)%nat ->
  same m (p + Z.of_nat k) (q + Z.of_nat k) = Some ((fun e => e.1 =? e.2) <$> take 16 (drop k zs)).
Proof.
  intros R H. destruct (regions_load _ _ _ _ k 16 R H) as [A B]. unfold same. rewrite A, B. cbn [mbind option_bind]. f_equal.
  generalize (take 16 (drop k zs)). intros l. induction l as [|e l IH]; [done|]. cbn [fmap list_fmap zip_with] in *. by rewrite IH.
Qed.

Lemma differ_ok m p q zs (k : nat) :
  regions m p q zs -> (k + 16 <= length zs)%nat ->
  exists u, differ m (p + Z.of_nat k) (q + Z.of_nat k) = Some u /\ marks u 0 (first unequal (take 16 (drop k zs))).
Proof.
  intros R H. unfold differ. rewrite (same_ok _ _ _ _ _ R H). cbn [mbind option_bind]. eexists. split; [reflexivity|].
  set (l := take 16 (drop k zs)). assert (length l = 16%nat) as L by (unfold l; rewrite length_take, length_drop; lia).
  change 0xffff with (Z.ones (Z.of_nat 16)). rewrite <- L, <- (length_fmap (fun e => e.1 =? e.2)), pmovmskb_negb, <- list_fmap_compose. apply mask_marks.
Qed.

(* ------------------------------------------------------------------ *)
(** ** memcmp *)

Lemma mdiff_prefix zs k :
  match first unequal (take k zs) with
  | None => mdiff zs = mdiff (drop k zs)
  | Some i => exists x y, zs !! i = Some (x, y) /\ mdiff zs = x - y
  end.
Proof.
  pose proof (mdiff_first (take k zs) (drop k zs)) as H. rewrite take_drop in H. destruct (first unequal (take k zs)) as [i|]; [|done].
  destruct H as (x & y & L & D). exists x, y. split; [|done]. by apply lookup_take_Some in L as [L _].
Qed.

(** Less of regions that are equal is equal. *)
Lemma first_take_none {A} (f : A -> bool) l j k : first f (take k l) = None -> (j <= k)%nat -> first f (take j l) = None.
Proof.
  rewrite !first_None. intros H L x Hx. apply H. apply list_elem_of_lookup in Hx as [i Hi]. apply lookup_take_Some in Hi as [Hi Li].
  apply (list_elem_of_lookup_2 _ i). apply lookup_take_Some. split; [done|lia].
Qed.

Lemma take_split {A} (a b : nat) (l : list A) (i j : nat) : j = (i + a)%nat -> take a (drop i l) ++ take b (drop j l) = take (a + b) (drop i l).
Proof.
  intros ->. rewrite <- drop_drop. generalize (drop i l). clear. induction a as [|a IH]; intros l; [done|]. destruct l as [|x l]; [by destruct b|]. cbn. by rewrite IH.
Qed.

Section memcmp_cases.
Context (m : memory).

Lemma memcmp_last_ok p q zs :
  regions m p q zs -> (16 <= length zs <= 32)%nat -> memcmp_last m p q (Z.of_nat (length zs)) = Some (mdiff zs).
Proof.
  intros R H. unfold memcmp_last. destruct (differ_ok _ _ _ _ 0 R ltac:(lia)) as (u & U & M). rewrite !Z.add_0_r in U. rewrite U. cbn [mbind option_bind]. rewrite drop_0 in M.
  pose proof (mdiff_prefix zs 16) as D. destruct (first unequal (take 16 zs)) as [i|] eqn:F; cbn [marks] in M.
  - destruct M as [N C]. rewrite (proj2 (Z.eqb_neq _ _) N). rewrite Z.shiftr_0_r in C. rewrite C. destruct D as (x & y & L & ->). by eapply difference_ok.
  - rewrite M. cbn [Z.eqb]. set (k := (length zs - 16)%nat). replace (p + Z.of_nat (length zs) - 16) with (p + Z.of_nat k) by (unfold k; lia).
    replace (q + Z.of_nat (length zs) - 16) with (q + Z.of_nat k) by (unfold k; lia).
    destruct (differ_ok _ _ _ _ k R ltac:(unfold k; lia)) as (v & -> & Mv). cbn [mbind option_bind]. rewrite take_ge in Mv by (rewrite length_drop; unfold k; lia).
    pose proof (mdiff_prefix zs k) as Dk. rewrite (first_take_none _ _ k 16 F) in Dk by (unfold k; lia). rewrite Dk.
    pose proof (mdiff_first (drop k zs) []) as E. rewrite app_nil_r in E. destruct (first unequal (drop k zs)) as [i|]; cbn [marks] in Mv.
    + destruct Mv as [N C]. rewrite (proj2 (Z.eqb_neq _ _) N). rewrite Z.shiftr_0_r in C. rewrite C. destruct E as (x & y & L & ->). rewrite lookup_drop in L.
      replace (Z.of_nat (length zs) - 16 + Z.of_nat i) with (Z.of_nat (k + i)) by (unfold k; lia). by eapply difference_ok.
    + rewrite Mv. cbn [Z.eqb]. by rewrite E.
Qed.

Lemma memcmp_sse_ok fuel p q zs :
  regions m p q zs -> (16 <= length zs)%nat -> (length zs <= 16 * fuel + 32)%nat -> memcmp_sse fuel m p q (Z.of_nat (length zs)) = Some (mdiff zs).
Proof.
  unfold memcmp_sse. revert p q zs. induction fuel as [|fuel IH]; intros p q zs R H F; cbn [memcmp_vectors]; destruct (Z.gtb_spec (Z.of_nat (length zs)) 32) as [G|G]; try lia.
  - cbn [mbind option_bind]. apply memcmp_last_ok; [done|lia].
  - destruct (differ_ok _ _ _ _ 0 R ltac:(lia)) as (u & U & M). rewrite !Z.add_0_r in U. rewrite U. cbn [mbind option_bind]. rewrite drop_0 in M.
    pose proof (mdiff_prefix zs 16) as D. destruct (first unequal (take 16 zs)) as [i|] eqn:Fi; cbn [marks] in M.
    + destruct M as [N C]. rewrite (proj2 (Z.eqb_neq _ _) N). rewrite Z.shiftr_0_r in C. rewrite C. destruct D as (x & y & L & ->).
      by rewrite (difference_ok _ _ _ _ _ _ _ R L).
    + rewrite M, D. cbn [Z.eqb]. specialize (IH _ _ _ (regions_drop _ _ _ _ 16 R)). rewrite length_drop in IH.
      replace (Z.of_nat (length zs) - 16) with (Z.of_nat (length zs - 16)) by lia. apply IH; lia.
  - cbn [mbind option_bind]. apply memcmp_last_ok; [done|lia].
Qed.

(** Four masks as one. *)
Lemma line_mask s0 s1 s2 s3 :
  length s0 = 16%nat -> length s1 = 16%nat -> length s2 = 16%nat -> length s3 = 16%nat ->
  Z.lor (Z.lor (Z.lor (pmovmskb s0) (Z.shiftl (pmovmskb s1) 16)) (Z.shiftl (pmovmskb s2) 32)) (Z.shiftl (pmovmskb s3) 48) = pmovmskb (s0 ++ s1 ++ s2 ++ s3).
Proof.
  intros L0 L1 L2 L3. rewrite !pmovmskb_app, L0, L1, L2. change (Z.of_nat 16) with 16.
  pose proof (pmovmskb_bound s0) as B0. pose proof (pmovmskb_bound s1) as B1. pose proof (pmovmskb_bound s2) as B2. rewrite L0 in B0. rewrite L1 in B1. rewrite L2 in B2.
  change (Z.of_nat 16) with 16 in *. rewrite (Z.lor_comm _ (Z.shiftl (pmovmskb s1) 16)), lor_shiftl_add by lia.
  rewrite (Z.lor_comm _ (Z.shiftl (pmovmskb s2) 32)), lor_shiftl_add by lia. rewrite (Z.lor_comm _ (Z.shiftl (pmovmskb s3) 48)), lor_shiftl_add by lia. lia.
Qed.

Lemma memcmp_avx_ok fuel p q zs :
  regions m p q zs -> (16 <= length zs)%nat -> (length zs <= 16 * fuel + 32)%nat -> memcmp_avx fuel m p q (Z.of_nat (length zs)) = Some (mdiff zs).
Proof.
  intros R H F. unfold memcmp_avx. destruct (Z.gtb_spec (Z.of_nat (length zs)) 32) as [_|G]; [|cbn [mbind option_bind]; by apply memcmp_sse_ok].
  assert (forall g p q zs, regions m p q zs -> (16 <= length zs)%nat -> (length zs <= 16 * fuel + 32)%nat -> (length zs <= 64 * g + 79)%nat ->
    (r ← memcmp_lines g m p q (Z.of_nat (length zs)); match r with inl c => Some c | inr (p, q, n) => memcmp_sse fuel m p q n end) = Some (mdiff zs)) as X;
    [|apply X; (done || lia)].
  clear. intros g. induction g as [|g IH]; intros p q zs R H F G; cbn [memcmp_lines]; rewrite Z.geb_leb; destruct (Z.leb_spec (16 + 64) (Z.of_nat (length zs))) as [K|K];
    try lia; try (cbn [mbind option_bind]; by apply memcmp_sse_ok).
  pose proof (same_ok _ _ _ _ 0 R ltac:(lia)) as S0. rewrite !Z.add_0_r, drop_0 in S0.
  pose proof (same_ok _ _ _ _ 16 R ltac:(lia) : same m (p + 16) (q + 16) = _) as S1. pose proof (same_ok _ _ _ _ 32 R ltac:(lia) : same m (p + 32) (q + 32) = _) as S2.
  pose proof (same_ok _ _ _ _ 48 R ltac:(lia) : same m (p + 48) (q + 48) = _) as S3. rewrite S0, S1, S2, S3. cbn [mbind option_bind].
  rewrite line_mask by (rewrite length_fmap, length_take, ?length_drop; lia). rewrite <- !fmap_app.
  assert (take 16 zs ++ take 16 (drop 16 zs) ++ take 16 (drop 32 zs) ++ take 16 (drop 48 zs) = take 64 zs) as ->.
  { rewrite (take_split 16 16 zs 32 48), (take_split 16 (16 + 16) zs 16 32) by done. by apply (take_split 16 48 zs 0 16). }
  set (l := take 64 zs). assert (length l = 64%nat) as L by (unfold l; rewrite length_take; lia).
  pose proof (pmovmskb_negb ((fun e => e.1 =? e.2) <$> l)) as X. rewrite length_fmap, L in X. change (Z.ones (Z.of_nat 64)) with (2 ^ 64 - 1) in X. rewrite <- list_fmap_compose in X.
  pose proof (mask_marks unequal l) as M. change (negb ∘ (fun e : Z * Z => e.1 =? e.2)) with unequal in X. rewrite <- X in M.
  pose proof (mdiff_prefix zs 64) as D. fold l in D. destruct (first unequal l) as [i|]; cbn [marks] in M.
  - destruct M as [N C]. assert (pmovmskb ((fun e => e.1 =? e.2) <$> l) =? 2 ^ 64 - 1 = false) as ->.
    { apply Z.eqb_neq. intros E. rewrite E, Z.lxor_nilpotent in N. done. }
    rewrite Z.shiftr_0_r in C. rewrite C. destruct D as (x & y & Lu & ->). by rewrite (difference_ok _ _ _ _ _ _ _ R Lu).
  - apply Z.lxor_eq in M. rewrite M, Z.eqb_refl, D. specialize (IH _ _ _ (regions_drop _ _ _ _ 64 R)). rewrite length_drop in IH.
    replace (Z.of_nat (length zs) - 64) with (Z.of_nat (length zs - 64)) by lia. apply IH; lia.
Qed.
End memcmp_cases.

(** A byte of a word. *)
Lemma pack_byte l (i : nat) v : Bytes l -> l !! i = Some v -> Z.land (Z.shiftr (pack l) (8 * Z.of_nat i)) 255 = v.
Proof.
  intros B. revert i. induction B as [|b l Hb B IH]; intros i; [done|]. rewrite land_255. destruct i as [|i]; cbn [lookup list_lookup pack].
  - intros [= ->]. rewrite Z.shiftr_0_r. rewrite (Z.mul_comm 256), Z.mod_add, Z.mod_small by (unfold is_byte in Hb; lia). done.
  - intros L. rewrite <- (IH i L), land_255. f_equal. rewrite !Z.shiftr_div_pow2 by lia. rewrite Nat2Z.inj_succ.
    replace (8 * Z.succ (Z.of_nat i)) with (8 + 8 * Z.of_nat i) by lia. rewrite Z.pow_add_r, <- Z.div_div by lia. change (2 ^ 8) with 256. f_equal.
    rewrite Z.add_comm, (Z.mul_comm 256), Z.div_add_l, Z.div_small by (unfold is_byte in Hb; lia). lia.
Qed.

Lemma ctz_byte w (i : nat) : marks w 3 (Some i) -> Z.land (ctz w) (-8) = 8 * Z.of_nat i.
Proof.
  intros [_ E]. change (-8) with (- 2 ^ 3). rewrite align_down by lia. rewrite Z.shiftr_div_pow2 in E by lia. pose proof (Z.div_mod (ctz w) (2 ^ 3) ltac:(lia)). change (2 ^ 3) with 8 in *. lia.
Qed.

Lemma zip_fst_snd {A B} (l : list (A * B)) : zip (fst <$> l) (snd <$> l) = l.
Proof. induction l as [|[x y] l IH]; [done|]. cbn. by rewrite IH. Qed.

(** The words at [k], and where they differ first. *)
Lemma word_pair size m p q zs (k : nat) :
  regions m p q zs -> (k + size <= length zs)%nat -> exists l r,
  load m (p + Z.of_nat k) size = Some l /\ load m (q + Z.of_nat k) size = Some r /\ zip l r = take size (drop k zs) /\ Bytes l /\ Bytes r /\ length l = length r.
Proof.
  intros R K. destruct (regions_load _ _ _ _ k size R K) as [A B]. eexists _, _. split; [exact A|]. split; [exact B|]. split; [apply zip_fst_snd|].
  destruct (regions_sub _ _ _ _ k size R) as [_ F]. rewrite !Forall_fmap, !length_fmap. split; [|split; [|done]]; eapply Forall_impl; try exact F; by intros e [? ?].
Qed.

(** How [memcmp] takes the bytes out of words that differ. *)
Definition word_difference (x y : Z) : Z :=
  let u := Z.land (ctz (Z.lxor x y)) (-8) in Z.land (Z.shiftr x u) 255 - Z.land (Z.shiftr y u) 255.

Lemma words_compare l r :
  Bytes l -> Bytes r -> length l = length r ->
  match first unequal (zip l r) with
  | None => Z.lxor (pack l) (pack r) = 0
  | Some i => Z.lxor (pack l) (pack r) <> 0 /\ exists x y, zip l r !! i = Some (x, y) /\ word_difference (pack l) (pack r) = x - y
  end.
Proof.
  intros Bl Br L. pose proof (lxor_marks l r Bl Br L) as M. change (fun e : Z * Z => negb (e.1 =? e.2)) with unequal in M.
  destruct (first unequal (zip l r)) as [i|] eqn:F; [|done]. split; [by destruct M|]. apply first_Some in F as [([x y] & E & _) _]. exists x, y. split; [done|].
  unfold word_difference. rewrite (ctz_byte _ _ M). apply lookup_zip_Some in E as [Ex Ey]. by rewrite (pack_byte l i x), (pack_byte r i y).
Qed.

Lemma memcmp_words_ok size m p q zs :
  regions m p q zs -> (size <= length zs <= 2 * size)%nat -> memcmp_words size m p q (Z.of_nat (length zs)) = Some (mdiff zs).
Proof.
  intros R H. unfold memcmp_words. destruct (word_pair size _ _ _ _ 0 R ltac:(lia)) as (l & r & A & B & Zp & Bl & Br & L). rewrite !Z.add_0_r in *. rewrite A, B. cbn [fmap option_fmap option_map mbind option_bind].
  pose proof (words_compare l r Bl Br L) as C. pose proof (mdiff_prefix zs size) as D. rewrite drop_0 in Zp. rewrite Zp in C.
  destruct (first unequal (take size zs)) as [i|] eqn:F.
  - destruct C as (N & x & y & E & V). rewrite (proj2 (Z.eqb_neq _ _) N). destruct D as (x' & y' & E' & ->). apply lookup_take_Some in E as [E _].
    rewrite E in E'. injection E' as <- <-. by rewrite <- V.
  - rewrite C. cbn [Z.eqb]. set (k := (length zs - size)%nat). destruct (word_pair size _ _ _ _ k R ltac:(unfold k; lia)) as (l' & r' & A' & B' & Zp' & Bl' & Br' & L').
    replace (p + Z.of_nat (length zs) - Z.of_nat size) with (p + Z.of_nat k) by (unfold k; lia). replace (q + Z.of_nat (length zs) - Z.of_nat size) with (q + Z.of_nat k) by (unfold k; lia).
    rewrite A', B'. cbn [fmap option_fmap option_map mbind option_bind]. pose proof (words_compare l' r' Bl' Br' L') as C'. rewrite Zp', take_ge in C' by (rewrite length_drop; unfold k; lia).
    pose proof (mdiff_prefix zs k) as Dk. rewrite (first_take_none _ _ k size F) in Dk by (unfold k; lia). rewrite Dk.
    pose proof (mdiff_first (drop k zs) []) as E. rewrite app_nil_r in E. destruct (first unequal (drop k zs)) as [i|].
    + destruct C' as (N & x & y & X & V). rewrite (proj2 (Z.eqb_neq _ _) N). destruct E as (x' & y' & X' & ->). rewrite X in X'. injection X' as <- <-. by rewrite <- V.
    + rewrite C'. cbn [Z.eqb]. by rewrite E.
Qed.

Lemma memcmp_bytes_ok m p q zs : regions m p q zs -> memcmp_bytes (length zs) m p q = Some (mdiff zs).
Proof.
  revert p q. induction zs as [|[x y] zs IH]; intros p q R; [done|]. cbn [length memcmp_bytes mdiff].
  destruct (regions_lookup _ _ _ _ 0 x y R eq_refl) as [X Y]. rewrite Z.add_0_r in X, Y. rewrite X, Y. cbn [mbind option_bind].
  destruct (Z.eqb_spec x y) as [->|N]; [rewrite Z.sub_diag; cbn [Z.eqb negb]; apply IH; apply (regions_drop _ _ _ _ 1 R)|].
  rewrite (proj2 (Z.eqb_neq (x - y) 0)) by lia. done.
Qed.

(** C11: Comparing regions by vectors and words compares their bytes. memcmp answers with the difference of the
    first bytes that differ, and with zero if there are none, on every path: by words that overlap, by vectors
    of 16 bytes the last two of which overlap, by lines of 64, and by bytes, with and without AVX and in
    the tiny mode. It reads nothing but the bytes of the two regions. *)
Theorem memcmp_exact (m : memory) (tiny avx : bool) (a b : Z) (l r : bytes) (fuel : nat) :
  load m a (length l) = Some l -> load m b (length l) = Some r -> Bytes l -> Bytes r -> (length l <= 16 * fuel)%nat ->
  memcmp tiny avx fuel m a b (Z.of_nat (length l)) = Some (mdiff (zip l r)).
Proof.
  intros La Lb Bl Br F. pose proof Lb as [Lr _]%load_Some. assert (regions m a b (zip l r)) as R.
  { split; [|apply Forall_lookup; intros i [x y] [X Y]%lookup_zip_Some; split; [by apply (Forall_lookup_1 _ _ _ _ Bl X)|by apply (Forall_lookup_1 _ _ _ _ Br Y)]].
    rewrite length_zip_with. rewrite <- (Z.add_0_r a) in La. rewrite <- (Z.add_0_r b) in Lb. pose proof (load_pairs _ _ _ _ _ _ _ _ La Lb) as X. by rewrite Nat.min_id in X; rewrite Lr, Nat.min_id. }
  assert (length (zip l r) = length l) as Lz by (rewrite length_zip_with; lia). rewrite <- Lz in *. unfold memcmp.
  destruct (Z.eqb_spec a b) as [<-|Nab]; cbn [orb].
  { rewrite La in Lb. injection Lb as <-. f_equal. symmetry. apply mdiff_equal. apply first_None. intros [x y] [i [X Y]%lookup_zip_Some]%list_elem_of_lookup.
    unfold unequal. cbn. rewrite X in Y. injection Y as ->. by rewrite Z.eqb_refl. }
  destruct (Z.eqb_spec (Z.of_nat (length (zip l r))) 0) as [E|N]; [destruct (zip l r); [done|cbn in E; lia]|].
  pose proof (mdiff_prefix (zip l r) 1) as D. destruct (zip l r) as [|[x y] zs] eqn:Z; [done|]. destruct (regions_lookup _ _ _ _ 0 x y R eq_refl) as [X Y].
  rewrite Z.add_0_r in X, Y. rewrite X, Y. cbn [mbind option_bind]. destruct (Z.eqb_spec (x - y) 0) as [E|E]; cbn [negb].
  - rewrite Nat2Z.id. destruct tiny; [by apply memcmp_bytes_ok|].
    destruct (Z.leb_spec (Z.of_nat (length ((x, y) :: zs))) 16) as [G|G].
    + rewrite !Z.geb_leb. destruct (Z.leb_spec 8 (Z.of_nat (length ((x, y) :: zs)))); [apply (memcmp_words_ok 8); [done|lia]|].
      destruct (Z.leb_spec 4 (Z.of_nat (length ((x, y) :: zs)))); [apply (memcmp_words_ok 4); [done|lia]|by apply memcmp_bytes_ok].
    + destruct avx; [apply memcmp_avx_ok|apply memcmp_sse_ok]; (done || lia).
  - cbn [mdiff]. rewrite (proj2 (Z.eqb_neq x y)) by lia. done.
Qed.

Lemma memcmp_exact_witness :
  memcmp false true 2 (page_of 0 (bstr "cosmopolitan libc" ++ bstr "cosmopolitan libm")) 0 17 17 = Some (-10).
Proof.
  apply (memcmp_exact (page_of 0 (bstr "cosmopolitan libc" ++ bstr "cosmopolitan libm")) false true 0 17 (bstr "cosmopolitan libc") (bstr "cosmopolitan libm") 2);
    [reflexivity|reflexivity|repeat constructor; unfold is_byte; lia|repeat constructor; unfold is_byte; lia|cbn; lia].
Defined.

(* ------------------------------------------------------------------ *)
(** ** memcasecmp *)

(** Regions in lower case. *)
Definition lower_pair (e : Z * Z) : Z * Z := (lower_byte e.1, lower_byte e.2).

Section memcasecmp_cases.
Context (m : memory) (p q : Z) (zs : list (Z * Z)) (R : regions m p q zs).

(** Both loops go forward, and not past the end. *)
Lemma memcasecmp_words_range fuel i :
  0 <= i <= Z.of_nat (length zs) -> Z.of_nat (length zs) - i < 8 * Z.of_nat fuel ->
  exists j, memcasecmp_words fuel m p q (Z.of_nat (length zs)) i = Some j /\ i <= j <= Z.of_nat (length zs).
Proof using R.
  revert i. induction fuel as [|fuel IH]; intros i Hi F; [lia|]. cbn [memcasecmp_words].
  destruct (Z.leb_spec (i + 8) (Z.of_nat (length zs))) as [L|L]; [|exists i; split; [done|lia]].
  destruct (word_pair 8 _ _ _ _ 0 R ltac:(lia)) as (l & r & A & B & Zp & Bl & Br & El). rewrite !Z.add_0_r in A, B. unfold word. rewrite A, B. cbn [fmap option_fmap option_map mbind option_bind].
  pose proof (lxor_marks l r Bl Br El) as M. destruct (first _ (zip l r)) as [j|] eqn:S; cbn [marks] in M.
  - destruct M as [N ->]. rewrite (proj2 (Z.eqb_neq _ _) N). exists (i + Z.of_nat j). split; [done|]. apply first_Some in S as [(x & E & _) _]. apply lookup_lt_Some in E.
    rewrite Zp, length_take in E. lia.
  - rewrite M. cbn [Z.eqb]. destruct (IH (i + 8)) as (j & -> & Hj); [lia|lia|]. exists j. split; [done|lia].
Qed.

(** A difference that is found is one. *)
Definition real (c : Z) : Prop := c = 0 \/ exists (i : nat) x y, zs !! i = Some (x, y) /\ c = lower_byte x - lower_byte y.

Lemma memcasecmp_loop_real fuel i :
  0 <= i <= Z.of_nat (length zs) -> Z.of_nat (length zs) - i < Z.of_nat fuel -> exists c, memcasecmp_loop fuel m p q (Z.of_nat (length zs)) i = Some c /\ real c.
Proof using R.
  revert i. induction fuel as [|fuel IH]; intros i Hi F; cbn [memcasecmp_loop]; [lia|].
  destruct (Z.ltb_spec i (Z.of_nat (length zs))) as [L|L]; [|exists 0; split; [done|by left]].
  destruct (memcasecmp_words_range (S fuel) i ltac:(lia) ltac:(lia)) as (j & -> & Hj). cbn [mbind option_bind].
  destruct (Z.eqb_spec j (Z.of_nat (length zs))) as [->|N]; [exists 0; split; [done|by left]|].
  destruct (lookup_lt_is_Some_2 zs (Z.to_nat j) ltac:(lia)) as [[x y] E]. destruct (regions_lookup _ _ _ _ _ _ _ R E) as [X Y].
  rewrite Z2Nat.id in X, Y by lia. rewrite X, Y. cbn [mbind option_bind].
  destruct (Z.eqb_spec (lower_byte x - lower_byte y) 0) as [D|D]; unfold lower_byte in D.
  - rewrite D. cbn [Z.eqb negb]. apply IH; lia.
  - rewrite (proj2 (Z.eqb_neq _ _) D). cbn [negb]. eexists. split; [reflexivity|]. right. by exists (Z.to_nat j), x, y.
Qed.

(** Regions that are shorter than a word are compared byte by byte. *)
Lemma memcasecmp_loop_short fuel (i : nat) :
  (length zs < 8)%nat -> (length zs - i < fuel)%nat ->
  memcasecmp_loop fuel m p q (Z.of_nat (length zs)) (Z.of_nat i) = Some (mdiff (lower_pair <$> drop i zs)).
Proof using R.
  intros S. revert i. induction fuel as [|fuel IH]; intros i F; cbn [memcasecmp_loop]; [lia|].
  destruct (Z.ltb_spec (Z.of_nat i) (Z.of_nat (length zs))) as [L|L]; [|by rewrite drop_ge by lia].
  cbn [memcasecmp_words]. rewrite (proj2 (Z.leb_gt _ _)) by lia. cbn [mbind option_bind]. rewrite (proj2 (Z.eqb_neq _ _)) by lia.
  destruct (lookup_lt_is_Some_2 zs i ltac:(lia)) as [[x y] E]. destruct (regions_lookup _ _ _ _ _ _ _ R E) as [X Y]. rewrite X, Y. cbn [mbind option_bind].
  rewrite (drop_S _ _ _ E). cbn [fmap list_fmap mdiff]. unfold lower_pair at 1. cbn [fst snd]. fold (lower_byte x) (lower_byte y).
  destruct (Z.eqb_spec (lower_byte x) (lower_byte y)) as [D|D].
  - rewrite D, Z.sub_diag. cbn [Z.eqb negb]. replace (Z.of_nat i + 1) with (Z.of_nat (Datatypes.S i)) by lia. apply IH. lia.
  - rewrite (proj2 (Z.eqb_neq (lower_byte x - lower_byte y) 0)) by lia. done.
Qed.
End memcasecmp_cases.

(** What holds of memcasecmp: it ends, it reads nothing outside of the regions, an answer that is not zero is a
    difference of the regions, so that equal regions are found to be equal, and it is exact for
    regions of less than 8 bytes. *)
Lemma memcasecmp_sound (m : memory) (p q : Z) (zs : list (Z * Z)) (fuel : nat) :
  regions m p q zs -> p <> q -> (length zs < fuel)%nat ->
  exists c, memcasecmp fuel m p q (Z.of_nat (length zs)) = Some c /\
  (c <> 0 -> exists (i : nat) x y, zs !! i = Some (x, y) /\ c = lower_byte x - lower_byte y) /\
  ((length zs < 8)%nat -> c = mdiff (lower_pair <$> zs)).
Proof.
  intros R N F. unfold memcasecmp. rewrite (proj2 (Z.eqb_neq _ _) N). destruct (memcasecmp_loop_real m p q zs R fuel 0 ltac:(lia) ltac:(lia)) as (c & E & Re).
  exists c. split; [done|]. split; [by destruct Re|]. intros S. pose proof (memcasecmp_loop_short m p q zs R fuel 0 S ltac:(lia)) as X.
  change (Z.of_nat 0) with 0 in X. rewrite E, drop_0 in X. by injection X.
Qed.

(** Longer regions are not compared: the words are always those at the start. If they are equal, the rest is
    skipped in steps of 8 bytes. *)
Lemma memcasecmp_defect :
  memcasecmp 20 (page_of 0 (bstr "aaaaaaaabbbbbbbb" ++ bstr "aaaaaaaacccccccc")) 0 16 16 = Some 0.
Proof. reflexivity. Qed.

(* ------------------------------------------------------------------ *)
(** ** memchr, and the names in certificates *)

Fixpoint memchr_bytes (n : nat) (m : memory) (s c : Z) : option Z :=
  match n with
  | O => Some 0
  | S n => v ← m s; if v =? c then Some s else memchr_bytes n m (s + 1) c
  end.

Fixpoint memchr_sse (fuel : nat) (m : memory) (s c n : Z) : option Z :=
  if n >=? 16 then
    match fuel with
    | O => None
    | S fuel =>
        v ← load m s 16;
        let b := pmovmskb ((fun x => x =? c) <$> v) in
        if b =? 0 then memchr_sse fuel m (s + 16) c (n - 16) else Some (s + ctz b)
    end
  else memchr_bytes (Z.to_nat n) m s c.

Definition memchr (fuel : nat) (m : memory) (s c n : Z) : option Z := memchr_sse fuel m s (u8 c) n.

Lemma memchr_bytes_ok m s c l : load m s (length l) = Some l -> memchr_bytes (length l) m s c = Some (match first (fun x => x =? c) l with Some i => s + Z.of_nat i | None => 0 end).
Proof.
  revert s. induction l as [|x l IH]; intros s L; [done|]. cbn [length memchr_bytes first]. pose proof (load_lookup _ _ _ _ 0 x L eq_refl) as X. rewrite Z.add_0_r in X. rewrite X. cbn [mbind option_bind].
  destruct (x =? c); [f_equal; lia|]. pose proof (load_sub _ _ _ _ 1 (length l) L ltac:(cbn; lia)) as S. cbn [drop] in S. rewrite take_ge in S by done.
  rewrite (IH (s + 1)) by exact S. destruct (first _ l); [|done]. cbn [fmap option_fmap option_map]. f_equal. lia.
Qed.

Lemma memchr_sse_ok fuel m s c l :
  load m s (length l) = Some l -> (length l < 16 * S fuel)%nat -> memchr_sse fuel m s c (Z.of_nat (length l)) = Some (match first (fun x => x =? c) l with Some i => s + Z.of_nat i | None => 0 end).
Proof.
  revert s l. induction fuel as [|fuel IH]; intros s l L F; cbn [memchr_sse]; rewrite Z.geb_leb; destruct (Z.leb_spec 16 (Z.of_nat (length l))) as [G|G]; try lia;
    try (rewrite Nat2Z.id; by apply memchr_bytes_ok).
  pose proof (load_sub _ _ _ _ 0 16 L ltac:(lia)) as S. rewrite Z.add_0_r, drop_0 in S. rewrite S. cbn [mbind option_bind].
  pose proof (mask_marks (fun x => x =? c) (take 16 l)) as M. pose proof (first_app (fun x => x =? c) (take 16 l) (drop 16 l)) as A. rewrite take_drop in A. rewrite A. destruct (first _ (take 16 l)) as [i|]; cbn [marks] in M.
  - destruct M as [N E]. rewrite (proj2 (Z.eqb_neq _ _) N). rewrite Z.shiftr_0_r in E. by rewrite E.
  - rewrite M. cbn [Z.eqb]. pose proof (load_sub _ _ _ _ 16 (length l - 16) L ltac:(lia)) as S'. rewrite take_ge in S' by (rewrite length_drop; lia).
    specialize (IH (s + 16) (drop 16 l)). rewrite length_drop in IH. replace (Z.of_nat (length l) - 16) with (Z.of_nat (length l - 16)) by lia.
    rewrite IH; [|exact S'|lia]. destruct (first _ (drop 16 l)); [|done]. cbn [fmap option_fmap option_map]. rewrite length_take. f_equal. lia.
Qed.

(** [mbedtls_x509_sequence]: a name, with its tag. *)
Record subject_alt_name := { tag : Z; buf_p : Z; buf_len : Z }.

Definition MBEDTLS_ASN1_TAG_VALUE_MASK : Z := 0x1F.
Definition MBEDTLS_X509_SAN_DNS_NAME : Z := 2.

Definition name_has_host (fuel : nat) (m : memory) (cur : subject_alt_name) (s n : Z) : option bool :=
  if Z.land (tag cur) MBEDTLS_ASN1_TAG_VALUE_MASK =? MBEDTLS_X509_SAN_DNS_NAME then
    wild ← (if buf_len cur >? 2 then
              x ← m (buf_p cur);
              if x =? # "*" then y ← m (buf_p cur + 1); Some (y =? # ".") else Some false
            else Some false);
    if (wild : bool) then
      let k := buf_len cur - 1 in
      if n >? k then
        e ← SlicesEqualCase fuel m (s + n - k) k (buf_p cur + 1) k;
        if (e : bool) then d ← memchr fuel m s (# ".") (n - k); Some (d =? 0) else Some false
      else Some false
    else SlicesEqualCase fuel m s n (buf_p cur) (buf_len cur)
  else Some false.

(** [CertHasHost]: the names of the certificate that [cert->subject_alt_names] links, from the first one. *)
Fixpoint CertHasHost (fuel : nat) (m : memory) (names : list subject_alt_name) (s n : Z) : option bool :=
  match names with
  | [] => Some false
  | cur :: names =>
      h ← name_has_host fuel m cur s n;
      if (h : bool) then Some true else CertHasHost fuel m names s n
  end.

(** A certificate for one site is accepted for another one, whose name has other characters from the ninth to
    the sixteenth. *)
Lemma CertHasHost_defect :
  CertHasHost 40 (page_of 0 (bstr "accounts.google.com" ++ bstr "accountsabcdefg.com")) [{| tag := 0x82; buf_p := 19; buf_len := 19 |}] 0 19 = Some true.
Proof. reflexivity. Qed.
