(* ===== verification/Memmove.v ===== *)
(** * Copying memory (libc/intrin/memmove.c)

    memmove reads and writes vectors and words that overlap each other, in regions that may overlap. The
    stores of each step follow all of its loads; the order of the steps depends on which region comes first. *)

From S2P Require Import Prelude Memory.

(** Writing memory that is not mapped ends the program. *)
Definition store (m : memory) (p : Z) (l : bytes) : option memory :=
  _ ← load m p (length l);
  Some (fun a => if (p <=? a) && (a <? p + Z.of_nat (length l)) then l !! Z.to_nat (a - p) else m a).

(** Pieces of a region: where they start, and how long they are. All are loaded before the first is stored. *)
Abbreviation pieces := (list (Z * nat)).

Fixpoint store_all (m : memory) (d : Z) (ps : pieces) (vs : list bytes) : option memory :=
  match ps, vs with
  | (o, _) :: ps, v :: vs => m ← store m (d + o) v; store_all m d ps vs
  | _, _ => Some m
  end.

Definition copy (m : memory) (d s : Z) (ps : pieces) : option memory :=
  vs ← mapM (fun p => load m (s + p.1) p.2) ps;
  store_all m d ps vs.

(** [__builtin_ia32_movntdq] needs addresses that are multiples of 16. *)
Definition copy_aligned (m : memory) (d s : Z) (ps : pieces) : option memory :=
  if forallb (fun p => Z.land (d + p.1) 15 =? 0) ps then copy m d s ps else None.

(** [rep movsb], forward and, after [std], backward. *)
Fixpoint movsb (n : nat) (m : memory) (d s i : Z) : option memory :=
  match n with
  | O => Some m
  | S n => m ← copy m d s [(i, 1%nat)]; movsb n m d s (i + 1)
  end.

Fixpoint movsb_std (n : nat) (m : memory) (d s : Z) : option memory :=
  match n with
  | O => Some m
  | S n => m ← copy m d s [(Z.of_nat n, 1%nat)]; movsb_std n m d s
  end.

(** The loops on two vectors at a time. [nt] is whether the stores bypass the caches. *)
Definition copy_vectors (nt : bool) (m : memory) (d s i : Z) : option memory :=
  (if nt then copy_aligned else copy) m d s [(i, 16%nat); (i + 16, 16%nat)].

Fixpoint backward (nt : bool) (fuel : nat) (m : memory) (d s n : Z) : option (memory * Z) :=
  match fuel with
  | O => None
  | S fuel =>
      let n := n - 32 in
      m ← copy_vectors nt m d s n;
      if n >=? 32 then backward nt fuel m d s n else Some (m, n)
  end.

Fixpoint forward (nt : bool) (fuel : nat) (m : memory) (d s n i : Z) : option (memory * Z) :=
  match fuel with
  | O => None
  | S fuel =>
      m ← copy_vectors nt m d s i;
      let i := i + 32 in
      if i + 32 <=? n then forward nt fuel m d s n i else Some (m, i)
  end.

(** [while ((uintptr_t)(d + n) & 15)] and [while ((uintptr_t)(d + i) & 15)] *)
Fixpoint align_end (fuel : nat) (m : memory) (d s n : Z) : option (memory * Z) :=
  match fuel with
  | O => None
  | S fuel =>
      if Z.land (d + n) 15 =? 0 then Some (m, n)
      else m ← copy m d s [(n - 1, 1%nat)]; align_end fuel m d s (n - 1)
  end.

Fixpoint align_start (fuel : nat) (m : memory) (d s i : Z) : option (memory * Z) :=
  match fuel with
  | O => None
  | S fuel =>
      if Z.land (d + i) 15 =? 0 then Some (m, i)
      else m ← copy m d s [(i, 1%nat)]; align_start fuel m d s (i + 1)
  end.

(** [if (n)] at the end *)
Definition remainder (m : memory) (d s n : Z) : option memory :=
  if n =? 0 then Some m
  else if n >=? 16 then copy m d s [(0, 16%nat); (n - 16, 16%nat)]
  else if n >=? 8 then copy m d s [(0, 8%nat); (n - 8, 8%nat)]
  else if n >=? 4 then copy m d s [(0, 4%nat); (n - 4, 4%nat)]
  else if n >=? 2 then copy m d s [(0, 2%nat); (n - 2, 2%nat)]
  else copy m d s [(0, 1%nat)].

Definition backward_remainder (nt : bool) (fuel : nat) (m : memory) (d s n : Z) : option memory :=
  '(m, n) ← backward nt fuel m d s n; remainder m d s n.

Definition forward_remainder (nt : bool) (fuel : nat) (m : memory) (d s n i : Z) : option memory :=
  '(m, i) ← forward nt fuel m d s n i; remainder m (d + i) (s + i) (n - i).

(** [default:], for regions of 128 bytes or more. [asan], [erms] and [half] are [IsAsan()],
    [X86_HAVE(ERMS)] and [kHalfCache3]. *)
Definition memmove_large (asan erms : bool) (half : Z) (fuel : nat) (m : memory) (d s n : Z) : option memory :=
  if d =? s then Some m
  else if (n <? half) || (half =? 0) then
    if d >? s then
      if asan || (n <? 900) || negb erms then backward_remainder false fuel m d s n else movsb_std (Z.to_nat n) m d s
    else
      if asan || (n <? 900) || negb erms then forward_remainder false fuel m d s n 0 else movsb (Z.to_nat n) m d s 0
  else
    if d >? s then '(m, n) ← align_end fuel m d s n; backward_remainder true fuel m d s n
    else '(m, i) ← align_start fuel m d s 0; forward_remainder true fuel m d s n i.

Definition memmove_tiny (m : memory) (d s n : Z) : option memory :=
  if n <=? 16 then
    if n >=? 8 then copy m d s [(0, 8%nat); (n - 8, 8%nat)]
    else if n >=? 4 then copy m d s [(0, 4%nat); (n - 4, 4%nat)]
    else if n >=? 2 then copy m d s [(0, 2%nat); (n - 2, 2%nat)]
    else if n =? 0 then Some m
    else copy m d s [(0, 1%nat)]
  else if d <=? s then movsb (Z.to_nat n) m d s 0
  else movsb_std (Z.to_nat n) m d s.

(** [memmove], which is [memcpy] as well; the result is the memory behind the pointer it returns. *)
Definition memmove (tiny asan erms : bool) (half : Z) (fuel : nat) (m : memory) (d s n : Z) : option memory :=
  if tiny then memmove_tiny m d s n
  else if n =? 0 then Some m
  else if n =? 1 then copy m d s [(0, 1%nat)]
  else if n =? 2 then copy m d s [(0, 2%nat)]
  else if n =? 3 then copy m d s [(0, 2%nat); (1, 2%nat)]
  else if n =? 4 then copy m d s [(0, 4%nat)]
  else if n <=? 7 then copy m d s [(0, 4%nat); (n - 4, 4%nat)]
  else if n =? 8 then copy m d s [(0, 8%nat)]
  else if n <=? 15 then copy m d s [(0, 8%nat); (n - 8, 8%nat)]
  else if n =? 16 then copy m d s [(0, 16%nat)]
  else if n <=? 32 then copy m d s [(0, 16%nat); (n - 16, 16%nat)]
  else if n <=? 64 then copy m d s [(0, 16%nat); (16, 16%nat); (n - 32, 16%nat); (n - 16, 16%nat)]
  else if n <=? 127 then
    copy m d s [(0, 16%nat); (16, 16%nat); (32, 16%nat); (48, 16%nat); (n - 64, 16%nat); (n - 48, 16%nat); (n - 32, 16%nat); (n - 16, 16%nat)]
  else memmove_large asan erms half fuel m d s n.

(* ------------------------------------------------------------------ *)
(** ** Pieces *)

Definition covers (ps : pieces) (k : Z) : bool := existsb (fun p => (p.1 <=? k) && (k <? p.1 + Z.of_nat p.2)) ps.

(** The bytes of [d] at the offsets [c] are those that [s] had at first, and all others are as they were. *)
Definition copied (m0 : memory) (d s : Z) (c : Z -> bool) (m : memory) : Prop :=
  forall a, m a = if c (a - d) then m0 (s + (a - d)) else m0 a.

Lemma copied_ext m0 d s c c' m : (forall k, c k = c' k) -> copied m0 d s c m -> copied m0 d s c' m.
Proof. intros E H a. by rewrite H, E. Qed.

Lemma copied_shift m0 d s c m i : copied m0 d s c m -> copied m0 (d + i) (s + i) (fun k => c (k + i)) m.
Proof. intros H a. rewrite H. replace (a - (d + i) + i) with (a - d) by lia. by replace (s + i + (a - (d + i))) with (s + (a - d)) by lia. Qed.

Lemma copied_unshift m0 d s c m i : copied m0 (d + i) (s + i) c m -> copied m0 d s (fun k => c (k - i)) m.
Proof. intros H a. rewrite H. replace (a - d - i) with (a - (d + i)) by lia. by replace (s + i + (a - (d + i))) with (s + (a - d)) by lia. Qed.

Section copying.
Context (m0 : memory) (d s : Z).

Lemma store_copied m (o : Z) (l : bytes) c :
  copied m0 d s c m -> (forall i : nat, (i < length l)%nat -> l !! i = m0 (s + o + Z.of_nat i)) ->
  (forall k, o <= k < o + Z.of_nat (length l) -> is_Some (m0 (d + k)) /\ is_Some (m0 (s + k))) ->
  exists m', store m (d + o) l = Some m' /\ copied m0 d s (fun k => c k || (o <=? k) && (k <? o + Z.of_nat (length l))) m'.
Proof.
  intros C E M. unfold store. assert (is_Some (load m (d + o) (length l))) as [v ->].
  { apply load_is_Some. intros a Ha. rewrite C. destruct (M (a - d)) as [Md Ms]; [lia|]. replace (d + (a - d)) with a in Md by lia. by destruct (c (a - d)). }
  eexists. split; [reflexivity|]. intros a. cbn beta.
  assert ((o <=? a - d) && (a - d <? o + Z.of_nat (length l)) = (d + o <=? a) && (a <? d + o + Z.of_nat (length l))) as ->
    by (apply eq_true_iff_eq; rewrite !andb_true_iff, !Z.leb_le, !Z.ltb_lt; lia).
  destruct ((d + o <=? a) && (a <? d + o + Z.of_nat (length l))) eqn:B; [|rewrite orb_false_r; apply C].
  rewrite orb_true_r. apply andb_true_iff in B as [B1%Z.leb_le B2%Z.ltb_lt]. rewrite E by lia. f_equal. lia.
Qed.

Lemma store_all_copied ps : forall m vs c,
  copied m0 d s c m -> Forall2 (fun p v => length v = p.2 /\ forall i : nat, (i < p.2)%nat -> v !! i = m0 (s + p.1 + Z.of_nat i)) ps vs ->
  (forall k, covers ps k = true -> is_Some (m0 (d + k)) /\ is_Some (m0 (s + k))) ->
  exists m', store_all m d ps vs = Some m' /\ copied m0 d s (fun k => c k || covers ps k) m'.
Proof.
  induction ps as [|[o n] ps IH]; intros m vs c C F M; inversion F as [|? v ? vs' [L E] F']; subst; cbn [store_all].
  - exists m. split; [done|]. eapply copied_ext; [|exact C]. intros k. by rewrite orb_false_r.
  - cbn [fst snd] in *. destruct (store_copied m o v c C) as (m' & -> & C').
    { intros i Hi. apply E. lia. }
    { intros k Hk. apply M. cbn [covers existsb fst snd]. rewrite <- L, (proj2 (Z.leb_le _ _)), (proj2 (Z.ltb_lt _ _)) by lia. done. }
    cbn [mbind option_bind]. destruct (IH m' vs' _ C' F') as (m'' & -> & C'').
    { intros k Hk. apply M. cbn [covers existsb]. unfold covers in Hk. rewrite Hk. apply orb_true_r. }
    exists m''. split; [done|]. eapply copied_ext; [|exact C'']. intros k. cbn [covers existsb fst snd]. by rewrite <- L, orb_assoc.
Qed.

(** Copying pieces whose sources have not been written to. *)
Lemma copy_copied m c ps :
  copied m0 d s c m -> (forall k, covers ps k = true -> c (s + k - d) = false /\ is_Some (m0 (d + k)) /\ is_Some (m0 (s + k))) ->
  exists m', copy m d s ps = Some m' /\ copied m0 d s (fun k => c k || covers ps k) m'.
Proof.
  intros C H. unfold copy. assert (exists vs, mapM (fun p => load m (s + p.1) p.2) ps = Some vs) as [vs V].
  { apply mapM_is_Some_2, Forall_forall. intros p Hp. apply load_is_Some. intros a Ha. destruct (H (a - s)) as (N & _ & Ms).
    - unfold covers. apply existsb_exists. exists p. split; [by apply list_elem_of_In|]. rewrite (proj2 (Z.leb_le _ _)), (proj2 (Z.ltb_lt _ _)) by lia. done.
    - rewrite C. replace (s + (a - s) - d) with (a - d) in N by lia. rewrite N. by replace (s + (a - s)) with a in Ms by lia. }
  rewrite V. cbn [mbind option_bind]. apply store_all_copied; [done| |intros k Hk; by destruct (H k Hk) as (_ & ? & ?)].
  apply mapM_Some in V. apply Forall2_same_length_lookup. split; [by eapply Forall2_length|]. intros i p v Hp Hv.
  pose proof (Forall2_lookup_lr _ _ _ _ _ _ V Hp Hv) as L. apply load_Some in L as [L E]. split; [done|]. intros j Hj. rewrite <- E by done.
  rewrite C. destruct (H (p.1 + Z.of_nat j)) as (N & _).
  - unfold covers. apply existsb_exists. exists p. split; [apply list_elem_of_In; by eapply list_elem_of_lookup_2|].
    rewrite (proj2 (Z.leb_le _ _)), (proj2 (Z.ltb_lt _ _)) by lia. done.
  - replace (s + (p.1 + Z.of_nat j) - d) with (s + p.1 + Z.of_nat j - d) in N by lia. by rewrite N.
Qed.
End copying.

(* ------------------------------------------------------------------ *)
(** ** Steps *)

Definition span (i j k : Z) : bool := (i <=? k) && (k <? j).

(** Goals on which offsets are covered. *)
Ltac offsets :=
  unfold covers, span in *; cbn [existsb fst snd] in *; rewrite ?orb_false_r in *; try apply eq_true_iff_eq;
  rewrite ?orb_true_iff, ?andb_true_iff, ?andb_false_iff, ?Z.leb_le, ?Z.ltb_lt, ?Z.leb_gt, ?Z.ltb_ge in *; lia.

Section moving.
Context (m0 : memory) (d s : Z).

(** Copying pieces that make up [0] to [n], of which nothing has been written to. *)
Lemma copy_whole m c n ps :
  copied m0 d s c m -> (forall k, 0 <= k < n -> c (s + k - d) = false /\ is_Some (m0 (d + k)) /\ is_Some (m0 (s + k))) -> (forall k, covers ps k = span 0 n k) ->
  exists m', copy m d s ps = Some m' /\ copied m0 d s (fun k => c k || span 0 n k) m'.
Proof.
  intros C H E. destruct (copy_copied m0 d s m c ps C) as (m' & -> & C').
  - intros k Hk. rewrite E in Hk. apply H. offsets.
  - exists m'. split; [done|]. eapply copied_ext; [|exact C']. intros k. cbn beta. by rewrite E.
Qed.

Lemma remainder_copied m c n :
  0 <= n < 32 -> copied m0 d s c m -> (forall k, 0 <= k < n -> c (s + k - d) = false /\ is_Some (m0 (d + k)) /\ is_Some (m0 (s + k))) ->
  exists m', remainder m d s n = Some m' /\ copied m0 d s (fun k => c k || span 0 n k) m'.
Proof.
  intros Hn C H. unfold remainder. rewrite !Z.geb_leb. destruct (Z.eqb_spec n 0) as [->|].
  { exists m. split; [done|]. eapply copied_ext; [|exact C]. intros k. assert (span 0 0 k = false) as -> by offsets. by rewrite orb_false_r. }
  destruct (Z.leb_spec 16 n); [apply copy_whole; try done; intros k; offsets|]. destruct (Z.leb_spec 8 n); [apply copy_whole; try done; intros k; offsets|].
  destruct (Z.leb_spec 4 n); [apply copy_whole; try done; intros k; offsets|]. destruct (Z.leb_spec 2 n); apply copy_whole; try done; intros k; offsets.
Qed.

Context (n : Z) (M : forall k, 0 <= k < n -> is_Some (m0 (d + k)) /\ is_Some (m0 (s + k))).

(** One step: more of the region has been copied. *)
Lemma copy_span m i j i' j' ps :
  copied m0 d s (span i j) m -> (forall k, covers ps k = true -> 0 <= k < n /\ span i j (s + k - d) = false) -> (forall k, span i j k || covers ps k = span i' j' k) ->
  exists m', copy m d s ps = Some m' /\ copied m0 d s (span i' j') m'.
Proof using M.
  intros C H E. destruct (copy_copied m0 d s m _ ps C) as (m' & -> & C').
  - intros k Hk. destruct (H k Hk) as [R F]. split; [done|]. by apply M.
  - exists m'. split; [done|]. eapply copied_ext; [exact E|exact C'].
Qed.

Lemma copy_vectors_span nt m i j i' j' o :
  copied m0 d s (span i j) m -> (forall k, span o (o + 32) k = true -> 0 <= k < n /\ span i j (s + k - d) = false) -> (forall k, span i j k || span o (o + 32) k = span i' j' k) ->
  (nt = true -> Z.land (d + o) 15 = 0) -> exists m', copy_vectors nt m d s o = Some m' /\ copied m0 d s (span i' j') m'.
Proof using M.
  intros C H E A. destruct (copy_span m i j i' j' [(o, 16%nat); (o + 16, 16%nat)] C) as (m' & X & C').
  - intros k Hk. apply H. offsets.
  - intros k. rewrite <- E. f_equal. offsets.
  - exists m'. split; [|done]. unfold copy_vectors. destruct nt; [|done]. unfold copy_aligned. cbn [forallb fst].
    rewrite !land_15 in *. replace (d + (o + 16)) with (d + o + 1 * 16) by lia. rewrite Z.mod_add, A by done. done.
Qed.

Lemma backward_copied nt fuel m i :
  s < d -> copied m0 d s (span i n) m -> 32 <= i <= n -> i < 32 * Z.of_nat fuel + 32 -> (nt = true -> Z.land (d + i) 15 = 0) ->
  exists m' r, backward nt fuel m d s i = Some (m', r) /\ 0 <= r < 32 /\ copied m0 d s (span r n) m'.
Proof using M.
  intros O. revert m i. induction fuel as [|fuel IH]; intros m i C Hi F A; [lia|]. cbn [backward].
  assert (nt = true -> Z.land (d + (i - 32)) 15 = 0) as A'.
  { intros E. specialize (A E). rewrite !land_15 in *. replace (d + (i - 32)) with (d + i + (-2) * 16) by lia. by rewrite Z.mod_add. }
  destruct (copy_vectors_span nt m i n (i - 32) n (i - 32) C) as (m' & -> & C'); [intros k; offsets|intros k; offsets|done|]. cbn [mbind option_bind].
  rewrite Z.geb_leb. destruct (Z.leb_spec 32 (i - 32)) as [L|L]; [apply IH; (done || lia)|]. exists m', (i - 32). split; [done|]. split; [lia|done].
Qed.

Lemma forward_copied nt fuel m i :
  d < s -> copied m0 d s (span 0 i) m -> 0 <= i -> i + 32 <= n -> n - i < 32 * Z.of_nat fuel + 32 -> (nt = true -> Z.land (d + i) 15 = 0) ->
  exists m' r, forward nt fuel m d s n i = Some (m', r) /\ 0 <= r <= n /\ n - r < 32 /\ copied m0 d s (span 0 r) m'.
Proof using M.
  intros O. revert m i. induction fuel as [|fuel IH]; intros m i C Hi Hn F A; [lia|]. cbn [forward].
  destruct (copy_vectors_span nt m 0 i 0 (i + 32) i C) as (m' & -> & C'); [intros k; offsets|intros k; offsets|done|]. cbn [mbind option_bind].
  destruct (Z.leb_spec (i + 32 + 32) n) as [L|L]; [|exists m', (i + 32); split; [done|]; split; [lia|]; split; [lia|done]].
  apply IH; try (done || lia). intros E. specialize (A E). rewrite !land_15 in *. replace (d + (i + 32)) with (d + i + 2 * 16) by lia. by rewrite Z.mod_add.
Qed.
End moving.

Section memmove_cases.
Context (m0 : memory) (d s n : Z) (M : forall k, 0 <= k < n -> is_Some (m0 (d + k)) /\ is_Some (m0 (s + k))).

Lemma copied_none : copied m0 d s (span 0 0) m0.
Proof. intros a. by assert (span 0 0 (a - d) = false) as -> by offsets. Qed.

Lemma copied_none_end : copied m0 d s (span n n) m0.
Proof. intros a. by assert (span n n (a - d) = false) as -> by offsets. Qed.

Lemma movsb_copied k m i :
  d <= s -> copied m0 d s (span 0 i) m -> 0 <= i -> i + Z.of_nat k = n -> exists m', movsb k m d s i = Some m' /\ copied m0 d s (span 0 n) m'.
Proof using M.
  intros O. revert m i. induction k as [|k IH]; intros m i C Hi E; cbn [movsb].
  - exists m. split; [done|]. by replace n with i by lia.
  - destruct (copy_span m0 d s n M m 0 i 0 (i + 1) [(i, 1%nat)] C) as (m' & -> & C'); [intros j; offsets|intros j; offsets|]. cbn [mbind option_bind]. apply IH; (done || lia).
Qed.

Lemma movsb_std_copied k m : s <= d -> copied m0 d s (span (Z.of_nat k) n) m -> Z.of_nat k <= n -> exists m', movsb_std k m d s = Some m' /\ copied m0 d s (span 0 n) m'.
Proof using M.
  intros O. revert m. induction k as [|k IH]; intros m C Hk; cbn [movsb_std]; [by exists m|].
  destruct (copy_span m0 d s n M m (Z.of_nat (S k)) n (Z.of_nat k) n [(Z.of_nat k, 1%nat)] C) as (m' & -> & C'); [intros j; offsets|intros j; offsets|].
  cbn [mbind option_bind]. apply IH; (done || lia).
Qed.

Lemma align_end_copied fuel m i :
  s < d -> copied m0 d s (span i n) m -> 15 <= i <= n -> (d + i) mod 16 < Z.of_nat fuel ->
  exists m' r, align_end fuel m d s i = Some (m', r) /\ i - 15 <= r <= i /\ Z.land (d + r) 15 = 0 /\ copied m0 d s (span r n) m'.
Proof using M.
  intros O C Hi. pose proof (Z.mod_pos_bound (d + i) 16 ltac:(lia)) as B.
  assert (forall g m j, copied m0 d s (span j n) m -> 0 <= j <= n -> (d + j) mod 16 <= j -> (d + j) mod 16 < Z.of_nat g ->
    exists m' r, align_end g m d s j = Some (m', r) /\ j - (d + j) mod 16 <= r <= j /\ Z.land (d + r) 15 = 0 /\ copied m0 d s (span r n) m') as X.
  { clear - M O. intros g. induction g as [|g IH]; intros m j C Hj Hm F; [pose proof (Z.mod_pos_bound (d + j) 16 ltac:(lia)); lia|]. cbn [align_end].
    rewrite land_15. destruct (Z.eqb_spec ((d + j) mod 16) 0) as [E|E]; [exists m, j; rewrite land_15; split; [done|]; split; [lia|done]|].
    pose proof (Z.mod_pos_bound (d + j) 16 ltac:(lia)) as B. assert ((d + (j - 1)) mod 16 = (d + j) mod 16 - 1) as E'.
    { symmetry. apply Z.mod_unique with ((d + j) / 16); [lia|]. pose proof (Z.div_mod (d + j) 16 ltac:(lia)). lia. }
    destruct (copy_span m0 d s n M m j n (j - 1) n [(j - 1, 1%nat)] C) as (m' & -> & C'); [intros k; offsets|intros k; offsets|]. cbn [mbind option_bind].
    destruct (IH m' (j - 1) C') as (m'' & r & -> & Hr & A & C''); [lia|lia|lia|]. exists m'', r. split; [done|]. split; [lia|done]. }
  intros F. destruct (X fuel m i C) as (m' & r & E & Hr & A & C'); [lia|lia|done|]. exists m', r. split; [done|]. split; [lia|done].
Qed.

Lemma align_start_copied fuel m i :
  d < s -> copied m0 d s (span 0 i) m -> 0 <= i -> i + (- (d + i)) mod 16 <= n -> (- (d + i)) mod 16 < Z.of_nat fuel ->
  exists m' r, align_start fuel m d s i = Some (m', r) /\ i <= r <= i + (- (d + i)) mod 16 /\ Z.land (d + r) 15 = 0 /\ copied m0 d s (span 0 r) m'.
Proof using M.
  intros O. revert m i. induction fuel as [|fuel IH]; intros m i C Hi Hn F; pose proof (Z.mod_pos_bound (- (d + i)) 16 ltac:(lia)) as B; [lia|]. cbn [align_start].
  rewrite land_15. destruct (Z.eqb_spec ((d + i) mod 16) 0) as [E|E]; [exists m, i; rewrite land_15; split; [done|]; split; [lia|done]|].
  assert ((- (d + i)) mod 16 <> 0) as N by (intros H; apply E; apply Z.mod_opp_l_z in H; [by rewrite Z.opp_involutive in H|lia]).
  assert ((- (d + (i + 1))) mod 16 = (- (d + i)) mod 16 - 1) as E'.
  { symmetry. apply Z.mod_unique with ((- (d + i)) / 16); [lia|]. pose proof (Z.div_mod (- (d + i)) 16 ltac:(lia)). lia. }
  destruct (copy_span m0 d s n M m 0 i 0 (i + 1) [(i, 1%nat)] C) as (m' & -> & C'); [intros k; offsets|intros k; offsets|]. cbn [mbind option_bind].
  destruct (IH m' (i + 1) C') as (m'' & r & -> & Hr & A & C''); [lia|lia|lia|]. exists m'', r. split; [done|]. split; [lia|done].
Qed.

Lemma backward_remainder_copied nt fuel m i :
  s < d -> copied m0 d s (span i n) m -> 32 <= i <= n -> i < 32 * Z.of_nat fuel + 32 -> (nt = true -> Z.land (d + i) 15 = 0) ->
  exists m', backward_remainder nt fuel m d s i = Some m' /\ copied m0 d s (span 0 n) m'.
Proof using M.
  intros O C Hi F A. unfold backward_remainder. destruct (backward_copied m0 d s n M nt fuel m i O C Hi F A) as (m' & r & -> & Hr & C'). cbn [mbind option_bind].
  destruct (remainder_copied m0 d s m' _ r Hr C') as (m'' & -> & C'').
  - intros k Hk. split; [offsets|]. apply M. lia.
  - exists m''. split; [done|]. eapply copied_ext; [|exact C'']. intros k. offsets.
Qed.

Lemma forward_remainder_copied nt fuel m i :
  d < s -> copied m0 d s (span 0 i) m -> 0 <= i -> i + 32 <= n -> n - i < 32 * Z.of_nat fuel + 32 -> (nt = true -> Z.land (d + i) 15 = 0) ->
  exists m', forward_remainder nt fuel m d s n i = Some m' /\ copied m0 d s (span 0 n) m'.
Proof using M.
  intros O C Hi Hn F A. unfold forward_remainder. destruct (forward_copied m0 d s n M nt fuel m i O C Hi Hn F A) as (m' & r & -> & Hr & Hr' & C'). cbn [mbind option_bind].
  apply (copied_shift _ _ _ _ _ r) in C'. destruct (remainder_copied m0 (d + r) (s + r) m' _ (n - r) ltac:(lia) C') as (m'' & -> & C'').
  - intros k Hk. split; [offsets|]. rewrite <- !Z.add_assoc. apply M. lia.
  - exists m''. split; [done|]. apply copied_unshift in C''. eapply copied_ext; [|exact C'']. intros k. offsets.
Qed.
End memmove_cases.

(** Copying onto itself changes nothing. *)
Lemma copied_same m0 d c : copied m0 d d c m0.
Proof. intros a. replace (d + (a - d)) with a by lia. by destruct (c (a - d)). Qed.

Section whole.
Context (m : memory) (d s n : Z) (M : forall k, 0 <= k < n -> is_Some (m (d + k)) /\ is_Some (m (s + k))).

(** Pieces that cover the region, all of which are loaded before any is stored. *)
Lemma copy_pieces ps : (forall k, covers ps k = span 0 n k) -> exists m', copy m d s ps = Some m' /\ copied m d s (span 0 n) m'.
Proof using M.
  intros E. destruct (copy_whole m d s m (span 0 0) n ps (copied_none m d s)) as (m' & -> & C); [intros k Hk; split; [offsets|by apply M]|done|].
  exists m'. split; [done|]. eapply copied_ext; [|exact C]. intros k. offsets.
Qed.

Lemma memmove_tiny_copied : 0 <= n -> exists m', memmove_tiny m d s n = Some m' /\ copied m d s (span 0 n) m'.
Proof using M.
  intros Hn. unfold memmove_tiny. rewrite !Z.geb_leb. destruct (Z.leb_spec n 16).
  - destruct (Z.leb_spec 8 n); [apply copy_pieces; intros k; offsets|]. destruct (Z.leb_spec 4 n); [apply copy_pieces; intros k; offsets|].
    destruct (Z.leb_spec 2 n); [apply copy_pieces; intros k; offsets|].
    destruct (Z.eqb_spec n 0) as [->|]; [exists m; split; [done|apply copied_none]|]. apply copy_pieces; intros k; offsets.
  - destruct (Z.leb_spec d s).
    + apply movsb_copied; try done; [apply copied_none|lia].
    + apply movsb_std_copied; try (done || lia). rewrite Z2Nat.id by lia. apply copied_none_end.
Qed.

Lemma memmove_large_copied asan erms half fuel :
  128 <= n -> n < 32 * Z.of_nat fuel + 32 -> (16 < fuel)%nat -> exists m', memmove_large asan erms half fuel m d s n = Some m' /\ copied m d s (span 0 n) m'.
Proof using M.
  intros Hn F G. unfold memmove_large. destruct (Z.eqb_spec d s) as [<-|N]; [exists m; split; [done|apply copied_same]|].
  destruct ((n <? half) || (half =? 0)); destruct (Z.gtb_spec d s).
  - destruct (asan || (n <? 900) || negb erms).
    + apply backward_remainder_copied; try (done || lia). apply copied_none_end.
    + apply movsb_std_copied; try (done || lia). rewrite Z2Nat.id by lia. apply copied_none_end.
  - destruct (asan || (n <? 900) || negb erms).
    + apply forward_remainder_copied; try (done || lia). apply copied_none.
    + apply movsb_copied; try (done || lia). apply copied_none.
  - pose proof (Z.mod_pos_bound (d + n) 16 ltac:(lia)). destruct (align_end_copied m d s n M fuel m n) as (m' & r & -> & Hr & A & C); try (done || lia); [apply copied_none_end|].
    cbn [mbind option_bind]. apply backward_remainder_copied; (done || lia).
  - pose proof (Z.mod_pos_bound (- (d + 0)) 16 ltac:(lia)). destruct (align_start_copied m d s n M fuel m 0) as (m' & r & -> & Hr & A & C); try (done || lia); [apply copied_none|].
    cbn [mbind option_bind]. apply forward_remainder_copied; (done || lia).
Qed.
End whole.

Lemma memmove_copied (tiny asan erms : bool) (half : Z) (fuel : nat) (m : memory) (d s n : Z) :
  0 <= n < 32 * Z.of_nat fuel -> (16 < fuel)%nat -> (forall k, 0 <= k < n -> is_Some (m (d + k)) /\ is_Some (m (s + k))) ->
  exists m', memmove tiny asan erms half fuel m d s n = Some m' /\ copied m d s (span 0 n) m'.
Proof.
  intros Hn G M.
  unfold memmove. destruct tiny; [apply memmove_tiny_copied; (done || lia)|].
  repeat match goal with
    | |- context [n =? ?c] => destruct (Z.eqb_spec n c) as [->|]; [solve [exists m; split; [done|apply copied_none]|apply copy_pieces; [done|intros k; offsets]]|]
    | |- context [n <=? ?c] => destruct (Z.leb_spec n c); [solve [apply copy_pieces; [done|intros k; offsets]]|]
    end.
  apply memmove_large_copied; (done || lia).
Qed.

(** C4: Memory is moved as a whole. Whatever the regions are, however they overlap and are aligned, and whichever way
    is taken for their size and machine, memmove leaves in the destination the bytes that the source had
    before, and leaves all other memory as it was. It reads and writes only bytes of the two regions, and the
    stores that bypass the caches are at the addresses that they need. *)
Theorem memmove_exact (tiny asan erms : bool) (half : Z) (fuel : nat) (m : memory) (d s n : Z) :
  0 <= n < 32 * Z.of_nat fuel -> (16 < fuel)%nat -> (forall k, 0 <= k < n -> is_Some (m (d + k)) /\ is_Some (m (s + k))) ->
  exists m', memmove tiny asan erms half fuel m d s n = Some m' /\
  forall a, m' a = if (d <=? a) && (a <? d + n) then m (s + (a - d)) else m a.
Proof.
  intros Hn G M. destruct (memmove_copied tiny asan erms half fuel m d s n Hn G M) as (m' & E & C). exists m'. split; [done|]. intros a. rewrite C.
  by assert (span 0 n (a - d) = (d <=? a) && (a <? d + n)) as -> by offsets.
Qed.

Definition mapped_to (n : Z) (f : Z -> Z) : memory := fun a => if (0 <=? a) && (a <? n) then Some (f a) else None.

Lemma memmove_exact_witness :
  exists m', memmove false false false 0 40 (mapped_to 1000 (fun a => a mod 251)) 101 7 200 = Some m' /\
  forall a, m' a = if (101 <=? a) && (a <? 301) then mapped_to 1000 (fun a => a mod 251) (7 + (a - 101)) else mapped_to 1000 (fun a => a mod 251) a.
Proof.
  apply (memmove_exact false false false 0 40 (mapped_to 1000 (fun a => a mod 251)) 101 7 200); [lia|lia|].
  intros k Hk. unfold mapped_to. rewrite !(proj2 (Z.leb_le _ _)), !(proj2 (Z.ltb_lt _ _)) by lia. split; eexists; reflexivity.
Defined.
