(* ===== verification/Memset.v ===== *)
(** * Setting memory (libc/intrin/memset.c)

    memset stores vectors and words that overlap, from the end of the region to its start. *)

From S2P Require Import Prelude Memory Memmove.

(** Stores of repeated bytes, one after the other. *)
Fixpoint fill (m : memory) (p c : Z) (ps : pieces) : option memory :=
  match ps with
  | [] => Some m
  | (o, k) :: ps => m ← store m (p + o) (replicate k c); fill m p c ps
  end.

(** [__builtin_ia32_movntdq] *)
Definition fill_aligned (m : memory) (p c : Z) (ps : pieces) : option memory :=
  if forallb (fun q => Z.land (p + q.1) 15 =? 0) ps then fill m p c ps else None.

(** [do] ... [while (n > 32)]; [nt] is whether the stores bypass the caches. *)
Fixpoint fill_vectors (nt : bool) (fuel : nat) (m : memory) (p c n : Z) : option memory :=
  match fuel with
  | O => None
  | S fuel =>
      let n := n - 32 in
      m ← (if nt then fill_aligned else fill) m p c [(n, 16%nat); (n + 16, 16%nat)];
      if n >? 32 then fill_vectors nt fuel m p c n else Some m
  end.

(** [while ((uintptr_t)(p + n) & 15)] *)
Fixpoint fill_end (fuel : nat) (m : memory) (p c n : Z) : option (memory * Z) :=
  match fuel with
  | O => None
  | S fuel =>
      if Z.land (p + n) 15 =? 0 then Some (m, n)
      else m ← fill m p c [(n - 1, 1%nat)]; fill_end fuel m p c (n - 1)
  end.

Definition memset_sse (fuel : nat) (m : memory) (p c n : Z) : option memory :=
  if n <=? 32 then fill m p c [(n - 16, 16%nat); (0, 16%nat)]
  else m ← fill_vectors false fuel m p c n; fill m p c [(16, 16%nat); (0, 16%nat)].

(** [rep stosb] *)
Fixpoint stosb (k : nat) (m : memory) (p c i : Z) : option memory :=
  match k with
  | O => Some m
  | S k => m ← fill m p c [(i, 1%nat)]; stosb k m p c (i + 1)
  end.

(** [b[--n] = c] *)
Fixpoint fill_bytes (k : nat) (m : memory) (p c : Z) : option memory :=
  match k with
  | O => Some m
  | S k => m ← fill m p c [(Z.of_nat k, 1%nat)]; fill_bytes k m p c
  end.

Definition memset_avx (erms : bool) (half : Z) (fuel : nat) (m : memory) (p c n : Z) : option memory :=
  if n <=? 32 then fill m p c [(n - 16, 16%nat); (0, 16%nat)]
  else if (n >=? 1024) && erms then stosb (Z.to_nat n) m p c 0
  else
    m ← (if (n <? half) || (half =? 0) then fill_vectors false fuel m p c n
         else '(m, n) ← fill_end fuel m p c n; fill_vectors true fuel m p c n);
    fill m p c [(16, 16%nat); (0, 16%nat)].

Definition memset (tiny avx erms : bool) (half : Z) (fuel : nat) (m : memory) (p c n : Z) : option memory :=
  let c := Z.land c 255 in
  if n <=? 16 then
    if n >=? 8 then fill m p c [(0, 8%nat); (n - 8, 8%nat)]
    else if n >=? 4 then fill m p c [(0, 4%nat); (n - 4, 4%nat)]
    else fill_bytes (Z.to_nat n) m p c
  else if tiny then stosb (Z.to_nat n) m p c 0
  else if avx then memset_avx erms half fuel m p c n
  else memset_sse fuel m p c n.

(* ------------------------------------------------------------------ *)
(** ** The region is filled *)

Definition filled (m0 : memory) (p c : Z) (cov : Z -> bool) (m : memory) : Prop := forall a, m a = if cov (a - p) then Some c else m0 a.

Section filling.
Context (m0 : memory) (p c n : Z) (M : forall k, 0 <= k < n -> is_Some (m0 (p + k))).

Lemma fill_filled ps : forall m cov,
  filled m0 p c cov m -> (forall k, covers ps k = true -> 0 <= k < n) -> exists m', fill m p c ps = Some m' /\ filled m0 p c (fun k => cov k || covers ps k) m'.
Proof using M.
  induction ps as [|[o k] ps IH]; intros m cov F H; cbn [fill].
  - exists m. split; [done|]. intros a. by rewrite F, orb_false_r.
  - unfold store. rewrite length_replicate. assert (is_Some (load m (p + o) k)) as [v ->].
    { apply load_is_Some. intros a Ha. rewrite F. destruct (cov (a - p)); [done|]. destruct (M (a - p)) as [x X]; [apply H; unfold covers; cbn [existsb fst snd]; apply orb_true_iff; left; offsets|].
      replace (p + (a - p)) with a in X by lia. by exists x. }
    cbn [mbind option_bind]. edestruct (IH (fun a => if (p + o <=? a) && (a <? p + o + Z.of_nat k) then replicate k c !! Z.to_nat (a - (p + o)) else m a)
      (fun j => cov j || ((o <=? j) && (j <? o + Z.of_nat k)))) as (m' & E & F').
    + intros a. assert ((o <=? a - p) && (a - p <? o + Z.of_nat k) = (p + o <=? a) && (a <? p + o + Z.of_nat k)) as -> by offsets.
      destruct ((p + o <=? a) && (a <? p + o + Z.of_nat k)) eqn:B; [|rewrite orb_false_r; apply F]. rewrite orb_true_r. apply lookup_replicate_2. offsets.
    + intros j Hj. apply H. unfold covers in *. cbn [existsb]. rewrite Hj. apply orb_true_r.
    + exists m'. split; [exact E|]. intros a. rewrite F'. cbn [covers existsb fst snd]. by rewrite orb_assoc.
Qed.

Lemma fill_span m ps i j i' j' :
  filled m0 p c (span i j) m -> (forall k, covers ps k = true -> 0 <= k < n) -> (forall k, span i j k || covers ps k = span i' j' k) ->
  exists m', fill m p c ps = Some m' /\ filled m0 p c (span i' j') m'.
Proof using M.
  intros F H E. destruct (fill_filled ps m _ F H) as (m' & -> & F'). exists m'. split; [done|]. intros a. by rewrite F', E.
Qed.

Lemma filled_none i : filled m0 p c (span i i) m0.
Proof. intros a. by assert (span i i (a - p) = false) as -> by offsets. Qed.

Lemma fill_vectors_filled nt fuel m i :
  filled m0 p c (span i n) m -> 32 <= i <= n -> i < 32 * Z.of_nat fuel + 32 -> (nt = true -> Z.land (p + i) 15 = 0) ->
  exists m' r, fill_vectors nt fuel m p c i = Some m' /\ 0 <= r <= 32 /\ filled m0 p c (span r n) m'.
Proof using M.
  revert m i. induction fuel as [|fuel IH]; intros m i F Hi G A; [lia|]. cbn [fill_vectors].
  destruct (fill_span m [(i - 32, 16%nat); (i - 32 + 16, 16%nat)] i n (i - 32) n F) as (m' & E & F'); [intros k; offsets|intros k; offsets|].
  assert ((if nt then fill_aligned else fill) m p c [(i - 32, 16%nat); (i - 32 + 16, 16%nat)] = Some m') as ->.
  { destruct nt; [|done]. unfold fill_aligned. cbn [forallb fst]. specialize (A eq_refl). rewrite !land_15 in *. replace (p + (i - 32)) with (p + i + (-2) * 16) by lia.
    replace (p + (i - 32 + 16)) with (p + i + (-1) * 16) by lia. rewrite !Z.mod_add, A by done. done. }
  cbn [mbind option_bind]. destruct (Z.gtb_spec (i - 32) 32) as [L|L]; [|exists m', (i - 32); split; [done|]; split; [lia|done]].
  apply IH; try (done || lia). intros T. specialize (A T). rewrite !land_15 in *. replace (p + (i - 32)) with (p + i + (-2) * 16) by lia. by rewrite Z.mod_add.
Qed.

Lemma fill_end_filled fuel m i :
  filled m0 p c (span i n) m -> 0 <= i <= n -> (p + i) mod 16 <= i -> (p + i) mod 16 < Z.of_nat fuel ->
  exists m' r, fill_end fuel m p c i = Some (m', r) /\ i - (p + i) mod 16 <= r <= i /\ Z.land (p + r) 15 = 0 /\ filled m0 p c (span r n) m'.
Proof using M.
  revert m i. induction fuel as [|g IH]; intros m j C Hj Hm F; [pose proof (Z.mod_pos_bound (p + j) 16 ltac:(lia)); lia|]. cbn [fill_end].
  rewrite land_15. destruct (Z.eqb_spec ((p + j) mod 16) 0) as [E|E]; [exists m, j; rewrite land_15; split; [done|]; split; [lia|done]|].
  pose proof (Z.mod_pos_bound (p + j) 16 ltac:(lia)) as B. assert ((p + (j - 1)) mod 16 = (p + j) mod 16 - 1) as E'.
  { symmetry. apply Z.mod_unique with ((p + j) / 16); [lia|]. pose proof (Z.div_mod (p + j) 16 ltac:(lia)). lia. }
  destruct (fill_span m [(j - 1, 1%nat)] j n (j - 1) n C) as (m' & -> & C'); [intros k; offsets|intros k; offsets|]. cbn [mbind option_bind].
  destruct (IH m' (j - 1) C') as (m'' & r & -> & Hr & A & C''); [lia|lia|lia|]. exists m'', r. split; [done|]. split; [lia|done].
Qed.

Lemma fill_pieces ps : (forall k, covers ps k = span 0 n k) -> exists m', fill m0 p c ps = Some m' /\ filled m0 p c (span 0 n) m'.
Proof using M. intros E. apply (fill_span m0 ps 0 0 0 n (filled_none 0)); intros k; rewrite E; offsets. Qed.

(** The first two vectors, which the loops leave out. *)
Lemma fill_start m r : 32 <= n -> 0 <= r <= 32 -> filled m0 p c (span r n) m ->
  exists m', fill m p c [(16, 16%nat); (0, 16%nat)] = Some m' /\ filled m0 p c (span 0 n) m'.
Proof using M. intros Hn Hr F. apply (fill_span m _ r n 0 n F); intros k; offsets. Qed.

Lemma stosb_filled k m i : filled m0 p c (span 0 i) m -> 0 <= i -> i + Z.of_nat k = n -> exists m', stosb k m p c i = Some m' /\ filled m0 p c (span 0 n) m'.
Proof using M.
  revert m i. induction k as [|k IH]; intros m i F Hi E; cbn [stosb]; [exists m; split; [done|]; by replace n with i by lia|].
  destruct (fill_span m [(i, 1%nat)] 0 i 0 (i + 1) F) as (m' & -> & F'); [intros j; offsets|intros j; offsets|]. cbn [mbind option_bind]. apply IH; (done || lia).
Qed.

Lemma fill_bytes_filled k m : filled m0 p c (span (Z.of_nat k) n) m -> Z.of_nat k <= n -> exists m', fill_bytes k m p c = Some m' /\ filled m0 p c (span 0 n) m'.
Proof using M.
  revert m. induction k as [|k IH]; intros m F Hk; cbn [fill_bytes]; [by exists m|].
  destruct (fill_span m [(Z.of_nat k, 1%nat)] (Z.of_nat (S k)) n (Z.of_nat k) n F) as (m' & -> & F'); [intros j; offsets|intros j; offsets|]. cbn [mbind option_bind]. apply IH; (done || lia).
Qed.
End filling.

Lemma memset_filled (tiny avx erms : bool) (half : Z) (fuel : nat) (m : memory) (p c n : Z) :
  0 <= n < 32 * Z.of_nat fuel -> (16 < fuel)%nat -> half = 0 \/ 64 <= half -> (forall k, 0 <= k < n -> is_Some (m (p + k))) ->
  exists m', memset tiny avx erms half fuel m p c n = Some m' /\ filled m p (Z.land c 255) (span 0 n) m'.
Proof.
  intros Hn G Hh M.
  unfold memset. set (b := Z.land c 255). rewrite !Z.geb_leb. destruct (Z.leb_spec n 16).
  { destruct (Z.leb_spec 8 n); [apply fill_pieces; [done|]; intros k; offsets|]. destruct (Z.leb_spec 4 n); [apply fill_pieces; [done|]; intros k; offsets|].
    apply fill_bytes_filled; [done| |lia]. rewrite Z2Nat.id by lia. apply filled_none. }
  destruct tiny; [apply stosb_filled; [done|apply filled_none|lia|lia]|].
  assert (forall nt r m1, filled m p b (span r n) m1 -> 32 < r <= n -> (nt = true -> Z.land (p + r) 15 = 0) ->
    exists m', (m ← fill_vectors nt fuel m1 p b r; fill m p b [(16, 16%nat); (0, 16%nat)]) = Some m' /\ filled m p b (span 0 n) m') as V.
  { intros nt r m1 F Hr A. destruct (fill_vectors_filled m p b n M nt fuel m1 r F) as (m' & i & -> & Hi & F'); [lia|lia|done|]. cbn [mbind option_bind]. eapply fill_start; (done || lia). }
  destruct avx; unfold memset_avx, memset_sse; (destruct (Z.leb_spec n 32); [apply fill_pieces; [done|]; intros k; offsets|]).
  - destruct ((n >=? 1024) && erms); [apply stosb_filled; [done|apply filled_none|lia|lia]|].
    destruct ((n <? half) || (half =? 0)) eqn:Q; [apply (V false n); [apply filled_none|lia|done]|].
    pose proof (Z.mod_pos_bound (p + n) 16 ltac:(lia)). destruct (fill_end_filled m p b n M fuel m n) as (m' & r & -> & Hr & A & F); [apply filled_none|lia|lia|lia|].
    cbn [mbind option_bind]. apply (V true r); [done|lia|done].
  - apply (V false n); [apply filled_none|lia|done].
Qed.

(** Memory is set as a whole. On every path, for every size, memset leaves the low byte of its argument in each byte
    of the region, changes nothing else, and writes nowhere else, though most of its stores overlap. *)
Theorem memset_exact (tiny avx erms : bool) (half : Z) (fuel : nat) (m : memory) (p c n : Z) :
  0 <= n < 32 * Z.of_nat fuel -> (16 < fuel)%nat -> half = 0 \/ 64 <= half -> (forall k, 0 <= k < n -> is_Some (m (p + k))) ->
  exists m', memset tiny avx erms half fuel m p c n = Some m' /\
  forall a, m' a = if (p <=? a) && (a <? p + n) then Some (c mod 256) else m a.
Proof.
  intros Hn G Hh M. rewrite <- (land_255 c). destruct (memset_filled tiny avx erms half fuel m p c n Hn G Hh M) as (m' & E & F). exists m'. split; [done|].
  intros a. rewrite F. by assert (span 0 n (a - p) = (p <=? a) && (a <? p + n)) as -> by offsets.
Qed.

Lemma memset_exact_witness :
  exists m', memset false true false 0 40 (mapped_to 1000 (fun a => a mod 251)) 3 0x141 100 = Some m' /\
  forall a, m' a = if (3 <=? a) && (a <? 103) then Some (0x141 mod 256) else mapped_to 1000 (fun a => a mod 251) a.
Proof.
  apply (memset_exact false true false 0 40 (mapped_to 1000 (fun a => a mod 251)) 3 0x141 100); [lia|lia|by left|].
  intros k Hk. unfold mapped_to. rewrite (proj2 (Z.leb_le _ _)), (proj2 (Z.ltb_lt _ _)) by lia. eexists; reflexivity.
Defined.
