(* ===== verification/StrCopy.v ===== *)
(** * Copying strings (libc/intrin/stpcpy.c, strcpy.c, libc/str/strcat.c, strlcpy.c, strlcat.c,
    strncpy.c, stpncpy.c, strncat.c, memccpy.c)

    The functions that copy by themselves, by vectors or bytes, and those that go by memcpy and bzero, of
    which an interface says what they promise. *)

From S2P Require Import Prelude Memory Strings Memcmp Memmove Memset.

(** [d[i] = s[i]], and the byte. *)
Definition put (m : memory) (d s : Z) : option (memory * Z) :=
  v ← m s;
  m ← store m d [v];
  Some (m, v).

(** [for (; (uintptr_t)(s + i) & 15; ++i)]: and whether the NUL was copied. *)
Fixpoint copy_align (fuel : nat) (m : memory) (d s i : Z) : option (memory * Z * bool) :=
  match fuel with
  | O => None
  | S fuel =>
      if Z.land (s + i) 15 =? 0 then Some (m, i, false)
      else
        '(m, v) ← put m (d + i) (s + i);
        if v =? 0 then Some (m, i, true) else copy_align fuel m d s (i + 1)
  end.

(** The vectors that have no NUL. *)
Fixpoint copy_blocks (fuel : nat) (m : memory) (d s i : Z) : option (memory * Z) :=
  match fuel with
  | O => None
  | S fuel =>
      v ← load m (s + i) 16;
      if pmovmskb ((fun x => x =? 0) <$> v) =? 0 then m ← store m (d + i) v; copy_blocks fuel m d s (i + 16)
      else Some (m, i)
  end.

(** [for (;;)]: bytes, up to the NUL. *)
Fixpoint copy_rest (fuel : nat) (m : memory) (d s i : Z) : option (memory * Z) :=
  match fuel with
  | O => None
  | S fuel =>
      '(m, v) ← put m (d + i) (s + i);
      if v =? 0 then Some (m, d + i) else copy_rest fuel m d s (i + 1)
  end.

Definition stpcpy (sse : bool) (fuel : nat) (m : memory) (d s : Z) : option (memory * Z) :=
  if sse then
    '(m, i, nul) ← copy_align fuel m d s 0;
    if (nul : bool) then Some (m, d + i)
    else
      '(m, i) ← copy_blocks fuel m d s i;
      copy_rest fuel m d s i
  else copy_rest fuel m d s 0.

(** [strcpy]: the same, but for what is returned. *)
Definition strcpy (sse : bool) (fuel : nat) (m : memory) (d s : Z) : option (memory * Z) :=
  '(m, _) ← stpcpy sse fuel m d s; Some (m, d).

Definition strcat (sse : bool) (fuel : nat) (m : memory) (d s : Z) : option (memory * Z) :=
  n ← strlen fuel m d;
  '(m, _) ← strcpy sse fuel m (d + n) s;
  Some (m, d).

(** [while ( *src++)]: the place after the NUL. *)
Fixpoint skip_string (fuel : nat) (m : memory) (src : Z) : option Z :=
  match fuel with
  | O => None
  | S fuel => v ← m src; if v =? 0 then Some (src + 1) else skip_string fuel m (src + 1)
  end.

(** [while (--nleft != 0)] *)
Fixpoint strlcpy_loop (fuel : nat) (m : memory) (dst src nleft : Z) : option (memory * Z * Z * Z) :=
  match fuel with
  | O => None
  | S fuel =>
      let nleft := nleft - 1 in
      if nleft =? 0 then Some (m, dst, src, nleft)
      else
        '(m, v) ← put m dst src;
        if v =? 0 then Some (m, dst + 1, src + 1, nleft) else strlcpy_loop fuel m (dst + 1) (src + 1) nleft
  end.

Definition strlcpy (fuel : nat) (m : memory) (dst osrc dsize : Z) : option (memory * Z) :=
  '(m, dst, src, nleft) ← (if dsize =? 0 then Some (m, dst, osrc, dsize) else strlcpy_loop fuel m dst osrc dsize);
  if nleft =? 0 then
    m ← (if dsize =? 0 then Some m else store m dst [0]);
    src ← skip_string fuel m src;
    Some (m, src - osrc - 1)
  else Some (m, src - osrc - 1).

(** [while (n-- != 0 && *dst)] *)
Fixpoint find_end (fuel : nat) (m : memory) (dst n : Z) : option Z :=
  match fuel with
  | O => None
  | S fuel =>
      if n =? 0 then Some dst
      else v ← m dst; if v =? 0 then Some dst else find_end fuel m (dst + 1) (n - 1)
  end.

(** [while ( *src)] *)
Fixpoint strlcat_loop (fuel : nat) (m : memory) (dst src n : Z) : option (memory * Z * Z) :=
  match fuel with
  | O => None
  | S fuel =>
      v ← m src;
      if v =? 0 then Some (m, dst, src)
      else if negb (n =? 0) then m ← store m dst [v]; strlcat_loop fuel m (dst + 1) (src + 1) (n - 1)
      else strlcat_loop fuel m dst (src + 1) n
  end.

Definition strlcat (fuel : nat) (m : memory) (odst osrc dsize : Z) : option (memory * Z) :=
  dst ← find_end fuel m odst dsize;
  let dlen := dst - odst in
  let n := dsize - dlen in
  if n =? 0 then k ← strlen fuel m osrc; Some (m, dlen + k)
  else
    '(m, dst, src) ← strlcat_loop fuel m dst osrc (n - 1);
    m ← store m dst [0];
    Some (m, dlen + (src - osrc)).

Fixpoint memccpy (n : nat) (m : memory) (d s c : Z) : option (memory * Z) :=
  match n with
  | O => Some (m, 0)
  | S n =>
      '(m, v) ← put m d s;
      if Z.land v 255 =? Z.land c 255 then Some (m, d + 1) else memccpy n m (d + 1) (s + 1) c
  end.

(** What memcpy and bzero promise, for sizes below [limit]. *)
Class Regions (memcpy : memory -> Z -> Z -> Z -> option memory) (bzero : memory -> Z -> Z -> option memory) (limit : Z) : Prop := {
  memcpy_copied m d s n : 0 <= n < limit -> (forall k, 0 <= k < n -> is_Some (m (d + k)) /\ is_Some (m (s + k))) ->
    exists m', memcpy m d s n = Some m' /\ copied m d s (span 0 n) m';
  bzero_filled m p n : 0 <= n < limit -> (forall k, 0 <= k < n -> is_Some (m (p + k))) ->
    exists m', bzero m p n = Some m' /\ filled m p 0 (span 0 n) m'
}.

(** The functions that go by them. *)
Section by_regions.
Context (memcpy : memory -> Z -> Z -> Z -> option memory) (bzero : memory -> Z -> Z -> option memory).

Definition stpncpy (fuel : nat) (m : memory) (dst src dstlen : Z) : option (memory * Z) :=
  srclen ← strlen fuel m src;
  let cpylen := Z.min srclen dstlen in
  m ← (if cpylen =? 0 then Some m else memcpy m dst src cpylen);
  let zerlen := dstlen - cpylen in
  m ← (if zerlen =? 0 then Some m else bzero m (dst + cpylen) zerlen);
  Some (m, dst + cpylen).

(** [strncpy]: the same, but for what is returned. *)
Definition strncpy (fuel : nat) (m : memory) (dst src dstlen : Z) : option (memory * Z) :=
  '(m, _) ← stpncpy fuel m dst src dstlen; Some (m, dst).

Definition strncat (fuel : nat) (m : memory) (d s n : Z) : option (memory * Z) :=
  sn ← strnlen fuel m s n;
  if sn =? 0 then Some (m, d)
  else
    dn ← strlen fuel m d;
    m ← memcpy m (d + dn) s sn;
    m ← store m (d + dn + sn) [0];
    Some (m, d).
End by_regions.

(** [bzero], whose paths are those of memset for zero. *)
Definition bzero (tiny avx erms : bool) (half : Z) (fuel : nat) (m : memory) (p n : Z) : option memory := memset tiny avx erms half fuel m p 0 n.

Lemma regions_libc tiny asan avx erms half half' fuel : (16 < fuel)%nat -> half' = 0 \/ 64 <= half' ->
  Regions (memmove tiny asan erms half fuel) (bzero tiny avx erms half' fuel) (32 * Z.of_nat fuel).
Proof. intros F H. split; intros; [by apply memmove_copied|by apply memset_filled]. Qed.

(* ------------------------------------------------------------------ *)
(** ** What is written *)

(** The bytes [w] are at [p], and all other memory is as it was. *)
Definition written (m0 : memory) (p : Z) (w : bytes) (m : memory) : Prop :=
  forall a, m a = if span 0 (Z.of_nat (length w)) (a - p) then w !! Z.to_nat (a - p) else m0 a.

Lemma written_nil m p : written m p [] m.
Proof. intros a. by assert (span 0 (Z.of_nat (length (@nil Z))) (a - p) = false) as -> by (cbn [length]; offsets). Qed.

Lemma store_written m0 p w m v : written m0 p w m -> (forall k, 0 <= k < Z.of_nat (length w + length v) -> is_Some (m0 (p + k))) ->
  exists m', store m (p + Z.of_nat (length w)) v = Some m' /\ written m0 p (w ++ v) m'.
Proof.
  intros W M. unfold store. assert (is_Some (load m (p + Z.of_nat (length w)) (length v))) as [u ->].
  { apply load_is_Some. intros a Ha. rewrite W. destruct (span _ _ _) eqn:E; [apply lookup_lt_is_Some_2; offsets|]. specialize (M (a - p) ltac:(lia)). by replace (p + (a - p)) with a in M by lia. }
  eexists. split; [reflexivity|]. intros a. cbn beta. rewrite length_app. destruct (Z.lt_ge_cases (a - p) (Z.of_nat (length w))) as [X|X].
  - assert ((p + Z.of_nat (length w) <=? a) && (a <? p + Z.of_nat (length w) + Z.of_nat (length v)) = false) as -> by (apply andb_false_iff; rewrite Z.leb_gt; lia).
    rewrite W. assert (span 0 (Z.of_nat (length w + length v)) (a - p) = span 0 (Z.of_nat (length w)) (a - p)) as -> by offsets.
    destruct (span _ _ _) eqn:E; [|done]. by rewrite lookup_app_l by offsets.
  - assert (span 0 (Z.of_nat (length w + length v)) (a - p) = (p + Z.of_nat (length w) <=? a) && (a <? p + Z.of_nat (length w) + Z.of_nat (length v))) as -> by offsets.
    destruct (_ && _); [rewrite lookup_app_r by lia; f_equal; lia|]. rewrite W. by assert (span 0 (Z.of_nat (length w)) (a - p) = false) as -> by offsets.
Qed.

(** A string in what is written. *)
Lemma written_load m0 p w m : written m0 p w m -> load m p (length w) = Some w.
Proof.
  intros W. apply load_Some. split; [done|]. intros i Hi. rewrite W. assert (span 0 (Z.of_nat (length w)) (p + Z.of_nat i - p) = true) as -> by offsets. f_equal. lia.
Qed.

Lemma written_string m0 p l m : Forall (fun b => b <> 0) l -> written m0 p (l ++ [0]) m -> cstring m p l.
Proof. intros N W. split; [done|]. apply written_load in W. by rewrite length_app, Nat.add_1_r in W. Qed.

(** Memory that is not written to. *)
Lemma written_apart m0 p w m a : written m0 p w m -> span 0 (Z.of_nat (length w)) (a - p) = false -> m a = m0 a.
Proof. intros W S. by rewrite W, S. Qed.

Lemma written_mapped m0 p w m a : written m0 p w m -> (forall k, 0 <= k < Z.of_nat (length w) -> is_Some (m0 (p + k))) -> is_Some (m a) <-> is_Some (m0 a).
Proof.
  intros W M. rewrite W. destruct (span _ _ _) eqn:E; [|done]. specialize (M (a - p) ltac:(offsets)). replace (p + (a - p)) with a in M by lia.
  split; [done|]. intros _. apply lookup_lt_is_Some_2. offsets.
Qed.

(* ------------------------------------------------------------------ *)
(** ** Copying from one region to another *)

(** A source [w] at [s], and [n] bytes to write to at [d] that it does not overlap. *)
Record apart (m0 : memory) (s : Z) (w : bytes) (d : Z) (n : nat) : Prop := {
  source : load m0 s (length w) = Some w;
  target k : 0 <= k < Z.of_nat n -> is_Some (m0 (d + k));
  disjoint j k : 0 <= j < Z.of_nat (length w) -> 0 <= k < Z.of_nat n -> s + j <> d + k
}.

Section apart.
Context (m0 : memory) (s : Z) (w : bytes) (d : Z) (n : nat) (A : apart m0 s w d n).

Lemma source_at u m (i : nat) : written m0 d u m -> (length u <= n)%nat -> (i < length w)%nat -> m (s + Z.of_nat i) = w !! i.
Proof using A.
  intros U L H. rewrite U. destruct (span _ _ _) eqn:E.
  - exfalso. apply (disjoint _ _ _ _ _ A (Z.of_nat i) (s + Z.of_nat i - d)); [lia|offsets|lia].
  - pose proof (source _ _ _ _ _ A) as S. apply load_Some in S as [_ S]. by apply S.
Qed.

Lemma put_ok u m (i : nat) v : written m0 d u m -> (length u < n)%nat -> w !! i = Some v ->
  exists m', put m (d + Z.of_nat (length u)) (s + Z.of_nat i) = Some (m', v) /\ written m0 d (u ++ [v]) m'.
Proof using A.
  intros U L V. unfold put. rewrite (source_at u) by (done || lia || by eapply lookup_lt_Some). rewrite V. cbn [mbind option_bind].
  destruct (store_written m0 d u m [v] U) as (m' & -> & U'); [intros k Hk; apply (target _ _ _ _ _ A); cbn in Hk; lia|]. by exists m'.
Qed.

Lemma store_next u m v : written m0 d u m -> (length u < n)%nat -> exists m', store m (d + Z.of_nat (length u)) [v] = Some m' /\ written m0 d (u ++ [v]) m'.
Proof using A. intros U L. apply store_written; [done|]. intros k Hk. apply (target _ _ _ _ _ A). cbn in Hk. lia. Qed.
End apart.

Section strings.
Context (m0 : memory) (s : Z) (l : bytes) (d : Z) (W : well_mapped m0) (C : cstring m0 s l).

Lemma string_source : load m0 s (length (l ++ [0])) = Some (l ++ [0]).
Proof using C. destruct C as [_ L]. by rewrite length_app, Nat.add_1_r. Qed.

Lemma string_at (i : nat) v : (l ++ [0]) !! i = Some v -> (v =? 0) = bool_decide (i = length l).
Proof using C.
  intros E. destruct C as [N _]. destruct (Nat.lt_trichotomy i (length l)) as [X|[->|X]].
  - rewrite lookup_app_l in E by done. pose proof (Forall_lookup_1 _ _ _ _ N E). rewrite bool_decide_false by lia. by apply Z.eqb_neq.
  - rewrite list_lookup_middle in E by done. injection E as <-. by rewrite bool_decide_true.
  - apply lookup_lt_Some in E. rewrite length_app in E. cbn in E. lia.
Qed.

Context (A : apart m0 s (l ++ [0]) d (S (length l))).

(** One byte more. *)
Lemma put_next m (i : nat) : written m0 d (take i (l ++ [0])) m -> (i <= length l)%nat ->
  exists m' v, put m (d + Z.of_nat i) (s + Z.of_nat i) = Some (m', v) /\ (v =? 0) = bool_decide (i = length l) /\ written m0 d (take (S i) (l ++ [0])) m'.
Proof using C A.
  intros U I. destruct (lookup_lt_is_Some_2 (l ++ [0]) i) as [v V]; [rewrite length_app; cbn; lia|].
  assert (length (take i (l ++ [0])) = i) as Li by (rewrite length_take, length_app; cbn; lia).
  destruct (put_ok m0 s _ d _ A _ m i v U ltac:(lia) V) as (m' & E & U'). rewrite Li in E. exists m', v. split; [done|]. split; [by apply string_at|]. by rewrite (take_S_r _ _ _ V).
Qed.

Lemma copy_rest_ok fuel : forall m (i : nat), written m0 d (take i (l ++ [0])) m -> (i <= length l)%nat -> (length l - i < fuel)%nat ->
  exists m', copy_rest fuel m d s (Z.of_nat i) = Some (m', d + Z.of_nat (length l)) /\ written m0 d (l ++ [0]) m'.
Proof using C A.
  induction fuel as [|fuel IH]; intros m i U I F; [lia|]. cbn [copy_rest]. destruct (put_next m i U I) as (m' & v & -> & V & U'). cbn [mbind option_bind]. rewrite V.
  case_bool_decide as X; [subst i; exists m'; split; [done|]; rewrite take_ge in U' by (rewrite length_app; cbn; lia); done|].
  replace (Z.of_nat i + 1) with (Z.of_nat (S i)) by lia. apply IH; (done || lia).
Qed.

Lemma copy_align_ok fuel : forall m (i : nat), written m0 d (take i (l ++ [0])) m -> (i <= length l)%nat -> (length l - i < fuel)%nat ->
  exists m' (j : nat) nul, copy_align fuel m d s (Z.of_nat i) = Some (m', Z.of_nat j, nul) /\
    if (nul : bool) then j = length l /\ written m0 d (l ++ [0]) m' else (i <= j <= length l)%nat /\ (16 | s + Z.of_nat j) /\ written m0 d (take j (l ++ [0])) m'.
Proof using C A.
  induction fuel as [|fuel IH]; intros m i U I F; [lia|]. cbn [copy_align]. destruct (Z.eqb_spec (Z.land (s + Z.of_nat i) 15) 0) as [E|E].
  { exists m, i, false. split; [done|]. split; [lia|]. split; [|done]. rewrite land_15 in E. by apply Z.mod_divide. }
  destruct (put_next m i U I) as (m' & v & -> & V & U'). cbn [mbind option_bind]. rewrite V.
  case_bool_decide as X; [subst i; exists m', (length l), true; split; [done|]; split; [done|]; by rewrite take_ge in U' by (rewrite length_app; cbn; lia)|].
  replace (Z.of_nat i + 1) with (Z.of_nat (S i)) by lia. destruct (IH m' (S i) U') as (m'' & j & nul & -> & R); [lia|lia|]. exists m'', j, nul. split; [done|]. destruct nul; [done|]. destruct R as (J & R). split; [lia|done].
Qed.

(** A vector of memory that has been written to in part. *)
Lemma load_vector m u (i : nat) : written m0 d u m -> (length u <= S (length l))%nat -> (i <= length l)%nat -> (16 | s + Z.of_nat i) ->
  exists v, load m (s + Z.of_nat i) 16 = Some v /\ forall j x, v !! j = Some x -> (i + j <= length l)%nat -> (l ++ [0]) !! (i + j)%nat = Some x.
Proof using W C A.
  intros U Lu I D. assert (is_Some (m0 (s + Z.of_nat i))) as Mi.
  { destruct (lookup_lt_is_Some_2 (l ++ [0]) i) as [v V]; [rewrite length_app; cbn; lia|]. exists v. by apply (load_lookup _ _ _ _ _ _ string_source). }
  destruct (load_aligned m0 16 (s + Z.of_nat i) (s + Z.of_nat i) W) as [v0 V0]; [by exists 256|lia|done|lia|done|].
  assert (is_Some (load m (s + Z.of_nat i) 16)) as [v V].
  { apply load_is_Some. intros a Ha. eapply written_mapped; [exact U|intros k Hk; apply (target _ _ _ _ _ A); lia|]. apply load_Some in V0 as [L0 V0].
    specialize (V0 (Z.to_nat (a - (s + Z.of_nat i))) ltac:(lia)). replace (s + Z.of_nat i + Z.of_nat (Z.to_nat (a - (s + Z.of_nat i)))) with a in V0 by lia. rewrite V0. apply lookup_lt_is_Some_2. lia. }
  exists v. split; [done|]. intros j x X J. rewrite <- (source_at m0 s _ d _ A u m) by (done || (rewrite ?length_app; cbn; lia)).
  pose proof (load_lookup _ _ _ _ _ _ V X) as Y. by replace (s + Z.of_nat i + Z.of_nat j) with (s + Z.of_nat (i + j)) in Y by lia.
Qed.

Lemma copy_blocks_ok fuel : forall m (i : nat), written m0 d (take i (l ++ [0])) m -> (i <= length l)%nat -> (16 | s + Z.of_nat i) -> (length l - i < 16 * fuel)%nat ->
  exists m' (j : nat), copy_blocks fuel m d s (Z.of_nat i) = Some (m', Z.of_nat j) /\ (i <= j <= length l)%nat /\ written m0 d (take j (l ++ [0])) m'.
Proof using W C A.
  induction fuel as [|fuel IH]; intros m i U I D F; [lia|]. cbn [copy_blocks]. assert (length (take i (l ++ [0])) = i) as Li by (rewrite length_take, length_app; cbn; lia).
  destruct (load_vector m _ i U ltac:(lia) I D) as (v & V & E). rewrite V. cbn [mbind option_bind]. pose proof (mask_marks (fun x => x =? 0) v) as M. pose proof V as V'. apply load_Some in V' as [Lv _].
  destruct (first _ v) as [k|] eqn:Fi; cbn [marks] in M; [destruct M as [Nz _]; rewrite (proj2 (Z.eqb_neq _ _) Nz); exists m, i; split; [done|]; split; [lia|done]|].
  rewrite M. cbn [Z.eqb]. assert (i + 16 <= length l)%nat as K.
  { apply Nat.nlt_ge. intros X. destruct (lookup_lt_is_Some_2 v (length l - i) ltac:(lia)) as [x Y]. pose proof (E _ _ Y ltac:(lia)) as T.
    replace (i + (length l - i))%nat with (length l) in T by lia. rewrite list_lookup_middle in T by done. injection T as <-.
    pose proof (proj1 (first_None _ _) Fi 0 (list_elem_of_lookup_2 _ _ _ Y)). done. }
  destruct (store_written m0 d _ m v U) as (m' & S & U'); [intros k Hk; apply (target _ _ _ _ _ A); lia|]. rewrite Li in S. rewrite S. cbn [mbind option_bind].
  assert (take i (l ++ [0]) ++ v = take (i + 16) (l ++ [0])) as T.
  { rewrite <- take_take_drop. f_equal. apply list_eq_same_length with 16%nat; [rewrite length_take, length_drop, length_app; cbn [length]; lia|done|].
    intros j x y J X Y. apply lookup_take_Some in Y as [Y _]. rewrite lookup_drop, (E j x X) in Y by lia. congruence. }
  rewrite T in U'. replace (Z.of_nat i + 16) with (Z.of_nat (i + 16)) by lia.
  destruct (IH m' (i + 16)%nat U') as (m'' & j & -> & J & R); [lia| |lia|].
  - replace (s + Z.of_nat (i + 16)) with (s + Z.of_nat i + 16) by lia. apply Z.divide_add_r; [done|apply Z.divide_refl].
  - exists m'', j. split; [done|]. split; [lia|done].
Qed.

Lemma stpcpy_ok sse fuel : (length l < fuel)%nat -> exists m', stpcpy sse fuel m0 d s = Some (m', d + Z.of_nat (length l)) /\ written m0 d (l ++ [0]) m'.
Proof using W C A.
  intros F. unfold stpcpy. destruct sse; [|apply (copy_rest_ok fuel m0 0); [apply written_nil|lia|lia]].
  destruct (copy_align_ok fuel m0 0 (written_nil _ _)) as (m1 & j & nul & E & R); [lia|lia|]. change (Z.of_nat 0) with 0 in E. rewrite E. cbn [mbind option_bind].
  destruct nul; [destruct R as [-> R]; by exists m1|]. destruct R as (J & D & U). destruct (copy_blocks_ok fuel m1 j U) as (m2 & k & -> & K & U2); [lia|done|lia|].
  cbn [mbind option_bind]. apply copy_rest_ok; [done|lia|lia].
Qed.
End strings.

(* ------------------------------------------------------------------ *)
(** ** strlcpy, strlcat and memccpy *)

Section limited.
Context (m0 : memory) (s : Z) (l : bytes) (d : Z) (n : nat) (C : cstring m0 s l) (A : apart m0 s (l ++ [0]) d (n `min` S (length l))).

(** The rest of the source, whatever has been written. *)
Lemma skip_string_ok u m fuel : written m0 d u m -> (length u <= n `min` S (length l))%nat -> forall i : nat, (i <= length l)%nat -> (length l - i < fuel)%nat ->
  skip_string fuel m (s + Z.of_nat i) = Some (s + Z.of_nat (length l) + 1).
Proof using C A.
  intros U L. induction fuel as [|fuel IH]; intros i I F; [lia|]. cbn [skip_string]. destruct (lookup_lt_is_Some_2 (l ++ [0]) i) as [v V]; [rewrite length_app; cbn; lia|].
  rewrite (source_at _ _ _ _ _ A u m i U L) by (rewrite length_app; cbn; lia). rewrite V. cbn [mbind option_bind]. rewrite (string_at m0 s l C i v V).
  case_bool_decide; [subst i; f_equal; lia|]. replace (s + Z.of_nat i + 1) with (s + Z.of_nat (S i)) by lia. apply IH; lia.
Qed.

Lemma strlcpy_loop_ok fuel : forall m (i : nat), written m0 d (take i (l ++ [0])) m -> (i <= length l)%nat -> (i < n)%nat -> (length l - i < fuel)%nat ->
  exists m', written m0 d (take (n - 1) (l ++ [0])) m' /\ strlcpy_loop fuel m (d + Z.of_nat i) (s + Z.of_nat i) (Z.of_nat (n - i)) =
    Some (if (n - 1 <=? length l)%nat then (m', d + Z.of_nat (n - 1), s + Z.of_nat (n - 1), 0)
          else (m', d + Z.of_nat (S (length l)), s + Z.of_nat (S (length l)), Z.of_nat (n - S (length l)))).
Proof using C A.
  induction fuel as [|fuel IH]; intros m i U I N F; [lia|]. cbn [strlcpy_loop]. cbn zeta. destruct (Z.eqb_spec (Z.of_nat (n - i) - 1) 0) as [E|E].
  { assert (i = n - 1)%nat as -> by lia. exists m. split; [done|]. rewrite (proj2 (Nat.leb_le _ _)) by lia. by rewrite E. }
  destruct (lookup_lt_is_Some_2 (l ++ [0]) i) as [v V]; [rewrite length_app; cbn; lia|].
  assert (length (take i (l ++ [0])) = i) as Li by (rewrite length_take, length_app; cbn; lia).
  destruct (put_ok m0 s _ d _ A _ m i v U ltac:(lia) V) as (m' & P & U'). rewrite Li in P. rewrite P. cbn [mbind option_bind]. rewrite (string_at m0 s l C i v V). rewrite <- (take_S_r _ _ _ V) in U'.
  replace (d + Z.of_nat i + 1) with (d + Z.of_nat (S i)) by lia. replace (s + Z.of_nat i + 1) with (s + Z.of_nat (S i)) by lia.
  replace (Z.of_nat (n - i) - 1) with (Z.of_nat (n - S i)) by lia. case_bool_decide as X.
  - subst i. exists m'. split; [|by rewrite (proj2 (Nat.leb_gt _ _)) by lia]. rewrite take_ge in U' by (rewrite length_app; cbn; lia). by rewrite take_ge by (rewrite length_app; cbn; lia).
  - apply IH; (done || lia).
Qed.

Lemma strlcpy_ok fuel : (length l < fuel)%nat ->
  exists m', strlcpy fuel m0 d s (Z.of_nat n) = Some (m', Z.of_nat (length l)) /\ written m0 d (if (n =? 0)%nat then [] else take (n - 1) l ++ [0]) m'.
Proof using C A.
  intros F. unfold strlcpy. destruct (Nat.eqb_spec n 0) as [N|N].
  { rewrite !(proj2 (Z.eqb_eq (Z.of_nat n) 0)) by lia. cbn [mbind option_bind]. rewrite (proj2 (Z.eqb_eq (Z.of_nat n) 0)) by lia. cbn [mbind option_bind]. pose proof (skip_string_ok [] m0 fuel (written_nil _ _) ltac:(cbn; lia) 0 ltac:(lia) ltac:(lia)) as K. rewrite Z.add_0_r in K. rewrite K.
    exists m0. split; [cbn; do 2 f_equal; lia|apply written_nil]. }
  rewrite (proj2 (Z.eqb_neq (Z.of_nat n) 0)) by lia. destruct (strlcpy_loop_ok fuel m0 0 (written_nil _ _)) as (m1 & U & E); [lia|lia|lia|].
  rewrite Nat.sub_0_r, !Z.add_0_r in E. rewrite E. clear E. destruct (Nat.leb_spec (n - 1) (length l)) as [X|X]; cbn [mbind option_bind Z.eqb].
  - assert (length (take (n - 1) (l ++ [0])) = (n - 1)%nat) as Ln by (rewrite length_take, length_app; cbn; lia).
    destruct (store_next m0 s _ d _ A _ m1 0 U ltac:(lia)) as (m2 & S & U2). rewrite Ln in S. rewrite S. cbn [mbind option_bind].
    rewrite (skip_string_ok _ m2 fuel U2) by (rewrite ?length_app, ?Ln; cbn; lia). cbn [mbind option_bind]. exists m2. split; [do 2 f_equal; lia|]. by rewrite take_app_le in U2 by lia.
  - rewrite (proj2 (Z.eqb_neq _ 0)) by lia. exists m1. split; [do 2 f_equal; lia|]. rewrite take_ge in U by (rewrite length_app; cbn; lia). by rewrite take_ge by lia.
Qed.

Lemma strlcat_loop_ok fuel : forall m (i : nat), (0 < n)%nat -> written m0 d (take (i `min` (n - 1)) l) m -> (i <= length l)%nat -> (length l - i < fuel)%nat ->
  exists m', strlcat_loop fuel m (d + Z.of_nat (i `min` (n - 1))) (s + Z.of_nat i) (Z.of_nat (n - 1 - i)) =
    Some (m', d + Z.of_nat (length l `min` (n - 1)), s + Z.of_nat (length l)) /\ written m0 d (take (n - 1) l) m'.
Proof using C A.
  induction fuel as [|fuel IH]; intros m i N U I F; [lia|]. cbn [strlcat_loop]. destruct (lookup_lt_is_Some_2 (l ++ [0]) i) as [v V]; [rewrite length_app; cbn; lia|].
  assert (length (take (i `min` (n - 1)) l) = i `min` (n - 1))%nat as Li by (rewrite length_take; lia).
  rewrite (source_at _ _ _ _ _ A _ m i U) by (rewrite ?Li, ?length_app; cbn [length]; lia). rewrite V. cbn [mbind option_bind]. rewrite (string_at m0 s l C i v V). case_bool_decide as X.
  { subst i. exists m. split; [done|]. destruct (Nat.le_ge_cases (length l) (n - 1)); [rewrite Nat.min_l in U by done; rewrite take_ge in U by done; by rewrite take_ge|by rewrite Nat.min_r in U]. }
  rewrite lookup_app_l in V by lia. destruct (Z.eqb_spec (Z.of_nat (n - 1 - i)) 0) as [E|E]; cbn [negb].
  - replace (s + Z.of_nat i + 1) with (s + Z.of_nat (S i)) by lia. specialize (IH m (S i)). rewrite (Nat.min_r (S i)), (Nat.min_r i) in * by lia.
    replace (n - 1 - i)%nat with (n - 1 - S i)%nat by lia. apply IH; (done || lia).
  - destruct (store_next m0 s _ d _ A _ m v U ltac:(lia)) as (m' & P & U'). rewrite Li in P. rewrite P. cbn [mbind option_bind]. specialize (IH m' (S i)).
    rewrite (Nat.min_l (S i)), (Nat.min_l i) in * by lia. rewrite <- (take_S_r _ _ _ V) in U'.
    replace (d + Z.of_nat i + 1) with (d + Z.of_nat (S i)) by lia. replace (s + Z.of_nat i + 1) with (s + Z.of_nat (S i)) by lia.
    replace (Z.of_nat (n - 1 - i) - 1) with (Z.of_nat (n - 1 - S i)) by lia. apply IH; (done || lia).
Qed.
End limited.

Lemma find_end_ok fuel m s n k : bounded m s n k -> forall i, 0 <= i <= k -> k - i < Z.of_nat fuel -> find_end fuel m (s + i) (n - i) = Some (s + k).
Proof.
  intros B. induction fuel as [|fuel IH]; intros i Hi F; [lia|]. cbn [find_end]. destruct (Z.eqb_spec (n - i) 0) as [E|E]; [destruct B; f_equal; lia|].
  destruct (bounded_byte m s n k B i Hi ltac:(lia)) as (v & -> & V). cbn [mbind option_bind]. destruct (Z.eqb_spec v 0) as [X|X]; [apply V in X as ->; done|].
  replace (s + i + 1) with (s + (i + 1)) by lia. replace (n - i - 1) with (n - (i + 1)) by lia. assert (i <> k) by (intros ?; by apply X, V). apply IH; lia.
Qed.

(** A string that ends before the limit. *)
Lemma cstring_bounded m s l n : cstring m s l -> Z.of_nat (length l) < n -> bounded m s n (Z.of_nat (length l)).
Proof.
  intros C L. split; [lia|]. split.
  - intros i Hi. destruct C as [N E]. destruct (lookup_lt_is_Some_2 l (Z.to_nat i) ltac:(lia)) as [v V]. exists v. split.
    + replace i with (Z.of_nat (Z.to_nat i)) by lia. apply (load_lookup _ _ _ _ _ _ E). by rewrite lookup_app_l by lia.
    + apply Z.eqb_neq. by apply (Forall_lookup_1 _ _ _ _ N V).
  - intros _. destruct C as [_ E]. apply (load_lookup _ _ _ _ _ _ E). by rewrite list_lookup_middle.
Qed.

(** The string that appending makes. *)
Lemma written_append m0 d r l m : cstring m0 d r -> Forall (fun b => b <> 0) l -> written m0 (d + Z.of_nat (length r)) (l ++ [0]) m -> cstring m d (r ++ l).
Proof.
  intros [Nr Lr] Nl U. split; [by apply Forall_app|]. pose proof (written_load _ _ _ _ U) as L. apply load_Some in Lr as [_ Lr]. apply load_Some in L as [_ L]. rewrite length_app in L. cbn [length] in L.
  apply load_Some. split; [rewrite !length_app; cbn; lia|]. intros i Hi. rewrite length_app in Hi. rewrite <- app_assoc. destruct (Nat.lt_ge_cases i (length r)) as [X|X].
  - rewrite (written_apart _ _ _ _ _ U) by (rewrite length_app; cbn; offsets). rewrite Lr, !lookup_app_l by lia. done.
  - rewrite lookup_app_r by lia. rewrite <- L by lia. f_equal. lia.
Qed.

(** What strcpy, stpcpy and strcat promise. Where the source is a string that the place to write to does not
    overlap, exactly its bytes and the NUL are written, by vectors and without, and nothing but the pages
    of the strings is read. *)
Theorem string_copy_exact sse m d s l fuel :
  well_mapped m -> cstring m s l -> (length l < fuel)%nat ->
  (apart m s (l ++ [0]) d (S (length l)) ->
    exists m', stpcpy sse fuel m d s = Some (m', d + Z.of_nat (length l)) /\ strcpy sse fuel m d s = Some (m', d) /\ written m d (l ++ [0]) m') /\
  (forall r, cstring m d r -> (length r < fuel)%nat -> apart m s (l ++ [0]) (d + Z.of_nat (length r)) (S (length l)) ->
    exists m', strcat sse fuel m d s = Some (m', d) /\ written m (d + Z.of_nat (length r)) (l ++ [0]) m' /\ cstring m' d (r ++ l)).
Proof.
  intros W C F. split.
  - intros A. destruct (stpcpy_ok m s l d W C A sse fuel F) as (m' & E & U). exists m'. unfold strcpy. by rewrite E.
  - intros r R G A. unfold strcat, strcpy. rewrite (strlen_ok _ _ _ _ W R G). cbn [mbind option_bind].
    destruct (stpcpy_ok m s l _ W C A sse fuel F) as (m' & -> & U). cbn [mbind option_bind]. exists m'. split; [done|]. split; [done|]. destruct C as [N _]. by eapply written_append.
Qed.

(** C14: What strlcpy and strlcat promise. They write no byte behind the limit, and end what they write with a
    NUL where there is room for one; what they return is the length of the string that they were asked to
    make, for any source that the place to write to does not overlap. *)
Theorem strl_exact m d s l (n : nat) fuel :
  well_mapped m -> cstring m s l -> (length l < fuel)%nat ->
  (apart m s (l ++ [0]) d (n `min` S (length l)) ->
    exists m', strlcpy fuel m d s (Z.of_nat n) = Some (m', Z.of_nat (length l)) /\ written m d (if (n =? 0)%nat then [] else take (n - 1) l ++ [0]) m') /\
  (forall r, cstring m d r -> (length r < n)%nat -> (length r < fuel)%nat -> apart m s (l ++ [0]) (d + Z.of_nat (length r)) ((n - length r) `min` S (length l)) ->
    exists m', strlcat fuel m d s (Z.of_nat n) = Some (m', Z.of_nat (length r) + Z.of_nat (length l)) /\
      written m (d + Z.of_nat (length r)) (take (n - length r - 1) l ++ [0]) m' /\ cstring m' d (take (n - 1) (r ++ l))) /\
  (bounded m d (Z.of_nat n) (Z.of_nat n) -> (n < fuel)%nat -> strlcat fuel m d s (Z.of_nat n) = Some (m, Z.of_nat n + Z.of_nat (length l))).
Proof.
  intros W C F. split; [intros A; by apply strlcpy_ok|]. split.
  - intros r R N G A. unfold strlcat. pose proof (find_end_ok fuel m d (Z.of_nat n) (Z.of_nat (length r)) (cstring_bounded m d r (Z.of_nat n) R ltac:(lia)) 0 ltac:(lia) ltac:(lia)) as E.
    rewrite Z.add_0_r, Z.sub_0_r in E. rewrite E. cbn [mbind option_bind]. cbn zeta. rewrite Z.add_simpl_l, (proj2 (Z.eqb_neq _ 0)) by lia.
    destruct (strlcat_loop_ok m s l _ _ C A fuel m 0) as (m1 & L & U); [lia|apply written_nil|lia|lia|]. cbn [Nat.min] in L. rewrite !Z.add_0_r, Nat.sub_0_r in L.
    replace (Z.of_nat n - Z.of_nat (length r) - 1) with (Z.of_nat (n - length r - 1)) by lia. rewrite L. cbn [mbind option_bind].
    assert (length (take (n - length r - 1) l) = (length l `min` (n - length r - 1))%nat) as Lt by (rewrite length_take; lia).
    destruct (store_next m s _ _ _ A _ m1 0 U ltac:(lia)) as (m2 & P & U2). rewrite Lt in P. rewrite P. cbn [mbind option_bind]. exists m2. split; [do 2 f_equal; lia|]. split; [done|].
    rewrite take_app_ge by lia. replace (n - 1 - length r)%nat with (n - length r - 1)%nat by lia. destruct C as [Nl _]. eapply written_append; [done|by apply Forall_take|done].
  - intros B G. unfold strlcat. pose proof (find_end_ok fuel m d _ _ B 0 ltac:(lia) ltac:(lia)) as E. rewrite Z.add_0_r, Z.sub_0_r in E. rewrite E. cbn [mbind option_bind]. cbn zeta.
    rewrite Z.add_simpl_l, Z.sub_diag. cbn [Z.eqb]. by rewrite (strlen_ok _ _ _ _ W C F).
Qed.

(** What is written, from what memcpy and bzero promise. *)
Lemma copied_written m0 d s w m : load m0 s (length w) = Some w -> copied m0 d s (span 0 (Z.of_nat (length w))) m -> written m0 d w m.
Proof.
  intros L H a. rewrite H. destruct (span _ _ _) eqn:E; [|done]. assert (0 <= a - d < Z.of_nat (length w)) as R by offsets. apply load_Some in L as [_ L]. rewrite <- L by lia. f_equal. lia.
Qed.

Lemma filled_written m0 d w m k m' : written m0 d w m -> filled m (d + Z.of_nat (length w)) 0 (span 0 (Z.of_nat k)) m' -> written m0 d (w ++ replicate k 0) m'.
Proof.
  intros U F a. rewrite F, U, length_app, length_replicate. destruct (Z.lt_ge_cases (a - d) (Z.of_nat (length w))) as [X|X].
  - assert (span 0 (Z.of_nat k) (a - (d + Z.of_nat (length w))) = false) as -> by offsets.
    assert (span 0 (Z.of_nat (length w + k)) (a - d) = span 0 (Z.of_nat (length w)) (a - d)) as -> by offsets. destruct (span _ _ _) eqn:E; [|done]. by rewrite lookup_app_l by offsets.
  - assert (span 0 (Z.of_nat (length w + k)) (a - d) = span 0 (Z.of_nat k) (a - (d + Z.of_nat (length w)))) as -> by offsets. destruct (span 0 (Z.of_nat k) _) eqn:E.
    + rewrite lookup_app_r by offsets. symmetry. apply lookup_replicate_2. offsets.
    + by assert (span 0 (Z.of_nat (length w)) (a - d) = false) as -> by offsets.
Qed.

Section regions.
Context (memcpy : memory -> Z -> Z -> Z -> option memory) (bzero : memory -> Z -> Z -> option memory) (limit : Z) `{!Regions memcpy bzero limit}.

Lemma stpncpy_ok m d s (n : nat) fuel l :
  well_mapped m -> Z.of_nat n < limit -> cstring m s l -> (length l < fuel)%nat -> (forall k, 0 <= k < Z.of_nat n -> is_Some (m (d + k))) ->
  exists m', stpncpy memcpy bzero fuel m d s (Z.of_nat n) = Some (m', d + Z.of_nat (length l `min` n)) /\ written m d (take n l ++ replicate (n - length l) 0) m'.
Proof.
  intros W B C F M. unfold stpncpy. rewrite (strlen_ok _ _ _ _ W C F). cbn [mbind option_bind]. cbn zeta. rewrite <- Nat2Z.inj_min. set (k := (length l `min` n)%nat).
  assert (length (take n l) = k) as Lk by (rewrite length_take; lia). destruct C as [_ L].
  assert (exists m1, (if Z.of_nat k =? 0 then Some m else memcpy m d s (Z.of_nat k)) = Some m1 /\ written m d (take n l) m1) as (m1 & -> & U).
  { destruct (Z.eqb_spec (Z.of_nat k) 0) as [X|X]; [exists m; split; [done|]; destruct (take n l); [apply written_nil|cbn in Lk; lia]|].
    destruct (memcpy_copied m d s (Z.of_nat k)) as (m1 & -> & Cp); [lia| |].
    - intros j Hj. split; [apply M; lia|]. apply load_Some in L as [_ L]. specialize (L (Z.to_nat j) ltac:(lia)). rewrite Z2Nat.id in L by lia. rewrite L. apply lookup_lt_is_Some_2. rewrite length_app. lia.
    - exists m1. split; [done|]. apply (copied_written _ _ s); [|by rewrite Lk]. pose proof (load_sub _ _ _ _ 0 k L ltac:(lia)) as T. rewrite Z.add_0_r, drop_0, take_app_le in T by lia.
      rewrite Lk, T. f_equal. unfold k. by rewrite Nat.min_comm, <- take_take, (take_ge l (length l)). }
  cbn [mbind option_bind]. assert (exists m2, (if Z.of_nat n - Z.of_nat k =? 0 then Some m1 else bzero m1 (d + Z.of_nat k) (Z.of_nat n - Z.of_nat k)) = Some m2 /\ written m d (take n l ++ replicate (n - length l) 0) m2) as (m2 & -> & U2).
  { replace (Z.of_nat n - Z.of_nat k) with (Z.of_nat (n - length l)) by lia. destruct (Z.eqb_spec (Z.of_nat (n - length l)) 0) as [X|X].
    - exists m1. split; [done|]. replace (n - length l)%nat with 0%nat by lia. by rewrite app_nil_r.
    - destruct (bzero_filled m1 (d + Z.of_nat k) (Z.of_nat (n - length l))) as (m2 & -> & Fl); [lia| |].
      + intros j Hj. rewrite <- Z.add_assoc. eapply written_mapped; [exact U|intros i Hi; apply M; lia|apply M; lia].
      + exists m2. split; [done|]. apply (filled_written _ _ _ m1); [done|by rewrite Lk]. }
  cbn [mbind option_bind]. by exists m2.
Qed.

Lemma strncat_ok m d s (n : nat) fuel l r :
  well_mapped m -> Z.of_nat n < limit -> load m s (length l) = Some l -> bounded m s (Z.of_nat n) (Z.of_nat (length l)) -> cstring m d r ->
  (length l < fuel)%nat -> (length r < fuel)%nat -> (forall k, 0 <= k <= Z.of_nat (length l) -> is_Some (m (d + Z.of_nat (length r) + k))) ->
  exists m', strncat memcpy fuel m d s (Z.of_nat n) = Some (m', d) /\ written m (d + Z.of_nat (length r)) (l ++ [0]) m' /\ cstring m' d (r ++ l).
Proof.
  intros W B L Bd R F G M. unfold strncat. rewrite (strnlen_ok fuel m s _ _ W Bd) by lia. cbn [mbind option_bind].
  assert (Forall (fun b => b <> 0) l) as Nl.
  { apply Forall_lookup. intros i v V. destruct Bd as (_ & H & _). pose proof (lookup_lt_Some _ _ _ V). destruct (H (Z.of_nat i) ltac:(lia)) as (x & E & X).
    rewrite (load_lookup _ _ _ _ _ _ L V) in E. injection E as ->. by apply Z.eqb_neq. }
  cut (exists m', (if Z.of_nat (length l) =? 0 then Some (m, d) else dn ← strlen fuel m d; m' ← memcpy m (d + dn) s (Z.of_nat (length l)); m' ← store m' (d + dn + Z.of_nat (length l)) [0]; Some (m', d)) = Some (m', d) /\
    written m (d + Z.of_nat (length r)) (l ++ [0]) m').
  { intros (m' & E & U). exists m'. split; [done|]. split; [done|]. by eapply written_append. }
  destruct (Z.eqb_spec (Z.of_nat (length l)) 0) as [X|X].
  + destruct l; [|cbn in X; lia]. exists m. split; [done|]. intros a. cbn [app length]. destruct (span _ _ _) eqn:E; [|done]. replace a with (d + Z.of_nat (length r)) by (cbn in E; offsets).
    rewrite Z.sub_diag. destruct R as [_ R]. apply (load_lookup _ _ _ _ _ _ R). by rewrite list_lookup_middle.
  + rewrite (strlen_ok _ _ _ _ W R G). cbn [mbind option_bind]. destruct (memcpy_copied m (d + Z.of_nat (length r)) s (Z.of_nat (length l))) as (m1 & -> & Cp); [destruct Bd; lia| |].
    { intros k Hk. split; [apply M; lia|]. apply load_Some in L as [_ L]. specialize (L (Z.to_nat k) ltac:(lia)). rewrite Z2Nat.id in L by lia. rewrite L. apply lookup_lt_is_Some_2. lia. }
    cbn [mbind option_bind]. destruct (store_written m (d + Z.of_nat (length r)) l m1 [0]) as (m2 & -> & U); [by apply (copied_written _ _ s)|intros k Hk; apply M; cbn in Hk; lia|]. by exists m2.
Qed.

(** What strncpy, stpncpy and strncat promise, of any memcpy and bzero that do what they should, also where
    the regions overlap: the first fills the whole of the place to write to, and the last appends no more
    than it is told to. *)
Theorem strn_exact m d s (n : nat) fuel :
  well_mapped m -> Z.of_nat n < limit ->
  (forall l, cstring m s l -> (length l < fuel)%nat -> (forall k, 0 <= k < Z.of_nat n -> is_Some (m (d + k))) ->
    exists m', stpncpy memcpy bzero fuel m d s (Z.of_nat n) = Some (m', d + Z.of_nat (length l `min` n)) /\ strncpy memcpy bzero fuel m d s (Z.of_nat n) = Some (m', d) /\
      written m d (take n l ++ replicate (n - length l) 0) m') /\
  (forall l r, load m s (length l) = Some l -> bounded m s (Z.of_nat n) (Z.of_nat (length l)) -> cstring m d r -> (length l < fuel)%nat -> (length r < fuel)%nat ->
    (forall k, 0 <= k <= Z.of_nat (length l) -> is_Some (m (d + Z.of_nat (length r) + k))) ->
    exists m', strncat memcpy fuel m d s (Z.of_nat n) = Some (m', d) /\ written m (d + Z.of_nat (length r)) (l ++ [0]) m' /\ cstring m' d (r ++ l)).
Proof.
  intros W B. split.
  - intros l C F M. destruct (stpncpy_ok m d s n fuel l W B C F M) as (m' & E & U). exists m'. unfold strncpy. by rewrite E.
  - intros l r. by apply strncat_ok.
Qed.
End regions.

(** What memccpy promises: the bytes are copied up to the first that is the low byte of [c], if any. *)
Theorem memccpy_exact m d s w c : well_mapped m -> apart m s w d (length w) ->
  exists m', match first (fun v => v =? u8 c) w with
  | Some i => memccpy (length w) m d s c = Some (m', d + Z.of_nat i + 1) /\ written m d (take (S i) w) m'
  | None => memccpy (length w) m d s c = Some (m', 0) /\ written m d w m'
  end.
Proof.
  intros W A. assert (Bytes w) as B by (eapply load_Bytes; [exact W|apply (source _ _ _ _ _ A)]).
  cut (forall (r u : bytes) m1, w = u ++ r -> written m d u m1 -> exists m', match first (fun v => v =? u8 c) r with
    | Some i => memccpy (length r) m1 (d + Z.of_nat (length u)) (s + Z.of_nat (length u)) c = Some (m', d + Z.of_nat (length u) + Z.of_nat i + 1) /\ written m d (u ++ take (S i) r) m'
    | None => memccpy (length r) m1 (d + Z.of_nat (length u)) (s + Z.of_nat (length u)) c = Some (m', 0) /\ written m d w m' end).
  { intros H. specialize (H w [] m eq_refl (written_nil _ _)). cbn [length app] in H. by rewrite !Z.add_0_r in H. }
  induction r as [|v r IH]; intros u m1 E U; cbn [length memccpy first]; [rewrite app_nil_r in E; subst u; by exists m1|].
  assert (w !! length u = Some v) as V by (rewrite E; by apply list_lookup_middle). pose proof (Forall_lookup_1 _ _ _ _ B V) as Bv.
  destruct (put_ok m s w d _ A u m1 (length u) v U) as (m2 & -> & U2); [rewrite E, length_app; cbn; lia|done|]. cbn [mbind option_bind].
  rewrite !land_255, (Z.mod_small v) by exact Bv. change (c mod 256) with (u8 c). destruct (v =? u8 c).
  - exists m2. cbn [Z.of_nat take]. split; [do 2 f_equal; lia|done].
  - specialize (IH (u ++ [v]) m2 ltac:(by rewrite E, <- app_assoc) U2). rewrite length_app in IH. cbn [length] in IH.
    replace (d + Z.of_nat (length u + 1)) with (d + Z.of_nat (length u) + 1) in IH by lia. replace (s + Z.of_nat (length u + 1)) with (s + Z.of_nat (length u) + 1) in IH by lia.
    destruct IH as [m' IH]. exists m'. destruct (first _ r) as [i|]; cbn [fmap option_fmap option_map]; [|done]. destruct IH as [IH1 IH2]. split; [rewrite IH1; do 2 f_equal; lia|].
    by rewrite <- app_assoc in IH2.
Qed.

Lemma page_of_apart a l s w d n :
  load (page_of a l) s (length w) = Some w -> (0 <=? d) && (d + Z.of_nat n <=? 2 * PAGE) && ((s + Z.of_nat (length w) <=? d) || (d + Z.of_nat n <=? s)) = true -> apart (page_of a l) s w d n.
Proof.
  intros L H. split; [done| |intros j k Hj Hk; lia]. intros k Hk. unfold page_of. rewrite (proj2 (Z.leb_le _ _)), (proj2 (Z.ltb_lt _ _)) by lia. by eexists.
Qed.

Definition greeting : memory := page_of 4090 (bstr "hello, world" ++ 0 :: bstr "Oh").

Lemma strl_exact_witness :
  (exists m', strlcpy 40 greeting 4200 4090 6 = Some (m', 12) /\ written greeting 4200 (bstr "hello" ++ [0]) m') /\
  (exists m', strlcat 40 greeting 4103 4090 8 = Some (m', 14) /\ written greeting 4105 (bstr "hello" ++ [0]) m' /\ cstring m' 4103 (bstr "Ohhello")).
Proof.
  assert (well_mapped greeting) as W by (apply page_of_mapped; repeat constructor; unfold is_byte; lia).
  assert (cstring greeting 4090 (bstr "hello, world")) as C by (split; [repeat constructor; discriminate|reflexivity]).
  assert (cstring greeting 4103 (bstr "Oh")) as R by (split; [repeat constructor; discriminate|reflexivity]). split.
  - apply (strl_exact greeting 4200 4090 (bstr "hello, world") 6 40 W C); [cbn; lia|]. apply page_of_apart; reflexivity.
  - apply (strl_exact greeting 4103 4090 (bstr "hello, world") 8 40 W C) with (r := bstr "Oh"); [cbn; lia|exact R|cbn; lia|cbn; lia|]. apply page_of_apart; reflexivity.
Defined.
