(* ===== verification/Substring.v ===== *)
(** * Searching for substrings (libc/str/strstr.c, strcasestr.c, memmem.c, libc/intrin/memrchr.c)

    strstr and strcasestr have an alternative that looks for the first character by vectors and compares the rest byte
    by byte where it is found, and one that compares at every place. The first alternative of
    strcasestr looks for the first character of the needle and for its lower case: it finds what the
    other finds where the needle does not begin with a lower case letter, and else misses the places
    where the haystack has the upper case. memmem goes through the places of the first byte, in the mask
    of a vector after the other; memrchr takes vectors from the end. *)

From S2P Require Import Prelude Tables Memory Strings Memcmp.

(** [for (i = 0;; ++i)]: whether the needle is at a place of the haystack, where [t] is applied to
    the characters of both. *)
Fixpoint compare_at (fuel : nat) (m : memory) (t : Z -> Z) (haystack needle i : Z) : option bool :=
  match fuel with
  | O => None
  | S fuel =>
      x ← m (needle + i);
      if x =? 0 then Some true
      else
        y ← m (haystack + i);
        if y =? 0 then Some false
        else if negb (t x =? t y) then Some false
        else compare_at fuel m t haystack needle (i + 1)
  end.

(** [for (;;)]: [f] is the comparison of the vectors. *)
Fixpoint search_loop (fuel : nat) (m : memory) (t : Z -> Z) (f : Z -> bool) (haystack needle : Z) : option Z :=
  match fuel with
  | O => None
  | S fuel' =>
      haystack ← scan_sse fuel m f haystack;
      found ← compare_at fuel m t haystack needle 0;
      if (found : bool) then Some haystack
      else
        v ← m haystack;
        if v =? 0 then Some 0 else search_loop fuel' m t f (haystack + 1) needle
  end.

(** The same in the alternative without vectors. *)
Fixpoint search_bytes (fuel : nat) (m : memory) (t : Z -> Z) (haystack needle : Z) : option Z :=
  match fuel with
  | O => None
  | S fuel' =>
      found ← compare_at fuel m t haystack needle 0;
      if (found : bool) then Some haystack
      else
        v ← m haystack;
        if v =? 0 then Some 0 else search_bytes fuel' m t (haystack + 1) needle
  end.

Definition search (sse : bool) (fuel : nat) (m : memory) (t : Z -> Z) (f : Z -> Z -> bool) (haystack needle : Z) : option Z :=
  if haystack =? needle then Some haystack
  else
    c ← m needle;
    if c =? 0 then Some haystack
    else if sse then search_loop fuel m t (f c) haystack needle
    else search_bytes fuel m t haystack needle.

Definition strstr (sse : bool) (fuel : nat) (m : memory) (haystack needle : Z) : option Z := search sse fuel m (fun c => c) stops haystack needle.

(** [v == z | v == n1 | v == n2] *)
Definition case_stops (c v : Z) : bool := (v =? 0) || (v =? c) || (v =? tab kToLower c).

Definition strcasestr (sse : bool) (fuel : nat) (m : memory) (haystack needle : Z) : option Z := search sse fuel m (tab kToLower) case_stops haystack needle.

(* ------------------------------------------------------------------ *)
(** ** What is found *)

Fixpoint is_prefix (t : Z -> Z) (n h : bytes) : bool :=
  match n, h with
  | [], _ => true
  | x :: n, y :: h => (t x =? t y) && is_prefix t n h
  | _, [] => false
  end.

(** The first place of a string in another. *)
Fixpoint find_sub (t : Z -> Z) (n h : bytes) : option nat :=
  if is_prefix t n h then Some O
  else match h with [] => None | _ :: h => S <$> find_sub t n h end.

Definition search_spec (t : Z -> Z) (s : Z) (n h : bytes) : Z := match find_sub t n h with Some i => s + Z.of_nat i | None => 0 end.

Lemma cstring_suffix m s l (i : nat) : cstring m s l -> (i <= length l)%nat -> cstring m (s + Z.of_nat i) (drop i l).
Proof.
  intros [N L] Hi. split; [by apply Forall_drop|]. rewrite length_drop. apply load_Some in L as [Ll H]. apply load_Some. split; [rewrite length_app, length_drop; cbn; lia|].
  intros j Hj. replace (s + Z.of_nat i + Z.of_nat j) with (s + Z.of_nat (i + j)) by lia. rewrite H by lia. rewrite <- lookup_drop, drop_app_le by done. done.
Qed.

Lemma cstring_nul m s l : cstring m s l -> m (s + Z.of_nat (length l)) = Some 0.
Proof. intros [_ L]. eapply load_lookup; [exact L|]. by rewrite list_lookup_middle. Qed.

Lemma cstring_cons m s x l : cstring m s (x :: l) -> m s = Some x /\ x <> 0 /\ cstring m (s + 1) l.
Proof.
  intros C. pose proof C as [N L]. split; [|split; [by apply Forall_cons in N as [? _]|]].
  - rewrite <- (Z.add_0_r s). by apply (load_lookup _ _ _ _ 0 x L).
  - apply (cstring_suffix m s (x :: l) 1 C). cbn. lia.
Qed.

Lemma compare_at_ok fuel m t n : forall h a b i,
  cstring m (b + i) n -> cstring m (a + i) h -> (length n < fuel)%nat -> compare_at fuel m t a b i = Some (is_prefix t n h).
Proof.
  revert n. induction fuel as [|fuel IH]; intros n h a b i Cn Ch F; [lia|]. cbn [compare_at]. destruct n as [|x n].
  - pose proof (cstring_nul _ _ _ Cn) as E. rewrite Z.add_0_r in E. rewrite E. done.
  - destruct (cstring_cons _ _ _ _ Cn) as (E & Nx & Cn'). rewrite E. cbn [mbind option_bind]. rewrite (proj2 (Z.eqb_neq _ _) Nx). destruct h as [|y h].
    + pose proof (cstring_nul _ _ _ Ch) as Y. rewrite Z.add_0_r in Y. rewrite Y. done.
    + destruct (cstring_cons _ _ _ _ Ch) as (Y & Ny & Ch'). rewrite Y. cbn [mbind option_bind is_prefix]. rewrite (proj2 (Z.eqb_neq _ _) Ny).
      destruct (t x =? t y); [|done]. cbn [negb andb]. rewrite <- Z.add_assoc in Cn', Ch'. apply IH; [done|done|]. cbn in F. lia.
Qed.

(** Places where the needle is not. *)
Lemma find_sub_skip t n h (i : nat) :
  (i <= length h)%nat -> (forall j, (j < i)%nat -> is_prefix t n (drop j h) = false) -> find_sub t n h = (fun k => (i + k)%nat) <$> find_sub t n (drop i h).
Proof.
  revert h. induction i as [|i IH]; intros h L H; [rewrite drop_0; by destruct (find_sub t n h)|]. destruct h as [|y h]; [cbn in L; lia|].
  pose proof (H 0%nat ltac:(lia)) as H0. rewrite drop_0 in H0. cbn [find_sub drop]. rewrite H0. cbn in L. rewrite (IH h) by (try lia; intros j Hj; apply (H (S j)); lia).
  by destruct (find_sub t n (drop i h)).
Qed.

Lemma search_bytes_ok fuel m t needle n : cstring m needle n -> forall h s,
  cstring m s h -> (length n + length h < fuel)%nat -> search_bytes fuel m t s needle = Some (search_spec t s n h).
Proof.
  intros C. induction fuel as [|fuel IH]; intros h s Ch F; [lia|]. cbn [search_bytes]. rewrite (compare_at_ok (S fuel) m t n h) by (rewrite ?Z.add_0_r; (done || lia)). cbn [mbind option_bind].
  unfold search_spec. destruct h as [|y h].
  - pose proof (cstring_nul _ _ _ Ch) as E. rewrite Z.add_0_r in E. rewrite E. cbn [find_sub mbind option_bind]. destruct (is_prefix t n []); cbn; [f_equal; lia|done].
  - destruct (cstring_cons _ _ _ _ Ch) as (Y & Ny & Cr). rewrite Y. cbn [find_sub mbind option_bind]. destruct (is_prefix t n (y :: h)); [f_equal; lia|].
    rewrite (proj2 (Z.eqb_neq _ _) Ny). cbn in F. rewrite (IH h) by (done || lia). unfold search_spec. destruct (find_sub t n h); cbn; [f_equal; lia|done].
Qed.

Section searching.
Context (m : memory) (t : Z -> Z) (f : Z -> bool) (needle : Z) (c : Z) (n : bytes) (W : well_mapped m).
Context (C : cstring m needle (c :: n)).
Context (f_nul : f 0 = true) (f_first : forall v, is_byte v -> v <> 0 -> t c = t v -> f v = true).

Lemma search_loop_ok fuel h s :
  cstring m s h -> (length h < fuel)%nat -> (S (length n) + length h < fuel)%nat -> search_loop fuel m t f s needle = Some (search_spec t s (c :: n) h).
Proof using W C f_nul f_first.
  revert h s. induction fuel as [|fuel IH]; intros h s Ch F G; [lia|]. cbn [search_loop]. destruct (cstring_first m s h f Ch f_nul) as (i & E & Hi). pose proof Ch as [Nh Lh].
  rewrite (scan_sse_exact _ _ _ _ (s + Z.of_nat i) W (reaches_first _ _ _ _ _ _ Lh E)) by lia. cbn [mbind option_bind].
  pose proof (cstring_suffix _ _ _ i Ch Hi) as Cs. rewrite (compare_at_ok (S fuel) m t (c :: n) (drop i h)) by (rewrite ?Z.add_0_r; (done || (cbn; lia))). cbn [mbind option_bind].
  assert (find_sub t (c :: n) h = (fun k => (i + k)%nat) <$> find_sub t (c :: n) (drop i h)) as Sk.
  { apply find_sub_skip; [done|]. intros j Hj. destruct (lookup_lt_is_Some_2 h j ltac:(lia)) as [y Y]. rewrite (drop_S _ _ _ Y). cbn [is_prefix].
    destruct (Z.eqb_spec (t c) (t y)) as [T|]; [|done]. exfalso. apply first_Some in E as [_ E].
    assert (f y = true) as Fy.
    { apply f_first; [|by apply (Forall_lookup_1 _ _ _ _ Nh Y)|done]. apply (mapped_byte m W (s + Z.of_nat j)). eapply load_lookup; [exact Lh|]. by rewrite lookup_app_l by lia. }
    rewrite (E j y Hj) in Fy; [done|]. by rewrite lookup_app_l by lia. }
  unfold search_spec. rewrite Sk. destruct (drop i h) as [|y r] eqn:D.
  - cbn [is_prefix find_sub]. pose proof (cstring_nul _ _ _ Cs) as Z. rewrite Z.add_0_r in Z. rewrite Z. done.
  - cbn [find_sub]. destruct (is_prefix t (c :: n) (y :: r)); [cbn; f_equal; lia|]. destruct (cstring_cons _ _ _ _ Cs) as (Y & Ny & Cr). rewrite Y. cbn [mbind option_bind].
    rewrite (proj2 (Z.eqb_neq _ _) Ny). apply (f_equal length) in D. rewrite length_drop in D. cbn in D. rewrite (IH r) by (done || lia). unfold search_spec.
    destruct (find_sub t (c :: n) r); cbn; [f_equal; lia|done].
Qed.
End searching.

Lemma is_prefix_refl t n : is_prefix t n n = true.
Proof. induction n as [|x n IH]; [done|]. cbn [is_prefix]. by rewrite Z.eqb_refl, IH. Qed.

Lemma find_sub_here t n h : is_prefix t n h = true -> find_sub t n h = Some O.
Proof. intros E. destruct h; cbn [find_sub]; by rewrite E. Qed.

(** Both alternatives, where the vectors miss no place at which the needle can be. *)
Lemma search_ok sse fuel m t f haystack needle n h :
  well_mapped m -> cstring m needle n -> cstring m haystack h -> (length n + length h < fuel)%nat ->
  (sse = true -> forall c, head n = Some c -> f c 0 = true /\ forall v, is_byte v -> v <> 0 -> t c = t v -> f c v = true) ->
  search sse fuel m t f haystack needle = Some (search_spec t haystack n h).
Proof.
  intros W Cn Ch F V. unfold search, search_spec. destruct (Z.eqb_spec haystack needle) as [->|_].
  { rewrite (cstring_fun _ _ _ _ Cn Ch), find_sub_here by apply is_prefix_refl. f_equal. lia. }
  destruct n as [|c n].
  { pose proof (cstring_nul _ _ _ Cn) as E. rewrite Z.add_0_r in E. rewrite E, find_sub_here by done. cbn. f_equal. lia. }
  destruct (cstring_cons _ _ _ _ Cn) as (E & Nc & _). rewrite E. cbn [mbind option_bind]. rewrite (proj2 (Z.eqb_neq _ _) Nc). destruct sse.
  - destruct (V eq_refl c eq_refl) as [V0 V1]. cbn in F. by apply search_loop_ok; try lia.
  - by apply search_bytes_ok.
Qed.

(** The characters with the same lower case as one that is not a lower case letter. *)
Lemma case_stops_complete c v : is_byte c -> is_byte v -> islower c = false -> tab kToLower c = tab kToLower v -> case_stops c v = true.
Proof.
  intros Hc Hv L E. assert (forallb (fun c => islower c || forallb (fun v => negb (tab kToLower c =? tab kToLower v) || case_stops c v) (seqZ 0 256)) (seqZ 0 256) = true) as T by by vm_compute.
  pose proof (forall_byte _ T c Hc) as B. cbn beta in B. rewrite L in B. pose proof (forall_byte _ B v Hv) as D. cbn beta in D. by rewrite E, Z.eqb_refl in D.
Qed.

(** What strstr and strcasestr promise: for strings at any addresses, in memory where nothing but
    the pages of the strings need be mapped, both alternatives of strstr give the first place of
    the needle, or NULL; so does strcasestr without regard to case, by vectors provided that the
    needle does not begin with a lower case letter. *)
Theorem substring_search_exact m haystack needle h n fuel :
  well_mapped m -> cstring m haystack h -> cstring m needle n -> (length n + length h < fuel)%nat ->
  (forall sse, strstr sse fuel m haystack needle = Some (search_spec id haystack n h)) /\
  (forall sse, (sse = true -> forall c, head n = Some c -> islower c = false) -> strcasestr sse fuel m haystack needle = Some (search_spec (tab kToLower) haystack n h)).
Proof.
  intros W Ch Cn F. split.
  - intros sse. apply search_ok; try done. intros _ c _. split; [done|]. intros v _ _ ->. unfold stops. by rewrite Z.eqb_refl, orb_true_r.
  - intros sse L. apply search_ok; try done. intros E c H. split; [done|]. intros v Hv _ T. apply case_stops_complete; [|done|by apply L|done].
    destruct n as [|x n]; [done|]. injection H as ->. apply (mapped_byte m W needle). by destruct (cstring_cons _ _ _ _ Cn).
Qed.

(** The place is the first: what [find_sub] gives. *)
Lemma find_sub_first t n h i : find_sub t n h = Some i -> is_prefix t n (drop i h) = true /\ forall j, (j < i)%nat -> is_prefix t n (drop j h) = false.
Proof.
  revert i. induction h as [|y h IH]; intros i; cbn [find_sub].
  - destruct (is_prefix t n []) eqn:E; [|done]. intros [= <-]. split; [done|lia].
  - destruct (is_prefix t n (y :: h)) eqn:E; [intros [= <-]; split; [done|lia]|]. destruct (find_sub t n h) as [k|]; [|done].
    intros [= <-]. destruct (IH k eq_refl) as [P Q]. split; [done|]. intros [|j] Hj; [done|]. apply Q. lia.
Qed.

Lemma find_sub_none t n h j : find_sub t n h = None -> is_prefix t n (drop j h) = false.
Proof.
  revert j. induction h as [|y h IH]; intros j; cbn [find_sub].
  - rewrite drop_nil. by destruct (is_prefix t n []).
  - destruct (is_prefix t n (y :: h)) eqn:E; [done|]. destruct (find_sub t n h); [done|]. intros _. destruct j as [|j]; [done|]. by apply IH.
Qed.

Definition headers : memory := page_of 4090 (bstr "Accept: TEXT/html" ++ 0 :: bstr "text" ++ 0 :: bstr "Text").

Lemma substring_search_exact_witness : strcasestr true 40 headers 4090 4113 = Some 4098.
Proof.
  destruct (substring_search_exact headers 4090 4113 (bstr "Accept: TEXT/html") (bstr "Text") 40) as [_ C].
  - apply page_of_mapped. repeat constructor; unfold is_byte; lia.
  - split; [repeat constructor; discriminate|reflexivity].
  - split; [repeat constructor; discriminate|reflexivity].
  - cbn. lia.
  - apply (C true). intros _ c [= <-]. reflexivity.
Defined.

(** A needle in lower case is not found in a haystack in upper case by vectors, and is without. *)
Lemma strcasestr_defect : strcasestr true 40 headers 4090 4108 = Some 0 /\ strcasestr false 40 headers 4090 4108 = Some 4098.
Proof. split; vm_compute; reflexivity. Qed.

(* ------------------------------------------------------------------ *)
(** ** memmem *)

(** [for (i = 1;; ++i)]: the bytes after the first. *)
Fixpoint memmem_same (fuel : nat) (m : memory) (p q i needlelen : Z) : option bool :=
  match fuel with
  | O => None
  | S fuel =>
      if i =? needlelen then Some true
      else
        x ← m (p + i);
        y ← m (q + i);
        if negb (x =? y) then Some false else memmem_same fuel m p q (u32 (i + 1)) needlelen
  end.

(** [for (;;)]: a step takes the next vector where the mask [b] is zero, and else the lowest place of
    the mask. *)
Fixpoint memmem_loop (fuel : nat) (m : memory) (c v b e q needlelen : Z) : option Z :=
  match fuel with
  | O => None
  | S fuel' =>
      if b =? 0 then
        let v := v + 16 in
        if v >=? e then Some 0
        else w ← load m v 16; memmem_loop fuel' m c v (pmovmskb ((fun x => x =? c) <$> w)) e q needlelen
      else
        let k := ctz b in
        let p := v + k in
        if p + needlelen >? e then Some 0
        else
          found ← memmem_same fuel m p q 1 needlelen;
          if (found : bool) then Some p
          else memmem_loop fuel' m c v (Z.land b (Z.lnot (Z.shiftl 1 k))) e q needlelen
  end.

(** The alternative without vectors: [for (j = 0;; ++j)] and [for (i = 0; i < haystacklen; ++i)]. *)
Fixpoint memmem_at (fuel : nat) (m : memory) (haystack haystacklen needle needlelen i j : Z) : option bool :=
  match fuel with
  | O => None
  | S fuel =>
      if j =? needlelen then Some true
      else if i + j =? haystacklen then Some false
      else
        x ← m (haystack + (i + j));
        y ← m (needle + j);
        if negb (x =? y) then Some false else memmem_at fuel m haystack haystacklen needle needlelen i (j + 1)
  end.

Fixpoint memmem_bytes (fuel : nat) (m : memory) (haystack haystacklen needle needlelen i : Z) : option Z :=
  match fuel with
  | O => None
  | S fuel' =>
      if i <? haystacklen then
        found ← memmem_at fuel m haystack haystacklen needle needlelen i 0;
        if (found : bool) then Some (haystack + i) else memmem_bytes fuel' m haystack haystacklen needle needlelen (i + 1)
      else Some 0
  end.

Definition memmem (sse : bool) (fuel : nat) (m : memory) (haystack haystacklen needle needlelen : Z) : option Z :=
  if needlelen =? 0 then Some haystack
  else if needlelen >? haystacklen then Some 0
  else if sse then
    c ← m needle;
    let k := Z.land haystack 15 in
    let v := Z.land haystack (-16) in
    w ← load m v 16;
    memmem_loop fuel m c v (Z.shiftl (Z.shiftr (pmovmskb ((fun x => x =? c) <$> w)) k) k) (haystack + haystacklen) needle needlelen
  else memmem_bytes fuel m haystack haystacklen needle needlelen 0.

Lemma is_prefix_short t n h : (length h < length n)%nat -> is_prefix t n h = false.
Proof. revert h. induction n as [|x n IH]; intros [|y h] L; cbn [length] in L; try lia; cbn [is_prefix]; [done|]. rewrite IH by lia. apply andb_false_r. Qed.

Lemma find_sub_nowhere t n h : (forall j, (j <= length h)%nat -> is_prefix t n (drop j h) = false) -> find_sub t n h = None.
Proof.
  intros H. destruct (find_sub t n h) as [i|] eqn:E; [|done]. destruct (find_sub_first _ _ _ _ E) as [P _].
  destruct (Nat.le_gt_cases i (length h)) as [L|L]; [by rewrite H in P|]. rewrite drop_ge, <- (drop_all h), H in P by lia. done.
Qed.

Lemma find_sub_at t n h (i : nat) : (i <= length h)%nat -> is_prefix t n (drop i h) = true -> (forall j, (j < i)%nat -> is_prefix t n (drop j h) = false) -> find_sub t n h = Some i.
Proof. intros L P H. rewrite (find_sub_skip _ _ _ i L H), (find_sub_here _ _ _ P). cbn. f_equal. lia. Qed.

Lemma memmem_same_ok fuel m p q n : forall h i,
  load m (q + i) (length n) = Some n -> load m (p + i) (length h) = Some h -> (length n <= length h)%nat -> 0 <= i -> i + Z.of_nat (length n) < 2 ^ 32 ->
  (length n < fuel)%nat -> memmem_same fuel m p q i (i + Z.of_nat (length n)) = Some (is_prefix id n h).
Proof.
  revert n. induction fuel as [|fuel IH]; intros n h i Ln Lh LL Hi B F; [lia|]. cbn [memmem_same]. destruct n as [|x n].
  - by rewrite Z.add_0_r, Z.eqb_refl.
  - destruct h as [|y h]; [cbn in LL; lia|]. cbn [length] in *. destruct (load_cons _ _ _ _ Ln) as [X Ln']. destruct (load_cons _ _ _ _ Lh) as [Y Lh'].
    rewrite (proj2 (Z.eqb_neq _ _)) by lia. rewrite X, Y. cbn [mbind option_bind is_prefix]. unfold id at 1 2. rewrite Z.eqb_sym. destruct (x =? y); [|done]. cbn [negb andb].
    unfold u32. rewrite Z.mod_small by lia. replace (i + Z.of_nat (S (length n))) with (i + 1 + Z.of_nat (length n)) by lia.
    rewrite <- Z.add_assoc in Ln', Lh'. apply IH; (done || lia).
Qed.

(** The mask of the vector at [v], for the places from [P] on. *)
Definition mask_from (m : memory) (c v P b : Z) : Prop :=
  0 <= b /\ forall j, 0 <= j -> Z.testbit b j = (P - v <=? j) && (j <? 16) && bool_decide (m (v + j) = Some c).

Lemma mask_from_load m c v w : load m v 16 = Some w -> mask_from m c v v (pmovmskb ((fun x => x =? c) <$> w)).
Proof.
  intros [L H]%load_Some. split; [apply pmovmskb_nonneg|]. intros j Hj. rewrite pmovmskb_bits, list_lookup_fmap by done. rewrite Z.sub_diag, (proj2 (Z.leb_le 0 j)) by done.
  destruct (Z.ltb_spec j 16) as [X|X]; [|by rewrite lookup_ge_None_2 by lia]. cbn [andb]. specialize (H (Z.to_nat j) ltac:(lia)). rewrite Z2Nat.id in H by done. rewrite H.
  destruct (w !! Z.to_nat j) as [x|] eqn:E; cbn; [|by rewrite bool_decide_false]. destruct (Z.eqb_spec x c); [by rewrite bool_decide_true by congruence|by rewrite bool_decide_false by congruence].
Qed.

Lemma mask_from_shift m c v k b : 0 <= k -> mask_from m c v v b -> mask_from m c v (v + k) (Z.shiftl (Z.shiftr b k) k).
Proof.
  intros Hk [N H]. split; [by apply Z.shiftl_nonneg, Z.shiftr_nonneg|]. intros j Hj. rewrite Z.shiftl_spec by done. replace (v + k - v) with k by lia.
  destruct (Z.leb_spec k j) as [X|X]; [|by rewrite Z.testbit_neg_r by lia]. rewrite Z.shiftr_spec by lia. rewrite Z.sub_add, H by done.
  by rewrite Z.sub_diag, (proj2 (Z.leb_le 0 j)) by done.
Qed.

(** The lowest place of a mask, and the mask without it. *)
Lemma mask_from_ctz m c v P b : mask_from m c v P b -> b <> 0 ->
  0 <= ctz b < 16 /\ P <= v + ctz b /\ m (v + ctz b) = Some c /\ (forall a, v <= a -> P <= a < v + ctz b -> m a <> Some c) /\
  mask_from m c v (v + ctz b + 1) (Z.land b (Z.lnot (Z.shiftl 1 (ctz b)))).
Proof.
  intros [N H] Z. destruct (ctz_bits b ltac:(lia)) as [T L]. assert (0 <= ctz b) as N0 by (destruct b; cbn; try lia; apply ctz_pos_nonneg).
  pose proof T as T0. rewrite H in T by done. rewrite !andb_true_iff, Z.leb_le, Z.ltb_lt, bool_decide_eq_true in T. destruct T as [[T1 T2] T3].
  split; [lia|]. split; [lia|]. split; [done|]. split.
  - intros a V A E. specialize (L (a - v) ltac:(lia)). rewrite H in L by lia. replace (v + (a - v)) with a in L by lia.
    rewrite (proj2 (Z.leb_le _ _)), (proj2 (Z.ltb_lt _ _)), bool_decide_true in L by (done || lia). done.
  - split; [apply Z.land_nonneg; by left|]. intros j Hj. rewrite Z.land_spec, Z.lnot_spec, Z.shiftl_spec, H by done. replace (v + ctz b + 1 - v) with (ctz b + 1) by lia.
    destruct (Z.lt_trichotomy j (ctz b)) as [X|[->|X]].
    + rewrite <- H, L by lia. rewrite (proj2 (Z.leb_gt (ctz b + 1) j)) by lia. done.
    + rewrite Z.sub_diag, (proj2 (Z.leb_gt (ctz b + 1) _)) by lia. by rewrite andb_false_r.
    + rewrite (proj2 (Z.leb_le (ctz b + 1) j)), (proj2 (Z.leb_le (P - v) j)) by lia.
      replace (Z.testbit 1 (j - ctz b)) with false; [by rewrite andb_true_r|]. symmetry. apply (Z.bits_above_log2 1); cbn; lia.
Qed.

Lemma mask_from_zero m c v P a : mask_from m c v P 0 -> v <= a -> P <= a < v + 16 -> m a <> Some c.
Proof.
  intros [_ H] V A E. specialize (H (a - v) ltac:(lia)). rewrite Z.bits_0 in H. replace (v + (a - v)) with a in H by lia.
  rewrite (proj2 (Z.leb_le _ _)), (proj2 (Z.ltb_lt _ _)), bool_decide_true in H by (done || lia). done.
Qed.

Section memmem.
Context (m : memory) (s q c : Z) (n h : bytes) (W : well_mapped m).
Context (Lh : load m s (length h) = Some h) (Ln : load m q (S (length n)) = Some (c :: n)) (Bn : Z.of_nat (S (length n)) < 2 ^ 32).

(** Nothing of the needle where its first byte is not. *)
Lemma first_differs (j : nat) : m (s + Z.of_nat j) <> Some c -> is_prefix id (c :: n) (drop j h) = false.
Proof using Lh.
  intros N. destruct (h !! j) as [y|] eqn:Y; [|by rewrite drop_ge by by apply lookup_ge_None]. rewrite (drop_S _ _ _ Y). cbn [is_prefix]. unfold id at 1 2.
  destruct (Z.eqb_spec c y) as [E|]; [|done]. by rewrite (load_lookup _ _ _ _ _ _ Lh Y), E in N.
Qed.

Lemma same_at fuel (i : nat) : (i + S (length n) <= length h)%nat -> m (s + Z.of_nat i) = Some c -> (length n < fuel)%nat ->
  memmem_same fuel m (s + Z.of_nat i) q 1 (Z.of_nat (S (length n))) = Some (is_prefix id (c :: n) (drop i h)).
Proof using Lh Ln Bn.
  intros L E F. destruct (lookup_lt_is_Some_2 h i ltac:(lia)) as [y Y]. rewrite (drop_S _ _ _ Y). rewrite (load_lookup _ _ _ _ _ _ Lh Y) in E. injection E as ->.
  cbn [is_prefix]. unfold id at 1 2. rewrite Z.eqb_refl. cbn [andb]. replace (Z.of_nat (S (length n))) with (1 + Z.of_nat (length n)) by lia.
  destruct (load_cons _ _ _ _ Ln) as [_ Ln']. apply memmem_same_ok; try (done || lia); rewrite ?length_drop; try lia.
  pose proof (load_sub _ _ _ _ (S i) (length h - S i) Lh ltac:(lia)) as X. rewrite take_ge in X by (rewrite length_drop; lia).
  by replace (s + Z.of_nat i + 1) with (s + Z.of_nat (S i)) by lia.
Qed.

Lemma memmem_loop_ok fuel v P b :
  (16 | v) -> v < s + Z.of_nat (length h) -> s <= P -> v <= P <= v + 16 -> mask_from m c v P b ->
  (forall j : nat, s + Z.of_nat j < P -> is_prefix id (c :: n) (drop j h) = false) ->
  2 * (s + Z.of_nat (length h)) + 32 - P - v + Z.of_nat (length n) < Z.of_nat fuel ->
  memmem_loop fuel m c v b (s + Z.of_nat (length h)) q (Z.of_nat (S (length n))) = Some (search_spec id s (c :: n) h).
Proof using W Lh Ln Bn.
  revert v P b. induction fuel as [|fuel IH]; intros v P b D V HP HPv M A F; [lia|]. cbn [memmem_loop]. destruct (Z.eqb_spec b 0) as [->|Nb].
  - assert (forall j : nat, s + Z.of_nat j < v + 16 -> is_prefix id (c :: n) (drop j h) = false) as A'.
    { intros j Hj. destruct (Z.lt_ge_cases (s + Z.of_nat j) P) as [X|X]; [by apply A|]. apply first_differs. eapply mask_from_zero; [exact M|lia|lia]. }
    rewrite Z.geb_leb. destruct (Z.leb_spec (s + Z.of_nat (length h)) (v + 16)) as [X|X].
    + unfold search_spec. rewrite find_sub_nowhere; [done|]. intros j Hj. destruct (Nat.lt_ge_cases j (length h)); [apply A'; lia|]. by rewrite drop_ge by lia.
    + assert (16 | v + 16) as D' by (apply Z.divide_add_r; [done|apply Z.divide_refl]).
      destruct (load_aligned m 16 (v + 16) (v + 16) W) as [w E]; [by exists 256|lia|done|lia| |].
      { apply load_Some in Lh as [_ H]. specialize (H (Z.to_nat (v + 16 - s)) ltac:(lia)). replace (s + Z.of_nat (Z.to_nat (v + 16 - s))) with (v + 16) in H by lia.
        rewrite H. apply lookup_lt_is_Some_2. lia. }
      rewrite E. cbn [mbind option_bind]. apply (IH _ (v + 16)); try (done || lia). by apply mask_from_load.
  - destruct (mask_from_ctz _ _ _ _ _ M Nb) as (K & KP & E & B & M'). 
    assert (exists i : nat, v + ctz b = s + Z.of_nat i) as [i Ei] by (exists (Z.to_nat (v + ctz b - s)); lia). cbn zeta. rewrite Ei in *.
    assert (forall j : nat, (j < i)%nat -> is_prefix id (c :: n) (drop j h) = false) as A'.
    { intros j Hj. destruct (Z.lt_ge_cases (s + Z.of_nat j) P) as [X|X]; [by apply A|]. apply first_differs. apply B; lia. }
    rewrite Z.gtb_ltb. destruct (Z.ltb_spec (s + Z.of_nat (length h)) (s + Z.of_nat i + Z.of_nat (S (length n)))) as [X|X].
    + unfold search_spec. rewrite find_sub_nowhere; [done|]. intros j Hj. destruct (Nat.lt_ge_cases j i); [by apply A'|]. apply is_prefix_short. rewrite length_drop. cbn. lia.
    + rewrite same_at by (done || lia). cbn [mbind option_bind]. destruct (is_prefix id (c :: n) (drop i h)) eqn:Y.
      * unfold search_spec. rewrite (find_sub_at _ _ _ i) by (done || lia). done.
      * apply (IH _ (s + Z.of_nat i + 1)); [done|done|lia|lia|done| |lia]. intros j Hj. destruct (Nat.eq_dec j i) as [->|]; [done|]. apply A'. lia.
Qed.

Lemma memmem_at_ok fuel (i : nat) n' : forall j : nat,
  load m (q + Z.of_nat j) (length n') = Some n' -> (i + j <= length h)%nat -> (length n' < fuel)%nat ->
  memmem_at fuel m s (Z.of_nat (length h)) q (Z.of_nat (j + length n')) (Z.of_nat i) (Z.of_nat j) = Some (is_prefix id n' (drop (i + j) h)).
Proof using Lh Ln Bn.
  revert n'. induction fuel as [|fuel IH]; intros n' j L Hj F; [lia|]. cbn [memmem_at]. destruct n' as [|x n'].
  { rewrite Nat.add_0_r, Z.eqb_refl. done. }
  cbn [length] in *. rewrite (proj2 (Z.eqb_neq _ _)) by lia. destruct (Z.eqb_spec (Z.of_nat i + Z.of_nat j) (Z.of_nat (length h))) as [X|X]; [by rewrite drop_ge by lia|].
  destruct (lookup_lt_is_Some_2 h (i + j) ltac:(lia)) as [y Y]. rewrite (drop_S _ _ _ Y). destruct (load_cons _ _ _ _ L) as [E L'].
  rewrite <- Nat2Z.inj_add, (load_lookup _ _ _ _ _ _ Lh Y). cbn [mbind option_bind]. rewrite E. cbn [mbind option_bind is_prefix]. unfold id at 1 2. rewrite Z.eqb_sym.
  destruct (x =? y); [|done]. cbn [negb andb]. replace (Z.of_nat j + 1) with (Z.of_nat (S j)) by lia. replace (j + S (length n'))%nat with (S j + length n')%nat by lia.
  replace (S (i + j)) with (i + S j)%nat by lia. apply IH; [|lia|lia]. by replace (q + Z.of_nat (S j)) with (q + Z.of_nat j + 1) by lia.
Qed.

Lemma memmem_bytes_ok fuel (i : nat) :
  (i <= length h)%nat -> (forall j, (j < i)%nat -> is_prefix id (c :: n) (drop j h) = false) -> (length h - i + S (length n) < fuel)%nat ->
  memmem_bytes fuel m s (Z.of_nat (length h)) q (Z.of_nat (S (length n))) (Z.of_nat i) = Some (search_spec id s (c :: n) h).
Proof using Lh Ln Bn.
  revert i. induction fuel as [|fuel IH]; intros i L A F; [lia|]. cbn [memmem_bytes]. destruct (Z.ltb_spec (Z.of_nat i) (Z.of_nat (length h))) as [X|X].
  - pose proof (memmem_at_ok (S fuel) i (c :: n) 0) as E. rewrite Z.add_0_r, Nat.add_0_r in E. cbn [length Nat.add] in E. change (Z.of_nat 0) with 0 in E. rewrite E by (done || (cbn; lia)). cbn [mbind option_bind].
    destruct (is_prefix id (c :: n) (drop i h)) eqn:Y.
    + unfold search_spec. by rewrite (find_sub_at _ _ _ i) by (done || lia).
    + replace (Z.of_nat i + 1) with (Z.of_nat (S i)) by lia. apply IH; [lia| |lia]. intros j Hj. destruct (Nat.eq_dec j i) as [->|]; [done|]. apply A. lia.
  - unfold search_spec. rewrite find_sub_nowhere; [done|]. intros j Hj. destruct (Nat.lt_ge_cases j i); [by apply A|]. by rewrite drop_ge by lia.
Qed.
End memmem.

Lemma memmem_ok sse m haystack needle h n fuel :
  well_mapped m -> load m haystack (length h) = Some h -> load m needle (length n) = Some n -> Z.of_nat (length n) < 2 ^ 32 ->
  (2 * length h + length n + 48 <= fuel)%nat ->
  memmem sse fuel m haystack (Z.of_nat (length h)) needle (Z.of_nat (length n)) = Some (search_spec id haystack n h).
Proof.
  intros W Lh Ln B F. unfold memmem. destruct n as [|c n]; [unfold search_spec; rewrite find_sub_here by done; cbn; f_equal; lia|].
  cbn [length] in *. rewrite (proj2 (Z.eqb_neq _ _)), Z.gtb_ltb by lia. destruct (Z.ltb_spec (Z.of_nat (length h)) (Z.of_nat (S (length n)))) as [X|X].
  { unfold search_spec. rewrite find_sub_nowhere; [done|]. intros j _. apply is_prefix_short. rewrite length_drop. cbn. lia. }
  destruct sse; [|apply (memmem_bytes_ok m haystack needle c n h Lh Ln B fuel 0); (done || lia)].
  destruct (load_cons _ _ _ _ Ln) as [E _]. rewrite E. cbn [mbind option_bind]. rewrite land_15. change (-16) with (- 2 ^ 4). rewrite align_down by lia. change (2 ^ 4) with 16.
  pose proof (Z.mod_pos_bound haystack 16 ltac:(lia)) as K. set (k := haystack mod 16) in *.
  assert (16 | haystack - k) as D by (exists (haystack / 16); unfold k; pose proof (Z.div_mod haystack 16 ltac:(lia)); lia).
  destruct (load_aligned m 16 (haystack - k) haystack W) as [w L]; [by exists 256|lia|done|lia| |].
  { apply load_Some in Lh as [_ H]. specialize (H O ltac:(lia)). rewrite Z.add_0_r in H. rewrite H. apply lookup_lt_is_Some_2. lia. }
  rewrite L. cbn [mbind option_bind]. apply (memmem_loop_ok m haystack needle c n h W Lh Ln B fuel (haystack - k) haystack); try (done || lia).
  pose proof (mask_from_shift m c (haystack - k) k _ ltac:(lia) (mask_from_load _ c _ _ L)) as M. by rewrite Z.sub_add in M.
Qed.

(** C12: What memmem promises: in memory where nothing but the pages of its arguments need be mapped,
    both alternatives give the first place of the needle, or NULL, for needles that an unsigned
    counts. *)
Theorem memmem_exact sse m haystack needle h n fuel :
  well_mapped m -> load m haystack (length h) = Some h -> load m needle (length n) = Some n -> Z.of_nat (length n) < 2 ^ 32 ->
  (2 * length h + length n + 48 <= fuel)%nat ->
  memmem sse fuel m haystack (Z.of_nat (length h)) needle (Z.of_nat (length n)) = Some (search_spec id haystack n h).
Proof. apply memmem_ok. Qed.

Lemma memmem_exact_witness : memmem true 120 headers 4090 22 4108 4 = Some 4108 /\ memmem false 120 headers 4090 17 4108 4 = Some 0.
Proof.
  assert (forall l, Bytes l -> well_mapped (page_of 4090 l)) as P by (intros l; apply page_of_mapped). split.
  - apply (memmem_exact true headers 4090 4108 (bstr "Accept: TEXT/html" ++ 0 :: bstr "text") (bstr "text") 120);
      [apply P; repeat constructor; unfold is_byte; lia|reflexivity|reflexivity|cbn; lia|cbn; lia].
  - apply (memmem_exact false headers 4090 4108 (bstr "Accept: TEXT/html") (bstr "text") 120);
      [apply P; repeat constructor; unfold is_byte; lia|reflexivity|reflexivity|cbn; lia|cbn; lia].
Defined.

(* ------------------------------------------------------------------ *)
(** ** memrchr *)

(** [for (i = n; i--;)] and [while (i--)] *)
Fixpoint memrchr_pure (i : nat) (m : memory) (s c : Z) : option Z :=
  match i with
  | O => Some 0
  | S i => v ← m (s + Z.of_nat i); if v =? c then Some (s + Z.of_nat i) else memrchr_pure i m s c
  end.

(** [__builtin_clzl] *)
Definition clzl (w : Z) : Z := 63 - Z.log2 w.

Fixpoint memrchr_sse (fuel : nat) (m : memory) (s c i : Z) : option Z :=
  if i >=? 16 then
    match fuel with
    | O => None
    | S fuel =>
        let i := i - 16 in
        v ← load m (s + i) 16;
        let b := pmovmskb ((fun x => x =? c) <$> v) in
        if b =? 0 then memrchr_sse fuel m s c i else Some (s + i + Z.lxor (clzl b) 63)
    end
  else memrchr_pure (Z.to_nat i) m s c.

Definition memrchr (sse : bool) (fuel : nat) (m : memory) (s c n : Z) : option Z :=
  if sse then memrchr_sse fuel m s (u8 c) n else memrchr_pure (Z.to_nat n) m s (u8 c).

(** The index of the last element that satisfies a test. *)
Fixpoint last_index {A} (f : A -> bool) (l : list A) : option nat :=
  match l with
  | [] => None
  | x :: l => match last_index f l with Some i => Some (S i) | None => if f x then Some O else None end
  end.

Definition memrchr_spec (s c : Z) (l : bytes) : Z := match last_index (fun x => x =? c) l with Some i => s + Z.of_nat i | None => 0 end.

Lemma last_index_app {A} (f : A -> bool) l r : last_index f (l ++ r) = match last_index f r with Some i => Some (length l + i)%nat | None => last_index f l end.
Proof. induction l as [|x l IH]; cbn [app length last_index]; [by destruct (last_index f r)|]. rewrite IH. by destruct (last_index f r). Qed.

Lemma last_index_Some {A} (f : A -> bool) l i :
  last_index f l = Some i -> (exists x, l !! i = Some x /\ f x = true) /\ forall j x, (i < j)%nat -> l !! j = Some x -> f x = false.
Proof.
  revert i. induction l as [|y l IH]; intros i; cbn [last_index]; [done|]. destruct (last_index f l) as [k|] eqn:E.
  - intros [= <-]. destruct (IH k eq_refl) as [H G]. split; [done|]. intros [|j] x Hj; [lia|]. apply G. lia.
  - destruct (f y) eqn:Y; [|done]. intros [= <-]. split; [by exists y|]. intros [|j] x Hj; [lia|]. change (l !! j = Some x -> f x = false). intros X%list_elem_of_lookup_2. clear -E X.
    induction l as [|z l IH]; [by apply not_elem_of_nil in X|]. cbn [last_index] in E. destruct (last_index f l); [done|]. destruct (f z) eqn:Z; [done|].
    apply elem_of_cons in X as [->|X]; [done|by apply IH].
Qed.

(** The highest bit of a mask. *)
Lemma log2_mask {A} (f : A -> bool) l :
  match last_index f l with Some i => pmovmskb (f <$> l) <> 0 /\ Z.log2 (pmovmskb (f <$> l)) = Z.of_nat i | None => pmovmskb (f <$> l) = 0 end.
Proof.
  induction l as [|x l IH]; [done|]. cbn [last_index fmap list_fmap pmovmskb]. pose proof (pmovmskb_nonneg (f <$> l)) as N. change (list_fmap _ _ f l) with (f <$> l).
  destruct (last_index f l) as [i|].
  - destruct IH as [Nz E]. split; [destruct (f x); cbn; lia|]. rewrite Nat2Z.inj_succ, <- E. destruct (f x); cbn [Z.b2z].
    + rewrite Z.add_comm. apply Z.log2_succ_double. lia.
    + rewrite Z.add_0_l. apply Z.log2_double. lia.
  - rewrite IH. by destruct (f x).
Qed.

Lemma memrchr_pure_ok m s c l : load m s (length l) = Some l -> memrchr_pure (length l) m s c = Some (memrchr_spec s c l).
Proof.
  induction l as [|x l IH] using rev_ind; intros L; [done|]. rewrite length_app, Nat.add_1_r in *. cbn [memrchr_pure]. unfold memrchr_spec. rewrite last_index_app. cbn [last_index].
  rewrite (load_lookup _ _ _ _ _ x L) by by rewrite list_lookup_middle. cbn [mbind option_bind]. destruct (x =? c); [by rewrite Nat.add_0_r|].
  apply IH. pose proof (load_sub _ _ _ _ 0 (length l) L ltac:(lia)) as X. by rewrite Z.add_0_r, drop_0, take_app_length in X.
Qed.

Lemma clzl_xor b : 0 < b < 2 ^ 64 -> Z.lxor (clzl b) 63 = Z.log2 b.
Proof.
  intros B. unfold clzl. assert (0 <= Z.log2 b < 64) as L by (split; [apply Z.log2_nonneg|apply Z.log2_lt_pow2; lia]). generalize dependent (Z.log2 b). intros x L.
  assert (forallb (fun x => Z.lxor (63 - x) 63 =? x) (seqZ 0 64) = true) as T by by vm_compute. rewrite forallb_forall in T. apply Z.eqb_eq, T. apply list_elem_of_In, elem_of_seqZ. lia.
Qed.

(** What memrchr promises: both alternatives give the last place of the byte, or NULL, and read the
    bytes that they are given alone. *)
Theorem memrchr_exact sse m s c l fuel :
  load m s (length l) = Some l -> (length l < 16 * S fuel)%nat -> memrchr sse fuel m s c (Z.of_nat (length l)) = Some (memrchr_spec s (u8 c) l).
Proof.
  intros L F. unfold memrchr. destruct sse; [|rewrite Nat2Z.id; by apply memrchr_pure_ok]. generalize (u8 c). clear c. intros c. revert l L F.
  induction fuel as [|fuel IH]; intros l L F; cbn [memrchr_sse]; rewrite Z.geb_leb; destruct (Z.leb_spec 16 (Z.of_nat (length l))) as [G|G]; try lia;
    try (rewrite Nat2Z.id; by apply memrchr_pure_ok).
  set (k := (length l - 16)%nat). replace (Z.of_nat (length l) - 16) with (Z.of_nat k) by lia.
  pose proof (load_sub _ _ _ _ k 16 L ltac:(lia)) as X. rewrite take_ge in X by (rewrite length_drop; lia). rewrite X. cbn [mbind option_bind]. cbn zeta.
  pose proof (last_index_app (fun x => x =? c) (take k l) (drop k l)) as A. rewrite take_drop in A. unfold memrchr_spec. rewrite A. pose proof (log2_mask (fun x => x =? c) (drop k l)) as M.
  pose proof (pmovmskb_nonneg ((fun x => x =? c) <$> drop k l)) as N. pose proof (pmovmskb_bound ((fun x => x =? c) <$> drop k l)) as B. rewrite length_fmap, length_drop in B.
  replace (length l - k)%nat with 16%nat in B by lia. destruct (last_index _ (drop k l)) as [i|].
  - destruct M as [Nz E]. rewrite (proj2 (Z.eqb_neq _ _) Nz), clzl_xor, E, length_take by (cbn in B |- *; lia). f_equal. lia.
  - rewrite M. cbn [Z.eqb]. pose proof (IH (take k l)) as R. rewrite length_take, Nat.min_l in R by lia. rewrite R; [done| |lia].
    pose proof (load_sub _ _ _ _ 0 k L ltac:(lia)) as Y. by rewrite Z.add_0_r, drop_0 in Y.
Qed.
