(* ===== verification/Tokens.v ===== *)
(** * Sets of characters and tokens (libc/str/strspn.c, strcspn.c, strpbrk.c, strsep.c, strtok_r.c,
    chomp.c)

    Tables of the characters of a set, and the functions that cut a string in place where its characters
    are in a set. *)

From S2P Require Import Prelude Memory Strings Memcmp Memmove Memset StrCopy Substring.

(** [bool lut[256]] *)
Definition empty_table : list bool := replicate 256 false.
Definition mark (lut : list bool) (c : Z) : list bool := <[Z.to_nat c := true]> lut.
Definition marked (lut : list bool) (c : Z) : bool := nth (Z.to_nat (Z.land c 255)) lut false.

(** [while ((c = *accept++ & 255))], without the NUL, and [do while (c)], with it. *)
Fixpoint table_of (fuel : nat) (m : memory) (set : Z) (nul : bool) (lut : list bool) : option (list bool) :=
  match fuel with
  | O => None
  | S fuel =>
      c ← m set;
      let c := Z.land c 255 in
      if c =? 0 then Some (if nul then mark lut c else lut) else table_of fuel m (set + 1) nul (mark lut c)
  end.

(** [for (i = 0;; i++)]: while the characters are such. *)
Fixpoint count (fuel : nat) (m : memory) (f : Z -> bool) (s i : Z) : option Z :=
  match fuel with
  | O => None
  | S fuel => v ← m (s + i); if f v then count fuel m f s (i + 1) else Some i
  end.

(** [tiny] is the macro TINY. *)
Definition strspn (tiny : bool) (fuel : nat) (m : memory) (s accept : Z) : option Z :=
  let by_table := lut ← table_of fuel m accept false empty_table; count fuel m (marked lut) s 0 in
  if tiny then by_table
  else
    a ← m accept;
    if a =? 0 then Some 0
    else
      b ← m (accept + 1);
      if b =? 0 then count fuel m (fun v => v =? a) s 0 else by_table.

Definition strcspn (tiny sse : bool) (fuel : nat) (m : memory) (s reject : Z) : option Z :=
  let by_table := lut ← table_of fuel m reject true empty_table; count fuel m (fun v => negb (marked lut v)) s 0 in
  if tiny then by_table
  else
    a ← m reject;
    if a =? 0 then strlen fuel m s
    else
      b ← m (reject + 1);
      if b =? 0 then e ← strchrnul sse fuel m s a; Some (e - s) else by_table.

(** [for (; *s; ++s)] *)
Fixpoint strpbrk_loop (fuel : nat) (m : memory) (lut : list bool) (s : Z) : option Z :=
  match fuel with
  | O => None
  | S fuel => v ← m s; if v =? 0 then Some 0 else if marked lut v then Some s else strpbrk_loop fuel m lut (s + 1)
  end.

Definition strpbrk (sse : bool) (fuel : nat) (m : memory) (s accept : Z) : option Z :=
  a ← m accept;
  if a =? 0 then Some 0
  else
    b ← m (accept + 1);
    if b =? 0 then strchr sse fuel m s a
    else lut ← table_of fuel m accept false empty_table; strpbrk_loop fuel m lut s.

Section tokens.
Context (tiny sse : bool).

(** [strsep]: the memory, the new value of [*str], and the token. *)
Definition strsep (fuel : nat) (m : memory) (str delim : Z) : option (memory * Z * Z) :=
  if str =? 0 then Some (m, str, str)
  else
    i ← strcspn tiny sse fuel m str delim;
    v ← m (str + i);
    if v =? 0 then Some (m, 0, str)
    else m ← store m (str + i) [0]; Some (m, str + i + 1, str).

(** [strtok_r]: the memory, the new value of [*state], and the token. *)
Definition strtok_r (fuel : nat) (m : memory) (s sep state : Z) : option (memory * Z * Z) :=
  let s := if s =? 0 then state else s in
  if s =? 0 then Some (m, state, 0)
  else
    leadingseps ← strspn tiny fuel m s sep;
    let s := s + leadingseps in
    v ← m s;
    if v =? 0 then Some (m, 0, 0)
    else
      tokenlen ← strcspn tiny sse fuel m s sep;
      v ← m (s + tokenlen);
      if negb (v =? 0) then m ← store m (s + tokenlen) [0]; Some (m, s + tokenlen + 1, s)
      else if negb (tokenlen =? 0) then m ← store m (s + tokenlen) [0]; Some (m, 0, s)
      else Some (m, 0, 0).

(** The tokens of a string: the calls of a program that takes all of them. *)
Fixpoint strsep_all (calls fuel : nat) (m : memory) (str delim : Z) : option (memory * list Z) :=
  match calls with
  | O => None
  | S calls =>
      '(m, str, token) ← strsep fuel m str delim;
      if token =? 0 then Some (m, [])
      else '(m, l) ← strsep_all calls fuel m str delim; Some (m, token :: l)
  end.

Fixpoint strtok_all (calls fuel : nat) (m : memory) (s sep state : Z) : option (memory * list Z) :=
  match calls with
  | O => None
  | S calls =>
      '(m, state, token) ← strtok_r fuel m s sep state;
      if token =? 0 then Some (m, [])
      else '(m, l) ← strtok_all calls fuel m 0 sep state; Some (m, token :: l)
  end.
End tokens.

(** [for (i = strlen(line); i--;)] *)
Fixpoint chomp_loop (i : nat) (m : memory) (line : Z) : option memory :=
  match i with
  | O => Some m
  | S i =>
      v ← m (line + Z.of_nat i);
      if (v =? 13) || (v =? 10) then m ← store m (line + Z.of_nat i) [0]; chomp_loop i m line else Some m
  end.

Definition chomp (fuel : nat) (m : memory) (line : Z) : option (memory * Z) :=
  if line =? 0 then Some (m, line)
  else
    n ← strlen fuel m line;
    m ← chomp_loop (Z.to_nat n) m line;
    Some (m, line).

(* ------------------------------------------------------------------ *)
(** ** Sets *)

(** How many elements at the front are such. *)
Fixpoint run (f : Z -> bool) (l : bytes) : nat := match l with x :: l => if f x then S (run f l) else O | [] => O end.

Definition inside (a : bytes) (x : Z) : bool := bool_decide (x ∈ a).

Lemma run_le f l : (run f l <= length l)%nat.
Proof. induction l as [|x l IH]; cbn [run length]; [done|]. destruct (f x); lia. Qed.

Lemma run_ext f g l : (forall x, x ∈ l -> f x = g x) -> run f l = run g l.
Proof.
  induction l as [|x l IH]; intros H; [done|]. cbn [run]. rewrite (H x), IH; [done| |apply list_elem_of_here]. intros y Hy. apply H. by apply list_elem_of_further.
Qed.

Lemma run_first f l : run f l = default (length l) (first (fun x => negb (f x)) l).
Proof. induction l as [|x l IH]; [done|]. cbn [run first length]. rewrite IH. destruct (f x); [|done]. cbn [negb]. by destruct (first _ l). Qed.

(** Where a run ends. *)
Lemma run_end f l x : l !! run f l = Some x -> f x = false.
Proof. induction l as [|y l IH]; [done|]. cbn [run]. destruct (f y) eqn:E; [done|]. intros [= <-]. done. Qed.

Lemma run_before f l (i : nat) x : (i < run f l)%nat -> l !! i = Some x -> f x = true.
Proof. revert i. induction l as [|y l IH]; intros i H; [done|]. cbn [run] in H. destruct (f y) eqn:E; [|lia]. destruct i; [by intros [= <-]|]. apply IH. lia. Qed.

Lemma mark_length lut c : length (mark lut c) = length lut.
Proof. apply length_insert. Qed.

Lemma marked_mark lut c x : length lut = 256%nat -> is_byte c -> is_byte x -> marked (mark lut c) x = (x =? c) || marked lut x.
Proof.
  intros L Hc Hx. unfold marked, mark. rewrite !land_255, (Z.mod_small x) by exact Hx. unfold is_byte in *. rewrite !nth_lookup. destruct (Z.eqb_spec x c) as [->|N].
  - rewrite list_lookup_insert_eq by lia. done.
  - rewrite list_lookup_insert_ne by lia. done.
Qed.

Lemma table_of_ok fuel m nul : forall a p lut, Bytes a -> cstring m p a -> (length a < fuel)%nat -> length lut = 256%nat ->
  exists lut', table_of fuel m p nul lut = Some lut' /\ forall x, is_byte x -> marked lut' x = inside a x || (nul && (x =? 0)) || marked lut x.
Proof.
  induction fuel as [|fuel IH]; intros a p lut B C F L; [lia|]. cbn [table_of]. destruct a as [|c a].
  - pose proof (cstring_nul _ _ _ C) as E. rewrite Z.add_0_r in E. rewrite E. cbn [mbind option_bind Z.land Z.eqb]. eexists. split; [reflexivity|]. intros x Hx. destruct nul; [|done].
    rewrite marked_mark by (done || (unfold is_byte; lia)). done.
  - destruct (cstring_cons _ _ _ _ C) as (E & N & C'). apply Forall_cons in B as [Bc B]. rewrite E. cbn [mbind option_bind]. cbn zeta. rewrite land_255, Z.mod_small by exact Bc.
    rewrite (proj2 (Z.eqb_neq _ _) N). destruct (IH a (p + 1) (mark lut c) B C') as (lut' & -> & H); [cbn in F; lia|by rewrite mark_length|]. exists lut'. split; [done|]. intros x Hx.
    rewrite (H x Hx), marked_mark by done. unfold inside. destruct (Z.eqb_spec x c) as [->|Nx].
    + rewrite (bool_decide_true (c ∈ c :: a)) by apply list_elem_of_here. cbn [orb]. by rewrite orb_true_r.
    + rewrite (bool_decide_ext (x ∈ c :: a) (x ∈ a)) by (rewrite elem_of_cons; naive_solver). cbn [orb]. done.
Qed.

(** Tests that a NUL fails end at the end of a string at last. *)
Lemma count_ok fuel m f l s : cstring m s l -> f 0 = false -> forall i : nat, (i <= run f l)%nat -> (length l - i < fuel)%nat -> count fuel m f s (Z.of_nat i) = Some (Z.of_nat (run f l)).
Proof.
  intros C Z. induction fuel as [|fuel IH]; intros i I F; [lia|]. cbn [count]. pose proof (run_le f l) as R. destruct C as [N L].
  destruct (lookup_lt_is_Some_2 (l ++ [0]) i) as [v V]; [rewrite length_app; cbn; lia|]. rewrite (load_lookup _ _ _ _ _ _ L V). cbn [mbind option_bind].
  destruct (Nat.eq_dec i (run f l)) as [->|X].
  - assert (f v = false) as ->; [|done]. destruct (Nat.eq_dec (run f l) (length l)) as [E|E]; [rewrite E, list_lookup_middle in V by done; by injection V as <-|].
    rewrite lookup_app_l in V by lia. by eapply run_end.
  - rewrite lookup_app_l in V by lia. rewrite (run_before f l i v) by (done || lia). replace (Z.of_nat i + 1) with (Z.of_nat (S i)) by lia. apply IH; lia.
Qed.

Lemma cstring_bytes m s l : well_mapped m -> cstring m s l -> Bytes l.
Proof. intros W [_ L]. apply (load_Bytes _ _ _ _ W) in L. by apply Forall_app in L as [L _]. Qed.

Lemma inside_nul a : Forall (fun b => b <> 0) a -> inside a 0 = false.
Proof. intros N. apply bool_decide_eq_false. intros E. apply (proj1 (Forall_forall _ _) N 0 E). done. Qed.

Section sets.
Context (m : memory) (s a : Z) (l c : bytes) (fuel : nat) (W : well_mapped m) (Cl : cstring m s l) (Cc : cstring m a c) (Fl : (length l < fuel)%nat) (Fc : (length c < fuel)%nat).

Lemma by_table f (g : bool -> bool) nul : (forall x, is_byte x -> g (inside c x || (nul && (x =? 0))) = f x) -> f 0 = false ->
  (lut ← table_of fuel m a nul empty_table; count fuel m (fun v => g (marked lut v)) s 0) = Some (Z.of_nat (run f l)).
Proof using W Cl Cc Fl Fc.
  intros H Z. destruct (table_of_ok fuel m nul c a empty_table (cstring_bytes _ _ _ W Cc) Cc Fc eq_refl) as (lut & -> & T). cbn [mbind option_bind].
  assert (forall x, is_byte x -> g (marked lut x) = f x) as E.
  { intros x Hx. rewrite T by done. replace (marked empty_table x) with false; [rewrite orb_false_r; by apply H|]. unfold marked, empty_table. rewrite nth_lookup. destruct (replicate 256 false !! _) eqn:R; [by apply lookup_replicate in R as [-> _]|done]. }
  pose proof (count_ok fuel m (fun v => g (marked lut v)) l s Cl) as K. cbn beta in K. rewrite (E 0) in K by (unfold is_byte; lia). rewrite (run_ext _ f) in K; [apply (K Z 0%nat); lia|].
  intros x Hx. apply E. by apply (proj1 (Forall_forall _ _) (cstring_bytes _ _ _ W Cl)).
Qed.

Lemma strspn_ok tiny : strspn tiny fuel m s a = Some (Z.of_nat (run (inside c) l)).
Proof using W Cl Cc Fl Fc.
  unfold strspn. pose proof (by_table (inside c) (fun b => b) false ltac:(intros x _; by rewrite orb_false_r) (inside_nul _ (proj1 Cc))) as T. destruct tiny; [exact T|].
  destruct c as [|x [|y k]] eqn:E.
  - pose proof (cstring_nul _ _ _ Cc) as Z. rewrite Z.add_0_r in Z. rewrite Z. cbn [mbind option_bind Z.eqb]. f_equal. by destruct l.
  - destruct (cstring_cons _ _ _ _ Cc) as (X & N & C1). pose proof (cstring_nul _ _ _ C1) as Z. rewrite Z.add_0_r in Z. rewrite X. cbn [mbind option_bind]. rewrite (proj2 (Z.eqb_neq _ _) N), Z.
    cbn [mbind option_bind Z.eqb]. rewrite (run_ext _ (fun v => v =? x)); [apply (count_ok fuel m (fun v => v =? x) l s Cl ltac:(apply Z.eqb_neq; congruence) 0); lia|].
    intros v _. unfold inside. rewrite (bool_decide_ext _ (v = x)) by (rewrite list_elem_of_singleton; done). apply eq_true_iff_eq. by rewrite bool_decide_eq_true, Z.eqb_eq.
  - destruct (cstring_cons _ _ _ _ Cc) as (X & N & C1). destruct (cstring_cons _ _ _ _ C1) as (Y & Ny & _). rewrite X. cbn [mbind option_bind]. rewrite (proj2 (Z.eqb_neq _ _) N), Y. cbn [mbind option_bind].
    rewrite (proj2 (Z.eqb_neq _ _) Ny). exact T.
Qed.

Lemma strcspn_ok tiny sse : strcspn tiny sse fuel m s a = Some (Z.of_nat (run (fun x => negb (inside c x)) l)).
Proof using W Cl Cc Fl Fc.
  unfold strcspn. pose proof (by_table (fun x => negb (inside c x || (x =? 0))) negb true ltac:(done) ltac:(cbn; by rewrite orb_true_r)) as T.
  rewrite (run_ext (fun x => negb (inside c x || (x =? 0))) (fun x => negb (inside c x))) in T.
  2: { intros x Hx. destruct Cl as [N _]. pose proof (proj1 (Forall_forall _ _) N x Hx). by rewrite (proj2 (Z.eqb_neq x 0)), orb_false_r by done. }
  destruct tiny; [exact T|]. destruct c as [|x [|y k]] eqn:E.
  - pose proof (cstring_nul _ _ _ Cc) as Z. rewrite Z.add_0_r in Z. rewrite Z. cbn [mbind option_bind Z.eqb]. rewrite (strlen_ok _ _ _ _ W Cl Fl). do 2 f_equal. clear. induction l as [|v k IH]; [done|]. cbn. by rewrite IH.
  - destruct (cstring_cons _ _ _ _ Cc) as (X & N & C1). pose proof (cstring_nul _ _ _ C1) as Z. rewrite Z.add_0_r in Z. rewrite X. cbn [mbind option_bind]. rewrite (proj2 (Z.eqb_neq _ _) N), Z.
    cbn [mbind option_bind Z.eqb]. rewrite (strchrnul_ok _ _ _ _ _ l W Cl Fl). cbn [mbind option_bind]. f_equal. unfold strchrnul_spec.
    assert (u8 x = x) as -> by (apply Z.mod_small; apply (mapped_byte m W _ _ X)). rewrite run_first.
    rewrite (first_ext (fun v => negb (negb (inside [x] v))) (Z.eqb x)); [destruct (first (Z.eqb x) l); cbn; lia|].
    intros v _. unfold inside. rewrite negb_involutive, (bool_decide_ext _ (v = x)) by (rewrite list_elem_of_singleton; done). apply eq_true_iff_eq. rewrite bool_decide_eq_true, Z.eqb_eq. done.
  - destruct (cstring_cons _ _ _ _ Cc) as (X & N & C1). destruct (cstring_cons _ _ _ _ C1) as (Y & Ny & _). rewrite X. cbn [mbind option_bind]. rewrite (proj2 (Z.eqb_neq _ _) N), Y. cbn [mbind option_bind].
    rewrite (proj2 (Z.eqb_neq _ _) Ny). exact T.
Qed.
End sets.

Lemma strpbrk_loop_ok fuel m lut f : (forall x, is_byte x -> marked lut x = f x) -> forall l s, Bytes l -> cstring m s l -> (length l < fuel)%nat ->
  strpbrk_loop fuel m lut s = Some (match first f l with Some i => s + Z.of_nat i | None => 0 end).
Proof.
  intros H. induction fuel as [|fuel IH]; intros l s B C F; [lia|]. cbn [strpbrk_loop]. destruct l as [|x l].
  - pose proof (cstring_nul _ _ _ C) as Z. rewrite Z.add_0_r in Z. by rewrite Z.
  - destruct (cstring_cons _ _ _ _ C) as (X & N & C'). apply Forall_cons in B as [Bx B]. rewrite X. cbn [mbind option_bind first]. rewrite (proj2 (Z.eqb_neq _ _) N), H by done.
    destruct (f x); [f_equal; lia|]. rewrite (IH l) by (done || (cbn in F; lia)). destruct (first f l); [|done]. cbn. f_equal. lia.
Qed.

Lemma strpbrk_ok sse fuel m s a l c : well_mapped m -> cstring m s l -> cstring m a c -> (length l < fuel)%nat -> (length c < fuel)%nat ->
  strpbrk sse fuel m s a = Some (match first (inside c) l with Some i => s + Z.of_nat i | None => 0 end).
Proof.
  intros W Cl Cc Fl Fc. unfold strpbrk. destruct c as [|x c].
  - pose proof (cstring_nul _ _ _ Cc) as Z. rewrite Z.add_0_r in Z. rewrite Z. cbn [mbind option_bind Z.eqb]. replace (first (inside []) l) with (@None nat); [done|]. symmetry. by apply first_None.
  - destruct (cstring_cons _ _ _ _ Cc) as (X & N & C1). rewrite X. cbn [mbind option_bind]. rewrite (proj2 (Z.eqb_neq _ _) N). destruct c as [|y c].
    + pose proof (cstring_nul _ _ _ C1) as Z. rewrite Z.add_0_r in Z. rewrite Z. cbn [mbind option_bind Z.eqb]. rewrite (strchr_ok _ _ _ _ _ l W Cl Fl). unfold strchr_spec.
      assert (u8 x = x) as -> by (apply Z.mod_small; apply (mapped_byte m W _ _ X)). rewrite first_app_nul, (proj2 (Z.eqb_neq x 0) N).
      rewrite (first_ext (inside [x]) (Z.eqb x)); [by destruct (first _ l)|]. intros v _. unfold inside.
      rewrite (bool_decide_ext _ (v = x)) by (rewrite list_elem_of_singleton; done). apply eq_true_iff_eq. rewrite bool_decide_eq_true, Z.eqb_eq. done.
    + destruct (cstring_cons _ _ _ _ C1) as (Y & Ny & _). rewrite Y. cbn [mbind option_bind]. rewrite (proj2 (Z.eqb_neq _ _) Ny).
      destruct (table_of_ok fuel m false (x :: y :: c) a empty_table (cstring_bytes _ _ _ W Cc) Cc Fc eq_refl) as (lut & -> & T). cbn [mbind option_bind].
      apply strpbrk_loop_ok; [|by eapply cstring_bytes|done|done]. intros v Hv. rewrite T by done. rewrite orb_false_r. unfold marked, empty_table. rewrite nth_lookup.
      destruct (replicate 256 false !! _) eqn:R; [apply lookup_replicate in R as [-> _]|]; cbn; by rewrite orb_false_r.
Qed.

(* ------------------------------------------------------------------ *)
(** ** Cutting strings *)

(** A NUL at [p]. *)
Definition cut_at (m : memory) (p : Z) (m' : memory) : Prop := forall a, m' a = if a =? p then Some 0 else m a.

Lemma store_nul m p : is_Some (m p) -> exists m', store m p [0] = Some m' /\ cut_at m p m'.
Proof.
  intros M. destruct (store_written m p [] m [0] (written_nil _ _)) as (m' & E & U); [intros k Hk; cbn in Hk; by replace (p + k) with p by lia|].
  cbn [length Z.of_nat] in E. rewrite Z.add_0_r in E. exists m'. split; [done|]. intros a. rewrite U. cbn [app length]. destruct (Z.eqb_spec a p) as [->|N].
  - by rewrite Z.sub_diag.
  - by assert (span 0 (Z.of_nat 1) (a - p) = false) as -> by (change (Z.of_nat 1) with 1; offsets).
Qed.

Lemma cut_at_mapped m p m' : well_mapped m -> is_Some (m p) -> cut_at m p m' -> well_mapped m'.
Proof.
  intros W M H. split.
  - intros a b E Ma. assert (is_Some (m a)) as Ma' by (rewrite H in Ma; by destruct (Z.eqb_spec a p) as [->|]). rewrite H. destruct (b =? p); [done|]. by apply (mapped_page m W a).
  - intros a v. rewrite H. destruct (a =? p); [intros [= <-]; unfold is_byte; lia|apply (mapped_byte m W)].
Qed.

Lemma cstring_frame m m' p l : cstring m p l -> (forall a, p <= a <= p + Z.of_nat (length l) -> m' a = m a) -> cstring m' p l.
Proof.
  intros [N L] H. split; [done|]. apply load_Some in L as [Ll L]. apply load_Some. split; [done|]. intros i Hi. rewrite H by lia. by apply L.
Qed.

Lemma cstring_cut m p l (i : nat) m' : cstring m p l -> (i < length l)%nat -> cut_at m (p + Z.of_nat i) m' ->
  cstring m' p (take i l) /\ cstring m' (p + Z.of_nat i + 1) (drop (S i) l).
Proof.
  intros C I H. split.
  - destruct C as [N L]. split; [by apply Forall_take|]. assert (length (take i l) = i) as Li by (rewrite length_take; lia). rewrite Li. apply load_Some in L as [_ L].
    apply load_Some. split; [rewrite length_app, Li; cbn; lia|]. intros j Hj. rewrite H. destruct (Z.eqb_spec (p + Z.of_nat j) (p + Z.of_nat i)) as [E|E].
    + replace j with (length (take i l)) by lia. by rewrite list_lookup_middle.
    + rewrite L, !lookup_app_l by lia. symmetry. apply lookup_take_lt. lia.
  - pose proof (cstring_suffix _ _ _ (S i) C ltac:(lia)) as D. replace (p + Z.of_nat (S i)) with (p + Z.of_nat i + 1) in D by lia. eapply cstring_frame; [exact D|].
    intros a Ha. rewrite H. by rewrite (proj2 (Z.eqb_neq _ _)) by lia.
Qed.

Lemma cstring_mapped m p l (i : nat) : cstring m p l -> (i <= length l)%nat -> exists v, m (p + Z.of_nat i) = Some v /\ (v =? 0) = bool_decide (i = length l).
Proof.
  intros C I. destruct (lookup_lt_is_Some_2 (l ++ [0]) i) as [v V]; [rewrite length_app; cbn; lia|]. exists v. split; [|by eapply string_at].
  destruct C as [_ L]. by apply (load_lookup _ _ _ _ _ _ L).
Qed.

(** The fields of a string. *)
Fixpoint fields (f : Z -> bool) (l : bytes) : list bytes :=
  match l with
  | [] => [[]]
  | x :: l => if f x then [] :: fields f l else match fields f l with h :: t => (x :: h) :: t | [] => [[x]] end
  end.

Lemma fields_run f l : fields f l = let i := run (fun x => negb (f x)) l in if bool_decide (i = length l) then [l] else take i l :: fields f (drop (S i) l).
Proof.
  cbv zeta. induction l as [|x l IH]; [done|]. cbn [fields run]. destruct (f x); [done|]. cbn [negb length]. rewrite IH.
  rewrite (bool_decide_ext (S (run (fun x => negb (f x)) l) = S (length l)) (run (fun x => negb (f x)) l = length l)) by lia. by case_bool_decide.
Qed.

Section cutting.
Context (tiny sse : bool) (fuel : nat) (a : Z) (c : bytes) (Fc : (length c < fuel)%nat).

(** Memory in which the string [l] at [p] can be cut by the set. *)
Record cuttable (m : memory) (p : Z) (l : bytes) : Prop := {
  cuttable_mapped : well_mapped m;
  cuttable_string : cstring m p l;
  cuttable_set : cstring m a c;
  cuttable_place : 0 < p;
  cuttable_apart : p + Z.of_nat (length l) < a \/ a + Z.of_nat (length c) < p;
  cuttable_fuel : (length l < fuel)%nat
}.

(** What follows a cut can be cut. *)
Lemma cuttable_rest m p l (i : nat) m' : cuttable m p l -> (i < length l)%nat -> cut_at m (p + Z.of_nat i) m' -> cuttable m' (p + Z.of_nat i + 1) (drop (S i) l).
Proof using Fc.
  intros [W C D P A F] I H. destruct (cstring_mapped _ _ _ i C ltac:(lia)) as (v & V & _).
  split; [eapply cut_at_mapped; [exact W|by exists v|exact H]|by eapply cstring_cut| |lia|rewrite length_drop; lia|rewrite length_drop; lia].
  eapply cstring_frame; [exact D|]. intros b Hb. rewrite H. by rewrite (proj2 (Z.eqb_neq _ _)) by lia.
Qed.

Lemma cuttable_suffix m p l (i : nat) : cuttable m p l -> (i <= length l)%nat -> cuttable m (p + Z.of_nat i) (drop i l).
Proof using Fc. intros [W C D P A F] I. split; try done; [by apply cstring_suffix|lia|rewrite length_drop; lia|rewrite length_drop; lia]. Qed.

Lemma strsep_ok m p l : cuttable m p l -> let i := run (fun x => negb (inside c x)) l in
  if bool_decide (i = length l) then strsep tiny sse fuel m p a = Some (m, 0, p)
  else exists m', strsep tiny sse fuel m p a = Some (m', p + Z.of_nat i + 1, p) /\ cut_at m (p + Z.of_nat i) m'.
Proof using Fc.
  intros [W C D P A F]. cbv zeta. unfold strsep. rewrite (proj2 (Z.eqb_neq p 0)) by lia. rewrite (strcspn_ok m p a l c fuel W C D F Fc). cbn [mbind option_bind].
  destruct (cstring_mapped _ _ _ (run (fun x => negb (inside c x)) l) C (run_le _ _)) as (v & V & E). rewrite V. cbn [mbind option_bind]. rewrite E. case_bool_decide; [done|].
  destruct (store_nul m (p + Z.of_nat (run (fun x => negb (inside c x)) l))) as (m' & -> & H'); [by exists v|]. by exists m'.
Qed.

Lemma strsep_all_ok calls : forall m p l, cuttable m p l -> (S (length l) < calls)%nat ->
  exists m' toks, strsep_all tiny sse calls fuel m p a = Some (m', toks) /\ Forall2 (cstring m') toks (fields (inside c) l) /\ forall b, b < p \/ p + Z.of_nat (length l) <= b -> m' b = m b.
Proof using Fc.
  induction calls as [|calls IH]; intros m p l C K; [lia|]. cbn [strsep_all]. pose proof (strsep_ok m p l C) as S. rewrite fields_run. cbv zeta in *. set (i := run (fun x => negb (inside c x)) l) in *.
  pose proof (run_le (fun x => negb (inside c x)) l : (i <= length l)%nat) as I. pose proof (cuttable_place _ _ _ C) as P. case_bool_decide as E.
  - rewrite S. cbn [mbind option_bind]. rewrite (proj2 (Z.eqb_neq p 0)) by lia. destruct calls as [|calls]; [lia|]. cbn [strsep_all strsep Z.eqb mbind option_bind].
    exists m, [p]. split; [done|]. split; [|done]. constructor; [|constructor]. apply (cuttable_string _ _ _ C).
  - destruct S as (m1 & S & H). rewrite S. cbn [mbind option_bind]. rewrite (proj2 (Z.eqb_neq p 0)) by lia.
    destruct (IH m1 _ _ (cuttable_rest _ _ _ i _ C ltac:(lia) H)) as (m' & toks & -> & T & Fr); [rewrite length_drop; lia|]. cbn [mbind option_bind]. exists m', (p :: toks). split; [done|].
    destruct (cstring_cut _ _ _ i _ (cuttable_string _ _ _ C) ltac:(lia) H) as [C1 _]. rewrite length_drop in Fr. split.
    + constructor; [|done]. eapply cstring_frame; [exact C1|]. intros b Hb. rewrite length_take in Hb. apply Fr. lia.
    + intros b Hb. rewrite Fr, H by lia. by rewrite (proj2 (Z.eqb_neq _ _)) by lia.
Qed.

Definition nonempty (l : bytes) : bool := match l with [] => false | _ => true end.

(** Separators at the front have no tokens. *)
Lemma fields_leading f l : filter nonempty (fields f l) = filter nonempty (fields f (drop (run f l) l)).
Proof. induction l as [|x l IH]; [done|]. cbn [fields run]. destruct (f x) eqn:E; [|cbn [drop fields]; by rewrite E]. cbn [drop]. rewrite <- IH. done. Qed.

Lemma strtok_ok m p l s state : cuttable m p l -> (if s =? 0 then state else s) = p ->
  let k := run (inside c) l in let r := drop k l in let i := run (fun x => negb (inside c x)) r in
  if bool_decide (r = []) then strtok_r tiny sse fuel m s a state = Some (m, 0, 0)
  else (0 < i)%nat /\ exists m', cut_at m (p + Z.of_nat (k + i)) m' /\
    strtok_r tiny sse fuel m s a state = Some (m', if bool_decide (i = length r) then 0 else p + Z.of_nat (k + i) + 1, p + Z.of_nat k).
Proof using Fc.
  intros C E. pose proof C as [W Cl D P A F]. cbv zeta. unfold strtok_r. rewrite E, (proj2 (Z.eqb_neq p 0)) by lia. rewrite (strspn_ok m p a l c fuel W Cl D F Fc). cbn [mbind option_bind]. cbn zeta.
  set (k := run (inside c) l). pose proof (run_le (inside c) l : (k <= length l)%nat) as K. destruct (cstring_mapped _ _ _ k Cl K) as (v & V & Ev). rewrite V. cbn [mbind option_bind]. rewrite Ev.
  set (r := drop k l). assert (length r = length l - k)%nat as Lr by apply length_drop. rewrite (bool_decide_ext (k = length l) (r = [])) by (rewrite <- length_zero_iff_nil, Lr; lia).
  destruct (decide (r = [])) as [X|X]; [by rewrite !bool_decide_true|rewrite !(bool_decide_false (r = [])) by done]. pose proof (cuttable_suffix _ _ _ k C K : cuttable m (p + Z.of_nat k) r) as Cr. pose proof Cr as [_ Crl _ _ _ Fr].
  rewrite (strcspn_ok m _ a r c fuel W Crl D Fr Fc). cbn [mbind option_bind]. set (i := run (fun x => negb (inside c x)) r). pose proof (run_le (fun x => negb (inside c x)) r : (i <= length r)%nat) as I.
  assert (0 < i)%nat as I0.
  { unfold i. destruct r as [|x r'] eqn:R; [done|]. cbn [run]. assert (inside c x = false) as ->; [|cbn; lia]. apply (run_end (inside c) l). fold k. rewrite <- (Nat.add_0_r k), <- lookup_drop. fold r. by rewrite R. }
  split; [done|]. destruct (cstring_mapped _ _ _ i Crl I) as (u & U & Eu). rewrite U. cbn [mbind option_bind]. rewrite Eu. destruct (store_nul m (p + Z.of_nat k + Z.of_nat i)) as (m' & S & H); [by exists u|].
  exists m'. split; [by replace (p + Z.of_nat (k + i)) with (p + Z.of_nat k + Z.of_nat i) by lia|]. rewrite (proj2 (Z.eqb_neq (Z.of_nat i) 0)) by lia.
  replace (p + Z.of_nat (k + i)) with (p + Z.of_nat k + Z.of_nat i) by lia. case_bool_decide; cbn [negb]; by rewrite S.
Qed.
End cutting.

Section tokenizing.
Context (tiny sse : bool) (fuel : nat) (a : Z) (c : bytes) (Fc : (length c < fuel)%nat).

Lemma strtok_all_ok calls : forall m p l s state, cuttable fuel a c m p l -> (if s =? 0 then state else s) = p -> (S (length l) < calls)%nat ->
  exists m' toks, strtok_all tiny sse calls fuel m s a state = Some (m', toks) /\ Forall2 (cstring m') toks (filter nonempty (fields (inside c) l)) /\
    forall b, b < p \/ p + Z.of_nat (length l) <= b -> m' b = m b.
Proof using Fc.
  induction calls as [|calls IH]; intros m p l s state C E K; [lia|]. cbn [strtok_all]. pose proof (strtok_ok tiny sse fuel a c Fc m p l s state C E) as Q. rewrite fields_leading. cbv zeta in Q.
  set (k := run (inside c) l) in *. set (r := drop k l) in *. pose proof (run_le (inside c) l : (k <= length l)%nat) as Hk. assert (length r = length l - k)%nat as Lr by apply length_drop.
  destruct (decide (r = [])) as [X|X]; [rewrite bool_decide_true in Q by done|rewrite (bool_decide_false (r = [])) in Q by done].
  { rewrite Q, X. exists m, []. split; [done|]. split; [constructor|done]. }
  set (i := run (fun x => negb (inside c x)) r) in *. pose proof (run_le (fun x => negb (inside c x)) r : (i <= length r)%nat) as Hi. destruct Q as (I0 & m1 & H & Q). rewrite Q. cbn [mbind option_bind].
  pose proof (cuttable_place _ _ _ _ _ _ C) as P. rewrite (proj2 (Z.eqb_neq (p + Z.of_nat k) 0)) by lia. rewrite fields_run. cbv zeta. fold i.
  pose proof (cuttable_suffix fuel a c Fc _ _ _ k C Hk : cuttable fuel a c m (p + Z.of_nat k) r) as Cr. replace (p + Z.of_nat (k + i)) with (p + Z.of_nat k + Z.of_nat i) in H by lia. case_bool_decide as Y.
  - destruct calls as [|calls]; [lia|]. cbn [strtok_all strtok_r Z.eqb mbind option_bind]. exists m1, [p + Z.of_nat k]. split; [done|].
    assert (forall b, m1 b = m b) as Eq.
    { intros b. rewrite H. destruct (Z.eqb_spec b (p + Z.of_nat k + Z.of_nat i)) as [->|]; [|done]. rewrite Y. symmetry. apply (cstring_nul _ _ _ (cuttable_string _ _ _ _ _ _ Cr)). }
    split; [|intros b _; apply Eq]. cbn [filter list_filter]. destruct r as [|x r'] eqn:R; [done|]. constructor; [|constructor]. eapply cstring_frame; [apply (cuttable_string _ _ _ _ _ _ Cr)|]. intros b _. apply Eq.
  - replace (p + Z.of_nat (k + i) + 1) with (p + Z.of_nat k + Z.of_nat i + 1) by lia.
    destruct (IH m1 _ _ 0 (p + Z.of_nat k + Z.of_nat i + 1) (cuttable_rest fuel a c Fc _ _ _ i _ Cr ltac:(lia) H) eq_refl) as (m' & toks & -> & T & Fr); [rewrite length_drop; lia|]. cbn [mbind option_bind].
    exists m', (p + Z.of_nat k :: toks). split; [done|]. destruct (cstring_cut _ _ _ i _ (cuttable_string _ _ _ _ _ _ Cr) ltac:(lia) H) as [C1 _]. rewrite length_drop in Fr. split.
    + assert (filter nonempty (take i r :: fields (inside c) (drop (S i) r)) = take i r :: filter nonempty (fields (inside c) (drop (S i) r))) as ->.
      { cbn [filter list_filter]. destruct i as [|j]; [lia|]. by destruct r. }
      constructor; [|done]. eapply cstring_frame; [exact C1|]. intros b Hb. rewrite length_take in Hb. apply Fr. lia.
    + intros b Hb. rewrite Fr, H by lia. by rewrite (proj2 (Z.eqb_neq _ _)) by lia.
Qed.

(** C15: What strsep and strtok_r promise: called until they give NULL, they give the fields that the characters
    of the set separate, all of them and those that are not empty, each as a string in place; no memory but
    that of the string is changed. The string and the set do not overlap, and nothing but their pages need
    be mapped. *)
Theorem tokens_exact calls m p l : cuttable fuel a c m p l -> (S (length l) < calls)%nat ->
  (exists m' toks, strsep_all tiny sse calls fuel m p a = Some (m', toks) /\ Forall2 (cstring m') toks (fields (inside c) l) /\
    forall b, b < p \/ p + Z.of_nat (length l) <= b -> m' b = m b) /\
  (exists m' toks, strtok_all tiny sse calls fuel m p a 0 = Some (m', toks) /\ Forall2 (cstring m') toks (filter nonempty (fields (inside c) l)) /\
    forall b, b < p \/ p + Z.of_nat (length l) <= b -> m' b = m b).
Proof using Fc.
  intros C K. split; [by apply strsep_all_ok|]. apply (strtok_all_ok calls m p); [done| |done]. pose proof (cuttable_place _ _ _ _ _ _ C). by rewrite (proj2 (Z.eqb_neq p 0)) by lia.
Qed.
End tokenizing.

(** Lines without their ends. *)
Fixpoint strip (l : bytes) : bytes :=
  match l with
  | [] => []
  | x :: l => match strip l with [] => if (x =? 13) || (x =? 10) then [] else [x] | r => x :: r end
  end.

Lemma strip_snoc l x : strip (l ++ [x]) = if (x =? 13) || (x =? 10) then strip l else l ++ [x].
Proof.
  induction l as [|y l IH]; [done|]. cbn [app strip]. rewrite IH. destruct ((x =? 13) || (x =? 10)); [done|]. by destruct l.
Qed.

(** What chomp promises: the string at the line is what was there without the carriage returns and newlines
    at its end, and so many bytes are changed. *)
Theorem chomp_exact m p l fuel : well_mapped m -> cstring m p l -> 0 < p -> (length l < fuel)%nat ->
  exists m', chomp fuel m p = Some (m', p) /\ cstring m' p (strip l) /\ forall b, b < p + Z.of_nat (length (strip l)) \/ p + Z.of_nat (length l) <= b -> m' b = m b.
Proof.
  intros W C P F. unfold chomp. rewrite (proj2 (Z.eqb_neq p 0)) by lia. rewrite (strlen_ok _ _ _ _ W C F). cbn [mbind option_bind]. rewrite Nat2Z.id. clear F W.
  cut (exists m', chomp_loop (length l) m p = Some m' /\ cstring m' p (strip l) /\ forall b, b < p + Z.of_nat (length (strip l)) \/ p + Z.of_nat (length l) <= b -> m' b = m b).
  { intros (m' & -> & H). by exists m'. }
  revert m C. induction l as [|x l IH] using rev_ind; intros m C; [by exists m|]. rewrite length_app, Nat.add_1_r. cbn [chomp_loop].
  assert (m (p + Z.of_nat (length l)) = Some x) as X by (destruct C as [_ L]; apply (load_lookup _ _ _ _ _ _ L); rewrite <- app_assoc; by apply list_lookup_middle). rewrite X. cbn [mbind option_bind].
  rewrite strip_snoc. destruct ((x =? 13) || (x =? 10)).
  - destruct (store_nul m (p + Z.of_nat (length l))) as (m1 & -> & H); [by exists x|]. cbn [mbind option_bind].
    destruct (cstring_cut m p (l ++ [x]) (length l) m1 C) as [C1 _]; [rewrite length_app; cbn; lia|done|]. rewrite take_app_length in C1.
    destruct (IH m1 C1) as (m' & -> & Cs & Fr). exists m'. split; [done|]. split; [done|].
    assert (length (strip l) <= length l)%nat as Ls.
    { clear. induction l as [|y l IH]; [done|]. cbn [strip length]. destruct (strip l); [destruct (_ || _)|]; cbn [length] in *; lia. }
    intros b Hb. rewrite Fr, H by lia. by rewrite (proj2 (Z.eqb_neq _ _)) by lia.
  - exists m. done.
Qed.

Definition path_and_colon : memory := page_of 4090 (bstr "/bin::/usr/bin" ++ 0 :: bstr ":").

Lemma tokens_exact_witness :
  (exists m' toks, strsep_all false true 20 40 path_and_colon 4090 4105 = Some (m', toks) /\ Forall2 (cstring m') toks [bstr "/bin"; []; bstr "/usr/bin"] /\
    forall b, b < 4090 \/ 4104 <= b -> m' b = path_and_colon b) /\
  (exists m' toks, strtok_all false true 20 40 path_and_colon 4090 4105 0 = Some (m', toks) /\ Forall2 (cstring m') toks [bstr "/bin"; bstr "/usr/bin"] /\
    forall b, b < 4090 \/ 4104 <= b -> m' b = path_and_colon b).
Proof.
  apply (tokens_exact false true 40 4105 (bstr ":") ltac:(cbn; lia) 20 path_and_colon 4090 (bstr "/bin::/usr/bin")); [|cbn; lia].
  split; [apply page_of_mapped; repeat constructor; unfold is_byte; lia|split; [repeat constructor; discriminate|reflexivity]|split; [repeat constructor; discriminate|reflexivity]|lia|cbn; lia|cbn; lia].
Defined.
