(* ===== verification/Utf8.v ===== *)
(** * Validating UTF-8 (libc/str/isutf8.c)

    Bytes that are ASCII are skipped by vectors; other sequences are told by a table from their
    first byte. What is accepted are the Thompson-Pike encodings of the integers below 0x140000, so
    that, other than the comment on isutf8 says, integers that UTF-16 has no encoding of are too. *)

From S2P Require Import Prelude ThomPike Memory Strings Memcmp.

Definition kUtf8Dispatch : list Z :=
  [ 0; 0; 1; 1; 1; 1; 1; 1; 1; 1; 1; 1; 1; 1; 1; 1; 1; 1; 1; 1; 1; 1; 1; 1; 1; 1; 1; 1; 1; 1; 1; 1;
    2; 3; 3; 3; 3; 3; 3; 3; 3; 3; 3; 3; 3; 3; 3; 3; 4; 5; 5; 5; 5; 0; 0; 0; 0; 0; 0; 0; 0; 0; 0; 0 ].

Definition is_cont (x : Z) : bool := Z.land x 0xC0 =? 0x80.

(** The cases of [switch]: where the sequence ends, or [None] where false is returned. *)
Definition case_1 (m : memory) (p e : Z) : option (option Z) :=
  if p <? e then x ← m p; Some (if is_cont x then Some (p + 1) else None) else Some None.

Definition case_3 (m : memory) (p e : Z) : option (option Z) :=
  if p + 2 <=? e then
    x ← m p;
    if is_cont x then y ← m (p + 1); Some (if is_cont y then Some (p + 2) else None) else Some None
  else Some None.

Definition case_5 (m : memory) (p e : Z) : option (option Z) :=
  if p + 3 <=? e then
    w ← m (p + 2);
    z ← m (p + 1);
    y ← m p;
    x ← m (p - 1);
    Some (if Z.land (Z.lor (Z.lor (Z.lor (Z.shiftl w 24) (Z.shiftl z 16)) (Z.shiftl y 8)) x) 0xC0C0C000 =? 0x80808000 then Some (p + 3) else None)
  else Some None.

(** [case 2] and [case 4]: a second byte below [least] is overlong, and else the next case follows. *)
Definition overlong (m : memory) (p e least : Z) (next : memory -> Z -> Z -> option (option Z)) : option (option Z) :=
  if p <? e then x ← m p; if x <? least then Some None else next m p e else next m p e.

Definition sequence (m : memory) (p e d : Z) : option (option Z) :=
  if d =? 0 then Some None
  else if d =? 1 then case_1 m p e
  else if d =? 2 then overlong m p e 0xA0 case_3
  else if d =? 3 then case_3 m p e
  else if d =? 4 then overlong m p e 0x90 case_5
  else case_5 m p e.

(** [for (;;)]: past the ASCII at an aligned place. *)
Fixpoint ascii_vectors (fuel : nat) (m : memory) (p e : Z) : option Z :=
  match fuel with
  | O => None
  | S fuel =>
      v ← load m p 16;
      let b := Z.lxor (pmovmskb ((fun x => s8 x >=? 0) <$> v)) 0xffff in
      if negb (b =? 0) then Some (p + ctz b)
      else if p + 16 >=? e then Some (p + 16)
      else ascii_vectors fuel m (p + 16) e
  end.

(** [while (p < e)] *)
Fixpoint isutf8_loop (sse : bool) (fuel : nat) (m : memory) (p e : Z) : option bool :=
  match fuel with
  | O => None
  | S fuel' =>
      if p <? e then
        p ← (if sse && (Z.land p 15 =? 0) then ascii_vectors fuel m p e else Some p);
        if p >=? e then Some true
        else
          c ← m p;
          let p := p + 1 in
          if c <? 0x80 then isutf8_loop sse fuel' m p e
          else if c <? 0xC0 then Some false
          else
            o ← sequence m p e (tab kUtf8Dispatch (c - 0xC0));
            match o with Some p => isutf8_loop sse fuel' m p e | None => Some false end
      else Some true
  end.

(** The size -1 stands for that of a string, or of nothing for NULL. *)
Definition isutf8 (sse : bool) (fuel : nat) (m : memory) (data size : Z) : option bool :=
  size ← (if size =? 2 ^ 64 - 1 then if data =? 0 then Some 0 else strlen fuel m data else Some size);
  isutf8_loop sse fuel m data (data + size).

(* ------------------------------------------------------------------ *)
(** ** One sequence, of a list *)

Definition utf8_step (l : bytes) : option bytes :=
  match l with
  | [] => None
  | x :: l =>
      if x <? 0x80 then Some l
      else if x <? 0xC2 then None
      else if x <? 0xE0 then match l with y :: l => if is_cont y then Some l else None | _ => None end
      else if x <? 0xF0 then
        match l with
        | y :: z :: l => if is_cont y && is_cont z && negb ((x =? 0xE0) && (y <? 0xA0)) then Some l else None
        | _ => None
        end
      else if x <? 0xF5 then
        match l with
        | y :: z :: w :: l => if is_cont y && is_cont z && is_cont w && negb ((x =? 0xF0) && (y <? 0x90)) then Some l else None
        | _ => None
        end
      else None
  end.

Fixpoint utf8_valid (fuel : nat) (l : bytes) : bool :=
  match l, fuel with
  | [], _ => true
  | _, O => false
  | _, S fuel => match utf8_step l with Some r => utf8_valid fuel r | None => false end
  end.

Lemma is_cont_spec x : is_byte x -> is_cont x = (0x80 <=? x) && (x <? 0xC0).
Proof.
  intros B. assert (forallb (fun x => eqb (is_cont x) ((0x80 <=? x) && (x <? 0xC0))) (zbelow 256) = true) as T by by vm_compute.
  pose proof (forall_byte _ T x B) as E. cbn beta in E. by apply eqb_prop in E.
Qed.

Lemma utf8_step_length l r : utf8_step l = Some r -> (length r < length l)%nat /\ exists k, l = k ++ r.
Proof.
  destruct l as [|x l]; cbn [utf8_step]; [done|]. repeat case_match; try done; intros [= <-]; split; try (cbn; lia).
  - by exists [x].
  - by exists [x; z].
  - by exists [x; z; z0].
  - by exists [x; z; z0; z1].
Qed.

(** The bytes of integers, by the length of their encodings. *)
Lemma enc_of c k : 2 ^ (k + 7) <= c < 2 ^ (k + 8) -> 0 <= k < 25 -> bsr c - 7 = k.
Proof.
  intros H K. assert (2 ^ (k + 8) <= 2 ^ 32) by (apply Z.pow_le_mono_r; lia). pose proof (Z.pow_pos_nonneg 2 (k + 7) ltac:(lia) ltac:(lia)).
  rewrite bsr_log2, (Z.log2_unique c (k + 7)) by (rewrite ?(Z.add_succ_r k 7) || idtac; try lia; replace (Z.succ (k + 7)) with (k + 8) by lia; lia). lia.
Qed.

Lemma lead_byte c n h k : 0 <= c -> 0 <= n -> 0 <= k -> c < 2 ^ (6 * n + k) -> Z.lor (Z.shiftr c (6 * n)) (Z.shiftl h k) = h * 2 ^ k + c / 2 ^ (6 * n).
Proof.
  intros Hc Hn Hk L. rewrite Z.lor_comm, Z.shiftr_div_pow2 by lia. apply lor_shiftl_add; [done|]. split; [apply Z.div_pos; lia|].
  apply Z.div_lt_upper_bound; [lia|]. by rewrite <- Z.pow_add_r by lia.
Qed.

Lemma cont_at c n : 0 <= n -> Z.lor 0x80 (Z.land (Z.shiftr c n) 0x3F) = 0x80 + (c / 2 ^ n) mod 64.
Proof. intros N. destruct (cont_byte (Z.shiftr c n)) as [_ ->]. by rewrite Z.shiftr_div_pow2. Qed.

Lemma tp_bytes_2 c : 0x80 <= c < 0x800 -> tp_bytes c = [0xC0 + c / 64; 0x80 + c mod 64].
Proof.
  intros H. rewrite tp_bytes_form by lia. cbv zeta. assert (tab kTpEnc (bsr c - 7) = 1 + 0xC0 * 256) as ->.
  { assert (c < 2 ^ 8 \/ 2 ^ 8 <= c < 2 ^ 9 \/ 2 ^ 9 <= c < 2 ^ 10 \/ 2 ^ 10 <= c) as [X|[X|[X|X]]] by lia;
      [rewrite (enc_of c 0)|rewrite (enc_of c 1)|rewrite (enc_of c 2)|rewrite (enc_of c 3)]; try done; cbn; lia. }
  change (Z.land (1 + 0xC0 * 256) 0xff) with 1. change (Z.shiftr (1 + 0xC0 * 256) 8) with (Z.shiftl 0x6 5). rewrite (lead_byte c 1 6 5) by lia.
  change (Z.to_nat 1) with 1%nat. cbn [conts]. rewrite cont_at by done. by rewrite Z.div_1_r.
Qed.

Lemma tp_bytes_3 c : 0x800 <= c < 0x10000 -> tp_bytes c = [0xE0 + c / 4096; 0x80 + (c / 64) mod 64; 0x80 + c mod 64].
Proof.
  intros H. rewrite tp_bytes_form by lia. cbv zeta. assert (tab kTpEnc (bsr c - 7) = 2 + 0xE0 * 256) as ->.
  { assert (c < 2 ^ 12 \/ 2 ^ 12 <= c < 2 ^ 13 \/ 2 ^ 13 <= c < 2 ^ 14 \/ 2 ^ 14 <= c < 2 ^ 15 \/ 2 ^ 15 <= c) as [X|[X|[X|[X|X]]]] by lia;
      [rewrite (enc_of c 4)|rewrite (enc_of c 5)|rewrite (enc_of c 6)|rewrite (enc_of c 7)|rewrite (enc_of c 8)]; try done; cbn; lia. }
  change (Z.land (2 + 0xE0 * 256) 0xff) with 2. change (Z.shiftr (2 + 0xE0 * 256) 8) with (Z.shiftl 0xE 4). rewrite (lead_byte c 2 14 4) by lia.
  change (Z.to_nat 2) with 2%nat. cbn [conts]. rewrite !cont_at by done. by rewrite Z.div_1_r.
Qed.

Lemma tp_bytes_4 c : 0x10000 <= c < 0x200000 -> tp_bytes c = [0xF0 + c / 262144; 0x80 + (c / 4096) mod 64; 0x80 + (c / 64) mod 64; 0x80 + c mod 64].
Proof.
  intros H. rewrite tp_bytes_form by lia. cbv zeta. assert (tab kTpEnc (bsr c - 7) = 3 + 0xF0 * 256) as ->.
  { assert (c < 2 ^ 17 \/ 2 ^ 17 <= c < 2 ^ 18 \/ 2 ^ 18 <= c < 2 ^ 19 \/ 2 ^ 19 <= c < 2 ^ 20 \/ 2 ^ 20 <= c) as [X|[X|[X|[X|X]]]] by lia;
      [rewrite (enc_of c 9)|rewrite (enc_of c 10)|rewrite (enc_of c 11)|rewrite (enc_of c 12)|rewrite (enc_of c 13)]; try done; cbn; lia. }
  change (Z.land (3 + 0xF0 * 256) 0xff) with 3. change (Z.shiftr (3 + 0xF0 * 256) 8) with (Z.shiftl 0x1E 3). rewrite (lead_byte c 3 0x1E 3) by lia.
  change (Z.to_nat 3) with 3%nat. cbn [conts]. rewrite !cont_at by done. by rewrite Z.div_1_r.
Qed.

Ltac euclid := Z.to_euclidean_division_equations; lia.

(** Decides the tests of [utf8_step]. *)
Ltac tests := repeat (match goal with
  | |- context [if ?a <? ?b then _ else _] => first [rewrite (proj2 (Z.ltb_lt a b)) by euclid | rewrite (proj2 (Z.ltb_ge a b)) by euclid]
  end; cbv iota); cbn [andb negb].

Lemma is_cont_mod x : is_cont (0x80 + x mod 64) = true.
Proof. pose proof (Z.mod_pos_bound x 64 ltac:(lia)). rewrite is_cont_spec by (unfold is_byte; lia). apply andb_true_iff. lia. Qed.

(** A sequence is accepted where it is the encoding of an integer below 0x140000. *)
Lemma utf8_step_encodes c r : 0 <= c < 0x140000 -> utf8_step (tp_bytes c ++ r) = Some r.
Proof.
  intros H. assert (c < 0x80 \/ 0x80 <= c < 0x800 \/ 0x800 <= c < 0x10000 \/ 0x10000 <= c) as [X|[X|[X|X]]] by lia.
  - rewrite tp_bytes_ascii by lia. cbn [app utf8_step]. by tests.
  - rewrite tp_bytes_2 by lia. cbn [app utf8_step]. rewrite is_cont_mod. by tests.
  - rewrite tp_bytes_3 by lia. cbn [app utf8_step]. rewrite !is_cont_mod. tests.
    replace ((_ =? _) && _) with false; [done|]. symmetry. apply andb_false_iff. rewrite Z.eqb_neq, Z.ltb_ge. euclid.
  - rewrite tp_bytes_4 by lia. cbn [app utf8_step]. rewrite !is_cont_mod. tests.
    replace ((_ =? _) && _) with false; [done|]. symmetry. apply andb_false_iff. rewrite Z.eqb_neq, Z.ltb_ge. euclid.
Qed.

Lemma utf8_step_decodes l r : Bytes l -> utf8_step l = Some r -> exists c, 0 <= c < 0x140000 /\ l = tp_bytes c ++ r.
Proof.
  intros B. destruct l as [|x l]; [done|]. apply Forall_cons in B as [Bx B]. unfold is_byte in Bx. cbn [utf8_step].
  destruct (Z.ltb_spec x 0x80); [|destruct (Z.ltb_spec x 0xC2); [done|]; destruct (Z.ltb_spec x 0xE0); [|destruct (Z.ltb_spec x 0xF0); [|destruct (Z.ltb_spec x 0xF5); [|done]]]].
  - intros [= <-]. exists x. split; [lia|]. by rewrite tp_bytes_ascii by lia.
  - destruct l as [|y l]; [done|]. apply Forall_cons in B as [By B]. rewrite is_cont_spec by done. destruct (_ && _) eqn:C; [|done]. intros [= <-].
    exists ((x - 0xC0) * 64 + (y - 0x80)). split; [lia|]. rewrite tp_bytes_2 by lia. cbn [app]. repeat f_equal; euclid.
  - destruct l as [|y [|z l]]; try done. apply Forall_cons in B as [By B]. apply Forall_cons in B as [Bz B]. rewrite !is_cont_spec by done.
    destruct (_ && negb _) eqn:C; [|done]. intros [= <-]. rewrite !andb_true_iff, negb_true_iff, andb_false_iff in C.
    exists ((x - 0xE0) * 4096 + (y - 0x80) * 64 + (z - 0x80)). split; [lia|]. rewrite tp_bytes_3 by lia. cbn [app]. repeat f_equal; euclid.
  - destruct l as [|y [|z [|w l]]]; try done. apply Forall_cons in B as [By B]. apply Forall_cons in B as [Bz B]. apply Forall_cons in B as [Bw B]. rewrite !is_cont_spec by done.
    destruct (_ && negb _) eqn:C; [|done]. intros [= <-]. rewrite !andb_true_iff, negb_true_iff, andb_false_iff in C.
    exists ((x - 0xF0) * 262144 + (y - 0x80) * 4096 + (z - 0x80) * 64 + (w - 0x80)). split; [lia|]. rewrite tp_bytes_4 by lia. cbn [app]. repeat f_equal; euclid.
Qed.

Lemma utf8_valid_exact fuel l : Bytes l -> (length l <= fuel)%nat ->
  utf8_valid fuel l = true <-> exists cs, Forall (fun c => 0 <= c < 0x140000) cs /\ l = encode_text cs.
Proof.
  revert l. induction fuel as [|fuel IH]; intros l B L.
  - destruct l; [|cbn in L; lia]. split; [by exists []|done].
  - destruct (utf8_step l) as [r|] eqn:E.
    + destruct (utf8_step_length _ _ E) as [Lr [k ->]]. apply Forall_app in B as [Bk Br]. specialize (IH r Br ltac:(lia)).
      assert (utf8_valid (S fuel) (k ++ r) = utf8_valid fuel r) as ->.
      { cbn [utf8_valid]. rewrite E. by destruct (k ++ r). }
      rewrite IH. split.
      * intros (cs & F & ->). destruct (utf8_step_decodes (k ++ encode_text cs) (encode_text cs)) as (c & H & ->); [by apply Forall_app|done|]. exists (c :: cs). split; [by constructor|done].
      * intros (cs & F & X). destruct cs as [|c cs]; cbn [encode_text] in X; [rewrite X in Lr; cbn in Lr; lia|]. apply Forall_cons in F as [H F].
        rewrite X, utf8_step_encodes in E by done. injection E as <-. by exists cs.
    + split.
      * destruct l; [by exists []|]. cbn [utf8_valid]. by rewrite E.
      * intros (cs & F & ->). destruct cs as [|c cs]; [done|]. apply Forall_cons in F as [H F]. cbn [encode_text] in E. by rewrite utf8_step_encodes in E by done.
Qed.

(* ------------------------------------------------------------------ *)
(** ** Sequences in memory *)

Lemma dispatch x : 0xC0 <= x < 256 -> tab kUtf8Dispatch (x - 0xC0) =
  if x <? 0xC2 then 0 else if x <? 0xE0 then 1 else if x =? 0xE0 then 2 else if x <? 0xF0 then 3 else if x =? 0xF0 then 4 else if x <? 0xF5 then 5 else 0.
Proof.
  intros H. assert (forallb (fun x => (x <? 0xC0) || (tab kUtf8Dispatch (x - 0xC0) =?
    if x <? 0xC2 then 0 else if x <? 0xE0 then 1 else if x =? 0xE0 then 2 else if x <? 0xF0 then 3 else if x =? 0xF0 then 4 else if x <? 0xF5 then 5 else 0)) (zbelow 256) = true) as T by by vm_compute.
  pose proof (forall_byte _ T x ltac:(unfold is_byte; lia)) as E. cbn beta in E. rewrite (proj2 (Z.ltb_ge x 0xC0)) in E by lia. by apply Z.eqb_eq in E.
Qed.

(** The three continuations at once. *)
Lemma conts_word x y z w : is_byte x -> is_byte y -> is_byte z -> is_byte w ->
  (Z.land (Z.lor (Z.lor (Z.lor (Z.shiftl w 24) (Z.shiftl z 16)) (Z.shiftl y 8)) x) 0xC0C0C000 =? 0x80808000) = is_cont y && is_cont z && is_cont w.
Proof.
  intros Hx Hy Hz Hw. assert (Z.lor (Z.lor (Z.lor (Z.shiftl w 24) (Z.shiftl z 16)) (Z.shiftl y 8)) x = x + 256 * (y + 256 * (z + 256 * w))) as ->.
  { replace (Z.lor (Z.lor (Z.lor (Z.shiftl w 24) (Z.shiftl z 16)) (Z.shiftl y 8)) x) with (Z.lor (Z.shiftl (Z.lor (Z.shiftl (Z.lor (Z.shiftl w 8) z) 8) y) 8) x).
    - unfold is_byte in *. rewrite !lor_shiftl_add by lia. lia.
    - rewrite !Z.shiftl_lor, !Z.shiftl_shiftl by lia. done. }
  change 0xC0C0C000 with (0 + 256 * (0xC0 + 256 * (0xC0 + 256 * 0xC0))). rewrite !land_lane by (done || (unfold is_byte; lia)). unfold is_cont. rewrite Z.land_0_r.
  assert (forall a, is_byte a -> 0 <= Z.land a 0xC0 < 256) as R.
  { intros a Ha. assert (forallb (fun a => (0 <=? Z.land a 0xC0) && (Z.land a 0xC0 <? 256)) (zbelow 256) = true) as T by by vm_compute. pose proof (forall_byte _ T a Ha) as E. cbn beta in E. lia. }
  pose proof (R y Hy). pose proof (R z Hz). pose proof (R w Hw). apply eq_true_iff_eq. rewrite !andb_true_iff, !Z.eqb_eq. lia.
Qed.

(** The bytes after the first one of a sequence. *)
Definition follows (m : memory) (p x : Z) (l : bytes) : Prop := well_mapped m /\ load m (p - 1) (S (length l)) = Some (x :: l).

Lemma load_rest m p x l : follows m p x l -> load m p (length l) = Some l.
Proof. intros [_ L]. destruct (load_cons _ _ _ _ L) as [_ E]. by rewrite Z.sub_add in E. Qed.

Lemma nth_rest m p x l (i : nat) y : follows m p x l -> l !! i = Some y -> m (p + Z.of_nat i) = Some y /\ is_byte y.
Proof. intros R E. pose proof (load_lookup _ _ _ _ _ _ (load_rest _ _ _ _ R) E) as M. split; [done|]. destruct R as [W _]. by apply (mapped_byte m W _ _ M). Qed.

Lemma case_1_ok m p x l : follows m p x l -> case_1 m p (p + Z.of_nat (length l)) = Some match l with y :: r => if is_cont y then Some (p + 1) else None | [] => None end.
Proof.
  intros R. unfold case_1. destruct l as [|y r]; [by rewrite (proj2 (Z.ltb_ge _ _)) by (cbn; lia)|]. rewrite (proj2 (Z.ltb_lt _ _)) by (cbn; lia).
  destruct (nth_rest _ _ _ _ 0 y R eq_refl) as [Y _]. rewrite Z.add_0_r in Y. by rewrite Y.
Qed.

Lemma case_3_ok m p x l : follows m p x l -> case_3 m p (p + Z.of_nat (length l)) = Some match l with y :: z :: r => if is_cont y && is_cont z then Some (p + 2) else None | _ => None end.
Proof.
  intros R. unfold case_3. destruct l as [|y [|z r]]; [by rewrite (proj2 (Z.leb_gt _ _)) by (cbn; lia)..|]. rewrite (proj2 (Z.leb_le _ _)) by (cbn [length]; lia).
  destruct (nth_rest _ _ _ _ 0 y R eq_refl) as [Y _]. destruct (nth_rest _ _ _ _ 1 z R eq_refl) as [Z _]. rewrite Z.add_0_r in Y. rewrite Y. cbn [mbind option_bind].
  destruct (is_cont y); [|done]. change (Z.of_nat 1) with 1 in Z. by rewrite Z.
Qed.

Lemma case_5_ok m p x l : follows m p x l -> case_5 m p (p + Z.of_nat (length l)) = Some match l with y :: z :: w :: r => if is_cont y && is_cont z && is_cont w then Some (p + 3) else None | _ => None end.
Proof.
  intros R. unfold case_5. destruct l as [|y [|z [|w r]]]; [by rewrite (proj2 (Z.leb_gt _ _)) by (cbn; lia)..|]. rewrite (proj2 (Z.leb_le _ _)) by (cbn [length]; lia).
  destruct (nth_rest _ _ _ _ 0 y R eq_refl) as [Y By]. destruct (nth_rest _ _ _ _ 1 z R eq_refl) as [Z Bz]. destruct (nth_rest _ _ _ _ 2 w R eq_refl) as [V Bw].
  destruct R as [W L]. destruct (load_cons _ _ _ _ L) as [X _]. pose proof (mapped_byte m W _ _ X) as Bx. rewrite Z.add_0_r in Y. change (Z.of_nat 1) with 1 in Z. change (Z.of_nat 2) with 2 in V.
  rewrite X, Y, Z, V. cbn [mbind option_bind]. by rewrite conts_word.
Qed.

Lemma overlong_ok m p x l least next : follows m p x l -> overlong m p (p + Z.of_nat (length l)) least next =
  if match l with y :: _ => y <? least | [] => false end then Some None else next m p (p + Z.of_nat (length l)).
Proof.
  intros R. unfold overlong. destruct l as [|y r]; [by rewrite (proj2 (Z.ltb_ge _ _)) by (cbn; lia)|]. rewrite (proj2 (Z.ltb_lt _ _)) by (cbn; lia).
  destruct (nth_rest _ _ _ _ 0 y R eq_refl) as [Y _]. rewrite Z.add_0_r in Y. by rewrite Y.
Qed.

Lemma sequence_ok m p x l : follows m p x l -> 0xC0 <= x -> sequence m p (p + Z.of_nat (length l)) (tab kUtf8Dispatch (x - 0xC0)) =
  Some ((fun r => p + Z.of_nat (length l) - Z.of_nat (length r)) <$> utf8_step (x :: l)).
Proof.
  intros R X. assert (is_byte x) as Bx by (destruct R as [W L]; apply (mapped_byte m W (p - 1)); by destruct (load_cons _ _ _ _ L)). unfold is_byte in Bx.
  rewrite dispatch by lia. cbn [utf8_step]. rewrite (proj2 (Z.ltb_ge x 0x80)) by lia.
  destruct (Z.ltb_spec x 0xC2); [done|]. destruct (Z.ltb_spec x 0xE0).
  { cbn [sequence Z.eqb Pos.eqb]. unfold sequence. cbn [Z.eqb Pos.eqb]. rewrite (case_1_ok _ _ _ _ R). destruct l as [|y r]; [done|]. destruct (is_cont y); cbn; [|done]. do 2 f_equal. lia. }
  destruct (Z.eqb_spec x 0xE0) as [->|].
  { unfold sequence. cbn [Z.eqb Pos.eqb Z.ltb Z.compare Pos.compare Pos.compare_cont]. rewrite (overlong_ok _ _ _ _ _ _ R), (case_3_ok _ _ _ _ R). destruct l as [|y [|z r]]; [done|by destruct (y <? 0xA0)|].
    destruct (y <? 0xA0); cbn [andb negb]; rewrite ?andb_false_r, ?andb_true_r; [done|]. destruct (is_cont y && is_cont z); cbn; [|done]. do 2 f_equal. lia. }
  destruct (Z.ltb_spec x 0xF0).
  { unfold sequence. cbn [Z.eqb Pos.eqb]. rewrite (case_3_ok _ _ _ _ R). destruct l as [|y [|z r]]; [done..|]. cbn [andb negb]. rewrite andb_true_r. destruct (is_cont y && is_cont z); cbn; [|done]. do 2 f_equal. lia. }
  destruct (Z.eqb_spec x 0xF0) as [->|].
  { unfold sequence. cbn [Z.eqb Pos.eqb Z.ltb Z.compare Pos.compare Pos.compare_cont]. rewrite (overlong_ok _ _ _ _ _ _ R), (case_5_ok _ _ _ _ R). destruct l as [|y [|z [|w r]]]; [done|by destruct (y <? 0x90)..|].
    destruct (y <? 0x90); cbn [andb negb]; rewrite ?andb_false_r, ?andb_true_r; [done|]. destruct (is_cont y && is_cont z && is_cont w); cbn; [|done]. do 2 f_equal. lia. }
  destruct (Z.ltb_spec x 0xF5); [|done].
  unfold sequence. cbn [Z.eqb Pos.eqb]. rewrite (case_5_ok _ _ _ _ R). destruct l as [|y [|z [|w r]]]; [done..|]. cbn [andb negb]. rewrite andb_true_r. destruct (is_cont y && is_cont z && is_cont w); cbn; [|done]. do 2 f_equal. lia.
Qed.

(* ------------------------------------------------------------------ *)
(** ** Texts in memory *)

Lemma ascii_lane x : is_byte x -> (s8 x >=? 0) = (x <? 0x80).
Proof.
  intros B. assert (forallb (fun x => eqb (s8 x >=? 0) (x <? 0x80)) (zbelow 256) = true) as T by by vm_compute.
  pose proof (forall_byte _ T x B) as E. cbn beta in E. by apply eqb_prop in E.
Qed.

(** What the vectors skip is ASCII, and they read no page that the text is not in. *)
Lemma ascii_vectors_ok fuel m e : well_mapped m -> forall p l,
  (16 | p) -> load m p (length l) = Some l -> l <> [] -> e = p + Z.of_nat (length l) -> (length l < 16 * fuel)%nat ->
  exists k : nat, ascii_vectors fuel m p e = Some (p + Z.of_nat k) /\ Forall is_ascii (take k l).
Proof.
  intros W. induction fuel as [|fuel IH]; intros p l D L N E F; [lia|]. cbn [ascii_vectors].
  destruct (load_aligned m 16 p p W) as [v V]; [by exists 256|lia|done|lia| |].
  { destruct l as [|x l]; [done|]. destruct (load_cons _ _ _ _ L) as [-> _]. by eexists. }
  pose proof (load_Bytes _ _ _ _ W V) as B. pose proof (load_Bytes _ _ _ _ W L) as Bl. rewrite V. cbn [mbind option_bind]. apply load_Some in V as [Lv V].
  pose proof (pmovmskb_negb ((fun x => s8 x >=? 0) <$> v)) as M. rewrite length_fmap, Lv in M. change (Z.ones (Z.of_nat 16)) with 0xffff in M. rewrite M. clear M.
  rewrite <- list_fmap_compose. pose proof (mask_marks (negb ∘ (fun x => s8 x >=? 0)) v) as M.
  assert (forall k : nat, (k <= 16)%nat -> (forall (j : nat) x, (j < k)%nat -> v !! j = Some x -> (negb ∘ (fun x => s8 x >=? 0)) x = false) -> Forall is_ascii (take k l)) as A.
  { intros k Hk H. apply Forall_lookup. intros j x X. pose proof X as Y. apply lookup_take_Some in Y as [Y J]. apply load_Some in L as [_ L]. pose proof (lookup_lt_Some _ _ _ Y) as J'.
    rewrite <- L, V in Y by lia. specialize (H j x J Y). cbn in H. pose proof (Forall_lookup_1 _ _ _ _ B Y) as Bx. rewrite ascii_lane in H by done. unfold is_ascii. unfold is_byte in Bx. lia. }
  destruct (first _ v) as [i|] eqn:Fi; cbn [marks] in M.
  - destruct M as [Nz C]. rewrite (proj2 (Z.eqb_neq _ _) Nz). cbn [negb]. rewrite Z.shiftr_0_r in C. exists i. split; [by rewrite C|]. apply first_Some in Fi as [(x & X & _) H].
    apply A; [apply lookup_lt_Some in X; lia|exact H].
  - rewrite M. cbn [negb Z.eqb]. assert (Forall is_ascii (take 16 l)) as A16.
    { apply A; [lia|]. intros j x _ X. apply (proj1 (first_None _ _) Fi). by eapply list_elem_of_lookup_2. }
    rewrite Z.geb_leb. destruct (Z.leb_spec e (p + 16)); [by exists 16%nat|].
    destruct (IH (p + 16) (drop 16 l)) as (k & K & Ak); [by apply Z.divide_add_r; [|apply Z.divide_refl]| | | |rewrite length_drop; lia|].
    + pose proof (load_sub _ _ _ _ 16 (length l - 16) L ltac:(lia)) as S. rewrite take_ge in S by (rewrite length_drop; lia). by rewrite length_drop.
    + intros Z%(f_equal length). rewrite length_drop in Z. cbn in Z. lia.
    + rewrite length_drop. lia.
    + exists (16 + k)%nat. split; [rewrite K; f_equal; lia|]. rewrite <- take_take_drop. by apply Forall_app.
Qed.

Lemma utf8_valid_ascii fuel a r : Forall is_ascii a -> (length a + length r <= fuel)%nat -> utf8_valid fuel (a ++ r) = utf8_valid (fuel - length a) r.
Proof.
  revert a. induction fuel as [|fuel IH]; intros a A F; [destruct a; [done|cbn in F; lia]|]. destruct a as [|x a]; [done|]. apply Forall_cons in A as [X A]. cbn [length] in F.
  cbn [app utf8_valid utf8_step]. unfold is_ascii in X. rewrite (proj2 (Z.ltb_lt _ _)) by lia. rewrite IH by (done || lia). done.
Qed.

Lemma utf8_valid_fuel fuel fuel' l : (length l <= fuel)%nat -> (length l <= fuel')%nat -> utf8_valid fuel l = utf8_valid fuel' l.
Proof.
  revert fuel' l. induction fuel as [|fuel IH]; intros fuel' l F F'; [destruct l; [by destruct fuel'|cbn in F; lia]|].
  destruct l as [|x l]; [by destruct fuel'|]. destruct fuel' as [|fuel']; [cbn in F'; lia|]. cbn [utf8_valid]. destruct (utf8_step _) as [r|] eqn:E; [|done].
  destruct (utf8_step_length _ _ E) as [L _]. apply IH; lia.
Qed.

Lemma load_drop (m : memory) p l (k : nat) : load m p (length l) = Some l -> (k <= length l)%nat -> load m (p + Z.of_nat k) (length (drop k l)) = Some (drop k l).
Proof.
  intros L K. pose proof (load_sub _ _ _ _ k (length l - k) L ltac:(lia)) as S. rewrite take_ge in S by (rewrite length_drop; lia). by rewrite length_drop.
Qed.

Lemma isutf8_loop_ok sse fuel m e : well_mapped m -> forall p l,
  load m p (length l) = Some l -> e = p + Z.of_nat (length l) -> (length l < fuel)%nat -> isutf8_loop sse fuel m p e = Some (utf8_valid (length l) l).
Proof.
  intros W. induction fuel as [|fuel IH]; intros p l L E F; [lia|]. cbn [isutf8_loop]. destruct (Z.ltb_spec p e) as [P|P].
  2: { destruct l; [done|cbn in E; lia]. }
  assert (exists k : nat, (if sse && (Z.land p 15 =? 0) then ascii_vectors (S fuel) m p e else Some p) = Some (p + Z.of_nat k) /\ Forall is_ascii (take k l)) as (k & -> & A).
  { destruct (sse && (Z.land p 15 =? 0)) eqn:S; [|exists 0%nat; rewrite Z.add_0_r, take_0; by split]. apply andb_true_iff in S as [_ S]. apply Z.eqb_eq in S. rewrite land_15 in S.
    apply ascii_vectors_ok; [done|by apply Z.mod_divide|done|intros ->; cbn in E; lia|done|lia]. }
  cbn [mbind option_bind]. assert (utf8_valid (length l) l = utf8_valid (length (drop k l)) (drop k l)) as ->.
  { rewrite <- (take_drop k l) at 2. rewrite utf8_valid_ascii by (rewrite <- ?length_app, ?take_drop; done). apply utf8_valid_fuel; [|done]. rewrite length_drop, length_take. lia. }
  rewrite Z.geb_leb. destruct (Z.leb_spec e (p + Z.of_nat k)) as [K|K]; [by rewrite drop_ge by lia|].
  pose proof (load_drop _ _ _ k L ltac:(lia)) as L'. assert (e = p + Z.of_nat k + Z.of_nat (length (drop k l))) as E' by (rewrite length_drop; lia).
  assert (length (drop k l) <= length l)%nat as F' by (rewrite length_drop; lia). clear L E A. generalize dependent (drop k l). intros r L' E F'. generalize dependent (p + Z.of_nat k). clear p P. intros p K L E.
  destruct r as [|x r]; [cbn in E; lia|]. cbn [length] in *. destruct (load_cons _ _ _ _ L) as [X L1]. rewrite X. cbn [mbind option_bind]. cbn zeta.
  pose proof (mapped_byte m W _ _ X) as Bx. destruct (Z.ltb_spec x 0x80) as [A|A].
  { rewrite (IH (p + 1) r) by (done || lia). cbn [utf8_valid utf8_step]. by rewrite (proj2 (Z.ltb_lt _ _)) by lia. }
  destruct (Z.ltb_spec x 0xC0) as [C|C].
  { cbn [utf8_valid utf8_step]. rewrite (proj2 (Z.ltb_ge _ _)), (proj2 (Z.ltb_lt _ 0xC2)) by lia. done. }
  assert (follows m (p + 1) x r) as R by (split; [done|]; by rewrite Z.add_simpl_r).
  pose proof (sequence_ok _ _ _ _ R C) as Q. replace (p + 1 + Z.of_nat (length r)) with e in Q by lia. rewrite Q. cbn [mbind option_bind utf8_valid]. destruct (utf8_step (x :: r)) as [s|] eqn:U; [|done]. cbn [fmap option_fmap option_map].
  destruct (utf8_step_length _ _ U) as [Ls [h H]]. cbn [length] in Ls. assert (length h + length s = S (length r))%nat as Lh by (rewrite <- length_app, <- H; done).
  assert (load m (p + Z.of_nat (length h)) (length s) = Some s) as Lo by (pose proof (load_drop m p (x :: r) (length h) L ltac:(cbn; lia)) as Y; by rewrite H, drop_app_length in Y).
  rewrite (IH _ s); [f_equal; apply utf8_valid_fuel; lia| |lia|lia]. by replace (e - Z.of_nat (length s)) with (p + Z.of_nat (length h)) by lia.
Qed.

(** What the code computes: whether the text is the encoding of integers below 0x140000. *)
Lemma isutf8_ok sse m data l fuel :
  well_mapped m -> load m data (length l) = Some l -> (length l < fuel)%nat -> Z.of_nat (length l) < 2 ^ 64 - 1 ->
  exists b, isutf8 sse fuel m data (Z.of_nat (length l)) = Some b /\
    (data <> 0 -> cstring m data l -> isutf8 sse fuel m data (2 ^ 64 - 1) = Some b) /\
    (b = true <-> exists cs, Forall (fun c => 0 <= c < 0x140000) cs /\ l = encode_text cs).
Proof.
  intros W L F B. exists (utf8_valid (length l) l). split; [|split].
  - unfold isutf8. rewrite (proj2 (Z.eqb_neq _ _)) by lia. by apply isutf8_loop_ok.
  - intros N C. unfold isutf8. rewrite Z.eqb_refl, (proj2 (Z.eqb_neq _ _) N), (strlen_ok _ _ _ l) by done. by apply isutf8_loop_ok.
  - apply utf8_valid_exact; [by eapply load_Bytes|done].
Qed.

(** The integers that UTF-16 encodes: not surrogates, and not above 0x10FFFF. *)
Definition is_scalar (c : Z) : Prop := 0 <= c < 0xD800 \/ 0xE000 <= c < 0x110000.

(** C13: What isutf8 promises, for a text of any size at any address, in memory where nothing but the
    pages of the text need be mapped, with vectors and without: it accepts the UTF-8 encoding of
    every sequence of Unicode scalar values, and whatever it accepts is a sequence of well-formed
    and shortest Thompson-Pike encodings, so that texts with continuation bytes missing or out of
    place, overlong encodings and truncated ones are refused; and so for a string, whose size is
    given as -1. Nothing is said here of well-formed encodings of surrogates and of integers from
    0x110000 to 0x13FFFF, which the comment excludes ([isutf8_defect]). *)
Theorem isutf8_exact sse m data l fuel :
  well_mapped m -> load m data (length l) = Some l -> (length l < fuel)%nat -> Z.of_nat (length l) < 2 ^ 64 - 1 ->
  exists b, isutf8 sse fuel m data (Z.of_nat (length l)) = Some b /\
    (data <> 0 -> cstring m data l -> isutf8 sse fuel m data (2 ^ 64 - 1) = Some b) /\
    ((exists cs, Forall is_scalar cs /\ l = encode_text cs) -> b = true) /\
    (b = true -> exists cs, Forall (fun c => 0 <= c < 0x140000) cs /\ l = encode_text cs).
Proof.
  intros W L F B. destruct (isutf8_ok sse m data l fuel W L F B) as (b & E & S & V). exists b.
  split; [exact E|]. split; [exact S|]. split; [|apply V]. intros (cs & Hc & ->). apply V. exists cs. split; [|done].
  eapply Forall_impl; [exact Hc|]. unfold is_scalar. cbn. lia.
Qed.

Definition euros : bytes := bstr "a price of 10" ++ [0xE2; 0x82; 0xAC; 0xF0; 0x9F; 0x98; 0x80].

Lemma isutf8_exact_witness : exists b, isutf8 true 40 (page_of 4086 euros) 4086 20 = Some b /\ b = true.
Proof.
  destruct (isutf8_exact true (page_of 4086 euros) 4086 euros 40) as (b & E & _ & V & _).
  - apply page_of_mapped. repeat constructor; unfold is_byte; lia.
  - reflexivity.
  - vm_compute. lia.
  - vm_compute. reflexivity.
  - exists b. split; [exact E|]. apply V. exists (bstr "a price of 10" ++ [0x20AC; 0x1F600]). split; [unfold is_scalar; repeat constructor; lia|reflexivity].
Defined.

(** Surrogates, and integers above 0x10FFFF, are accepted; the comment excludes sequences that
    UTF-16 has no encoding of. *)
Lemma isutf8_defect :
  isutf8 true 40 (page_of 4096 [0xED; 0xA0; 0x80]) 4096 3 = Some true /\ tp_bytes 0xD800 = [0xED; 0xA0; 0x80] /\
  isutf8 true 40 (page_of 4096 [0xF4; 0x90; 0x80; 0x80]) 4096 4 = Some true /\ tp_bytes 0x110000 = [0xF4; 0x90; 0x80; 0x80].
Proof. repeat split; vm_compute; reflexivity. Qed.
