(* ===== verification/PledgeCall.v ===== *)
(** * Calling pledge (libc/calls/parsepromises.c, pledge.c)

    What programs write: promises as words in a string, and the function that takes them. The part of
    pledge for OpenBSD, where the kernel has the call, is left out. *)

From S2P Require Import Prelude Tables Memory Strings Tokens Seccomp PledgeTables Pledge PledgeFilter PledgeConfine.

(* ------------------------------------------------------------------ *)
(** ** Words *)

(** [strtok_r], on the string that its first argument or the state points to: the token, and the string
    that is left, or [None] for the null pointer. *)
Fixpoint strspn (sep : Z -> bool) (s : bytes) : nat := match s with x :: s => if sep x then S (strspn sep s) else O | [] => O end.
Fixpoint strcspn (sep : Z -> bool) (s : bytes) : nat := match s with x :: s => if sep x then O else S (strcspn sep s) | [] => O end.

Definition strtok_r (sep : Z -> bool) (s : option bytes) : option bytes * option bytes :=
  match s with
  | None => (None, None)
  | Some s =>
      let s := drop (strspn sep s) s in
      match s with
      | [] => (None, None)
      | _ =>
          let tokenlen := strcspn sep s in
          match drop tokenlen s with
          | _ :: rest => (Some (take tokenlen s), Some rest)
          | [] => (Some (take tokenlen s), None)
          end
      end
  end.

Lemma strspn_run f s : strspn f s = run f s.
Proof. induction s as [|x s IH]; [done|]. cbn [strspn run]. by rewrite IH. Qed.

Lemma strcspn_run f s : strcspn f s = run (fun x => negb (f x)) s.
Proof. induction s as [|x s IH]; [done|]. cbn [strcspn run]. rewrite IH. by destruct (f x). Qed.

(** The function in memory cuts the string in such a way: the token is a string in place, and the state
    points to what is left, which can be cut again. *)
Lemma strtok_r_memory tiny sse fuel a c m p l : (length c < fuel)%nat -> cuttable fuel a c m p l ->
  exists m' state token, Tokens.strtok_r tiny sse fuel m p a 0 = Some (m', state, token) /\
  match strtok_r (inside c) (Some l) with
  | (None, _) => token = 0 /\ state = 0
  | (Some w, r) => 0 < token /\ cstring m' token w /\ match r with None => state = 0 | Some r => cuttable fuel a c m' state r end
  end.
Proof.
  intros Fc C. pose proof (cuttable_place _ _ _ _ _ _ C) as P. pose proof (strtok_ok tiny sse fuel a c Fc m p l p 0 C ltac:(by rewrite (proj2 (Z.eqb_neq p 0)) by lia)) as Q. cbv zeta in Q.
  unfold strtok_r. rewrite strspn_run. pose proof (run_le (inside c) l) as K. pose proof (cuttable_suffix fuel a c Fc _ _ _ _ C K) as Cr. set (k := run (inside c) l) in *. set (r := drop k l) in *.
  rewrite strcspn_run. set (i := run (fun x => negb (inside c x)) r) in *. pose proof (run_le (fun x => negb (inside c x)) r : (i <= length r)%nat) as I. clearbody r.
  destruct r as [|x r]; [rewrite bool_decide_true in Q by done; by exists m, 0, 0|]. rewrite (bool_decide_false (x :: r = [])) in Q by done. destruct Q as (I0 & m' & H & Q).
  eexists m', _, _. split; [exact Q|]. cbv zeta. replace (p + Z.of_nat (k + i)) with (p + Z.of_nat k + Z.of_nat i) in * by lia. case_bool_decide as X.
  - rewrite (drop_ge (x :: r)), take_ge by lia. split; [lia|]. split; [|done]. eapply cstring_frame; [apply (cuttable_string _ _ _ _ _ _ Cr)|]. intros b _. rewrite H.
    destruct (Z.eqb_spec b (p + Z.of_nat k + Z.of_nat i)) as [->|]; [|done]. rewrite X. symmetry. apply (Substring.cstring_nul _ _ _ (cuttable_string _ _ _ _ _ _ Cr)).
  - destruct (lookup_lt_is_Some_2 (x :: r) i ltac:(lia)) as [y Y]. rewrite (drop_S _ _ _ Y). split; [lia|]. split; [apply (cstring_cut _ _ _ _ _ (cuttable_string _ _ _ _ _ _ Cr)); (done || lia)|].
    eapply cuttable_rest; (done || lia).
Qed.

(** The separators are blank, tab, carriage return and line feed. *)
Definition is_sep (c : Z) : bool := existsb (Z.eqb c) [32; 9; 13; 10].

(** [strcasecmp] of strings, see [string_compare_exact]. *)
Definition casecmp (a b : bytes) : Z := strcmp_spec (lower_byte <$> a) (lower_byte <$> b).

Fixpoint FindPromise_loop (ps : list Pledges) (i : Z) (name : bytes) : Z :=
  match ps with
  | [] => -1
  | p :: ps => if casecmp name (pname p) =? 0 then i else FindPromise_loop ps (i + 1) name
  end.
Definition FindPromise (name : bytes) : Z := FindPromise_loop kPledge 0 name.

Fixpoint parse_loop (fuel : nat) (s : option bytes) (ipromises : Z) : option Z :=
  match fuel with
  | O => None
  | S fuel =>
      match strtok_r is_sep s with
      | (None, _) => Some ipromises
      | (Some tok, rest) =>
          let promise := FindPromise tok in
          if promise =? -1 then None
          else parse_loop fuel rest (Z.land ipromises (u64 (Z.lnot (u64 (Z.shiftl 1 promise)))))
      end
  end.

(** [promises] is the string, without its NUL. [memccpy] fails if there is none in 256 bytes. *)
Definition ParsePromises (promises : option bytes) (current : Z) : option Z :=
  match promises with
  | None => Some current
  | Some s => if (length s <? 256)%nat then parse_loop (S (length s)) (Some s) (2 ^ 64 - 1) else None
  end.

(* ------------------------------------------------------------------ *)
(** ** The function *)

(** [__promises] and [__execpromises]; zero at first, which is all promises. *)
Record promises := { __promises : Z; __execpromises : Z }.

(** A result and an errno, zero if it is not set. *)
Record outcome := { rc : Z; err : Z; after : promises }.

Definition fails (e : Z) (st : promises) : outcome := {| rc := -1; err := e; after := st |}.

(** On Linux, without Blink. [install] and [supported] are what the kernel answers, [main] is
    [!__vforked && getpid() == gettid()]. *)
Definition pledge (install : Filter -> Z) (supported : Z) (pid tid mode : Z) (main : bool) (st : promises) (proms execproms : option bytes) : option outcome :=
  match proms with
  | None =>
      Some (match execproms with
            | Some _ => fails Einval st
            | None => if (supported =? 0) || (supported =? 2) then {| rc := 0; err := 0; after := st |} else fails (- supported) st
            end)
  | Some _ =>
      match ParsePromises proms (__promises st) with
      | None => Some (fails Einval st)
      | Some ip =>
          match ParsePromises execproms (__execpromises st) with
          | None => Some (fails Einval st)
          | Some iexec =>
              let exec := Z.land (u64 (Z.lnot ip)) (Z.shiftl 1 PROMISE_EXEC) in
              let iexec := u64 (Z.lnot (Z.lor (u64 (Z.lnot iexec)) exec)) in
              let notsubset := negb (Z.land ip (u64 (Z.lnot iexec)) =? 0) && negb (exec =? 0) in
              if notsubset && (match execproms with Some _ => true | None => false end) then Some (fails Einval st)
              else
                let iexec := if notsubset then ip else iexec in
                r ← sys_pledge_linux install supported pid tid ip mode;
                Some (if (-4096 <? r) && (r <? 0) then fails (- r) st
                      else {| rc := r; err := 0;
                              after := if (r =? 0) && main then {| __promises := ip; __execpromises := iexec |} else st |})
          end
      end
  end.

(* ------------------------------------------------------------------ *)
(** ** What is parsed *)

(** The words of a string. *)
Fixpoint split (s : bytes) : list bytes :=
  match s with
  | [] => [[]]
  | x :: s =>
      match split s with
      | w :: ws => if is_sep x then [] :: w :: ws else (x :: w) :: ws
      | [] => []
      end
  end.
Definition words (s : bytes) : list bytes := filter (fun w => w <> []) (split s).

Lemma split_cons s : exists w ws, split s = w :: ws.
Proof. induction s as [|x s (w & ws & E)]; [eexists _, _; reflexivity|]. cbn [split]. rewrite E. destruct (is_sep x); eexists _, _; reflexivity. Qed.

Lemma words_sep x s : is_sep x = true -> words (x :: s) = words s.
Proof. intros E. unfold words. cbn [split]. destruct (split_cons s) as (w & ws & ->). rewrite E. apply filter_cons_False. intros H. by apply H. Qed.

(** A first word, up to a separator or the end. *)
Lemma words_word w s : w <> [] -> forallb (fun x => negb (is_sep x)) w = true -> (s = [] \/ exists x s', s = x :: s' /\ is_sep x = true) -> words (w ++ s) = w :: words s.
Proof.
  intros N F Hs. assert (split (w ++ s) = w :: (match split s with _ :: ws => ws | [] => [] end) /\ (forall k, split s = k :: (match split s with _ :: ws => ws | [] => [] end) -> k = [])) as [E K].
  { clear N. split.
    - induction w as [|x w IH]; cbn [app split].
      + destruct Hs as [->|(x & s' & -> & Sx)]; [done|]. cbn [split]. destruct (split_cons s') as (u & us & ->). by rewrite Sx.
      + cbn [forallb] in F. apply andb_true_iff in F as [Fx F]. apply negb_true_iff in Fx. rewrite (IH F), Fx. done.
    - intros k. destruct Hs as [->|(x & s' & -> & Sx)]; cbn [split]; [by intros [= <-]|]. destruct (split_cons s') as (u & us & ->). rewrite Sx. by intros [= <-]. }
  unfold words. rewrite E, filter_cons_True by done. f_equal. destruct (split_cons s) as (k & ks & Ek). rewrite Ek in *. rewrite (K k eq_refl). symmetry. apply filter_cons_False. intros H. by apply H.
Qed.

Lemma drop_strspn s : words (drop (strspn is_sep s) s) = words s /\ (drop (strspn is_sep s) s = [] \/ exists x s', drop (strspn is_sep s) s = x :: s' /\ is_sep x = false).
Proof.
  induction s as [|x s [IH1 IH2]]; cbn [strspn drop]; [split; [done|by left]|]. destruct (is_sep x) eqn:E; cbn [drop].
  - rewrite words_sep by done. done.
  - split; [done|]. right. by exists x, s.
Qed.

Lemma strcspn_spec s :
  forallb (fun x => negb (is_sep x)) (take (strcspn is_sep s) s) = true /\
  (drop (strcspn is_sep s) s = [] \/ exists x s', drop (strcspn is_sep s) s = x :: s' /\ is_sep x = true).
Proof.
  induction s as [|x s [IH1 IH2]]; cbn [strcspn take drop]; [split; [done|by left]|]. destruct (is_sep x) eqn:E; cbn [take drop forallb].
  - split; [done|]. right. by exists x, s.
  - rewrite E. cbn. done.
Qed.

(** [strtok_r] takes one word off. *)
Lemma strtok_r_words s :
  match strtok_r is_sep (Some s) with
  | (None, _) => words s = []
  | (Some w, Some r) => words s = w :: words r /\ (length r < length s)%nat
  | (Some w, None) => words s = [w]
  end.
Proof.
  unfold strtok_r. destruct (drop_strspn s) as [W D]. rewrite <- W. pose proof (length_drop s (strspn is_sep s)) as Ld. revert D Ld. clear W.
  generalize (drop (strspn is_sep s) s). intros [|x t'] D Ld; [done|]. destruct D as [|(x' & t'' & [= <- <-] & Sx)]; [done|]. remember (x :: t') as t eqn:T.
  destruct (strcspn_spec t) as [F Dr]. assert (take (strcspn is_sep t) t <> []) as N by (rewrite T; cbn [strcspn]; by rewrite Sx).
  pose proof (take_drop (strcspn is_sep t) t) as TD. destruct (drop (strcspn is_sep t) t) as [|z r] eqn:R.
  - rewrite <- TD at 1. rewrite words_word by done. done.
  - destruct Dr as [|(z' & r' & [= <- <-] & Sz)]; [done|]. split.
    + rewrite <- TD at 1. rewrite words_word; [|done|done|by right; exists z, r]. by rewrite words_sep.
    + apply (f_equal length) in R. rewrite length_drop in R. cbn in R. lia.
Qed.

(** Clearing the bit of a promise. *)
Lemma testbit_clear ip j i : 0 <= i < 64 -> 0 <= j < 64 -> Z.testbit (Z.land ip (u64 (Z.lnot (u64 (Z.shiftl 1 j))))) i = Z.testbit ip i && negb (j =? i).
Proof.
  intros Hi Hj. rewrite Z.land_spec. f_equal. unfold u64. rewrite Z.mod_pow2_bits_low by lia. rewrite Z.lnot_spec, Z.mod_pow2_bits_low, Z.shiftl_1_l, Z.pow2_bits_eqb by lia.
  done.
Qed.

Lemma FindPromise_loop_range ps i w : FindPromise_loop ps i w = -1 \/ i <= FindPromise_loop ps i w < i + Z.of_nat (length ps).
Proof.
  revert i. induction ps as [|p ps IH]; intros i; cbn [FindPromise_loop length]; [by left|]. destruct (_ =? 0); [right; lia|]. destruct (IH (i + 1)); [by left|right; lia].
Qed.

Lemma FindPromise_range w : FindPromise w = -1 \/ 0 <= FindPromise w < PROMISE_LEN_.
Proof. apply (FindPromise_loop_range kPledge 0). Qed.

Lemma parse_loop_spec fuel s ip :
  (length s < fuel)%nat ->
  match parse_loop fuel (Some s) ip with
  | Some ip' => (forall w, w ∈ words s -> FindPromise w <> -1) /\ (forall i, 0 <= i < 64 -> Z.testbit ip' i = Z.testbit ip i && negb (existsb (fun w => FindPromise w =? i) (words s)))
  | None => exists w, w ∈ words s /\ FindPromise w = -1
  end.
Proof.
  revert s ip. induction fuel as [|fuel IH]; intros s ip F; [lia|]. cbn [parse_loop]. pose proof (strtok_r_words s) as W. destruct (strtok_r is_sep (Some s)) as [[w|] r].
  - destruct (Z.eqb_spec (FindPromise w) (-1)) as [E|E].
    { exists w. split; [|done]. destruct r as [r|]; [destruct W as [-> _]|rewrite W]; apply list_elem_of_here. }
    destruct (FindPromise_range w) as [|R]; [done|]. unfold PROMISE_LEN_ in R. destruct r as [r|].
    + destruct W as [-> L]. specialize (IH r (Z.land ip (u64 (Z.lnot (u64 (Z.shiftl 1 (FindPromise w)))))) ltac:(lia)). destruct (parse_loop fuel (Some r) _) as [ip'|].
      * destruct IH as [H1 H2]. split; [intros v [->|Hv]%elem_of_cons; [done|by apply H1]|]. intros i Hi. rewrite H2, testbit_clear by lia. cbn [existsb]. by rewrite negb_orb, andb_assoc.
      * destruct IH as (v & Hv & Ev). exists v. split; [by apply list_elem_of_further|done].
    + rewrite W. destruct fuel as [|fuel]; [destruct s; cbn in F; [done|lia]|]. cbn [parse_loop strtok_r]. split; [by intros v ->%list_elem_of_singleton|].
      intros i Hi. rewrite testbit_clear by lia. cbn [existsb]. by rewrite orb_false_r.
  - rewrite W. split; [by intros v []%not_elem_of_nil|]. intros i Hi. cbn. by rewrite andb_true_r.
Qed.

(** Characters of C strings. *)
Abbreviation chars := (Forall (fun b : Z => 0 < b < 256)).

Lemma strcmp_spec_eq l r : Forall (fun b => 0 < b) l -> Forall (fun b => 0 < b) r -> (strcmp_spec l r = 0 <-> l = r).
Proof.
  intros Hl. revert r. induction Hl as [|x l Hx _ IH]; intros [|y r] Hr; try (apply Forall_cons in Hr as [Hy Hr]); cbn [strcmp_spec]; try (split; [lia|done]); [done|].
  destruct (Z.eqb_spec x y) as [->|N]; [rewrite IH by done; naive_solver|]. split; [lia|congruence].
Qed.

Lemma lower_pos l : chars l -> Forall (fun b => 0 < b) (lower_byte <$> l).
Proof.
  intros H. apply Forall_fmap. eapply Forall_impl; [exact H|]. intros b Hb. unfold compose, lower_byte. cbn beta in Hb. rewrite kToLower_spec by (unfold is_byte; lia). destruct (isupper b); lia.
Qed.

Lemma casecmp_eq a b : chars a -> chars b -> (casecmp a b = 0 <-> lower_byte <$> a = lower_byte <$> b).
Proof. intros Ha Hb. apply strcmp_spec_eq; by apply lower_pos. Qed.

(** The words for a promise. *)
Definition names (i : Z) (w : bytes) : Prop := exists p, 0 <= i /\ kPledge !! Z.to_nat i = Some p /\ lower_byte <$> w = lower_byte <$> pname p.

Definition names_ok : bool :=
  forallb (fun p => forallb (fun b => (0 <? b) && (b <? 256)) (pname p) && bool_decide (lower_byte <$> pname p = pname p)) kPledge && bool_decide (NoDup (pname <$> kPledge)).

Lemma names_are_ok : names_ok = true.
Proof. vm_compute. reflexivity. Qed.

Lemma pname_chars p : p ∈ kPledge -> chars (pname p) /\ lower_byte <$> pname p = pname p.
Proof.
  pose proof names_are_ok as [H _]%andb_true_iff. rewrite forallb_forall in H. intros In. specialize (H p (proj1 (list_elem_of_In _ _) In)).
  apply andb_true_iff in H as [C L]. split; [|by apply bool_decide_eq_true in L]. rewrite forallb_forall in C. apply Forall_forall. intros b Hb. specialize (C b (proj1 (list_elem_of_In _ _) Hb)). lia.
Qed.

Lemma FindPromise_loop_found ps i w :
  (forall p, p ∈ ps -> chars (pname p)) -> chars w -> 0 <= i ->
  (FindPromise_loop ps i w = -1 /\ forall p, p ∈ ps -> lower_byte <$> w <> lower_byte <$> pname p) \/
  (i <= FindPromise_loop ps i w /\ exists p, ps !! Z.to_nat (FindPromise_loop ps i w - i) = Some p /\ lower_byte <$> w = lower_byte <$> pname p).
Proof.
  intros C W. revert i. induction ps as [|p ps IH]; intros i Hi; cbn [FindPromise_loop]; [left; split; [done|]; by intros p []%not_elem_of_nil|].
  assert (casecmp w (pname p) = 0 <-> lower_byte <$> w = lower_byte <$> pname p) as E by (apply casecmp_eq; [done|]; apply C, list_elem_of_here).
  destruct (Z.eqb_spec (casecmp w (pname p)) 0) as [Q|Q].
  - right. split; [lia|]. exists p. rewrite Z.sub_diag. split; [done|by apply E].
  - destruct (IH (fun p Hp => C p (list_elem_of_further _ _ _ Hp)) (i + 1) ltac:(lia)) as [[-> H]|(L & q & H & K)].
    + left. split; [done|]. intros q [->|Hq]%elem_of_cons; [by rewrite <- E|by apply H].
    + right. split; [lia|]. exists q. split; [|done]. replace (Z.to_nat (FindPromise_loop ps (i + 1) w - i)) with (S (Z.to_nat (FindPromise_loop ps (i + 1) w - (i + 1)))) by lia. done.
Qed.

(** [FindPromise] finds the promise of that name, without regard to case. *)
Lemma FindPromise_names w i : chars w -> 0 <= i -> (FindPromise w = i <-> names i w).
Proof.
  intros W Hi. destruct (FindPromise_loop_found kPledge 0 w (fun p Hp => proj1 (pname_chars p Hp)) W ltac:(lia)) as [[E H]|(L & p & Hp & K)]; fold (FindPromise w) in *.
  - rewrite E. split; [lia|]. intros (p & _ & Hp & K). destruct (H p); [by eapply list_elem_of_lookup_2|done].
  - rewrite Z.sub_0_r in Hp. split; [intros <-; by exists p|]. intros (q & _ & Hq & K'). pose proof names_are_ok as [_ N%bool_decide_eq_true]%andb_true_iff.
    assert (pname p = pname q) as E.
    { rewrite <- (proj2 (pname_chars p (list_elem_of_lookup_2 _ _ _ Hp))), <- (proj2 (pname_chars q (list_elem_of_lookup_2 _ _ _ Hq))). congruence. }
    apply Z2Nat.inj; [done|done|]. eapply NoDup_lookup; [exact N| |]; rewrite list_lookup_fmap; [by rewrite Hp|]. rewrite Hq. cbn. by rewrite E.
Qed.

Lemma FindPromise_none w : chars w -> FindPromise w = -1 -> forall i, ~ names i w.
Proof. intros W E i H. pose proof H as (p & Hi & _). apply FindPromise_names in H; [lia|done|done]. Qed.

Lemma words_chars s w : chars s -> w ∈ words s -> chars w.
Proof.
  unfold words. intros C [_ Hw]%list_elem_of_filter. revert w Hw. induction C as [|x s Hx C IH]; intros w Hw; [by apply list_elem_of_singleton in Hw as ->|].
  cbn [split] in Hw. destruct (split_cons s) as (u & us & E). rewrite E in *. destruct (is_sep x).
  - apply elem_of_cons in Hw as [->|Hw]; [done|by apply IH].
  - apply elem_of_cons in Hw as [->|Hw]; [constructor; [done|]; apply IH, list_elem_of_here|apply IH; by apply list_elem_of_further].
Qed.

(** C28: Promises are parsed word by word. A string is accepted exactly if it is shorter than the buffer and all of its words
    name promises, in any case and with any blanks between them; then the bit of a promise is clear exactly
    if one of the words names it. Nothing else is accepted, and the promises of before have no part in it. *)
Theorem ParsePromises_exact (s : bytes) (current : Z) :
  chars s ->
  match ParsePromises (Some s) current with
  | Some ip =>
      (length s < 256)%nat /\ (forall w, w ∈ words s -> exists i, names i w) /\
      forall i, 0 <= i < 64 -> (made ip i <-> exists w, w ∈ words s /\ names i w)
  | None => (256 <= length s)%nat \/ exists w, w ∈ words s /\ forall i, ~ names i w
  end.
Proof.
  intros C. unfold ParsePromises. destruct (Nat.ltb_spec (length s) 256) as [L|L]; [|by left]. pose proof (parse_loop_spec (S (length s)) s (2 ^ 64 - 1) ltac:(lia)) as P.
  destruct (parse_loop _ _ _) as [ip|].
  - destruct P as [H1 H2]. split; [done|]. split.
    + intros w Hw. destruct (FindPromise_range w) as [E|R]; [by destruct (H1 w Hw)|]. exists (FindPromise w). apply FindPromise_names; [by eapply words_chars|lia|done].
    + intros i Hi. unfold made. rewrite H2 by done. replace (Z.testbit (2 ^ 64 - 1) i) with true by (symmetry; change (2 ^ 64 - 1) with (Z.ones 64); apply Z.ones_spec_low; lia).
      cbn [andb]. rewrite negb_false_iff, existsb_exists. split.
      * intros (w & Hw%list_elem_of_In & E%Z.eqb_eq). exists w. split; [done|]. apply FindPromise_names; [by eapply words_chars|lia|done].
      * intros (w & Hw & N). exists w. split; [by apply list_elem_of_In|]. apply Z.eqb_eq, FindPromise_names; [by eapply words_chars|lia|done].
  - right. destruct P as (w & Hw & E). exists w. split; [done|]. apply FindPromise_none; [by eapply words_chars|done].
Qed.

Lemma ParsePromises_exact_witness : exists ip, ParsePromises (Some (bstr "stdio  RPath")) 0 = Some ip /\ made ip PROMISE_RPATH.
Proof.
  pose proof (ParsePromises_exact (bstr "stdio  RPath") 0) as H. exists (mask_of [PROMISE_STDIO; PROMISE_RPATH]). split; [vm_compute; reflexivity|].
  replace (ParsePromises (Some (bstr "stdio  RPath")) 0) with (Some (mask_of [PROMISE_STDIO; PROMISE_RPATH])) in H by (vm_compute; reflexivity).
  destruct H as (_ & _ & H); [repeat constructor; lia|]. apply H; [unfold PROMISE_RPATH; lia|]. exists (bstr "RPath"). split.
  - apply (bool_decide_unpack _). vm_compute. exact I.
  - eexists. split; [unfold PROMISE_RPATH; lia|]. split; [reflexivity|]. vm_compute. reflexivity.
Defined.

(* ------------------------------------------------------------------ *)
(** ** What is pledged *)

Lemma testbit_not x i : 0 <= i < 64 -> Z.testbit (u64 (Z.lnot x)) i = negb (Z.testbit x i).
Proof. intros Hi. unfold u64. by rewrite Z.mod_pow2_bits_low, Z.lnot_spec by lia. Qed.

Lemma exec_bit ip : Z.land (u64 (Z.lnot ip)) (Z.shiftl 1 PROMISE_EXEC) = 0 <-> ~ made ip PROMISE_EXEC.
Proof.
  unfold made. rewrite not_false_iff_true. split.
  - intros E. apply (f_equal (fun z => Z.testbit z PROMISE_EXEC)) in E. rewrite Z.land_spec, testbit_not, Z.shiftl_1_l, Z.pow2_bits_true, Z.bits_0, andb_true_r in E by (unfold PROMISE_EXEC; lia).
    by apply negb_false_iff.
  - intros E. apply Z.bits_inj'. intros i Hi. rewrite Z.land_spec, Z.bits_0, Z.shiftl_1_l, Z.pow2_bits_eqb by (unfold PROMISE_EXEC; lia).
    destruct (Z.eqb_spec PROMISE_EXEC i) as [<-|]; [|apply andb_false_r]. rewrite testbit_not, E by (unfold PROMISE_EXEC; lia). done.
Qed.

(** Promises for executed programs that are not among those for the program itself. *)
Definition exceeds (ip iexec : Z) : Prop := exists i, 0 <= i < 64 /\ i <> PROMISE_EXEC /\ made iexec i /\ ~ made ip i.

(** What the code keeps for executed programs, with exec carried over, and whether it finds too much in there. *)
Lemma exec_carried ip iexec i : 0 <= i < 64 ->
  made (u64 (Z.lnot (Z.lor (u64 (Z.lnot iexec)) (Z.land (u64 (Z.lnot ip)) (Z.shiftl 1 PROMISE_EXEC))))) i <->
  made iexec i \/ (i = PROMISE_EXEC /\ made ip PROMISE_EXEC).
Proof.
  intros Hi. unfold made. rewrite testbit_not, Z.lor_spec, Z.land_spec, !testbit_not, Z.shiftl_1_l, Z.pow2_bits_eqb by (done || (unfold PROMISE_EXEC; lia)).
  destruct (Z.eqb_spec PROMISE_EXEC i) as [<-|N].
  - destruct (Z.testbit iexec PROMISE_EXEC), (Z.testbit ip PROMISE_EXEC); cbn; naive_solver.
  - rewrite andb_false_r, orb_false_r, negb_involutive. naive_solver.
Qed.

Lemma subset_bits ip iexec : 0 <= ip < 2 ^ 64 ->
  Z.land ip (u64 (Z.lnot iexec)) = 0 <-> forall i, 0 <= i < 64 -> made iexec i -> made ip i.
Proof.
  intros B. unfold made. split.
  - intros E i Hi M. apply (f_equal (fun z => Z.testbit z i)) in E. by rewrite Z.land_spec, testbit_not, Z.bits_0, M, andb_true_r in E by done.
  - intros H. apply Z.bits_inj'. intros i Hi. rewrite Z.land_spec, Z.bits_0. destruct (decide (i < 64)) as [L|L].
    + rewrite testbit_not by lia. specialize (H i ltac:(lia)). destruct (Z.testbit iexec i); [apply andb_false_r|]. by rewrite H.
    + rewrite (Z.bits_above_log2 ip i); [done|lia|]. destruct (decide (ip = 0)) as [->|]; [cbn; lia|]. apply Z.log2_lt_pow2; [lia|].
      apply Z.lt_le_trans with (2 ^ 64); [lia|]. apply Z.pow_le_mono_r; lia.
Qed.

Lemma parse_loop_range fuel : forall s ip r, 0 <= ip < 2 ^ 64 -> parse_loop fuel s ip = Some r -> 0 <= r < 2 ^ 64.
Proof.
  induction fuel as [|fuel IH]; intros s ip r B; cbn [parse_loop]; [done|].
  destruct (strtok_r is_sep s) as [[w|] st]; [|by intros [= <-]]. destruct (_ =? -1); [done|].
  apply IH. set (m := u64 _). assert (0 <= m) as Hm by (apply Z.mod_pos_bound; lia).
  assert (0 <= Z.land ip m) as Hl by (apply Z.land_nonneg; lia). split; [done|].
  destruct (decide (Z.land ip m = 0)) as [->|N]; [lia|]. apply Z.log2_lt_pow2; [lia|].
  pose proof (Z.log2_land ip m ltac:(lia) Hm). assert (Z.log2 ip < 64); [|lia].
  destruct (decide (ip = 0)) as [->|]; [cbn; lia|]. apply Z.log2_lt_pow2; lia.
Qed.



(** exec with no promises for executed programs is not refused: they inherit the promises. *)
Lemma exec_without_promises :
  pledge (fun _ => 0) 0 7 7 0 true {| __promises := 0; __execpromises := 0 |} (Some (bstr "stdio exec")) None =
  Some {| rc := 0; err := 0; after := {| __promises := mask_of [PROMISE_STDIO; PROMISE_EXEC]; __execpromises := mask_of [PROMISE_STDIO; PROMISE_EXEC] |} |}.
Proof. vm_compute. reflexivity. Qed.

(* ------------------------------------------------------------------ *)
(** ** What is logged *)

Definition unknown : bytes := bstr "unknown".

Fixpoint name_loop (l : list (Z * bytes)) (n : Z) : bytes :=
  match l with [] => unknown | (k, s) :: l => if k =? n then s else name_loop l n end.
Definition GetSyscallName (n : Z) : bytes := name_loop kSyscallName n.

Fixpoint has_loop (l : list Z) (n : Z) : Z :=
  match l with [] => 0 | x :: l => if x =? n then 1 else if Z.land x 0xfff =? n then 2 else has_loop l n end.
Definition HasSyscall (p : Pledges) (n : Z) : Z := has_loop (syscalls p) n.

(** [FixCpy], up to its NUL; [k] is a multiple of 4. *)
Fixpoint FixCpy (digits : nat) (x : Z) : bytes :=
  match digits with O => [] | S d => tab (bstr "0123456789abcdef") (Z.land (Z.shiftr x (4 * Z.of_nat d)) 15) :: FixCpy d x end.

(** What [OnSigSys] writes to standard error for a system call, [si->si_syscall], that was trapped. *)
Definition protected_message (n : Z) (p : Pledges) : bytes :=
  bstr "error: protected syscall " ++ GetSyscallName n ++ bstr " (ord=" ++ FixCpy 3 n ++ bstr "); pledge promise '" ++ pname p ++ bstr "' to allow" ++ [10].
Definition bad_message (n : Z) : bytes := bstr "error: bad syscall " ++ GetSyscallName n ++ bstr " (ord=" ++ FixCpy 3 n ++ bstr ")" ++ [10].

Definition OnSigSys_log (syscall : Z) : list bytes :=
  let n := u16 syscall in
  let l := protected_message n <$> filter (fun p => HasSyscall p n <> 0) kPledge in
  match l with [] => [bad_message n] | _ => l end.

Lemma has_loop_spec l n : has_loop l n <> 0 <-> exists x, x ∈ l /\ (x = n \/ Z.land x 0xfff = n).
Proof.
  induction l as [|x l IH]; cbn [has_loop]; [split; [done|by intros (x & []%not_elem_of_nil & _)]|].
  destruct (Z.eqb_spec x n) as [E|E]; [split; [|done]; intros _; exists x; split; [apply list_elem_of_here|by left]|].
  destruct (Z.eqb_spec (Z.land x 0xfff) n) as [F|F]; [split; [|done]; intros _; exists x; split; [apply list_elem_of_here|by right]|].
  rewrite IH. split; intros (y & Hy & K); exists y; (split; [|done]); [by apply list_elem_of_further|]. apply elem_of_cons in Hy as [->|Hy]; [by destruct K|done].
Qed.

Lemma calls_have_names : forallb (fun p => forallb (fun x => negb (bool_decide (GetSyscallName (Z.land x 0xfff) = unknown))) (syscalls p)) kPledge = true.
Proof. vm_compute. reflexivity. Qed.

(** The log of a violation helps: each promise that would have allowed the call is named, and so is the call. *)
Lemma log_helps pid p d :
  p ∈ kPledge -> group_permits pid (syscalls p) d = true ->
  protected_message (sysno d) p ∈ OnSigSys_log (sysno d) /\ GetSyscallName (sysno d) <> unknown.
Proof.
  intros In G. pose proof tables_small as [_ Sm]%andb_true_iff. rewrite forallb_forall in Sm. specialize (Sm p (proj1 (list_elem_of_In _ _) In)).
  destruct (group_permits_entry _ _ _ Sm G) as (x & Hx & N & _). assert (0 <= sysno d < 2 ^ 16) as B.
  { rewrite <- N. change 0xfff with (2 ^ 12 - 1). rewrite land_mask by lia. pose proof (Z.mod_pos_bound x (2 ^ 12) ltac:(lia)). lia. }
  split.
  - unfold OnSigSys_log, u16. rewrite Z.mod_small by lia. assert (protected_message (sysno d) p ∈ protected_message (sysno d) <$> filter (fun p => HasSyscall p (sysno d) <> 0) kPledge) as M.
    { apply list_elem_of_fmap. exists p. split; [done|]. apply list_elem_of_filter. split; [|done]. apply has_loop_spec. exists x. split; [done|by right]. }
    destruct (protected_message (sysno d) <$> _) as [|y l]; [by apply not_elem_of_nil in M|exact M].
  - pose proof calls_have_names as Q. rewrite forallb_forall in Q. specialize (Q p (proj1 (list_elem_of_In _ _) In)). rewrite forallb_forall in Q.
    specialize (Q x (proj1 (list_elem_of_In _ _) Hx)). rewrite N in Q. apply negb_true_iff in Q. by apply bool_decide_eq_false in Q.
Qed.
