(* ===== verification/Links.v ===== *)
(** * What the parsers assume of memory functions

    The models of the parsers call memmem, memrchr, strchr and memmove as functions on lists of bytes. Here
    these are what the functions in memory compute, on every path that the machine may choose. *)

From S2P Require Import Prelude Memory Strings Memcmp Memmove Substring Unchunk Numbers HttpHeaders.

Lemma is_prefix_spec n h : is_prefix id n h = bool_decide (n `prefix_of` h).
Proof.
  revert h. induction n as [|x n IH]; intros h; cbn [is_prefix].
  - rewrite bool_decide_true by apply prefix_nil. by destruct h.
  - destruct h as [|y h]; [by rewrite bool_decide_false by apply prefix_nil_not|]. rewrite IH. unfold id. apply eq_true_iff_eq. rewrite andb_true_iff, Z.eqb_eq, !bool_decide_eq_true. split.
    + intros [-> P]. by apply prefix_cons.
    + intros P. split; [by apply prefix_cons_inv_1 in P|by apply prefix_cons_inv_2 in P].
Qed.

Lemma find_sub_occurs n h : HttpHeaders.memmem h n = bool_decide (is_Some (find_sub id n h)).
Proof.
  induction h as [|y h IH]; cbn [HttpHeaders.memmem find_sub]; rewrite is_prefix_spec.
  - destruct (decide (n `prefix_of` [])); [rewrite !bool_decide_true by (done || by eexists)|rewrite !bool_decide_false by (done || by intros [])]; done.
  - destruct (decide (n `prefix_of` y :: h)); [rewrite !(bool_decide_true (n `prefix_of` y :: h)) by done; by rewrite bool_decide_true by by eexists|].
    rewrite !(bool_decide_false (n `prefix_of` y :: h)) by done. cbn [orb]. rewrite IH. apply bool_decide_ext. by rewrite fmap_is_Some.
Qed.

(** [memmem] in [HeaderHas], which asks whether it gives NULL. *)
Theorem memmem_occurs sse m haystack needle h n fuel :
  well_mapped m -> load m haystack (length h) = Some h -> load m needle (length n) = Some n -> Z.of_nat (length n) < 2 ^ 32 -> 0 < haystack ->
  (2 * length h + length n + 48 <= fuel)%nat ->
  exists r, Substring.memmem sse fuel m haystack (Z.of_nat (length h)) needle (Z.of_nat (length n)) = Some r /\ negb (r =? 0) = HttpHeaders.memmem h n.
Proof.
  intros W Lh Ln B P F. rewrite (memmem_ok sse m haystack needle h n fuel) by done. eexists. split; [done|]. rewrite find_sub_occurs. unfold search_spec.
  destruct (find_sub id n h) as [i|]; [rewrite bool_decide_true by (by eexists); apply negb_true_iff, Z.eqb_neq; lia|]. rewrite bool_decide_false; [done|]. by intros [].
Qed.

(** [memrchr] in [ParseForwarded]. *)
Lemma memrchr_index l c : Numbers.memrchr l c = Z.of_nat <$> last_index (fun x => x =? c) l.
Proof. induction l as [|x l IH]; [done|]. cbn [Numbers.memrchr last_index]. rewrite IH. destruct (last_index _ l) as [i|]; cbn; [f_equal; lia|]. by destruct (x =? c). Qed.

Theorem memrchr_offset sse m s c l fuel : load m s (length l) = Some l -> (length l < 16 * S fuel)%nat ->
  Substring.memrchr sse fuel m s c (Z.of_nat (length l)) = Some (match Numbers.memrchr l (u8 c) with Some i => s + i | None => 0 end).
Proof. intros L F. rewrite (memrchr_exact sse m s c l fuel L F), memrchr_index. unfold memrchr_spec. by destruct (last_index _ l). Qed.

(** [strchr], where a NUL is not looked for. *)
Lemma strchr_index l c : c <> 0 -> Forall (fun b => b <> 0) l -> Numbers.strchr l c = Z.of_nat <$> first (Z.eqb c) (l ++ [0]).
Proof.
  intros Nc. induction 1 as [|x l N _ IH]; cbn [Numbers.strchr app first].
  - by rewrite (proj2 (Z.eqb_neq c 0)).
  - rewrite (Z.eqb_sym x c). destruct (c =? x); [done|]. rewrite (proj2 (Z.eqb_neq x 0)), IH by done. destruct (first _ (l ++ [0])); [|done]. cbn. f_equal. lia.
Qed.

Theorem strchr_offset sse fuel m s c l : well_mapped m -> cstring m s l -> (length l < fuel)%nat -> u8 c <> 0 ->
  Strings.strchr sse fuel m s c = Some (match Numbers.strchr l (u8 c) with Some i => s + i | None => 0 end).
Proof.
  intros W C F N. rewrite (strchr_ok _ _ _ _ _ l W C F). pose proof C as [Nl _]. rewrite (strchr_index l (u8 c) N Nl). unfold strchr_spec. by destruct (first _ (l ++ [0])).
Qed.

(** [memmove] in [Unchunk], within one buffer. *)
Theorem memmove_buffer tiny asan erms half fuel m b p (dst src s : Z) :
  load m b (length p) = Some p -> 0 <= s < 32 * Z.of_nat fuel -> (16 < fuel)%nat -> 0 <= dst -> dst + s <= Z.of_nat (length p) -> 0 <= src -> src + s <= Z.of_nat (length p) ->
  exists m', Memmove.memmove tiny asan erms half fuel m (b + dst) (b + src) s = Some m' /\ load m' b (length p) = Some (Unchunk.memmove p dst src s) /\
    forall a, a < b \/ b + Z.of_nat (length p) <= a -> m' a = m a.
Proof.
  intros L Hs F D1 D2 S1 S2. apply load_Some in L as [_ L]. assert (forall k, 0 <= k < Z.of_nat (length p) -> is_Some (m (b + k))) as M.
  { intros k Hk. rewrite <- (Z2Nat.id k) by lia. rewrite L by lia. apply lookup_lt_is_Some_2. lia. }
  destruct (memmove_copied tiny asan erms half fuel m (b + dst) (b + src) s Hs F) as (m' & E & C).
  { intros k Hk. rewrite <- !Z.add_assoc. split; apply M; lia. }
  exists m'. split; [done|]. unfold Unchunk.memmove, write. set (w := take (Z.to_nat s) (drop (Z.to_nat src) p)). assert (length w = Z.to_nat s) as Lw by (unfold w; rewrite length_take, length_drop; lia).
  assert (length (take (Z.to_nat dst) p) = Z.to_nat dst) as Ld by (rewrite length_take; lia). split.
  - apply load_Some. split; [rewrite !length_app, Ld, Lw, length_drop; lia|]. intros i Hi. rewrite C. destruct (Nat.lt_ge_cases i (Z.to_nat dst)) as [X|X].
    + assert (span 0 s (b + Z.of_nat i - (b + dst)) = false) as -> by offsets. rewrite lookup_app_l, L by lia. by rewrite lookup_take_lt.
    + rewrite lookup_app_r by lia. destruct (Nat.lt_ge_cases i (Z.to_nat (dst + s))) as [Y|Y].
      * assert (span 0 s (b + Z.of_nat i - (b + dst)) = true) as -> by offsets. rewrite lookup_app_l by lia. unfold w. rewrite lookup_take_lt, lookup_drop, <- L by lia. f_equal. lia.
      * assert (span 0 s (b + Z.of_nat i - (b + dst)) = false) as -> by offsets. rewrite lookup_app_r, lookup_drop, L by lia. f_equal. lia.
  - intros a Ha. rewrite C. by assert (span 0 s (a - (b + dst)) = false) as -> by offsets.
Qed.
